(* ===== verification/_CoqProject ===== *)
-Q . S2P
Prelude.v
GoBase.v
GoCrypto.v
Opus.v
Protocol.v
Tts.v
BudgetSpec.v
UsageBudget.v
SpeechBudget.v
SpeechMeter.v
VoiceSession.v
VoiceCore.v
VoiceBooks.v
VoiceTheorems.v
Auth.v
Bearer.v
AccountAuth.v
Replay.v
ActionConsent.v
DeviceClaim.v
Provisioning.v
VoiceServer.v
Ota.v
ControlPlane.v
ControlTheorems.v
StrictJSON.v
GoPath.v
GoWire.v
Companion.v
AccountService.v
EntitlementService.v
AccountTheorems.v
EntitlementTheorems.v
GoDate.v
FactoryTime.v
FactoryTheorems.v
FactoryLiveness.v
FirmwareOrigin.v
OriginTheorems.v
Rollout.v
RolloutTheorems.v
AgentProxy.v
AgentTheorems.v
Generation.v
GenerationText.v
GenerationGuard.v
GenerationAPI.v
GenerationAPITheorems.v
GenerationClient.v
GenerationFleet.v
