(* ===== verification/Prelude.v ===== *)
(** * Verification of the XiaoZhi agent platform gateway

    The program is the Go code under [src/gateway]: the cloud side of a voice
    assistant. A device proves its identity to the control plane, is paired with an
    owner, obtains short-lived tokens, and talks to the voice gateway over a
    WebSocket; speech and language services are paid for and therefore budgeted;
    actions with effects need the owner's consent on a companion app; and the whole
    fleet of replicas moves from one release generation to the next together. This
    development models the packages that carry that logic and proves what they
    promise, and the services that compose them: the control plane, the voice gateway,
    the agent proxy, the account service, the firmware origin and the factory's time
    authority, with the approved rollouts that decide which firmware the devices are
    offered. What is left out is listed at the end.

    ** Files and the code they model (paths under [src/gateway/internal])

    - [Prelude]: results of fallible Go code, guard clauses ([IF .. RETURN .. ;;]),
      tactics, sums and filters over finite maps, selection loops, invariants of step
      relations.
    - [GoBase]: the language and standard library: 64-bit wrap-around, bytes, slices
      that can panic, big-endian numbers, string order, the four base64 encodings,
      [time.Time] as nanoseconds with saturating [Sub], number and date formatting and
      parsing.
    - [GoCrypto]: SHA-256 and HMAC-SHA-256, executable and checked on the published
      test vectors. Nothing is assumed about them unless a theorem says so.
    - [Opus] (opuspacket/packet.go): [Parse], [ValidateMonoDuration].
    - [Protocol] (protocol/v1.go): audio packets, text checks, the hellos, control
      messages.
    - [Tts] (tts/framed_http.go): configuration and the framed stream reader.
    - [BudgetSpec], [UsageBudget], [SpeechBudget] (usagebudget/, speechbudget/):
      prices and the in-memory ledgers, and the abstract daily budget they refine.
    - [SpeechMeter] (gateway/speech_meter.go): the meter of recognised audio against
      the ledger interface, a class whose instance is [SpeechBudget].
    - [VoiceSession] (the [connection] of gateway/handler.go and the synthesis half of
      speech_meter.go): one voice session, its read loop and its synthesis goroutines
      as a step function; [VoiceCore], [VoiceBooks]: what is said and what is paid,
      with the invariants of every step; [VoiceTheorems]: their consequences.
    - [Auth] (auth/token.go, issuer.go, managed_keyring.go, managed_transition.go):
      tokens, keyrings and their rotation; [Bearer]: a token through the Authorization
      header and back.
    - [AccountAuth] (accountauth/store.go, push_installation.go, entitlement.go): the
      account ledger.
    - [Replay] (gateway/token_replay.go, registry.go): single use of tokens, one
      connection per device.
    - [ActionConsent] (actionconsent/store.go, wake.go, notifier.go): consent
      challenges and the wake outbox.
    - [DeviceClaim] (deviceclaim/store.go): pairing.
    - [Provisioning] (provisioning/registry.go, identity_snapshot.go, proof.go,
      identityaccess/tracker.go): device identities, device proofs, leases.
    - [VoiceServer] (the [Server] of gateway/handler.go, session.go): admission of
      connections, their table, revocation, shutdown, and the sessions issued; it
      composes [Auth], [Replay], [DeviceClaim] and [Provisioning].
    - [Ota] (ota/releases.go): signed manifests, the ordered registry, offers.
    - [ControlPlane] (controlplane/server.go): the API of devices and companion apps,
      each handler as the steps between which others run; it composes [DeviceClaim],
      [ActionConsent], [Provisioning], [Auth], [AccountAuth] and [Ota];
      [ControlTheorems]: what its answers prove about the requests before them.
    - [StrictJSON] (strictjson/duplicates.go): the walk for duplicate members.
    - [GoPath]: path.Clean, path.Dir, path.Join, strings.Split and the paths of a release
      catalogue.
    - [GoWire]: JSON as Go writes it (quoting, numbers, objects, with injectivity), and
      HTTP requests, answers and headers as values.
    - [Companion] (auth/companion_jwt.go, companion_status.go): the tokens of companion
      apps, and the client that asks the account service about them.
    - [AccountService] (accountauth/service.go, handler.go, access_handler.go,
      push_token_protector.go, push_installation_handler.go): issuing tokens for a
      session, the introspection, access and push handlers over [AccountAuth];
      [AccountTheorems]: the app, the control plane and the account service together.
    - [EntitlementService] (accountauth/entitlement_http.go, entitlement_update_http.go,
      entitlement_update_keyring.go, entitlement_update_client.go): signed updates and
      queries of entitlements, both ends; [EntitlementTheorems].
    - [GoDate]: an instant is read back from its text.
    - [FactoryTime] (factorytime/contract.go, authority.go, handler.go, postgres.go,
      remote_signer.go, signer_server.go, postgres_signer.go, and the tables of
      migrations/factorytime): the trusted-time authority of the factory, its ledger, the
      client of the external signer and the signing service; [FactoryTheorems]: what a
      receipt is worth; [FactoryLiveness]: that an enrolled station gets one.
    - [FirmwareOrigin] (firmwareorigin/catalog.go, server.go and the checks of config.go):
      the catalogue of images and the download handlers as steps; [OriginTheorems]: which
      bytes are sent, to whom, and that an offered image can be downloaded.
    - [Rollout] (deploymentbundle/rollout.go, validate.go, and the files of ota/releases.go):
      the requests, the two approvals and the lineage of a rollout, the tree of a bundle;
      [RolloutTheorems]: the state machine the lineage refines, and what is offered.
    - [AgentProxy] (agentproxy/proxy.go and the checks of config.go): the proxy to the
      language model, its handlers as steps; [AgentTheorems]: its limits and accounts.
    - [Generation] (generation/state.go): the release coordinator and its record
      directory; [GenerationText]: the text of a valid record determines it, so that a
      decoder which reads back a directory exists; [GenerationGuard] (generation/guard.go and the views of api.go and
      client.go): the replicas, and the system of a coordinator and its replicas;
      [GenerationAPI] (generation/api.go, client.go, registry.go): the signed requests of
      publishers and replicas, the coordinator's handlers and its client;
      [GenerationAPITheorems]: which keys a change of generation needs, over all processes
      that the coordinator has ever had (the start of cmd/generationcoordinator/main.go);
      [GenerationClient]: the client against the server; [GenerationFleet]: a run with
      the largest fleet, followed symbolically.

    ** How the code is modelled

    A method is a function from its receiver and arguments to the new receiver and its
    result; every early return is a branch with its error. A method that holds a mutex
    is one step; a method that takes a lock several times gets the shared state at each
    of them ([Provisioning.authorize]). The clock, random bytes, file faults and
    contexts are arguments, so that a run may supply any values; where time matters a
    run is a step relation whose clock does not go back. Go maps are [gmap]s; a loop
    over a map is either independent of the order, and then a filter or [fmap], or a
    fold whose independence is proved. Integers are [Z] with the wrap-around of their
    Go type written out wherever a value can reach it.

    A handler that uses several stores is a task that moves by steps; a run is any list
    of arrivals and steps of the handlers under way, so that it covers every interleaving
    at the granularity of the locks.

    What is not under [src] is an argument: the JSON decoder (Decode is any function;
    Marshal is written out), [url.Parse], Ed25519 verification, the shared
    coordinator's answers. Theorems that need something of them name it: a decoder that
    reads back what Marshal wrote ([OpenStore_recovers], [issued_token_verifies], and
    [reads_back] for the restarts of [no_two_generations_served] and
    [generation_needs_every_key], whose runs exercise them), or
    two messages that do not collide under SHA-256 ([entitlement_event_idempotent]).
    [no_two_generations_served] bounds by 5 s (the drain minus the lease) the time a
    call to the coordinator may wait between reading the clock and taking its lock; it
    assumes nothing about the delay of answers.

    ** What is shown

    - Money: spending plus open reservations never exceeds the daily budget, each
      ledger refines the abstract budget, and the meter charges exactly the audio it
      forwarded ([UsageBudget], [SpeechBudget], [SpeechMeter]).
    - Tokens: a verified token was signed by a key of the ring that admits it, for this
      audience, and has not expired; issued tokens verify; a permitted key rotation
      keeps every live token; a token opens one connection ([Auth], [Replay]).
    - Voice: whatever the interleaving of its goroutines a session speaks in order, one
      request at a time, and nothing of a request after its abort or cancellation; every synthesis is paid
      for exactly once; the slot of the active request is not lost; in any minute at
      most twice the limit of messages is accepted ([VoiceTheorems]). A device has at
      most one connection, which was properly authorized, and which is told to stop
      when its identity is revoked or its ownership changes; an issued session opens
      the gateway ([VoiceServer]).
    - Agent requests: the provider is called only under a reservation, and it is that
      reservation which is settled or forfeited, exactly once; the metrics add up to what the ledger booked; without a
      shared coordinator (with one, it keeps the limits) the counters of a device and of
      the proxy are exactly the handlers that run ([AgentTheorems]). A provider answer
      with duplicate members is never read for its usage ([StrictJSON]).
    - The control plane: a decision reaches a device only if the device asked, the app
      of its owner answered and one ownership held throughout; an owner has paired from
      both sides; a token is for the owner in force, who is entitled to that service, and
      ends with the entitlement; an
      offered release fits the device and its token opens that image only
      ([ControlTheorems]).
    - Devices: a proof is accepted once but for two gaps, binds its whole request, is checked against
      the snapshot in force, and is rate limited ([Provisioning]).
    - Accounts: a revoked token or session never works again; only a resumption lifts a
      suspension; push addresses are unique; entitlements have one history per account
      ([AccountAuth]).
    - Companion apps: a request is let in only with a signed token that the account ledger
      has on record at that moment; after a logout, suspension or revocation the app is
      locked out for ever; a token that the service issues is accepted until it expires;
      access for a consent is granted exactly when a token was registered; a sealed push
      token opens only for its own installation ([AccountTheorems]).
    - Entitlements over HTTP: only a signed update changes the ledger, what the billing
      side is told about an update is what the ledger did, and a remote query answers as
      the ledger does ([EntitlementTheorems]).
    - Ownership and consent: pairing needs both sides and a released binding never
      returns ([DeviceClaim]); an action needs one decided, unexpired challenge, once;
      at most one notifier holds a wake ([ActionConsent]).
    - Releases: the active generation changes only by the two-phase protocol, no two
      replicas serve different generations, and the store recovers from a crash at any
      file operation ([Generation], [GenerationGuard]); over the network, a generation
      becomes active only after the key of every required replica has signed for it,
      wherever the coordinator was restarted in between, one process accepts a request
      once but for three gaps ([GenerationAPITheorems]), and a client
      reads the coordinator's state exactly when it fits into an answer
      ([state_read_back] in [GenerationClient]); a device is offered exactly the newest
      verified release that is rolled out to it ([Ota]).
    - Rollouts: a rollout that loads was signed by two different people with different
      keys, its chain of requests is a run of the rollout state machine (expansions,
      emergency stops and resumptions, after staging), a device is offered only releases within
      what was approved, and a bundle holds exactly the files it declares
      ([RolloutTheorems]).
    - Firmware: the file named by the token had the catalogue's digest when it was opened,
      the bytes sent are those of the file as it is at each read, and a prefix of the
      verified image if nothing changes it meanwhile; a revoked device stops receiving; the copy loop ends; a release
      the control plane offers downloads completely ([OriginTheorems]).
    - Factory time: a receipt states the database's time of a request that an enrolled
      station made, over its own certificate, and whose identifier and nonce are used up;
      the signer signs at most one receipt for a request, whatever the authority asks for;
      and no check between the station and the key service refuses what the others let
      through ([FactoryTheorems], [FactoryLiveness]).
    - Parsers: the Opus parser never reads out of bounds, accepts exactly the well-formed
      packets, and reports the durations of the table of RFC 6716; the TTS stream and the audio framing round-trip ([Opus],
      [Tts], [Protocol]).

    Defects were found: a generation that misses its convergence deadline can
    never converge ([late_generation_never_converges]); a key identifier with a dot
    yields tokens that never verify ([dotted_key_never_verifies]); a device proof can
    be replayed at one exact instant (the exception of [proof_accepted_once], realised
    by its witness); with more than 1000 connected devices no change of ownership ends
    a voice session ([released_device_disconnected]); the identifier of the staging
    generation can be taken by a later one ([staging_name_reused]); a fleet of the
    largest size that the coordinator allows cannot read its state in mid-rollout
    ([full_fleet_goes_blind]); a request to the coordinator with a timestamp centuries
    ahead passes the check of the clocks and can be replayed
    ([api_request_accepted_once], [far_request_replayed]).

    ** Fuel

    The recursions are structural, on the input or on a list, but for the decoding of
    UTF-8 runes and the trimming of white space in [Protocol], which take the length of
    the input as fuel (a rune is at least one byte), and the frame loop of [Tts], which
    takes the length of the body (a frame has at least its header); [Stream_complete]
    shows that this is enough; the walk of [StrictJSON] takes twice the number of
    tokens, and [RejectDuplicateFields_exact] covers every document; the walk to the
    parents of a bundle path takes the length of the path ([parents_enough]); the quoting
    of a JSON text takes its length, as does its replacement of ill-formed bytes; the walk over the members of a token takes the
    number of JSON tokens ([distinct_members_exact]); the copy
    loop of a download recurses on its reads and [copy_exact_and_ends] bounds their
    number. Counted loops of the code (attempts to draw a random identifier, to
    acknowledge) recurse on their count. Loops of the code that could run
    for ever (the periodic reloads, the notifier) are represented by their round.

    ** Not modelled

    The bytes of HTTP answers other than those of the account service, the time
    authority and the coordinator, a change of the coordinator's state key, the renewal
    of shared leases, the
    PostgreSQL adapters other than that of the time authority, certificates and file
    permissions, symbolic links and locks of the record directory, the
    arithmetic of Ed25519, ECDSA and AES-GCM, the S3-CAM development gateway (the service of one
    development board), the validation of OCI images, the qualification tools,
    telemetry and the parsing of the environment: they are input and output around the
    logic above, or call libraries that are not part of the repository. *)

From stdpp Require Import base gmap strings list fin_maps sorting.
From Stdlib Require Import ZArith Lia.

#[global] Open Scope Z_scope.

(** ** Results of fallible Go functions

    A Go function returning [(A, error)] is modelled by a function into
    [result E A], where [E] enumerates the sentinel errors of its package. *)

Inductive result (E A : Type) : Type :=
| Ok (a : A)
| Err (e : E).
Arguments Ok {E A} a.
Arguments Err {E A} e.

#[global] Instance result_eq_dec {E A} `{EqDecision E, EqDecision A} :
  EqDecision (result E A).
Proof. solve_decision. Defined.

Definition is_ok {E A} (r : result E A) : bool :=
  match r with Ok _ => true | Err _ => false end.

(** [IF b RETURN r ;; k] is Go's guard clause [if b { return r }; k]. *)
Declare Scope go_scope.
Delimit Scope go_scope with go.
Notation "'IF' b 'RETURN' r ';;' k" := (if b then r else k)
  (at level 10, b at level 99, r at level 99, k at level 200, only parsing) : go_scope.

(** [TRY x := r ;; k] is Go's [x, err := r; if err != nil { return err }; k]. *)
Notation "'TRY' x ':=' r ';;' k" :=
  (match r with Ok x => k | Err e => Err e end)
  (at level 10, x pattern, r at level 99, k at level 200,
   format "'[v' 'TRY'  x  ':='  r ';;' '//' k ']'") : go_scope.

#[global] Open Scope go_scope.

(** ** Automation *)

Create HintDb gateway.

(** Split every boolean connective of the context into its literals. *)
Ltac split_bools :=
  repeat match goal with
  | H : context [is_Some _] |- _ => progress unfold is_Some in H
  | H : negb _ = true |- _ => apply negb_true_iff in H
  | H : negb _ = false |- _ => apply negb_false_iff in H
  | H : (_ && _) = true |- _ => apply andb_true_iff in H as [? ?]
  | H : (_ || _) = false |- _ => apply orb_false_iff in H as [? ?]
  | H : (?x =? ?y) = true |- _ => apply Z.eqb_eq in H
  | H : (?x =? ?y) = false |- _ => apply Z.eqb_neq in H
  | H : (?x <? ?y) = true |- _ => apply Z.ltb_lt in H
  | H : (?x <? ?y) = false |- _ => apply Z.ltb_ge in H
  | H : (?x <=? ?y) = true |- _ => apply Z.leb_le in H
  | H : (?x <=? ?y) = false |- _ => apply Z.leb_gt in H
  | H : bool_decide _ = true |- _ => apply bool_decide_eq_true in H
  | H : bool_decide _ = false |- _ => apply bool_decide_eq_false in H
  end.

(** Walk down every guard clause and match of the goal and hypotheses. *)
Ltac go_cases :=
  repeat (case_match; simplify_eq/=; try done).

(** Same, and turn the guards into propositions. *)
Ltac go_branches := go_cases; split_bools; simplify_eq/=.

(** The first guard clause of the function whose result the goal assumes. *)
Tactic Notation "guard" ident(H) :=
  cbv zeta;
  lazymatch goal with
  | |- (if ?b then _ else _) = _ → _ => destruct b eqn:H; [try done|]
  end.

(** ** Sums over finite maps

    The budget ledgers keep, per day and subject, a running total of the
    amounts held by the open reservations; [map_sum] is that total computed
    from the reservations themselves. *)

Section map_sum.
Context {K V : Type} `{Countable K}.
Implicit Types (m : gmap K V) (f : K → V → Z).

Definition map_sum f m : Z := map_fold (λ k v acc, f k v + acc) 0 m.

Lemma map_sum_empty f : map_sum f ∅ = 0.
Proof. done. Qed.

Lemma map_sum_insert f m k v :
  m !! k = None → map_sum f (<[k:=v]> m) = f k v + map_sum f m.
Proof.
  intros Hk. unfold map_sum. rewrite map_fold_insert_L; [done| |done].
  intros. lia.
Qed.

Lemma map_sum_delete f m k v :
  m !! k = Some v → map_sum f m = f k v + map_sum f (delete k m).
Proof.
  intros Hk. rewrite <- (insert_delete_id m k v) at 1 by done.
  apply map_sum_insert, lookup_delete_eq.
Qed.

Lemma map_sum_nonneg f m :
  (∀ k v, m !! k = Some v → 0 ≤ f k v) → 0 ≤ map_sum f m.
Proof.
  induction m as [|k v m Hk IH] using map_ind; intros Hf.
  { rewrite map_sum_empty. lia. }
  rewrite map_sum_insert by done.
  specialize (Hf k v (lookup_insert_eq _ _ _)) as Hv.
  enough (0 ≤ map_sum f m) by lia. apply IH. intros k' v' Hk'.
  apply Hf. rewrite lookup_insert_ne; congruence.
Qed.

Lemma map_sum_ge f m k v :
  (∀ k v, m !! k = Some v → 0 ≤ f k v) → m !! k = Some v → f k v ≤ map_sum f m.
Proof.
  intros Hf Hk. rewrite (map_sum_delete f m k v Hk).
  enough (0 ≤ map_sum f (delete k m)) by lia.
  apply map_sum_nonneg. intros k' v' Hk'.
  apply Hf. by apply lookup_delete_Some in Hk' as [_ ?].
Qed.

Lemma map_sum_ext f g m :
  (∀ k v, m !! k = Some v → f k v = g k v) → map_sum f m = map_sum g m.
Proof.
  induction m as [|k v m Hk IH] using map_ind; intros Hf; [done|].
  rewrite !map_sum_insert by done. f_equal.
  - apply Hf. apply lookup_insert_eq.
  - apply IH. intros k' v' Hk'. apply Hf. rewrite lookup_insert_ne; congruence.
Qed.

End map_sum.

Lemma map_sum_fmap {K V W} `{Countable K} (g : V → W) (f : K → W → Z)
    (m : gmap K V) :
  map_sum f (g <$> m) = map_sum (λ k v, f k (g v)) m.
Proof.
  induction m as [|k v m Hk IH] using map_ind; [by rewrite fmap_empty|].
  rewrite fmap_insert, !map_sum_insert by (by rewrite ?lookup_fmap, ?Hk).
  by rewrite IH.
Qed.

(** ** Filtering finite maps with a boolean test

    Go's [for k, v := range m { if b(k, v) { delete(m, k) } }]. The iteration
    order of a Go map is unspecified; deleting by a test that reads only the
    entry itself gives the same map in every order, which is what the filter
    is. *)

Definition map_keep {K V} `{Countable K} (b : K → V → bool) (m : gmap K V) :
  gmap K V := filter (λ kv, b kv.1 kv.2 = true) m.

Lemma map_keep_lookup {K V} `{Countable K} (b : K → V → bool) (m : gmap K V) k :
  map_keep b m !! k =
  match m !! k with
  | Some v => if b k v then Some v else None
  | None => None
  end.
Proof.
  unfold map_keep. destruct (m !! k) as [v|] eqn:Hk.
  - destruct (b k v) eqn:Hb.
    + by apply map_lookup_filter_Some.
    + apply map_lookup_filter_None. right. intros v' Hv'. simplify_eq/=.
      by rewrite Hb.
  - apply map_lookup_filter_None. by left.
Qed.

Lemma map_keep_Some {K V} `{Countable K} (b : K → V → bool) (m : gmap K V) k v :
  map_keep b m !! k = Some v ↔ m !! k = Some v ∧ b k v = true.
Proof.
  rewrite map_keep_lookup. destruct (m !! k) as [w|]; [|by split; [|intros [??]]].
  destruct (b k w) eqn:Hb; split.
  - by intros [= <-].
  - by intros [? ?].
  - done.
  - intros [[= <-] ?]. congruence.
Qed.

Lemma map_keep_size {K V} `{Countable K} (b : K → V → bool) (m : gmap K V) :
  (size (map_keep b m) ≤ size m)%nat.
Proof. apply map_subseteq_size, map_filter_subseteq. Qed.

(** Deleting the entries a test rejects, key by key along any list that visits
    the whole map, is [map_keep]. *)
Fixpoint delete_along {K V} `{Countable K} (b : K → V → bool)
    (order : list (K * V)) (m : gmap K V) : gmap K V :=
  match order with
  | [] => m
  | kv :: order => delete_along b order (if b kv.1 kv.2 then m else delete kv.1 m)
  end.

Lemma delete_along_lookup {K V} `{Countable K} (b : K → V → bool) order
    (m : gmap K V) k :
  delete_along b order m !! k =
  if existsb (λ kv, bool_decide (kv.1 = k) && negb (b kv.1 kv.2)) order
  then None else m !! k.
Proof.
  revert m. induction order as [|[k' v'] order IH]; intros m; [done|].
  cbn [delete_along existsb]. rewrite IH. cbn. destruct (b k' v'); cbn.
  - by rewrite andb_false_r.
  - rewrite andb_true_r, lookup_delete.
    case_bool_decide; cbn; destruct (existsb _ _); try case_decide; congruence.
Qed.

Lemma delete_along_keep {K V} `{Countable K} (b : K → V → bool) order
    (m : gmap K V) :
  order ≡ₚ map_to_list m → delete_along b order m = map_keep b m.
Proof.
  intros Hperm. apply map_eq. intros k.
  rewrite delete_along_lookup, map_keep_lookup.
  destruct (existsb _ order) eqn:He.
  - apply existsb_exists in He as ([k' v'] & Hin & Hb).
    apply list_elem_of_In in Hin. rewrite Hperm in Hin.
    apply elem_of_map_to_list in Hin. cbn in Hb. split_bools. subst.
    rewrite Hin. by case_match.
  - destruct (m !! k) as [v|] eqn:Hk; [|done].
    destruct (b k v) eqn:Hb; [done|].
    assert (existsb (λ kv, bool_decide (kv.1 = k) && negb (b kv.1 kv.2)) order
            = true) as Ht; [|congruence].
    apply existsb_exists. exists (k, v). split.
    + apply list_elem_of_In. rewrite Hperm. by apply elem_of_map_to_list.
    + cbn. rewrite bool_decide_true, Hb by done. done.
Qed.

(** ** Selecting the least element

    Go's [var selected *T; for ... { if selected == nil || less(x, selected) {
    selected = x } }] over the entries [f] lets through. *)

Section select.
Context {A B : Type} (f : A → option B) (less : B → B → bool).

Definition select_one (selected : option B) (x : A) : option B :=
  match f x with
  | None => selected
  | Some y =>
      match selected with
      | None => Some y
      | Some s => if less y s then Some y else Some s
      end
  end.

Definition select (xs : list A) : option B := fold_left select_one xs None.

Definition least (xs : list A) (m : B) : Prop :=
  (∃ x, x ∈ xs ∧ f x = Some m) ∧
  ∀ x y, x ∈ xs → f x = Some y → y = m ∨ less m y = true.

(** [less] orders the candidates strictly and totally. *)
Definition strict_on (xs : list A) : Prop :=
  (∀ y z w, less y z = true → less z w = true → less y w = true) ∧
  (∀ y, less y y = false) ∧
  (∀ x x' y y', x ∈ xs → x' ∈ xs → f x = Some y → f x' = Some y' →
     y = y' ∨ less y y' = true ∨ less y' y = true).

Lemma select_snoc xs x : select (xs ++ [x]) = select_one (select xs) x.
Proof. unfold select. by rewrite fold_left_app. Qed.

Lemma select_spec xs :
  strict_on xs →
  match select xs with
  | None => ∀ x, x ∈ xs → f x = None
  | Some m => least xs m
  end.
Proof.
  intros (Htr & Hirr & Htot).
  induction xs as [|x xs IH] using rev_ind; [by intros x Hx%elem_of_nil|].
  rewrite select_snoc. unfold select_one.
  assert (∀ z, z ∈ xs → z ∈ xs ++ [x]) as Hin by set_solver.
  assert (∀ z, z ∈ xs ++ [x] → z ∈ xs ∨ z = x) as Hcases
    by (intros z; rewrite elem_of_app, list_elem_of_singleton; done).
  specialize (IH ltac:(naive_solver)). destruct (f x) as [y|] eqn:Hfx.
  2:{ destruct (select xs) as [m|].
      - destruct IH as [(z & Hz & Hfz) Hmin]. split; [naive_solver|].
        intros z' y' [?| ->]%Hcases Hy'; [eauto|congruence].
      - intros z [?| ->]%Hcases; [eauto|done]. }
  assert (x ∈ xs ++ [x]) as Hx by set_solver.
  destruct (select xs) as [m|].
  - destruct IH as [(z & Hz & Hfz) Hmin]. destruct (less y m) eqn:Hl.
    + split; [eauto|]. intros z' y' [Hz'| ->]%Hcases Hy'; [|left; congruence].
      right. destruct (Hmin z' y' Hz' Hy') as [->|?]; eauto.
    + split; [eauto|]. intros z' y' [Hz'| ->]%Hcases Hy'; [eauto|]. simplify_eq.
      destruct (Htot x z y m) as [?|[?|?]]; eauto; congruence.
  - split; [eauto|]. intros z' y' [Hz'| ->]%Hcases Hy'; [|left; congruence].
    rewrite IH in Hy' by done. done.
Qed.

(** So the choice does not depend on the order of the list. *)
Lemma select_perm xs ys : xs ≡ₚ ys → strict_on xs → select xs = select ys.
Proof.
  intros Hp Hs. assert (strict_on ys) as Hs'.
  { destruct Hs as (? & ? & Htot). split_and!; [done..|].
    intros x x' y y' Hx Hx'. rewrite <- Hp in Hx, Hx'. eauto. }
  pose proof (select_spec xs Hs) as Hxs. pose proof (select_spec ys Hs') as Hys.
  destruct Hs as (Htr & Hirr & _).
  destruct (select xs) as [m|], (select ys) as [m'|]; [| | |done].
  - destruct Hxs as [(x & Hx & Hfx) Hm], Hys as [(x' & Hx' & Hfx') Hm'].
    destruct (Hm x' m') as [->|H1]; [by rewrite Hp|done|done|].
    destruct (Hm' x m) as [->|H2]; [by rewrite <- Hp|done|done|].
    specialize (Htr _ _ _ H1 H2). congruence.
  - destruct Hxs as [(x & Hx & Hfx) _]. rewrite Hp in Hx. by rewrite (Hys x Hx) in Hfx.
  - destruct Hys as [(x & Hx & Hfx) _]. rewrite <- Hp in Hx. by rewrite (Hxs x Hx) in Hfx.
Qed.

End select.

(** ** Reachability

    The long-lived components are transition systems: a labelled step function
    or relation, and the states reached from the initial ones. *)

Lemma rtc_invariant {A} (R : relation A) (P : A → Prop) :
  (∀ x y, P x → R x y → P y) → ∀ x y, P x → rtc R x y → P y.
Proof. intros Hstep x y HP Hr. induction Hr; eauto. Qed.
