(* ===== verification/GoBase.v ===== *)
(** * GoBase: the Go language and standard library used by the gateway

    Machine integers with their wrap-around, bytes and byte strings, big-endian
    encodings, unpadded base64url with Go's leniencies, [time.Time] as
    nanoseconds since the Unix epoch, and the byte-wise order of strings. *)

From stdpp Require Import base gmap strings list fin_maps sorting pretty.
From Stdlib Require Import ZArith Lia.
From Stdlib.Strings Require Import Byte.
From Stdlib.Structures Require OrderedTypeEx.
From S2P Require Import Prelude.

(** ** Machine integers *)

Definition max_int64 : Z := 9223372036854775807.
Definition min_int64 : Z := -9223372036854775808.
Definition wrap_i64 (z : Z) : Z := (z + 2 ^ 63) mod 2 ^ 64 - 2 ^ 63.
Definition wrap_u64 (z : Z) : Z := z mod 2 ^ 64.
Definition wrap_u32 (z : Z) : Z := z mod 2 ^ 32.

Definition in_i64 (z : Z) : Prop := min_int64 ≤ z ≤ max_int64.

Notation "a +i b" := (wrap_i64 (a + b)) (at level 50, left associativity) : go_scope.
Notation "a -i b" := (wrap_i64 (a - b)) (at level 50, left associativity) : go_scope.
Notation "a *i b" := (wrap_i64 (a * b)) (at level 40, left associativity) : go_scope.

Lemma wrap_i64_id z : in_i64 z → wrap_i64 z = z.
Proof.
  unfold in_i64, wrap_i64, min_int64, max_int64. intros.
  rewrite Z.mod_small by lia. lia.
Qed.

Lemma wrap_u64_id z : 0 ≤ z < 2 ^ 64 → wrap_u64 z = z.
Proof. apply Z.mod_small. Qed.

Lemma wrap_u32_id z : 0 ≤ z < 2 ^ 32 → wrap_u32 z = z.
Proof. apply Z.mod_small. Qed.

(** Discharge [wrap_i64] on values [lia] can bound. *)
Ltac no_wrap :=
  repeat match goal with
  | |- context [wrap_i64 ?z] =>
      rewrite (wrap_i64_id z) by (unfold in_i64, min_int64, max_int64 in *; lia)
  | H : context [wrap_i64 ?z] |- _ =>
      rewrite (wrap_i64_id z) in H
        by (unfold in_i64, min_int64, max_int64 in *; lia)
  end.

(** ** Bytes *)

Abbreviation bytes := (list byte).

Definition bval (b : byte) : Z := Z.of_N (Byte.to_N b).
Definition byte_of (z : Z) : byte :=
  match Byte.of_N (Z.to_N (z mod 256)) with Some b => b | None => x00 end.

#[global] Instance byte_eq_dec : EqDecision byte := Byte.byte_eq_dec.
#[global] Instance byte_countable : Countable byte :=
  inj_countable Byte.to_N Byte.of_N Byte.of_to_N.

Lemma bval_range b : 0 ≤ bval b < 256.
Proof. unfold bval. pose proof (Byte.to_N_bounded b). lia. Qed.

(** Add the range of every byte in the context. *)
Ltac bound_bytes :=
  repeat match goal with
  | b : byte |- _ =>
      lazymatch goal with
      | _ : 0 ≤ bval b < 256 |- _ => fail
      | _ => pose proof (bval_range b)
      end
  end.

Lemma bval_byte_of z : bval (byte_of z) = z mod 256.
Proof.
  unfold byte_of, bval. pose proof (Z.mod_pos_bound z 256 ltac:(lia)).
  destruct (Byte.of_N (Z.to_N (z mod 256))) as [b|] eqn:Hb.
  - apply Byte.to_of_N in Hb. rewrite Hb. lia.
  - apply Byte.of_N_None_iff in Hb. lia.
Qed.

Lemma bval_inj b1 b2 : bval b1 = bval b2 → b1 = b2.
Proof.
  unfold bval. intros Heq. assert (Byte.to_N b1 = Byte.to_N b2) as HN by lia.
  pose proof (Byte.of_to_N b1). pose proof (Byte.of_to_N b2). congruence.
Qed.

Lemma byte_of_bval b : byte_of (bval b) = b.
Proof.
  apply bval_inj. rewrite bval_byte_of.
  pose proof (bval_range b). by apply Z.mod_small.
Qed.

Lemma byte_of_eq z b : z mod 256 = bval b → byte_of z = b.
Proof. intros Hz. apply bval_inj. by rewrite bval_byte_of. Qed.

Definition blen (bs : bytes) : Z := Z.of_nat (length bs).

Lemma blen_nonneg bs : 0 ≤ blen bs.
Proof. unfold blen. lia. Qed.

Lemma blen_nil : blen [] = 0.
Proof. done. Qed.

Lemma blen_cons b bs : blen (b :: bs) = 1 + blen bs.
Proof. unfold blen. cbn [length]. lia. Qed.

Lemma blen_app xs ys : blen (xs ++ ys) = blen xs + blen ys.
Proof. unfold blen. rewrite length_app. lia. Qed.

(** Slices [bs[lo:hi]]; [None] is Go's out-of-range panic. *)
Definition slice (bs : bytes) (lo hi : Z) : option bytes :=
  if (0 <=? lo) && (lo <=? hi) && (hi <=? blen bs)
  then Some (firstn (Z.to_nat (hi - lo)) (skipn (Z.to_nat lo) bs))
  else None.

(** Indexing [bs[i]]; [None] is Go's out-of-range panic. *)
Definition index_at (bs : bytes) (i : Z) : option byte :=
  if (0 <=? i) && (i <? blen bs) then bs !! Z.to_nat i else None.

Lemma slice_app pre w suf hi :
  hi = blen pre + blen w → slice (pre ++ w ++ suf) (blen pre) hi = Some w.
Proof.
  intros ->. unfold slice. rewrite !blen_app.
  pose proof (blen_nonneg pre). pose proof (blen_nonneg w).
  pose proof (blen_nonneg suf).
  rewrite !(proj2 (Z.leb_le _ _)) by lia. cbn [andb]. f_equal.
  unfold blen. rewrite Nat2Z.id.
  replace (Z.to_nat _) with (length w) by lia.
  by rewrite drop_app_length, take_app_length.
Qed.

Lemma slice_Some bs lo hi w :
  slice bs lo hi = Some w →
  ∃ pre suf, bs = pre ++ w ++ suf ∧ blen pre = lo ∧ blen w = hi - lo.
Proof.
  unfold slice. case_match; [|done]. split_bools. intros [= <-].
  exists (take (Z.to_nat lo) bs), (drop (Z.to_nat (hi - lo)) (drop (Z.to_nat lo) bs)).
  unfold blen in *. rewrite !take_drop, !length_take, length_drop. split_and!; lia || done.
Qed.

Lemma slice_is_Some bs lo hi :
  0 ≤ lo ≤ hi → hi ≤ blen bs → is_Some (slice bs lo hi).
Proof.
  intros [??] ?. unfold slice. rewrite !(proj2 (Z.leb_le _ _)) by lia. by eexists.
Qed.

(** ** Big-endian integers *)

Fixpoint be_put (n : nat) (z : Z) : bytes :=
  match n with
  | O => []
  | S n => byte_of (z / 256 ^ Z.of_nat n) :: be_put n z
  end.

Fixpoint be_get (bs : bytes) : Z :=
  match bs with
  | [] => 0
  | b :: bs => bval b * 256 ^ blen bs + be_get bs
  end.

Lemma be_put_length n z : length (be_put n z) = n.
Proof. induction n; cbn; congruence. Qed.

Lemma be_get_bound bs : 0 ≤ be_get bs < 256 ^ blen bs.
Proof.
  induction bs as [|b bs IH]; [by cbn|]. cbn [be_get].
  pose proof (bval_range b).
  replace (blen (b :: bs)) with (Z.succ (blen bs)) by (unfold blen; cbn; lia).
  rewrite Z.pow_succ_r by apply blen_nonneg. nia.
Qed.

Lemma be_get_put n z : be_get (be_put n z) = z mod 256 ^ Z.of_nat n.
Proof.
  induction n as [|n IH]; [cbn; by rewrite Z.mod_1_r|].
  cbn [be_put be_get]. rewrite IH, bval_byte_of.
  unfold blen. rewrite be_put_length.
  replace (Z.of_nat (S n)) with (Z.succ (Z.of_nat n)) by lia.
  rewrite Z.pow_succ_r by lia.
  pose proof (Z.pow_pos_nonneg 256 (Z.of_nat n)) as Hp.
  rewrite (Z.mul_comm 256), Z.rem_mul_r by lia. lia.
Qed.

Lemma be_put_get n bs : length bs = n → be_put n (be_get bs) = bs.
Proof.
  revert bs. induction n as [|n IH]; intros [|b bs] Hlen; cbn in Hlen; try done.
  cbn [be_put be_get]. assert (Hb : length bs = n) by lia.
  assert (He : blen bs = Z.of_nat n) by (unfold blen; lia).
  pose proof (be_get_bound bs) as Hbound. rewrite He in Hbound |- *.
  f_equal.
  - apply byte_of_eq. rewrite Z.div_add_l, Z.div_small by lia.
    rewrite Z.add_0_r. pose proof (bval_range b). by apply Z.mod_small.
  - transitivity (be_put n (be_get bs)); [|by apply IH].
    clear. generalize (be_get bs) as z. generalize (bval b) as c.
    assert (∀ m c z k, (m ≤ k)%nat →
      be_put m (c * 256 ^ Z.of_nat k + z) = be_put m z) as Hgen.
    { induction m as [|m IHm]; intros c z k Hk; [done|]. cbn.
      rewrite IHm by lia. f_equal. apply bval_inj. rewrite !bval_byte_of.
      replace (Z.of_nat k) with ((Z.of_nat k - Z.of_nat m) + Z.of_nat m) by lia.
      rewrite Z.pow_add_r, Z.mul_assoc, Z.div_add_l by lia.
      replace (Z.of_nat k - Z.of_nat m)
        with (Z.succ (Z.of_nat k - Z.of_nat m - 1)) by lia.
      rewrite Z.pow_succ_r by lia.
      replace (c * (256 * 256 ^ (Z.of_nat k - Z.of_nat m - 1)))
        with (c * 256 ^ (Z.of_nat k - Z.of_nat m - 1) * 256) by ring.
      by rewrite Z.add_comm, Z.mod_add. }
    intros. by apply Hgen.
Qed.

(** ** Strings

    A Go [string] is a byte sequence; it is Rocq's [string] here. [len(s)]
    counts bytes, [<] and [==] are byte-wise. *)

Definition bytes_of (s : string) : bytes := String.list_byte_of_string s.
Definition string_of (bs : bytes) : string := String.string_of_list_byte bs.
Definition slen (s : string) : Z := Z.of_nat (String.length s).

Lemma bytes_of_string_of bs : bytes_of (string_of bs) = bs.
Proof. apply String.list_byte_of_string_of_list_byte. Qed.

Lemma string_of_bytes_of s : string_of (bytes_of s) = s.
Proof. apply String.string_of_list_byte_of_string. Qed.

Lemma bytes_of_inj s1 s2 : bytes_of s1 = bytes_of s2 → s1 = s2.
Proof. intros Heq. by rewrite <- (string_of_bytes_of s1), Heq, string_of_bytes_of. Qed.

Lemma string_of_inj b1 b2 : string_of b1 = string_of b2 → b1 = b2.
Proof. intros Heq. by rewrite <- (bytes_of_string_of b1), Heq, bytes_of_string_of. Qed.

Lemma bytes_of_app s1 s2 : bytes_of (s1 +:+ s2) = bytes_of s1 ++ bytes_of s2.
Proof.
  unfold bytes_of. induction s1 as [|a s1 IH]; [done|].
  change (String a s1 +:+ s2) with (String a (s1 +:+ s2)). cbn. f_equal. exact IH.
Qed.

Lemma slen_bytes_of s : slen s = blen (bytes_of s).
Proof.
  unfold slen, blen, bytes_of. f_equal.
  induction s as [|a s IH]; [done|].
  cbn. f_equal. exact IH.
Qed.

(** [s1 < s2] on Go strings. *)
Definition str_ltb (s1 s2 : string) : bool :=
  match String.compare s1 s2 with Lt => true | _ => false end.

(** [s1 <= s2] on Go strings. *)
Definition str_leb (s1 s2 : string) : bool := negb (str_ltb s2 s1).

Definition str_lt (s1 s2 : string) : Prop := String.compare s1 s2 = Lt.

Lemma str_ltb_lt s1 s2 : str_ltb s1 s2 = true ↔ str_lt s1 s2.
Proof. unfold str_ltb, str_lt. destruct (String.compare s1 s2); naive_solver. Qed.

Lemma str_lt_trans s1 s2 s3 : str_lt s1 s2 → str_lt s2 s3 → str_lt s1 s3.
Proof.
  unfold str_lt. rewrite !OrderedTypeEx.String_as_OT.cmp_lt.
  apply OrderedTypeEx.String_as_OT.lt_trans.
Qed.

Lemma str_lt_irrefl s : ¬ str_lt s s.
Proof.
  unfold str_lt. intros Hlt. pose proof (String.compare_antisym s s) as Ha.
  rewrite Hlt in Ha. done.
Qed.

Lemma str_lt_total s1 s2 : str_lt s1 s2 ∨ s1 = s2 ∨ str_lt s2 s1.
Proof.
  unfold str_lt. pose proof (String.compare_antisym s2 s1) as Ha.
  destruct (String.compare s1 s2) eqn:Hc; [|by left|].
  - right. left. by apply String.compare_eq_iff.
  - right. right. by rewrite Ha.
Qed.

(** ** Unpadded base64url

    [base64.RawURLEncoding]. The decoder skips carriage returns and line feeds
    and, not being [Strict], ignores the unused bits of the last character;
    [EncodeToString(decoded) == value] is how the callers demand the canonical
    spelling. *)

Definition b64_char (v : Z) : byte :=
  if v <? 26 then byte_of (65 + v)
  else if v <? 52 then byte_of (97 + (v - 26))
  else if v <? 62 then byte_of (48 + (v - 52))
  else if v =? 62 then byte_of 45 else byte_of 95.

Definition b64_val (b : byte) : option Z :=
  let c := bval b in
  if (65 <=? c) && (c <=? 90) then Some (c - 65)
  else if (97 <=? c) && (c <=? 122) then Some (c - 97 + 26)
  else if (48 <=? c) && (c <=? 57) then Some (c - 48 + 52)
  else if c =? 45 then Some 62
  else if c =? 95 then Some 63
  else None.

(** The sextets of a byte sequence. *)
Fixpoint b64_sextets (bs : bytes) : list Z :=
  match bs with
  | [] => []
  | [a] => [bval a / 4; (bval a mod 4) * 16]
  | [a; b] => [bval a / 4; (bval a mod 4) * 16 + bval b / 16; (bval b mod 16) * 4]
  | a :: b :: c :: bs =>
      bval a / 4 :: (bval a mod 4) * 16 + bval b / 16
      :: (bval b mod 16) * 4 + bval c / 64 :: bval c mod 64 :: b64_sextets bs
  end.

Definition EncodeToString (bs : bytes) : string :=
  string_of (b64_char <$> b64_sextets bs).

(** Sextets back to bytes; a lone trailing sextet is corrupt input. *)
Fixpoint b64_join (vs : list Z) : option bytes :=
  match vs with
  | [] => Some []
  | [_] => None
  | [a; b] => Some [byte_of (a * 4 + b / 16)]
  | [a; b; c] => Some [byte_of (a * 4 + b / 16); byte_of (b * 16 + c / 4)]
  | a :: b :: c :: d :: vs =>
      match b64_join vs with
      | Some bs => Some (byte_of (a * 4 + b / 16) :: byte_of (b * 16 + c / 4)
                         :: byte_of (c * 64 + d) :: bs)
      | None => None
      end
  end.

Definition is_newline (b : byte) : bool := (bval b =? 10) || (bval b =? 13).

Definition DecodeString (s : string) : option bytes :=
  match mapM b64_val (List.filter (λ b, negb (is_newline b)) (bytes_of s)) with
  | Some vs => b64_join vs
  | None => None
  end.

(** The four encodings of [encoding/base64]: the standard alphabet differs from the
    URL alphabet in its last two characters, and a padded encoding demands whole
    quanta, the last of them filled up with one or two [=]. *)
Definition b64_val_of (std : bool) (b : byte) : option Z :=
  let c := bval b in
  if std then
    if c =? 43 then Some 62 else if c =? 47 then Some 63
    else if (c =? 45) || (c =? 95) then None else b64_val b
  else b64_val b.

Definition is_pad (b : byte) : bool := bval b =? 61.

(** The characters that carry data, when the padding is right. *)
Definition b64_unpad (cs : bytes) : option bytes :=
  IF negb (blen cs mod 4 =? 0) RETURN None ;;
  match reverse cs with
  | p :: q :: rest =>
      Some (reverse (if is_pad p then if is_pad q then rest else q :: rest else p :: q :: rest))
  | _ => Some cs
  end.

Definition b64_decode (std padded : bool) (s : string) : option bytes :=
  let cs := List.filter (λ b, negb (is_newline b)) (bytes_of s) in
  match (if padded then b64_unpad cs else Some cs) with
  | None => None
  | Some cs => match mapM (b64_val_of std) cs with
               | Some vs => b64_join vs
               | None => None
               end
  end.

Lemma b64_decode_url s : b64_decode false false s = DecodeString s.
Proof. reflexivity. Qed.

Example b64_decode_padded :
  (b64_decode true true "Zm9vYg==", b64_decode true true "Zm9vYg", b64_decode false true "-_8=",
   b64_decode true false "+/8") =
  (Some (bytes_of "foob"), None, Some [byte_of 251; byte_of 255], Some [byte_of 251; byte_of 255]).
Proof. vm_compute. reflexivity. Qed.

Lemma b64_val_char v : 0 ≤ v < 64 → b64_val (b64_char v) = Some v.
Proof.
  intros Hv. unfold b64_char.
  repeat case_match; split_bools; unfold b64_val;
    rewrite bval_byte_of, Z.mod_small by lia;
    repeat case_match; split_bools; f_equal; try lia;
    repeat match goal with
    | H : (_ && _) = false |- _ => apply andb_false_iff in H as [?|?]; split_bools
    end; lia.
Qed.

Lemma b64_char_not_newline v : 0 ≤ v < 64 → is_newline (b64_char v) = false.
Proof.
  intros Hv. unfold is_newline, b64_char.
  repeat case_match; split_bools; rewrite bval_byte_of, Z.mod_small by lia;
    apply orb_false_iff; split; apply Z.eqb_neq; lia.
Qed.

(** Induction three bytes at a time, the way the encoder walks its input. *)
Lemma bytes_ind3 (P : bytes → Prop) :
  P [] → (∀ a, P [a]) → (∀ a b, P [a; b]) →
  (∀ a b c bs, P bs → P (a :: b :: c :: bs)) → ∀ bs, P bs.
Proof.
  intros H0 H1 H2 H3. fix IH 1. intros [|a [|b [|c bs]]]; [done|apply H1|apply H2|].
  apply H3, IH.
Qed.

Lemma b64_sextets_range bs : Forall (λ v, 0 ≤ v < 64) (b64_sextets bs).
Proof.
  induction bs as [|a|a b|a b c bs IH] using bytes_ind3; cbn [b64_sextets];
    rewrite ?Forall_cons, ?Forall_nil; split_and?; try done;
    repeat match goal with x : byte |- _ =>
      pose proof (bval_range x); generalize dependent (bval x); intros; clear x end;
    Z.to_euclidean_division_equations; lia.
Qed.

Lemma b64_join_sextets bs : b64_join (b64_sextets bs) = Some bs.
Proof.
  induction bs as [|a|a b|a b c bs IH] using bytes_ind3; cbn [b64_sextets b64_join];
    [done|..|rewrite IH]; repeat f_equal; apply byte_of_eq;
    repeat match goal with x : byte |- _ =>
      pose proof (bval_range x); generalize dependent (bval x); intros; clear x end;
    Z.to_euclidean_division_equations; lia.
Qed.

Lemma mapM_b64_chars vs :
  Forall (λ v, 0 ≤ v < 64) vs →
  List.filter (λ b, negb (is_newline b)) (b64_char <$> vs) = b64_char <$> vs
  ∧ mapM b64_val (b64_char <$> vs) = Some vs.
Proof.
  induction 1 as [|v vs Hv Hvs [IH1 IH2]]; [done|]. rewrite fmap_cons. cbn [List.filter].
  rewrite b64_char_not_newline by done. cbn. rewrite IH1. split; [done|].
  rewrite b64_val_char by done. cbn. by rewrite IH2.
Qed.

Lemma DecodeString_EncodeToString bs : DecodeString (EncodeToString bs) = Some bs.
Proof.
  unfold DecodeString, EncodeToString. rewrite bytes_of_string_of.
  destruct (mapM_b64_chars _ (b64_sextets_range bs)) as [-> ->].
  apply b64_join_sextets.
Qed.

Lemma EncodeToString_inj bs1 bs2 :
  EncodeToString bs1 = EncodeToString bs2 → bs1 = bs2.
Proof.
  intros Heq. apply (f_equal DecodeString) in Heq.
  rewrite !DecodeString_EncodeToString in Heq. congruence.
Qed.

(** The check the callers share:
    [decoded, err := DecodeString(value); err == nil && len(decoded) == size &&
     EncodeToString(decoded) == value]. *)
Definition canonical_b64 (value : string) (size : Z) : bool :=
  match DecodeString value with
  | Some decoded =>
      (blen decoded =? size) && bool_decide (EncodeToString decoded = value)
  | None => false
  end.

Lemma canonical_b64_iff value size :
  canonical_b64 value size = true ↔
  ∃ bs, blen bs = size ∧ value = EncodeToString bs.
Proof.
  unfold canonical_b64. split.
  - destruct (DecodeString value) as [bs|]; [|done]. intros Hc.
    split_bools. eauto.
  - intros (bs & Hlen & ->). rewrite DecodeString_EncodeToString.
    rewrite bool_decide_true by done. rewrite (proj2 (Z.eqb_eq _ _) Hlen). done.
Qed.

(** ** Time

    An instant is its count of nanoseconds since the Unix epoch. [time.Time{}],
    the zero instant of [IsZero], is 1 January of year 1. A [time.Duration] is
    a count of nanoseconds. *)

Abbreviation Time := Z (only parsing).
Abbreviation Duration := Z (only parsing).

Definition nanosecond : Duration := 1.
Definition millisecond : Duration := 1000000.
Definition second : Duration := 1000000000.
Definition minute : Duration := 60 * second.
Definition hour : Duration := 60 * minute.

Definition zero_time : Time := -62135596800 * second.
Definition IsZero (t : Time) : bool := t =? zero_time.
(** [t.After(u)] and [t.Before(u)]. *)
Definition After (t u : Time) : bool := u <? t.
Definition Before (t u : Time) : bool := t <? u.
(** [t.Unix()]: whole seconds, rounded towards minus infinity. *)
Definition Unix (t : Time) : Z := t / second.
(** [time.Unix(s, 0)]. *)
Definition from_unix (s : Z) : Time := s * second.
(** [t.Sub(u)] saturates at the range of a duration. *)
Definition Sub (t u : Time) : Duration := Z.max min_int64 (Z.min max_int64 (t - u)).
(** [t.Truncate(time.Second)]. *)
Definition TruncateSecond (t : Time) : Time := t - (t - zero_time) mod second.

Lemma Unix_from_unix s : Unix (from_unix s) = s.
Proof. unfold Unix, from_unix, second. by rewrite Z.div_mul. Qed.

Lemma Unix_mono t u : t ≤ u → Unix t ≤ Unix u.
Proof. intros. by apply Z.div_le_mono. Qed.

Lemma After_spec t u : After t u = true ↔ u < t.
Proof. apply Z.ltb_lt. Qed.

(** ** Decimal and calendar formatting *)

Definition digit_value (b : byte) : option Z :=
  let c := bval b in if (48 <=? c) && (c <=? 57) then Some (c - 48) else None.

(** [strconv.ParseUint(digits, 10, bits)]. *)
Fixpoint parse_digits (bs : bytes) (acc : Z) : option Z :=
  match bs with
  | [] => Some acc
  | b :: bs =>
      match digit_value b with
      | None => None
      | Some d => parse_digits bs (acc * 10 + d)
      end
  end.
Definition ParseUint (bs : bytes) (bits : Z) : option Z :=
  IF bool_decide (bs = []) RETURN None ;;
  match parse_digits bs 0 with
  | Some value => if value <? 2 ^ bits then Some value else None
  | None => None
  end.

(** [strconv.ParseInt(s, 10, 64)]. *)
Definition ParseInt (s : string) : option Z :=
  let '(neg, digits) :=
    match bytes_of s with
    | b :: bs => if bval b =? 45 then (true, bs)
                 else if bval b =? 43 then (false, bs) else (false, b :: bs)
    | [] => (false, [])
    end in
  match ParseUint digits 64 with
  | None => None
  | Some un =>
      IF negb neg && (2 ^ 63 <=? un) RETURN None ;;
      IF neg && (2 ^ 63 <? un) RETURN None ;;
      Some (if neg then - un else un)
  end.

(** [strconv.FormatInt(n, 10)]. *)
Definition FormatInt (n : Z) : string := pretty n.

(** Zero-padded decimal of at least [w] digits, for a non-negative [n]. *)
Fixpoint pad_dec (w : nat) (n : Z) : string :=
  match w with
  | O => ""
  | S w => String.append (pad_dec w (n / 10))
             (String (Ascii.ascii_of_N (Z.to_N (48 + n mod 10))) EmptyString)
  end.

(** Gregorian date of a day count since 1 January 1970 (eras of 400 years, the
    year starting in March). *)
Definition civil_of_days (days : Z) : Z * Z * Z :=
  let z := days + 719468 in
  let era := z / 146097 in
  let doe := z mod 146097 in
  let yoe := (doe - doe / 1460 + doe / 36524 - doe / 146096) / 365 in
  let doy := doe - (365 * yoe + yoe / 4 - yoe / 100) in
  let mp := (5 * doy + 2) / 153 in
  let d := doy - (153 * mp + 2) / 5 + 1 in
  let m := if mp <? 10 then mp + 3 else mp - 9 in
  let y := yoe + era * 400 + (if m <=? 2 then 1 else 0) in
  (y, m, d).

(** [t.Format("2006-01-02")] for years 0 to 9999. *)
Definition FormatDate (t : Time) : string :=
  let '(y, m, d) := civil_of_days (Unix t / 86400) in
  pad_dec 4 y +:+ "-" +:+ pad_dec 2 m +:+ "-" +:+ pad_dec 2 d.

Example FormatDate_epoch : FormatDate 0 = "1970-01-01".
Proof. reflexivity. Qed.

Example FormatDate_leap : FormatDate (from_unix 1709251199) = "2024-02-29".
Proof. reflexivity. Qed.

(** [t.Format(time.RFC3339)] of a UTC time. *)
Definition FormatRFC3339 (t : Time) : string :=
  let s := Unix t mod 86400 in
  FormatDate t +:+ "T" +:+ pad_dec 2 (s / 3600) +:+ ":" +:+ pad_dec 2 (s / 60 mod 60) +:+ ":"
  +:+ pad_dec 2 (s mod 60) +:+ "Z".

Definition days_of_civil (y m d : Z) : Z :=
  let y := if m <=? 2 then y - 1 else y in
  let era := y / 400 in
  let yoe := y mod 400 in
  let doy := (153 * (if m <=? 2 then m + 9 else m - 3) + 2) / 5 + d - 1 in
  era * 146097 + yoe * 365 + yoe / 4 - yoe / 100 + doy - 719468.

(** [time.Parse(time.RFC3339, s)] together with the checks that follow it wherever it
    is used: the result is in UTC and [Format] gives [s] back. Such an [s] has the
    shape [YYYY-MM-DDTHH:MM:SSZ], so the fields are read at their positions. *)
Definition CanonicalRFC3339 (s : string) : option Time :=
  let bs := bytes_of s in
  let num lo len := ParseUint (take len (drop lo bs)) 32 in
  match num 0%nat 4%nat, num 5%nat 2%nat, num 8%nat 2%nat, num 11%nat 2%nat,
        num 14%nat 2%nat, num 17%nat 2%nat with
  | Some y, Some m, Some d, Some hh, Some mm, Some ss =>
      let t := from_unix (days_of_civil y m d * 86400 + hh * 3600 + mm * 60 + ss) in
      if bool_decide (FormatRFC3339 t = s) then Some t else None
  | _, _, _, _, _, _ => None
  end.

Example CanonicalRFC3339_examples :
  (CanonicalRFC3339 "2024-02-29T23:59:59Z", CanonicalRFC3339 "2023-02-29T00:00:00Z",
   CanonicalRFC3339 "2024-02-29T24:00:00Z", CanonicalRFC3339 "2024-2-29T23:59:59Z",
   CanonicalRFC3339 "2024-02-29T23:59:59+00:00") =
  (Some (from_unix 1709251199), None, None, None, None).
Proof. vm_compute. reflexivity. Qed.

Lemma CanonicalRFC3339_format s t : CanonicalRFC3339 s = Some t → FormatRFC3339 t = s.
Proof.
  unfold CanonicalRFC3339. repeat (case_match; try done).
  intros [= <-]. by match goal with H : bool_decide _ = true |- _ => apply bool_decide_eq_true in H end.
Qed.
