(* ===== verification/GoCrypto.v ===== *)
(** * GoCrypto: SHA-256 and HMAC-SHA-256

    The digests of Go's [crypto/sha256] and [crypto/hmac] as executable
    functions on bytes (FIPS 180-4 and RFC 2104), so that the components that
    key their state by digests can be run. No theorem of the development
    assumes anything about them beyond their being functions, unless it says
    so. *)

From stdpp Require Import base gmap strings list pretty.
From Stdlib Require Import ZArith Lia.
From Stdlib.Strings Require Import Byte.
From S2P Require Import Prelude GoBase.

Definition w32 (z : Z) : Z := Z.land z 4294967295.
Definition rotr (x : Z) (n : Z) : Z :=
  Z.lor (Z.shiftr x n) (Z.shiftl (Z.land x (Z.ones n)) (32 - n)).

Definition sha_ch (x y z : Z) : Z :=
  Z.lxor (Z.land x y) (Z.land (4294967295 - x) z).
Definition sha_maj (x y z : Z) : Z :=
  Z.lxor (Z.land x y) (Z.lxor (Z.land x z) (Z.land y z)).
Definition sha_S0 (x : Z) : Z := Z.lxor (rotr x 2) (Z.lxor (rotr x 13) (rotr x 22)).
Definition sha_S1 (x : Z) : Z := Z.lxor (rotr x 6) (Z.lxor (rotr x 11) (rotr x 25)).
Definition sha_s0 (x : Z) : Z :=
  Z.lxor (rotr x 7) (Z.lxor (rotr x 18) (Z.shiftr x 3)).
Definition sha_s1 (x : Z) : Z :=
  Z.lxor (rotr x 17) (Z.lxor (rotr x 19) (Z.shiftr x 10)).

(** The constants of FIPS 180-4, from their definition: the first 32 bits of the
    fractional parts of the cube roots of the first 64 primes, and of the square
    roots of the first 8. *)
Definition is_prime_trial (n : Z) : bool :=
  forallb (λ d, negb (n mod Z.of_nat d =? 0)) (seq 2 (Z.to_nat (Z.sqrt n) - 1)).
Definition sha_primes : list Z :=
  take 64 (List.filter is_prime_trial (Z.of_nat <$> seq 2 310)).

(** Integer cube root, one bit at a time from bit [n - 1] down. *)
Fixpoint cbrt_bits (n : nat) (x acc : Z) : Z :=
  match n with
  | O => acc
  | S n =>
      let t := acc + 2 ^ Z.of_nat n in
      cbrt_bits n x (if t * t * t <=? x then t else acc)
  end.

Definition sha_k : list Z :=
  Eval vm_compute in (λ p, w32 (cbrt_bits 36 (p * 2 ^ 96) 0)) <$> sha_primes.
Definition sha_h0 : list Z :=
  Eval vm_compute in (λ p, w32 (Z.sqrt (p * 2 ^ 64))) <$> take 8 sha_primes.

(** The message schedule, newest word first. *)
Fixpoint sha_schedule (n : nat) (ws : list Z) : list Z :=
  match n with
  | O => ws
  | S n =>
      let at_ i := nth i ws 0 in
      sha_schedule n
        (w32 (sha_s1 (at_ 1%nat) + at_ 6%nat + sha_s0 (at_ 14%nat) + at_ 15%nat) :: ws)
  end.

Fixpoint sha_rounds (kws : list (Z * Z)) (h : list Z) : list Z :=
  match kws, h with
  | (k, w) :: kws, [a; b; c; d; e; f; g; hh] =>
      let t1 := hh + sha_S1 e + sha_ch e f g + k + w in
      let t2 := sha_S0 a + sha_maj a b c in
      sha_rounds kws [w32 (t1 + t2); a; b; c; w32 (d + t1); e; f; g]
  | _, _ => h
  end.

Fixpoint sha_words (bs : bytes) : list Z :=
  match bs with
  | a :: b :: c :: d :: bs => be_get [a; b; c; d] :: sha_words bs
  | _ => []
  end.

Definition sha_block (h : list Z) (block : bytes) : list Z :=
  let ws := reverse (sha_schedule 48 (reverse (sha_words block))) in
  zip_with (λ x y, w32 (x + y)) h (sha_rounds (zip sha_k ws) h).

Fixpoint sha_blocks (n : nat) (h : list Z) (bs : bytes) : list Z :=
  match n with
  | O => h
  | S n => sha_blocks n (sha_block h (take 64 bs)) (drop 64 bs)
  end.

Definition sha_pad (bs : bytes) : bytes :=
  let n := blen bs in
  bs ++ [byte_of 128] ++ replicate (Z.to_nat ((55 - n) mod 64)) x00 ++ be_put 8 (n * 8).

(** [sha256.Sum256]. *)
Definition Sum256 (bs : bytes) : bytes :=
  let p := sha_pad bs in
  concat (be_put 4 <$> sha_blocks (Nat.div (length p) 64) sha_h0 p).

(** [hmac.New(sha256.New, key)] followed by one [Write] of the whole message. *)
Definition hmac_sha256 (key msg : bytes) : bytes :=
  let k := if 64 <? blen key then Sum256 key else key in
  let k := k ++ replicate (64 - length k)%nat x00 in
  let xor_with c := (λ b, byte_of (Z.lxor (bval b) c)) <$> k in
  Sum256 (xor_with 92 ++ Sum256 (xor_with 54 ++ msg)).

(** Lower-case hexadecimal, [hex.EncodeToString]. *)
Definition hex_digit (v : Z) : byte := byte_of (if v <? 10 then 48 + v else 87 + v).
Definition hex_encode (bs : bytes) : string :=
  string_of (flat_map (λ b, [hex_digit (bval b / 16); hex_digit (bval b mod 16)]) bs).

Example sha256_abc : hex_encode (Sum256 (bytes_of "abc")) =
  "ba7816bf8f01cfea414140de5dae2223b00361a396177a9cb410ff61f20015ad".
Proof. vm_compute. reflexivity. Qed.

Example sha256_two_blocks :
  hex_encode (Sum256 (bytes_of "abcdbcdecdefdefgefghfghighijhijkijkljklmklmnlmnomnopnopq")) =
  "248d6a61d20638b8e5c026930c3e6039a33ce45964ff2167f6ecedd419db06c1".
Proof. vm_compute. reflexivity. Qed.

Example hmac_rfc4231_2 :
  hex_encode (hmac_sha256 (bytes_of "Jefe") (bytes_of "what do ya want for nothing?")) =
  "5bdcc146bf60754e6a042426089575c75a003f089d2739839dec58b964ec3843".
Proof. vm_compute. reflexivity. Qed.

Lemma sha_rounds_length kws h : length h = 8%nat → length (sha_rounds kws h) = 8%nat.
Proof.
  revert h. induction kws as [|[k w] kws IH]; intros h Hh; [done|].
  destruct h as [|a [|b [|c [|d [|e [|f [|g [|hh [|] ] ] ] ] ] ] ] ]; try done.
  cbn [sha_rounds]. by apply IH.
Qed.

Lemma sha_blocks_length n h bs : length h = 8%nat → length (sha_blocks n h bs) = 8%nat.
Proof.
  revert h bs. induction n as [|n IH]; intros h bs Hh; [done|]. cbn [sha_blocks].
  apply IH. unfold sha_block. rewrite length_zip_with, sha_rounds_length by done. lia.
Qed.

Lemma concat_be_put_length n zs : length (concat (be_put n <$> zs)) = (n * length zs)%nat.
Proof.
  induction zs as [|z zs IH]; [cbn; lia|]. rewrite fmap_cons. cbn [concat length].
  rewrite length_app, IH, be_put_length. lia.
Qed.

(** Digests are 32 bytes. *)
Lemma Sum256_length bs : blen (Sum256 bs) = 32.
Proof.
  unfold Sum256, blen. by rewrite concat_be_put_length, sha_blocks_length.
Qed.

Lemma hmac_sha256_length key msg : blen (hmac_sha256 key msg) = 32.
Proof. apply Sum256_length. Qed.

#[global] Arguments Sum256 : simpl never.
#[global] Arguments hmac_sha256 : simpl never.
#[global] Opaque Sum256 hmac_sha256.
