(* ===== verification/Opus.v ===== *)
(** * Opus: structural validation of Opus packets

    Models [internal/opuspacket/packet.go]. The parser checks the TOC byte, the
    frame-count byte, padding and frame lengths of an Opus packet without
    decoding audio. The reference it is compared with is the grammar of RFC 6716
    section 3.2, stated as a relation between a packet and the frames it
    carries. *)

From stdpp Require Import base gmap strings list.
From Stdlib Require Import ZArith Lia.
From Stdlib.Strings Require Import Byte.
From S2P Require Import Prelude GoBase.

Module Opus.

Definition maximumFrameBytes : Z := 1275.

(** The errors of the package, one constructor per message, and the run-time
    panic of an out-of-range slice. *)
Inductive opus_error : Type :=
| NoTOC
| CBRPairUnequal
| TruncatedSize
| TruncatedExtendedSize
| InvalidFrameSize
| TruncatedArbitrary
| InvalidFrameCount
| TruncatedPadding
| InvalidPadding
| InvalidPaddingLength
| CBRUnequal
| VBRExceedPayload
| DurationExceeds
| BadExpectedDuration
| StereoNotAllowed
| DurationDiffers
| SlicePanic.

Record Info : Type := {
  Stereo : bool;
  FrameCount : Z;
  FrameDurationMicrosecs : Z;
  PacketDurationMicrosecs : Z;
}.

Definition frameDurationMicrosecs (config : Z) : Z :=
  if config <? 12 then nth (Z.to_nat (Z.land config 3)) [10000; 20000; 40000; 60000] 0
  else if config <? 16 then nth (Z.to_nat (Z.land config 1)) [10000; 20000] 0
  else nth (Z.to_nat (Z.land config 3)) [2500; 5000; 10000; 20000] 0.

(** Size and number of bytes consumed. *)
Definition parseSize (data : bytes) : result opus_error (Z * Z) :=
  match data with
  | [] => Err TruncatedSize
  | b0 :: rest =>
      IF bval b0 <? 252 RETURN Ok (bval b0, 1) ;;
      match rest with
      | [] => Err TruncatedExtendedSize
      | b1 :: _ => Ok (bval b0 + 4 * bval b1, 2)
      end
  end.

Definition validFrameSize (size : Z) : result opus_error unit :=
  IF (size <? 0) || (maximumFrameBytes <? size) RETURN Err InvalidFrameSize ;;
  Ok tt.

(** The padding loop, from [index]; [rest] is [packet[index:]]. *)
Fixpoint padding_loop (packet_len : Z) (rest : bytes) (index padding : Z) :
    result opus_error (Z * Z) :=
  match rest with
  | [] => Err TruncatedPadding
  | b :: rest =>
      let value := bval b in
      let index := index + 1 in
      if value =? 255 then
        let padding := padding + 254 in
        IF packet_len <=? padding RETURN Err InvalidPadding ;;
        padding_loop packet_len rest index padding
      else Ok (index, padding + value)
  end.

(** The loop over the first [n] declared VBR frame lengths. *)
Fixpoint vbr_loop (n : nat) (packet : bytes) (payloadEnd index declared : Z) :
    result opus_error (Z * Z) :=
  match n with
  | O => Ok (index, declared)
  | S n =>
      match slice packet index payloadEnd with
      | None => Err SlicePanic
      | Some window =>
          TRY (size, consumed) := parseSize window ;;
          let index := index + consumed in
          TRY tt := validFrameSize size ;;
          let declared := declared + size in
          IF payloadEnd - index <? declared RETURN Err VBRExceedPayload ;;
          vbr_loop n packet payloadEnd index declared
      end
  end.

Definition validateArbitraryFrames (packet : bytes) : result opus_error Z :=
  match packet with
  | _ :: hb :: rest =>
      let header := bval hb in
      let frameCount := Z.land header 63 in
      IF (frameCount =? 0) || (48 <? frameCount) RETURN Err InvalidFrameCount ;;
      TRY (index, padding) :=
        (if negb (Z.land header 64 =? 0)
         then padding_loop (blen packet) rest 2 0
         else Ok (2, 0)) ;;
      let payloadEnd := blen packet - padding in
      IF payloadEnd <? index RETURN Err InvalidPaddingLength ;;
      if Z.land header 128 =? 0 then
        let payload := payloadEnd - index in
        IF negb (Z.rem payload frameCount =? 0) RETURN Err CBRUnequal ;;
        TRY tt := validFrameSize (Z.quot payload frameCount) ;;
        Ok frameCount
      else
        TRY (index, declared) :=
          vbr_loop (Z.to_nat (frameCount - 1)) packet payloadEnd index 0 ;;
        TRY tt := validFrameSize (payloadEnd - index - declared) ;;
        Ok frameCount
  | _ => Err TruncatedArbitrary
  end.

Definition Parse (packet : bytes) : result opus_error Info :=
  match packet with
  | [] => Err NoTOC
  | toc :: body =>
      let config := Z.shiftr (bval toc) 3 in
      let frameDuration := frameDurationMicrosecs config in
      let stereo := negb (Z.land (bval toc) 4 =? 0) in
      let code := Z.land (bval toc) 3 in
      TRY frameCount :=
        (if code =? 0 then
           TRY tt := validFrameSize (blen packet - 1) ;; Ok 1
         else if code =? 1 then
           let payload := blen packet - 1 in
           IF negb (Z.rem payload 2 =? 0) RETURN Err CBRPairUnequal ;;
           TRY tt := validFrameSize (Z.quot payload 2) ;; Ok 2
         else if code =? 2 then
           TRY (firstSize, consumed) := parseSize body ;;
           let secondSize := blen packet - 1 - consumed - firstSize in
           TRY tt := validFrameSize firstSize ;;
           TRY tt := validFrameSize secondSize ;; Ok 2
         else validateArbitraryFrames packet) ;;
      let packetDuration := frameDuration * frameCount in
      IF 120000 <? packetDuration RETURN Err DurationExceeds ;;
      Ok {| Stereo := stereo; FrameCount := frameCount;
            FrameDurationMicrosecs := frameDuration;
            PacketDurationMicrosecs := packetDuration |}
  end.

Definition ValidateMonoDuration (packet : bytes) (expectedMillis : Z) :
    result opus_error unit :=
  IF (expectedMillis <=? 0) || (120 <? expectedMillis) RETURN Err BadExpectedDuration ;;
  TRY info := Parse packet ;;
  IF Stereo info RETURN Err StereoNotAllowed ;;
  IF negb (PacketDurationMicrosecs info =? expectedMillis * 1000)
    RETURN Err DurationDiffers ;;
  Ok tt.

(** ** The packet grammar of RFC 6716 section 3.2 *)

Definition toc_code (toc : byte) : Z := Z.land (bval toc) 3.

(** The one- or two-byte coding of a frame length. *)
Inductive size_coding : bytes → Z → Prop :=
| size_short b : bval b < 252 → size_coding [b] (bval b)
| size_long b0 b1 : 252 ≤ bval b0 → size_coding [b0; b1] (bval b0 + 4 * bval b1).

(** The padding-length bytes: [255] stands for 254 and continues. *)
Inductive padding_coding : bytes → Z → Prop :=
| padding_last b : bval b ≠ 255 → padding_coding [b] (bval b)
| padding_more b bs n : bval b = 255 → padding_coding bs n →
    padding_coding (b :: bs) (254 + n).

Definition padding_header (flag : bool) (bs : bytes) (n : Z) : Prop :=
  if flag then padding_coding bs n else bs = [] ∧ n = 0.

Definition frame_ok (f : bytes) : Prop := blen f ≤ maximumFrameBytes.

(** [frames_of p fs]: packet [p] carries exactly the frames [fs], in order. *)
Inductive frames_of : bytes → list bytes → Prop :=
| one_frame toc f :
    toc_code toc = 0 → frames_of (toc :: f) [f]
| two_equal toc f1 f2 :
    toc_code toc = 1 → blen f1 = blen f2 → frames_of (toc :: f1 ++ f2) [f1; f2]
| two_frames toc sz f1 f2 :
    toc_code toc = 2 → size_coding sz (blen f1) →
    frames_of (toc :: sz ++ f1 ++ f2) [f1; f2]
| many_equal toc hb ph pad n fs :
    toc_code toc = 3 → Z.land (bval hb) 63 = Z.of_nat (length fs) →
    Z.land (bval hb) 128 = 0 →
    padding_header (negb (Z.land (bval hb) 64 =? 0)) ph n → blen pad = n →
    (1 ≤ length fs ≤ 48)%nat → (∀ f g, f ∈ fs → g ∈ fs → blen f = blen g) →
    frames_of (toc :: hb :: ph ++ concat fs ++ pad) fs
| many_sized toc hb ph pad n szs fs last :
    toc_code toc = 3 → Z.land (bval hb) 63 = Z.of_nat (length (fs ++ [last])) →
    Z.land (bval hb) 128 ≠ 0 →
    padding_header (negb (Z.land (bval hb) 64 =? 0)) ph n → blen pad = n →
    (length (fs ++ [last]) ≤ 48)%nat →
    Forall2 (λ sz f, size_coding sz (blen f)) szs fs →
    frames_of (toc :: hb :: ph ++ concat szs ++ concat (fs ++ [last]) ++ pad)
      (fs ++ [last]).

(** Table 2 of the RFC: the frame sizes in microseconds of the thirty-two configurations,
    by operating mode and bandwidth. *)
Definition rfc_frame_sizes : list Z :=
  [10000; 20000; 40000; 60000] ++ (* 0..3: SILK-only, NB *)
  [10000; 20000; 40000; 60000] ++ (* 4..7: SILK-only, MB *)
  [10000; 20000; 40000; 60000] ++ (* 8..11: SILK-only, WB *)
  [10000; 20000] ++               (* 12..13: hybrid, SWB *)
  [10000; 20000] ++               (* 14..15: hybrid, FB *)
  [2500; 5000; 10000; 20000] ++   (* 16..19: CELT-only, NB *)
  [2500; 5000; 10000; 20000] ++   (* 20..23: CELT-only, WB *)
  [2500; 5000; 10000; 20000] ++   (* 24..27: CELT-only, SWB *)
  [2500; 5000; 10000; 20000].     (* 28..31: CELT-only, FB *)

(** What the RFC says of a packet with this TOC byte that carries [n] frames: the five
    high bits are the configuration, the next one is the stereo flag. *)
Definition info_of (toc : byte) (n : nat) : Info :=
  let d := nth (Z.to_nat (bval toc / 8)) rfc_frame_sizes 0 in
  {| Stereo := Z.testbit (bval toc) 2;
     FrameCount := Z.of_nat n;
     FrameDurationMicrosecs := d;
     PacketDurationMicrosecs := d * Z.of_nat n |}.

(** The code reports what the table says, for every TOC byte. *)
Lemma info_of_code toc n :
  info_of toc n =
  {| Stereo := negb (Z.land (bval toc) 4 =? 0); FrameCount := Z.of_nat n;
     FrameDurationMicrosecs := frameDurationMicrosecs (Z.shiftr (bval toc) 3);
     PacketDurationMicrosecs := frameDurationMicrosecs (Z.shiftr (bval toc) 3) * Z.of_nat n |}.
Proof.
  unfold info_of.
  assert (nth (Z.to_nat (bval toc / 8)) rfc_frame_sizes 0 = frameDurationMicrosecs (Z.shiftr (bval toc) 3)) as ->
    by (destruct toc; vm_compute; reflexivity).
  f_equal. destruct toc; vm_compute; reflexivity.
Qed.

Example Parse_dtx : Parse [byte_of 8] =
  Ok {| Stereo := false; FrameCount := 1; FrameDurationMicrosecs := 20000;
        PacketDurationMicrosecs := 20000 |}.
Proof. reflexivity. Qed.

(** ** Lemmas on the sub-parsers *)

Lemma validFrameSize_ok size : validFrameSize size = Ok tt ↔ 0 ≤ size ≤ 1275.
Proof.
  unfold validFrameSize, maximumFrameBytes.
  destruct (size <? 0) eqn:?, (1275 <? size) eqn:?; cbn; split_bools;
    split; intros; try done; lia.
Qed.

Lemma validFrameSize_cases size :
  (validFrameSize size = Ok tt ∧ 0 ≤ size ≤ 1275) ∨
  validFrameSize size = Err InvalidFrameSize.
Proof.
  destruct (validFrameSize size) as [[]|e] eqn:He.
  - left. split; [done|]. by apply validFrameSize_ok.
  - right. revert He. unfold validFrameSize. case_match; congruence.
Qed.

Lemma parseSize_sound data n c :
  parseSize data = Ok (n, c) →
  ∃ sz rest, data = sz ++ rest ∧ size_coding sz n ∧ blen sz = c.
Proof.
  destruct data as [|b0 rest]; cbn; [done|]. case_match.
  - intros [= <- <-]. exists [b0], rest. split_bools. by repeat constructor.
  - destruct rest as [|b1 rest]; [done|]. intros [= <- <-].
    exists [b0; b1], rest. split_bools. repeat split. by constructor.
Qed.

Lemma parseSize_complete sz n rest :
  size_coding sz n → parseSize (sz ++ rest) = Ok (n, blen sz).
Proof.
  destruct 1 as [b Hb|b0 b1 Hb]; cbn.
  - by rewrite (proj2 (Z.ltb_lt _ _) Hb).
  - by rewrite (proj2 (Z.ltb_ge _ _) Hb).
Qed.

Lemma size_coding_bounds sz n : size_coding sz n → 0 ≤ n ≤ 1275.
Proof.
  destruct 1 as [b ?|b0 b1 ?]; bound_bytes; lia.
Qed.

Lemma padding_coding_bounds ph n : padding_coding ph n → 0 ≤ n.
Proof.
  induction 1 as [b|]; [|lia]. pose proof (bval_range b). lia.
Qed.

Lemma padding_loop_sound L rest i p i' p' :
  padding_loop L rest i p = Ok (i', p') →
  ∃ ph rest', rest = ph ++ rest' ∧ padding_coding ph (p' - p) ∧ i' = i + blen ph.
Proof.
  revert i p. induction rest as [|b rest IH]; intros i p; cbn; [done|].
  repeat case_match; split_bools; try done.
  - intros (ph & rest' & -> & Hc & ->)%IH.
    exists (b :: ph), rest'. split_and!; [done| |rewrite blen_cons; lia].
    replace (p' - p) with (254 + (p' - (p + 254))) by lia. by constructor.
  - intros [= <- <-]. exists [b], rest. split_and!; [done| |done].
    replace (p + bval b - p) with (bval b) by lia. by constructor.
Qed.

Lemma padding_loop_complete L ph n rest i p :
  padding_coding ph n → p + n < L →
  padding_loop L (ph ++ rest) i p = Ok (i + blen ph, p + n).
Proof.
  intros Hc. revert i p. induction Hc as [b Hb|b bs n Hb Hc IH]; intros i p HL; cbn.
  - by rewrite (proj2 (Z.eqb_neq _ _) Hb).
  - pose proof (padding_coding_bounds _ _ Hc).
    rewrite Hb. cbn. rewrite (proj2 (Z.leb_gt _ _)) by lia.
    rewrite IH by lia. rewrite blen_cons. do 2 f_equal; lia.
Qed.

Fixpoint sum_sizes (ns : list Z) : Z :=
  match ns with [] => 0 | n :: ns => n + sum_sizes ns end.

Lemma sum_sizes_nonneg szs ns : Forall2 size_coding szs ns → 0 ≤ sum_sizes ns.
Proof.
  induction 1 as [|sz n szs ns Hsz _ IH]; cbn; [done|].
  apply size_coding_bounds in Hsz. lia.
Qed.

(** The loop reads exactly the codings of the declared lengths. *)
Lemma vbr_loop_sound packet pe n index declared index' declared' w :
  slice packet index pe = Some w →
  vbr_loop n packet pe index declared = Ok (index', declared') →
  ∃ szs ns rest, w = concat szs ++ rest ∧ Forall2 size_coding szs ns ∧
    length ns = n ∧ index' = index + blen (concat szs) ∧
    declared' = declared + sum_sizes ns.
Proof.
  revert index declared w. induction n as [|n IH]; intros index declared w Hw; cbn.
  { intros [= <- <-]. exists [], [], w. cbn. rewrite blen_nil. repeat split; try constructor; lia. }
  rewrite Hw. destruct (parseSize w) as [[size c]|] eqn:Hp; [|done].
  apply parseSize_sound in Hp as (sz & rest & -> & Hsz & <-).
  destruct (validFrameSize_cases size) as [ [-> _] | -> ]; [|done].
  case_match; [done|]. intros Hloop.
  pose proof Hw as (pre & suf & -> & <- & Hlen)%slice_Some.
  rewrite blen_app in Hlen.
  destruct (IH (blen pre + blen sz) (declared + size) rest)
    as (szs & ns & r & -> & Hf & Hn & -> & ->); [|exact Hloop|].
  { rewrite <- blen_app.
    replace (pre ++ (sz ++ rest) ++ suf) with ((pre ++ sz) ++ rest ++ suf)
      by (by rewrite <- !app_assoc).
    apply slice_app. rewrite blen_app. lia. }
  exists (sz :: szs), (size :: ns), r. cbn.
  rewrite <- app_assoc, blen_app, Hn. repeat split; [by constructor|lia..].
Qed.

Lemma vbr_loop_complete pre suf szs ns rest declared pe :
  Forall2 size_coding szs ns →
  pe = blen pre + blen (concat szs) + blen rest →
  declared + sum_sizes ns ≤ blen rest →
  vbr_loop (length ns) (pre ++ (concat szs ++ rest) ++ suf) pe (blen pre) declared
  = Ok (blen pre + blen (concat szs), declared + sum_sizes ns).
Proof.
  intros Hf. revert pre declared. induction Hf as [|sz n szs ns Hsz Hf IH];
    intros pre declared Hpe Hsum; cbn -[blen] in *.
  { rewrite blen_nil. do 2 f_equal; lia. }
  rewrite !blen_app in Hpe.
  rewrite slice_app by (rewrite !blen_app; lia).
  rewrite <- (app_assoc sz), (parseSize_complete sz n) by done.
  pose proof (size_coding_bounds _ _ Hsz) as Hb.
  pose proof (sum_sizes_nonneg _ _ Hf).
  rewrite (proj2 (validFrameSize_ok n) Hb).
  rewrite !blen_app. pose proof (blen_nonneg (concat szs)).
  rewrite (proj2 (Z.ltb_ge _ _)) by lia.
  replace (pre ++ (sz ++ concat szs ++ rest) ++ suf)
    with ((pre ++ sz) ++ (concat szs ++ rest) ++ suf) by (by rewrite <- !app_assoc).
  replace (blen pre + blen sz) with (blen (pre ++ sz)) by apply blen_app.
  rewrite IH by (rewrite ?blen_app; lia).
  rewrite blen_app. do 2 f_equal; lia.
Qed.

(** The slice expression of the VBR loop never panics. *)
Lemma vbr_loop_no_panic packet pe n index declared :
  0 ≤ index ≤ pe → pe ≤ blen packet → 0 ≤ declared →
  vbr_loop n packet pe index declared ≠ Err SlicePanic.
Proof.
  revert index declared. induction n as [|n IH]; intros index declared Hi Hpe Hd; cbn; [done|].
  destruct (slice_is_Some packet index pe Hi Hpe) as [w Hw]. rewrite Hw.
  destruct (parseSize w) as [[size c]|e] eqn:Hp.
  - pose proof (parseSize_sound _ _ _ Hp) as (sz & r & -> & Hsz & <-).
    pose proof (blen_nonneg sz).
    destruct (validFrameSize_cases size) as [ [-> ?] | -> ]; [|done].
    case_match; [done|]. split_bools. apply IH; lia.
  - unfold parseSize in Hp. repeat case_match; congruence.
Qed.


(** Cut a byte sequence into frames of the given sizes. *)
Lemma cut_frames ns rest :
  Forall (λ n, 0 ≤ n) ns → sum_sizes ns ≤ blen rest →
  ∃ fs last, rest = concat fs ++ last ∧ Forall2 (λ f n, blen f = n) fs ns ∧
    blen last = blen rest - sum_sizes ns.
Proof.
  intros Hns. revert rest. induction Hns as [|n ns Hn Hns IH]; intros rest Hsum.
  { exists [], rest. cbn in *. repeat split; [constructor|lia]. }
  cbn in Hsum. assert (0 ≤ sum_sizes ns) as H0.
  { clear -Hns. induction Hns; cbn; lia. }
  destruct (IH (drop (Z.to_nat n) rest)) as (fs & last & Heq & Hf & Hl).
  { unfold blen in *. rewrite length_drop. lia. }
  assert (blen (take (Z.to_nat n) rest) = n) as Htk.
  { unfold blen in *. rewrite length_take. lia. }
  exists (take (Z.to_nat n) rest :: fs), last. cbn. split_and!.
  - rewrite <- app_assoc, <- Heq. by rewrite take_drop.
  - by constructor.
  - rewrite Hl. unfold blen in *. rewrite length_drop. lia.
Qed.

(** Cut a byte sequence into [n] frames of one size. *)
Lemma cut_equal n size rest :
  0 ≤ size → blen rest = Z.of_nat n * size →
  ∃ fs, rest = concat fs ∧ length fs = n ∧ Forall (λ f, blen f = size) fs.
Proof.
  intros Hs. revert rest. induction n as [|n IH]; intros rest Hlen.
  { exists []. destruct rest; [done|]. rewrite blen_cons in Hlen.
    pose proof (blen_nonneg rest). lia. }
  destruct (IH (drop (Z.to_nat size) rest)) as (fs & Heq & Hn & Hf).
  { unfold blen in *. rewrite length_drop. lia. }
  exists (take (Z.to_nat size) rest :: fs). cbn. split_and!.
  - by rewrite <- Heq, take_drop.
  - lia.
  - constructor; [|done]. unfold blen in *. rewrite length_take. lia.
Qed.

Lemma concat_equal_length fs size :
  Forall (λ f, blen f = size) fs → blen (concat fs) = Z.of_nat (length fs) * size.
Proof.
  induction 1 as [|f fs Hf _ IH]; [done|]. cbn [concat length].
  rewrite blen_app. lia.
Qed.

Lemma concat_sizes fs ns :
  Forall2 (λ f n, blen f = n) fs ns → blen (concat fs) = sum_sizes ns.
Proof.
  induction 1 as [|f n fs ns Hf _ IH]; [done|]. cbn. rewrite blen_app. lia.
Qed.

(** ** Soundness and completeness of the parser *)

Definition toc_of (packet : bytes) : byte := nth 0 packet x00.

Lemma land_mask3 b : 0 ≤ Z.land (bval b) 3 ≤ 3.
Proof.
  assert (Z.land (bval b) 3 = bval b mod 2 ^ 2) as -> by (by apply (Z.land_ones _ 2)).
  pose proof (Z.mod_pos_bound (bval b) (2 ^ 2)). lia.
Qed.

(** [body] is the payload of a code-3 packet behind the padding header [ph] and
    before the padding [pad]. *)
Lemma cbr_sound toc hb ph body pad :
  let count := Z.land (bval hb) 63 in
  toc_code toc = 3 → 0 < count ≤ 48 → Z.land (bval hb) 128 = 0 →
  padding_header (negb (Z.land (bval hb) 64 =? 0)) ph (blen pad) →
  Z.rem (blen body) count = 0 → 0 ≤ Z.quot (blen body) count ≤ 1275 →
  ∃ fs, frames_of (toc :: hb :: ph ++ body ++ pad) fs ∧ Forall frame_ok fs ∧
    count = Z.of_nat (length fs).
Proof.
  intros count Htoc Hc Hv Hph Hrem Hq. pose proof (blen_nonneg body).
  rewrite Z.quot_div_nonneg, Z.rem_mod_nonneg in * by lia.
  destruct (cut_equal (Z.to_nat count) (blen body / count) body)
    as (fs & -> & Hn & Hf); [lia| |].
  { rewrite Z2Nat.id by lia. pose proof (Z.div_mod (blen body) count). lia. }
  exists fs. split_and!; [|eapply Forall_impl; [exact Hf|]|lia].
  - apply (many_equal toc hb ph pad (blen pad) fs); try done; try lia.
    intros f g Hin1 Hin2. rewrite Forall_forall in Hf. by rewrite (Hf f), (Hf g).
  - cbv beta. intros f Hsize. unfold frame_ok, maximumFrameBytes. lia.
Qed.

Lemma size_codings_nonneg szs ns : Forall2 size_coding szs ns → Forall (λ n, 0 ≤ n) ns.
Proof.
  induction 1 as [|sz n szs ns Hsz]; constructor; [|done].
  by apply size_coding_bounds in Hsz as [? _].
Qed.

Lemma coded_frames_ok szs ns fs :
  Forall2 size_coding szs ns → Forall2 (λ f n, blen f = n) fs ns →
  Forall frame_ok fs ∧ Forall2 (λ sz f, size_coding sz (blen f)) szs fs.
Proof.
  intros Hsz. revert fs. induction Hsz as [|sz n szs ns Hsz _ IH]; intros fs Hf;
    inversion Hf as [|f ? fs' ? Hfn Hf']; subst; [done|].
  destruct (IH fs' Hf') as [? ?]. apply size_coding_bounds in Hsz as Hb.
  split; constructor; try done. unfold frame_ok, maximumFrameBytes. lia.
Qed.

Lemma vbr_sound toc hb ph body pad index declared :
  let count := Z.land (bval hb) 63 in
  let packet := toc :: hb :: ph ++ body ++ pad in
  let payloadEnd := 2 + blen ph + blen body in
  toc_code toc = 3 → 0 < count ≤ 48 → Z.land (bval hb) 128 ≠ 0 →
  padding_header (negb (Z.land (bval hb) 64 =? 0)) ph (blen pad) →
  vbr_loop (Z.to_nat (count - 1)) packet payloadEnd (2 + blen ph) 0
  = Ok (index, declared) →
  0 ≤ payloadEnd - index - declared ≤ 1275 →
  ∃ fs, frames_of packet fs ∧ Forall frame_ok fs ∧ count = Z.of_nat (length fs).
Proof.
  intros count packet payloadEnd Htoc Hc Hv Hph Hloop Hlast.
  destruct (vbr_loop_sound packet payloadEnd (Z.to_nat (count - 1)) (2 + blen ph) 0
    index declared body) as (szs & ns & rest & -> & Hsz & Hn & -> & ->); [|done|].
  { unfold packet, payloadEnd.
    replace (2 + blen ph) with (blen (toc :: hb :: ph)) by (rewrite !blen_cons; lia).
    by apply (slice_app (toc :: hb :: ph)). }
  unfold payloadEnd in *. rewrite blen_app in *.
  destruct (cut_frames ns rest) as (fs & last & -> & Hf & Hl);
    [by eapply size_codings_nonneg|lia|].
  destruct (coded_frames_ok _ _ _ Hsz Hf) as [Hok Hcoded].
  assert (length fs = Z.to_nat (count - 1)) as Hfs
    by (rewrite <- Hn; by eapply Forall2_length).
  exists (fs ++ [last]). unfold packet. split_and!.
  - replace (ph ++ (concat szs ++ concat fs ++ last) ++ pad)
      with (ph ++ concat szs ++ concat (fs ++ [last]) ++ pad).
    2:{ rewrite concat_app. cbn. by rewrite app_nil_r, <- !app_assoc. }
    apply (many_sized toc hb ph pad (blen pad) szs fs last);
      rewrite ?length_app; cbn [length]; try done; lia.
  - apply Forall_app. split; [done|]. repeat constructor.
    unfold frame_ok, maximumFrameBytes. lia.
  - rewrite length_app. cbn [length]. lia.
Qed.

(** What the padding branch leaves: the header bytes, and an index behind them. *)
Lemma padding_branch_sound L (flag : bool) rest index padding :
  (if flag then padding_loop L rest 2 0 else Ok (2, 0)) = Ok (index, padding) →
  ∃ ph rest', rest = ph ++ rest' ∧ padding_header flag ph padding ∧
    index = 2 + blen ph ∧ 0 ≤ padding.
Proof.
  unfold padding_header. destruct flag; intros Hpad.
  - apply padding_loop_sound in Hpad as (ph & rest' & -> & Hc & ->).
    rewrite Z.sub_0_r in Hc. exists ph, rest'. split_and!; try done.
    by eapply padding_coding_bounds.
  - simplify_eq. by exists [], rest.
Qed.

Lemma arbitrary_sound packet n :
  toc_code (toc_of packet) = 3 → validateArbitraryFrames packet = Ok n →
  ∃ fs, frames_of packet fs ∧ Forall frame_ok fs ∧ n = Z.of_nat (length fs).
Proof.
  intros Hcode. destruct packet as [|toc [|hb rest]]; cbn; [done..|].
  destruct (_ || _) eqn:Hcount; [done|]. split_bools.
  assert (0 ≤ Z.land (bval hb) 63) as Hcount0
    by (apply Z.land_nonneg; left; apply bval_range).
  match goal with |- context [if negb (?f =? 0) then ?x else ?y] =>
    destruct (if negb (f =? 0) then x else y) as [[index padding]|] eqn:Hpad; [|done]
  end.
  apply padding_branch_sound in Hpad as (ph & rest' & -> & Hph & -> & Hp0).
  rewrite !blen_cons, blen_app. case_match; [done|]. split_bools.
  assert (∃ body pad, rest' = body ++ pad ∧ blen pad = padding)
    as (body & pad & -> & <-).
  { exists (take (length rest' - Z.to_nat padding) rest'),
           (drop (length rest' - Z.to_nat padding) rest').
    rewrite take_drop. split; [done|]. unfold blen in *. rewrite length_drop. lia. }
  rewrite blen_app in *.
  replace (1 + (1 + (blen ph + (blen body + blen pad))) - blen pad)
    with (2 + blen ph + blen body) by lia.
  destruct (Z.land (bval hb) 128 =? 0) eqn:Hv; split_bools.
  - replace (2 + blen ph + blen body - (2 + blen ph)) with (blen body) by lia.
    case_match; [done|]. split_bools.
    destruct (validFrameSize_cases (Z.quot (blen body) (Z.land (bval hb) 63)))
      as [ [-> Hsz] | -> ]; [|done].
    intros [= <-]. apply cbr_sound; (done || lia).
  - destruct (vbr_loop _ _ _ _ _) as [[index declared]|] eqn:Hloop; [|done].
    destruct (validFrameSize_cases (2 + blen ph + blen body - index - declared))
      as [ [-> Hsz] | -> ]; [|done].
    intros [= <-]. eapply vbr_sound; (done || lia).
Qed.

(** C36: [Parse] accepts only packets of the RFC 6716 grammar, and what it reports
    (channels, number of frames, frame and packet duration) is what the grammar
    says of the frames the packet carries, with the durations of the table of
    configurations in section 3.1 of the RFC: every frame is at most 1275 bytes and
    the packet lasts at most 120 ms. *)
Theorem Parse_sound packet info :
  Parse packet = Ok info →
  ∃ fs, frames_of packet fs ∧ Forall frame_ok fs ∧
    info = info_of (toc_of packet) (length fs) ∧
    PacketDurationMicrosecs info ≤ 120000.
Proof.
  destruct packet as [|toc body]; [done|]. unfold Parse.
  pose proof (land_mask3 toc) as Hcode. rewrite blen_cons.
  match goal with |- context [if Z.land (bval toc) 3 =? 0 then ?x else ?y] =>
    destruct (if Z.land (bval toc) 3 =? 0 then x else y) as [n|] eqn:Hcount; [|done]
  end.
  destruct (120000 <? _) eqn:Hdur; [done|]. split_bools. intros [= <-].
  enough (∃ fs, frames_of (toc :: body) fs ∧ Forall frame_ok fs ∧ n = Z.of_nat (length fs))
    as (fs & ? & ? & ->) by (exists fs; split_and!; [done|done|symmetry; apply info_of_code|cbn; lia]).
  fold (toc_code toc) in *. pose proof (blen_nonneg body).
  replace (1 + blen body - 1) with (blen body) in Hcount by lia.
  destruct (toc_code toc =? 0) eqn:H0; [|destruct (toc_code toc =? 1) eqn:H1;
    [|destruct (toc_code toc =? 2) eqn:H2]]; split_bools.
  - destruct (validFrameSize_cases (blen body)) as [ [E Hsz] | E ]; rewrite E in Hcount; [|done].
    simplify_eq. exists [body]. repeat constructor; [done|].
    unfold frame_ok, maximumFrameBytes. lia.
  - case_match; [done|]. split_bools.
    destruct (validFrameSize_cases (Z.quot (blen body) 2)) as [ [E Hsz] | E ];
      rewrite E in Hcount; [|done]. simplify_eq.
    rewrite Z.quot_div_nonneg, Z.rem_mod_nonneg in * by lia.
    destruct (cut_equal 2 (blen body / 2) body) as (fs & -> & Hn & Hf); [lia|..].
    { pose proof (Z.div_mod (blen body) 2). lia. }
    destruct fs as [|f1 [|f2 [|]]]; try done.
    apply Forall_cons in Hf as [Hf1 [Hf2 _]%Forall_cons].
    exists [f1; f2]. cbn. rewrite app_nil_r.
    split_and!; [constructor; lia || done|..|done].
    unfold frame_ok, maximumFrameBytes. repeat constructor; lia.
  - destruct (parseSize body) as [[fsz c]|] eqn:Hp; [|done].
    apply parseSize_sound in Hp as (sz & rest & -> & Hsz & <-). rewrite blen_app in *.
    destruct (validFrameSize_cases fsz) as [ [E1 Hs1] | E1 ]; rewrite E1 in Hcount; [|done].
    match type of Hcount with context [validFrameSize ?s] =>
      destruct (validFrameSize_cases s) as [ [E2 Hs2] | E2 ]; rewrite E2 in Hcount; [|done]
    end. simplify_eq.
    destruct (cut_frames [fsz] rest) as (fs & last & -> & Hf & Hl);
      [repeat constructor; lia|cbn; lia|].
    destruct fs as [|f1 [|]]; inversion Hf as [|????? Hf']; subst; [|by inversion Hf'].
    exists [f1; last]. cbn in *. rewrite app_nil_r.
    split_and!; [by constructor|..|done].
    unfold frame_ok, maximumFrameBytes. repeat constructor; lia.
  - apply arbitrary_sound in Hcount; [done|]. unfold toc_of. cbn. lia.
Qed.

(** The padding branch reads back the header the grammar prescribes. *)
Lemma padding_branch_complete L (flag : bool) ph n rest :
  padding_header flag ph n → n < L →
  (if flag then padding_loop L (ph ++ rest) 2 0 else Ok (2, 0)) = Ok (2 + blen ph, n).
Proof.
  unfold padding_header. destruct flag; intros Hph HL.
  - by rewrite (padding_loop_complete _ _ n).
  - by destruct Hph as [-> ->].
Qed.

Lemma Parse_of_count toc body n :
  (if toc_code toc =? 0 then
     TRY tt := validFrameSize (blen (toc :: body) - 1) ;; Ok 1
   else if toc_code toc =? 1 then
     IF negb (Z.rem (blen (toc :: body) - 1) 2 =? 0) RETURN Err CBRPairUnequal ;;
     TRY tt := validFrameSize (Z.quot (blen (toc :: body) - 1) 2) ;; Ok 2
   else if toc_code toc =? 2 then
     TRY (firstSize, consumed) := parseSize body ;;
     TRY tt := validFrameSize firstSize ;;
     TRY tt := validFrameSize (blen (toc :: body) - 1 - consumed - firstSize) ;; Ok 2
   else validateArbitraryFrames (toc :: body)) = Ok (Z.of_nat n) →
  PacketDurationMicrosecs (info_of toc n) ≤ 120000 →
  Parse (toc :: body) = Ok (info_of toc n).
Proof.
  rewrite info_of_code. intros Hcount Hdur. unfold Parse. unfold toc_code in Hcount. rewrite Hcount.
  cbn in Hdur. by rewrite (proj2 (Z.ltb_ge _ _) Hdur).
Qed.

Lemma arbitrary_complete_cbr toc hb ph pad fs :
  Z.land (bval hb) 63 = Z.of_nat (length fs) → Z.land (bval hb) 128 = 0 →
  padding_header (negb (Z.land (bval hb) 64 =? 0)) ph (blen pad) →
  (1 ≤ length fs ≤ 48)%nat → (∀ f g, f ∈ fs → g ∈ fs → blen f = blen g) →
  Forall frame_ok fs →
  validateArbitraryFrames (toc :: hb :: ph ++ concat fs ++ pad)
  = Ok (Z.of_nat (length fs)).
Proof.
  intros Hc Hv Hph Hn Heq Hok. unfold validateArbitraryFrames. rewrite Hc.
  assert ((Z.of_nat (length fs) =? 0) || (48 <? Z.of_nat (length fs)) = false) as ->
    by (apply orb_false_iff; split; [apply Z.eqb_neq|apply Z.ltb_ge]; lia).
  rewrite (padding_branch_complete _ _ _ (blen pad)); [|done|].
  2:{ rewrite !blen_cons, !blen_app.
      pose proof (blen_nonneg ph). pose proof (blen_nonneg (concat fs)). lia. }
  destruct fs as [|f fs']; [cbn in Hn; lia|]. set (fs := f :: fs') in *.
  assert (Forall (λ g, blen g = blen f) fs) as Hsize.
  { apply Forall_forall. intros g Hg. apply Heq; [done|left]. }
  apply concat_equal_length in Hsize.
  rewrite !blen_cons, !blen_app. pose proof (blen_nonneg f).
  rewrite (proj2 (Z.ltb_ge _ _)) by lia.
  rewrite Hv. cbn [Z.eqb].
  replace (1 + (1 + (blen ph + (blen (concat fs) + blen pad))) - blen pad - (2 + blen ph))
    with (blen f * Z.of_nat (length fs)) by lia.
  rewrite Z.rem_mul, Z.quot_mul by lia. cbn [negb Z.eqb].
  apply Forall_cons in Hok as [Hokf _].
  unfold frame_ok, maximumFrameBytes in Hokf.
  by rewrite (proj2 (validFrameSize_ok (blen f))) by lia.
Qed.

Lemma arbitrary_complete_vbr toc hb ph pad szs fs last :
  Z.land (bval hb) 63 = Z.of_nat (length (fs ++ [last])) →
  Z.land (bval hb) 128 ≠ 0 →
  padding_header (negb (Z.land (bval hb) 64 =? 0)) ph (blen pad) →
  (length (fs ++ [last]) ≤ 48)%nat →
  Forall2 (λ sz f, size_coding sz (blen f)) szs fs → frame_ok last →
  validateArbitraryFrames
    (toc :: hb :: ph ++ concat szs ++ concat (fs ++ [last]) ++ pad)
  = Ok (Z.of_nat (length (fs ++ [last]))).
Proof.
  intros Hc Hv Hph Hn Hsz Hok. unfold validateArbitraryFrames. rewrite Hc.
  assert (length (fs ++ [last]) = S (length fs)) as Hlen
    by (rewrite length_app; cbn; lia).
  assert ((Z.of_nat (length (fs ++ [last])) =? 0)
          || (48 <? Z.of_nat (length (fs ++ [last]))) = false) as ->
    by (apply orb_false_iff; split; [apply Z.eqb_neq|apply Z.ltb_ge]; lia).
  pose proof (blen_nonneg ph). pose proof (blen_nonneg (concat szs)).
  pose proof (blen_nonneg (concat (fs ++ [last]))).
  rewrite (padding_branch_complete _ _ _ (blen pad));
    [|done|rewrite !blen_cons, !blen_app; lia].
  rewrite !blen_cons, !blen_app. rewrite (proj2 (Z.ltb_ge _ _)) by lia.
  rewrite (proj2 (Z.eqb_neq _ _) Hv).
  assert (Forall2 size_coding szs (blen <$> fs)) as Hcod by (by apply Forall2_fmap_r).
  assert (blen (concat fs) = sum_sizes (blen <$> fs)) as Hsum.
  { apply concat_sizes. apply Forall2_fmap_r, Forall_Forall2_diag, Forall_true. done. }
  rewrite concat_app. cbn [concat]. rewrite app_nil_r, !blen_app.
  pose proof (blen_nonneg last).
  replace (Z.to_nat (Z.of_nat (length (fs ++ [last])) - 1)) with (length (blen <$> fs))
    by (rewrite length_fmap; lia).
  replace (toc :: hb :: ph ++ concat szs ++ (concat fs ++ last) ++ pad)
    with ((toc :: hb :: ph) ++ (concat szs ++ (concat fs ++ last)) ++ pad)
    by (cbn; by rewrite <- !app_assoc).
  replace (2 + blen ph) with (blen (toc :: hb :: ph)) by (rewrite !blen_cons; lia).
  rewrite (vbr_loop_complete _ _ _ _ (concat fs ++ last));
    [|done|rewrite !blen_cons, !blen_app; lia|rewrite blen_app; lia].
  unfold frame_ok, maximumFrameBytes in Hok.
  match goal with |- context [validFrameSize ?s] =>
    rewrite (proj2 (validFrameSize_ok s)); [done|rewrite !blen_cons; lia] end.
Qed.

(** [Parse] rejects nothing the RFC 6716 grammar allows: a packet of the
    grammar whose frames are at most 1275 bytes and that lasts at most 120 ms is
    accepted, with the frame count, channel and duration of its frames. *)
Theorem Parse_complete packet fs :
  frames_of packet fs → Forall frame_ok fs →
  PacketDurationMicrosecs (info_of (toc_of packet) (length fs)) ≤ 120000 →
  Parse packet = Ok (info_of (toc_of packet) (length fs)).
Proof.
  intros Hfr Hok Hdur. unfold frame_ok, maximumFrameBytes in Hok.
  destruct Hfr as [toc f Hc|toc f1 f2 Hc Heq|toc sz f1 f2 Hc Hsz
    |toc hb ph pad n fs Hc Hcount Hv Hph Hn Hlen Heq
    |toc hb ph pad n szs fs last Hc Hcount Hv Hph Hn Hlen Hsz]; subst;
    (unfold toc_of in *; cbn [nth] in *; apply Parse_of_count; [|done]);
    rewrite Hc; cbn [Z.eqb Pos.eqb].
  - apply Forall_cons in Hok as [Hf _]. pose proof (blen_nonneg f). rewrite blen_cons.
    by rewrite (proj2 (validFrameSize_ok _)) by lia.
  - apply Forall_cons in Hok as [Hf _]. pose proof (blen_nonneg f1).
    rewrite blen_cons, blen_app, <- Heq.
    replace (1 + (blen f1 + blen f1) - 1) with (blen f1 * 2) by lia.
    rewrite Z.rem_mul, Z.quot_mul by lia. cbn.
    by rewrite (proj2 (validFrameSize_ok _)) by lia.
  - apply Forall_cons in Hok as [Hf1 [Hf2 _]%Forall_cons].
    cbv beta in *. pose proof (blen_nonneg f1). pose proof (blen_nonneg f2).
    rewrite (parseSize_complete _ (blen f1)) by done. rewrite blen_cons, !blen_app.
    by rewrite (proj2 (validFrameSize_ok (blen f1))), (proj2 (validFrameSize_ok _)) by lia.
  - by apply arbitrary_complete_cbr.
  - apply Forall_app in Hok as [_ [Hl _]%Forall_cons].
    by apply arbitrary_complete_vbr.
Qed.

Lemma Parse_complete_witness :
  frames_of [byte_of 11; byte_of 2; byte_of 7; byte_of 8] [[byte_of 7]; [byte_of 8]] ∧
  Parse [byte_of 11; byte_of 2; byte_of 7; byte_of 8] = Ok (info_of (byte_of 11) 2).
Proof.
  assert (frames_of [byte_of 11; byte_of 2; byte_of 7; byte_of 8]
            [[byte_of 7]; [byte_of 8]]) as Hf.
  { apply (many_equal (byte_of 11) (byte_of 2) [] [] 0 [[byte_of 7]; [byte_of 8]]);
      try done; try (cbn; lia).
    intros f g Hin1%list_elem_of_In Hin2%list_elem_of_In.
    by destruct Hin1 as [<-|[<-|[]]], Hin2 as [<-|[<-|[]]]. }
  split; [exact Hf|].
  apply (Parse_complete _ _ Hf); [|by vm_compute].
  repeat constructor; by vm_compute.
Defined.

Lemma Parse_sound_witness :
  Parse [byte_of 11; byte_of 2; byte_of 7; byte_of 8] = Ok (info_of (byte_of 11) 2) ∧
  ∃ fs, frames_of [byte_of 11; byte_of 2; byte_of 7; byte_of 8] fs ∧
    Forall frame_ok fs ∧ info_of (byte_of 11) 2 = info_of (byte_of 11) (length fs) ∧
    PacketDurationMicrosecs (info_of (byte_of 11) 2) ≤ 120000.
Proof. split; [reflexivity|]. apply Parse_sound. reflexivity. Defined.

Lemma validateArbitraryFrames_no_panic packet :
  validateArbitraryFrames packet ≠ Err SlicePanic.
Proof.
  unfold validateArbitraryFrames. destruct packet as [|toc [|hb rest]]; try done.
  destruct (_ || _); [done|].
  match goal with |- context [if negb (?f =? 0) then ?x else ?y] =>
    destruct (if negb (f =? 0) then x else y) as [[index padding]|e] eqn:Hpad end.
  - apply padding_branch_sound in Hpad as (ph & rest' & -> & Hph & -> & Hp0).
    destruct (_ <? 2 + blen ph) eqn:Hpe; [done|]. split_bools. pose proof (blen_nonneg ph).
    destruct (Z.land (bval hb) 128 =? 0).
    + case_match; [done|].
      match goal with |- context [validFrameSize ?s] =>
        destruct (validFrameSize_cases s) as [ [-> _] | -> ]; done end.
    + match goal with |- context [vbr_loop ?a ?b ?c ?d ?e] =>
        pose proof (vbr_loop_no_panic b c a d e) as Hnp;
        destruct (vbr_loop a b c d e) as [[i d']|e'] end.
      * match goal with |- context [validFrameSize ?s] =>
          destruct (validFrameSize_cases s) as [ [-> _] | -> ]; done end.
      * intros [= ->]. apply Hnp; [lia..|done].
  - intros [= ->]. destruct (negb _); [|done]. clear -Hpad. revert Hpad.
    generalize 2 as i. generalize 0 as p. generalize (blen (toc :: hb :: rest)) as L.
    induction rest as [|b rest IH]; intros L p i; cbn; [done|].
    repeat case_match; try done. apply IH.
Qed.

(** No input makes the parser index or slice out of range: the only partial
    operation of the package, [packet[index:payloadEnd]] in the VBR loop, never
    panics, and a decision is returned for every byte sequence. *)
Theorem Parse_no_panic packet millis :
  Parse packet ≠ Err SlicePanic ∧ ValidateMonoDuration packet millis ≠ Err SlicePanic.
Proof.
  assert (Parse packet ≠ Err SlicePanic) as HP.
  { unfold Parse. destruct packet as [|toc body]; [done|].
    match goal with |- context [if Z.land (bval toc) 3 =? 0 then ?x else ?y] =>
      destruct (if Z.land (bval toc) 3 =? 0 then x else y) as [n|e] eqn:Hcount end.
    - clear Hcount. by case_match.
    - intros [= ->]. revert Hcount.
      pose proof (validateArbitraryFrames_no_panic (toc :: body)) as Hnp.
      unfold validFrameSize, parseSize. repeat case_match; congruence. }
  split; [done|]. unfold ValidateMonoDuration. case_match; [done|].
  destruct (Parse packet) as [info|e]; [by repeat case_match|]. congruence.
Qed.

End Opus.
