(* ===== verification/Protocol.v ===== *)
(** * Protocol: the audio framing and control messages of the device protocol

    Models [internal/protocol/v1.go]: the three transport versions of the audio
    packet ([EncodeAudioPacket], [DecodeAudioPacket]), [validString] with the
    UTF-8 and white-space rules of Go's [unicode/utf8] and [strings.TrimSpace],
    the two hellos and the control messages ([DecodeClientHello], [NewServerHello],
    [DecodeControl], [ParseRequestID]). *)

From stdpp Require Import base gmap strings list.
From Stdlib Require Import ZArith Lia.
From Stdlib.Strings Require Import Byte.
From S2P Require Import Prelude GoBase.

(** ** Text: [utf8.ValidString] and [strings.TrimSpace] *)

Module Text.

Definition cont (b : byte) : bool := (128 <=? bval b) && (bval b <=? 191).

(** [utf8.DecodeRune]: the rune and the bytes after it; [None] for an ill-formed
    sequence. The second byte of a longer sequence is restricted so that
    overlong forms, surrogates and values over U+10FFFF are refused. *)
Definition decode_rune (bs : bytes) : option (Z * bytes) :=
  match bs with
  | [] => None
  | b0 :: r0 =>
      let v0 := bval b0 in
      if v0 <? 128 then Some (v0, r0)
      else if (194 <=? v0) && (v0 <=? 223) then
        match r0 with
        | b1 :: r1 =>
            if cont b1 then Some ((v0 - 192) * 64 + (bval b1 - 128), r1) else None
        | _ => None
        end
      else if (224 <=? v0) && (v0 <=? 239) then
        match r0 with
        | b1 :: b2 :: r2 =>
            let lo := if v0 =? 224 then 160 else 128 in
            let hi := if v0 =? 237 then 159 else 191 in
            if (lo <=? bval b1) && (bval b1 <=? hi) && cont b2
            then Some ((v0 - 224) * 4096 + (bval b1 - 128) * 64 + (bval b2 - 128), r2)
            else None
        | _ => None
        end
      else if (240 <=? v0) && (v0 <=? 244) then
        match r0 with
        | b1 :: b2 :: b3 :: r3 =>
            let lo := if v0 =? 240 then 144 else 128 in
            let hi := if v0 =? 244 then 143 else 191 in
            if (lo <=? bval b1) && (bval b1 <=? hi) && cont b2 && cont b3
            then Some ((v0 - 240) * 262144 + (bval b1 - 128) * 4096
                       + (bval b2 - 128) * 64 + (bval b3 - 128), r3)
            else None
        | _ => None
        end
      else None
  end.

(** All runes of a byte sequence; the fuel is its length, a rune being at least
    one byte. *)
Fixpoint decode_runes (fuel : nat) (bs : bytes) : option (list Z) :=
  match bs, fuel with
  | [], _ => Some []
  | _, O => None
  | _, S fuel =>
      match decode_rune bs with
      | Some (r, rest) =>
          match decode_runes fuel rest with
          | Some rs => Some (r :: rs)
          | None => None
          end
      | None => None
      end
  end.

Definition runes (s : string) : option (list Z) :=
  decode_runes (length (bytes_of s)) (bytes_of s).

(** [utf8.ValidString]. *)
Definition ValidString (s : string) : bool :=
  match runes s with Some _ => true | None => false end.

(** [unicode.IsSpace]. *)
Definition IsSpace (r : Z) : bool :=
  ((9 <=? r) && (r <=? 13)) || (r =? 32) || (r =? 133) || (r =? 160)
  || (r =? 5760) || ((8192 <=? r) && (r <=? 8202)) || (r =? 8232) || (r =? 8233)
  || (r =? 8239) || (r =? 8287) || (r =? 12288).

(** [strings.TrimSpace(s) == ""] on a valid string: every rune is a space. *)
Definition BlankString (s : string) : bool :=
  match runes s with Some rs => forallb IsSpace rs | None => false end.

(** [strings.TrimSpace]: the bytes of the spaces at both ends are dropped. A
    trailing space is a suffix that decodes to one space rune, which is what
    [utf8.DecodeLastRune] finds. *)
Fixpoint trim_left (fuel : nat) (bs : bytes) : bytes :=
  match fuel with
  | O => bs
  | S fuel =>
      match decode_rune bs with
      | Some (r, rest) => if IsSpace r then trim_left fuel rest else bs
      | None => bs
      end
  end.

(** On the reversed sequence. *)
Fixpoint trim_right (fuel : nat) (rev : bytes) : bytes :=
  match fuel with
  | O => rev
  | S fuel =>
      let space n := match decode_rune (reverse (take n rev)) with
                     | Some (r, []) => IsSpace r
                     | _ => false
                     end in
      if space 1%nat then trim_right fuel (drop 1 rev)
      else if space 2%nat then trim_right fuel (drop 2 rev)
      else if space 3%nat then trim_right fuel (drop 3 rev)
      else rev
  end.

Definition TrimSpace (s : string) : string :=
  let bs := trim_left (length (bytes_of s)) (bytes_of s) in
  string_of (reverse (trim_right (length bs) (reverse bs))).

Example TrimSpace_example : TrimSpace "  v1.a b	 " = "v1.a b".
Proof. reflexivity. Qed.

(** An ASCII string is its own sequence of runes. *)
Lemma decode_runes_ascii n bs :
  (length bs ≤ n)%nat → Forall (λ b, bval b < 128) bs →
  decode_runes n bs = Some (bval <$> bs).
Proof.
  intros Hn Hb. revert n Hn. induction Hb as [|b bs Hlt _ IH]; intros n Hn; [by destruct n|].
  destruct n as [|n]; cbn in Hn; [lia|]. cbn [decode_runes decode_rune].
  rewrite (proj2 (Z.ltb_lt _ _)) by done. by rewrite IH by lia.
Qed.

Lemma ValidString_ascii s : Forall (λ b, bval b < 128) (bytes_of s) → ValidString s = true.
Proof. intros Hb. unfold ValidString, runes. by rewrite decode_runes_ascii. Qed.

Lemma BlankString_ascii s b :
  Forall (λ b, bval b < 128) (bytes_of s) → b ∈ bytes_of s → IsSpace (bval b) = false →
  BlankString s = false.
Proof.
  intros Hb Hin Hsp. unfold BlankString, runes. rewrite decode_runes_ascii by done.
  apply not_true_iff_false. intros Hall. rewrite forallb_forall in Hall.
  specialize (Hall (bval b)). rewrite Hall in Hsp; [done|].
  apply list_elem_of_In, list_elem_of_fmap. eauto.
Qed.

End Text.

(** ** The control and audio protocol *)

Module Protocol.
Import Text.

Definition AgentVersion : Z := 1.
Definition MaxSessionIDBytes : Z := 63.
Definition MaxTTSTextBytes : Z := 512.
Definition MaxOpusPacketBytes : Z := 4096.

(** The codes of [Violation], and the panics of an index out of range. *)
Inductive violation : Type :=
| invalid_session
| invalid_audio_params
| invalid_audio_packet
| unsupported_transport_version
| invalid_hello
| missing_device_agent
| unsupported_agent_version
| missing_request_correlation
| invalid_json
| invalid_request_id
| invalid_tts_text
| invalid_abort_reason
| unsupported_message
| SlicePanic.

Definition validString (value : string) (maxBytes : Z) : bool :=
  IF negb (ValidString value) || BlankString value RETURN false ;;
  IF maxBytes <? slen value RETURN false ;;
  true.

Definition validAbortReason (reason : string) : bool :=
  bool_decide (reason ∈ ["barge_in"; "button"; "network_lost"; "session_closed"]).

Record AudioParams : Type := {
  Format : string;
  SampleRate : Z;
  Channels : Z;
  FrameDuration : Z;
}.

Record ServerHello : Type := {
  hello_Type : string;
  Transport : string;
  SessionID : string;
  agent_Version : Z;
  RequestCorrelation : bool;
  hello_AudioParams : AudioParams;
}.

Definition NewServerHello (sessionID : string) (outputSampleRate frameDuration : Z) :
    result violation ServerHello :=
  IF negb (validString sessionID MaxSessionIDBytes) RETURN Err invalid_session ;;
  IF (outputSampleRate <=? 0) || (48000 <? outputSampleRate)
     || (frameDuration <=? 0) || (120 <? frameDuration)
    RETURN Err invalid_audio_params ;;
  Ok {| hello_Type := "hello"; Transport := "websocket"; SessionID := sessionID;
        agent_Version := AgentVersion; RequestCorrelation := true;
        hello_AudioParams :=
          {| Format := "opus"; SampleRate := outputSampleRate; Channels := 1;
             FrameDuration := frameDuration |} |}.

Definition EncodeAudioPacket (version : Z) (opus : bytes) : result violation bytes :=
  IF (blen opus =? 0) || (MaxOpusPacketBytes <? blen opus)
    RETURN Err invalid_audio_packet ;;
  if version =? 1 then Ok opus
  else if version =? 2 then
    Ok (be_put 2 2 ++ be_put 2 0 ++ be_put 4 0 ++ be_put 4 0
        ++ be_put 4 (wrap_u32 (blen opus)) ++ opus)
  else if version =? 3 then
    Ok (byte_of 0 :: byte_of 0 :: be_put 2 (blen opus mod 2 ^ 16) ++ opus)
  else Err unsupported_transport_version.

(** [packet[lo:hi]] as a big-endian integer; a panic when out of range. *)
Definition uint_at (packet : bytes) (lo hi : Z) : result violation Z :=
  match slice packet lo hi with
  | Some w => Ok (be_get w)
  | None => Err SlicePanic
  end.

Definition checkSize (opus : bytes) : result violation bytes :=
  IF (blen opus =? 0) || (MaxOpusPacketBytes <? blen opus)
    RETURN Err invalid_audio_packet ;;
  Ok opus.

Definition slice_from (packet : bytes) (lo : Z) : result violation bytes :=
  match slice packet lo (blen packet) with
  | Some w => Ok w
  | None => Err SlicePanic
  end.

Definition DecodeAudioPacket (version : Z) (packet : bytes) : result violation bytes :=
  TRY opus :=
    (if version =? 1 then Ok packet
     else if version =? 2 then
       IF blen packet <? 16 RETURN Err invalid_audio_packet ;;
       TRY v := uint_at packet 0 2 ;;
       IF negb (v =? 2) RETURN Err invalid_audio_packet ;;
       TRY r := uint_at packet 2 4 ;;
       IF negb (r =? 0) RETURN Err invalid_audio_packet ;;
       TRY t := uint_at packet 4 8 ;;
       IF negb (t =? 0) RETURN Err invalid_audio_packet ;;
       TRY length := uint_at packet 12 16 ;;
       IF negb (length =? blen packet - 16) RETURN Err invalid_audio_packet ;;
       slice_from packet 16
     else if version =? 3 then
       IF blen packet <? 4 RETURN Err invalid_audio_packet ;;
       TRY b0 := uint_at packet 0 1 ;;
       IF negb (b0 =? 0) RETURN Err invalid_audio_packet ;;
       TRY b1 := uint_at packet 1 2 ;;
       IF negb (b1 =? 0) RETURN Err invalid_audio_packet ;;
       TRY length := uint_at packet 2 4 ;;
       IF negb (length =? blen packet - 4) RETURN Err invalid_audio_packet ;;
       slice_from packet 4
     else Err unsupported_transport_version) ;;
  checkSize opus.

(** *** Reading back a packet field by field *)

Lemma slice_skip w rest lo hi :
  blen w ≤ lo → lo ≤ hi → slice (w ++ rest) lo hi = slice rest (lo - blen w) (hi - blen w).
Proof.
  intros Hlo Hhi. unfold slice. rewrite blen_app. pose proof (blen_nonneg w).
  rewrite (proj2 (Z.leb_le 0 lo)), (proj2 (Z.leb_le lo hi)), (proj2 (Z.leb_le 0 (lo - _))),
    (proj2 (Z.leb_le (lo - _) _)) by lia. cbn [andb].
  replace (hi - blen w <=? blen rest) with (hi <=? blen w + blen rest)
    by (apply eq_true_iff_eq; rewrite !Z.leb_le; lia).
  case_match; [|done]. unfold blen in *. rewrite drop_app_ge by lia.
  do 2 f_equal; [lia|]. f_equal. lia.
Qed.

Lemma uint_at_skip w rest lo hi :
  blen w ≤ lo → lo ≤ hi → uint_at (w ++ rest) lo hi = uint_at rest (lo - blen w) (hi - blen w).
Proof. intros. unfold uint_at. by rewrite slice_skip. Qed.

Lemma uint_at_here w rest lo hi :
  lo = 0 → hi = blen w → uint_at (w ++ rest) lo hi = Ok (be_get w).
Proof. intros -> Hw. unfold uint_at. by rewrite (slice_app [] w rest). Qed.

Lemma slice_from_skip w rest lo :
  blen w ≤ lo → lo ≤ blen (w ++ rest) → slice_from (w ++ rest) lo = slice_from rest (lo - blen w).
Proof.
  intros. unfold slice_from. rewrite slice_skip, blen_app by done.
  by replace (blen w + blen rest - blen w) with (blen rest) by lia.
Qed.

Lemma slice_from_0 rest lo : lo = 0 → slice_from rest lo = Ok rest.
Proof.
  intros ->.
  unfold slice_from, slice. pose proof (blen_nonneg rest).
  rewrite !(proj2 (Z.leb_le _ _)) by lia. rewrite Z.sub_0_r. cbn [andb].
  change (Z.to_nat 0) with 0%nat. rewrite drop_0. unfold blen.
  by rewrite Nat2Z.id, take_ge.
Qed.

Lemma blen_be_put n z : blen (be_put n z) = Z.of_nat n.
Proof. unfold blen. by rewrite be_put_length. Qed.

(** A packet of at least [n] bytes starts with an [n]-byte field. *)
Lemma split_field n packet :
  Z.of_nat n ≤ blen packet → ∃ w rest, packet = w ++ rest ∧ blen w = Z.of_nat n.
Proof.
  intros Hn. exists (take n packet), (drop n packet). unfold blen in *.
  rewrite take_drop, length_take. split; [done|]. lia.
Qed.

(** Evaluate every read of a packet spelled out as fields of known length. *)
Ltac read_fields :=
  repeat first
    [ rewrite uint_at_here by (rewrite ?blen_be_put; lia)
    | rewrite uint_at_skip by (rewrite ?blen_be_put; lia)
    | rewrite slice_from_0 by (rewrite ?blen_be_put; lia)
    | rewrite slice_from_skip by (rewrite ?blen_app, ?blen_be_put; lia)
    | progress rewrite ?blen_app, ?blen_be_put ].

Lemma checkSize_ok opus p : checkSize opus = Ok p ↔ p = opus ∧ 1 ≤ blen opus ≤ 4096.
Proof.
  unfold checkSize, MaxOpusPacketBytes. pose proof (blen_nonneg opus).
  destruct (blen opus =? 0) eqn:?; destruct (4096 <? blen opus) eqn:?; split_bools;
    cbn [orb]; split; try done; try (intros [_ ?]; lia).
  - intros [= <-]. split; [done|lia].
  - by intros [-> _].
Qed.

Lemma be_get_eq w n z : length w = n → be_get w = z → w = be_put n z.
Proof. intros Hn <-. by rewrite be_put_get. Qed.

(** The packets of each version as the decoder understands them; the decoder of
    version 2 ignores the four timestamp bytes [ts]. *)
Definition wire (version : Z) (ts opus : bytes) : bytes :=
  if version =? 1 then opus
  else if version =? 2 then
    be_put 2 2 ++ be_put 2 0 ++ be_put 4 0 ++ ts ++ be_put 4 (blen opus) ++ opus
  else be_put 1 0 ++ be_put 1 0 ++ be_put 2 (blen opus) ++ opus.

Lemma decode_wire version ts opus :
  1 ≤ version ≤ 3 → blen ts = 4 → 1 ≤ blen opus ≤ 4096 →
  DecodeAudioPacket version (wire version ts opus) = Ok opus.
Proof.
  intros Hv Hts Hlen.
  assert (checkSize opus = Ok opus) as Hsize by (by apply checkSize_ok).
  unfold DecodeAudioPacket, wire.
  assert (version = 1 ∨ version = 2 ∨ version = 3) as [ -> | [ -> | -> ] ] by lia;
    cbn [Z.eqb Pos.eqb]; [done|..].
  - read_fields. rewrite (proj2 (Z.ltb_ge _ _)) by lia.
    rewrite !be_get_put, !Z.mod_small by (cbn; lia). cbn [Z.eqb Pos.eqb negb].
    by rewrite (proj2 (Z.eqb_eq _ _)) by lia.
  - read_fields. rewrite (proj2 (Z.ltb_ge _ _)) by lia.
    rewrite !be_get_put, !Z.mod_small by (cbn; lia). cbn [Z.eqb Pos.eqb negb].
    by rewrite (proj2 (Z.eqb_eq _ _)) by lia.
Qed.

Lemma encode_wire version opus p :
  EncodeAudioPacket version opus = Ok p ↔
  1 ≤ version ≤ 3 ∧ 1 ≤ blen opus ≤ 4096 ∧ p = wire version (be_put 4 0) opus.
Proof.
  unfold EncodeAudioPacket, MaxOpusPacketBytes, wire. pose proof (blen_nonneg opus).
  destruct (_ || _) eqn:Hsize.
  { split; [done|]. intros (_ & ? & _). apply orb_true_iff in Hsize as [?|?]; split_bools; lia. }
  split_bools. unfold wrap_u32. rewrite !Z.mod_small by lia.
  destruct (version =? 1) eqn:Hv1; [|destruct (version =? 2) eqn:Hv2;
    [|destruct (version =? 3) eqn:Hv3] ]; split_bools; split; intros Hp;
    try (destruct Hp as (? & ? & ->)); simplify_eq; try done; try lia;
    split_and!; try lia; done.
Qed.

Lemma decode_inv version packet opus :
  DecodeAudioPacket version packet = Ok opus →
  1 ≤ version ≤ 3 ∧ 1 ≤ blen opus ≤ 4096 ∧
  ∃ ts, blen ts = 4 ∧ packet = wire version ts opus.
Proof.
  unfold DecodeAudioPacket, wire.
  destruct (version =? 1) eqn:Hv1.
  { intros [-> ?]%checkSize_ok. split_bools. split_and!; try lia. by exists (be_put 4 0). }
  destruct (version =? 2) eqn:Hv2.
  - destruct (blen packet <? 16) eqn:Hv16; [done|]. split_bools.
    destruct (split_field 2 packet) as (f1 & r1 & -> & L1); [lia|]. rewrite blen_app in *.
    destruct (split_field 2 r1) as (f2 & r2 & -> & L2); [lia|]. rewrite blen_app in *.
    destruct (split_field 4 r2) as (f3 & r3 & -> & L3); [lia|]. rewrite blen_app in *.
    destruct (split_field 4 r3) as (f4 & r4 & -> & L4); [lia|]. rewrite blen_app in *.
    destruct (split_field 4 r4) as (f5 & r5 & -> & L5); [lia|]. rewrite blen_app in *.
    read_fields. intros Hd. go_branches. apply checkSize_ok in Hd as [? ?]; subst.
    split_and!; try lia. exists f4. split; [lia|].
    match goal with _ : 1 ≤ blen ?x ≤ _ |- _ => rename x into body end.
    rewrite (be_get_eq f1 2 2), (be_get_eq f2 2 0), (be_get_eq f3 4 0),
      (be_get_eq f5 4 (blen body)); try done; try (unfold blen in *; lia).
  - destruct (version =? 3) eqn:Hv3; [|done].
    destruct (blen packet <? 4) eqn:Hv16; [done|]. split_bools.
    destruct (split_field 1 packet) as (f1 & r1 & -> & L1); [lia|]. rewrite blen_app in *.
    destruct (split_field 1 r1) as (f2 & r2 & -> & L2); [lia|]. rewrite blen_app in *.
    destruct (split_field 2 r2) as (f3 & r3 & -> & L3); [lia|]. rewrite blen_app in *.
    read_fields. intros Hd. go_branches. apply checkSize_ok in Hd as [? ?]; subst.
    split_and!; try lia. exists (be_put 4 0). split; [done|].
    match goal with _ : 1 ≤ blen ?x ≤ _ |- _ => rename x into body end.
    rewrite (be_get_eq f1 1 0), (be_get_eq f2 1 0), (be_get_eq f3 2 (blen body));
      try done; try (unfold blen in *; lia).
Qed.

Lemma uint_at_no_panic packet lo hi :
  0 ≤ lo ≤ hi → hi ≤ blen packet → ∃ v, uint_at packet lo hi = Ok v.
Proof.
  intros Hlo Hhi. unfold uint_at.
  destruct (slice_is_Some packet lo hi Hlo Hhi) as [w ->]. eauto.
Qed.

Lemma slice_from_no_panic packet lo :
  0 ≤ lo ≤ blen packet → ∃ w, slice_from packet lo = Ok w.
Proof.
  intros Hlo. unfold slice_from.
  destruct (slice_is_Some packet lo (blen packet)) as [w ->]; [lia..|]. eauto.
Qed.

(** Every read happens under the length guard that makes it safe. *)
Lemma DecodeAudioPacket_no_panic version packet :
  DecodeAudioPacket version packet ≠ Err SlicePanic.
Proof.
  unfold DecodeAudioPacket, checkSize.
  destruct (version =? 1); [by case_match|].
  destruct (version =? 2); [|destruct (version =? 3); [|done] ];
    (destruct (blen packet <? _) eqn:Hlen; [done|]); split_bools;
    repeat match goal with
    | |- context [uint_at packet ?lo ?hi] =>
        destruct (uint_at_no_panic packet lo hi) as [? ->]; [lia..|]
    | |- context [slice_from packet ?lo] =>
        destruct (slice_from_no_panic packet lo) as [? ->]; [lia|]
    end; repeat case_match; congruence.
Qed.

(** A packet built by [EncodeAudioPacket] is decoded to the very Opus bytes it
    was built from, whichever of the three transport versions is in use, and
    every in-range payload can be encoded. *)
Theorem AudioPacket_roundtrip version opus :
  1 ≤ version ≤ 3 → 1 ≤ blen opus ≤ 4096 →
  ∃ packet, EncodeAudioPacket version opus = Ok packet ∧
    DecodeAudioPacket version packet = Ok opus.
Proof.
  intros Hv Hlen. exists (wire version (be_put 4 0) opus). split.
  - by apply encode_wire.
  - by apply decode_wire.
Qed.

Lemma AudioPacket_roundtrip_witness :
  ∃ packet, EncodeAudioPacket 2 [byte_of 8; byte_of 1] = Ok packet ∧
    DecodeAudioPacket 2 packet = Ok [byte_of 8; byte_of 1].
Proof. apply AudioPacket_roundtrip; split; by vm_compute. Defined.

(** [DecodeAudioPacket] accepts exactly the packets of the wire format: a
    known version, the fixed header fields, a length field equal to the bytes
    that follow and a payload of 1 to 4096 bytes; only the four timestamp bytes
    of version 2 are free. No packet makes it read out of range. *)
Theorem DecodeAudioPacket_exact version packet :
  DecodeAudioPacket version packet ≠ Err SlicePanic ∧
  ∀ opus, DecodeAudioPacket version packet = Ok opus ↔
    1 ≤ version ≤ 3 ∧ 1 ≤ blen opus ≤ 4096 ∧
    ∃ ts, blen ts = 4 ∧ packet = wire version ts opus.
Proof.
  split; [apply DecodeAudioPacket_no_panic|]. intros opus. split.
  - apply decode_inv.
  - intros (Hv & Hlen & ts & Hts & ->). by apply decode_wire.
Qed.

(** ** Control messages

    [StrictNumber.Float64] is what [strconv.ParseFloat] makes of a JSON number: a
    dyadic rational [m * 2^e], or no finite number; a field the message does not
    have is no number at all. The JSON decoder, [json.Decoder.Decode] followed by
    the check that nothing comes after the value, is a parameter. *)

Inductive float64 : Type :=
| Finite (m e : Z)
| Infinite (negative : bool)
| NaN.

Definition StrictNumber : Type := option float64.

(** The numerator over [2 ^ scale e], and that denominator. *)
Definition scaled (m e : Z) : Z := m * 2 ^ Z.max 0 e.
Definition scale (e : Z) : Z := 2 ^ Z.max 0 (- e).

(** [value < n] and [value > n]; a comparison with a NaN is false. *)
Definition float_lt (f : float64) (n : Z) : bool :=
  match f with
  | Finite m e => scaled m e <? n * scale e
  | Infinite negative => negative
  | NaN => false
  end.
Definition float_gt (f : float64) (n : Z) : bool :=
  match f with
  | Finite m e => n * scale e <? scaled m e
  | Infinite negative => negb negative
  | NaN => false
  end.

(** [math.Trunc(value) == value]. *)
Definition is_integer (f : float64) : bool :=
  match f with
  | Finite m e => scaled m e mod scale e =? 0
  | Infinite _ => true
  | NaN => false
  end.

(** The conversion of an integral value to an integer type. *)
Definition to_integer (f : float64) : Z :=
  match f with Finite m e => scaled m e / scale e | _ => 0 end.

Definition is_finite (f : float64) : bool :=
  match f with Finite _ _ => true | _ => false end.

Inductive control_error : Type :=
| Violates (v : violation)
| ErrStale.

Definition exactInt (number : StrictNumber) (minimum maximum : Z) : option Z :=
  match number with
  | None => None
  | Some value =>
      IF negb (is_finite value) || negb (is_integer value)
         || float_lt value minimum || float_gt value maximum RETURN None ;;
      Some (to_integer value)
  end.

Definition ParseRequestID (number : StrictNumber) : result control_error Z :=
  match number with
  | None => Err (Violates invalid_request_id)
  | Some value =>
      IF negb (is_finite value) || float_lt value 1 || float_gt value 4294967295
         || negb (is_integer value)
        RETURN Err (Violates invalid_request_id) ;;
      Ok (wrap_u32 (to_integer value))
  end.

Record ControlMessage : Type := {
  ctl_SessionID : string;
  ctl_Type : string;
  ctl_RequestID : StrictNumber;
  ctl_Text : string;
  ctl_Reason : string;
}.

Record DeviceAgentFeature : Type := {
  feature_Version : StrictNumber;
  feature_RequestCorrelation : bool;
}.

Record ClientHello : Type := {
  client_Type : string;
  client_Version : StrictNumber;
  client_Transport : string;
  client_DeviceAgent : option DeviceAgentFeature;
  client_AudioParams : AudioParams;
}.

Definition MaxControlBytes : Z := 4096.
Definition MaxSTTTextBytes : Z := 2048.

Definition decodeOne {A} (Decode : bytes → option A) (data : bytes) : option A :=
  IF (blen data =? 0) || (MaxControlBytes <? blen data) RETURN None ;;
  Decode data.

Definition DecodeControl (Decode : bytes → option ControlMessage) (data : bytes)
    (sessionID : string) : result control_error (ControlMessage * Z) :=
  match decodeOne Decode data with
  | None => Err (Violates invalid_json)
  | Some message =>
      IF negb (bool_decide (ctl_SessionID message = sessionID)) RETURN Err ErrStale ;;
      TRY requestID := ParseRequestID (ctl_RequestID message) ;;
      if decide (ctl_Type message = "tts_request") then
        IF negb (validString (ctl_Text message) MaxTTSTextBytes)
          RETURN Err (Violates invalid_tts_text) ;;
        Ok (message, requestID)
      else if decide (ctl_Type message = "tts_abort") then
        IF negb (validAbortReason (ctl_Reason message))
          RETURN Err (Violates invalid_abort_reason) ;;
        Ok (message, requestID)
      else Err (Violates unsupported_message)
  end.

Definition DecodeClientHello (Decode : bytes → option ClientHello) (data : bytes) :
    result violation (ClientHello * Z) :=
  match decodeOne Decode data with
  | None => Err invalid_hello
  | Some hello =>
      IF negb (bool_decide (client_Type hello = "hello"))
         || negb (bool_decide (client_Transport hello = "websocket"))
        RETURN Err invalid_hello ;;
      match exactInt (client_Version hello) 1 3 with
      | None => Err unsupported_transport_version
      | Some version =>
          match client_DeviceAgent hello with
          | None => Err missing_device_agent
          | Some feature =>
              match exactInt (feature_Version feature) AgentVersion AgentVersion with
              | None => Err unsupported_agent_version
              | Some agentVersion =>
                  IF negb (agentVersion =? AgentVersion) RETURN Err unsupported_agent_version ;;
                  IF negb (feature_RequestCorrelation feature)
                    RETURN Err missing_request_correlation ;;
                  let audio := client_AudioParams hello in
                  IF negb (bool_decide (Format audio = "opus")) || negb (Channels audio =? 1)
                     || (SampleRate audio <=? 0) || (48000 <? SampleRate audio)
                     || (FrameDuration audio <? 20) || (120 <? FrameDuration audio)
                    RETURN Err invalid_audio_params ;;
                  Ok (hello, version)
              end
          end
      end
  end.

(** The value of a number as a ratio of integers. *)
Lemma scale_pos e : 0 < scale e.
Proof. unfold scale. lia. Qed.

(** An accepted number is an integer, and the conversion returns that integer. *)
Lemma integer_value f :
  is_integer f = true →
  match f with Finite m e => scaled m e = to_integer f * scale e | _ => True end.
Proof.
  destruct f as [m e| |]; [|done..]. cbn. intros H%Z.eqb_eq. pose proof (scale_pos e).
  pose proof (Z_div_mod_eq_full (scaled m e) (scale e)). nia.
Qed.

Lemma exactInt_spec number minimum maximum n :
  exactInt number minimum maximum = Some n →
  minimum ≤ n ≤ maximum ∧ ∃ m e, number = Some (Finite m e) ∧ scaled m e = n * scale e.
Proof.
  unfold exactInt. destruct number as [f|]; [|done]. destruct (_ || _) eqn:Hg; [done|].
  intros [= <-]. split_bools. destruct f as [m e| |]; [|done..].
  match goal with H : is_integer _ = true |- _ => pose proof (integer_value _ H) as Hv end.
  cbn [float_lt float_gt] in *. split_bools. pose proof (scale_pos e).
  split; [nia|]. by exists m, e.
Qed.

(** A request identifier is accepted exactly when it is an integer from 1 to the
    largest 32-bit value, and then its value is returned unchanged. *)
Lemma ParseRequestID_spec number id :
  ParseRequestID number = Ok id →
  1 ≤ id ≤ 4294967295 ∧ ∃ m e, number = Some (Finite m e) ∧ scaled m e = id * scale e.
Proof.
  unfold ParseRequestID. destruct number as [f|]; [|done]. destruct (_ || _) eqn:Hg; [done|].
  intros [= <-]. split_bools. destruct f as [m e| |]; [|done..].
  match goal with H : is_integer _ = true |- _ => pose proof (integer_value _ H) as Hv end.
  cbn [float_lt float_gt] in *. split_bools. pose proof (scale_pos e).
  assert (1 ≤ to_integer (Finite m e) ≤ 4294967295) by nia.
  rewrite wrap_u32_id by lia. split; [lia|]. by exists m, e.
Qed.

Lemma ParseRequestID_accepts m e id :
  scaled m e = id * scale e → 1 ≤ id ≤ 4294967295 →
  ParseRequestID (Some (Finite m e)) = Ok id.
Proof.
  intros Hv Hid. unfold ParseRequestID, float_lt, float_gt, is_integer, is_finite, to_integer.
  pose proof (scale_pos e). rewrite Hv, Z.mod_mul, Z.div_mul by lia.
  rewrite (proj2 (Z.ltb_ge _ _)), (proj2 (Z.ltb_ge _ _)) by nia. cbn.
  by rewrite wrap_u32_id by lia.
Qed.

(** What an accepted control message is: of this session, with a request
    identifier in range, and a speakable text of at most 512 bytes or a known
    reason. *)
Lemma DecodeControl_spec Decode data sessionID message id :
  DecodeControl Decode data sessionID = Ok (message, id) →
  Decode data = Some message ∧ 1 ≤ blen data ≤ MaxControlBytes ∧
  ctl_SessionID message = sessionID ∧ 1 ≤ id ≤ 4294967295 ∧
  (ctl_Type message = "tts_request" ∧ validString (ctl_Text message) MaxTTSTextBytes = true ∨
   ctl_Type message = "tts_abort" ∧ validAbortReason (ctl_Reason message) = true).
Proof.
  unfold DecodeControl, decodeOne. pose proof (blen_nonneg data).
  destruct (_ || _) eqn:Hlen; [done|]. split_bools.
  destruct (Decode data) as [msg|]; [|done].
  destruct (negb _) eqn:Hs; [done|]. split_bools.
  destruct (ParseRequestID _) as [id'|] eqn:Hid; [|done].
  apply ParseRequestID_spec in Hid as [? _].
  case_decide; [|case_decide; [|done] ];
    destruct (negb _) eqn:Ht; try done; intros [= <- <-]; split_bools;
    (split_and!; [done|lia..|done|lia|lia|]); [left|right]; done.
Qed.

(** An accepted hello: version 1 to 3 and frames of 20 to 120 ms. *)
Lemma DecodeClientHello_spec Decode data hello version :
  DecodeClientHello Decode data = Ok (hello, version) →
  1 ≤ version ≤ 3 ∧ 20 ≤ FrameDuration (client_AudioParams hello) ≤ 120 ∧
  0 < SampleRate (client_AudioParams hello) ≤ 48000.
Proof.
  unfold DecodeClientHello. destruct (decodeOne _ _) as [h|]; [|done].
  destruct (_ || _); [done|].
  destruct (exactInt (client_Version h) 1 3) as [v|] eqn:Hv; [|done].
  apply exactInt_spec in Hv as [Hv _]. destruct (client_DeviceAgent h) as [f|]; [|done].
  destruct (exactInt (feature_Version f) _ _); [|done].
  destruct (negb _); [done|]. destruct (negb _); [done|]. cbv zeta.
  destruct (_ || _) eqn:Ha; [done|]. intros [= <- <-]. split_bools. lia.
Qed.

End Protocol.
