(* ===== verification/Tts.v ===== *)
(** * Tts: the framed HTTP synthesis client

    Models [internal/tts/framed_http.go]: the configuration checks of
    [NewFramedHTTP] and the whole of [Stream], from the request checks to the
    loop that reads length-prefixed Opus frames and hands them to the caller.
    What the HTTP client returns is an input: an upstream response with its
    status, headers and body. The body is the bytes that can be read followed by
    how reading ends. The context is the sequence of answers its [Err] method
    gives, check after check, and the caller's [emit] is a state machine. *)

From stdpp Require Import base gmap strings list.
From Stdlib Require Import ZArith Lia.
From Stdlib.Strings Require Import Byte.
From S2P Require Import Prelude GoBase Opus Protocol.

Module Tts.

Definition maxFrameBytes : Z := 4096.
Definition maxTotalBytes : Z := 4 * 1024 * 1024.
Definition framedContentType : string := "application/x-opus-frames".
Definition TTSVersion : string := "xiaozhi-private-tts-v1".

Inductive tts_error : Type :=
| InvalidEndpoint
| InvalidHealthURL
| MissingToken
| InvalidAudioParameters
| InvalidMaxDuration
| InvalidRequest
| ContextError
| CallFailed
| UpstreamStatus
| ContractMismatch
| UnexpectedContentType
| ReadHeaderFailed
| InvalidFrameLength
| ReadFrameFailed
| InvalidOpusPacket (e : Opus.opus_error)
| ExceededDuration
| EmitFailed
| NoFrames
| OutOfFuel.

(** *** Construction *)

(** [net/url]: what [url.Parse] returns, as far as [validateURL] looks. *)
Record URL : Type := {
  Scheme : string;
  Host : string;
  HasUser : bool;
  Fragment : string;
  RawQuery : string;
}.

Definition validateURL (parsed : option URL) (allowInsecure : bool) : bool :=
  match parsed with
  | None => false
  | Some u =>
      IF bool_decide (Host u = "") RETURN false ;;
      IF HasUser u || negb (bool_decide (Fragment u = ""))
         || negb (bool_decide (RawQuery u = "")) RETURN false ;;
      IF negb (bool_decide (Scheme u = "https"))
         && negb (allowInsecure && bool_decide (Scheme u = "http")) RETURN false ;;
      true
  end.

Record FramedHTTPConfig : Type := {
  Endpoint : string;
  HealthURL : string;
  BearerToken : string;
  AllowInsecure : bool;
  cfg_SampleRate : Z;
  cfg_FrameDuration : Z;
  MaxOutputAudioMS : Z;
}.

Record FramedHTTP : Type := {
  endpoint : string;
  healthURL : string;
  bearerToken : string;
  sampleRate : Z;
  frameDuration : Z;
  maxFrames : Z;
}.

Definition NewFramedHTTP (parse : string → option URL) (config : FramedHTTPConfig) :
    result tts_error FramedHTTP :=
  IF negb (validateURL (parse (Endpoint config)) (AllowInsecure config))
    RETURN Err InvalidEndpoint ;;
  IF negb (bool_decide (HealthURL config = ""))
     && negb (validateURL (parse (HealthURL config)) (AllowInsecure config))
    RETURN Err InvalidHealthURL ;;
  IF Text.BlankString (BearerToken config) RETURN Err MissingToken ;;
  IF (cfg_SampleRate config <=? 0) || (48000 <? cfg_SampleRate config)
     || (cfg_FrameDuration config <=? 0) || (120 <? cfg_FrameDuration config)
    RETURN Err InvalidAudioParameters ;;
  let max := if MaxOutputAudioMS config =? 0 then 120000 else MaxOutputAudioMS config in
  IF (max <? cfg_FrameDuration config) || (600000 <? max)
    RETURN Err InvalidMaxDuration ;;
  Ok {| endpoint := Endpoint config; healthURL := HealthURL config;
        bearerToken := BearerToken config; sampleRate := cfg_SampleRate config;
        frameDuration := cfg_FrameDuration config;
        maxFrames := Z.quot max (cfg_FrameDuration config) |}.

(** *** Streaming *)

Record Request : Type := {
  DeviceID : string;
  SessionID : string;
  RequestID : Z;
  RequestText : string;
}.

(** How a response body ends once its bytes are read. *)
Inductive body_end : Type := EndOfFile | ReadError.

Record Response : Type := {
  StatusCode : Z;
  ContractHeader : string;
  MediaType : option string;
  Body : bytes;
  BodyEnd : body_end;
}.

(** The body as a sequence of frames, each behind its four-byte length. *)
Definition frame_wire (frame : bytes) : bytes := be_put 4 (blen frame) ++ frame.
Definition frames_wire (frames : list bytes) : bytes := concat (frame_wire <$> frames).

Section Stream.
Context {S : Type} (emit : S → bytes → S * bool) (ctx : nat → bool).

(** The frame loop. [k] counts the observations of the context, [ctx k] telling
    whether the [k]-th finds it done; [emit] returns whether it failed. *)
Fixpoint stream_loop (fuel : nat) (client : FramedHTTP) (body : bytes) (fin : body_end)
    (k : nat) (s : S) (total frames : Z) : S * result tts_error unit :=
  match fuel with
  | O => (s, Err OutOfFuel)
  | Datatypes.S fuel =>
      IF ctx k RETURN (s, Err ContextError) ;;
      match body with
      | b0 :: b1 :: b2 :: b3 :: body =>
          let length := be_get [b0; b1; b2; b3] in
          IF (length <=? 0) || (maxFrameBytes <? length) || (maxTotalBytes <? total + length)
            RETURN (s, Err InvalidFrameLength) ;;
          IF blen body <? length
            RETURN (s, Err (if ctx (k + 1)%nat then ContextError else ReadFrameFailed)) ;;
          let frame := take (Z.to_nat length) body in
          match Opus.ValidateMonoDuration frame (frameDuration client) with
          | Err e => (s, Err (InvalidOpusPacket e))
          | Ok _ =>
              IF maxFrames client <=? frames RETURN (s, Err ExceededDuration) ;;
              let '(s, failed) := emit s frame in
              IF failed RETURN (s, Err EmitFailed) ;;
              IF ctx (k + 1)%nat RETURN (s, Err ContextError) ;;
              stream_loop fuel client (drop (Z.to_nat length) body) fin (k + 2)%nat s
                (total + length) (frames + 1)
          end
      | _ =>
          match body, fin with
          | [], EndOfFile => (s, if frames =? 0 then Err NoFrames else Ok tt)
          | _, _ => (s, Err (if ctx (k + 1)%nat then ContextError else ReadHeaderFailed))
          end
      end
  end.

(** [response] is [None] when the HTTP call itself fails. A body of [n] bytes has
    at most [n / 5] frames, so [n + 1] rounds are enough. *)
Definition Stream (client : FramedHTTP) (synthesis : Request)
    (response : option Response) (s : S) : S * result tts_error unit :=
  IF bool_decide (DeviceID synthesis = "") || bool_decide (SessionID synthesis = "")
     || (RequestID synthesis =? 0) || Text.BlankString (RequestText synthesis)
    RETURN (s, Err InvalidRequest) ;;
  match response with
  | None => (s, Err (if ctx 0%nat then ContextError else CallFailed))
  | Some r =>
      IF negb (StatusCode r =? 200) RETURN (s, Err UpstreamStatus) ;;
      IF negb (bool_decide (ContractHeader r = TTSVersion)) RETURN (s, Err ContractMismatch) ;;
      IF negb (bool_decide (MediaType r = Some framedContentType))
        RETURN (s, Err UnexpectedContentType) ;;
      stream_loop (length (Body r) + 1) client (Body r) (BodyEnd r) 0 s 0 0
  end.

(** *** What is handed to the caller *)

Definition emit_all (s : S) (sent : list bytes) : S :=
  fold_left (λ s f, (emit s f).1) sent s.

Definition good_frame (client : FramedHTTP) (f : bytes) : Prop :=
  1 ≤ blen f ≤ maxFrameBytes ∧ Opus.ValidateMonoDuration f (frameDuration client) = Ok tt.

Lemma take_blen n (bs : bytes) : 0 ≤ n ≤ blen bs → blen (take (Z.to_nat n) bs) = n.
Proof. intros. unfold blen in *. rewrite length_take. lia. Qed.

Lemma frames_wire_cons f fs : frames_wire (f :: fs) = frame_wire f ++ frames_wire fs.
Proof. done. Qed.

Lemma header_frame_wire b0 b1 b2 b3 n body :
  be_get [b0; b1; b2; b3] = n → 0 ≤ n ≤ blen body →
  b0 :: b1 :: b2 :: b3 :: body = frame_wire (take (Z.to_nat n) body) ++ drop (Z.to_nat n) body.
Proof.
  intros Hn Hle. unfold frame_wire. rewrite take_blen by done.
  rewrite <- app_assoc, take_drop. rewrite <- Hn, be_put_get by done. done.
Qed.

(** A run that starts with [total] bytes and [frames] frames already delivered
    hands over [sent], a prefix of the frames of [body], within the limits; it
    succeeds only at the end of a body that is nothing but frames. *)
Definition delivered (client : FramedHTTP) (body : bytes) (fin : body_end)
    (total frames : Z) (s s' : S) (r : result tts_error unit) (sent : list bytes) : Prop :=
  s' = emit_all s sent ∧ Forall (good_frame client) sent ∧
  (sent = [] ∨ frames + Z.of_nat (length sent) ≤ maxFrames client ∧
               total + blen (concat sent) ≤ maxTotalBytes) ∧
  ∃ rest, body = frames_wire sent ++ rest ∧
    (r = Ok tt → rest = [] ∧ fin = EndOfFile ∧ frames + Z.of_nat (length sent) ≠ 0).

Lemma delivered_stop client body fin total frames s e :
  delivered client body fin total frames s s (Err e) [].
Proof. repeat split; [done|by left|]. by exists body. Qed.

Lemma delivered_end client total frames s :
  delivered client [] EndOfFile total frames s s
    (if frames =? 0 then Err NoFrames else Ok tt) [].
Proof.
  repeat split; [done|by left|]. exists []. split; [done|].
  destruct (frames =? 0) eqn:Hz; [done|]. split_bools. intros _. cbn. split_and!; [done..|lia].
Qed.

Lemma delivered_step client f body fin total frames s s' r sent :
  good_frame client f → frames < maxFrames client → total + blen f ≤ maxTotalBytes →
  delivered client body fin (total + blen f) (frames + 1) (emit s f).1 s' r sent →
  delivered client (frame_wire f ++ body) fin total frames s s' r (f :: sent).
Proof.
  intros Hf Hn Ht (-> & Hall & Hlim & rest & -> & Hok). split; [done|].
  split; [by constructor|]. split.
  - right. cbn [length concat]. rewrite blen_app.
    destruct Hlim as [ -> | ?]; [cbn; rewrite blen_nil; lia|lia].
  - exists rest. rewrite frames_wire_cons, app_assoc. split; [done|].
    intros ->. destruct Hok as (-> & -> & ?); [done|]. cbn [length]. split_and!; [done..|lia].
Qed.

Lemma stream_loop_sound fuel client body fin k s total frames s' r :
  stream_loop fuel client body fin k s total frames = (s', r) →
  ∃ sent, delivered client body fin total frames s s' r sent.
Proof.
  revert body k s total frames.
  induction fuel as [|fuel IH]; intros body k s total frames; cbn [stream_loop].
  { intros [= <- <-]. eexists. apply delivered_stop. }
  assert (∀ e, (s, Err e) = (s', r) →
    ∃ sent, delivered client body fin total frames s s' r sent) as Hstop
    by (intros e [= <- <-]; eexists; apply delivered_stop).
  destruct (ctx k); [apply Hstop|].
  destruct body as [|b0 [|b1 [|b2 [|b3 body] ] ] ]; try (by apply Hstop).
  { destruct fin; [|by apply Hstop]. intros [= <- <-]. eexists. apply delivered_end. }
  destruct (_ || _) eqn:Hlen; [by apply Hstop|].
  destruct (blen body <? _) eqn:Hb; [by apply Hstop|]. split_bools.
  destruct (Opus.ValidateMonoDuration _ _) as [ [] |] eqn:Hval; [|by apply Hstop].
  destruct (maxFrames client <=? frames) eqn:Hmax; [by apply Hstop|]. split_bools.
  clear Hstop. rewrite (header_frame_wire b0 b1 b2 b3 _ body eq_refl) by lia.
  pose proof (take_blen (be_get [b0; b1; b2; b3]) body) as Hfl.
  revert Hval. generalize dependent (be_get [b0; b1; b2; b3]). intros n Hb Hle Hm Ht Hfl Hval.
  specialize (Hfl ltac:(lia)). set (frame := take (Z.to_nat n) body) in *.
  assert (∀ sent, delivered client (drop (Z.to_nat n) body) fin (total + n) (frames + 1)
    (emit s frame).1 s' r sent → ∃ sent, delivered client
    (frame_wire frame ++ drop (Z.to_nat n) body) fin total frames s s' r sent) as Hstep.
  { intros sent Hd. exists (frame :: sent). rewrite <- Hfl in Hd.
    apply delivered_step; unfold good_frame; rewrite ?Hfl; try lia; [|by rewrite Hfl in Hd].
    split; [lia|done]. }
  destruct (emit s frame) as [s1 failed]. cbn [fst] in Hstep.
  destruct failed; [intros [= <- <-]; eapply Hstep, delivered_stop|].
  destruct (ctx (k + 1)%nat); [intros [= <- <-]; eapply Hstep, delivered_stop|].
  intros [sent Hd]%IH. by eapply Hstep.
Qed.

Lemma stream_loop_complete fuel client fs k s total frames :
  (length fs < fuel)%nat → Forall (good_frame client) fs →
  frames + Z.of_nat (length fs) ≤ maxFrames client →
  total + blen (concat fs) ≤ maxTotalBytes → 0 ≤ frames → 1 ≤ frames + Z.of_nat (length fs) →
  (∀ k, ctx k = false) → (∀ s f, (emit s f).2 = false) →
  stream_loop fuel client (frames_wire fs) EndOfFile k s total frames
    = (emit_all s fs, Ok tt).
Proof.
  intros Hfuel Hgood Hn Ht H0 H1 Hctx Hemit.
  revert fuel k s total frames Hfuel Hn Ht H0 H1.
  induction Hgood as [|f fs [Hlen Hval] Hgood IH]; intros [|fuel] k s total frames Hfuel Hn Ht H0 H1;
    cbn [length] in *; try lia; cbn [stream_loop]; rewrite Hctx.
  { cbn. by rewrite (proj2 (Z.eqb_neq _ _)) by lia. }
  rewrite frames_wire_cons. unfold frame_wire. cbn [concat] in Ht. rewrite blen_app in Ht.
  pose proof (be_get_put 4 (blen f)) as Hget. rewrite Z.mod_small in Hget
    by (unfold maxFrameBytes in *; cbn; lia).
  destruct (be_put 4 (blen f)) as [|b0 [|b1 [|b2 [|b3 [|] ] ] ] ] eqn:Hput; try done.
  rewrite <- app_assoc. cbn [app]. rewrite Hget.
  pose proof (blen_nonneg (concat fs)). pose proof (blen_nonneg (frames_wire fs)).
  rewrite !(proj2 (Z.leb_gt _ _)), !(proj2 (Z.ltb_ge _ _))
    by (rewrite ?blen_app; unfold maxFrameBytes, maxTotalBytes in *; lia). cbn [orb].
  unfold blen at 1 2 3. rewrite Nat2Z.id, take_app_length, drop_app_length, Hval.
  specialize (Hemit s f) as He. destruct (emit s f) as [s1 failed] eqn:Hs1. cbn in He. subst.
  rewrite Hctx. rewrite IH by (try lia; cbn; lia). cbn. by rewrite Hs1.
Qed.

End Stream.

Lemma NewFramedHTTP_bounds parse config client :
  NewFramedHTTP parse config = Ok client →
  1 ≤ frameDuration client ≤ 120 ∧ 1 ≤ maxFrames client ∧
  maxFrames client * frameDuration client ≤ 600000.
Proof.
  unfold NewFramedHTTP. intros Hnew.
  repeat (case_match; [done|]). split_bools. simplify_eq/=.
  set (max := if MaxOutputAudioMS config =? 0 then _ else _) in *.
  set (d := cfg_FrameDuration config) in *.
  pose proof (Z.quot_rem' max d). pose proof (Z.rem_bound_pos max d).
  assert (1 ≤ Z.quot max d) by (apply Z.quot_le_lower_bound; lia). split_and!; nia.
Qed.

(** Whatever the upstream sends, and however the caller and the context behave,
    the frames [Stream] hands over are a prefix of the length-prefixed frames of
    the body, every one is a mono Opus packet of exactly the configured
    duration, and together they are at most 4 MiB and at most ten minutes of
    audio; [Stream] succeeds only when the body consists of exactly these
    frames, at least one, and ended cleanly. *)
Theorem Stream_sound {S : Type} (emit : S → bytes → S * bool) ctx parse config client
    synthesis response s s' r :
  NewFramedHTTP parse config = Ok client →
  Stream emit ctx client synthesis (Some response) s = (s', r) →
  ∃ sent rest, s' = emit_all emit s sent ∧
    Body response = frames_wire sent ++ rest ∧
    Forall (λ f, Opus.ValidateMonoDuration f (frameDuration client) = Ok tt) sent ∧
    blen (concat sent) ≤ maxTotalBytes ∧
    Z.of_nat (length sent) * frameDuration client ≤ 600000 ∧
    (r = Ok tt → Body response = frames_wire sent ∧ sent ≠ [] ∧
       BodyEnd response = EndOfFile).
Proof.
  intros (Hd & Hm & Hmax)%NewFramedHTTP_bounds. unfold Stream.
  assert (∀ e, (s, Err e) = (s', r) → ∃ sent rest, s' = emit_all emit s sent ∧
    Body response = frames_wire sent ++ rest ∧
    Forall (λ f, Opus.ValidateMonoDuration f (frameDuration client) = Ok tt) sent ∧
    blen (concat sent) ≤ maxTotalBytes ∧
    Z.of_nat (length sent) * frameDuration client ≤ 600000 ∧
    (r = Ok tt → Body response = frames_wire sent ∧ sent ≠ [] ∧
       BodyEnd response = EndOfFile)) as Hstop.
  { intros e [= <- <-]. by exists [], (Body response). }
  do 4 (case_match; [apply Hstop|]). clear Hstop.
  intros [sent (-> & Hall & Hlim & rest & Hbody & Hok)]%stream_loop_sound.
  exists sent, rest. split_and!; [done|done| | | |].
  - eapply Forall_impl; [exact Hall|]. by intros f [_ ?].
  - destruct Hlim as [ -> | ?]; [done|lia].
  - destruct Hlim as [ -> | ?]; [cbn; lia|nia].
  - intros ->. destruct Hok as (-> & -> & ?); [done|].
    rewrite app_nil_r in Hbody. split_and!; [done| |done]. by intros ->.
Qed.

Lemma stream_loop_ends {S : Type} (emit : S → bytes → S * bool) ctx fuel client body fin k s
    total frames :
  (length body < fuel)%nat →
  (stream_loop emit ctx fuel client body fin k s total frames).2 ≠ Err OutOfFuel.
Proof.
  revert body k s total frames. induction fuel as [|fuel IH]; intros body k s total frames Hf;
    [lia|]. cbn [stream_loop]. case_match; [done|].
  destruct body as [|b0 [|b1 [|b2 [|b3 body] ] ] ];
    try by (destruct fin, (frames =? 0), (ctx (k + 1)%nat)).
  cbv zeta. case_match; [done|]. destruct (blen body <? _); [by destruct (ctx (k + 1)%nat)|].
  destruct (Opus.ValidateMonoDuration _ _); [|done]. destruct (_ <=? frames); [done|].
  destruct (emit s _) as [s1 [] ]; [done|]. destruct (ctx (k + 1)%nat); [done|]. apply IH. rewrite length_drop. cbn [length] in Hf. lia.
Qed.

(** Reading a synthesis stream terminates. Whatever the upstream sends, however the
    context and the caller behave, the frame loop stops within the rounds the model
    gives it, one more than the body has bytes: each frame consumes its four-byte
    header. So every outcome of [Stream] is one the code returns. *)
Theorem Stream_terminates {S : Type} (emit : S → bytes → S * bool) ctx client synthesis
    response s :
  (Stream emit ctx client synthesis response s).2 ≠ Err OutOfFuel.
Proof.
  unfold Stream. case_match; [done|]. destruct response as [r|]; [|by case_match].
  do 3 (case_match; [done|]). apply stream_loop_ends. lia.
Qed.

(** A well-formed upstream answer is delivered completely: when the context
    stays live and the caller accepts the frames, every body made of at least
    one and at most [maxFrames] correct frames within 4 MiB makes [Stream]
    return success after handing over all of them, in order. *)
Theorem Stream_complete {S : Type} (emit : S → bytes → S * bool) ctx client
    synthesis frames s :
  DeviceID synthesis ≠ "" → SessionID synthesis ≠ "" → RequestID synthesis ≠ 0 →
  Text.BlankString (RequestText synthesis) = false →
  Forall (good_frame client) frames → frames ≠ [] →
  Z.of_nat (length frames) ≤ maxFrames client → blen (concat frames) ≤ maxTotalBytes →
  (∀ k, ctx k = false) → (∀ s f, (emit s f).2 = false) →
  Stream emit ctx client synthesis
    (Some {| StatusCode := 200; ContractHeader := TTSVersion;
             MediaType := Some framedContentType; Body := frames_wire frames;
             BodyEnd := EndOfFile |}) s
  = (emit_all emit s frames, Ok tt).
Proof.
  intros Hdev Hses Hreq Htext Hall Hne Hn Ht Hctx Hemit. unfold Stream.
  rewrite !bool_decide_false, (proj2 (Z.eqb_neq _ _) Hreq), Htext by done. cbn -[frames_wire].
  apply stream_loop_complete; try done; try lia.
  - clear -Hall. induction Hall as [|f fs _ _ IH]; [cbn; lia|].
    rewrite frames_wire_cons. unfold frame_wire. rewrite !length_app, be_put_length. cbn. lia.
  - destruct frames; [done|]. cbn. lia.
Qed.
(** A concrete client, request and frame for the witnesses. *)
Definition example_config : FramedHTTPConfig :=
  {| Endpoint := "https://tts"; HealthURL := ""; BearerToken := "t"; AllowInsecure := false;
     cfg_SampleRate := 24000; cfg_FrameDuration := 60; MaxOutputAudioMS := 0 |}.
Definition example_parse (raw : string) : option URL :=
  Some {| Scheme := "https"; Host := raw; HasUser := false; Fragment := ""; RawQuery := "" |}.
Definition example_client : FramedHTTP :=
  {| endpoint := "https://tts"; healthURL := ""; bearerToken := "t"; sampleRate := 24000;
     frameDuration := 60; maxFrames := 2000 |}.
Definition example_request : Request :=
  {| DeviceID := "d"; SessionID := "s"; RequestID := 7; RequestText := "hi" |}.
Definition example_frame : bytes := [byte_of 24; byte_of 1].
Definition example_response : Response :=
  {| StatusCode := 200; ContractHeader := TTSVersion; MediaType := Some framedContentType;
     Body := frames_wire [example_frame]; BodyEnd := EndOfFile |}.
Definition record_frame (sent : list bytes) (f : bytes) : list bytes * bool :=
  (sent ++ [f], false).

Lemma Stream_sound_witness :
  ∃ sent rest, [example_frame] = emit_all record_frame [] sent ∧
    Body example_response = frames_wire sent ++ rest ∧
    Forall (λ f, Opus.ValidateMonoDuration f (frameDuration example_client) = Ok tt) sent ∧
    blen (concat sent) ≤ maxTotalBytes ∧
    Z.of_nat (length sent) * frameDuration example_client ≤ 600000 ∧
    (Ok tt = @Ok tts_error unit tt → Body example_response = frames_wire sent ∧ sent ≠ [] ∧
       BodyEnd example_response = EndOfFile).
Proof.
  apply (Stream_sound record_frame (λ _, false) example_parse example_config example_client
    example_request example_response); reflexivity.
Defined.

Lemma Stream_complete_witness :
  Stream record_frame (λ _, false) example_client example_request (Some example_response) []
  = ([example_frame], Ok tt).
Proof.
  apply (Stream_complete record_frame (λ _, false) example_client example_request
    [example_frame] []); try done.
  repeat constructor; by vm_compute.
Defined.

End Tts.
