(* ===== verification/BudgetSpec.v ===== *)
(** * BudgetSpec: the contract of a daily usage budget

    Both usage ledgers of the gateway ([internal/usagebudget] for agent tokens,
    [internal/speechbudget] for speech) promise the same thing: per day and
    subject, what is committed, what is uncertain and what is held by open
    reservations never exceeds the daily budget. This file states that promise
    as an abstract machine without any running totals, and the facts about
    running totals ([ledger_ok]) with which the two ledgers implement it. *)

From stdpp Require Import base gmap strings list.
From Stdlib Require Import ZArith Lia.
From Stdlib.Strings Require Import Byte.
From S2P Require Import Prelude GoBase.

Module BudgetSpec.

(** An open reservation: the account it is booked on, the amount, its expiry. *)
Record hold : Type := {
  h_key : string;
  h_amount : Z;
  h_expires : Time;
}.

(** ** The abstract machine

    A state says how much each account has committed and how much is uncertain,
    and which reservations are open. The amount held on an account is the sum
    over its open reservations. *)

Record spec_state : Type := {
  s_committed : string → Z;
  s_uncertain : string → Z;
  s_holds : gmap bytes hold;
}.

Definition held (k : string) (holds : gmap bytes hold) : Z :=
  map_sum (λ _ h, if bool_decide (h_key h = k) then h_amount h else 0) holds.

Definition exposure (S : spec_state) (k : string) : Z :=
  s_committed S k + s_uncertain S k + held k (s_holds S).

Definition spec_init : spec_state :=
  {| s_committed := λ _, 0; s_uncertain := λ _, 0; s_holds := ∅ |}.

(** What can happen to a reservation. *)
Inductive event : Type :=
| Reserved (id : bytes) (h : hold)
| Settled (id : bytes) (cost : Z)
| Forfeited (id : bytes)
| Released (id : bytes).

(** [booked S S' k c u]: account [k] gains [c] committed and [u] uncertain, and no
    other account changes. *)
Definition booked (S S' : spec_state) (k : string) (c u : Z) : Prop :=
  ∀ k', s_committed S' k' = s_committed S k' + (if bool_decide (k' = k) then c else 0) ∧
        s_uncertain S' k' = s_uncertain S k' + (if bool_decide (k' = k) then u else 0).

Inductive spec_step (limit : Z) : spec_state → event → spec_state → Prop :=
| spec_reserve S S' id h :
    s_holds S !! id = None → 1 ≤ h_amount h →
    exposure S (h_key h) + h_amount h ≤ limit →
    booked S S' (h_key h) 0 0 → s_holds S' = <[id:=h]> (s_holds S) →
    spec_step limit S (Reserved id h) S'
| spec_settle S S' id h cost :
    s_holds S !! id = Some h → 0 ≤ cost ≤ h_amount h →
    booked S S' (h_key h) cost 0 → s_holds S' = delete id (s_holds S) →
    spec_step limit S (Settled id cost) S'
| spec_forfeit S S' id h :
    s_holds S !! id = Some h →
    booked S S' (h_key h) 0 (h_amount h) → s_holds S' = delete id (s_holds S) →
    spec_step limit S (Forfeited id) S'
| spec_release S S' id h :
    s_holds S !! id = Some h →
    booked S S' (h_key h) 0 0 → s_holds S' = delete id (s_holds S) →
    spec_step limit S (Released id) S'.

(** Abstract states that no observation of an account or reservation separates. *)
Definition spec_equiv (S S' : spec_state) : Prop :=
  s_holds S = s_holds S' ∧
  ∀ k, s_committed S k = s_committed S' k ∧ s_uncertain S k = s_uncertain S' k.

#[global] Instance spec_equiv_equivalence : Equivalence spec_equiv.
Proof.
  split.
  - by intros S.
  - intros S S' [Hh Hk]. split; [done|]. intros k. destruct (Hk k). done.
  - intros S1 S2 S3 [Hh Hk] [Hh' Hk']. split; [congruence|].
    intros k. destruct (Hk k), (Hk' k). split; congruence.
Qed.

#[global] Instance s_committed_proper : Proper (spec_equiv ==> eq ==> eq) s_committed.
Proof. intros S S' [_ Hk] k k' <-. apply Hk. Qed.

#[global] Instance s_uncertain_proper : Proper (spec_equiv ==> eq ==> eq) s_uncertain.
Proof. intros S S' [_ Hk] k k' <-. apply Hk. Qed.

#[global] Instance exposure_proper : Proper (spec_equiv ==> eq ==> eq) exposure.
Proof. intros S S' [Hh Hk] k k' <-. unfold exposure. rewrite Hh. destruct (Hk k). lia. Qed.

#[global] Instance booked_proper :
  Proper (spec_equiv ==> spec_equiv ==> eq ==> eq ==> eq ==> iff) booked.
Proof.
  intros S1 S1' [_ H1] S2 S2' [_ H2] k k' <- c c' <- u u' <-. unfold booked.
  split; intros Hb k'; destruct (H1 k') as [E1 E2], (H2 k') as [E3 E4], (Hb k') as [B1 B2];
    rewrite ?E1, ?E2, ?E3, ?E4 in *; by rewrite <- ?E1, <- ?E2, <- ?E3, <- ?E4 in *.
Qed.

#[global] Instance spec_step_proper limit :
  Proper (spec_equiv ==> eq ==> spec_equiv ==> iff) (spec_step limit).
Proof.
  assert (∀ S1 S1' e S2 S2', spec_equiv S1 S1' → spec_equiv S2 S2' →
    spec_step limit S1 e S2 → spec_step limit S1' e S2') as Himp.
  { intros S1 S1' e S2 S2' E1 E2 Hstep. pose proof E1 as [Hh1 _]. pose proof E2 as [Hh2 _].
    destruct Hstep; [eapply spec_reserve|eapply spec_settle|eapply spec_forfeit|eapply spec_release];
      rewrite <- ?E1, <- ?E2, <- ?Hh1, <- ?Hh2; eauto. }
  intros S1 S1' E1 e e' <- S2 S2' E2. split; apply Himp; done.
Qed.

(** Runs, up to that equivalence. *)
Inductive spec_run (limit : Z) : spec_state → list event → spec_state → Prop :=
| spec_run_nil S S' : spec_equiv S S' → spec_run limit S [] S'
| spec_run_cons S e S1 es S2 :
    spec_step limit S e S1 → spec_run limit S1 es S2 → spec_run limit S (e :: es) S2.

#[global] Instance spec_run_proper limit :
  Proper (spec_equiv ==> eq ==> spec_equiv ==> iff) (spec_run limit).
Proof.
  assert (∀ S1 S1' es S2 S2', spec_equiv S1 S1' → spec_equiv S2 S2' →
    spec_run limit S1 es S2 → spec_run limit S1' es S2') as Himp.
  { intros S1 S1' es S2 S2' E1 E2 Hrun. revert S1' E1.
    induction Hrun as [S S' E|S e S1 es S2 Hstep Hrun IH]; intros S1' E1.
    - constructor. by rewrite <- E1, E.
    - econstructor; [by rewrite <- E1|]. by apply IH. }
  intros S1 S1' E1 e e' <- S2 S2' E2. split; apply Himp; done.
Qed.

Lemma spec_run_app limit S es S1 es' S2 :
  spec_run limit S es S1 → spec_run limit S1 es' S2 → spec_run limit S (es ++ es') S2.
Proof.
  induction 1 as [S S' E|]; cbn; [by rewrite E|]. intros. econstructor; eauto.
Qed.

Lemma spec_run_one limit S e S' : spec_step limit S e S' → spec_run limit S [e] S'.
Proof. intros. by repeat econstructor. Qed.

(** *** Amounts held *)

Lemma held_empty k : held k ∅ = 0.
Proof. done. Qed.

Lemma held_insert k id h holds :
  holds !! id = None →
  held k (<[id:=h]> holds) = (if bool_decide (h_key h = k) then h_amount h else 0) + held k holds.
Proof. apply map_sum_insert. Qed.

Lemma held_delete k id h holds :
  holds !! id = Some h →
  held k holds = (if bool_decide (h_key h = k) then h_amount h else 0) + held k (delete id holds).
Proof. apply (map_sum_delete (λ _ h, if bool_decide (h_key h = k) then h_amount h else 0)). Qed.

Definition holds_positive (holds : gmap bytes hold) : Prop :=
  ∀ id h, holds !! id = Some h → 1 ≤ h_amount h.

Lemma held_nonneg k holds : holds_positive holds → 0 ≤ held k holds.
Proof.
  intros Hp. apply map_sum_nonneg. intros id h Hid. case_bool_decide; [|lia].
  specialize (Hp id h Hid). lia.
Qed.

Lemma held_ge id h holds :
  holds_positive holds → holds !! id = Some h → h_amount h ≤ held (h_key h) holds.
Proof.
  intros Hp Hid. rewrite (held_delete _ id h holds Hid), bool_decide_true by done.
  enough (0 ≤ held (h_key h) (delete id holds)) by lia.
  apply held_nonneg. intros id' h' [_ ?]%lookup_delete_Some. by apply (Hp id').
Qed.

Lemma held_absent k holds :
  (∀ id h, holds !! id = Some h → h_key h ≠ k) → held k holds = 0.
Proof.
  intros Ha. unfold held. rewrite (map_sum_ext _ (λ _ _, 0)).
  - induction holds as [|id h holds Hid IH] using map_ind; [done|].
    rewrite map_sum_insert, IH by (done || (intros id' h' Hid'; apply (Ha id');
      rewrite lookup_insert_ne; congruence)). lia.
  - intros id h Hid. rewrite bool_decide_false by (by apply (Ha id)). done.
Qed.

(** *** The promise of the abstract machine *)

Definition spec_ok (limit : Z) (S : spec_state) : Prop :=
  holds_positive (s_holds S) ∧
  ∀ k, 0 ≤ s_committed S k ∧ 0 ≤ s_uncertain S k ∧ exposure S k ≤ limit.

Lemma spec_ok_init limit : 0 ≤ limit → spec_ok limit spec_init.
Proof.
  intros. split; [by intros ??|]. intros k. unfold exposure. cbn. rewrite held_empty. lia.
Qed.

Lemma holds_positive_insert id h holds :
  holds_positive holds → 1 ≤ h_amount h → holds_positive (<[id:=h]> holds).
Proof. intros Hp Hh id' h' [[_ <-]|[_ ?]]%lookup_insert_Some; [done|by apply (Hp id')]. Qed.

Lemma holds_positive_delete id holds :
  holds_positive holds → holds_positive (delete id holds).
Proof. intros Hp id' h' [_ ?]%lookup_delete_Some. by apply (Hp id'). Qed.

Lemma spec_ok_close limit S S' id h c u :
  spec_ok limit S → s_holds S !! id = Some h → 0 ≤ c → 0 ≤ u → c + u ≤ h_amount h →
  booked S S' (h_key h) c u → s_holds S' = delete id (s_holds S) → spec_ok limit S'.
Proof.
  intros [Hp Hk] Hid Hc Hu Hcu Hb Hh. split; [rewrite Hh; by apply holds_positive_delete|].
  intros k. specialize (Hk k). destruct (Hb k) as [-> ->]. unfold exposure in *.
  rewrite Hh. destruct (Hb k) as [-> ->]. pose proof (held_delete k id h _ Hid) as Hd.
  destruct (decide (k = h_key h)) as [ -> |Hne].
  - rewrite !bool_decide_true in * by done. lia.
  - rewrite !bool_decide_false in * by congruence. lia.
Qed.

Lemma spec_ok_step limit S e S' : spec_ok limit S → spec_step limit S e S' → spec_ok limit S'.
Proof.
  intros Hok. destruct 1 as [S S' id h Hid Ha Hlim Hb Hh|S S' id h cost Hid Hc Hb Hh
    |S S' id h Hid Hb Hh|S S' id h Hid Hb Hh];
    [|pose proof (proj1 Hok id h Hid);
      eapply (spec_ok_close limit S S' id h); [done|done|..|done|done]; lia..].
  destruct Hok as [Hp Hk]. split; [rewrite Hh; by apply holds_positive_insert|].
  intros k. specialize (Hk k). unfold exposure in *. rewrite Hh, held_insert by done.
  destruct (Hb k) as [-> ->]. destruct (decide (k = h_key h)) as [ -> |Hne].
  - rewrite !bool_decide_true by done. lia.
  - rewrite !bool_decide_false by congruence. lia.
Qed.

(** Whatever the sequence of events, no account ever exceeds the limit. *)
Lemma spec_run_ok limit S es S' : spec_ok limit S → spec_run limit S es S' → spec_ok limit S'.
Proof.
  intros Hok. induction 1 as [S S' E|]; eauto using spec_ok_step.
  destruct Hok as [Hp Hk]. split; [by destruct E as [<- _]|].
  intros k. by rewrite <- E.
Qed.

(** ** Running totals

    The implementations keep, per account, the three totals in a record; the
    held total must agree with the open reservations. *)

Record acct : Type := {
  committed : Z;
  uncertain : Z;
  reserved : Z;
}.

Definition zero_acct : acct := {| committed := 0; uncertain := 0; reserved := 0 |}.
Definition acct_total (a : acct) : Z := committed a + uncertain a + reserved a.
Definition close_acct (a : acct) (amount c u : Z) : acct :=
  {| committed := committed a + c; uncertain := uncertain a + u;
     reserved := reserved a - amount |}.
Definition reserve_acct (a : acct) (amount : Z) : acct :=
  {| committed := committed a; uncertain := uncertain a; reserved := reserved a + amount |}.

Record ledger_ok (limit : Z) (accts : gmap string acct) (holds : gmap bytes hold) : Prop := {
  ok_accts k a : accts !! k = Some a →
    0 ≤ committed a ∧ 0 ≤ uncertain a ∧ reserved a = held k holds ∧ acct_total a ≤ limit;
  ok_positive : holds_positive holds;
  ok_booked id h : holds !! id = Some h → is_Some (accts !! h_key h);
}.

Lemma ledger_ok_empty limit : ledger_ok limit ∅ ∅.
Proof. split; [by intros ??|by intros ??|by intros ??]. Qed.

(** Creating the account of a new day. *)
Lemma ledger_ok_open limit accts holds k :
  0 ≤ limit → ledger_ok limit accts holds → accts !! k = None →
  ledger_ok limit (<[k:=zero_acct]> accts) holds.
Proof.
  intros Hl [Ha Hp Hb] Hk. split; [|done|].
  - intros k' a [[<- <-]|[? ?]]%lookup_insert_Some; [|by apply Ha].
    rewrite held_absent; [unfold acct_total; cbn; lia|].
    intros id h Hid Heq. destruct (Hb id h Hid). congruence.
  - intros id h Hid. destruct (decide (k = h_key h)) as [ <- |].
    + rewrite lookup_insert_eq. eauto.
    + rewrite lookup_insert_ne by done. eauto.
Qed.

Lemma ledger_ok_reserve limit accts holds a id h :
  ledger_ok limit accts holds → accts !! h_key h = Some a → holds !! id = None →
  1 ≤ h_amount h → acct_total a + h_amount h ≤ limit →
  ledger_ok limit (<[h_key h:=reserve_acct a (h_amount h)]> accts) (<[id:=h]> holds).
Proof.
  intros [Ha Hp Hb] Hk Hid Hamt Hlim. split.
  - intros k b [[<- <-]|[Hne ?]]%lookup_insert_Some.
    + destruct (Ha _ _ Hk) as (?&?&Hr&?). rewrite held_insert, bool_decide_true by done.
      unfold acct_total in *. cbn. lia.
    + rewrite held_insert, bool_decide_false by done. by apply Ha.
  - by apply holds_positive_insert.
  - intros id' h' [[_ <-]|[_ Hid']]%lookup_insert_Some; [rewrite lookup_insert_eq; eauto|].
    destruct (decide (h_key h = h_key h')) as [ -> |]; [rewrite lookup_insert_eq; eauto|].
    rewrite lookup_insert_ne by done. eauto.
Qed.

(** An open reservation is covered by its account's held total. *)
Lemma ledger_ok_covered limit accts holds id h :
  ledger_ok limit accts holds → holds !! id = Some h →
  ∃ a, accts !! h_key h = Some a ∧ 1 ≤ h_amount h ≤ reserved a ∧
    0 ≤ committed a ∧ 0 ≤ uncertain a ∧ acct_total a ≤ limit.
Proof.
  intros [Ha Hp Hb] Hid. destruct (Hb id h Hid) as [a Hk]. exists a.
  destruct (Ha _ _ Hk) as (?&?&->&?). pose proof (held_ge id h holds Hp Hid).
  specialize (Hp id h Hid). split_and!; done || lia.
Qed.

Lemma ledger_ok_close limit accts holds a id h c u :
  ledger_ok limit accts holds → holds !! id = Some h → accts !! h_key h = Some a →
  0 ≤ c → 0 ≤ u → c + u ≤ h_amount h →
  ledger_ok limit (<[h_key h:=close_acct a (h_amount h) c u]> accts) (delete id holds).
Proof.
  intros [Ha Hp Hb] Hid Hk Hc Hu Hcu. split.
  - intros k b [[<- <-]|[Hne Hkb]]%lookup_insert_Some.
    + destruct (Ha _ _ Hk) as (?&?&Hr&?).
      rewrite (held_delete _ id h holds Hid), bool_decide_true in Hr by done.
      unfold acct_total in *. cbn. lia.
    + destruct (Ha _ _ Hkb) as (?&?&Hr&?).
      rewrite (held_delete _ id h holds Hid), bool_decide_false in Hr by done.
      split_and!; done || lia.
  - by apply holds_positive_delete.
  - intros id' h' [_ Hid']%lookup_delete_Some.
    destruct (decide (h_key h = h_key h')) as [ <- |]; [rewrite lookup_insert_eq; eauto|].
    rewrite lookup_insert_ne by done. eauto.
Qed.

(** ** Simulation *)

Definition sum_of (f : acct → Z) (accts : gmap string acct) (k : string) : Z :=
  from_option f 0 (accts !! k).

(** The abstract state of a ledger. *)
Definition abstract (accts : gmap string acct) (holds : gmap bytes hold) : spec_state :=
  {| s_committed := sum_of committed accts; s_uncertain := sum_of uncertain accts;
     s_holds := holds |}.

(** *** Steps of a ledger as steps of the abstract machine *)

Lemma abstract_open accts holds k :
  accts !! k = None → spec_equiv (abstract (<[k:=zero_acct]> accts) holds) (abstract accts holds).
Proof.
  intros Hk. split; [done|]. intros k'. cbn. unfold sum_of.
  destruct (decide (k = k')) as [ <- |].
  - by rewrite lookup_insert_eq, Hk.
  - by rewrite lookup_insert_ne.
Qed.

Lemma booked_insert accts holds holds' k a b c u :
  accts !! k = Some a → committed b = committed a + c → uncertain b = uncertain a + u →
  booked (abstract accts holds) (abstract (<[k:=b]> accts) holds') k c u.
Proof.
  intros Hk Hc Hu k'. cbn. unfold sum_of. destruct (decide (k' = k)) as [ -> |].
  - by rewrite !bool_decide_true, lookup_insert_eq, Hk.
  - rewrite !bool_decide_false, lookup_insert_ne by done. lia.
Qed.

Lemma exposure_abstract limit accts holds k a :
  ledger_ok limit accts holds → accts !! k = Some a →
  exposure (abstract accts holds) k = acct_total a.
Proof.
  intros [Ha _ _] Hk. destruct (Ha _ _ Hk) as (_&_&Hr&_).
  unfold exposure, acct_total, abstract, sum_of. cbn. rewrite Hk. cbn. lia.
Qed.

Lemma ledger_spec_ok limit accts holds :
  0 ≤ limit → ledger_ok limit accts holds → spec_ok limit (abstract accts holds).
Proof.
  intros Hl Hok. split; [apply Hok|]. intros k.
  destruct (accts !! k) as [a|] eqn:Hk.
  - rewrite (exposure_abstract limit accts holds k a) by done.
    destruct Hok as [Ha _ _]. destruct (Ha _ _ Hk) as (?&?&?&?).
    unfold abstract, sum_of. cbn. rewrite Hk. cbn. lia.
  - unfold exposure, abstract, sum_of. cbn. rewrite Hk. cbn.
    rewrite held_absent; [lia|]. intros id h Hid Heq.
    destruct Hok as [_ _ Hb]. destruct (Hb id h Hid). congruence.
Qed.

Lemma sim_reserve limit accts holds a id h :
  ledger_ok limit accts holds → accts !! h_key h = Some a → holds !! id = None →
  1 ≤ h_amount h → acct_total a + h_amount h ≤ limit →
  spec_step limit (abstract accts holds) (Reserved id h)
    (abstract (<[h_key h:=reserve_acct a (h_amount h)]> accts) (<[id:=h]> holds)).
Proof.
  intros Hok Hk Hid Hamt Hlim. eapply spec_reserve; [done|done| | |done].
  - by erewrite exposure_abstract.
  - eapply booked_insert; [done|cbn; lia..].
Qed.

Lemma sim_settle limit accts holds a id h cost :
  holds !! id = Some h → accts !! h_key h = Some a → 0 ≤ cost ≤ h_amount h →
  spec_step limit (abstract accts holds) (Settled id cost)
    (abstract (<[h_key h:=close_acct a (h_amount h) cost 0]> accts) (delete id holds)).
Proof.
  intros Hid Hk Hc. eapply spec_settle; [done|done| |done].
  eapply booked_insert; [done|cbn; lia..].
Qed.

Lemma sim_forfeit limit accts holds a id h :
  holds !! id = Some h → accts !! h_key h = Some a →
  spec_step limit (abstract accts holds) (Forfeited id)
    (abstract (<[h_key h:=close_acct a (h_amount h) 0 (h_amount h)]> accts) (delete id holds)).
Proof.
  intros Hid Hk. eapply spec_forfeit; [done| |done].
  eapply booked_insert; [done|cbn; lia..].
Qed.

Lemma sim_release limit accts holds a id h :
  holds !! id = Some h → accts !! h_key h = Some a →
  spec_step limit (abstract accts holds) (Released id)
    (abstract (<[h_key h:=close_acct a (h_amount h) 0 0]> accts) (delete id holds)).
Proof.
  intros Hid Hk. eapply spec_release; [done| |done].
  eapply booked_insert; [done|cbn; lia..].
Qed.

(** *** Expiry

    Forfeiting the reservations whose expiry is reached, in the order of a given
    list of entries. *)

Definition expire_one (now : Time) (st : gmap string acct * gmap bytes hold)
    (entry : bytes * hold) : gmap string acct * gmap bytes hold :=
  let '(id, h) := entry in
  if After (h_expires h) now then st
  else (alter (λ a, close_acct a (h_amount h) 0 (h_amount h)) (h_key h) st.1,
        delete id st.2).

Definition expire_along now st order := fold_left (expire_one now) order st.

(** The entries still to be visited are entries of the map, once each. *)
Definition pending (order : list (bytes * hold)) (holds : gmap bytes hold) : Prop :=
  NoDup order.*1 ∧ ∀ id h, (id, h) ∈ order → holds !! id = Some h.

Lemma pending_all holds order : order ≡ₚ map_to_list holds → pending order holds.
Proof.
  intros Hp. split.
  - rewrite Hp. apply NoDup_fst_map_to_list.
  - intros id h. rewrite Hp. by rewrite elem_of_map_to_list.
Qed.

Lemma pending_next id h order holds :
  pending ((id, h) :: order) holds →
  holds !! id = Some h ∧ pending order holds ∧ pending order (delete id holds).
Proof.
  intros [Hnd Hin]. cbn in Hnd. apply NoDup_cons in Hnd as [Hnot Hnd]. split_and!.
  - apply Hin. by left.
  - split; [done|]. intros. apply Hin. by right.
  - split; [done|]. intros id' h' Hel. rewrite lookup_delete_ne; [apply Hin; by right|].
    intros ->. apply Hnot. apply list_elem_of_fmap. by exists (id', h').
Qed.

Definition expired_events (now : Time) (order : list (bytes * hold)) : list event :=
  omap (λ e, if After (h_expires e.2) now then None else Some (Forfeited e.1)) order.

Lemma alter_insert_Some (f : acct → acct) (m : gmap string acct) k a :
  m !! k = Some a → alter f k m = <[k:=f a]> m.
Proof.
  intros Hk. apply map_eq. intros k'. rewrite lookup_alter, lookup_insert.
  case_decide; [subst; by rewrite Hk|done].
Qed.

(** Expiry keeps the totals right and is a run of forfeits of the abstract
    machine. *)
Lemma expire_along_sim limit now order accts holds :
  ledger_ok limit accts holds → pending order holds →
  let st := expire_along now (accts, holds) order in
  ledger_ok limit st.1 st.2 ∧
  spec_run limit (abstract accts holds) (expired_events now order) (abstract st.1 st.2).
Proof.
  revert accts holds. induction order as [|[id h] order IH]; intros accts holds Hok Hpend.
  { split; [done|by constructor]. }
  apply pending_next in Hpend as (Hid & Hpend & Hpend').
  cbn [expire_along fold_left expire_one fst snd expired_events omap list_omap].
  destruct (After (h_expires h) now); [by apply IH|].
  destruct (ledger_ok_covered _ _ _ _ _ Hok Hid) as (a & Hk & Ha & ?).
  rewrite (alter_insert_Some _ _ _ a Hk).
  destruct (IH (<[h_key h:=close_acct a (h_amount h) 0 (h_amount h)]> accts) (delete id holds))
    as [Hok' Hrun]; [|done|].
  { by apply ledger_ok_close; try lia. }
  split; [done|]. econstructor; [by apply sim_forfeit|done].
Qed.

(** The result does not depend on the iteration order of the map. *)
Lemma expire_one_comm now st e1 e2 :
  expire_one now (expire_one now st e1) e2 = expire_one now (expire_one now st e2) e1.
Proof.
  destruct st as [accts holds], e1 as [id1 h1], e2 as [id2 h2]. unfold expire_one.
  repeat case_match; try done. f_equal; cbn; [|apply delete_delete].
  apply map_eq. intros k.
  destruct (decide (h_key h1 = k)) as [E1|N1], (decide (h_key h2 = k)) as [E2|N2];
    rewrite ?E1, ?E2;
    repeat (rewrite lookup_alter_eq || rewrite lookup_alter_ne by done); try done.
  destruct (accts !! k) as [a|]; cbn; [|done].
  f_equal. unfold close_acct. f_equal; cbn; lia.
Qed.

Lemma expire_along_perm now st order order' :
  order ≡ₚ order' → expire_along now st order = expire_along now st order'.
Proof.
  unfold expire_along. intros Hp. revert st.
  induction Hp as [| | |? ? ? _ IH1 _ IH2]; intros st; cbn [fold_left]; try done.
  - by rewrite expire_one_comm.
  - by rewrite IH1.
Qed.

(** ** The reference price

    [units] at [rate] micro-dollars per million units, rounded up. *)

Definition ceil_cost (units rate : Z) : Z := (units * rate + 999999) / 1000000.

(** Both ledgers price whole millions and the remainder separately. *)
Lemma ceil_cost_split units rate :
  0 ≤ units → 0 ≤ rate →
  ceil_cost units rate =
    Z.quot units 1000000 * rate +
    (if Z.rem units 1000000 =? 0 then 0
     else Z.quot (Z.rem units 1000000 * rate + 1000000 - 1) 1000000).
Proof.
  intros Hu Hr. unfold ceil_cost.
  pose proof (Z.rem_bound_pos units 1000000 Hu ltac:(lia)).
  pose proof (Z.quot_rem' units 1000000) as Hq.
  set (q := Z.quot units 1000000) in *. set (m := Z.rem units 1000000) in *.
  replace (units * rate + 999999) with (q * rate * 1000000 + (m * rate + 999999))
    by (rewrite Hq; ring).
  rewrite Z.div_add_l by lia. f_equal. destruct (m =? 0) eqn:Hm; split_bools.
  - rewrite Hm. by rewrite Z.mul_0_l, Z.div_small.
  - rewrite Z.quot_div_nonneg by nia. f_equal. lia.
Qed.

Lemma ceil_cost_mono u u' rate : 0 ≤ rate → u ≤ u' → ceil_cost u rate ≤ ceil_cost u' rate.
Proof. intros. apply Z.div_le_mono; [lia|]. nia. Qed.

Lemma ceil_cost_bounds units rate :
  0 ≤ units → 0 ≤ rate → units * rate ≤ ceil_cost units rate * 1000000 < units * rate + 1000000.
Proof.
  intros. unfold ceil_cost. pose proof (Z.div_mod (units * rate + 999999) 1000000).
  pose proof (Z.mod_pos_bound (units * rate + 999999) 1000000). nia.
Qed.

Lemma ceil_cost_pos units rate : 1 ≤ units → 1 ≤ rate → 1 ≤ ceil_cost units rate.
Proof. intros. pose proof (ceil_cost_bounds units rate). nia. Qed.

(** The int64 arithmetic of the ledgers does not wrap on the units and rates they
    admit, and the overflow guard on the remainder never fires. *)
Lemma int64_price q m rate :
  0 ≤ q ≤ 100 → 0 ≤ m < 1000000 → 1 ≤ rate ≤ 1000000000000 →
  q *i rate = q * rate ∧
  m ≤ Z.quot (max_int64 -i (1000000 -i 1)) rate ∧
  (q *i rate) +i Z.quot ((m *i rate) +i 1000000 -i 1) 1000000 =
    q * rate + Z.quot (m * rate + 1000000 - 1) 1000000.
Proof.
  intros Hq Hm Hr. assert (0 ≤ q * rate ≤ 100 * 1000000000000) by nia.
  assert (0 ≤ m * rate ≤ 1000000 * 1000000000000) by nia.
  assert (wrap_i64 (max_int64 - wrap_i64 (1000000 - 1)) = 9223372036853775808) as -> by done.
  no_wrap. split_and!; [done| |].
  - apply Z.quot_le_lower_bound; lia.
  - pose proof (Z.quot_pos (m * rate + 1000000 - 1) 1000000 ltac:(lia) ltac:(lia)).
    pose proof (Z.quot_le_mono (m * rate + 1000000 - 1) (2 * 10 ^ 18) 1000000
      ltac:(lia) ltac:(lia)) as Hle. change (2 * 10 ^ 18 ÷ 1000000) with 2000000000000 in Hle.
    by no_wrap.
Qed.

End BudgetSpec.
