(* ===== verification/UsageBudget.v ===== *)
(** * UsageBudget: the agent token budget

    Models [internal/usagebudget/contract.go] and [memory.go]: the pricing and
    usage checks, the cost of tokens in micro-dollars with int64 arithmetic, and
    the memory ledger with its five operations. The clock, the random reader and
    the state of the context are arguments of the operations that use them; the
    mutex makes each operation atomic, so a history of the ledger is a sequence
    of operations. *)

From stdpp Require Import base gmap strings list.
From Stdlib Require Import ZArith Lia.
From Stdlib.Strings Require Import Byte.
From S2P Require Import Prelude GoBase GoCrypto BudgetSpec.

(** [^[A-Za-z0-9][A-Za-z0-9_.:-]{0,63}$], the profile pattern of both ledgers. *)
Module Profile.

Definition alnum (b : byte) : bool :=
  let c := bval b in
  ((65 <=? c) && (c <=? 90)) || ((97 <=? c) && (c <=? 122)) || ((48 <=? c) && (c <=? 57)).

Definition profile_byte (b : byte) : bool :=
  alnum b || bool_decide (bval b ∈ [95; 46; 58; 45]).

Definition profilePattern (s : string) : bool :=
  match bytes_of s with
  | [] => false
  | b :: rest => alnum b && (blen rest <=? 63) && forallb profile_byte rest
  end.

End Profile.

Module UsageBudget.
Import Profile BudgetSpec.

Definition MaximumTokenBound : Z := 2000000.
Definition MaximumRate : Z := 1000000000000.
Definition MaximumBudget : Z := 1000000000000000.
Definition million : Z := 1000000.

Inductive error : Type :=
| ErrInvalid
| ErrUnavailable
| ErrBudgetExceeded
| ErrReservationLost
| ErrUsageExceeded.

Record Pricing : Type := {
  ProfileID : string;
  InputMicrousdPerMillionToken : Z;
  OutputMicrousdPerMillionToken : Z;
  DailyBudgetMicrousd : Z;
  InputTokenOverhead : Z;
  ReservationTTL : Duration;
}.

Definition Pricing_Validate (pricing : Pricing) : result error unit :=
  IF negb (profilePattern (ProfileID pricing))
     || (InputMicrousdPerMillionToken pricing <? 1)
     || (MaximumRate <? InputMicrousdPerMillionToken pricing)
     || (OutputMicrousdPerMillionToken pricing <? 1)
     || (MaximumRate <? OutputMicrousdPerMillionToken pricing)
     || (DailyBudgetMicrousd pricing <? 1)
     || (MaximumBudget <? DailyBudgetMicrousd pricing)
     || (InputTokenOverhead pricing <? 0)
     || (65536 <? InputTokenOverhead pricing)
     || (ReservationTTL pricing <? 30 * second)
     || (10 * minute <? ReservationTTL pricing)
    RETURN Err ErrInvalid ;;
  Ok tt.

Record Reservation : Type := {
  ID : bytes;
  ReservedMicrousd : Z;
  InputTokenLimit : Z;
  OutputTokenLimit : Z;
}.

Record Usage : Type := {
  InputTokens : Z;
  OutputTokens : Z;
  TotalTokens : Z;
}.

Definition Usage_Validate (usage : Usage) : result error unit :=
  IF (InputTokens usage <? 1) || (MaximumTokenBound <? InputTokens usage)
     || (OutputTokens usage <? 1) || (MaximumTokenBound <? OutputTokens usage)
     || negb (TotalTokens usage =? InputTokens usage +i OutputTokens usage)
     || (MaximumTokenBound <? TotalTokens usage)
    RETURN Err ErrInvalid ;;
  Ok tt.

Record Settlement : Type := { CostMicrousd : Z }.

(** Go's [/] and [%] truncate; every operation is on int64. *)
Definition tokenCost (tokens rate : Z) : result error Z :=
  IF (tokens <? 0) || (MaximumTokenBound <? tokens) || (rate <? 1) || (MaximumRate <? rate)
    RETURN Err ErrInvalid ;;
  let whole := Z.quot tokens million *i rate in
  let remainder := Z.rem tokens million in
  TRY whole :=
    (if negb (remainder =? 0) then
       IF Z.quot (max_int64 -i (million -i 1)) rate <? remainder RETURN Err ErrInvalid ;;
       Ok (whole +i Z.quot ((remainder *i rate) +i million -i 1) million)
     else Ok whole) ;;
  IF (whole <? 0) || (MaximumBudget <? whole) RETURN Err ErrInvalid ;;
  Ok whole.

Definition reservationCost (pricing : Pricing) (inputTokens outputTokens : Z) :
    result error Z :=
  TRY input := tokenCost inputTokens (InputMicrousdPerMillionToken pricing) ;;
  match tokenCost outputTokens (OutputMicrousdPerMillionToken pricing) with
  | Err _ => Err ErrInvalid
  | Ok output =>
      IF MaximumBudget -i output <? input RETURN Err ErrInvalid ;;
      Ok (input +i output)
  end.

Definition validReservation (reservation : Reservation) : bool :=
  negb (forallb (λ value, bval value =? 0) (ID reservation)).

(** ** The memory ledger *)

Record memoryDaily : Type := {
  d_CommittedMicrousd : Z;
  d_UncertainMicrousd : Z;
  d_ReservedMicrousd : Z;
  d_InputTokens : Z;
  d_OutputTokens : Z;
  d_SettledRequests : Z;
  d_UncertainRequests : Z;
}.

Definition empty_daily : memoryDaily :=
  {| d_CommittedMicrousd := 0; d_UncertainMicrousd := 0; d_ReservedMicrousd := 0;
     d_InputTokens := 0; d_OutputTokens := 0; d_SettledRequests := 0;
     d_UncertainRequests := 0 |}.

Record memoryReservation : Type := {
  r_day : string;
  r_subject : string;
  r_profile : string;
  r_inputLimit : Z;
  r_outputLimit : Z;
  r_reserved : Z;
  r_expiresAt : Time;
}.

Record MemoryLedger : Type := {
  pricing : Pricing;
  digestKey : bytes;
  daily : gmap string memoryDaily;
  reservations : gmap bytes memoryReservation;
}.

Definition with_maps (ledger : MemoryLedger) daily reservations : MemoryLedger :=
  {| pricing := pricing ledger; digestKey := digestKey ledger;
     daily := daily; reservations := reservations |}.

Definition daily_key (r : memoryReservation) : string :=
  r_day r +:+ ":" +:+ r_subject r.

Definition NewMemoryLedger (pricing : Pricing) (digestKey : bytes) :
    result error MemoryLedger :=
  IF negb (is_ok (Pricing_Validate pricing)) || negb (blen digestKey =? 32)
    RETURN Err ErrInvalid ;;
  Ok {| pricing := pricing; digestKey := digestKey; daily := ∅; reservations := ∅ |}.

(** ["xiaozhi-agent-usage-subject-v1\x00"]. *)
Definition subjectDigestDomain : bytes :=
  bytes_of "xiaozhi-agent-usage-subject-v1" ++ [x00].

Definition subjectKey (ledger : MemoryLedger) (subject : string) : string :=
  hex_encode (hmac_sha256 (digestKey ledger) (subjectDigestDomain ++ bytes_of subject)).

(** One round of the loop of [reconcileExpired]. *)
Definition reconcile_one (now : Time) (ledger : MemoryLedger)
    (entry : bytes * memoryReservation) : MemoryLedger :=
  let '(id, reservation) := entry in
  IF After (r_expiresAt reservation) now RETURN ledger ;;
  let daily' :=
    match daily ledger !! daily_key reservation with
    | Some d =>
        if r_reserved reservation <=? d_ReservedMicrousd d then
          <[daily_key reservation :=
            {| d_CommittedMicrousd := d_CommittedMicrousd d;
               d_UncertainMicrousd := d_UncertainMicrousd d +i r_reserved reservation;
               d_ReservedMicrousd := d_ReservedMicrousd d -i r_reserved reservation;
               d_InputTokens := d_InputTokens d; d_OutputTokens := d_OutputTokens d;
               d_SettledRequests := d_SettledRequests d;
               d_UncertainRequests := d_UncertainRequests d +i 1 |}]> (daily ledger)
        else daily ledger
    | None => daily ledger
    end in
  with_maps ledger daily' (delete id (reservations ledger)).

(** The loop, along the order in which the map happens to be iterated. *)
Definition reconcile_along (now : Time) (order : list (bytes * memoryReservation))
    (ledger : MemoryLedger) : MemoryLedger :=
  fold_left (reconcile_one now) order ledger.

Definition reconcileExpired (now : Time) (ledger : MemoryLedger) : MemoryLedger :=
  reconcile_along now (map_to_list (reservations ledger)) ledger.

(** [ctx] is false when the context is nil or done; [now] is the clock's answer;
    [draw] what the random reader delivers, [None] for a read error. *)
Definition Reserve (ledger : MemoryLedger) (ctx : bool) (subject : string)
    (inputLimit outputLimit : Z) (now : Time) (draw : option bytes) :
    MemoryLedger * result error Reservation :=
  IF negb ctx || bool_decide (subject = "") || (inputLimit <? 1)
     || (MaximumTokenBound <? inputLimit) || (outputLimit <? 1)
     || (MaximumTokenBound <? outputLimit)
    RETURN (ledger, Err ErrInvalid) ;;
  match reservationCost (pricing ledger) inputLimit outputLimit with
  | Err _ => (ledger, Err ErrInvalid)
  | Ok cost =>
      IF cost <? 1 RETURN (ledger, Err ErrInvalid) ;;
      let ledger := reconcileExpired now ledger in
      let day := FormatDate now in
      let subjectKey := subjectKey ledger subject in
      let dailyKey := day +:+ ":" +:+ subjectKey in
      let d := from_option id empty_daily (daily ledger !! dailyKey) in
      let ledger := with_maps ledger (<[dailyKey:=d]> (daily ledger)) (reservations ledger) in
      IF (DailyBudgetMicrousd (pricing ledger) -i cost) <?
         (d_CommittedMicrousd d +i d_UncertainMicrousd d +i d_ReservedMicrousd d)
        RETURN (ledger, Err ErrBudgetExceeded) ;;
      match draw with
      | None => (ledger, Err ErrUnavailable)
      | Some id =>
          match reservations ledger !! id with
          | Some _ => (ledger, Err ErrUnavailable)
          | None =>
              (with_maps ledger
                 (<[dailyKey :=
                    {| d_CommittedMicrousd := d_CommittedMicrousd d;
                       d_UncertainMicrousd := d_UncertainMicrousd d;
                       d_ReservedMicrousd := d_ReservedMicrousd d +i cost;
                       d_InputTokens := d_InputTokens d; d_OutputTokens := d_OutputTokens d;
                       d_SettledRequests := d_SettledRequests d;
                       d_UncertainRequests := d_UncertainRequests d |}]> (daily ledger))
                 (<[id :=
                    {| r_day := day; r_subject := subjectKey;
                       r_profile := ProfileID (pricing ledger);
                       r_inputLimit := inputLimit; r_outputLimit := outputLimit;
                       r_reserved := cost;
                       r_expiresAt := now + ReservationTTL (pricing ledger) |}]>
                    (reservations ledger)),
               Ok {| ID := id; ReservedMicrousd := cost; InputTokenLimit := inputLimit;
                     OutputTokenLimit := outputLimit |})
          end
      end
  end.

Definition Settle (ledger : MemoryLedger) (ctx : bool) (reservation : Reservation)
    (usage : Usage) : MemoryLedger * result error Settlement :=
  IF negb ctx || negb (validReservation reservation) || negb (is_ok (Usage_Validate usage))
    RETURN (ledger, Err ErrInvalid) ;;
  match reservations ledger !! ID reservation with
  | None => (ledger, Err ErrReservationLost)
  | Some stored =>
      IF (r_inputLimit stored <? InputTokens usage) || (r_outputLimit stored <? OutputTokens usage)
        RETURN (ledger, Err ErrUsageExceeded) ;;
      match reservationCost (pricing ledger) (InputTokens usage) (OutputTokens usage) with
      | Err _ => (ledger, Err ErrUsageExceeded)
      | Ok cost =>
          IF r_reserved stored <? cost RETURN (ledger, Err ErrUsageExceeded) ;;
          match daily ledger !! daily_key stored with
          | None => (ledger, Err ErrUnavailable)
          | Some d =>
              IF d_ReservedMicrousd d <? r_reserved stored RETURN (ledger, Err ErrUnavailable) ;;
              (with_maps ledger
                 (<[daily_key stored :=
                    {| d_CommittedMicrousd := d_CommittedMicrousd d +i cost;
                       d_UncertainMicrousd := d_UncertainMicrousd d;
                       d_ReservedMicrousd := d_ReservedMicrousd d -i r_reserved stored;
                       d_InputTokens := d_InputTokens d +i InputTokens usage;
                       d_OutputTokens := d_OutputTokens d +i OutputTokens usage;
                       d_SettledRequests := d_SettledRequests d +i 1;
                       d_UncertainRequests := d_UncertainRequests d |}]> (daily ledger))
                 (delete (ID reservation) (reservations ledger)),
               Ok {| CostMicrousd := cost |})
          end
      end
  end.

Definition MarkUncertain (ledger : MemoryLedger) (ctx : bool) (reservation : Reservation) :
    MemoryLedger * result error Z :=
  IF negb ctx || negb (validReservation reservation) RETURN (ledger, Err ErrInvalid) ;;
  match reservations ledger !! ID reservation with
  | None => (ledger, Err ErrReservationLost)
  | Some stored =>
      match daily ledger !! daily_key stored with
      | None => (ledger, Err ErrUnavailable)
      | Some d =>
          IF d_ReservedMicrousd d <? r_reserved stored RETURN (ledger, Err ErrUnavailable) ;;
          (with_maps ledger
             (<[daily_key stored :=
                {| d_CommittedMicrousd := d_CommittedMicrousd d;
                   d_UncertainMicrousd := d_UncertainMicrousd d +i r_reserved stored;
                   d_ReservedMicrousd := d_ReservedMicrousd d -i r_reserved stored;
                   d_InputTokens := d_InputTokens d; d_OutputTokens := d_OutputTokens d;
                   d_SettledRequests := d_SettledRequests d;
                   d_UncertainRequests := d_UncertainRequests d +i 1 |}]> (daily ledger))
             (delete (ID reservation) (reservations ledger)),
           Ok (r_reserved stored))
      end
  end.

Definition Release (ledger : MemoryLedger) (ctx : bool) (reservation : Reservation) :
    MemoryLedger * result error unit :=
  IF negb ctx || negb (validReservation reservation) RETURN (ledger, Err ErrInvalid) ;;
  match reservations ledger !! ID reservation with
  | None => (ledger, Err ErrReservationLost)
  | Some stored =>
      match daily ledger !! daily_key stored with
      | None => (ledger, Err ErrUnavailable)
      | Some d =>
          IF d_ReservedMicrousd d <? r_reserved stored RETURN (ledger, Err ErrUnavailable) ;;
          (with_maps ledger
             (<[daily_key stored :=
                {| d_CommittedMicrousd := d_CommittedMicrousd d;
                   d_UncertainMicrousd := d_UncertainMicrousd d;
                   d_ReservedMicrousd := d_ReservedMicrousd d -i r_reserved stored;
                   d_InputTokens := d_InputTokens d; d_OutputTokens := d_OutputTokens d;
                   d_SettledRequests := d_SettledRequests d;
                   d_UncertainRequests := d_UncertainRequests d |}]> (daily ledger))
             (delete (ID reservation) (reservations ledger)),
           Ok tt)
      end
  end.

(** *** The ledger as a transition system *)

Inductive op : Type :=
| OpReserve (ctx : bool) (subject : string) (inputLimit outputLimit : Z) (now : Time)
    (draw : option bytes)
| OpSettle (ctx : bool) (reservation : Reservation) (usage : Usage)
| OpMarkUncertain (ctx : bool) (reservation : Reservation)
| OpRelease (ctx : bool) (reservation : Reservation).

Inductive outcome : Type :=
| DidReserve (r : result error Reservation)
| DidSettle (id : bytes) (r : result error Settlement)
| DidMarkUncertain (id : bytes) (r : result error Z)
| DidRelease (id : bytes) (r : result error unit).

Definition exec (ledger : MemoryLedger) (o : op) : MemoryLedger * outcome :=
  match o with
  | OpReserve ctx subject i out now draw =>
      let '(l, r) := Reserve ledger ctx subject i out now draw in (l, DidReserve r)
  | OpSettle ctx reservation usage =>
      let '(l, r) := Settle ledger ctx reservation usage in (l, DidSettle (ID reservation) r)
  | OpMarkUncertain ctx reservation =>
      let '(l, r) := MarkUncertain ledger ctx reservation in
      (l, DidMarkUncertain (ID reservation) r)
  | OpRelease ctx reservation =>
      let '(l, r) := Release ledger ctx reservation in (l, DidRelease (ID reservation) r)
  end.

Definition run (ledger : MemoryLedger) (ops : list op) : MemoryLedger :=
  fold_left (λ l o, (exec l o).1) ops ledger.

(** ** Prices *)

Lemma Pricing_Validate_ok p :
  is_ok (Pricing_Validate p) = true ↔
  profilePattern (ProfileID p) = true ∧ 1 ≤ InputMicrousdPerMillionToken p ≤ MaximumRate ∧
  1 ≤ OutputMicrousdPerMillionToken p ≤ MaximumRate ∧
  1 ≤ DailyBudgetMicrousd p ≤ MaximumBudget ∧ 0 ≤ InputTokenOverhead p ≤ 65536 ∧
  30 * second ≤ ReservationTTL p ≤ 10 * minute.
Proof.
  unfold Pricing_Validate. destruct (_ || _) eqn:Hv; cbn; split; try done.
  - intros (Hp & ?). rewrite Hp in Hv. cbn in Hv.
    repeat (apply orb_true_iff in Hv as [Hv|Hv]); split_bools; lia.
  - intros _. split_bools. split_and!; done || lia.
Qed.

Lemma tokenCost_ceil tokens rate :
  0 ≤ tokens ≤ MaximumTokenBound → 1 ≤ rate ≤ MaximumRate →
  tokenCost tokens rate = Ok (ceil_cost tokens rate).
Proof.
  unfold tokenCost, MaximumTokenBound, MaximumRate, MaximumBudget, million. intros Ht Hr.
  pose proof (ceil_cost_split tokens rate ltac:(lia) ltac:(lia)) as Hc.
  pose proof (ceil_cost_bounds tokens rate ltac:(lia) ltac:(lia)).
  pose proof (Z.rem_bound_pos tokens 1000000 ltac:(lia) ltac:(lia)).
  pose proof (Z.quot_rem' tokens 1000000).
  assert (0 ≤ Z.quot tokens 1000000 ≤ 2) by lia.
  destruct (int64_price (Z.quot tokens 1000000) (Z.rem tokens 1000000) rate)
    as (Hq & Hg & Hw); [lia..|].
  rewrite !(proj2 (Z.ltb_ge _ _)) by lia. cbn [orb]. cbv zeta. rewrite Hw, Hq.
  destruct (Z.rem tokens 1000000 =? 0); cbn [negb].
  - rewrite Z.add_0_r in Hc. rewrite <- Hc. rewrite !(proj2 (Z.ltb_ge _ _)) by nia. done.
  - rewrite (proj2 (Z.ltb_ge _ _)) by lia. rewrite <- Hc.
    rewrite !(proj2 (Z.ltb_ge _ _)) by nia. done.
Qed.

(** The reference price of a pair of token counts. *)
Definition price (p : Pricing) (i o : Z) : Z :=
  ceil_cost i (InputMicrousdPerMillionToken p) + ceil_cost o (OutputMicrousdPerMillionToken p).

Lemma price_mono p i i' o o' :
  is_ok (Pricing_Validate p) = true → i ≤ i' → o ≤ o' → price p i o ≤ price p i' o'.
Proof.
  intros (_&?&?&_)%Pricing_Validate_ok ??. unfold price.
  pose proof (ceil_cost_mono i i' (InputMicrousdPerMillionToken p)).
  pose proof (ceil_cost_mono o o' (OutputMicrousdPerMillionToken p)). lia.
Qed.

Lemma reservationCost_price p i o :
  is_ok (Pricing_Validate p) = true → 1 ≤ i ≤ MaximumTokenBound → 1 ≤ o ≤ MaximumTokenBound →
  reservationCost p i o = Ok (price p i o) ∧ 1 ≤ price p i o ≤ MaximumBudget.
Proof.
  intros (_&Hi&Ho&_)%Pricing_Validate_ok Hbi Hbo. unfold reservationCost, price.
  rewrite !tokenCost_ceil by lia.
  pose proof (ceil_cost_bounds i _ ltac:(lia) (Z.le_trans 0 1 _ ltac:(lia) (proj1 Hi))).
  pose proof (ceil_cost_bounds o _ ltac:(lia) (Z.le_trans 0 1 _ ltac:(lia) (proj1 Ho))).
  pose proof (ceil_cost_pos i _ ltac:(lia) (proj1 Hi)).
  pose proof (ceil_cost_pos o _ ltac:(lia) (proj1 Ho)).
  unfold MaximumBudget, MaximumTokenBound, MaximumRate in *.
  set (a := InputMicrousdPerMillionToken p) in *. set (b := OutputMicrousdPerMillionToken p) in *.
  assert (i * a ≤ 2000000 * 1000000000000) by nia.
  assert (o * b ≤ 2000000 * 1000000000000) by nia.
  no_wrap. rewrite (proj2 (Z.ltb_ge _ _)) by lia. split; [done|lia].
Qed.

(** ** The totals of the ledger *)

Definition acct_of (d : memoryDaily) : acct :=
  {| committed := d_CommittedMicrousd d; uncertain := d_UncertainMicrousd d;
     reserved := d_ReservedMicrousd d |}.

Definition hold_of (r : memoryReservation) : hold :=
  {| h_key := daily_key r; h_amount := r_reserved r; h_expires := r_expiresAt r |}.

Definition accts_of (L : MemoryLedger) : gmap string acct := acct_of <$> daily L.
Definition holds_of (L : MemoryLedger) : gmap bytes hold := hold_of <$> reservations L.
Definition budget (L : MemoryLedger) : Z := DailyBudgetMicrousd (pricing L).

(** Every open reservation is priced by its token limits. *)
Definition priced (p : Pricing) (rs : gmap bytes memoryReservation) : Prop :=
  ∀ id r, rs !! id = Some r →
    1 ≤ r_inputLimit r ≤ MaximumTokenBound ∧ 1 ≤ r_outputLimit r ≤ MaximumTokenBound ∧
    r_reserved r = price p (r_inputLimit r) (r_outputLimit r).

Record Ledger_ok (L : MemoryLedger) : Prop := {
  L_pricing : is_ok (Pricing_Validate (pricing L)) = true;
  L_totals : ledger_ok (budget L) (accts_of L) (holds_of L);
  L_priced : priced (pricing L) (reservations L);
}.

Lemma Ledger_budget L : Ledger_ok L → 1 ≤ budget L ≤ MaximumBudget.
Proof. intros [Hp _ _]. apply Pricing_Validate_ok in Hp. unfold budget. lia. Qed.

(** What the totals say about a stored reservation: its day is there and covers
    it, and no sum leaves int64. *)
Lemma stored_covered L id r :
  Ledger_ok L → reservations L !! id = Some r →
  ∃ d, daily L !! daily_key r = Some d ∧ accts_of L !! daily_key r = Some (acct_of d) ∧
    holds_of L !! id = Some (hold_of r) ∧
    1 ≤ r_reserved r ≤ d_ReservedMicrousd d ∧ 0 ≤ d_CommittedMicrousd d ∧
    0 ≤ d_UncertainMicrousd d ∧
    d_CommittedMicrousd d + d_UncertainMicrousd d + d_ReservedMicrousd d ≤ MaximumBudget.
Proof.
  intros Hok Hr. pose proof (Ledger_budget L Hok). destruct Hok as [_ Ht _].
  assert (holds_of L !! id = Some (hold_of r)) as Hh
    by (unfold holds_of; by rewrite lookup_fmap, Hr).
  destruct (ledger_ok_covered _ _ _ _ _ Ht Hh) as (a & Ha & ?). cbn in *.
  unfold accts_of in *. rewrite lookup_fmap in *.
  destruct (daily L !! daily_key r) as [d|]; cbn in Ha; [|done]. simplify_eq.
  unfold acct_total in *. cbn in *. exists d. split_and!; done || lia.
Qed.

(** Replacing a day and removing a reservation, seen through the totals. *)
Lemma accts_insert L k d rs :
  accts_of (with_maps L (<[k:=d]> (daily L)) rs) = <[k:=acct_of d]> (accts_of L).
Proof. unfold accts_of. cbn. by rewrite fmap_insert. Qed.

Lemma holds_delete L ds id :
  holds_of (with_maps L ds (delete id (reservations L))) = delete id (holds_of L).
Proof. unfold holds_of. cbn. by rewrite fmap_delete. Qed.

Lemma priced_delete p id rs : priced p rs → priced p (delete id rs).
Proof. intros Hp id' r [_ ?]%lookup_delete_Some. by apply (Hp id'). Qed.

(** Closing a stored reservation with [c] committed and [u] uncertain keeps the
    ledger well-formed. *)
Lemma close_ok L id r d d' c u :
  Ledger_ok L → reservations L !! id = Some r → daily L !! daily_key r = Some d →
  0 ≤ c → 0 ≤ u → c + u ≤ r_reserved r →
  acct_of d' = close_acct (acct_of d) (r_reserved r) c u →
  Ledger_ok (with_maps L (<[daily_key r:=d']> (daily L)) (delete id (reservations L))).
Proof.
  intros Hok Hr Hd Hc Hu Hcu Hd'. destruct (stored_covered L id r Hok Hr) as (d0&?&Ha&Hh&_).
  simplify_eq. destruct Hok as [Hp Ht Hpr]. split; [done| |by apply priced_delete].
  rewrite accts_insert, holds_delete, Hd'. by apply (ledger_ok_close _ _ _ _ id (hold_of r)).
Qed.

(** ** Expiry *)

(** Without wrap-around: what expiry does to the day of a reservation. *)
Definition forfeit_daily (r : memoryReservation) (d : memoryDaily) : memoryDaily :=
  {| d_CommittedMicrousd := d_CommittedMicrousd d;
     d_UncertainMicrousd := d_UncertainMicrousd d + r_reserved r;
     d_ReservedMicrousd := d_ReservedMicrousd d - r_reserved r;
     d_InputTokens := d_InputTokens d; d_OutputTokens := d_OutputTokens d;
     d_SettledRequests := d_SettledRequests d;
     d_UncertainRequests := d_UncertainRequests d +i 1 |}.

Lemma acct_forfeit r d :
  acct_of (forfeit_daily r d) = close_acct (acct_of d) (r_reserved r) 0 (r_reserved r).
Proof. unfold acct_of, close_acct. cbn. by rewrite Z.add_0_r. Qed.

Lemma reconcile_one_ok now L id r :
  Ledger_ok L → reservations L !! id = Some r →
  Ledger_ok (reconcile_one now L (id, r)) ∧
  reconcile_one now L (id, r) =
    (if After (r_expiresAt r) now then L
     else with_maps L (alter (forfeit_daily r) (daily_key r) (daily L))
                      (delete id (reservations L))).
Proof.
  intros Hok Hr. unfold reconcile_one. destruct (After (r_expiresAt r) now); [done|].
  destruct (stored_covered L id r Hok Hr) as (d&Hd&_&_&?&?&?&?). rewrite Hd.
  unfold MaximumBudget in *. rewrite (proj2 (Z.leb_le _ _)) by lia. no_wrap. split.
  - eapply (close_ok L id r d _ 0 (r_reserved r)); try done; try lia.
    apply (acct_forfeit r d).
  - f_equal. apply map_eq. intros k. rewrite lookup_insert, lookup_alter.
    case_decide; [subst; by rewrite Hd|done].
Qed.

Definition entries_of (order : list (bytes * memoryReservation)) : list (bytes * hold) :=
  prod_map id hold_of <$> order.

Definition Pending (order : list (bytes * memoryReservation)) (L : MemoryLedger) : Prop :=
  NoDup order.*1 ∧ ∀ id r, (id, r) ∈ order → reservations L !! id = Some r.

Lemma Pending_all L order : order ≡ₚ map_to_list (reservations L) → Pending order L.
Proof.
  intros Hp. split.
  - rewrite Hp. apply NoDup_fst_map_to_list.
  - intros id r. rewrite Hp. by rewrite elem_of_map_to_list.
Qed.

Lemma Pending_next now id r order L :
  Ledger_ok L → Pending ((id, r) :: order) L →
  reservations L !! id = Some r ∧ Pending order (reconcile_one now L (id, r)).
Proof.
  intros Hok [Hnd Hin]. cbn in Hnd. apply NoDup_cons in Hnd as [Hnot Hnd].
  assert (reservations L !! id = Some r) as Hr by (apply Hin; by left). split; [done|].
  split; [done|]. intros id' r' Hel.
  rewrite (proj2 (reconcile_one_ok now L id r Hok Hr)). case_match; [apply Hin; by right|].
  cbn. rewrite lookup_delete_ne; [apply Hin; by right|].
  intros ->. apply Hnot. apply list_elem_of_fmap. by exists (id', r').
Qed.

Lemma reconcile_one_view now L id r :
  Ledger_ok L → reservations L !! id = Some r →
  (accts_of (reconcile_one now L (id, r)), holds_of (reconcile_one now L (id, r))) =
    expire_one now (accts_of L, holds_of L) (id, hold_of r) ∧
  pricing (reconcile_one now L (id, r)) = pricing L ∧
  digestKey (reconcile_one now L (id, r)) = digestKey L.
Proof.
  intros Hok Hr. rewrite (proj2 (reconcile_one_ok now L id r Hok Hr)).
  unfold expire_one. cbn [h_expires hold_of]. case_match; [done|]. split; [|done].
  rewrite holds_delete. f_equal. unfold accts_of. cbn. apply map_eq. intros k.
  rewrite lookup_fmap, !lookup_alter. case_decide; [|by rewrite lookup_fmap].
  rewrite lookup_fmap. destruct (daily L !! _) as [d|]; cbn; [|done]. by rewrite acct_forfeit.
Qed.

Lemma reconcile_along_view now order L :
  Ledger_ok L → Pending order L →
  let L' := reconcile_along now order L in
  Ledger_ok L' ∧ pricing L' = pricing L ∧ digestKey L' = digestKey L ∧
  (accts_of L', holds_of L') = expire_along now (accts_of L, holds_of L) (entries_of order).
Proof.
  revert L. induction order as [|[id r] order IH]; intros L Hok Hpend; [done|].
  destruct (Pending_next now id r order L Hok Hpend) as [Hr Hpend'].
  destruct (reconcile_one_ok now L id r Hok Hr) as [Hok' _].
  destruct (reconcile_one_view now L id r Hok Hr) as (Hview & Hp & Hk).
  destruct (IH _ Hok' Hpend') as (? & Hp' & Hk' & Hview').
  unfold reconcile_along in *. cbn [fold_left].
  split_and!; [done|congruence|congruence|]. rewrite Hview', Hview. done.
Qed.

Lemma Pending_perm order order' L : order ≡ₚ order' → Pending order L → Pending order' L.
Proof.
  intros Hp [Hnd Hin]. split; [by rewrite <- Hp|]. intros id r. rewrite <- Hp. apply Hin.
Qed.

Lemma reconcile_pair now L id1 r1 id2 r2 order :
  Ledger_ok L → Pending ((id1, r1) :: (id2, r2) :: order) L →
  reconcile_one now (reconcile_one now L (id1, r1)) (id2, r2) =
  reconcile_one now (reconcile_one now L (id2, r2)) (id1, r1).
Proof.
  intros Hok Hpend.
  pose proof (Pending_perm _ _ _ (Permutation_swap (id2, r2) (id1, r1) order) Hpend) as Hpend'.
  destruct (Pending_next now _ _ _ _ Hok Hpend) as [Hr1 [_ Hr2']].
  destruct (Pending_next now _ _ _ _ Hok Hpend') as [Hr2 [_ Hr1']].
  destruct (reconcile_one_ok now L id1 r1 Hok Hr1) as [Hok1 E1].
  destruct (reconcile_one_ok now L id2 r2 Hok Hr2) as [Hok2 E2].
  rewrite (proj2 (reconcile_one_ok now _ id2 r2 Hok1 (Hr2' id2 r2 ltac:(by left)))).
  rewrite (proj2 (reconcile_one_ok now _ id1 r1 Hok2 (Hr1' id1 r1 ltac:(by left)))).
  rewrite E1, E2. clear. repeat case_match; try done. unfold with_maps. cbn.
  rewrite delete_delete. f_equal. apply map_eq. intros k.
  destruct (decide (daily_key r1 = k)) as [K1|N1], (decide (daily_key r2 = k)) as [K2|N2];
    rewrite ?K1, ?K2;
    repeat (rewrite lookup_alter_eq || rewrite lookup_alter_ne by done); try done.
  destruct (daily L !! k) as [d|]; cbn; [|done]. unfold forfeit_daily. cbn. do 2 f_equal; lia.
Qed.

(** The iteration order of the reservation map does not matter. *)
Lemma reconcile_along_perm now order order' L :
  Ledger_ok L → Pending order L → order ≡ₚ order' →
  reconcile_along now order L = reconcile_along now order' L.
Proof.
  unfold reconcile_along. intros Hok Hpend Hp. revert L Hok Hpend.
  induction Hp as [|[id r] order order' Hp IH|[id1 r1] [id2 r2] order|o1 o2 o3 Hp1 IH1 Hp2 IH2];
    intros L Hok Hpend; cbn [fold_left].
  - done.
  - destruct (Pending_next now _ _ _ _ Hok Hpend) as [Hr Hpend'].
    by apply IH; [apply reconcile_one_ok|].
  - by rewrite (reconcile_pair now L _ _ _ _ order Hok Hpend).
  - rewrite IH1 by done. by apply IH2, (Pending_perm o1).
Qed.

(** ** The operations, without wrap-around and dead branches *)

Definition close_ledger (L : MemoryLedger) (id : bytes) (r : memoryReservation)
    (f : memoryDaily → memoryDaily) : MemoryLedger :=
  with_maps L (alter f (daily_key r) (daily L)) (delete id (reservations L)).

Definition settle_daily (r : memoryReservation) (usage : Usage) (cost : Z) (d : memoryDaily) :
    memoryDaily :=
  {| d_CommittedMicrousd := d_CommittedMicrousd d + cost;
     d_UncertainMicrousd := d_UncertainMicrousd d;
     d_ReservedMicrousd := d_ReservedMicrousd d - r_reserved r;
     d_InputTokens := d_InputTokens d +i InputTokens usage;
     d_OutputTokens := d_OutputTokens d +i OutputTokens usage;
     d_SettledRequests := d_SettledRequests d +i 1;
     d_UncertainRequests := d_UncertainRequests d |}.

Definition release_daily (r : memoryReservation) (d : memoryDaily) : memoryDaily :=
  {| d_CommittedMicrousd := d_CommittedMicrousd d;
     d_UncertainMicrousd := d_UncertainMicrousd d;
     d_ReservedMicrousd := d_ReservedMicrousd d - r_reserved r;
     d_InputTokens := d_InputTokens d; d_OutputTokens := d_OutputTokens d;
     d_SettledRequests := d_SettledRequests d;
     d_UncertainRequests := d_UncertainRequests d |}.

Lemma alter_lookup (f : memoryDaily → memoryDaily) (m : gmap string memoryDaily) k d :
  m !! k = Some d → <[k:=f d]> m = alter f k m.
Proof.
  intros Hk. apply map_eq. intros k'. rewrite lookup_alter, lookup_insert.
  case_decide; [subst; by rewrite Hk|done].
Qed.

Lemma close_ledger_ok L id r f c u :
  Ledger_ok L → reservations L !! id = Some r → 0 ≤ c → 0 ≤ u → c + u ≤ r_reserved r →
  (∀ d, acct_of (f d) = close_acct (acct_of d) (r_reserved r) c u) →
  Ledger_ok (close_ledger L id r f) ∧
  ∃ a, accts_of L !! daily_key r = Some a ∧
    accts_of (close_ledger L id r f) =
      <[daily_key r:=close_acct a (r_reserved r) c u]> (accts_of L) ∧
    holds_of (close_ledger L id r f) = delete id (holds_of L).
Proof.
  intros Hok Hr Hc Hu Hcu Hf. destruct (stored_covered L id r Hok Hr) as (d&Hd&Ha&_).
  unfold close_ledger. rewrite <- (alter_lookup f _ _ d Hd). split.
  - by eapply (close_ok L id r d _ c u).
  - exists (acct_of d). rewrite accts_insert, holds_delete, Hf. done.
Qed.

Definition within_limits (r : memoryReservation) (usage : Usage) : bool :=
  (InputTokens usage <=? r_inputLimit r) && (OutputTokens usage <=? r_outputLimit r).

Lemma Usage_Validate_ok u :
  is_ok (Usage_Validate u) = true →
  1 ≤ InputTokens u ≤ MaximumTokenBound ∧ 1 ≤ OutputTokens u ≤ MaximumTokenBound.
Proof. unfold Usage_Validate. case_match; [done|]. intros _. split_bools. lia. Qed.

Lemma settle_price L id r usage :
  Ledger_ok L → reservations L !! id = Some r → is_ok (Usage_Validate usage) = true →
  within_limits r usage = true →
  1 ≤ price (pricing L) (InputTokens usage) (OutputTokens usage) ≤ r_reserved r.
Proof.
  intros [Hp _ Hpr] Hr [Hi Ho]%Usage_Validate_ok Hw. unfold within_limits in Hw. split_bools.
  destruct (Hpr id r Hr) as (_ & _ & ->).
  pose proof (reservationCost_price (pricing L) _ _ Hp Hi Ho).
  pose proof (price_mono (pricing L) (InputTokens usage) (r_inputLimit r)
    (OutputTokens usage) (r_outputLimit r) Hp). lia.
Qed.

Lemma Settle_eq L ctx res usage :
  Ledger_ok L →
  Settle L ctx res usage =
    if negb ctx || negb (validReservation res) || negb (is_ok (Usage_Validate usage))
    then (L, Err ErrInvalid)
    else match reservations L !! ID res with
    | None => (L, Err ErrReservationLost)
    | Some r =>
        if within_limits r usage then
          let cost := price (pricing L) (InputTokens usage) (OutputTokens usage) in
          (close_ledger L (ID res) r (settle_daily r usage cost), Ok {| CostMicrousd := cost |})
        else (L, Err ErrUsageExceeded)
    end.
Proof.
  intros Hok. unfold Settle. destruct (_ || _) eqn:Hg; [done|]. split_bools.
  destruct (reservations L !! ID res) as [r|] eqn:Hr; [|done].
  destruct (within_limits r usage) eqn:Hw.
  - pose proof (settle_price L _ r usage Hok Hr ltac:(done) Hw) as Hc.
    destruct (Usage_Validate_ok usage ltac:(done)) as [Hi Ho].
    unfold within_limits in Hw. split_bools. rewrite !(proj2 (Z.ltb_ge _ _)) by lia. cbn [orb].
    rewrite (proj1 (reservationCost_price _ _ _ (L_pricing L Hok) Hi Ho)).
    rewrite (proj2 (Z.ltb_ge _ _)) by lia.
    destruct (stored_covered L _ r Hok Hr) as (d&Hd&_&_&?&?&?&?). rewrite Hd.
    rewrite (proj2 (Z.ltb_ge _ _)) by lia. unfold MaximumBudget in *. no_wrap.
    unfold close_ledger. by rewrite <- (alter_lookup _ _ _ d Hd).
  - unfold within_limits in Hw. apply andb_false_iff in Hw.
    destruct (r_inputLimit r <? InputTokens usage) eqn:?; [done|].
    destruct (r_outputLimit r <? OutputTokens usage) eqn:?; [done|].
    destruct Hw; split_bools; lia.
Qed.

Lemma MarkUncertain_eq L ctx res :
  Ledger_ok L →
  MarkUncertain L ctx res =
    if negb ctx || negb (validReservation res) then (L, Err ErrInvalid)
    else match reservations L !! ID res with
    | None => (L, Err ErrReservationLost)
    | Some r => (close_ledger L (ID res) r (forfeit_daily r), Ok (r_reserved r))
    end.
Proof.
  intros Hok. unfold MarkUncertain. destruct (_ || _) eqn:Hg; [done|].
  destruct (reservations L !! ID res) as [r|] eqn:Hr; [|done].
  destruct (stored_covered L _ r Hok Hr) as (d&Hd&_&_&?&?&?&?). rewrite Hd.
  rewrite (proj2 (Z.ltb_ge _ _)) by lia. unfold MaximumBudget in *. no_wrap.
  unfold close_ledger. by rewrite <- (alter_lookup _ _ _ d Hd).
Qed.

Lemma Release_eq L ctx res :
  Ledger_ok L →
  Release L ctx res =
    if negb ctx || negb (validReservation res) then (L, Err ErrInvalid)
    else match reservations L !! ID res with
    | None => (L, Err ErrReservationLost)
    | Some r => (close_ledger L (ID res) r (release_daily r), Ok tt)
    end.
Proof.
  intros Hok. unfold Release. destruct (_ || _) eqn:Hg; [done|].
  destruct (reservations L !! ID res) as [r|] eqn:Hr; [|done].
  destruct (stored_covered L _ r Hok Hr) as (d&Hd&_&_&?&?&?&?). rewrite Hd.
  rewrite (proj2 (Z.ltb_ge _ _)) by lia. unfold MaximumBudget in *. no_wrap.
  unfold close_ledger. by rewrite <- (alter_lookup _ _ _ d Hd).
Qed.

(** ** Refinement of the abstract budget *)

Definition spec_of (L : MemoryLedger) : spec_state := abstract (accts_of L) (holds_of L).

(** One step of [exec] on an open reservation is the corresponding event. *)
Lemma settle_step L id r usage cost :
  Ledger_ok L → reservations L !! id = Some r → 1 ≤ cost ≤ r_reserved r →
  Ledger_ok (close_ledger L id r (settle_daily r usage cost)) ∧
  spec_step (budget L) (spec_of L) (Settled id cost)
    (spec_of (close_ledger L id r (settle_daily r usage cost))).
Proof.
  intros Hok Hr Hc. destruct (close_ledger_ok L id r (settle_daily r usage cost) cost 0)
    as (Hok' & a & Ha & Ea & Eh); try done; try lia.
  { intros d. unfold acct_of, close_acct. cbn. by rewrite Z.add_0_r. }
  destruct (stored_covered L id r Hok Hr) as (?&_&_&Hh&_).
  split; [done|]. unfold spec_of. rewrite Ea, Eh. apply (sim_settle _ _ _ a id (hold_of r)); cbn; done || lia.
Qed.

Lemma forfeit_step L id r :
  Ledger_ok L → reservations L !! id = Some r →
  Ledger_ok (close_ledger L id r (forfeit_daily r)) ∧
  spec_step (budget L) (spec_of L) (Forfeited id) (spec_of (close_ledger L id r (forfeit_daily r))).
Proof.
  intros Hok Hr. destruct (stored_covered L id r Hok Hr) as (?&_&_&Hh&?&_).
  destruct (close_ledger_ok L id r (forfeit_daily r) 0 (r_reserved r))
    as (Hok' & a & Ha & Ea & Eh); try done; try lia; [apply acct_forfeit|].
  split; [done|]. unfold spec_of. rewrite Ea, Eh. by apply (sim_forfeit _ _ _ a id (hold_of r)).
Qed.

Lemma release_step L id r :
  Ledger_ok L → reservations L !! id = Some r →
  Ledger_ok (close_ledger L id r (release_daily r)) ∧
  spec_step (budget L) (spec_of L) (Released id) (spec_of (close_ledger L id r (release_daily r))).
Proof.
  intros Hok Hr. destruct (stored_covered L id r Hok Hr) as (?&_&_&Hh&?&_).
  destruct (close_ledger_ok L id r (release_daily r) 0 0)
    as (Hok' & a & Ha & Ea & Eh); try done; try lia.
  { intros d. unfold acct_of, close_acct. cbn. by rewrite !Z.add_0_r. }
  split; [done|]. unfold spec_of. rewrite Ea, Eh. by apply (sim_release _ _ _ a id (hold_of r)).
Qed.

(** Opening the account of the day. *)
Definition open_day (L : MemoryLedger) (k : string) : MemoryLedger :=
  with_maps L (<[k:=from_option id empty_daily (daily L !! k)]> (daily L)) (reservations L).

Lemma open_day_ok L k :
  Ledger_ok L → Ledger_ok (open_day L k) ∧ spec_equiv (spec_of L) (spec_of (open_day L k)).
Proof.
  intros Hok. pose proof (Ledger_budget L Hok). unfold open_day.
  destruct (daily L !! k) as [d|] eqn:Hd; cbn.
  - rewrite insert_id by done. by destruct L.
  - assert (accts_of L !! k = None) as Hk by (unfold accts_of; by rewrite lookup_fmap, Hd).
    destruct Hok as [Hp Ht Hpr]. unfold spec_of. rewrite accts_insert. split; [split|].
    + done.
    + rewrite accts_insert. apply ledger_ok_open; [unfold budget in *; cbn; lia|done|done].
    + done.
    + symmetry. by apply abstract_open.
Qed.

Lemma open_day_lookup L k :
  Ledger_ok L →
  ∃ d, daily (open_day L k) !! k = Some d ∧ d = from_option id empty_daily (daily L !! k) ∧
    0 ≤ d_CommittedMicrousd d ∧ 0 ≤ d_UncertainMicrousd d ∧ 0 ≤ d_ReservedMicrousd d ∧
    d_CommittedMicrousd d + d_UncertainMicrousd d + d_ReservedMicrousd d ≤ budget L.
Proof.
  intros Hok. eexists. split; [cbn; apply lookup_insert_eq|]. split; [done|].
  pose proof (Ledger_budget L Hok). destruct (daily L !! k) as [d|] eqn:Hd; cbn; [|lia].
  destruct Hok as [_ [Ha Hpos _] _]. destruct (Ha k (acct_of d)) as (?&?&Hr&?).
  { unfold accts_of. by rewrite lookup_fmap, Hd. }
  pose proof (held_nonneg k _ Hpos). unfold acct_total in *. cbn in *. lia.
Qed.

(** Booking a fresh reservation on an open day. *)
Definition book (L : MemoryLedger) (id : bytes) (r : memoryReservation) : MemoryLedger :=
  with_maps L
    (alter (λ d, {| d_CommittedMicrousd := d_CommittedMicrousd d;
                    d_UncertainMicrousd := d_UncertainMicrousd d;
                    d_ReservedMicrousd := d_ReservedMicrousd d + r_reserved r;
                    d_InputTokens := d_InputTokens d; d_OutputTokens := d_OutputTokens d;
                    d_SettledRequests := d_SettledRequests d;
                    d_UncertainRequests := d_UncertainRequests d |})
           (daily_key r) (daily L))
    (<[id:=r]> (reservations L)).

Lemma book_step L id r d :
  Ledger_ok L → reservations L !! id = None → daily L !! daily_key r = Some d →
  1 ≤ r_inputLimit r ≤ MaximumTokenBound → 1 ≤ r_outputLimit r ≤ MaximumTokenBound →
  r_reserved r = price (pricing L) (r_inputLimit r) (r_outputLimit r) →
  d_CommittedMicrousd d + d_UncertainMicrousd d + d_ReservedMicrousd d + r_reserved r ≤ budget L →
  Ledger_ok (book L id r) ∧
  spec_step (budget L) (spec_of L) (Reserved id (hold_of r)) (spec_of (book L id r)).
Proof.
  intros Hok Hid Hd Hi Ho Hr Hb.
  assert (1 ≤ r_reserved r).
  { pose proof (reservationCost_price _ _ _ (L_pricing L Hok) Hi Ho). lia. }
  assert (accts_of L !! h_key (hold_of r) = Some (acct_of d)) as Ha
    by (unfold accts_of; cbn; by rewrite lookup_fmap, Hd).
  assert (holds_of L !! id = None) as Hh by (unfold holds_of; by rewrite lookup_fmap, Hid).
  assert (accts_of (book L id r) =
    <[h_key (hold_of r):=reserve_acct (acct_of d) (h_amount (hold_of r))]> (accts_of L)) as Ea.
  { unfold book. rewrite <- (alter_lookup _ _ _ d Hd). apply accts_insert. }
  assert (holds_of (book L id r) = <[id:=hold_of r]> (holds_of L)) as Eh.
  { unfold holds_of. cbn. by rewrite fmap_insert. }
  destruct Hok as [Hp Ht Hpr]. split; [split|].
  - done.
  - rewrite Ea, Eh. change (budget (book L id r)) with (budget L).
    apply ledger_ok_reserve; cbn; done.
  - intros id' r' Hr'. cbn in Hr'. apply lookup_insert_Some in Hr' as [ [_ <-] |[_ ?] ];
      [done|by apply (Hpr id')].
  - unfold spec_of. rewrite Ea, Eh. apply sim_reserve; cbn; done.
Qed.

(** [Reserve] without wrap-around: expire, open the day, then book if the budget
    allows. *)
Lemma Reserve_eq L ctx subject i o now draw :
  Ledger_ok L →
  let guard := negb ctx || bool_decide (subject = "") || (i <? 1) || (MaximumTokenBound <? i)
               || (o <? 1) || (MaximumTokenBound <? o) in
  let cost := price (pricing L) i o in
  let L1 := reconcileExpired now L in
  let k := FormatDate now +:+ ":" +:+ subjectKey L1 subject in
  let L2 := open_day L1 k in
  let r := {| r_day := FormatDate now; r_subject := subjectKey L1 subject;
              r_profile := ProfileID (pricing L1); r_inputLimit := i; r_outputLimit := o;
              r_reserved := cost; r_expiresAt := now + ReservationTTL (pricing L1) |} in
  Reserve L ctx subject i o now draw =
    if guard then (L, Err ErrInvalid)
    else if budget L <? acct_total (acct_of (from_option id empty_daily (daily L1 !! k))) + cost
    then (L2, Err ErrBudgetExceeded)
    else match draw with
    | None => (L2, Err ErrUnavailable)
    | Some id =>
        match reservations L1 !! id with
        | Some _ => (L2, Err ErrUnavailable)
        | None => (book L2 id r, Ok {| ID := id; ReservedMicrousd := cost; InputTokenLimit := i;
                                       OutputTokenLimit := o |})
        end
    end.
Proof.
  intros Hok. cbv zeta. unfold Reserve. destruct (_ || _) eqn:Hg; [done|]. split_bools.
  destruct (reservationCost_price _ i o (L_pricing L Hok)) as [-> Hc]; [lia..|].
  rewrite (proj2 (Z.ltb_ge _ 1)) by lia. cbv zeta.
  destruct (reconcile_along_view now (map_to_list (reservations L)) L Hok)
    as (Hok1 & Hp & _ & _); [by apply Pending_all|].
  fold (reconcileExpired now L) in *. set (L1 := reconcileExpired now L) in *.
  set (k := FormatDate now +:+ ":" +:+ subjectKey L1 subject).
  destruct (open_day_lookup L1 k Hok1) as (d & Hd & Ed & ?&?&?&?). rewrite <- !Ed.
  cbn [pricing with_maps reservations]. rewrite Hp.
  pose proof (Ledger_budget L Hok). unfold budget, MaximumBudget, acct_total in *. cbn [acct_of
    committed uncertain reserved]. rewrite Hp in *. no_wrap.
  replace (DailyBudgetMicrousd (pricing L) <? _ + _) with
    (DailyBudgetMicrousd (pricing L) - price (pricing L) i o <?
     d_CommittedMicrousd d + d_UncertainMicrousd d + d_ReservedMicrousd d)
    by (apply eq_true_iff_eq; rewrite !Z.ltb_lt; lia).
  destruct (_ <? _); [by rewrite Ed|]. destruct draw as [id|]; [|by rewrite Ed].
  destruct (reservations L1 !! id); [by rewrite Ed|].
  f_equal. unfold book. rewrite <- (alter_lookup _ _ _ d Hd). unfold open_day, daily_key.
  cbn. rewrite Ed. done.
Qed.

Definition is_forfeit (e : event) : Prop := ∃ id, e = Forfeited id.

Lemma expired_events_forfeit now order : Forall is_forfeit (expired_events now order).
Proof.
  apply Forall_forall. intros e (x & _ & He)%list_elem_of_omap. case_match; [done|].
  simplify_eq. by eexists.
Qed.

(** What the caller is told, in terms of what happened to the budget. *)
Definition accounted (out : outcome) (es : list event) : Prop :=
  match out with
  | DidReserve (Ok res) => ∃ pre h, es = pre ++ [Reserved (ID res) h] ∧
      h_amount h = ReservedMicrousd res ∧ Forall is_forfeit pre
  | DidReserve (Err _) => Forall is_forfeit es
  | DidSettle id (Ok s) => es = [Settled id (CostMicrousd s)]
  | DidMarkUncertain id (Ok _) => es = [Forfeited id]
  | DidRelease id (Ok _) => es = [Released id]
  | _ => es = []
  end.

Lemma reconcile_run now L :
  Ledger_ok L →
  Ledger_ok (reconcileExpired now L) ∧ pricing (reconcileExpired now L) = pricing L ∧
  ∃ es, Forall is_forfeit es ∧ spec_run (budget L) (spec_of L) es (spec_of (reconcileExpired now L)).
Proof.
  intros Hok. destruct (reconcile_along_view now (map_to_list (reservations L)) L Hok)
    as (Hok1 & Hp & _ & Hview); [by apply Pending_all|]. fold (reconcileExpired now L) in *.
  split_and!; [done..|]. exists (expired_events now (entries_of (map_to_list (reservations L)))).
  split; [apply expired_events_forfeit|].
  destruct (expire_along_sim (budget L) now (entries_of (map_to_list (reservations L)))
    (accts_of L) (holds_of L)) as [_ Hrun]; [apply Hok| |].
  - apply pending_all. unfold entries_of, holds_of. by rewrite map_to_list_fmap.
  - rewrite <- Hview in Hrun. exact Hrun.
Qed.

Lemma reserve_refines L ctx subject i o now draw L' res :
  Ledger_ok L → Reserve L ctx subject i o now draw = (L', res) →
  Ledger_ok L' ∧ pricing L' = pricing L ∧
  ∃ es, accounted (DidReserve res) es ∧ spec_run (budget L) (spec_of L) es (spec_of L').
Proof.
  intros Hok. rewrite Reserve_eq by done. cbv zeta.
  destruct (_ || _) eqn:Hg.
  { intros [= <- <-]. split_and!; [done..|]. exists []. by repeat constructor. }
  split_bools. destruct (reconcile_run now L Hok) as (Hok1 & Hp1 & es & Hes & Hrun).
  set (L1 := reconcileExpired now L) in *.
  set (k := FormatDate now +:+ ":" +:+ subjectKey L1 subject).
  destruct (open_day_ok L1 k Hok1) as [Hok2 Heq].
  assert (spec_run (budget L) (spec_of L) es (spec_of (open_day L1 k))) as Hrun2
    by (by rewrite <- Heq).
  destruct (_ <? _) eqn:Hb; [intros [= <- <-]; split_and!; [done..|by exists es]|].
  destruct draw as [id|]; [|intros [= <- <-]; split_and!; [done..|by exists es]].
  destruct (reservations L1 !! id) eqn:Hid; [intros [= <- <-]; split_and!; [done..|by exists es]|].
  intros [= <- <-]. split_bools. destruct (open_day_lookup L1 k Hok1) as (d & Hd & Ed & _).
  rewrite <- Ed in Hb. unfold acct_total in Hb. cbn in Hb.
  match goal with |- context [book _ id ?r] => set (stored := r) end.
  destruct (book_step (open_day L1 k) id stored d) as [Hok' Hstep]; try done; try lia.
  { cbn. by rewrite Hp1. }
  { unfold budget in *. cbn. rewrite Hp1. lia. }
  split_and!; [done|done|]. exists (es ++ [Reserved id (hold_of stored)]). split.
  - by exists es, (hold_of stored).
  - eapply spec_run_app; [done|]. apply spec_run_one. unfold budget in *. cbn in Hstep.
    by rewrite Hp1 in Hstep.
Qed.

Lemma exec_refines L o L' out :
  Ledger_ok L → exec L o = (L', out) →
  Ledger_ok L' ∧ pricing L' = pricing L ∧
  ∃ es, accounted out es ∧ spec_run (budget L) (spec_of L) es (spec_of L').
Proof.
  intros Hok. assert (∀ out', accounted out' [] → (L, out') = (L', out) →
    Ledger_ok L' ∧ pricing L' = pricing L ∧
    ∃ es, accounted out es ∧ spec_run (budget L) (spec_of L) es (spec_of L')) as Hnop.
  { intros out' Ha [= <- <-]. split_and!; [done..|]. exists []. by split; [|constructor]. }
  destruct o as [ctx subject i o now draw|ctx res usage|ctx res|ctx res]; cbn [exec].
  - destruct (Reserve _ _ _ _ _ _ _) as [l r] eqn:Hr. intros [= <- <-].
    by eapply reserve_refines.
  - rewrite Settle_eq by done. destruct (_ || _) eqn:Hg; [by apply Hnop|]. split_bools.
    destruct (reservations L !! ID res) as [r|] eqn:Hr; [|by apply Hnop].
    destruct (within_limits r usage) eqn:Hw; [|by apply Hnop]. intros [= <- <-].
    pose proof (settle_price L _ r usage Hok Hr ltac:(done) Hw) as Hc.
    destruct (settle_step L _ r usage _ Hok Hr Hc) as [? ?].
    split_and!; [done..|]. eexists. split; [done|]. by apply spec_run_one.
  - rewrite MarkUncertain_eq by done. destruct (_ || _) eqn:Hg; [by apply Hnop|].
    destruct (reservations L !! ID res) as [r|] eqn:Hr; [|by apply Hnop]. intros [= <- <-].
    destruct (forfeit_step L _ r Hok Hr) as [? ?].
    split_and!; [done..|]. eexists. split; [done|]. by apply spec_run_one.
  - rewrite Release_eq by done. destruct (_ || _) eqn:Hg; [by apply Hnop|].
    destruct (reservations L !! ID res) as [r|] eqn:Hr; [|by apply Hnop]. intros [= <- <-].
    destruct (release_step L _ r Hok Hr) as [? ?].
    split_and!; [done..|]. eexists. split; [done|]. by apply spec_run_one.
Qed.

Lemma New_ok p key L :
  NewMemoryLedger p key = Ok L →
  Ledger_ok L ∧ pricing L = p ∧ daily L = ∅ ∧ reservations L = ∅.
Proof.
  unfold NewMemoryLedger. case_match; [done|]. intros [= <-]. split_bools.
  split; [|done]. split; [done| |by intros ? ?]. apply ledger_ok_empty.
Qed.

Lemma run_ok L ops : Ledger_ok L → Ledger_ok (run L ops) ∧ pricing (run L ops) = pricing L.
Proof.
  unfold run. revert L. induction ops as [|o ops IH]; intros L Hok; [done|]. cbn [fold_left].
  destruct (exec L o) as [L' out] eqn:He. cbn [fst].
  destruct (exec_refines L o L' out Hok He) as (Hok' & Hp & _).
  destruct (IH L' Hok') as [? ->]. done.
Qed.

(** ** Properties *)

(** C2: over every history of a ledger, for every day and subject, what is
    committed, uncertain and reserved is non-negative and together never exceeds
    the daily budget; and the reserved total is exactly the sum of the open
    reservations booked on that day and subject. The totals are the int64 fields
    of the code: no history makes them wrap. *)
Theorem daily_budget_never_exceeded p key L ops k d :
  NewMemoryLedger p key = Ok L → daily (run L ops) !! k = Some d →
  0 ≤ d_CommittedMicrousd d ∧ 0 ≤ d_UncertainMicrousd d ∧ 0 ≤ d_ReservedMicrousd d ∧
  d_CommittedMicrousd d + d_UncertainMicrousd d + d_ReservedMicrousd d ≤ DailyBudgetMicrousd p ∧
  d_ReservedMicrousd d =
    map_sum (λ _ r, if bool_decide (daily_key r = k) then r_reserved r else 0)
      (reservations (run L ops)).
Proof.
  intros (Hok & <- & _)%New_ok Hd. destruct (run_ok L ops Hok) as [Hok' Hp].
  destruct Hok' as [_ [Ha Hpos _] _]. destruct (Ha k (acct_of d)) as (?&?&Hr&?).
  { unfold accts_of. by rewrite lookup_fmap, Hd. }
  pose proof (held_nonneg k _ Hpos). unfold acct_total, budget in *. cbn in *. rewrite Hp in *.
  split_and!; try lia. rewrite Hr. unfold held, holds_of. apply map_sum_fmap.
Qed.

(** Every operation of every history is a step of the abstract daily budget:
    a successful [Settle] is the settlement of that reservation at the cost it
    reports, [MarkUncertain] a forfeit, [Release] a release, [Reserve] the
    forfeit of expired reservations followed by the new one, and failed
    operations change no account beyond forfeiting what had expired. *)
Theorem ledger_refines_budget p key L ops o L' out :
  NewMemoryLedger p key = Ok L → exec (run L ops) o = (L', out) →
  spec_equiv (spec_of L) spec_init ∧
  ∃ es, accounted out es ∧
    spec_run (DailyBudgetMicrousd p) (spec_of (run L ops)) es (spec_of L').
Proof.
  intros (Hok & <- & Hd & Hr)%New_ok He. destruct (run_ok L ops Hok) as [Hok' Hp]. split.
  - unfold spec_of, accts_of, holds_of. rewrite Hd, Hr. by split.
  - destruct (exec_refines _ _ _ _ Hok' He) as (_ & _ & Hes). unfold budget in Hes.
    by rewrite Hp in Hes.
Qed.

(** [tokenCost] is the price rounded up to the next micro-dollar: it accepts
    exactly the token counts and rates in range, and returns the unique [c] with
    [tokens * rate <= c * 10^6 < tokens * rate + 10^6]; the int64 arithmetic and
    its overflow guards never interfere. *)
Theorem tokenCost_rounds_up tokens rate c :
  tokenCost tokens rate = Ok c ↔
  0 ≤ tokens ≤ MaximumTokenBound ∧ 1 ≤ rate ≤ MaximumRate ∧
  tokens * rate ≤ c * 1000000 < tokens * rate + 1000000.
Proof.
  split.
  - intros Hc. assert (0 ≤ tokens ≤ MaximumTokenBound ∧ 1 ≤ rate ≤ MaximumRate) as [Ht Hr].
    { revert Hc. unfold tokenCost. case_match; [done|]. intros _. split_bools. lia. }
    rewrite tokenCost_ceil in Hc by done. simplify_eq. split_and!; try lia;
      apply ceil_cost_bounds; lia.
  - intros (Ht & Hr & Hc). rewrite tokenCost_ceil by done. f_equal.
    pose proof (ceil_cost_bounds tokens rate). lia.
Qed.

(** In every reachable ledger, settling an open reservation with valid usage
    within its token limits succeeds, charges the rounded-up price, which is at
    least one micro-dollar and at most what was reserved, and closes the
    reservation; usage over a limit is refused and changes nothing. The
    [ErrUnavailable] branches of [Settle] are unreachable. *)
Theorem Settle_exact p key L ops ctx res usage :
  NewMemoryLedger p key = Ok L →
  let L := run L ops in
  (Settle L ctx res usage).2 ≠ Err ErrUnavailable ∧
  ∀ r, ctx = true → validReservation res = true → is_ok (Usage_Validate usage) = true →
    reservations L !! ID res = Some r →
    if within_limits r usage then
      let cost := price p (InputTokens usage) (OutputTokens usage) in
      (Settle L ctx res usage).2 = Ok {| CostMicrousd := cost |} ∧ 1 ≤ cost ≤ r_reserved r ∧
      reservations (Settle L ctx res usage).1 = delete (ID res) (reservations L)
    else Settle L ctx res usage = (L, Err ErrUsageExceeded).
Proof.
  intros (Hok0 & <- & _)%New_ok. cbv zeta. destruct (run_ok L ops Hok0) as [Hok Hp].
  rewrite (Settle_eq _ ctx res usage Hok). split; [by repeat case_match|].
  intros r -> Hv Hu Hr. rewrite Hv, Hu, Hr. cbn [negb orb].
  destruct (within_limits r usage) eqn:Hw; [|done]. cbn [fst snd].
  pose proof (settle_price _ _ r usage Hok Hr Hu Hw) as Hc. by rewrite <- Hp.
Qed.

(** Expiry does not depend on the iteration order of the reservation map:
    in every reachable ledger every order gives the same ledger. *)
Theorem reconcileExpired_any_order p key L ops now order :
  NewMemoryLedger p key = Ok L → order ≡ₚ map_to_list (reservations (run L ops)) →
  reconcile_along now order (run L ops) = reconcileExpired now (run L ops).
Proof.
  intros (Hok0 & _)%New_ok Hperm. destruct (run_ok L ops Hok0) as [Hok _].
  apply reconcile_along_perm; [done|by apply Pending_all|done].
Qed.

(** *** Witnesses *)

Definition example_pricing : Pricing :=
  {| ProfileID := "base"; InputMicrousdPerMillionToken := 2500000;
     OutputMicrousdPerMillionToken := 10000000; DailyBudgetMicrousd := 1000000;
     InputTokenOverhead := 16; ReservationTTL := minute |}.
Definition example_key : bytes := replicate 32 (byte_of 7).
Definition example_ledger : MemoryLedger :=
  {| pricing := example_pricing; digestKey := example_key; daily := ∅; reservations := ∅ |}.
Definition example_id : bytes := replicate 16 (byte_of 1).
Definition example_ops : list op := [OpReserve true "s" 1000 100 0 (Some example_id)].
Definition example_reservation : Reservation :=
  {| ID := example_id; ReservedMicrousd := 3500; InputTokenLimit := 1000;
     OutputTokenLimit := 100 |}.
Definition example_day : string := "1970-01-01:" +:+ subjectKey example_ledger "s".

Lemma daily_budget_never_exceeded_witness :
  ∃ d, daily (run example_ledger example_ops) !! example_day = Some d ∧
    d_ReservedMicrousd d = 3500 ∧
    d_CommittedMicrousd d + d_UncertainMicrousd d + d_ReservedMicrousd d ≤ 1000000.
Proof.
  eexists. split; [vm_compute; reflexivity|]. split; [reflexivity|].
  eapply (daily_budget_never_exceeded example_pricing example_key example_ledger example_ops
    example_day); [reflexivity|]. vm_compute. reflexivity.
Defined.

Lemma ledger_refines_budget_witness :
  ∃ es, accounted (DidRelease example_id (Ok tt)) es ∧
    spec_run 1000000 (spec_of (run example_ledger example_ops)) es
      (spec_of (exec (run example_ledger example_ops) (OpRelease true example_reservation)).1).
Proof.
  apply (ledger_refines_budget example_pricing example_key example_ledger example_ops
    (OpRelease true example_reservation)); [reflexivity|]. vm_compute. reflexivity.
Defined.

Lemma Settle_exact_witness :
  let usage := {| InputTokens := 900; OutputTokens := 33; TotalTokens := 933 |} in
  (Settle (run example_ledger example_ops) true example_reservation usage).2
    = Ok {| CostMicrousd := 2580 |}.
Proof.
  cbv zeta. pose proof (proj2 (Settle_exact example_pricing example_key example_ledger
    example_ops true example_reservation
    {| InputTokens := 900; OutputTokens := 33; TotalTokens := 933 |} eq_refl)) as Hs.
  destruct (reservations (run example_ledger example_ops) !! example_id) as [r|] eqn:Hr;
    [|vm_compute in Hr; discriminate Hr].
  specialize (Hs r eq_refl eq_refl eq_refl Hr).
  assert (r_inputLimit r = 1000 ∧ r_outputLimit r = 100) as [Hi Ho]
    by (vm_compute in Hr; injection Hr as <-; split; reflexivity).
  unfold within_limits in Hs. rewrite Hi, Ho in Hs. exact (proj1 Hs).
Defined.

Lemma reconcileExpired_any_order_witness :
  reconcile_along hour (map_to_list (reservations (run example_ledger example_ops)))
    (run example_ledger example_ops)
  = reconcileExpired hour (run example_ledger example_ops).
Proof.
  apply (reconcileExpired_any_order example_pricing example_key example_ledger example_ops);
    [reflexivity|done].
Defined.

End UsageBudget.
