(* ===== verification/SpeechBudget.v ===== *)
(** * SpeechBudget: the speech usage budget

    Models [internal/speechbudget/contract.go] and [memory.go]: usage of speech
    recognition (audio milliseconds) and synthesis (characters and audio
    milliseconds), its price, the [Ledger] interface the gateway meters against
    and the memory ledger that implements it. As for the agent budget, the clock,
    the random reader and the state of the context are arguments. *)

From stdpp Require Import base gmap strings list.
From Stdlib Require Import ZArith Lia.
From Stdlib.Strings Require Import Byte.
From S2P Require Import Prelude GoBase GoCrypto BudgetSpec UsageBudget.

Module SpeechBudget.
Import Profile BudgetSpec.

Definition MaximumUnitBound : Z := 86400000.
Definition MaximumRate : Z := 1000000000000.
Definition MaximumBudget : Z := 1000000000000000.
Definition MinimumSTTChunkMS : Z := 1000.
Definition MaximumSTTChunkMS : Z := 60000.
Definition MinimumTTSOutputMS : Z := 1000.
Definition MaximumTTSOutputMS : Z := 600000.
Definition MinimumReservationTTL : Duration := 60 * second.
Definition million : Z := 1000000.

Inductive error : Type :=
| ErrInvalid
| ErrUnavailable
| ErrBudgetExceeded
| ErrReservationLost
| ErrUsageExceeded.

#[global] Instance error_eq_dec : EqDecision error.
Proof. solve_decision. Defined.

Record Pricing : Type := {
  ProfileID : string;
  STTMicrousdPerMillionAudioMS : Z;
  TTSMicrousdPerMillionCharacters : Z;
  TTSMicrousdPerMillionOutputAudioMS : Z;
  DailyBudgetMicrousd : Z;
  STTReservationChunkAudioMS : Z;
  TTSMaxOutputAudioMS : Z;
  ReservationTTL : Duration;
}.

Definition Pricing_Validate (pricing : Pricing) : result error unit :=
  IF negb (profilePattern (ProfileID pricing))
     || (STTMicrousdPerMillionAudioMS pricing <? 1)
     || (MaximumRate <? STTMicrousdPerMillionAudioMS pricing)
     || (TTSMicrousdPerMillionCharacters pricing <? 0)
     || (MaximumRate <? TTSMicrousdPerMillionCharacters pricing)
     || (TTSMicrousdPerMillionOutputAudioMS pricing <? 0)
     || (MaximumRate <? TTSMicrousdPerMillionOutputAudioMS pricing)
     || ((TTSMicrousdPerMillionCharacters pricing =? 0)
         && (TTSMicrousdPerMillionOutputAudioMS pricing =? 0))
     || (DailyBudgetMicrousd pricing <? 1)
     || (MaximumBudget <? DailyBudgetMicrousd pricing)
     || (STTReservationChunkAudioMS pricing <? MinimumSTTChunkMS)
     || (MaximumSTTChunkMS <? STTReservationChunkAudioMS pricing)
     || (TTSMaxOutputAudioMS pricing <? MinimumTTSOutputMS)
     || (MaximumTTSOutputMS <? TTSMaxOutputAudioMS pricing)
     || (ReservationTTL pricing <? MinimumReservationTTL)
     || (10 * minute <? ReservationTTL pricing)
    RETURN Err ErrInvalid ;;
  Ok tt.

Record Usage : Type := {
  STTAudioMS : Z;
  TTSCharacters : Z;
  TTSOutputAudioMS : Z;
}.

Definition STTUsage (audioMS : Z) : Usage :=
  {| STTAudioMS := audioMS; TTSCharacters := 0; TTSOutputAudioMS := 0 |}.

Definition TTSUsage (characters outputAudioMS : Z) : Usage :=
  {| STTAudioMS := 0; TTSCharacters := characters; TTSOutputAudioMS := outputAudioMS |}.

Definition Usage_Validate (usage : Usage) : result error unit :=
  let stt := (0 <? STTAudioMS usage) && (TTSCharacters usage =? 0)
             && (TTSOutputAudioMS usage =? 0) in
  let tts := (STTAudioMS usage =? 0) && (0 <? TTSCharacters usage)
             && (0 <=? TTSOutputAudioMS usage) in
  IF (negb stt && negb tts) || (MaximumUnitBound <? STTAudioMS usage)
     || (MaximumUnitBound <? TTSCharacters usage) || (MaximumUnitBound <? TTSOutputAudioMS usage)
    RETURN Err ErrInvalid ;;
  Ok tt.

Record Reservation : Type := {
  ID : bytes;
  Limit : Usage;
  ReservedMicrousd : Z;
}.

Record Settlement : Type := { CostMicrousd : Z }.

Definition unitCost (units rate : Z) : result error Z :=
  IF (units <? 0) || (MaximumUnitBound <? units) || (rate <? 0) || (MaximumRate <? rate)
    RETURN Err ErrInvalid ;;
  IF (units =? 0) || (rate =? 0) RETURN Ok 0 ;;
  let whole := Z.quot units million *i rate in
  let remainder := Z.rem units million in
  TRY whole :=
    (if negb (remainder =? 0) then
       IF Z.quot (max_int64 -i (million -i 1)) rate <? remainder RETURN Err ErrInvalid ;;
       Ok (whole +i Z.quot ((remainder *i rate) +i million -i 1) million)
     else Ok whole) ;;
  IF (whole <? 0) || (MaximumBudget <? whole) RETURN Err ErrInvalid ;;
  Ok whole.

(** The loop over the (units, rate) table. *)
Fixpoint sum_costs (values : list (Z * Z)) (total : Z) : result error Z :=
  match values with
  | [] => Ok total
  | (units, rate) :: values =>
      match unitCost units rate with
      | Err _ => Err ErrInvalid
      | Ok cost =>
          IF MaximumBudget -i cost <? total RETURN Err ErrInvalid ;;
          sum_costs values (total +i cost)
      end
  end.

Definition usageCost (pricing : Pricing) (usage : Usage) : result error Z :=
  IF negb (is_ok (Usage_Validate usage)) RETURN Err ErrInvalid ;;
  TRY total := sum_costs
    [(STTAudioMS usage, STTMicrousdPerMillionAudioMS pricing);
     (TTSCharacters usage, TTSMicrousdPerMillionCharacters pricing);
     (TTSOutputAudioMS usage, TTSMicrousdPerMillionOutputAudioMS pricing)] 0 ;;
  IF total <? 1 RETURN Err ErrInvalid ;;
  Ok total.

Definition usageWithin (usage limit : Usage) : bool :=
  IF negb (is_ok (Usage_Validate usage)) || negb (is_ok (Usage_Validate limit)) RETURN false ;;
  (STTAudioMS usage <=? STTAudioMS limit) && (TTSCharacters usage <=? TTSCharacters limit)
  && (TTSOutputAudioMS usage <=? TTSOutputAudioMS limit)
  && Bool.eqb (0 <? STTAudioMS usage) (0 <? STTAudioMS limit).

Definition validReservation (reservation : Reservation) : bool :=
  negb (forallb (λ value, bval value =? 0) (ID reservation))
  && is_ok (Usage_Validate (Limit reservation)) && (0 <? ReservedMicrousd reservation).

(** ** The memory ledger *)

(** [memoryDaily] has exactly the three totals of an [acct]. *)
Abbreviation memoryDaily := acct (only parsing).

Record memoryReservation : Type := {
  r_day : string;
  r_subject : string;
  r_profile : string;
  r_limit : Usage;
  r_reserved : Z;
  r_expiresAt : Time;
}.

Record MemoryLedger : Type := {
  pricing : Pricing;
  digestKey : bytes;
  daily : gmap string memoryDaily;
  reservations : gmap bytes memoryReservation;
}.

Definition with_maps (ledger : MemoryLedger) daily reservations : MemoryLedger :=
  {| pricing := pricing ledger; digestKey := digestKey ledger;
     daily := daily; reservations := reservations |}.

Definition daily_key (r : memoryReservation) : string :=
  r_day r +:+ ":" +:+ r_subject r.

Definition NewMemoryLedger (pricing : Pricing) (digestKey : bytes) :
    result error MemoryLedger :=
  IF negb (is_ok (Pricing_Validate pricing)) || negb (blen digestKey =? 32)
    RETURN Err ErrInvalid ;;
  Ok {| pricing := pricing; digestKey := digestKey; daily := ∅; reservations := ∅ |}.

(** ["xiaozhi-speech-usage-subject-v1\x00"]. *)
Definition subjectDigestDomain : bytes :=
  bytes_of "xiaozhi-speech-usage-subject-v1" ++ [x00].

Definition subjectKey (ledger : MemoryLedger) (subject : string) : string :=
  hex_encode (hmac_sha256 (digestKey ledger) (subjectDigestDomain ++ bytes_of subject)).

Definition reconcile_one (now : Time) (ledger : MemoryLedger)
    (entry : bytes * memoryReservation) : MemoryLedger :=
  let '(id, reservation) := entry in
  IF After (r_expiresAt reservation) now RETURN ledger ;;
  let daily' :=
    match daily ledger !! daily_key reservation with
    | Some d =>
        if r_reserved reservation <=? reserved d then
          <[daily_key reservation :=
            {| committed := committed d;
               uncertain := uncertain d +i r_reserved reservation;
               reserved := reserved d -i r_reserved reservation |}]> (daily ledger)
        else daily ledger
    | None => daily ledger
    end in
  with_maps ledger daily' (delete id (reservations ledger)).

Definition reconcile_along (now : Time) (order : list (bytes * memoryReservation))
    (ledger : MemoryLedger) : MemoryLedger :=
  fold_left (reconcile_one now) order ledger.

Definition reconcileExpired (now : Time) (ledger : MemoryLedger) : MemoryLedger :=
  reconcile_along now (map_to_list (reservations ledger)) ledger.

Definition Reserve (ledger : MemoryLedger) (ctx : bool) (subject : string) (limit : Usage)
    (now : Time) (draw : option bytes) : MemoryLedger * result error Reservation :=
  IF negb ctx || bool_decide (subject = "") || negb (is_ok (Usage_Validate limit))
    RETURN (ledger, Err ErrInvalid) ;;
  match usageCost (pricing ledger) limit with
  | Err e => (ledger, Err e)
  | Ok cost =>
      let ledger := reconcileExpired now ledger in
      let day := FormatDate now in
      let subjectKey := subjectKey ledger subject in
      let dailyKey := day +:+ ":" +:+ subjectKey in
      let d := from_option id zero_acct (daily ledger !! dailyKey) in
      let ledger := with_maps ledger (<[dailyKey:=d]> (daily ledger)) (reservations ledger) in
      IF (DailyBudgetMicrousd (pricing ledger) -i cost) <?
         (committed d +i uncertain d +i reserved d)
        RETURN (ledger, Err ErrBudgetExceeded) ;;
      match draw with
      | None => (ledger, Err ErrUnavailable)
      | Some id =>
          match reservations ledger !! id with
          | Some _ => (ledger, Err ErrUnavailable)
          | None =>
              (with_maps ledger
                 (<[dailyKey := {| committed := committed d; uncertain := uncertain d;
                                   reserved := reserved d +i cost |}]> (daily ledger))
                 (<[id := {| r_day := day; r_subject := subjectKey;
                             r_profile := ProfileID (pricing ledger); r_limit := limit;
                             r_reserved := cost;
                             r_expiresAt := now + ReservationTTL (pricing ledger) |}]>
                    (reservations ledger)),
               Ok {| ID := id; Limit := limit; ReservedMicrousd := cost |})
          end
      end
  end.

Definition Settle (ledger : MemoryLedger) (ctx : bool) (reservation : Reservation)
    (usage : Usage) : MemoryLedger * result error Settlement :=
  IF negb ctx || negb (validReservation reservation) || negb (is_ok (Usage_Validate usage))
    RETURN (ledger, Err ErrInvalid) ;;
  match reservations ledger !! ID reservation with
  | None => (ledger, Err ErrReservationLost)
  | Some stored =>
      IF negb (usageWithin usage (r_limit stored)) RETURN (ledger, Err ErrUsageExceeded) ;;
      match usageCost (pricing ledger) usage with
      | Err _ => (ledger, Err ErrUsageExceeded)
      | Ok cost =>
          IF r_reserved stored <? cost RETURN (ledger, Err ErrUsageExceeded) ;;
          match daily ledger !! daily_key stored with
          | None => (ledger, Err ErrUnavailable)
          | Some d =>
              IF reserved d <? r_reserved stored RETURN (ledger, Err ErrUnavailable) ;;
              (with_maps ledger
                 (<[daily_key stored :=
                    {| committed := committed d +i cost; uncertain := uncertain d;
                       reserved := reserved d -i r_reserved stored |}]> (daily ledger))
                 (delete (ID reservation) (reservations ledger)),
               Ok {| CostMicrousd := cost |})
          end
      end
  end.

Definition MarkUncertain (ledger : MemoryLedger) (ctx : bool) (reservation : Reservation) :
    MemoryLedger * result error Z :=
  IF negb ctx || negb (validReservation reservation) RETURN (ledger, Err ErrInvalid) ;;
  match reservations ledger !! ID reservation with
  | None => (ledger, Err ErrReservationLost)
  | Some stored =>
      match daily ledger !! daily_key stored with
      | None => (ledger, Err ErrUnavailable)
      | Some d =>
          IF reserved d <? r_reserved stored RETURN (ledger, Err ErrUnavailable) ;;
          (with_maps ledger
             (<[daily_key stored :=
                {| committed := committed d; uncertain := uncertain d +i r_reserved stored;
                   reserved := reserved d -i r_reserved stored |}]> (daily ledger))
             (delete (ID reservation) (reservations ledger)),
           Ok (r_reserved stored))
      end
  end.

Definition Release (ledger : MemoryLedger) (ctx : bool) (reservation : Reservation) :
    MemoryLedger * result error unit :=
  IF negb ctx || negb (validReservation reservation) RETURN (ledger, Err ErrInvalid) ;;
  match reservations ledger !! ID reservation with
  | None => (ledger, Err ErrReservationLost)
  | Some stored =>
      match daily ledger !! daily_key stored with
      | None => (ledger, Err ErrUnavailable)
      | Some d =>
          IF reserved d <? r_reserved stored RETURN (ledger, Err ErrUnavailable) ;;
          (with_maps ledger
             (<[daily_key stored :=
                {| committed := committed d; uncertain := uncertain d;
                   reserved := reserved d -i r_reserved stored |}]> (daily ledger))
             (delete (ID reservation) (reservations ledger)),
           Ok tt)
      end
  end.

(** ** Prices *)

Lemma speech_pricing_ok p :
  is_ok (Pricing_Validate p) = true →
  1 ≤ STTMicrousdPerMillionAudioMS p ≤ MaximumRate ∧
  0 ≤ TTSMicrousdPerMillionCharacters p ≤ MaximumRate ∧
  0 ≤ TTSMicrousdPerMillionOutputAudioMS p ≤ MaximumRate ∧
  1 ≤ DailyBudgetMicrousd p ≤ MaximumBudget ∧
  MinimumSTTChunkMS ≤ STTReservationChunkAudioMS p ≤ MaximumSTTChunkMS ∧
  MinimumTTSOutputMS ≤ TTSMaxOutputAudioMS p ≤ MaximumTTSOutputMS ∧
  MinimumReservationTTL ≤ ReservationTTL p ≤ 10 * minute.
Proof.
  unfold Pricing_Validate. destruct (_ || _) eqn:Hv; cbn; [done|].
  intros _. split_bools. split_and!; lia.
Qed.

(** Usage in range: one of the two kinds, every count within the unit bound. *)
Lemma speech_usage_ok u :
  is_ok (Usage_Validate u) = true ↔
  (1 ≤ STTAudioMS u ∧ TTSCharacters u = 0 ∧ TTSOutputAudioMS u = 0 ∨
   STTAudioMS u = 0 ∧ 1 ≤ TTSCharacters u ∧ 0 ≤ TTSOutputAudioMS u) ∧
  STTAudioMS u ≤ MaximumUnitBound ∧ TTSCharacters u ≤ MaximumUnitBound ∧
  TTSOutputAudioMS u ≤ MaximumUnitBound.
Proof.
  unfold Usage_Validate.
  destruct (0 <? STTAudioMS u) eqn:?, (STTAudioMS u =? 0) eqn:?, (TTSCharacters u =? 0) eqn:?,
    (0 <? TTSCharacters u) eqn:?, (TTSOutputAudioMS u =? 0) eqn:?, (0 <=? TTSOutputAudioMS u) eqn:?,
    (MaximumUnitBound <? STTAudioMS u) eqn:?, (MaximumUnitBound <? TTSCharacters u) eqn:?,
    (MaximumUnitBound <? TTSOutputAudioMS u) eqn:?; cbn [negb andb orb is_ok]; split_bools;
    split; try done; intros; lia.
Qed.

Lemma unitCost_ceil units rate :
  0 ≤ units ≤ MaximumUnitBound → 0 ≤ rate ≤ MaximumRate →
  unitCost units rate = Ok (ceil_cost units rate) ∧ 0 ≤ ceil_cost units rate ≤ 87000000000000.
Proof.
  unfold unitCost, MaximumUnitBound, MaximumRate, MaximumBudget, million. intros Hu Hr.
  rewrite !(proj2 (Z.ltb_ge _ _)) by lia. cbn [orb].
  pose proof (ceil_cost_bounds units rate ltac:(lia) ltac:(lia)).
  assert (0 ≤ units * rate ≤ 86400000 * 1000000000000) by nia. split; [|lia].
  destruct (units =? 0) eqn:Hu0; [|destruct (rate =? 0) eqn:Hr0]; split_bools; subst; cbn [orb].
  { done. }
  { f_equal. unfold ceil_cost. by rewrite Z.mul_0_r. }
  pose proof (ceil_cost_split units rate ltac:(lia) ltac:(lia)) as Hc.
  pose proof (Z.rem_bound_pos units 1000000 ltac:(lia) ltac:(lia)).
  pose proof (Z.quot_rem' units 1000000).
  destruct (int64_price (Z.quot units 1000000) (Z.rem units 1000000) rate)
    as (Hq & Hg & Hw); [lia..|].
  cbv zeta. rewrite Hw, Hq. destruct (Z.rem units 1000000 =? 0); cbn [negb].
  - rewrite Z.add_0_r in Hc. rewrite <- Hc. by rewrite !(proj2 (Z.ltb_ge _ _)) by lia.
  - rewrite (proj2 (Z.ltb_ge _ _)) by lia. rewrite <- Hc.
    by rewrite !(proj2 (Z.ltb_ge _ _)) by lia.
Qed.

(** The reference price of speech usage. *)
Definition speech_price (p : Pricing) (u : Usage) : Z :=
  ceil_cost (STTAudioMS u) (STTMicrousdPerMillionAudioMS p)
  + ceil_cost (TTSCharacters u) (TTSMicrousdPerMillionCharacters p)
  + ceil_cost (TTSOutputAudioMS u) (TTSMicrousdPerMillionOutputAudioMS p).

Lemma usageCost_price p u :
  is_ok (Pricing_Validate p) = true → is_ok (Usage_Validate u) = true →
  usageCost p u = (if speech_price p u <? 1 then Err ErrInvalid else Ok (speech_price p u)) ∧
  0 ≤ speech_price p u ≤ MaximumBudget.
Proof.
  intros (H1 & H2 & H3 & _)%speech_pricing_ok Hu. unfold usageCost. rewrite Hu. cbn [negb].
  apply speech_usage_ok in Hu. unfold speech_price, MaximumBudget.
  destruct (unitCost_ceil (STTAudioMS u) (STTMicrousdPerMillionAudioMS p)) as [E1 B1]; [lia..|].
  destruct (unitCost_ceil (TTSCharacters u) (TTSMicrousdPerMillionCharacters p)) as [E2 B2]; [lia..|].
  destruct (unitCost_ceil (TTSOutputAudioMS u) (TTSMicrousdPerMillionOutputAudioMS p))
    as [E3 B3]; [lia..|].
  cbn [sum_costs]. rewrite E1, E2, E3. unfold MaximumBudget. no_wrap.
  rewrite !(proj2 (Z.ltb_ge (1000000000000000 - _) _)) by lia.
  rewrite Z.add_0_l. split; [done|lia].
Qed.

Lemma speech_price_mono p u l :
  is_ok (Pricing_Validate p) = true → usageWithin u l = true → speech_price p u ≤ speech_price p l.
Proof.
  intros (H1 & H2 & H3 & _)%speech_pricing_ok Hw. unfold usageWithin in Hw.
  destruct (_ || _) in Hw; [done|]. split_bools. unfold speech_price.
  pose proof (ceil_cost_mono (STTAudioMS u) (STTAudioMS l) (STTMicrousdPerMillionAudioMS p)).
  pose proof (ceil_cost_mono (TTSCharacters u) (TTSCharacters l)
    (TTSMicrousdPerMillionCharacters p)).
  pose proof (ceil_cost_mono (TTSOutputAudioMS u) (TTSOutputAudioMS l)
    (TTSMicrousdPerMillionOutputAudioMS p)). lia.
Qed.

(** Recognised audio always costs something. *)
Lemma stt_price_pos p ms :
  is_ok (Pricing_Validate p) = true → 1 ≤ ms → 1 ≤ speech_price p (STTUsage ms).
Proof.
  intros (H1 & H2 & H3 & _)%speech_pricing_ok Hms. unfold speech_price. cbn.
  pose proof (ceil_cost_pos ms (STTMicrousdPerMillionAudioMS p)).
  unfold ceil_cost at 2 3. rewrite !Z.mul_0_l. change ((0 + 999999) / 1000000) with 0. lia.
Qed.

(** ** The totals of the ledger *)

Definition hold_of (r : memoryReservation) : hold :=
  {| h_key := daily_key r; h_amount := r_reserved r; h_expires := r_expiresAt r |}.
Definition holds_of (L : MemoryLedger) : gmap bytes hold := hold_of <$> reservations L.
Definition budget (L : MemoryLedger) : Z := DailyBudgetMicrousd (pricing L).

Record Ledger_ok (L : MemoryLedger) : Prop := {
  L_pricing : is_ok (Pricing_Validate (pricing L)) = true;
  L_totals : ledger_ok (budget L) (daily L) (holds_of L);
  L_priced id r : reservations L !! id = Some r →
    is_ok (Usage_Validate (r_limit r)) = true ∧
    r_reserved r = speech_price (pricing L) (r_limit r);
}.

Lemma speech_budget_bound L : Ledger_ok L → 1 ≤ budget L ≤ MaximumBudget.
Proof. intros [Hp _ _]. apply speech_pricing_ok in Hp. unfold budget. lia. Qed.

Lemma speech_covered L id r :
  Ledger_ok L → reservations L !! id = Some r →
  ∃ d, daily L !! daily_key r = Some d ∧ holds_of L !! id = Some (hold_of r) ∧
    1 ≤ r_reserved r ≤ reserved d ∧ 0 ≤ committed d ∧ 0 ≤ uncertain d ∧
    committed d + uncertain d + reserved d ≤ MaximumBudget.
Proof.
  intros Hok Hr. pose proof (speech_budget_bound L Hok). destruct Hok as [_ Ht _].
  assert (holds_of L !! id = Some (hold_of r)) as Hh
    by (unfold holds_of; by rewrite lookup_fmap, Hr).
  destruct (ledger_ok_covered _ _ _ _ _ Ht Hh) as (d & Ha & ?). cbn in *.
  unfold acct_total in *. exists d. split_and!; done || lia.
Qed.

Definition close_ledger (L : MemoryLedger) (id : bytes) (r : memoryReservation) (c u : Z) :
    MemoryLedger :=
  with_maps L (alter (λ a, close_acct a (r_reserved r) c u) (daily_key r) (daily L))
    (delete id (reservations L)).

Lemma speech_close_ok L id r d c u :
  Ledger_ok L → reservations L !! id = Some r → daily L !! daily_key r = Some d →
  0 ≤ c → 0 ≤ u → c + u ≤ r_reserved r →
  Ledger_ok (close_ledger L id r c u) ∧
  daily (close_ledger L id r c u) = <[daily_key r:=close_acct d (r_reserved r) c u]> (daily L) ∧
  holds_of (close_ledger L id r c u) = delete id (holds_of L).
Proof.
  intros Hok Hr Hd Hc Hu Hcu. destruct (speech_covered L id r Hok Hr) as (d0&?&Hh&_).
  simplify_eq. assert (holds_of (close_ledger L id r c u) = delete id (holds_of L)) as Eh
    by (unfold holds_of; cbn; by rewrite fmap_delete).
  assert (daily (close_ledger L id r c u) =
    <[daily_key r:=close_acct d (r_reserved r) c u]> (daily L)) as Ea
    by (cbn; by rewrite (alter_insert_Some _ _ _ d Hd)).
  destruct Hok as [Hp Ht Hpr]. split; [split|done]; [done| |].
  - rewrite Ea, Eh. by apply (ledger_ok_close _ _ _ _ id (hold_of r)).
  - intros id' r' Hr'. cbn in Hr'. apply lookup_delete_Some in Hr' as [_ ?]. by apply (Hpr id').
Qed.

(** ** The operations, without wrap-around and dead branches *)

Lemma close_acct_wrap d amount c u :
  1 ≤ amount ≤ reserved d → 0 ≤ committed d → 0 ≤ uncertain d →
  committed d + uncertain d + reserved d ≤ MaximumBudget → 0 ≤ c → 0 ≤ u → c + u ≤ amount →
  {| committed := committed d +i c; uncertain := uncertain d +i u;
     reserved := reserved d -i amount |} = close_acct d amount c u.
Proof. intros. unfold MaximumBudget in *. unfold close_acct. by no_wrap. Qed.

Lemma speech_Settle_eq L ctx res usage :
  Ledger_ok L →
  Settle L ctx res usage =
    if negb ctx || negb (validReservation res) || negb (is_ok (Usage_Validate usage))
    then (L, Err ErrInvalid)
    else match reservations L !! ID res with
    | None => (L, Err ErrReservationLost)
    | Some r =>
        let cost := speech_price (pricing L) usage in
        if usageWithin usage (r_limit r) && (1 <=? cost) then
          (close_ledger L (ID res) r cost 0, Ok {| CostMicrousd := cost |})
        else (L, Err ErrUsageExceeded)
    end.
Proof.
  intros Hok. unfold Settle. destruct (_ || _) eqn:Hg; [done|]. split_bools.
  destruct (reservations L !! ID res) as [r|] eqn:Hr; [|done]. cbv zeta.
  destruct (usageWithin usage (r_limit r)) eqn:Hw; [|done]. cbn [negb andb].
  destruct (usageCost_price (pricing L) usage) as [-> Hc]; [apply Hok|done|].
  destruct (speech_price (pricing L) usage <? 1) eqn:Hone; split_bools.
  { by rewrite (proj2 (Z.leb_gt _ _)) by lia. }
  rewrite (proj2 (Z.leb_le _ _)) by lia.
  destruct (L_priced L Hok _ _ Hr) as [_ Hp].
  pose proof (speech_price_mono (pricing L) usage (r_limit r) (L_pricing L Hok) Hw).
  rewrite (proj2 (Z.ltb_ge _ _)) by lia.
  destruct (speech_covered L _ r Hok Hr) as (d&Hd&_&?&?&?&?). rewrite Hd.
  rewrite (proj2 (Z.ltb_ge _ _)) by lia. unfold close_ledger.
  rewrite (alter_insert_Some _ _ _ d Hd), <- close_acct_wrap by lia.
  by rewrite Z.add_0_r, (wrap_i64_id (uncertain d))
    by (unfold in_i64, min_int64, max_int64, MaximumBudget in *; lia).
Qed.

Lemma speech_MarkUncertain_eq L ctx res :
  Ledger_ok L →
  MarkUncertain L ctx res =
    if negb ctx || negb (validReservation res) then (L, Err ErrInvalid)
    else match reservations L !! ID res with
    | None => (L, Err ErrReservationLost)
    | Some r => (close_ledger L (ID res) r 0 (r_reserved r), Ok (r_reserved r))
    end.
Proof.
  intros Hok. unfold MarkUncertain. destruct (_ || _) eqn:Hg; [done|].
  destruct (reservations L !! ID res) as [r|] eqn:Hr; [|done].
  destruct (speech_covered L _ r Hok Hr) as (d&Hd&_&?&?&?&?). rewrite Hd.
  rewrite (proj2 (Z.ltb_ge _ _)) by lia. unfold close_ledger.
  rewrite (alter_insert_Some _ _ _ d Hd), <- close_acct_wrap by lia.
  by rewrite Z.add_0_r, (wrap_i64_id (committed d))
    by (unfold in_i64, min_int64, max_int64, MaximumBudget in *; lia).
Qed.

Lemma speech_Release_eq L ctx res :
  Ledger_ok L →
  Release L ctx res =
    if negb ctx || negb (validReservation res) then (L, Err ErrInvalid)
    else match reservations L !! ID res with
    | None => (L, Err ErrReservationLost)
    | Some r => (close_ledger L (ID res) r 0 0, Ok tt)
    end.
Proof.
  intros Hok. unfold Release. destruct (_ || _) eqn:Hg; [done|].
  destruct (reservations L !! ID res) as [r|] eqn:Hr; [|done].
  destruct (speech_covered L _ r Hok Hr) as (d&Hd&_&?&?&?&?). rewrite Hd.
  rewrite (proj2 (Z.ltb_ge _ _)) by lia. unfold close_ledger.
  rewrite (alter_insert_Some _ _ _ d Hd), <- close_acct_wrap by lia.
  by rewrite !Z.add_0_r, (wrap_i64_id (committed d)), (wrap_i64_id (uncertain d))
    by (unfold in_i64, min_int64, max_int64, MaximumBudget in *; lia).
Qed.

(** ** Expiry *)

Lemma speech_reconcile_one now L id r :
  Ledger_ok L → reservations L !! id = Some r →
  reconcile_one now L (id, r) =
    if After (r_expiresAt r) now then L else close_ledger L id r 0 (r_reserved r).
Proof.
  intros Hok Hr. unfold reconcile_one. destruct (After (r_expiresAt r) now); [done|].
  destruct (speech_covered L id r Hok Hr) as (d&Hd&_&?&?&?&?). rewrite Hd.
  rewrite (proj2 (Z.leb_le _ _)) by lia. unfold close_ledger.
  rewrite (alter_insert_Some _ _ _ d Hd), <- close_acct_wrap by lia.
  by rewrite Z.add_0_r, (wrap_i64_id (committed d))
    by (unfold in_i64, min_int64, max_int64, MaximumBudget in *; lia).
Qed.

Definition entries_of (order : list (bytes * memoryReservation)) : list (bytes * hold) :=
  prod_map id hold_of <$> order.

(** The loop of [reconcileExpired] is [expire_along] on the totals. *)
Lemma speech_reconcile_view now order L :
  Ledger_ok L → pending (entries_of order) (holds_of L) →
  (∀ id r, (id, r) ∈ order → reservations L !! id = Some r) →
  let L' := reconcile_along now order L in
  Ledger_ok L' ∧ pricing L' = pricing L ∧ digestKey L' = digestKey L ∧
  (∀ id r, reservations L' !! id = Some r → reservations L !! id = Some r) ∧
  (daily L', holds_of L') = expire_along now (daily L, holds_of L) (entries_of order).
Proof.
  revert L. induction order as [|[id r] order IH]; intros L Hok Hpend Hin; [done|].
  cbn in Hpend. apply pending_next in Hpend as (_ & Hpend & Hpend').
  assert (reservations L !! id = Some r) as Hr by (apply Hin; by left).
  unfold reconcile_along in *. cbn [fold_left]. rewrite (speech_reconcile_one now L id r Hok Hr).
  cbn [entries_of fmap list_fmap expire_along fold_left expire_one prod_map fst snd h_expires
    hold_of]. destruct (After (r_expiresAt r) now) eqn:Hafter.
  { apply (IH L Hok Hpend). intros. apply Hin. by right. }
  destruct (speech_covered L id r Hok Hr) as (d&Hd&Hh&?&?&?&?).
  destruct (speech_close_ok L id r d 0 (r_reserved r)) as (Hok' & Ea & Eh); try done; try lia.
  destruct (IH (close_ledger L id r 0 (r_reserved r)) Hok') as (?&?&?&Hsub&Hview).
  - by rewrite Eh.
  - intros id' r' Hel. cbn. destruct (decide (id' = id)) as [ -> |Hne].
    + exfalso. destruct Hpend' as [_ Hin']. specialize (Hin' id (hold_of r')).
      rewrite lookup_delete_eq in Hin'. discriminate Hin'.
      apply list_elem_of_fmap. by exists (id, r').
    + rewrite lookup_delete_ne by done. apply Hin. by right.
  - split_and!; try done.
    + intros id' r' Hr'. apply Hsub in Hr'. cbn in Hr'. by apply lookup_delete_Some in Hr' as [_ ?].
    + rewrite Hview, Eh. done.
Qed.

Definition spec_of (L : MemoryLedger) : spec_state := abstract (daily L) (holds_of L).

Lemma speech_reconcile_run now L :
  Ledger_ok L →
  Ledger_ok (reconcileExpired now L) ∧ pricing (reconcileExpired now L) = pricing L ∧
  (∀ id r, reservations (reconcileExpired now L) !! id = Some r → reservations L !! id = Some r) ∧
  ∃ es, Forall UsageBudget.is_forfeit es ∧
    spec_run (budget L) (spec_of L) es (spec_of (reconcileExpired now L)).
Proof.
  intros Hok.
  assert (pending (entries_of (map_to_list (reservations L))) (holds_of L)) as Hpend.
  { apply pending_all. unfold entries_of, holds_of. by rewrite map_to_list_fmap. }
  destruct (speech_reconcile_view now (map_to_list (reservations L)) L Hok Hpend)
    as (Hok1 & Hp & _ & Hsub & Hview); [intros id r; by rewrite elem_of_map_to_list|].
  fold (reconcileExpired now L) in *. split_and!; [done..|].
  exists (expired_events now (entries_of (map_to_list (reservations L)))).
  split; [apply UsageBudget.expired_events_forfeit|].
  destruct (expire_along_sim (budget L) now (entries_of (map_to_list (reservations L)))
    (daily L) (holds_of L)) as [_ Hrun]; [apply Hok|done|].
  rewrite <- Hview in Hrun. exact Hrun.
Qed.

(** ** Booking *)

Definition open_day (L : MemoryLedger) (k : string) : MemoryLedger :=
  with_maps L (<[k:=from_option id zero_acct (daily L !! k)]> (daily L)) (reservations L).

Lemma speech_open_day L k :
  Ledger_ok L →
  Ledger_ok (open_day L k) ∧ spec_equiv (spec_of L) (spec_of (open_day L k)) ∧
  ∃ d, daily (open_day L k) !! k = Some d ∧ d = from_option id zero_acct (daily L !! k) ∧
    0 ≤ committed d ∧ 0 ≤ uncertain d ∧ 0 ≤ reserved d ∧ acct_total d ≤ budget L.
Proof.
  intros Hok. pose proof (speech_budget_bound L Hok).
  assert (Ledger_ok (open_day L k) ∧ spec_equiv (spec_of L) (spec_of (open_day L k))) as [Hok' Heq].
  { unfold open_day. destruct (daily L !! k) as [d|] eqn:Hd; cbn.
    - rewrite insert_id by done. by destruct L.
    - destruct Hok as [Hp Ht Hpr]. split; [split|]; try done.
      + apply ledger_ok_open; [unfold budget in *; cbn; lia|done|done].
      + symmetry. by apply abstract_open. }
  split_and!; [done|done|]. eexists. split; [cbn; apply lookup_insert_eq|]. split; [done|].
  destruct Hok' as [_ [Ha Hpos _] _].
  destruct (Ha k (from_option id zero_acct (daily L !! k))) as (?&?&Hr&?);
    [cbn; apply lookup_insert_eq|].
  pose proof (held_nonneg k _ Hpos). split_and!; try lia. done.
Qed.

Definition book (L : MemoryLedger) (id : bytes) (r : memoryReservation) : MemoryLedger :=
  with_maps L (alter (λ a, reserve_acct a (r_reserved r)) (daily_key r) (daily L))
    (<[id:=r]> (reservations L)).

Lemma speech_book_step L id r d :
  Ledger_ok L → reservations L !! id = None → daily L !! daily_key r = Some d →
  is_ok (Usage_Validate (r_limit r)) = true → 1 ≤ r_reserved r →
  r_reserved r = speech_price (pricing L) (r_limit r) → acct_total d + r_reserved r ≤ budget L →
  Ledger_ok (book L id r) ∧
  spec_step (budget L) (spec_of L) (Reserved id (hold_of r)) (spec_of (book L id r)).
Proof.
  intros Hok Hid Hd Hv H1 Hr Hb.
  assert (holds_of L !! id = None) as Hh by (unfold holds_of; by rewrite lookup_fmap, Hid).
  assert (daily (book L id r) =
    <[h_key (hold_of r):=reserve_acct d (h_amount (hold_of r))]> (daily L)) as Ea
    by (cbn; by rewrite (alter_insert_Some _ _ _ d Hd)).
  assert (holds_of (book L id r) = <[id:=hold_of r]> (holds_of L)) as Eh
    by (unfold holds_of; cbn; by rewrite fmap_insert).
  destruct Hok as [Hp Ht Hpr]. split; [split|].
  - done.
  - rewrite Ea, Eh. change (budget (book L id r)) with (budget L).
    apply ledger_ok_reserve; cbn; done.
  - intros id' r' Hr'. cbn in Hr'. apply lookup_insert_Some in Hr' as [ [_ <-] |[_ ?] ];
      [done|by apply (Hpr id')].
  - unfold spec_of. rewrite Ea, Eh. apply sim_reserve; cbn; done.
Qed.

Lemma speech_Reserve_eq L ctx subject limit now draw :
  Ledger_ok L →
  let guard := negb ctx || bool_decide (subject = "") || negb (is_ok (Usage_Validate limit)) in
  let cost := speech_price (pricing L) limit in
  let L1 := reconcileExpired now L in
  let k := FormatDate now +:+ ":" +:+ subjectKey L1 subject in
  let L2 := open_day L1 k in
  let r := {| r_day := FormatDate now; r_subject := subjectKey L1 subject;
              r_profile := ProfileID (pricing L1); r_limit := limit;
              r_reserved := cost; r_expiresAt := now + ReservationTTL (pricing L1) |} in
  Reserve L ctx subject limit now draw =
    if guard then (L, Err ErrInvalid) else if cost <? 1 then (L, Err ErrInvalid)
    else if budget L <? acct_total (from_option id zero_acct (daily L1 !! k)) + cost
    then (L2, Err ErrBudgetExceeded)
    else match draw with
    | None => (L2, Err ErrUnavailable)
    | Some id =>
        match reservations L1 !! id with
        | Some _ => (L2, Err ErrUnavailable)
        | None => (book L2 id r, Ok {| ID := id; Limit := limit; ReservedMicrousd := cost |})
        end
    end.
Proof.
  intros Hok. cbv zeta. unfold Reserve. destruct (_ || _) eqn:Hg; [done|]. split_bools.
  destruct (usageCost_price (pricing L) limit) as [-> Hc]; [apply Hok|done|].
  destruct (speech_price (pricing L) limit <? 1) eqn:Hone; [done|]. split_bools. cbv zeta.
  destruct (speech_reconcile_run now L Hok) as (Hok1 & Hp & _ & _).
  set (L1 := reconcileExpired now L) in *.
  set (k := FormatDate now +:+ ":" +:+ subjectKey L1 subject).
  destruct (speech_open_day L1 k Hok1) as (_ & _ & d & Hd & Ed & ?&?&?&?). rewrite <- !Ed.
  cbn [pricing with_maps reservations]. rewrite Hp.
  pose proof (speech_budget_bound L Hok). unfold budget, MaximumBudget, acct_total in *.
  rewrite Hp in *. no_wrap.
  replace (DailyBudgetMicrousd (pricing L) <? _ + _) with
    (DailyBudgetMicrousd (pricing L) - speech_price (pricing L) limit <?
     committed d + uncertain d + reserved d)
    by (apply eq_true_iff_eq; rewrite !Z.ltb_lt; lia).
  destruct (_ <? _); [by rewrite Ed|]. destruct draw as [id|]; [|by rewrite Ed].
  destruct (reservations L1 !! id); [by rewrite Ed|].
  f_equal. unfold book. rewrite (alter_insert_Some _ _ _ d Hd). unfold open_day, daily_key.
  cbn. rewrite Ed. done.
Qed.

(** ** The [Ledger] interface

    What surrounds a call: whether the context is live, the clock and the random
    reader. *)

Record env : Type := {
  e_ctx : bool;
  e_now : Time;
  e_draw : option bytes;
}.

Class Ledger (Σ : Type) : Type := {
  l_Reserve : Σ → env → string → Usage → Σ * result error Reservation;
  l_Settle : Σ → env → Reservation → Usage → Σ * result error Settlement;
  l_MarkUncertain : Σ → env → Reservation → Σ * result error Z;
  l_Release : Σ → env → Reservation → Σ * result error unit;
}.

(** What an implementation promises its clients. [l_open] are the open
    reservations with their limits and amounts. *)
Class LedgerLaws (Σ : Type) `{Ledger Σ} : Type := {
  l_inv : Σ → Prop;
  l_open : Σ → gmap bytes (Usage * Z);
  l_reserve_law s e subject u s' r :
    l_inv s → l_Reserve s e subject u = (s', r) →
    l_inv s' ∧ ∃ kept, kept ⊆ l_open s ∧
      match r with
      | Ok res => Limit res = u ∧ 1 ≤ ReservedMicrousd res ∧ kept !! ID res = None ∧
          l_open s' = <[ID res:=(u, ReservedMicrousd res)]> kept
      | Err _ => l_open s' = kept
      end;
  l_settle_law s e res u s' r :
    l_inv s → l_Settle s e res u = (s', r) →
    l_inv s' ∧
      match r with
      | Ok st => ∃ limit amount, l_open s !! ID res = Some (limit, amount) ∧
          usageWithin u limit = true ∧ 1 ≤ CostMicrousd st ≤ amount ∧
          l_open s' = delete (ID res) (l_open s)
      | Err _ => l_open s' = l_open s
      end;
  l_uncertain_law s e res s' r :
    l_inv s → l_MarkUncertain s e res = (s', r) →
    l_inv s' ∧
      match r with
      | Ok amount => ∃ limit, l_open s !! ID res = Some (limit, amount) ∧
          l_open s' = delete (ID res) (l_open s)
      | Err _ => l_open s' = l_open s
      end;
  l_release_law s e res s' r :
    l_inv s → l_Release s e res = (s', r) →
    l_inv s' ∧
      match r with
      | Ok _ => l_open s' = delete (ID res) (l_open s)
      | Err _ => l_open s' = l_open s
      end;
}.

#[global] Instance memory_ledger : Ledger MemoryLedger := {
  l_Reserve L e subject u := Reserve L (e_ctx e) subject u (e_now e) (e_draw e);
  l_Settle L e res u := Settle L (e_ctx e) res u;
  l_MarkUncertain L e res := MarkUncertain L (e_ctx e) res;
  l_Release L e res := Release L (e_ctx e) res;
}.

Definition open_of (L : MemoryLedger) : gmap bytes (Usage * Z) :=
  (λ r, (r_limit r, r_reserved r)) <$> reservations L.

Lemma open_of_lookup L id r :
  reservations L !! id = Some r → open_of L !! id = Some (r_limit r, r_reserved r).
Proof. intros Hr. unfold open_of. by rewrite lookup_fmap, Hr. Qed.

Lemma open_of_close L id r c u :
  open_of (close_ledger L id r c u) = delete id (open_of L).
Proof. unfold open_of. cbn. by rewrite fmap_delete. Qed.

Lemma open_of_subseteq L L' :
  (∀ id r, reservations L' !! id = Some r → reservations L !! id = Some r) →
  open_of L' ⊆ open_of L.
Proof. intros Hsub. apply map_fmap_mono, map_subseteq_spec. eauto. Qed.

(** A [Reserve], as the interface and as the abstract budget see it. *)
Definition reserve_post (L : MemoryLedger) (u : Usage) (L' : MemoryLedger)
    (r : result error Reservation) : Prop :=
  Ledger_ok L' ∧ pricing L' = pricing L ∧
  (∃ kept, kept ⊆ open_of L ∧
    match r with
    | Ok res => Limit res = u ∧ 1 ≤ ReservedMicrousd res ∧ kept !! ID res = None ∧
        open_of L' = <[ID res:=(u, ReservedMicrousd res)]> kept
    | Err _ => open_of L' = kept
    end) ∧
  ∃ es, spec_run (budget L) (spec_of L) es (spec_of L') ∧
    match r with
    | Ok res => ∃ pre h, es = pre ++ [Reserved (ID res) h] ∧
        h_amount h = ReservedMicrousd res ∧ Forall UsageBudget.is_forfeit pre
    | Err _ => Forall UsageBudget.is_forfeit es
    end.

Lemma speech_reserve_spec L e subject u L' r :
  Ledger_ok L → l_Reserve L e subject u = (L', r) → reserve_post L u L' r.
Proof.
  intros Hok. cbn [l_Reserve memory_ledger]. rewrite speech_Reserve_eq by done. cbv zeta.
  assert (∀ x : error, (L, Err x) = (L', r) → reserve_post L u L' r) as Hnop.
  { intros x [= <- <-]. unfold reserve_post. split_and!; [done|done|by eexists|].
    exists []. split; [by constructor|constructor]. }
  destruct (_ || _) eqn:Hg; [apply Hnop|]. destruct (_ <? 1) eqn:Hone; [apply Hnop|]. clear Hnop.
  unfold reserve_post. split_bools.
  destruct (speech_reconcile_run (e_now e) L Hok) as (Hok1 & Hp1 & Hsub & es & Hes & Hrun).
  set (L1 := reconcileExpired (e_now e) L) in *.
  set (k := FormatDate (e_now e) +:+ ":" +:+ subjectKey L1 subject).
  destruct (speech_open_day L1 k Hok1) as (Hok2 & Heq & d & Hd & Ed & _).
  rewrite Heq in Hrun. apply open_of_subseteq in Hsub.
  destruct (_ <? _) eqn:Hb; [intros [= <- <-]; split_and!; [done|done|by eexists|by exists es]|].
  destruct (e_draw e) as [id|];
    [|intros [= <- <-]; split_and!; [done|done|by eexists|by exists es]].
  destruct (reservations L1 !! id) eqn:Hid;
    [intros [= <- <-]; split_and!; [done|done|by eexists|by exists es]|].
  intros [= <- <-]. split_bools. rewrite <- Ed in Hb.
  match goal with |- context [book _ id ?r] => set (stored := r) end.
  destruct (speech_book_step (open_day L1 k) id stored d) as [Hok' Hstep]; try done; cbn; try lia.
  { by rewrite Hp1. }
  { unfold budget in *. cbn. rewrite Hp1. lia. }
  split_and!; [done|done| |].
  - exists (open_of L1). split; [done|]. split_and!; [done|lia| |].
    + unfold open_of. by rewrite lookup_fmap, Hid.
    + unfold open_of. cbn. by rewrite fmap_insert.
  - exists (es ++ [Reserved id (hold_of stored)]). split; [|by exists es, (hold_of stored)].
    eapply spec_run_app; [done|]. apply spec_run_one. unfold budget in *. cbn in Hstep.
    by rewrite Hp1 in Hstep.
Qed.

(** The events of the other operations, when they succeed. *)
Definition close_event (L L' : MemoryLedger) (es : list event) : Prop :=
  Ledger_ok L' ∧ pricing L' = pricing L ∧ spec_run (budget L) (spec_of L) es (spec_of L').

Lemma close_event_nop L : Ledger_ok L → close_event L L [].
Proof. intros. split_and!; [done..|by constructor]. Qed.

Lemma speech_settle_spec L e res u L' r :
  Ledger_ok L → l_Settle L e res u = (L', r) →
  match r with
  | Ok st => close_event L L' [Settled (ID res) (CostMicrousd st)] ∧
      ∃ limit amount, open_of L !! ID res = Some (limit, amount) ∧ usageWithin u limit = true ∧
        1 ≤ CostMicrousd st ≤ amount ∧ open_of L' = delete (ID res) (open_of L)
  | Err x => L' = L ∧ x ≠ ErrUnavailable
  end.
Proof.
  intros Hok. cbn [l_Settle memory_ledger]. rewrite speech_Settle_eq by done.
  destruct (_ || _) eqn:Hg; [by intros [= <- <-]|]. split_bools.
  destruct (reservations L !! ID res) as [st|] eqn:Hr; [|by intros [= <- <-]]. cbv zeta.
  destruct (_ && _) eqn:Hw; [|by intros [= <- <-]]. intros [= <- <-]. split_bools. cbn [CostMicrousd].
  destruct (speech_covered L _ st Hok Hr) as (d&Hd&Hh&?).
  pose proof (speech_price_mono (pricing L) u (r_limit st) (L_pricing L Hok) ltac:(done)).
  destruct (L_priced L Hok _ _ Hr) as [_ Hp].
  destruct (speech_close_ok L (ID res) st d (speech_price (pricing L) u) 0)
    as (Hok' & Ea & Eh); try done; try lia.
  split; [split_and!; [done|done|]|].
  - apply spec_run_one. unfold spec_of. rewrite Ea, Eh.
    apply (sim_settle _ _ _ d _ (hold_of st)); cbn; done || lia.
  - exists (r_limit st), (r_reserved st).
    split_and!; [by apply open_of_lookup|done|lia|lia|apply open_of_close].
Qed.

Lemma speech_uncertain_spec L e res L' r :
  Ledger_ok L → l_MarkUncertain L e res = (L', r) →
  match r with
  | Ok amount => close_event L L' [Forfeited (ID res)] ∧
      ∃ limit, open_of L !! ID res = Some (limit, amount) ∧
        open_of L' = delete (ID res) (open_of L)
  | Err x => L' = L ∧ x ≠ ErrUnavailable
  end.
Proof.
  intros Hok. cbn [l_MarkUncertain memory_ledger]. rewrite speech_MarkUncertain_eq by done.
  destruct (_ || _) eqn:Hg; [by intros [= <- <-]|].
  destruct (reservations L !! ID res) as [st|] eqn:Hr; [|by intros [= <- <-]]. intros [= <- <-].
  destruct (speech_covered L _ st Hok Hr) as (d&Hd&Hh&?).
  destruct (speech_close_ok L (ID res) st d 0 (r_reserved st))
    as (Hok' & Ea & Eh); try done; try lia.
  split; [split_and!; [done|done|]|].
  - apply spec_run_one. unfold spec_of. rewrite Ea, Eh.
    by apply (sim_forfeit _ _ _ d _ (hold_of st)).
  - exists (r_limit st). split; [by apply open_of_lookup|apply open_of_close].
Qed.

Lemma speech_release_spec L e res L' r :
  Ledger_ok L → l_Release L e res = (L', r) →
  match r with
  | Ok _ => close_event L L' [Released (ID res)] ∧ open_of L' = delete (ID res) (open_of L)
  | Err x => L' = L ∧ x ≠ ErrUnavailable
  end.
Proof.
  intros Hok. cbn [l_Release memory_ledger]. rewrite speech_Release_eq by done.
  destruct (_ || _) eqn:Hg; [by intros [= <- <-]|].
  destruct (reservations L !! ID res) as [st|] eqn:Hr; [|by intros [= <- <-]]. intros [= <- <-].
  destruct (speech_covered L _ st Hok Hr) as (d&Hd&Hh&?).
  destruct (speech_close_ok L (ID res) st d 0 0) as (Hok' & Ea & Eh); try done; try lia.
  split; [split_and!; [done|done|]|apply open_of_close].
  apply spec_run_one. unfold spec_of. rewrite Ea, Eh.
  by apply (sim_release _ _ _ d _ (hold_of st)).
Qed.

(** The memory ledger keeps the promises of the interface. *)
#[global] Program Instance memory_ledger_laws : LedgerLaws MemoryLedger := {
  l_inv := Ledger_ok;
  l_open := open_of;
}.
Next Obligation.
  intros s e subject u s' r Hok Hr. by destruct (speech_reserve_spec s e subject u s' r Hok Hr)
    as (? & _ & ? & _).
Qed.
Next Obligation.
  intros s e res u s' r Hok Hr. pose proof (speech_settle_spec s e res u s' r Hok Hr) as Hs.
  destruct r; [by destruct Hs as [ [? _] ?]|by destruct Hs as [-> _]].
Qed.
Next Obligation.
  intros s e res s' r Hok Hr. pose proof (speech_uncertain_spec s e res s' r Hok Hr) as Hs.
  destruct r; [by destruct Hs as [ [? _] ?]|by destruct Hs as [-> _]].
Qed.
Next Obligation.
  intros s e res s' r Hok Hr. pose proof (speech_release_spec s e res s' r Hok Hr) as Hs.
  destruct r; [by destruct Hs as [ [? _] ?]|by destruct Hs as [-> _]].
Qed.

(** ** Histories *)

Inductive op : Type :=
| OpReserve (e : env) (subject : string) (limit : Usage)
| OpSettle (e : env) (reservation : Reservation) (usage : Usage)
| OpMarkUncertain (e : env) (reservation : Reservation)
| OpRelease (e : env) (reservation : Reservation).

Definition exec (L : MemoryLedger) (o : op) : MemoryLedger :=
  match o with
  | OpReserve e subject limit => (l_Reserve L e subject limit).1
  | OpSettle e res usage => (l_Settle L e res usage).1
  | OpMarkUncertain e res => (l_MarkUncertain L e res).1
  | OpRelease e res => (l_Release L e res).1
  end.

Definition run (L : MemoryLedger) (ops : list op) : MemoryLedger := fold_left exec ops L.

Lemma speech_exec_sim L o :
  Ledger_ok L → Ledger_ok (exec L o) ∧ pricing (exec L o) = pricing L ∧
  ∃ es, spec_run (budget L) (spec_of L) es (spec_of (exec L o)).
Proof.
  intros Hok. destruct o as [e subject u|e res u|e res|e res]; cbn [exec].
  - destruct (l_Reserve _ _ _ _) as [L' r] eqn:Hr.
    destruct (speech_reserve_spec _ _ _ _ _ _ Hok Hr) as (?&?&_&es&?&_). cbn. eauto.
  - destruct (l_Settle _ _ _ _) as [L' r] eqn:Hr. apply speech_settle_spec in Hr; [|done].
    destruct r; [destruct Hr as [ (?&?&?) _]; cbn; eauto|destruct Hr as [-> _]].
    pose proof (close_event_nop L Hok) as (?&?&?). cbn. eauto.
  - destruct (l_MarkUncertain _ _ _) as [L' r] eqn:Hr. apply speech_uncertain_spec in Hr; [|done].
    destruct r; [destruct Hr as [ (?&?&?) _]; cbn; eauto|destruct Hr as [-> _]].
    pose proof (close_event_nop L Hok) as (?&?&?). cbn. eauto.
  - destruct (l_Release _ _ _) as [L' r] eqn:Hr. apply speech_release_spec in Hr; [|done].
    destruct r; [destruct Hr as [ (?&?&?) _]; cbn; eauto|destruct Hr as [-> _]].
    pose proof (close_event_nop L Hok) as (?&?&?). cbn. eauto.
Qed.

Lemma speech_new_ok p key L :
  NewMemoryLedger p key = Ok L →
  Ledger_ok L ∧ pricing L = p ∧ daily L = ∅ ∧ reservations L = ∅.
Proof.
  unfold NewMemoryLedger. case_match; [done|]. intros [= <-]. split_bools.
  split; [|done]. split; [done| |by intros ? ?]. apply ledger_ok_empty.
Qed.

Lemma speech_run_sim L ops :
  Ledger_ok L → Ledger_ok (run L ops) ∧ pricing (run L ops) = pricing L ∧
  ∃ es, spec_run (budget L) (spec_of L) es (spec_of (run L ops)).
Proof.
  unfold run. revert L. induction ops as [|o ops IH]; intros L Hok.
  { pose proof (close_event_nop L Hok) as (?&?&?). cbn. eauto. }
  cbn [fold_left]. destruct (speech_exec_sim L o Hok) as (Hok' & Hp & es & Hrun).
  destruct (IH _ Hok') as (Hok'' & Hp' & es' & Hrun'). unfold budget in *. rewrite Hp in *.
  split_and!; [done|done|]. exists (es ++ es'). by eapply spec_run_app.
Qed.

(** Whether an operation closed reservation [id], and whether it can book it. *)
Definition closes (L : MemoryLedger) (o : op) (id : bytes) : bool :=
  match o with
  | OpReserve _ _ _ => false
  | OpSettle e res u => bool_decide (ID res = id) && is_ok (l_Settle L e res u).2
  | OpMarkUncertain e res => bool_decide (ID res = id) && is_ok (l_MarkUncertain L e res).2
  | OpRelease e res => bool_decide (ID res = id) && is_ok (l_Release L e res).2
  end.

Definition draws (o : op) (id : bytes) : bool :=
  match o with OpReserve e _ _ => bool_decide (e_draw e = Some id) | _ => false end.

Lemma speech_reserve_open L e subject u id :
  Ledger_ok L → open_of L !! id = None → e_draw e ≠ Some id →
  open_of (l_Reserve L e subject u).1 !! id = None.
Proof.
  intros Hok Hid Hne. destruct (l_Reserve L e subject u) as [L' r] eqn:Hr. cbn.
  pose proof Hr as Hdraw. cbn in Hdraw. rewrite speech_Reserve_eq in Hdraw by done.
  destruct (speech_reserve_spec _ _ _ _ _ _ Hok Hr) as (_&_&(kept & Hsub & Hm)&_).
  assert (kept !! id = None) as Hk by (by eapply lookup_weaken_None).
  destruct r as [res|x]; [|by rewrite Hm]. destruct Hm as (_&_&_& ->).
  rewrite lookup_insert_ne; [done|]. intros <-. revert Hdraw.
  repeat case_match; try done. by intros [= <- <-].
Qed.

Lemma closed_stays_closed L ops id :
  Ledger_ok L → open_of L !! id = None → Forall (λ o, draws o id = false) ops →
  open_of (run L ops) !! id = None.
Proof.
  unfold run. intros Hok Hid Hd. revert L Hok Hid.
  induction Hd as [|o ops Ho _ IH]; intros L Hok Hid; [done|]. cbn [fold_left].
  apply IH; [by apply speech_exec_sim|].
  destruct o as [e subject u|e res u|e res|e res]; cbn [exec draws] in *.
  - split_bools. by apply speech_reserve_open.
  - destruct (l_Settle _ _ _ _) as [L' r] eqn:Hr. apply speech_settle_spec in Hr; [|done]. cbn.
    destruct r; [destruct Hr as (_&?&?&_&_&_& ->); by rewrite lookup_delete_None; right
                |by destruct Hr as [-> _]].
  - destruct (l_MarkUncertain _ _ _) as [L' r] eqn:Hr. apply speech_uncertain_spec in Hr; [|done].
    cbn. destruct r; [destruct Hr as (_&?&_& ->); by rewrite lookup_delete_None; right
                |by destruct Hr as [-> _]].
  - destruct (l_Release _ _ _) as [L' r] eqn:Hr. apply speech_release_spec in Hr; [|done]. cbn.
    destruct r; [destruct Hr as (_& ->); by rewrite lookup_delete_None; right
                |by destruct Hr as [-> _]].
Qed.

Lemma closes_open L o id :
  Ledger_ok L → closes L o id = true →
  is_Some (open_of L !! id) ∧ open_of (exec L o) !! id = None.
Proof.
  intros Hok Hc. destruct o as [e subject u|e res u|e res|e res]; cbn [closes exec] in *; [done|..];
    split_bools; subst.
  - destruct (l_Settle _ _ _ _) as [L' [st|x] ] eqn:Hr; [|done]. apply speech_settle_spec in Hr; [|done].
    destruct Hr as (_&?&?&?&_&_& Ho). cbn. rewrite Ho, lookup_delete_eq. eauto.
  - destruct (l_MarkUncertain _ _ _) as [L' [st|x] ] eqn:Hr; [|done].
    apply speech_uncertain_spec in Hr; [|done]. destruct Hr as (_&?&?& Ho). cbn.
    rewrite Ho, lookup_delete_eq. eauto.
  - destruct (l_Release _ _ _) as [L' [st|x] ] eqn:Hr; [|done].
    pose proof Hr as Hcopy. apply speech_release_spec in Hr; [|done]. destruct Hr as (_& Ho). cbn.
    rewrite Ho, lookup_delete_eq. split; [|done]. cbn in Hcopy.
    rewrite speech_Release_eq in Hcopy by done. repeat case_match; try done.
    eexists. by apply open_of_lookup.
Qed.

(** ** Properties *)

(** C24: every history of the speech ledger is a run of the abstract daily budget
    from its initial state; in particular, for every day and subject, committed,
    uncertain and reserved micro-dollars together never exceed the budget, and
    int64 arithmetic never wraps. *)
Theorem speech_ledger_refines_budget p key L ops :
  NewMemoryLedger p key = Ok L →
  (∃ es, spec_run (DailyBudgetMicrousd p) spec_init es (spec_of (run L ops))) ∧
  ∀ k d, daily (run L ops) !! k = Some d →
    0 ≤ committed d ∧ 0 ≤ uncertain d ∧ 0 ≤ reserved d ∧
    committed d + uncertain d + reserved d ≤ DailyBudgetMicrousd p.
Proof.
  intros (Hok & <- & Hd & Hr)%speech_new_ok.
  destruct (speech_run_sim L ops Hok) as (Hok' & Hp & es & Hrun). split.
  - exists es. assert (spec_equiv spec_init (spec_of L)) as ->; [|done].
    unfold spec_of, holds_of. rewrite Hd, Hr. by split.
  - intros k d Hk. destruct Hok' as [_ [Ha Hpos _] _]. destruct (Ha k d Hk) as (?&?&Hr'&?).
    pose proof (held_nonneg k _ Hpos). unfold acct_total, budget in *. rewrite Hp in *. lia.
Qed.

(** A reservation is closed at most once: after a [Settle], [MarkUncertain] or
    [Release] of it succeeded, no later one succeeds, whatever happens in between,
    unless the random reader draws the same identifier for a new reservation. *)
Theorem reservation_closed_once p key L ops o ops' o' id :
  NewMemoryLedger p key = Ok L → closes (run L ops) o id = true →
  Forall (λ o, draws o id = false) ops' →
  closes (run L (ops ++ o :: ops')) o' id = false.
Proof.
  intros (Hok & _)%speech_new_ok Hc Hd. destruct (speech_run_sim L ops Hok) as (Hok' & _).
  destruct (closes_open _ _ _ Hok' Hc) as [_ Hnone].
  destruct (speech_exec_sim (run L ops) o Hok') as (Hok1 & _).
  assert (run L (ops ++ o :: ops') = run (exec (run L ops) o) ops') as ->
    by (unfold run; by rewrite fold_left_app).
  destruct (speech_run_sim _ ops' Hok1) as (Hok2 & _).
  pose proof (closed_stays_closed _ ops' id Hok1 Hnone Hd) as Hn.
  destruct (closes _ o' id) eqn:Hc'; [|done].
  destruct (closes_open _ _ _ Hok2 Hc') as [ [? ?] _]. congruence.
Qed.

(** The price of speech usage is the sum of the three rates, each rounded up,
    and is computed without overflow for all valid pricing and usage; the only
    valid usage refused is the one that would cost nothing. In every reachable
    ledger a [Settle] within the limits of an open reservation that costs at
    least one micro-dollar succeeds at that price, which never exceeds what was
    reserved. *)
Theorem speech_Settle_exact p key L ops e res usage :
  NewMemoryLedger p key = Ok L → e_ctx e = true → validReservation res = true →
  let L := run L ops in
  (Settle L true res usage).2 ≠ Err ErrUnavailable ∧
  ∀ r, reservations L !! ID res = Some r → usageWithin usage (r_limit r) = true →
    r_reserved r = speech_price p (r_limit r) ∧
    (1 ≤ speech_price p usage →
     (l_Settle L e res usage).2 = Ok {| CostMicrousd := speech_price p usage |} ∧
     speech_price p usage ≤ r_reserved r ∧
     reservations (l_Settle L e res usage).1 = delete (ID res) (reservations L)).
Proof.
  intros (Hok0 & <- & _)%speech_new_ok Hctx Hv. cbv zeta.
  destruct (speech_run_sim L ops Hok0) as (Hok & Hp & _). cbn [l_Settle memory_ledger].
  rewrite Hctx. split.
  { destruct (l_Settle (run L ops) e res usage) as [L' r] eqn:Hr. cbn in Hr. rewrite Hctx in Hr.
    rewrite Hr. apply (speech_settle_spec _ {| e_ctx := true; e_now := 0; e_draw := None |}) in Hr;
      [|done]. destruct r; [done|]. destruct Hr. cbn. congruence. }
  rewrite (speech_Settle_eq _ true res usage Hok). intros r Hr Hw. destruct (L_priced _ Hok _ _ Hr) as [Hl Hprice]. rewrite <- Hp. split; [done|].
  intros Hone. rewrite Hv, Hr. cbn [negb orb].
  assert (is_ok (Usage_Validate usage) = true) as ->.
  { unfold usageWithin in Hw. by destruct (is_ok (Usage_Validate usage)). }
  cbn [negb]. cbv zeta. rewrite Hw, (proj2 (Z.leb_le _ _)) by lia. cbn [andb fst snd].
  split_and!; [done| |done]. rewrite Hprice.
  apply speech_price_mono; [apply Hok|done].
Qed.

(** *** Witnesses *)

Definition example_pricing : Pricing :=
  {| ProfileID := "base"; STTMicrousdPerMillionAudioMS := 100000;
     TTSMicrousdPerMillionCharacters := 15000000; TTSMicrousdPerMillionOutputAudioMS := 0;
     DailyBudgetMicrousd := 1000000; STTReservationChunkAudioMS := 10000;
     TTSMaxOutputAudioMS := 120000; ReservationTTL := minute |}.
Definition example_key : bytes := replicate 32 (byte_of 9).
Definition example_ledger : MemoryLedger :=
  {| pricing := example_pricing; digestKey := example_key; daily := ∅; reservations := ∅ |}.
Definition example_id : bytes := replicate 16 (byte_of 1).
Definition example_env : env := {| e_ctx := true; e_now := 0; e_draw := Some example_id |}.
Definition example_reservation : Reservation :=
  {| ID := example_id; Limit := STTUsage 10000; ReservedMicrousd := 1000 |}.
Definition example_ops : list op := [OpReserve example_env "s" (STTUsage 10000)].

Lemma speech_ledger_refines_budget_witness :
  (∃ es, spec_run 1000000 spec_init es (spec_of (run example_ledger example_ops))) ∧
  ∃ d, daily (run example_ledger example_ops)
         !! ("1970-01-01:" +:+ subjectKey example_ledger "s") = Some d ∧ reserved d = 1000 ∧
    committed d + uncertain d + reserved d ≤ 1000000.
Proof.
  destruct (speech_ledger_refines_budget example_pricing example_key example_ledger example_ops
    eq_refl) as [Hrun Hmax]. split; [exact Hrun|].
  eexists. split; [vm_compute; reflexivity|]. split; [reflexivity|].
  apply (Hmax ("1970-01-01:" +:+ subjectKey example_ledger "s")). vm_compute. reflexivity.
Defined.

Lemma reservation_closed_once_witness :
  closes (run example_ledger (example_ops ++ [OpRelease example_env example_reservation]))
    (OpSettle example_env example_reservation (STTUsage 5)) example_id = false.
Proof.
  apply (reservation_closed_once example_pricing example_key example_ledger example_ops
    (OpRelease example_env example_reservation) []); [reflexivity| |constructor].
  vm_compute. reflexivity.
Defined.

Lemma speech_Settle_exact_witness :
  (l_Settle (run example_ledger example_ops) example_env example_reservation (STTUsage 105)).2
  = Ok {| CostMicrousd := 11 |}.
Proof.
  destruct (speech_Settle_exact example_pricing example_key example_ledger example_ops example_env
    example_reservation (STTUsage 105) eq_refl eq_refl eq_refl) as [_ Hs].
  destruct (reservations (run example_ledger example_ops) !! example_id) as [r|] eqn:Hr;
    [|vm_compute in Hr; discriminate Hr].
  assert (r_limit r = STTUsage 10000) as Hl
    by (vm_compute in Hr; injection Hr as <-; reflexivity).
  destruct (Hs r Hr) as [_ Hok]; [rewrite Hl; reflexivity|].
  destruct Hok as [Hres _]; [by vm_compute|]. exact Hres.
Defined.

End SpeechBudget.
