(* ===== verification/SpeechMeter.v ===== *)
(** * SpeechMeter: metering of recognised and synthesised speech

    Models [internal/gateway/speech_meter.go]. The meter of a session reserves
    budget in chunks of audio, sends audio to the recogniser only under a
    reservation, and settles what it sent. It is written against the [Ledger]
    interface, and its theorems are proved from the laws of that interface. The
    meter's mutex makes every method atomic; the timer may fire at any moment,
    so [flush] is an operation like the others. The upstream write of
    [HandleAudio] is an input, whether it fails. *)

From stdpp Require Import base gmap strings list.
From Stdlib Require Import ZArith Lia.
From Stdlib.Strings Require Import Byte.
From S2P Require Import Prelude GoBase BudgetSpec SpeechBudget.

Module SpeechMeter.
Import SpeechBudget.

(** The speech counters of [Metrics]. *)
Record Metrics : Type := {
  speechBudgetRejected : Z;
  speechUsageFailures : Z;
  speechSettledReservations : Z;
  speechCommittedMicrousd : Z;
  speechSTTAudioMS : Z;
  speechUncertainReservations : Z;
  speechUncertainMicrousd : Z;
}.

Definition no_metrics : Metrics :=
  {| speechBudgetRejected := 0; speechUsageFailures := 0; speechSettledReservations := 0;
     speechCommittedMicrousd := 0; speechSTTAudioMS := 0; speechUncertainReservations := 0;
     speechUncertainMicrousd := 0 |}.

Definition count_rejected (m : Metrics) : Metrics :=
  {| speechBudgetRejected := speechBudgetRejected m +i 1;
     speechUsageFailures := speechUsageFailures m;
     speechSettledReservations := speechSettledReservations m;
     speechCommittedMicrousd := speechCommittedMicrousd m;
     speechSTTAudioMS := speechSTTAudioMS m;
     speechUncertainReservations := speechUncertainReservations m;
     speechUncertainMicrousd := speechUncertainMicrousd m |}.

Definition count_failure (m : Metrics) : Metrics :=
  {| speechBudgetRejected := speechBudgetRejected m;
     speechUsageFailures := speechUsageFailures m +i 1;
     speechSettledReservations := speechSettledReservations m;
     speechCommittedMicrousd := speechCommittedMicrousd m;
     speechSTTAudioMS := speechSTTAudioMS m;
     speechUncertainReservations := speechUncertainReservations m;
     speechUncertainMicrousd := speechUncertainMicrousd m |}.

Definition count_settled (cost used : Z) (m : Metrics) : Metrics :=
  {| speechBudgetRejected := speechBudgetRejected m;
     speechUsageFailures := speechUsageFailures m;
     speechSettledReservations := speechSettledReservations m +i 1;
     speechCommittedMicrousd := speechCommittedMicrousd m +i cost;
     speechSTTAudioMS := speechSTTAudioMS m +i used;
     speechUncertainReservations := speechUncertainReservations m;
     speechUncertainMicrousd := speechUncertainMicrousd m |}.

Definition count_uncertain (cost : Z) (m : Metrics) : Metrics :=
  {| speechBudgetRejected := speechBudgetRejected m;
     speechUsageFailures := speechUsageFailures m;
     speechSettledReservations := speechSettledReservations m;
     speechCommittedMicrousd := speechCommittedMicrousd m;
     speechSTTAudioMS := speechSTTAudioMS m;
     speechUncertainReservations := speechUncertainReservations m +i 1;
     speechUncertainMicrousd := speechUncertainMicrousd m +i cost |}.

(** What the meter does to the outside, in order: its calls to the ledger with
    their answers, and its writes to the recogniser. *)
Inductive act : Type :=
| ActReserve (limit : Usage) (r : result error Reservation)
| ActSend (ms : Z) (ok : bool)
| ActSettle (res : Reservation) (used : Z) (r : result error Settlement)
| ActRelease (res : Reservation) (r : result error unit)
| ActUncertain (res : Reservation) (used : Z) (r : result error Z).

Inductive meter_error : Type :=
| LedgerError (e : error)
| SendError.

(** The zero value of [speechbudget.Reservation]. *)
Definition no_reservation : Reservation :=
  {| ID := replicate 16 (byte_of 0); Limit := TTSUsage 0 0; ReservedMicrousd := 0 |}.

(** [context.Background()]: never done. *)
Definition background (e : env) : env :=
  {| e_ctx := true; e_now := e_now e; e_draw := e_draw e |}.

Section meter.
Context {Σ : Type} `{Ledger Σ}.

(** [ledger] and [log] are the world the meter acts on: the shared ledger and the
    record of its actions. The other fields are those of [sttUsageMeter]. *)
Record sttUsageMeter : Type := {
  ledger : Σ;
  log : list act;
  metrics : Metrics;
  m_pricing : Pricing;
  subject : string;
  reservation : Reservation;
  usedAudioMS : Z;
  timer : bool;
  closed : bool;
  failed : option error;
}.

Definition newSTTUsageMeter (l : Σ) (pricing : Pricing) (subject : string) (m : Metrics) :
    sttUsageMeter :=
  {| ledger := l; log := []; metrics := m; m_pricing := pricing; subject := subject;
     reservation := no_reservation; usedAudioMS := 0; timer := false; closed := false;
     failed := None |}.

Definition world (m : sttUsageMeter) (l : Σ) (a : act) (f : Metrics → Metrics) : sttUsageMeter :=
  {| ledger := l; log := log m ++ [a]; metrics := f (metrics m); m_pricing := m_pricing m;
     subject := subject m; reservation := reservation m; usedAudioMS := usedAudioMS m;
     timer := timer m; closed := closed m; failed := failed m |}.

Definition holding (m : sttUsageMeter) (r : Reservation) (used : Z) : sttUsageMeter :=
  {| ledger := ledger m; log := log m; metrics := metrics m; m_pricing := m_pricing m;
     subject := subject m; reservation := r; usedAudioMS := used;
     timer := timer m; closed := closed m; failed := failed m |}.

Definition set_timer (m : sttUsageMeter) (t : bool) : sttUsageMeter :=
  {| ledger := ledger m; log := log m; metrics := metrics m; m_pricing := m_pricing m;
     subject := subject m; reservation := reservation m; usedAudioMS := usedAudioMS m;
     timer := t; closed := closed m; failed := failed m |}.

Definition set_failed (m : sttUsageMeter) (e : error) : sttUsageMeter :=
  {| ledger := ledger m; log := log m; metrics := metrics m; m_pricing := m_pricing m;
     subject := subject m; reservation := reservation m; usedAudioMS := usedAudioMS m;
     timer := timer m; closed := closed m; failed := Some e |}.

Definition set_closed (m : sttUsageMeter) : sttUsageMeter :=
  {| ledger := ledger m; log := log m; metrics := metrics m; m_pricing := m_pricing m;
     subject := subject m; reservation := reservation m; usedAudioMS := usedAudioMS m;
     timer := timer m; closed := true; failed := failed m |}.

Definition chunk (m : sttUsageMeter) : Z := STTReservationChunkAudioMS (m_pricing m).

Definition settleLocked (e : env) (m : sttUsageMeter) : sttUsageMeter * result error unit :=
  IF ReservedMicrousd (reservation m) =? 0 RETURN (m, Ok tt) ;;
  let m := set_timer m false in
  let used := usedAudioMS m in
  if used =? 0 then
    let '(l, r) := l_Release (ledger m) e (reservation m) in
    let a := ActRelease (reservation m) r in
    match r with
    | Err x => (world m l a count_failure, Err x)
    | Ok _ => (holding (world m l a (λ m, m)) no_reservation 0, Ok tt)
    end
  else
    let '(l, r) := l_Settle (ledger m) e (reservation m) (STTUsage used) in
    let a := ActSettle (reservation m) used r in
    match r with
    | Err x => (world m l a count_failure, Err x)
    | Ok s => (holding (world m l a (count_settled (CostMicrousd s) used)) no_reservation 0, Ok tt)
    end.

Definition markUncertainLocked (e : env) (m : sttUsageMeter) : sttUsageMeter :=
  IF ReservedMicrousd (reservation m) =? 0 RETURN m ;;
  let m := set_timer m false in
  let '(l, r) := l_MarkUncertain (ledger m) e (reservation m) in
  let a := ActUncertain (reservation m) (usedAudioMS m) r in
  match r with
  | Err x => set_failed (world m l a count_failure) x
  | Ok cost => holding (world m l a (count_uncertain cost)) no_reservation 0
  end.

(** First stage of [HandleAudio]: settle a reservation the frame does not fit in. *)
Definition settleFull (e : env) (frameMS : Z) (m : sttUsageMeter) :
    sttUsageMeter * result error unit :=
  if (0 <? ReservedMicrousd (reservation m)) && (chunk m <? usedAudioMS m +i frameMS)
  then settleLocked e m else (m, Ok tt).

(** Second stage: reserve a chunk when nothing is held. *)
Definition reserveChunk (e : env) (m : sttUsageMeter) : sttUsageMeter * result error unit :=
  if ReservedMicrousd (reservation m) =? 0 then
    let limit := STTUsage (chunk m) in
    let '(l, r) := l_Reserve (ledger m) e (subject m) limit in
    match r with
    | Err x =>
        (world m l (ActReserve limit r)
           (if decide (x = ErrBudgetExceeded) then count_rejected else count_failure),
         Err x)
    | Ok res =>
        (holding (world m l (ActReserve limit r) (λ m, m)) res (usedAudioMS m), Ok tt)
    end
  else (m, Ok tt).

(** Third stage: write the frame upstream, then settle a full chunk. *)
Definition sendFrame (e : env) (frameMS : Z) (send_ok : bool) (m : sttUsageMeter) :
    sttUsageMeter * result meter_error unit :=
  let m := world m (ledger m) (ActSend frameMS send_ok) (λ m, m) in
  IF negb send_ok RETURN (markUncertainLocked (background e) m, Err SendError) ;;
  let m := set_timer (holding m (reservation m) (usedAudioMS m +i frameMS)) true in
  if chunk m <=? usedAudioMS m then
    let '(m, r) := settleLocked e m in
    (m, match r with Err x => Err (LedgerError x) | Ok _ => Ok tt end)
  else (m, Ok tt).

(** The three environments are those of the settlement of a full chunk, of the
    reservation and of the call after the upstream write. *)
Definition HandleAudio (e1 e2 e3 : env) (frameDurationMS : Z) (send_ok : bool)
    (m : sttUsageMeter) : sttUsageMeter * result meter_error unit :=
  IF closed m || (match failed m with Some _ => true | None => false end)
     || (frameDurationMS <? 1)
    RETURN (m, Err (LedgerError ErrUnavailable)) ;;
  let frameMS := frameDurationMS in
  match settleFull e1 frameMS m with
  | (m, Err x) => (m, Err (LedgerError x))
  | (m, Ok _) =>
      match reserveChunk e2 m with
      | (m, Err x) => (m, Err (LedgerError x))
      | (m, Ok _) => sendFrame e3 frameMS send_ok m
      end
  end.

Definition flush (e : env) (m : sttUsageMeter) : sttUsageMeter :=
  IF closed m || (match failed m with Some _ => true | None => false end)
     || (ReservedMicrousd (reservation m) =? 0)
    RETURN m ;;
  let '(m, r) := settleLocked (background e) m in
  match r with Err x => set_failed m x | Ok _ => m end.

Definition Close (e1 e2 : env) (m : sttUsageMeter) : sttUsageMeter :=
  IF closed m RETURN m ;;
  let m := set_closed m in
  match failed m with
  | Some _ => markUncertainLocked (background e1) m
  | None =>
      let '(m, r) := settleLocked (background e1) m in
      match r with Err _ => markUncertainLocked (background e2) m | Ok _ => m end
  end.

(** Between two operations of this meter, the rest of the gateway may use the
    ledger. *)
Inductive op : Type :=
| OpAudio (e1 e2 e3 : env) (ms : Z) (send_ok : bool)
| OpFlush (e : env)
| OpClose (e1 e2 : env)
| OpOthers (l : Σ).

Definition exec (m : sttUsageMeter) (o : op) : sttUsageMeter :=
  match o with
  | OpAudio e1 e2 e3 ms ok => (HandleAudio e1 e2 e3 ms ok m).1
  | OpFlush e => flush e m
  | OpClose e1 e2 => Close e1 e2 m
  | OpOthers l =>
      {| ledger := l; log := log m; metrics := metrics m; m_pricing := m_pricing m;
         subject := subject m; reservation := reservation m; usedAudioMS := usedAudioMS m;
         timer := timer m; closed := closed m; failed := failed m |}
  end.

Definition run (m : sttUsageMeter) (ops : list op) : sttUsageMeter := fold_left exec ops m.

End meter.

Arguments sttUsageMeter Σ : clear implicits.
Arguments op Σ : clear implicits.

(** ** The metering protocol

    The abstract discipline: audio is written only while a reservation is held
    and within its limit, and the reservation is settled for exactly the audio
    written under it, released if there was none, or forfeited. *)

Inductive phase : Type :=
| Idle
| Held (res : Reservation) (sent : Z).

Definition after (p : phase) (ok : bool) : phase := if ok then Idle else p.

Inductive metered (limit : Z) : phase → act → phase → Prop :=
| metered_refused x :
    metered limit Idle (ActReserve (STTUsage limit) (Err x)) Idle
| metered_reserve res :
    Limit res = STTUsage limit → 1 ≤ ReservedMicrousd res →
    metered limit Idle (ActReserve (STTUsage limit) (Ok res)) (Held res 0)
| metered_send res sent ms ok :
    1 ≤ ms → sent + ms ≤ limit →
    metered limit (Held res sent) (ActSend ms ok) (Held res (if ok then sent + ms else sent))
| metered_settle res sent r :
    1 ≤ sent → metered limit (Held res sent) (ActSettle res sent r) (after (Held res sent) (is_ok r))
| metered_release res r :
    metered limit (Held res 0) (ActRelease res r) (after (Held res 0) (is_ok r))
| metered_forfeit res sent r :
    metered limit (Held res sent) (ActUncertain res sent r) (after (Held res sent) (is_ok r)).

Inductive metered_run (limit : Z) : phase → list act → phase → Prop :=
| metered_nil p : metered_run limit p [] p
| metered_snoc p acts q a q' :
    metered_run limit p acts q → metered limit q a q' → metered_run limit p (acts ++ [a]) q'.

Section proofs.
Context {Σ : Type} `{Ledger Σ} `{!LedgerLaws Σ}.
Implicit Types m : sttUsageMeter Σ.

(** The meter is in the phase its log leads to. *)
Definition in_phase m (p : phase) : Prop :=
  match p with
  | Idle => ReservedMicrousd (reservation m) = 0 ∧ usedAudioMS m = 0
  | Held res sent => reservation m = res ∧ 1 ≤ ReservedMicrousd res ∧ usedAudioMS m = sent ∧
      0 ≤ sent ≤ chunk m
  end.

Record meter_ok m : Prop := {
  ok_ledger : l_inv (ledger m);
  ok_chunk : MinimumSTTChunkMS ≤ chunk m ≤ MaximumSTTChunkMS;
  ok_log : ∃ p, metered_run (chunk m) Idle (log m) p ∧ in_phase m p;
}.

Lemma meter_idle m p : in_phase m p → ReservedMicrousd (reservation m) = 0 → p = Idle.
Proof. destruct p; [done|]. intros (<- & ? & _) ?. lia. Qed.

Lemma meter_held m p :
  in_phase m p → ReservedMicrousd (reservation m) ≠ 0 →
  p = Held (reservation m) (usedAudioMS m) ∧ 0 ≤ usedAudioMS m ≤ chunk m ∧
  1 ≤ ReservedMicrousd (reservation m).
Proof. destruct p; cbn; [lia|]. by intros (<- & ? & <- & ?) _. Qed.

(** One more action that the protocol allows. *)
Lemma meter_act m m' p a p' :
  meter_ok m → metered_run (chunk m) Idle (log m) p → metered (chunk m) p a p' →
  l_inv (ledger m') → m_pricing m' = m_pricing m → log m' = log m ++ [a] → in_phase m' p' →
  meter_ok m'.
Proof.
  intros [Hl Hc _] Hrun Ha Hl' Hp Hlog Hphase. assert (chunk m' = chunk m) as Hch
    by (unfold chunk; by rewrite Hp). split; [done|lia|].
  exists p'. split; [|done]. rewrite Hlog, Hch. by econstructor.
Qed.

Lemma settleLocked_ok e m m' r :
  meter_ok m → settleLocked e m = (m', r) →
  meter_ok m' ∧ m_pricing m' = m_pricing m ∧ closed m' = closed m ∧ failed m' = failed m ∧
  (r = Ok tt → ReservedMicrousd (reservation m') = 0 ∧ usedAudioMS m' = 0).
Proof.
  intros Hok. unfold settleLocked. pose proof Hok as [Hl Hc (p & Hrun & Hp)].
  destruct (ReservedMicrousd (reservation m) =? 0) eqn:Hz; split_bools.
  { intros [= <- <-]. pose proof (meter_idle _ _ Hp Hz) as ->. destruct Hp. done. }
  destruct (meter_held _ _ Hp Hz) as (-> & Hu & Hres). cbn [usedAudioMS set_timer reservation ledger].
  destruct (usedAudioMS m =? 0) eqn:Hused; split_bools.
  - destruct (l_Release (ledger m) e (reservation m)) as [l r'] eqn:Hr.
    destruct (l_release_law _ _ _ _ _ Hl Hr) as [Hl' _]. rewrite Hused in *.
    destruct r'; intros [= <- <-]; (split; [eapply (meter_act m); try done; [constructor|]|done]).
    + done.
    + cbn. rewrite Hused. unfold chunk in *. cbn. split_and!; done || lia.
  - destruct (l_Settle (ledger m) e (reservation m) _) as [l r'] eqn:Hr.
    destruct (l_settle_law _ _ _ _ _ _ Hl Hr) as [Hl' _].
    destruct r'; intros [= <- <-]; (split; [eapply (meter_act m); try done; [constructor; lia|]|done]).
    + done.
    + cbn. unfold chunk in *. cbn. split_and!; done || lia.
Qed.

Lemma markUncertainLocked_ok e m :
  meter_ok m → meter_ok (markUncertainLocked e m) ∧ closed (markUncertainLocked e m) = closed m ∧
  m_pricing (markUncertainLocked e m) = m_pricing m.
Proof.
  intros Hok. unfold markUncertainLocked. pose proof Hok as [Hl Hc (p & Hrun & Hp)].
  destruct (ReservedMicrousd (reservation m) =? 0) eqn:Hz; [done|]; split_bools.
  destruct (meter_held _ _ Hp Hz) as (-> & Hu & Hres). cbn [set_timer reservation ledger].
  destruct (l_MarkUncertain (ledger m) e (reservation m)) as [l r'] eqn:Hr.
  destruct (l_uncertain_law _ _ _ _ _ Hl Hr) as [Hl' _].
  destruct r'; (split; [eapply (meter_act m); try done; [constructor|]|done]).
  - done.
  - cbn. unfold chunk in *. cbn. split_and!; done || lia.
Qed.

Definition op_ok (o : op Σ) : Prop :=
  match o with
  | OpAudio _ _ _ ms _ => ms ≤ MinimumSTTChunkMS
  | OpOthers l => l_inv l
  | _ => True
  end.

(** The frame fits in what is held. *)
Definition fits m (ms : Z) : Prop :=
  1 ≤ ReservedMicrousd (reservation m) ∧ 0 ≤ usedAudioMS m ∧ usedAudioMS m + ms ≤ chunk m.

Lemma settleFull_ok e ms m m' r :
  meter_ok m → 1 ≤ ms ≤ MinimumSTTChunkMS → settleFull e ms m = (m', r) →
  meter_ok m' ∧ m_pricing m' = m_pricing m ∧
  (r = Ok tt → ReservedMicrousd (reservation m') = 0 ∨ fits m' ms).
Proof.
  intros Hok Hms. pose proof Hok as [_ Hc (p & _ & Hp)]. unfold settleFull.
  unfold MinimumSTTChunkMS, MaximumSTTChunkMS in *.
  assert (0 ≤ usedAudioMS m ≤ chunk m) as Hu
    by (destruct p; [destruct Hp|destruct Hp as (_&_&?&?)]; lia).
  no_wrap. destruct (_ && _) eqn:Hfull.
  - intros Hs. destruct (settleLocked_ok _ _ _ _ Hok Hs) as (?&?&_&_&Hz). split_and!; [done..|].
    intros ->. left. by apply Hz.
  - intros [= <- <-]. split_and!; [done..|]. intros _. apply andb_false_iff in Hfull.
    destruct p as [|res sent]; [left; apply Hp|]. right. destruct Hp as (Hr & ? & ? & ?).
    unfold fits. rewrite Hr in *. destruct Hfull; split_bools; lia.
Qed.

Lemma reserveChunk_ok e ms m m' r :
  meter_ok m → ms ≤ MinimumSTTChunkMS → reserveChunk e m = (m', r) →
  ReservedMicrousd (reservation m) = 0 ∨ fits m ms →
  meter_ok m' ∧ m_pricing m' = m_pricing m ∧ (r = Ok tt → fits m' ms).
Proof.
  intros Hok Hms Hs Hf. pose proof Hok as [Hl Hc (p & Hrun & Hp)]. revert Hs.
  unfold reserveChunk. destruct (_ =? 0) eqn:Hz; split_bools.
  2:{ intros [= <- <-]. destruct Hf; [done|]. done. }
  pose proof (meter_idle _ _ Hp Hz) as ->. destruct Hp as [_ Hu].
  destruct (l_Reserve _ _ _ _) as [l r'] eqn:Hr.
  destruct (l_reserve_law _ _ _ _ _ _ Hl Hr) as (Hl' & kept & _ & Hm).
  unfold MinimumSTTChunkMS in *. destruct r' as [res|x]; intros [= <- <-].
  - destruct Hm as (Hlim & Hpos & _). split_and!; [|done|].
    + eapply (meter_act m); try done; [by constructor|]. cbn. unfold chunk in *. cbn.
      split_and!; done || lia.
    + intros _. unfold fits, chunk in *. cbn. lia.
  - split_and!; [|done|done]. eapply (meter_act m); try done; [constructor|by split].
Qed.

Lemma sendFrame_ok e ms ok m :
  meter_ok m → 1 ≤ ms → fits m ms →
  meter_ok (sendFrame e ms ok m).1 ∧ m_pricing (sendFrame e ms ok m).1 = m_pricing m.
Proof.
  intros Hok Hms (Hr & Hu & Hfit). pose proof Hok as [Hl Hc (p & Hrun & Hp)].
  destruct (meter_held _ _ Hp) as (-> & _ & _); [lia|]. unfold sendFrame.
  unfold MinimumSTTChunkMS, MaximumSTTChunkMS in *.
  destruct ok; cbn [negb].
  - cbn [world usedAudioMS reservation]. no_wrap.
    match goal with |- context [settleLocked e ?x] => set (m1 := x) end.
    assert (meter_ok m1) as Hok1.
    { eapply (meter_act m); try done; [by constructor|].
      cbn. unfold chunk in *. cbn. split_and!; done || lia. }
    destruct (_ <=? _); [|done]. destruct (settleLocked e m1) as [m2 r] eqn:Hs.
    by destruct (settleLocked_ok _ _ _ _ Hok1 Hs) as (?&?&_).
  - match goal with |- context [markUncertainLocked ?b ?x] => set (m1 := x); set (bg := b) end.
    assert (meter_ok m1) as Hok1.
    { eapply (meter_act m); try done; [by constructor|].
      cbn. unfold chunk in *. cbn. split_and!; done || lia. }
    by destruct (markUncertainLocked_ok bg m1 Hok1) as (?&_&?).
Qed.

Lemma HandleAudio_ok e1 e2 e3 ms ok m :
  meter_ok m → ms ≤ MinimumSTTChunkMS →
  meter_ok (HandleAudio e1 e2 e3 ms ok m).1 ∧
  m_pricing (HandleAudio e1 e2 e3 ms ok m).1 = m_pricing m.
Proof.
  intros Hok Hms. unfold HandleAudio. destruct (_ || _) eqn:Hg; [done|]. split_bools.
  destruct (settleFull e1 ms m) as [m1 r1] eqn:Hs1.
  destruct (settleFull_ok e1 ms m m1 r1) as (Hok1 & Hp1 & Hf1); [done|lia|done|].
  destruct r1 as [ [] |x]; [|done].
  destruct (reserveChunk e2 m1) as [m2 r2] eqn:Hs2.
  destruct (reserveChunk_ok e2 ms m1 m2 r2) as (Hok2 & Hp2 & Hf2); [done|done|done|by apply Hf1|].
  destruct r2 as [ [] |x]; [|split; [done|cbn; congruence] ].
  destruct (sendFrame_ok e3 ms ok m2) as [? ->]; [done|lia|by apply Hf2|].
  split; [done|congruence].
Qed.

Lemma exec_meter_ok m o :
  meter_ok m → op_ok o → meter_ok (exec m o) ∧ m_pricing (exec m o) = m_pricing m.
Proof.
  intros Hok Ho. destruct o as [e1 e2 e3 ms ok|e|e1 e2|l]; cbn [exec].
  - by apply HandleAudio_ok.
  - unfold flush. destruct (_ || _); [done|].
    destruct (settleLocked (background e) m) as [m1 r] eqn:Hs.
    destruct (settleLocked_ok _ _ _ _ Hok Hs) as ([? ? ?] & ? & _). by destruct r.
  - unfold Close. destruct (closed m); [done|].
    assert (meter_ok (set_closed m)) as Hok' by (by destruct Hok). cbn [failed set_closed].
    destruct (failed m); [by destruct (markUncertainLocked_ok (background e1) (set_closed m) Hok')
      as (?&_&?)|].
    destruct (settleLocked (background e1) (set_closed m)) as [m1 r] eqn:Hs.
    destruct (settleLocked_ok _ _ _ _ Hok' Hs) as (Hok1 & Hp1 & _). destruct r; [done|].
    destruct (markUncertainLocked_ok (background e2) m1 Hok1) as (?&_&?). split; [done|].
    transitivity (m_pricing m1); done.
  - by destruct Hok.
Qed.

Lemma run_meter_ok m ops :
  meter_ok m → Forall op_ok ops → meter_ok (run m ops) ∧ m_pricing (run m ops) = m_pricing m.
Proof.
  unfold run. intros Hok Hops. revert m Hok Hops. induction ops as [|o ops IH]; intros m Hok Hops; [done|].
  apply Forall_cons in Hops as [Ho Hops]. cbn [fold_left].
  destruct (exec_meter_ok m o Hok Ho) as [Hok' Hp]. by destruct (IH _ Hok' Hops) as [? ->].
Qed.

Lemma new_meter_ok l pricing subject metrics :
  l_inv l → is_ok (Pricing_Validate pricing) = true →
  meter_ok (newSTTUsageMeter l pricing subject metrics).
Proof.
  intros Hl Hp%speech_pricing_ok. split; [done|unfold chunk; cbn [m_pricing newSTTUsageMeter]; lia|].
  exists Idle. split; [constructor|done].
Qed.

(** Whatever the ledger answers and whenever the timer fires or writes fail, a
    meter over any ledger that keeps the interface's promises follows the
    metering protocol: it reserves a chunk before it contacts the recogniser,
    never writes more audio than the chunk under one reservation, settles each
    reservation for exactly the audio written under it, releases it only if
    there was none, and never acts on a reservation it does not hold. *)
Theorem meter_follows_protocol l pricing subject metrics ops :
  l_inv l → is_ok (Pricing_Validate pricing) = true → Forall op_ok ops →
  let m := run (newSTTUsageMeter l pricing subject metrics) ops in
  ∃ p, metered_run (STTReservationChunkAudioMS pricing) Idle (log m) p ∧ in_phase m p.
Proof.
  intros Hl Hp Hops. cbv zeta. pose proof (new_meter_ok l pricing subject metrics Hl Hp) as Hok.
  destruct (run_meter_ok _ ops Hok Hops) as [ [_ _ (p & Hrun & Hph)] Hpr].
  exists p. split; [|done]. unfold chunk in Hrun. by rewrite Hpr in Hrun.
Qed.

(** Audio written, settled and forfeited according to the log. *)
Definition sent_ms (acts : list act) : Z :=
  foldr (λ a n, (match a with ActSend ms true => ms | _ => 0 end) + n) 0 acts.
Definition settled_ms (acts : list act) : Z :=
  foldr (λ a n, (match a with ActSettle _ used (Ok _) => used | _ => 0 end) + n) 0 acts.
Definition forfeited_ms (acts : list act) : Z :=
  foldr (λ a n, (match a with ActUncertain _ used (Ok _) => used | _ => 0 end) + n) 0 acts.

Lemma foldr_sum_snoc (f : act → Z) acts a :
  foldr (λ a n, f a + n) 0 (acts ++ [a]) = foldr (λ a n, f a + n) 0 acts + f a.
Proof. induction acts as [|b acts IH]; cbn; [lia|]. rewrite IH. lia. Qed.

Definition held_ms (p : phase) : Z := match p with Idle => 0 | Held _ sent => sent end.

Lemma metered_accounts limit acts p :
  metered_run limit Idle acts p →
  sent_ms acts = settled_ms acts + forfeited_ms acts + held_ms p.
Proof.
  remember Idle as p0 eqn:Hp0. intros Hrun. revert Hp0.
  induction Hrun as [p|p acts q a q' Hrun IH Hstep]; intros ->; [done|].
  specialize (IH eq_refl). unfold sent_ms, settled_ms, forfeited_ms in *.
  rewrite !foldr_sum_snoc, IH.
  destruct Hstep as [x|res ? ?|res sent ms []|res sent [r|r]|res [r|r]|res sent [r|r] ];
    cbn; lia.
Qed.

(** C27: no audio escapes the account: at every moment, the audio successfully
    written upstream is what was settled, plus what was forfeited with an
    uncertain reservation, plus what the meter still holds as used. *)
Theorem meter_accounts_for_audio l pricing subject metrics ops :
  l_inv l → is_ok (Pricing_Validate pricing) = true → Forall op_ok ops →
  let m := run (newSTTUsageMeter l pricing subject metrics) ops in
  sent_ms (log m) = settled_ms (log m) + forfeited_ms (log m) + usedAudioMS m.
Proof.
  intros Hl Hp Hops. cbv zeta. pose proof (new_meter_ok l pricing subject metrics Hl Hp) as Hok.
  destruct (run_meter_ok _ ops Hok Hops) as [ [_ _ (p & Hrun & Hph)] _].
  apply metered_accounts in Hrun. destruct p; [destruct Hph|destruct Hph as (_&_&?&_)];
    cbn in *; lia.
Qed.

End proofs.
Definition example_meter : sttUsageMeter MemoryLedger :=
  newSTTUsageMeter example_ledger example_pricing "s" no_metrics.
Definition example_ops : list (op MemoryLedger) :=
  [OpAudio example_env example_env example_env 60 true;
   OpAudio example_env example_env example_env 60 true; OpFlush example_env].

Lemma example_ledger_inv : l_inv example_ledger.
Proof. by apply (speech_new_ok example_pricing example_key). Qed.

Lemma meter_follows_protocol_witness :
  usedAudioMS (run example_meter example_ops) = 0 ∧
  ∃ p, metered_run 10000 Idle (log (run example_meter example_ops)) p ∧
    in_phase (run example_meter example_ops) p.
Proof.
  split; [vm_compute; reflexivity|].
  apply (meter_follows_protocol example_ledger example_pricing "s" no_metrics example_ops);
    [apply example_ledger_inv|reflexivity|]. repeat constructor; by vm_compute.
Defined.

Lemma meter_accounts_for_audio_witness :
  sent_ms (log (run example_meter example_ops)) = 120 ∧
  settled_ms (log (run example_meter example_ops)) = 120 ∧
  sent_ms (log (run example_meter example_ops)) =
    settled_ms (log (run example_meter example_ops))
    + forfeited_ms (log (run example_meter example_ops))
    + usedAudioMS (run example_meter example_ops).
Proof.
  split; [vm_compute; reflexivity|]. split; [vm_compute; reflexivity|].
  apply (meter_accounts_for_audio example_ledger example_pricing "s" no_metrics example_ops);
    [apply example_ledger_inv|reflexivity|]. repeat constructor; by vm_compute.
Defined.

End SpeechMeter.
