(* ===== verification/VoiceSession.v ===== *)
(** * VoiceSession: one device connection of the voice gateway

    Models the [connection] of [internal/gateway/handler.go] and the synthesis half
    of [speech_meter.go]: the hello, the read loop with its rate limits and its
    handling of violations, the synthesis requests with the goroutine each of them
    starts ([streamTTS]), aborts and cancellations, and what the voice backend may
    send. The goroutines interleave: every section that holds [stateMu], every write
    and every call to the ledger is one step of [step], and a run is any sequence of
    such steps. The answers of the outside (writes to the socket, the synthesizer,
    the ledger's environment, the voice backend) are inputs of the steps; the
    messages handed to the socket are recorded in order with the outcome of each
    write. *)

From stdpp Require Import base gmap strings list.
From Stdlib Require Import ZArith Lia.
From Stdlib.Strings Require Import Byte.
From S2P Require Import Prelude GoBase GoCrypto BudgetSpec SpeechBudget SpeechMeter Protocol.

Module VoiceSession.
Import SpeechBudget SpeechMeter.
Import Protocol (violation, control_error, ControlMessage, ClientHello).

(** ** Errors *)

Inductive go_error : Type :=
| Canceled
| DeadlineExceeded
| Stale
| Violated (code : string)
| BudgetError (e : error)
| OtherError.

#[global] Instance go_error_eq_dec : EqDecision go_error.
Proof. solve_decision. Defined.

Definition violation_code (v : violation) : string :=
  match v with
  | Protocol.invalid_session => "invalid_session"
  | Protocol.invalid_audio_params => "invalid_audio_params"
  | Protocol.invalid_audio_packet => "invalid_audio_packet"
  | Protocol.unsupported_transport_version => "unsupported_transport_version"
  | Protocol.invalid_hello => "invalid_hello"
  | Protocol.missing_device_agent => "missing_device_agent"
  | Protocol.unsupported_agent_version => "unsupported_agent_version"
  | Protocol.missing_request_correlation => "missing_request_correlation"
  | Protocol.invalid_json => "invalid_json"
  | Protocol.invalid_request_id => "invalid_request_id"
  | Protocol.invalid_tts_text => "invalid_tts_text"
  | Protocol.invalid_abort_reason => "invalid_abort_reason"
  | Protocol.unsupported_message => "unsupported_message"
  | Protocol.SlicePanic => "panic"
  end.

Definition control_failure (e : control_error) : go_error :=
  match e with
  | Protocol.Violates v => Violated (violation_code v)
  | Protocol.ErrStale => Stale
  end.

Definition classifyError (e : go_error) : string :=
  match e with
  | Violated code => code
  | Stale => "stale_event"
  | DeadlineExceeded => "timeout"
  | _ => "operation_failed"
  end.

Definition isSpeechBudgetError (e : go_error) : bool :=
  match e with
  | BudgetError ErrInvalid | BudgetError ErrUnavailable
  | BudgetError ErrReservationLost | BudgetError ErrUsageExceeded => true
  | _ => false
  end.

(** ** What is written to the socket *)

Record TTSEvent : Type := {
  State : string;
  ev_RequestID : Z;
  ev_Text : string;
  ev_Code : string;
}.

(** A frame is written on behalf of a request; the packet itself does not name it. *)
Inductive message : Type :=
| MHello (hello : Protocol.ServerHello)
| MTts (event : TTSEvent)
| MFrame (requestID : Z) (packet : bytes)
| MError (code : string)
| MStt (text : string)
| MVoice (type : string) (payload : bytes).

(** The [type] member of a text message. *)
Definition message_type (m : message) : string :=
  match m with
  | MHello hello => Protocol.hello_Type hello
  | MTts _ => "tts"
  | MFrame _ _ => ""
  | MError _ => "error"
  | MStt _ => "stt"
  | MVoice type _ => type
  end.

(** ** State *)

(** The windows of [allowControlMessage] and [allowAudioPacket]. *)
Record window : Type := {
  windowStart : Time;
  windowCount : Z;
}.

Definition allow (max : Z) (now : Time) (w : window) : window * bool :=
  let w := if minute <=? Sub now (windowStart w)
           then {| windowStart := now; windowCount := 0 |} else w in
  let w := {| windowStart := windowStart w; windowCount := windowCount w +i 1 |} in
  (w, windowCount w <=? max).

(** The call of the ledger for the reservation of a synthesis. *)
Inductive tts_act : Type :=
| TtsSettle (res : Reservation) (characters outputAudioMS : Z) (r : result error Settlement)
| TtsUncertain (res : Reservation) (r : result error Z)
| TtsRelease (res : Reservation) (r : result error unit).

(** The next step of a [streamTTS] goroutine. *)
Inductive stream_pc : Type :=
| AtStart
| AtSentence
| AtProvider
| AtSettle
| AtFinish
| AtError (cause : go_error)
| AtDefer
| Finished.

(** A goroutine: its arguments, its context, its local variables, and on the side
    the ledger calls it made and the errors its callback returned. *)
Record stream : Type := {
  s_requestID : Z;
  s_text : string;
  s_characters : Z;
  s_reservation : Reservation;
  s_ctx : option go_error;
  s_pc : stream_pc;
  s_frames : Z;
  providerContacted : bool;
  reservationFinished : bool;
  s_acts : list tts_act;
  s_emit_errors : list go_error;
}.

(** [cancel] is the index of the goroutine whose context it cancels. *)
Record activeTTS : Type := {
  requestID : Z;
  cancel : nat;
}.

(** What [run] does after the write it is about to make. *)
Inductive after_write : Type :=
| ReturnOnError
| ReportOnError
| CloseAfter (reason : string).

(** Where [run] is. *)
Inductive loop_pc : Type :=
| Reading
| Reporting (cause : go_error)
| Writing (code : string) (k : after_write)
| Ended.

Record loop_state : Type := {
  l_pc : loop_pc;
  violations : Z;
  controlWindow : window;
  audioWindow : window;
}.

Record counters : Type := {
  ttsRequests : Z;
  ttsAborts : Z;
  ttsErrors : Z;
  protocolViolations : Z;
  speechTTSCharacters : Z;
  speechTTSOutputAudioMS : Z;
}.

Record config : Type := {
  sessionID : string;
  ownedScope : string;
  protocolVersion : Z;
  inputFrameMillis : Z;
  OutputFrameMillis : Z;
  MaxMessagesMinute : Z;
  MaxAudioMinute : Z;
  SpeechPricing : Pricing;
}.

(** The routing members of a text message. *)
Record envelope : Type := {
  env_Type : string;
  env_SessionID : string;
}.

Section session.
Context {Σ : Type} `{Ledger Σ}.

(** [sttMeter] is nil exactly when there is no ledger; the ledger and the speech
    counters it shares with the synthesis are its fields. *)
Record connection : Type := {
  cfg : config;
  active : option activeTTS;
  streams : list stream;
  ctx_done : bool;
  out : list (message * option go_error);
  closes : list string;
  sttMeter : option (sttUsageMeter Σ);
  loop : loop_state;
  counts : counters;
}.

(** *** Field updates *)

Definition set_active (a : option activeTTS) (c : connection) : connection :=
  {| cfg := cfg c; active := a; streams := streams c; ctx_done := ctx_done c; out := out c;
     closes := closes c; sttMeter := sttMeter c; loop := loop c; counts := counts c |}.
Definition set_streams (ss : list stream) (c : connection) : connection :=
  {| cfg := cfg c; active := active c; streams := ss; ctx_done := ctx_done c; out := out c;
     closes := closes c; sttMeter := sttMeter c; loop := loop c; counts := counts c |}.
Definition set_done (c : connection) : connection :=
  {| cfg := cfg c; active := active c; streams := streams c; ctx_done := true; out := out c;
     closes := closes c; sttMeter := sttMeter c; loop := loop c; counts := counts c |}.
Definition set_meter (m : option (sttUsageMeter Σ)) (c : connection) : connection :=
  {| cfg := cfg c; active := active c; streams := streams c; ctx_done := ctx_done c;
     out := out c; closes := closes c; sttMeter := m; loop := loop c; counts := counts c |}.
Definition set_loop (l : loop_state) (c : connection) : connection :=
  {| cfg := cfg c; active := active c; streams := streams c; ctx_done := ctx_done c;
     out := out c; closes := closes c; sttMeter := sttMeter c; loop := l; counts := counts c |}.
Definition set_counts (n : counters) (c : connection) : connection :=
  {| cfg := cfg c; active := active c; streams := streams c; ctx_done := ctx_done c;
     out := out c; closes := closes c; sttMeter := sttMeter c; loop := loop c; counts := n |}.

(** [write]: the message is handed to the socket, which answers [w]. *)
Definition write (m : message) (w : option go_error) (c : connection) : connection :=
  {| cfg := cfg c; active := active c; streams := streams c; ctx_done := ctx_done c;
     out := out c ++ [(m, w)]; closes := closes c; sttMeter := sttMeter c; loop := loop c;
     counts := counts c |}.
Definition closeWith (reason : string) (c : connection) : connection :=
  {| cfg := cfg c; active := active c; streams := streams c; ctx_done := ctx_done c;
     out := out c; closes := closes c ++ [reason]; sttMeter := sttMeter c; loop := loop c;
     counts := counts c |}.

Definition goto (pc : loop_pc) (c : connection) : connection :=
  set_loop {| l_pc := pc; violations := violations (loop c);
              controlWindow := controlWindow (loop c); audioWindow := audioWindow (loop c) |} c.

Definition count (f : counters → counters) (c : connection) : connection :=
  set_counts (f (counts c)) c.
Definition count_tts (req ab err viol : Z) (n : counters) : counters :=
  {| ttsRequests := ttsRequests n +i req; ttsAborts := ttsAborts n +i ab;
     ttsErrors := ttsErrors n +i err; protocolViolations := protocolViolations n +i viol;
     speechTTSCharacters := speechTTSCharacters n;
     speechTTSOutputAudioMS := speechTTSOutputAudioMS n |}.
Definition count_spoken (characters ms : Z) (n : counters) : counters :=
  {| ttsRequests := ttsRequests n; ttsAborts := ttsAborts n; ttsErrors := ttsErrors n;
     protocolViolations := protocolViolations n;
     speechTTSCharacters := speechTTSCharacters n +i characters;
     speechTTSOutputAudioMS := speechTTSOutputAudioMS n +i ms |}.

Definition closeViolation (code : string) (c : connection) : connection :=
  goto Ended (closeWith code (count (count_tts 0 0 0 1) c)).

(** *** Updates of a goroutine *)

Definition on_stream (i : nat) (f : stream → stream) (c : connection) : connection :=
  set_streams (alter f i (streams c)) c.

Definition jump (pc : stream_pc) (s : stream) : stream :=
  {| s_requestID := s_requestID s; s_text := s_text s; s_characters := s_characters s;
     s_reservation := s_reservation s; s_ctx := s_ctx s; s_pc := pc; s_frames := s_frames s;
     providerContacted := providerContacted s; reservationFinished := reservationFinished s;
     s_acts := s_acts s; s_emit_errors := s_emit_errors s |}.
Definition contact (s : stream) : stream :=
  {| s_requestID := s_requestID s; s_text := s_text s; s_characters := s_characters s;
     s_reservation := s_reservation s; s_ctx := s_ctx s; s_pc := AtProvider;
     s_frames := s_frames s; providerContacted := true;
     reservationFinished := reservationFinished s; s_acts := s_acts s;
     s_emit_errors := s_emit_errors s |}.
Definition emitted (e : option go_error) (s : stream) : stream :=
  {| s_requestID := s_requestID s; s_text := s_text s; s_characters := s_characters s;
     s_reservation := s_reservation s; s_ctx := s_ctx s; s_pc := s_pc s;
     s_frames := s_frames s +i 1; providerContacted := providerContacted s;
     reservationFinished := reservationFinished s; s_acts := s_acts s;
     s_emit_errors := s_emit_errors s ++ match e with Some e => [e] | None => [] end |}.
Definition acted (a : list tts_act) (s : stream) : stream :=
  {| s_requestID := s_requestID s; s_text := s_text s; s_characters := s_characters s;
     s_reservation := s_reservation s; s_ctx := s_ctx s; s_pc := s_pc s;
     s_frames := s_frames s; providerContacted := providerContacted s;
     reservationFinished := reservationFinished s; s_acts := s_acts s ++ a;
     s_emit_errors := s_emit_errors s |}.
Definition settled (s : stream) : stream :=
  {| s_requestID := s_requestID s; s_text := s_text s; s_characters := s_characters s;
     s_reservation := s_reservation s; s_ctx := s_ctx s; s_pc := AtFinish;
     s_frames := s_frames s; providerContacted := providerContacted s;
     reservationFinished := true; s_acts := s_acts s; s_emit_errors := s_emit_errors s |}.

(** A context is done once, with the first reason. *)
Definition expire (e : go_error) (s : stream) : stream :=
  {| s_requestID := s_requestID s; s_text := s_text s; s_characters := s_characters s;
     s_reservation := s_reservation s;
     s_ctx := match s_ctx s with Some r => Some r | None => Some e end; s_pc := s_pc s;
     s_frames := s_frames s; providerContacted := providerContacted s;
     reservationFinished := reservationFinished s; s_acts := s_acts s;
     s_emit_errors := s_emit_errors s |}.

(** ** Synthesis under the budget *)

(** The meter after another call to its ledger. *)
Definition tts_world (m : sttUsageMeter Σ) (l : Σ) (f : Metrics → Metrics) : sttUsageMeter Σ :=
  {| ledger := l; log := log m; metrics := f (metrics m); m_pricing := m_pricing m;
     subject := subject m; reservation := reservation m; usedAudioMS := usedAudioMS m;
     timer := timer m; closed := closed m; failed := failed m |}.

(** [speechSettledReservations] and [speechCommittedMicrousd]. *)
Definition count_cost (cost : Z) (m : Metrics) : Metrics :=
  {| speechBudgetRejected := speechBudgetRejected m;
     speechUsageFailures := speechUsageFailures m;
     speechSettledReservations := speechSettledReservations m +i 1;
     speechCommittedMicrousd := speechCommittedMicrousd m +i cost;
     speechSTTAudioMS := speechSTTAudioMS m;
     speechUncertainReservations := speechUncertainReservations m;
     speechUncertainMicrousd := speechUncertainMicrousd m |}.

Definition reserveTTS (e : env) (characters : Z) (c : connection) :
    connection * result error Reservation :=
  match sttMeter c with
  | None => (c, Ok no_reservation)
  | Some m =>
      let '(l, r) := l_Reserve (ledger m) e (ownedScope (cfg c))
        (TTSUsage characters (TTSMaxOutputAudioMS (SpeechPricing (cfg c)))) in
      match r with
      | Err x =>
          (set_meter (Some (tts_world m l
             (if decide (x = ErrBudgetExceeded) then count_rejected else count_failure))) c, Err x)
      | Ok res => (set_meter (Some (tts_world m l (λ m, m))) c, Ok res)
      end
  end.

(** The reservation is the zero value when there is no ledger. *)
Definition settleTTS (e : env) (i : nat) (res : Reservation) (characters outputAudioMS : Z)
    (c : connection) : connection * result error unit :=
  IF ReservedMicrousd res =? 0 RETURN (c, Ok tt) ;;
  match sttMeter c with
  | None => (c, Ok tt)
  | Some m =>
      let '(l, r) := l_Settle (ledger m) (background e) res
        (TTSUsage characters outputAudioMS) in
      let c := on_stream i (acted [TtsSettle res characters outputAudioMS r]) c in
      match r with
      | Err x => (set_meter (Some (tts_world m l count_failure)) c, Err x)
      | Ok s =>
          (count (count_spoken characters outputAudioMS)
             (set_meter (Some (tts_world m l (count_cost (CostMicrousd s)))) c), Ok tt)
      end
  end.

Definition releaseTTS (e : env) (i : nat) (res : Reservation) (c : connection) : connection :=
  IF ReservedMicrousd res =? 0 RETURN c ;;
  match sttMeter c with
  | None => c
  | Some m =>
      let '(l, r) := l_Release (ledger m) (background e) res in
      let c := on_stream i (acted [TtsRelease res r]) c in
      set_meter (Some (tts_world m l (if is_ok r then λ m, m else count_failure))) c
  end.

Definition uncertainTTS (e : env) (i : nat) (res : Reservation) (c : connection) : connection :=
  IF ReservedMicrousd res =? 0 RETURN c ;;
  match sttMeter c with
  | None => c
  | Some m =>
      let '(l, r) := l_MarkUncertain (ledger m) (background e) res in
      let c := on_stream i (acted [TtsUncertain res r]) c in
      set_meter (Some (tts_world m l
        (match r with Err _ => count_failure | Ok cost => count_uncertain cost end))) c
  end.

(** ** The active request *)

Definition is_active (c : connection) (id : Z) : bool :=
  match active c with Some a => requestID a =? id | None => false end.

(** [active.cancel(); active = nil]. *)
Definition drop_active (c : connection) : connection :=
  match active c with
  | Some a => set_active None (on_stream (cancel a) (expire Canceled) c)
  | None => c
  end.

Definition cancelActive (c : connection) : connection := drop_active c.

Definition abortTTS (id : Z) (c : connection) : connection * option go_error :=
  IF negb (is_active c id) RETURN (c, Some Stale) ;;
  (count (count_tts 0 1 0 0) (drop_active c), None).

Definition writeIfActive (id : Z) (m : message) (w : option go_error) (c : connection) :
    connection * option go_error :=
  IF negb (is_active c id) RETURN (c, Some Stale) ;;
  (write m w c, w).

Definition event (state : string) (id : Z) (text code : string) : message :=
  MTts {| State := state; ev_RequestID := id; ev_Text := text; ev_Code := code |}.

Definition finishTTS (id : Z) (state code : string) (w : option go_error) (c : connection) :
    connection * option go_error :=
  IF negb (is_active c id) RETURN (c, Some Stale) ;;
  (drop_active (write (event state id "" code) w c), w).

(** ** The goroutine of a request *)

Inductive answer : Type :=
| Wrote (w : option go_error)
| Emits (opus : bytes) (w : option go_error)
| Returns (r : option go_error)
| Accounts (e : env).

Definition handleTTSError (id : Z) (cause : go_error) (w : option go_error)
    (c : connection) : connection :=
  IF bool_decide (cause = Canceled) || bool_decide (cause = Stale) RETURN c ;;
  (finishTTS id "error" "synthesis_failed" w (count (count_tts 0 0 1 0) c)).1.

(** The callback given to the synthesizer. *)
Definition emitTTS (i : nat) (id : Z) (opus : bytes) (w : option go_error) (c : connection) :
    connection :=
  match Protocol.EncodeAudioPacket (protocolVersion (cfg c)) opus with
  | Err v => on_stream i (emitted (Some (Violated (violation_code v)))) c
  | Ok packet =>
      let '(c, r) := writeIfActive id (MFrame id packet) w c in
      on_stream i (emitted r) c
  end.

Definition streamTTS (i : nat) (s : stream) (a : answer) (c : connection) :
    option connection :=
  let id := s_requestID s in
  match s_pc s, a with
  | AtStart, Wrote w =>
      let '(c, r) := writeIfActive id (event "start" id "" "") w c in
      Some (on_stream i (jump (match r with Some e => AtError e | None => AtSentence end)) c)
  | AtSentence, Wrote w =>
      let '(c, r) := writeIfActive id (event "sentence_start" id (s_text s) "") w c in
      Some (on_stream i (match r with Some e => jump (AtError e) | None => contact end) c)
  | AtProvider, Emits opus w => Some (emitTTS i id opus w c)
  | AtProvider, Returns r =>
      Some (on_stream i (jump (match r with Some e => AtError e | None => AtSettle end)) c)
  | AtSettle, Accounts e =>
      let outputAudioMS := s_frames s *i OutputFrameMillis (cfg c) in
      let '(c, r) := settleTTS e i (s_reservation s) (s_characters s) outputAudioMS c in
      Some (on_stream i
        (match r with Err x => jump (AtError (BudgetError x)) | Ok _ => settled end) c)
  | AtFinish, Wrote w =>
      Some (on_stream i (jump AtDefer) (finishTTS id "stop" "" w c).1)
  | AtError cause, Wrote w =>
      Some (on_stream i (jump AtDefer) (handleTTSError id cause w c))
  | AtDefer, Accounts e =>
      let c := if reservationFinished s then c
               else if providerContacted s then uncertainTTS e i (s_reservation s) c
               else releaseTTS e i (s_reservation s) c in
      Some (on_stream i (jump Finished) c)
  | _, _ => None
  end.

(** ** The read loop *)

(** [utf8.RuneCountInString]: an ill-formed byte counts as one rune. *)
Fixpoint rune_count (fuel : nat) (bs : bytes) : Z :=
  match fuel, bs with
  | S fuel, _ :: rest =>
      match Text.decode_rune bs with
      | Some (_, rest) => 1 + rune_count fuel rest
      | None => 1 + rune_count fuel rest
      end
  | _, _ => 0
  end.
Definition RuneCountInString (s : string) : Z :=
  rune_count (length (bytes_of s)) (bytes_of s).

Definition startTTS (e : env) (id : Z) (text : string) (c : connection) : connection :=
  match active c with
  | Some _ => goto (Reporting (Violated "request_in_progress")) c
  | None =>
      let characters := RuneCountInString text in
      let '(c, r) := reserveTTS e characters c in
      match r with
      | Err x =>
          let code := if decide (x = ErrBudgetExceeded) then "speech_budget_exceeded"
                      else "speech_budget_unavailable" in
          goto (Writing code ReportOnError) c
      | Ok res =>
          let s := {| s_requestID := id; s_text := text; s_characters := characters;
                      s_reservation := res;
                      s_ctx := if ctx_done c then Some Canceled else None; s_pc := AtStart;
                      s_frames := 0; providerContacted := false;
                      reservationFinished := false; s_acts := []; s_emit_errors := [] |} in
          let c := set_active (Some {| requestID := id; cancel := length (streams c) |}) c in
          goto Reading (count (count_tts 1 0 0 0) (set_streams (streams c ++ [s]) c))
      end
  end.

Definition conclude (r : option go_error) (c : connection) : connection :=
  goto (match r with Some e => Reporting e | None => Reading end) c.

Context (Unmarshal : bytes → option envelope) (Decode : bytes → option ControlMessage).

(** [control] is what the voice backend answers. *)
Definition handleText (e : env) (payload : bytes) (control : option go_error)
    (c : connection) : connection :=
  match Unmarshal payload with
  | None => conclude (Some (Violated "invalid_json")) c
  | Some routing =>
      IF bool_decide (env_Type routing = "")
        RETURN conclude (Some (Violated "invalid_json")) c ;;
      IF negb (bool_decide (env_SessionID routing = sessionID (cfg c)))
        RETURN conclude (Some Stale) c ;;
      if decide (env_Type routing = "tts_request" ∨ env_Type routing = "tts_abort") then
        match Protocol.DecodeControl Decode payload (sessionID (cfg c)) with
        | Err x => conclude (Some (control_failure x)) c
        | Ok (message, id) =>
            if decide (Protocol.ctl_Type message = "tts_request")
            then startTTS e id (Protocol.ctl_Text message) c
            else let '(c, r) := abortTTS id c in conclude r c
        end
      else if decide (env_Type routing = "hello") then
        conclude (Some (Violated "duplicate_hello")) c
      else conclude control c
  end.

(** What the meter reports, with the error the voice backend gave it. *)
Definition meter_failure (send : option go_error) (x : meter_error) : go_error :=
  match x with
  | LedgerError x => BudgetError x
  | SendError => default OtherError send
  end.

Definition handleAudio (e1 e2 e3 : env) (send : option go_error) (c : connection) :
    connection * option go_error :=
  match sttMeter c with
  | None => (c, send)
  | Some m =>
      let '(m, r) := HandleAudio e1 e2 e3 (inputFrameMillis (cfg c))
        (bool_decide (send = None)) m in
      (set_meter (Some m) c,
       match r with Ok _ => None | Err x => Some (meter_failure send x) end)
  end.

Inductive read_input : Type :=
| ReadError
| ReadBinary (now : Time) (payload : bytes) (e1 e2 e3 : env) (send : option go_error)
| ReadText (now : Time) (payload : bytes) (e : env) (control : option go_error)
| ReadOther.

Definition allowAudioPacket (now : Time) (c : connection) : connection * bool :=
  let '(w, ok) := allow (MaxAudioMinute (cfg c)) now (audioWindow (loop c)) in
  (set_loop {| l_pc := l_pc (loop c); violations := violations (loop c);
               controlWindow := controlWindow (loop c); audioWindow := w |} c, ok).

Definition allowControlMessage (now : Time) (c : connection) : connection * bool :=
  let '(w, ok) := allow (MaxMessagesMinute (cfg c)) now (controlWindow (loop c)) in
  (set_loop {| l_pc := l_pc (loop c); violations := violations (loop c);
               controlWindow := w; audioWindow := audioWindow (loop c) |} c, ok).

(** One turn of the loop, up to the write it ends with. *)
Definition read (r : read_input) (c : connection) : connection :=
  match r with
  | ReadError => goto Ended (cancelActive c)
  | ReadBinary now payload e1 e2 e3 send =>
      let '(c, ok) := allowAudioPacket now c in
      IF negb ok RETURN closeViolation "audio_rate_limit" c ;;
      match Protocol.DecodeAudioPacket (protocolVersion (cfg c)) payload with
      | Err v => goto (Reporting (Violated (violation_code v))) c
      | Ok opus =>
          let '(c, r) := handleAudio e1 e2 e3 send c in
          match r with
          | None => goto Reading c
          | Some x =>
              if decide (x = BudgetError ErrBudgetExceeded)
              then goto (Writing "speech_budget_exceeded" ReturnOnError) c
              else if isSpeechBudgetError x
              then goto (Writing "speech_budget_unavailable"
                           (CloseAfter "speech_budget_unavailable")) c
              else goto Ended c
          end
      end
  | ReadText now payload e control =>
      IF Protocol.MaxControlBytes <? blen payload
        RETURN closeViolation "control_frame_too_large" c ;;
      let '(c, ok) := allowControlMessage now c in
      IF negb ok RETURN closeViolation "control_rate_limit" c ;;
      handleText e payload control c
  | ReadOther => closeViolation "unsupported_frame" c
  end.

Definition reportViolation (cause : go_error) (w : option go_error) (c : connection) :
    connection :=
  let c := write (MError (classifyError cause)) w (count (count_tts 0 0 0 1) c) in
  let n := violations (loop c) +i 1 in
  let c := set_loop {| l_pc := Reading; violations := n;
                       controlWindow := controlWindow (loop c);
                       audioWindow := audioWindow (loop c) |} c in
  if 3 <=? n then closeViolation "too_many_protocol_violations" c else c.

(** The write a turn of the loop ends with. *)
Definition reply (w : option go_error) (c : connection) : option connection :=
  match l_pc (loop c) with
  | Reporting cause => Some (reportViolation cause w c)
  | Writing code k =>
      let c := write (MError code) w c in
      Some match k with
      | ReturnOnError => goto (match w with Some _ => Ended | None => Reading end) c
      | ReportOnError => conclude w c
      | CloseAfter reason => goto Ended (closeWith reason c)
      end
  | _ => None
  end.

(** ** The voice backend *)

Definition SendSTT (text : string) (w : option go_error) (c : connection) : connection :=
  IF negb (Text.ValidString text) || Text.BlankString text
     || (Protocol.MaxSTTTextBytes <? slen text) RETURN c ;;
  write (MStt text) w c.

Definition SendJSON (payload : bytes) (w : option go_error) (c : connection) : connection :=
  IF (blen payload =? 0) || (Protocol.MaxControlBytes <? blen payload) RETURN c ;;
  match Unmarshal payload with
  | None => c
  | Some envelope =>
      IF negb (bool_decide (env_Type envelope ∈ ["llm"; "mcp"; "system"; "alert"])) RETURN c ;;
      IF negb (bool_decide (env_SessionID envelope = sessionID (cfg c))) RETURN c ;;
      write (MVoice (env_Type envelope) payload) w c
  end.

(** ** The hello *)

(** The part of the gateway's configuration a connection reads. *)
Record gateway : Type := {
  g_OutputSampleRate : Z;
  g_OutputFrameMillis : Z;
  g_MaxMessagesMinute : Z;
  g_MaxAudioMinute : Z;
  g_Pricing : Pricing;
}.

(** [random] is what the random reader gave, [None] when it failed. *)
Definition newSessionID (random : option bytes) : option string :=
  match random with Some r => Some ("voice:" +:+ hex_encode r) | None => None end.

(** The connection [device] makes of the gateway's settings and of a session. *)
Definition new_connection (g : gateway) (scope session : string) (version frame : Z)
    (meter : option (sttUsageMeter Σ)) (now : Time) : connection :=
  {| cfg := {| sessionID := session; ownedScope := scope; protocolVersion := version;
               inputFrameMillis := frame; OutputFrameMillis := g_OutputFrameMillis g;
               MaxMessagesMinute := g_MaxMessagesMinute g; MaxAudioMinute := g_MaxAudioMinute g;
               SpeechPricing := g_Pricing g |};
     active := None; streams := []; ctx_done := false; out := []; closes := [];
     sttMeter := meter;
     loop := {| l_pc := Reading; violations := 0;
                controlWindow := {| windowStart := now; windowCount := 0 |};
                audioWindow := {| windowStart := now; windowCount := 0 |} |};
     counts := {| ttsRequests := 0; ttsAborts := 0; ttsErrors := 0; protocolViolations := 0;
                  speechTTSCharacters := 0; speechTTSOutputAudioMS := 0 |} |}.

(** [run] up to its loop. [text] is whether the first message is text, [opened]
    whether the voice backend accepts the session, [w] the answer to the write of the
    server's hello. *)
Definition handshake (DecodeHello : bytes → option ClientHello) (g : gateway) (scope : string)
    (headerVersion : Z) (now : Time) (l : option (Σ * Metrics)) (text : bool)
    (payload : bytes) (random : option bytes) (opened : bool) (w : option go_error) :
    connection :=
  let c := new_connection g scope "" 0 0 None now in
  IF negb text RETURN closeViolation "invalid_hello" c ;;
  match Protocol.DecodeClientHello DecodeHello payload with
  | Err v => closeViolation (violation_code v) c
  | Ok (hello, version) =>
      IF negb (headerVersion =? version) RETURN closeViolation "protocol_version_mismatch" c ;;
      match newSessionID random with
      | None => goto Ended c
      | Some session =>
          let meter := match l with
                       | Some (l, metrics) =>
                           Some (newSTTUsageMeter l (g_Pricing g) scope metrics)
                       | None => None
                       end in
          let c := new_connection g scope session version
            (Protocol.FrameDuration (Protocol.client_AudioParams hello)) meter now in
          IF negb opened RETURN goto Ended (closeWith "voice backend unavailable" c) ;;
          match Protocol.NewServerHello session (g_OutputSampleRate g)
                  (g_OutputFrameMillis g) with
          | Err _ => goto Ended c
          | Ok hello =>
              goto (match w with Some _ => Ended | None => Reading end)
                (write (MHello hello) w c)
          end
      end
  end.

(** ** Steps *)

(** [EvCancel] is [cancelActive] from the goroutine that ends the session when the
    token expires, from a revocation or from a shutdown; [EvContext] the end of the
    request's context; [EvDeadline] the synthesis timeout of a request; [EvMeter]
    the timer of the meter; [EvCloseMeter] the deferred [Close] of [run];
    [EvOthers] the use of the ledger by the rest of the gateway. *)
Inductive action : Type :=
| EvRead (r : read_input)
| EvReply (w : option go_error)
| EvStream (i : nat) (a : answer)
| EvCancel
| EvContext
| EvDeadline (i : nat)
| EvSTT (text : string) (w : option go_error)
| EvJSON (payload : bytes) (w : option go_error)
| EvMeter (e : env)
| EvCloseMeter (e1 e2 : env)
| EvOthers (l : Σ).

(** The loop reads only between two messages, a goroutine moves only with the
    answer it waits for. *)
Definition step (c : connection) (a : action) : option connection :=
  match a with
  | EvRead r => match l_pc (loop c) with Reading => Some (read r c) | _ => None end
  | EvReply w => reply w c
  | EvStream i a =>
      match streams c !! i with Some s => streamTTS i s a c | None => None end
  | EvCancel => Some (cancelActive c)
  | EvContext => Some (set_streams (expire Canceled <$> streams c) (set_done c))
  | EvDeadline i => Some (on_stream i (expire DeadlineExceeded) c)
  | EvSTT text w => Some (SendSTT text w c)
  | EvJSON payload w => Some (SendJSON payload w c)
  | EvMeter e => Some (set_meter (flush e <$> sttMeter c) c)
  | EvCloseMeter e1 e2 =>
      match l_pc (loop c) with
      | Ended => Some (set_meter (Close e1 e2 <$> sttMeter c) c)
      | _ => None
      end
  | EvOthers l => Some (set_meter ((λ m, tts_world m l (λ m, m)) <$> sttMeter c) c)
  end.

Fixpoint run_session (c : connection) (acts : list action) : option connection :=
  match acts with
  | [] => Some c
  | a :: acts => match step c a with Some c => run_session c acts | None => None end
  end.

End session.

Arguments connection Σ : clear implicits.
Arguments action Σ : clear implicits.

End VoiceSession.
