(* ===== verification/VoiceCore.v ===== *)
(** * VoiceCore: the conversation a session has with its device

    The part of a connection the device can hear ([core]) is a small transition
    system that every step of [VoiceSession] refines ([step_core]); it keeps the
    synthesis messages in the order of [conversation] as long as the device does not
    reuse request identifiers ([core_step_ok]). *)

From stdpp Require Import base gmap strings list.
From Stdlib Require Import ZArith Lia.
From Stdlib.Strings Require Import Byte.
From S2P Require Import Prelude GoBase GoCrypto BudgetSpec SpeechBudget SpeechMeter Protocol.
From S2P Require Import VoiceSession.

Module VoiceCore.
Import SpeechBudget SpeechMeter VoiceSession.
Import Protocol (violation, control_error, ControlMessage, ClientHello).

(** ** The conversation as the device sees it

    What matters to the device is the active request, where the goroutine of each
    request is, and the synthesis messages written. [core_step] is how these change:
    every step of a connection is one such step, or none. *)

Record core : Type := {
  k_active : option activeTTS;
  k_streams : list (Z * stream_pc);
  k_out : list (message * option go_error);
}.

Definition is_tts (m : message * option go_error) : bool :=
  match m.1 with MFrame _ _ => true | m => bool_decide (message_type m = "tts") end.

Definition tts_out (ms : list (message * option go_error)) : list (message * option go_error) :=
  filter (λ m, is_tts m = true) ms.

Definition k_is (k : core) (id : Z) : bool :=
  match k_active k with Some a => requestID a =? id | None => false end.

(** A goroutine moves on without a message; [act] is whether its request is active. *)
Inductive moves (act : bool) : stream_pc → stream_pc → Prop :=
| mv_start : act = false → moves act AtStart (AtError Stale)
| mv_sentence : act = false → moves act AtSentence (AtError Stale)
| mv_emit : moves act AtProvider AtProvider
| mv_provided r : moves act AtProvider (match r with Some e => AtError e | None => AtSettle end)
| mv_settle r : moves act AtSettle (match r with Some e => AtError e | None => AtFinish end)
| mv_finish : act = false → moves act AtFinish AtDefer
| mv_error e : act = false ∨ e = Canceled ∨ e = Stale → moves act (AtError e) AtDefer
| mv_defer : moves act AtDefer Finished.

(** A goroutine writes a message, or its last one. *)
Inductive says (id : Z) : stream_pc → message → option go_error → stream_pc → Prop :=
| sy_start w :
    says id AtStart (event "start" id "" "") w
      (match w with Some e => AtError e | None => AtSentence end)
| sy_sentence text w :
    says id AtSentence (event "sentence_start" id text "") w
      (match w with Some e => AtError e | None => AtProvider end)
| sy_frame packet w : says id AtProvider (MFrame id packet) w AtProvider.

Inductive ends (id : Z) : stream_pc → message → Prop :=
| en_stop : ends id AtFinish (event "stop" id "" "")
| en_error e : e ≠ Canceled → e ≠ Stale →
    ends id (AtError e) (event "error" id "" "synthesis_failed").

Definition k_set (i : nat) (id : Z) (pc : stream_pc) (k : core) : core :=
  {| k_active := k_active k; k_streams := <[i:=(id, pc)]> (k_streams k); k_out := k_out k |}.

Inductive core_step (k : core) : core → Prop :=
| k_stutter : core_step k k
| k_begin id :
    k_active k = None →
    core_step k {| k_active := Some {| requestID := id; cancel := length (k_streams k) |};
                   k_streams := k_streams k ++ [(id, AtStart)]; k_out := k_out k |}
| k_drop :
    core_step k {| k_active := None; k_streams := k_streams k; k_out := k_out k |}
| k_move i id pc pc' :
    k_streams k !! i = Some (id, pc) → moves (k_is k id) pc pc' →
    core_step k (k_set i id pc' k)
| k_say i id pc m w pc' :
    k_streams k !! i = Some (id, pc) → k_is k id = true → says id pc m w pc' →
    core_step k {| k_active := k_active k; k_streams := <[i:=(id, pc')]> (k_streams k);
                   k_out := k_out k ++ [(m, w)] |}
| k_end i id pc m w :
    k_streams k !! i = Some (id, pc) → k_is k id = true → ends id pc m →
    core_step k {| k_active := None; k_streams := <[i:=(id, AtDefer)]> (k_streams k);
                   k_out := k_out k ++ [(m, w)] |}.

Section refinement.
Context {Σ : Type} `{Ledger Σ}.
Implicit Types c : connection Σ.

Definition core_of c : core :=
  {| k_active := active c; k_streams := (λ s, (s_requestID s, s_pc s)) <$> streams c;
     k_out := tts_out (out c) |}.

Lemma tts_out_snoc ms m :
  tts_out (ms ++ [m]) = if is_tts m then tts_out ms ++ [m] else tts_out ms.
Proof.
  unfold tts_out. rewrite filter_app, filter_cons, filter_nil.
  case_decide as Hm; destruct (is_tts m); try done. by rewrite app_nil_r.
Qed.

(** What the core does not see. *)
Lemma core_set_meter m c : core_of (set_meter m c) = core_of c.
Proof. done. Qed.
Lemma core_goto pc c : core_of (goto pc c) = core_of c.
Proof. done. Qed.
Lemma core_count f c : core_of (count f c) = core_of c.
Proof. done. Qed.
Lemma core_closeViolation r c : core_of (closeViolation r c) = core_of c.
Proof. done. Qed.
Lemma core_conclude r c : core_of (conclude r c) = core_of c.
Proof. done. Qed.
Lemma core_write_other m w c :
  is_tts (m, w) = false → core_of (write m w c) = core_of c.
Proof. intros Hm. unfold core_of. cbn [out write]. by rewrite tts_out_snoc, Hm. Qed.

Lemma core_on_stream_same i f c :
  (∀ s, s_requestID (f s) = s_requestID s ∧ s_pc (f s) = s_pc s) →
  core_of (on_stream i f c) = core_of c.
Proof.
  intros Hf. unfold core_of. cbn. f_equal. apply list_eq. intros j.
  rewrite !list_lookup_fmap. destruct (decide (i = j)) as [<-|].
  - rewrite list_lookup_alter_eq. destruct (streams c !! i) as [s|]; [|done]. cbn.
    by destruct (Hf s) as [-> ->].
  - by rewrite list_lookup_alter_ne.
Qed.

Lemma core_on_stream i f pc s c :
  streams c !! i = Some s → (∀ s, s_requestID (f s) = s_requestID s ∧ s_pc (f s) = pc) →
  core_of (on_stream i f c) = k_set i (s_requestID s) pc (core_of c).
Proof.
  intros Hs Hf. unfold core_of, k_set. cbn. f_equal. apply list_eq. intros j.
  pose proof (lookup_lt_Some _ _ _ Hs). destruct (decide (i = j)) as [<-|].
  - rewrite list_lookup_insert_eq by (by rewrite length_fmap).
    rewrite list_lookup_fmap, list_lookup_alter_eq, Hs. cbn. by destruct (Hf s) as [-> ->].
  - by rewrite list_lookup_insert_ne, !list_lookup_fmap, list_lookup_alter_ne by done.
Qed.

Lemma core_drop_active c :
  core_of (drop_active c) =
  {| k_active := None; k_streams := k_streams (core_of c); k_out := k_out (core_of c) |}.
Proof.
  unfold drop_active. destruct (active c) as [a|] eqn:Ha.
  - pose proof (core_on_stream_same (cancel a) (expire Canceled) c (λ s, conj eq_refl eq_refl))
      as Heq. unfold core_of in Heq |- *. cbn in Heq |- *.
    pose proof (f_equal k_streams Heq) as Hs. cbn in Hs. by rewrite Hs.
  - unfold core_of. by rewrite Ha.
Qed.

Lemma k_is_core c id : k_is (core_of c) id = is_active c id.
Proof. done. Qed.

Lemma core_lookup c i s :
  streams c !! i = Some s → k_streams (core_of c) !! i = Some (s_requestID s, s_pc s).
Proof. intros Hs. cbn. by rewrite list_lookup_fmap, Hs. Qed.

Lemma core_step_drop c : core_step (core_of c) (core_of (drop_active c)).
Proof. rewrite core_drop_active. constructor. Qed.

(** The goroutine [i] moves on silently. *)
Lemma core_move c c' i s f pc' :
  streams c !! i = Some s → core_of c' = core_of c →
  (∀ s, s_requestID (f s) = s_requestID s ∧ s_pc (f s) = pc') →
  moves (is_active c (s_requestID s)) (s_pc s) pc' →
  core_step (core_of c) (core_of (on_stream i f c')).
Proof.
  intros Hs Hc Hf Hm. pose proof (core_lookup _ _ _ Hs) as Hk. rewrite <- Hc in Hk. cbn in Hk.
  rewrite list_lookup_fmap in Hk. destruct (streams c' !! i) as [s'|] eqn:Hs'; [|done].
  injection Hk as Hid Hpc. rewrite (core_on_stream i f pc' s') by done. rewrite Hc, Hid.
  eapply k_move; [by apply core_lookup|]. by rewrite k_is_core.
Qed.

(** The goroutine [i] writes under its active request, then moves. *)
Lemma core_say c i s m w f pc' :
  streams c !! i = Some s → is_active c (s_requestID s) = true → is_tts (m, w) = true →
  (∀ s, s_requestID (f s) = s_requestID s ∧ s_pc (f s) = pc') →
  says (s_requestID s) (s_pc s) m w pc' →
  core_step (core_of c) (core_of (on_stream i f (write m w c))).
Proof.
  intros Hs Ha Hm Hf Hsay. rewrite (core_on_stream i f pc' s) by done.
  unfold k_set, core_of. cbn [write active streams out k_active k_streams k_out].
  rewrite tts_out_snoc, Hm.
  exact (k_say (core_of c) i _ _ m w pc' (core_lookup _ _ _ Hs) Ha Hsay).
Qed.

Lemma core_finish c i s f m w :
  streams c !! i = Some s → is_active c (s_requestID s) = true → is_tts (m, w) = true →
  (∀ s, s_requestID (f s) = s_requestID s ∧ s_pc (f s) = AtDefer) →
  ends (s_requestID s) (s_pc s) m →
  core_step (core_of c) (core_of (on_stream i f (drop_active (write m w c)))).
Proof.
  intros Hs Ha Hm Hf Hend.
  assert (∃ s', streams (drop_active (write m w c)) !! i = Some s' ∧
    s_requestID s' = s_requestID s) as (s' & Hs' & Hid).
  { unfold drop_active. cbn. destruct (active c) as [a|]; [|by exists s]. cbn.
    destruct (decide (cancel a = i)) as [->|].
    - rewrite list_lookup_alter_eq, Hs. cbn. eauto.
    - rewrite list_lookup_alter_ne by done. eauto. }
  rewrite (core_on_stream i f AtDefer s'), Hid, core_drop_active by done.
  unfold k_set, core_of. cbn [write active streams out k_active k_streams k_out].
  rewrite tts_out_snoc, Hm.
  exact (k_end (core_of c) i _ _ m w (core_lookup _ _ _ Hs) Ha Hend).
Qed.

Lemma writeIfActive_cases id m w c :
  is_active c id = true ∧ writeIfActive id m w c = (write m w c, w) ∨
  is_active c id = false ∧ writeIfActive id m w c = (c, Some Stale).
Proof. unfold writeIfActive. destruct (is_active c id); auto. Qed.

Lemma core_settleTTS e i res n ms c : core_of (settleTTS e i res n ms c).1 = core_of c.
Proof.
  unfold settleTTS. destruct (_ =? 0); [done|]. destruct (sttMeter c) as [m|]; [|done].
  destruct (l_Settle _ _ _ _) as [l [st|x]]; cbn [fst];
    rewrite ?core_count, core_set_meter; by apply core_on_stream_same.
Qed.

Lemma core_releaseTTS e i res c : core_of (releaseTTS e i res c) = core_of c.
Proof.
  unfold releaseTTS. destruct (_ =? 0); [done|]. destruct (sttMeter c) as [m|]; [|done].
  destruct (l_Release _ _ _) as [l r]. rewrite core_set_meter. by apply core_on_stream_same.
Qed.

Lemma core_uncertainTTS e i res c : core_of (uncertainTTS e i res c) = core_of c.
Proof.
  unfold uncertainTTS. destruct (_ =? 0); [done|]. destruct (sttMeter c) as [m|]; [|done].
  destruct (l_MarkUncertain _ _ _) as [l r]. rewrite core_set_meter.
  by apply core_on_stream_same.
Qed.

(** The goroutine of a request follows the core. *)
Lemma streamTTS_core i s a c c' :
  streams c !! i = Some s → streamTTS i s a c = Some c' →
  core_step (core_of c) (core_of c').
Proof.
  intros Hs. unfold streamTTS.
  destruct (s_pc s) as [| | | | |cause| |] eqn:Hpc; destruct a as [w|opus w|r|e]; try done.
  - destruct (writeIfActive_cases (s_requestID s) (event "start" (s_requestID s) "" "") w c)
      as [ [Ha ->]|[Ha ->] ]; intros [= <-].
    + eapply core_say with (pc' := match w with Some e => AtError e | None => AtSentence end);
        try done. rewrite Hpc. constructor.
    + eapply (core_move c c i s _ (AtError Stale)); try done. rewrite Hpc. by constructor.
  - destruct (writeIfActive_cases (s_requestID s)
      (event "sentence_start" (s_requestID s) (s_text s) "") w c) as [ [Ha ->]|[Ha ->] ];
      intros [= <-].
    + eapply core_say with (pc' := match w with Some e => AtError e | None => AtProvider end);
        try done; [by destruct w|]. rewrite Hpc. constructor.
    + eapply (core_move c c i s _ (AtError Stale)); try done. rewrite Hpc. by constructor.
  - intros [= <-]. unfold emitTTS. destruct (Protocol.EncodeAudioPacket _ _) as [packet|v].
    + destruct (writeIfActive_cases (s_requestID s) (MFrame (s_requestID s) packet) w c)
        as [ [Ha ->]|[Ha ->] ].
      * assert (core_of (on_stream i (emitted w) (write (MFrame (s_requestID s) packet) w c)) =
          core_of (on_stream i (jump AtProvider)
            (write (MFrame (s_requestID s) packet) w c))) as ->.
        { rewrite core_on_stream_same by done.
          rewrite (core_on_stream i (jump AtProvider) AtProvider s) by done.
          symmetry. unfold k_set. rewrite list_insert_id; [done|].
          rewrite <- Hpc. by apply (core_lookup (write _ w c)). }
        eapply core_say with (pc' := AtProvider); try done. rewrite Hpc. constructor.
      * rewrite core_on_stream_same by done. constructor.
    + rewrite core_on_stream_same by done. constructor.
  - intros [= <-].
    eapply (core_move c c) with (pc' := match r with Some e => AtError e | None => AtSettle end);
      try done. rewrite Hpc. constructor.
  - destruct (settleTTS _ _ _ _ _ c) as [c1 r] eqn:Hset.
    pose proof (core_settleTTS e i (s_reservation s) (s_characters s)
      (s_frames s *i OutputFrameMillis (cfg c)) c) as Hc. rewrite Hset in Hc. cbn in Hc.
    intros [= <-]. eapply (core_move c c1) with
      (pc' := match match r with Ok _ => None | Err x => Some (BudgetError x) end with
              Some e => AtError e | None => AtFinish end); try done; [by destruct r|].
    rewrite Hpc. constructor.
  - unfold finishTTS. destruct (is_active c (s_requestID s)) eqn:Ha; intros [= <-].
    + eapply core_finish; try done. rewrite Hpc. constructor.
    + eapply (core_move c c) with (pc' := AtDefer); try done. rewrite Hpc, Ha. by constructor.
  - unfold handleTTSError. destruct (_ || _) eqn:Hcause; intros [= <-].
    + eapply (core_move c c) with (pc' := AtDefer); try done. rewrite Hpc. constructor. right.
      apply orb_true_iff in Hcause as [?|?]; split_bools; auto.
    + split_bools. unfold finishTTS, is_active. cbn [count active set_counts].
      destruct (match active c with Some a => requestID a =? s_requestID s | None => false end)
        eqn:Ha; cbn [negb fst].
      * rewrite <- (core_count (count_tts 0 0 1 0) c).
        eapply (core_finish (count (count_tts 0 0 1 0) c)); try done. rewrite Hpc.
        by constructor.
      * eapply (core_move c) with (pc' := AtDefer); try done. rewrite Hpc. constructor. by left.
  - intros [= <-]. eapply (core_move c) with (pc' := Finished); try done; [|rewrite Hpc; constructor].
    destruct (reservationFinished s); [done|].
    destruct (providerContacted s); [apply core_uncertainTTS|apply core_releaseTTS].
Qed.

Lemma core_reserveTTS e n c :
  core_of (reserveTTS e n c).1 = core_of c ∧ active (reserveTTS e n c).1 = active c ∧
  streams (reserveTTS e n c).1 = streams c.
Proof.
  unfold reserveTTS. destruct (sttMeter c) as [m|]; [|done].
  destruct (l_Reserve _ _ _ _) as [l [res|x]]; done.
Qed.

Lemma startTTS_core e id text c : core_step (core_of c) (core_of (startTTS e id text c)).
Proof.
  unfold startTTS. destruct (active c) as [a|] eqn:Ha; [constructor|].
  pose proof (core_reserveTTS e (RuneCountInString text) c) as (Hc & Hac & Hst).
  destruct (reserveTTS _ _ c) as [c1 [res|x]]; cbn in Hc, Hac, Hst.
  - match goal with |- core_step _ ?x => assert (x = {|
      k_active := Some {| requestID := id; cancel := length (k_streams (core_of c)) |};
      k_streams := k_streams (core_of c) ++ [(id, AtStart)]; k_out := k_out (core_of c) |}) as -> end.
    { pose proof (f_equal k_out Hc) as Hout. unfold core_of in Hout |- *. cbn in Hout |- *.
      rewrite Hst, fmap_app, length_fmap. f_equal. exact Hout. }
    by apply k_begin.
  - rewrite core_goto, Hc. constructor.
Qed.

Context (Unmarshal : bytes → option envelope) (Decode : bytes → option ControlMessage).

Lemma handleText_core e payload control c :
  core_step (core_of c) (core_of (handleText Unmarshal Decode e payload control c)).
Proof.
  unfold handleText. destruct (Unmarshal payload) as [routing|]; [|constructor].
  destruct (bool_decide _); [constructor|]. destruct (negb _); [constructor|].
  case_decide; [|case_decide; constructor].
  destruct (Protocol.DecodeControl _ _ _) as [ [message id]|x]; [|constructor].
  case_decide; [apply startTTS_core|]. unfold abortTTS.
  destruct (negb _); [constructor|]. rewrite core_conclude, core_count. apply core_step_drop.
Qed.

Lemma read_core r c : core_step (core_of c) (core_of (read Unmarshal Decode r c)).
Proof.
  destruct r as [|now payload e1 e2 e3 send|now payload e control|]; cbn [read].
  - rewrite core_goto. apply core_step_drop.
  - unfold allowAudioPacket. destruct (allow _ _ _) as [w ok].
    destruct (negb ok); [constructor|].
    destruct (Protocol.DecodeAudioPacket _ _); [|constructor].
    unfold handleAudio. destruct (sttMeter _) as [m|].
    + destruct (HandleAudio _ _ _ _ _ _) as [m' [ []|x] ]; [constructor|].
      case_decide; [constructor|]. destruct (isSpeechBudgetError _); constructor.
    + destruct send; [|constructor]. case_decide; [constructor|].
      destruct (isSpeechBudgetError _); constructor.
  - destruct (_ <? _); [constructor|]. unfold allowControlMessage.
    destruct (allow _ _ _) as [w ok]. destruct (negb ok); [constructor|].
    match goal with |- core_step _ (core_of (handleText _ _ _ _ _ ?x)) =>
      change (core_of c) with (core_of x) end.
    apply handleText_core.
  - constructor.
Qed.

(** Every step of a connection is a step of the core, or leaves it as it is. *)
Lemma step_core c a c' :
  step Unmarshal Decode c a = Some c' → core_step (core_of c) (core_of c').
Proof.
  destruct a as [r|w|i a| | |i|text w|payload w|e|e1 e2|l]; cbn [step].
  - destruct (l_pc _); [|done..]. intros [= <-]. apply read_core.
  - unfold reply. destruct (l_pc _) as [|cause|code k|]; [done|..|done]; intros [= <-].
    + unfold reportViolation.
      match goal with |- context [if ?b then closeViolation _ ?x else ?x] =>
        assert (core_of (if b then closeViolation "too_many_protocol_violations" x else x) =
          core_of c) as -> end; [|constructor].
      destruct (3 <=? _); rewrite ?core_closeViolation;
        exact (core_write_other (MError (classifyError cause)) w (count (count_tts 0 0 0 1) c) eq_refl).
    + pose proof (core_write_other (MError code) w c eq_refl) as Hw.
      destruct k; unfold conclude; rewrite core_goto.
      * rewrite Hw. constructor.
      * rewrite Hw. constructor.
      * assert (core_of (closeWith reason (write (MError code) w c)) = core_of c) as ->
          by done. constructor.
  - destruct (streams c !! i) as [s|] eqn:Hs; [|done]. by apply streamTTS_core.
  - intros [= <-]. apply core_step_drop.
  - intros [= <-].
    assert (core_of (set_streams (expire Canceled <$> streams c) (set_done c)) = core_of c) as ->
      by (unfold core_of; cbn; by rewrite <- list_fmap_compose). constructor.
  - intros [= <-]. rewrite core_on_stream_same by done. constructor.
  - intros [= <-]. unfold SendSTT. destruct (_ || _); [constructor|].
    rewrite core_write_other by done. constructor.
  - intros [= <-]. unfold SendJSON. destruct (_ || _); [constructor|].
    destruct (Unmarshal payload) as [en|]; [|constructor].
    destruct (negb _) eqn:Hty; [constructor|].
    apply negb_false_iff, bool_decide_eq_true in Hty.
    destruct (negb _); [constructor|]. rewrite core_write_other; [constructor|]. unfold is_tts. cbn.
    apply bool_decide_false. intros Heq. rewrite Heq in *. set_solver.
  - intros [= <-]. rewrite core_set_meter. constructor.
  - destruct (l_pc _); [done..|]. intros [= <-]. rewrite core_set_meter. constructor.
  - intros [= <-]. rewrite core_set_meter. constructor.
Qed.

End refinement.

(** ** The conversation the device can rely on

    At any moment the device hears at most one request: its start, its sentence, its
    frames and its end, in this order; the gateway may fall silent at any point, and
    then only a new request speaks. A message whose write failed may be followed only
    by the error of the same request, except that frames may go on. *)

Inductive voice_phase : Type :=
| Quiet
| Opening (id : Z)
| Speaking (id : Z)
| Failing (id : Z).

Inductive speak : voice_phase → message * option go_error → voice_phase → Prop :=
| sp_start id w :
    speak Quiet (event "start" id "" "", w)
      (match w with Some _ => Failing id | None => Opening id end)
| sp_sentence id text w :
    speak (Opening id) (event "sentence_start" id text "", w)
      (match w with Some _ => Failing id | None => Speaking id end)
| sp_frame id packet w : speak (Speaking id) (MFrame id packet, w) (Speaking id)
| sp_stop id w : speak (Speaking id) (event "stop" id "" "", w) Quiet
| sp_error id p w :
    p = Failing id ∨ p = Speaking id →
    speak p (event "error" id "" "synthesis_failed", w) Quiet.

Inductive conversation : list (message * option go_error) → voice_phase → Prop :=
| cv_nil : conversation [] Quiet
| cv_hush ms p : conversation ms p → conversation ms Quiet
| cv_say ms p m p' : conversation ms p → speak p m p' → conversation (ms ++ [m]) p'.

(** The request a synthesis message belongs to, and the requests announced. *)
Definition request_of (m : message) : option Z :=
  match m with
  | MTts e => Some (ev_RequestID e)
  | MFrame id _ => Some id
  | _ => None
  end.

Definition start_of (m : message * option go_error) : option Z :=
  match m.1 with
  | MTts e => if decide (State e = "start") then Some (ev_RequestID e) else None
  | _ => None
  end.

Definition starts (ms : list (message * option go_error)) : list Z := omap start_of ms.

Lemma starts_snoc ms m :
  starts (ms ++ [m]) = starts ms ++ match start_of m with Some id => [id] | None => [] end.
Proof. unfold starts. rewrite omap_app. cbn. by destruct (start_of m). Qed.

(** The phase the goroutine of the active request leaves the conversation in. *)
Definition pc_phase (id : Z) (pc : stream_pc) (p : voice_phase) : Prop :=
  match pc with
  | AtStart => p = Quiet
  | AtSentence => p = Opening id
  | AtProvider | AtSettle | AtFinish => p = Speaking id
  | AtError _ => p = Failing id ∨ p = Speaking id
  | AtDefer | Finished => True
  end.

Definition phase_ok (k : core) (p : voice_phase) : Prop :=
  match k_active k with
  | None => p = Quiet
  | Some a => ∃ pc, k_streams k !! cancel a = Some (requestID a, pc) ∧
                    pc_phase (requestID a) pc p
  end.

Record core_ok (k : core) : Prop := {
  ok_phase : ∃ p, conversation (k_out k) p ∧ phase_ok k p;
  ok_starts : NoDup (starts (k_out k));
  ok_started id : id ∈ starts (k_out k) →
    ∃ i pc, k_streams k !! i = Some (id, pc) ∧ pc ≠ AtStart;
}.

Definition k_ids (k : core) : list Z := (k_streams k).*1.

Lemma ids_insert (l : list (Z * stream_pc)) i id pc pc' :
  l !! i = Some (id, pc) → (<[i:=(id, pc')]> l).*1 = l.*1.
Proof.
  intros Hl. rewrite list_fmap_insert. apply list_insert_id. by rewrite list_lookup_fmap, Hl.
Qed.

(** The requests only grow. *)
Lemma core_step_ids k k' : core_step k k' → k_ids k `prefix_of` k_ids k'.
Proof.
  unfold k_ids. destruct 1; cbn; try done.
  - rewrite fmap_app. by apply prefix_app_r.
  - erewrite ids_insert by done. done.
  - erewrite ids_insert by done. done.
  - erewrite ids_insert by done. done.
Qed.

Lemma ids_unique (l : list (Z * stream_pc)) i j id pc pc' :
  NoDup (l.*1) → l !! i = Some (id, pc) → l !! j = Some (id, pc') → i = j.
Proof.
  intros Hnd Hi Hj. apply (NoDup_lookup (l.*1) i j id Hnd); by rewrite list_lookup_fmap, ?Hi, ?Hj.
Qed.

(** With distinct requests, only the goroutine of the active request passes the
    guard of [writeIfActive]. *)
Lemma speaker_active k p i id pc :
  NoDup (k_ids k) → phase_ok k p → k_streams k !! i = Some (id, pc) → k_is k id = true →
  k_active k = Some {| requestID := id; cancel := i |} ∧ pc_phase id pc p.
Proof.
  unfold k_is, phase_ok. intros Hnd Hp Hi Ha. destruct (k_active k) as [ [rid n] |]; [|done].
  cbn in *. split_bools. subst rid. destruct Hp as (pc0 & Hn & Hph).
  assert (n = i) as -> by (by eapply ids_unique). by simplify_eq.
Qed.

Lemma phase_ok_other k k' p i id pc :
  phase_ok k p → k_active k' = k_active k → k_streams k !! i = Some (id, pc) →
  (∀ j, j ≠ i → k_streams k' !! j = k_streams k !! j) →
  (∀ a, k_active k = Some a → cancel a ≠ i) → phase_ok k' p.
Proof.
  unfold phase_ok. intros Hp -> Hi Hother Hne. destruct (k_active k) as [a|]; [|done].
  destruct Hp as (pc0 & Ha & Hph). exists pc0. rewrite Hother by eauto. done.
Qed.

(** A goroutine that moves silently keeps to the phase. *)
Lemma moves_phase act id pc pc' p :
  moves act pc pc' → act = true → pc_phase id pc p → pc_phase id pc' p.
Proof.
  destruct 1 as [| | |r|r| | |]; intros Hact Hp; try congruence; try done.
  - destruct r; cbn in *; auto.
  - destruct r; cbn in *; auto.
Qed.

Lemma says_phase id pc m w pc' p :
  says id pc m w pc' → pc_phase id pc p → ∃ p', speak p (m, w) p' ∧ pc_phase id pc' p'.
Proof.
  destruct 1 as [w|text w|packet w]; cbn [pc_phase]; intros ->; (eexists; split; [constructor|]).
  - destruct w; cbn; auto.
  - destruct w; cbn; auto.
  - done.
Qed.

Lemma ends_phase id pc m w p : ends id pc m → pc_phase id pc p → speak p (m, w) Quiet.
Proof. destruct 1; cbn; [intros ->; constructor|intros ?; by constructor]. Qed.

Lemma moves_started act pc pc' : moves act pc pc' → pc' ≠ AtStart.
Proof. by destruct 1 as [| | |[]|[]| | |]. Qed.
Lemma says_started id pc m w pc' : says id pc m w pc' → pc' ≠ AtStart.
Proof. by destruct 1 as [[]|? []|]. Qed.

(** A goroutine that has moved on stays announced. *)
Lemma started_insert (l : list (Z * stream_pc)) i id pc pc' sid :
  l !! i = Some (id, pc) → pc' ≠ AtStart →
  (∃ j q, l !! j = Some (sid, q) ∧ q ≠ AtStart) →
  ∃ j q, <[i:=(id, pc')]> l !! j = Some (sid, q) ∧ q ≠ AtStart.
Proof.
  intros Hi Hpc (j & q & Hj & Hq). pose proof (lookup_lt_Some _ _ _ Hi).
  destruct (decide (i = j)) as [<-|].
  - exists i, pc'. rewrite list_lookup_insert_eq by done. by simplify_eq.
  - exists j, q. by rewrite list_lookup_insert_ne.
Qed.

Lemma says_start id pc m w pc' :
  says id pc m w pc' → start_of (m, w) = None ∨ start_of (m, w) = Some id ∧ pc = AtStart.
Proof. destruct 1; auto. Qed.

Lemma ends_start id pc m w : ends id pc m → start_of (m, w) = None.
Proof. by destruct 1. Qed.

(** The core keeps the conversation in order, as long as requests are distinct. *)
Lemma core_step_ok k k' : core_ok k → NoDup (k_ids k') → core_step k k' → core_ok k'.
Proof.
  intros [ (p & Hcv & Hp) Hnd Hst ] Hids Hstep.
  assert (NoDup (k_ids k)) as Hidsk.
  { destruct (core_step_ids _ _ Hstep) as [ids Heq]. rewrite Heq in Hids.
    by apply NoDup_app in Hids as [? _]. }
  destruct Hstep as [|id Ha| |i id pc pc' Hi Hm|i id pc m w pc' Hi Ha Hm|i id pc m w Hi Ha Hm].
  - split; eauto.
  - split; [|done|]; cbn.
    + exists p. split; [done|]. unfold phase_ok in *. cbn. rewrite Ha in Hp. subst p.
      exists AtStart. split; [|done]. by rewrite lookup_app_r, Nat.sub_diag by done.
    + intros sid (j & q & Hj & Hq)%Hst. exists j, q. split; [|done]. by apply lookup_app_l_Some.
  - split; [|done|done]. exists Quiet. split; [by econstructor|done].
  - split; [|done|].
    + exists p. split; [done|]. destruct (k_is k id) eqn:Ha.
      * destruct (speaker_active _ _ _ _ _ Hidsk Hp Hi Ha) as [Hact Hph].
        unfold phase_ok. cbn. rewrite Hact. cbn. exists pc'.
        rewrite list_lookup_insert_eq by (by eapply lookup_lt_Some). split; [done|].
        by eapply moves_phase.
      * eapply (phase_ok_other k _ p i); try done.
        { intros j Hj. cbn. by rewrite list_lookup_insert_ne. }
        intros a Hact <-. unfold phase_ok in Hp. rewrite Hact in Hp.
        destruct Hp as (pc0 & Hc & _). unfold k_is in Ha. rewrite Hact in Ha.
        split_bools. congruence.
    + intros sid Hsid%Hst. eapply started_insert; [done|by eapply moves_started|done].
  - destruct (speaker_active _ _ _ _ _ Hidsk Hp Hi Ha) as [Hact Hph].
    destruct (says_phase _ _ _ _ _ _ Hm Hph) as (p' & Hsp & Hph').
    pose proof (says_started _ _ _ _ _ Hm) as Hpc'.
    assert (<[i:=(id, pc')]> (k_streams k) !! i = Some (id, pc')) as Hins
      by (apply list_lookup_insert_eq; by eapply lookup_lt_Some).
    split; cbn.
    + exists p'. split; [by econstructor|]. unfold phase_ok. cbn. rewrite Hact. cbn. eauto.
    + rewrite starts_snoc. destruct (says_start _ _ _ _ _ Hm) as [->|[-> ->] ];
        [by rewrite app_nil_r|].
      apply NoDup_app. split_and!; [done| |apply NoDup_singleton].
      intros x Hx ->%list_elem_of_singleton. apply Hst in Hx as (j & q & Hj & Hq).
      assert (j = i) as -> by (by eapply ids_unique). congruence.
    + intros sid. rewrite starts_snoc, elem_of_app. intros [Hsid%Hst|Hsid].
      * by eapply started_insert.
      * destruct (says_start _ _ _ _ _ Hm) as [Heq|[Heq _] ]; rewrite Heq in Hsid;
          [by apply elem_of_nil in Hsid|]. apply list_elem_of_singleton in Hsid as ->. eauto.
  - destruct (speaker_active _ _ _ _ _ Hidsk Hp Hi Ha) as [Hact Hph].
    pose proof (ends_phase _ _ _ w _ Hm Hph) as Hsp. split; cbn.
    + exists Quiet. split; [by econstructor|done].
    + by rewrite starts_snoc, (ends_start _ _ _ _ Hm), app_nil_r.
    + intros sid. rewrite starts_snoc, (ends_start _ _ _ _ Hm), app_nil_r. intros Hsid%Hst.
      by eapply started_insert.
Qed.

(** A request that is known and no longer active never speaks again. *)
Definition silenced (k : core) (id : Z) : Prop :=
  (∃ i pc, k_streams k !! i = Some (id, pc)) ∧ k_is k id = false.

Lemma silenced_step k k' id :
  silenced k id → NoDup (k_ids k') → core_step k k' →
  silenced k' id ∧ ∃ new, k_out k' = k_out k ++ new ∧
    Forall (λ m, request_of m.1 ≠ Some id) new.
Proof.
  intros [ (i0 & pc0 & Hi0) Hsil] Hids Hstep.
  assert (∀ (l : list (Z * stream_pc)) i nid pc pc', l !! i = Some (nid, pc) →
    (∃ j q, l !! j = Some (id, q)) →
    ∃ j q, <[i:=(nid, pc')]> l !! j = Some (id, q)) as Hins.
  { intros l i nid pc pc' Hi (j & q & Hj). destruct (decide (i = j)) as [<-|].
    - exists i, pc'. rewrite list_lookup_insert_eq by (by eapply lookup_lt_Some). by simplify_eq.
    - exists j, q. by rewrite list_lookup_insert_ne. }
  destruct Hstep as [|nid Ha| |i nid pc pc' Hi Hm|i nid pc m w pc' Hi Ha Hm|i nid pc m w Hi Ha Hm];
    unfold silenced, k_is in *; cbn.
  - split; [eauto|]. exists []. by rewrite app_nil_r.
  - split; [|exists []; by rewrite app_nil_r]. split.
    + exists i0, pc0. by apply lookup_app_l_Some.
    + apply Z.eqb_neq. intros ->. unfold k_ids in Hids. cbn in Hids.
      rewrite fmap_app in Hids. apply NoDup_app in Hids as (_ & Hnin & _).
      apply (Hnin id); [|cbn; by left]. apply list_elem_of_fmap. exists (id, pc0). split; [done|].
      by eapply list_elem_of_lookup_2.
  - split; [split; [eauto|done]|]. exists []. by rewrite app_nil_r.
  - split; [|exists []; by rewrite app_nil_r]. split; [|done]. eauto.
  - split; [split; [|done]; eauto|]. exists [(m, w)]. split; [done|].
    constructor; [|done]. cbn. destruct (k_active k) as [a|]; [|done].
    split_bools. by destruct Hm; cbn; congruence.
  - split; [split; [|done]; eauto|]. exists [(m, w)]. split; [done|].
    constructor; [|done]. cbn. destruct (k_active k) as [a|]; [|done].
    split_bools. by destruct Hm; cbn; congruence.
Qed.

End VoiceCore.
