(* ===== verification/VoiceBooks.v ===== *)
(** * VoiceBooks: accounts, meter and slot of a session

    What every step of a connection does to the goroutines ([step_shape]), to their
    accounts with the ledger ([step_books]), to the meter ([step_meter]) and to the
    slot of the active request ([step_slot]). *)

From stdpp Require Import base gmap strings list.
From Stdlib Require Import ZArith Lia.
From Stdlib.Strings Require Import Byte.
From S2P Require Import Prelude GoBase GoCrypto BudgetSpec SpeechBudget SpeechMeter Protocol.
From S2P Require Import VoiceSession VoiceCore.

Module VoiceBooks.
Import SpeechBudget SpeechMeter VoiceSession VoiceCore.
Import Protocol (violation, control_error, ControlMessage, ClientHello).

(** ** Accounting for synthesis *)

(** A goroutine up to its context. *)
Definition strip (s : stream) : stream :=
  {| s_requestID := s_requestID s; s_text := s_text s; s_characters := s_characters s;
     s_reservation := s_reservation s; s_ctx := None; s_pc := s_pc s;
     s_frames := s_frames s; providerContacted := providerContacted s;
     reservationFinished := reservationFinished s; s_acts := s_acts s;
     s_emit_errors := s_emit_errors s |}.

Section accounting.
Context {Σ : Type} `{Ledger Σ}.
Implicit Types c : connection Σ.

(** The reservation was settled for the characters and the audio produced; or
    settling failed; or nothing was asked of the ledger yet. *)
Definition paid (frame : Z) (s : stream) : Prop :=
  ReservedMicrousd (s_reservation s) = 0 ∧ s_acts s = [] ∨
  ∃ st, s_acts s = [TtsSettle (s_reservation s) (s_characters s) (s_frames s *i frame) (Ok st)].

Definition settle_failed (frame : Z) (s : stream) (rest : list tts_act) : Prop :=
  ReservedMicrousd (s_reservation s) ≠ 0 ∧ providerContacted s = true ∧ ∃ x,
    s_acts s =
      TtsSettle (s_reservation s) (s_characters s) (s_frames s *i frame) (Err x) :: rest.

Definition pending (frame : Z) (s : stream) : Prop :=
  s_acts s = [] ∨ settle_failed frame s [].

Definition given_up (frame : Z) (s : stream) : Prop :=
  ReservedMicrousd (s_reservation s) = 0 ∧ s_acts s = [] ∨
  (∃ r, settle_failed frame s [TtsUncertain (s_reservation s) r]) ∨
  providerContacted s = true ∧ (∃ r, s_acts s = [TtsUncertain (s_reservation s) r]) ∨
  providerContacted s = false ∧ ∃ r, s_acts s = [TtsRelease (s_reservation s) r].

Definition accounted (frame : Z) (s : stream) : Prop :=
  match s_pc s with
  | AtStart | AtSentence =>
      providerContacted s = false ∧ reservationFinished s = false ∧ s_acts s = []
  | AtProvider | AtSettle =>
      providerContacted s = true ∧ reservationFinished s = false ∧ s_acts s = []
  | AtFinish => reservationFinished s = true ∧ paid frame s
  | AtError _ => reservationFinished s = false ∧ pending frame s
  | AtDefer => if reservationFinished s then paid frame s else pending frame s
  | Finished => if reservationFinished s then paid frame s else given_up frame s
  end.

Lemma accounted_strip frame s : accounted frame (strip s) ↔ accounted frame s.
Proof. done. Qed.

Definition is_frame (m : message * option go_error) : bool :=
  match m.1 with MFrame _ _ => true | _ => false end.
Definition is_stop (m : message * option go_error) : bool :=
  match m.1 with MTts e => bool_decide (State e = "stop") | _ => false end.

(** What a step of the goroutine [i], in state [s], does: to its own state, to the
    messages written, and nothing to the other goroutines but their contexts. *)
Record walk c i s c' (s' : stream) (new : list (message * option go_error)) : Prop := {
  w_streams : strip <$> streams c' = <[i:=strip s']> (strip <$> streams c);
  w_out : tts_out (out c') = tts_out (out c) ++ new;
  w_id : s_requestID s' = s_requestID s;
  w_reservation : s_reservation s' = s_reservation s;
  w_own : Forall (λ m, request_of m.1 = Some (s_requestID s)) new;
  w_stop m : m ∈ new → is_stop m = true → reservationFinished s' = true;
  w_frames :
    s_frames s' = s_frames s ∧ Forall (λ m, is_frame m = false) new ∨
    s_pc s = AtProvider ∧ s_frames s' = s_frames s +i 1 ∧ (length new ≤ 1)%nat;
  w_finished : reservationFinished s = true → reservationFinished s' = true;
  w_contacted : providerContacted s = true → providerContacted s' = true;
}.

Lemma strip_alter f i (ss : list stream) s :
  ss !! i = Some s → strip <$> alter f i ss = <[i:=strip (f s)]> (strip <$> ss).
Proof.
  intros Hs. pose proof (lookup_lt_Some _ _ _ Hs). apply list_eq. intros j.
  rewrite list_lookup_fmap. destruct (decide (i = j)) as [<-|].
  - by rewrite list_lookup_insert_eq, list_lookup_alter_eq, Hs by (by rewrite length_fmap).
  - by rewrite list_lookup_insert_ne, list_lookup_alter_ne, list_lookup_fmap.
Qed.

Lemma strip_alter_same f i (ss : list stream) :
  (∀ s, strip (f s) = strip s) → strip <$> alter f i ss = strip <$> ss.
Proof.
  intros Hf. destruct (ss !! i) as [s|] eqn:Hs.
  - rewrite (strip_alter f i ss s) by done. rewrite Hf. apply list_insert_id.
    by rewrite list_lookup_fmap, Hs.
  - f_equal. apply list_eq. intros j. destruct (decide (i = j)) as [<-|].
    + by rewrite list_lookup_alter_eq, Hs.
    + by rewrite list_lookup_alter_ne.
Qed.

Lemma strip_drop_active c : strip <$> streams (drop_active c) = strip <$> streams c.
Proof.
  unfold drop_active. destruct (active c) as [a|]; [|done]. cbn. by apply strip_alter_same.
Qed.

Lemma out_drop_active c : out (drop_active c) = out c.
Proof. unfold drop_active. by destruct (active c). Qed.

Lemma drop_active_lookup c i s :
  streams c !! i = Some s →
  ∃ s', streams (drop_active c) !! i = Some s' ∧ strip s' = strip s.
Proof.
  intros Hs. pose proof (strip_drop_active c) as Heq.
  apply (f_equal (λ l, l !! i)) in Heq. rewrite !list_lookup_fmap, Hs in Heq.
  destruct (streams (drop_active c) !! i) as [s'|]; [|done].
  exists s'. split; [done|]. by apply (inj Some) in Heq.
Qed.

(** The goroutine only changes its own state. *)
Lemma walk_local c i s f c1 c' :
  streams c !! i = Some s → c' = on_stream i f c1 → streams c1 = streams c → out c1 = out c →
  s_requestID (f s) = s_requestID s → s_reservation (f s) = s_reservation s →
  s_frames (f s) = s_frames s → reservationFinished (f s) = reservationFinished s ∨
  reservationFinished (f s) = true → (providerContacted s = true → providerContacted (f s) = true) →
  walk c i s c' (f s) [].
Proof.
  intros Hs -> Hst Hout Hid Hres Hfr Hfin Hcon. split; try done.
  - cbn. rewrite Hst. by apply strip_alter.
  - cbn. by rewrite Hout, app_nil_r.
  - by intros m Hm%elem_of_nil.
  - left. done.
  - intros Hf. destruct Hfin as [->|]; done.
Qed.

(** It writes a message that is no frame and no stop. *)
Lemma walk_write c i s f m w c' :
  streams c !! i = Some s → c' = on_stream i f (write m w c) → is_tts (m, w) = true →
  request_of m = Some (s_requestID s) → is_frame (m, w) = false → is_stop (m, w) = false →
  s_requestID (f s) = s_requestID s → s_reservation (f s) = s_reservation s →
  s_frames (f s) = s_frames s → reservationFinished (f s) = reservationFinished s →
  (providerContacted s = true → providerContacted (f s) = true) →
  walk c i s c' (f s) [(m, w)].
Proof.
  intros Hs -> Ht Hreq Hf Hstop Hid Hres Hfr Hfin Hcon. split; try done.
  - by apply strip_alter.
  - cbn [on_stream set_streams out write]. by rewrite tts_out_snoc, Ht.
  - by constructor.
  - intros m' ->%list_elem_of_singleton. congruence.
  - left. split; [done|]. by constructor.
  - congruence.
Qed.

(** It writes its last message and gives up the request. *)
Lemma walk_end c i s m w c' :
  streams c !! i = Some s → c' = on_stream i (jump AtDefer) (drop_active (write m w c)) →
  is_tts (m, w) = true → request_of m = Some (s_requestID s) → is_frame (m, w) = false →
  (is_stop (m, w) = true → reservationFinished s = true) →
  walk c i s c' (jump AtDefer s) [(m, w)].
Proof.
  intros Hs -> Ht Hreq Hf Hstop.
  destruct (drop_active_lookup (write m w c) i s Hs) as (s1 & Hs1 & Heq).
  split; try done.
  - cbn [on_stream set_streams streams]. rewrite (strip_alter _ _ _ s1) by done.
    rewrite strip_drop_active. f_equal.
    change (jump AtDefer (strip s1) = jump AtDefer (strip s)). by rewrite Heq.
  - cbn [on_stream set_streams out]. rewrite out_drop_active. cbn.
    by rewrite tts_out_snoc, Ht.
  - by constructor.
  - intros m' ->%list_elem_of_singleton. exact Hstop.
  - left. split; [done|]. by constructor.
Qed.

(** What each ledger call leaves to the goroutine [i]. *)
Lemma settleTTS_stream e i s ms c c1 r :
  streams c !! i = Some s → (ReservedMicrousd (s_reservation s) ≠ 0 → sttMeter c ≠ None) →
  settleTTS e i (s_reservation s) (s_characters s) ms c = (c1, r) →
  out c1 = out c ∧
  (ReservedMicrousd (s_reservation s) = 0 ∧ streams c1 = streams c ∧ r = Ok tt ∨
   ReservedMicrousd (s_reservation s) ≠ 0 ∧ ∃ a,
     streams c1 = alter (acted [TtsSettle (s_reservation s) (s_characters s) ms a]) i (streams c) ∧
     match a with Ok _ => r = Ok tt | Err x => r = Err x end).
Proof.
  intros Hs Hm. unfold settleTTS. destruct (_ =? 0) eqn:Hz; split_bools.
  { intros [= <- <-]. auto. }
  destruct (sttMeter c) as [m|]; [|by destruct (Hm Hz)].
  destruct (l_Settle _ _ _ _) as [l [st|x]]; intros [= <- <-]; (split; [done|]); right;
    (split; [done|]); (eexists; split; [reflexivity|done]).
Qed.

Lemma releaseTTS_stream e i s c :
  streams c !! i = Some s → (ReservedMicrousd (s_reservation s) ≠ 0 → sttMeter c ≠ None) →
  out (releaseTTS e i (s_reservation s) c) = out c ∧
  (ReservedMicrousd (s_reservation s) = 0 ∧
     streams (releaseTTS e i (s_reservation s) c) = streams c ∨
   ReservedMicrousd (s_reservation s) ≠ 0 ∧ ∃ r,
     streams (releaseTTS e i (s_reservation s) c) =
       alter (acted [TtsRelease (s_reservation s) r]) i (streams c)).
Proof.
  intros Hs Hm. unfold releaseTTS. destruct (_ =? 0) eqn:Hz; split_bools; [auto|].
  destruct (sttMeter c) as [m|]; [|by destruct (Hm Hz)].
  destruct (l_Release _ _ _) as [l r]. split; [done|]. right. split; [done|].
  by exists r.
Qed.

Lemma uncertainTTS_stream e i s c :
  streams c !! i = Some s → (ReservedMicrousd (s_reservation s) ≠ 0 → sttMeter c ≠ None) →
  out (uncertainTTS e i (s_reservation s) c) = out c ∧
  (ReservedMicrousd (s_reservation s) = 0 ∧
     streams (uncertainTTS e i (s_reservation s) c) = streams c ∨
   ReservedMicrousd (s_reservation s) ≠ 0 ∧ ∃ r,
     streams (uncertainTTS e i (s_reservation s) c) =
       alter (acted [TtsUncertain (s_reservation s) r]) i (streams c)).
Proof.
  intros Hs Hm. unfold uncertainTTS. destruct (_ =? 0) eqn:Hz; split_bools; [auto|].
  destruct (sttMeter c) as [m|]; [|by destruct (Hm Hz)].
  destruct (l_MarkUncertain _ _ _) as [l r]. split; [done|]. right. split; [done|].
  by exists r.
Qed.

(** The goroutine changes its own state after a call to the ledger. *)
Lemma walk_ledger c i s f g c1 :
  streams c !! i = Some s → streams c1 = alter g i (streams c) → out c1 = out c →
  s_requestID (f (g s)) = s_requestID s → s_reservation (f (g s)) = s_reservation s →
  s_frames (f (g s)) = s_frames s →
  reservationFinished (f (g s)) = reservationFinished s ∨ reservationFinished (f (g s)) = true →
  (providerContacted s = true → providerContacted (f (g s)) = true) →
  walk c i s (on_stream i f c1) (f (g s)) [].
Proof.
  intros Hs Hst Hout Hid Hres Hfr Hfin Hcon.
  replace (on_stream i f c1) with (on_stream i (f ∘ g) (set_streams (streams c) c1)).
  - exact (walk_local c i s (f ∘ g) (set_streams (streams c) c1) _ Hs eq_refl eq_refl Hout Hid Hres Hfr Hfin Hcon).
  - change (set_streams (alter (f ∘ g) i (streams c)) c1 =
            set_streams (alter f i (streams c1)) c1).
    by rewrite Hst, list_alter_alter_eq.
Qed.

(** Every step of a goroutine keeps its account. *)
Lemma streamTTS_walk i s a c c' :
  streams c !! i = Some s → streamTTS i s a c = Some c' →
  accounted (OutputFrameMillis (cfg c)) s →
  (ReservedMicrousd (s_reservation s) ≠ 0 → sttMeter c ≠ None) →
  ∃ s' new, walk c i s c' s' new ∧ accounted (OutputFrameMillis (cfg c)) s'.
Proof.
  intros Hs Hstep Hacc Hmeter. revert Hstep Hacc. unfold streamTTS, accounted.
  destruct (s_pc s) as [| | | | |cause| |] eqn:Hpc; destruct a as [w|opus w|r|e]; try done.
  - destruct (writeIfActive_cases (s_requestID s) (event "start" (s_requestID s) "" "") w c)
      as [ [_ ->]|[_ ->] ]; intros [= <-] (Hcon & Hfin & Hact).
    + exists (jump (match w with Some e => AtError e | None => AtSentence end) s).
      eexists. split; [by eapply walk_write|]. destruct w; cbn; [split; [done|by left]|done].
    + exists (jump (AtError Stale) s), []. split; [eapply walk_local; by auto|].
      cbn. split; [done|by left].
  - destruct (writeIfActive_cases (s_requestID s)
      (event "sentence_start" (s_requestID s) (s_text s) "") w c) as [ [_ ->]|[_ ->] ];
      intros [= <-] (Hcon & Hfin & Hact).
    + exists ((match w with Some e => jump (AtError e) | None => contact end) s).
      eexists. split; [eapply walk_write; try done; by destruct w|].
      destruct w; cbn; [split; [done|by left]|done].
    + exists (jump (AtError Stale) s), []. split; [eapply walk_local; by auto|].
      cbn. split; [done|by left].
  - intros [= <-] (Hcon & Hfin & Hact). unfold emitTTS.
    destruct (Protocol.EncodeAudioPacket _ _) as [packet|v].
    + destruct (writeIfActive_cases (s_requestID s) (MFrame (s_requestID s) packet) w c)
        as [ [_ ->]|[_ ->] ].
      * exists (emitted w s), [(MFrame (s_requestID s) packet, w)]. split; [|cbn; by rewrite Hpc].
        split; try done.
        -- by apply strip_alter.
        -- cbn [on_stream set_streams out write]. by rewrite tts_out_snoc.
        -- by constructor.
        -- by intros m ->%list_elem_of_singleton.
        -- right. done.
      * exists (emitted (Some Stale) s), []. split; [|cbn; by rewrite Hpc].
        split; try done; [by apply strip_alter|by rewrite app_nil_r|by intros m ?%elem_of_nil|].
        right. cbn. split_and!; [done..|lia].
    + exists (emitted (Some (Violated (violation_code v))) s), [].
      split; [|cbn; by rewrite Hpc].
      split; try done; [by apply strip_alter|by rewrite app_nil_r|by intros m ?%elem_of_nil|].
      right. cbn. split_and!; [done..|lia].
  - intros [= <-] (Hcon & Hfin & Hact).
    exists (jump (match r with Some e => AtError e | None => AtSettle end) s), [].
    split; [eapply walk_local; by auto|]. destruct r; cbn; [split; [done|by left]|done].
  - destruct (settleTTS _ _ _ _ _ c) as [c1 r] eqn:Hset. intros [= <-] (Hcon & Hfin & Hact).
    destruct (settleTTS_stream _ _ _ _ _ _ _ Hs Hmeter Hset)
      as (Hout & [ (Hz & Hst & ->)|(Hz & a & Hst & Hr) ]).
    + exists (settled s), []. split; [eapply walk_local; by auto|]. cbn. split; [done|]. by left.
    + destruct a as [st|x]; subst r.
      * eexists (settled (acted _ s)), [].
        split; [eapply (walk_ledger c i s settled _ c1 Hs Hst Hout); by auto|]. cbn. split; [done|].
        right. exists st. cbn. by rewrite Hact.
      * eexists (jump (AtError (BudgetError x)) (acted _ s)), [].
        split; [eapply (walk_ledger c i s (jump _) _ c1 Hs Hst Hout); by auto|].
        cbn. split; [done|]. right. split_and!; [done..|]. exists x. cbn. by rewrite Hact.
  - unfold finishTTS. intros Hstep [Hfin Hpaid]. exists (jump AtDefer s).
    destruct (is_active c (s_requestID s)); simplify_eq/=.
    + eexists. split; [by eapply walk_end|]. cbn. by rewrite Hfin.
    + exists []. split; [eapply walk_local; by auto|]. cbn. by rewrite Hfin.
  - unfold handleTTSError. intros Hstep [Hfin Hpend]. exists (jump AtDefer s).
    assert (accounted (OutputFrameMillis (cfg c)) (jump AtDefer s)) as Hacc'
      by (cbn; by rewrite Hfin).
    destruct (_ || _); simplify_eq/=.
    { exists []. split; [eapply walk_local; by auto|done]. }
    unfold finishTTS. destruct (is_active _ (s_requestID s)); simplify_eq/=.
    + eexists. split; [|done]. set (c1 := count (count_tts 0 0 1 0) c).
      destruct (walk_end c1 i s (event "error" (s_requestID s) "" "synthesis_failed") w _ Hs
        eq_refl) as [? ? ? ? ? ? ? ? ?]; done.
    + exists []. split; [|done]. eapply walk_local; by auto.
  - intros [= <-] Hacc. destruct (reservationFinished s) eqn:Hfin.
    + exists (jump Finished s), []. split; [eapply walk_local; by auto|]. cbn. by rewrite Hfin.
    + destruct (providerContacted s) eqn:Hcon.
      * destruct (uncertainTTS_stream e i s c Hs Hmeter) as (Hout & [ (Hz & Hst)|(Hz & r & Hst) ]).
        -- exists (jump Finished s), []. split; [eapply walk_local; by auto|]. cbn. rewrite Hfin.
           left. split; [done|]. destruct Hacc as [?|(? & _)]; done.
        -- eexists (jump Finished (acted _ s)), [].
           split; [eapply (walk_ledger c i s (jump _) _ _ Hs Hst Hout); by auto|]. cbn. rewrite Hfin.
           right. destruct Hacc as [Hact|(_ & _ & x & Hact)]; [right; left|left].
           ++ split; [done|]. exists r. cbn. by rewrite Hact.
           ++ exists r. split_and!; [done..|]. exists x. cbn. by rewrite Hact.
      * destruct (releaseTTS_stream e i s c Hs Hmeter) as (Hout & [ (Hz & Hst)|(Hz & r & Hst) ]).
        -- exists (jump Finished s), []. split; [eapply walk_local; by auto|]. cbn. rewrite Hfin.
           left. split; [done|]. destruct Hacc as [?|(? & _)]; done.
        -- eexists (jump Finished (acted _ s)), [].
           split; [eapply (walk_ledger c i s (jump _) _ _ Hs Hst Hout); by auto|]. cbn. rewrite Hfin.
           do 3 right. split; [done|]. destruct Hacc as [Hact|(_ & Hc & _)]; [|congruence].
           exists r. cbn. by rewrite Hact.
Qed.

End accounting.

(** ** The meter and the ledger through a session *)

Section meter.
Context {Σ : Type} `{Ledger Σ}.
Implicit Types (c : connection Σ) (m : sttUsageMeter Σ).

(** What a step may do to the meter: an operation of its own, or a call to the
    ledger for a synthesis; [others] are the ledgers the rest of the gateway may
    leave. *)
Inductive meter_move (frame : Z) (others : Σ → Prop) m : sttUsageMeter Σ → Prop :=
| mm_none : meter_move frame others m m
| mm_audio e1 e2 e3 ok : meter_move frame others m (HandleAudio e1 e2 e3 frame ok m).1
| mm_flush e : meter_move frame others m (flush e m)
| mm_close e1 e2 : meter_move frame others m (Close e1 e2 m)
| mm_others l : others l → meter_move frame others m (tts_world m l (λ x, x))
| mm_reserve e sub u f : meter_move frame others m (tts_world m (l_Reserve (ledger m) e sub u).1 f)
| mm_settle e r u f : meter_move frame others m (tts_world m (l_Settle (ledger m) e r u).1 f)
| mm_uncertain e r f : meter_move frame others m (tts_world m (l_MarkUncertain (ledger m) e r).1 f)
| mm_release e r f : meter_move frame others m (tts_world m (l_Release (ledger m) e r).1 f).

Definition meters (others : Σ → Prop) c c' : Prop :=
  cfg c' = cfg c ∧
  match sttMeter c with
  | None => sttMeter c' = None
  | Some m => ∃ m', sttMeter c' = Some m' ∧ meter_move (inputFrameMillis (cfg c)) others m m'
  end.

Lemma meters_same others c c' :
  cfg c' = cfg c → sttMeter c' = sttMeter c → meters others c c'.
Proof.
  intros Hc Hm. split; [done|]. rewrite Hm. destruct (sttMeter c); [|done].
  eexists. split; [done|constructor].
Qed.

(** Nothing else of the connection matters. *)
Lemma meters_proper others c c1 c' :
  cfg c = cfg c1 → sttMeter c = sttMeter c1 → meters others c1 c' → meters others c c'.
Proof. unfold meters. by intros -> ->. Qed.

Lemma drop_active_meter c : cfg (drop_active c) = cfg c ∧ sttMeter (drop_active c) = sttMeter c.
Proof. unfold drop_active. by destruct (active c). Qed.

Lemma writeIfActive_meter id msg w c :
  cfg (writeIfActive id msg w c).1 = cfg c ∧ sttMeter (writeIfActive id msg w c).1 = sttMeter c.
Proof. unfold writeIfActive. by destruct (negb _). Qed.

Lemma finishTTS_meter id st code w c :
  cfg (finishTTS id st code w c).1 = cfg c ∧ sttMeter (finishTTS id st code w c).1 = sttMeter c.
Proof.
  unfold finishTTS. destruct (negb _); [done|]. cbn [fst].
  destruct (drop_active_meter (write (event st id "" code) w c)) as [-> ->]. done.
Qed.

Lemma reserveTTS_meter others e n c : meters others c (reserveTTS e n c).1.
Proof.
  unfold reserveTTS, meters. destruct (sttMeter c) as [m|] eqn:Hm; [|done].
  destruct (l_Reserve (ledger m) _ _ _) as [l r] eqn:Hl.
  assert (l = (l_Reserve (ledger m) e (ownedScope (cfg c))
    (TTSUsage n (TTSMaxOutputAudioMS (SpeechPricing (cfg c))))).1) as -> by (by rewrite Hl).
  destruct r; (split; [done|]); (eexists; split; [done|apply mm_reserve]).
Qed.

Lemma settleTTS_meter others e i res n ms c : meters others c (settleTTS e i res n ms c).1.
Proof.
  unfold settleTTS. destruct (_ =? 0); [by apply meters_same|].
  unfold meters. destruct (sttMeter c) as [m|] eqn:Hm; [|done].
  destruct (l_Settle (ledger m) _ _ _) as [l r] eqn:Hl.
  assert (l = (l_Settle (ledger m) (background e) res (TTSUsage n ms)).1) as ->
    by (by rewrite Hl).
  destruct r; (split; [done|]); (eexists; split; [done|apply mm_settle]).
Qed.

Lemma releaseTTS_meter others e i res c : meters others c (releaseTTS e i res c).
Proof.
  unfold releaseTTS. destruct (_ =? 0); [by apply meters_same|].
  unfold meters. destruct (sttMeter c) as [m|] eqn:Hm; [|done].
  destruct (l_Release (ledger m) _ _) as [l r] eqn:Hl.
  assert (l = (l_Release (ledger m) (background e) res).1) as -> by (by rewrite Hl).
  split; [done|]. eexists; split; [done|apply mm_release].
Qed.

Lemma uncertainTTS_meter others e i res c : meters others c (uncertainTTS e i res c).
Proof.
  unfold uncertainTTS. destruct (_ =? 0); [by apply meters_same|].
  unfold meters. destruct (sttMeter c) as [m|] eqn:Hm; [|done].
  destruct (l_MarkUncertain (ledger m) _ _) as [l r] eqn:Hl.
  assert (l = (l_MarkUncertain (ledger m) (background e) res).1) as -> by (by rewrite Hl).
  split; [done|]. eexists; split; [done|apply mm_uncertain].
Qed.

Lemma streamTTS_meter others i s a c c' :
  streamTTS i s a c = Some c' → meters others c c'.
Proof.
  unfold streamTTS. destruct (s_pc s) as [| | | | |cause| |], a as [w|opus w|r|e]; try done.
  - destruct (writeIfActive _ _ w c) as [c1 r] eqn:Hw. intros [= <-].
    pose proof (writeIfActive_meter (s_requestID s) (event "start" (s_requestID s) "" "") w c)
      as [? ?]. rewrite Hw in *. by apply meters_same.
  - destruct (writeIfActive _ _ w c) as [c1 r] eqn:Hw. intros [= <-].
    pose proof (writeIfActive_meter (s_requestID s)
      (event "sentence_start" (s_requestID s) (s_text s) "") w c) as [? ?].
    rewrite Hw in *. by apply meters_same.
  - intros [= <-]. unfold emitTTS.
    destruct (Protocol.EncodeAudioPacket _ _) as [packet|v]; [|by apply meters_same].
    destruct (writeIfActive _ _ w c) as [c1 r] eqn:Hw.
    pose proof (writeIfActive_meter (s_requestID s) (MFrame (s_requestID s) packet) w c) as [? ?].
    rewrite Hw in *. by apply meters_same.
  - intros [= <-]. by apply meters_same.
  - pose proof (settleTTS_meter others e i (s_reservation s) (s_characters s)
      (s_frames s *i OutputFrameMillis (cfg c)) c) as Hs.
    destruct (settleTTS _ _ _ _ _ c) as [c1 r]. intros [= <-]. exact Hs.
  - intros [= <-]. by apply meters_same; cbn; apply finishTTS_meter.
  - intros [= <-]. unfold handleTTSError. destruct (_ || _); [by apply meters_same|].
    pose proof (finishTTS_meter (s_requestID s) "error" "synthesis_failed" w
      (count (count_tts 0 0 1 0) c)) as [? ?]. by apply meters_same.
  - intros [= <-]. destruct (reservationFinished s); [by apply meters_same|].
    destruct (providerContacted s); [apply uncertainTTS_meter|apply releaseTTS_meter].
Qed.

Context (Unmarshal : bytes → option envelope) (Decode : bytes → option ControlMessage).

Lemma startTTS_meter others e id text c : meters others c (startTTS e id text c).
Proof.
  unfold startTTS. destruct (active c); [by apply meters_same|].
  pose proof (reserveTTS_meter others e (RuneCountInString text) c) as Hr.
  destruct (reserveTTS _ _ c) as [c1 [res|x]]; exact Hr.
Qed.

Lemma handleText_meter others e payload control c :
  meters others c (handleText Unmarshal Decode e payload control c).
Proof.
  unfold handleText. destruct (Unmarshal payload) as [routing|]; [|by apply meters_same].
  destruct (bool_decide _); [by apply meters_same|]. destruct (negb _); [by apply meters_same|].
  case_decide; [|case_decide; by apply meters_same].
  destruct (Protocol.DecodeControl _ _ _) as [ [message id]|x]; [|by apply meters_same].
  case_decide; [apply startTTS_meter|]. unfold abortTTS.
  destruct (negb _); [by apply meters_same|]. apply meters_same; apply drop_active_meter.
Qed.

Lemma handleAudio_meter others e1 e2 e3 send c : meters others c (handleAudio e1 e2 e3 send c).1.
Proof.
  unfold handleAudio, meters. destruct (sttMeter c) as [m|] eqn:Hm; [|done].
  destruct (HandleAudio e1 e2 e3 _ _ m) as [m' r] eqn:Hh. split; [done|].
  exists m'. split; [done|].
  replace m' with (HandleAudio e1 e2 e3 (inputFrameMillis (cfg c))
    (bool_decide (send = None)) m).1 by (by rewrite Hh). constructor.
Qed.

Lemma read_meter others r c : meters others c (read Unmarshal Decode r c).
Proof.
  destruct r as [|now payload e1 e2 e3 send|now payload e control|]; cbn [read].
  - apply meters_same; apply drop_active_meter.
  - unfold allowAudioPacket. destruct (allow _ _ _) as [w ok].
    match goal with |- context [set_loop ?l c] => set (c1 := set_loop l c) end.
    apply (meters_proper _ c c1); [done..|].
    destruct (negb ok); [by apply meters_same|].
    destruct (Protocol.DecodeAudioPacket _ _); [|by apply meters_same].
    pose proof (handleAudio_meter others e1 e2 e3 send c1) as Hh.
    destruct (handleAudio _ _ _ _ c1) as [c2 [x|]]; [|exact Hh].
    case_decide; [exact Hh|]. by destruct (isSpeechBudgetError x).
  - destruct (_ <? _); [by apply meters_same|]. unfold allowControlMessage.
    destruct (allow _ _ _) as [w ok]. destruct (negb ok); [by apply meters_same|].
    match goal with |- context [set_loop ?l c] => set (c1 := set_loop l c) end.
    apply (meters_proper _ c c1); [done..|]. apply handleText_meter.
  - by apply meters_same.
Qed.

Lemma step_meter c a c' :
  step Unmarshal Decode c a = Some c' → meters (λ l, a = EvOthers l) c c'.
Proof.
  destruct a as [r|w|i a| | |i|text w|payload w|e|e1 e2|l]; cbn [step].
  - destruct (l_pc _); [|done..]. intros [= <-]. apply read_meter.
  - unfold reply. destruct (l_pc _) as [|cause|code k|]; [done|..|done]; intros [= <-].
    + unfold reportViolation. destruct (3 <=? _); by apply meters_same.
    + by destruct k; apply meters_same.
  - destruct (streams c !! i) as [s|]; [|done]. apply streamTTS_meter.
  - intros [= <-]. apply meters_same; apply drop_active_meter.
  - intros [= <-]. by apply meters_same.
  - intros [= <-]. by apply meters_same.
  - intros [= <-]. unfold SendSTT. destruct (_ || _); by apply meters_same.
  - intros [= <-]. unfold SendJSON. destruct (_ || _); [by apply meters_same|].
    destruct (Unmarshal payload); [|by apply meters_same].
    destruct (negb _); [by apply meters_same|]. destruct (negb _); by apply meters_same.
  - intros [= <-]. unfold meters. cbn. destruct (sttMeter c); [|done]. cbn. split; [done|].
    eexists. split; [done|constructor].
  - destruct (l_pc _); [done..|]. intros [= <-]. unfold meters. cbn.
    destruct (sttMeter c); [|done]. cbn. split; [done|]. eexists. split; [done|constructor].
  - intros [= <-]. unfold meters. cbn. destruct (sttMeter c); [|done]. cbn. split; [done|].
    eexists. split; [done|by constructor].
Qed.

End meter.

(** ** What a step does to the goroutines *)

Section shape.
Context {Σ : Type} `{Ledger Σ}.
Context (Unmarshal : bytes → option envelope) (Decode : bytes → option ControlMessage).
Implicit Types c : connection Σ.

Record fresh c (s : stream) : Prop := {
  fr_pc : s_pc s = AtStart;
  fr_frames : s_frames s = 0;
  fr_contacted : providerContacted s = false;
  fr_finished : reservationFinished s = false;
  fr_acts : s_acts s = [];
  fr_emit : s_emit_errors s = [];
  fr_ctx : s_ctx s = if ctx_done c then Some Canceled else None;
  fr_reservation : sttMeter c = None → ReservedMicrousd (s_reservation s) = 0;
}.

Inductive shape c (a : action Σ) c' : Prop :=
| sh_same :
    streams c' = streams c → active c' = active c → ctx_done c' = ctx_done c →
    tts_out (out c') = tts_out (out c) → shape c a c'
| sh_drop :
    streams c' = streams (drop_active c) → active c' = None → ctx_done c' = ctx_done c →
    tts_out (out c') = tts_out (out c) → shape c a c'
| sh_context :
    streams c' = expire Canceled <$> streams c → active c' = active c → ctx_done c' = true →
    tts_out (out c') = tts_out (out c) → shape c a c'
| sh_deadline i :
    streams c' = alter (expire DeadlineExceeded) i (streams c) → active c' = active c →
    ctx_done c' = ctx_done c → tts_out (out c') = tts_out (out c) → shape c a c'
| sh_begin s :
    streams c' = streams c ++ [s] → fresh c s → active c = None →
    active c' = Some {| requestID := s_requestID s; cancel := length (streams c) |} →
    ctx_done c' = ctx_done c → tts_out (out c') = tts_out (out c) → shape c a c'
| sh_stream i s an :
    a = EvStream i an → streams c !! i = Some s → streamTTS i s an c = Some c' → shape c a c'.

Lemma shape_write_other m w a c c' :
  is_tts (m, w) = false → streams c' = streams c → active c' = active c →
  ctx_done c' = ctx_done c → out c' = out c ++ [(m, w)] → shape c a c'.
Proof. intros Hm ? ? ? Hout. apply sh_same; try done. by rewrite Hout, tts_out_snoc, Hm. Qed.

Lemma drop_active_shape a c c' :
  streams c' = streams (drop_active c) → active c' = active (drop_active c) →
  ctx_done c' = ctx_done (drop_active c) → out c' = out (drop_active c) → shape c a c'.
Proof.
  intros Hs Ha Hd Ho. apply sh_drop; [done| | |].
  - rewrite Ha. unfold drop_active. by destruct (active c) eqn:?.
  - rewrite Hd. unfold drop_active. by destruct (active c).
  - by rewrite Ho, out_drop_active.
Qed.

Lemma startTTS_shape a e id text c : shape c a (startTTS e id text c).
Proof.
  unfold startTTS. destruct (active c) as [b|] eqn:Ha; [by apply sh_same|].
  unfold reserveTTS. destruct (sttMeter c) as [m|] eqn:Hm.
  - destruct (l_Reserve _ _ _ _) as [l [res|x]]; [|by apply sh_same].
    eapply sh_begin; try done. split; [done..|]. congruence.
  - by eapply sh_begin.
Qed.

Lemma handleText_shape a e payload control c :
  shape c a (handleText Unmarshal Decode e payload control c).
Proof.
  unfold handleText. destruct (Unmarshal payload) as [routing|]; [|by apply sh_same].
  destruct (bool_decide _); [by apply sh_same|]. destruct (negb _); [by apply sh_same|].
  case_decide; [|case_decide; by apply sh_same].
  destruct (Protocol.DecodeControl _ _ _) as [ [message id]|x]; [|by apply sh_same].
  case_decide; [apply startTTS_shape|]. unfold abortTTS.
  destruct (negb _); [by apply sh_same|]. by apply drop_active_shape.
Qed.

Lemma read_shape r c : shape c (EvRead r) (read Unmarshal Decode r c).
Proof.
  set (a := EvRead r : action Σ). assert (∀ i an, a ≠ EvStream i an) as Hne by done.
  clearbody a.
  destruct r as [|now payload e1 e2 e3 send|now payload e control|]; cbn [read].
  - by apply drop_active_shape.
  - unfold allowAudioPacket. destruct (allow _ _ _) as [w ok].
    destruct (negb ok); [by apply sh_same|].
    destruct (Protocol.DecodeAudioPacket _ _); [|by apply sh_same].
    unfold handleAudio. destruct (sttMeter _) as [m|].
    + destruct (HandleAudio _ _ _ _ _ _) as [m' [ []|x] ]; [by apply sh_same|].
      case_decide; [by apply sh_same|]. destruct (isSpeechBudgetError _); by apply sh_same.
    + destruct send; [|by apply sh_same]. case_decide; [by apply sh_same|].
      destruct (isSpeechBudgetError _); by apply sh_same.
  - destruct (_ <? _); [by apply sh_same|]. unfold allowControlMessage.
    destruct (allow _ _ _) as [w ok]. destruct (negb ok); [by apply sh_same|].
    match goal with |- context [set_loop ?l c] => set (c1 := set_loop l c) end.
    assert (shape c1 a (handleText Unmarshal Decode e payload control c1)) as Hs
      by apply handleText_shape.
    destruct Hs as [|Hd| |i|s ? [] |i s an Ha]; [by eapply sh_same|
      eapply sh_drop; [rewrite Hd; unfold drop_active; cbn; by destruct (active c)|done..]
      |by eapply sh_context|by eapply sh_deadline| |by destruct (Hne i an)].
    eapply sh_begin; [done|by split|done..].
  - by apply sh_same.
Qed.

Lemma step_shape c a c' : step Unmarshal Decode c a = Some c' → shape c a c'.
Proof.
  destruct a as [r|w|i a| | |i|text w|payload w|e|e1 e2|l]; cbn [step].
  - destruct (l_pc _); [|done..]. intros [= <-]. apply read_shape.
  - unfold reply. destruct (l_pc _) as [|cause|code k|]; [done|..|done]; intros [= <-].
    + unfold reportViolation.
      destruct (3 <=? _); by eapply (shape_write_other (MError (classifyError cause)) w).
    + destruct k; by eapply (shape_write_other (MError code) w).
  - destruct (streams c !! i) as [s|] eqn:Hs; [|done]. intros Hst. by eapply sh_stream.
  - intros [= <-]. by apply drop_active_shape.
  - intros [= <-]. by eapply sh_context.
  - intros [= <-]. by eapply sh_deadline.
  - intros [= <-]. unfold SendSTT. destruct (_ || _); [by apply sh_same|].
    by eapply (shape_write_other (MStt text) w).
  - intros [= <-]. unfold SendJSON. destruct (_ || _); [by apply sh_same|].
    destruct (Unmarshal payload) as [en|]; [|by apply sh_same].
    destruct (negb _) eqn:Hty; [by apply sh_same|].
    apply negb_false_iff, bool_decide_eq_true in Hty.
    destruct (negb _); [by apply sh_same|].
    eapply (shape_write_other (MVoice (env_Type en) payload) w); [|done..].
    unfold is_tts. cbn. apply bool_decide_false. intros Heq. rewrite Heq in *. set_solver.
  - intros [= <-]. by apply sh_same.
  - destruct (l_pc _); [done..|]. intros [= <-]. by apply sh_same.
  - intros [= <-]. by apply sh_same.
Qed.

End shape.

(** ** The books of a session *)

(** The frames of a request that were written successfully. *)
Definition sent_frame (id : Z) (m : message * option go_error) : bool :=
  match m with (MFrame id' _, None) => id' =? id | _ => false end.
Definition frames_sent (ms : list (message * option go_error)) (id : Z) : Z :=
  foldr (λ m n, (if sent_frame id m then 1 else 0) + n) 0 ms.

Lemma frames_sent_cons m ms id :
  frames_sent (m :: ms) id = (if sent_frame id m then 1 else 0) + frames_sent ms id.
Proof. done. Qed.

Lemma frames_sent_app ms new id :
  frames_sent (ms ++ new) id = frames_sent ms id + frames_sent new id.
Proof.
  induction ms as [|m ms IH]; [done|]. cbn [app]. rewrite !frames_sent_cons, IH. lia.
Qed.

Lemma frames_sent_length ms id : 0 ≤ frames_sent ms id ≤ Z.of_nat (length ms).
Proof.
  induction ms as [|m ms IH]; [done|]. rewrite frames_sent_cons. cbn [length].
  destruct (sent_frame id m); lia.
Qed.

Lemma frames_sent_none ms id : Forall (λ m, is_frame m = false) ms → frames_sent ms id = 0.
Proof.
  induction 1 as [|[m w] ms Hm _ IH]; [done|]. rewrite frames_sent_cons, IH. by destruct m.
Qed.

Lemma frames_sent_other ms id id' :
  Forall (λ m, request_of m.1 = Some id) ms → id' ≠ id → frames_sent ms id' = 0.
Proof.
  intros Hf Hne. induction Hf as [|[m w] ms Hm _ IH]; [done|]. rewrite frames_sent_cons, IH.
  destruct m; cbn in *; simplify_eq; try done. destruct w; [done|].
  by rewrite (proj2 (Z.eqb_neq _ _)).
Qed.

Lemma frames_sent_tts ms id : frames_sent (tts_out ms) id = frames_sent ms id.
Proof.
  induction ms as [|[m w] ms IH]; [done|]. unfold tts_out in *. rewrite filter_cons.
  case_decide as Ht; rewrite !frames_sent_cons, ?IH; [done|]. by destruct m.
Qed.

(** The books: every goroutine's account is in order and covers the frames written
    for it, and a request that was told to have stopped was paid for. *)
Record books (frame n : Z) (metered : Prop) (ss : list stream)
    (ms : list (message * option go_error)) : Prop := {
  bk_stream i s : ss !! i = Some s →
    accounted frame s ∧ (ReservedMicrousd (s_reservation s) ≠ 0 → metered) ∧
    0 ≤ s_frames s ≤ n ∧ frames_sent ms (s_requestID s) ≤ s_frames s ∧
    (providerContacted s = false → s_frames s = 0);
  bk_unknown id : id ∉ s_requestID <$> ss → frames_sent ms id = 0;
  bk_stops m : m ∈ ms → is_stop m = true →
    ∃ i s, ss !! i = Some s ∧ request_of m.1 = Some (s_requestID s) ∧
      reservationFinished s = true;
}.

Lemma books_weaken frame n n' (P Q : Prop) ss ms :
  books frame n P ss ms → n ≤ n' → (P → Q) → books frame n' Q ss ms.
Proof.
  intros [Hs Hu Hst] Hn HPQ. split; [|done|done]. intros i s Hi.
  destruct (Hs i s Hi) as (?&?&?&?&?). split_and!; auto; lia.
Qed.

Lemma books_begin frame n P ss ms s :
  books frame n P ss ms → 0 ≤ n → NoDup (s_requestID <$> (ss ++ [s])) →
  s_pc s = AtStart → s_frames s = 0 → providerContacted s = false →
  reservationFinished s = false → s_acts s = [] →
  (ReservedMicrousd (s_reservation s) ≠ 0 → P) → books frame n P (ss ++ [s]) ms.
Proof.
  intros [Hs Hu Hst] Hn Hnd Hpc Hfr Hcon Hfin Hact HP.
  rewrite fmap_app in Hnd. apply NoDup_app in Hnd as (_ & Hnd & _).
  assert (s_requestID s ∉ s_requestID <$> ss) as Hnew
    by (intros Hin; apply (Hnd _ Hin); cbn; by left).
  split.
  - intros i s1 [Hi|[_ Hi] ]%lookup_app_Some; [by eapply Hs|].
    apply list_lookup_singleton_Some in Hi as [_ <-].
    unfold accounted. rewrite Hpc, Hfr, (Hu _ Hnew). split_and!; done || lia.
  - intros id Hid. apply Hu. intros Hin. apply Hid. rewrite fmap_app. set_solver.
  - intros m Hm Hstop. destruct (Hst m Hm Hstop) as (i & s1 & Hi & Hr).
    exists i, s1. split; [|done]. by apply lookup_app_l_Some.
Qed.

Lemma books_walk frame n P ss ms i s s' new :
  books frame n P ss ms → ss !! i = Some s → NoDup (s_requestID <$> ss) →
  0 ≤ n < max_int64 → accounted frame s' →
  s_requestID s' = s_requestID s → s_reservation s' = s_reservation s →
  Forall (λ m, request_of m.1 = Some (s_requestID s)) new →
  (∀ m, m ∈ new → is_stop m = true → reservationFinished s' = true) →
  (reservationFinished s = true → reservationFinished s' = true) →
  (s_frames s' = s_frames s ∧ Forall (λ m, is_frame m = false) new ∨
   s_pc s = AtProvider ∧ s_frames s' = s_frames s +i 1 ∧ (length new ≤ 1)%nat) →
  (providerContacted s' = false → s_frames s' = s_frames s ∧ providerContacted s = false) →
  books frame (n + 1) P (<[i:=s']> ss) (ms ++ new).
Proof.
  intros [Hs Hu Hst] Hi Hnd Hn Hacc Hid Hres Hown Hstop Hfin Hfr Hcon.
  pose proof (lookup_lt_Some _ _ _ Hi) as Hlt.
  assert (s_requestID <$> <[i:=s']> ss = s_requestID <$> ss) as Hids.
  { rewrite list_fmap_insert, Hid. apply list_insert_id. by rewrite list_lookup_fmap, Hi. }
  destruct (Hs i s Hi) as (_ & HP & Hb & Hsent & Hz). split.
  - intros j s1 Hj. rewrite frames_sent_app. destruct (decide (i = j)) as [<-|Hne].
    + rewrite list_lookup_insert_eq in Hj by done. injection Hj as <-. rewrite Hid, Hres.
      assert (0 ≤ s_frames s' ≤ n + 1 ∧
        s_frames s + frames_sent new (s_requestID s) ≤ s_frames s') as [? ?].
      { destruct Hfr as [ [-> Hnone]|(_ & -> & Hlen)].
        - rewrite (frames_sent_none new) by done. lia.
        - pose proof (frames_sent_length new (s_requestID s)). unfold max_int64 in *. no_wrap. lia. }
      split_and!; [done..|lia|lia|lia|]. intros (-> & ?)%Hcon. auto.
    + rewrite list_lookup_insert_ne in Hj by done. destruct (Hs j s1 Hj) as (?&?&?&?&?).
      rewrite (frames_sent_other new (s_requestID s)); [split_and!; done || lia|done|].
      intros Heq. apply Hne. apply (NoDup_lookup _ i j (s_requestID s) Hnd);
        rewrite list_lookup_fmap, ?Hi, ?Hj; cbn; congruence.
  - intros id. rewrite Hids, frames_sent_app. intros Hin. rewrite (Hu id Hin).
    rewrite (frames_sent_other new (s_requestID s)); [done..|]. intros ->. apply Hin.
    apply list_elem_of_fmap. exists s. split; [done|]. by eapply list_elem_of_lookup_2.
  - intros m [Hm|Hm]%elem_of_app Hs1.
    + destruct (Hst m Hm Hs1) as (j & s1 & Hj & Hreq & Hf).
      destruct (decide (i = j)) as [<-|].
      * exists i, s'. rewrite list_lookup_insert_eq by done. simplify_eq. rewrite Hid. auto.
      * exists j, s1. by rewrite list_lookup_insert_ne.
    + exists i, s'. rewrite list_lookup_insert_eq by done. rewrite Hid.
      rewrite Forall_forall in Hown. eauto.
Qed.

Section books.
Context {Σ : Type} `{Ledger Σ}.
Context (Unmarshal : bytes → option envelope) (Decode : bytes → option ControlMessage).
Implicit Types c : connection Σ.

Definition session_books (n : Z) c : Prop :=
  books (OutputFrameMillis (cfg c)) n (sttMeter c ≠ None) (strip <$> streams c) (tts_out (out c)).

Definition request_ids c : list Z := s_requestID <$> streams c.

Lemma strip_ids (ss : list stream) : s_requestID <$> (strip <$> ss) = s_requestID <$> ss.
Proof. by rewrite <- list_fmap_compose. Qed.

Lemma strip_expire e (ss : list stream) : strip <$> (expire e <$> ss) = strip <$> ss.
Proof. by rewrite <- list_fmap_compose. Qed.

Lemma shape_ids c a c' : shape c a c' → request_ids c `prefix_of` request_ids c'.
Proof.
  unfold request_ids. intros Hsh. rewrite <- (strip_ids (streams c)), <- (strip_ids (streams c')).
  destruct Hsh as [Hs|Hs|Hs|i Hs|s Hs|i s an _ Hi Hst].
  - by rewrite Hs.
  - by rewrite Hs, strip_drop_active.
  - by rewrite Hs, strip_expire.
  - by rewrite Hs, strip_alter_same.
  - rewrite Hs, !fmap_app. by apply prefix_app_r.
  - pose proof (streamTTS_core i s an c c' Hi Hst) as Hk%core_step_ids.
    rewrite !strip_ids. unfold k_ids in Hk. cbn [core_of k_streams] in Hk.
    rewrite <- !list_fmap_compose in Hk. exact Hk.
Qed.

Lemma step_books n c a c' :
  session_books n c → 0 ≤ n < max_int64 → NoDup (request_ids c') →
  step Unmarshal Decode c a = Some c' → session_books (n + 1) c'.
Proof.
  intros Hb Hn Hnd Hstep. unfold session_books.
  destruct (step_meter _ _ _ _ _ Hstep) as [-> Hm].
  assert (sttMeter c ≠ None → sttMeter c' ≠ None) as Hmeter.
  { intros Hne. destruct (sttMeter c); [|done]. by destruct Hm as (m' & -> & _). }
  pose proof (step_shape _ _ _ _ _ Hstep) as Hsh.
  assert (NoDup (request_ids c)) as Hndc.
  { destruct (shape_ids _ _ _ Hsh) as [ids Heq]. rewrite Heq in Hnd.
    by apply NoDup_app in Hnd as [? _]. }
  destruct Hsh as [Hs _ _ Ho|Hs _ _ Ho|Hs _ _ Ho|i Hs _ _ Ho|s Hs Hf _ _ _ Ho|i s an _ Hi Hst].
  - rewrite Hs, Ho. eapply books_weaken; [exact Hb|lia|done].
  - rewrite Hs, Ho, strip_drop_active. eapply books_weaken; [exact Hb|lia|done].
  - rewrite Hs, Ho, strip_expire. eapply books_weaken; [exact Hb|lia|done].
  - rewrite Hs, Ho, strip_alter_same by done. eapply books_weaken; [exact Hb|lia|done].
  - rewrite Hs, Ho, fmap_app. destruct Hf as [? ? ? ? ? _ _ Hres].
    apply books_begin; try done; [eapply books_weaken; [exact Hb|lia|done]|lia| |].
    + unfold request_ids in Hnd. rewrite Hs in Hnd. cbn [fmap list_fmap].
      rewrite !fmap_app, strip_ids in *. done.
    + cbn. intros Hne. apply Hmeter. intros Hnone. by destruct (Hne (Hres Hnone)).
  - assert ((strip <$> streams c) !! i = Some (strip s)) as Hi'
      by (by rewrite list_lookup_fmap, Hi).
    destruct (bk_stream _ _ _ _ _ Hb i (strip s) Hi') as (Hacc & HP & _ & _ & _).
    destruct (streamTTS_walk _ _ _ _ _ Hi Hst Hacc HP) as (s' & new & [] & Hacc').
    rewrite w_streams0, w_out0. eapply (books_weaken _ (n + 1) _ (sttMeter c ≠ None)); [|lia|done].
    eapply (books_walk _ _ _ _ _ i (strip s) (strip s')); try done.
    + by rewrite strip_ids.
    + cbn. intros Hc'. destruct (providerContacted s) eqn:Hc; [by rewrite w_contacted0 in Hc'|].
      destruct w_frames0 as [ [? _]|(Hpc & _) ]; [done|].
      unfold accounted in Hacc. cbn in Hacc. rewrite Hpc in Hacc. destruct Hacc. congruence.
Qed.

End books.

(** ** The slot of the active request *)

Section slot.
Context {Σ : Type} `{Ledger Σ}.
Context (Unmarshal : bytes → option envelope) (Decode : bytes → option ControlMessage).
Implicit Types c : connection Σ.

(** What the socket and the synthesizer may answer: [context.Canceled] only under a
    canceled context, and [ErrStale] is an error of the callback, which the
    synthesizer can only pass on. *)
Definition answer_ok (s : stream) (an : answer) : Prop :=
  match an with
  | Wrote w | Emits _ w => (w = Some Canceled → s_ctx s = Some Canceled) ∧ w ≠ Some Stale
  | Returns r =>
      (r = Some Canceled → s_ctx s = Some Canceled) ∧ (r = Some Stale → Stale ∈ s_emit_errors s)
  | Accounts _ => True
  end.

Definition lawful c (a : action Σ) : Prop :=
  match a with
  | EvStream i an => match streams c !! i with Some s => answer_ok s an | None => True end
  | _ => True
  end.

Fixpoint lawful_run c (acts : list (action Σ)) : Prop :=
  match acts with
  | [] => True
  | a :: acts =>
      lawful c a ∧ match step Unmarshal Decode c a with
                   | Some c => lawful_run c acts
                   | None => True
                   end
  end.

(** The goroutine of the active request still holds it for a reason. *)
Definition holds (done : bool) (s : stream) : Prop :=
  (s_ctx s = Some Canceled → done = true) ∧ Stale ∉ s_emit_errors s ∧
  match s_pc s with
  | AtError cause => cause ≠ Stale ∧ (cause = Canceled → s_ctx s = Some Canceled)
  | AtDefer | Finished => done = true
  | _ => True
  end.

Definition slot_ok c : Prop :=
  ∀ a, active c = Some a → ∃ s, streams c !! cancel a = Some s ∧
    s_requestID s = requestID a ∧ holds (ctx_done c) s.

Lemma slot_ok_same c c' :
  slot_ok c → streams c' = streams c → active c' = active c → ctx_done c' = ctx_done c →
  slot_ok c'.
Proof. unfold slot_ok. by intros ? -> -> ->. Qed.

(** A change of another goroutine. *)
Lemma slot_ok_other c c' i f :
  slot_ok c → (∀ a, active c = Some a → cancel a ≠ i) →
  streams c' = alter f i (streams c) → active c' = active c → ctx_done c' = ctx_done c →
  slot_ok c'.
Proof.
  intros Hok Hne Hs Ha Hd a Hact. rewrite Ha in Hact. destruct (Hok a Hact) as (s & Hi & ?).
  exists s. rewrite Hs, Hd, list_lookup_alter_ne by (apply not_eq_sym; eauto). done.
Qed.

(** A change of the goroutine that holds the slot. *)
Lemma slot_ok_self c c' i s f :
  streams c !! i = Some s → active c = Some {| requestID := s_requestID s; cancel := i |} →
  streams c' = alter f i (streams c) → active c' = active c → ctx_done c' = ctx_done c →
  s_requestID (f s) = s_requestID s → holds (ctx_done c) (f s) → slot_ok c'.
Proof.
  intros Hi Hact Hs Ha Hd Hid Hh a. rewrite Ha, Hact. intros [= <-]. cbn. exists (f s).
  by rewrite Hs, Hd, list_lookup_alter_eq, Hi.
Qed.

Lemma slot_ok_none c : active c = None → slot_ok c.
Proof. intros Ha a. by rewrite Ha. Qed.

(** Whose step it is: the holder of the slot, which passes the guard, or another
    goroutine. *)
Lemma holder_cases c i s :
  slot_ok c → streams c !! i = Some s →
  active c = Some {| requestID := s_requestID s; cancel := i |} ∧
    is_active c (s_requestID s) = true ∧ holds (ctx_done c) s ∨
  ∀ a, active c = Some a → cancel a ≠ i.
Proof.
  intros Hok Hi. destruct (active c) as [ [rid n]|] eqn:Ha; [|by right].
  destruct (decide (n = i)) as [->|Hne]; [left|right; by intros a [= <-] ].
  destruct (Hok _ Ha) as (s' & Hs' & Hid & Hh). cbn in *. simplify_eq. split_and!; [done| |done].
  unfold is_active. rewrite Ha. cbn. apply Z.eqb_refl.
Qed.

(** A step of a goroutine that leaves the slot alone and moves by [f]. *)
Lemma slot_move c c' i s f :
  slot_ok c → streams c !! i = Some s →
  streams c' = alter f i (streams c) → active c' = active c → ctx_done c' = ctx_done c →
  s_requestID (f s) = s_requestID s →
  (is_active c (s_requestID s) = true → holds (ctx_done c) s → holds (ctx_done c) (f s)) →
  slot_ok c'.
Proof.
  intros Hok Hi Hs Ha Hd Hid Hf.
  destruct (holder_cases c i s Hok Hi) as [ (Hact & His & Hh)|Hne].
  - eapply slot_ok_self; eauto.
  - by eapply slot_ok_other.
Qed.

Lemma settleTTS_slot e i res n ms c :
  active (settleTTS e i res n ms c).1 = active c ∧
  ctx_done (settleTTS e i res n ms c).1 = ctx_done c ∧
  ∃ acts, streams (settleTTS e i res n ms c).1 = alter (acted acts) i (streams c).
Proof.
  assert (streams c = alter (acted []) i (streams c)) as Hid.
  { symmetry. apply list_alter_id. intros []. unfold acted. cbn. by rewrite app_nil_r. }
  unfold settleTTS. destruct (_ =? 0); [split_and!; eauto|].
  destruct (sttMeter c); [|split_and!; eauto].
  destruct (l_Settle _ _ _ _) as [l [st|x]]; split_and!; try done; eexists; reflexivity.
Qed.

Lemma closing_slot e i res c (un : bool) :
  let c' := if un then uncertainTTS e i res c else releaseTTS e i res c in
  active c' = active c ∧ ctx_done c' = ctx_done c ∧
  ∃ acts, streams c' = alter (acted acts) i (streams c).
Proof.
  assert (streams c = alter (acted []) i (streams c)) as Hid.
  { symmetry. apply list_alter_id. intros []. unfold acted. cbn. by rewrite app_nil_r. }
  cbv zeta. destruct un; [unfold uncertainTTS|unfold releaseTTS];
    (destruct (_ =? 0); [split_and!; eauto|]); (destruct (sttMeter c); [|split_and!; eauto]).
  - destruct (l_MarkUncertain _ _ _). split_and!; try done. eexists; reflexivity.
  - destruct (l_Release _ _ _). split_and!; try done. eexists; reflexivity.
Qed.

(** Finishing a request frees the slot, or finds it taken by another. *)
Lemma finish_slot id st code w c :
  let c' := (finishTTS id st code w c).1 in
  active c' = None ∧ is_active c id = true ∨ c' = c ∧ is_active c id = false.
Proof.
  unfold finishTTS. destruct (is_active c id) eqn:Ha; [left|right]; cbn; (split; [|done]).
  - unfold drop_active. cbn. by destruct (active c) eqn:Hact.
  - done.
Qed.

Lemma streamTTS_slot i s an c c' :
  slot_ok c → streams c !! i = Some s → answer_ok s an → streamTTS i s an c = Some c' →
  slot_ok c'.
Proof.
  intros Hok Hi Hans. unfold streamTTS.
  destruct (s_pc s) as [| | | | |cause| |] eqn:Hpc; destruct an as [w|opus w|r|e]; try done;
    cbn [answer_ok] in Hans.
  - destruct (writeIfActive_cases (s_requestID s) (event "start" (s_requestID s) "" "") w c)
      as [ [Ha ->]|[Ha ->] ]; intros [= <-];
      (eapply (slot_move c _ i s); [done..|]); rewrite Ha; try done.
    intros _ (? & ? & _). split_and!; try done. destruct w; [|done]. cbn. naive_solver.
  - destruct (writeIfActive_cases (s_requestID s)
      (event "sentence_start" (s_requestID s) (s_text s) "") w c) as [ [Ha ->]|[Ha ->] ];
      intros [= <-]; (eapply (slot_move c _ i s); [done..|by destruct w|]); rewrite Ha; try done.
    intros _ (? & ? & _). destruct w; cbn; split_and!; try done; cbn; naive_solver.
  - intros [= <-]. unfold emitTTS. destruct (Protocol.EncodeAudioPacket _ _) as [packet|v].
    + destruct (writeIfActive_cases (s_requestID s) (MFrame (s_requestID s) packet) w c)
        as [ [Ha ->]|[Ha ->] ]; (eapply (slot_move c _ i s); [done..|]); rewrite Ha; try done.
      intros _ (? & Hst & _). unfold holds. cbn. rewrite Hpc. split_and!; try done.
      intros [?|Hin]%elem_of_app; [done|]. destruct w as [e|]; [|by apply elem_of_nil in Hin].
      apply list_elem_of_singleton in Hin. naive_solver.
    + eapply (slot_move c _ i s); [done..|]. intros _ (? & Hst & _). unfold holds. cbn.
      rewrite Hpc. split_and!; try done. by intros [?|?%list_elem_of_singleton]%elem_of_app.
  - intros [= <-]. eapply (slot_move c _ i s); [done..|]. intros _ (? & ? & _).
    destruct r; cbn; split_and!; try done; cbn; naive_solver.
  - destruct (settleTTS_slot e i (s_reservation s) (s_characters s)
      (s_frames s *i OutputFrameMillis (cfg c)) c) as (Ha & Hd & acts & Hs).
    destruct (settleTTS _ _ _ _ _ c) as [c1 r]. cbn in Ha, Hd, Hs. intros [= <-].
    match goal with |- slot_ok (on_stream i ?f c1) =>
      eapply (slot_move c _ i s (f ∘ acted acts)); [done|done| |done|done|by destruct r|] end.
    { cbn. by rewrite Hs, list_alter_alter_eq. }
    intros _ (? & ? & _). destruct r; cbn; split_and!; done.
  - intros [= <-]. destruct (finish_slot (s_requestID s) "stop" "" w c) as [ [Ha _]|[-> Ha] ].
    + by apply slot_ok_none.
    + eapply (slot_move c _ i s); [done..|]. by rewrite Ha.
  - unfold handleTTSError. destruct (_ || _) eqn:Hcause; intros [= <-].
    + eapply (slot_move c _ i s); [done..|]. intros _ (Hc & ? & Hp). rewrite Hpc in Hp.
      split_and!; try done. cbn. apply Hc, Hp. apply orb_true_iff in Hcause as [?|?]; split_bools;
        [done|]. by destruct Hp.
    + destruct (finish_slot (s_requestID s) "error" "synthesis_failed" w
        (count (count_tts 0 0 1 0) c)) as [ [Ha _]|[-> Ha] ]; [by apply slot_ok_none|].
      eapply (slot_move c _ i s); [done..|]. change (is_active c (s_requestID s) = false) in Ha.
      by rewrite Ha.
  - intros [= <-].
    assert (∃ acts, streams (if reservationFinished s then c
        else if providerContacted s then uncertainTTS e i (s_reservation s) c
        else releaseTTS e i (s_reservation s) c) = alter (acted acts) i (streams c) ∧
      active (if reservationFinished s then c
        else if providerContacted s then uncertainTTS e i (s_reservation s) c
        else releaseTTS e i (s_reservation s) c) = active c ∧
      ctx_done (if reservationFinished s then c
        else if providerContacted s then uncertainTTS e i (s_reservation s) c
        else releaseTTS e i (s_reservation s) c) = ctx_done c) as (acts & Hs & Ha & Hd).
    { destruct (reservationFinished s).
      - exists []. split_and!; try done. symmetry. apply list_alter_id. intros [].
        unfold acted. cbn. by rewrite app_nil_r.
      - destruct (closing_slot e i (s_reservation s) c (providerContacted s)) as (?&?&acts&?).
        by exists acts. }
    eapply (slot_move c _ i s (jump Finished ∘ acted acts)); [done|done| |done..|].
    { cbn. by rewrite Hs, list_alter_alter_eq. }
    intros _ (? & ? & Hp). rewrite Hpc in Hp. done.
Qed.

Lemma step_slot c a c' :
  slot_ok c → lawful c a → step Unmarshal Decode c a = Some c' → slot_ok c'.
Proof.
  intros Hok Hlaw Hstep. pose proof (step_shape _ _ _ _ _ Hstep) as Hsh.
  destruct Hsh as [Hs Ha Hd _|Hs Ha Hd _|Hs Ha Hd _|i Hs Ha Hd _|s Hs Hf _ Ha Hd _|i s an -> Hi Hst].
  - by eapply slot_ok_same.
  - by apply slot_ok_none.
  - intros a' Hact. rewrite Ha in Hact. destruct (Hok a' Hact) as (s & Hi & Hid & Hc & Hst & Hp).
    exists (expire Canceled s). rewrite Hs, list_lookup_fmap, Hi, Hd. split_and!; try done.
    split_and!; try done. cbn. destruct (s_pc s); try done. split; [apply Hp|].
    intros Hcan. destruct Hp as [_ ->]; done.
  - intros a' Hact. rewrite Ha in Hact. destruct (Hok a' Hact) as (s & Hi' & Hid & Hc & Hst & Hp).
    destruct (decide (i = cancel a')) as [->|].
    + exists (expire DeadlineExceeded s). rewrite Hs, list_lookup_alter_eq, Hi', Hd.
      split_and!; try done. split_and!; try done; cbn; destruct (s_ctx s) eqn:Hctx; try done.
      destruct (s_pc s); try done. destruct Hp as [? Hp]. split; [done|].
      intros Hcan. by apply Hp in Hcan.
    + exists s. by rewrite Hs, list_lookup_alter_ne, Hd.
  - intros a'. rewrite Ha. intros [= <-]. cbn. exists s. rewrite Hs, Hd.
    rewrite lookup_app_r, Nat.sub_diag by done. split_and!; try done.
    destruct Hf as [Hpc _ _ _ _ Hem Hctx _]. unfold holds. rewrite Hpc, Hem, Hctx.
    split_and!; try done; [by destruct (ctx_done c)|apply not_elem_of_nil].
  - eapply streamTTS_slot; try done. cbn in Hlaw. by rewrite Hi in Hlaw.
Qed.

Lemma run_slot acts c c' :
  slot_ok c → lawful_run c acts → run_session Unmarshal Decode c acts = Some c' → slot_ok c'.
Proof.
  revert c. induction acts as [|a acts IH]; intros c Hok Hlaw Hrun; cbn in *; [by simplify_eq|].
  destruct Hlaw as [Hl Hlaw].
  destruct (step Unmarshal Decode c a) as [c1|] eqn:Hstep; [|done]. eapply IH; [by eapply step_slot|done|done].
Qed.

End slot.

End VoiceBooks.
