(* ===== verification/VoiceTheorems.v ===== *)
(** * VoiceTheorems: what a voice session guarantees

    The theorems about whole sessions, from the hello on, with their witnesses. *)

From stdpp Require Import base gmap strings list.
From Stdlib Require Import ZArith Lia Sorted.
From Stdlib.Strings Require Import Byte.
From S2P Require Import Prelude GoBase GoCrypto BudgetSpec SpeechBudget SpeechMeter Protocol.
From S2P Require Import VoiceSession VoiceCore VoiceBooks.

Module VoiceTheorems.
Import SpeechBudget SpeechMeter VoiceSession VoiceCore VoiceBooks.
Import Protocol (violation, control_error, ControlMessage, ClientHello).

(** ** Sessions *)

Section sessions.
Context {Σ : Type} `{Ledger Σ}.
Context (Unmarshal : bytes → option envelope) (Decode : bytes → option ControlMessage).
Implicit Types c : connection Σ.

Lemma run_ids acts c c' :
  run_session Unmarshal Decode c acts = Some c' → request_ids c `prefix_of` request_ids c'.
Proof.
  revert c. induction acts as [|a acts IH]; intros c Hrun; cbn in Hrun; [by simplify_eq|].
  destruct (step _ _ c a) as [c1|] eqn:Hs; [|done].
  etrans; [eapply shape_ids, step_shape, Hs|by apply IH].
Qed.

(** A property of the connection that every step keeps while requests are distinct. *)
Lemma run_invariant (P : connection Σ → Prop) :
  (∀ c a c', P c → NoDup (request_ids c') → step Unmarshal Decode c a = Some c' → P c') →
  ∀ acts c c', P c → NoDup (request_ids c') →
    run_session Unmarshal Decode c acts = Some c' → P c'.
Proof.
  intros Hstep acts. induction acts as [|a acts IH]; intros c c' HP Hnd Hrun; cbn in Hrun;
    [by simplify_eq|].
  destruct (step _ _ c a) as [c1|] eqn:Hs; [|done]. eapply IH; [|done|done].
  eapply Hstep; [done| |done]. destruct (run_ids _ _ _ Hrun) as [ids Heq].
  rewrite Heq in Hnd. by apply NoDup_app in Hnd as [? _].
Qed.

Lemma core_ids c : k_ids (core_of c) = request_ids c.
Proof. unfold k_ids, request_ids. cbn. by rewrite <- list_fmap_compose. Qed.

Lemma run_core_ok acts c c' :
  core_ok (core_of c) → NoDup (request_ids c') →
  run_session Unmarshal Decode c acts = Some c' → core_ok (core_of c').
Proof.
  apply (run_invariant (λ c, core_ok (core_of c))). intros c1 a c2 Hok Hnd Hs.
  eapply core_step_ok; [done|by rewrite core_ids|by eapply step_core].
Qed.

Lemma run_silenced acts c c' id :
  silenced (core_of c) id → NoDup (request_ids c') →
  run_session Unmarshal Decode c acts = Some c' →
  ∃ new, tts_out (out c') = tts_out (out c) ++ new ∧ Forall (λ m, request_of m.1 ≠ Some id) new.
Proof.
  intros Hsil Hnd Hrun.
  assert (silenced (core_of c') id ∧ ∃ new, k_out (core_of c') = k_out (core_of c) ++ new ∧
    Forall (λ m, request_of m.1 ≠ Some id) new) as [_ ?]; [|done].
  revert Hnd Hrun. apply (run_invariant (λ c', silenced (core_of c') id ∧
    ∃ new, k_out (core_of c') = k_out (core_of c) ++ new ∧
    Forall (λ m, request_of m.1 ≠ Some id) new)).
  - intros c1 a c2 [Hs (new & Ho & Hf)] Hnd Hst%step_core.
    destruct (silenced_step _ _ id Hs ltac:(by rewrite core_ids) Hst) as [Hs' (new' & Ho' & Hf')].
    split; [done|]. exists (new ++ new'). rewrite Ho', Ho, app_assoc. split; [done|].
    by apply Forall_app.
  - split; [done|]. exists []. by rewrite app_nil_r.
Qed.



(** The session after its hello. *)
Context (DecodeHello : bytes → option ClientHello) (g : gateway) (scope : string)
  (headerVersion : Z) (t0 : Time) (l : option (Σ * Metrics)) (text : bool) (hello : bytes)
  (random : option bytes) (opened : bool) (w0 : option go_error).
Local Notation c0 := (handshake DecodeHello g scope headerVersion t0 l text hello random opened w0).

(** A session from its first message: the hello, then any interleaving of steps. *)
Definition whole_session (acts : list (action Σ)) : option (connection Σ) :=
  run_session Unmarshal Decode c0 acts.

Lemma handshake_fresh : active c0 = None ∧ streams c0 = [] ∧ tts_out (out c0) = [].
Proof.
  unfold handshake. destruct (negb text); [done|].
  destruct (Protocol.DecodeClientHello _ _) as [ [h v]|]; [|done].
  destruct (negb _); [done|]. destruct (newSessionID random); [|done]. cbv zeta.
  destruct (negb opened); [done|].
  destruct (Protocol.NewServerHello _ _ _) as [sh|] eqn:Hn; [|done]. split_and!; try done.
  unfold Protocol.NewServerHello in Hn. destruct (negb _); [done|].
  destruct (_ || _); [done|]. by injection Hn as <-.
Qed.


(** A session that is open for messages has checked its audio parameters, and its
    meter is new. *)
Lemma handshake_reading :
  l_pc (loop c0) = Reading →
  1 ≤ g_OutputFrameMillis g ≤ 120 ∧ 20 ≤ inputFrameMillis (cfg c0) ≤ 120 ∧
  sttMeter c0 = match l with
                | Some (l, m) => Some (newSTTUsageMeter l (g_Pricing g) scope m)
                | None => None
                end.
Proof.
  unfold handshake. destruct (negb text); [done|].
  destruct (Protocol.DecodeClientHello _ _) as [ [h v]|] eqn:Hd; [|done].
  apply Protocol.DecodeClientHello_spec in Hd as (_ & Hf & _).
  destruct (negb _); [done|]. destruct (newSessionID random); [|done]. cbv zeta.
  destruct (negb opened); [done|].
  destruct (Protocol.NewServerHello _ _ _) as [sh|] eqn:Hn; [|done]. intros _. split_and!; try done.
  all: unfold Protocol.NewServerHello in Hn; destruct (negb _); [done|];
    destruct (_ || _) eqn:Hg; [done|]; split_bools; cbn in *; lia.
Qed.

Lemma handshake_core_ok : core_ok (core_of c0).
Proof.
  destruct handshake_fresh as (Ha & Hs & Ho). split; cbn; rewrite ?Ho.
  - exists Quiet. split; [constructor|]. unfold phase_ok. cbn. by rewrite Ha.
  - constructor.
  - by intros id ?%elem_of_nil.
Qed.


(** The turn of the loop in which it reads a well-formed abort of the request [id]. *)
Definition abort_read c (a : action Σ) (id : Z) : Prop :=
  ∃ now payload e control routing message,
    a = EvRead (ReadText now payload e control) ∧ blen payload ≤ Protocol.MaxControlBytes ∧
    (allowControlMessage now c).2 = true ∧
    Unmarshal payload = Some routing ∧ env_Type routing = "tts_abort" ∧
    env_SessionID routing = sessionID (cfg c) ∧
    Protocol.DecodeControl Decode payload (sessionID (cfg c)) = Ok (message, id) ∧
    Protocol.ctl_Type message ≠ "tts_request".

(** The message a request ends with. *)
Definition last_word c c' (id : Z) : Prop :=
  ∃ state code w, (state = "stop" ∨ state = "error") ∧
    out c' = out c ++ [(event state id "" code, w)].

(** What ends a request: the device aborts it, the gateway cancels it, the device is
    gone, or its last message is written. *)
Definition cut_off c (a : action Σ) c' (id : Z) : Prop :=
  abort_read c a id ∨ a = EvCancel ∨ a = EvRead ReadError ∨ last_word c c' id.

Lemma drop_active_is c id : is_active (drop_active c) id = false.
Proof. unfold drop_active, is_active. destruct (active c) eqn:Ha; [done|by rewrite Ha]. Qed.

Lemma abort_inactive c a c' id :
  step Unmarshal Decode c a = Some c' → abort_read c a id → is_active c' id = false.
Proof.
  intros Hs (now & payload & e & control & routing & message & -> & Hlen & Hallow & Hu & Hty &
    Hsid & Hd & Hm). cbn [step] in Hs. destruct (l_pc (loop c)); try done.
  apply Some_inj in Hs as <-. unfold read. rewrite (proj2 (Z.ltb_ge _ _)) by done.
  destruct (allowControlMessage now c) as [c1 ok] eqn:Hc1. cbn in Hallow. subst ok.
  assert (cfg c1 = cfg c) as Hcfg
    by (unfold allowControlMessage in Hc1; destruct (allow _ _ _); by injection Hc1 as <-).
  cbn [negb]. unfold handleText. rewrite Hu, Hcfg, Hty, Hsid.
  rewrite bool_decide_false, (bool_decide_true (sessionID _ = sessionID _)) by done.
  cbn [negb]. rewrite decide_True by auto. rewrite Hd, decide_False by done.
  unfold abortTTS. destruct (is_active c1 id) eqn:Ha.
  - exact (drop_active_is c1 id).
  - exact Ha.
Qed.

Lemma last_word_inactive c a c' id :
  step Unmarshal Decode c a = Some c' → last_word c c' id → is_active c' id = false.
Proof.
  intros Hs%step_core (state & code & w & Hst & Hout).
  rewrite <- k_is_core. assert (k_out (core_of c') = k_out (core_of c) ++ [(event state id "" code, w)])
    as Hk by (cbn; by rewrite Hout, tts_out_snoc).
  assert (∀ (l : list (message * option go_error)) x, l ≠ l ++ [x]) as Hne.
  { intros ms x Heq%(f_equal length). rewrite length_app in Heq. cbn in Heq. lia. }
  revert Hk. destruct Hs as [| | | |i nid pc m w' pc' Hi Ha Hm|]; cbn; try (by intros ?%Hne); [|done].
  intros [= Hev Hw]%app_inv_head. destruct Hm; unfold event in Hev; try done;
    injection Hev; intros; destruct Hst; congruence.
Qed.

Lemma cut_off_silenced c a c' id :
  step Unmarshal Decode c a = Some c' → id ∈ request_ids c → cut_off c a c' id →
  silenced (core_of c') id.
Proof.
  intros Hs Hid Hcut. split.
  - assert (id ∈ k_ids (core_of c')) as (i & Hi)%list_elem_of_lookup.
    { rewrite core_ids. destruct (shape_ids _ _ _ (step_shape _ _ _ _ _ Hs)) as [ids ->].
      apply elem_of_app. by left. }
    unfold k_ids in Hi. rewrite list_lookup_fmap in Hi.
    destruct (k_streams (core_of c') !! i) as [ [j pc]|] eqn:Hj; [|done].
    cbn in Hi. simplify_eq. eauto.
  - destruct Hcut as [Ha|[->|[->|Hl] ] ].
    + by eapply abort_inactive.
    + injection Hs as <-. exact (drop_active_is c id).
    + cbn [step] in Hs. destruct (l_pc (loop c)); try done. injection Hs as <-.
      exact (drop_active_is c id).
    + by eapply last_word_inactive.
Qed.

Lemma run_session_app c acts1 acts2 :
  run_session Unmarshal Decode c (acts1 ++ acts2) =
  match run_session Unmarshal Decode c acts1 with
  | Some c1 => run_session Unmarshal Decode c1 acts2
  | None => None
  end.
Proof.
  revert c. induction acts1 as [|a acts1 IH]; intros c; [done|]. cbn.
  destruct (step _ _ c a); [apply IH|done].
Qed.

(** C4: however its goroutines interleave, and whatever the socket, the synthesizer
    and the voice backend answer, a session speaks to its device in order: at any
    time at most one request is heard, with its start, its sentence, its frames and
    its end in this order and each request announced at most once. And it is silent when
    it must be: once the loop has read the device's abort of a request, the gateway has
    cancelled it, the device is gone, or the request's stop or error was written, not
    one more message or audio frame of that request is written, whatever its goroutine
    and the synthesizer still do. The only condition is that the device does not reuse
    request identifiers in a session. *)
Theorem tts_conversation acts c :
  whole_session acts = Some c → NoDup (request_ids c) →
  NoDup (starts (out c)) ∧
  (∃ p, conversation (tts_out (out c)) p ∧ (active c = None → p = Quiet)) ∧
  (∀ acts1 a acts2 c1 c2 id, acts = acts1 ++ a :: acts2 →
     whole_session acts1 = Some c1 → step Unmarshal Decode c1 a = Some c2 →
     id ∈ request_ids c1 → cut_off c1 a c2 id →
     ∃ new, tts_out (out c) = tts_out (out c2) ++ new ∧
       Forall (λ m, request_of m.1 ≠ Some id) new).
Proof.
  intros Hrun Hnd.
  destruct (run_core_ok acts c0 c handshake_core_ok Hnd Hrun) as [ (p & Hcv & Hp) Hst _].
  split_and!.
  - cbn in Hst. clear -Hst. enough (starts (out c) = starts (tts_out (out c))) as -> by done.
    clear Hst. induction (out c) as [|[m w] ms IH]; [done|]. unfold tts_out in *.
    rewrite filter_cons. unfold starts in *.
    case_decide as Ht; cbn; rewrite IH; [done|]. by destruct m.
  - exists p. split; [done|]. unfold phase_ok in Hp. cbn in Hp. intros Ha. by rewrite Ha in Hp.
  - intros acts1 a acts2 c1 c2 id -> Hrun1 Hs Hid Hcut. unfold whole_session in *.
    rewrite run_session_app, Hrun1 in Hrun. cbn in Hrun. rewrite Hs in Hrun.
    eapply run_silenced; [by eapply cut_off_silenced|done|done].
Qed.


(** The slot of the active request is never lost: while the connection lives,
    once every goroutine has finished no request is active and the next one is
    accepted, provided the socket and the synthesizer report a cancellation only
    under a canceled context. *)
Theorem slot_released acts c :
  whole_session acts = Some c → lawful_run Unmarshal Decode c0 acts →
  ctx_done c = false → Forall (λ s, s_pc s = Finished) (streams c) → active c = None.
Proof.
  intros Hrun Hlaw Hdone Hfin. destruct handshake_fresh as (Ha & _).
  pose proof (run_slot Unmarshal Decode acts c0 c (slot_ok_none _ Ha) Hlaw Hrun) as Hok.
  destruct (active c) as [a|] eqn:Hact; [|done].
  destruct (Hok a Hact) as (s & Hs & _ & _ & _ & Hp).
  rewrite Forall_lookup in Hfin. rewrite (Hfin _ _ Hs) in Hp. congruence.
Qed.

End sessions.

(** ** Rate limits *)

(** The messages let through among those that arrive at [times]. *)
Fixpoint allowed (max : Z) (w : window) (times : list Time) : list Time :=
  match times with
  | [] => []
  | t :: times =>
      let '(w, ok) := allow max t w in (if ok then [t] else []) ++ allowed max w times
  end.

(** How many of them fall in the minute that starts at [from]. *)
Definition in_minute (from t : Time) : bool := (from <=? t) && (t <? from + minute).
Definition within (from : Time) (ts : list Time) : Z :=
  foldr (λ t n, (if in_minute from t then 1 else 0) + n) 0 ts.

Lemma within_app from ts us : within from (ts ++ us) = within from ts + within from us.
Proof. unfold within. induction ts as [|t ts IH]; cbn; [done|]. rewrite IH. lia. Qed.

Lemma within_one from t : within from [t] = if in_minute from t then 1 else 0.
Proof. unfold within. cbn. lia. Qed.

Lemma allowed_late max w from times :
  Forall (λ t, from + minute ≤ t) times → within from (allowed max w times) = 0.
Proof.
  intros Hf. revert w. induction Hf as [|t times Ht _ IH]; intros w; [done|].
  cbn [allowed]. destruct (allow max t w) as [w' ok]. rewrite within_app, IH.
  destruct ok; [|done]. rewrite within_one. unfold in_minute.
  by rewrite (proj2 (Z.ltb_ge _ _)), andb_false_r by done.
Qed.

(** A message in the current window, or the first of a new one. *)
Lemma allow_spec max t s n :
  s ≤ t → 0 ≤ n < max_int64 →
  allow max t {| windowStart := s; windowCount := n |} =
  if minute <=? t - s then ({| windowStart := t; windowCount := 1 |}, 1 <=? max)
  else ({| windowStart := s; windowCount := n + 1 |}, n + 1 <=? max).
Proof.
  intros Hs Hn. unfold allow. cbn [windowStart windowCount].
  assert (minute <=? Sub t s = (minute <=? t - s)) as ->.
  { apply eq_true_iff_eq. rewrite !Z.leb_le. unfold Sub, minute, second, max_int64, min_int64. lia. }
  unfold max_int64 in *. destruct (minute <=? t - s); cbn [windowStart windowCount]; [done|].
  no_wrap. done.
Qed.

Lemma allowed_cons max s n t times :
  s ≤ t → 0 ≤ n < max_int64 →
  allowed max {| windowStart := s; windowCount := n |} (t :: times) =
  if minute <=? t - s
  then (if 1 <=? max then [t] else []) ++
       allowed max {| windowStart := t; windowCount := 1 |} times
  else (if n + 1 <=? max then [t] else []) ++
       allowed max {| windowStart := s; windowCount := n + 1 |} times.
Proof. intros Hs Hn. cbn [allowed]. rewrite allow_spec by done. by destruct (minute <=? t - s). Qed.

(** The window started within the minute: what is left of it. *)
Lemma within_current max from times : ∀ s n,
  Sorted Z.le (s :: times) → from ≤ s → 0 ≤ n → n + Z.of_nat (length times) < max_int64 →
  within from (allowed max {| windowStart := s; windowCount := n |} times) ≤ Z.max 0 (max - n).
Proof.
  induction times as [|t times IH]; intros s n Hsort Hfrom Hn Hlen; [unfold within; cbn; lia|].
  assert (s ≤ t) as Hst by (inversion Hsort as [|? ? ? Hhd]; by inversion Hhd).
  assert (Sorted Z.le (t :: times)) as Hsort' by (by inversion Hsort).
  cbn [length] in Hlen. destruct (Z.le_gt_cases (from + minute) t) as [Hlate|Hin].
  - rewrite allowed_late; [lia|]. apply Sorted_StronglySorted in Hsort'; [|exact Z.le_trans].
    inversion Hsort' as [|? ? _ Hall]. constructor; [done|].
    eapply Forall_impl; [exact Hall|]. cbn. lia.
  - rewrite allowed_cons by lia. rewrite (proj2 (Z.leb_gt minute (t - s))) by lia.
    rewrite within_app.
    assert (Sorted Z.le (s :: times)) as Hs1.
    { apply Sorted_cons; [by inversion Hsort'|].
      inversion Hsort' as [|? ? _ Hhd]. inversion Hhd; constructor; lia. }
    specialize (IH s (n + 1) Hs1 Hfrom ltac:(lia) ltac:(lia)).
    destruct (n + 1 <=? max) eqn:Hmax; split_bools; [|unfold within at 1; cbn; lia].
    rewrite within_one. destruct (in_minute from t); lia.
Qed.

(** All messages come from the minute on; the window may be older. *)
Lemma within_older max from times : ∀ s n,
  Sorted Z.le (s :: times) → Forall (λ t, from ≤ t) times → 0 ≤ n → 0 ≤ max →
  n + Z.of_nat (length times) < max_int64 →
  within from (allowed max {| windowStart := s; windowCount := n |} times)
    ≤ Z.max 0 (max - n) + max.
Proof.
  induction times as [|t times IH]; intros s n Hsort Hall Hn Hmax0 Hlen; [unfold within; cbn; lia|].
  assert (s ≤ t) as Hst by (inversion Hsort as [|? ? ? Hhd]; by inversion Hhd).
  assert (Sorted Z.le (t :: times)) as Hsort' by (by inversion Hsort).
  cbn [length] in Hlen. inversion_clear Hall as [|? ? Ht Hall'].
  rewrite allowed_cons by lia. destruct (minute <=? t - s) eqn:Hreset; rewrite within_app.
  - pose proof (within_current max from times t 1 Hsort' ltac:(lia) ltac:(lia) ltac:(lia)).
    destruct (1 <=? max) eqn:Hmax; split_bools; [|unfold within at 1; cbn; lia].
    rewrite within_one. destruct (in_minute from t); lia.
  - assert (Sorted Z.le (s :: times)) as Hs1.
    { apply Sorted_cons; [by inversion Hsort'|].
      inversion Hsort' as [|? ? _ Hhd]. inversion Hhd; constructor; lia. }
    specialize (IH s (n + 1) Hs1 Hall' ltac:(lia) Hmax0 ltac:(lia)).
    destruct (n + 1 <=? max) eqn:Hmax; split_bools; [|unfold within at 1; cbn; lia].
    rewrite within_one. destruct (in_minute from t); lia.
Qed.

Lemma within_all max from times : ∀ s n,
  Sorted Z.le (s :: times) → 0 ≤ n → 0 ≤ max →
  n + 1 + Z.of_nat (length times) < max_int64 →
  within from (allowed max {| windowStart := s; windowCount := n |} times) ≤ 2 * max.
Proof.
  induction times as [|t times IH]; intros s n Hsort Hn Hmax0 Hlen; [unfold within; cbn; lia|].
  assert (s ≤ t) as Hst by (inversion Hsort as [|? ? ? Hhd]; by inversion Hhd).
  assert (Sorted Z.le (t :: times)) as Hsort' by (by inversion Hsort).
  destruct (Z.le_gt_cases from t) as [Hin|Hearly].
  - pose proof (within_older max from (t :: times) s n Hsort) as Ho.
    apply Sorted_StronglySorted in Hsort'; [|exact Z.le_trans].
    inversion Hsort' as [|? ? _ Hall].
    assert (Forall (λ t, from ≤ t) (t :: times)) as Hall'
      by (constructor; [done|]; eapply Forall_impl; [exact Hall|]; cbn; lia).
    specialize (Ho Hall' Hn Hmax0 ltac:(lia)). lia.
  - cbn [length] in Hlen. rewrite allowed_cons by lia.
    assert (Sorted Z.le (s :: times)) as Hs1.
    { apply Sorted_cons; [by inversion Hsort'|].
      inversion Hsort' as [|? ? _ Hhd]. inversion Hhd; constructor; lia. }
    assert (in_minute from t = false) as Hout
      by (unfold in_minute; by rewrite (proj2 (Z.leb_gt _ _))).
    destruct (minute <=? t - s); rewrite within_app.
    + specialize (IH t 1 Hsort' ltac:(lia) Hmax0 ltac:(lia)).
      destruct (1 <=? max); rewrite ?within_one, ?Hout; [lia|unfold within at 1; cbn; lia].
    + specialize (IH s (n + 1) Hs1 ltac:(lia) Hmax0 ltac:(lia)).
      destruct (n + 1 <=? max); rewrite ?within_one, ?Hout; [lia|unfold within at 1; cbn; lia].
Qed.

(** In any minute, not just in the minutes the counter is reset at, a connection
    accepts at most twice its limit of control messages, and likewise of audio
    packets. *)
Theorem rate_bounded max t0 times from :
  0 ≤ max → Sorted Z.le (t0 :: times) → Z.of_nat (length times) < 2 ^ 62 →
  within from (allowed max {| windowStart := t0; windowCount := 0 |} times) ≤ 2 * max.
Proof.
  intros Hmax Hsort Hlen. assert (2 ^ 62 = 4611686018427387904) by done.
  apply within_all; try done. unfold max_int64. lia.
Qed.

(** ** The recognised audio of a session *)

Section audio.
Context {Σ : Type} `{Ledger Σ} `{!LedgerLaws Σ}.
Context (Unmarshal : bytes → option envelope) (Decode : bytes → option ControlMessage).
Implicit Types c : connection Σ.

Lemma tts_world_ok m l f : meter_ok m → l_inv l → meter_ok (tts_world m l f).
Proof. intros [_ Hc Hl] Hi. by split. Qed.

Lemma meter_move_ok frame others m m' :
  meter_ok m → frame ≤ MinimumSTTChunkMS → (∀ l, others l → l_inv l) →
  meter_move frame others m m' → meter_ok m' ∧ m_pricing m' = m_pricing m.
Proof.
  intros Hok Hf Ho Hm. pose proof (ok_ledger _ Hok) as Hl. destruct Hm.
  - done.
  - by apply (exec_meter_ok m (OpAudio e1 e2 e3 frame ok)).
  - by apply (exec_meter_ok m (OpFlush e)).
  - by apply (exec_meter_ok m (OpClose e1 e2)).
  - split; [apply tts_world_ok; auto|done].
  - split; [|done]. apply tts_world_ok; [done|].
    destruct (l_Reserve (ledger m) e sub u) as [l r] eqn:Hr.
    by destruct (l_reserve_law _ _ _ _ _ _ Hl Hr).
  - split; [|done]. apply tts_world_ok; [done|].
    destruct (l_Settle (ledger m) e r u) as [l r'] eqn:Hr.
    by destruct (l_settle_law _ _ _ _ _ _ Hl Hr).
  - split; [|done]. apply tts_world_ok; [done|].
    destruct (l_MarkUncertain (ledger m) e r) as [l r'] eqn:Hr.
    by destruct (l_uncertain_law _ _ _ _ _ Hl Hr).
  - split; [|done]. apply tts_world_ok; [done|].
    destruct (l_Release (ledger m) e r) as [l r'] eqn:Hr.
    by destruct (l_release_law _ _ _ _ _ Hl Hr).
Qed.

Definition action_ok (a : action Σ) : Prop :=
  match a with EvOthers l => l_inv l | _ => True end.

Definition session_meter c : Prop :=
  match sttMeter c with Some m => meter_ok m | None => True end.

Lemma run_meter acts c c' :
  session_meter c → inputFrameMillis (cfg c) ≤ MinimumSTTChunkMS → Forall action_ok acts →
  run_session Unmarshal Decode c acts = Some c' → session_meter c'.
Proof.
  intros Hm Hf Ha. revert c Hm Hf.
  induction Ha as [|a acts Ha _ IH]; intros c Hm Hf Hrun; cbn in Hrun; [by simplify_eq|].
  destruct (step _ _ c a) as [c1|] eqn:Hs; [|done].
  destruct (step_meter _ _ _ _ _ Hs) as [Hcfg Hmm]. apply (IH c1); [|by rewrite Hcfg|done].
  unfold session_meter in *. destruct (sttMeter c) as [m|]; [|by rewrite Hmm].
  destruct Hmm as (m' & -> & Hmove). eapply meter_move_ok; [done|done| |exact Hmove].
  intros l ->. exact Ha.
Qed.

(** In every session, whatever its synthesis requests and the rest of the gateway do
    to the shared ledger in between, the recognised audio forwarded upstream is what
    was settled, plus what was forfeited, plus what the meter still holds. *)
Theorem session_audio_accounted DecodeHello g scope version t0 l metrics text hello random
    opened w acts c m :
  let c0 := handshake DecodeHello g scope version t0 (Some (l, metrics)) text hello random
              opened w in
  l_inv l → is_ok (Pricing_Validate (g_Pricing g)) = true → l_pc (loop c0) = Reading →
  Forall action_ok acts → run_session Unmarshal Decode c0 acts = Some c →
  sttMeter c = Some m →
  sent_ms (log m) = settled_ms (log m) + forfeited_ms (log m) + usedAudioMS m.
Proof.
  intros c0 Hl Hp Hread Ha Hrun Hm.
  destruct (handshake_reading _ _ _ _ _ _ _ _ _ _ _ Hread) as (_ & Hf & Hm0).
  fold c0 in Hf, Hm0. assert (session_meter c) as Hok.
  { eapply (run_meter acts c0); [| |done|done].
    - unfold session_meter. rewrite Hm0. by apply new_meter_ok.
    - unfold MinimumSTTChunkMS. lia. }
  unfold session_meter in Hok. rewrite Hm in Hok. destruct Hok as [_ _ (p & Hr & Hph)].
  apply metered_accounts in Hr. destruct p; [destruct Hph|destruct Hph as (_&_&?&_)];
    cbn in *; lia.
Qed.

End audio.

(** ** Witnesses *)

(** A ledger that grants every reservation. *)
#[local] Instance granting_ledger : Ledger Z := {
  l_Reserve n _ _ u :=
    (n + 1, Ok {| ID := be_put 16 n; Limit := u; ReservedMicrousd := 5 |});
  l_Settle n _ _ _ := (n, Ok {| CostMicrousd := 3 |});
  l_MarkUncertain n _ _ := (n, Ok 5);
  l_Release n _ _ := (n, Ok tt);
}.

Definition ex_gateway : gateway :=
  {| g_OutputSampleRate := 24000; g_OutputFrameMillis := 60; g_MaxMessagesMinute := 120;
     g_MaxAudioMinute := 4000; g_Pricing := example_pricing |}.
Definition ex_hello (_ : bytes) : option ClientHello :=
  Some {| Protocol.client_Type := "hello"; Protocol.client_Version := Some (Protocol.Finite 3 0);
          Protocol.client_Transport := "websocket";
          Protocol.client_DeviceAgent :=
            Some {| Protocol.feature_Version := Some (Protocol.Finite 1 0);
                    Protocol.feature_RequestCorrelation := true |};
          Protocol.client_AudioParams :=
            {| Protocol.Format := "opus"; Protocol.SampleRate := 16000; Protocol.Channels := 1;
               Protocol.FrameDuration := 60 |} |}.
Definition ex_session : string := "voice:00".

(** The first byte of a payload tells a request from an abort. *)
Definition ex_type (payload : bytes) : string :=
  match payload with b :: _ => if bval b =? 0 then "tts_request" else "tts_abort" | [] => "" end.
Definition ex_unmarshal (payload : bytes) : option envelope :=
  Some {| env_Type := ex_type payload; env_SessionID := ex_session |}.
Definition ex_decode (payload : bytes) : option ControlMessage :=
  Some {| Protocol.ctl_SessionID := ex_session; Protocol.ctl_Type := ex_type payload;
          Protocol.ctl_RequestID := Some (Protocol.Finite 7 0); Protocol.ctl_Text := "hi";
          Protocol.ctl_Reason := "button" |}.

Definition ex_c0 : connection Z :=
  handshake ex_hello ex_gateway "scope" 3 0 (Some (0, no_metrics)) true [byte_of 1]
    (Some [byte_of 0]) true None.
Definition ex_env : env := {| e_ctx := true; e_now := 0; e_draw := None |}.
Definition ex_frame : bytes := [byte_of 24; byte_of 1].

(** A request that is spoken to its end, and one that is aborted. *)
Definition ex_request : list (action Z) :=
  [EvRead (ReadText 0 [byte_of 0] ex_env None); EvStream 0 (Wrote None);
   EvStream 0 (Wrote None); EvStream 0 (Emits ex_frame None)].
Definition ex_spoken : list (action Z) :=
  ex_request ++ [EvStream 0 (Returns None); EvStream 0 (Accounts ex_env);
                 EvStream 0 (Wrote None); EvStream 0 (Accounts ex_env)].
Definition ex_late : list (action Z) :=
  [EvStream 0 (Emits ex_frame None); EvStream 0 (Returns (Some Stale));
   EvStream 0 (Wrote None); EvStream 0 (Accounts ex_env)].

Definition ex_state (c : connection Z) (acts : list (action Z)) : connection Z :=
  default c (run_session ex_unmarshal ex_decode c acts).

Lemma ex_run_spoken :
  run_session ex_unmarshal ex_decode ex_c0 ex_spoken = Some (ex_state ex_c0 ex_spoken).
Proof. vm_compute. reflexivity. Qed.

Lemma ex_run_request :
  run_session ex_unmarshal ex_decode ex_c0 ex_request = Some (ex_state ex_c0 ex_request).
Proof. vm_compute. reflexivity. Qed.

Definition ex_abort : action Z := EvRead (ReadText 0 [byte_of 1] ex_env None).
Definition ex_aborted : list (action Z) := ex_request ++ ex_abort :: ex_late.

(** The request is heard up to its first frame, then aborted; its goroutine goes on. *)
Lemma tts_conversation_witness :
  let c1 := ex_state ex_c0 ex_request in
  let c := ex_state ex_c0 ex_aborted in
  length (tts_out (out c1)) = 3%nat ∧ NoDup (starts (out c)) ∧
  ∃ new, tts_out (out c) = tts_out (out c1) ++ new ∧
    Forall (λ m, request_of m.1 ≠ Some 7) new.
Proof.
  cbv zeta. split; [vm_compute; reflexivity|].
  set (c2 := ex_state (ex_state ex_c0 ex_request) [ex_abort]).
  destruct (tts_conversation ex_unmarshal ex_decode ex_hello ex_gateway "scope" 3 0
    (Some (0, no_metrics)) true [byte_of 1] (Some [byte_of 0]) true None ex_aborted
    (ex_state ex_c0 ex_aborted)) as (Hst & _ & Hcut).
  - vm_compute. reflexivity.
  - replace (request_ids (ex_state ex_c0 ex_aborted)) with [7] by (vm_compute; reflexivity).
    apply NoDup_singleton.
  - split; [exact Hst|].
    destruct (Hcut ex_request ex_abort ex_late (ex_state ex_c0 ex_request) c2 7)
      as (new & Hout & Hnew).
    + reflexivity.
    + apply ex_run_request.
    + vm_compute. reflexivity.
    + replace (request_ids (ex_state ex_c0 ex_request)) with [7] by (vm_compute; reflexivity).
      apply list_elem_of_singleton. reflexivity.
    + left. exists 0, [byte_of 1], ex_env, None,
        {| env_Type := "tts_abort"; env_SessionID := ex_session |},
        {| Protocol.ctl_SessionID := ex_session; Protocol.ctl_Type := "tts_abort";
           Protocol.ctl_RequestID := Some (Protocol.Finite 7 0); Protocol.ctl_Text := "hi";
           Protocol.ctl_Reason := "button" |}.
      split; [reflexivity|]. split; [vm_compute; discriminate|].
      split_and!; first [vm_compute; reflexivity | discriminate].
    + exists new. split; [|exact Hnew]. rewrite Hout. f_equal.
Defined.


Lemma slot_released_witness : active (ex_state ex_c0 ex_spoken) = None.
Proof.
  apply (slot_released ex_unmarshal ex_decode ex_hello ex_gateway "scope" 3 0
    (Some (0, no_metrics)) true [byte_of 1] (Some [byte_of 0]) true None ex_spoken).
  - apply ex_run_spoken.
  - vm_compute. repeat split; discriminate.
  - vm_compute. reflexivity.
  - apply Forall_forall. intros s Hs. vm_compute in Hs.
    apply list_elem_of_singleton in Hs as ->. reflexivity.
Defined.

Lemma rate_bounded_witness :
  within 0 (allowed 1 {| windowStart := 0; windowCount := 0 |} [0; 1; minute - 1]) ≤ 2 * 1.
Proof.
  apply rate_bounded; [lia| |vm_compute; reflexivity].
  repeat constructor; by vm_compute.
Defined.

End VoiceTheorems.
