(* ===== verification/Auth.v ===== *)
(** * Auth: device and companion tokens

    Models [internal/auth]: identifiers, the claims of a token, the verifier with
    its managed keyring ([token.go], [managed_keyring.go]), the issuer
    ([issuer.go]) and the check of a keyring transition
    ([managed_transition.go]). Tokens are strings; signatures are the executable
    HMAC-SHA-256. [encoding/json]'s decoder is an argument of the verifier; the
    clock readings and the random bytes are arguments of the operations. *)

From stdpp Require Import base gmap strings list pretty.
From Stdlib Require Import ZArith Lia.
From Stdlib.Strings Require Import Byte.
From S2P Require Import Prelude GoBase GoCrypto Protocol.

(** ** Identifiers *)

Module Ident.

Definition identifier_byte (b : byte) : bool :=
  let c := bval b in
  ((97 <=? c) && (c <=? 122)) || ((65 <=? c) && (c <=? 90)) || ((48 <=? c) && (c <=? 57))
  || (c =? 58) || (c =? 45) || (c =? 95) || (c =? 46).

(** The loop ranges over runes; a rune outside ASCII, like an ill-formed
    sequence, has no byte in the accepted set, so the byte-wise test agrees. *)
Definition ValidIdentifier (value : string) (max : Z) : bool :=
  IF bool_decide (value = "") || (max <? slen value) RETURN false ;;
  forallb identifier_byte (bytes_of value).

Definition hex_byte (b : byte) : bool :=
  let c := bval b in ((48 <=? c) && (c <=? 57)) || ((97 <=? c) && (c <=? 102)).

Definition validSHA256 (value : string) : bool :=
  IF negb (slen value =? 64) RETURN false ;;
  forallb hex_byte (bytes_of value).

Definition MaximumBindingRevision : Z := 2 ^ 32 - 1.
Definition maxDeviceID : Z := 64.

Definition ValidBindingRevision (value : Z) : bool :=
  (0 <? value) && (value <=? MaximumBindingRevision).

Definition ValidBindingID (value : string) : bool := canonical_b64 value 16.

Lemma ValidIdentifier_bytes value max :
  ValidIdentifier value max = true →
  Forall (λ b, identifier_byte b = true) (bytes_of value) ∧ value ≠ "" ∧ slen value ≤ max.
Proof.
  unfold ValidIdentifier. case_match; [done|]. split_bools. intros Hf.
  rewrite forallb_forall in Hf. split_and!; [|done|lia].
  apply Forall_forall. intros b Hb. apply Hf. by apply list_elem_of_In.
Qed.

End Ident.

(** ** Splitting and joining *)

Module Strs.

Definition dot : byte := byte_of 46.

(** [strings.Split(s, ".")] on bytes. *)
Fixpoint split_dots (bs : bytes) : list bytes :=
  match bs with
  | [] => [ [] ]
  | b :: rest =>
      if bool_decide (b = dot) then [] :: split_dots rest
      else match split_dots rest with
           | part :: parts => (b :: part) :: parts
           | [] => [ [b] ]
           end
  end.

(** [strings.Join(parts, ".")]. *)
Fixpoint join_dots (parts : list bytes) : bytes :=
  match parts with
  | [] => []
  | [part] => part
  | part :: parts => part ++ dot :: join_dots parts
  end.

Definition no_dot (bs : bytes) : Prop := Forall (λ b, b ≠ dot) bs.

Lemma split_dots_nonempty bs : split_dots bs ≠ [].
Proof. destruct bs; cbn; [done|]. repeat case_match; done. Qed.

Lemma split_dots_word bs : no_dot bs → split_dots bs = [bs].
Proof.
  induction 1 as [|b bs Hb _ IH]; [done|]. cbn. by rewrite bool_decide_false, IH.
Qed.

Lemma split_dots_cons w bs :
  no_dot w → split_dots (w ++ dot :: bs) = w :: split_dots bs.
Proof.
  induction 1 as [|b w Hb _ IH]; cbn.
  - by rewrite bool_decide_true.
  - by rewrite bool_decide_false, IH.
Qed.

Lemma join_split bs : join_dots (split_dots bs) = bs.
Proof.
  induction bs as [|b bs IH]; [done|]. cbn [split_dots].
  pose proof (split_dots_nonempty bs). destruct (split_dots bs) as [|part parts] eqn:Hs; [done|].
  case_bool_decide as Hb.
  - transitivity (dot :: join_dots (part :: parts)); [done|]. by rewrite IH, Hb.
  - rewrite <- IH. by destruct parts.
Qed.

Lemma split_dots_no_dot bs : Forall no_dot (split_dots bs).
Proof.
  induction bs as [|b bs IH]; [by repeat constructor|]. cbn [split_dots].
  case_bool_decide as Hb; [by constructor; [constructor|]|].
  destruct (split_dots bs) as [|part parts]; [repeat constructor; done|].
  apply Forall_cons in IH as [? ?]. constructor; [by constructor|done].
Qed.

(** A dotted prefix multiplies the parts. *)
Lemma split_dots_length_app u w :
  length (split_dots (u ++ dot :: w)) = (length (split_dots u) + length (split_dots w))%nat.
Proof.
  induction u as [|b u IH]; cbn [app split_dots].
  - by rewrite bool_decide_true.
  - case_bool_decide; [cbn; by rewrite IH|].
    pose proof (split_dots_nonempty (u ++ dot :: w)). pose proof (split_dots_nonempty u).
    destruct (split_dots (u ++ dot :: w)), (split_dots u); done.
Qed.

End Strs.

(** ** Tokens *)

Module Token.
Import Ident Strs Text.

Definition VoiceAudience : string := "xiaozhi-agent-gateway".
Definition AgentAudience : string := "xiaozhi-agent-proxy".
Definition OTAAudience : string := "xiaozhi-product-ota".
Definition CompanionAudience : string := "xiaozhi-companion-claim".
Definition CompanionClaimAction : string := "device:claim".
Definition CompanionReleaseAction : string := "device:release".
Definition CompanionConsentAction : string := "device:action-consent".
Definition maxTokenBytes : Z := 2048.

Inductive error : Type :=
| ErrMalformed
| ErrSignature
| ErrClaims
| ErrExpired
| ErrKeyRetired
| ErrConfiguration
| ErrRandom.

Record Claims : Type := {
  DeviceID : string;
  Subject : string;
  Issuer_ : string;
  OwnerID : string;
  TenantID : string;
  BindingID : string;
  BindingRevision : Z;
  Action : string;
  Audience : string;
  IssuedAt : Z;
  Expires : Z;
  TokenID : string;
  ReleaseID : string;
  ImageSHA256 : string;
  SigningKeyID : string;
}.

#[global] Instance Claims_eq_dec : EqDecision Claims.
Proof. solve_decision. Defined.

Definition with_key (claims : Claims) (id : string) : Claims :=
  {| DeviceID := DeviceID claims; Subject := Subject claims; Issuer_ := Issuer_ claims;
     OwnerID := OwnerID claims; TenantID := TenantID claims; BindingID := BindingID claims;
     BindingRevision := BindingRevision claims; Action := Action claims;
     Audience := Audience claims; IssuedAt := IssuedAt claims; Expires := Expires claims;
     TokenID := TokenID claims; ReleaseID := ReleaseID claims;
     ImageSHA256 := ImageSHA256 claims; SigningKeyID := id |}.

Record managedTokenKey : Type := {
  id : string;
  secret : bytes;
  state : string;
  issueBefore : Time;
  verifyUntil : Time;
}.

Record ManagedTokenKeyring : Type := {
  revision : Z;
  activeKeyID : string;
  legacyUnkeyedKeyID : string;
  legacyVerifyUntil : Time;
  keys : gmap string managedTokenKey;
}.

Record Verifier : Type := {
  secrets : list bytes;
  managed : option ManagedTokenKeyring;
  audience : string;
  maxTTL : Duration;
  skew : Duration;
}.

Definition NewKeyringVerifierForAudience (ring : list bytes) (maxTTL : Duration)
    (audience : string) : result error Verifier :=
  IF bool_decide (ring = []) || (3 <? Z.of_nat (length ring)) RETURN Err ErrConfiguration ;;
  IF (maxTTL <=? 0) || negb (ValidIdentifier audience 64) RETURN Err ErrConfiguration ;;
  IF existsb (λ secret, blen secret <? 32) ring RETURN Err ErrConfiguration ;;
  Ok {| secrets := ring; managed := None; audience := audience; maxTTL := maxTTL;
        skew := 30 * second |}.

(** The loop over the keys only rejects, so its order does not matter. *)
Definition NewManagedKeyringVerifierForAudience (keyring : ManagedTokenKeyring)
    (maxTTL : Duration) (audience : string) (now : Time) : result error Verifier :=
  IF (Z.of_nat (size (keys keyring)) <? 1) || (maxTTL <=? 0)
     || negb (ValidIdentifier audience 64)
    RETURN Err ErrConfiguration ;;
  let skew := 30 * second in
  match keys keyring !! activeKeyID keyring with
  | None => Err ErrConfiguration
  | Some active =>
      IF negb (bool_decide (state active = "active"))
         || Before (verifyUntil active) (now + (maxTTL + skew))
        RETURN Err ErrConfiguration ;;
      IF existsb (λ e, bool_decide (state e.2 = "retiring")
                       && Before (verifyUntil e.2) (issueBefore e.2 + (maxTTL + skew)))
           (map_to_list (keys keyring))
        RETURN Err ErrConfiguration ;;
      Ok {| secrets := []; managed := Some keyring; audience := audience;
            maxTTL := maxTTL; skew := skew |}
  end.

Definition validCompanionActionDevice (action deviceID : string) : bool :=
  if bool_decide (action = CompanionClaimAction) then bool_decide (deviceID = "")
  else if bool_decide (action = CompanionReleaseAction) ||
          bool_decide (action = CompanionConsentAction)
  then ValidIdentifier deviceID maxDeviceID
  else false.

Abbreviation empty s := (bool_decide (s = "")) (only parsing).
Abbreviation is_version v a b := (bool_decide (v = a) || bool_decide (v = b)) (only parsing).

Definition validateClaims (v : Verifier) (now : Time) (version : string) (claims : Claims) :
    result error unit :=
  let now := Unix now in
  let skewSeconds := Z.quot (skew v) second in
  let maxTTLSeconds := Z.quot (maxTTL v) second in
  IF negb (bool_decide (Audience claims = audience v)) || (IssuedAt claims <=? 0)
     || (Expires claims <=? IssuedAt claims)
     || (maxTTLSeconds <? Expires claims -i IssuedAt claims)
    RETURN Err ErrClaims ;;
  IF now +i skewSeconds <? IssuedAt claims RETURN Err ErrClaims ;;
  IF Expires claims <=? now -i skewSeconds RETURN Err ErrExpired ;;
  IF negb (empty (TokenID claims)) && negb (ValidIdentifier (TokenID claims) 128)
    RETURN Err ErrClaims ;;
  if bool_decide (Audience claims = CompanionAudience) then
    IF negb (is_version version "v1" "v2") || negb (ValidIdentifier (Subject claims) 128)
       || negb (ValidIdentifier (TenantID claims) 128) || negb (empty (Issuer_ claims))
       || negb (empty (OwnerID claims)) || negb (empty (BindingID claims))
       || negb (BindingRevision claims =? 0) || empty (TokenID claims)
       || negb (empty (ReleaseID claims)) || negb (empty (ImageSHA256 claims))
       || negb (validCompanionActionDevice (Action claims) (DeviceID claims))
      RETURN Err ErrClaims ;;
    Ok tt
  else if bool_decide (Audience claims = VoiceAudience) ||
          bool_decide (Audience claims = AgentAudience) then
    IF negb (is_version version "v3" "v4") || negb (ValidIdentifier (DeviceID claims) maxDeviceID)
       || negb (ValidIdentifier (OwnerID claims) 128) || negb (ValidIdentifier (TenantID claims) 128)
       || negb (ValidBindingID (BindingID claims))
       || negb (ValidBindingRevision (BindingRevision claims)) || empty (TokenID claims)
       || negb (empty (Subject claims)) || negb (empty (Issuer_ claims))
       || negb (empty (Action claims)) || negb (empty (ReleaseID claims))
       || negb (empty (ImageSHA256 claims))
      RETURN Err ErrClaims ;;
    Ok tt
  else if bool_decide (Audience claims = OTAAudience) then
    IF negb (is_version version "v1" "v2") || negb (ValidIdentifier (DeviceID claims) maxDeviceID)
       || negb (empty (Subject claims)) || negb (empty (Issuer_ claims))
       || negb (empty (OwnerID claims)) || negb (empty (TenantID claims))
       || negb (empty (BindingID claims)) || negb (BindingRevision claims =? 0)
       || negb (empty (Action claims)) || negb (ValidIdentifier (ReleaseID claims) 64)
       || negb (validSHA256 (ImageSHA256 claims)) || empty (TokenID claims)
      RETURN Err ErrClaims ;;
    Ok tt
  else
    IF negb (is_version version "v1" "v2") || negb (ValidIdentifier (DeviceID claims) maxDeviceID)
       || negb (empty (Subject claims)) || negb (empty (Issuer_ claims))
       || negb (empty (OwnerID claims)) || negb (empty (TenantID claims))
       || negb (empty (BindingID claims)) || negb (BindingRevision claims =? 0)
       || negb (empty (ReleaseID claims)) || negb (empty (Action claims))
       || negb (empty (ImageSHA256 claims))
      RETURN Err ErrClaims ;;
    Ok tt.

Section Verify.
(** [json.Decoder] with [DisallowUnknownFields] and the check that nothing
    follows; [None] for any decoding error. *)
Context (json_Decode : bytes → option Claims).

(** Which key verifies, where payload and signature are, and whether the key is
    the legacy one. *)
Definition select_key (v : Verifier) (n1 : Time) (parts : list string) :
    result error (option managedTokenKey * string * string * bool) :=
  match parts with
  | [version; keyID; payload; signature] =>
      match managed v with
      | None => Err ErrMalformed
      | Some ring =>
          IF negb (is_version version "v2" "v4") || negb (ValidIdentifier keyID 64)
             || empty payload || empty signature
            RETURN Err ErrMalformed ;;
          match keys ring !! keyID with
          | None => Err ErrSignature
          | Some key => Ok (Some key, payload, signature, false)
          end
      end
  | [version; payload; signature] =>
      IF negb (is_version version "v1" "v3") || empty payload || empty signature
        RETURN Err ErrMalformed ;;
      match managed v with
      | Some ring =>
          IF empty (legacyUnkeyedKeyID ring) || negb (Before n1 (legacyVerifyUntil ring))
            RETURN Err ErrKeyRetired ;;
          match keys ring !! legacyUnkeyedKeyID ring with
          | None => Err ErrKeyRetired
          | Some key =>
              IF negb (bool_decide (state key = "retiring")) RETURN Err ErrKeyRetired ;;
              Ok (Some key, payload, signature, true)
          end
      | None =>
          IF bool_decide (secrets v = []) RETURN Err ErrMalformed ;;
          Ok (None, payload, signature, false)
      end
  | _ => Err ErrMalformed
  end.

(** [n1], [n2] and [n3] are the readings of the clock: for the legacy window, for
    the key's window and for the claims. *)
Definition Verify (v : Verifier) (n1 n2 n3 : Time) (token : string) : result error Claims :=
  IF (slen token =? 0) || (maxTokenBytes <? slen token) RETURN Err ErrMalformed ;;
  let parts := split_dots (bytes_of token) in
  TRY (key, payload, signature, legacy) := select_key v n1 (string_of <$> parts) ;;
  match DecodeString payload, DecodeString signature with
  | Some payload, Some signature =>
      IF negb (blen signature =? 32) RETURN Err ErrMalformed ;;
      let signingInput := join_dots (removelast parts) in
      IF (match key with Some k => negb (Before n2 (verifyUntil k)) | None => false end)
        RETURN Err ErrKeyRetired ;;
      let validSignature :=
        (match key with
         | Some k => bool_decide (signature = hmac_sha256 (secret k) signingInput)
         | None => false
         end)
        || existsb (λ s, bool_decide (signature = hmac_sha256 s signingInput)) (secrets v) in
      IF negb validSignature RETURN Err ErrSignature ;;
      match json_Decode payload with
      | None => Err ErrClaims
      | Some claims =>
          TRY tt := validateClaims v n3 (string_of (hd [] parts)) claims ;;
          match key with
          | None => Ok claims
          | Some k =>
              IF (Unix (verifyUntil k) <? Expires claims)
                 || (bool_decide (state k = "retiring")
                     && ((Unix (issueBefore k) <=? IssuedAt claims)
                         || (legacy &&
                             match managed v with
                             | Some ring => Unix (legacyVerifyUntil ring) <? Expires claims
                             | None => false
                             end)))
                RETURN Err ErrKeyRetired ;;
              Ok (with_key claims (id k))
          end
      end
  | _, _ => Err ErrMalformed
  end.

Definition VerifyAuthorization (v : Verifier) (n1 n2 n3 : Time) (header : string) :
    result error Claims :=
  IF negb (String.prefix "Bearer " header) || (slen header <=? 7) RETURN Err ErrMalformed ;;
  Verify v n1 n2 n3 (TrimSpace (String.substring 7 (String.length header - 7) header)).

Definition VerifyAuthorizationForRelease (v : Verifier) (n1 n2 n3 : Time)
    (header releaseID imageSHA256 : string) : result error Claims :=
  IF negb (bool_decide (audience v = OTAAudience)) || negb (ValidIdentifier releaseID 64)
     || negb (validSHA256 imageSHA256)
    RETURN Err ErrClaims ;;
  TRY claims := VerifyAuthorization v n1 n2 n3 header ;;
  IF negb (bool_decide (ReleaseID claims = releaseID))
     || negb (bool_decide (ImageSHA256 claims = imageSHA256))
    RETURN Err ErrClaims ;;
  Ok claims.

End Verify.

(** The NUL-separated key of a device under a binding. *)
Definition nul : string := string_of [byte_of 0].

Definition OwnedDeviceScope (claims : Claims) : option string :=
  IF negb (bool_decide (Audience claims = VoiceAudience)
           || bool_decide (Audience claims = AgentAudience))
     || negb (ValidIdentifier (DeviceID claims) maxDeviceID)
     || negb (ValidIdentifier (OwnerID claims) 128) || negb (ValidIdentifier (TenantID claims) 128)
     || negb (ValidBindingID (BindingID claims))
     || negb (ValidBindingRevision (BindingRevision claims))
    RETURN None ;;
  Some (BindingID claims +:+ nul +:+ FormatInt (BindingRevision claims) +:+ nul +:+
        DeviceID claims).

(** ** The managed keyring *)

Definition ManagedTokenKeyringSchema : string := "xz-hmac-token-keyring-v1".
Definition maximumManagedTokenKeyLength : Z := 128.
Definition maximumManagedTokenKeys : Z := 3.

Record managedKeyringDocumentEntry : Type := {
  e_KeyID : string;
  e_HMACKeyB64URL : string;
  e_State : string;
  e_IssueBeforeUnix : Z;
  e_VerifyUntilUnix : Z;
}.

Record managedKeyringDocument : Type := {
  Schema : string;
  Revision : Z;
  ActiveKeyID : string;
  LegacyUnkeyedKeyID : string;
  LegacyUnkeyedVerifyUntilUnix : Z;
  Keys : list managedKeyringDocumentEntry;
}.

(** From 1 January 2020 up to 1 January 2100. *)
Definition validManagedTime (value : Z) : bool :=
  (1577836800 <=? value) && (value <? 4102444800).

(** The strict decoder followed by the comparison with the re-encoding accepts
    the canonical spellings only. *)
Definition decodeSecret (value : string) : option bytes :=
  match DecodeString value with
  | Some secret =>
      if (32 <=? blen secret) && (blen secret <=? maximumManagedTokenKeyLength)
         && bool_decide (EncodeToString secret = value)
      then Some secret else None
  | None => None
  end.

(** One round of the loop over the entries: the key it adds and whether it is the
    active one. *)
Definition buildKey (document : managedKeyringDocument) (now : Time) (previousID : string)
    (seenMaterial : list bytes) (entry : managedKeyringDocumentEntry) :
    result error (managedTokenKey * bool) :=
  IF negb (ValidIdentifier (e_KeyID entry) 64)
     || (negb (empty previousID) && str_leb (e_KeyID entry) previousID)
     || negb (validManagedTime (e_VerifyUntilUnix entry))
    RETURN Err ErrConfiguration ;;
  match decodeSecret (e_HMACKeyB64URL entry) with
  | None => Err ErrConfiguration
  | Some secret =>
      IF bool_decide (secret ∈ seenMaterial) RETURN Err ErrConfiguration ;;
      let verifyUntil := from_unix (e_VerifyUntilUnix entry) in
      let key issueBefore :=
        {| id := e_KeyID entry; secret := secret; state := e_State entry;
           issueBefore := issueBefore; verifyUntil := verifyUntil |} in
      if bool_decide (e_State entry = "active") then
        IF negb (bool_decide (e_KeyID entry = ActiveKeyID document))
           || negb (e_IssueBeforeUnix entry =? 0) || negb (After verifyUntil now)
          RETURN Err ErrConfiguration ;;
        Ok (key zero_time, true)
      else if bool_decide (e_State entry = "retiring") then
        IF bool_decide (e_KeyID entry = ActiveKeyID document)
           || negb (validManagedTime (e_IssueBeforeUnix entry))
           || (e_VerifyUntilUnix entry <=? e_IssueBeforeUnix entry)
           || negb (After verifyUntil now)
          RETURN Err ErrConfiguration ;;
        Ok (key (from_unix (e_IssueBeforeUnix entry)), false)
      else Err ErrConfiguration
  end.

Fixpoint buildKeys (document : managedKeyringDocument) (now : Time)
    (entries : list managedKeyringDocumentEntry) (previousID : string)
    (seenMaterial : list bytes) (ring : gmap string managedTokenKey) (activeCount : Z) :
    result error (gmap string managedTokenKey * Z) :=
  match entries with
  | [] => Ok (ring, activeCount)
  | entry :: entries =>
      TRY (key, active) := buildKey document now previousID seenMaterial entry ;;
      buildKeys document now entries (e_KeyID entry) (seenMaterial ++ [secret key])
        (<[e_KeyID entry:=key]> ring) (if active : bool then activeCount + 1 else activeCount)
  end.

Definition buildManagedTokenKeyring (document : managedKeyringDocument)
    (minimumRevision : Z) (now : Time) : result error ManagedTokenKeyring :=
  IF negb (bool_decide (Schema document = ManagedTokenKeyringSchema))
     || (Revision document <? minimumRevision) || (Revision document =? 0)
     || negb (ValidIdentifier (ActiveKeyID document) 64)
     || (Z.of_nat (length (Keys document)) <? 1)
     || (maximumManagedTokenKeys <? Z.of_nat (length (Keys document)))
    RETURN Err ErrConfiguration ;;
  let legacyConfigured := negb (empty (LegacyUnkeyedKeyID document))
                          || negb (LegacyUnkeyedVerifyUntilUnix document =? 0) in
  IF legacyConfigured && (negb (ValidIdentifier (LegacyUnkeyedKeyID document) 64)
                          || negb (validManagedTime (LegacyUnkeyedVerifyUntilUnix document)))
    RETURN Err ErrConfiguration ;;
  TRY (ring, activeCount) := buildKeys document now (Keys document) "" [] ∅ 0 ;;
  let keyring :=
    {| revision := Revision document; activeKeyID := ActiveKeyID document;
       legacyUnkeyedKeyID := LegacyUnkeyedKeyID document;
       legacyVerifyUntil := if legacyConfigured
                            then from_unix (LegacyUnkeyedVerifyUntilUnix document)
                            else zero_time;
       keys := ring |} in
  IF negb (activeCount =? 1) RETURN Err ErrConfiguration ;;
  if legacyConfigured then
    match ring !! legacyUnkeyedKeyID keyring with
    | None => Err ErrConfiguration
    | Some legacy =>
        IF negb (bool_decide (state legacy = "retiring"))
           || After (legacyVerifyUntil keyring) (verifyUntil legacy)
           || negb (After (legacyVerifyUntil keyring) now)
          RETURN Err ErrConfiguration ;;
        Ok keyring
    end
  else Ok keyring.

(** ** Keyring transitions *)

Inductive transition : Type := Rotate | ForwardRecover.

#[global] Instance transition_eq_dec : EqDecision transition.
Proof. solve_decision. Defined.

Definition minimumIssuedTTL : Duration := minute.
Definition maximumIssuedTTL : Duration := hour.
Definition managedTokenTransitionSkew : Duration := 30 * second.

Record ManagedTokenTransitionSummary : Type := {
  Transition : transition;
  CurrentRevision : Z;
  TargetRevision : Z;
  CurrentActiveKeyID : string;
  TargetActiveKeyID : string;
  CutoverUnix : Z;
  MinimumDrainUntilUnix : Z;
  OldKeyVerifyUntilUnix : Z;
}.

Definition sameManagedSecret (first second : bytes) : bool :=
  (32 <=? blen first) && bool_decide (first = second).

(** The case of the loop over the current keys for key [kid]. *)
Definition key_carried (current target : ManagedTokenKeyring) (t : transition)
    (cutover : Time) (kid : string) (currentKey : managedTokenKey) : bool :=
  match keys target !! kid with
  | None => false
  | Some targetKey =>
      sameManagedSecret (secret currentKey) (secret targetKey) &&
      if bool_decide (kid = activeKeyID current) then
        bool_decide (state targetKey = "retiring") && (issueBefore targetKey =? cutover)
        && (verifyUntil targetKey =? verifyUntil currentKey)
      else if bool_decide (t = ForwardRecover) && bool_decide (kid = activeKeyID target) then
        bool_decide (state targetKey = "active") && IsZero (issueBefore targetKey)
        && negb (Before (verifyUntil targetKey) (verifyUntil currentKey))
      else
        bool_decide (state targetKey = state currentKey)
        && (issueBefore targetKey =? issueBefore currentKey)
        && (verifyUntil targetKey =? verifyUntil currentKey)
  end.

Definition ValidateManagedTokenTransition (current target : ManagedTokenKeyring)
    (t : transition) (maxTTL : Duration) (now : Time) :
    result error ManagedTokenTransitionSummary :=
  IF IsZero now || (maxTTL <? minimumIssuedTTL) || (maximumIssuedTTL <? maxTTL)
    RETURN Err ErrConfiguration ;;
  IF revision target <=? revision current RETURN Err ErrConfiguration ;;
  match keys current !! activeKeyID current, keys target !! activeKeyID target,
        keys target !! activeKeyID current with
  | Some currentActive, Some targetActive, Some oldInTarget =>
      IF negb (bool_decide (state currentActive = "active"))
         || negb (bool_decide (state targetActive = "active"))
         || negb (bool_decide (state oldInTarget = "retiring"))
         || negb (sameManagedSecret (secret currentActive) (secret oldInTarget))
        RETURN Err ErrConfiguration ;;
      let cutover := issueBefore oldInTarget in
      let minimumDrain := cutover + (maxTTL + managedTokenTransitionSkew) in
      IF negb (After cutover (now + managedTokenTransitionSkew))
         || Before (verifyUntil currentActive) minimumDrain
         || Before (verifyUntil oldInTarget) minimumDrain
         || Before (verifyUntil targetActive) minimumDrain
         || Before (verifyUntil oldInTarget) (verifyUntil currentActive)
        RETURN Err ErrConfiguration ;;
      IF (match t with
          | Rotate =>
              negb (bool_decide (keys current !! activeKeyID target = None))
              || negb (bool_decide (size (keys target) = size (keys current) + 1)%nat)
          | ForwardRecover =>
              match keys current !! activeKeyID target with
              | None => true
              | Some prior =>
                  negb (bool_decide (state prior = "retiring"))
                  || bool_decide (legacyUnkeyedKeyID current = activeKeyID target)
                  || negb (bool_decide (size (keys target) = size (keys current)))
                  || negb (sameManagedSecret (secret prior) (secret targetActive))
                  || Before (verifyUntil targetActive) (verifyUntil prior)
              end
          end)
        RETURN Err ErrConfiguration ;;
      IF negb (bool_decide (legacyUnkeyedKeyID current = legacyUnkeyedKeyID target))
         || negb (legacyVerifyUntil current =? legacyVerifyUntil target)
        RETURN Err ErrConfiguration ;;
      IF negb (forallb (λ e, key_carried current target t cutover e.1 e.2)
                 (map_to_list (keys current)))
        RETURN Err ErrConfiguration ;;
      Ok {| Transition := t; CurrentRevision := revision current;
            TargetRevision := revision target; CurrentActiveKeyID := activeKeyID current;
            TargetActiveKeyID := activeKeyID target; CutoverUnix := Unix cutover;
            MinimumDrainUntilUnix := Unix minimumDrain;
            OldKeyVerifyUntilUnix := Unix (verifyUntil oldInTarget) |}
  | _, _, _ => Err ErrConfiguration
  end.

(** ** The issuer *)

Record Issuer : Type := {
  i_secret : bytes;
  i_keyID : string;
  i_verifyUntil : Time;
  i_managed : bool;
  i_ttl : Duration;
  i_audience : string;
}.

Definition NewIssuerForAudience (secret : bytes) (ttl : Duration) (audience : string) :
    result error Issuer :=
  IF blen secret <? 32 RETURN Err ErrConfiguration ;;
  IF (ttl <? minimumIssuedTTL) || (maximumIssuedTTL <? ttl) RETURN Err ErrConfiguration ;;
  IF negb (ValidIdentifier audience 64) RETURN Err ErrConfiguration ;;
  Ok {| i_secret := secret; i_keyID := ""; i_verifyUntil := zero_time; i_managed := false;
        i_ttl := ttl; i_audience := audience |}.

Definition NewManagedIssuerForAudience (keyring : ManagedTokenKeyring) (ttl : Duration)
    (audience : string) (now : Time) : result error Issuer :=
  IF negb (ValidIdentifier (activeKeyID keyring) 64) RETURN Err ErrConfiguration ;;
  match keys keyring !! activeKeyID keyring with
  | None => Err ErrConfiguration
  | Some key =>
      IF negb (bool_decide (state key = "active")) RETURN Err ErrConfiguration ;;
      TRY issuer := NewIssuerForAudience (secret key) ttl audience ;;
      IF Before (verifyUntil key) (now + (ttl + 30 * second)) RETURN Err ErrConfiguration ;;
      Ok {| i_secret := i_secret issuer; i_keyID := id key; i_verifyUntil := verifyUntil key;
            i_managed := true; i_ttl := i_ttl issuer; i_audience := i_audience issuer |}
  end.

(** [json.Marshal] of the claims, for strings in which nothing is escaped: the
    issuer only marshals identifiers, base64url and hexadecimal strings. *)
Definition json_field (name value : string) : string :=
  String (Ascii.ascii_of_nat 34) name +:+ String (Ascii.ascii_of_nat 34) (":" +:+ value).
Definition json_string (value : string) : string :=
  String (Ascii.ascii_of_nat 34) (value +:+ String (Ascii.ascii_of_nat 34) "").
Definition omit_string (name value : string) : list string :=
  if empty value then [] else [json_field name (json_string value)].

Fixpoint join_comma (fields : list string) : string :=
  match fields with
  | [] => ""
  | [field] => field
  | field :: fields => field +:+ "," +:+ join_comma fields
  end.

Definition json_Marshal (claims : Claims) : bytes :=
  bytes_of ("{" +:+ join_comma
    (omit_string "device_id" (DeviceID claims) ++ omit_string "sub" (Subject claims)
     ++ omit_string "iss" (Issuer_ claims) ++ omit_string "owner_id" (OwnerID claims)
     ++ omit_string "tenant_id" (TenantID claims) ++ omit_string "binding_id" (BindingID claims)
     ++ (if BindingRevision claims =? 0 then []
         else [json_field "binding_revision" (FormatInt (BindingRevision claims))])
     ++ omit_string "action" (Action claims)
     ++ [json_field "aud" (json_string (Audience claims));
         json_field "iat" (FormatInt (IssuedAt claims));
         json_field "exp" (FormatInt (Expires claims))]
     ++ omit_string "jti" (TokenID claims) ++ omit_string "release_id" (ReleaseID claims)
     ++ omit_string "image_sha256" (ImageSHA256 claims)) +:+ "}").

Definition owned_audience (audience : string) : bool :=
  bool_decide (audience = VoiceAudience) || bool_decide (audience = AgentAudience).

(** [random] is what the reader delivers for the token identifier. *)
Definition issueUntil (issuer : Issuer) (now : Time) (random : option bytes)
    (deviceID subject ownerID tenantID bindingID : string) (bindingRevision : Z)
    (releaseID imageSHA256 action : string) (validUntil : Time) :
    result error (string * Claims) :=
  IF (empty subject && negb (ValidIdentifier deviceID maxDeviceID))
     || (negb (empty subject) && negb (empty deviceID)
         && negb (bool_decide (action = CompanionReleaseAction))
         && negb (bool_decide (action = CompanionConsentAction)))
    RETURN Err ErrClaims ;;
  match random with
  | None => Err ErrRandom
  | Some tokenID =>
      let expiresAt := TruncateSecond (now + i_ttl issuer) in
      let expiresAt := if negb (IsZero validUntil) && Before validUntil expiresAt
                       then validUntil else expiresAt in
      IF Unix expiresAt -i Unix now <? Z.quot minimumIssuedTTL second RETURN Err ErrClaims ;;
      IF i_managed issuer && (negb (ValidIdentifier (i_keyID issuer) 64)
                              || Before (i_verifyUntil issuer) (expiresAt + 30 * second))
        RETURN Err ErrKeyRetired ;;
      let claims :=
        {| DeviceID := deviceID; Subject := subject; Issuer_ := ""; OwnerID := ownerID;
           TenantID := tenantID; BindingID := bindingID; BindingRevision := bindingRevision;
           Action := action; Audience := i_audience issuer; IssuedAt := Unix now;
           Expires := Unix expiresAt; TokenID := EncodeToString tokenID;
           ReleaseID := releaseID; ImageSHA256 := imageSHA256;
           SigningKeyID := i_keyID issuer |} in
      let encoded := bytes_of (EncodeToString (json_Marshal claims)) in
      let version := if i_managed issuer
                     then (if owned_audience (i_audience issuer) then "v4" else "v2")
                     else (if owned_audience (i_audience issuer) then "v3" else "v1") in
      let signingInput :=
        if i_managed issuer
        then bytes_of version ++ dot :: bytes_of (i_keyID issuer) ++ dot :: encoded
        else bytes_of version ++ dot :: encoded in
      let token := signingInput ++ dot ::
                   bytes_of (EncodeToString (hmac_sha256 (i_secret issuer) signingInput)) in
      IF maxTokenBytes <? blen token RETURN Err ErrMalformed ;;
      Ok (string_of token, claims)
  end.

Definition Issue (issuer : Issuer) (now : Time) (random : option bytes) (deviceID : string) :
    result error (string * Claims) :=
  IF bool_decide (i_audience issuer ∈ [VoiceAudience; AgentAudience; OTAAudience; CompanionAudience])
    RETURN Err ErrClaims ;;
  issueUntil issuer now random deviceID "" "" "" "" 0 "" "" "" zero_time.

Definition IssueCompanion (issuer : Issuer) (now : Time) (random : option bytes)
    (subject tenantID : string) : result error (string * Claims) :=
  IF negb (bool_decide (i_audience issuer = CompanionAudience))
     || negb (ValidIdentifier subject 128) || negb (ValidIdentifier tenantID 128)
    RETURN Err ErrClaims ;;
  issueUntil issuer now random "" subject "" tenantID "" 0 "" "" CompanionClaimAction zero_time.

(** [IssueCompanionRelease] and [IssueCompanionActionConsent], which differ in the
    action only. *)
Definition IssueCompanionFor (action : string) (issuer : Issuer) (now : Time)
    (random : option bytes) (subject tenantID deviceID : string) :
    result error (string * Claims) :=
  IF negb (bool_decide (i_audience issuer = CompanionAudience))
     || negb (ValidIdentifier subject 128) || negb (ValidIdentifier tenantID 128)
     || negb (ValidIdentifier deviceID maxDeviceID)
    RETURN Err ErrClaims ;;
  issueUntil issuer now random deviceID subject "" tenantID "" 0 "" "" action zero_time.

Definition IssueCompanionRelease := IssueCompanionFor CompanionReleaseAction.
Definition IssueCompanionActionConsent := IssueCompanionFor CompanionConsentAction.

Definition issueOwnedUntil (issuer : Issuer) (now : Time) (random : option bytes)
    (deviceID ownerID tenantID bindingID : string) (bindingRevision : Z) (validUntil : Time) :
    result error (string * Claims) :=
  IF negb (owned_audience (i_audience issuer)) || negb (ValidIdentifier deviceID maxDeviceID)
     || negb (ValidIdentifier ownerID 128) || negb (ValidIdentifier tenantID 128)
     || negb (ValidBindingID bindingID) || negb (ValidBindingRevision bindingRevision)
    RETURN Err ErrClaims ;;
  issueUntil issuer now random deviceID "" ownerID tenantID bindingID bindingRevision "" "" ""
    validUntil.

Definition IssueOwned (issuer : Issuer) (now : Time) (random : option bytes)
    (deviceID ownerID tenantID bindingID : string) (bindingRevision : Z) :
    result error (string * Claims) :=
  issueOwnedUntil issuer now random deviceID ownerID tenantID bindingID bindingRevision zero_time.

(** [validUntil] is in UTC; [Nanosecond] is the fraction of its second. *)
Definition IssueOwnedUntil (issuer : Issuer) (now : Time) (random : option bytes)
    (deviceID ownerID tenantID bindingID : string) (bindingRevision : Z) (validUntil : Time) :
    result error (string * Claims) :=
  IF IsZero validUntil || negb (validUntil mod second =? 0) RETURN Err ErrClaims ;;
  issueOwnedUntil issuer now random deviceID ownerID tenantID bindingID bindingRevision validUntil.

Definition IssueForRelease (issuer : Issuer) (now : Time) (random : option bytes)
    (deviceID releaseID imageSHA256 : string) : result error (string * Claims) :=
  IF negb (bool_decide (i_audience issuer = OTAAudience))
     || negb (ValidIdentifier releaseID 64) || negb (validSHA256 imageSHA256)
    RETURN Err ErrClaims ;;
  issueUntil issuer now random deviceID "" "" "" "" 0 releaseID imageSHA256 "" zero_time.

(** ** What a verified token guarantees *)

(** A key that may sign: a static secret, or a key of the ring whose window is
    open; a retiring key only for tokens issued before its cut-off. *)
Definition signing_secret (v : Verifier) (n2 : Time) (claims : Claims) (s : bytes) : Prop :=
  s ∈ secrets v ∨
  ∃ ring kid k, managed v = Some ring ∧ keys ring !! kid = Some k ∧ s = secret k ∧
    n2 < verifyUntil k ∧ Expires claims ≤ Unix (verifyUntil k) ∧
    (state k = "retiring" → IssuedAt claims < Unix (issueBefore k)).

Lemma select_key_managed v n1 parts k payload signature legacy :
  select_key v n1 parts = Ok (Some k, payload, signature, legacy) →
  ∃ ring kid, managed v = Some ring ∧ keys ring !! kid = Some k.
Proof. unfold select_key. intros Hs. repeat case_match; simplify_eq; eauto. Qed.

Lemma select_key_last v n1 parts key payload signature legacy :
  select_key v n1 parts = Ok (key, payload, signature, legacy) →
  ∃ init, parts = init ++ [payload; signature] ∧ init ≠ [].
Proof.
  unfold select_key. intros Hs. repeat case_match; simplify_eq.
  all: first [ by eexists [_; _] | by eexists [_] ].
Qed.

Lemma join_snoc parts p : parts ≠ [] → join_dots (parts ++ [p]) = join_dots parts ++ dot :: p.
Proof.
  induction parts as [|q parts IH]; [done|]. intros _. destruct parts as [|q' parts]; [done|].
  change (join_dots ((q :: q' :: parts) ++ [p])) with (q ++ dot :: join_dots ((q' :: parts) ++ [p])).
  rewrite IH by done. change (join_dots (q :: q' :: parts)) with (q ++ dot :: join_dots (q' :: parts)).
  by rewrite <- app_assoc.
Qed.

Definition claims_i64 (c : Claims) : Prop :=
  in_i64 (Expires c) ∧ in_i64 (IssuedAt c).

Lemma unix_range now : 0 ≤ now ≤ max_int64 → 0 ≤ Unix now ≤ 9223372036.
Proof.
  intros [? ?]. unfold Unix. split; [by apply Z.div_pos|].
  change 9223372036 with (max_int64 / second). by apply Z.div_le_mono.
Qed.

Lemma validateClaims_window v now version claims :
  validateClaims v now version claims = Ok tt → claims_i64 claims →
  skew v = 30 * second → 0 ≤ now ≤ max_int64 →
  Audience claims = audience v ∧ 0 < IssuedAt claims < Expires claims ∧
  Expires claims - IssuedAt claims ≤ Z.quot (maxTTL v) second ∧
  IssuedAt claims ≤ Unix now + 30 ∧ Unix now - 30 < Expires claims.
Proof.
  unfold validateClaims, claims_i64, in_i64. intros Hv [He Hi] Hskew Hnow. rewrite Hskew in Hv.
  change (Z.quot (30 * second) second) with 30 in Hv. cbv zeta in Hv.
  pose proof (unix_range now Hnow).
  destruct (_ || _) eqn:H1 in Hv; [done|].
  destruct (_ <? IssuedAt claims) eqn:H2 in Hv; [done|].
  destruct (Expires claims <=? _) eqn:H3 in Hv; [done|]. clear Hv. split_bools.
  unfold min_int64, max_int64 in *. no_wrap. split_and!; done || lia.
Qed.

(** The checks made with the selected key once the claims are decoded. *)
Definition key_admits (v : Verifier) (key : option managedTokenKey) (legacy : bool) (c : Claims) :
    bool :=
  match key with
  | None => true
  | Some k =>
      negb ((Unix (verifyUntil k) <? Expires c)
            || (bool_decide (state k = "retiring")
                && ((Unix (issueBefore k) <=? IssuedAt c)
                    || (legacy && match managed v with
                                  | Some ring => Unix (legacyVerifyUntil ring) <? Expires c
                                  | None => false
                                  end))))
  end.

Definition key_signs (v : Verifier) (key : option managedTokenKey) (n2 : Time)
    (signed sg : bytes) : bool :=
  (match key with Some k => Before n2 (verifyUntil k) | None => true end) &&
  ((match key with Some k => bool_decide (sg = hmac_sha256 (secret k) signed) | None => false end)
   || existsb (λ s, bool_decide (sg = hmac_sha256 s signed)) (secrets v)).

Definition named (key : option managedTokenKey) (c : Claims) : Claims :=
  match key with None => c | Some k => with_key c (id k) end.

Lemma Verify_ok json_Decode v n1 n2 n3 token claims :
  Verify json_Decode v n1 n2 n3 token = Ok claims ↔
  1 ≤ slen token ≤ maxTokenBytes ∧
  let parts := split_dots (bytes_of token) in
  ∃ key enc sig legacy payload sg c,
    select_key v n1 (string_of <$> parts) = Ok (key, enc, sig, legacy) ∧
    DecodeString enc = Some payload ∧ DecodeString sig = Some sg ∧ blen sg = 32 ∧
    key_signs v key n2 (join_dots (removelast parts)) sg = true ∧
    json_Decode payload = Some c ∧
    validateClaims v n3 (string_of (hd [] parts)) c = Ok tt ∧
    key_admits v key legacy c = true ∧ claims = named key c.
Proof.
  unfold Verify, key_signs, key_admits, named. cbv zeta.
  set (parts := split_dots (bytes_of token)).
  assert (0 ≤ slen token) by (unfold slen; lia).
  destruct (_ || _) eqn:Hlen.
  { split; [done|]. intros [? _]. apply orb_true_iff in Hlen as [?|?]; split_bools; lia. }
  split_bools. split.
  - intros Hv. split; [lia|].
    destruct (select_key _ _ _) as [ [[[key enc] sig] legacy] |]; [|done].
    destruct (DecodeString enc) as [payload|] eqn:He; [|done].
    destruct (DecodeString sig) as [sg|] eqn:Hs; [|done].
    destruct (blen sg =? 32) eqn:H32; [|done]. cbn [negb] in Hv. split_bools.
    destruct key as [k|].
    + destruct (Before n2 (verifyUntil k)) eqn:Hb; [|done]. cbn [negb andb] in *.
      destruct (_ || _) eqn:Hm in Hv; [|done]. cbn [negb] in Hv.
      destruct (json_Decode payload) as [c|] eqn:Hj; [|done].
      destruct (validateClaims _ _ _ _) as [ [] |] eqn:Hval; [|done].
      destruct (_ || _) eqn:Hadm in Hv; [done|]. simplify_eq.
      exists (Some k), enc, sig, legacy, payload, sg, c.
      rewrite Hb, Hm, Hadm. done.
    + cbn [negb andb orb] in *. destruct (existsb _ _) eqn:Hm; [|done]. cbn [negb] in Hv.
      destruct (json_Decode payload) as [c|] eqn:Hj; [|done].
      destruct (validateClaims _ _ _ _) as [ [] |] eqn:Hval; [|done]. simplify_eq.
      by exists None, enc, sig, legacy, payload, sg, claims.
  - intros [_ (key & enc & sig & legacy & payload & sg & c & -> & -> & -> & H32 & Hs & -> & -> & Ha & ->)].
    rewrite H32. cbn [negb Z.eqb Pos.eqb]. destruct key as [k|].
    + apply andb_true_iff in Hs as [-> ->]. cbn [negb]. apply negb_true_iff in Ha. by rewrite Ha.
    + cbn [andb orb] in Hs. rewrite Hs. done.
Qed.

Section verified.
Context (json_Decode : bytes → option Claims).
(** The decoder stores [iat] and [exp] in int64 fields. *)
Hypothesis json_i64 : ∀ payload c, json_Decode payload = Some c → claims_i64 c.

(** The last part of the token signs what precedes it, whose last part is the
    encoded payload. *)
Definition authentic (v : Verifier) (n2 : Time) (token : string) (claims : Claims) : Prop :=
  ∃ head enc sig s payload c k,
    bytes_of token = (head ++ dot :: bytes_of enc) ++ dot :: bytes_of sig ∧
    DecodeString sig = Some (hmac_sha256 s (head ++ dot :: bytes_of enc)) ∧
    signing_secret v n2 claims s ∧ DecodeString enc = Some payload ∧
    json_Decode payload = Some c ∧ claims = with_key c k.

Lemma fmap_string_split (parts : list bytes) (l : list string) (p q : string) :
  string_of <$> parts = l ++ [p; q] →
  ∃ init, parts = init ++ [bytes_of p; bytes_of q] ∧ string_of <$> init = l.
Proof.
  intros Hf. apply fmap_app_inv in Hf as (l1 & l2 & -> & Hl2 & ->).
  destruct l2 as [|x [|y [|] ] ]; try done. injection Hl2 as -> ->.
  exists l1. by rewrite !bytes_of_string_of.
Qed.

Lemma with_key_self c : c = with_key c (SigningKeyID c).
Proof. by destruct c. Qed.

(** The token as its signed part and its signature. *)
Lemma token_split v n1 token key enc sig legacy :
  select_key v n1 (string_of <$> split_dots (bytes_of token)) = Ok (key, enc, sig, legacy) →
  ∃ pre, bytes_of token = (pre ++ dot :: bytes_of enc) ++ dot :: bytes_of sig ∧
    join_dots (removelast (split_dots (bytes_of token))) = pre ++ dot :: bytes_of enc.
Proof.
  intros Hsel. set (parts := split_dots (bytes_of token)) in *.
  destruct (select_key_last _ _ _ _ _ _ _ Hsel) as (init & Hparts & Hne).
  apply fmap_string_split in Hparts as (pre & Hparts & Hpre).
  assert (pre ≠ []) as Hpre_ne by (intros ->; by rewrite <- Hpre in Hne).
  replace (pre ++ [bytes_of enc; bytes_of sig]) with ((pre ++ [bytes_of enc]) ++ [bytes_of sig])
    in Hparts by (by rewrite <- app_assoc).
  exists (join_dots pre). rewrite Hparts, removelast_last, join_snoc by done. split; [|done].
  rewrite <- (join_split (bytes_of token)). fold parts. rewrite Hparts.
  by rewrite !join_snoc by (by destruct pre).
Qed.

Lemma signed_by v key n2 legacy c signed sg :
  key_signs v key n2 signed sg = true → key_admits v key legacy c = true →
  (∀ k, key = Some k → ∃ ring kid, managed v = Some ring ∧ keys ring !! kid = Some k) →
  ∃ s, sg = hmac_sha256 s signed ∧ signing_secret v n2 (named key c) s.
Proof.
  unfold key_signs, key_admits. intros Hs Ha Hm. apply andb_true_iff in Hs as [Hb Hs].
  apply orb_true_iff in Hs as [Hs|Hs].
  - destruct key as [k|]; [|done]. split_bools. exists (secret k). split; [done|]. right.
    destruct (Hm k eq_refl) as (ring & kid & Hr & Hk). exists ring, kid, k.
    unfold Before in *. split_bools. cbn. split_and!; try done.
    intros Hret. rewrite bool_decide_true in * by done. split_bools. lia.
  - apply existsb_exists in Hs as (s & Hin & Heq). split_bools. exists s. split; [done|].
    left. by apply list_elem_of_In.
Qed.

(** C3: a token that verifies is authentic and current: its last part is the
    HMAC-SHA-256 of everything before it under a secret the verifier still
    trusts for that token (a key of the ring whose verification window is open
    and covers the expiry, and, if it is retiring, only for tokens issued before
    its cut-off); its payload decodes to the returned claims; the audience is
    the verifier's; and the clock is within the validity of the token, up to
    30 seconds of skew, the validity being no longer than the maximum. *)
Theorem Verify_sound v n1 n2 n3 token claims :
  skew v = 30 * second → 0 ≤ n3 ≤ max_int64 →
  Verify json_Decode v n1 n2 n3 token = Ok claims →
  authentic v n2 token claims ∧
  Audience claims = audience v ∧ 0 < IssuedAt claims < Expires claims ∧
  Expires claims - IssuedAt claims ≤ Z.quot (maxTTL v) second ∧
  IssuedAt claims ≤ Unix n3 + 30 ∧ Unix n3 - 30 < Expires claims.
Proof.
  intros Hskew Hn3 [_ Hv]%Verify_ok. cbv zeta in Hv.
  destruct Hv as (key & enc & sig & legacy & payload & sg & c & Hsel & Henc & Hsig & _ & Hsigns &
    Hjson & Hval & Hadm & ->).
  destruct (validateClaims_window v n3 _ c Hval (json_i64 _ _ Hjson) Hskew Hn3) as (?&?&?&?&?).
  split; [|by destruct key].
  destruct (token_split v n1 token key enc sig legacy Hsel) as (pre & Htok & Hsigned).
  rewrite Hsigned in Hsigns. destruct (signed_by _ _ _ _ _ _ _ Hsigns Hadm) as (s & -> & Hs).
  { intros k ->. by eapply select_key_managed. }
  exists pre, enc, sig, s, payload, c.
  destruct key as [k|]; [exists (id k)|exists (SigningKeyID c)]; split_and!; try done.
  apply with_key_self.
Qed.

End verified.

(** ** Issued tokens *)

Lemma b64_char_identifier v :
  0 ≤ v < 64 → identifier_byte (b64_char v) = true ∧ b64_char v ≠ dot.
Proof.
  intros Hv.
  assert (forallb (λ n, identifier_byte (b64_char (Z.of_nat n))
                        && bool_decide (b64_char (Z.of_nat n) ≠ dot)) (seq 0 64) = true) as Hall
    by (by vm_compute).
  rewrite forallb_forall in Hall. specialize (Hall (Z.to_nat v)).
  rewrite Z2Nat.id in Hall by lia. rewrite in_seq in Hall.
  apply andb_true_iff in Hall as [? ?]; [|lia]. by split_bools.
Qed.

Lemma encoded_bytes bs :
  Forall (λ b, identifier_byte b = true ∧ b ≠ dot) (bytes_of (EncodeToString bs)).
Proof.
  unfold EncodeToString. rewrite bytes_of_string_of. apply Forall_fmap.
  eapply Forall_impl; [apply b64_sextets_range|]. intros v Hv. cbn. by apply b64_char_identifier.
Qed.

Lemma encoded_no_dot bs : no_dot (bytes_of (EncodeToString bs)).
Proof. eapply Forall_impl; [apply encoded_bytes|]. by intros b [_ ?]. Qed.

Lemma encoded_length bs : (length (bytes_of (EncodeToString bs)) ≤ 2 * length bs)%nat.
Proof.
  unfold EncodeToString. rewrite bytes_of_string_of, length_fmap.
  induction bs as [|a|a b|a b c bs IH] using bytes_ind3; cbn [b64_sextets length]; lia.
Qed.

Lemma encoded_nonempty bs : bs ≠ [] → EncodeToString bs ≠ "".
Proof.
  intros Hne Heq. apply Hne. apply EncodeToString_inj. by rewrite Heq.
Qed.

Lemma encoded_identifier bs :
  bs ≠ [] → blen bs ≤ 64 → ValidIdentifier (EncodeToString bs) 128 = true.
Proof.
  intros Hne Hlen. unfold ValidIdentifier. rewrite bool_decide_false by (by apply encoded_nonempty).
  rewrite slen_bytes_of. pose proof (encoded_length bs). unfold blen in *.
  rewrite (proj2 (Z.ltb_ge _ _)) by lia. cbn [orb]. apply forallb_forall.
  intros b Hin. pose proof (encoded_bytes bs) as Hall. rewrite Forall_forall in Hall.
  apply Hall. by apply list_elem_of_In.
Qed.

Lemma TruncateSecond_unix t : TruncateSecond t = from_unix (Unix t).
Proof.
  unfold TruncateSecond, from_unix, Unix, zero_time.
  rewrite Zminus_mod, Z.mod_mul, Z.sub_0_r, Zmod_mod by done.
  pose proof (Z.div_mod t second ltac:(done)). lia.
Qed.

(** The shape of a token signed with a managed key. *)
Lemma issueUntil_managed issuer now random dev sub own ten bid brev rel img act until token claims :
  issueUntil issuer now random dev sub own ten bid brev rel img act until = Ok (token, claims) →
  i_managed issuer = true →
  ∃ version, (version = "v2" ∨ version = "v4") ∧
  let signed := bytes_of version ++ dot :: bytes_of (i_keyID issuer) ++ dot ::
                bytes_of (EncodeToString (json_Marshal claims)) in
  bytes_of token = signed ++ dot ::
    bytes_of (EncodeToString (hmac_sha256 (i_secret issuer) signed)) ∧
  blen (bytes_of token) ≤ maxTokenBytes ∧
  version = (if owned_audience (i_audience issuer) then "v4" else "v2").
Proof.
  unfold issueUntil. intros Hi Hm. destruct (_ || _) in Hi; [done|].
  destruct random as [rnd|]; [|done]. cbv zeta in Hi. rewrite Hm in Hi.
  destruct (_ <? Z.quot _ _) in Hi; [done|]. destruct (true && _) in Hi; [done|].
  destruct (maxTokenBytes <? _) eqn:Hlen in Hi; [done|]. split_bools.
  injection Hi as <- <-. rewrite bytes_of_string_of.
  eexists. split_and!; [|done|exact Hlen|done].
  destruct (owned_audience _); [by right|by left].
Qed.

(** C40: a managed key whose identifier contains a dot can be configured and signs
    tokens, but no verifier accepts any of them: the dot splits the token into
    more parts than [Verify] understands. *)
Theorem dotted_key_never_verifies json_Decode issuer now random dev sub own ten bid brev rel img
    act until token claims v n1 n2 n3 u w :
  i_managed issuer = true → bytes_of (i_keyID issuer) = u ++ dot :: w →
  issueUntil issuer now random dev sub own ten bid brev rel img act until = Ok (token, claims) →
  Verify json_Decode v n1 n2 n3 token = Err ErrMalformed.
Proof.
  intros Hm Hdot Hi. destruct (issueUntil_managed _ _ _ _ _ _ _ _ _ _ _ _ _ _ _ Hi Hm)
    as (version & Hv & Htok & _). unfold Verify. cbv zeta.
  destruct (_ || _); [done|].
  assert (5 ≤ length (split_dots (bytes_of token)))%nat as Hlen.
  { rewrite Htok, <- app_assoc. cbn [app]. rewrite <- app_assoc. cbn [app].
    rewrite !split_dots_length_app, Hdot. rewrite <- ?app_assoc. cbn [app].
    rewrite ?split_dots_length_app.
    pose proof (split_dots_nonempty (bytes_of version)). pose proof (split_dots_nonempty u).
    pose proof (split_dots_nonempty w).
    pose proof (split_dots_nonempty (bytes_of (EncodeToString (json_Marshal claims)))).
    repeat match goal with |- context [length (split_dots ?x)] =>
      destruct (split_dots x) eqn:?; [by exfalso; eapply split_dots_nonempty|]; cbn [length] end.
    lia. }
  set (parts := split_dots (bytes_of token)) in *.
  destruct parts as [|p1 [|p2 [|p3 [|p4 [|p5 parts] ] ] ] ]; cbn in Hlen; try lia. done.
Qed.

Lemma NewManagedIssuer_ok ring ttl aud inow issuer :
  NewManagedIssuerForAudience ring ttl aud inow = Ok issuer →
  ∃ key, keys ring !! activeKeyID ring = Some key ∧ state key = "active" ∧
    ValidIdentifier (activeKeyID ring) 64 = true ∧ minimumIssuedTTL ≤ ttl ≤ maximumIssuedTTL ∧
    issuer = {| i_secret := secret key; i_keyID := id key; i_verifyUntil := verifyUntil key;
                i_managed := true; i_ttl := ttl; i_audience := aud |}.
Proof.
  unfold NewManagedIssuerForAudience, NewIssuerForAudience. intros Hn.
  destruct (negb _) eqn:Hid in Hn; [done|].
  destruct (keys ring !! activeKeyID ring) as [key|]; [|done].
  destruct (negb (bool_decide _)) eqn:Hst in Hn; [done|].
  destruct (blen (secret key) <? 32); [done|].
  destruct (_ || _) eqn:Httl in Hn; [done|].
  destruct (negb _) eqn:Haud in Hn; [done|]. destruct (Before _ _) in Hn; [done|]. split_bools.
  simplify_eq/=. exists key. split_and!; done || lia.
Qed.

Lemma NewManagedVerifier_ok ring maxTTL aud vnow v :
  NewManagedKeyringVerifierForAudience ring maxTTL aud vnow = Ok v →
  v = {| secrets := []; managed := Some ring; audience := aud; maxTTL := maxTTL;
         skew := 30 * second |} ∧ 0 < maxTTL.
Proof.
  unfold NewManagedKeyringVerifierForAudience. intros Hn.
  destruct (_ || _) eqn:Hg in Hn; [done|]. destruct (keys ring !! _) as [k|]; [|done].
  destruct (_ || _) in Hn; [done|]. destruct (existsb _ _) in Hn; [done|]. split_bools.
  split; [congruence|lia].
Qed.

(** The expiry of an issued token is a whole second, at most [ttl] away. *)
Lemma expiry_whole now ttl until :
  0 ≤ now → 0 ≤ ttl → ttl mod second = 0 →
  (until = zero_time ∨ 0 ≤ until ∧ until mod second = 0) →
  let exp := if negb (IsZero until) && Before until (TruncateSecond (now + ttl))
             then until else TruncateSecond (now + ttl) in
  exp = from_unix (Unix exp) ∧ 0 ≤ Unix exp ≤ Unix now + ttl / second.
Proof.
  intros Hnow Hpos Httl Huntil. cbv zeta. rewrite TruncateSecond_unix.
  assert (Unix (now + ttl) = Unix now + ttl / second) as Hu.
  { unfold Unix. pose proof (Z.div_mod ttl second ltac:(done)) as Hd.
    rewrite Httl in Hd. rewrite Hd at 1. rewrite Z.add_0_r, (Z.mul_comm second).
    by rewrite Z.div_add. }
  destruct (negb (IsZero until) && _) eqn:Hb; [|rewrite Unix_from_unix, Hu; split; [done|] ].
  2:{ pose proof (Z.div_pos now second Hnow ltac:(done)).
      pose proof (Z.div_pos ttl second Hpos ltac:(done)). unfold Unix in *. lia. }
  split_bools. unfold Before, IsZero in *. split_bools.
  destruct Huntil as [ -> |[Hu0 Hmod] ]; [done|]. split; [|split].
  - unfold from_unix, Unix. rewrite Z.mul_comm.
    pose proof (Z.div_mod until second ltac:(done)) as Hd. by rewrite Hmod, Z.add_0_r in Hd.
  - by apply Z.div_pos.
  - rewrite <- Hu, <- (Unix_from_unix (Unix (now + ttl))). apply Unix_mono. lia.
Qed.

(** What [issueUntil] puts into the claims, and when the token expires. *)
Lemma issueUntil_claims issuer now rnd dev sub own ten bid brev rel img act until token claims :
  issueUntil issuer now (Some rnd) dev sub own ten bid brev rel img act until = Ok (token, claims) →
  i_managed issuer = true → 0 ≤ now ≤ max_int64 → 0 ≤ i_ttl issuer ≤ hour →
  i_ttl issuer mod second = 0 → (until = zero_time ∨ 0 ≤ until ∧ until mod second = 0) →
  claims = {| DeviceID := dev; Subject := sub; Issuer_ := ""; OwnerID := own; TenantID := ten;
              BindingID := bid; BindingRevision := brev; Action := act;
              Audience := i_audience issuer; IssuedAt := Unix now; Expires := Expires claims;
              TokenID := EncodeToString rnd; ReleaseID := rel; ImageSHA256 := img;
              SigningKeyID := i_keyID issuer |} ∧
  (sub = "" → ValidIdentifier dev maxDeviceID = true) ∧
  ValidIdentifier (i_keyID issuer) 64 = true ∧
  from_unix (Expires claims) + 30 * second ≤ i_verifyUntil issuer ∧
  Expires claims - Unix now ≤ i_ttl issuer / second ∧ Unix now + 60 ≤ Expires claims.
Proof.
  unfold issueUntil. intros Hi Hm Hnow Hpos Httl Huntil.
  destruct (_ || _) eqn:Hg in Hi; [done|]. cbv zeta in Hi.
  rewrite Hm in Hi. set (exp := if _ : bool then until else _) in Hi.
  destruct (_ <? Z.quot _ _) eqn:Hmin in Hi; [done|].
  destruct (true && _) eqn:Hkey in Hi; [done|].
  destruct (maxTokenBytes <? _) in Hi; [done|]. apply orb_false_iff in Hg as [Hg _].
  injection Hi as <- <-. cbn [Expires].
  destruct (expiry_whole now (i_ttl issuer) until) as [Hexp Hle]; [lia|lia|done|done|].
  change (if negb (IsZero until) && Before until (TruncateSecond (now + i_ttl issuer))
          then until else TruncateSecond (now + i_ttl issuer)) with exp in Hexp, Hle.
  clearbody exp.
  rewrite Hexp in *. set (e := Unix exp) in *. clearbody e. rewrite Unix_from_unix in *.
  pose proof (unix_range now Hnow). change (Z.quot minimumIssuedTTL second) with 60 in *.
  assert (i_ttl issuer / second ≤ 3600)
    by (change 3600 with (hour / second); apply Z.div_le_mono; [done|lia]).
  unfold Before in Hkey. cbn [andb] in Hkey. split_bools. no_wrap.
  split_and!; try done; try lia. intros ->. by apply negb_false_iff in Hg.
Qed.

(** What [issueOwnedUntil] puts into the claims. *)
Lemma owned_claims issuer now rnd dev own ten bid brev until token claims :
  issueOwnedUntil issuer now (Some rnd) dev own ten bid brev until = Ok (token, claims) →
  i_managed issuer = true → 0 ≤ now ≤ max_int64 → 0 ≤ i_ttl issuer ≤ hour →
  i_ttl issuer mod second = 0 → (until = zero_time ∨ 0 ≤ until ∧ until mod second = 0) →
  owned_audience (i_audience issuer) = true ∧
  claims = {| DeviceID := dev; Subject := ""; Issuer_ := ""; OwnerID := own; TenantID := ten;
              BindingID := bid; BindingRevision := brev; Action := "";
              Audience := i_audience issuer; IssuedAt := Unix now; Expires := Expires claims;
              TokenID := EncodeToString rnd; ReleaseID := ""; ImageSHA256 := "";
              SigningKeyID := i_keyID issuer |} ∧
  ValidIdentifier dev maxDeviceID = true ∧ ValidIdentifier own 128 = true ∧
  ValidIdentifier ten 128 = true ∧ ValidBindingID bid = true ∧ ValidBindingRevision brev = true ∧
  ValidIdentifier (i_keyID issuer) 64 = true ∧
  from_unix (Expires claims) + 30 * second ≤ i_verifyUntil issuer ∧
  Expires claims - Unix now ≤ i_ttl issuer / second ∧ Unix now + 60 ≤ Expires claims.
Proof.
  unfold issueOwnedUntil. intros Hi Hm Hnow Hpos Httl Huntil.
  destruct (_ || _) eqn:Hg in Hi; [done|]. split_bools.
  apply issueUntil_claims in Hi as (?&?&?&?&?&?); done.
Qed.

Lemma owned_claims_validate v now version dev own ten bid brev iat exp rnd :
  skew v = 30 * second → owned_audience (audience v) = true → version = "v4" →
  ValidIdentifier dev maxDeviceID = true → ValidIdentifier own 128 = true →
  ValidIdentifier ten 128 = true → ValidBindingID bid = true → ValidBindingRevision brev = true →
  0 ≤ now ≤ max_int64 → 0 < iat < exp → exp ≤ 2 ^ 40 → exp - iat ≤ Z.quot (maxTTL v) second →
  iat ≤ Unix now + 30 → Unix now - 30 < exp → blen rnd = 16 →
  validateClaims v now version
    {| DeviceID := dev; Subject := ""; Issuer_ := ""; OwnerID := own; TenantID := ten;
       BindingID := bid; BindingRevision := brev; Action := ""; Audience := audience v;
       IssuedAt := iat; Expires := exp; TokenID := EncodeToString rnd; ReleaseID := "";
       ImageSHA256 := ""; SigningKeyID := "" |} = Ok tt.
Proof.
  intros Hskew Haud -> Hdev Hown Hten Hbid Hbrev Hnow Hiat Hexp Hmax Hlo Hhi Hrnd.
  unfold validateClaims. cbv zeta. cbn [Audience IssuedAt Expires TokenID DeviceID OwnerID TenantID
    BindingID BindingRevision Subject Issuer_ Action ReleaseID ImageSHA256].
  rewrite Hskew. change (Z.quot (30 * second) second) with 30.
  pose proof (unix_range now Hnow). assert (2 ^ 40 = 1099511627776) by done. no_wrap.
  rewrite bool_decide_true by done. rewrite !(proj2 (Z.leb_gt _ _)), !(proj2 (Z.ltb_ge _ _)) by lia.
  assert (rnd ≠ []) as Hne by (intros ->; done).
  rewrite (encoded_identifier rnd Hne) by lia.
  rewrite (bool_decide_false (EncodeToString rnd = "")) by (by apply encoded_nonempty).
  cbn [negb orb andb]. fold (owned_audience (audience v)). rewrite Haud.
  rewrite bool_decide_false.
  - by rewrite Hdev, Hown, Hten, Hbid, Hbrev.
  - intros Heq. rewrite Heq in Haud. done.
Qed.

Lemma split_token p1 p2 p3 p4 :
  no_dot p1 → no_dot p2 → no_dot p3 → no_dot p4 →
  split_dots ((p1 ++ dot :: p2 ++ dot :: p3) ++ dot :: p4) = [p1; p2; p3; p4].
Proof.
  intros. rewrite <- app_assoc. cbn [app]. rewrite <- app_assoc. cbn [app].
  by rewrite !split_dots_cons, split_dots_word.
Qed.

(** A well-formed token under a key of the ring is accepted as soon as its claims
    are. *)
Lemma keyed_token_accepted json_Decode v n1 n2 n3 ring key kid version claims token :
  managed v = Some ring → keys ring !! kid = Some key → (version = "v2" ∨ version = "v4") →
  ValidIdentifier kid 64 = true → no_dot (bytes_of kid) →
  let signed := bytes_of version ++ dot :: bytes_of kid ++ dot ::
                bytes_of (EncodeToString (json_Marshal claims)) in
  bytes_of token = signed ++ dot :: bytes_of (EncodeToString (hmac_sha256 (secret key) signed)) →
  blen (bytes_of token) ≤ maxTokenBytes →
  json_Decode (json_Marshal claims) = Some (with_key claims "") →
  n2 < verifyUntil key → validateClaims v n3 version (with_key claims "") = Ok tt →
  key_admits v (Some key) false (with_key claims "") = true → id key = SigningKeyID claims →
  Verify json_Decode v n1 n2 n3 token = Ok claims.
Proof.
  intros Hm Hkey Hver Hvid Hdot. cbv zeta. set (signed := bytes_of version ++ _).
  intros Htok Hlen Hjson Hn2 Hval Hadm Hid.
  assert (split_dots (bytes_of token) = [bytes_of version; bytes_of kid;
    bytes_of (EncodeToString (json_Marshal claims));
    bytes_of (EncodeToString (hmac_sha256 (secret key) signed))]) as Hsplit.
  { rewrite Htok. apply split_token; [|done|apply encoded_no_dot|apply encoded_no_dot].
    destruct Hver as [-> | ->]; by repeat constructor. }
  apply Verify_ok. split.
  { rewrite slen_bytes_of. split; [|done]. rewrite Htok, blen_app, blen_cons.
    pose proof (blen_nonneg signed). pose proof (blen_nonneg
      (bytes_of (EncodeToString (hmac_sha256 (secret key) signed)))). lia. }
  cbv zeta. rewrite Hsplit. cbn [fmap list_fmap removelast hd]. rewrite !string_of_bytes_of.
  exists (Some key), (EncodeToString (json_Marshal claims)),
    (EncodeToString (hmac_sha256 (secret key) signed)), false, (json_Marshal claims),
    (hmac_sha256 (secret key) signed), (with_key claims "").
  split_and!; try done; [|apply DecodeString_EncodeToString..|apply hmac_sha256_length| |].
  - unfold select_key. rewrite Hm, Hvid, Hkey.
    rewrite !(bool_decide_false (EncodeToString _ = "")); [by destruct Hver as [-> | ->]|..].
    + apply encoded_nonempty. intros Hnil. pose proof (hmac_sha256_length (secret key) signed) as Hl.
      rewrite Hnil in Hl. done.
    + by apply encoded_nonempty.
  - unfold key_signs. change (join_dots _) with signed. unfold Before.
    rewrite (proj2 (Z.ltb_lt _ _)), bool_decide_true by done. done.
  - cbn. rewrite Hid. by destruct claims.
Qed.

(** The clock around an issued token. *)
Lemma issued_clock now ttl exp n :
  second ≤ now ≤ max_int64 - 2 * hour → ttl ≤ hour → exp - Unix now ≤ ttl / second →
  now ≤ n < from_unix (exp + 30) →
  1 ≤ Unix now ≤ Unix n ∧ Unix n < exp + 30 ∧ exp ≤ 2 ^ 40 ∧ 0 ≤ n ≤ max_int64.
Proof.
  intros Hnow Httl Hspan Hn. assert (0 < second) by done. assert (0 < hour) by done.
  pose proof (unix_range now ltac:(lia)).
  assert (ttl / second ≤ 3600) by (change 3600 with (hour / second); apply Z.div_le_mono; [done|lia]).
  assert (Unix now ≤ Unix n) by (apply Unix_mono; lia).
  assert (1 ≤ Unix now) by (change 1 with (Unix second); apply Unix_mono; lia).
  pose proof (Z.mul_div_le now second ltac:(done)) as Hmul. fold (Unix now) in Hmul.
  unfold from_unix in Hn. assert (2 * hour = 7200 * second) by done.
  assert (2 ^ 40 = 1099511627776) by done. split_and!; try lia; [|nia].
  apply Z.div_lt_upper_bound; [done|lia].
Qed.

(** A token signed under the active key of a ring is accepted by a verifier over the
    same ring, as long as the claims themselves are in order. *)
Lemma issued_verifies json_Decode ring ttl maxTTL aud inow vnow issuer v now rnd
    dev sub own ten bid brev rel img act until token claims n1 n :
  NewManagedIssuerForAudience ring ttl aud inow = Ok issuer →
  NewManagedKeyringVerifierForAudience ring maxTTL aud vnow = Ok v →
  ttl ≤ maxTTL → ttl mod second = 0 → second ≤ now ≤ max_int64 - 2 * hour →
  (until = zero_time ∨ 0 ≤ until ∧ until mod second = 0) →
  (∀ kid k, keys ring !! kid = Some k → id k = kid) → no_dot (bytes_of (activeKeyID ring)) →
  issueUntil issuer now (Some rnd) dev sub own ten bid brev rel img act until = Ok (token, claims) →
  json_Decode (json_Marshal claims) = Some (with_key claims "") →
  now ≤ n < from_unix (Expires claims + 30) →
  (0 ≤ n ≤ max_int64 → 0 < IssuedAt claims < Expires claims → Expires claims ≤ 2 ^ 40 →
   Expires claims - IssuedAt claims ≤ Z.quot maxTTL second → IssuedAt claims ≤ Unix n + 30 →
   Unix n - 30 < Expires claims →
   validateClaims v n (if owned_audience aud then "v4" else "v2") (with_key claims "") = Ok tt) →
  Verify json_Decode v n1 n n token = Ok claims.
Proof.
  intros Hni Hnv Hle Hwhole Hnow Huntil Hids Hdot Hi Hjson Hn Hval.
  apply NewManagedIssuer_ok in Hni as (key & Hkey & Hst & Hvid & Httl & ->).
  apply NewManagedVerifier_ok in Hnv as [-> Hpos].
  pose proof (Hids _ _ Hkey) as Hid. unfold minimumIssuedTTL, maximumIssuedTTL in Httl.
  assert (0 < second) by done. assert (0 < minute) by done. assert (0 < hour) by done.
  destruct (issueUntil_claims _ _ _ _ _ _ _ _ _ _ _ _ _ _ _ Hi) as (Hc & _ & _ & Hwin & Hspan & Hmin);
    cbn [i_managed i_ttl i_audience i_keyID i_verifyUntil] in *; [done|lia|lia|done|done|].
  destruct (issued_clock now ttl (Expires claims) n) as (? & ? & ? & ?); [lia|lia|done|lia|].
  apply issueUntil_managed in Hi as (version & Hv24 & Htok & Hlen & Hver); [|done].
  cbn [i_audience i_keyID i_secret] in *. rewrite Hid in *.
  assert (IssuedAt claims = Unix now) as Hiat by (by rewrite Hc).
  unfold from_unix in *.
  eapply (keyed_token_accepted _ _ _ _ _ ring key (activeKeyID ring) version); try done.
  - nia.
  - rewrite Hver. apply Hval; try lia.
    rewrite Hiat, Z.quot_div_nonneg by lia.
    pose proof (Z.div_le_mono ttl maxTTL second ltac:(done) Hle). lia.
  - unfold key_admits. cbn. rewrite Hst. cbn. rewrite orb_false_r, negb_true_iff. apply Z.ltb_ge.
    rewrite <- (Unix_from_unix (Expires claims)). apply Unix_mono. unfold from_unix. nia.
  - rewrite Hid, Hc. done.
Qed.

(** Issuing and verifying agree: a voice or agent token issued under the active
    key of a ring is accepted, with exactly the claims it was issued with, by a
    verifier over the same ring from the moment it is issued until 30 seconds
    after it expires, provided the key identifier contains no dot and lifetimes
    are whole seconds. *)
Theorem issued_token_verifies json_Decode ring ttl maxTTL aud inow vnow issuer v now rnd
    dev own ten bid brev until token claims n1 n :
  NewManagedIssuerForAudience ring ttl aud inow = Ok issuer →
  NewManagedKeyringVerifierForAudience ring maxTTL aud vnow = Ok v →
  ttl ≤ maxTTL → ttl mod second = 0 → second ≤ now ≤ max_int64 - 2 * hour → blen rnd = 16 →
  (until = zero_time ∨ 0 ≤ until ∧ until mod second = 0) →
  (∀ kid k, keys ring !! kid = Some k → id k = kid) → no_dot (bytes_of (activeKeyID ring)) →
  issueOwnedUntil issuer now (Some rnd) dev own ten bid brev until = Ok (token, claims) →
  json_Decode (json_Marshal claims) = Some (with_key claims "") →
  now ≤ n < from_unix (Expires claims + 30) →
  Verify json_Decode v n1 n n token = Ok claims.
Proof.
  intros Hni Hnv Hle Hwhole Hnow Hrnd Huntil Hids Hdot Hi Hjson Hn.
  pose proof Hi as Hu. unfold issueOwnedUntil in Hu. destruct (_ || _) in Hu; [done|].
  eapply issued_verifies; try done. intros Hn64 Hiat Hexp Hspan Hlo Hhi.
  apply NewManagedIssuer_ok in Hni as (key & _ & _ & _ & Httl & ->).
  apply NewManagedVerifier_ok in Hnv as [-> _]. unfold minimumIssuedTTL, maximumIssuedTTL in Httl.
  assert (0 < second) by done. assert (0 < minute) by done. assert (0 < hour) by done.
  destruct (owned_claims _ _ _ _ _ _ _ _ _ _ _ Hi) as (Haud & Hc & Hdev & Hown & Hten & Hbid &
    Hbrev & _); cbn [i_managed i_ttl i_audience] in *; [done|lia|lia|done|done|].
  rewrite Haud, Hc. unfold with_key. cbn -[validateClaims Z.pow]. rewrite Hc in Hiat, Hspan, Hlo.
  by apply (owned_claims_validate
    {| secrets := []; managed := Some ring; audience := aud; maxTTL := maxTTL;
       skew := 30 * second |}).
Qed.

(** ** Keyring transitions *)

Definition with_ring (v : Verifier) (ring : ManagedTokenKeyring) : Verifier :=
  {| secrets := secrets v; managed := Some ring; audience := audience v; maxTTL := maxTTL v;
     skew := skew v |}.

Definition ids_ok (ring : ManagedTokenKeyring) : Prop :=
  ∀ kid k, keys ring !! kid = Some k → id k = kid.

(** What an accepted transition keeps of a key of the current ring. *)
Record carried (current target : ManagedTokenKeyring) (cutover : Time) (kid : string)
    (k k' : managedTokenKey) : Prop := {
  c_secret : secret k' = secret k;
  c_window : verifyUntil k ≤ verifyUntil k';
  c_active : kid = activeKeyID current → state k' = "retiring" ∧ issueBefore k' = cutover;
  c_other : kid ≠ activeKeyID current → state k' = "retiring" →
            state k = "retiring" ∧ issueBefore k' = issueBefore k;
  c_legacy : kid = legacyUnkeyedKeyID current → state k = "retiring" → state k' = "retiring";
}.

Lemma transition_carries current target t ttl now summary :
  ValidateManagedTokenTransition current target t ttl now = Ok summary →
  legacyUnkeyedKeyID target = legacyUnkeyedKeyID current ∧
  legacyVerifyUntil target = legacyVerifyUntil current ∧
  revision current < revision target ∧
  ∃ old, keys target !! activeKeyID current = Some old ∧
    CutoverUnix summary = Unix (issueBefore old) ∧ now + 30 * second < issueBefore old ∧
    ∀ kid k, keys current !! kid = Some k →
      ∃ k', keys target !! kid = Some k' ∧ carried current target (issueBefore old) kid k k'.
Proof.
  unfold ValidateManagedTokenTransition. intros Hv.
  destruct (_ || _) in Hv; [done|]. destruct (revision target <=? _) eqn:Hrev in Hv; [done|].
  destruct (keys current !! activeKeyID current) as [ca|] eqn:Hca; [|done].
  destruct (keys target !! activeKeyID target) as [ta|] eqn:Hta; [|done].
  destruct (keys target !! activeKeyID current) as [old|] eqn:Hold; [|done].
  destruct (_ || _) eqn:Hlin in Hv; [done|]. cbv zeta in Hv.
  destruct (_ || _) eqn:Hcut in Hv; [done|].
  destruct (match t with Rotate => _ | ForwardRecover => _ end) eqn:Ht in Hv; [done|].
  destruct (_ || _) eqn:Hleg in Hv; [done|].
  destruct (negb (forallb _ _)) eqn:Hall in Hv; [done|]. injection Hv as <-.
  split_bools. unfold After in *. split_bools. split_and!; [done|done|lia|].
  exists old. split_and!; [done|done|unfold managedTokenTransitionSkew in *; lia|].
  intros kid k Hk. rewrite forallb_forall in Hall. specialize (Hall (kid, k)).
  assert (key_carried current target t (issueBefore old) kid k = true) as Hc.
  { apply Hall. apply list_elem_of_In. by apply elem_of_map_to_list. }
  clear Hall. unfold key_carried in Hc.
  destruct (keys target !! kid) as [k'|] eqn:Hk'; [|done]. exists k'. split; [done|].
  apply andb_true_iff in Hc as [Hsec Hc]. unfold sameManagedSecret in Hsec. split_bools.
  destruct (bool_decide (kid = activeKeyID current)) eqn:Hact; split_bools.
  { split; [done|lia|done|done|]. intros _ _. done. }
  destruct (_ && _) eqn:Hrec in Hc; split_bools.
  - subst t. unfold Before in *. split_bools. split; [done|lia|done| |].
    + intros _. congruence.
    + intros Hlk _. destruct (keys current !! activeKeyID target); [|done].
      split_bools. congruence.
  - split; [done|lia|done| |]; intros; split_and?; congruence.
Qed.

Lemma carried_signs v current target cutover kid k k' n2 signed sg :
  carried current target cutover kid k k' →
  key_signs v (Some k) n2 signed sg = true →
  key_signs (with_ring v target) (Some k') n2 signed sg = true.
Proof.
  intros [Hs Hw _ _ _]. unfold key_signs. cbn [with_ring secrets]. rewrite Hs.
  intros [Hb ->]%andb_true_iff. unfold Before in *. split_bools.
  by rewrite (proj2 (Z.ltb_lt _ _)) by lia.
Qed.

Lemma carried_admits v current target cutover kid k k' legacy c :
  managed v = Some current → legacyVerifyUntil target = legacyVerifyUntil current →
  carried current target cutover kid k k' →
  (kid = activeKeyID current → IssuedAt c < Unix cutover) →
  (legacy = true → state k = "retiring") →
  key_admits v (Some k) legacy c = true →
  key_admits (with_ring v target) (Some k') legacy c = true.
Proof.
  intros Hm Hl [_ Hw Hact Hoth _] Hcut Hleg. unfold key_admits. cbn [with_ring managed].
  rewrite Hm, Hl. intros Ha. split_bools. apply negb_true_iff, orb_false_iff.
  pose proof (Unix_mono _ _ Hw). split; [apply Z.ltb_ge; lia|].
  destruct (bool_decide (state k' = "retiring")) eqn:Hst'; [|done]. split_bools. cbn [andb].
  destruct (decide (kid = activeKeyID current)) as [Hk|Hk].
  - destruct (Hact Hk) as [_ ->]. rewrite (proj2 (Z.leb_gt _ _)) by (by apply Hcut).
    cbn [orb]. destruct legacy; [|done].
    rewrite (bool_decide_true (state k = "retiring")) in * by (by apply Hleg).
    cbn [andb] in *. split_bools. by apply Z.ltb_ge.
  - destruct (Hoth Hk Hst') as [Hst ->]. rewrite Hst, bool_decide_true in * by done.
    done.
Qed.

(** The key selected for a token, under the current and under the target ring. *)
Lemma transition_selects v current target cutover n1 parts k enc sig legacy :
  managed v = Some current → ids_ok current → ids_ok target →
  legacyUnkeyedKeyID target = legacyUnkeyedKeyID current →
  legacyVerifyUntil target = legacyVerifyUntil current →
  (∀ kid k, keys current !! kid = Some k →
     ∃ k', keys target !! kid = Some k' ∧ carried current target cutover kid k k') →
  select_key v n1 parts = Ok (Some k, enc, sig, legacy) →
  ∃ k', select_key (with_ring v target) n1 parts = Ok (Some k', enc, sig, legacy) ∧
    carried current target cutover (id k) k k' ∧ id k' = id k ∧
    (legacy = true → state k = "retiring").
Proof.
  intros Hm Hic Hit Hl Hlv Hcar. unfold select_key. cbn [with_ring managed secrets].
  destruct parts as [|version [|p2 [|p3 [|p4 [|] ] ] ] ]; try done; rewrite Hm.
  - destruct (_ || _); [done|]. rewrite Hl, Hlv. destruct (_ || _); [done|].
    destruct (keys current !! legacyUnkeyedKeyID current) as [k0|] eqn:Hk; [|done].
    destruct (negb (bool_decide (state k0 = "retiring"))) eqn:Hst; [done|]. split_bools.
    intros [= -> -> -> <-]. destruct (Hcar _ _ Hk) as (k' & Hk' & Hc). rewrite Hk'.
    exists k'. rewrite (Hic _ _ Hk), (Hit _ _ Hk'). split_and!; try done.
    rewrite bool_decide_true by (by apply (c_legacy _ _ _ _ _ _ Hc)). done.
  - destruct (_ || _); [done|]. destruct (keys current !! p2) as [k0|] eqn:Hk; [|done].
    intros [= -> -> -> <-]. destruct (Hcar _ _ Hk) as (k' & Hk' & Hc). rewrite Hk'.
    exists k'. by rewrite (Hic _ _ Hk), (Hit _ _ Hk').
Qed.

(** C30: a keyring transition the operator's check accepts never invalidates a live
    token: every token the current ring verifies, and that was not issued with
    the outgoing active key after the cut-over, verifies under the target ring
    at the same time, with the same claims. The revision moves forward, and the
    cut-over, which is the end of issuance that the target ring gives to the outgoing
    key, lies more than the clock skew of 30 s ahead of the check. The verifier is one
    of managed keys only, and both rings file every key under its identifier (as every
    keyring that loads does). *)
Theorem transition_preserves_tokens json_Decode current target t ttl now summary v n1 n2 n3
    token claims :
  ValidateManagedTokenTransition current target t ttl now = Ok summary →
  ids_ok current → ids_ok target →
  managed v = Some current → secrets v = [] →
  Verify json_Decode v n1 n2 n3 token = Ok claims →
  (SigningKeyID claims = activeKeyID current → IssuedAt claims < CutoverUnix summary) →
  Verify json_Decode (with_ring v target) n1 n2 n3 token = Ok claims ∧
  revision current < revision target ∧
  ∃ old, keys target !! activeKeyID current = Some old ∧
    CutoverUnix summary = Unix (issueBefore old) ∧ now + 30 * second < issueBefore old.
Proof.
  intros Htr Hic Hit Hm Hsec Hv Hcut.
  destruct (transition_carries _ _ _ _ _ _ Htr) as (Hl & Hlv & Hrev & old & Hold & Hcu & Hfar & Hcar).
  split; [|split; [done|by exists old] ]. rewrite Hcu in Hcut. apply Verify_ok in Hv as [Hlen Hv]. cbv zeta in Hv.
  destruct Hv as (key & enc & sig & legacy & payload & sg & c & Hsel & Henc & Hsig & H32 & Hsigns &
    Hjson & Hval & Hadm & ->).
  destruct key as [k|].
  2:{ exfalso. revert Hsel. unfold select_key. rewrite Hm. by repeat case_match. }
  destruct (transition_selects v current target (issueBefore old) n1 _ k enc sig legacy Hm Hic Hit Hl Hlv
    Hcar Hsel) as (k' & Hsel' & Hc & Hid & Hleg).
  apply Verify_ok. split; [done|]. cbv zeta.
  exists (Some k'), enc, sig, legacy, payload, sg, c. split_and!; try done.
  - by eapply carried_signs.
  - by eapply carried_admits.
  - cbn. by rewrite Hid.
Qed.

(** ** Well-formed keyrings *)

Definition key_ok (document : managedKeyringDocument) (now : Time) (kid : string)
    (k : managedTokenKey) : Prop :=
  id k = kid ∧ 32 ≤ blen (secret k) ≤ maximumManagedTokenKeyLength ∧ now < verifyUntil k ∧
  (state k = "active" ∧ kid = ActiveKeyID document ∨
   state k = "retiring" ∧ kid ≠ ActiveKeyID document ∧ issueBefore k < verifyUntil k).

Lemma buildKey_ok document now prev seen entry key active :
  buildKey document now prev seen entry = Ok (key, active) →
  key_ok document now (e_KeyID entry) key ∧ (secret key ∉ seen) ∧
  (prev ≠ "" → str_lt prev (e_KeyID entry)) ∧ e_KeyID entry ≠ "" ∧
  active = bool_decide (e_KeyID entry = ActiveKeyID document).
Proof.
  unfold buildKey, key_ok. intros Hb. destruct (_ || _) eqn:Hg in Hb; [done|]. split_bools.
  destruct (decodeSecret _) as [sec|] eqn:Hsec; [|done].
  destruct (bool_decide (sec ∈ seen)) eqn:Hseen; [done|]. split_bools.
  assert (32 ≤ blen sec ≤ maximumManagedTokenKeyLength) as Hlen.
  { unfold decodeSecret in Hsec. destruct (DecodeString _); [|done].
    destruct (_ && _) eqn:Hd in Hsec; [|done]. simplify_eq. split_bools. lia. }
  assert ((prev ≠ "" → str_lt prev (e_KeyID entry)) ∧ e_KeyID entry ≠ "") as Hord.
  { split; [|by apply (ValidIdentifier_bytes _ 64)]. intros Hne. apply str_ltb_lt.
    rewrite bool_decide_false in * by done. cbn [negb andb] in *. unfold str_leb in *.
    by split_bools. }
  cbv zeta in Hb. destruct (bool_decide (e_State entry = "active")) eqn:Hact.
  - destruct (_ || _) eqn:Hg' in Hb; [done|]. split_bools. unfold After in *. split_bools.
    simplify_eq/=. rewrite bool_decide_true by done. split_and!; try done; try apply Hord; try lia.
    by left.
  - destruct (bool_decide (e_State entry = "retiring")) eqn:Hret; [|done].
    destruct (_ || _) eqn:Hg' in Hb; [done|]. split_bools. unfold After in *. split_bools.
    simplify_eq/=. rewrite bool_decide_false by done. split_and!; try done; try apply Hord; try lia.
    right. split_and!; [done..|]. unfold from_unix. assert (0 < second) by done. nia.
Qed.

(** The loop invariant. *)
Record ring_ok (document : managedKeyringDocument) (now : Time) (prev : string)
    (seen : list bytes) (ring : gmap string managedTokenKey) (count : Z) : Prop := {
  ro_keys kid k : ring !! kid = Some k →
    key_ok document now kid k ∧ secret k ∈ seen ∧ (kid = prev ∨ str_lt kid prev);
  ro_start : prev = "" → ring = ∅;
  ro_distinct kid1 kid2 k1 k2 : ring !! kid1 = Some k1 → ring !! kid2 = Some k2 →
    secret k1 = secret k2 → kid1 = kid2;
  ro_count : count = if bool_decide (is_Some (ring !! ActiveKeyID document)) then 1 else 0;
}.

Lemma ring_ok_add document now prev seen ring count entry key active :
  ring_ok document now prev seen ring count →
  buildKey document now prev seen entry = Ok (key, active) →
  ring_ok document now (e_KeyID entry) (seen ++ [secret key]) (<[e_KeyID entry:=key]> ring)
    (if active : bool then count + 1 else count) ∧ ring !! e_KeyID entry = None.
Proof.
  intros [Hk Hs Hd Hc] (Hkey & Hnew & Hlt & Hne & ->)%buildKey_ok.
  assert (∀ kid k, ring !! kid = Some k → str_lt kid (e_KeyID entry)) as Hbelow.
  { intros kid k Hkid. destruct (Hk kid k Hkid) as (_ & _ & Hord).
    assert (prev ≠ "") as Hp by (intros Hp; rewrite (Hs Hp) in Hkid; done).
    destruct Hord as [ -> |Hord]; [by apply Hlt|]. eapply str_lt_trans; [done|by apply Hlt]. }
  assert (ring !! e_KeyID entry = None) as Hfresh.
  { destruct (ring !! e_KeyID entry) eqn:He; [|done].
    exfalso. by eapply str_lt_irrefl, Hbelow. }
  split; [|done]. split.
  - intros kid k [ [<- <-] | [Hne' Hkid] ]%lookup_insert_Some.
    + split_and!; [done|apply elem_of_app; right; by apply list_elem_of_singleton|by left].
    + destruct (Hk kid k Hkid) as (? & ? & _). split_and!; [done|apply elem_of_app; by left|].
      right. by eapply Hbelow.
  - done.
  - intros kid1 kid2 k1 k2. rewrite !lookup_insert_Some.
    intros [ [<- <-] | [? H1] ] [ [<- <-] | [? H2] ] Heq; [done| | |by eapply Hd].
    + destruct (Hk _ _ H2) as (_ & Hin & _). by rewrite <- Heq in Hin.
    + destruct (Hk _ _ H1) as (_ & Hin & _). by rewrite Heq in Hin.
  - rewrite Hc. destruct (decide (e_KeyID entry = ActiveKeyID document)) as [E|E].
    + rewrite E in *. rewrite lookup_insert_eq, Hfresh.
      rewrite !bool_decide_true by eauto. rewrite bool_decide_false by (intros [? ?]; done). done.
    + by rewrite lookup_insert_ne, (bool_decide_false (e_KeyID entry = _)).
Qed.

Lemma buildKeys_ok document now entries prev seen ring count ring' count' :
  ring_ok document now prev seen ring count →
  buildKeys document now entries prev seen ring count = Ok (ring', count') →
  (∃ prev' seen', ring_ok document now prev' seen' ring' count') ∧
  size ring' = (size ring + length entries)%nat.
Proof.
  revert prev seen ring count. induction entries as [|entry entries IH];
    intros prev seen ring count Hok; cbn [buildKeys length].
  { intros [= <- <-]. split; [eauto|lia]. }
  destruct (buildKey document now prev seen entry) as [ [key active] |] eqn:Hb; [|done].
  destruct (ring_ok_add _ _ _ _ _ _ _ _ _ Hok Hb) as [Hok' Hfresh].
  intros Hrest. destruct (IH _ _ _ _ Hok' Hrest) as [Hex Hsize]. split; [done|].
  rewrite Hsize, map_size_insert_None by done. lia.
Qed.

(** A keyring the loader accepts is well-formed: its revision is at least the
    approved floor, it has one to three keys, their secrets are pairwise
    distinct and 32 to 128 bytes long, every window is still open, exactly the
    configured key is active and every other one is retiring, and a legacy key,
    if any, is a retiring key whose window contains the legacy window. *)
Theorem keyring_well_formed document minimumRevision now ring :
  buildManagedTokenKeyring document minimumRevision now = Ok ring →
  minimumRevision ≤ revision ring ∧ (1 ≤ size (keys ring) ≤ 3)%nat ∧ ids_ok ring ∧
  (∃ k, keys ring !! activeKeyID ring = Some k ∧ state k = "active") ∧
  (∀ kid k, keys ring !! kid = Some k →
     32 ≤ blen (secret k) ≤ 128 ∧ now < verifyUntil k ∧
     (kid ≠ activeKeyID ring → state k = "retiring" ∧ issueBefore k < verifyUntil k)) ∧
  (∀ kid1 kid2 k1 k2, keys ring !! kid1 = Some k1 → keys ring !! kid2 = Some k2 →
     secret k1 = secret k2 → kid1 = kid2) ∧
  (legacyUnkeyedKeyID ring ≠ "" → ∃ k, keys ring !! legacyUnkeyedKeyID ring = Some k ∧
     state k = "retiring" ∧ now < legacyVerifyUntil ring ≤ verifyUntil k).
Proof.
  unfold buildManagedTokenKeyring. intros Hb. destruct (_ || _) eqn:Hg in Hb; [done|].
  cbv zeta in Hb. destruct (_ && _) in Hb; [done|].
  destruct (buildKeys _ _ _ _ _ _ _) as [ [r count] |] eqn:Hk; [|done].
  destruct (negb (count =? 1)) eqn:Hcount; [done|]. split_bools.
  apply buildKeys_ok in Hk as [(prev & seen & [Hr _ Hd Hc]) Hsize];
    [|by split; [| |by intros|rewrite lookup_empty, bool_decide_false by (by intros [])]].
  assert (keys ring = r ∧ revision ring = Revision document ∧ activeKeyID ring = ActiveKeyID document
    ∧ (legacyUnkeyedKeyID ring ≠ "" → ∃ k, keys ring !! legacyUnkeyedKeyID ring = Some k ∧
     state k = "retiring" ∧ now < legacyVerifyUntil ring ≤ verifyUntil k))
    as (Hkeys & Hrev & Hact & Hleg).
  { destruct (negb (bool_decide (LegacyUnkeyedKeyID document = "")) || _) eqn:Hl in Hb.
    - cbn [legacyUnkeyedKeyID legacyVerifyUntil] in Hb.
      destruct (r !! LegacyUnkeyedKeyID document) as [lk|] eqn:Hlk; [|done].
      destruct (_ || _) eqn:Hlg in Hb; [done|]. split_bools. unfold After in *. split_bools.
      simplify_eq/=. split_and!; try done. intros _. exists lk.
      split_and!; done || lia.
    - simplify_eq/=. split_bools. split_and!; try done. }
  rewrite Hkeys, Hrev, Hact. rewrite map_size_empty in Hsize. unfold maximumManagedTokenKeys in *.
  rewrite Hcount in Hc. destruct (bool_decide (is_Some _)) eqn:Ha in Hc; [|done]. split_bools.
  destruct Ha as [ak Ha]. split_and!; try lia; try done.
  - intros kid k Hkid. rewrite Hkeys in Hkid. by destruct (Hr kid k Hkid) as [ [? _] _].
  - exists ak. split; [done|]. destruct (Hr _ _ Ha) as ((_&_&_&[ [? _] |(_&?&_)])&_); done.
  - intros kid k Hkid. destruct (Hr kid k Hkid) as ((_&?&?&Hst)&_). unfold maximumManagedTokenKeyLength in *.
    split_and!; try lia. intros Hne. destruct Hst as [ [_ ?] |(?&_&?)]; [congruence|by split].
  - by rewrite <- Hkeys.
Qed.

(** ** Witnesses *)

Definition ex_secret : bytes := replicate 32 (byte_of 5).
Definition ex_document : managedKeyringDocument :=
  {| Schema := ManagedTokenKeyringSchema; Revision := 1; ActiveKeyID := "k1";
     LegacyUnkeyedKeyID := ""; LegacyUnkeyedVerifyUntilUnix := 0;
     Keys := [{| e_KeyID := "k1"; e_HMACKeyB64URL := EncodeToString ex_secret;
                 e_State := "active"; e_IssueBeforeUnix := 0;
                 e_VerifyUntilUnix := 4000000000 |}] |}.
Definition ex_key : managedTokenKey :=
  {| id := "k1"; secret := ex_secret; state := "active"; issueBefore := zero_time;
     verifyUntil := from_unix 4000000000 |}.
Definition ex_ring : ManagedTokenKeyring :=
  {| revision := 1; activeKeyID := "k1"; legacyUnkeyedKeyID := "";
     legacyVerifyUntil := zero_time; keys := {["k1" := ex_key]} |}.
Definition ex_now : Time := from_unix 1750000000.
Definition ex_issuer : Issuer :=
  {| i_secret := ex_secret; i_keyID := "k1"; i_verifyUntil := from_unix 4000000000;
     i_managed := true; i_ttl := 10 * minute; i_audience := VoiceAudience |}.
Definition ex_verifier : Verifier :=
  {| secrets := []; managed := Some ex_ring; audience := VoiceAudience; maxTTL := hour;
     skew := 30 * second |}.
Definition ex_binding : string := EncodeToString (replicate 16 (byte_of 3)).
Definition ex_issue (issuer : Issuer) : result error (string * Claims) :=
  issueOwnedUntil issuer ex_now (Some (replicate 16 (byte_of 4))) "dev" "own" "ten" ex_binding 1
    zero_time.
Definition ex_token : string :=
  Eval vm_compute in match ex_issue ex_issuer with Ok (t, _) => t | Err _ => "" end.
Definition ex_claims : Claims :=
  {| DeviceID := "dev"; Subject := ""; Issuer_ := ""; OwnerID := "own"; TenantID := "ten";
     BindingID := ex_binding; BindingRevision := 1; Action := ""; Audience := VoiceAudience;
     IssuedAt := 1750000000; Expires := 1750000600;
     TokenID := EncodeToString (replicate 16 (byte_of 4)); ReleaseID := ""; ImageSHA256 := "";
     SigningKeyID := "k1" |}.
Definition ex_Decode (payload : bytes) : option Claims :=
  if bool_decide (payload = json_Marshal ex_claims) then Some (with_key ex_claims "") else None.

Lemma ex_Decode_i64 payload c : ex_Decode payload = Some c → claims_i64 c.
Proof. unfold ex_Decode. case_match; [|done]. intros [= <-]. by vm_compute. Qed.

Lemma ex_ids : ids_ok ex_ring.
Proof. intros kid k. cbn. rewrite lookup_singleton_Some. by intros [<- <-]. Qed.

Lemma ex_issued : ex_issue ex_issuer = Ok (ex_token, ex_claims).
Proof. vm_compute. reflexivity. Qed.

Lemma ex_verified : Verify ex_Decode ex_verifier ex_now ex_now ex_now ex_token = Ok ex_claims.
Proof. vm_compute. reflexivity. Qed.

Lemma Verify_sound_witness :
  authentic ex_Decode ex_verifier ex_now ex_token ex_claims ∧
  Unix ex_now - 30 < Expires ex_claims.
Proof.
  destruct (Verify_sound ex_Decode ex_Decode_i64 ex_verifier ex_now ex_now ex_now ex_token ex_claims)
    as (Ha & _ & _ & _ & _ & Hb); [reflexivity|split; by vm_compute|apply ex_verified|].
  split; [exact Ha|exact Hb].
Defined.

Lemma issued_token_verifies_witness :
  Verify ex_Decode ex_verifier ex_now (ex_now + minute) (ex_now + minute) ex_token = Ok ex_claims.
Proof.
  apply (issued_token_verifies ex_Decode ex_ring (10 * minute) hour VoiceAudience ex_now ex_now
    ex_issuer ex_verifier ex_now (replicate 16 (byte_of 4)) "dev" "own" "ten" ex_binding 1
    zero_time ex_token ex_claims ex_now (ex_now + minute)).
  - vm_compute. reflexivity.
  - vm_compute. reflexivity.
  - by vm_compute.
  - reflexivity.
  - split; by vm_compute.
  - reflexivity.
  - by left.
  - apply ex_ids.
  - by repeat constructor.
  - apply ex_issued.
  - vm_compute. reflexivity.
  - split; by vm_compute.
Defined.

(** The loader and the issuer accept a key named [a.b]. *)
Definition dotted_document : managedKeyringDocument :=
  {| Schema := ManagedTokenKeyringSchema; Revision := 1; ActiveKeyID := "a.b";
     LegacyUnkeyedKeyID := ""; LegacyUnkeyedVerifyUntilUnix := 0;
     Keys := [{| e_KeyID := "a.b"; e_HMACKeyB64URL := EncodeToString ex_secret;
                 e_State := "active"; e_IssueBeforeUnix := 0;
                 e_VerifyUntilUnix := 4000000000 |}] |}.
Definition dotted_issuer : Issuer :=
  {| i_secret := ex_secret; i_keyID := "a.b"; i_verifyUntil := from_unix 4000000000;
     i_managed := true; i_ttl := 10 * minute; i_audience := VoiceAudience |}.
Definition dotted_token : string :=
  Eval vm_compute in match ex_issue dotted_issuer with Ok (t, _) => t | Err _ => "" end.

Example dotted_configured :
  match buildManagedTokenKeyring dotted_document 1 ex_now with
  | Ok ring => NewManagedIssuerForAudience ring (10 * minute) VoiceAudience ex_now
  | Err e => Err e
  end = Ok dotted_issuer.
Proof. vm_compute. reflexivity. Qed.

Lemma dotted_key_never_verifies_witness :
  is_ok (ex_issue dotted_issuer) = true ∧
  Verify ex_Decode ex_verifier ex_now ex_now ex_now dotted_token = Err ErrMalformed.
Proof.
  split; [vm_compute; reflexivity|].
  apply (dotted_key_never_verifies ex_Decode dotted_issuer ex_now
    (Some (replicate 16 (byte_of 4))) "dev" "" "own" "ten" ex_binding 1 "" "" "" zero_time
    dotted_token (with_key ex_claims "a.b") ex_verifier ex_now ex_now ex_now
    (bytes_of "a") (bytes_of "b")); vm_compute; reflexivity.
Defined.

Definition ex_old_key : managedTokenKey :=
  {| id := "k1"; secret := ex_secret; state := "retiring"; issueBefore := from_unix 1750010000;
     verifyUntil := from_unix 4000000000 |}.
Definition ex_new_key : managedTokenKey :=
  {| id := "k2"; secret := replicate 32 (byte_of 6); state := "active"; issueBefore := zero_time;
     verifyUntil := from_unix 4050000000 |}.
Definition ex_target : ManagedTokenKeyring :=
  {| revision := 2; activeKeyID := "k2"; legacyUnkeyedKeyID := "";
     legacyVerifyUntil := zero_time; keys := {["k1" := ex_old_key; "k2" := ex_new_key]} |}.

Lemma ex_target_ids : ids_ok ex_target.
Proof.
  intros kid k. cbn. rewrite lookup_insert_Some, lookup_singleton_Some.
  intros [ [<- <-] | (_ & <- & <-) ]; done.
Qed.

Lemma transition_preserves_tokens_witness :
  Verify ex_Decode (with_ring ex_verifier ex_target) ex_now ex_now ex_now ex_token = Ok ex_claims ∧
  revision ex_ring < revision ex_target ∧
  ∃ old, keys ex_target !! activeKeyID ex_ring = Some old ∧
    1750010000 = Unix (issueBefore old) ∧ ex_now + 30 * second < issueBefore old.
Proof.
  apply (transition_preserves_tokens ex_Decode ex_ring ex_target Rotate hour ex_now
    {| Transition := Rotate; CurrentRevision := 1; TargetRevision := 2;
       CurrentActiveKeyID := "k1"; TargetActiveKeyID := "k2"; CutoverUnix := 1750010000;
       MinimumDrainUntilUnix := 1750013630; OldKeyVerifyUntilUnix := 4000000000 |}).
  - vm_compute. reflexivity.
  - apply ex_ids.
  - apply ex_target_ids.
  - reflexivity.
  - reflexivity.
  - apply ex_verified.
  - intros _. by vm_compute.
Defined.

Lemma keyring_well_formed_witness :
  ids_ok ex_ring ∧ (1 ≤ size (keys ex_ring) ≤ 3)%nat.
Proof.
  destruct (keyring_well_formed ex_document 1 ex_now ex_ring) as (_ & Hs & Hi & _);
    [vm_compute; reflexivity|]. split; [exact Hi|exact Hs].
Defined.

End Token.
