(* ===== verification/Bearer.v ===== *)
(** * Bearer: tokens in an Authorization header

    Between [Auth] and the servers: a token that was issued survives the way through the
    header ([Bearer ] and [strings.TrimSpace]), and a token for a firmware release is
    accepted by the verifier of the firmware origin. *)

From stdpp Require Import base gmap strings list.
From Stdlib Require Import ZArith Lia.
From Stdlib.Strings Require Import Byte.
From S2P Require Import Prelude GoBase GoCrypto Protocol Auth.

Module Bearer.
Import Ident Strs Token.

(** A printable ASCII byte. *)
Definition graphic (b : byte) : Prop := 33 ≤ bval b ≤ 126.

Lemma graphic_not_space b : graphic b → Text.IsSpace (bval b) = false ∧ bval b <? 128 = true.
Proof.
  unfold graphic, Text.IsSpace. intros Hb. split; [|apply Z.ltb_lt; lia].
  apply not_true_iff_false. intros Hs.
  repeat match goal with
  | H : (_ || _) = true |- _ => apply orb_true_iff in H as [?|?]
  end; split_bools; lia.
Qed.

Lemma decode_rune_graphic b bs : graphic b → Text.decode_rune (b :: bs) = Some (bval b, bs).
Proof. intros [_ Hb]%graphic_not_space. cbn. by rewrite Hb. Qed.

(** Trimming leaves a token as it is. *)
Lemma TrimSpace_graphic s : Forall graphic (bytes_of s) → Text.TrimSpace s = s.
Proof.
  intros Hs. unfold Text.TrimSpace.
  assert (Text.trim_left (length (bytes_of s)) (bytes_of s) = bytes_of s) as ->.
  { destruct Hs as [|b bs Hb Hbs]; [done|]. cbn [length Text.trim_left].
    rewrite decode_rune_graphic by done. by destruct (graphic_not_space b Hb) as [-> _]. }
  assert (Text.trim_right (length (bytes_of s)) (reverse (bytes_of s)) = reverse (bytes_of s)) as ->.
  { assert (∀ n rev, Forall graphic rev → Text.trim_right n rev = rev) as Ht; [|by apply Ht, Forall_reverse].
    intros [|n] rev Hrev; [done|]. cbn [Text.trim_right].
    assert (∀ k, match Text.decode_rune (reverse (take k rev)) with
                 | Some (r, []) => Text.IsSpace r | _ => false end = false) as Hk.
    { intros k. assert (Forall graphic (reverse (take k rev))) as Hg
        by (by apply Forall_reverse, Forall_take).
      destruct (reverse (take k rev)) as [|b bs]; [done|]. inversion_clear Hg.
      rewrite decode_rune_graphic by done. destruct bs; [|done]. by apply graphic_not_space. }
    by rewrite !Hk. }
  rewrite reverse_involutive. apply string_of_bytes_of.
Qed.

Lemma identifier_graphic b : identifier_byte b = true → graphic b.
Proof.
  unfold identifier_byte, graphic. intros Hb.
  repeat match goal with
  | H : (_ || _) = true |- _ => apply orb_true_iff in H as [?|?]
  end; split_bools; lia.
Qed.

Lemma issued_graphic issuer now random dev sub own ten bid brev rel img act until token claims :
  i_managed issuer = true → ValidIdentifier (i_keyID issuer) 64 = true →
  issueUntil issuer now random dev sub own ten bid brev rel img act until = Ok (token, claims) →
  Forall graphic (bytes_of token) ∧ token ≠ "".
Proof.
  intros Hm Hid Hi. apply issueUntil_managed in Hi as (version & Hv & Htok & _); [|done].
  assert (∀ bs, Forall graphic (bytes_of (EncodeToString bs))) as Henc.
  { intros bs. eapply Forall_impl; [apply encoded_bytes|]. intros b [Hb _].
    by apply identifier_graphic. }
  assert (graphic Strs.dot) as Hdot by (by vm_compute).
  assert (Forall graphic (bytes_of version)) as Hver.
  { destruct Hv as [-> | ->]; repeat constructor; by vm_compute. }
  assert (Forall graphic (bytes_of (i_keyID issuer))) as Hkid.
  { apply ValidIdentifier_bytes in Hid as (Hf & _). eapply Forall_impl; [exact Hf|].
    intros b. apply identifier_graphic. }
  split.
  - rewrite Htok. apply Forall_app. split; [|by constructor]. apply Forall_app. split; [done|].
    constructor; [done|]. apply Forall_app. split; [done|]. by constructor.
  - intros ->. cbn in Htok. destruct Hv as [-> | ->]; done.
Qed.

Lemma bearer_substring token :
  String.substring 7 (String.length ("Bearer " +:+ token) - 7) ("Bearer " +:+ token) = token.
Proof.
  change (String.substring 0 (String.length token - 0) token = token). rewrite Nat.sub_0_r.
  induction token as [|a token IH]; [done|]. cbn. by rewrite IH.
Qed.

(** The header with an issued token is verified as the token is. *)
Lemma bearer_issued json_Decode v n1 n2 n3 issuer now random dev sub own ten bid brev rel img act
    until token claims :
  issueUntil issuer now random dev sub own ten bid brev rel img act until = Ok (token, claims) →
  i_managed issuer = true → ValidIdentifier (i_keyID issuer) 64 = true →
  VerifyAuthorization json_Decode v n1 n2 n3 ("Bearer " +:+ token)
    = Verify json_Decode v n1 n2 n3 token.
Proof.
  intros Hi Hm Hid. destruct (issued_graphic _ _ _ _ _ _ _ _ _ _ _ _ _ _ _ Hm Hid Hi) as [Hg Hne].
  unfold VerifyAuthorization. rewrite bearer_substring, TrimSpace_graphic by done.
  destruct token as [|a t]; [done|]. cbn -[slen Verify].
  assert (slen ("Bearer " +:+ String a t) <=? 7 = false) as Hs;
    [apply Z.leb_gt; unfold slen;
     change (String.length _) with (8 + String.length t)%nat; lia|].
  cbn -[slen] in Hs. by rewrite Hs.
Qed.

(** ** Tokens for a firmware release *)

Lemma release_claims_validate v now dev rel img iat exp rnd :
  skew v = 30 * second → audience v = OTAAudience →
  ValidIdentifier dev maxDeviceID = true → ValidIdentifier rel 64 = true →
  validSHA256 img = true → 0 ≤ now ≤ max_int64 → 0 < iat < exp → exp ≤ 2 ^ 40 →
  exp - iat ≤ Z.quot (maxTTL v) second → iat ≤ Unix now + 30 → Unix now - 30 < exp →
  blen rnd = 16 →
  validateClaims v now "v2"
    {| DeviceID := dev; Subject := ""; Issuer_ := ""; OwnerID := ""; TenantID := "";
       BindingID := ""; BindingRevision := 0; Action := ""; Audience := OTAAudience;
       IssuedAt := iat; Expires := exp; TokenID := EncodeToString rnd; ReleaseID := rel;
       ImageSHA256 := img; SigningKeyID := "" |} = Ok tt.
Proof.
  intros Hskew Haud Hdev Hrel Himg Hnow Hiat Hexp Hmax Hlo Hhi Hrnd.
  unfold validateClaims. cbv zeta. cbn [Audience IssuedAt Expires TokenID DeviceID OwnerID TenantID
    BindingID BindingRevision Subject Issuer_ Action ReleaseID ImageSHA256].
  rewrite Hskew, Haud. change (Z.quot (30 * second) second) with 30.
  pose proof (unix_range now Hnow). assert (2 ^ 40 = 1099511627776) by done. no_wrap.
  rewrite bool_decide_true by done. rewrite !(proj2 (Z.leb_gt _ _)), !(proj2 (Z.ltb_ge _ _)) by lia.
  assert (rnd ≠ []) as Hne by (intros ->; done).
  rewrite (encoded_identifier rnd Hne) by lia.
  rewrite (bool_decide_false (EncodeToString rnd = "")) by (by apply encoded_nonempty).
  cbn [negb orb andb]. rewrite Hdev, Hrel, Himg. done.
Qed.

(** The token that [IssueForRelease] makes under the active key of a ring is accepted
    for that release, and as the token of that device, by a verifier over the same
    ring until 30 seconds after it expires. *)
Lemma release_token_accepted json_Decode ring ttl maxTTL inow vnow issuer v now rnd
    dev rel img token claims n1 n :
  NewManagedIssuerForAudience ring ttl OTAAudience inow = Ok issuer →
  NewManagedKeyringVerifierForAudience ring maxTTL OTAAudience vnow = Ok v →
  ttl ≤ maxTTL → ttl mod second = 0 → second ≤ now ≤ max_int64 - 2 * hour → blen rnd = 16 →
  ids_ok ring → no_dot (bytes_of (activeKeyID ring)) →
  IssueForRelease issuer now (Some rnd) dev rel img = Ok (token, claims) →
  json_Decode (json_Marshal claims) = Some (with_key claims "") →
  now ≤ n < from_unix (Expires claims + 30) →
  VerifyAuthorizationForRelease json_Decode v n1 n n ("Bearer " +:+ token) rel img = Ok claims ∧
  DeviceID claims = dev.
Proof.
  intros Hni Hnv Hle Hwhole Hnow Hrnd Hids Hdot Hi Hjson Hn. unfold IssueForRelease in Hi.
  destruct (_ || _) eqn:Hg in Hi; [done|]. split_bools.
  pose proof Hni as Hni'. apply NewManagedIssuer_ok in Hni' as (key & _ & _ & _ & Httl & Ei).
  pose proof Hnv as Hnv'. apply NewManagedVerifier_ok in Hnv' as [Ev _].
  unfold minimumIssuedTTL, maximumIssuedTTL in Httl.
  assert (0 < second) by done. assert (0 < minute) by done. assert (0 < hour) by done.
  destruct (issueUntil_claims _ _ _ _ _ _ _ _ _ _ _ _ _ _ _ Hi) as (Hc & Hdev & Hkid & _);
    try (rewrite Ei; cbn; done || lia); [lia|by left|].
  specialize (Hdev eq_refl).
  assert (Verify json_Decode v n1 n n token = Ok claims) as Hver.
  { eapply issued_verifies; try done; [by left|]. intros Hn64 Hiat Hexp Hspan Hlo Hhi.
    change (if owned_audience OTAAudience then "v4" else "v2") with "v2".
    rewrite Hc. unfold with_key. cbn -[validateClaims Z.pow]. rewrite Hc in Hiat, Hspan, Hlo.
    rewrite Ei. cbn [i_audience]. apply release_claims_validate; rewrite ?Ev; done. }
  split; [|by rewrite Hc]. unfold VerifyAuthorizationForRelease.
  rewrite (bearer_issued _ _ _ _ _ _ _ _ _ _ _ _ _ _ _ _ _ _ _ _ Hi) by (done || by rewrite Ei).
  rewrite Hver, Hc, Ev. cbn. rewrite !bool_decide_true by done.
  by repeat match goal with H : _ = true |- _ => rewrite H; clear H end.
Qed.

End Bearer.
