(* ===== verification/AccountAuth.v ===== *)
(** * AccountAuth: account revisions, companion tokens, push installations and
    service entitlements

    Models [internal/accountauth/store.go], [push_installation.go] and
    [entitlement.go]: the reference ledger that orders logins, logouts,
    suspensions and token registrations of an account. The store is behind one
    mutex, so every method is one step; each method reads the clock at most once
    ([now]), and its context is an argument. Go maps are finite maps; the loops
    over them only update or delete the entry they look at, so their order does
    not matter. *)

From stdpp Require Import base gmap strings list fin_maps sorting.
From Stdlib Require Import ZArith Lia.
From Stdlib.Strings Require Import Byte.
From S2P Require Import Prelude GoBase GoCrypto Auth.

Module AccountAuth.
Import Ident.

Definition MaximumTokenLifetime : Duration := hour.
Definition MinimumTokenLifetime : Duration := minute.
Definition maximumClockSkew : Duration := 30 * second.
Definition maximumAccountRevision : Z := MaximumBindingRevision.

Inductive error : Type :=
| ErrInvalid
| ErrNotFound
| ErrConflict
| ErrStaleSession
| ErrSuspended
| ErrInactive
| ErrCapacity
| ErrRevisionExhausted
| ErrStaleEntitlement
| ErrUnavailable.

#[global] Instance error_eq_dec : EqDecision error.
Proof. solve_decision. Defined.

(** A context that is nil, cancelled or expired, or live. *)
Inductive context : Type := CtxNil | CtxDone | CtxLive.

#[global] Instance context_eq_dec : EqDecision context.
Proof. solve_decision. Defined.

Definition nil_ctx (ctx : context) : bool := bool_decide (ctx = CtxNil).
Definition ctx_Err (ctx : context) : bool := bool_decide (ctx = CtxDone).

Inductive AccountStatus : Type := AccountActive | AccountSuspended.

#[global] Instance AccountStatus_eq_dec : EqDecision AccountStatus.
Proof. solve_decision. Defined.

Record Principal : Type := {
  p_TenantID : string;
  p_Subject : string;
}.

#[global] Instance Principal_eq_dec : EqDecision Principal.
Proof. solve_decision. Defined.
#[global] Instance Principal_countable : Countable Principal.
Proof.
  apply (inj_countable' (λ p, (p_TenantID p, p_Subject p))
           (λ '(t, s), {| p_TenantID := t; p_Subject := s |})). by intros [].
Defined.

Record Session : Type := {
  s_Principal : Principal;
  s_AccountRevision : Z;
}.

Record Account : Type := {
  a_Principal : Principal;
  a_Revision : Z;
  a_Status : AccountStatus;
  a_UpdatedAt : Time;
}.

Record TokenBinding : Type := {
  TokenID : string;
  Subject : string;
  TenantID : string;
  Action : string;
  DeviceID : string;
  IssuedAt : Z;
  ExpiresAt : Z;
}.

#[global] Instance TokenBinding_eq_dec : EqDecision TokenBinding.
Proof. solve_decision. Defined.

Record Authorization : Type := {
  Binding : TokenBinding;
  AccountRevision : Z;
  ValidUntil : Z;
}.

Inductive RevocationReason : Type :=
| RevocationLogout
| RevocationSuspended
| RevocationToken.

(** [reason] is the empty string until the token is revoked. *)
Record storedToken : Type := {
  authorization : Authorization;
  revokedAt : Time;
  reason : option RevocationReason;
}.

Inductive PushPlatform : Type :=
| PushPlatformAPNSProduction
| PushPlatformAPNSDevelopment
| PushPlatformFCM
| PushPlatformOther (name : string).

#[global] Instance PushPlatform_eq_dec : EqDecision PushPlatform.
Proof. solve_decision. Defined.

Record ProtectedPushToken : Type := {
  Ciphertext : bytes;
  KeyID : string;
  Digest : bytes;
}.

Record PushInstallationRegistration : Type := {
  g_InstallationID : string;
  g_Platform : PushPlatform;
  g_Token : ProtectedPushToken;
}.

Record PushInstallation : Type := {
  InstallationID : string;
  i_Principal : Principal;
  i_AccountRevision : Z;
  Platform : PushPlatform;
  Token_ : ProtectedPushToken;
  RegisteredAt : Time;
  RefreshedAt : Time;
  i_ValidUntil : Time;
}.

Inductive ProductService : Type :=
| ProductServiceVoice
| ProductServiceAgent
| ProductServiceOther (name : string).

#[global] Instance ProductService_eq_dec : EqDecision ProductService.
Proof. solve_decision. Defined.

Definition EntitlementActive : string := "active".
Definition EntitlementGrace : string := "grace".
Definition EntitlementSuspended : string := "suspended".
Definition EntitlementEnded : string := "ended".

Record ServiceEntitlement : Type := {
  e_Principal : Principal;
  e_Revision : Z;
  e_PlanID : string;
  e_State : string;
  e_VoiceEnabled : bool;
  e_AgentEnabled : bool;
  e_AccessUntil : Time;
  e_SourceEventID : string;
  e_AppliedAt : Time;
}.

Record ServiceEntitlementUpdate : Type := {
  u_Principal : Principal;
  u_SourceEventID : string;
  u_PreviousRevision : Z;
  u_Revision : Z;
  u_PlanID : string;
  u_State : string;
  u_VoiceEnabled : bool;
  u_AgentEnabled : bool;
  u_AccessUntil : Time;
}.

Record ServiceEntitlementGrant : Type := {
  gr_Revision : Z;
  gr_State : string;
  gr_ValidUntil : Time;
}.

Record storedEntitlementEvent : Type := {
  ev_digest : bytes;
  ev_entitlement : ServiceEntitlement;
}.

Record Store : Type := {
  maximum : Z;
  accounts : gmap Principal Account;
  tokens : gmap string storedToken;
  installations : gmap Principal (gmap string PushInstallation);
  entitlements : gmap Principal ServiceEntitlement;
  entitlementEvents : gmap string storedEntitlementEvent;
}.

Definition set_accounts (s : Store) x : Store :=
  {| maximum := maximum s; accounts := x; tokens := tokens s;
     installations := installations s; entitlements := entitlements s;
     entitlementEvents := entitlementEvents s |}.
Definition set_tokens (s : Store) x : Store :=
  {| maximum := maximum s; accounts := accounts s; tokens := x;
     installations := installations s; entitlements := entitlements s;
     entitlementEvents := entitlementEvents s |}.
Definition set_installations (s : Store) x : Store :=
  {| maximum := maximum s; accounts := accounts s; tokens := tokens s;
     installations := x; entitlements := entitlements s;
     entitlementEvents := entitlementEvents s |}.
Definition set_entitlements (s : Store) x y : Store :=
  {| maximum := maximum s; accounts := accounts s; tokens := tokens s;
     installations := installations s; entitlements := x; entitlementEvents := y |}.

Definition NewStore (maximumTokens : Z) : result error Store :=
  IF (maximumTokens <? 1) || (100000 <? maximumTokens) RETURN Err ErrInvalid ;;
  Ok {| maximum := maximumTokens; accounts := ∅; tokens := ∅; installations := ∅;
        entitlements := ∅; entitlementEvents := ∅ |}.

Definition ValidPrincipal (principal : Principal) : bool :=
  ValidIdentifier (p_TenantID principal) 128 && ValidIdentifier (p_Subject principal) 128.

Definition ValidAccountRevision (revision : Z) : bool :=
  (0 <? revision) && (revision <=? maximumAccountRevision).

Definition ValidSession (session : Session) : bool :=
  ValidPrincipal (s_Principal session) && ValidAccountRevision (s_AccountRevision session).

Definition ValidTokenBinding (binding : TokenBinding) : bool :=
  IF negb (ValidIdentifier (TokenID binding) 128) || negb (ValidIdentifier (Subject binding) 128)
     || negb (ValidIdentifier (TenantID binding) 128)
     || (IssuedAt binding <=? 0) || (ExpiresAt binding <=? IssuedAt binding)
     || (ExpiresAt binding -i IssuedAt binding <? Z.quot MinimumTokenLifetime second)
     || (Z.quot MaximumTokenLifetime second <? ExpiresAt binding -i IssuedAt binding)
    RETURN false ;;
  if bool_decide (Action binding = Token.CompanionClaimAction)
  then bool_decide (DeviceID binding = "")
  else if bool_decide (Action binding = Token.CompanionReleaseAction)
          || bool_decide (Action binding = Token.CompanionConsentAction)
  then ValidIdentifier (DeviceID binding) 64
  else false.

Definition principal_of (binding : TokenBinding) : Principal :=
  {| p_TenantID := TenantID binding; p_Subject := Subject binding |}.

(** [binding.Subject == principal.Subject && binding.TenantID == principal.TenantID],
    the comparison that [RegisterToken], [RevokeToken] and [rotateLocked] write out. *)
Definition belongs (binding : TokenBinding) (principal : Principal) : bool :=
  bool_decide (Subject binding = p_Subject principal)
  && bool_decide (TenantID binding = p_TenantID principal).

(** ** Sessions and tokens *)

Definition BeginAuthenticatedSession (store : Store) (ctx : context) (principal : Principal)
    (now : Time) : Store * result error Session :=
  IF nil_ctx ctx || negb (ValidPrincipal principal) RETURN (store, Err ErrInvalid) ;;
  IF ctx_Err ctx RETURN (store, Err ErrUnavailable) ;;
  let '(store, account) :=
    match accounts store !! principal with
    | Some account => (store, account)
    | None =>
        let account := {| a_Principal := principal; a_Revision := 1;
                          a_Status := AccountActive; a_UpdatedAt := now |} in
        (set_accounts store (<[principal := account]> (accounts store)), account)
    end in
  IF negb (bool_decide (a_Status account = AccountActive)) RETURN (store, Err ErrSuspended) ;;
  (store, Ok {| s_Principal := principal; s_AccountRevision := a_Revision account |}).

Definition pruneExpiredLocked (store : Store) (nowUnix : Z) : Store :=
  set_tokens store (map_keep (λ _ token,
    negb (ExpiresAt (Binding (authorization token)) <=? nowUnix)) (tokens store)).

(** The three checks every method that takes a session makes, in this order. *)
Definition session_account (store : Store) (session : Session) : result error Account :=
  match accounts store !! s_Principal session with
  | None => Err ErrNotFound
  | Some account =>
      IF negb (bool_decide (a_Status account = AccountActive)) RETURN Err ErrSuspended ;;
      IF negb (a_Revision account =? s_AccountRevision session) RETURN Err ErrStaleSession ;;
      Ok account
  end.

Definition RegisterToken (store : Store) (ctx : context) (session : Session)
    (binding : TokenBinding) (now : Time) : Store * result error Authorization :=
  IF nil_ctx ctx || negb (ValidSession session) || negb (ValidTokenBinding binding)
     || negb (belongs binding (s_Principal session))
    RETURN (store, Err ErrInvalid) ;;
  IF ctx_Err ctx RETURN (store, Err ErrUnavailable) ;;
  match session_account store session with
  | Err e => (store, Err e)
  | Ok account =>
      IF (ExpiresAt binding <=? Unix now) || (Unix (now + maximumClockSkew) <? IssuedAt binding)
        RETURN (store, Err ErrInactive) ;;
      IF negb (bool_decide (tokens store !! TokenID binding = None))
        RETURN (store, Err ErrConflict) ;;
      let store := pruneExpiredLocked store (Unix now) in
      IF maximum store <=? Z.of_nat (size (tokens store)) RETURN (store, Err ErrCapacity) ;;
      let authorization := {| Binding := binding; AccountRevision := a_Revision account;
                              ValidUntil := ExpiresAt binding |} in
      (set_tokens store
         (<[TokenID binding :=
            {| authorization := authorization; revokedAt := zero_time; reason := None |}]>
            (tokens store)),
       Ok authorization)
  end.

(** [None] is the inactive answer. *)
Definition Introspect (store : Store) (ctx : context) (binding : TokenBinding) (now : Time) :
    result error (option Authorization) :=
  IF nil_ctx ctx || negb (ValidTokenBinding binding) RETURN Err ErrInvalid ;;
  IF ctx_Err ctx RETURN Err ErrUnavailable ;;
  match tokens store !! TokenID binding with
  | None => Ok None
  | Some record =>
      IF negb (bool_decide (Binding (authorization record) = binding))
         || negb (IsZero (revokedAt record)) || (ExpiresAt binding <=? Unix now)
        RETURN Ok None ;;
      match accounts store !! principal_of binding with
      | None => Ok None
      | Some account =>
          IF negb (bool_decide (a_Status account = AccountActive))
             || negb (a_Revision account =? AccountRevision (authorization record))
            RETURN Ok None ;;
          Ok (Some (authorization record))
      end
  end.

Definition revoke (why : RevocationReason) (now : Time) (token : storedToken) : storedToken :=
  if IsZero (revokedAt token)
  then {| authorization := authorization token; revokedAt := now; reason := Some why |}
  else token.

(** One round of the loop of [rotateLocked] over the tokens. *)
Definition rotate_one (principal : Principal) (oldRevision : Z) (why : RevocationReason)
    (now : Time) (token : storedToken) : storedToken :=
  if belongs (Binding (authorization token)) principal
     && (AccountRevision (authorization token) <=? oldRevision)
  then revoke why now token else token.

Definition rotateLocked (store : Store) (account : Account) (status : AccountStatus)
    (why : RevocationReason) (now : Time) : Store * result error Account :=
  IF maximumAccountRevision <=? a_Revision account RETURN (store, Err ErrRevisionExhausted) ;;
  let rotated := {| a_Principal := a_Principal account;
                    a_Revision := wrap_u64 (a_Revision account + 1);
                    a_Status := status; a_UpdatedAt := now |} in
  let store := set_accounts store (<[a_Principal account := rotated]> (accounts store)) in
  let store := set_tokens store
    (rotate_one (a_Principal account) (a_Revision account) why now <$> tokens store) in
  (set_installations store (delete (a_Principal account) (installations store)), Ok rotated).

Definition Logout (store : Store) (ctx : context) (session : Session) (now : Time) :
    Store * result error Account :=
  IF nil_ctx ctx || negb (ValidSession session) RETURN (store, Err ErrInvalid) ;;
  IF ctx_Err ctx RETURN (store, Err ErrUnavailable) ;;
  match accounts store !! s_Principal session with
  | None => (store, Err ErrNotFound)
  | Some account =>
      IF negb (a_Revision account =? s_AccountRevision session)
        RETURN (store, Err ErrStaleSession) ;;
      rotateLocked store account AccountActive RevocationLogout now
  end.

Definition setStatus (store : Store) (ctx : context) (principal : Principal)
    (status : AccountStatus) (now : Time) : Store * result error Account :=
  IF nil_ctx ctx || negb (ValidPrincipal principal) RETURN (store, Err ErrInvalid) ;;
  IF ctx_Err ctx RETURN (store, Err ErrUnavailable) ;;
  match accounts store !! principal with
  | None => (store, Err ErrNotFound)
  | Some account =>
      IF bool_decide (a_Status account = status) RETURN (store, Ok account) ;;
      rotateLocked store account status RevocationSuspended now
  end.

Definition Suspend (store : Store) (ctx : context) (principal : Principal) (now : Time) :=
  setStatus store ctx principal AccountSuspended now.
Definition Resume (store : Store) (ctx : context) (principal : Principal) (now : Time) :=
  setStatus store ctx principal AccountActive now.

Definition RevokeToken (store : Store) (ctx : context) (principal : Principal)
    (tokenID : string) (now : Time) : Store * result error unit :=
  IF nil_ctx ctx || negb (ValidPrincipal principal) || negb (ValidIdentifier tokenID 128)
    RETURN (store, Err ErrInvalid) ;;
  IF ctx_Err ctx RETURN (store, Err ErrUnavailable) ;;
  match tokens store !! tokenID with
  | None => (store, Err ErrNotFound)
  | Some record =>
      IF negb (belongs (Binding (authorization record)) principal)
        RETURN (store, Err ErrNotFound) ;;
      (set_tokens store (<[tokenID := revoke RevocationToken now record]> (tokens store)), Ok tt)
  end.

(** ** Push installations *)

Definition MaximumPushInstallationsPerAccount : Z := 16.
Definition MaximumPushInstallationLifetime : Duration := 35 * 24 * hour.
Definition pushInstallationIDBytes : Z := 16.

Definition ValidPushInstallationID (value : string) : bool :=
  canonical_b64 value pushInstallationIDBytes.

Definition ValidPushPlatform (platform : PushPlatform) : bool :=
  match platform with PushPlatformOther _ => false | _ => true end.

(** [subtle.ConstantTimeCompare] of two 32-byte arrays is equality. *)
Definition ValidProtectedPushToken (token : ProtectedPushToken) : bool :=
  IF (blen (Ciphertext token) <? 32) || (8 * 1024 <? blen (Ciphertext token))
     || negb (ValidIdentifier (KeyID token) 64)
    RETURN false ;;
  negb (bool_decide (Digest token = replicate 32 x00)).

Definition ValidPushInstallationRegistration (registration : PushInstallationRegistration) :
    bool :=
  ValidPushInstallationID (g_InstallationID registration)
  && ValidPushPlatform (g_Platform registration)
  && ValidProtectedPushToken (g_Token registration).

Definition prune_account (now : Time) (m : gmap string PushInstallation) :
    gmap string PushInstallation :=
  map_keep (λ _ candidate, After (i_ValidUntil candidate) now) m.

Definition prunePushInstallationsLocked (store : Store) (now : Time) : Store :=
  set_installations store
    (map_keep (λ _ m, negb (bool_decide (m = ∅)))
       (prune_account now <$> installations store)).

Definition installed (store : Store) (principal : Principal) : gmap string PushInstallation :=
  from_option id ∅ (installations store !! principal).

(** The body of the two nested loops of [UpsertPushInstallation]: another
    installation holds the provider token. *)
Definition same_address (registration : PushInstallationRegistration)
    (candidate : PushInstallation) : bool :=
  bool_decide (Platform candidate = g_Platform registration)
  && bool_decide (Digest (Token_ candidate) = Digest (g_Token registration)).

Definition address_taken (store : Store) (owner : Principal)
    (registration : PushInstallationRegistration) : bool :=
  existsb (λ '(principal, candidates),
    existsb (λ '(installationID, candidate),
      (negb (bool_decide (principal = owner))
       || negb (bool_decide (installationID = g_InstallationID registration)))
      && same_address registration candidate)
    (map_to_list candidates))
  (map_to_list (installations store)).

Definition UpsertPushInstallation (store : Store) (ctx : context) (session : Session)
    (registration : PushInstallationRegistration) (now : Time) :
    Store * result error PushInstallation :=
  IF nil_ctx ctx || negb (ValidSession session)
     || negb (ValidPushInstallationRegistration registration)
    RETURN (store, Err ErrInvalid) ;;
  IF ctx_Err ctx RETURN (store, Err ErrUnavailable) ;;
  match session_account store session with
  | Err e => (store, Err e)
  | Ok account =>
      let owner := s_Principal session in
      let store := prunePushInstallationsLocked store now in
      let mine := installed store owner in
      let store := set_installations store (<[owner := mine]> (installations store)) in
      IF address_taken store owner registration RETURN (store, Err ErrConflict) ;;
      let existing := mine !! g_InstallationID registration in
      IF bool_decide (existing = None)
         && (MaximumPushInstallationsPerAccount <=? Z.of_nat (size mine))
        RETURN (store, Err ErrCapacity) ;;
      let installation :=
        {| InstallationID := g_InstallationID registration; i_Principal := owner;
           i_AccountRevision := a_Revision account; Platform := g_Platform registration;
           Token_ := g_Token registration;
           RegisteredAt := from_option RegisteredAt now existing; RefreshedAt := now;
           i_ValidUntil := now + MaximumPushInstallationLifetime |} in
      (set_installations store
         (<[owner := <[g_InstallationID registration := installation]> mine]>
            (installations store)),
       Ok installation)
  end.

(** [delete(store.installations[principal], id)]: deleting from a missing (nil)
    map does nothing. *)
Definition delete_installation (store : Store) (principal : Principal) (id : string) : Store :=
  match installations store !! principal with
  | None => store
  | Some m => set_installations store (<[principal := delete id m]> (installations store))
  end.

Definition RemovePushInstallation (store : Store) (ctx : context) (session : Session)
    (installationID : string) : Store * result error unit :=
  IF nil_ctx ctx || negb (ValidSession session) || negb (ValidPushInstallationID installationID)
    RETURN (store, Err ErrInvalid) ;;
  IF ctx_Err ctx RETURN (store, Err ErrUnavailable) ;;
  match session_account store session with
  | Err e => (store, Err e)
  | Ok _ => (delete_installation store (s_Principal session) installationID, Ok tt)
  end.

Definition installation_le (x y : PushInstallation) : Prop :=
  str_leb (InstallationID x) (InstallationID y) = true.
#[global] Instance installation_le_dec x y : Decision (installation_le x y).
Proof. unfold installation_le. apply _. Defined.

(** The installations of one account have distinct identifiers, so the sorted
    result does not depend on the order in which the map is walked. *)
Definition ActivePushInstallations (store : Store) (ctx : context) (principal : Principal)
    (now : Time) : Store * result error (list PushInstallation) :=
  IF nil_ctx ctx || negb (ValidPrincipal principal) RETURN (store, Err ErrInvalid) ;;
  IF ctx_Err ctx RETURN (store, Err ErrUnavailable) ;;
  let store := prunePushInstallationsLocked store now in
  match accounts store !! principal with
  | None => (store, Ok [])
  | Some account =>
      IF negb (bool_decide (a_Status account = AccountActive)) RETURN (store, Ok []) ;;
      (store, Ok (merge_sort installation_le
        (List.filter (λ candidate,
           (i_AccountRevision candidate =? a_Revision account)
           && After (i_ValidUntil candidate) now)
         (map_to_list (installed store principal)).*2)))
  end.

Definition InvalidatePushInstallation (store : Store) (ctx : context) (principal : Principal)
    (installationID : string) (digest : bytes) : Store * result error unit :=
  IF nil_ctx ctx || negb (ValidPrincipal principal)
     || negb (ValidPushInstallationID installationID)
    RETURN (store, Err ErrInvalid) ;;
  IF ctx_Err ctx RETURN (store, Err ErrUnavailable) ;;
  match installed store principal !! installationID with
  | None => (store, Err ErrNotFound)
  | Some candidate =>
      IF negb (bool_decide (Digest (Token_ candidate) = digest))
        RETURN (store, Err ErrNotFound) ;;
      (delete_installation store principal installationID, Ok tt)
  end.

(** ** Service entitlements *)

Definition maximumEntitlementValidity : Duration := 400 * 24 * hour.
Definition entitlementDigestDomain : string :=
  "xiaozhi-service-entitlement-event-v1" +:+ Token.nul.

Definition ValidProductService (service : ProductService) : bool :=
  match service with ProductServiceOther _ => false | _ => true end.

Definition available (state : string) : bool :=
  bool_decide (state = EntitlementActive) || bool_decide (state = EntitlementGrace).

Definition ValidEntitlementState (state : string) : bool :=
  available state || bool_decide (state = EntitlementSuspended)
  || bool_decide (state = EntitlementEnded).

(** Every time that reaches it is in UTC: the caller converts it first. *)
Definition validEntitlementTime (value : Time) : bool :=
  IF IsZero value || negb (value mod second =? 0) RETURN false ;;
  (1609459200 <=? Unix value) && (Unix value <=? 4102444800).

Definition ValidServiceEntitlementUpdate (update : ServiceEntitlementUpdate) (now : Time) : bool :=
  IF negb (ValidPrincipal (u_Principal update))
     || negb (ValidIdentifier (u_SourceEventID update) 128)
     || negb (ValidIdentifier (u_PlanID update) 64)
     || negb (ValidEntitlementState (u_State update))
     || (u_Revision update =? 0) || (maximumAccountRevision <? u_Revision update)
     || (u_Revision update <=? u_PreviousRevision update)
     || negb (u_Revision update =? wrap_u64 (u_PreviousRevision update + 1))
     || negb (validEntitlementTime (u_AccessUntil update))
    RETURN false ;;
  IF After (u_AccessUntil update) (now + maximumEntitlementValidity) RETURN false ;;
  IF available (u_State update)
    RETURN (u_VoiceEnabled update || u_AgentEnabled update) && After (u_AccessUntil update) now ;;
  negb (u_VoiceEnabled update) && negb (u_AgentEnabled update).

Definition validServiceEntitlement (entitlement : ServiceEntitlement) : bool :=
  IF negb (ValidPrincipal (e_Principal entitlement))
     || negb (ValidAccountRevision (e_Revision entitlement))
     || negb (ValidIdentifier (e_PlanID entitlement) 64)
     || negb (ValidIdentifier (e_SourceEventID entitlement) 128)
     || negb (ValidEntitlementState (e_State entitlement))
     || negb (validEntitlementTime (e_AccessUntil entitlement))
     || negb (validEntitlementTime (e_AppliedAt entitlement))
    RETURN false ;;
  Bool.eqb (available (e_State entitlement))
    (e_VoiceEnabled entitlement || e_AgentEnabled entitlement).

Definition writeDigestUint64 (value : Z) : bytes := be_put 8 value.
Definition writeDigestString (value : string) : bytes :=
  writeDigestUint64 (slen value) ++ bytes_of value.

(** What [entitlementUpdateDigest] hashes. *)
Definition entitlement_message (update : ServiceEntitlementUpdate) : bytes :=
  bytes_of entitlementDigestDomain
  ++ writeDigestString (p_TenantID (u_Principal update))
  ++ writeDigestString (p_Subject (u_Principal update))
  ++ writeDigestString (u_SourceEventID update)
  ++ writeDigestUint64 (u_PreviousRevision update)
  ++ writeDigestUint64 (u_Revision update)
  ++ writeDigestString (u_PlanID update)
  ++ writeDigestString (u_State update)
  ++ [byte_of (if u_VoiceEnabled update then 1 else 0)]
  ++ [byte_of (if u_AgentEnabled update then 1 else 0)]
  ++ writeDigestUint64 (wrap_u64 (Unix (u_AccessUntil update))).

Definition entitlementUpdateDigest (update : ServiceEntitlementUpdate) : bytes :=
  Sum256 (entitlement_message update).

(** The boolean is [true] when the update was applied now. *)
Definition ApplyServiceEntitlement (store : Store) (ctx : context)
    (update : ServiceEntitlementUpdate) (now : Time) :
    Store * result error (ServiceEntitlement * bool) :=
  IF nil_ctx ctx RETURN (store, Err ErrInvalid) ;;
  IF ctx_Err ctx RETURN (store, Err ErrUnavailable) ;;
  let now := TruncateSecond now in
  IF negb (ValidServiceEntitlementUpdate update now) RETURN (store, Err ErrInvalid) ;;
  let digest := entitlementUpdateDigest update in
  match entitlementEvents store !! u_SourceEventID update with
  | Some event =>
      IF negb (bool_decide (ev_digest event = digest)) RETURN (store, Err ErrConflict) ;;
      (store, Ok (ev_entitlement event, false))
  | None =>
      match accounts store !! u_Principal update with
      | None => (store, Err ErrNotFound)
      | Some account =>
          let currentRevision :=
            from_option e_Revision 0 (entitlements store !! u_Principal update) in
          IF negb (currentRevision =? u_PreviousRevision update)
            RETURN (store, Err ErrStaleEntitlement) ;;
          let entitlement :=
            {| e_Principal := u_Principal update; e_Revision := u_Revision update;
               e_PlanID := u_PlanID update; e_State := u_State update;
               e_VoiceEnabled := u_VoiceEnabled update; e_AgentEnabled := u_AgentEnabled update;
               e_AccessUntil := u_AccessUntil update;
               e_SourceEventID := u_SourceEventID update; e_AppliedAt := now |} in
          IF negb (validServiceEntitlement entitlement)
             || negb (ValidAccountRevision (a_Revision account))
            RETURN (store, Err ErrUnavailable) ;;
          (set_entitlements store (<[u_Principal update := entitlement]> (entitlements store))
             (<[u_SourceEventID update :=
                {| ev_digest := digest; ev_entitlement := entitlement |}]>
                (entitlementEvents store)),
           Ok (entitlement, true))
      end
  end.

Definition AuthorizeService (store : Store) (ctx : context) (principal : Principal)
    (service : ProductService) (now : Time) : result error (option ServiceEntitlementGrant) :=
  IF nil_ctx ctx || negb (ValidPrincipal principal) || negb (ValidProductService service)
    RETURN Err ErrInvalid ;;
  IF ctx_Err ctx RETURN Err ErrUnavailable ;;
  match accounts store !! principal, entitlements store !! principal with
  | Some account, Some entitlement =>
      IF negb (bool_decide (a_Status account = AccountActive)) RETURN Ok None ;;
      IF negb (validServiceEntitlement entitlement) RETURN Err ErrUnavailable ;;
      let now := TruncateSecond now in
      let enabled :=
        (bool_decide (service = ProductServiceVoice) && e_VoiceEnabled entitlement)
        || (bool_decide (service = ProductServiceAgent) && e_AgentEnabled entitlement) in
      IF negb (available (e_State entitlement)) || negb enabled
         || negb (After (e_AccessUntil entitlement) now)
        RETURN Ok None ;;
      Ok (Some {| gr_Revision := e_Revision entitlement; gr_State := e_State entitlement;
                  gr_ValidUntil := e_AccessUntil entitlement |})
  | _, _ => Ok None
  end.

(** ** Runs

    Any sequence of calls, at times that never go back, with any arguments. *)

Inductive op : Type :=
| OBegin (ctx : context) (p : Principal)
| ORegister (ctx : context) (session : Session) (b : TokenBinding)
| OLogout (ctx : context) (session : Session)
| OSuspend (ctx : context) (p : Principal)
| OResume (ctx : context) (p : Principal)
| ORevoke (ctx : context) (p : Principal) (id : string)
| OUpsert (ctx : context) (session : Session) (g : PushInstallationRegistration)
| ORemove (ctx : context) (session : Session) (id : string)
| OActive (ctx : context) (p : Principal)
| OInvalidate (ctx : context) (p : Principal) (id : string) (d : bytes)
| OApply (ctx : context) (u : ServiceEntitlementUpdate).

Definition exec (s : Store) (t : Time) (o : op) : Store :=
  match o with
  | OBegin ctx p => (BeginAuthenticatedSession s ctx p t).1
  | ORegister ctx session b => (RegisterToken s ctx session b t).1
  | OLogout ctx session => (Logout s ctx session t).1
  | OSuspend ctx p => (Suspend s ctx p t).1
  | OResume ctx p => (Resume s ctx p t).1
  | ORevoke ctx p id => (RevokeToken s ctx p id t).1
  | OUpsert ctx session g => (UpsertPushInstallation s ctx session g t).1
  | ORemove ctx session id => (RemovePushInstallation s ctx session id).1
  | OActive ctx p => (ActivePushInstallations s ctx p t).1
  | OInvalidate ctx p id d => (InvalidatePushInstallation s ctx p id d).1
  | OApply ctx u => (ApplyServiceEntitlement s ctx u t).1
  end.

(** A store and the time of the last call. *)
Inductive step : Store * Time → Store * Time → Prop :=
| step_op s t t' o : t ≤ t' → zero_time < t' → step (s, t) (exec s t' o, t').

Definition later : relation (Store * Time) := rtc step.

Inductive start : Store * Time → Prop :=
| start_new maximumTokens s t : NewStore maximumTokens = Ok s → start (s, t).

Definition reach (c : Store * Time) : Prop := ∃ c0, start c0 ∧ later c0 c.

(** *** The state changes of the methods

    Every call is one of these changes; the invariants are proved on them. *)

Definition opened (p : Principal) (t : Time) : Account :=
  {| a_Principal := p; a_Revision := 1; a_Status := AccountActive; a_UpdatedAt := t |}.
Definition fresh_token (b : TokenBinding) (revision : Z) : storedToken :=
  {| authorization := {| Binding := b; AccountRevision := revision;
                         ValidUntil := ExpiresAt b |};
     revokedAt := zero_time; reason := None |}.
Definition rotated (a : Account) (status : AccountStatus) (t : Time) : Account :=
  {| a_Principal := a_Principal a; a_Revision := wrap_u64 (a_Revision a + 1);
     a_Status := status; a_UpdatedAt := t |}.
Definition rotate_store (s : Store) (a : Account) (status : AccountStatus)
    (why : RevocationReason) (t : Time) : Store :=
  {| maximum := maximum s;
     accounts := <[a_Principal a := rotated a status t]> (accounts s);
     tokens := rotate_one (a_Principal a) (a_Revision a) why t <$> tokens s;
     installations := delete (a_Principal a) (installations s);
     entitlements := entitlements s; entitlementEvents := entitlementEvents s |}.
Definition entitled (u : ServiceEntitlementUpdate) (t : Time) : ServiceEntitlement :=
  {| e_Principal := u_Principal u; e_Revision := u_Revision u; e_PlanID := u_PlanID u;
     e_State := u_State u; e_VoiceEnabled := u_VoiceEnabled u;
     e_AgentEnabled := u_AgentEnabled u; e_AccessUntil := u_AccessUntil u;
     e_SourceEventID := u_SourceEventID u; e_AppliedAt := TruncateSecond t |}.
Definition installation_of (g : PushInstallationRegistration) (a : Account) (p : Principal)
    (registered t : Time) : PushInstallation :=
  {| InstallationID := g_InstallationID g; i_Principal := p;
     i_AccountRevision := a_Revision a; Platform := g_Platform g; Token_ := g_Token g;
     RegisteredAt := registered; RefreshedAt := t;
     i_ValidUntil := t + MaximumPushInstallationLifetime |}.
Definition with_own (s : Store) (p : Principal) (m : gmap string PushInstallation) : Store :=
  set_installations s (<[p := m]> (installations s)).

Inductive change (t : Time) (s : Store) : Store → Prop :=
| change_none : change t s s
| change_open p :
    ValidPrincipal p = true → accounts s !! p = None →
    change t s (set_accounts s (<[p := opened p t]> (accounts s)))
| change_prune : change t s (pruneExpiredLocked s (Unix t))
| change_register b a :
    ValidTokenBinding b = true → accounts s !! principal_of b = Some a →
    a_Status a = AccountActive → Unix t < ExpiresAt b →
    tokens s !! TokenID b = None →
    change t s (set_tokens s (<[TokenID b := fresh_token b (a_Revision a)]>
                                (tokens (pruneExpiredLocked s (Unix t)))))
| change_rotate p a status why :
    accounts s !! p = Some a → a_Revision a < maximumAccountRevision →
    change t s (rotate_store s a status why t)
| change_revoke id rec :
    tokens s !! id = Some rec →
    change t s (set_tokens s (<[id := revoke RevocationToken t rec]> (tokens s)))
| change_push_prune : change t s (prunePushInstallationsLocked s t)
| change_push_touch p (s1 := prunePushInstallationsLocked s t) :
    change t s (with_own s1 p (installed s1 p))
| change_push_upsert p a g registered (s1 := prunePushInstallationsLocked s t) :
    ValidPushInstallationRegistration g = true →
    accounts s !! p = Some a → a_Status a = AccountActive →
    address_taken (with_own s1 p (installed s1 p)) p g = false →
    (installed s1 p !! g_InstallationID g = None →
     Z.of_nat (size (installed s1 p)) < MaximumPushInstallationsPerAccount) →
    change t s (with_own s1 p
      (<[g_InstallationID g := installation_of g a p registered t]> (installed s1 p)))
| change_push_remove p id : change t s (delete_installation s p id)
| change_apply u a :
    ValidServiceEntitlementUpdate u (TruncateSecond t) = true →
    entitlementEvents s !! u_SourceEventID u = None →
    accounts s !! u_Principal u = Some a →
    from_option e_Revision 0 (entitlements s !! u_Principal u) = u_PreviousRevision u →
    validServiceEntitlement (entitled u t) = true →
    change t s (set_entitlements s
      (<[u_Principal u := entitled u t]> (entitlements s))
      (<[u_SourceEventID u := {| ev_digest := entitlementUpdateDigest u;
                                 ev_entitlement := entitled u t |}]> (entitlementEvents s))).

Lemma belongs_principal b p : belongs b p = true ↔ principal_of b = p.
Proof.
  unfold belongs, principal_of. destruct p as [ten sub]. cbn.
  rewrite andb_true_iff, !bool_decide_eq_true. split; [intros [-> ->]|intros [= -> ->]]; done.
Qed.

Lemma session_account_Ok s session a :
  session_account s session = Ok a ↔
  accounts s !! s_Principal session = Some a ∧ a_Status a = AccountActive ∧
  a_Revision a = s_AccountRevision session.
Proof.
  unfold session_account. split.
  - destruct (accounts s !! _) as [b|] eqn:Hb; [|done]. guard Hs. guard Hr.
    intros [= <-]. split_bools. done.
  - intros (-> & Hs & Hr). rewrite bool_decide_true by done. cbn.
    apply Z.eqb_eq in Hr. by rewrite Hr.
Qed.

Lemma rotateLocked_eq s a status why t :
  rotateLocked s a status why t =
  if maximumAccountRevision <=? a_Revision a then (s, Err ErrRevisionExhausted)
  else (rotate_store s a status why t, Ok (rotated a status t)).
Proof. reflexivity. Qed.

Lemma rotateLocked_change s p a status why t :
  accounts s !! p = Some a → change t s (rotateLocked s a status why t).1.
Proof.
  intros Ha. rewrite rotateLocked_eq. destruct (_ <=? _) eqn:E; [constructor|].
  split_bools. by eapply change_rotate.
Qed.
#[local] Hint Resolve rotateLocked_change : gateway.

Lemma insert_set_own s p m m' :
  set_installations (set_installations s (<[p := m]> (installations s)))
    (<[p := m']> (<[p := m]> (installations s))) = with_own s p m'.
Proof. unfold with_own, set_installations. cbn. by rewrite insert_insert_eq. Qed.

Lemma exec_change s t o : change t s (exec s t o).
Proof.
  destruct o as [ctx p|ctx se b|ctx se|ctx p|ctx p|ctx p id|ctx se g|ctx se id|ctx p|ctx p id d|ctx u];
    cbn [exec].
  - unfold BeginAuthenticatedSession. destruct (_ || _) eqn:E; [constructor|].
    destruct (ctx_Err ctx); [constructor|]. split_bools.
    destruct (accounts s !! p) as [a|] eqn:Ha; destruct (negb _); try by constructor.
  - unfold RegisterToken. destruct (_ || _) eqn:E; [constructor|].
    destruct (ctx_Err ctx); [constructor|]. split_bools.
    match goal with H : belongs _ _ = true |- _ => apply belongs_principal in H as Hp end.
    destruct (session_account s se) as [a|] eqn:Ha; [|constructor].
    apply session_account_Ok in Ha as (Ha & Hs & _). rewrite <- Hp in Ha.
    destruct (_ || _) eqn:Ew; [constructor|]. destruct (negb _) eqn:En; [constructor|].
    split_bools. cbv zeta. destruct (_ <=? _); [apply change_prune|]. by exact (change_register t s b a ltac:(done) Ha Hs ltac:(done) En).
  - unfold Logout. destruct (_ || _); [constructor|]. destruct (ctx_Err ctx); [constructor|].
    destruct (accounts s !! _) eqn:Ha; [|constructor]. destruct (negb _); [constructor|].
    eauto with gateway.
  - unfold Suspend, setStatus. destruct (_ || _); [constructor|].
    destruct (ctx_Err ctx); [constructor|].
    destruct (accounts s !! _) eqn:Ha; [|constructor]. destruct (bool_decide _); [constructor|].
    eauto with gateway.
  - unfold Resume, setStatus. destruct (_ || _); [constructor|].
    destruct (ctx_Err ctx); [constructor|].
    destruct (accounts s !! _) eqn:Ha; [|constructor]. destruct (bool_decide _); [constructor|].
    eauto with gateway.
  - unfold RevokeToken. destruct (_ || _); [constructor|]. destruct (ctx_Err ctx); [constructor|].
    destruct (tokens s !! _) eqn:Ht; [|constructor]. destruct (negb _); [constructor|].
    by constructor.
  - unfold UpsertPushInstallation. destruct (_ || _) eqn:E; [constructor|].
    destruct (ctx_Err ctx); [constructor|]. split_bools.
    destruct (session_account s se) as [a|] eqn:Ha; [|constructor].
    apply session_account_Ok in Ha as (Ha & Hs & _). cbv zeta.
    destruct (address_taken _ _ _) eqn:Ht; [apply change_push_touch|].
    destruct (_ && _) eqn:Ec; [apply change_push_touch|].
    cbn [fst]. rewrite insert_set_own. apply change_push_upsert; try done.
    intros Hn. rewrite bool_decide_true in Ec by done. cbn in Ec. by split_bools.
  - unfold RemovePushInstallation. destruct (_ || _); [constructor|].
    destruct (ctx_Err ctx); [constructor|].
    destruct (session_account s se); [|constructor]. apply change_push_remove.
  - unfold ActivePushInstallations. destruct (_ || _); [constructor|].
    destruct (ctx_Err ctx); [constructor|]. cbv zeta.
    destruct (accounts _ !! _); [destruct (negb _)|]; apply change_push_prune.
  - unfold InvalidatePushInstallation. destruct (_ || _); [constructor|].
    destruct (ctx_Err ctx); [constructor|].
    destruct (installed s p !! id); [|constructor]. destruct (negb _); [constructor|].
    apply change_push_remove.
  - unfold ApplyServiceEntitlement. destruct (nil_ctx ctx); [constructor|].
    destruct (ctx_Err ctx); [constructor|]. cbv zeta.
    destruct (negb _) eqn:Ev; [constructor|]. apply negb_false_iff in Ev.
    destruct (entitlementEvents s !! _) eqn:Hev; [destruct (negb _); constructor|].
    destruct (accounts s !! _) as [a|] eqn:Ha; [|constructor].
    destruct (negb (_ =? _)) eqn:Er; [constructor|]. destruct (_ || _) eqn:Eo; [constructor|].
    split_bools. by eapply change_apply.
Qed.

(** *** The account invariant *)

Definition account_ok (p : Principal) (a : Account) : Prop :=
  a_Principal a = p ∧ 1 ≤ a_Revision a ≤ maximumAccountRevision.

(** A token that is not revoked carries the current revision of an active account. *)
Definition token_ok (s : Store) (id : string) (tok : storedToken) : Prop :=
  let z := authorization tok in
  TokenID (Binding z) = id ∧ ValidUntil z = ExpiresAt (Binding z) ∧
  ∃ a, accounts s !! principal_of (Binding z) = Some a ∧ AccountRevision z ≤ a_Revision a ∧
    (IsZero (revokedAt tok) = true →
     AccountRevision z = a_Revision a ∧ a_Status a = AccountActive).

Definition account_inv (s : Store) : Prop :=
  (∀ p a, accounts s !! p = Some a → account_ok p a) ∧
  (∀ id tok, tokens s !! id = Some tok → token_ok s id tok).

Lemma token_ok_mono s s' id tok :
  (∀ p a, accounts s !! p = Some a → accounts s' !! p = Some a) →
  token_ok s id tok → token_ok s' id tok.
Proof. intros Hs (? & ? & a & Ha & ?). split_and!; try done. exists a. auto. Qed.

Lemma next_revision a :
  1 ≤ a_Revision a < maximumAccountRevision → wrap_u64 (a_Revision a + 1) = a_Revision a + 1.
Proof.
  unfold maximumAccountRevision, MaximumBindingRevision. intros ?. rewrite wrap_u64_id; lia.
Qed.

Lemma rotate_one_authorization p r why t tok :
  authorization (rotate_one p r why t tok) = authorization tok.
Proof. unfold rotate_one, revoke. by repeat case_match. Qed.

Lemma revoke_revoked why t tok : zero_time < t → IsZero (revokedAt (revoke why t tok)) = false.
Proof.
  unfold revoke. destruct (IsZero (revokedAt tok)) eqn:E; [|done]. intros Ht. cbn.
  unfold IsZero. lia.
Qed.

Lemma revoke_authorization why t tok : authorization (revoke why t tok) = authorization tok.
Proof. unfold revoke. by case_match. Qed.

Lemma rotate_token_ok s a status why t id tok :
  zero_time < t → account_inv s → accounts s !! a_Principal a = Some a →
  a_Revision a < maximumAccountRevision → token_ok s id tok →
  token_ok (rotate_store s a status why t) id
    (rotate_one (a_Principal a) (a_Revision a) why t tok).
Proof.
  intros Ht [Hacc _] Ha Hmax (Hid & Hv & a' & Ha' & Hle & Hact).
  pose proof (Hacc _ _ Ha) as [_ Hr]. unfold token_ok. rewrite rotate_one_authorization.
  split_and!; try done. cbn [accounts rotate_store].
  destruct (decide (principal_of (Binding (authorization tok)) = a_Principal a)) as [Hp|Hp].
  - rewrite Hp, lookup_insert_eq. rewrite Hp, Ha in Ha'. simplify_eq.
    exists (rotated a' status t). unfold rotated. cbn. rewrite next_revision by lia.
    split; [done|]. split; [lia|]. intros Hz. exfalso. revert Hz. unfold rotate_one.
    apply belongs_principal in Hp. rewrite Hp. apply Z.leb_le in Hle. rewrite Hle. cbn.
    by rewrite revoke_revoked.
  - exists a'. rewrite lookup_insert_ne by done. split_and!; try done.
    unfold rotate_one. destruct (belongs _ _) eqn:Hb; [|done].
    by apply belongs_principal in Hb.
Qed.

Lemma change_account_inv t s s' :
  zero_time < t → change t s s' → account_inv s → account_inv s'.
Proof.
  intros Ht Hc Hinv. pose proof Hinv as [Hacc Htok].
  destruct Hc as [|p Hv Hn| |b a Hv Ha Hs Hx Hn|p a status why Ha Hmax|id rec Hrec| | | | |];
    try done.
  - split.
    + intros q a. cbn. intros [ [<- <-]|[_ ?] ]%lookup_insert_Some; [|by apply Hacc].
      split; [done|]. unfold opened, maximumAccountRevision, MaximumBindingRevision. cbn. lia.
    + intros id tok Hid. eapply token_ok_mono; [|by apply Htok]. intros q a Hq. cbn.
      rewrite lookup_insert_ne; [done|]. intros ->. congruence.
  - split; [done|]. intros id tok. cbn. intros [? _]%map_keep_Some. by apply Htok.
  - split; [done|]. intros id tok. cbn.
    intros [ [<- <-]|[_ [? _]%map_keep_Some] ]%lookup_insert_Some; [|by apply Htok].
    split_and!; try done. exists a. cbn. split_and!; try done; lia.
  - pose proof (Hacc _ _ Ha) as [Hp Hr]. subst p. split.
    + intros q b. cbn. intros [ [<- <-]|[_ ?] ]%lookup_insert_Some; [|by apply Hacc].
      split; [done|]. unfold rotated. cbn. rewrite next_revision by lia. lia.
    + intros id tok. cbn. rewrite lookup_fmap.
      destruct (tokens s !! id) as [tok0|] eqn:Hid; [|done]. intros [= <-].
      apply rotate_token_ok; try done. by apply Htok.
  - split; [done|]. intros i tok. cbn. intros [ [<- <-]|[_ ?] ]%lookup_insert_Some;
      [|by apply Htok].
    pose proof (Htok _ _ Hrec) as (Hid & Hval & a & Ha & Hle & _).
    unfold token_ok. rewrite revoke_authorization, revoke_revoked by done.
    split_and!; try done. by exists a.
  - split.
    + intros q a. unfold delete_installation. case_match; apply Hacc.
    + intros i tok. unfold delete_installation. case_match; apply Htok.
Qed.

Lemma step_inv (P : Store → Prop) c c' :
  (∀ t s s', zero_time < t → change t s s' → P s → P s') → step c c' → P c.1 → P c'.1.
Proof. intros HP [s t t' o Ht Hz] Hs. cbn in *. eapply HP; [done| |done]. apply exec_change. Qed.

Lemma later_inv (P : Store → Prop) c c' :
  (∀ t s s', zero_time < t → change t s s' → P s → P s') → later c c' → P c.1 → P c'.1.
Proof. intros HP Hl. induction Hl as [|c c1 c' Hs _ IH]; [done|]. intros H. by apply IH, (step_inv P c c1). Qed.

Lemma account_reach_inv (P : Store → Prop) c :
  (∀ n, P {| maximum := n; accounts := ∅; tokens := ∅; installations := ∅;
             entitlements := ∅; entitlementEvents := ∅ |}) →
  (∀ t s s', zero_time < t → change t s s' → P s → P s') → reach c → P c.1.
Proof.
  intros H0 HP (c0 & [n s t Hn] & Hl). eapply later_inv; [done..|]. cbn.
  revert Hn. unfold NewStore. guard Hb. intros [= <-]. apply H0.
Qed.

Lemma reach_later c c' : reach c → later c c' → reach c'.
Proof. intros (c0 & Hs & Hl) Hl'. exists c0. split; [done|]. by etrans. Qed.

Lemma reach_account_inv c : reach c → account_inv c.1.
Proof.
  apply account_reach_inv; [|by eauto using change_account_inv].
  intros n. split; intros ??; cbn; by rewrite lookup_empty.
Qed.

(** *** Revocation *)

(** The token is recorded as revoked, or has expired. *)
Definition dead (b : TokenBinding) (s : Store) (t : Time) : Prop :=
  (∃ tok, tokens s !! TokenID b = Some tok ∧ Binding (authorization tok) = b ∧
     IsZero (revokedAt tok) = false) ∨ ExpiresAt b ≤ Unix t.

Lemma change_dead b t t' s s' :
  t ≤ t' → zero_time < t' → change t' s s' → dead b s t → dead b s' t'.
Proof.
  intros Ht Hz Hc [(tok & Htok & Hb & Hr)|Hx]; [|right; pose proof (Unix_mono _ _ Ht); lia].
  destruct (decide (ExpiresAt b ≤ Unix t')) as [|Hlive]; [by right|left].
  assert (tokens (pruneExpiredLocked s (Unix t')) !! TokenID b = Some tok) as Hkeep.
  { cbn. apply map_keep_Some. split; [done|]. rewrite Hb. apply negb_true_iff. lia. }
  destruct Hc as [| | |b' a Hv Ha Hs Hx Hn|p a status why Ha Hmax|id rec Hrec| | | |p id|];
    try by exists tok.
  - exists tok. split_and!; try done. cbn. rewrite lookup_insert_ne; [done|]. congruence.
  - exists (rotate_one (a_Principal a) (a_Revision a) why t' tok). cbn.
    rewrite lookup_fmap, Htok, rotate_one_authorization. split_and!; try done.
    unfold rotate_one, revoke. rewrite Hr. by case_match.
  - destruct (decide (id = TokenID b)) as [->|Hne].
    + rewrite Htok in Hrec. simplify_eq. exists (revoke RevocationToken t' rec). cbn.
      rewrite lookup_insert_eq, revoke_authorization, revoke_revoked; done.
    + exists tok. cbn. rewrite lookup_insert_ne; done.
  - exists tok. unfold delete_installation. by case_match.
Qed.

Lemma later_dead b c c' : later c c' → dead b c.1 c.2 → dead b c'.1 c'.2.
Proof.
  induction 1 as [|c c1 c' [s t t' o Ht Hz] _ IH]; [done|]. intros Hd. apply IH. cbn in *.
  eapply change_dead; [done..| |done]. apply exec_change.
Qed.

Lemma dead_inactive b s t now ctx :
  dead b s t → t ≤ now → nil_ctx ctx = false → ctx_Err ctx = false →
  ValidTokenBinding b = true → Introspect s ctx b now = Ok None.
Proof.
  intros Hd Hnow Hc He Hv. unfold Introspect. rewrite Hc, He, Hv. cbn.
  destruct Hd as [(tok & -> & -> & ->)|Hx].
  - rewrite bool_decide_true by done. done.
  - pose proof (Unix_mono _ _ Hnow). case_match; [|done].
    replace (ExpiresAt b <=? Unix now) with true by lia. by rewrite orb_true_r.
Qed.

(** The calls that revoke a token: a logout of its account, a suspension of its
    account, a revocation of the token itself. *)
Definition revokes (s : Store) (t : Time) (b : TokenBinding) (s' : Store) : Prop :=
  ∃ ctx,
    (∃ session a, s_Principal session = principal_of b ∧ Logout s ctx session t = (s', Ok a)) ∨
    (∃ a, Suspend s ctx (principal_of b) t = (s', Ok a)) ∨
    RevokeToken s ctx (principal_of b) (TokenID b) t = (s', Ok tt).

Lemma rotate_dead s s' t b tok a status why r :
  zero_time < t → account_inv s → tokens s !! TokenID b = Some tok →
  Binding (authorization tok) = b → accounts s !! principal_of b = Some a →
  rotateLocked s a status why t = (s', Ok r) → dead b s' t.
Proof.
  intros Hz Hinv Htok Hb Ha. rewrite rotateLocked_eq. guard Hm. intros [= <- _]. split_bools.
  pose proof Hinv as [Hacc Htoks]. pose proof (Hacc _ _ Ha) as [Hp _]. subst b.
  left. exists (rotate_one (a_Principal a) (a_Revision a) why t tok). cbn.
  rewrite lookup_fmap, Htok, rotate_one_authorization. split_and!; try done.
  unfold rotate_one. destruct (Htoks _ _ Htok) as (_ & _ & a' & Ha' & Hle & _).
  rewrite Ha in Ha'. simplify_eq. rewrite (proj2 (belongs_principal _ _)) by done.
  apply Z.leb_le in Hle. rewrite Hle. cbn. by apply revoke_revoked.
Qed.

Lemma revokes_dead s s' t b tok :
  zero_time < t → account_inv s → tokens s !! TokenID b = Some tok →
  Binding (authorization tok) = b → revokes s t b s' → dead b s' t.
Proof.
  intros Hz Hinv Htok Hb (ctx & [(se & a & Hp & HL)|[(a & HS)|HR] ]).
  - revert HL. unfold Logout. guard H1. guard H2. rewrite Hp.
    destruct (accounts s !! principal_of b) as [a0|] eqn:Ha; [|done]. guard H3.
    intros HL. by eapply rotate_dead.
  - revert HS. unfold Suspend, setStatus. guard H1. guard H2.
    destruct (accounts s !! principal_of b) as [a0|] eqn:Ha; [|done].
    destruct (bool_decide _) eqn:H3; [|intros HS; by eapply rotate_dead].
    intros [= <- <-]. split_bools. destruct (proj2 Hinv _ _ Htok) as (_ & _ & a' & Ha' & _ & Hz').
    rewrite Hb, Ha in Ha'. simplify_eq. left. exists tok. split_and!; try done.
    apply not_true_iff_false. intros Hr. destruct (Hz' Hr). congruence.
  - revert HR. unfold RevokeToken. guard H1. guard H2. rewrite Htok. guard H3.
    intros [= <-]. left. exists (revoke RevocationToken t tok). cbn.
    rewrite lookup_insert_eq, revoke_authorization, revoke_revoked; done.
Qed.

(** A revoked token never becomes active again. Take any run of the store, a
    token registered in it, and a logout or suspension of its account or a
    revocation of the token that succeeds; after any further calls, including a
    resumption of the account, new logins and attempts to register the token
    again, introspecting the token answers that it is inactive. *)
Theorem revoked_token_stays_inactive s t0 t s1 b tok s2 t2 ctx now :
  reach (s, t0) → tokens s !! TokenID b = Some tok → Binding (authorization tok) = b →
  t0 ≤ t → zero_time < t → revokes s t b s1 →
  later (s1, t) (s2, t2) → t2 ≤ now →
  nil_ctx ctx = false → ctx_Err ctx = false → ValidTokenBinding b = true →
  Introspect s2 ctx b now = Ok None.
Proof.
  intros Hr Htok Hb Ht Hz Hrev Hl Hnow Hc He Hv.
  eapply dead_inactive; [|done..].
  apply (later_dead b _ _ Hl). eapply revokes_dead; [done| |done..].
  apply (reach_account_inv _ Hr).
Qed.

(** *** Sessions *)

Lemma change_revision t s s' p a :
  account_inv s → change t s s' → accounts s !! p = Some a →
  ∃ a', accounts s' !! p = Some a' ∧ a_Revision a ≤ a_Revision a' ∧
    (a_Revision a = a_Revision a' → a' = a).
Proof.
  intros [Hacc _] Hc Ha.
  assert (∀ s', accounts s' = accounts s → ∃ a', accounts s' !! p = Some a' ∧
    a_Revision a ≤ a_Revision a' ∧ (a_Revision a = a_Revision a' → a' = a)) as Hsame.
  { intros s0 ->. exists a. split_and!; done. }
  destruct Hc as [|q Hv Hn| | |q a0 status why Ha0 Hmax| | | | |q id|];
    try (by apply Hsame).
  - cbn. exists a. rewrite lookup_insert_ne by congruence. split_and!; done.
  - cbn. pose proof (Hacc _ _ Ha0) as [Hq Hr0]. subst q.
    destruct (decide (a_Principal a0 = p)) as [<-|Hne].
    + rewrite lookup_insert_eq. eexists. split; [done|]. rewrite Ha in Ha0. simplify_eq.
      unfold rotated. cbn. rewrite next_revision by lia. split; [lia|]. lia.
    + exists a. rewrite lookup_insert_ne by done. split_and!; done.
  - apply Hsame. unfold delete_installation. by case_match.
Qed.

Lemma later_revision c c' p a :
  later c c' → account_inv c.1 → accounts c.1 !! p = Some a →
  ∃ a', accounts c'.1 !! p = Some a' ∧ a_Revision a ≤ a_Revision a'.
Proof.
  intros Hl. revert a. induction Hl as [c|c c1 c' [s t t' o Ht Hz] _ IH]; intros a Hinv Ha;
    [by exists a|]. cbn in *.
  destruct (change_revision t' s _ p a Hinv (exec_change s t' o) Ha) as (a1 & Ha1 & Hle & _).
  destruct (IH a1) as (a' & Ha' & Hle'); [|done|exists a'; split; [done|lia] ].
  eapply change_account_inv; [done| |done]. apply exec_change.
Qed.

(** A session of an older revision is refused by every method that takes one, and
    nothing changes. *)
Definition session_refused (s : Store) (session : Session) : Prop :=
  ∀ ctx b g id now,
    is_ok (RegisterToken s ctx session b now).2 = false ∧
    (RegisterToken s ctx session b now).1 = s ∧
    is_ok (UpsertPushInstallation s ctx session g now).2 = false ∧
    (UpsertPushInstallation s ctx session g now).1 = s ∧
    is_ok (RemovePushInstallation s ctx session id).2 = false ∧
    (RemovePushInstallation s ctx session id).1 = s ∧
    is_ok (Logout s ctx session now).2 = false ∧ (Logout s ctx session now).1 = s.

Lemma old_session_refused s session a :
  accounts s !! s_Principal session = Some a → s_AccountRevision session < a_Revision a →
  session_refused s session.
Proof.
  intros Ha Hlt ctx b g id now.
  assert (∃ e, session_account s session = Err e) as [e He].
  { destruct (session_account s session) as [x|e] eqn:E; [|by exists e].
    apply session_account_Ok in E as (? & _ & ?). simplify_eq. lia. }
  unfold RegisterToken, UpsertPushInstallation, RemovePushInstallation, Logout.
  rewrite He, Ha. replace (a_Revision a =? s_AccountRevision session) with false by lia. cbn.
  by split_and!; repeat case_match.
Qed.

(** A logout ends the session it is made with and every other session of the same
    revision. At whatever later point of the run, also after the account was
    suspended, resumed or logged into again, the session can no longer register a
    token, change a push installation or log the account out, and its attempts leave
    the store as it is. *)
Theorem logout_fences_session s t0 t ctx session s1 a s2 t2 :
  reach (s, t0) → t0 ≤ t → zero_time < t →
  Logout s ctx session t = (s1, Ok a) →
  later (s1, t) (s2, t2) → session_refused s2 session.
Proof.
  intros Hr Ht Hz HL Hl. pose proof (reach_account_inv _ Hr) as Hinv. cbn in Hinv.
  assert (account_inv s1) as Hinv1.
  { eapply (change_account_inv t s); [done| |done].
    pose proof (exec_change s t (OLogout ctx session)) as Hc. cbn in Hc. by rewrite HL in Hc. }
  revert HL. unfold Logout. guard H1. guard H2.
  destruct (accounts s !! s_Principal session) as [a0|] eqn:Ha; [|done]. guard H3.
  rewrite rotateLocked_eq. guard H4. intros [= <- <-]. split_bools.
  destruct (proj1 Hinv _ _ Ha) as [Hp Hrev].
  destruct (later_revision _ _ (s_Principal session) (rotated a0 AccountActive t) Hl Hinv1)
    as (a' & Ha' & Hle).
  { cbn. by rewrite Hp, lookup_insert_eq. }
  revert Hle. unfold rotated. cbn. rewrite next_revision by lia. intros Hle.
  eapply old_session_refused; [done|]. lia.
Qed.

(** Runs in which every session that is presented was returned by an earlier
    [BeginAuthenticatedSession] of the run, as the service's callers do. *)
Definition session_of (o : op) : option Session :=
  match o with
  | ORegister _ se _ | OLogout _ se | OUpsert _ se _ | ORemove _ se _ => Some se
  | _ => None
  end.
Definition issues (s : Store) (t : Time) (o : op) : list Session :=
  match o with
  | OBegin ctx p => match (BeginAuthenticatedSession s ctx p t).2 with
                    | Ok se => [se]
                    | Err _ => []
                    end
  | _ => []
  end.

Inductive gstep (allowed : op → Prop) : Store * Time * list Session →
    Store * Time * list Session → Prop :=
| gstep_op s t t' iss o :
    t ≤ t' → zero_time < t' → allowed o → (∀ se, session_of o = Some se → se ∈ iss) →
    gstep allowed (s, t, iss) (exec s t' o, t', issues s t' o ++ iss).

Definition greach (c : Store * Time * list Session) : Prop :=
  ∃ c0, start c0 ∧ rtc (gstep (λ _, True)) (c0, []) c.

Definition sessions_ok (s : Store) (iss : list Session) : Prop :=
  ∀ se, se ∈ iss → ∃ a, accounts s !! s_Principal se = Some a ∧
    s_AccountRevision se ≤ a_Revision a ∧
    (a_Status a = AccountSuspended → s_AccountRevision se < a_Revision a).

Lemma issues_ok s t o se :
  se ∈ issues s t o → ∃ a, accounts (exec s t o) !! s_Principal se = Some a ∧
    s_AccountRevision se = a_Revision a ∧ a_Status a = AccountActive.
Proof.
  destruct o as [ctx p| | | | | | | | | |]; cbn; try by intros ?%elem_of_nil.
  unfold BeginAuthenticatedSession. destruct (_ || _); [by intros ?%elem_of_nil|].
  destruct (ctx_Err ctx); [by intros ?%elem_of_nil|].
  destruct (accounts s !! p) as [a|] eqn:Ha.
  - destruct (negb _) eqn:E; [by intros ?%elem_of_nil|]. cbn.
    intros ->%list_elem_of_singleton. split_bools. cbn. by exists a.
  - cbn. rewrite bool_decide_true by done. cbn.
    intros ->%list_elem_of_singleton. cbn. rewrite lookup_insert_eq. by eexists.
Qed.

Lemma change_sessions t s s' iss :
  account_inv s → change t s s' → sessions_ok s iss → sessions_ok s' iss.
Proof.
  intros Hinv Hc Hok se Hse. destruct (Hok se Hse) as (a & Ha & Hle & Hs).
  destruct (change_revision t s s' _ a Hinv Hc Ha) as (a' & Ha' & Hle' & Heq).
  exists a'. split; [done|]. split; [lia|]. intros Hsus.
  destruct (decide (a_Revision a = a_Revision a')) as [E|E]; [|lia].
  rewrite (Heq E) in Hsus. specialize (Hs Hsus). lia.
Qed.

Definition ginv (c : Store * Time * list Session) : Prop :=
  account_inv c.1.1 ∧ sessions_ok c.1.1 c.2.

Lemma gstep_inv allowed c c' : gstep allowed c c' → ginv c → ginv c'.
Proof.
  intros [s t t' iss o Ht Hz _ _] [Hinv Hok]. cbn in *. pose proof (exec_change s t' o) as Hc.
  split; cbn; [by eapply change_account_inv|].
  intros se [Hse|Hse]%elem_of_app; [|by eapply change_sessions].
  destruct (issues_ok s t' o se Hse) as (a & Ha & Hle & Hs). exists a.
  split; [done|]. rewrite Hs. split; [lia|done].
Qed.

Lemma greach_ginv c : greach c → ginv c.
Proof.
  intros (c0 & Hs & Hl). assert (ginv (c0, [])) as H0.
  { split; [|by intros ? ?%elem_of_nil]. apply reach_account_inv. by exists c0. }
  clear Hs. induction Hl as [|c1 c2 c3 Hst _ IH]; [done|]. by apply IH, (gstep_inv _ _ _ Hst).
Qed.

(** A call that is not a resumption leaves a suspended account as it is. *)
Lemma suspended_frozen s t o iss p a :
  ginv (s, t, iss) → (∀ se, session_of o = Some se → se ∈ iss) →
  (∀ ctx, o ≠ OResume ctx p) →
  accounts s !! p = Some a → a_Status a = AccountSuspended →
  ∀ t', accounts (exec s t' o) !! p = Some a.
Proof.
  intros [ [Hacc _] Hok] Hse Hno Ha Hs t'.
  assert (∀ q a0 status why, accounts s !! q = Some a0 → q ≠ p →
    accounts (rotateLocked s a0 status why t').1 !! p = Some a) as Hrot.
  { intros q a0 status why Hq Hne. rewrite rotateLocked_eq. case_match; [done|]. cbn.
    destruct (Hacc _ _ Hq) as [-> _]. by rewrite lookup_insert_ne. }
  destruct o as [ctx q|ctx se b|ctx se|ctx q|ctx q|ctx q id|ctx se g|ctx se id|ctx q|ctx q id d|ctx u];
    cbn [exec].
  - unfold BeginAuthenticatedSession. destruct (_ || _); [done|]. destruct (ctx_Err ctx); [done|].
    destruct (accounts s !! q) as [a0|] eqn:Hq; [by case_match|].
    case_match; cbn; rewrite lookup_insert_ne; congruence.
  - unfold RegisterToken. by repeat (case_match; try done).
  - unfold Logout. destruct (_ || _); [done|]. destruct (ctx_Err ctx); [done|].
    destruct (accounts s !! s_Principal se) as [a0|] eqn:Hq; [|done].
    destruct (negb _) eqn:E; [done|]. apply (Hrot (s_Principal se)); [done|]. intros <-.
    destruct (Hok se) as (a1 & Ha1 & _ & Hlt); [by apply Hse|]. cbn in Ha1. simplify_eq.
    specialize (Hlt Hs). split_bools. lia.
  - unfold Suspend, setStatus. destruct (_ || _); [done|]. destruct (ctx_Err ctx); [done|].
    destruct (accounts s !! q) as [a0|] eqn:Hq; [|done].
    destruct (bool_decide _) eqn:E; [done|]. apply (Hrot q); [done|]. intros <-. simplify_eq.
    by rewrite bool_decide_true in E.
  - unfold Resume, setStatus. destruct (_ || _); [done|]. destruct (ctx_Err ctx); [done|].
    destruct (accounts s !! q) as [a0|] eqn:Hq; [|done].
    destruct (bool_decide _) eqn:E; [done|]. apply (Hrot q); [done|]. intros <-.
    by apply (Hno ctx).
  - unfold RevokeToken. by repeat (case_match; try done).
  - unfold UpsertPushInstallation. by repeat (case_match; try done).
  - unfold RemovePushInstallation, delete_installation. by repeat (case_match; try done).
  - unfold ActivePushInstallations. by repeat (case_match; try done).
  - unfold InvalidatePushInstallation, delete_installation. by repeat (case_match; try done).
  - unfold ApplyServiceEntitlement. by repeat (case_match; try done).
Qed.

(** Only a resumption lifts a suspension. Although [Logout] sets the account
    active without looking at its status, no session that was ever handed out fits a
    suspended account: in every run in which the sessions presented were returned by
    [BeginAuthenticatedSession], a suspended account stays exactly as it is, whatever
    is called, until [Resume] is called for it. *)
Theorem suspension_lifted_only_by_resume s t iss p a s' t' iss' :
  greach (s, t, iss) → accounts s !! p = Some a → a_Status a = AccountSuspended →
  rtc (gstep (λ o, ∀ ctx, o ≠ OResume ctx p)) (s, t, iss) (s', t', iss') →
  accounts s' !! p = Some a.
Proof.
  intros Hr Ha Hs Hl. apply greach_ginv in Hr.
  change (accounts (s', t', iss').1.1 !! p = Some a). revert Hr Ha.
  change (accounts s) with (accounts (s, t, iss).1.1).
  induction Hl as [|c1 c2 c3 Hst _ IH]; [done|]. intros Hg Ha. apply IH.
  - by eapply gstep_inv.
  - destruct Hst as [s0 t0 t1 iss0 o Ht Hz Hno Hse]. cbn in Ha |- *.
    by eapply suspended_frozen.
Qed.

(** *** Push installations *)

Definition holds (s : Store) (p : Principal) (id : string) (x : PushInstallation) : Prop :=
  installed s p !! id = Some x.

Definition push_inv (s : Store) : Prop :=
  (∀ p, Z.of_nat (size (installed s p)) ≤ MaximumPushInstallationsPerAccount) ∧
  (∀ p id x, holds s p id x → InstallationID x = id ∧ i_Principal x = p ∧
     ValidProtectedPushToken (Token_ x) = true ∧
     ∃ a, accounts s !! p = Some a ∧ a_Status a = AccountActive ∧
       i_AccountRevision x = a_Revision a) ∧
  (∀ p id x p' id' x', holds s p id x → holds s p' id' x' →
     Platform x = Platform x' → Digest (Token_ x) = Digest (Token_ x') → p = p' ∧ id = id').

Lemma installed_pruned s t p :
  installed (prunePushInstallationsLocked s t) p = prune_account t (installed s p).
Proof.
  unfold installed. cbn. rewrite map_keep_lookup, lookup_fmap.
  destruct (installations s !! p) as [m|]; cbn.
  - destruct (bool_decide _) eqn:E; split_bools; cbn; [by rewrite E|done].
  - apply map_eq. intros i. unfold prune_account. rewrite map_keep_lookup.
    by rewrite !lookup_empty.
Qed.

Lemma installed_with_own s p m q :
  installed (with_own s p m) q = if decide (p = q) then m else installed s q.
Proof.
  unfold installed. cbn. case_decide; subst; [by rewrite lookup_insert_eq|].
  by rewrite lookup_insert_ne.
Qed.

Lemma installed_deleted s p id q :
  installed (delete_installation s p id) q =
  if decide (p = q) then delete id (installed s q) else installed s q.
Proof.
  unfold delete_installation, installed. destruct (installations s !! p) as [m|] eqn:E; cbn.
  - case_decide; subst; [by rewrite lookup_insert_eq, E|]. by rewrite lookup_insert_ne.
  - case_decide; subst; [|done]. rewrite E. cbn. by rewrite delete_empty.
Qed.

(** Removing installations keeps the invariant. *)
Lemma push_inv_sub s s' :
  (∀ p a, accounts s !! p = Some a → a_Status a = AccountActive →
     installed s' p ≠ ∅ → accounts s' !! p = Some a) →
  (∀ p, installed s' p ⊆ installed s p) → push_inv s → push_inv s'.
Proof.
  intros Hacc Hsub (Hcap & Hok & Huniq). split_and!.
  - intros p. specialize (Hcap p). pose proof (map_subseteq_size _ _ (Hsub p)). lia.
  - intros p id x Hx. pose proof (lookup_weaken _ _ _ _ Hx (Hsub p)) as Hx'.
    destruct (Hok p id x Hx') as (? & ? & ? & a & Ha & Hs & Hr). split_and!; try done.
    exists a. split_and!; try done. apply Hacc; try done. intros E.
    unfold holds in Hx. by rewrite E, lookup_empty in Hx.
  - intros p id x p' id' x' Hx Hx'. apply Huniq;
      [by eapply lookup_weaken|by eapply lookup_weaken].
Qed.

Lemma prune_account_sub t m : prune_account t m ⊆ m.
Proof. apply map_subseteq_spec. by intros i x [? _]%map_keep_Some. Qed.

Lemma pruned_push_inv s t : push_inv s → push_inv (prunePushInstallationsLocked s t).
Proof.
  apply push_inv_sub; [done|]. intros p. rewrite installed_pruned. apply prune_account_sub.
Qed.

Lemma address_free s p g q id x :
  address_taken s p g = false → holds s q id x → (q ≠ p ∨ id ≠ g_InstallationID g) →
  ¬ (Platform x = g_Platform g ∧ Digest (Token_ x) = Digest (g_Token g)).
Proof.
  unfold holds, installed. intros Ht Hx Hne [Hpl Hd].
  destruct (installations s !! q) as [m|] eqn:Hm; cbn in Hx; [|by rewrite lookup_empty in Hx].
  apply not_true_iff_false in Ht. apply Ht. unfold address_taken. apply existsb_exists.
  exists (q, m). split; [by apply list_elem_of_In, elem_of_map_to_list|].
  apply existsb_exists. exists (id, x).
  split; [by apply list_elem_of_In, elem_of_map_to_list|]. unfold same_address.
  rewrite Hpl, Hd, (bool_decide_true (g_Platform g = _)), (bool_decide_true (Digest _ = _)),
    andb_true_r by done. apply orb_true_iff.
  destruct Hne as [Hne|Hne]; [left|right]; by rewrite bool_decide_false.
Qed.

Lemma upsert_push_inv t s p a g registered :
  ValidPushInstallationRegistration g = true →
  accounts s !! p = Some a → a_Status a = AccountActive →
  address_taken (with_own s p (installed s p)) p g = false →
  (installed s p !! g_InstallationID g = None →
   Z.of_nat (size (installed s p)) < MaximumPushInstallationsPerAccount) →
  push_inv s →
  push_inv (with_own s p
    (<[g_InstallationID g := installation_of g a p registered t]> (installed s p))).
Proof.
  intros Hg Ha Hs Hfree Hsize (Hcap & Hok & Huniq).
  set (new := installation_of g a p registered t).
  assert (∀ q i x, holds (with_own s p (<[g_InstallationID g := new]> (installed s p))) q i x →
    (q = p ∧ i = g_InstallationID g ∧ x = new) ∨
    ((q ≠ p ∨ i ≠ g_InstallationID g) ∧ holds s q i x)) as Hcases.
  { intros q i x. unfold holds. rewrite installed_with_own. case_decide; subst; [|by auto].
    intros [ [<- <-]|[? ?] ]%lookup_insert_Some; auto. }
  assert (∀ q i x, (q ≠ p ∨ i ≠ g_InstallationID g) → holds s q i x →
    Platform x = Platform new → Digest (Token_ x) = Digest (Token_ new) → False) as Hclash.
  { intros q i x Hne Hx Hpl Hd. eapply (address_free _ p g q i x Hfree); [|done|by split].
    unfold holds. rewrite installed_with_own. by case_decide; subst. }
  unfold ValidPushInstallationRegistration in Hg. split_bools.
  split_and!.
  - intros q. rewrite installed_with_own. case_decide; [|done]. subst q.
    destruct (installed s p !! g_InstallationID g) eqn:E.
    + rewrite map_size_insert_Some by by eexists. apply Hcap.
    + rewrite map_size_insert_None by done. specialize (Hsize eq_refl). lia.
  - intros q i x [ (-> & -> & ->)|[_ Hx] ]%Hcases; [|by apply Hok].
    split_and!; try done. by exists a.
  - intros q i x q' i' x' [ (-> & -> & ->)|[Hne Hx] ]%Hcases [ (-> & -> & ->)|[Hne' Hx'] ]%Hcases;
      intros Hpl Hd; try done; [by exfalso; eauto..|]. by eapply Huniq.
Qed.

Lemma change_push_inv t s s' :
  change t s s' → account_inv s → push_inv s → push_inv s'.
Proof.
  intros Hc Hinv Hpush. pose proof Hinv as [Hacc _].
  destruct Hc as [|p Hv Hn| |b a Hv Ha Hs Hx Hn|p a status why Ha Hmax|id rec Hrec| |p s1
    |p a g reg s1 Hg Ha Hs Hfree Hsize|p id|]; try done.
  - revert Hpush. apply push_inv_sub; [|done]. intros q a Ha _ _. cbn.
    rewrite lookup_insert_ne; [done|congruence].
  - destruct (Hacc _ _ Ha) as [Hp _]. revert Hpush. apply push_inv_sub.
    + intros q a' Ha' Hs Hne. cbn. rewrite lookup_insert_ne; [done|]. intros <-. apply Hne.
      unfold installed. cbn. by rewrite lookup_delete_eq.
    + intros q. unfold installed. cbn.
      destruct (decide (a_Principal a = q)) as [<-|]; [|by rewrite lookup_delete_ne].
      rewrite lookup_delete_eq. apply map_empty_subseteq.
  - by apply pruned_push_inv.
  - apply (pruned_push_inv s t) in Hpush. revert Hpush. apply push_inv_sub; [done|]. intros q.
    rewrite installed_with_own. by case_decide; subst.
  - apply (upsert_push_inv t s1); try done. by apply pruned_push_inv.
  - revert Hpush. apply push_inv_sub.
    + intros q a Ha _ _. unfold delete_installation. by case_match.
    + intros q. rewrite installed_deleted. case_decide; [apply delete_subseteq|done].
Qed.

(** In every reachable store a provider address (platform and token digest) belongs
    to at most one installation of one account; an account has at most 16
    installations; and an installation exists only while its account is active, at
    the very revision at which it was registered, so that no installation outlives a
    logout or a suspension. *)
Theorem push_address_unique s t :
  reach (s, t) →
  (∀ p id x p' id' x', holds s p id x → holds s p' id' x' →
     Platform x = Platform x' → Digest (Token_ x) = Digest (Token_ x') → p = p' ∧ id = id') ∧
  (∀ p, Z.of_nat (size (installed s p)) ≤ 16) ∧
  (∀ p id x, holds s p id x → InstallationID x = id ∧ i_Principal x = p ∧
     ∃ a, accounts s !! p = Some a ∧ a_Status a = AccountActive ∧
       i_AccountRevision x = a_Revision a).
Proof.
  intros Hr. apply (account_reach_inv (λ s, account_inv s ∧ push_inv s)) in Hr
    as [_ (Hcap & Hok & Huniq)].
  - cbn in *. split_and!; [done..|]. intros p id x Hx.
    destruct (Hok p id x Hx) as (? & ? & _ & ?). done.
  - intros n. assert (∀ p, installed {| maximum := n; accounts := ∅; tokens := ∅;
      installations := ∅; entitlements := ∅; entitlementEvents := ∅ |} p = ∅) as E.
    { intros p. unfold installed. cbn. by rewrite lookup_empty. }
    unfold push_inv, holds. setoid_rewrite E. repeat split; cbn; try done;
      intros *; by rewrite ?lookup_empty.
  - intros t' s1 s2 Hz Hc [Ha Hp]. split; [by eapply change_account_inv|].
    by eapply change_push_inv.
Qed.

(** *** Entitlements *)

(** The events of an account: each once per revision, from 1 to the revision of the
    entitlement in force, which is the last of them. *)
Definition ent_inv (s : Store) : Prop :=
  (∀ p e, entitlements s !! p = Some e → e_Principal e = p ∧
     ∃ ev, entitlementEvents s !! e_SourceEventID e = Some ev ∧ ev_entitlement ev = e) ∧
  (∀ id ev, entitlementEvents s !! id = Some ev →
     let e := ev_entitlement ev in
     e_SourceEventID e = id ∧ validServiceEntitlement e = true ∧
     ∃ cur, entitlements s !! e_Principal e = Some cur ∧ e_Revision e ≤ e_Revision cur) ∧
  (∀ id ev id' ev', entitlementEvents s !! id = Some ev → entitlementEvents s !! id' = Some ev' →
     e_Principal (ev_entitlement ev) = e_Principal (ev_entitlement ev') →
     e_Revision (ev_entitlement ev) = e_Revision (ev_entitlement ev') → id = id') ∧
  (∀ p cur r, entitlements s !! p = Some cur → 1 ≤ r ≤ e_Revision cur →
     ∃ id ev, entitlementEvents s !! id = Some ev ∧ e_Principal (ev_entitlement ev) = p ∧
       e_Revision (ev_entitlement ev) = r).

Lemma update_revision u now :
  ValidServiceEntitlementUpdate u now = true → 0 ≤ u_PreviousRevision u →
  u_Revision u = u_PreviousRevision u + 1 ∧ u_Revision u ≤ maximumAccountRevision.
Proof.
  unfold ValidServiceEntitlementUpdate, maximumAccountRevision, MaximumBindingRevision.
  destruct (_ || _) eqn:E; [done|]. intros _ H0. split_bools.
  match goal with H : u_Revision u = wrap_u64 _ |- _ => rewrite wrap_u64_id in H; lia end.
Qed.

Lemma valid_revision e : validServiceEntitlement e = true → 1 ≤ e_Revision e.
Proof.
  unfold validServiceEntitlement, ValidAccountRevision. destruct (_ || _) eqn:E; [done|].
  intros _. split_bools. lia.
Qed.

Lemma apply_ent_inv t s u :
  ValidServiceEntitlementUpdate u (TruncateSecond t) = true →
  entitlementEvents s !! u_SourceEventID u = None →
  from_option e_Revision 0 (entitlements s !! u_Principal u) = u_PreviousRevision u →
  validServiceEntitlement (entitled u t) = true → ent_inv s →
  ent_inv (set_entitlements s
      (<[u_Principal u := entitled u t]> (entitlements s))
      (<[u_SourceEventID u := {| ev_digest := entitlementUpdateDigest u;
                                 ev_entitlement := entitled u t |}]> (entitlementEvents s))).
Proof.
  intros Hv Hn Hprev Hval (Hcur & Hev & Huniq & Hgap).
  assert (∀ cur, entitlements s !! u_Principal u = Some cur → 1 ≤ e_Revision cur) as Hpos.
  { intros cur (_ & ev & Hid & <-)%Hcur. apply valid_revision. by apply Hev in Hid as (_ & ? & _). }
  assert (0 ≤ u_PreviousRevision u) as H0.
  { destruct (entitlements s !! u_Principal u) as [cur|]; cbn in Hprev; [|lia].
    specialize (Hpos cur eq_refl). lia. }
  destruct (update_revision _ _ Hv H0) as [Hrev _].
  assert (∀ id ev, entitlementEvents s !! id = Some ev →
    e_Principal (ev_entitlement ev) = u_Principal u →
    e_Revision (ev_entitlement ev) < u_Revision u) as Hold.
  { intros id ev (_ & _ & cur & Hc & Hle)%Hev Hp. rewrite Hp in Hc. rewrite Hc in Hprev.
    cbn in Hprev. lia. }
  unfold ent_inv. cbn. split_and!.
  - intros p e [ [<- <-]|[Hne He] ]%lookup_insert_Some.
    + split; [done|]. eexists. by rewrite lookup_insert_eq.
    + destruct (Hcur p e He) as (Hp & ev & Hid & Hee). split; [done|]. exists ev.
      rewrite lookup_insert_ne by congruence. done.
  - intros id ev [ [<- <-]|[Hne He] ]%lookup_insert_Some; cbn.
    + split_and!; [done..|]. eexists. rewrite lookup_insert_eq. done.
    + destruct (Hev id ev He) as (? & ? & cur & Hc & Hle). split_and!; [done..|].
      destruct (decide (u_Principal u = e_Principal (ev_entitlement ev))) as [E|E].
      * rewrite <- E, lookup_insert_eq. eexists. split; [done|]. cbn.
        specialize (Hold id ev He (eq_sym E)). lia.
      * rewrite lookup_insert_ne by done. by exists cur.
  - intros id ev id' ev' [ [<- <-]|[Hne He] ]%lookup_insert_Some
      [ [<- <-]|[Hne' He'] ]%lookup_insert_Some; cbn; try done.
    + intros Hp Hr. specialize (Hold _ _ He'). rewrite <- Hr in Hold. specialize (Hold (eq_sym Hp)).
      lia.
    + intros Hp Hr. specialize (Hold _ _ He Hp). lia.
    + by apply Huniq.
  - intros p cur r [ [<- <-]|[Hne He] ]%lookup_insert_Some Hr.
    + cbn in Hr. destruct (decide (r = u_Revision u)) as [->|Hlt].
      * exists (u_SourceEventID u). eexists. by rewrite lookup_insert_eq.
      * destruct (entitlements s !! u_Principal u) as [cur|] eqn:Hc; cbn in Hprev; [|lia].
        destruct (Hgap _ _ r Hc) as (id & ev & Hid & Hp & Hre); [lia|].
        exists id, ev. rewrite lookup_insert_ne by congruence. done.
    + destruct (Hgap _ _ r He Hr) as (id & ev & Hid & Hp & Hre). exists id, ev.
      rewrite lookup_insert_ne by congruence. done.
Qed.

Lemma change_ent_inv t s s' : change t s s' → ent_inv s → ent_inv s'.
Proof.
  intros Hc Hinv. destruct Hc; try done.
  - unfold delete_installation. by case_match.
  - by eapply apply_ent_inv.
Qed.

(** Service entitlements form one history per account. In every reachable store the
    applied events of an account carry the revisions 1, 2, ..., n, each exactly once and
    without gaps, and a service that is granted is granted by the last of them: an event
    of that account that has the highest revision, enables the service and has not
    run out, while the account is active. *)
Theorem entitlement_history_linear s t :
  reach (s, t) →
  (∀ id ev id' ev', entitlementEvents s !! id = Some ev → entitlementEvents s !! id' = Some ev' →
     e_Principal (ev_entitlement ev) = e_Principal (ev_entitlement ev') →
     e_Revision (ev_entitlement ev) = e_Revision (ev_entitlement ev') → id = id') ∧
  (∀ id ev r, entitlementEvents s !! id = Some ev → 1 ≤ r ≤ e_Revision (ev_entitlement ev) →
     ∃ id' ev', entitlementEvents s !! id' = Some ev' ∧
       e_Principal (ev_entitlement ev') = e_Principal (ev_entitlement ev) ∧
       e_Revision (ev_entitlement ev') = r) ∧
  (∀ ctx p service now grant, AuthorizeService s ctx p service now = Ok (Some grant) →
     ∃ id ev, entitlementEvents s !! id = Some ev ∧
       let e := ev_entitlement ev in
       e_Principal e = p ∧ e_Revision e = gr_Revision grant ∧ e_AccessUntil e = gr_ValidUntil grant ∧
       TruncateSecond now < e_AccessUntil e ∧
       (service = ProductServiceVoice ∧ e_VoiceEnabled e = true ∨
        service = ProductServiceAgent ∧ e_AgentEnabled e = true) ∧
       (∃ a, accounts s !! p = Some a ∧ a_Status a = AccountActive) ∧
       (∀ id' ev', entitlementEvents s !! id' = Some ev' →
          e_Principal (ev_entitlement ev') = p →
          e_Revision (ev_entitlement ev') ≤ e_Revision e)).
Proof.
  intros Hr. apply (account_reach_inv ent_inv) in Hr; [|by intros n; repeat split; intros *;
    cbn; rewrite ?lookup_empty|by eauto using change_ent_inv].
  destruct Hr as (Hcur & Hev & Huniq & Hgap). cbn in *. split_and!; [done| |].
  - intros id ev r Hid Hr. destruct (Hev id ev Hid) as (_ & _ & cur & Hc & Hle).
    eapply Hgap; [done|lia].
  - intros ctx p service now grant. unfold AuthorizeService. guard H1. guard H2.
    destruct (accounts s !! p) as [a|] eqn:Ha; [|done].
    destruct (entitlements s !! p) as [e|] eqn:He; [|done]. guard H3. guard H4. guard H5.
    intros [= <-]. destruct (Hcur p e He) as (Hp & ev & Hid & Hee).
    exists (e_SourceEventID e), ev. rewrite Hee. split_bools. split_and!; try done.
    + by apply After_spec.
    + match goal with H : _ || _ = true |- _ => apply orb_true_iff in H as [?|?] end;
        split_bools; auto.
    + by exists a.
    + intros id' ev' Hid' Hp'. destruct (Hev id' ev' Hid') as (_ & _ & cur & Hc & Hle).
      rewrite Hp', He in Hc. simplify_eq. done.
Qed.

(** *** The digest of an event commits to the whole update *)

#[global] Instance ServiceEntitlementUpdate_eq_dec : EqDecision ServiceEntitlementUpdate.
Proof. solve_decision. Defined.

Lemma digest_uint64_inj v v' r r' :
  writeDigestUint64 v ++ r = writeDigestUint64 v' ++ r' →
  wrap_u64 v = wrap_u64 v' ∧ r = r'.
Proof.
  unfold writeDigestUint64, wrap_u64. intros H. apply app_inj_1 in H as [H Hr];
    [|by rewrite !be_put_length]. split; [|done].
  apply (f_equal be_get) in H. rewrite !be_get_put in H.
  replace (256 ^ Z.of_nat 8) with (2 ^ 64) in H by reflexivity. done.
Qed.

Lemma digest_string_inj v v' r r' :
  slen v < 2 ^ 64 → slen v' < 2 ^ 64 →
  writeDigestString v ++ r = writeDigestString v' ++ r' → v = v' ∧ r = r'.
Proof.
  unfold writeDigestString. intros Hl Hl'. rewrite <- !app_assoc.
  intros [Hlen H]%digest_uint64_inj.
  assert (0 ≤ slen v ∧ 0 ≤ slen v') as [] by (unfold slen; lia).
  rewrite !wrap_u64_id in Hlen by lia.
  rewrite !slen_bytes_of in Hlen. unfold blen in Hlen.
  apply app_inj_1 in H as [H Hr]; [|lia]. split; [by apply bytes_of_inj|done].
Qed.

Lemma identifier_short v n : ValidIdentifier v n = true → slen v ≤ n.
Proof. unfold ValidIdentifier. destruct (_ || _) eqn:E; [done|]. intros _. split_bools. lia. Qed.

Lemma entitlement_state_short st : ValidEntitlementState st = true → slen st ≤ 9.
Proof.
  unfold ValidEntitlementState, available. rewrite !orb_true_iff, !bool_decide_eq_true.
  intros [ [ [->| ->]| ->]| ->]; by vm_compute.
Qed.

(** The fields of a valid update that the digest has to distinguish. *)
Lemma update_fields u now :
  ValidServiceEntitlementUpdate u now = true →
  slen (p_TenantID (u_Principal u)) < 2 ^ 64 ∧ slen (p_Subject (u_Principal u)) < 2 ^ 64 ∧
  slen (u_SourceEventID u) < 2 ^ 64 ∧ slen (u_PlanID u) < 2 ^ 64 ∧ slen (u_State u) < 2 ^ 64 ∧
  0 ≤ Unix (u_AccessUntil u) < 2 ^ 64 ∧ u_AccessUntil u = from_unix (Unix (u_AccessUntil u)).
Proof.
  unfold ValidServiceEntitlementUpdate, ValidPrincipal, validEntitlementTime.
  destruct (_ || _) eqn:E; [done|]. intros _. split_bools.
  repeat match goal with
  | H : ValidIdentifier _ _ = true |- _ => apply identifier_short in H
  | H : ValidEntitlementState _ = true |- _ => apply entitlement_state_short in H
  | H : (if _ then _ else _) = true |- _ => destruct (_ || _) eqn:?; [done|]
  end. split_bools. split_and!; try lia.
  unfold from_unix, Unix.
  pose proof (Z.div_mod (u_AccessUntil u) second ltac:(unfold second; lia)). lia.
Qed.

Lemma flag_byte_inj (b b' : bool) :
  byte_of (if b then 1 else 0) = byte_of (if b' then 1 else 0) → b = b'.
Proof. by destruct b, b'. Qed.

Lemma entitlement_message_inj u u' now now' :
  ValidServiceEntitlementUpdate u now = true → ValidServiceEntitlementUpdate u' now' = true →
  0 ≤ u_PreviousRevision u → 0 ≤ u_PreviousRevision u' →
  entitlement_message u = entitlement_message u' → u = u'.
Proof.
  intros Hv Hv' Hz Hz'.
  destruct (update_fields _ _ Hv) as (? & ? & ? & ? & ? & Ht & Hu).
  destruct (update_fields _ _ Hv') as (? & ? & ? & ? & ? & Ht' & Hu').
  destruct (update_revision _ _ Hv Hz) as [Hr Hm], (update_revision _ _ Hv' Hz') as [Hr' Hm'].
  unfold maximumAccountRevision, MaximumBindingRevision in *.
  unfold entitlement_message. intros Heq%app_inv_head.
  apply digest_string_inj in Heq as [Q1 Heq]; [|done..].
  apply digest_string_inj in Heq as [Q2 Heq]; [|done..].
  apply digest_string_inj in Heq as [Q3 Heq]; [|done..].
  apply digest_uint64_inj in Heq as [Q4 Heq]. apply digest_uint64_inj in Heq as [Q5 Heq].
  apply digest_string_inj in Heq as [Q6 Heq]; [|done..].
  apply digest_string_inj in Heq as [Q7 Heq]; [|done..].
  apply app_inj_1 in Heq as [Q8 Heq]; [|done]. apply app_inj_1 in Heq as [Q9 Heq]; [|done].
  apply (inj (λ b, [b])), flag_byte_inj in Q8, Q9. rewrite <- (app_nil_r (writeDigestUint64 _)) in Heq.
  rewrite <- (app_nil_r (writeDigestUint64 (wrap_u64 (Unix (u_AccessUntil u'))))) in Heq.
  apply digest_uint64_inj in Heq as [Q10 _].
  rewrite !wrap_u64_id in Q4, Q5 by lia. do 4 rewrite wrap_u64_id in Q10 by (rewrite ?wrap_u64_id; lia).
  destruct u as [ [ ] ], u' as [ [ ] ]. cbn in *. subst. f_equal. congruence.
Qed.

Lemma later_event c c' id ev :
  later c c' → entitlementEvents c.1 !! id = Some ev → entitlementEvents c'.1 !! id = Some ev.
Proof.
  induction 1 as [|c c1 c' [s t t' o Ht Hz] _ IH]; [done|]. intros Hid. apply IH. cbn in *.
  destruct (exec_change s t' o); try done.
  - unfold delete_installation. by case_match.
  - cbn. rewrite lookup_insert_ne; [done|congruence].
Qed.

(** Applying an entitlement event is idempotent and cannot be forged. After an event
    has been applied, at any later point of the run, presenting an update under the
    same event identifier changes nothing: the very same update is answered with the
    entitlement that was recorded, and any update that differs in any field is refused
    as a conflict, provided the two messages do not collide under SHA-256. *)
Theorem entitlement_event_idempotent s t ctx u s1 e s2 t2 now ctx' u' :
  0 ≤ u_PreviousRevision u → 0 ≤ u_PreviousRevision u' →
  ApplyServiceEntitlement s ctx u t = (s1, Ok (e, true)) →
  later (s1, t) (s2, t2) → nil_ctx ctx' = false → ctx_Err ctx' = false →
  ValidServiceEntitlementUpdate u' (TruncateSecond now) = true →
  u_SourceEventID u' = u_SourceEventID u →
  (entitlementUpdateDigest u = entitlementUpdateDigest u' →
   entitlement_message u = entitlement_message u') →
  ApplyServiceEntitlement s2 ctx' u' now =
    (s2, if decide (u' = u) then Ok (e, false) else Err ErrConflict).
Proof.
  intros Hz Hz' Hap Hl Hc He Hv' Hid Hcoll.
  assert (ValidServiceEntitlementUpdate u (TruncateSecond t) = true ∧
    entitlementEvents s1 !! u_SourceEventID u =
      Some {| ev_digest := entitlementUpdateDigest u; ev_entitlement := e |}) as [Hv Hev].
  { revert Hap. unfold ApplyServiceEntitlement. guard H1. guard H2. guard H3.
    apply negb_false_iff in H3. destruct (entitlementEvents s !! _); [destruct (negb _); discriminate|].
    destruct (accounts s !! _); [|discriminate]. guard H4. guard H5. intros [= <- <-].
    split; [done|]. apply lookup_insert_eq. }
  apply (later_event _ _ _ _ Hl) in Hev. cbn in Hev.
  unfold ApplyServiceEntitlement. rewrite Hc, He, Hv', Hid, Hev. cbv zeta. cbn [negb ev_digest].
  case_decide as Hu.
  - subst u'. rewrite bool_decide_true by done. done.
  - rewrite bool_decide_false; [done|]. intros Hd. apply Hu. symmetry.
    by apply (entitlement_message_inj u u' _ _ Hv Hv' Hz Hz'), Hcoll.
Qed.

(** ** Witnesses *)

Definition ex_at (n : Z) : Time := from_unix 1750000000 + n * second.
Definition ex_p : Principal := {| p_TenantID := "t1"; p_Subject := "alice" |}.
Definition ex_session (r : Z) : Session := {| s_Principal := ex_p; s_AccountRevision := r |}.
Definition ex_binding : TokenBinding :=
  {| TokenID := "jti-1"; Subject := "alice"; TenantID := "t1";
     Action := Token.CompanionClaimAction; DeviceID := ""; IssuedAt := 1750000000;
     ExpiresAt := 1750000600 |}.
Definition ex_new : Store :=
  {| maximum := 10; accounts := ∅; tokens := ∅; installations := ∅; entitlements := ∅;
     entitlementEvents := ∅ |}.

(** Calls at the given seconds. *)
Definition execs (s : Store) (ops : list (Z * op)) : Store :=
  fold_left (λ s '(n, o), exec s (ex_at n) o) ops s.

Fixpoint clocked (n : Z) (ops : list (Z * op)) : bool :=
  match ops with
  | [] => true
  | (m, _) :: ops => (n <=? m) && (0 <=? m) && clocked m ops
  end.

Lemma execs_later ops s n :
  clocked n ops = true →
  later (s, ex_at n) (execs s ops, ex_at (from_option fst n (last ops))).
Proof.
  revert s n. induction ops as [|[m o] ops IH]; intros s n Hc; [apply rtc_refl|].
  cbn in Hc. split_bools. eapply rtc_l; [by apply (step_op s (ex_at n) (ex_at m) o);
    unfold ex_at, from_unix, zero_time, second in *; lia|].
  replace (from_option fst n (last ((m, o) :: ops))) with (from_option fst m (last ops)).
  - by apply IH.
  - destruct ops as [|x ops]; [done|]. rewrite last_cons_cons. by destruct (last_is_Some (x :: ops)) as [_ [? ->] ].
Qed.

Lemma account_execs_reach ops n :
  clocked n ops = true → reach (execs ex_new ops, ex_at (from_option fst n (last ops))).
Proof.
  intros Hc. exists (ex_new, ex_at n). split; [by apply (start_new 10)|]. by apply execs_later.
Qed.

Definition ex_login : list (Z * op) :=
  [(0, OBegin CtxLive ex_p); (1, ORegister CtxLive (ex_session 1) ex_binding)].
Definition ex_logged_in : Store := execs ex_new ex_login.
Definition ex_logged_out : Store := (Logout ex_logged_in CtxLive (ex_session 1) (ex_at 2)).1.
Definition ex_after : list (Z * op) :=
  [(3, OBegin CtxLive ex_p); (4, ORegister CtxLive (ex_session 2) ex_binding);
   (5, OSuspend CtxLive ex_p); (6, OResume CtxLive ex_p)].

Lemma ex_logout_ok :
  ∃ a, Logout ex_logged_in CtxLive (ex_session 1) (ex_at 2) = (ex_logged_out, Ok a).
Proof. eexists. vm_compute. reflexivity. Qed.

Lemma revoked_token_stays_inactive_witness :
  Introspect ex_logged_in CtxLive ex_binding (ex_at 1) =
    Ok (Some {| Binding := ex_binding; AccountRevision := 1; ValidUntil := 1750000600 |}) ∧
  Introspect (execs ex_logged_out ex_after) CtxLive ex_binding (ex_at 7) = Ok None.
Proof.
  split; [vm_compute; reflexivity|]. destruct ex_logout_ok as [a Ha].
  apply (revoked_token_stays_inactive ex_logged_in (ex_at 1) (ex_at 2) ex_logged_out ex_binding
    (fresh_token ex_binding 1) (execs ex_logged_out ex_after) (ex_at 6)).
  - apply (account_execs_reach ex_login 0). reflexivity.
  - vm_compute. reflexivity.
  - reflexivity.
  - vm_compute. discriminate.
  - reflexivity.
  - exists CtxLive. left. exists (ex_session 1), a. split; [reflexivity|exact Ha].
  - apply (execs_later ex_after ex_logged_out 2). reflexivity.
  - vm_compute. discriminate.
  - reflexivity.
  - reflexivity.
  - vm_compute. reflexivity.
Defined.

Lemma logout_fences_session_witness :
  session_refused (execs ex_logged_out ex_after) (ex_session 1).
Proof.
  destruct ex_logout_ok as [a Ha].
  apply (logout_fences_session ex_logged_in (ex_at 1) (ex_at 2) CtxLive (ex_session 1)
    ex_logged_out a (execs ex_logged_out ex_after) (ex_at 6)).
  - apply (account_execs_reach ex_login 0). reflexivity.
  - vm_compute. discriminate.
  - reflexivity.
  - exact Ha.
  - apply (execs_later ex_after ex_logged_out 2). reflexivity.
Defined.

(** A suspended account, and the session it was suspended under trying to log it out. *)
Definition ex_suspended : Store :=
  execs ex_new [(0, OBegin CtxLive ex_p); (1, OSuspend CtxLive ex_p)].
Definition ex_frozen : Account :=
  {| a_Principal := ex_p; a_Revision := 2; a_Status := AccountSuspended;
     a_UpdatedAt := ex_at 1 |}.

Lemma suspension_lifted_only_by_resume_witness :
  accounts (exec ex_suspended (ex_at 2) (OLogout CtxLive (ex_session 1))) !! ex_p =
  Some ex_frozen.
Proof.
  apply (suspension_lifted_only_by_resume ex_suspended (ex_at 1) [ex_session 1] ex_p ex_frozen
    _ (ex_at 2) [ex_session 1]).
  - exists (ex_new, ex_at 0). split; [by apply (start_new 10)|].
    eapply rtc_l; [by apply (gstep_op _ _ _ (ex_at 0) _ (OBegin CtxLive ex_p))|].
    eapply rtc_l; [by apply (gstep_op _ _ _ (ex_at 1) _ (OSuspend CtxLive ex_p))|].
    apply rtc_refl.
  - vm_compute. reflexivity.
  - reflexivity.
  - eapply rtc_l; [|apply rtc_refl].
    apply (gstep_op _ _ _ (ex_at 2) _ (OLogout CtxLive (ex_session 1))); try done.
    intros se [= <-]. by apply list_elem_of_singleton.
Defined.

Definition ex_registration (id : Z) : PushInstallationRegistration :=
  {| g_InstallationID := EncodeToString (replicate 16 (byte_of id)); g_Platform := PushPlatformFCM;
     g_Token := {| Ciphertext := replicate 32 (byte_of 1); KeyID := "k1";
                   Digest := replicate 32 (byte_of 7) |} |}.
Definition ex_pushes : list (Z * op) :=
  [(0, OBegin CtxLive ex_p); (1, OUpsert CtxLive (ex_session 1) (ex_registration 1));
   (2, OUpsert CtxLive (ex_session 1) (ex_registration 2))].

(** The second registration has the address of the first and is refused. *)
Lemma push_address_unique_witness :
  Z.of_nat (size (installed (execs ex_new ex_pushes) ex_p)) = 1 ∧
  ∀ p, Z.of_nat (size (installed (execs ex_new ex_pushes) p)) ≤ 16.
Proof.
  split; [vm_compute; reflexivity|].
  apply (push_address_unique (execs ex_new ex_pushes) (ex_at 2)).
  apply (account_execs_reach ex_pushes 0). reflexivity.
Defined.

Definition ex_update (revision : Z) (event : string) : ServiceEntitlementUpdate :=
  {| u_Principal := ex_p; u_SourceEventID := event; u_PreviousRevision := revision - 1;
     u_Revision := revision; u_PlanID := "basic"; u_State := EntitlementActive;
     u_VoiceEnabled := true; u_AgentEnabled := false; u_AccessUntil := ex_at 86400 |}.
Definition ex_subscribed : list (Z * op) :=
  [(0, OBegin CtxLive ex_p); (1, OApply CtxLive (ex_update 1 "e1"));
   (2, OApply CtxLive (ex_update 2 "e2"))].

Lemma entitlement_history_linear_witness :
  ∃ id ev, entitlementEvents (execs ex_new ex_subscribed) !! id = Some ev ∧
    e_Revision (ev_entitlement ev) = 2.
Proof.
  destruct (entitlement_history_linear (execs ex_new ex_subscribed) (ex_at 2))
    as (_ & _ & Hgrant).
  - apply (account_execs_reach ex_subscribed 0). reflexivity.
  - destruct (Hgrant CtxLive ex_p ProductServiceVoice (ex_at 3)
      {| gr_Revision := 2; gr_State := EntitlementActive; gr_ValidUntil := ex_at 86400 |})
      as (id & ev & Hid & _ & Hr & _); [vm_compute; reflexivity|].
    exists id, ev. split; [exact Hid|exact Hr].
Defined.

Definition ex_applied : Store * result error (ServiceEntitlement * bool) :=
  ApplyServiceEntitlement (execs ex_new [(0, OBegin CtxLive ex_p)]) CtxLive
    (ex_update 1 "e1") (ex_at 1).
Definition ex_applied_e : ServiceEntitlement := entitled (ex_update 1 "e1") (ex_at 1).
Definition ex_forged : ServiceEntitlementUpdate :=
  {| u_Principal := ex_p; u_SourceEventID := "e1"; u_PreviousRevision := 0;
     u_Revision := 1; u_PlanID := "basic"; u_State := EntitlementActive;
     u_VoiceEnabled := true; u_AgentEnabled := true; u_AccessUntil := ex_at 86400 |}.

Lemma ex_applied_ok : ex_applied = (ex_applied.1, Ok (ex_applied_e, true)).
Proof. vm_compute. reflexivity. Qed.

Lemma ex_no_collision :
  bool_decide (entitlementUpdateDigest (ex_update 1 "e1") = entitlementUpdateDigest ex_forged) =
  false.
Proof. vm_compute. reflexivity. Qed.

Lemma entitlement_event_idempotent_witness :
  ApplyServiceEntitlement ex_applied.1 CtxLive (ex_update 1 "e1") (ex_at 5) =
    (ex_applied.1, Ok (ex_applied_e, false)) ∧
  ApplyServiceEntitlement ex_applied.1 CtxLive ex_forged (ex_at 5) =
    (ex_applied.1, Err ErrConflict).
Proof.
  split.
  - rewrite (entitlement_event_idempotent (execs ex_new [(0, OBegin CtxLive ex_p)]) (ex_at 1) CtxLive (ex_update 1 "e1") ex_applied.1
      ex_applied_e ex_applied.1 (ex_at 1) (ex_at 5) CtxLive (ex_update 1 "e1"));
      [rewrite decide_True by reflexivity; reflexivity|discriminate|discriminate
      |exact ex_applied_ok|apply rtc_refl|reflexivity|reflexivity|reflexivity|reflexivity|].
    intros _. reflexivity.
  - rewrite (entitlement_event_idempotent (execs ex_new [(0, OBegin CtxLive ex_p)]) (ex_at 1) CtxLive (ex_update 1 "e1") ex_applied.1
      ex_applied_e ex_applied.1 (ex_at 1) (ex_at 5) CtxLive ex_forged);
      [rewrite decide_False by discriminate; reflexivity|discriminate|discriminate
      |exact ex_applied_ok|apply rtc_refl|reflexivity|reflexivity|reflexivity|reflexivity|].
    intros Hd. pose proof ex_no_collision as Hn. apply bool_decide_eq_false in Hn.
    exfalso. exact (Hn Hd).
Defined.

End AccountAuth.
