(* ===== verification/Replay.v ===== *)
(** * Replay: single use of tokens and one connection per device

    Models [internal/gateway/token_replay.go] and [registry.go]: the guard that
    lets every token identifier be used once, and the registry of connected
    devices. Both are maps behind a mutex; every method is one step. *)

From stdpp Require Import base gmap strings list pretty.
From Stdlib Require Import ZArith Lia.
From Stdlib.Strings Require Import Byte.
From S2P Require Import Prelude GoBase Protocol Auth.

Module Replay.
Import Ident Token.

Definition tokenReplayRetentionSeconds : Z := 60.

Record tokenReplayGuard : Type := {
  used : gmap string Z;
  capacity : Z;
}.

Definition newTokenReplayGuard (capacity : Z) : tokenReplayGuard :=
  {| used := ∅; capacity := if capacity <? 1024 then 1024 else capacity |}.

Definition replay_key (scope : string) (claims : Claims) : string :=
  scope +:+ nul +:+ TokenID claims.

Definition consume (guard : tokenReplayGuard) (now : Time) (claims : Claims) :
    tokenReplayGuard * bool :=
  IF bool_decide (TokenID claims = "") RETURN (guard, false) ;;
  match OwnedDeviceScope claims with
  | None => (guard, false)
  | Some scope =>
      let now := Unix now in
      let key := replay_key scope claims in
      let kept := map_keep (λ _ expires, negb (expires <=? now)) (used guard) in
      if negb (bool_decide (kept !! key = None)) || (capacity guard <=? Z.of_nat (size kept))
      then ({| used := kept; capacity := capacity guard |}, false)
      else ({| used := <[key := Expires claims +i tokenReplayRetentionSeconds]> kept;
               capacity := capacity guard |}, true)
  end.

(** A history: presentations of tokens with the clock reading of each. *)
Definition run (guard : tokenReplayGuard) (events : list (Time * Claims)) : tokenReplayGuard :=
  fold_left (λ g e, (consume g e.1 e.2).1) events guard.

(** ** The registry of connected devices *)

Record registry : Type := {
  devices : gset string;
  limit : Z;
}.

Definition newRegistry (limit : Z) : registry := {| devices := ∅; limit := limit |}.

Definition acquire (r : registry) (deviceID : string) : registry * bool :=
  IF bool_decide (deviceID ∈ devices r)
     || ((0 <? limit r) && (limit r <=? Z.of_nat (size (devices r))))
    RETURN (r, false) ;;
  ({| devices := {[deviceID]} ∪ devices r; limit := limit r |}, true).

Definition release (r : registry) (deviceID : string) : registry :=
  {| devices := devices r ∖ {[deviceID]}; limit := limit r |}.

(** ** Lemmas *)

Definition no_nul (bs : bytes) : Prop := Forall (λ b, bval b ≠ 0) bs.

Lemma identifier_no_nul s max : ValidIdentifier s max = true → no_nul (bytes_of s).
Proof.
  intros (Hf & _ & _)%ValidIdentifier_bytes. eapply Forall_impl; [exact Hf|].
  intros b Hb Hz. unfold identifier_byte in Hb. rewrite Hz in Hb. done.
Qed.

(** The part before the first separator, and the part after the last. *)
Lemma nul_split_left a a' b b' :
  no_nul a → no_nul a' → a ++ byte_of 0 :: b = a' ++ byte_of 0 :: b' → a = a' ∧ b = b'.
Proof.
  intros Ha. revert a'. induction Ha as [|x a Hx _ IH]; intros a' Ha' Heq.
  - destruct Ha' as [|y a' Hy _]; cbn in Heq; [by simplify_eq|].
    injection Heq as <- _. by rewrite bval_byte_of in Hy.
  - destruct Ha' as [|y a' Hy Ha']; cbn in Heq; injection Heq as E Heq.
    + subst x. by rewrite bval_byte_of in Hx.
    + subst y. destruct (IH a' Ha' Heq) as [-> ->]. done.
Qed.

Lemma nul_split_right a a' b b' :
  no_nul b → no_nul b' → a ++ byte_of 0 :: b = a' ++ byte_of 0 :: b' → a = a' ∧ b = b'.
Proof.
  intros Hb Hb' Heq. apply (f_equal reverse) in Heq.
  rewrite !reverse_app, !reverse_cons, <- !app_assoc in Heq. cbn [app] in Heq.
  apply nul_split_left in Heq as [E1 E2]; [|by apply Forall_reverse..].
  by apply (inj reverse) in E1, E2.
Qed.

Lemma OwnedDeviceScope_Some claims scope :
  OwnedDeviceScope claims = Some scope →
  ValidIdentifier (DeviceID claims) maxDeviceID = true ∧ ValidBindingID (BindingID claims) = true ∧
  scope = BindingID claims +:+ nul +:+ FormatInt (BindingRevision claims) +:+ nul +:+
          DeviceID claims.
Proof. unfold OwnedDeviceScope. case_match; [done|]. split_bools. by intros [= <-]. Qed.

Lemma binding_no_nul bid : ValidBindingID bid = true → no_nul (bytes_of bid).
Proof.
  intros (bs & _ & ->)%canonical_b64_iff. eapply Forall_impl; [apply encoded_bytes|].
  intros b [Hb _] Hz. unfold identifier_byte in Hb. rewrite Hz in Hb. done.
Qed.

(** The replay key identifies the token: two tokens with the same key have the
    same binding, the same binding revision, the same device and the same token
    identifier, so no device can use up or block the tokens of another. *)
Theorem replay_key_injective c1 c2 s1 s2 :
  OwnedDeviceScope c1 = Some s1 → OwnedDeviceScope c2 = Some s2 →
  ValidIdentifier (TokenID c1) 128 = true → ValidIdentifier (TokenID c2) 128 = true →
  replay_key s1 c1 = replay_key s2 c2 →
  BindingID c1 = BindingID c2 ∧ BindingRevision c1 = BindingRevision c2 ∧
  DeviceID c1 = DeviceID c2 ∧ TokenID c1 = TokenID c2.
Proof.
  intros (Hd1 & Hb1 & ->)%OwnedDeviceScope_Some (Hd2 & Hb2 & ->)%OwnedDeviceScope_Some
    Ht1%identifier_no_nul Ht2%identifier_no_nul Heq.
  apply identifier_no_nul in Hd1, Hd2. apply binding_no_nul in Hb1, Hb2.
  apply (f_equal bytes_of) in Heq. unfold replay_key in Heq. rewrite !bytes_of_app in Heq.
  change (bytes_of nul) with [byte_of 0] in Heq. cbn [app] in Heq.
  apply nul_split_right in Heq as [Heq Etok%bytes_of_inj]; [|done..].
  apply nul_split_left in Heq as [Ebid%bytes_of_inj Heq]; [|done..].
  apply nul_split_right in Heq as [Erev%bytes_of_inj Edev%bytes_of_inj]; [|done..].
  split_and!; try done. by apply (inj pretty) in Erev.
Qed.

Definition remembers (guard : tokenReplayGuard) (key : string) (until : Z) : Prop :=
  used guard !! key = Some until.

(** An entry survives every presentation before its time. *)
Lemma consume_remembers guard now claims key until :
  remembers guard key until → Unix now < until →
  remembers (consume guard now claims).1 key until.
Proof.
  unfold remembers, consume. intros Hr Hnow. destruct (bool_decide _); [done|].
  destruct (OwnedDeviceScope claims) as [scope|]; [|done]. cbv zeta.
  assert (map_keep (λ _ expires, negb (expires <=? Unix now)) (used guard) !! key = Some until)
    as Hkeep.
  { apply map_keep_Some. split; [done|]. apply negb_true_iff, Z.leb_gt. lia. }
  destruct (_ || _) eqn:Hg; [done|]. cbn. split_bools.
  rewrite lookup_insert_ne; [done|]. intros <-. congruence.
Qed.

Lemma run_remembers guard events key until :
  remembers guard key until → Forall (λ e, Unix e.1 < until) events →
  remembers (run guard events) key until.
Proof.
  unfold run. intros Hr Hf. revert guard Hr.
  induction Hf as [|e events He _ IH]; intros guard Hr; [done|].
  cbn [fold_left]. apply IH. by apply consume_remembers.
Qed.

Lemma consume_refuses guard now claims scope until :
  OwnedDeviceScope claims = Some scope → remembers guard (replay_key scope claims) until →
  Unix now < until → (consume guard now claims).2 = false.
Proof.
  unfold remembers, consume. intros Hs Hr Hnow. destruct (bool_decide _); [done|]. rewrite Hs.
  cbv zeta. rewrite (bool_decide_false (map_keep _ _ !! _ = None)); [done|].
  assert (map_keep (λ _ expires, negb (expires <=? Unix now)) (used guard)
    !! replay_key scope claims = Some until) as ->; [|done].
  apply map_keep_Some. split; [done|]. apply negb_true_iff, Z.leb_gt. lia.
Qed.

Lemma consume_accepts guard now claims :
  (consume guard now claims).2 = true →
  ∃ scope, OwnedDeviceScope claims = Some scope ∧
    remembers (consume guard now claims).1 (replay_key scope claims)
      (Expires claims +i tokenReplayRetentionSeconds).
Proof.
  unfold consume, remembers. destruct (bool_decide _); [done|].
  destruct (OwnedDeviceScope claims) as [scope|]; [|done]. cbv zeta.
  destruct (_ || _); [done|]. intros _. exists scope. split; [done|]. apply lookup_insert_eq.
Qed.

(** A token is accepted at most once while it can be verified: after it was
    consumed, and whatever other tokens are presented in between, it is refused
    as long as the verifier would still accept it, that is until 30 seconds of
    skew after its expiry. *)
Theorem token_used_once guard t1 t2 events claims :
  (consume guard t1 claims).2 = true →
  Forall (λ e, Unix e.1 ≤ Unix t2) events →
  0 ≤ Expires claims ≤ 2 ^ 40 → Unix t2 - 30 < Expires claims →
  (consume (run (consume guard t1 claims).1 events) t2 claims).2 = false.
Proof.
  intros (scope & Hs & Hr)%consume_accepts Hev Hexp Hlive.
  assert (2 ^ 40 = 1099511627776) by done. unfold tokenReplayRetentionSeconds in *. no_wrap.
  eapply consume_refuses; [done| |].
  - apply run_remembers; [exact Hr|]. eapply Forall_impl; [exact Hev|]. cbn. intros e He. lia.
  - lia.
Qed.

(** The guard holds at most [capacity] entries. *)
Lemma consume_bounded guard now claims :
  Z.of_nat (size (used guard)) ≤ capacity guard →
  Z.of_nat (size (used (consume guard now claims).1)) ≤ capacity (consume guard now claims).1 ∧
  capacity (consume guard now claims).1 = capacity guard.
Proof.
  intros Hc. unfold consume. destruct (bool_decide _); [done|].
  destruct (OwnedDeviceScope claims) as [scope|]; [|done]. cbv zeta.
  pose proof (map_keep_size (λ _ expires, negb (expires <=? Unix now)) (used guard)).
  destruct (_ || _) eqn:Hg; cbn; [split; [lia|done]|]. split_bools.
  rewrite map_size_insert_None by done. split; [lia|done].
Qed.

(** Connected devices stay within a positive limit, and a connected device cannot
    connect again before it is released. *)
Definition registry_ok (r : registry) : Prop :=
  0 < limit r → Z.of_nat (size (devices r)) ≤ limit r.

Lemma acquire_ok r d :
  registry_ok r → registry_ok (acquire r d).1 ∧ limit (acquire r d).1 = limit r ∧
  ((acquire r d).2 = true → (d ∉ devices r) ∧ d ∈ devices (acquire r d).1).
Proof.
  unfold registry_ok, acquire. intros Hs. destruct (_ || _) eqn:Hg; [done|]. cbn.
  apply orb_false_iff in Hg as [Hd Hl]. split_bools. split_and!; [|done|set_solver].
  intros Hpos. rewrite size_union, size_singleton by set_solver.
  apply andb_false_iff in Hl as [?|?]; split_bools; lia.
Qed.

Lemma release_ok r d : registry_ok r → registry_ok (release r d) ∧ d ∉ devices (release r d).
Proof.
  unfold registry_ok, release. intros Hs. cbn. split; [|set_solver]. intros Hpos.
  pose proof (subseteq_size (devices r ∖ {[d]}) (devices r) ltac:(set_solver)). lia.
Qed.

(** ** Witnesses *)

Lemma replay_key_injective_witness :
  ∃ s, OwnedDeviceScope ex_claims = Some s ∧
    BindingID ex_claims = BindingID ex_claims ∧ TokenID ex_claims = TokenID ex_claims.
Proof.
  destruct (OwnedDeviceScope ex_claims) as [s|] eqn:Hs; [|vm_compute in Hs; discriminate Hs].
  destruct (replay_key_injective ex_claims ex_claims s s) as (Hb & _ & _ & Ht);
    [exact Hs|exact Hs|vm_compute; reflexivity..|reflexivity|].
  exists s. split; [reflexivity|]. split; [exact Hb|exact Ht].
Defined.

Lemma token_used_once_witness :
  let guard := newTokenReplayGuard 0 in
  (consume guard ex_now ex_claims).2 = true ∧
  (consume (run (consume guard ex_now ex_claims).1 [(ex_now, with_key ex_claims "")])
     (ex_now + minute) ex_claims).2 = false.
Proof.
  cbv zeta. split; [vm_compute; reflexivity|].
  apply token_used_once; [vm_compute; reflexivity| |split; by vm_compute|by vm_compute].
  repeat constructor; by vm_compute.
Defined.

End Replay.
