(* ===== verification/ActionConsent.v ===== *)
(** * ActionConsent: one exact consent per action

    Models [internal/actionconsent]: the store of challenges with its four
    consent operations and the wake outbox ([store.go], [wake.go]) and the
    notifier that drains the outbox ([notifier.go]). The store's maps are behind
    one mutex; every method is one step, the clock is an argument. The provider's
    answer to a wake is an input of [RunOnce]. *)

From stdpp Require Import base gmap strings list fin_maps.
From Stdlib Require Import ZArith Lia.
From Stdlib.Strings Require Import Byte.
From S2P Require Import Prelude GoBase Protocol Auth.

Module ActionConsent.
Import Ident.

Definition MaximumLifetime : Duration := 30 * second.
Definition MaximumWakeLease : Duration := 10 * second.
Definition MaximumWakeRetry : Duration := 5 * second.
Definition minimumWakeLease : Duration := 100 * millisecond.
Definition maximumWakeAttempts : Z := 100000.
Definition DecisionApprove : string := "approve".
Definition DecisionDeny : string := "deny".

Inductive error : Type :=
| ErrInvalid
| ErrReplay
| ErrCapacity
| ErrConflict
| ErrNotFound
| ErrExpired
| ErrPending
| ErrUnavailable.

#[global] Instance error_eq_dec : EqDecision error.
Proof. solve_decision. Defined.

Record Action : Type := { IndicatorOn : bool }.
#[global] Instance Action_eq_dec : EqDecision Action.
Proof. solve_decision. Defined.

Record Challenge : Type := {
  ChallengeID : string;
  DeviceID : string;
  OwnerID : string;
  TenantID : string;
  OwnerRevision : Z;
  SessionID : string;
  RequestID : Z;
  ChallengeAction : Action;
  ExpiresAt : Time;
}.

Record Request : Type := {
  q_ChallengeID : string;
  q_DeviceID : string;
  q_OwnerRevision : Z;
  q_SessionID : string;
  q_RequestID : Z;
  q_Action : Action;
  q_Decision : string;
}.

Record DeviceRequest : Type := {
  d_ChallengeID : string;
  d_DeviceID : string;
  d_OwnerRevision : Z;
  d_SessionID : string;
  d_RequestID : Z;
  d_Action : Action;
}.

Record Actor : Type := {
  a_OwnerID : string;
  a_TenantID : string;
  a_DeviceID : string;
  a_OwnerRevision : Z;
}.

(** [Record] of the source and [storedRecord] have the same fields. *)
Record storedRecord : Type := {
  challenge : Challenge;
  decision : string;
  decidedAt : Time;
  consumedAt : Time;
}.

Record Wake : Type := {
  WakeID : string;
  Target : Actor;
  WakeExpiresAt : Time;
  Attempts : Z;
}.

Record storedWake : Type := {
  wake : Wake;
  availableAt : Time;
  claimedBy : string;
  leaseUntil : Time;
}.

Record Store : Type := {
  maxRecords : Z;
  records : gmap string storedRecord;
  wakes : gmap string storedWake;
}.

Definition set_records (store : Store) rs : Store :=
  {| maxRecords := maxRecords store; records := rs; wakes := wakes store |}.
Definition set_wakes (store : Store) ws : Store :=
  {| maxRecords := maxRecords store; records := records store; wakes := ws |}.

Definition NewStore (maxRecords : Z) : result error Store :=
  IF (maxRecords <? 1) || (100000 <? maxRecords) RETURN Err ErrInvalid ;;
  Ok {| maxRecords := maxRecords; records := ∅; wakes := ∅ |}.

Definition ValidChallengeID (value : string) : bool := canonical_b64 value 16.

Definition ValidChallenge (c : Challenge) (now : Time) : bool :=
  IF IsZero now || negb (ValidChallengeID (ChallengeID c))
     || negb (ValidIdentifier (DeviceID c) 64) || negb (ValidIdentifier (OwnerID c) 128)
     || negb (ValidIdentifier (TenantID c) 128) || negb (ValidBindingRevision (OwnerRevision c))
     || negb (ValidIdentifier (SessionID c) 64) || (RequestID c =? 0) || IsZero (ExpiresAt c)
    RETURN false ;;
  let lifetime := Sub (ExpiresAt c) now in
  (0 <? lifetime) && (lifetime <=? MaximumLifetime).

Definition validDecision (d : string) : bool :=
  bool_decide (d = DecisionApprove) || bool_decide (d = DecisionDeny).

Definition validActor (actor : Actor) : bool :=
  ValidIdentifier (a_OwnerID actor) 128 && ValidIdentifier (a_TenantID actor) 128
  && ValidIdentifier (a_DeviceID actor) 64 && ValidBindingRevision (a_OwnerRevision actor).

Definition validWakeWorker (workerID : string) : bool := ValidIdentifier workerID 64.
Definition validWakeLease (lease : Duration) : bool :=
  (minimumWakeLease <=? lease) && (lease <=? MaximumWakeLease).
Definition validWakeRetry (retryAfter : Duration) : bool :=
  (0 <=? retryAfter) && (retryAfter <=? MaximumWakeRetry).

Definition wakeFromChallenge (c : Challenge) : Wake :=
  {| WakeID := ChallengeID c;
     Target := {| a_OwnerID := OwnerID c; a_TenantID := TenantID c; a_DeviceID := DeviceID c;
                  a_OwnerRevision := OwnerRevision c |};
     WakeExpiresAt := ExpiresAt c; Attempts := 0 |}.

Definition same_request (c c' : Challenge) : bool :=
  bool_decide (DeviceID c = DeviceID c') && bool_decide (SessionID c = SessionID c')
  && (RequestID c =? RequestID c').

(** The loop over the records only looks for one with the same request, so its
    order does not matter. *)
Definition Register (store : Store) (c : Challenge) (now : Time) : Store * result error unit :=
  IF negb (ValidChallenge c now) RETURN (store, Err ErrInvalid) ;;
  match records store !! ChallengeID c with
  | Some _ => (store, Err ErrConflict)
  | None =>
      IF existsb (λ e, same_request (challenge e.2) c) (map_to_list (records store))
        RETURN (store, Err ErrConflict) ;;
      IF maxRecords store <=? Z.of_nat (size (records store)) RETURN (store, Err ErrCapacity) ;;
      ({| maxRecords := maxRecords store;
          records := <[ChallengeID c := {| challenge := c; decision := "";
                         decidedAt := zero_time; consumedAt := zero_time |}]> (records store);
          wakes := <[ChallengeID c := {| wake := wakeFromChallenge c; availableAt := now;
                       claimedBy := ""; leaseUntil := zero_time |}]> (wakes store) |},
       Ok tt)
  end.

(** *** The wake outbox *)

(** [candidate] comes before [selected]: an earlier expiry, then a smaller name. *)
Definition precedes (candidate selected : storedWake) : bool :=
  Before (WakeExpiresAt (wake candidate)) (WakeExpiresAt (wake selected))
  || ((WakeExpiresAt (wake candidate) =? WakeExpiresAt (wake selected))
      && str_ltb (WakeID (wake candidate)) (WakeID (wake selected))).

(** A wake whose challenge is gone, decided or expired is dropped. *)
Definition live (now : Time) (rs : gmap string storedRecord) (wakeID : string)
    (candidate : storedWake) : bool :=
  match rs !! wakeID with
  | None => false
  | Some r => bool_decide (decision r = "") && After (WakeExpiresAt (wake candidate)) now
  end.

Definition claimable (now : Time) (candidate : storedWake) : bool :=
  negb (After (availableAt candidate) now
        || (negb (bool_decide (claimedBy candidate = "")) && After (leaseUntil candidate) now)).

(** One round of the loop of [ClaimWake]. *)
Definition scan_one (now : Time) (rs : gmap string storedRecord)
    (acc : gmap string storedWake * option storedWake) (entry : string * storedWake) :
    gmap string storedWake * option storedWake :=
  let '(ws, selected) := acc in
  let '(wakeID, candidate) := entry in
  IF negb (live now rs wakeID candidate) RETURN (delete wakeID ws, selected) ;;
  IF negb (claimable now candidate) RETURN (ws, selected) ;;
  (ws, match selected with
       | None => Some candidate
       | Some s => if precedes candidate s then Some candidate else Some s
       end).

Definition scan_along (now : Time) (rs : gmap string storedRecord)
    (order : list (string * storedWake)) (ws : gmap string storedWake) :
    gmap string storedWake * option storedWake :=
  fold_left (scan_one now rs) order (ws, None).

(** [order] is the order in which the map is iterated. *)
Definition ClaimWake_along (order : list (string * storedWake)) (store : Store)
    (workerID : string) (now : Time) (lease : Duration) : Store * result error (option Wake) :=
  IF IsZero now || negb (validWakeWorker workerID) || negb (validWakeLease lease)
    RETURN (store, Err ErrInvalid) ;;
  match scan_along now (records store) order (wakes store) with
  | (ws, None) => (set_wakes store ws, Ok None)
  | (ws, Some s) =>
      IF maximumWakeAttempts <=? Attempts (wake s)
        RETURN (set_wakes store (delete (WakeID (wake s)) ws), Ok None) ;;
      let w := {| WakeID := WakeID (wake s); Target := Target (wake s);
                  WakeExpiresAt := WakeExpiresAt (wake s);
                  Attempts := wrap_u32 (Attempts (wake s) + 1) |} in
      (set_wakes store
         (<[WakeID (wake s) := {| wake := w; availableAt := availableAt s;
                                  claimedBy := workerID; leaseUntil := now + lease |}]> ws),
       Ok (Some w))
  end.

Definition ClaimWake (store : Store) (workerID : string) (now : Time) (lease : Duration) :
    Store * result error (option Wake) :=
  ClaimWake_along (map_to_list (wakes store)) store workerID now lease.

Definition AcknowledgeWake (store : Store) (workerID wakeID : string) (now : Time) :
    Store * result error unit :=
  IF IsZero now || negb (validWakeWorker workerID) || negb (ValidChallengeID wakeID)
    RETURN (store, Err ErrInvalid) ;;
  match wakes store !! wakeID with
  | None => (store, Err ErrNotFound)
  | Some w =>
      IF negb (After (WakeExpiresAt (wake w)) now)
        RETURN (set_wakes store (delete wakeID (wakes store)), Err ErrExpired) ;;
      IF negb (bool_decide (claimedBy w = workerID)) || negb (After (leaseUntil w) now)
        RETURN (store, Err ErrConflict) ;;
      (set_wakes store (delete wakeID (wakes store)), Ok tt)
  end.

Definition RetryWake (store : Store) (workerID wakeID : string) (now : Time)
    (retryAfter : Duration) : Store * result error unit :=
  IF IsZero now || negb (validWakeWorker workerID) || negb (ValidChallengeID wakeID)
     || negb (validWakeRetry retryAfter)
    RETURN (store, Err ErrInvalid) ;;
  match wakes store !! wakeID with
  | None => (store, Err ErrNotFound)
  | Some w =>
      IF negb (bool_decide (claimedBy w = workerID)) || negb (After (leaseUntil w) now)
        RETURN (store, Err ErrConflict) ;;
      let available := now + retryAfter in
      IF negb (After (WakeExpiresAt (wake w)) available)
        RETURN (set_wakes store (delete wakeID (wakes store)), Err ErrExpired) ;;
      (set_wakes store
         (<[wakeID := {| wake := wake w; availableAt := available; claimedBy := "";
                         leaseUntil := zero_time |}]> (wakes store)), Ok tt)
  end.

(** *** Consent *)

Definition pending_for (actor : Actor) (now : Time) (candidate : storedRecord) : bool :=
  let c := challenge candidate in
  bool_decide (decision candidate = "") && IsZero (consumedAt candidate)
  && After (ExpiresAt c) now && bool_decide (OwnerID c = a_OwnerID actor)
  && bool_decide (TenantID c = a_TenantID actor) && bool_decide (DeviceID c = a_DeviceID actor)
  && (OwnerRevision c =? a_OwnerRevision actor).

Definition older (c s : Challenge) : bool :=
  Before (ExpiresAt c) (ExpiresAt s)
  || ((ExpiresAt c =? ExpiresAt s) && str_ltb (ChallengeID c) (ChallengeID s)).

Definition pending_one (actor : Actor) (now : Time) (selected : option Challenge)
    (entry : string * storedRecord) : option Challenge :=
  if pending_for actor now entry.2 then
    match selected with
    | None => Some (challenge entry.2)
    | Some s => if older (challenge entry.2) s then Some (challenge entry.2) else Some s
    end
  else selected.

Definition Pending (store : Store) (actor : Actor) (now : Time) :
    result error (option storedRecord) :=
  IF IsZero now || negb (validActor actor) RETURN Err ErrInvalid ;;
  Ok (match fold_left (pending_one actor now) (map_to_list (records store)) None with
      | None => None
      | Some c => Some {| challenge := c; decision := ""; decidedAt := zero_time;
                          consumedAt := zero_time |}
      end).

Definition Decide (store : Store) (actor : Actor) (request : Request) (now : Time) :
    Store * result error storedRecord :=
  IF IsZero now || negb (ValidIdentifier (a_OwnerID actor) 128)
     || negb (ValidIdentifier (a_TenantID actor) 128) || negb (ValidIdentifier (a_DeviceID actor) 64)
     || negb (ValidBindingRevision (a_OwnerRevision actor))
     || negb (ValidChallengeID (q_ChallengeID request))
     || negb (ValidIdentifier (q_DeviceID request) 64)
     || negb (ValidBindingRevision (q_OwnerRevision request))
     || negb (ValidIdentifier (q_SessionID request) 64) || (q_RequestID request =? 0)
     || negb (validDecision (q_Decision request))
    RETURN (store, Err ErrInvalid) ;;
  match records store !! q_ChallengeID request with
  | None => (store, Err ErrNotFound)
  | Some record =>
      IF negb (bool_decide (decision record = "")) RETURN (store, Err ErrReplay) ;;
      IF negb (After (ExpiresAt (challenge record)) now) RETURN (store, Err ErrExpired) ;;
      let c := challenge record in
      IF negb (bool_decide (a_OwnerID actor = OwnerID c))
         || negb (bool_decide (a_TenantID actor = TenantID c))
         || negb (bool_decide (a_DeviceID actor = DeviceID c))
         || negb (a_OwnerRevision actor =? OwnerRevision c)
         || negb (bool_decide (q_DeviceID request = DeviceID c))
         || negb (q_OwnerRevision request =? OwnerRevision c)
         || negb (bool_decide (q_SessionID request = SessionID c))
         || negb (q_RequestID request =? RequestID c)
         || negb (bool_decide (q_Action request = ChallengeAction c))
        RETURN (store, Err ErrConflict) ;;
      let record' := {| challenge := c; decision := q_Decision request; decidedAt := now;
                        consumedAt := consumedAt record |} in
      (set_records store (<[q_ChallengeID request := record']> (records store)), Ok record')
  end.

Definition Consume (store : Store) (request : DeviceRequest) (now : Time) :
    Store * result error storedRecord :=
  IF IsZero now || negb (ValidChallengeID (d_ChallengeID request))
     || negb (ValidIdentifier (d_DeviceID request) 64)
     || negb (ValidBindingRevision (d_OwnerRevision request))
     || negb (ValidIdentifier (d_SessionID request) 64) || (d_RequestID request =? 0)
    RETURN (store, Err ErrInvalid) ;;
  match records store !! d_ChallengeID request with
  | None => (store, Err ErrNotFound)
  | Some record =>
      IF negb (After (ExpiresAt (challenge record)) now) RETURN (store, Err ErrExpired) ;;
      IF negb (IsZero (consumedAt record)) RETURN (store, Err ErrReplay) ;;
      let c := challenge record in
      IF negb (bool_decide (d_DeviceID request = DeviceID c))
         || negb (d_OwnerRevision request =? OwnerRevision c)
         || negb (bool_decide (d_SessionID request = SessionID c))
         || negb (d_RequestID request =? RequestID c)
         || negb (bool_decide (d_Action request = ChallengeAction c))
        RETURN (store, Err ErrConflict) ;;
      IF bool_decide (decision record = "") RETURN (store, Err ErrPending) ;;
      let record' := {| challenge := c; decision := decision record;
                        decidedAt := decidedAt record; consumedAt := now |} in
      (set_records store (<[d_ChallengeID request := record']> (records store)), Ok record')
  end.

(** *** The notifier *)

Inductive WakeSendDisposition : Type :=
| WakeSendAccepted
| WakeSendNoInstallation
| WakeSendRetry
| WakeSendOther.

Inductive WakeRunResult : Type :=
| WakeRunIdle
| WakeRunAccepted
| WakeRunNoInstallation
| WakeRunRetried
| WakeRunExpired.

Record WakeNotifier : Type := {
  workerID : string;
  n_lease : Duration;
  n_retryAfter : Duration;
}.

Definition NewWakeNotifier (workerID : string) (lease retryAfter : Duration) :
    result error WakeNotifier :=
  IF negb (validWakeWorker workerID) || negb (validWakeLease lease)
     || negb (validWakeRetry retryAfter)
    RETURN Err ErrInvalid ;;
  Ok {| workerID := workerID; n_lease := lease; n_retryAfter := retryAfter |}.

(** [disposition] and [sendErr] are the provider's answer; [t1] and [t2] the clock
    before and after the send. Between the two calls on the store other requests
    may run: [between] is what they do. The last component is the error. *)
Definition RunOnce (n : WakeNotifier) (t1 t2 : Time) (disposition : WakeSendDisposition)
    (sendErr : bool) (between : Store → Store) (store : Store) :
    Store * WakeRunResult * option error :=
  let '(store, claimed) := ClaimWake store (workerID n) t1 (n_lease n) in
  match claimed with
  | Err e => (store, WakeRunIdle, Some e)
  | Ok None => (store, WakeRunIdle, None)
  | Ok (Some w) =>
      let store := between store in
      let acknowledge :=
        match disposition with
        | WakeSendAccepted | WakeSendNoInstallation => negb sendErr
        | _ => false
        end in
      if acknowledge then
        let '(store, r) := AcknowledgeWake store (workerID n) (WakeID w) t2 in
        match r with
        | Err e => (store, WakeRunIdle, Some e)
        | Ok _ =>
            (store, match disposition with
                    | WakeSendAccepted => WakeRunAccepted
                    | _ => WakeRunNoInstallation
                    end, None)
        end
      else
        let '(store, r) := RetryWake store (workerID n) (WakeID w) t2 (n_retryAfter n) in
        match r with
        | Err ErrExpired => (store, WakeRunExpired, None)
        | Err e => (store, WakeRunIdle, Some e)
        | Ok _ => (store, WakeRunRetried, Some ErrUnavailable)
        end
  end.

(** ** Histories

    The operations a store serves, each with the clock reading of its call. *)

Inductive op : Type :=
| ORegister (c : Challenge) (now : Time)
| ODecide (actor : Actor) (request : Request) (now : Time)
| OConsume (request : DeviceRequest) (now : Time)
| OClaim (worker : string) (now : Time) (lease : Duration)
| OAcknowledge (worker wakeID : string) (now : Time)
| ORetry (worker wakeID : string) (now : Time) (retryAfter : Duration).

(** The store after an operation, and whether it succeeded. *)
Definition exec (s : Store) (o : op) : Store * bool :=
  match o with
  | ORegister c now => let '(s, r) := Register s c now in (s, is_ok r)
  | ODecide actor q now => let '(s, r) := Decide s actor q now in (s, is_ok r)
  | OConsume q now => let '(s, r) := Consume s q now in (s, is_ok r)
  | OClaim w now lease => let '(s, r) := ClaimWake s w now lease in (s, is_ok r)
  | OAcknowledge w id now => let '(s, r) := AcknowledgeWake s w id now in (s, is_ok r)
  | ORetry w id now after => let '(s, r) := RetryWake s w id now after in (s, is_ok r)
  end.

(** [reach s h]: [s] is reached from a new store and [h] are the operations that
    succeeded on the way, the latest first. *)
Inductive reach : Store → list op → Prop :=
| reach_init m s : NewStore m = Ok s → reach s []
| reach_exec s h o s' ok :
    reach s h → exec s o = (s', ok) → reach s' (if ok then o :: h else h).

Definition registers (id : string) (o : op) : bool :=
  match o with ORegister c _ => bool_decide (ChallengeID c = id) | _ => false end.
Definition decides (id : string) (o : op) : bool :=
  match o with ODecide _ q _ => bool_decide (q_ChallengeID q = id) | _ => false end.
Definition consumes (id : string) (o : op) : bool :=
  match o with OConsume q _ => bool_decide (d_ChallengeID q = id) | _ => false end.

(** The successful operations of one kind on the challenge [id]. *)
Definition those (p : string → op → bool) (id : string) (h : list op) : list op :=
  List.filter (p id) h.

(** The answer [q] of [actor] at [now] is the owner's answer to exactly [c]. *)
Definition answers (c : Challenge) (actor : Actor) (q : Request) (now : Time) : Prop :=
  actor = {| a_OwnerID := OwnerID c; a_TenantID := TenantID c; a_DeviceID := DeviceID c;
             a_OwnerRevision := OwnerRevision c |} ∧
  q_ChallengeID q = ChallengeID c ∧ q_DeviceID q = DeviceID c ∧
  q_OwnerRevision q = OwnerRevision c ∧ q_SessionID q = SessionID c ∧
  q_RequestID q = RequestID c ∧ q_Action q = ChallengeAction c ∧
  (q_Decision q = DecisionApprove ∨ q_Decision q = DecisionDeny) ∧ now < ExpiresAt c.

(** The request [q] of the device at [now] is for exactly [c]. *)
Definition asks_for (c : Challenge) (q : DeviceRequest) (now : Time) : Prop :=
  q = {| d_ChallengeID := ChallengeID c; d_DeviceID := DeviceID c;
         d_OwnerRevision := OwnerRevision c; d_SessionID := SessionID c;
         d_RequestID := RequestID c; d_Action := ChallengeAction c |} ∧
  now < ExpiresAt c.

(** What the history says of one record. *)
Definition recorded (h : list op) (id : string) (r : storedRecord) : Prop :=
  ChallengeID (challenge r) = id ∧
  (∃ t0, those registers id h = [ORegister (challenge r) t0] ∧
         0 < ExpiresAt (challenge r) - t0 ≤ MaximumLifetime) ∧
  (decision r = "" ∧ those decides id h = [] ∨
   decision r ≠ "" ∧
   ∃ actor q, those decides id h = [ODecide actor q (decidedAt r)] ∧
     answers (challenge r) actor q (decidedAt r) ∧ q_Decision q = decision r) ∧
  (consumedAt r = zero_time ∧ those consumes id h = [] ∨
   consumedAt r ≠ zero_time ∧ decision r ≠ "" ∧
   ∃ q, those consumes id h = [OConsume q (consumedAt r)] ∧
     asks_for (challenge r) q (consumedAt r)).

Definition history_inv (s : Store) (h : list op) : Prop :=
  ∀ id, match records s !! id with
        | None => those registers id h = [] ∧ those decides id h = [] ∧ those consumes id h = []
        | Some r => recorded h id r
        end.

(** ** Lemmas: one operation *)

Lemma those_cons p id o h :
  those p id (o :: h) = if p id o then o :: those p id h else those p id h.
Proof. done. Qed.

Lemma Register_Ok s c now s' :
  Register s c now = (s', Ok tt) →
  ValidChallenge c now = true ∧ records s !! ChallengeID c = None ∧
  Z.of_nat (size (records s)) < maxRecords s ∧
  records s' = <[ChallengeID c := {| challenge := c; decision := ""; decidedAt := zero_time;
                                     consumedAt := zero_time |}]> (records s).
Proof.
  unfold Register. destruct (ValidChallenge c now); cbn [negb]; [|done].
  destruct (records s !! _); [done|]. destruct (existsb _ _); [done|].
  destruct (_ <=? _) eqn:Hc; [done|]. intros [= <-]. split_bools. done.
Qed.

Lemma Register_Err s c now s' e : Register s c now = (s', Err e) → s' = s.
Proof. unfold Register. intros. by go_cases. Qed.

Lemma ValidChallenge_lifetime c now :
  ValidChallenge c now = true →
  0 < ExpiresAt c - now ≤ MaximumLifetime.
Proof.
  unfold ValidChallenge. destruct (_ || _); [done|]. cbv zeta. intros. split_bools.
  unfold Sub, MaximumLifetime, second, max_int64, min_int64 in *. lia.
Qed.

Lemma Decide_Ok s actor q now s' r' :
  Decide s actor q now = (s', Ok r') →
  ∃ r, records s !! q_ChallengeID q = Some r ∧ decision r = "" ∧
    (ChallengeID (challenge r) = q_ChallengeID q → answers (challenge r) actor q now) ∧
    r' = {| challenge := challenge r; decision := q_Decision q; decidedAt := now;
            consumedAt := consumedAt r |} ∧
    records s' = <[q_ChallengeID q := r']> (records s) ∧ wakes s' = wakes s.
Proof.
  unfold Decide. guard Hv.
  apply orb_false_iff in Hv as [_ Hv]. unfold validDecision in Hv.
  destruct (records s !! _) as [r|] eqn:Hr; [|done].
  destruct (bool_decide (decision r = "")) eqn:Hd; cbn [negb]; [|done].
  destruct (After _ now) eqn:Ht; cbn [negb]; [|done]. guard Hm. intros [= <- <-].
  apply negb_false_iff, orb_true_iff in Hv. rewrite !bool_decide_eq_true in Hv.
  apply After_spec in Ht. split_bools. exists r. split_and!; try done.
  intros Hid. unfold answers. destruct actor; cbn in *. split_and!; try done. by subst.
Qed.

Lemma Decide_Err s actor q now s' e : Decide s actor q now = (s', Err e) → s' = s.
Proof. unfold Decide. intros. by go_cases. Qed.

Lemma Consume_Ok s q now s' r' :
  Consume s q now = (s', Ok r') →
  ∃ r, records s !! d_ChallengeID q = Some r ∧ consumedAt r = zero_time ∧ decision r ≠ "" ∧
    now ≠ zero_time ∧
    (ChallengeID (challenge r) = d_ChallengeID q → asks_for (challenge r) q now) ∧
    r' = {| challenge := challenge r; decision := decision r; decidedAt := decidedAt r;
            consumedAt := now |} ∧
    records s' = <[d_ChallengeID q := r']> (records s) ∧ wakes s' = wakes s.
Proof.
  unfold Consume. guard Hv.
  destruct (records s !! _) as [r|] eqn:Hr; [|done].
  destruct (After _ now) eqn:Ht; cbn [negb]; [|done].
  destruct (IsZero (consumedAt r)) eqn:Hz; cbn [negb]; [|done]. guard Hm.
  destruct (bool_decide (decision r = "")) eqn:Hd; [done|]. intros [= <- <-].
  apply After_spec in Ht. unfold IsZero in *. split_bools. exists r. split_and!; try done.
  intros Hid. unfold asks_for. split; [|done]. destruct q; cbn in *. by subst.
Qed.

Lemma Consume_Err s q now s' e : Consume s q now = (s', Err e) → s' = s.
Proof. unfold Consume. intros. by go_cases. Qed.

(** The outbox never touches the records. *)
Lemma ClaimWake_records s w now lease : records (ClaimWake s w now lease).1 = records s.
Proof. unfold ClaimWake, ClaimWake_along. by go_cases. Qed.

Lemma AcknowledgeWake_records s w id now : records (AcknowledgeWake s w id now).1 = records s.
Proof. unfold AcknowledgeWake. by go_cases. Qed.

Lemma RetryWake_records s w id now after : records (RetryWake s w id now after).1 = records s.
Proof. unfold RetryWake. cbv zeta. by go_cases. Qed.

(** ** Lemmas: the history invariant *)

Lemma recorded_other h o id r :
  registers id o = false → decides id o = false → consumes id o = false →
  recorded h id r → recorded (o :: h) id r.
Proof. unfold recorded. rewrite !those_cons. by intros -> -> ->. Qed.

(** A step that changes the record of [id] at most, with what is left to show. *)
Lemma history_inv_update s s' h o id r :
  history_inv s h → records s' = <[id := r]> (records s) →
  (∀ id', id' ≠ id → registers id' o = false ∧ decides id' o = false ∧ consumes id' o = false) →
  recorded (o :: h) id r → history_inv s' (o :: h).
Proof.
  intros Hinv Hs' Ho Hr id'. rewrite Hs'. destruct (decide (id' = id)) as [->|Hne].
  - by rewrite lookup_insert_eq.
  - rewrite lookup_insert_ne by done. destruct (Ho id' Hne) as (E1 & E2 & E3).
    specialize (Hinv id'). destruct (records s !! id').
    + by apply recorded_other.
    + by rewrite !those_cons, E1, E2, E3.
Qed.

Lemma history_inv_same s s' h o :
  history_inv s h → records s' = records s →
  (∀ id, registers id o = false ∧ decides id o = false ∧ consumes id o = false) →
  history_inv s' (o :: h).
Proof.
  intros Hinv Hs' Ho id. rewrite Hs'. destruct (Ho id) as (E1 & E2 & E3).
  specialize (Hinv id). destruct (records s !! id).
  - by apply recorded_other.
  - by rewrite !those_cons, E1, E2, E3.
Qed.

Lemma history_inv_records s s' h :
  history_inv s h → records s' = records s → history_inv s' h.
Proof. intros Hinv Hs' id. rewrite Hs'. apply Hinv. Qed.

Lemma Register_inv s c now s' h :
  history_inv s h → Register s c now = (s', Ok tt) → history_inv s' (ORegister c now :: h).
Proof.
  intros Hinv (Hv%ValidChallenge_lifetime & Hnone & _ & Hs')%Register_Ok.
  eapply history_inv_update; [done|exact Hs'|..].
  { intros id' Hne. cbn. by rewrite bool_decide_false. }
  specialize (Hinv (ChallengeID c)). rewrite Hnone in Hinv. destruct Hinv as (E1 & E2 & E3).
  unfold recorded. rewrite !those_cons. cbn. rewrite bool_decide_true by done.
  rewrite E1, E2, E3. split_and!; eauto.
Qed.

Lemma Decide_inv s actor q now s' r' h :
  history_inv s h → Decide s actor q now = (s', Ok r') →
  history_inv s' (ODecide actor q now :: h).
Proof.
  intros Hinv (r & Hr & Hd & Hans & -> & Hs' & _)%Decide_Ok.
  eapply history_inv_update; [done|exact Hs'|..].
  { intros id' Hne. cbn. by rewrite bool_decide_false. }
  specialize (Hinv (q_ChallengeID q)). rewrite Hr in Hinv.
  destruct Hinv as (Hid & Hreg & Hdec & Hcon).
  unfold recorded. rewrite !those_cons. cbn. rewrite bool_decide_true by done.
  destruct Hdec as [[_ Hno]|[? _]]; [|done]. rewrite Hno. specialize (Hans Hid).
  assert (q_Decision q ≠ "") as Hq by (destruct Hans as (_&_&_&_&_&_&_&[->| ->]&_); done).
  split_and!; [done..| |].
  - right. eauto 10.
  - destruct Hcon as [[E1 E2]|(_ & ? & _)]; [by left|done].
Qed.

Lemma Consume_inv s q now s' r' h :
  history_inv s h → Consume s q now = (s', Ok r') → history_inv s' (OConsume q now :: h).
Proof.
  intros Hinv (r & Hr & Hz & Hd & Hnow & Hask & -> & Hs' & _)%Consume_Ok.
  eapply history_inv_update; [done|exact Hs'|..].
  { intros id' Hne. cbn. by rewrite bool_decide_false. }
  specialize (Hinv (d_ChallengeID q)). rewrite Hr in Hinv.
  destruct Hinv as (Hid & Hreg & Hdec & Hcon).
  unfold recorded. rewrite !those_cons. cbn. rewrite bool_decide_true by done.
  destruct Hcon as [[_ Hno]|[? _]]; [|done]. rewrite Hno.
  split_and!; [done..|]. right. eauto 10.
Qed.

Lemma reach_inv s h : reach s h → history_inv s h.
Proof.
  induction 1 as [m s Hm|s h o s' ok _ IH Ho].
  { unfold NewStore in Hm. case_match; simplify_eq. intros id. cbn. done. }
  destruct o; cbn in Ho;
    match type of Ho with (let '(_, _) := ?e in _) = _ => destruct e as [s1 r1] eqn:E end;
    injection Ho as <- <-.
  - destruct r1 as [[]|e]; cbn; [by eapply Register_inv|]. by apply Register_Err in E as ->.
  - destruct r1; cbn; [by eapply Decide_inv|]. by apply Decide_Err in E as ->.
  - destruct r1; cbn; [by eapply Consume_inv|]. by apply Consume_Err in E as ->.
  - pose proof (ClaimWake_records s worker now lease) as Hrec. rewrite E in Hrec. cbn in Hrec.
    destruct (is_ok r1); [by eapply history_inv_same|by eapply history_inv_records].
  - pose proof (AcknowledgeWake_records s worker wakeID now) as Hrec. rewrite E in Hrec.
    cbn in Hrec. destruct (is_ok r1); [by eapply history_inv_same|by eapply history_inv_records].
  - pose proof (RetryWake_records s worker wakeID now retryAfter) as Hrec. rewrite E in Hrec.
    cbn in Hrec. destruct (is_ok r1); [by eapply history_inv_same|by eapply history_inv_records].
Qed.

(** A device obtains an answer only by consent. When [Consume] succeeds, the
    history holds exactly one registration of the challenge, at most 30 seconds
    before its expiry, and exactly one decision on it, made earlier by the owner
    the challenge names, before the expiry, for the same device, session, request
    and action; the device receives that decision, its own request names the same
    challenge, and the challenge had not been consumed before. *)
Theorem consume_needs_consent s h q now s' r' :
  reach s h → Consume s q now = (s', Ok r') →
  ∃ c t0 actor answer,
    challenge r' = c ∧
    those registers (d_ChallengeID q) h = [ORegister c t0] ∧
    0 < ExpiresAt c - t0 ≤ MaximumLifetime ∧
    those decides (d_ChallengeID q) h = [ODecide actor answer (decidedAt r')] ∧
    answers c actor answer (decidedAt r') ∧ decision r' = q_Decision answer ∧
    asks_for c q now ∧
    those consumes (d_ChallengeID q) h = [].
Proof.
  intros Hinv%reach_inv (r & Hr & Hz & Hd & Hnow & Hask & -> & Hs' & _)%Consume_Ok.
  specialize (Hinv (d_ChallengeID q)). rewrite Hr in Hinv.
  destruct Hinv as (Hid & (t0 & Hreg & Hlife) & Hdec & Hcon).
  destruct Hdec as [[? _]|(_ & actor & answer & E & Hans & Hq)]; [done|].
  destruct Hcon as [[_ Hno]|[? _]]; [|done].
  exists (challenge r), t0, actor, answer. cbn. split_and!; try done; try lia. by apply Hask.
Qed.

(** A challenge is decided at most once and consumed at most once, whatever
    the order of the operations, and no operation ever removes or rewrites a
    registered challenge. *)
Theorem consent_single_use s h id :
  reach s h →
  (length (those registers id h) ≤ 1)%nat ∧ (length (those decides id h) ≤ 1)%nat ∧
  (length (those consumes id h) ≤ 1)%nat ∧
  ∀ c t, ORegister c t ∈ those registers id h →
    ∃ r, records s !! id = Some r ∧ challenge r = c.
Proof.
  intros Hinv%reach_inv. specialize (Hinv id). destruct (records s !! id) as [r|].
  - destruct Hinv as (Hid & (t0 & Hreg & _) & Hdec & Hcon). rewrite Hreg. split_and!; [done|..].
    + destruct Hdec as [[_ ->]|(_ & ? & ? & -> & _)]; cbn; lia.
    + destruct Hcon as [[_ ->]|(_ & _ & ? & -> & _)]; cbn; lia.
    + intros c t Hc%list_elem_of_singleton. simplify_eq. eauto.
  - destruct Hinv as (-> & -> & ->). split_and!; [cbn; lia..|]. intros c t Hc.
    by apply elem_of_nil in Hc.
Qed.

(** ** The outbox *)

(** The loop of [ClaimWake] deletes the dead wakes and selects the first of the
    claimable ones. *)
Definition candidate_of (now : Time) (rs : gmap string storedRecord)
    (entry : string * storedWake) : option storedWake :=
  if live now rs entry.1 entry.2 && claimable now entry.2 then Some entry.2 else None.

Lemma scan_along_split now rs order ws :
  scan_along now rs order ws =
  (delete_along (live now rs) order ws, select (candidate_of now rs) precedes order).
Proof.
  unfold scan_along, select. generalize (@None storedWake) as sel.
  revert ws. induction order as [|[id w] order IH]; intros ws sel; [done|].
  cbn [fold_left delete_along]. rewrite <- IH. f_equal.
  unfold scan_one, select_one, candidate_of. cbn [fst snd].
  destruct (live now rs id w); cbn [negb andb]; [|done].
  by destruct (claimable now w).
Qed.

Definition wakes_named (ws : gmap string storedWake) : Prop :=
  ∀ id w, ws !! id = Some w → WakeID (wake w) = id.

Lemma precedes_strict now rs ws :
  wakes_named ws → strict_on (candidate_of now rs) precedes (map_to_list ws).
Proof.
  intros Hn. unfold precedes, Before. split_and!.
  - intros y z w. rewrite !orb_true_iff, !andb_true_iff, !Z.ltb_lt, !Z.eqb_eq, !str_ltb_lt.
    intros [?|[??]] [?|[??]]; try (left; lia).
    right. split; [lia|]. eauto using str_lt_trans.
  - intros y. rewrite Z.ltb_irrefl, Z.eqb_refl. cbn. apply not_true_iff_false.
    rewrite str_ltb_lt. apply str_lt_irrefl.
  - intros [k w] [k' w'] y y' Hk%elem_of_map_to_list Hk'%elem_of_map_to_list.
    unfold candidate_of. cbn. intros Hy Hy'. repeat case_match; simplify_eq.
    rewrite !orb_true_iff, !andb_true_iff, !Z.ltb_lt, !Z.eqb_eq, !str_ltb_lt.
    destruct (Z.lt_trichotomy (WakeExpiresAt (wake y)) (WakeExpiresAt (wake y')))
      as [?|[He|?]]; [right; left; by left| |right; right; by left].
    destruct (str_lt_total (WakeID (wake y)) (WakeID (wake y'))) as [?|[Hid|?]].
    + right; left; right. done.
    + left. apply Hn in Hk as E1. apply Hn in Hk' as E2. congruence.
    + right; right; right. done.
Qed.

(** Every wake is kept under its own identifier and belongs to a record. *)
Definition wakes_inv (s : Store) : Prop :=
  wakes_named (wakes s) ∧ ∀ id, is_Some (wakes s !! id) → is_Some (records s !! id).

Lemma wakes_inv_delete s id : wakes_inv s → wakes_inv (set_wakes s (delete id (wakes s))).
Proof.
  intros [Hn Hr]. split; cbn.
  - intros id' w [_ Hw]%lookup_delete_Some. by apply Hn.
  - intros id' [w [_ Hw]%lookup_delete_Some]. apply Hr. by exists w.
Qed.

Lemma wakes_inv_sub s ws :
  wakes_inv s → (∀ id w, ws !! id = Some w → WakeID (wake w) = id ∧ is_Some (wakes s !! id)) →
  wakes_inv (set_wakes s ws).
Proof.
  intros [Hn Hr] Hws. split; cbn.
  - intros id w Hw. by apply Hws.
  - intros id [w Hw]. apply Hr. by eapply Hws.
Qed.

(** Which wake a worker gets does not depend on the order in which the map is
    iterated, although Go leaves that order open. *)
Theorem ClaimWake_any_order s order worker now lease :
  wakes_inv s → order ≡ₚ map_to_list (wakes s) →
  ClaimWake_along order s worker now lease = ClaimWake s worker now lease.
Proof.
  intros [Hn _] Hp. unfold ClaimWake, ClaimWake_along.
  rewrite !scan_along_split, !delete_along_keep by done.
  by rewrite (select_perm _ _ _ _ (symmetry Hp)) by (by apply precedes_strict).
Qed.

(** What [ClaimWake] does to the outbox. *)
Inductive claim_result (s : Store) (worker : string) (now : Time) (lease : Duration) :
    gmap string storedWake → option Wake → Prop :=
| claim_none ws :
    (∀ id w, ws !! id = Some w → wakes s !! id = Some w) →
    claim_result s worker now lease ws None
| claim_some id w w' ws :
    wakes s !! id = Some w → live now (records s) id w = true → claimable now w = true →
    (∀ id' v, ws !! id' = Some v → wakes s !! id' = Some v) →
    w' = {| WakeID := id; Target := Target (wake w); WakeExpiresAt := WakeExpiresAt (wake w);
            Attempts := wrap_u32 (Attempts (wake w) + 1) |} →
    (∀ id' v, wakes s !! id' = Some v → live now (records s) id' v = true →
       claimable now v = true → v = w ∨ precedes w v = true) →
    claim_result s worker now lease
      (<[id := {| wake := w'; availableAt := availableAt w; claimedBy := worker;
                  leaseUntil := now + lease |}]> ws) (Some w').

Lemma ClaimWake_cases s worker now lease s' o :
  wakes_inv s → ClaimWake s worker now lease = (s', Ok o) →
  claim_result s worker now lease (wakes s') o ∧
  records s' = records s ∧ maxRecords s' = maxRecords s.
Proof.
  intros [Hn _]. unfold ClaimWake, ClaimWake_along. guard Hg.
  rewrite scan_along_split, delete_along_keep by done.
  pose proof (select_spec _ _ _ (precedes_strict now (records s) _ Hn)) as Hsel.
  assert (∀ id w, map_keep (live now (records s)) (wakes s) !! id = Some w →
            wakes s !! id = Some w) as Hsub by (intros id w Hw%map_keep_Some; apply Hw).
  destruct (select _ _ _) as [w|].
  2:{ intros [= <- <-]. split; [by constructor|done]. }
  destruct Hsel as [( [id v] & Hin%elem_of_map_to_list & Hv) Hmin].
  unfold candidate_of in Hv. cbn in Hv. destruct (live _ _ _ _) eqn:Hl; [|done].
  destruct (claimable now v) eqn:Hc; [|done]. cbn in Hv. injection Hv as ->.
  destruct (_ <=? _).
  { intros [= <- <-]. split; [|done]. constructor. cbn.
    intros id' w' Hw'%lookup_delete_Some. apply Hsub, Hw'. }
  intros [= <- <-]. split; [|done]. cbn. rewrite (Hn id w Hin).
  eapply claim_some; try done. intros id' v Hv Hl' Hc'.
  apply (Hmin (id', v) v); [by apply elem_of_map_to_list|].
  unfold candidate_of. cbn. by rewrite Hl', Hc'.
Qed.

Lemma claim_result_sub s worker now lease ws o id v :
  claim_result s worker now lease ws o → wakes_inv s → ws !! id = Some v →
  WakeID (wake v) = id ∧ is_Some (wakes s !! id).
Proof.
  intros Hc [Hn _] Hv. destruct Hc as [ws Hsub|id' w w' ws Hw _ _ Hsub -> _].
  - apply Hsub in Hv. split; [by apply Hn|done].
  - apply lookup_insert_Some in Hv as [[<- <-]|[_ Hv%Hsub]]; [done|]. split; [by apply Hn|done].
Qed.

Lemma Register_wakes_inv s c now : wakes_inv s → wakes_inv (Register s c now).1.
Proof.
  intros [Hn Hr]. unfold Register. repeat (case_match; [done|]). split; cbn.
  - intros id w [[<- <-]|[_ Hw]]%lookup_insert_Some; [done|by apply Hn].
  - intros id. destruct (decide (ChallengeID c = id)) as [<-|Hne].
    + by rewrite !lookup_insert_eq.
    + rewrite !lookup_insert_ne by done. apply Hr.
Qed.

Lemma wakes_inv_records s s' :
  wakes_inv s → wakes s' = wakes s → (∀ id, is_Some (records s !! id) → is_Some (records s' !! id)) →
  wakes_inv s'.
Proof. intros [Hn Hr] Hw Hrec. split; rewrite Hw; eauto. Qed.

Lemma AcknowledgeWake_wakes_inv s w id now :
  wakes_inv s → wakes_inv (AcknowledgeWake s w id now).1.
Proof.
  intros Hs. unfold AcknowledgeWake. repeat case_match; try done; by apply wakes_inv_delete.
Qed.

Lemma RetryWake_wakes_inv s w id now after :
  wakes_inv s → wakes_inv (RetryWake s w id now after).1.
Proof.
  intros Hs. unfold RetryWake. cbv zeta. case_match; [done|].
  destruct (wakes s !! id) as [v|] eqn:Hv; [|done]. case_match; [done|].
  case_match; [by apply wakes_inv_delete|]. cbn. apply wakes_inv_sub; [done|].
  intros id' v' [[<- <-]|[_ Hw]]%lookup_insert_Some; destruct Hs as [Hn _]; cbn;
    (split; [by apply Hn|done]).
Qed.

Lemma ClaimWake_wakes_inv s w now lease : wakes_inv s → wakes_inv (ClaimWake s w now lease).1.
Proof.
  intros Hs. destruct (ClaimWake s w now lease) as [s' [o|e]] eqn:E.
  - apply ClaimWake_cases in E as (Hc & Hr & Hm); [|done].
    replace s' with (set_wakes s (wakes s')) by (by destruct s, s'; cbn in *; subst).
    apply wakes_inv_sub; [done|]. intros id v Hv. by eapply claim_result_sub.
  - unfold ClaimWake, ClaimWake_along in E. repeat case_match; by simplify_eq.
Qed.

Lemma insert_is_Some {V} (m : gmap string V) i v id :
  is_Some (m !! id) → is_Some (<[i := v]> m !! id).
Proof. rewrite lookup_insert. case_decide; eauto. Qed.

Lemma exec_wakes_inv s o : wakes_inv s → wakes_inv (exec s o).1.
Proof.
  intros Hs. destruct o; cbn.
  - pose proof (Register_wakes_inv s c now Hs). by destruct (Register _ _ _).
  - destruct (Decide s actor request now) as [s' [r|e]] eqn:E; cbn.
    + apply Decide_Ok in E as (r0 & _ & _ & _ & _ & Hr & Hw).
      eapply wakes_inv_records; [done|done|]. intros id. rewrite Hr. apply insert_is_Some.
    + by apply Decide_Err in E as ->.
  - destruct (Consume s request now) as [s' [r|e]] eqn:E; cbn.
    + apply Consume_Ok in E as (r0 & _ & _ & _ & _ & _ & _ & Hr & Hw).
      eapply wakes_inv_records; [done|done|]. intros id. rewrite Hr. apply insert_is_Some.
    + by apply Consume_Err in E as ->.
  - pose proof (ClaimWake_wakes_inv s worker now lease Hs). by destruct (ClaimWake _ _ _ _).
  - pose proof (AcknowledgeWake_wakes_inv s worker wakeID now Hs).
    by destruct (AcknowledgeWake _ _ _ _).
  - pose proof (RetryWake_wakes_inv s worker wakeID now retryAfter Hs).
    by destruct (RetryWake _ _ _ _ _).
Qed.

Lemma reach_wakes_inv s h : reach s h → wakes_inv s.
Proof.
  induction 1 as [m s Hm|s h o s' ok _ IH Ho].
  - unfold NewStore in Hm. case_match; simplify_eq. split; [done|]. cbn.
    intros id [w Hw]. done.
  - apply (exec_wakes_inv _ o) in IH. by rewrite Ho in IH.
Qed.

(** *** Leases *)

Definition op_time (o : op) : Time :=
  match o with
  | ORegister _ t | ODecide _ _ t | OConsume _ t | OClaim _ t _ | OAcknowledge _ _ t
  | ORetry _ _ t _ => t
  end.

Definition retries (worker id : string) (o : op) : bool :=
  match o with
  | ORetry w i _ _ => bool_decide (w = worker) && bool_decide (i = id)
  | _ => false
  end.

(** [worker] holds the wake [id] until [until], or it is gone for good. *)
Definition held (s : Store) (worker id : string) (until : Time) : Prop :=
  is_Some (records s !! id) ∧
  (∀ w, wakes s !! id = Some w → claimedBy w = worker ∧ leaseUntil w = until).

Lemma held_not_claimable s worker id until w now :
  held s worker id until → worker ≠ "" → now < until → wakes s !! id = Some w →
  claimable now w = false.
Proof.
  intros [_ Hh] Hne Hnow Hw. apply Hh in Hw as [E1 E2]. unfold claimable, After.
  rewrite E1, E2, bool_decide_false by done. rewrite (proj2 (Z.ltb_lt now until)) by done.
  cbn. by rewrite orb_true_r.
Qed.

Lemma held_claim s worker id until w now lease s' o :
  wakes_inv s → held s worker id until → worker ≠ "" → now < until →
  ClaimWake s w now lease = (s', Ok o) →
  held s' worker id until ∧ ∀ w', o = Some w' → WakeID w' ≠ id.
Proof.
  intros Hs Hh Hne Hnow E. apply ClaimWake_cases in E as (Hc & Hr & _); [|done].
  pose proof (held_not_claimable s worker id until) as Hnc. destruct Hh as [Hrec Hh].
  unfold held. rewrite Hr. remember (wakes s') as ws' eqn:Hws'. clear Hws' Hr.
  destruct Hc as [ws Hsub|id' v w' ws Hv _ Hcl Hsub -> _].
  - split; [|done]. split; [done|]. intros v Hv%Hsub. by apply Hh.
  - assert (id' ≠ id) as Hid.
    { intros ->. rewrite (Hnc v now) in Hcl; [done| |done..]. done. }
    split; [|by intros w' [= <-]]. split; [done|].
    intros u. rewrite lookup_insert_ne by done. intros Hu%Hsub. by apply Hh.
Qed.

Lemma held_sub s s' worker id until :
  held s worker id until → (is_Some (records s !! id) → is_Some (records s' !! id)) →
  (∀ w, wakes s' !! id = Some w → wakes s !! id = Some w) → held s' worker id until.
Proof. intros [Hr Hh] Hr' Hw. split; eauto. Qed.

Lemma RetryWake_other s worker id until w i now after :
  held s worker id until → (w = worker → i ≠ id) →
  held (RetryWake s w i now after).1 worker id until.
Proof.
  intros Hh Hne. unfold RetryWake. cbv zeta. case_match; [done|].
  destruct (wakes s !! i) as [v|] eqn:Hv; [|done]. case_match; [done|]. split_bools.
  assert (i ≠ id) as Hi.
  { intros ->. destruct Hh as [_ Hh]. apply Hh in Hv as [? _]. apply Hne; [congruence|done]. }
  case_match; (eapply held_sub; [exact Hh|done|]); cbn; intros u;
    by rewrite ?lookup_delete_ne, ?lookup_insert_ne by done.
Qed.

Lemma held_exec s worker id until o :
  wakes_inv s → held s worker id until → worker ≠ "" → op_time o < until →
  retries worker id o = false → held (exec s o).1 worker id until.
Proof.
  intros Hs Hh Hne Ht Hre. destruct o; cbn in *.
  - destruct (Register s c now) as [s' [ [] |e]] eqn:E; cbn; [|by apply Register_Err in E as ->].
    assert (ChallengeID c ≠ id) as Hid.
    { apply Register_Ok in E as (_ & Hnone & _). intros <-. destruct Hh as [ [r Hr] _]. congruence. }
    unfold Register in E. repeat case_match; simplify_eq.
    eapply held_sub; [exact Hh|..]; cbn; rewrite lookup_insert_ne by done; done.
  - destruct (Decide s actor request now) as [s' [r|e]] eqn:E; cbn.
    + apply Decide_Ok in E as (r0 & _ & _ & _ & _ & Hr & Hw).
      eapply held_sub; [exact Hh|rewrite Hr; apply insert_is_Some|by rewrite Hw].
    + by apply Decide_Err in E as ->.
  - destruct (Consume s request now) as [s' [r|e]] eqn:E; cbn.
    + apply Consume_Ok in E as (r0 & _ & _ & _ & _ & _ & _ & Hr & Hw).
      eapply held_sub; [exact Hh|rewrite Hr; apply insert_is_Some|by rewrite Hw].
    + by apply Consume_Err in E as ->.
  - destruct (ClaimWake s worker0 now lease) as [s' [r|e]] eqn:E; cbn.
    + by eapply held_claim.
    + unfold ClaimWake, ClaimWake_along in E. repeat case_match; by simplify_eq.
  - unfold AcknowledgeWake. repeat case_match; cbn; simplify_eq/=; try done;
      (eapply held_sub; [exact Hh|done|]); cbn; intros w [_ ?]%lookup_delete_Some; done.
  - pose proof (RetryWake_other s worker id until worker0 wakeID now retryAfter Hh) as Hr.
    destruct (RetryWake _ _ _ _ _). apply Hr. intros -> ->.
    by rewrite !bool_decide_true in Hre by done.
Qed.

Definition execs (s : Store) (ops : list op) : Store := fold_left (λ s o, (exec s o).1) ops s.

Lemma held_execs s worker id until ops :
  wakes_inv s → held s worker id until → worker ≠ "" →
  Forall (λ o, op_time o < until ∧ retries worker id o = false) ops →
  wakes_inv (execs s ops) ∧ held (execs s ops) worker id until.
Proof.
  intros Hs Hh Hne Hops. unfold execs. revert s Hs Hh.
  induction Hops as [|o ops [Ht Hr] _ IH]; intros s Hs Hh; [done|].
  cbn [fold_left]. apply IH; [by apply exec_wakes_inv|by apply held_exec].
Qed.

(** A wake is leased to one worker. From the moment [ClaimWake] hands a wake
    out until its lease ends, no other call of [ClaimWake] hands out the same
    wake, whatever operations run in between, unless the holder itself puts it
    back with [RetryWake]. *)
Theorem wake_lease_exclusive s h worker t lease s1 w ops worker' t' lease' s2 w' :
  reach s h → ClaimWake s worker t lease = (s1, Ok (Some w)) →
  Forall (λ o, op_time o < t + lease ∧ retries worker (WakeID w) o = false) ops →
  t' < t + lease → ClaimWake (execs s1 ops) worker' t' lease' = (s2, Ok (Some w')) →
  WakeID w' ≠ WakeID w.
Proof.
  intros Hs%reach_wakes_inv E Hops Ht' E'.
  assert (worker ≠ "") as Hne.
  { unfold ClaimWake, ClaimWake_along in E. revert E. guard Hg. intros _. split_bools.
    unfold validWakeWorker in *. by intros ->. }
  pose proof (ClaimWake_wakes_inv s worker t lease Hs) as Hs1. rewrite E in Hs1.
  apply ClaimWake_cases in E as (Hc & Hr & _); [|done].
  assert (held s1 worker (WakeID w) (t + lease)) as Hh.
  { unfold held. rewrite Hr. inversion Hc as [|id v w0 ws Hv _ _ _ Hw _ Hws]; subst. cbn.
    split; [apply Hs; by exists v|]. intros u. rewrite lookup_insert_eq. by intros [= <-]. }
  destruct (held_execs s1 worker (WakeID w) (t + lease) ops Hs1 Hh Hne Hops) as [Hs' Hh'].
  by eapply held_claim.
Qed.

(** *** The inbox *)

Definition pending_candidate (actor : Actor) (now : Time) (entry : string * storedRecord) :
    option Challenge :=
  if pending_for actor now entry.2 then Some (challenge entry.2) else None.

Lemma pending_select actor now xs :
  fold_left (pending_one actor now) xs None = select (pending_candidate actor now) older xs.
Proof.
  unfold select. generalize (@None Challenge) as sel. induction xs as [|x xs IH]; intros sel; [done|].
  cbn [fold_left]. rewrite IH. f_equal. unfold pending_one, select_one, pending_candidate.
  by destruct (pending_for actor now x.2).
Qed.

Lemma older_strict s h actor now :
  reach s h → strict_on (pending_candidate actor now) older (map_to_list (records s)).
Proof.
  intros Hinv%reach_inv. unfold older, Before. split_and!.
  - intros y z w. rewrite !orb_true_iff, !andb_true_iff, !Z.ltb_lt, !Z.eqb_eq, !str_ltb_lt.
    intros [?|[??]] [?|[??]]; try (left; lia).
    right. split; [lia|]. eauto using str_lt_trans.
  - intros y. rewrite Z.ltb_irrefl, Z.eqb_refl. cbn. apply not_true_iff_false.
    rewrite str_ltb_lt. apply str_lt_irrefl.
  - intros [k w] [k' w'] y y' Hk%elem_of_map_to_list Hk'%elem_of_map_to_list.
    unfold pending_candidate. cbn. intros Hy Hy'. repeat case_match; simplify_eq.
    rewrite !orb_true_iff, !andb_true_iff, !Z.ltb_lt, !Z.eqb_eq, !str_ltb_lt.
    destruct (Z.lt_trichotomy (ExpiresAt (challenge w)) (ExpiresAt (challenge w')))
      as [?|[He|?]]; [right; left; by left| |right; right; by left].
    destruct (str_lt_total (ChallengeID (challenge w)) (ChallengeID (challenge w')))
      as [?|[Hid|?]]; [right; left; right; done| |right; right; right; done].
    left. pose proof (Hinv k) as E1. pose proof (Hinv k') as E2. rewrite Hk in E1.
    rewrite Hk' in E2. destruct E1 as [E1 _], E2 as [E2 _]. congruence.
Qed.

(** A challenge waits for [actor] at [now]: registered, undecided, unexpired, and
    addressed to exactly this owner, tenant, device and owner revision. *)
Definition waiting (s : Store) (actor : Actor) (now : Time) (c : Challenge) : Prop :=
  ∃ r, records s !! ChallengeID c = Some r ∧ challenge r = c ∧ decision r = "" ∧
    now < ExpiresAt c ∧ Target (wakeFromChallenge c) = actor.

Lemma pending_for_iff actor now r :
  consumedAt r = zero_time →
  pending_for actor now r = true ↔
  decision r = "" ∧ now < ExpiresAt (challenge r) ∧
  Target (wakeFromChallenge (challenge r)) = actor.
Proof.
  intros Hz. unfold pending_for, IsZero. rewrite Hz, Z.eqb_refl. destruct actor. cbn.
  rewrite !andb_true_iff, !bool_decide_eq_true, Z.eqb_eq, After_spec. split.
  - intros Hp. destruct_and? Hp. by subst.
  - by intros (? & ? & [= -> -> -> ->]).
Qed.

(** The inbox shows the waiting challenge that expires first (the smaller
    identifier breaks a tie), and nothing only when nothing waits for this
    actor. *)
Theorem Pending_oldest s h actor now :
  reach s h → now ≠ zero_time → validActor actor = true →
  match Pending s actor now with
  | Err _ => False
  | Ok None => ∀ c, ¬ waiting s actor now c
  | Ok (Some r) =>
      waiting s actor now (challenge r) ∧ decision r = "" ∧
      ∀ c, waiting s actor now c → c = challenge r ∨ older (challenge r) c = true
  end.
Proof.
  intros Hs Hnow Hact. unfold Pending, IsZero. rewrite Hact.
  rewrite (proj2 (Z.eqb_neq now zero_time)) by done. cbn [orb negb].
  rewrite pending_select. pose proof (select_spec _ _ _ (older_strict s h actor now Hs)) as Hsel.
  apply reach_inv in Hs.
  assert (∀ k r, records s !! k = Some r → pending_for actor now r = true ↔
            waiting s actor now (challenge r)) as Hiff.
  { intros k r Hk. pose proof (Hs k) as Hr. rewrite Hk in Hr.
    destruct Hr as (Hid & _ & _ & Hz). subst k. unfold waiting. split.
    - intros Hp. assert (consumedAt r = zero_time) as Hz'.
      { unfold pending_for, IsZero in Hp. split_bools. done. }
      apply pending_for_iff in Hp; [|done]. by exists r.
    - intros (r' & Hr' & _ & Hd & Hrest). simplify_eq. apply pending_for_iff; [|done].
      destruct Hz as [ [Hz _]|(_ & ? & _)]; done. }
  destruct (select _ _ _) as [c|]; cbn.
  - destruct Hsel as [( [k r] & Hk%elem_of_map_to_list & Hc) Hmin].
    unfold pending_candidate in Hc. cbn in Hc. case_match eqn:Hp; [|done]. simplify_eq.
    split_and!; [by eapply Hiff|done|]. intros c Hw. pose proof Hw as (r' & Hr' & <- & _).
    eapply (Hmin (_, r')); [by apply elem_of_map_to_list|].
    unfold pending_candidate. cbn. by rewrite (proj2 (Hiff _ _ Hr')).
  - intros c Hw. pose proof Hw as (r & Hr & <- & _).
    specialize (Hsel (ChallengeID (challenge r), r)). rewrite elem_of_map_to_list in Hsel. specialize (Hsel Hr).
    unfold pending_candidate in Hsel. cbn in Hsel. by rewrite (proj2 (Hiff _ _ Hr)) in Hsel.
Qed.

(** ** Witnesses *)

Definition ex_id : string := EncodeToString (replicate 16 (byte_of 9)).
Definition ex_other_id : string := EncodeToString (replicate 16 (byte_of 4)).
Definition ex_at (n : Z) : Time := from_unix 1750000000 + n * second.
Definition ex_challenge (id session : string) : Challenge :=
  {| ChallengeID := id; DeviceID := "device-1"; OwnerID := "owner-1"; TenantID := "tenant-1";
     OwnerRevision := 3; SessionID := session; RequestID := 7;
     ChallengeAction := {| IndicatorOn := true |}; ExpiresAt := ex_at 25 |}.
Definition ex_actor : Actor := Target (wakeFromChallenge (ex_challenge ex_id "s1")).
Definition ex_answer : Request :=
  {| q_ChallengeID := ex_id; q_DeviceID := "device-1"; q_OwnerRevision := 3;
     q_SessionID := "s1"; q_RequestID := 7; q_Action := {| IndicatorOn := true |};
     q_Decision := DecisionApprove |}.
Definition ex_device : DeviceRequest :=
  {| d_ChallengeID := ex_id; d_DeviceID := "device-1"; d_OwnerRevision := 3;
     d_SessionID := "s1"; d_RequestID := 7; d_Action := {| IndicatorOn := true |} |}.
Definition ex_empty : Store := {| maxRecords := 10; records := ∅; wakes := ∅ |}.
Definition ex_registered : Store :=
  execs ex_empty [ORegister (ex_challenge ex_id "s1") (ex_at 0);
                  ORegister (ex_challenge ex_other_id "s2") (ex_at 1)].
Definition ex_registered_history : list op :=
  [ORegister (ex_challenge ex_other_id "s2") (ex_at 1);
   ORegister (ex_challenge ex_id "s1") (ex_at 0)].
Definition ex_decided : Store := (exec ex_registered (ODecide ex_actor ex_answer (ex_at 4))).1.

(** One more successful operation on a reachable store. *)
Lemma reach_ok s h o : reach s h → (exec s o).2 = true → reach (exec s o).1 (o :: h).
Proof.
  intros Hr Hok. apply (reach_exec s h o _ true Hr). destruct (exec s o). cbn in *. by subst.
Qed.

Lemma ex_registered_reach : reach ex_registered ex_registered_history.
Proof.
  unfold ex_registered, execs. cbn [fold_left].
  apply reach_ok; [|by vm_compute]. apply reach_ok; [|by vm_compute].
  by apply (reach_init 10).
Qed.

Lemma ex_decided_reach :
  reach ex_decided (ODecide ex_actor ex_answer (ex_at 4) :: ex_registered_history).
Proof. apply reach_ok; [apply ex_registered_reach|by vm_compute]. Qed.

Lemma consume_needs_consent_witness :
  ∃ s' r', Consume ex_decided ex_device (ex_at 6) = (s', Ok r') ∧
    decision r' = DecisionApprove ∧
    ∃ c t0, those registers ex_id (ODecide ex_actor ex_answer (ex_at 4) :: ex_registered_history)
            = [ORegister c t0].
Proof.
  destruct (Consume ex_decided ex_device (ex_at 6)) as [s' [r'|e] ] eqn:E;
    [|vm_compute in E; discriminate E].
  exists s', r'. split; [reflexivity|]. split; [vm_compute in E; by simplify_eq|].
  destruct (consume_needs_consent _ _ _ _ _ _ ex_decided_reach E)
    as (c & t0 & actor & answer & _ & Hreg & _).
  exists c, t0. exact Hreg.
Defined.

Lemma consent_single_use_witness :
  reach ex_decided (ODecide ex_actor ex_answer (ex_at 4) :: ex_registered_history) ∧
  (length (those decides ex_id
     (ODecide ex_actor ex_answer (ex_at 4) :: ex_registered_history)) ≤ 1)%nat.
Proof.
  split; [exact ex_decided_reach|].
  exact (proj1 (proj2 (consent_single_use _ _ ex_id ex_decided_reach))).
Defined.

Lemma ClaimWake_any_order_witness :
  ClaimWake_along (reverse (map_to_list (wakes ex_registered))) ex_registered "w1" (ex_at 2) second
  = ClaimWake ex_registered "w1" (ex_at 2) second.
Proof.
  apply ClaimWake_any_order; [exact (reach_wakes_inv _ _ ex_registered_reach)|].
  apply reverse_Permutation.
Defined.

Lemma wake_lease_exclusive_witness :
  ∃ s1 w s2 w', ClaimWake ex_registered "w1" (ex_at 2) (5 * second) = (s1, Ok (Some w)) ∧
    ClaimWake s1 "w2" (ex_at 3) (5 * second) = (s2, Ok (Some w')) ∧ WakeID w' ≠ WakeID w.
Proof.
  assert (match ClaimWake ex_registered "w1" (ex_at 2) (5 * second) with
          | (s1, Ok (Some _)) => match ClaimWake s1 "w2" (ex_at 3) (5 * second) with
                                 | (_, Ok (Some _)) => true | _ => false end
          | _ => false end = true) as Hc by (vm_compute; reflexivity).
  destruct (ClaimWake ex_registered "w1" (ex_at 2) (5 * second)) as [s1 [ [w|] |e] ] eqn:E;
    [|discriminate Hc..].
  destruct (ClaimWake s1 "w2" (ex_at 3) (5 * second)) as [s2 [ [w'|] |e] ] eqn:E';
    [|discriminate Hc..].
  exists s1, w, s2, w'. split; [reflexivity|]. split; [exact E'|].
  apply (wake_lease_exclusive _ _ "w1" (ex_at 2) (5 * second) s1 w [] "w2" (ex_at 3)
           (5 * second) s2 w' ex_registered_reach E); [constructor|by vm_compute|exact E'].
Defined.

Lemma Pending_oldest_witness :
  ∃ r, Pending ex_registered ex_actor (ex_at 3) = Ok (Some r) ∧
    waiting ex_registered ex_actor (ex_at 3) (challenge r).
Proof.
  pose proof (Pending_oldest ex_registered _ ex_actor (ex_at 3) ex_registered_reach
                ltac:(by vm_compute) ltac:(by vm_compute)) as H.
  destruct (Pending ex_registered ex_actor (ex_at 3)) as [ [r|] |e] eqn:E;
    [|vm_compute in E; discriminate E..].
  exists r. split; [reflexivity|exact (proj1 H)].
Defined.

End ActionConsent.
