(* ===== verification/DeviceClaim.v ===== *)
(** * DeviceClaim: pairing a device with its owner

    Models [internal/deviceclaim/store.go]: the reference store behind the pairing
    protocol. The app begins a claim with a code, the device confirms the code,
    and the owner can release the device. The four maps are behind one mutex, so
    every method is one step; the clock and the random bytes drawn by the call
    are arguments. *)

From stdpp Require Import base gmap strings list fin_maps.
From Stdlib Require Import ZArith Lia.
From Stdlib.Strings Require Import Byte.
From S2P Require Import Prelude GoBase GoCrypto Protocol Auth.

Module DeviceClaim.
Import Ident.

Definition claimBytes : Z := 32.
Definition requestBytes : Z := 16.
Definition nonceBytes : Z := 16.
Definition bindingBytes : Z := 16.

(** [ErrRandom] is the error of the random source, which the store passes on. *)
Inductive error : Type :=
| ErrInvalid
| ErrReplay
| ErrCapacity
| ErrConflict
| ErrNotFound
| ErrExpired
| ErrUnauthorized
| ErrUnavailable
| ErrRandom.

#[global] Instance error_eq_dec : EqDecision error.
Proof. solve_decision. Defined.

Inductive Status : Type := StatusPending | StatusBound | StatusExpired.

Record Record_ : Type := {
  RequestID : string;
  DeviceID : string;
  Status_ : Status;
  ExpiresAt : Time;
}.

Record Ownership : Type := {
  OwnerID : string;
  TenantID : string;
  BindingID : string;
  BindingRevision : Z;
}.

Definition canonicalBytes (value : string) (size : Z) : bool := canonical_b64 value size.
Definition ValidClaimCode (value : string) : bool := canonicalBytes value claimBytes.
Definition ValidAppNonce (value : string) : bool := canonicalBytes value nonceBytes.
Definition ValidRequestID (value : string) : bool := canonicalBytes value requestBytes.
Definition ValidBindingID (value : string) : bool := canonicalBytes value bindingBytes.

Definition Matches (o : Ownership) (ownerID tenantID bindingID : string) (bindingRevision : Z) :
    bool :=
  bool_decide (OwnerID o = ownerID) && bool_decide (TenantID o = tenantID)
  && bool_decide (BindingID o = bindingID) && (BindingRevision o =? bindingRevision)
  && ValidBindingID bindingID && ValidBindingRevision bindingRevision.

Record storedRecord : Type := {
  r_requestID : string;
  r_userID : string;
  r_tenantID : string;
  r_deviceID : string;
  r_digest : bytes;
  r_status : Status;
  r_expiresAt : Time;
}.

Definition set_status (r : storedRecord) (st : Status) : storedRecord :=
  {| r_requestID := r_requestID r; r_userID := r_userID r; r_tenantID := r_tenantID r;
     r_deviceID := r_deviceID r; r_digest := r_digest r; r_status := st;
     r_expiresAt := r_expiresAt r |}.

Record ownershipEntry : Type := {
  ownership : Ownership;
  active : bool;
}.

Record Store : Type := {
  ttl : Duration;
  maxRecords : Z;
  records : gmap string storedRecord;
  byDigest : gmap bytes string;
  owners : gmap string ownershipEntry;
  appNonces : gmap string Time;
}.

Definition set_records (s : Store) rs : Store :=
  {| ttl := ttl s; maxRecords := maxRecords s; records := rs; byDigest := byDigest s;
     owners := owners s; appNonces := appNonces s |}.
Definition set_byDigest (s : Store) ds : Store :=
  {| ttl := ttl s; maxRecords := maxRecords s; records := records s; byDigest := ds;
     owners := owners s; appNonces := appNonces s |}.
Definition set_owners (s : Store) os : Store :=
  {| ttl := ttl s; maxRecords := maxRecords s; records := records s; byDigest := byDigest s;
     owners := os; appNonces := appNonces s |}.
Definition set_appNonces (s : Store) ns : Store :=
  {| ttl := ttl s; maxRecords := maxRecords s; records := records s; byDigest := byDigest s;
     owners := owners s; appNonces := ns |}.

Definition NewStore (ttl : Duration) (maxRecords : Z) : result error Store :=
  IF (ttl <? minute) || (10 * minute <? ttl) || (maxRecords <? 1) || (100000 <? maxRecords)
    RETURN Err ErrInvalid ;;
  Ok {| ttl := ttl; maxRecords := maxRecords; records := ∅; byDigest := ∅; owners := ∅;
        appNonces := ∅ |}.

Definition newline : string := string_of [byte_of 10].

Definition claimDigest (code : string) : bytes :=
  Sum256 (bytes_of ("xiaozhi-device-claim-code-v1" +:+ newline +:+ code)).

Definition nonceKey (tenantID userID appNonce : string) : string :=
  tenantID +:+ Token.nul +:+ userID +:+ Token.nul +:+ appNonce.

Definition publicRecord (record : storedRecord) (now : Time) : Record_ :=
  {| RequestID := r_requestID record; DeviceID := r_deviceID record;
     Status_ := if negb (After (r_expiresAt record) now) then StatusExpired else r_status record;
     ExpiresAt := r_expiresAt record |}.

(** One round of the second loop of [cleanup]. *)
Definition cleanup_one (now : Time) (s : Store) (entry : string * storedRecord) : Store :=
  let '(id, record) := entry in
  let s :=
    if negb (After (r_expiresAt record) now) then
      let s := match byDigest s !! r_digest record with
               | Some current =>
                   if bool_decide (current = id)
                   then set_byDigest s (delete (r_digest record) (byDigest s)) else s
               | None => s
               end in
      set_records s (<[id := set_status record StatusExpired]> (records s))
    else s in
  if negb (After (r_expiresAt record + ttl s) now)
  then set_records s (delete id (records s)) else s.

(** [order] is the order in which the records are iterated. *)
Definition cleanup_along (order : list (string * storedRecord)) (now : Time) (s : Store) : Store :=
  fold_left (cleanup_one now) order
    (set_appNonces s (map_keep (λ _ expires, After expires now) (appNonces s))).

Definition cleanup (now : Time) (s : Store) : Store :=
  cleanup_along (map_to_list (records s)) now s.

Definition activeRecords (now : Time) (s : Store) : Z :=
  Z.of_nat (size (map_keep (λ _ record, After (r_expiresAt record) now) (records s))).

(** [draw size n] is what [io.ReadFull] reads into a buffer of [size] bytes on the
    n-th attempt of the call: [None] when the random source fails. *)
Definition source : Type := Z → nat → option bytes.
Definition reads_full (draw : source) : Prop :=
  ∀ size n raw, draw size n = Some raw → blen raw = size.

Fixpoint newCanonicalID_from (attempts : nat) (draw : source) (size : Z) (n : nat)
    (exists_ : string → bool) : result error string :=
  match attempts with
  | O => Err ErrCapacity
  | S attempts =>
      match draw size n with
      | None => Err ErrRandom
      | Some raw =>
          let encoded := EncodeToString raw in
          IF negb (exists_ encoded) RETURN Ok encoded ;;
          newCanonicalID_from attempts draw size (S n) exists_
      end
  end.

Definition newCanonicalID (draw : source) (size : Z) (exists_ : string → bool) :
    result error string := newCanonicalID_from 4 draw size 0 exists_.

Definition newRequestID (draw : source) (s : Store) : result error string :=
  newCanonicalID draw requestBytes
    (λ candidate, bool_decide (is_Some (records s !! candidate))).

Definition binding_taken (s : Store) (candidate : string) : bool :=
  existsb (λ e, bool_decide (BindingID (ownership e.2) = candidate)) (map_to_list (owners s)).

Definition other_owner (owner : ownershipEntry) (userID tenantID : string) : bool :=
  negb (bool_decide (OwnerID (ownership owner) = userID))
  || negb (bool_decide (TenantID (ownership owner) = tenantID)).

Definition Begin (draw : source) (s : Store)
    (userID tenantID deviceID code appNonce : string) (now : Time) :
    Store * result error Record_ :=
  IF negb (ValidIdentifier userID 128) || negb (ValidIdentifier tenantID 128)
     || negb (ValidIdentifier deviceID 64) || negb (ValidClaimCode code)
     || negb (ValidAppNonce appNonce) || IsZero now
    RETURN (s, Err ErrInvalid) ;;
  let digest := claimDigest code in
  let key := nonceKey tenantID userID appNonce in
  let s := cleanup now s in
  IF match appNonces s !! key with Some expires => After expires now | None => false end
    RETURN (s, Err ErrReplay) ;;
  IF maxRecords s * 4 <=? Z.of_nat (size (appNonces s)) RETURN (s, Err ErrCapacity) ;;
  let s := set_appNonces s (<[key := now + ttl s]> (appNonces s)) in
  match byDigest s !! digest with
  | Some id =>
      match records s !! id with
      | None => (s, Err ErrConflict)
      | Some existing =>
          IF negb (bool_decide (r_userID existing = userID))
             || negb (bool_decide (r_tenantID existing = tenantID))
             || negb (bool_decide (r_deviceID existing = deviceID))
             || negb (After (r_expiresAt existing) now)
            RETURN (s, Err ErrConflict) ;;
          (s, Ok (publicRecord existing now))
      end
  | None =>
      IF match owners s !! deviceID with
         | Some owner => active owner && other_owner owner userID tenantID
         | None => false
         end
        RETURN (s, Err ErrConflict) ;;
      IF maxRecords s <=? activeRecords now s RETURN (s, Err ErrCapacity) ;;
      match newRequestID draw s with
      | Err e => (s, Err e)
      | Ok id =>
          let record := {| r_requestID := id; r_userID := userID; r_tenantID := tenantID;
                           r_deviceID := deviceID; r_digest := digest;
                           r_status := StatusPending; r_expiresAt := now + ttl s |} in
          let s := set_records s (<[id := record]> (records s)) in
          (set_byDigest s (<[digest := id]> (byDigest s)), Ok (publicRecord record now))
      end
  end.

Definition Confirm (draw : source) (s : Store) (deviceID code : string) (now : Time) :
    Store * result error Record_ :=
  IF negb (ValidIdentifier deviceID 64) || negb (ValidClaimCode code) || IsZero now
    RETURN (s, Err ErrInvalid) ;;
  let digest := claimDigest code in
  let s := cleanup now s in
  match byDigest s !! digest with
  | None => (s, Err ErrNotFound)
  | Some id =>
      match records s !! id with
      | None => (s, Err ErrConflict)
      | Some record =>
          IF negb (bool_decide (r_deviceID record = deviceID)) RETURN (s, Err ErrConflict) ;;
          IF negb (After (r_expiresAt record) now) RETURN (s, Err ErrExpired) ;;
          IF match owners s !! deviceID with
             | Some owner => active owner
                             && other_owner owner (r_userID record) (r_tenantID record)
             | None => false
             end
            RETURN (s, Err ErrConflict) ;;
          let bound (s : Store) :=
            (set_records s (<[id := set_status record StatusBound]> (records s)),
             Ok (publicRecord (set_status record StatusBound) now)) in
          let owner := owners s !! deviceID in
          IF match owner with Some owner => active owner | None => false end RETURN bound s ;;
          match newCanonicalID draw bindingBytes (binding_taken s) with
          | Err e => (s, Err e)
          | Ok bindingID =>
              IF match owner with
                 | Some owner => MaximumBindingRevision <=? BindingRevision (ownership owner)
                 | None => false
                 end
                RETURN (s, Err ErrConflict) ;;
              let revision := match owner with
                              | Some owner => BindingRevision (ownership owner) + 1
                              | None => 1
                              end in
              bound (set_owners s
                (<[deviceID :=
                   {| ownership := {| OwnerID := r_userID record; TenantID := r_tenantID record;
                                      BindingID := bindingID; BindingRevision := revision |};
                      active := true |}]> (owners s)))
          end
      end
  end.

Definition Lookup (s : Store) (userID tenantID requestID : string) (now : Time) :
    Store * result error Record_ :=
  IF negb (ValidIdentifier userID 128) || negb (ValidIdentifier tenantID 128)
     || negb (ValidRequestID requestID) || IsZero now
    RETURN (s, Err ErrInvalid) ;;
  let s := cleanup now s in
  match records s !! requestID with
  | None => (s, Err ErrNotFound)
  | Some record =>
      IF negb (bool_decide (r_userID record = userID))
         || negb (bool_decide (r_tenantID record = tenantID))
        RETURN (s, Err ErrUnauthorized) ;;
      (s, Ok (publicRecord record now))
  end.

Definition Owner (s : Store) (deviceID : string) : result error (option Ownership) :=
  IF negb (ValidIdentifier deviceID 64) RETURN Err ErrInvalid ;;
  Ok match owners s !! deviceID with
     | Some owner => if active owner then Some (ownership owner) else None
     | None => None
     end.

(** The loop of [Owners] over the identifiers still to look up. *)
Fixpoint Owners_from (s : Store) (deviceIDs : list string) (seen : gset string)
    (found : gmap string Ownership) : result error (gmap string Ownership) :=
  match deviceIDs with
  | [] => Ok found
  | deviceID :: deviceIDs =>
      IF negb (ValidIdentifier deviceID 64) RETURN Err ErrInvalid ;;
      IF bool_decide (deviceID ∈ seen) RETURN Err ErrInvalid ;;
      let found := match owners s !! deviceID with
                   | Some entry => if active entry then <[deviceID := ownership entry]> found
                                   else found
                   | None => found
                   end in
      Owners_from s deviceIDs ({[deviceID]} ∪ seen) found
  end.

Definition Owners (s : Store) (deviceIDs : list string) :
    result error (gmap string Ownership) :=
  IF 1000 <? Z.of_nat (length deviceIDs) RETURN Err ErrInvalid ;;
  Owners_from s deviceIDs ∅ ∅.

Definition Release (s : Store) (userID tenantID deviceID : string) (now : Time) :
    Store * result error Ownership :=
  IF negb (ValidIdentifier userID 128) || negb (ValidIdentifier tenantID 128)
     || negb (ValidIdentifier deviceID 64) || IsZero now
    RETURN (s, Err ErrInvalid) ;;
  match owners s !! deviceID with
  | None => (s, Err ErrNotFound)
  | Some entry =>
      IF other_owner entry userID tenantID RETURN (s, Err ErrUnauthorized) ;;
      IF negb (active entry) RETURN (s, Ok (ownership entry)) ;;
      IF MaximumBindingRevision <=? BindingRevision (ownership entry)
        RETURN (s, Err ErrConflict) ;;
      let o := ownership entry in
      let o := {| OwnerID := OwnerID o; TenantID := TenantID o; BindingID := BindingID o;
                  BindingRevision := BindingRevision o + 1 |} in
      (set_owners s (<[deviceID := {| ownership := o; active := false |}]> (owners s)), Ok o)
  end.

(** ** Lemmas: [cleanup] *)

Definition expired (now : Time) (r : storedRecord) : bool := negb (After (r_expiresAt r) now).

(** What [cleanup] leaves of a record. *)
Definition cleaned (t : Duration) (now : Time) (r : storedRecord) : option storedRecord :=
  if negb (After (r_expiresAt r + t) now) then None
  else Some (if expired now r then set_status r StatusExpired else r).

(** What it leaves of an entry of the digest index. *)
Definition cleaned_index (now : Time) (rs : gmap string storedRecord) (d : bytes) (id : string) :
    option string :=
  match rs !! id with
  | Some r => if bool_decide (r_digest r = d) && expired now r then None else Some id
  | None => Some id
  end.

Lemma cleanup_one_records now s k r id :
  records s !! k = Some r →
  records (cleanup_one now s (k, r)) !! id =
  if bool_decide (id = k) then cleaned (ttl s) now r else records s !! id.
Proof.
  intros Hk. unfold cleanup_one, cleaned, expired.
  destruct (After (r_expiresAt r) now); cbn [negb];
    [|destruct (byDigest s !! _); [case_bool_decide|]]; cbn;
    destruct (After _ now); cbn; case_bool_decide; subst;
    by rewrite ?lookup_delete_eq, ?lookup_insert_eq, ?lookup_delete_ne, ?lookup_insert_ne.
Qed.

Lemma cleanup_one_index now s k r d :
  byDigest (cleanup_one now s (k, r)) !! d =
  if bool_decide (r_digest r = d) && expired now r && bool_decide (byDigest s !! d = Some k)
  then None else byDigest s !! d.
Proof.
  assert (byDigest (cleanup_one now s (k, r)) =
          if expired now r && bool_decide (byDigest s !! r_digest r = Some k)
          then delete (r_digest r) (byDigest s) else byDigest s) as ->.
  { unfold cleanup_one, expired. destruct (After (r_expiresAt r) now); cbn;
      destruct (byDigest s !! r_digest r) as [k'|]; cbn;
      try destruct (decide (k' = k)) as [->|Hne];
      rewrite ?bool_decide_true, ?bool_decide_false by (done || congruence); cbn;
      by destruct (After _ now). }
  destruct (expired now r); cbn; [|by rewrite andb_false_r].
  rewrite andb_true_r. destruct (decide (r_digest r = d)) as [<-|Hd].
  - rewrite (bool_decide_true (_ = r_digest r)) by done. cbn.
    case_bool_decide; [by rewrite lookup_delete_eq|done].
  - rewrite (bool_decide_false (_ = d)) by done. cbn.
    case_bool_decide; [by rewrite lookup_delete_ne|done].
Qed.

Lemma cleanup_one_frame now s e :
  ttl (cleanup_one now s e) = ttl s ∧ maxRecords (cleanup_one now s e) = maxRecords s ∧
  owners (cleanup_one now s e) = owners s ∧ appNonces (cleanup_one now s e) = appNonces s.
Proof.
  destruct e as [k r]. unfold cleanup_one.
  destruct (After (r_expiresAt r) now); cbn; [|destruct (byDigest s !! _); [case_bool_decide|]];
    cbn; by destruct (After _ now).
Qed.

Lemma cleanup_fold now l s :
  NoDup l.*1 → (∀ k r, (k, r) ∈ l → records s !! k = Some r) →
  let s' := fold_left (cleanup_one now) l s in
  let visited : gmap string storedRecord := list_to_map l in
  (∀ id, records s' !! id = match visited !! id with
                            | Some r => cleaned (ttl s) now r
                            | None => records s !! id
                            end) ∧
  (∀ d, byDigest s' !! d = match byDigest s !! d with
                           | Some id => cleaned_index now visited d id
                           | None => None
                           end) ∧
  ttl s' = ttl s ∧ maxRecords s' = maxRecords s ∧ owners s' = owners s ∧
  appNonces s' = appNonces s.
Proof.
  revert s. induction l as [|[k r] l IH]; intros s Hnd Hin; cbv zeta.
  { cbn. split_and!; try done. intros d. by destruct (byDigest s !! d). }
  cbn [fold_left list_to_map foldr uncurry fst snd]. apply NoDup_cons in Hnd as [Hk Hnd].
  change (foldr _ ∅ l) with (list_to_map l : gmap string storedRecord).
  assert (records s !! k = Some r) as Hkr by (apply Hin; by left).
  assert ((list_to_map l : gmap string storedRecord) !! k = None) as Hknone
    by by apply not_elem_of_list_to_map_1.
  destruct (cleanup_one_frame now s (k, r)) as (Ht & Hm & Ho & Hn).
  destruct (IH (cleanup_one now s (k, r)) Hnd) as (IH1 & IH2 & IH3 & IH4 & IH5 & IH6).
  { intros k' r' Hk'. rewrite cleanup_one_records by done. rewrite bool_decide_false.
    - apply Hin. by right.
    - intros ->. apply Hk. by apply list_elem_of_fmap_2 with (f := fst) in Hk'. }
  rewrite IH3, IH4, IH5, IH6. split_and!; try done.
  - intros id. rewrite IH1, cleanup_one_records, Ht by done.
    destruct (decide (id = k)) as [->|Hne].
    + by rewrite Hknone, bool_decide_true, lookup_insert_eq.
    + by rewrite lookup_insert_ne, bool_decide_false by done.
  - intros d. rewrite IH2, cleanup_one_index. destruct (byDigest s !! d) as [id|].
    2:{ rewrite (bool_decide_false (None = Some k)) by done. by rewrite andb_false_r. }
    unfold cleaned_index. destruct (decide (id = k)) as [->|Hne].
    + rewrite lookup_insert_eq, (bool_decide_true (Some k = Some k)), andb_true_r by done.
      destruct (_ && _); [done|]. by rewrite Hknone.
    + rewrite lookup_insert_ne, (bool_decide_false (Some id = Some k)), andb_false_r by congruence.
      done.
Qed.

Lemma cleanup_along_spec order now s :
  order ≡ₚ map_to_list (records s) →
  let s' := cleanup_along order now s in
  (∀ id, records s' !! id = records s !! id ≫= cleaned (ttl s) now) ∧
  (∀ d, byDigest s' !! d = byDigest s !! d ≫= cleaned_index now (records s) d) ∧
  ttl s' = ttl s ∧ maxRecords s' = maxRecords s ∧ owners s' = owners s ∧
  appNonces s' = map_keep (λ _ expires, After expires now) (appNonces s).
Proof.
  intros Hp. unfold cleanup_along. cbv zeta.
  set (s0 := set_appNonces s _).
  assert (NoDup order.*1) as Hnd by (rewrite Hp; apply NoDup_fst_map_to_list).
  assert ((list_to_map order : gmap string storedRecord) = records s) as Hvis.
  { rewrite <- (list_to_map_to_list (records s)). by apply list_to_map_proper. }
  destruct (cleanup_fold now order s0 Hnd) as (E1 & E2 & E3 & E4 & E5 & E6).
  { intros k r Hk. rewrite Hp in Hk. by apply elem_of_map_to_list in Hk. }
  rewrite E3, E4, E5, E6. split_and!; try done.
  - intros id. rewrite E1, Hvis. cbn. by destruct (records s !! id).
  - intros d. rewrite E2, Hvis. cbn. by destruct (byDigest s !! d).
Qed.

Lemma cleanup_spec now s :
  let s' := cleanup now s in
  (∀ id, records s' !! id = records s !! id ≫= cleaned (ttl s) now) ∧
  (∀ d, byDigest s' !! d = byDigest s !! d ≫= cleaned_index now (records s) d) ∧
  ttl s' = ttl s ∧ maxRecords s' = maxRecords s ∧ owners s' = owners s ∧
  appNonces s' = map_keep (λ _ expires, After expires now) (appNonces s).
Proof. by apply cleanup_along_spec. Qed.

Lemma cleanup_owners now s : owners (cleanup now s) = owners s.
Proof. apply cleanup_spec. Qed.

Lemma cleanup_ttl now s : ttl (cleanup now s) = ttl s.
Proof. apply cleanup_spec. Qed.

(** The iteration order of the records does not matter. *)
Lemma cleanup_any_order order now s :
  order ≡ₚ map_to_list (records s) → cleanup_along order now s = cleanup now s.
Proof.
  intros Hp. destruct (cleanup_along_spec order now s Hp) as (E1 & E2 & E3 & E4 & E5 & E6).
  destruct (cleanup_spec now s) as (F1 & F2 & F3 & F4 & F5 & F6).
  destruct (cleanup_along order now s), (cleanup now s). cbn in *. subst. f_equal; [|].
  - apply map_eq. intros. by rewrite E1, F1.
  - apply map_eq. intros. by rewrite E2, F2.
Qed.

#[local] Hint Rewrite cleanup_owners cleanup_ttl : gateway.

(** ** Lemmas: the index invariant *)

(** Every entry of the index leads to the record that holds the digest, under the
    record's own identifier; two records never share a live digest. *)
Definition index_inv (s : Store) : Prop :=
  (∀ d id, byDigest s !! d = Some id → ∃ r, records s !! id = Some r ∧ r_digest r = d) ∧
  (∀ id r, records s !! id = Some r → r_requestID r = id).

Lemma cleaned_Some t now r r' :
  cleaned t now r = Some r' →
  (r' = r ∨ r' = set_status r StatusExpired ∧ expired now r = true) ∧ now < r_expiresAt r + t.
Proof.
  unfold cleaned. destruct (After (_ + _) now) eqn:E; cbn; [|done].
  apply After_spec in E. destruct (expired now r) eqn:He; intros [= <-]; auto.
Qed.

Lemma cleanup_record now s id r' :
  records (cleanup now s) !! id = Some r' →
  ∃ r, records s !! id = Some r ∧
    (r' = r ∨ r' = set_status r StatusExpired ∧ expired now r = true).
Proof.
  destruct (cleanup_spec now s) as (-> & _). destruct (records s !! id) as [r|]; [|done].
  cbn. intros [? _]%cleaned_Some. eauto.
Qed.

Lemma cleanup_record_fields now s id r' :
  records (cleanup now s) !! id = Some r' →
  ∃ r, records s !! id = Some r ∧ r_requestID r' = r_requestID r ∧ r_userID r' = r_userID r ∧
    r_tenantID r' = r_tenantID r ∧ r_deviceID r' = r_deviceID r ∧ r_digest r' = r_digest r ∧
    r_expiresAt r' = r_expiresAt r.
Proof. intros (r & Hr & [->|[-> _]])%cleanup_record; exists r; by split_and!. Qed.

Lemma cleanup_index now s :
  0 < ttl s → index_inv s → index_inv (cleanup now s) ∧
  ∀ d id, byDigest (cleanup now s) !! d = Some id →
    ∃ r, records (cleanup now s) !! id = Some r ∧ r_digest r = d ∧ now < r_expiresAt r.
Proof.
  intros Ht [Hidx Hid].
  assert (∀ d id, byDigest (cleanup now s) !! d = Some id →
    ∃ r, records (cleanup now s) !! id = Some r ∧ r_digest r = d ∧ now < r_expiresAt r) as Hlive.
  { intros d id Hd. destruct (cleanup_spec now s) as (E1 & E2 & _). rewrite E2 in Hd.
    destruct (byDigest s !! d) as [id'|] eqn:Hd'; [|done]. cbn in Hd.
    unfold cleaned_index in Hd. destruct (Hidx d id' Hd') as (r & Hr & Hdig). rewrite Hr in Hd.
    rewrite bool_decide_true in Hd by done. cbn in Hd.
    destruct (expired now r) eqn:He; [done|]. injection Hd as ->.
    exists r. rewrite E1, Hr. cbn. unfold cleaned, expired, After in *. split_bools.
    rewrite (proj2 (Z.ltb_lt _ _)) by lia. cbn.
    by rewrite (proj2 (Z.ltb_lt now (r_expiresAt r))) by lia. }
  split; [|done]. split.
  - intros d id (r & ? & ? & _)%Hlive. eauto.
  - intros id r' (r & Hr & -> & _)%cleanup_record_fields. by apply Hid.
Qed.

(** ** Histories *)

Inductive op : Type :=
| OBegin (draw : source) (userID tenantID deviceID code appNonce : string) (now : Time)
| OConfirm (draw : source) (deviceID code : string) (now : Time)
| OLookup (userID tenantID requestID : string) (now : Time)
| ORelease (userID tenantID deviceID : string) (now : Time).

Definition op_time (o : op) : Time :=
  match o with
  | OBegin _ _ _ _ _ _ t | OConfirm _ _ _ t | OLookup _ _ _ t | ORelease _ _ _ t => t
  end.

Definition exec (s : Store) (o : op) : Store * bool :=
  match o with
  | OBegin draw u t d code nonce now => let '(s, r) := Begin draw s u t d code nonce now in (s, is_ok r)
  | OConfirm draw d code now => let '(s, r) := Confirm draw s d code now in (s, is_ok r)
  | OLookup u t id now => let '(s, r) := Lookup s u t id now in (s, is_ok r)
  | ORelease u t d now => let '(s, r) := Release s u t d now in (s, is_ok r)
  end.

Definition execs (s : Store) (ops : list op) : Store := fold_left (λ s o, (exec s o).1) ops s.

(** [reach s h]: [s] is reached from a new store and [h] are the operations that
    succeeded on the way, the latest first. The random source reads full
    buffers. *)
Definition op_source_ok (o : op) : Prop :=
  match o with OBegin draw _ _ _ _ _ _ | OConfirm draw _ _ _ => reads_full draw | _ => True end.

Inductive reach : Store → list op → Prop :=
| reach_init t m s : NewStore t m = Ok s → reach s []
| reach_exec s h o s' ok :
    reach s h → op_source_ok o → exec s o = (s', ok) → reach s' (if ok then o :: h else h).

(** ** Lemmas: one operation *)

Lemma newCanonicalID_Ok draw size taken id :
  newCanonicalID draw size taken = Ok id →
  taken id = false ∧ ∃ n raw, draw size n = Some raw ∧ id = EncodeToString raw.
Proof.
  unfold newCanonicalID. generalize 4%nat as k. generalize 0%nat as n.
  intros n k. revert n. induction k as [|k IH]; intros n; [done|]. cbn.
  destruct (draw size n) as [raw|] eqn:Hd; [|done].
  destruct (taken (EncodeToString raw)) eqn:Ht; cbn; [apply IH|].
  intros [= <-]. eauto.
Qed.

#[global] Arguments newCanonicalID : simpl never.

(** The new record of a successful [Begin]. *)
Definition new_record (s : Store) (u t d code id : string) (now : Time) : storedRecord :=
  {| r_requestID := id; r_userID := u; r_tenantID := t; r_deviceID := d;
     r_digest := claimDigest code; r_status := StatusPending; r_expiresAt := now + ttl s |}.

(** Every way out of [Begin]: the arguments are refused, only the cleanup is
    visible, the nonce is recorded too, or a record is added as well. *)
Inductive begin_result (s : Store) (u t d code nonce : string) (now : Time) :
    Store → result error Record_ → Prop :=
| begin_invalid : begin_result s u t d code nonce now s (Err ErrInvalid)
| begin_clean e : begin_result s u t d code nonce now (cleanup now s) (Err e)
| begin_nonce r :
    appNonces (cleanup now s) !! nonceKey t u nonce = None →
    (∀ v, r = Ok v → ∃ id record, byDigest (cleanup now s) !! claimDigest code = Some id ∧
       records (cleanup now s) !! id = Some record ∧ r_userID record = u ∧
       r_tenantID record = t ∧ r_deviceID record = d ∧ now < r_expiresAt record) →
    begin_result s u t d code nonce now
      (set_appNonces (cleanup now s)
         (<[nonceKey t u nonce := now + ttl s]> (appNonces (cleanup now s)))) r
| begin_new id v :
    appNonces (cleanup now s) !! nonceKey t u nonce = None →
    byDigest (cleanup now s) !! claimDigest code = None →
    records (cleanup now s) !! id = None →
    begin_result s u t d code nonce now
      {| ttl := ttl s; maxRecords := maxRecords s;
         records := <[id := new_record s u t d code id now]> (records (cleanup now s));
         byDigest := <[claimDigest code := id]> (byDigest (cleanup now s));
         owners := owners s;
         appNonces := <[nonceKey t u nonce := now + ttl s]> (appNonces (cleanup now s)) |}
      (Ok v).

Lemma Begin_cases draw s u t d code nonce now s' r :
  Begin draw s u t d code nonce now = (s', r) → begin_result s u t d code nonce now s' r.
Proof.
  unfold Begin. guard Hv; [intros [= <- <-]; constructor|].
  guard Hrep; [intros [= <- <-]; constructor|]. guard Hcap; [intros [= <- <-]; constructor|].
  assert (appNonces (cleanup now s) !! nonceKey t u nonce = None) as Hfree.
  { destruct (cleanup_spec now s) as (_ & _ & _ & _ & _ & E). rewrite E in *.
    destruct (map_keep _ _ !! nonceKey t u nonce) eqn:Hk; [|done].
    apply map_keep_Some in Hk as [_ Hk]. congruence. }
  cbn. rewrite cleanup_ttl.
  destruct (byDigest (cleanup now s) !! claimDigest code) as [id|] eqn:Hd.
  { destruct (records (cleanup now s) !! id) as [e|] eqn:He;
      [|intros [= <- <-]; by constructor].
    guard Hm; [intros [= <- <-]; by constructor|]. intros [= <- <-].
    constructor; [done|]. intros v _.
    split_bools. rewrite After_spec in *. eauto 10. }
  guard Ho; [intros [= <- <-]; by constructor|]. guard Hc; [intros [= <- <-]; by constructor|].
  unfold newRequestID.
  destruct (newCanonicalID _ _ _) as [id|e] eqn:Hid; [|intros [= <- <-]; by constructor].
  apply newCanonicalID_Ok in Hid as [Hid%bool_decide_eq_false _].
  apply eq_None_not_Some in Hid. intros [= <- <-].
  unfold set_byDigest, set_records, set_appNonces. cbn.
  rewrite ?cleanup_ttl, ?cleanup_owners.
  assert (maxRecords (cleanup now s) = maxRecords s) as -> by apply cleanup_spec.
  by apply begin_new.
Qed.

(** The entry that [Confirm] makes for a device that has no active owner. *)
Definition next_revision (e : option ownershipEntry) : Z :=
  match e with Some e => BindingRevision (ownership e) + 1 | None => 1 end.
Definition owned (e : option ownershipEntry) : bool :=
  match e with Some e => active e | None => false end.

Inductive confirm_result (draw : source) (s : Store) (d code : string) (now : Time) :
    Store → result error Record_ → Prop :=
| confirm_invalid : confirm_result draw s d code now s (Err ErrInvalid)
| confirm_clean e : confirm_result draw s d code now (cleanup now s) (Err e)
| confirm_bound id record os :
    byDigest (cleanup now s) !! claimDigest code = Some id →
    records (cleanup now s) !! id = Some record → r_deviceID record = d →
    now < r_expiresAt record →
    (owned (owners s !! d) = true ∧ os = owners s ∧
       (∀ e, owners s !! d = Some e → OwnerID (ownership e) = r_userID record ∧
          TenantID (ownership e) = r_tenantID record) ∨
     owned (owners s !! d) = false ∧ ∃ bid,
       binding_taken s bid = false ∧ (∃ n raw, draw bindingBytes n = Some raw ∧
                                      bid = EncodeToString raw) ∧
       next_revision (owners s !! d) ≤ MaximumBindingRevision ∧
       os = <[d := {| ownership := {| OwnerID := r_userID record;
                TenantID := r_tenantID record; BindingID := bid;
                BindingRevision := next_revision (owners s !! d) |}; active := true |}]>
              (owners s)) →
    confirm_result draw s d code now
      {| ttl := ttl s; maxRecords := maxRecords s;
         records := <[id := set_status record StatusBound]> (records (cleanup now s));
         byDigest := byDigest (cleanup now s); owners := os;
         appNonces := appNonces (cleanup now s) |}
      (Ok (publicRecord (set_status record StatusBound) now)).

Lemma binding_taken_owners s s' bid :
  owners s' = owners s → binding_taken s' bid = binding_taken s bid.
Proof. unfold binding_taken. by intros ->. Qed.

Lemma other_owner_false e u t :
  other_owner e u t = false → OwnerID (ownership e) = u ∧ TenantID (ownership e) = t.
Proof. unfold other_owner. intros. split_bools. done. Qed.

Lemma Confirm_cases draw s d code now s' r :
  Confirm draw s d code now = (s', r) → confirm_result draw s d code now s' r.
Proof.
  unfold Confirm. guard Hv; [intros [= <- <-]; constructor|]. cbv zeta.
  destruct (byDigest (cleanup now s) !! claimDigest code) as [id|] eqn:Hd;
    [|intros [= <- <-]; constructor].
  destruct (records (cleanup now s) !! id) as [record|] eqn:He; [|intros [= <- <-]; constructor].
  guard Hdev; [intros [= <- <-]; constructor|]. guard Hexp; [intros [= <- <-]; constructor|].
  rewrite cleanup_owners. guard Hother; [intros [= <- <-]; constructor|].
  split_bools. apply After_spec in Hexp.
  assert (maxRecords (cleanup now s) = maxRecords s) as Hmax by apply cleanup_spec.
  change (match owners s !! d with Some owner => active owner | None => false end)
    with (owned (owners s !! d)).
  destruct (owned (owners s !! d)) eqn:Hown.
  - intros [= <- <-]. unfold set_records. rewrite cleanup_ttl, Hmax, cleanup_owners.
    eapply confirm_bound; try done. left. split_and!; try done. intros e Hd'. rewrite Hd' in *.
    cbn in Hown. rewrite Hown in Hother. by apply other_owner_false.
  - destruct (newCanonicalID _ _ _) as [bid|e] eqn:Hbid; [|intros [= <- <-]; constructor].
    apply newCanonicalID_Ok in Hbid as [Hfresh Hraw].
    rewrite (binding_taken_owners s) in Hfresh by apply cleanup_owners.
    guard Hrev; [intros [= <- <-]; constructor|].
    intros [= <- <-]. unfold set_records, set_owners. cbn. rewrite cleanup_ttl, Hmax.
    eapply confirm_bound; try done. right. split; [done|]. exists bid. split_and!; try done.
    unfold next_revision. destruct (owners s !! d); [|done]. split_bools.
    unfold MaximumBindingRevision in *. lia.
Qed.

Lemma Lookup_store s u t id now : (Lookup s u t id now).1 = s ∨ (Lookup s u t id now).1 = cleanup now s.
Proof.
  unfold Lookup. destruct (_ || IsZero now); [by left|]. cbv zeta. right.
  destruct (records (cleanup now s) !! id); [|done]. by destruct (_ || _).
Qed.

Inductive release_result (s : Store) (u t d : string) : Store → result error Ownership → Prop :=
| release_err e : release_result s u t d s (Err e)
| release_again e :
    owners s !! d = Some e → active e = false → release_result s u t d s (Ok (ownership e))
| release_done o :
    owners s !! d = Some {| ownership := o; active := true |} →
    OwnerID o = u → TenantID o = t → BindingRevision o < MaximumBindingRevision →
    let o' := {| OwnerID := u; TenantID := t; BindingID := BindingID o;
                 BindingRevision := BindingRevision o + 1 |} in
    release_result s u t d
      (set_owners s (<[d := {| ownership := o'; active := false |}]> (owners s))) (Ok o').

Lemma Release_cases s u t d now s' r :
  Release s u t d now = (s', r) → release_result s u t d s' r.
Proof.
  unfold Release. guard Hv; [intros [= <- <-]; constructor|].
  destruct (owners s !! d) as [ [o act] |] eqn:Hd; [|intros [= <- <-]; constructor].
  guard Hoth; [intros [= <- <-]; constructor|]. apply other_owner_false in Hoth as [<- <-]. cbn.
  destruct act; cbn.
  - guard Hrev; [intros [= <- <-]; constructor|]. split_bools. intros [= <- <-].
    by apply release_done.
  - intros [= <- <-]. by apply (release_again _ _ _ _ _ Hd).
Qed.

(** ** Lemmas: ownership *)

Definition revision (s : Store) (d : string) : Z :=
  match owners s !! d with Some e => BindingRevision (ownership e) | None => 0 end.

(** The three things that can happen to the entry of a device in one operation. *)
Inductive owner_change (o : op) (d : string) :
    option ownershipEntry → option ownershipEntry → Prop :=
| change_none e : owner_change o d e e
| change_bound e e' draw code now :
    o = OConfirm draw d code now → owned e = false → active e' = true →
    BindingRevision (ownership e') = next_revision e → owner_change o d e (Some e')
| change_released w now :
    o = ORelease (OwnerID w) (TenantID w) d now →
    owner_change o d (Some {| ownership := w; active := true |})
      (Some {| ownership := {| OwnerID := OwnerID w; TenantID := TenantID w;
                               BindingID := BindingID w;
                               BindingRevision := BindingRevision w + 1 |}; active := false |}).

Lemma exec_owner s o d : owner_change o d (owners s !! d) (owners (exec s o).1 !! d).
Proof.
  destruct o as [draw u t d' code nonce now|draw d' code now|u t id now|u t d' now]; cbn.
  - destruct (Begin _ _ _ _ _ _ _ _) as [s' r] eqn:E. cbn.
    apply Begin_cases in E as [|e|r0 _ _|id v _ _ _]; cbn; rewrite ?cleanup_owners; constructor.
  - destruct (Confirm _ _ _ _ _) as [s' r] eqn:E. cbn.
    apply Confirm_cases in E as [|e|id rec os _ _ _ _ [(_ & -> & _)|(Ho & bid & _ & _ & _ & ->)]];
      cbn; rewrite ?cleanup_owners; try constructor.
    destruct (decide (d = d')) as [->|Hne].
    + rewrite lookup_insert_eq. by eapply change_bound.
    + rewrite lookup_insert_ne by done. constructor.
  - pose proof (Lookup_store s u t id now) as Hl. destruct (Lookup _ _ _ _ _) as [s' r].
    cbn in *. destruct Hl as [->| ->]; rewrite ?cleanup_owners; constructor.
  - destruct (Release _ _ _ _ _) as [s' r] eqn:E. cbn.
    apply Release_cases in E as [e|e _ _|w Hd <- <- _]; try constructor. cbn.
    destruct (decide (d = d')) as [->|Hne].
    + rewrite lookup_insert_eq, Hd. by eapply change_released.
    + rewrite lookup_insert_ne by done. constructor.
Qed.

(** A device's revision never goes down, and stays only when nothing changes. *)
Lemma exec_revision s o d :
  revision s d ≤ revision (exec s o).1 d ∧
  (revision (exec s o).1 d = revision s d → owners (exec s o).1 !! d = owners s !! d).
Proof.
  unfold revision. destruct (exec_owner s o d) as [e|e e' draw code now _ _ _ Hrev|w now _].
  - split; [lia|done].
  - rewrite Hrev. unfold next_revision. destruct e; (split; [lia|intros; lia]).
  - cbn. split; [lia|intros; lia].
Qed.

Lemma execs_revision s ops d :
  revision s d ≤ revision (execs s ops) d ∧
  (revision (execs s ops) d = revision s d → owners (execs s ops) !! d = owners s !! d).
Proof.
  unfold execs. revert s. induction ops as [|o ops IH]; intros s; cbn [fold_left]; [split; [lia|done]|].
  destruct (IH (exec s o).1) as [H1 H2], (exec_revision s o d) as [H3 H4].
  split; [lia|]. intros Heq. rewrite H2 by lia. apply H4. lia.
Qed.

(** An ownership that was given up never comes back. Once the entry of a
    device has changed, for whatever reason and through whatever operations, every
    later owner of the device has a higher binding revision, so a credential that
    names the old owner, tenant, binding and revision never matches again. *)
Theorem released_binding_never_returns s ops ops' d o o' :
  Owner s d = Ok (Some o) →
  owners (execs s ops) !! d ≠ owners s !! d →
  Owner (execs s (ops ++ ops')) d = Ok (Some o') →
  BindingRevision o < BindingRevision o' ∧
  Matches o' (OwnerID o) (TenantID o) (BindingID o) (BindingRevision o) = false.
Proof.
  intros H1 Hch H2.
  assert (revision s d = BindingRevision o) as E1.
  { unfold Owner, revision in *. repeat case_match; by simplify_eq. }
  assert (revision (execs s (ops ++ ops')) d = BindingRevision o') as E2.
  { unfold Owner, revision in *. repeat case_match; by simplify_eq. }
  destruct (execs_revision s ops d) as [H3 H4].
  assert (execs s (ops ++ ops') = execs (execs s ops) ops') as E3.
  { unfold execs. apply fold_left_app. }
  destruct (execs_revision (execs s ops) ops' d) as [H5 _]. rewrite <- E3 in H5.
  assert (BindingRevision o < BindingRevision o') as Hlt.
  { destruct (decide (revision (execs s ops) d = revision s d)); [by destruct Hch; auto|lia]. }
  split; [done|]. unfold Matches. rewrite (proj2 (Z.eqb_neq (BindingRevision o') _)) by lia.
  by rewrite !andb_false_r.
Qed.

(** *** Reachable stores *)

(** The entries of the ownership map are well formed: a valid binding, a revision
    in range which is odd exactly while the device is owned, and no two devices
    with one binding. *)
Definition owners_inv (os : gmap string ownershipEntry) : Prop :=
  (∀ d e, os !! d = Some e →
     ValidBindingID (BindingID (ownership e)) = true ∧
     1 ≤ BindingRevision (ownership e) ≤ MaximumBindingRevision ∧
     Z.odd (BindingRevision (ownership e)) = active e) ∧
  (∀ d d' e e', os !! d = Some e → os !! d' = Some e' →
     BindingID (ownership e) = BindingID (ownership e') → d = d').

Lemma binding_taken_false s bid d e :
  binding_taken s bid = false → owners s !! d = Some e → BindingID (ownership e) ≠ bid.
Proof.
  unfold binding_taken. intros Hf He Hb. apply not_true_iff_false in Hf. apply Hf.
  apply existsb_exists. exists (d, e). split; [|by apply bool_decide_eq_true].
  by apply list_elem_of_In, elem_of_map_to_list.
Qed.

Lemma owners_inv_insert os d e :
  owners_inv os →
  ValidBindingID (BindingID (ownership e)) = true →
  1 ≤ BindingRevision (ownership e) ≤ MaximumBindingRevision →
  Z.odd (BindingRevision (ownership e)) = active e →
  (∀ d' e', d' ≠ d → os !! d' = Some e' → BindingID (ownership e') ≠ BindingID (ownership e)) →
  owners_inv (<[d := e]> os).
Proof.
  intros [Hwf Hinj] Hb Hr Ho Hfresh. split.
  - intros d' e' [[<- <-]|[_ He']]%lookup_insert_Some; [done|by eapply Hwf].
  - intros d1 d2 e1 e2 [[<- <-]|[Hne1 He1]]%lookup_insert_Some
      [[<- <-]|[Hne2 He2]]%lookup_insert_Some Heq; [done| | |by eapply Hinj].
    + by destruct (Hfresh d2 e2).
    + by destruct (Hfresh d1 e1).
Qed.

Lemma next_revision_odd os d :
  owners_inv os → owned (os !! d) = false → Z.odd (next_revision (os !! d)) = true ∧
  1 ≤ next_revision (os !! d).
Proof.
  intros [Hwf _] Ho. unfold next_revision, owned in *. destruct (os !! d) as [e|] eqn:He; [|done].
  destruct (Hwf d e He) as (_ & Hr & Hodd). rewrite Z.odd_add, Hodd, Ho. split; [done|lia].
Qed.

Lemma exec_owners_inv s o :
  op_source_ok o → owners_inv (owners s) → owners_inv (owners (exec s o).1).
Proof.
  intros Hsrc Hinv.
  destruct o as [draw u t d code nonce now|draw d code now|u t id now|u t d now]; cbn in *.
  - destruct (Begin _ _ _ _ _ _ _ _) as [s' r] eqn:E. cbn.
    apply Begin_cases in E as [|e|r0 _ _|id v _ _ _]; cbn; by rewrite ?cleanup_owners.
  - destruct (Confirm _ _ _ _ _) as [s' r] eqn:E. cbn.
    apply Confirm_cases in E as
      [|e|id rec os _ _ _ _ [(_ & -> & _)|(Ho & bid & Hfresh & (n & raw & Hraw & ->) & Hmax & ->)]];
      cbn; rewrite ?cleanup_owners; try done.
    destruct (next_revision_odd _ _ Hinv Ho) as [Hodd Hpos].
    apply owners_inv_insert; cbn; try done.
    + apply canonical_b64_iff. exists raw. split; [by eapply Hsrc|done].
    + intros d' e' _ He'. by eapply binding_taken_false.
  - pose proof (Lookup_store s u t id now) as Hl. destruct (Lookup _ _ _ _ _) as [s' r].
    cbn in *. destruct Hl as [->| ->]; by rewrite ?cleanup_owners.
  - destruct (Release _ _ _ _ _) as [s' r] eqn:E. cbn.
    apply Release_cases in E as [e|e _ _|w Hd <- <- Hmax]; try done. cbn.
    pose proof (proj1 Hinv d _ Hd) as (Hb & Hr & Hodd). cbn in *.
    apply owners_inv_insert; cbn; try done; [lia|by rewrite Z.odd_add, Hodd|].
    intros d' e' Hne He' Heq. apply Hne. by eapply (proj2 Hinv).
Qed.

(** In every reachable store the ownership records are usable and unambiguous:
    each binding identifier and revision is valid, so the record matches itself, no
    two devices share a binding identifier, and the revision is odd exactly while
    the device is owned. *)
Theorem ownership_well_formed s h d :
  reach s h →
  match owners s !! d with
  | None => revision s d = 0
  | Some e =>
      let o := ownership e in
      Matches o (OwnerID o) (TenantID o) (BindingID o) (BindingRevision o) = true ∧
      Z.odd (BindingRevision o) = active e ∧
      ∀ d' e', owners s !! d' = Some e' → BindingID (ownership e') = BindingID o → d' = d
  end.
Proof.
  intros Hr. assert (owners_inv (owners s)) as [Hwf Hinj].
  { induction Hr as [t m s Hm|s h o s' ok _ IH Hsrc Ho].
    - unfold NewStore in Hm. case_match; simplify_eq. done.
    - apply (exec_owners_inv _ o Hsrc) in IH. by rewrite Ho in IH. }
  unfold revision. destruct (owners s !! d) as [e|] eqn:He; [|done]. cbn.
  destruct (Hwf d e He) as (Hb & Hrev & Hodd). split_and!; [|done|].
  - unfold Matches, ValidBindingRevision. rewrite !bool_decide_true, Z.eqb_refl, Hb by done.
    cbn. apply andb_true_iff. rewrite Z.ltb_lt, Z.leb_le. lia.
  - intros d' e' He' Heq. by eapply Hinj.
Qed.

(** *** What a record says of the history *)

(** The user [r_userID] of tenant [r_tenantID] began the claim of the device with
    the code the digest stands for, [ttl] before the expiry. *)
Definition begun (h : list op) (t : Duration) (r : storedRecord) : Prop :=
  ∃ draw code nonce t0,
    OBegin draw (r_userID r) (r_tenantID r) (r_deviceID r) code nonce t0 ∈ h ∧
    r_digest r = claimDigest code ∧ r_expiresAt r = t0 + t.

Definition records_inv (s : Store) (h : list op) : Prop :=
  ∀ id r, records s !! id = Some r → begun h (ttl s) r.

Lemma begun_cons h o t r : begun h t r → begun (o :: h) t r.
Proof. unfold begun. intros (? & ? & ? & ? & ? & ?). eauto 10 using list_elem_of_further. Qed.

Lemma begun_fields h t r r' :
  begun h t r → r_userID r' = r_userID r → r_tenantID r' = r_tenantID r →
  r_deviceID r' = r_deviceID r → r_digest r' = r_digest r → r_expiresAt r' = r_expiresAt r →
  begun h t r'.
Proof. unfold begun. by intros ? -> -> -> -> ->. Qed.

Lemma cleanup_records_inv now s h : records_inv s h → records_inv (cleanup now s) h.
Proof.
  intros Hinv id r' (r & Hr & _ & ? & ? & ? & ? & ?)%cleanup_record_fields.
  rewrite cleanup_ttl. eapply begun_fields; [by eapply Hinv|done..].
Qed.

Lemma records_inv_grow s h o : records_inv s h → records_inv s (o :: h).
Proof. intros Hinv id r Hr. by eapply begun_cons, Hinv. Qed.

Lemma records_inv_same s s' h :
  records_inv s h → records s' = records s → ttl s' = ttl s → records_inv s' h.
Proof. unfold records_inv. by intros ? -> ->. Qed.

Lemma exec_records_inv s h o s' ok :
  records_inv s h → exec s o = (s', ok) → records_inv s' (if ok then o :: h else h).
Proof.
  intros Hinv Ho. assert (∀ g, (g = h ∨ g = o :: h) → records_inv s g ∧
    ∀ now, records_inv (cleanup now s) g) as Hg.
  { intros g [->| ->]; split; intros; eauto using cleanup_records_inv, records_inv_grow. }
  assert ((if ok then o :: h else h) = h ∨ (if ok then o :: h else h) = o :: h) as Hcase
    by (destruct ok; auto).
  destruct (Hg _ Hcase) as [Hs Hc]. clear Hg Hcase. revert Hs Hc.
  destruct o as [draw u t d code nonce now|draw d code now|u t id now|u t d now]; cbn in Ho.
  - destruct (Begin _ _ _ _ _ _ _ _) as [s1 r1] eqn:E. injection Ho as <- <-.
    apply Begin_cases in E as [|e|r0 _ _|id v _ _ _]; intros Hs Hc; try done;
      [by eapply records_inv_same; [apply (Hc now)|..]|].
    intros id' r. cbn. intros [[<- <-]|[_ Hr]]%lookup_insert_Some.
    + exists draw, code, nonce, now. split_and!; [by left|done..].
    + rewrite <- (cleanup_ttl now). by eapply (Hc now).
  - destruct (Confirm _ _ _ _ _) as [s1 r1] eqn:E. injection Ho as <- <-.
    apply Confirm_cases in E as [|e|id rec os _ Hrec _ _ _]; intros Hs Hc; try done.
    intros id' r. cbn. rewrite <- (cleanup_ttl now).
    intros [[<- <-]|[_ Hr]]%lookup_insert_Some; [|by eapply (Hc now)].
    eapply begun_fields; [by eapply (Hc now)|done..].
  - pose proof (Lookup_store s u t id now) as Hl. destruct (Lookup _ _ _ _ _) as [s1 r1].
    cbn in *. injection Ho as <- <-. intros Hs Hc. by destruct Hl as [->| ->].
  - destruct (Release _ _ _ _ _) as [s1 r1] eqn:E. injection Ho as <- <-.
    by apply Release_cases in E as [e|e _ _|w Hd _ _ _]; intros Hs Hc.
Qed.

Lemma reach_records_inv s h : reach s h → records_inv s h.
Proof.
  induction 1 as [t m s Hm|s h o s' ok _ IH _ Ho]; [|by eapply exec_records_inv].
  unfold NewStore in Hm. case_match; simplify_eq. done.
Qed.

Lemma exec_ttl s o : ttl (exec s o).1 = ttl s.
Proof.
  destruct o as [draw u t d code nonce now|draw d code now|u t id now|u t d now]; cbn.
  - destruct (Begin _ _ _ _ _ _ _ _) as [s1 r1] eqn:E.
    apply Begin_cases in E as [|e|r0 _ _|id v _ _ _]; cbn; by rewrite ?cleanup_ttl.
  - destruct (Confirm _ _ _ _ _) as [s1 r1] eqn:E.
    apply Confirm_cases in E as [|e|id rec os _ Hrec _ _ _]; cbn; by rewrite ?cleanup_ttl.
  - pose proof (Lookup_store s u t id now) as Hl. destruct (Lookup _ _ _ _ _) as [s1 r1].
    cbn in *. destruct Hl as [->| ->]; by rewrite ?cleanup_ttl.
  - destruct (Release _ _ _ _ _) as [s1 r1] eqn:E.
    by apply Release_cases in E as [e|e _ _|w Hd _ _ _].
Qed.

(** *** The digest index stays exact *)

Lemma exec_index_inv s o : 0 < ttl s → index_inv s → index_inv (exec s o).1.
Proof.
  intros Ht Hinv. assert (∀ now, index_inv (cleanup now s)) as Hc
    by (intros now; by apply cleanup_index).
  destruct o as [draw u t d code nonce now|draw d code now|u t id now|u t d now]; cbn.
  - destruct (Begin _ _ _ _ _ _ _ _) as [s1 r1] eqn:E.
    apply Begin_cases in E as [|e|r0 _ _|id v _ Hnone Hfresh]; cbn; try done; [exact (Hc now)|].
    destruct (Hc now) as [Hidx Hid]. split; cbn.
    + intros d' id' [[<- <-]|[Hne Hd']]%lookup_insert_Some.
      { rewrite lookup_insert_eq. eauto. }
      destruct (Hidx d' id' Hd') as (r & Hr & Hdig). exists r. split; [|done].
      rewrite lookup_insert_ne; [done|congruence].
    + intros id' r [[<- <-]|[_ Hr]]%lookup_insert_Some; [done|by apply Hid].
  - destruct (Confirm _ _ _ _ _) as [s1 r1] eqn:E.
    apply Confirm_cases in E as [|e|id rec os _ Hrec _ _ _]; cbn; try done.
    destruct (Hc now) as [Hidx Hid]. split; cbn.
    + intros d' id' Hd'. destruct (Hidx d' id' Hd') as (r & Hr & Hdig).
      destruct (decide (id = id')) as [<-|Hne].
      * rewrite lookup_insert_eq. simplify_eq. eauto.
      * rewrite lookup_insert_ne by done. eauto.
    + intros id' r [[<- <-]|[_ Hr]]%lookup_insert_Some; [|by apply Hid].
      exact (Hid _ _ Hrec).
  - pose proof (Lookup_store s u t id now) as Hl. destruct (Lookup _ _ _ _ _) as [s1 r1].
    cbn in *. by destruct Hl as [->| ->].
  - destruct (Release _ _ _ _ _) as [s1 r1] eqn:E.
    by apply Release_cases in E as [e|e _ _|w Hd _ _ _].
Qed.

Lemma reach_index_inv s h : reach s h → 0 < ttl s ∧ index_inv s.
Proof.
  induction 1 as [t m s Hm|s h o s' ok _ [IHt IH] _ Ho].
  - unfold NewStore in Hm. case_match; simplify_eq. split_bools. cbn.
    assert (0 < minute) by done. split; [lia|]. done.
  - pose proof (exec_ttl s o) as Ht. pose proof (exec_index_inv s o IHt IH) as Hi.
    rewrite Ho in Ht, Hi. cbn in *. split; [lia|done].
Qed.

(** A device is bound only by both sides. When [Confirm] succeeds, the device is
    owned by a user and tenant who began the claim of this very device with a code
    of the same digest, less than [ttl] before, and that [Begin] is in the history;
    a device that is already owned keeps its owner. *)
Theorem confirm_needs_both_sides s h draw d code now s' rec :
  reach s h → Confirm draw s d code now = (s', Ok rec) →
  ∃ draw0 u t code0 nonce t0 o,
    OBegin draw0 u t d code0 nonce t0 ∈ h ∧ claimDigest code0 = claimDigest code ∧
    now < t0 + ttl s ∧ Owner s' d = Ok (Some o) ∧ OwnerID o = u ∧ TenantID o = t ∧
    (∀ e, owners s !! d = Some e → active e = true → o = ownership e).
Proof.
  intros Hr E. assert (ValidIdentifier d 64 = true) as Hd.
  { revert E. unfold Confirm. guard Hv. intros _. by split_bools. }
  pose proof (reach_index_inv _ _ Hr) as [Ht Hidx].
  apply (cleanup_index now) in Hidx as [ [Hidx _] _]; [|done].
  apply reach_records_inv, (cleanup_records_inv now) in Hr.
  apply Confirm_cases in E. inversion E as [| |id r os Hdig Hrec Hdev Hexp Hos]; subst.
  destruct (Hr id r Hrec) as (draw0 & code0 & nonce & t0 & Hin & Hcode & Hexp0).
  destruct (Hidx _ _ Hdig) as (r' & Hr' & Hcode'). rewrite Hrec in Hr'. injection Hr' as <-.
  rewrite cleanup_ttl in Hexp0. unfold Owner. rewrite Hd. cbn.
  destruct Hos as [(Ho & -> & Hsame)|(Ho & bid & _ & _ & _ & ->)].
  - destruct (owners s !! r_deviceID r) as [e|] eqn:He; [|done]. cbn in Ho. rewrite Ho.
    destruct (Hsame e eq_refl) as [E1 E2].
    exists draw0, (r_userID r), (r_tenantID r), code0, nonce, t0, (ownership e).
    split_and!; try done; [congruence|lia|]. by intros e' [= <-].
  - rewrite lookup_insert_eq. cbn.
    eexists draw0, (r_userID r), (r_tenantID r), code0, nonce, t0, _.
    split_and!; [done|congruence|lia|done|done|done|].
    intros e He Hact. rewrite He in Ho. cbn in Ho. congruence.
Qed.

Lemma Owner_same s s' d : owners s' !! d = owners s !! d → Owner s' d = Owner s d.
Proof. unfold Owner. by intros ->. Qed.

(** Whoever owns a device began its claim, and the device confirmed a code with the
    same digest in time. *)
Lemma owner_history s h d o :
  reach s h → Owner s d = Ok (Some o) →
  ∃ draw code nonce t0 draw' code' now,
    OBegin draw (OwnerID o) (TenantID o) d code nonce t0 ∈ h ∧
    OConfirm draw' d code' now ∈ h ∧ claimDigest code = claimDigest code' ∧ now < t0 + ttl s.
Proof.
  intros Hr. revert o. induction Hr as [t m s Hm|s h op s' ok Hr IH Hsrc Hop]; intros o Ho.
  { unfold NewStore in Hm. case_match; [done|]. simplify_eq. revert Ho. unfold Owner. by guard H1. }
  assert (ttl s' = ttl s) as -> by (pose proof (exec_ttl s op) as E; by rewrite Hop in E).
  assert (Owner s' d = Owner s d → ∃ draw code nonce t0 draw' code' now,
    OBegin draw (OwnerID o) (TenantID o) d code nonce t0 ∈ (if ok then op :: h else h) ∧
    OConfirm draw' d code' now ∈ (if ok then op :: h else h) ∧
    claimDigest code = claimDigest code' ∧ now < t0 + ttl s) as Hold.
  { intros E. rewrite E in Ho. destruct (IH o Ho) as (b & c & n & t0 & b' & c' & now & ? & ? & ? & ?).
    exists b, c, n, t0, b', c', now. destruct ok; split_and!; try done; by right. }
  pose proof (exec_owner s op d) as Hch. rewrite Hop in Hch. cbn in Hch.
  inversion Hch as [e E1 E2|e e' draw code now Eo Hown Hact _ E1 E2|w now _ E1 E2]; subst.
  - apply Hold, Owner_same. congruence.
  - cbn in Hop. destruct (Confirm draw s d code now) as [s1 r] eqn:Hc. injection Hop as -> <-.
    destruct r as [rec|e].
    + destruct (confirm_needs_both_sides _ _ _ _ _ _ _ _ Hr Hc) as
        (b & u & t & c & n & t0 & o' & Hin & Hdig & Hnow & Ho' & <- & <- & _).
      rewrite Ho in Ho'. injection Ho' as <-. exists b, c, n, t0, draw, code, now.
      split_and!; [by right|by left|done..].
    + apply Hold, Owner_same. apply Confirm_cases in Hc. inversion Hc; subst; [done|].
      by rewrite cleanup_owners.
  - unfold Owner in Ho. rewrite <- E2 in Ho. cbn in Ho. by destruct (negb _).
Qed.

(** *** Nonces *)

Lemma exec_nonce s o key until :
  appNonces s !! key = Some until → op_time o < until →
  appNonces (exec s o).1 !! key = Some until.
Proof.
  intros Hk Ht.
  assert (appNonces (cleanup (op_time o) s) !! key = Some until) as Hc.
  { destruct (cleanup_spec (op_time o) s) as (_ & _ & _ & _ & _ & ->).
    apply map_keep_Some. split; [done|]. by apply After_spec. }
  destruct o as [draw u t d code nonce now|draw d code now|u t id now|u t d now]; cbn in *.
  - destruct (Begin _ _ _ _ _ _ _ _) as [s1 r1] eqn:E.
    apply Begin_cases in E as [|e|r0 Hfree _|id v Hfree _ _]; cbn; try done;
      (rewrite lookup_insert_ne; [done|congruence]).
  - destruct (Confirm _ _ _ _ _) as [s1 r1] eqn:E.
    by apply Confirm_cases in E as [|e|id rec os _ Hrec _ _ _].
  - pose proof (Lookup_store s u t id now) as Hl. destruct (Lookup _ _ _ _ _) as [s1 r1].
    cbn in *. by destruct Hl as [->| ->].
  - destruct (Release _ _ _ _ _) as [s1 r1] eqn:E.
    by apply Release_cases in E as [e|e _ _|w Hd _ _ _].
Qed.

Lemma execs_nonce s ops key until :
  appNonces s !! key = Some until → Forall (λ o, op_time o < until) ops →
  appNonces (execs s ops) !! key = Some until.
Proof.
  unfold execs. intros Hk Hops. revert s Hk. induction Hops as [|o ops Ho _ IH]; intros s Hk; [done|].
  cbn [fold_left]. by apply IH, exec_nonce.
Qed.

(** An app nonce works once. After a successful [Begin] no other [Begin] of the
    same user and tenant with the same nonce succeeds for the whole lifetime of the
    claim, whatever device and code it names and whatever runs in between; if its
    arguments are valid it is answered with [ErrReplay]. *)
Theorem app_nonce_single_use draw s u t d code nonce now s1 rec ops draw' d' code' now' :
  Begin draw s u t d code nonce now = (s1, Ok rec) →
  Forall (λ o, op_time o < now + ttl s) ops → now' < now + ttl s →
  let '(_, r) := Begin draw' (execs s1 ops) u t d' code' nonce now' in
  r = Err (if negb (ValidIdentifier d' 64) || negb (ValidClaimCode code') || IsZero now'
           then ErrInvalid else ErrReplay).
Proof.
  intros E Hops Hnow.
  assert (ValidIdentifier u 128 = true ∧ ValidIdentifier t 128 = true ∧
          ValidAppNonce nonce = true) as (Hu & Ht & Hn).
  { revert E. unfold Begin. guard Hv. intros _. by split_bools. }
  assert (appNonces s1 !! nonceKey t u nonce = Some (now + ttl s)) as Hk.
  { apply Begin_cases in E. inversion E; subst; cbn; apply lookup_insert_eq. }
  apply (execs_nonce _ ops) in Hk; [|done]. unfold Begin. rewrite Hu, Ht, Hn. cbn [negb orb].
  destruct (ValidIdentifier d' 64), (ValidClaimCode code'), (IsZero now'); cbn [negb orb]; try done.
  cbv zeta. destruct (cleanup_spec now' (execs s1 ops)) as (_ & _ & _ & _ & _ & ->).
  rewrite (proj2 (map_keep_Some _ _ _ (now + ttl s))).
  - by rewrite (proj2 (After_spec _ _)).
  - split; [done|]. by apply After_spec.
Qed.

(** ** Witnesses *)

Definition ex_draw (b : Z) : source := λ size n,
  if 0 <=? size then Some (replicate (Z.to_nat size) (byte_of (b + Z.of_nat n))) else None.
Definition ex_code : string := EncodeToString (replicate 32 (byte_of 7)).
Definition ex_nonce : string := EncodeToString (replicate 16 (byte_of 8)).
Definition ex_at (n : Z) : Time := from_unix 1750000000 + n * second.
Definition ex_empty : Store :=
  {| ttl := 5 * minute; maxRecords := 10; records := ∅; byDigest := ∅; owners := ∅;
     appNonces := ∅ |}.
Definition ex_begin : op := OBegin (ex_draw 1) "user-1" "tenant-1" "device-1" ex_code ex_nonce (ex_at 0).
Definition ex_confirm : op := OConfirm (ex_draw 2) "device-1" ex_code (ex_at 30).
Definition ex_begun : Store := (exec ex_empty ex_begin).1.
Definition ex_bound : Store := (exec ex_begun ex_confirm).1.

Lemma ex_draw_full b : reads_full (ex_draw b).
Proof.
  intros size n raw. unfold ex_draw. destruct (0 <=? size) eqn:E; [|done]. intros [= <-].
  unfold blen. rewrite length_replicate. split_bools. lia.
Qed.

Lemma claim_reach_ok s h o :
  reach s h → op_source_ok o → (exec s o).2 = true → reach (exec s o).1 (o :: h).
Proof.
  intros Hr Hsrc Hok. apply (reach_exec s h o _ true Hr Hsrc). destruct (exec s o). cbn in *.
  by subst.
Qed.

Lemma ex_begun_reach : reach ex_begun [ex_begin].
Proof.
  apply claim_reach_ok; [|apply ex_draw_full|by vm_compute]. by apply (reach_init (5 * minute) 10).
Qed.

Lemma ex_bound_reach : reach ex_bound [ex_confirm; ex_begin].
Proof. apply claim_reach_ok; [apply ex_begun_reach|apply ex_draw_full|by vm_compute]. Qed.

Lemma confirm_needs_both_sides_witness :
  ∃ s' rec o, Confirm (ex_draw 2) ex_begun "device-1" ex_code (ex_at 30) = (s', Ok rec) ∧
    Owner s' "device-1" = Ok (Some o) ∧ ex_at 30 < ex_at 0 + 5 * minute.
Proof.
  assert (is_ok (Confirm (ex_draw 2) ex_begun "device-1" ex_code (ex_at 30)).2 = true) as Hok
    by (vm_compute; reflexivity).
  destruct (Confirm (ex_draw 2) ex_begun "device-1" ex_code (ex_at 30)) as [s' [rec|e] ] eqn:E;
    [|discriminate Hok].
  destruct (confirm_needs_both_sides ex_begun _ _ _ _ _ s' rec ex_begun_reach E)
    as (? & ? & ? & ? & ? & ? & o & _ & _ & _ & Ho & _).
  exists s', rec, o. split; [reflexivity|]. split; [exact Ho|by vm_compute].
Defined.

Lemma ownership_well_formed_witness :
  reach ex_bound [ex_confirm; ex_begin] ∧ revision ex_bound "device-1" = 1 ∧
  match owners ex_bound !! "device-1" with
  | None => False
  | Some e => Z.odd (BindingRevision (ownership e)) = active e
  end.
Proof.
  split; [exact ex_bound_reach|]. split; [by vm_compute|].
  pose proof (ownership_well_formed ex_bound _ "device-1" ex_bound_reach) as H.
  assert (owners ex_bound !! "device-1" ≠ None) as Hs by (vm_compute; discriminate).
  destruct (owners ex_bound !! "device-1") as [e|]; [|by destruct Hs].
  exact (proj1 (proj2 H)).
Defined.

Definition ex_release : op := ORelease "user-1" "tenant-1" "device-1" (ex_at 40).
Definition ex_code2 : string := EncodeToString (replicate 32 (byte_of 17)).
Definition ex_rebind : list op :=
  [OBegin (ex_draw 3) "user-2" "tenant-1" "device-1" ex_code2 ex_nonce (ex_at 50);
   OConfirm (ex_draw 4) "device-1" ex_code2 (ex_at 60)].
Definition ex_rebound : Store := execs ex_bound ([ex_release] ++ ex_rebind).
Definition ex_owner (s : Store) : Ownership :=
  match Owner s "device-1" with
  | Ok (Some o) => o
  | _ => {| OwnerID := ""; TenantID := ""; BindingID := ""; BindingRevision := 0 |}
  end.

Lemma released_binding_never_returns_witness :
  OwnerID (ex_owner ex_bound) = "user-1" ∧ OwnerID (ex_owner ex_rebound) = "user-2" ∧
  BindingRevision (ex_owner ex_bound) < BindingRevision (ex_owner ex_rebound).
Proof.
  split; [by vm_compute|]. split; [by vm_compute|].
  apply (released_binding_never_returns ex_bound [ex_release] ex_rebind "device-1"
           (ex_owner ex_bound) (ex_owner ex_rebound)).
  - vm_compute. reflexivity.
  - vm_compute. discriminate.
  - vm_compute. reflexivity.
Defined.

Lemma app_nonce_single_use_witness :
  (Begin (ex_draw 3) ex_bound "user-1" "tenant-1" "device-2" ex_code2 ex_nonce (ex_at 90)).2
  = Err ErrReplay.
Proof.
  assert (is_ok (Begin (ex_draw 1) ex_empty "user-1" "tenant-1" "device-1" ex_code ex_nonce
                   (ex_at 0)).2 = true) as Hok by (vm_compute; reflexivity).
  destruct (Begin (ex_draw 1) ex_empty "user-1" "tenant-1" "device-1" ex_code ex_nonce (ex_at 0))
    as [s1 [rec|e] ] eqn:E; [|discriminate Hok].
  assert (ex_bound = execs s1 [ex_confirm]) as ->.
  { unfold ex_bound, ex_begun, ex_begin, execs. cbn [exec fold_left]. rewrite E. reflexivity. }
  pose proof (app_nonce_single_use (ex_draw 1) ex_empty _ _ _ _ _ _ s1 rec [ex_confirm]
                (ex_draw 3) "device-2" ex_code2 (ex_at 90) E) as H.
  destruct (Begin (ex_draw 3) _ _ _ _ _ _ _) as [s2 r]. cbn.
  rewrite H; [by vm_compute|repeat constructor; by vm_compute|by vm_compute].
Defined.

End DeviceClaim.
