(* ===== verification/Provisioning.v ===== *)
(** * Provisioning: device identities and device proofs

    Models [internal/provisioning/registry.go], [identity_snapshot.go] and
    [proof.go], and the lease tracker of [internal/identityaccess/tracker.go]. A
    registry holds the device identities of one signed snapshot and is replaced as a
    whole; a proof verifier authenticates a request of a device against it and keeps
    the nonces it has seen. Both are read and written by concurrent requests: each
    lock-protected section is one definition, and [authorize] takes the registry as
    it is at each of its lock acquisitions, so that a snapshot may be replaced
    between any two of them.

    Arguments of the definitions: the JSON decoder and the Ed25519 verification, the
    clock, and the answer of the shared coordinator when one is configured. *)

From stdpp Require Import base gmap strings list fin_maps pretty sorting.
From Stdlib Require Import ZArith Lia.
From Stdlib.Strings Require Import Byte.
From S2P Require Import Prelude GoBase GoCrypto Protocol Auth.

Module Provisioning.
Import Ident.

(** ** The registry *)

Definition maximumRegistryBytes : Z := 8 * 1024 * 1024.
Definition maximumDevices : Z := 100000.
Definition maximumDeviceSecret : Z := 128.

Record registryEntry : Type := {
  DeviceID : string;
  SecretB64 : string;
  Board : string;
  OTAChannel : string;
  Disabled : bool;
}.

Record deviceRecord : Type := {
  secret : bytes;
  board : string;
  otaChannel : string;
  disabled : bool;
}.

Record registryState : Type := {
  devices : gmap string deviceRecord;
  purpose : string;
  revision : Z;
  issuedAt : Time;
  validUntil : Time;
  digest : bytes;
  signingKey : string;
}.

(** The state pointer; [nil] is [None]. *)
Definition Registry : Type := option registryState.

Definition decodeSecret (value : string) : option bytes :=
  match b64_decode false false value with
  | Some decoded => Some decoded
  | None =>
      match b64_decode false true value with
      | Some decoded => Some decoded
      | None =>
          match b64_decode true false value with
          | Some decoded => Some decoded
          | None => b64_decode true true value
          end
      end
  end.

(** One round of the loop of [buildRegistryState]. *)
Definition build_entry (requireSecrets : bool) (devices : gmap string deviceRecord)
    (entry : registryEntry) : option (gmap string deviceRecord) :=
  IF negb (ValidIdentifier (DeviceID entry) 64) RETURN None ;;
  IF negb (bool_decide (devices !! DeviceID entry = None)) RETURN None ;;
  let secret :=
    if bool_decide (SecretB64 entry = "") then Some [] else decodeSecret (SecretB64 entry) in
  IF (requireSecrets && bool_decide (SecretB64 entry = ""))
     || (negb (bool_decide (SecretB64 entry = ""))
         && match secret with
            | None => true
            | Some s => (blen s <? 32) || (maximumDeviceSecret <? blen s)
            end)
    RETURN None ;;
  IF negb (Bool.eqb (bool_decide (Board entry = "")) (bool_decide (OTAChannel entry = "")))
     || (negb (bool_decide (Board entry = ""))
         && (negb (ValidIdentifier (Board entry) 32) || negb (ValidIdentifier (OTAChannel entry) 32)))
    RETURN None ;;
  Some (<[DeviceID entry :=
          {| secret := from_option id [] secret; board := Board entry;
             otaChannel := OTAChannel entry; disabled := Disabled entry |}]> devices).

Fixpoint build_entries (requireSecrets : bool) (devices : gmap string deviceRecord)
    (entries : list registryEntry) : option (gmap string deviceRecord) :=
  match entries with
  | [] => Some devices
  | entry :: entries =>
      match build_entry requireSecrets devices entry with
      | None => None
      | Some devices => build_entries requireSecrets devices entries
      end
  end.

Definition buildRegistryState (entries : list registryEntry) (requireSecrets : bool) :
    option registryState :=
  match build_entries requireSecrets ∅ entries with
  | None => None
  | Some devices =>
      Some {| devices := devices; purpose := ""; revision := 0; issuedAt := zero_time;
              validUntil := zero_time; digest := replicate 32 x00; signingKey := "" |}
  end.

Record registryDocument : Type := {
  doc_Version : Z;
  doc_Devices : list registryEntry;
}.

(** [decode] is the strict decoder: unknown fields and trailing data are errors. *)
Definition ParseRegistry (decode : bytes → option registryDocument) (payload : bytes) :
    option Registry :=
  IF (blen payload =? 0) || (maximumRegistryBytes <? blen payload) RETURN None ;;
  match decode payload with
  | None => None
  | Some document =>
      IF negb (doc_Version document =? 1) || bool_decide (doc_Devices document = [])
         || (maximumDevices <? Z.of_nat (length (doc_Devices document)))
        RETURN None ;;
      match buildRegistryState (doc_Devices document) true with
      | None => None
      | Some state => Some (Some state)
      end
  end.

Definition readyLocked (registry : Registry) (now : Time) : bool :=
  match registry with
  | None => false
  | Some state => IsZero (validUntil state) || Before now (validUntil state)
  end.

(** What a reader sees under the read lock: the registry and the clock. *)
Record View : Type := {
  view : Registry;
  at_ : Time;
}.

Definition ready (v : View) : bool := readyLocked (view v) (at_ v).

Definition lookupVersioned (v : View) (deviceID : string) : option deviceRecord * Z :=
  match view v with
  | Some state => if ready v then (devices state !! deviceID, revision state) else (None, 0)
  | None => (None, 0)
  end.

Definition lookup (v : View) (deviceID : string) : option deviceRecord :=
  (lookupVersioned v deviceID).1.

Record OTAProfile_ : Type := {
  p_Board : string;
  p_Channel : string;
}.

Definition OTAProfile (v : View) (deviceID : string) : option OTAProfile_ :=
  match lookup v deviceID with
  | None => None
  | Some record =>
      IF disabled record || bool_decide (board record = "")
         || bool_decide (otaChannel record = "") RETURN None ;;
      Some {| p_Board := board record; p_Channel := otaChannel record |}
  end.

Definition DeviceAllowed (v : View) (deviceID : string) : bool :=
  match lookup v deviceID with
  | None => false
  | Some record => negb (disabled record)
  end.

Definition stillAllowedAtRevision (v : View) (deviceID : string) (r : Z) : bool :=
  match view v with
  | None => false
  | Some state =>
      IF negb (ready v) || negb (revision state =? r) RETURN false ;;
      match devices state !! deviceID with
      | None => false
      | Some record => negb (disabled record)
      end
  end.

(** ** Signed snapshots *)

Definition RegistrySignatureDomain : string :=
  "xiaozhi-device-identity-snapshot-v1" +:+ string_of [byte_of 10].
Definition AccessSnapshotPurpose : string := "access".
Definition ProofSnapshotPurpose : string := "proof".
Definition minimumSnapshotValidity : Duration := 5 * minute.
Definition maximumSnapshotValidity : Duration := 24 * hour.
Definition maximumSnapshotFuture : Duration := 5 * minute.

Definition ProofReady (v : View) : bool :=
  match view v with
  | None => false
  | Some state =>
      IF negb (ready v) RETURN false ;;
      IF (0 <? revision state) && negb (bool_decide (purpose state = ProofSnapshotPurpose))
        RETURN false ;;
      forallb (λ '(_, record), disabled record || (32 <=? blen (secret record)))
        (map_to_list (devices state))
  end.

Inductive error : Type :=
| ErrSnapshotRollback
| ErrSnapshotEquivocation
| ErrSnapshot (* any other failure to read a snapshot *)
| ErrMalformedProof
| ErrUnauthorized
| ErrReplay
| ErrRateLimited
| ErrUnavailable.

#[global] Instance error_eq_dec : EqDecision error.
Proof. solve_decision. Defined.

Record signedSnapshotPayload : Type := {
  Version : Z;
  Revision : Z;
  Purpose : string;
  IssuedAt : string;
  ValidUntil : string;
  Devices : list registryEntry;
  SigningKeyID : string;
}.

Record signedSnapshotDocument : Type := {
  payload : signedSnapshotPayload;
  Signature : string;
}.

Record Snapshot : Type := {
  sn_state : registryState;
  sn_revision : Z;
  sn_digest : bytes;
}.

(** [json.Marshal] of the payload and of the document. It is applied to payloads that
    [validateSnapshotPayload] accepted, whose strings need no escaping. *)
Definition json_entry (entry : registryEntry) : string :=
  "{" +:+ Token.join_comma
    ([Token.json_field "device_id" (Token.json_string (DeviceID entry));
      Token.json_field "secret_b64" (Token.json_string (SecretB64 entry))]
     ++ Token.omit_string "board" (Board entry)
     ++ Token.omit_string "ota_channel" (OTAChannel entry)
     ++ (if Disabled entry then [Token.json_field "disabled" "true"] else [])) +:+ "}".

Definition payload_fields (p : signedSnapshotPayload) : list string :=
  [Token.json_field "version" (FormatInt (Version p));
   Token.json_field "revision" (FormatInt (Revision p));
   Token.json_field "purpose" (Token.json_string (Purpose p));
   Token.json_field "issued_at" (Token.json_string (IssuedAt p));
   Token.json_field "valid_until" (Token.json_string (ValidUntil p));
   Token.json_field "devices" ("[" +:+ Token.join_comma (json_entry <$> Devices p) +:+ "]");
   Token.json_field "signing_key_id" (Token.json_string (SigningKeyID p))].

Definition marshal_payload (p : signedSnapshotPayload) : bytes :=
  bytes_of ("{" +:+ Token.join_comma (payload_fields p) +:+ "}").
Definition marshal_document (d : signedSnapshotDocument) : bytes :=
  bytes_of ("{" +:+ Token.join_comma (payload_fields (payload d)
    ++ [Token.json_field "signature" (Token.json_string (Signature d))]) +:+ "}").

Definition canonicalBase64URL (value : string) (size : Z) : bool := canonical_b64 value size.

(** One round of the loop of [validateSnapshotPayload]. *)
Definition valid_device (purpose : string) (previous : option string) (entry : registryEntry) :
    bool :=
  IF match previous with
     | Some previous => str_leb (DeviceID entry) previous
     | None => false
     end
    RETURN false ;;
  IF negb (bool_decide (SecretB64 entry = ""))
     && match DecodeString (SecretB64 entry) with
        | None => true
        | Some secret => (blen secret <? 32) || (maximumDeviceSecret <? blen secret)
                         || negb (bool_decide (EncodeToString secret = SecretB64 entry))
        end
    RETURN false ;;
  IF bool_decide (purpose = AccessSnapshotPurpose) && negb (bool_decide (SecretB64 entry = ""))
    RETURN false ;;
  negb (bool_decide (purpose = ProofSnapshotPurpose) && negb (Disabled entry)
        && bool_decide (SecretB64 entry = "")).

Fixpoint valid_devices (purpose : string) (previous : option string)
    (entries : list registryEntry) : bool :=
  match entries with
  | [] => true
  | entry :: entries =>
      valid_device purpose previous entry
      && valid_devices purpose (Some (DeviceID entry)) entries
  end.

Definition validateSnapshotPayload (p : signedSnapshotPayload) (now : Time) :
    option (Time * Time) :=
  IF negb (Version p =? 2) || (Revision p =? 0) || bool_decide (Devices p = [])
     || (maximumDevices <? Z.of_nat (length (Devices p)))
     || negb (ValidIdentifier (SigningKeyID p) 64)
     || (negb (bool_decide (Purpose p = AccessSnapshotPurpose))
         && negb (bool_decide (Purpose p = ProofSnapshotPurpose)))
    RETURN None ;;
  match CanonicalRFC3339 (IssuedAt p), CanonicalRFC3339 (ValidUntil p) with
  | Some issuedAt, Some validUntil =>
      let duration := Sub validUntil issuedAt in
      IF (duration <? minimumSnapshotValidity) || (maximumSnapshotValidity <? duration)
         || After issuedAt (now + maximumSnapshotFuture) || negb (After validUntil now)
        RETURN None ;;
      IF negb (valid_devices (Purpose p) None (Devices p)) RETURN None ;;
      match buildRegistryState (Devices p) false with
      | None => None
      | Some _ => Some (issuedAt, validUntil)
      end
  | _, _ => None
  end.

Section Snapshots.
(** [ed25519.Verify publicKey message signature]. *)
Variable ed25519_Verify : bytes → bytes → bytes → bool.
(** [decodeStrictDocument]: the strict JSON decoder, which also bounds the size. *)
Variable decodeStrictDocument : bytes → option signedSnapshotDocument.

Definition ParseSignedRegistrySnapshot (file : bytes) (publicKey : bytes)
    (expectedSigningKeyID : string) (now : Time) : option Snapshot :=
  IF negb (blen publicKey =? 32) || negb (ValidIdentifier expectedSigningKeyID 64)
    RETURN None ;;
  match decodeStrictDocument file with
  | None => None
  | Some document =>
      let p := payload document in
      IF negb (bool_decide (SigningKeyID p = expectedSigningKeyID)) RETURN None ;;
      match validateSnapshotPayload p now with
      | None => None
      | Some (issuedAt, validUntil) =>
          IF match DecodeString (Signature document) with
             | None => true
             | Some signature =>
                 negb (blen signature =? 64)
                 || negb (bool_decide (EncodeToString signature = Signature document))
                 || negb (ed25519_Verify publicKey
                            (bytes_of RegistrySignatureDomain ++ marshal_payload p) signature)
             end
            RETURN None ;;
          match buildRegistryState (Devices p) false with
          | None => None
          | Some state =>
              let digest := Sum256 (marshal_document document) in
              Some {| sn_state := {| devices := devices state; purpose := Purpose p;
                                     revision := Revision p; issuedAt := issuedAt;
                                     validUntil := validUntil; digest := digest;
                                     signingKey := SigningKeyID p |};
                      sn_revision := Revision p; sn_digest := digest |}
          end
      end
  end.

Definition ApplySnapshot (registry : Registry) (snapshot : Snapshot) :
    Registry * result error bool :=
  match registry with
  | Some state =>
      IF sn_revision snapshot <? revision state RETURN (registry, Err ErrSnapshotRollback) ;;
      IF sn_revision snapshot =? revision state
        RETURN (if negb (bool_decide (sn_digest snapshot = digest state))
                then (registry, Err ErrSnapshotEquivocation) else (registry, Ok false)) ;;
      (Some (sn_state snapshot), Ok true)
  | None => (Some (sn_state snapshot), Ok true)
  end.

Record RegistryReloader : Type := {
  rl_publicKey : bytes;
  rl_signingKeyID : string;
  rl_purpose : string;
}.

(** [Reload] with the contents of the file ([None] when it cannot be opened). *)
Definition Reload (reloader : RegistryReloader) (registry : Registry) (file : option bytes)
    (now : Time) : Registry * result error bool :=
  match file with
  | None => (registry, Err ErrSnapshot)
  | Some file =>
      match ParseSignedRegistrySnapshot file (rl_publicKey reloader)
              (rl_signingKeyID reloader) now with
      | None => (registry, Err ErrSnapshot)
      | Some snapshot =>
          IF negb (bool_decide (purpose (sn_state snapshot) = rl_purpose reloader))
            RETURN (registry, Err ErrSnapshot) ;;
          ApplySnapshot registry snapshot
      end
  end.

(** [LoadReloadableRegistry] after the public key has been loaded. *)
Definition LoadReloadableRegistry (reloader : RegistryReloader) (minimumRevision : Z)
    (file : option bytes) (now : Time) : option Registry :=
  IF minimumRevision =? 0 RETURN None ;;
  match file with
  | None => None
  | Some file =>
      match ParseSignedRegistrySnapshot file (rl_publicKey reloader)
              (rl_signingKeyID reloader) now with
      | None => None
      | Some snapshot =>
          IF sn_revision snapshot <? minimumRevision RETURN None ;;
          IF negb (bool_decide (purpose (sn_state snapshot) = rl_purpose reloader))
            RETURN None ;;
          Some (Some (sn_state snapshot))
      end
  end.
End Snapshots.

(** ** Device proofs *)

Definition maximumNonces : Z := 64.

Inductive ProofScope : Type :=
| SessionProofScope
| AgentTokenProofScope
| OTAOfferProofScope
| DeviceClaimProofScope
| ActionConsentChallengeProofScope
| ActionConsentResultProofScope.

#[global] Instance ProofScope_eq_dec : EqDecision ProofScope.
Proof. solve_decision. Defined.

Definition proofDomain (scope : ProofScope) : string :=
  match scope with
  | SessionProofScope => "xiaozhi-session-proof-v1"
  | AgentTokenProofScope => "xiaozhi-agent-token-proof-v1"
  | OTAOfferProofScope => "xiaozhi-ota-offer-proof-v1"
  | DeviceClaimProofScope => "xiaozhi-device-claim-proof-v1"
  | ActionConsentChallengeProofScope => "xiaozhi-action-consent-challenge-proof-v1"
  | ActionConsentResultProofScope => "xiaozhi-action-consent-result-proof-v1"
  end.

Definition proofPath (scope : ProofScope) : string :=
  match scope with
  | SessionProofScope => "/v1/session"
  | AgentTokenProofScope => "/v1/agent-token"
  | OTAOfferProofScope => "/v1/ota/offer"
  | DeviceClaimProofScope => "/v1/device-claim/device"
  | ActionConsentChallengeProofScope => "/v1/action-consents/device/challenge"
  | ActionConsentResultProofScope => "/v1/action-consents/device/result"
  end.

Definition isActionConsentProof (scope : ProofScope) : bool :=
  match scope with
  | ActionConsentChallengeProofScope | ActionConsentResultProofScope => true
  | _ => false
  end.

Definition nl : string := string_of [byte_of 10].
Definition post : string := nl +:+ "POST" +:+ nl.

Definition CanonicalScopedProof (scope : ProofScope) (deviceID clientID timestamp nonce : string) :
    string :=
  IF bool_decide (scope = OTAOfferProofScope) || bool_decide (scope = DeviceClaimProofScope)
     || isActionConsentProof scope RETURN "" ;;
  proofDomain scope +:+ post +:+ proofPath scope +:+ nl +:+
    deviceID +:+ nl +:+ clientID +:+ nl +:+ timestamp +:+ nl +:+ nonce.

Definition CanonicalProof (deviceID clientID timestamp nonce : string) : string :=
  CanonicalScopedProof SessionProofScope deviceID clientID timestamp nonce.

Definition CanonicalActionConsentProof (scope : ProofScope)
    (deviceID clientID timestamp nonce bodySHA256 : string) : string :=
  IF negb (isActionConsentProof scope) || negb (validSHA256 bodySHA256) RETURN "" ;;
  proofDomain scope +:+ post +:+ proofPath scope +:+ nl +:+
    deviceID +:+ nl +:+ clientID +:+ nl +:+ timestamp +:+ nl +:+ nonce +:+ nl +:+ bodySHA256.

Definition CanonicalOTAProof (deviceID clientID timestamp nonce board channel releaseSequence
    version : string) : string :=
  proofDomain OTAOfferProofScope +:+ post +:+ proofPath OTAOfferProofScope +:+ nl +:+
    deviceID +:+ nl +:+ clientID +:+ nl +:+ timestamp +:+ nl +:+ nonce +:+ nl +:+
    board +:+ nl +:+ channel +:+ nl +:+ releaseSequence +:+ nl +:+ version.

Definition CanonicalDeviceClaimProof (deviceID clientID timestamp nonce claim : string) : string :=
  IF negb (canonicalBase64URL claim 32) RETURN "" ;;
  proofDomain DeviceClaimProofScope +:+ post +:+ proofPath DeviceClaimProofScope +:+ nl +:+
    deviceID +:+ nl +:+ clientID +:+ nl +:+ timestamp +:+ nl +:+ nonce +:+ nl +:+ claim.

Definition version_byte (b : byte) : bool :=
  let c := bval b in
  ((97 <=? c) && (c <=? 122)) || ((65 <=? c) && (c <=? 90)) || ((48 <=? c) && (c <=? 57))
  || (c =? 46) || (c =? 43) || (c =? 45) || (c =? 95).

Definition validVersion (value : string) : bool :=
  IF bool_decide (value = "") || (32 <? slen value) RETURN false ;;
  forallb version_byte (bytes_of value).

(** The parts of [http.Request] that [authorize] reads; a missing [URL] is a request
    that no server produces. *)
Record Request : Type := {
  Method : string;
  Path : string;
  RawQuery : string;
  ContentLength : Z;
  TransferEncoding : list string;
  Header : string → list string;
}.

Definition singleHeader (request : Request) (name : string) : option string :=
  match Header request name with
  | [value] => if bool_decide (value = "") then None else Some value
  | _ => None
  end.

(** The answer of [Coordinator.ReserveProof]. *)
Inductive coordination : Type :=
| CoordReserved
| CoordReplay
| CoordRateLimited
| CoordOther.

Record ProofVerifier : Type := {
  scope : ProofScope;
  maxSkew : Duration;
  minInterval : Duration;
  usedNonces : gmap string (gmap string Time);
  lastIssued : gmap string Time;
}.

Definition set_nonces (v : ProofVerifier) (deviceID : string) (m : gmap string Time) :
    ProofVerifier :=
  {| scope := scope v; maxSkew := maxSkew v; minInterval := minInterval v;
     usedNonces := <[deviceID := m]> (usedNonces v); lastIssued := lastIssued v |}.
Definition set_issued (v : ProofVerifier) (deviceID : string) (t : Time) : ProofVerifier :=
  {| scope := scope v; maxSkew := maxSkew v; minInterval := minInterval v;
     usedNonces := usedNonces v; lastIssued := <[deviceID := t]> (lastIssued v) |}.

Definition NewScopedProofVerifier (registry : View) (scope : ProofScope)
    (maxSkew minInterval : Duration) : option ProofVerifier :=
  IF negb (ProofReady registry) || (maxSkew <? 10 * second) || (5 * minute <? maxSkew)
     || (minInterval <? 0) || (minute <? minInterval) RETURN None ;;
  Some {| scope := scope; maxSkew := maxSkew; minInterval := minInterval;
          usedNonces := ∅; lastIssued := ∅ |}.

Definition live_nonces (v : ProofVerifier) (deviceID : string) (now : Time) : gmap string Time :=
  map_keep (λ _ expires, After expires now) (from_option id ∅ (usedNonces v !! deviceID)).

Definition reserve (v : ProofVerifier) (coordinator : option coordination)
    (deviceID nonce : string) (now : Time) : ProofVerifier * option error :=
  match coordinator with
  | Some CoordReserved => (v, None)
  | Some CoordReplay => (v, Some ErrReplay)
  | Some CoordRateLimited => (v, Some ErrRateLimited)
  | Some CoordOther => (v, Some ErrUnavailable)
  | None =>
      let nonces := live_nonces v deviceID now in
      let v := set_nonces v deviceID nonces in
      IF negb (bool_decide (nonces !! nonce = None)) RETURN (v, Some ErrReplay) ;;
      IF maximumNonces <=? Z.of_nat (size nonces) RETURN (v, Some ErrRateLimited) ;;
      let v := set_nonces v deviceID (<[nonce := now + 2 * maxSkew v]> nonces) in
      IF match lastIssued v !! deviceID with
         | Some previous => Sub now previous <? minInterval v
         | None => false
         end
        RETURN (v, Some ErrRateLimited) ;;
      (set_issued v deviceID now, None)
  end.

(** The header values of one proof. *)
Record Proof_ : Type := {
  deviceID : string;
  clientID : string;
  timestampText : string;
  timestamp : Z;
  nonceText : string;
  signature : bytes;
  extra : list string; (* what the scope adds to the signed text *)
}.

(** The headers that only some scopes have: board, channel, release sequence and
    version of an OTA offer; the claim; the digest of the body. *)
Definition scope_headers (scope : ProofScope) (request : Request) (body : bytes) :
    option (list string) :=
  match scope with
  | OTAOfferProofScope =>
      match singleHeader request "X-OTA-Board", singleHeader request "X-OTA-Channel",
            singleHeader request "X-OTA-Release-Sequence", singleHeader request "X-OTA-Version" with
      | Some board, Some channel, Some releaseSequence, Some version =>
          IF negb (ValidIdentifier board 32) || negb (ValidIdentifier channel 32)
             || negb (validVersion version)
             || match ParseUint (bytes_of releaseSequence) 31 with
                | None => true
                | Some sequence =>
                    (sequence =? 0) || negb (bool_decide (FormatInt sequence = releaseSequence))
                end
            RETURN None ;;
          Some [board; channel; releaseSequence; version]
      | _, _, _, _ => None
      end
  | DeviceClaimProofScope =>
      match singleHeader request "X-Device-Claim" with
      | Some claim => if canonicalBase64URL claim 32 then Some [claim] else None
      | None => None
      end
  | ActionConsentChallengeProofScope | ActionConsentResultProofScope =>
      match singleHeader request "X-Action-Consent-Body-SHA256" with
      | Some bodySHA256 =>
          IF negb (validSHA256 bodySHA256)
             || negb (bool_decide (bodySHA256 = hex_encode (Sum256 body)))
            RETURN None ;;
          Some [bodySHA256]
      | None => None
      end
  | _ => Some []
  end.

(** The first half of [authorize]: everything that is checked without the registry. *)
Definition parse_proof (scope : ProofScope) (request : Request) (body : bytes)
    (withBody : bool) : option Proof_ :=
  IF negb (bool_decide (Method request = "POST"))
     || negb (bool_decide (Path request = proofPath scope))
     || negb (bool_decide (RawQuery request = "")) RETURN None ;;
  IF (if isActionConsentProof scope then
        negb withBody || (blen body =? 0) || (1024 <? blen body)
        || negb (ContentLength request =? blen body)
        || negb (bool_decide (TransferEncoding request = []))
      else withBody || negb (ContentLength request =? 0)) RETURN None ;;
  match singleHeader request "Device-Id", singleHeader request "Client-Id",
        singleHeader request "X-Device-Timestamp", singleHeader request "X-Device-Nonce",
        singleHeader request "X-Device-Signature" with
  | Some deviceID, Some clientID, Some timestampText, Some nonceText, Some signatureText =>
      IF negb (ValidIdentifier deviceID 64) || negb (ValidIdentifier clientID 64) RETURN None ;;
      match scope_headers scope request body with
      | None => None
      | Some extra =>
          match ParseInt timestampText with
          | None => None
          | Some timestamp =>
              IF (timestamp <=? 0) || negb (bool_decide (FormatInt timestamp = timestampText))
                RETURN None ;;
              match DecodeString nonceText with
              | None => None
              | Some nonce =>
                  IF (blen nonce <? 16) || (32 <? blen nonce)
                     || negb (bool_decide (EncodeToString nonce = nonceText)) RETURN None ;;
                  match DecodeString signatureText with
                  | None => None
                  | Some signature =>
                      IF negb (blen signature =? 32)
                         || negb (bool_decide (EncodeToString signature = signatureText))
                        RETURN None ;;
                      Some {| deviceID := deviceID; clientID := clientID;
                              timestampText := timestampText; timestamp := timestamp;
                              nonceText := nonceText; signature := signature; extra := extra |}
                  end
              end
          end
      end
  | _, _, _, _, _ => None
  end.

(** The text that the proof signs. *)
Definition canonical (scope : ProofScope) (p : Proof_) : string :=
  let '(d, c, t, n) := (deviceID p, clientID p, timestampText p, nonceText p) in
  match scope, extra p with
  | OTAOfferProofScope, [board; channel; releaseSequence; version] =>
      CanonicalOTAProof d c t n board channel releaseSequence version
  | DeviceClaimProofScope, [claim] => CanonicalDeviceClaimProof d c t n claim
  | (ActionConsentChallengeProofScope | ActionConsentResultProofScope) as scope, [bodySHA256] =>
      CanonicalActionConsentProof scope d c t n bodySHA256
  | scope, _ => CanonicalScopedProof scope d c t n
  end.

(** The registry as [authorize] finds it at its three reads. *)
Record Views : Type := {
  at_lookup : View;
  at_profile : View;
  at_end : View;
}.

(** Does the profile of the device name the board and channel of the proof? *)
Definition profile_matches (v : View) (p : Proof_) : bool :=
  match OTAProfile v (deviceID p), extra p with
  | Some profile, board :: channel :: _ =>
      bool_decide (p_Board profile = board) && bool_decide (p_Channel profile = channel)
  | _, _ => false
  end.

Definition authorize (v : ProofVerifier) (registry : Views) (coordinator : option coordination)
    (now : Time) (request : Request) (body : bytes) (withBody : bool) :
    ProofVerifier * result error string :=
  match parse_proof (scope v) request body withBody with
  | None => (v, Err ErrMalformedProof)
  | Some p =>
      match lookupVersioned (at_lookup registry) (deviceID p) with
      | (None, _) => (v, Err ErrUnauthorized)
      | (Some record, identityRevision) =>
          IF disabled record RETURN (v, Err ErrUnauthorized) ;;
          IF bool_decide (scope v = OTAOfferProofScope)
             && negb (profile_matches (at_profile registry) p)
            RETURN (v, Err ErrUnauthorized) ;;
          IF negb (bool_decide (signature p =
               hmac_sha256 (secret record) (bytes_of (canonical (scope v) p))))
            RETURN (v, Err ErrUnauthorized) ;;
          let proofTime := from_unix (timestamp p) in
          IF Before proofTime (now - maxSkew v) || After proofTime (now + maxSkew v)
            RETURN (v, Err ErrUnauthorized) ;;
          match reserve v coordinator (deviceID p) (nonceText p) now with
          | (v, Some e) => (v, Err e)
          | (v, None) =>
              IF negb (stillAllowedAtRevision (at_end registry) (deviceID p) identityRevision)
                RETURN (v, Err ErrUnauthorized) ;;
              (v, Ok (deviceID p))
          end
      end
  end.

Definition Authorize (v : ProofVerifier) registry coordinator now (request : Request) :=
  authorize v registry coordinator now request [] false.
Definition AuthorizeBody (v : ProofVerifier) registry coordinator now (request : Request)
    (body : bytes) := authorize v registry coordinator now request body true.

(** ** Leases of connected devices *)

(** [identityaccess.Tracker]: the active leases of each device; a lease is its pointer,
    here a number. *)
Record Tracker : Type := {
  active : gmap string (gset nat);
  cancelled : gset nat; (* the leases whose context was cancelled with [ErrRevoked] *)
}.

Definition Start (tracker : Tracker) (v : View) (device : string) (lease : nat) :
    Tracker * bool :=
  IF bool_decide (device = "") RETURN (tracker, false) ;;
  IF negb (DeviceAllowed v device)
    RETURN ({| active := active tracker; cancelled := {[lease]} ∪ cancelled tracker |}, false) ;;
  ({| active := <[device := {[lease]} ∪ from_option id ∅ (active tracker !! device)]>
        (active tracker);
      cancelled := cancelled tracker |}, true).

(** The [finish] function of a lease. *)
Definition finish (tracker : Tracker) (device : string) (lease : nat) : Tracker :=
  match active tracker !! device with
  | None => tracker
  | Some existing =>
      let existing := existing ∖ {[lease]} in
      {| active := if bool_decide (existing = ∅) then delete device (active tracker)
                   else <[device := existing]> (active tracker);
         cancelled := cancelled tracker |}
  end.

(** [allowed] is [DeviceAllowed] as the loop reads it for each device. *)
Definition Reconcile (tracker : Tracker) (allowed : string → bool) : Tracker * gset nat :=
  let revoked := union_list (map_to_list
    (map_keep (λ device _, negb (allowed device)) (active tracker))).*2 in
  ({| active := map_keep (λ device _, allowed device) (active tracker);
      cancelled := revoked ∪ cancelled tracker |}, revoked).

(** ** Proofs are accepted once *)

(** What an accepted proof has passed. *)
Lemma authorize_Ok v reg co now q body wb v' d :
  authorize v reg co now q body wb = (v', Ok d) →
  ∃ p record r,
    parse_proof (scope v) q body wb = Some p ∧ d = deviceID p ∧
    lookupVersioned (at_lookup reg) d = (Some record, r) ∧ disabled record = false ∧
    signature p = hmac_sha256 (secret record) (bytes_of (canonical (scope v) p)) ∧
    now - maxSkew v ≤ from_unix (timestamp p) ≤ now + maxSkew v ∧
    reserve v co d (nonceText p) now = (v', None) ∧
    stillAllowedAtRevision (at_end reg) d r = true.
Proof.
  unfold authorize. destruct (parse_proof _ _ _ _) as [p|] eqn:Hp; [|done].
  destruct (lookupVersioned _ _) as [ [record|] r] eqn:Hl; [|done].
  guard H1. guard H2. guard H3. guard H4.
  destruct (reserve v co (deviceID p) (nonceText p) now) as [v1 [e|] ] eqn:Hr; [done|].
  guard H5. intros [= <- <-]. split_bools. unfold Before, After in *. split_bools.
  exists p, record, r. split_and!; try done; lia.
Qed.

(** One call of a verifier without a shared coordinator; the clock does not go back. *)
Inductive vstep : ProofVerifier * Time → ProofVerifier * Time → Prop :=
| vstep_call v t t' reg q body wb :
    t ≤ t' → vstep (v, t) ((authorize v reg None t' q body wb).1, t').

Definition remembers (v : ProofVerifier) (d nonce : string) (e : Time) : Prop :=
  ∃ m, usedNonces v !! d = Some m ∧ m !! nonce = Some e.

Lemma live_nonces_remembers v d nonce e now :
  remembers v d nonce e → now < e → live_nonces v d now !! nonce = Some e.
Proof.
  intros (m & Hm & He) Hlt. unfold live_nonces. rewrite Hm. apply map_keep_Some. cbn.
  split; [done|]. by apply After_spec.
Qed.

Lemma reserve_config v co d nonce now :
  scope (reserve v co d nonce now).1 = scope v ∧
  maxSkew (reserve v co d nonce now).1 = maxSkew v ∧
  minInterval (reserve v co d nonce now).1 = minInterval v.
Proof. unfold reserve. by repeat case_match. Qed.

Lemma authorize_config v reg co now q body wb :
  scope (authorize v reg co now q body wb).1 = scope v ∧
  maxSkew (authorize v reg co now q body wb).1 = maxSkew v ∧
  minInterval (authorize v reg co now q body wb).1 = minInterval v.
Proof.
  unfold authorize. destruct (parse_proof _ _ _ _) as [p|]; [|done].
  destruct (lookupVersioned _ _) as [ [record|] r]; [|done].
  pose proof (reserve_config v co (deviceID p) (nonceText p) now) as Hc.
  repeat (case_match; try done). 
Qed.

(** The verifier after a call is the verifier before, or after a reservation. *)
Lemma authorize_state v reg co now q body wb :
  (authorize v reg co now q body wb).1 = v ∨
  ∃ d nonce, (authorize v reg co now q body wb).1 = (reserve v co d nonce now).1.
Proof.
  unfold authorize. destruct (parse_proof _ _ _ _) as [p|]; [|by left].
  destruct (lookupVersioned _ _) as [ [record|] r]; [|by left].
  do 4 (case_match; [by left|]). right. exists (deviceID p), (nonceText p).
  destruct (reserve _ _ _ _ _) as [v1 [e|] ]; [done|]. by case_match.
Qed.

Lemma reserve_remembers v d nonce e d' nonce' now :
  remembers v d nonce e → now < e → remembers (reserve v None d' nonce' now).1 d nonce e.
Proof.
  intros Hrem Hlt. pose proof (live_nonces_remembers _ _ _ _ _ Hrem Hlt) as Hlive.
  destruct Hrem as (m & Hm & He). unfold reserve.
  destruct (decide (d' = d)) as [->|Hd].
  - destruct (decide (nonce' = nonce)) as [->|Hn].
    + rewrite Hlive. rewrite bool_decide_false by done. cbn.
      exists (live_nonces v d now). split; [apply lookup_insert_eq|done].
    + destruct (negb _); cbn.
      { exists (live_nonces v d now). split; [apply lookup_insert_eq|done]. }
      destruct (_ <=? _); cbn.
      { exists (live_nonces v d now). split; [apply lookup_insert_eq|done]. }
      eexists. split; [case_match; apply lookup_insert_eq|]. by rewrite lookup_insert_ne.
  - exists m. split; [|done]. repeat case_match; cbn; by rewrite ?lookup_insert_ne.
Qed.

Lemma reserve_None_Ok v d nonce now v' :
  reserve v None d nonce now = (v', None) →
  live_nonces v d now !! nonce = None ∧
  remembers v' d nonce (now + 2 * maxSkew v) ∧ lastIssued v' !! d = Some now ∧
  match lastIssued v !! d with
  | Some previous => minInterval v ≤ Sub now previous
  | None => True
  end.
Proof.
  unfold reserve. guard H1. guard H2. guard H3. intros [= <-]. split_bools.
  split_and!; [done| | |].
  - eexists. split; [apply lookup_insert_eq|]. apply lookup_insert_eq.
  - apply lookup_insert_eq.
  - cbn in H3. case_match; [|done]. by split_bools.
Qed.

Lemma later_config c c' :
  rtc vstep c c' → scope c'.1 = scope c.1 ∧ maxSkew c'.1 = maxSkew c.1 ∧
    minInterval c'.1 = minInterval c.1.
Proof.
  induction 1 as [|c c1 c' [v t t' reg q body wb Ht] _ (IH1 & IH2 & IH3)]; [done|]. cbn in *.
  destruct (authorize_config v reg None t' q body wb) as (? & ? & ?). by split_and!; etrans.
Qed.

(** A call of the verifier: the registry and the clock as it reads them, and the request.
    The clock is read before the lock is taken, so that the readings of calls that
    follow each other under the lock need not be in order. *)
Record vcall : Type := {
  c_registry : Views;
  c_now : Time;
  c_request : Request;
  c_body : bytes;
  c_withBody : bool;
}.

Definition authorize_call (v : ProofVerifier) (c : vcall) : ProofVerifier * result error string :=
  authorize v (c_registry c) None (c_now c) (c_request c) (c_body c) (c_withBody c).
Definition authorize_calls (v : ProofVerifier) (calls : list vcall) : ProofVerifier :=
  fold_left (λ v c, (authorize_call v c).1) calls v.

Lemma calls_config v calls :
  scope (authorize_calls v calls) = scope v ∧ maxSkew (authorize_calls v calls) = maxSkew v.
Proof.
  unfold authorize_calls. revert v. induction calls as [|c calls IH]; intros v; [done|]. cbn [fold_left].
  destruct (IH (authorize_call v c).1) as [-> ->]. unfold authorize_call.
  by destruct (authorize_config v (c_registry c) None (c_now c) (c_request c) (c_body c) (c_withBody c))
    as (-> & -> & _).
Qed.

(** A nonce is remembered until a call whose clock has reached its end. *)
Lemma calls_remember v calls d nonce e :
  remembers v d nonce e →
  remembers (authorize_calls v calls) d nonce e ∨ ∃ c, c ∈ calls ∧ e ≤ c_now c.
Proof.
  unfold authorize_calls. revert v. induction calls as [|c calls IH]; intros v Hrem; [by left|]. cbn [fold_left].
  destruct (decide (c_now c < e)) as [Hlt|Hge]; [|right; exists c; split; [by left|lia] ].
  destruct (IH (authorize_call v c).1) as [?|(c' & ? & ?)]; [|by left|right; exists c'; split; [by right|done] ].
  unfold authorize_call.
  destruct (authorize_state v (c_registry c) None (c_now c) (c_request c) (c_body c) (c_withBody c))
    as [->|(d' & n' & ->)]; [done|]. by apply reserve_remembers.
Qed.

(** C14: a captured device proof cannot be used again, for a verifier that keeps its own
    table of nonces (with a shared coordinator the table is the coordinator's). After
    such a verifier has accepted a request, whatever further requests it sees, it does
    not accept one of the same device with the same nonce and timestamp, but for two
    gaps: the first acceptance was exactly [maxSkew] before the timestamp of the proof
    and the second exactly [maxSkew] after it; or a call in between carried a clock
    reading that is later than that of the second acceptance, by which the nonce had
    already expired (the clock is read before the lock is taken). *)
Theorem proof_accepted_once v first v1 calls second v2 d p1 p2 :
  authorize_call v first = (v1, Ok d) →
  authorize_call (authorize_calls v1 calls) second = (v2, Ok d) →
  parse_proof (scope v) (c_request first) (c_body first) (c_withBody first) = Some p1 →
  parse_proof (scope v) (c_request second) (c_body second) (c_withBody second) = Some p2 →
  nonceText p1 = nonceText p2 → timestamp p1 = timestamp p2 →
  (c_now first = from_unix (timestamp p1) - maxSkew v ∧
   c_now second = from_unix (timestamp p1) + maxSkew v) ∨
  ∃ c, c ∈ calls ∧ c_now second < c_now c ∧ c_now first + 2 * maxSkew v ≤ c_now c.
Proof.
  intros H1 H2 Hp1 Hp2 Hn HT. unfold authorize_call in H1, H2.
  pose proof (authorize_config v (c_registry first) None (c_now first) (c_request first) (c_body first)
    (c_withBody first)) as (Hs & Hk & _). rewrite H1 in Hs, Hk.
  destruct (calls_config v1 calls) as [Hs2 Hk2]. cbn in *.
  apply authorize_Ok in H1 as (p & rec & r & Hp & -> & _ & _ & _ & Hw1 & Hr1 & _).
  apply authorize_Ok in H2 as (p' & rec' & r' & Hp' & Hd & _ & _ & _ & Hw2 & Hr2 & _).
  rewrite Hs2, Hs in Hp'. rewrite Hk2, Hk in Hw2. simplify_eq.
  apply reserve_None_Ok in Hr1 as (_ & Hrem & _). apply reserve_None_Ok in Hr2 as (Hfree & _).
  rewrite <- HT in Hw2. destruct (calls_remember _ calls _ _ _ Hrem) as [Hrem2|(c & Hc & Hold)].
  - left. destruct (decide (c_now second < c_now first + 2 * maxSkew v)) as [Hlt|Hge]; [|lia].
    rewrite Hn in Hrem2. rewrite (live_nonces_remembers _ _ _ _ _ Hrem2 Hlt) in Hfree. done.
  - destruct (decide (c_now second < c_now c)) as [?|?]; [right; by exists c|left; lia].
Qed.

(** ** Issuance is rate limited *)

Definition nonces_bounded (v : ProofVerifier) : Prop :=
  ∀ d m, usedNonces v !! d = Some m → Z.of_nat (size m) ≤ maximumNonces.

Lemma live_nonces_bounded v d now :
  nonces_bounded v → Z.of_nat (size (live_nonces v d now)) ≤ maximumNonces.
Proof.
  intros Hb. unfold live_nonces.
  pose proof (map_keep_size (λ (_ : string) expires, After expires now)
    (from_option id ∅ (usedNonces v !! d))).
  destruct (usedNonces v !! d) as [m|] eqn:Hm; cbn in *.
  - specialize (Hb d m Hm). lia.
  - rewrite map_size_empty in *. unfold maximumNonces. lia.
Qed.

Lemma set_nonces_bounded v d m :
  nonces_bounded v → Z.of_nat (size m) ≤ maximumNonces → nonces_bounded (set_nonces v d m).
Proof. intros Hb Hm d' m'. cbn. intros [ [<- <-]|[_ ?] ]%lookup_insert_Some; [done|by eapply Hb]. Qed.

Lemma reserve_bounded v co d nonce now :
  nonces_bounded v → nonces_bounded (reserve v co d nonce now).1.
Proof.
  intros Hb. pose proof (live_nonces_bounded v d now Hb) as Hl. unfold reserve.
  destruct co as [ []|]; try done. case_match; [by apply set_nonces_bounded|].
  destruct (_ <=? _) eqn:Hs; [by apply set_nonces_bounded|].
  assert (nonces_bounded (set_nonces (set_nonces v d (live_nonces v d now)) d
    (<[nonce := now + 2 * maxSkew v]> (live_nonces v d now)))) as Hb'.
  { apply set_nonces_bounded; [by apply set_nonces_bounded|]. split_bools.
    rewrite map_size_insert. case_match; cbn; lia. }
  by case_match.
Qed.

Lemma reserve_issued v d nonce d' now previous :
  lastIssued v !! d = Some previous → previous ≤ now →
  ∃ t, lastIssued (reserve v None d' nonce now).1 !! d = Some t ∧ previous ≤ t ≤ now.
Proof.
  intros Hd Hle.
  assert (∃ t, <[d' := now]> (lastIssued v) !! d = Some t ∧ previous ≤ t ≤ now) as Hset.
  { destruct (decide (d' = d)) as [->|Hne].
    - rewrite lookup_insert_eq. exists now. split; [done|lia].
    - rewrite lookup_insert_ne by done. exists previous. split; [done|lia]. }
  unfold reserve. repeat case_match; cbn; try done; exists previous; split; done || lia.
Qed.

Lemma later_issued c c' d previous :
  rtc vstep c c' → lastIssued c.1 !! d = Some previous → previous ≤ c.2 →
  ∃ t, lastIssued c'.1 !! d = Some t ∧ previous ≤ t ≤ c'.2.
Proof.
  intros Hr. revert previous.
  induction Hr as [c|c c1 c' [v t t' reg q body wb Ht] _ IH]; intros previous Hd Hle.
  - exists previous. split; [done|lia].
  - cbn in *. destruct (authorize_state v reg None t' q body wb) as [E|(d' & n' & E)].
    + rewrite E in *. apply IH; [done|lia].
    + destruct (reserve_issued v d n' d' t' previous Hd ltac:(lia)) as (x & Hx & Hb).
      rewrite E in *. destruct (IH x Hx ltac:(lia)) as (y & Hy & ?). exists y. split; [done|lia].
Qed.

(** A device is authorized at most once per [minInterval]. In any run of a verifier
    between two accepted requests of the same device, at least [minInterval] has
    passed; and whatever requests arrive, a verifier never remembers more than 64
    nonces for a device. *)
Theorem issuance_rate_limited v reg1 t1 q1 b1 w1 v1 d v2 t reg2 t2 q2 b2 w2 v3 :
  authorize v reg1 None t1 q1 b1 w1 = (v1, Ok d) →
  rtc vstep (v1, t1) (v2, t) → t ≤ t2 → 0 ≤ minInterval v →
  authorize v2 reg2 None t2 q2 b2 w2 = (v3, Ok d) →
  t1 + minInterval v ≤ t2 ∧ (nonces_bounded v → nonces_bounded v3).
Proof.
  intros H1 Hl Ht Hmin H2. split.
  - pose proof (authorize_config v reg1 None t1 q1 b1 w1) as (_ & _ & Hk). rewrite H1 in Hk.
    destruct (later_config _ _ Hl) as (_ & _ & Hk2). cbn in *.
    apply authorize_Ok in H1 as (p & rec & r & Hp & -> & _ & _ & _ & _ & Hr1 & _).
    apply authorize_Ok in H2 as (p' & rec' & r' & Hp' & Hd & _ & _ & _ & _ & Hr2 & _).
    apply reserve_None_Ok in Hr1 as (_ & _ & Hi1 & _). apply reserve_None_Ok in Hr2 as (_ & _ & _ & Hi2).
    destruct (later_issued _ _ _ _ Hl Hi1) as (x & Hx & Hb); [cbn; lia|]. cbn in Hx, Hb.
    rewrite Hx in Hi2. unfold Sub, min_int64, max_int64 in Hi2. lia.
  - intros Hb.
    assert (∀ v reg now q body wb, nonces_bounded v →
      nonces_bounded (authorize v reg None now q body wb).1) as Hstep.
    { intros u reg now q body wb Hu.
      destruct (authorize_state u reg None now q body wb) as [->|(d' & n & ->)]; [done|].
      by apply reserve_bounded. }
    assert (nonces_bounded v1) as Hb1.
    { specialize (Hstep v reg1 t1 q1 b1 w1 Hb). by rewrite H1 in Hstep. }
    assert (nonces_bounded v2) as Hb2.
    { change (nonces_bounded (v2, t).1). change (nonces_bounded (v1, t1).1) in Hb1.
      clear H1 H2. revert Hb1. induction Hl as [|c c1 c' [u s s' reg q body wb _] _ IH]; [done|].
      intros Hu. apply IH. by apply Hstep. }
    specialize (Hstep v2 reg2 t2 q2 b2 w2 Hb2). by rewrite H2 in Hstep.
Qed.

(** ** Snapshots *)

Section SnapshotTheorems.
Variable ed25519_Verify : bytes → bytes → bytes → bool.
Variable decodeStrictDocument : bytes → option signedSnapshotDocument.
Notation Reload := (Reload ed25519_Verify decodeStrictDocument).
Notation Parse := (ParseSignedRegistrySnapshot ed25519_Verify decodeStrictDocument).

(** Reloads of one registry, with whatever file contents. *)
Inductive reload_step (rl : RegistryReloader) : Registry → Registry → Prop :=
| reload_one registry file now : reload_step rl registry (Reload rl registry file now).1.

Lemma Parse_consistent file key id now sn :
  Parse file key id now = Some sn →
  revision (sn_state sn) = sn_revision sn ∧ digest (sn_state sn) = sn_digest sn.
Proof.
  unfold ParseSignedRegistrySnapshot. guard H1. destruct (decodeStrictDocument file); [|done].
  cbv zeta. guard H2. destruct (validateSnapshotPayload _ _) as [ [ia vu]|]; [|done]. guard H3.
  destruct (buildRegistryState _ _); [|done]. by intros [= <-].
Qed.

Lemma Reload_cases rl registry file now registry' r :
  Reload rl registry file now = (registry', r) →
  registry' = registry ∨
  ∃ bs sn, file = Some bs ∧ Parse bs (rl_publicKey rl) (rl_signingKeyID rl) now = Some sn ∧
    purpose (sn_state sn) = rl_purpose rl ∧
    registry' = Some (sn_state sn) ∧
    match registry with Some old => revision old < revision (sn_state sn) | None => True end.
Proof.
  unfold Reload. destruct file as [bs|]; [|intros [= <- _]; by left].
  destruct (Parse bs _ _ _) as [sn|] eqn:Hp; [|intros [= <- _]; by left].
  destruct (negb _) eqn:Hpu; [intros [= <- _]; by left|].
  destruct (Parse_consistent _ _ _ _ _ Hp) as [Hrev _]. split_bools. unfold ApplySnapshot.
  destruct registry as [old|]; [|intros [= <- _]; right; exists bs, sn; by split_and!].
  destruct (_ <? _) eqn:H1; [intros [= <- _]; by left|].
  destruct (_ =? _) eqn:H2; [case_match; intros [= <- _]; by left|].
  intros [= <- _]. right. exists bs, sn. split_bools. split_and!; try done. lia.
Qed.

(** The order of registries: the same state, or a later revision. *)
Definition registry_le (r1 r2 : Registry) : Prop :=
  r1 = r2 ∨ match r1, r2 with
            | None, Some _ => True
            | Some s1, Some s2 => revision s1 < revision s2
            | _, _ => False
            end.

#[local] Instance registry_le_preorder : PreOrder registry_le.
Proof.
  split; [by left|]. intros [x|] [y|] [z|] [?|?] [?|?]; simplify_eq; try (by left);
    try (by right); try done. right. lia.
Qed.

Lemma reloads_le rl r1 r2 : rtc (reload_step rl) r1 r2 → registry_le r1 r2.
Proof.
  induction 1 as [|r1 r r2 [registry file now] _ IH]; [reflexivity|]. etrans; [|exact IH].
  destruct (Reload rl registry file now) as [registry' res] eqn:E.
  apply Reload_cases in E as [->|(bs & sn & _ & _ & _ & -> & H)]; [reflexivity|].
  right. by destruct registry.
Qed.

Lemma reloads_from rl s1 r2 :
  rtc (reload_step rl) (Some s1) r2 →
  ∃ s2, r2 = Some s2 ∧ revision s1 ≤ revision s2 ∧ (revision s2 = revision s1 → s2 = s1).
Proof.
  intros Hr. destruct (reloads_le _ _ _ Hr) as [<-|Hlt].
  - exists s1. by split_and!.
  - destruct r2 as [s2|]; [|done]. exists s2. split_and!; [done|lia|lia].
Qed.

(** A request is authorized against the identity snapshot in force when it is
    admitted. However the registry is reloaded while the request is being checked, an
    accepted device was found in, and its signature checked with the secret of, the
    very snapshot that is in force at the end, where the device is enabled. *)
Theorem authorized_by_current_snapshot rl v reg co now q body wb v' d :
  rtc (reload_step rl) (view (at_lookup reg)) (view (at_end reg)) →
  authorize v reg co now q body wb = (v', Ok d) →
  ∃ state record p, view (at_end reg) = Some state ∧ view (at_lookup reg) = Some state ∧
    devices state !! d = Some record ∧ disabled record = false ∧
    parse_proof (scope v) q body wb = Some p ∧ deviceID p = d ∧
    signature p = hmac_sha256 (secret record) (bytes_of (canonical (scope v) p)).
Proof.
  intros Hr Ha. apply authorize_Ok in Ha as (p & rec & r & Hp & -> & Hl & Hd & Hsig & _ & _ & Hst).
  revert Hl. unfold lookupVersioned. destruct (view (at_lookup reg)) as [s1|] eqn:E1; [|done].
  case_match; [|done]. intros [= Hrec <-].
  destruct (reloads_from rl s1 _ Hr) as (s2 & E2 & _ & Hsame).
  revert Hst. unfold stillAllowedAtRevision. rewrite E2. destruct (_ || _) eqn:Hb; [done|].
  intros Hst. split_bools. rewrite Hsame by done. exists s1, rec, p. by split_and!.
Qed.
End SnapshotTheorems.

(** ** The signed text determines the request *)

Definition newline : byte := byte_of 10.

Fixpoint join_lines (parts : list bytes) : bytes :=
  match parts with
  | [] => []
  | [part] => part
  | part :: parts => part ++ newline :: join_lines parts
  end.

Lemma split_at_newline x y u v :
  newline ∉ x → newline ∉ y → x ++ newline :: u = y ++ newline :: v → x = y ∧ u = v.
Proof.
  revert y. induction x as [|a x IH]; intros [|b y] Hx Hy H; simplify_eq/=; try done.
  - by rewrite not_elem_of_cons in Hy; destruct Hy.
  - by rewrite not_elem_of_cons in Hx; destruct Hx.
  - rewrite not_elem_of_cons in Hx, Hy. destruct (IH y) as [-> ->]; naive_solver.
Qed.

Lemma newline_in x u : newline ∈ x ++ newline :: u.
Proof. rewrite elem_of_app, elem_of_cons. auto. Qed.

Lemma join_lines_inj xs ys :
  Forall (λ x, newline ∉ x) xs → Forall (λ y, newline ∉ y) ys →
  xs ≠ [] → ys ≠ [] → join_lines xs = join_lines ys → xs = ys.
Proof.
  intros Hxs. revert ys. induction Hxs as [|x xs Hx Hxs IH]; intros [|y ys] Hys Hn' Hn; try done.
  apply Forall_cons in Hys as [Hy Hys]. destruct xs as [|x2 xs], ys as [|y2 ys]; cbn [join_lines].
  - by intros ->.
  - intros ->. by destruct Hx; apply newline_in.
  - intros <-. by destruct Hy; apply newline_in.
  - intros [-> H]%split_at_newline; [|done..]. f_equal. by apply IH.
Qed.

(** *** Fields have no line feed *)

Definition one_line (s : string) : Prop := newline ∉ bytes_of s.

Lemma forallb_one_line f s :
  f newline = false → forallb f (bytes_of s) = true → one_line s.
Proof.
  intros Hf Hs Hin. rewrite forallb_forall in Hs. apply list_elem_of_In, Hs in Hin. congruence.
Qed.

Lemma identifier_one_line s n : ValidIdentifier s n = true → one_line s.
Proof.
  unfold ValidIdentifier. destruct (_ || _); [done|]. by apply forallb_one_line.
Qed.

Lemma version_one_line s : validVersion s = true → one_line s.
Proof. unfold validVersion. destruct (_ || _); [done|]. by apply forallb_one_line. Qed.

Lemma sha256_one_line s : validSHA256 s = true → one_line s.
Proof. unfold validSHA256. destruct (negb _); [done|]. by apply forallb_one_line. Qed.

Lemma base64_one_line bs : one_line (EncodeToString bs).
Proof.
  unfold one_line, EncodeToString. rewrite bytes_of_string_of. intros Hin.
  apply list_elem_of_fmap in Hin as (x & Hx & Hin).
  pose proof (b64_sextets_range bs) as Hr. rewrite Forall_forall in Hr. specialize (Hr x Hin).
  pose proof (b64_char_not_newline x Hr) as Hn. rewrite <- Hx in Hn. done.
Qed.

Lemma canonical_one_line s n : canonicalBase64URL s n = true → one_line s.
Proof. intros (bs & _ & ->)%canonical_b64_iff. apply base64_one_line. Qed.

Lemma digits_one_line bs acc z : parse_digits bs acc = Some z → newline ∉ bs.
Proof.
  revert acc. induction bs as [|b bs IH]; intros acc; [by intros _ ?%elem_of_nil|]. cbn.
  destruct (digit_value b) eqn:E; [|done]. intros H%IH. apply not_elem_of_cons.
  split; [|done]. by intros <-.
Qed.

Lemma ParseUint_one_line bs bits z : ParseUint bs bits = Some z → newline ∉ bs.
Proof.
  unfold ParseUint. destruct (bool_decide _); [done|].
  destruct (parse_digits bs 0) eqn:E; [|done]. intros _. by eapply digits_one_line.
Qed.

Lemma ParseInt_one_line s z : ParseInt s = Some z → one_line s.
Proof.
  unfold ParseInt, one_line. destruct (bytes_of s) as [|b bs]; [by intros _ ?%elem_of_nil|].
  destruct (bval b =? 45) eqn:E1; [|destruct (bval b =? 43) eqn:E2];
    destruct (ParseUint _ 64) eqn:E; try done; intros _;
    apply ParseUint_one_line in E; rewrite ?not_elem_of_cons in *; try done;
    (split; [by intros <-|done]).
Qed.

(** The lines of the signed text. *)
Definition proof_lines (s : ProofScope) (p : Proof_) : list string :=
  [proofDomain s; "POST"; proofPath s; deviceID p; clientID p; timestampText p; nonceText p]
  ++ extra p.

Lemma scope_headers_shape s q body extra :
  scope_headers s q body = Some extra →
  Forall one_line extra ∧
  match s with
  | OTAOfferProofScope => length extra = 4%nat
  | DeviceClaimProofScope => ∃ c, extra = [c] ∧ canonicalBase64URL c 32 = true
  | ActionConsentChallengeProofScope | ActionConsentResultProofScope =>
      ∃ h, extra = [h] ∧ validSHA256 h = true ∧ h = hex_encode (Sum256 body)
  | _ => extra = []
  end.
Proof.
  unfold scope_headers. destruct s; try (by intros [= <-]; rewrite Forall_nil).
  - do 4 (destruct (singleHeader q _); [|done]). destruct (_ || _) eqn:E; [done|].
    intros [= <-]. split_bools. destruct (ParseUint _ _) eqn:Ep; [|done].
    apply ParseUint_one_line in Ep.
    split; [|done]. rewrite !Forall_cons, Forall_nil.
    split_and!; eauto using identifier_one_line, version_one_line.
  - destruct (singleHeader q _) as [c|]; [|done]. destruct (canonicalBase64URL c 32) eqn:E; [|done].
    intros [= <-]. split; [|by exists c].
    rewrite Forall_singleton. by eapply canonical_one_line.
  - destruct (singleHeader q _) as [h|]; [|done]. destruct (_ || _) eqn:E; [done|].
    intros [= <-]. split_bools. split; [|by exists h].
    rewrite Forall_singleton. by apply sha256_one_line.
  - destruct (singleHeader q _) as [h|]; [|done]. destruct (_ || _) eqn:E; [done|].
    intros [= <-]. split_bools. split; [|by exists h].
    rewrite Forall_singleton. by apply sha256_one_line.
Qed.

Lemma parse_proof_Some s q body wb p :
  parse_proof s q body wb = Some p →
  scope_headers s q body = Some (extra p) ∧ one_line (deviceID p) ∧ one_line (clientID p) ∧
  one_line (timestampText p) ∧ one_line (nonceText p) ∧
  ParseInt (timestampText p) = Some (timestamp p).
Proof.
  unfold parse_proof. guard E0. guard E0'. clear E0 E0'. do 5 (destruct (singleHeader q _); [|done]).
  guard E1. destruct (scope_headers s q body) eqn:Ee; [|done].
  destruct (ParseInt _) eqn:Et; [|done]. guard E2. case_match; [|done]. guard E3.
  case_match; [|done]. guard E4.
  intros [= <-]. cbn. split_bools. split_and!; try done;
    try by eapply identifier_one_line.
  - by eapply ParseInt_one_line.
  - match goal with H : EncodeToString _ = ?n |- one_line ?n => rewrite <- H end.
    apply base64_one_line.
Qed.

#[local] Instance bytes_of_Inj : Inj eq eq bytes_of.
Proof. intros s t. apply bytes_of_inj. Qed.

Lemma bytes_of_nl s t : bytes_of (s +:+ nl +:+ t) = bytes_of s ++ newline :: bytes_of t.
Proof. by rewrite !bytes_of_app. Qed.

Lemma bytes_of_post s t :
  bytes_of (s +:+ post +:+ t) =
  bytes_of s ++ newline :: bytes_of "POST" ++ newline :: bytes_of t.
Proof. unfold post. rewrite !bytes_of_app, <- !app_assoc. done. Qed.

Lemma canonical_lines s q body wb p :
  parse_proof s q body wb = Some p →
  bytes_of (canonical s p) = join_lines (bytes_of <$> proof_lines s p).
Proof.
  intros (He & _)%parse_proof_Some. apply scope_headers_shape in He as [_ Hshape].
  unfold canonical, proof_lines. destruct s.
  - rewrite Hshape. unfold CanonicalScopedProof. cbn [bool_decide orb isActionConsentProof].
    rewrite !bool_decide_false by done. cbn [orb]. by rewrite bytes_of_post, !bytes_of_nl.
  - rewrite Hshape. unfold CanonicalScopedProof.
    rewrite !bool_decide_false by done. cbn [orb isActionConsentProof].
    by rewrite bytes_of_post, !bytes_of_nl.
  - destruct (extra p) as [|b [|c [|n [|v [|] ] ] ] ]; try done. unfold CanonicalOTAProof.
    by rewrite bytes_of_post, !bytes_of_nl.
  - destruct Hshape as (c & -> & Hc). unfold CanonicalDeviceClaimProof. rewrite Hc. cbn [negb].
    by rewrite bytes_of_post, !bytes_of_nl.
  - destruct Hshape as (h & -> & Hh & _). unfold CanonicalActionConsentProof. rewrite Hh.
    cbn [negb orb isActionConsentProof]. by rewrite bytes_of_post, !bytes_of_nl.
  - destruct Hshape as (h & -> & Hh & _). unfold CanonicalActionConsentProof. rewrite Hh.
    cbn [negb orb isActionConsentProof]. by rewrite bytes_of_post, !bytes_of_nl.
Qed.

Lemma proof_lines_one_line s q body wb p :
  parse_proof s q body wb = Some p →
  Forall (λ x, newline ∉ x) (bytes_of <$> proof_lines s p).
Proof.
  intros (He & Hd & Hc & Ht & Hn & _)%parse_proof_Some.
  apply scope_headers_shape in He as [He _]. unfold proof_lines.
  apply Forall_fmap, Forall_app. split; [|done].
  rewrite !Forall_cons, Forall_nil.
  assert (∀ str, bool_decide (newline ∈ bytes_of str) = false → newline ∉ bytes_of str) as Hdec
    by (intros str; apply bool_decide_eq_false).
  split_and!; try done; by apply Hdec; destruct s; vm_compute.
Qed.

(** The text a device signs determines the request. If two requests that the parser
    accepts, under whatever scopes, sign the same text, they are for the same
    endpoint, of the same device and client, with the same timestamp and nonce, and
    they agree in everything the scope adds: board, channel, release sequence and
    version of an OTA offer, the claim code, or the digest of the body. A signature
    made for one request therefore cannot be presented with another one. *)
Theorem signed_text_determines_request s1 q1 b1 w1 p1 s2 q2 b2 w2 p2 :
  parse_proof s1 q1 b1 w1 = Some p1 → parse_proof s2 q2 b2 w2 = Some p2 →
  canonical s1 p1 = canonical s2 p2 →
  s1 = s2 ∧ deviceID p1 = deviceID p2 ∧ clientID p1 = clientID p2 ∧
  timestamp p1 = timestamp p2 ∧ nonceText p1 = nonceText p2 ∧ extra p1 = extra p2 ∧
  (isActionConsentProof s1 = true → hex_encode (Sum256 b1) = hex_encode (Sum256 b2)).
Proof.
  intros H1 H2 Heq. apply (f_equal bytes_of) in Heq.
  rewrite (canonical_lines _ _ _ _ _ H1), (canonical_lines _ _ _ _ _ H2) in Heq.
  apply join_lines_inj in Heq; [|by eapply proof_lines_one_line|by eapply proof_lines_one_line
    |done|done].
  apply (list_fmap_eq_inj bytes_of) in Heq; [|apply _]. unfold proof_lines in Heq.
  injection Heq as Hdom Hpath Hd Hc Ht Hn He.
  assert (s1 = s2) as -> by (destruct s1, s2; done).
  apply parse_proof_Some in H1 as (Hx1 & _ & _ & _ & _ & Ht1).
  apply parse_proof_Some in H2 as (Hx2 & _ & _ & _ & _ & Ht2).
  split_and!; try done; [congruence|].
  apply scope_headers_shape in Hx1 as [_ Hs1], Hx2 as [_ Hs2].
  destruct s2; try done; destruct Hs1 as (h1 & E1 & _ & <-), Hs2 as (h2 & E2 & _ & <-); congruence.
Qed.

(** ** What a snapshot contains *)

Definition entry_secret (entry : registryEntry) : bytes :=
  if bool_decide (SecretB64 entry = "") then [] else from_option id [] (decodeSecret (SecretB64 entry)).
Definition record_of (entry : registryEntry) : deviceRecord :=
  {| secret := entry_secret entry; board := Board entry; otaChannel := OTAChannel entry;
     disabled := Disabled entry |}.

Lemma build_entry_Some req m entry m' :
  build_entry req m entry = Some m' →
  ValidIdentifier (DeviceID entry) 64 = true ∧ m !! DeviceID entry = None ∧
  m' = <[DeviceID entry := record_of entry]> m.
Proof.
  unfold build_entry. guard H1. guard H2. guard H3. guard H4. intros [= <-]. split_bools.
  split_and!; try done. unfold record_of, entry_secret. clear.
  by destruct (bool_decide (SecretB64 entry = "")).
Qed.

(** The map of a registry is exactly its list of entries, which has no duplicates. *)
Lemma build_entries_Some req m entries m' :
  build_entries req m entries = Some m' →
  ∀ d r, m' !! d = Some r ↔ m !! d = Some r ∨
    ∃ entry, entry ∈ entries ∧ DeviceID entry = d ∧ r = record_of entry ∧
      ValidIdentifier d 64 = true.
Proof.
  revert m. induction entries as [|e entries IH]; intros m; cbn.
  - intros [= ->] d r. split; [by left|]. intros [?|(e & He & _)]; [done|].
    by apply elem_of_nil in He.
  - destruct (build_entry req m e) as [m1|] eqn:E; [|done]. intros H d r.
    apply build_entry_Some in E as (Hv & Hn & ->). rewrite (IH _ H).
    rewrite lookup_insert_Some. setoid_rewrite elem_of_cons. split.
    + intros [ [ [<- <-]|[_ ?] ]|(e' & ? & ? & ? & ?)]; [right; exists e; by auto|by left|].
      right. exists e'. by auto.
    + intros [Hm|(e' & [->|He'] & <- & -> & Hv')].
      * left. right. split; [|done]. congruence.
      * left. by left.
      * right. by exists e'.
Qed.

Lemma valid_devices_Forall pu previous entries :
  valid_devices pu previous entries = true →
  Forall (λ entry, (pu = AccessSnapshotPurpose → SecretB64 entry = "") ∧
    (pu = ProofSnapshotPurpose → Disabled entry = false → SecretB64 entry ≠ "") ∧
    (SecretB64 entry ≠ "" → 32 ≤ blen (entry_secret entry) ≤ maximumDeviceSecret)) entries.
Proof.
  revert previous. induction entries as [|e entries IH]; intros previous; cbn; [done|].
  intros [Hv Hr]%andb_true_iff. constructor; [|by eapply IH]. clear IH Hr.
  unfold valid_device in Hv. revert Hv. guard H1. guard H2. guard H3. intros H4.
  split_and!.
  - intros ->. rewrite bool_decide_true in H3 by done. cbn in H3. by split_bools.
  - intros -> Hd Hs. by rewrite Hs, Hd, !bool_decide_true in H4.
  - intros Hs. unfold entry_secret. rewrite bool_decide_false in H2 |- * by done. cbn in H2.
    unfold decodeSecret. rewrite b64_decode_url.
    destruct (DecodeString (SecretB64 e)); [|done]. cbn. split_bools. lia.
Qed.

Section SnapshotContents.
Variable ed25519_Verify : bytes → bytes → bytes → bool.
Variable decodeStrictDocument : bytes → option signedSnapshotDocument.

(** C29: a signed snapshot that is accepted is fit for its purpose. It carries a signature
    of the configured key over exactly the listed devices, has not expired and is valid
    for at most a day; its device map is exactly its list of entries; a snapshot for
    access control contains no device secret; and with a snapshot for proofs every
    enabled device has a secret of 32 to 128 bytes, so that the registry stays ready to
    verify proofs until the snapshot expires. *)
Theorem snapshot_fit_for_purpose file key id now sn :
  ParseSignedRegistrySnapshot ed25519_Verify decodeStrictDocument file key id now = Some sn →
  let st := sn_state sn in
  (∃ document sig, decodeStrictDocument file = Some document ∧
     Signature document = EncodeToString sig ∧
     ed25519_Verify key (bytes_of RegistrySignatureDomain ++ marshal_payload (payload document))
       sig = true ∧
     ∀ d r, devices st !! d = Some r ↔
       ∃ entry, entry ∈ Devices (payload document) ∧ DeviceID entry = d ∧ r = record_of entry ∧
         ValidIdentifier d 64 = true) ∧
  now < validUntil st ∧ issuedAt st ≤ now + maximumSnapshotFuture ∧
  validUntil st - issuedAt st ≤ maximumSnapshotValidity ∧
  (purpose st = AccessSnapshotPurpose → ∀ d r, devices st !! d = Some r → secret r = []) ∧
  (purpose st = ProofSnapshotPurpose →
     (∀ d r, devices st !! d = Some r → disabled r = false → 32 ≤ blen (secret r) ≤ 128) ∧
     ∀ t, t < validUntil st → ProofReady {| view := Some st; at_ := t |} = true).
Proof.
  unfold ParseSignedRegistrySnapshot. guard H1.
  destruct (decodeStrictDocument file) as [doc|]; [|done]. cbv zeta. guard H2.
  destruct (validateSnapshotPayload _ _) as [ [ia vu]|] eqn:Hval; [|done]. guard H3.
  destruct (buildRegistryState _ _) as [built|] eqn:Hb; [|done]. intros [= <-]. cbn.
  unfold buildRegistryState in Hb. destruct (build_entries _ _ _) as [m|] eqn:Hm; [|done].
  injection Hb as <-. cbn. pose proof (build_entries_Some _ _ _ _ Hm) as Hlist.
  revert Hval. unfold validateSnapshotPayload. guard V1.
  destruct (CanonicalRFC3339 _) as [x|]; [|done]. destruct (CanonicalRFC3339 _) as [y|]; [|done].
  guard V2. guard V3. destruct (buildRegistryState _ _) as [?st|]; [|done]. intros [= -> ->].
  apply negb_false_iff, valid_devices_Forall in V3. rewrite Forall_forall in V3.
  apply orb_false_iff in V2 as [V2 V4%negb_false_iff]. apply orb_false_iff in V2 as [V2 V5].
  apply orb_false_iff in V2 as [_ V2]. unfold After in *. split_bools.
  assert (∀ d r, m !! d = Some r → ∃ entry, entry ∈ Devices (payload doc) ∧ r = record_of entry)
    as Hin.
  { intros d r [Hd|(e & ? & ? & ? & ?)]%Hlist; [by rewrite lookup_empty in Hd|by exists e]. }
  split_and!; try lia.
  - destruct (DecodeString (Signature doc)) as [sig|]; [|done]. exists doc, sig.
    split_bools. split_and!; try done. intros d r. rewrite Hlist, lookup_empty. naive_solver.
  - unfold Sub, min_int64, max_int64, maximumSnapshotValidity, hour, minute, second in *. lia.
  - intros Hp d r (e & He & ->)%Hin. destruct (V3 e He) as [Hacc _]. cbn. unfold entry_secret.
    by rewrite bool_decide_true by (by apply Hacc).
  - intros Hp.
    assert (∀ d r, m !! d = Some r → disabled r = false → 32 ≤ blen (secret r) ≤ 128) as Hlen.
    { intros d r (e & He & ->)%Hin Hd. destruct (V3 e He) as (_ & Hpr & Hlen). by apply Hlen, Hpr. }
    split; [exact Hlen|]. intros t Ht. unfold ProofReady, ready, readyLocked, Before. cbn.
    rewrite (proj2 (Z.ltb_lt _ _) Ht), orb_true_r. cbn.
    rewrite Hp, bool_decide_true, andb_false_r by done. apply forallb_forall. intros [d r] Hdr.
    apply list_elem_of_In, elem_of_map_to_list in Hdr.
    destruct (disabled r) eqn:Hd; [done|]. apply Z.leb_le. by eapply Hlen.
Qed.
End SnapshotContents.

(** ** Leases end with the identity *)

(** [Reconcile] keeps the leases of the allowed devices and revokes all the others. *)
Lemma Reconcile_spec tracker allowed tracker' revoked :
  Reconcile tracker allowed = (tracker', revoked) →
  (∀ d ls, active tracker' !! d = Some ls ↔ active tracker !! d = Some ls ∧ allowed d = true) ∧
  (∀ l, l ∈ revoked ↔
     ∃ d ls, active tracker !! d = Some ls ∧ allowed d = false ∧ l ∈ ls) ∧
  revoked ⊆ cancelled tracker'.
Proof.
  intros [= <- <-]. split_and!; cbn.
  - intros d ls. apply map_keep_Some.
  - intros l. rewrite elem_of_union_list. split.
    + intros (ls & Hls & Hl). apply list_elem_of_fmap in Hls as ( [d ls'] & -> & Hd).
      apply elem_of_map_to_list, map_keep_Some in Hd as [? ?]. split_bools. exists d, ls'. done.
    + intros (d & ls & Hd & Ha & Hl). exists ls. split; [|done]. apply list_elem_of_fmap.
      exists (d, ls). split; [done|]. apply elem_of_map_to_list, map_keep_Some.
      by rewrite Ha.
  - set_solver.
Qed.

(** ** Witnesses *)

Definition ex_T : Z := 1750000000.
Definition ex_secret : bytes := replicate 32 (byte_of 9).
Definition ex_record : deviceRecord :=
  {| secret := ex_secret; board := "s3"; otaChannel := "stable"; disabled := false |}.
Definition ex_state : registryState :=
  {| devices := {["dev-1" := ex_record]}; purpose := ProofSnapshotPurpose; revision := 3;
     issuedAt := from_unix (ex_T - 3600); validUntil := from_unix (ex_T + 3600);
     digest := replicate 32 (byte_of 1); signingKey := "key-1" |}.
Definition ex_view (n : Z) : View := {| view := Some ex_state; at_ := from_unix (ex_T + n) |}.
Definition ex_views (n : Z) : Views :=
  {| at_lookup := ex_view n; at_profile := ex_view n; at_end := ex_view n |}.
Definition ex_verifier : ProofVerifier :=
  {| scope := SessionProofScope; maxSkew := 60 * second; minInterval := second;
     usedNonces := ∅; lastIssued := ∅ |}.
Definition ex_nonce (n : Z) : string := EncodeToString (replicate 16 (byte_of n)).
Definition ex_request (nonce : Z) : Request :=
  {| Method := "POST"; Path := "/v1/session"; RawQuery := ""; ContentLength := 0;
     TransferEncoding := [];
     Header := λ name,
       if bool_decide (name = "Device-Id") then ["dev-1"]
       else if bool_decide (name = "Client-Id") then ["app"]
       else if bool_decide (name = "X-Device-Timestamp") then [FormatInt ex_T]
       else if bool_decide (name = "X-Device-Nonce") then [ex_nonce nonce]
       else if bool_decide (name = "X-Device-Signature") then
         [EncodeToString (hmac_sha256 ex_secret
            (bytes_of (CanonicalProof "dev-1" "app" (FormatInt ex_T) (ex_nonce nonce))))]
       else [] |}.
Definition ex_call (v : ProofVerifier) (n nonce : Z) : ProofVerifier * result error string :=
  authorize v (ex_views n) None (from_unix (ex_T + n)) (ex_request nonce) [] false.
Definition ex_v1 : ProofVerifier := (ex_call ex_verifier (-60) 1).1.
Definition ex_proof (nonce : Z) : option Proof_ :=
  parse_proof SessionProofScope (ex_request nonce) [] false.
Definition ex_parsed (nonce : Z) : Proof_ :=
  {| deviceID := "dev-1"; clientID := "app"; timestampText := FormatInt ex_T; timestamp := ex_T;
     nonceText := ex_nonce nonce;
     signature := hmac_sha256 ex_secret
       (bytes_of (CanonicalProof "dev-1" "app" (FormatInt ex_T) (ex_nonce nonce)));
     extra := [] |}.

Lemma with_result {A B} (r : A * B) b : r.2 = b → r = (r.1, b).
Proof. destruct r. by intros [= <-]. Qed.

Lemma ex_first_ok : ex_call ex_verifier (-60) 1 = (ex_v1, Ok "dev-1").
Proof. apply with_result. vm_compute. reflexivity. Qed.
Lemma ex_replay_ok : (ex_call ex_v1 60 1).2 = Ok "dev-1".
Proof. vm_compute. reflexivity. Qed.
Lemma ex_second_ok : (ex_call ex_v1 0 2).2 = Ok "dev-1".
Proof. vm_compute. reflexivity. Qed.
(** A second before that, the replay is refused. *)
Example ex_refused : (ex_call ex_v1 59 1).2 = Err ErrReplay.
Proof. vm_compute. reflexivity. Qed.
Lemma ex_proof_ok : ex_proof 1 = Some (ex_parsed 1).
Proof. vm_compute. reflexivity. Qed.

(** The exception is real: the same request is accepted sixty seconds before and sixty
    seconds after its timestamp. *)
Definition ex_vcall (n : Z) : vcall :=
  {| c_registry := ex_views n; c_now := from_unix (ex_T + n); c_request := ex_request 1; c_body := [];
     c_withBody := false |}.

Lemma proof_accepted_once_witness :
  (ex_call ex_verifier (-60) 1).2 = Ok "dev-1" ∧ (ex_call ex_v1 60 1).2 = Ok "dev-1" ∧
  from_unix (ex_T - 60) = from_unix ex_T - 60 * second ∧
  from_unix (ex_T + 60) = from_unix ex_T + 60 * second.
Proof.
  split; [rewrite ex_first_ok; reflexivity|]. split; [exact ex_replay_ok|].
  destruct (proof_accepted_once ex_verifier (ex_vcall (-60)) ex_v1 [] (ex_vcall 60) (ex_call ex_v1 60 1).1 "dev-1"
    (ex_parsed 1) (ex_parsed 1) ex_first_ok (with_result (ex_call ex_v1 60 1) _ ex_replay_ok)
    ex_proof_ok ex_proof_ok eq_refl eq_refl) as [H|(c & Hc & _)]; [exact H|by apply elem_of_nil in Hc].
Defined.

Lemma issuance_rate_limited_witness :
  from_unix (ex_T - 60) + second ≤ from_unix ex_T.
Proof.
  exact (proj1 (issuance_rate_limited ex_verifier (ex_views (-60)) (from_unix (ex_T - 60))
    (ex_request 1) [] false ex_v1 "dev-1" ex_v1 (from_unix (ex_T - 60)) (ex_views 0)
    (from_unix (ex_T + 0)) (ex_request 2) [] false (ex_call ex_v1 0 2).1
    ex_first_ok (rtc_refl _ _) ltac:(vm_compute; discriminate) ltac:(vm_compute; discriminate)
    (with_result (ex_call ex_v1 0 2) _ ex_second_ok))).
Defined.

(** The same text in two requests that differ outside it. *)
Lemma signed_text_determines_request_witness :
  ∃ q2, q2 ≠ ex_request 1 ∧ ∃ p2, parse_proof SessionProofScope q2 [] false = Some p2 ∧
    nonceText p2 = ex_nonce 1.
Proof.
  set (q2 := {| Method := "POST"; Path := "/v1/session"; RawQuery := ""; ContentLength := 0;
                TransferEncoding := ["identity"]; Header := Header (ex_request 1) |}).
  assert (parse_proof SessionProofScope q2 [] false = Some (ex_parsed 1)) as H2
    by exact ex_proof_ok.
  exists q2. split; [discriminate|]. exists (ex_parsed 1). split; [exact H2|].
  symmetry. apply (signed_text_determines_request SessionProofScope (ex_request 1) [] false
    (ex_parsed 1) SessionProofScope q2 [] false (ex_parsed 1) ex_proof_ok H2 eq_refl).
Defined.

Definition ex_entry : registryEntry :=
  {| DeviceID := "dev-1"; SecretB64 := EncodeToString ex_secret; Board := "s3";
     OTAChannel := "stable"; Disabled := false |}.
Definition ex_payload : signedSnapshotPayload :=
  {| Version := 2; Revision := 4; Purpose := ProofSnapshotPurpose;
     IssuedAt := "2025-06-15T15:00:00Z"; ValidUntil := "2025-06-15T16:00:00Z";
     Devices := [ex_entry]; SigningKeyID := "key-1" |}.
(** A stand-in for Ed25519: two copies of a MAC. *)
Definition toy_sign (key message : bytes) : bytes :=
  hmac_sha256 key message ++ hmac_sha256 key message.
Definition toy_Verify (key message sig : bytes) : bool := bool_decide (sig = toy_sign key message).
Definition ex_public : bytes := replicate 32 (byte_of 4).
Definition ex_document : signedSnapshotDocument :=
  {| payload := ex_payload;
     Signature := EncodeToString (toy_sign ex_public
       (bytes_of RegistrySignatureDomain ++ marshal_payload ex_payload)) |}.
Definition toy_decode (file : bytes) : option signedSnapshotDocument :=
  if bool_decide (file = marshal_document ex_document) then Some ex_document else None.
Definition ex_parse (n : Z) : option Snapshot :=
  ParseSignedRegistrySnapshot toy_Verify toy_decode (marshal_document ex_document) ex_public
    "key-1" (from_unix (1750000000 + n)).

Lemma ex_parse_ok : bool_decide (is_Some (ex_parse 0)) = true.
Proof. vm_compute. reflexivity. Qed.

Lemma snapshot_fit_for_purpose_witness :
  ∃ sn, ex_parse 0 = Some sn ∧
    (purpose (sn_state sn) = ProofSnapshotPurpose →
     (∀ d r, devices (sn_state sn) !! d = Some r → disabled r = false → 32 ≤ blen (secret r) ≤ 128) ∧
     ∀ t, t < validUntil (sn_state sn) → ProofReady {| view := Some (sn_state sn); at_ := t |} = true).
Proof.
  pose proof ex_parse_ok as Hok. apply bool_decide_eq_true in Hok as [sn Hsn].
  exists sn. split; [exact Hsn|].
  exact (proj2 (proj2 (proj2 (proj2 (proj2 (snapshot_fit_for_purpose toy_Verify toy_decode _ _ _ _ sn
    Hsn)))))).
Defined.

(** The registry is reloaded with a file that cannot be read while the request is checked. *)
Lemma authorized_by_current_snapshot_witness :
  ∃ state record, view (at_end (ex_views (-60))) = Some state ∧
    devices state !! "dev-1" = Some record ∧ disabled record = false.
Proof.
  destruct (authorized_by_current_snapshot toy_Verify toy_decode
    {| rl_publicKey := ex_public; rl_signingKeyID := "key-1"; rl_purpose := ProofSnapshotPurpose |}
    ex_verifier (ex_views (-60)) None (from_unix (ex_T - 60)) (ex_request 1) [] false ex_v1 "dev-1")
    as (state & record & p & He & _ & Hd & Hdis & _).
  - eapply rtc_l; [|apply rtc_refl].
    apply (reload_one toy_Verify toy_decode _ _ None (from_unix ex_T)).
  - exact ex_first_ok.
  - exists state, record. split; [exact He|]. split; [exact Hd|exact Hdis].
Defined.

End Provisioning.
