(* ===== verification/VoiceServer.v ===== *)
(** * VoiceServer: admission to the voice gateway and revocation

    Models the [Server] of [internal/gateway/handler.go] around the connections of
    [VoiceSession], and [session.go]: the checks of the [device] handler, the slots
    and tokens it takes, the table of connections, the reconciliation of that table
    with the identity registry and with the ownership of the devices, the shutdown,
    and the handler that issues voice sessions. Every section under a lock is one
    step; handlers interleave. A handler's number stands for the address of its
    connection. The answers of the shared coordinator and of the socket are inputs.
    Counters of refused requests are not modelled. *)

From stdpp Require Import base gmap strings list.
From Stdlib Require Import ZArith Lia.
From Stdlib.Strings Require Import Byte.
From S2P Require Import Prelude GoBase GoCrypto Protocol Auth Bearer Replay DeviceClaim Provisioning.

Module VoiceServer.
Import Ident Token.

(** ** The checks of [device] *)

Record device_request : Type := {
  hdr_Authorization : string;
  hdr_DeviceId : string;
  hdr_ClientId : string;
  hdr_ProtocolVersion : string;
}.

(** HTTP status codes. *)
Definition StatusUnauthorized : Z := 401.
Definition StatusForbidden : Z := 403.
Definition StatusConflict : Z := 409.
Definition StatusInternalServerError : Z := 500.
Definition StatusServiceUnavailable : Z := 503.

(** [safeIdentifier] is [auth.ValidIdentifier] written again. *)
Definition safeIdentifier (value : string) (max : Z) : bool :=
  IF bool_decide (value = "") || (max <? slen value) RETURN false ;;
  forallb identifier_byte (bytes_of value).

(** [DeviceAllowed] of the registry, when there is one. *)
Definition identity_allows (identity : option Provisioning.View) (deviceID : string) : bool :=
  match identity with Some v => Provisioning.DeviceAllowed v deviceID | None => true end.

Section device.
Context (json_Decode : bytes → option Claims) {E : Type}.

(** The handler up to the acquisition of its slot: the claims of the token, the
    scope they own and the version of the protocol. [n1], [n2], [n3] and [now] are
    readings of the clock. *)
Definition device_auth (v : Verifier) (n1 n2 n3 now : Time)
    (owner : string → result E (option DeviceClaim.Ownership))
    (identity : option Provisioning.View) (request : device_request) :
    result Z (Claims * string * Z) :=
  match VerifyAuthorization json_Decode v n1 n2 n3 (hdr_Authorization request) with
  | Err _ => Err StatusUnauthorized
  | Ok claims =>
      match OwnedDeviceScope claims with
      | None => Err StatusUnauthorized
      | Some ownedScope =>
          match owner (DeviceID claims) with
          | Err _ => Err StatusServiceUnavailable
          | Ok None => Err StatusUnauthorized
          | Ok (Some ownership) =>
              IF negb (DeviceClaim.Matches ownership (OwnerID claims) (TenantID claims)
                         (BindingID claims) (BindingRevision claims))
                RETURN Err StatusUnauthorized ;;
              match ParseInt (hdr_ProtocolVersion request) with
              | None => Err StatusUnauthorized
              | Some headerVersion =>
                  IF negb (bool_decide (hdr_DeviceId request = DeviceID claims))
                     || negb (safeIdentifier (hdr_ClientId request) 64)
                     || (headerVersion <? 1) || (3 <? headerVersion)
                     || negb (After (from_unix (Expires claims)) now)
                    RETURN Err StatusUnauthorized ;;
                  IF negb (identity_allows identity (hdr_DeviceId request))
                    RETURN Err StatusUnauthorized ;;
                  Ok (claims, ownedScope, headerVersion)
              end
          end
      end
  end.

End device.

(** ** The server *)

(** A [connection], as far as the server looks at it. *)
Record connection : Type := {
  c_claims : Claims;
  identityRevoked : bool;
  ownershipRevoked : bool;
}.

Definition revoke_identity (c : connection) : connection :=
  {| c_claims := c_claims c; identityRevoked := true; ownershipRevoked := ownershipRevoked c |}.
Definition revoke_ownership (c : connection) : connection :=
  {| c_claims := c_claims c; identityRevoked := identityRevoked c; ownershipRevoked := true |}.

(** Where a [device] handler that holds a slot is: before its token is consumed,
    before the socket is accepted, in [run], or on its way out. *)
Inductive handler : Type :=
| Acquired (claims : Claims)
| Consumed (claims : Claims)
| Live
| Leaving (deviceID : string).

(** [closed] are the connections told to stop (a close of the socket, after
    [cancelActive] if it is live) with the reason. *)
Record Server : Type := {
  coordinated : bool;
  registry : Replay.registry;
  tokenReplay : Replay.tokenReplayGuard;
  handlers : gmap nat handler;
  heap : gmap nat connection;
  connections : gmap string nat;
  stopping : bool;
  closed : gset (nat * string);
}.

Definition New (coordinated : bool) (maxConnections : Z) : Server :=
  let maxConnections := if maxConnections <=? 0 then 1000 else maxConnections in
  {| coordinated := coordinated; registry := Replay.newRegistry maxConnections;
     tokenReplay := Replay.newTokenReplayGuard (maxConnections * 8);
     handlers := ∅; heap := ∅; connections := ∅; stopping := false; closed := ∅ |}.

Definition set_registry r (s : Server) : Server :=
  {| coordinated := coordinated s; registry := r; tokenReplay := tokenReplay s;
     handlers := handlers s; heap := heap s; connections := connections s;
     stopping := stopping s; closed := closed s |}.
Definition set_tokens t (s : Server) : Server :=
  {| coordinated := coordinated s; registry := registry s; tokenReplay := t;
     handlers := handlers s; heap := heap s; connections := connections s;
     stopping := stopping s; closed := closed s |}.
Definition set_handlers h (s : Server) : Server :=
  {| coordinated := coordinated s; registry := registry s; tokenReplay := tokenReplay s;
     handlers := h; heap := heap s; connections := connections s;
     stopping := stopping s; closed := closed s |}.
Definition set_heap h (s : Server) : Server :=
  {| coordinated := coordinated s; registry := registry s; tokenReplay := tokenReplay s;
     handlers := handlers s; heap := h; connections := connections s;
     stopping := stopping s; closed := closed s |}.
Definition set_connections m (s : Server) : Server :=
  {| coordinated := coordinated s; registry := registry s; tokenReplay := tokenReplay s;
     handlers := handlers s; heap := heap s; connections := m;
     stopping := stopping s; closed := closed s |}.
Definition set_stopping (s : Server) : Server :=
  {| coordinated := coordinated s; registry := registry s; tokenReplay := tokenReplay s;
     handlers := handlers s; heap := heap s; connections := connections s;
     stopping := true; closed := closed s |}.
Definition close_all (rs : gset nat) (reason : string) (s : Server) : Server :=
  {| coordinated := coordinated s; registry := registry s; tokenReplay := tokenReplay s;
     handlers := handlers s; heap := heap s; connections := connections s;
     stopping := stopping s; closed := set_map (λ r, (r, reason)) rs ∪ closed s |}.

Definition goto (r : nat) (h : handler) (s : Server) : Server :=
  set_handlers (<[r := h]> (handlers s)) s.

(** *** Steps of a [device] handler *)

(** A request that passed [device_auth] takes the slot of its device. *)
Definition take_slot (r : nat) (claims : Claims) (s : Server) : Server * bool :=
  let '(reg, ok) := Replay.acquire (registry s) (DeviceID claims) in
  IF negb ok RETURN (set_registry reg s, false) ;;
  (goto r (Acquired claims) (set_registry reg s), true).

(** What the shared coordinator answers to [AcquireVoice] and
    [ConsumeVoiceToken]. *)
Inductive coordination : Type :=
| CoordinationGranted
| LeaseConflict
| LeaseRateLimited
| LeaseFailed
| TokenReplayed
| TokenFailed.

Definition coordination_status (c : coordination) : option Z :=
  match c with
  | CoordinationGranted => None
  | LeaseConflict => Some StatusConflict
  | LeaseRateLimited | LeaseFailed | TokenFailed => Some StatusServiceUnavailable
  | TokenReplayed => Some StatusUnauthorized
  end.

(** It then uses up its token, by the coordinator or in this process. *)
Definition use_token (r : nat) (claims : Claims) (c : coordination) (now : Time) (s : Server) :
    Server * option Z :=
  if coordinated s then
    match coordination_status c with
    | Some status => (goto r (Leaving (DeviceID claims)) s, Some status)
    | None => (goto r (Consumed claims) s, None)
    end
  else
    let '(guard, ok) := Replay.consume (tokenReplay s) now claims in
    let s := set_tokens guard s in
    IF negb ok RETURN (goto r (Leaving (DeviceID claims)) s, Some StatusUnauthorized) ;;
    (goto r (Consumed claims) s, None).

Definition addConnection (r : nat) (claims : Claims) (identity : option Provisioning.View)
    (s : Server) : Server * bool :=
  IF stopping s || negb (identity_allows identity (DeviceID claims)) RETURN (s, false) ;;
  (set_connections (<[DeviceID claims := r]> (connections s)) s, true).

(** [accepted] is whether the WebSocket handshake succeeds. *)
Definition connect (r : nat) (claims : Claims) (accepted : bool)
    (identity : option Provisioning.View) (s : Server) : Server :=
  IF negb accepted RETURN goto r (Leaving (DeviceID claims)) s ;;
  let c := {| c_claims := claims; identityRevoked := false; ownershipRevoked := false |} in
  let s := set_heap (<[r := c]> (heap s)) s in
  let '(s, ok) := addConnection r claims identity s in
  if ok then goto r Live s
  else goto r (Leaving (DeviceID claims)) (close_all {[r]} "gateway shutting down" s).

Definition removeConnection (deviceID : string) (r : nat) (s : Server) : Server :=
  IF negb (bool_decide (connections s !! deviceID = Some r)) RETURN s ;;
  set_connections (delete deviceID (connections s)) s.

(** [run] has returned. *)
Definition leave (r : nat) (s : Server) : Server :=
  match heap s !! r with
  | Some c =>
      let d := DeviceID (c_claims c) in
      goto r (Leaving d) (removeConnection d r s)
  | None => s
  end.

Definition give_slot (r : nat) (deviceID : string) (s : Server) : Server :=
  set_handlers (delete r (handlers s)) (set_registry (Replay.release (registry s) deviceID) s).

(** *** Revocation *)

Definition is_revoked (f : connection → bool) (s : Server) (r : nat) : bool :=
  match heap s !! r with Some c => f c | None => true end.

(** [allowed] is [DeviceAllowed] as the loop reads it for each device. *)
Definition ReconcileIdentity (allowed : string → bool) (s : Server) : Server * Z :=
  let revoked : gset nat :=
    list_to_set (map_to_list (map_keep
      (λ d r, negb (is_revoked identityRevoked s r) && negb (allowed d)) (connections s))).*2 in
  let s := set_heap (map_imap (λ r c, Some (if decide (r ∈ revoked) then revoke_identity c else c))
             (heap s)) s in
  (close_all revoked "device access revoked" s, Z.of_nat (size revoked)).

(** The ownership resolver: one lookup for all devices, or one for each. *)
Inductive resolver (E : Type) : Type :=
| Batch (owners : list string → result E (gmap string DeviceClaim.Ownership))
| Single (owner : string → result E (option DeviceClaim.Ownership)).
Arguments Batch {E} owners.
Arguments Single {E} owner.

Definition active_of (s : Server) : list (string * nat) := map_to_list (connections s).

(** Whether the lookups show that the connection has lost its device. *)
Definition lost (c : connection) (owner : option DeviceClaim.Ownership) : bool :=
  match owner with
  | Some o => negb (DeviceClaim.Matches o (OwnerID (c_claims c)) (TenantID (c_claims c))
                      (BindingID (c_claims c)) (BindingRevision (c_claims c)))
  | None => true
  end.

(** The loop over [active], the connections found when the lookups began; [s] is the
    server when they are back. A failed lookup leaves its session alone. *)
Definition revoked_ownership {E} (lookup : string → result E (option DeviceClaim.Ownership))
    (active : list (string * nat)) (s : Server) : gset nat :=
  list_to_set (filter (λ dr,
    match heap s !! dr.2, lookup dr.1 with
    | Some c, Ok owner =>
        lost c owner && bool_decide (connections s !! dr.1 = Some dr.2)
        && negb (ownershipRevoked c)
    | _, _ => false
    end = true) active).*2.

Definition ReconcileOwnership {E} (resolve : resolver E) (active : list (string * nat))
    (s : Server) : Server * Z :=
  let finish lookup :=
    let revoked := revoked_ownership lookup active s in
    let s := set_heap (map_imap (λ r c,
               Some (if decide (r ∈ revoked) then revoke_ownership c else c)) (heap s)) s in
    (close_all revoked "device ownership changed" s, Z.of_nat (size revoked)) in
  match resolve with
  | Batch owners =>
      match owners active.*1 with
      | Err _ => (s, 0)
      | Ok resolved => finish (λ d, Ok (resolved !! d))
      end
  | Single owner => finish owner
  end.

Definition Shutdown (s : Server) : Server :=
  close_all (list_to_set (active_of s).*2) "gateway shutting down" (set_stopping s).

(** ** Runs *)

Section runs.
Context (json_Decode : bytes → option Claims) {E : Type}.

Inductive action : Type :=
| AArrive (r : nat) (v : Verifier) (n1 n2 n3 now : Time)
    (owner : string → result E (option DeviceClaim.Ownership))
    (identity : option Provisioning.View) (request : device_request)
| AToken (r : nat) (c : coordination) (now : Time)
| AConnect (r : nat) (accepted : bool) (identity : option Provisioning.View)
| ALeave (r : nat)
| AGive (r : nat)
| AIdentity (allowed : string → bool)
| AOwnership (resolve : resolver E) (active : list (string * nat))
| AShutdown.

(** A handler moves only from where it is; a new one has a number of its own. *)
Definition step (s : Server) (a : action) : option Server :=
  match a with
  | AArrive r v n1 n2 n3 now owner identity request =>
      match handlers s !! r, heap s !! r with
      | None, None =>
          match device_auth json_Decode v n1 n2 n3 now owner identity request with
          | Err _ => Some s
          | Ok (claims, _, _) => Some (take_slot r claims s).1
          end
      | _, _ => None
      end
  | AToken r c now =>
      match handlers s !! r with
      | Some (Acquired claims) => Some (use_token r claims c now s).1
      | _ => None
      end
  | AConnect r accepted identity =>
      match handlers s !! r with
      | Some (Consumed claims) => Some (connect r claims accepted identity s)
      | _ => None
      end
  | ALeave r =>
      match handlers s !! r with Some Live => Some (leave r s) | _ => None end
  | AGive r =>
      match handlers s !! r with Some (Leaving d) => Some (give_slot r d s) | _ => None end
  | AIdentity allowed => Some (ReconcileIdentity allowed s).1
  | AOwnership resolve active => Some (ReconcileOwnership resolve active s).1
  | AShutdown => Some (Shutdown s)
  end.

Fixpoint run (s : Server) (acts : list action) : option Server :=
  match acts with
  | [] => Some s
  | a :: acts => match step s a with Some s => run s acts | None => None end
  end.

End runs.

Arguments action E : clear implicits.

(** ** Issuing sessions *)

Record sessionResponse : Type := {
  Version : Z;
  resp_DeviceID : string;
  resp_BindingID : string;
  resp_BindingRevision : Z;
  URI : string;
  BearerToken : string;
  ExpiresInSeconds : Z;
}.

Definition reject_status (e : Provisioning.error) : Z :=
  match e with
  | Provisioning.ErrMalformedProof => 400
  | Provisioning.ErrReplay => StatusConflict
  | Provisioning.ErrRateLimited => 429
  | Provisioning.ErrUnavailable => StatusServiceUnavailable
  | _ => StatusUnauthorized
  end.

(** [proof] is the answer of [SessionProof.Authorize], [identity] the registry as
    [WithDeviceAllowed] reads it. *)
Definition session {E} (publicWSS : string) (issuer : Issuer)
    (owner : string → result E (option DeviceClaim.Ownership))
    (proof : result Provisioning.error string) (identity : Provisioning.View) (now : Time)
    (random : option bytes) : result Z sessionResponse :=
  match proof with
  | Err e => Err (reject_status e)
  | Ok deviceID =>
      match owner deviceID with
      | Err _ => Err StatusServiceUnavailable
      | Ok None => Err StatusForbidden
      | Ok (Some o) =>
          IF negb (Provisioning.DeviceAllowed identity deviceID)
            RETURN Err (reject_status Provisioning.ErrUnauthorized) ;;
          match IssueOwned issuer now random deviceID (DeviceClaim.OwnerID o)
                  (DeviceClaim.TenantID o) (DeviceClaim.BindingID o)
                  (DeviceClaim.BindingRevision o) with
          | Err _ => Err StatusInternalServerError
          | Ok (token, claims) =>
              Ok {| Version := 2; resp_DeviceID := deviceID;
                    resp_BindingID := BindingID claims;
                    resp_BindingRevision := BindingRevision claims;
                    URI := publicWSS; BearerToken := token;
                    ExpiresInSeconds := Expires claims -i IssuedAt claims |}
          end
      end
  end.

(** ** The table of connections *)

Definition reason_identity : string := "device access revoked".
Definition reason_ownership : string := "device ownership changed".

(** The device a handler holds the slot of. *)
Definition device_of (s : Server) (r : nat) (d : string) : Prop :=
  match handlers s !! r with
  | Some (Acquired claims) | Some (Consumed claims) => DeviceID claims = d
  | Some Live => ∃ c, heap s !! r = Some c ∧ DeviceID (c_claims c) = d
  | Some (Leaving d') => d' = d
  | None => False
  end.

Record server_ok (s : Server) : Prop := {
  ok_slot r d : device_of s r d → d ∈ Replay.devices (registry s);
  ok_unique r r' d : device_of s r d → device_of s r' d → r = r';
  ok_table d r : connections s !! d = Some r → handlers s !! r = Some Live ∧ device_of s r d;
  ok_live r d : handlers s !! r = Some Live → device_of s r d → connections s !! d = Some r;
  ok_heap r : handlers s !! r = Some Live → is_Some (heap s !! r);
  ok_limit : Replay.registry_ok (registry s);
  ok_identity r c : heap s !! r = Some c → identityRevoked c = true →
    (r, reason_identity) ∈ closed s;
  ok_ownership r c : heap s !! r = Some c → ownershipRevoked c = true →
    (r, reason_ownership) ∈ closed s;
}.

Lemma device_of_goto s r h r' d :
  device_of (goto r h s) r' d ↔
  if decide (r = r') then
    match h with
    | Acquired claims | Consumed claims => DeviceID claims = d
    | Live => ∃ c, heap s !! r' = Some c ∧ DeviceID (c_claims c) = d
    | Leaving d' => d' = d
    end
  else device_of s r' d.
Proof.
  unfold device_of. cbn. destruct (decide (r = r')) as [->|Hne].
  - by rewrite lookup_insert_eq.
  - by rewrite lookup_insert_ne.
Qed.

Lemma device_of_fun s r d d' : device_of s r d → device_of s r d' → d = d'.
Proof. unfold device_of. destruct (handlers s !! r) as [ []|]; naive_solver congruence. Qed.

Lemma New_server_ok co max : server_ok (New co max).
Proof.
  split; unfold device_of; cbn.
  - intros r d. by rewrite lookup_empty.
  - intros r r' d. by rewrite lookup_empty.
  - intros d r. by rewrite lookup_empty.
  - intros r d. by rewrite lookup_empty.
  - intros r. by rewrite lookup_empty.
  - intros Hpos. cbn. rewrite size_empty. cbn in Hpos. lia.
  - intros r c. by rewrite lookup_empty.
  - intros r c. by rewrite lookup_empty.
Qed.

(** A handler moves on, keeping its device. *)
Lemma goto_ok s r h d :
  server_ok s → device_of s r d → handlers s !! r ≠ Some Live → h ≠ Live →
  match h with
  | Acquired claims | Consumed claims => DeviceID claims = d
  | Live => False
  | Leaving d' => d' = d
  end → server_ok (goto r h s).
Proof.
  intros Hok Hd Hnl Hh Hh'.
  assert (∀ r' d', device_of (goto r h s) r' d' → device_of s r' d') as Hback.
  { intros r' d'. rewrite device_of_goto. destruct (decide (r = r')) as [<-|]; [|done].
    destruct h; [naive_solver|naive_solver|done|naive_solver]. }
  destruct Hok as [Hs Hu Ht Hl Hhp Hlim Hi Ho]. split.
  - intros r' d' Hd'%Hback. by eapply Hs.
  - intros r1 r2 d' H1%Hback H2%Hback. by eapply Hu.
  - intros d' r' Hc. destruct (Ht d' r' Hc) as [Hlive Hdev].
    assert (r ≠ r') as Hne by congruence. split.
    + cbn. by rewrite lookup_insert_ne.
    + rewrite device_of_goto. by destruct (decide (r = r')).
  - intros r' d' Hlive Hd'%Hback. cbn in Hlive.
    destruct (decide (r = r')) as [<-|Hne].
    + rewrite lookup_insert_eq in Hlive. congruence.
    + rewrite lookup_insert_ne in Hlive by done. by eapply Hl.
  - intros r' Hlive. cbn in Hlive. destruct (decide (r = r')) as [<-|Hne].
    + rewrite lookup_insert_eq in Hlive. congruence.
    + rewrite lookup_insert_ne in Hlive by done. by apply Hhp.
  - done.
  - done.
  - done.
Qed.

Lemma take_slot_ok r claims s :
  server_ok s → handlers s !! r = None → server_ok (take_slot r claims s).1.
Proof.
  intros Hok Hr. unfold take_slot. destruct (Replay.acquire (registry s) (DeviceID claims))
    as [reg ok] eqn:Ha.
  pose proof (Replay.acquire_ok (registry s) (DeviceID claims) (ok_limit _ Hok)) as (Hlim & _ & Hin).
  rewrite Ha in Hlim, Hin. cbn [fst snd] in Hlim, Hin.
  assert (Replay.devices (registry s) ⊆ Replay.devices reg) as Hsub.
  { unfold Replay.acquire in Ha. destruct (_ || _); simplify_eq/=; set_solver. }
  destruct Hok as [Hs Hu Ht Hl Hhp _ Hi Ho].
  destruct ok; cbn [negb fst]; [|by split; try done; intros; apply Hsub; eapply Hs].
  destruct (Hin eq_refl) as [Hnew Hnow].
  assert (∀ r' d', device_of (goto r (Acquired claims) (set_registry reg s)) r' d' →
    r' = r ∧ d' = DeviceID claims ∨ r' ≠ r ∧ device_of s r' d') as Hback.
  { intros r' d'. rewrite device_of_goto. destruct (decide (r = r')); naive_solver. }
  split.
  - intros r' d' [ [-> ->]|[_ Hd] ]%Hback; [done|]. apply Hsub. by eapply Hs.
  - intros r1 r2 d' [ [-> ->]|[_ H1] ]%Hback [ [-> H2]|[_ H2] ]%Hback; [done| | |by eapply Hu].
    + destruct Hnew. by eapply Hs.
    + subst d'. destruct Hnew. by eapply Hs.
  - intros d' r' Hc. cbn in Hc. destruct (Ht d' r' Hc) as [Hlive Hdev].
    assert (r ≠ r') as Hne by congruence. split.
    + cbn. by rewrite lookup_insert_ne.
    + rewrite device_of_goto. by destruct (decide (r = r')).
  - intros r' d' Hlive [ [-> ->]|[Hne Hd] ]%Hback; cbn in *.
    + by rewrite lookup_insert_eq in Hlive.
    + rewrite lookup_insert_ne in Hlive by done. by eapply Hl.
  - intros r' Hlive. cbn in *. destruct (decide (r = r')) as [<-|Hne].
    + by rewrite lookup_insert_eq in Hlive.
    + rewrite lookup_insert_ne in Hlive by done. by apply Hhp.
  - done.
  - done.
  - done.
Qed.

(** Fields the invariant does not read. *)
Lemma set_tokens_ok t s : server_ok s → server_ok (set_tokens t s).
Proof. by intros [? ? ? ? ? ? ? ?]; split. Qed.

Lemma use_token_ok r claims c now s :
  server_ok s → handlers s !! r = Some (Acquired claims) →
  server_ok (use_token r claims c now s).1.
Proof.
  intros Hok Hr. assert (device_of s r (DeviceID claims)) as Hd by (unfold device_of; by rewrite Hr).
  unfold use_token. destruct (coordinated s).
  - destruct (coordination_status c); cbn [fst]; eapply goto_ok; try done; by rewrite Hr.
  - destruct (Replay.consume _ _ _) as [guard ok].
    destruct ok; cbn [negb fst]; (eapply goto_ok; [by apply set_tokens_ok|done| |done|done]);
      cbn; by rewrite Hr.
Qed.

Lemma close_all_ok rs reason s : server_ok s → server_ok (close_all rs reason s).
Proof.
  intros [Hs Hu Ht Hl Hhp Hlim Hi Ho]. split; try done.
  - intros r c Hc Hrev. cbn. apply elem_of_union_r. by eapply Hi.
  - intros r c Hc Hrev. cbn. apply elem_of_union_r. by eapply Ho.
Qed.

Lemma connect_ok r claims accepted identity s :
  server_ok s → handlers s !! r = Some (Consumed claims) →
  server_ok (connect r claims accepted identity s).
Proof.
  intros Hok Hr. assert (device_of s r (DeviceID claims)) as Hd by (unfold device_of; by rewrite Hr).
  unfold connect. destruct accepted; cbn [negb]; [|eapply goto_ok; try done; by rewrite Hr].
  set (c := {| c_claims := claims; identityRevoked := false; ownershipRevoked := false |}).
  assert (∀ r' d', device_of (set_heap (<[r:=c]> (heap s)) s) r' d' ↔ device_of s r' d') as Hdev.
  { intros r' d'. unfold device_of. cbn. destruct (decide (r = r')) as [<-|Hne].
    - by rewrite Hr.
    - by rewrite lookup_insert_ne. }
  assert (server_ok (set_heap (<[r:=c]> (heap s)) s)) as Hok1.
  { destruct Hok as [Hs Hu Ht Hl Hhp Hlim Hi Ho]. split.
    - intros r' d'. rewrite Hdev. apply Hs.
    - intros r1 r2 d'. rewrite !Hdev. apply Hu.
    - intros d' r' Hc. rewrite Hdev. by apply Ht.
    - intros r' d' Hlive. rewrite Hdev. by apply Hl.
    - intros r' Hlive. cbn in *. assert (r ≠ r') by congruence. rewrite lookup_insert_ne by done.
      by apply Hhp.
    - done.
    - intros r' c' Hc. cbn in *. destruct (decide (r = r')) as [<-|Hne].
      + rewrite lookup_insert_eq in Hc. by simplify_eq.
      + rewrite lookup_insert_ne in Hc by done. by apply Hi.
    - intros r' c' Hc. cbn in *. destruct (decide (r = r')) as [<-|Hne].
      + rewrite lookup_insert_eq in Hc. by simplify_eq.
      + rewrite lookup_insert_ne in Hc by done. by apply Ho. }
  unfold addConnection. destruct (_ || _).
  { eapply goto_ok; [by apply close_all_ok|by apply Hdev| |done|done]. cbn. by rewrite Hr. }
  cbn [fst snd]. clear Hok.
  set (s1 := set_heap (<[r:=c]> (heap s)) s) in *.
  assert (∀ r' d', device_of (goto r Live (set_connections (<[DeviceID claims:=r]>
    (connections s1)) s1)) r' d' ↔ device_of s1 r' d') as Hdev2.
  { intros r' d'. rewrite device_of_goto. destruct (decide (r = r')) as [<-|Hne]; [|done].
    unfold device_of. cbn. rewrite Hr, lookup_insert_eq. split; [|by eauto].
    by intros (c' & [= <-] & ?). }
  assert (device_of s1 r (DeviceID claims)) as Hd1 by (by apply Hdev).
  destruct Hok1 as [Hs Hu Ht Hl Hhp Hlim Hi Ho]. split.
  - intros r' d'. rewrite Hdev2. apply Hs.
  - intros r1 r2 d'. rewrite !Hdev2. apply Hu.
  - intros d' r' Hc. rewrite Hdev2. cbn in Hc |- *.
    apply lookup_insert_Some in Hc as [ [<- <-]|[Hne Hc] ].
    + by rewrite lookup_insert_eq.
    + destruct (Ht d' r' Hc) as [Hlive ?]. split; [|done].
      assert (r ≠ r') by (intros <-; cbn in Hlive; congruence). by rewrite lookup_insert_ne.
  - intros r' d' Hlive. rewrite Hdev2. intros Hd'. cbn in *.
    destruct (decide (r = r')) as [<-|Hne].
    + rewrite (device_of_fun _ _ _ _ Hd' Hd1). by rewrite lookup_insert_eq.
    + rewrite lookup_insert_ne in Hlive by done. rewrite lookup_insert_ne; [by apply Hl|].
      intros <-. apply Hne. by eapply Hu.
  - intros r' Hlive. cbn in *. destruct (decide (r = r')) as [<-|Hne].
    + by rewrite lookup_insert_eq.
    + rewrite lookup_insert_ne in Hlive by done. by apply Hhp.
  - done.
  - done.
  - done.
Qed.

Lemma leave_ok r s :
  server_ok s → handlers s !! r = Some Live → server_ok (leave r s).
Proof.
  intros Hok Hr. unfold leave. destruct (ok_heap _ Hok r Hr) as [c Hc]. rewrite Hc.
  set (d := DeviceID (c_claims c)).
  assert (device_of s r d) as Hd by (unfold device_of; rewrite Hr; eauto).
  pose proof (ok_live _ Hok r d Hr Hd) as Hconn.
  unfold removeConnection. rewrite (bool_decide_true _ Hconn). cbn [negb].
  set (s1 := set_connections (delete d (connections s)) s).
  assert (∀ r' d', device_of (goto r (Leaving d) s1) r' d' ↔ device_of s r' d') as Hdev.
  { intros r' d'. rewrite device_of_goto. destruct (decide (r = r')) as [<-|]; [|done].
    split; [by intros <-|intros Hd'; by eapply device_of_fun]. }
  destruct Hok as [Hs Hu Ht Hl Hhp Hlim Hi Ho]. split; try done.
  - intros r' d'. rewrite Hdev. apply Hs.
  - intros r1 r2 d'. rewrite !Hdev. apply Hu.
  - intros d' r' Hc'. rewrite Hdev. cbn in Hc' |- *.
    apply lookup_delete_Some in Hc' as [Hne Hc']. destruct (Ht d' r' Hc') as [Hlive Hd'].
    split; [|done]. rewrite lookup_insert_ne; [done|]. intros <-. apply Hne.
    by eapply device_of_fun.
  - intros r' d' Hlive. rewrite Hdev. cbn in *. intros Hd'.
    apply lookup_insert_Some in Hlive as [ [_ ?]|[Hne Hlive] ]; [done|].
    rewrite lookup_delete_ne; [by apply Hl|]. intros <-. apply Hne. by eapply Hu.
  - intros r' Hlive. cbn in *.
    apply lookup_insert_Some in Hlive as [ [_ ?]|[_ Hlive] ]; [done|]. by apply Hhp.
Qed.

Lemma give_slot_ok r d s :
  server_ok s → handlers s !! r = Some (Leaving d) → server_ok (give_slot r d s).
Proof.
  intros Hok Hr. assert (device_of s r d) as Hd by (unfold device_of; by rewrite Hr).
  assert (∀ r' d', device_of (give_slot r d s) r' d' → r' ≠ r ∧ device_of s r' d') as Hback.
  { intros r' d'. unfold device_of, give_slot. cbn. destruct (decide (r = r')) as [<-|Hne].
    - by rewrite lookup_delete_eq.
    - by rewrite lookup_delete_ne. }
  assert (∀ r' d', r' ≠ r → device_of s r' d' → device_of (give_slot r d s) r' d') as Hfwd.
  { intros r' d' Hne. unfold device_of, give_slot. cbn. by rewrite lookup_delete_ne. }
  pose proof (Replay.release_ok (registry s) d (ok_limit _ Hok)) as [Hlim' _].
  destruct Hok as [Hs Hu Ht Hl Hhp Hlim Hi Ho]. split; try done.
  - intros r' d' [Hne Hd']%Hback. cbn. apply elem_of_difference. split; [by eapply Hs|].
    intros ->%elem_of_singleton. apply Hne. by eapply Hu.
  - intros r1 r2 d' [_ H1]%Hback [_ H2]%Hback. by eapply Hu.
  - intros d' r' Hc. destruct (Ht d' r' Hc) as [Hlive Hd'].
    assert (r' ≠ r) as Hne by congruence. split; [|by apply Hfwd].
    cbn. by rewrite lookup_delete_ne.
  - intros r' d' Hlive [_ Hd']%Hback. cbn in *. apply lookup_delete_Some in Hlive as [_ Hlive].
    by apply Hl.
  - intros r' Hlive. cbn in *. apply lookup_delete_Some in Hlive as [_ Hlive]. by apply Hhp.
Qed.

(** Marking connections and closing them. *)
Definition mark (f : connection → connection) (rs : gset nat) (h : gmap nat connection) :
    gmap nat connection :=
  map_imap (λ r c, Some (if decide (r ∈ rs) then f c else c)) h.

Lemma mark_lookup f rs h r :
  mark f rs h !! r = (λ c, if decide (r ∈ rs) then f c else c) <$> h !! r.
Proof. unfold mark. rewrite map_lookup_imap. by destruct (h !! r). Qed.

Lemma mark_ok f rs reason s :
  server_ok s → (∀ c, c_claims (f c) = c_claims c) →
  (∀ c, identityRevoked (f c) = true → identityRevoked c = true ∨ reason = reason_identity) →
  (∀ c, ownershipRevoked (f c) = true → ownershipRevoked c = true ∨ reason = reason_ownership) →
  server_ok (close_all rs reason (set_heap (mark f rs (heap s)) s)).
Proof.
  intros [Hs Hu Ht Hl Hhp Hlim Hi Ho] Hf Hfi Hfo.
  assert (∀ r d, device_of (close_all rs reason (set_heap (mark f rs (heap s)) s)) r d ↔
    device_of s r d) as Hdev.
  { intros r d. unfold device_of. cbn. rewrite mark_lookup.
    destruct (handlers s !! r) as [ []|]; try done. destruct (heap s !! r) as [c|]; cbn; [|naive_solver].
    split; intros (c' & [= <-] & Hd); (eexists; split; [done|]); case_decide; rewrite ?Hf in *; done. }
  split; try done.
  - intros r d. rewrite Hdev. apply Hs.
  - intros r1 r2 d. rewrite !Hdev. apply Hu.
  - intros d r Hc. rewrite Hdev. by apply Ht.
  - intros r d Hlive. rewrite Hdev. by apply Hl.
  - intros r Hlive. cbn. rewrite mark_lookup. destruct (Hhp r Hlive) as [c ->]. cbn. eauto.
  - intros r c. cbn. rewrite mark_lookup. destruct (heap s !! r) as [c0|] eqn:Hc; [|done].
    intros [= <-] Hrev. case_decide as Hin.
    + destruct (Hfi c0 Hrev) as [Hr| ->]; [apply elem_of_union_r; by eapply Hi|].
      apply elem_of_union_l, elem_of_map. eauto.
    + apply elem_of_union_r. by eapply Hi.
  - intros r c. cbn. rewrite mark_lookup. destruct (heap s !! r) as [c0|] eqn:Hc; [|done].
    intros [= <-] Hrev. case_decide as Hin.
    + destruct (Hfo c0 Hrev) as [Hr| ->]; [apply elem_of_union_r; by eapply Ho|].
      apply elem_of_union_l, elem_of_map. eauto.
    + apply elem_of_union_r. by eapply Ho.
Qed.

Lemma ReconcileIdentity_ok allowed s : server_ok s → server_ok (ReconcileIdentity allowed s).1.
Proof. intros Hok. unfold ReconcileIdentity. apply (mark_ok revoke_identity); auto. Qed.

Lemma ReconcileOwnership_ok {E} (resolve : resolver E) active s :
  server_ok s → server_ok (ReconcileOwnership resolve active s).1.
Proof.
  intros Hok. unfold ReconcileOwnership.
  destruct resolve as [owners|owner]; [destruct (owners _); [|done]|];
    apply (mark_ok revoke_ownership); auto.
Qed.

Lemma Shutdown_ok s : server_ok s → server_ok (Shutdown s).
Proof.
  intros Hok. apply close_all_ok. destruct Hok as [? ? ? ? ? ? ? ?]. by split.
Qed.

Section reachable.
Context (json_Decode : bytes → option Claims) {E : Type}.

Lemma step_ok s (a : action E) s' :
  server_ok s → step json_Decode s a = Some s' → server_ok s'.
Proof.
  intros Hok. destruct a as [r v n1 n2 n3 now owner identity request|r c now|r accepted identity
    |r|r|allowed|resolve active|]; cbn [step]; intros Hs.
  - destruct (handlers s !! r) eqn:Hr; [done|]. destruct (heap s !! r); [done|].
    destruct (device_auth _ _ _ _ _ _ _ _ _) as [ [ [claims scope] version]|];
      injection Hs as <-; [by apply take_slot_ok|done].
  - destruct (handlers s !! r) as [ []|] eqn:Hr; try done. injection Hs as <-. by apply use_token_ok.
  - destruct (handlers s !! r) as [ []|] eqn:Hr; try done. injection Hs as <-. by apply connect_ok.
  - destruct (handlers s !! r) as [ []|] eqn:Hr; try done. injection Hs as <-. by apply leave_ok.
  - destruct (handlers s !! r) as [ []|] eqn:Hr; try done. injection Hs as <-. by apply give_slot_ok.
  - injection Hs as <-. by apply ReconcileIdentity_ok.
  - injection Hs as <-. by apply ReconcileOwnership_ok.
  - injection Hs as <-. by apply Shutdown_ok.
Qed.

Lemma run_server_ok (acts : list (action E)) s s' :
  server_ok s → run json_Decode s acts = Some s' → server_ok s'.
Proof.
  revert s. induction acts as [|a acts IH]; intros s Hok Hrun; cbn in Hrun; [by simplify_eq|].
  destruct (step json_Decode s a) as [s1|] eqn:Hs; [|done]. eapply IH; [|done]. by eapply step_ok.
Qed.

(** The limit of the registry does not change. *)
Lemma step_limit s (a : action E) s' :
  step json_Decode s a = Some s' →
  Replay.limit (registry s') = Replay.limit (registry s).
Proof.
  assert (∀ d, Replay.limit (Replay.acquire (registry s) d).1 = Replay.limit (registry s)) as Hacq.
  { intros d. unfold Replay.acquire. by destruct (_ || _). }
  destruct a as [r v n1 n2 n3 now owner identity request|r c now|r accepted identity
    |r|r|allowed|resolve active|]; cbn [step]; intros Hs.
  - destruct (handlers s !! r); [done|]. destruct (heap s !! r); [done|].
    destruct (device_auth _ _ _ _ _ _ _ _ _) as [ [ [claims scope] version]|];
      injection Hs as <-; [|done]. unfold take_slot. specialize (Hacq (DeviceID claims)).
    destruct (Replay.acquire _ _) as [reg []]; done.
  - destruct (handlers s !! r) as [ []|]; try done. injection Hs as <-. unfold use_token.
    destruct (coordinated s); [by destruct (coordination_status c)|].
    by destruct (Replay.consume _ _ _) as [g []].
  - destruct (handlers s !! r) as [ []|]; try done. injection Hs as <-. unfold connect.
    destruct accepted; cbn [negb]; [|done]. unfold addConnection. by destruct (_ || _).
  - destruct (handlers s !! r) as [ []|]; try done. injection Hs as <-. unfold leave.
    destruct (heap s !! r); [|done]. unfold removeConnection. by destruct (negb _).
  - by destruct (handlers s !! r) as [ []|]; simplify_eq.
  - by simplify_eq.
  - injection Hs as <-. unfold ReconcileOwnership. destruct resolve as [owners|]; [|done].
    by destruct (owners _).
  - by simplify_eq.
Qed.

Lemma run_limit (acts : list (action E)) s s' :
  run json_Decode s acts = Some s' → Replay.limit (registry s') = Replay.limit (registry s).
Proof.
  revert s. induction acts as [|a acts IH]; intros s Hrun; cbn in Hrun; [by simplify_eq|].
  destruct (step json_Decode s a) as [s1|] eqn:Hs; [|done].
  rewrite (IH s1) by done. by eapply step_limit.
Qed.

(** The table of connections is exactly the live connections: each is listed under
    the device its token names, no device has two, and there are never more than
    the configured maximum. *)
Theorem one_connection_per_device co max (acts : list (action E)) s :
  run json_Decode (New co max) acts = Some s →
  (∀ d r, connections s !! d = Some r ↔
     handlers s !! r = Some Live ∧ ∃ c, heap s !! r = Some c ∧ DeviceID (c_claims c) = d) ∧
  (0 < max → Z.of_nat (size (connections s)) ≤ max).
Proof.
  intros Hrun. pose proof (run_server_ok acts _ _ (New_server_ok co max) Hrun) as Hok. split.
  - intros d r. split.
    + intros [Hlive Hd]%(ok_table _ Hok). split; [done|]. unfold device_of in Hd.
      by rewrite Hlive in Hd.
    + intros [Hlive Hd]. eapply ok_live; [done|done|]. unfold device_of. by rewrite Hlive.
  - intros Hmax. pose proof (run_limit _ _ _ Hrun) as Hl. cbn in Hl.
    rewrite (proj2 (Z.leb_gt _ _)) in Hl by done.
    pose proof (ok_limit _ Hok) as Hlim. unfold Replay.registry_ok in Hlim. rewrite Hl in Hlim.
    specialize (Hlim Hmax). rewrite <- size_dom.
    assert (dom (connections s) ⊆ Replay.devices (registry s)) as Hsub%subseteq_size; [|lia].
    intros d [r Hr]%elem_of_dom. destruct (ok_table _ Hok d r Hr) as [_ Hd].
    by eapply ok_slot.
Qed.

End reachable.

(** ** Who is connected *)

Section evidence.
Context (json_Decode : bytes → option Claims) {E : Type}.

(** Every handler past its checks, and every connection, has evidence. *)
Definition evidence (P : nat → Claims → Prop) (s : Server) : Prop :=
  (∀ r claims, handlers s !! r = Some (Acquired claims) → P r claims) ∧
  (∀ r claims, handlers s !! r = Some (Consumed claims) → P r claims) ∧
  (∀ r c, heap s !! r = Some c → P r (c_claims c)).

Lemma evidence_goto (P : nat → Claims → Prop) r h s :
  evidence P s →
  match h with Acquired claims | Consumed claims => P r claims | _ => True end →
  evidence P (goto r h s).
Proof.
  intros (Ha & Hc & Hh) Hp. split_and!; [| |done]; intros r' claims; cbn;
    rewrite lookup_insert_Some; intros [ [<- ->]|[_ ?] ]; eauto.
Qed.

Lemma evidence_mark P f rs s :
  evidence P s → (∀ c, c_claims (f c) = c_claims c) → evidence P (set_heap (mark f rs (heap s)) s).
Proof.
  intros (Ha & Hc & Hh) Hf. split_and!; [done|done|]. intros r c. cbn. rewrite mark_lookup.
  destruct (heap s !! r) as [c0|] eqn:Hr; [|done]. intros [= <-].
  case_decide; rewrite ?Hf; eauto.
Qed.

Lemma step_evidence P s (a : action E) s' :
  evidence P s →
  (∀ r v n1 n2 n3 now owner identity request claims scope version,
     a = AArrive r v n1 n2 n3 now owner identity request →
     device_auth json_Decode v n1 n2 n3 now owner identity request = Ok (claims, scope, version) →
     P r claims) →
  step json_Decode s a = Some s' → evidence P s'.
Proof.
  intros Hev Harr. destruct a as [r v n1 n2 n3 now owner identity request|r c now
    |r accepted identity|r|r|allowed|resolve active|]; cbn [step]; intros Hs.
  - destruct (handlers s !! r); [done|]. destruct (heap s !! r); [done|].
    destruct (device_auth _ _ _ _ _ _ _ _ _) as [ [ [claims scope] version]|] eqn:Hd;
      injection Hs as <-; [|done]. unfold take_slot.
    destruct (Replay.acquire _ _) as [reg []]; cbn [negb fst]; [|done].
    apply evidence_goto; [done|]. by eapply Harr.
  - destruct (handlers s !! r) as [ []|] eqn:Hr; try done. injection Hs as <-.
    pose proof (proj1 Hev r claims Hr) as Hp. unfold use_token.
    destruct (coordinated s); [destruct (coordination_status c); by apply evidence_goto|].
    destruct (Replay.consume _ _ _) as [g []]; by apply evidence_goto.
  - destruct (handlers s !! r) as [ []|] eqn:Hr; try done. injection Hs as <-.
    pose proof (proj1 (proj2 Hev) r claims Hr) as Hp. unfold connect.
    destruct accepted; cbn [negb]; [|by apply evidence_goto].
    set (s1 := set_heap _ s). assert (evidence P s1) as Hev1.
    { destruct Hev as (Ha & Hc & Hh). split_and!; [done|done|]. intros r' c'. cbn.
      rewrite lookup_insert_Some. intros [ [<- <-]|[_ ?] ]; [done|eauto]. }
    unfold addConnection. destruct (_ || _); by apply evidence_goto.
  - destruct (handlers s !! r) as [ []|] eqn:Hr; try done. injection Hs as <-. unfold leave.
    destruct (heap s !! r); [|done]. apply evidence_goto; [|done].
    unfold removeConnection. by destruct (negb _).
  - destruct (handlers s !! r) as [ []|] eqn:Hr; try done. injection Hs as <-.
    destruct Hev as (Ha & Hc & Hh). split_and!; [| |done]; intros r' claims; cbn;
      rewrite lookup_delete_Some; intros [_ ?]; eauto.
  - injection Hs as <-. by apply (evidence_mark P revoke_identity).
  - injection Hs as <-. unfold ReconcileOwnership. destruct resolve as [owners|owner];
      [destruct (owners _); [|done]|]; by apply (evidence_mark P revoke_ownership).
  - by injection Hs as <-.
Qed.

Lemma run_evidence P (acts : list (action E)) s s' :
  evidence P s →
  (∀ r v n1 n2 n3 now owner identity request claims scope version,
     AArrive r v n1 n2 n3 now owner identity request ∈ acts →
     device_auth json_Decode v n1 n2 n3 now owner identity request = Ok (claims, scope, version) →
     P r claims) →
  run json_Decode s acts = Some s' → evidence P s'.
Proof.
  revert s. induction acts as [|a acts IH]; intros s Hev Harr Hrun; cbn in Hrun; [by simplify_eq|].
  destruct (step json_Decode s a) as [s1|] eqn:Hs; [|done]. apply (IH s1); [| |done].
  - eapply step_evidence; [exact Hev| |exact Hs]. intros * -> Hd. eapply Harr; [by left|done].
  - intros * Hin Hd. eapply Harr; [by right|done].
Qed.

(** What the checks of [device] establish. *)
Lemma device_auth_sound v n1 n2 n3 now (owner : string → result E _) identity request claims
    scope version :
  device_auth json_Decode v n1 n2 n3 now owner identity request = Ok (claims, scope, version) →
  VerifyAuthorization json_Decode v n1 n2 n3 (hdr_Authorization request) = Ok claims ∧
  OwnedDeviceScope claims = Some scope ∧ hdr_DeviceId request = DeviceID claims ∧
  (∃ o, owner (DeviceID claims) = Ok (Some o) ∧
        DeviceClaim.Matches o (OwnerID claims) (TenantID claims) (BindingID claims)
          (BindingRevision claims) = true) ∧
  identity_allows identity (DeviceID claims) = true ∧ now < from_unix (Expires claims) ∧
  1 ≤ version ≤ 3.
Proof.
  unfold device_auth. destruct (VerifyAuthorization _ _ _ _ _ _) as [c|]; [|done].
  destruct (OwnedDeviceScope c) as [sc|] eqn:Hsc; [|done].
  destruct (owner (DeviceID c)) as [ [o|]|] eqn:Ho; [|done..].
  guard H1. destruct (ParseInt _) as [hv|]; [|done]. guard H2. guard H3.
  intros [= <- <- <-]. apply negb_false_iff in H1, H3. split_bools. unfold After in *. split_bools.
  match goal with H : hdr_DeviceId _ = _ |- _ => rewrite H in H3 |- * end.
  split_and!; eauto.
Qed.

(** C15: whoever is connected was let in properly: for every connection there was a
    request that named the device, whose token the verifier accepted and which had
    not expired, from a device whose current ownership is the one in the token and
    whose identity was not revoked. *)
Theorem connection_was_authorized co max (acts : list (action E)) s r c :
  run json_Decode (New co max) acts = Some s → heap s !! r = Some c →
  ∃ v n1 n2 n3 now owner identity request,
    AArrive r v n1 n2 n3 now owner identity request ∈ acts ∧
    VerifyAuthorization json_Decode v n1 n2 n3 (hdr_Authorization request) = Ok (c_claims c) ∧
    hdr_DeviceId request = DeviceID (c_claims c) ∧
    (∃ o, owner (DeviceID (c_claims c)) = Ok (Some o) ∧
          DeviceClaim.Matches o (OwnerID (c_claims c)) (TenantID (c_claims c))
            (BindingID (c_claims c)) (BindingRevision (c_claims c)) = true) ∧
    identity_allows identity (DeviceID (c_claims c)) = true ∧
    now < from_unix (Expires (c_claims c)).
Proof.
  intros Hrun Hc. set (P r claims := ∃ v n1 n2 n3 now (owner : string → result E _) identity request,
    AArrive r v n1 n2 n3 now owner identity request ∈ acts ∧
    VerifyAuthorization json_Decode v n1 n2 n3 (hdr_Authorization request) = Ok claims ∧
    hdr_DeviceId request = DeviceID claims ∧
    (∃ o, owner (DeviceID claims) = Ok (Some o) ∧
          DeviceClaim.Matches o (OwnerID claims) (TenantID claims) (BindingID claims)
            (BindingRevision claims) = true) ∧
    identity_allows identity (DeviceID claims) = true ∧ now < from_unix (Expires claims)).
  assert (evidence P s) as (_ & _ & Hh); [|by apply Hh].
  eapply (run_evidence P acts); [| |exact Hrun].
  - split_and!; intros ? ?; cbn; by rewrite lookup_empty.
  - intros * Hin (? & _ & ? & ? & ? & ? & _)%device_auth_sound.
    exists v, n1, n2, n3, now, owner, identity, request. done.
Qed.

(** The device identifiers of the table are valid. *)
Lemma table_identifiers co max (acts : list (action E)) s d r :
  run json_Decode (New co max) acts = Some s → connections s !! d = Some r →
  ValidIdentifier d 64 = true.
Proof.
  intros Hrun Hd. pose proof (run_server_ok json_Decode acts _ _ (New_server_ok co max) Hrun) as Hok.
  destruct (ok_table _ Hok d r Hd) as [Hlive Hdev]. unfold device_of in Hdev. rewrite Hlive in Hdev.
  destruct Hdev as (c & Hc & <-).
  assert (evidence (λ _ claims, ValidIdentifier (DeviceID claims) 64 = true) s) as (_ & _ & Hh);
    [|by eapply Hh].
  eapply run_evidence; [| |exact Hrun].
  - split_and!; intros ? ?; cbn; by rewrite lookup_empty.
  - intros * _ (_ & Hsc & _)%device_auth_sound. unfold OwnedDeviceScope in Hsc.
    destruct (_ || _) eqn:Hg in Hsc; [done|]. split_bools. done.
Qed.

End evidence.

(** ** Revocation *)

(** The current owner of a device. *)
Definition owner_of (st : DeviceClaim.Store) (d : string) : option DeviceClaim.Ownership :=
  match DeviceClaim.owners st !! d with
  | Some e => if DeviceClaim.active e then Some (DeviceClaim.ownership e) else None
  | None => None
  end.

Lemma Owner_owner_of st d o :
  DeviceClaim.Owner st d = Ok (Some o) → owner_of st d = Some o.
Proof. unfold DeviceClaim.Owner, owner_of. guard Hv. by intros [= ->]. Qed.

(** The batched lookup agrees with the single one. *)
Lemma Owners_from_spec st ids seen found :
  NoDup ids → Forall (λ d, ValidIdentifier d 64 = true) ids → (∀ d, d ∈ ids → d ∉ seen) →
  ∃ m, DeviceClaim.Owners_from st ids seen found = Ok m ∧
    ∀ d, m !! d = if decide (d ∈ ids)
                  then match owner_of st d with Some o => Some o | None => found !! d end
                  else found !! d.
Proof.
  revert seen found. induction ids as [|d0 ids IH]; intros seen found Hnd Hv Hseen.
  { exists found. split; [done|]. intros d. by rewrite decide_False by apply not_elem_of_nil. }
  apply NoDup_cons in Hnd as [Hnin Hnd]. inversion_clear Hv as [|? ? Hv0 Hv'].
  cbn [DeviceClaim.Owners_from]. rewrite Hv0. cbn [negb].
  rewrite bool_decide_false by (apply Hseen; by left).
  destruct (IH ({[d0]} ∪ seen) (match DeviceClaim.owners st !! d0 with
    | Some entry => if DeviceClaim.active entry
                    then <[d0:=DeviceClaim.ownership entry]> found else found
    | None => found end)) as (m & Hm & Hl); [done|done| |].
  { intros d Hd. apply not_elem_of_union. split; [|apply Hseen; by right].
    intros ->%elem_of_singleton. done. }
  exists m. split; [exact Hm|]. intros d. rewrite Hl.
  destruct (decide (d = d0)) as [->|Hne].
  - rewrite decide_False by done. rewrite decide_True by (by left). unfold owner_of.
    destruct (DeviceClaim.owners st !! d0) as [e|]; [|done].
    destruct (DeviceClaim.active e); [by rewrite lookup_insert_eq|done].
  - assert ((match DeviceClaim.owners st !! d0 with
      | Some entry => if DeviceClaim.active entry
                      then <[d0:=DeviceClaim.ownership entry]> found else found
      | None => found end) !! d = found !! d) as ->.
    { destruct (DeviceClaim.owners st !! d0) as [e|]; [|done].
      destruct (DeviceClaim.active e); [by rewrite lookup_insert_ne|done]. }
    destruct (decide (d ∈ ids)) as [Hin|Hnin'].
    + by rewrite decide_True by (by right).
    + rewrite decide_False; [done|]. intros [?|?]%elem_of_cons; done.
Qed.

Lemma active_of_ids s : NoDup (active_of s).*1 ∧ (∀ d, d ∈ (active_of s).*1 ↔ is_Some (connections s !! d)).
Proof.
  split; [apply NoDup_fst_map_to_list|]. intros d. unfold active_of.
  rewrite list_elem_of_fmap. split.
  - intros ([d' r] & -> & Hin%elem_of_map_to_list). eauto.
  - intros [r Hr]. exists (d, r). split; [done|]. by apply elem_of_map_to_list.
Qed.

Lemma active_of_length s : length (active_of s).*1 = size (connections s).
Proof. unfold active_of. rewrite length_fmap. apply length_map_to_list. Qed.

Section revocation.
Context (json_Decode : bytes → option Claims) {E : Type}.

(** A revoked identity is disconnected, and nobody else is: once the table has
    been reconciled with the registry, every connection of a device that is not
    allowed has been told to stop, and the only connections told to stop are such
    connections. *)
Theorem identity_revocation_exact co max (acts : list (action E)) s allowed :
  run json_Decode (New co max) acts = Some s →
  let s' := (ReconcileIdentity allowed s).1 in
  (∀ d r, connections s' !! d = Some r → allowed d = false → (r, reason_identity) ∈ closed s') ∧
  (∀ r reason, (r, reason) ∈ closed s' → (r, reason) ∈ closed s ∨
     reason = reason_identity ∧ ∃ d, connections s !! d = Some r ∧ allowed d = false).
Proof.
  intros Hrun. pose proof (run_server_ok json_Decode acts _ _ (New_server_ok co max) Hrun) as Hok.
  cbv zeta. unfold ReconcileIdentity. cbn [fst close_all closed connections set_heap].
  set (keep := map_keep _ (connections s)).
  assert (∀ r, r ∈ (list_to_set (map_to_list keep).*2 : gset nat) ↔
    ∃ d, keep !! d = Some r) as Hin.
  { intros r. rewrite elem_of_list_to_set, list_elem_of_fmap. split.
    - intros ([d r'] & -> & Hd%elem_of_map_to_list). eauto.
    - intros [d Hd]. exists (d, r). split; [done|]. by apply elem_of_map_to_list. }
  split.
  - intros d r Hd Hna. destruct (ok_table _ Hok d r Hd) as [Hlive _].
    destruct (ok_heap _ Hok r Hlive) as [c Hc]. destruct (identityRevoked c) eqn:Hrev.
    + apply elem_of_union_r. by eapply ok_identity.
    + apply elem_of_union_l, elem_of_map. exists r. split; [done|]. apply Hin. exists d.
      apply map_keep_Some. split; [done|]. unfold is_revoked. by rewrite Hc, Hrev, Hna.
  - intros r reason [Hm|?]%elem_of_union; [right|by left].
    apply elem_of_map in Hm as (r' & [= -> ->] & Hr'). split; [done|].
    apply Hin in Hr' as [d Hd]. apply map_keep_Some in Hd as [Hd Hb]. exists d.
    split; [done|]. by apply andb_true_iff in Hb as [_ ?%negb_true_iff].
Qed.

(** A token that matches an ownership does not match any other owner of the device
    after its ownership has changed. *)
Lemma changed_ownership_lost st ops d o (c : connection) :
  DeviceClaim.Owner st d = Ok (Some o) →
  DeviceClaim.Matches o (OwnerID (c_claims c)) (TenantID (c_claims c))
    (BindingID (c_claims c)) (BindingRevision (c_claims c)) = true →
  DeviceClaim.owners (DeviceClaim.execs st ops) !! d ≠ DeviceClaim.owners st !! d →
  lost c (owner_of (DeviceClaim.execs st ops) d) = true.
Proof.
  intros Ho%Owner_owner_of Hm Hch. unfold lost.
  destruct (owner_of (DeviceClaim.execs st ops) d) as [o'|] eqn:Ho'; [|done].
  apply negb_true_iff. unfold DeviceClaim.Matches in *. split_bools.
  destruct (DeviceClaim.execs_revision st ops d) as [Hle Heq].
  assert (DeviceClaim.revision st d = DeviceClaim.BindingRevision o) as E1.
  { unfold owner_of, DeviceClaim.revision in *. repeat case_match; by simplify_eq. }
  assert (DeviceClaim.revision (DeviceClaim.execs st ops) d = DeviceClaim.BindingRevision o') as E2.
  { unfold owner_of, DeviceClaim.revision in *. repeat case_match; by simplify_eq. }
  rewrite (proj2 (Z.eqb_neq (DeviceClaim.BindingRevision o') _));
    [by rewrite !andb_false_r|].
  intros Hz. apply Hch, Heq. congruence.
Qed.

(** C16: giving up or losing a device ends its voice session: when the ownership a
    connection was admitted under has changed in the store, by a release, a
    transfer or any sequence of operations, the next reconciliation tells the
    connection to stop, if at most 1000 devices are connected. With more, the batched
    lookup refuses the whole batch and no change of ownership is enforced at all. *)
Theorem released_device_disconnected co max (acts : list (action E)) s d r c st ops o :
  run json_Decode (New co max) acts = Some s →
  connections s !! d = Some r → heap s !! r = Some c →
  DeviceClaim.Owner st d = Ok (Some o) →
  DeviceClaim.Matches o (OwnerID (c_claims c)) (TenantID (c_claims c))
    (BindingID (c_claims c)) (BindingRevision (c_claims c)) = true →
  DeviceClaim.owners (DeviceClaim.execs st ops) !! d ≠ DeviceClaim.owners st !! d →
  let reconciled :=
    ReconcileOwnership (Batch (DeviceClaim.Owners (DeviceClaim.execs st ops))) (active_of s) s in
  if Z.of_nat (size (connections s)) <=? 1000
  then (r, reason_ownership) ∈ closed reconciled.1
  else reconciled = (s, 0).
Proof.
  intros Hrun Hd Hc Ho Hm Hch. cbv zeta.
  destruct (_ <=? 1000) eqn:Hsize; split_bools.
  2:{ unfold ReconcileOwnership, DeviceClaim.Owners. rewrite active_of_length.
      by rewrite (proj2 (Z.ltb_lt _ _)). }
  pose proof (run_server_ok json_Decode acts _ _ (New_server_ok co max) Hrun) as Hok.
  destruct (active_of_ids s) as [Hnd Hids].
  destruct (Owners_from_spec (DeviceClaim.execs st ops) (active_of s).*1 ∅ ∅ Hnd) as (m & Hom & Hl).
  { apply Forall_forall. intros d' [r' Hr']%Hids. by eapply table_identifiers. }
  { intros d' _. apply not_elem_of_empty. }
  unfold ReconcileOwnership, DeviceClaim.Owners. rewrite active_of_length.
  rewrite (proj2 (Z.ltb_ge _ _)) by lia. rewrite Hom. cbn [fst close_all closed set_heap].
  destruct (ownershipRevoked c) eqn:Hrev.
  { apply elem_of_union_r. by eapply ok_ownership. }
  apply elem_of_union_l, elem_of_map. exists r. split; [done|].
  unfold revoked_ownership. apply elem_of_list_to_set, list_elem_of_fmap. exists (d, r).
  split; [done|]. apply list_elem_of_filter. cbn [fst snd]. split.
  - rewrite Hc, Hl, decide_True by (apply Hids; eauto).
    rewrite lookup_empty.
    assert ((match owner_of (DeviceClaim.execs st ops) d with Some o => Some o | None => None end)
      = owner_of (DeviceClaim.execs st ops) d) as -> by (by destruct (owner_of _ _)).
    rewrite (changed_ownership_lost st ops d o c) by done.
    by rewrite (bool_decide_true _ Hd), Hrev.
  - by apply elem_of_map_to_list.
Qed.

End revocation.

(** ** From a session to a connection *)

(** The two halves of the gateway agree: the token that the session handler gives to
    a device opens a voice connection for that device from that moment until it
    expires, as long as the device keeps its owner and its identity is not
    revoked. *)
Theorem session_opens_device {E} json_Decode ring ttl maxTTL inow vnow issuer v now rnd uri
    (owner owner' : string → result E (option DeviceClaim.Ownership)) d identity identity' resp
    n1 n client hversion k :
  NewManagedIssuerForAudience ring ttl VoiceAudience inow = Ok issuer →
  NewManagedKeyringVerifierForAudience ring maxTTL VoiceAudience vnow = Ok v →
  ttl ≤ maxTTL → ttl mod second = 0 → second ≤ now ≤ max_int64 - 2 * hour → blen rnd = 16 →
  (∀ kid key, keys ring !! kid = Some key → id key = kid) →
  Strs.no_dot (bytes_of (activeKeyID ring)) →
  (∀ o token claims, owner d = Ok (Some o) →
     IssueOwned issuer now (Some rnd) d (DeviceClaim.OwnerID o) (DeviceClaim.TenantID o)
       (DeviceClaim.BindingID o) (DeviceClaim.BindingRevision o) = Ok (token, claims) →
     json_Decode (json_Marshal claims) = Some (with_key claims "")) →
  session uri issuer owner (Ok d) identity now (Some rnd) = Ok resp →
  owner' d = owner d → identity_allows identity' d = true →
  now ≤ n < from_unix (Unix now + ExpiresInSeconds resp) →
  safeIdentifier client 64 = true → ParseInt hversion = Some k → 1 ≤ k ≤ 3 →
  ∃ claims scope,
    device_auth json_Decode v n1 n n n owner' identity'
      {| hdr_Authorization := "Bearer " +:+ BearerToken resp; hdr_DeviceId := d;
         hdr_ClientId := client; hdr_ProtocolVersion := hversion |} = Ok (claims, scope, k) ∧
    DeviceID claims = d.
Proof.
  intros Hni Hnv Hle Hwhole Hnow Hrnd Hids Hdot Hjson Hsess Howner Hident Hn Hclient Hhv Hk.
  unfold session in Hsess. destruct (owner d) as [ [o|]|] eqn:Ho; [|done..].
  destruct (negb _) in Hsess; [done|].
  destruct (IssueOwned _ _ _ _ _ _ _ _) as [ [token claims]|] eqn:Hi in Hsess; [|done].
  specialize (Hjson o token claims eq_refl Hi).
  injection Hsess as <-. cbn [BearerToken ExpiresInSeconds] in *.
  pose proof Hni as Hni'. apply NewManagedIssuer_ok in Hni' as (key & Hkey & Hst & Hvid & Httl & ->).
  unfold minimumIssuedTTL, maximumIssuedTTL in Httl.
  assert (0 < second) by done. assert (0 < minute) by done. assert (0 < hour) by done.
  pose proof Hi as Hclaims. unfold IssueOwned in Hclaims.
  destruct (owned_claims _ _ _ _ _ _ _ _ _ _ _ Hclaims) as (_ & Hc & Hdev & Hown & Hten & Hbid &
    Hbrev & Hkid & _ & Hspan & Hmin); cbn [i_managed i_ttl i_audience i_keyID] in *;
    [done|lia|lia|done|by left|].
  assert (Expires claims -i IssuedAt claims = Expires claims - Unix now) as Hexp.
  { rewrite Hc at 2. cbn [IssuedAt]. apply wrap_i64_id.
    assert (ttl / second ≤ 3600)
      by (change 3600 with (hour / second); apply Z.div_le_mono; [done|lia]).
    unfold in_i64, min_int64, max_int64. lia. }
  rewrite Hexp in Hn. replace (Unix now + (Expires claims - Unix now)) with (Expires claims) in Hn
    by lia.
  assert (Verify json_Decode v n1 n n token = Ok claims) as Hver.
  { eapply issued_token_verifies; try done; [by left|]. unfold from_unix in *. lia. }
  pose proof Hi as Hshape. unfold IssueOwned, issueOwnedUntil in Hshape.
  destruct (_ || _) in Hshape; [done|].
  apply (Bearer.bearer_issued json_Decode v n1 n n) in Hshape as Hb; [|done|done].
  assert (VerifyAuthorization json_Decode v n1 n n ("Bearer " +:+ token) = Ok claims) as Hva.
  { by rewrite Hb, Hver. }
  unfold device_auth. cbn [hdr_Authorization hdr_DeviceId hdr_ClientId hdr_ProtocolVersion].
  rewrite Hva. unfold OwnedDeviceScope. rewrite Hc. cbn -[VoiceAudience AgentAudience FormatInt].
  rewrite Hdev, Hown, Hten, Hbid, Hbrev. cbn -[VoiceAudience AgentAudience FormatInt].
  rewrite Howner. unfold DeviceClaim.Matches.
  rewrite !bool_decide_true, Z.eqb_refl by done. unfold DeviceClaim.ValidBindingID.
  change (DeviceClaim.canonicalBytes (DeviceClaim.BindingID o) DeviceClaim.bindingBytes)
    with (ValidBindingID (DeviceClaim.BindingID o)). rewrite Hbid, Hbrev. cbn.
  rewrite Hhv, Hclient. cbn. rewrite (proj2 (Z.ltb_ge k 1)), (proj2 (Z.ltb_ge 3 k)) by lia.
  unfold After. rewrite (proj2 (Z.ltb_lt n _)) by lia. cbn. rewrite Hident. cbn.
  rewrite !bool_decide_true by done. cbn. eauto.
Qed.

(** ** Witnesses *)

Definition ex_owner : DeviceClaim.Ownership :=
  {| DeviceClaim.OwnerID := "own"; DeviceClaim.TenantID := "ten";
     DeviceClaim.BindingID := ex_binding; DeviceClaim.BindingRevision := 1 |}.
Definition ex_lookup (d : string) : result unit (option DeviceClaim.Ownership) :=
  Ok (if bool_decide (d = "dev") then Some ex_owner else None).
Definition ex_identity (ds : list string) : Provisioning.View :=
  {| Provisioning.view := Some
       {| Provisioning.devices := list_to_map ((λ d, (d, Provisioning.ex_record)) <$> ds);
          Provisioning.purpose := Provisioning.ProofSnapshotPurpose; Provisioning.revision := 3;
          Provisioning.issuedAt := ex_now; Provisioning.validUntil := ex_now + hour;
          Provisioning.digest := []; Provisioning.signingKey := "key-1" |};
     Provisioning.at_ := ex_now |}.
Definition ex_device : device_request :=
  {| hdr_Authorization := "Bearer " +:+ ex_token; hdr_DeviceId := "dev"; hdr_ClientId := "app";
     hdr_ProtocolVersion := "1" |}.
Definition ex_acts : list (action unit) :=
  [AArrive 1 ex_verifier ex_now ex_now ex_now ex_now ex_lookup (Some (ex_identity ["dev"])) ex_device;
   AToken 1 CoordinationGranted ex_now; AConnect 1 true (Some (ex_identity ["dev"]))].
Definition ex_connection : connection :=
  {| c_claims := ex_claims; identityRevoked := false; ownershipRevoked := false |}.
Definition ex_server : Server :=
  {| coordinated := false;
     registry := (Replay.acquire (Replay.newRegistry 10) "dev").1;
     tokenReplay := (Replay.consume (Replay.newTokenReplayGuard 80) ex_now ex_claims).1;
     handlers := {[1%nat := Live]}; heap := {[1%nat := ex_connection]};
     connections := {["dev" := 1%nat]}; stopping := false; closed := ∅ |}.

Lemma ex_admitted : ∃ scope,
  device_auth ex_Decode ex_verifier ex_now ex_now ex_now ex_now ex_lookup
    (Some (ex_identity ["dev"])) ex_device = Ok (ex_claims, scope, 1).
Proof.
  unfold device_auth, VerifyAuthorization.
  assert (Text.TrimSpace (String.substring 7 (String.length (hdr_Authorization ex_device) - 7)
            (hdr_Authorization ex_device)) = ex_token) as -> by (vm_compute; reflexivity).
  rewrite ex_verified. eexists. vm_compute. reflexivity.
Qed.

Lemma ex_running : run ex_Decode (New false 10) ex_acts = Some ex_server.
Proof.
  destruct ex_admitted as [scope Hadm]. unfold ex_acts. cbn [run step].
  change (handlers (New false 10) !! 1%nat) with (@None handler).
  change (heap (New false 10) !! 1%nat) with (@None connection).
  rewrite Hadm. vm_compute. reflexivity.
Qed.

Lemma one_connection_per_device_witness :
  connections ex_server !! "dev" = Some 1%nat ∧ handlers ex_server !! 1%nat = Some Live.
Proof.
  split; [vm_compute; reflexivity|].
  destruct (one_connection_per_device ex_Decode false 10 ex_acts ex_server ex_running) as [H _].
  apply (H "dev" 1%nat). vm_compute. reflexivity.
Defined.

Lemma connection_was_authorized_witness : ∃ header n1 n2 n3,
  VerifyAuthorization ex_Decode ex_verifier n1 n2 n3 header = Ok ex_claims.
Proof.
  destruct (connection_was_authorized ex_Decode false 10 ex_acts ex_server 1 ex_connection
    ex_running) as (v & n1 & n2 & n3 & now & owner & identity & request & Hin & Hv & _);
    [vm_compute; reflexivity|].
  apply list_elem_of_In in Hin. destruct Hin as [Hin|[Hin|[Hin|[]]]]; try discriminate Hin.
  assert (v = ex_verifier) as -> by congruence. exists (hdr_Authorization request), n1, n2, n3.
  exact Hv.
Defined.

Lemma identity_revocation_exact_witness :
  (1%nat, reason_identity) ∈ closed (ReconcileIdentity (λ _, false) ex_server).1.
Proof.
  destruct (identity_revocation_exact ex_Decode false 10 ex_acts ex_server (λ _, false) ex_running)
    as [H _].
  apply (H "dev" 1%nat); vm_compute; reflexivity.
Defined.

Definition ex_store : DeviceClaim.Store :=
  {| DeviceClaim.ttl := 5 * minute; DeviceClaim.maxRecords := 10; DeviceClaim.records := ∅;
     DeviceClaim.byDigest := ∅;
     DeviceClaim.owners :=
       {["dev" := {| DeviceClaim.ownership := ex_owner; DeviceClaim.active := true |}]};
     DeviceClaim.appNonces := ∅ |}.
Definition ex_released : DeviceClaim.Store :=
  DeviceClaim.execs ex_store [DeviceClaim.ORelease "own" "ten" "dev" ex_now].

Lemma released_device_disconnected_witness :
  (1%nat, reason_ownership) ∈ closed (ReconcileOwnership
     (Batch (DeviceClaim.Owners ex_released)) (active_of ex_server) ex_server).1.
Proof.
  apply (released_device_disconnected ex_Decode false 10 ex_acts ex_server "dev" 1 ex_connection
    ex_store [DeviceClaim.ORelease "own" "ten" "dev" ex_now] ex_owner ex_running);
    try (vm_compute; reflexivity).
  vm_compute. discriminate.
Defined.

Definition ex_response : sessionResponse :=
  {| Version := 2; resp_DeviceID := "dev"; resp_BindingID := ex_binding;
     resp_BindingRevision := 1; URI := "wss://voice"; BearerToken := ex_token;
     ExpiresInSeconds := 600 |}.

Lemma ex_session :
  session "wss://voice" ex_issuer ex_lookup (Ok "dev") (ex_identity ["dev"]) ex_now
    (Some (replicate 16 (byte_of 4))) = Ok ex_response.
Proof.
  unfold session. cbn [ex_lookup ex_owner]. rewrite bool_decide_true by done.
  change (Provisioning.DeviceAllowed (ex_identity ["dev"]) "dev") with true. cbn [negb].
  change (IssueOwned _ _ _ _ _ _ _ _) with (ex_issue ex_issuer). rewrite ex_issued.
  vm_compute. reflexivity.
Qed.

Lemma session_opens_device_witness : ∃ claims scope,
  device_auth ex_Decode ex_verifier ex_now (ex_now + minute) (ex_now + minute) (ex_now + minute)
    ex_lookup (Some (ex_identity ["dev"])) ex_device = Ok (claims, scope, 1) ∧
  DeviceID claims = "dev".
Proof.
  apply (session_opens_device ex_Decode ex_ring (10 * minute) hour ex_now ex_now ex_issuer
    ex_verifier ex_now (replicate 16 (byte_of 4)) "wss://voice" ex_lookup ex_lookup "dev"
    (ex_identity ["dev"]) (Some (ex_identity ["dev"])) ex_response ex_now (ex_now + minute) "app" "1" 1).
  - vm_compute. reflexivity.
  - vm_compute. reflexivity.
  - by vm_compute.
  - reflexivity.
  - split; by vm_compute.
  - reflexivity.
  - apply ex_ids.
  - by repeat constructor.
  - intros o token claims [= <-] Hi.
    change (ex_issue ex_issuer = Ok (token, claims)) in Hi. rewrite ex_issued in Hi.
    injection Hi as <- <-. unfold ex_Decode. by rewrite bool_decide_true.
  - exact ex_session.
  - reflexivity.
  - vm_compute. reflexivity.
  - split; by vm_compute.
  - vm_compute. reflexivity.
  - vm_compute. reflexivity.
  - split; by vm_compute.
Defined.

End VoiceServer.
