(* ===== verification/Ota.v ===== *)
(** * Ota: signed firmware releases and their rollout

    Models [internal/ota/releases.go]: the manifests of a release registry are
    verified and ordered when the registry is loaded; [Select] then decides, per
    device, whether an update is offered. The file system ([read]: the bounded contents
    of a file inside the registry's directory), the JSON decoders, [url.Parse], the
    loading of a public key and [ecdsa.VerifyASN1] are arguments. *)

From stdpp Require Import base gmap strings list fin_maps sorting pretty.
From Stdlib Require Import ZArith Lia.
From Stdlib.Strings Require Import Byte.
From S2P Require Import Prelude GoBase GoCrypto Protocol Auth Provisioning.

Module Ota.
Import Ident.

Definition maximumReleases : Z := 64.
Definition maximumSigningKeys : Z := 2.
Definition maximumValidity : Duration := 30 * 24 * hour.

Record signingKeyEntry : Type := {
  k_KeyID : string;
  k_PublicKeyFile : string;
}.

Record releaseEntry : Type := {
  n_ManifestFile : string;
  n_Enabled : bool;
  n_RolloutBasisPoints : Z;
  n_RetryAfterSeconds : Z;
}.

Record registryDocument : Type := {
  d_Version : Z;
  d_SigningKeys : list signingKeyEntry;
  d_Releases : list releaseEntry;
}.

Record manifestDocument : Type := {
  Schema : Z;
  ReleaseID : string;
  Project : string;
  Board : string;
  Channel : string;
  Version : string;
  ReleaseSequence : Z;
  SecureVersion : Z;
  ImageURL : string;
  ImageSize : Z;
  ImageSHA256 : string;
  ResetQualificationSHA256 : string;
  NotBefore : Z;
  ExpiresAt : Z;
  SigningKeyID : string;
  SignatureAlgorithm : string;
  SignatureB64URL : string;
}.

(** The fields that [Release] copies from the manifest, and its own. *)
Record Release : Type := {
  doc : manifestDocument;
  Manifest : bytes;
  Enabled : bool;
  RolloutBasisPoints : Z;
  RetryAfterSeconds : Z;
}.

Definition Registry : Type := list Release.

Inductive OfferStatus : Type := OfferAvailable | OfferUpToDate | OfferDeferred.

#[global] Instance OfferStatus_eq_dec : EqDecision OfferStatus.
Proof. solve_decision. Defined.

Definition nl : string := Provisioning.nl.

(** ** Manifests *)

Definition canonicalManifest (m : manifestDocument) : bytes :=
  bytes_of ("xiaozhi-product-ota-v2" +:+ nl +:+
    "board=" +:+ Board m +:+ nl +:+
    "channel=" +:+ Channel m +:+ nl +:+
    "expires_at=" +:+ FormatInt (ExpiresAt m) +:+ nl +:+
    "image_sha256=" +:+ ImageSHA256 m +:+ nl +:+
    "image_size=" +:+ FormatInt (ImageSize m) +:+ nl +:+
    "image_url=" +:+ ImageURL m +:+ nl +:+
    "not_before=" +:+ FormatInt (NotBefore m) +:+ nl +:+
    "project=" +:+ Project m +:+ nl +:+
    "release_id=" +:+ ReleaseID m +:+ nl +:+
    "release_sequence=" +:+ FormatInt (ReleaseSequence m) +:+ nl +:+
    "reset_qualification_sha256=" +:+ ResetQualificationSHA256 m +:+ nl +:+
    "schema=" +:+ FormatInt (Schema m) +:+ nl +:+
    "secure_version=" +:+ FormatInt (SecureVersion m) +:+ nl +:+
    "signature_algorithm=" +:+ SignatureAlgorithm m +:+ nl +:+
    "signing_key_id=" +:+ SigningKeyID m +:+ nl +:+
    "version=" +:+ Version m +:+ nl).

(** What [validImageURL] reads of [url.Parse]. *)
Record URL : Type := {
  Scheme : string;
  Host : string;
  HasUser : bool;
  RawQuery : string;
  Fragment : string;
  Path : string;
}.

Definition colon : byte := byte_of 58.
Definition count_byte (c : byte) (bs : bytes) : nat := length (List.filter (λ b, bool_decide (b = c)) bs).

(** [strings.Cut(s, ":")]. *)
Fixpoint cut_colon (bs : bytes) : bytes * option bytes :=
  match bs with
  | [] => ([], None)
  | b :: bs =>
      if bool_decide (b = colon) then ([], Some bs)
      else let '(before, after) := cut_colon bs in (b :: before, after)
  end.

Definition dns_byte (b : byte) : bool :=
  let c := bval b in
  ((97 <=? c) && (c <=? 122)) || ((65 <=? c) && (c <=? 90)) || ((48 <=? c) && (c <=? 57))
  || (c =? 45).

Definition dns_label (label : bytes) : bool :=
  match label with
  | [] => false
  | first :: _ =>
      (blen label <=? 63) && negb (bval first =? 45)
      && negb (match last label with Some b => bval b =? 45 | None => true end)
      && forallb dns_byte label
  end.

Definition validDNSName (value : bytes) : bool :=
  IF bool_decide (value = []) || (253 <? blen value) RETURN false ;;
  forallb dns_label (Strs.split_dots value).

Definition printable (b : byte) : bool := (32 <? bval b) && (bval b <? 127).

Definition validImageURL (parse : string → option URL) (value : string) : bool :=
  IF (512 <? slen value) || negb (String.prefix "https://" value)
     || existsb (λ b, bval b =? 92) (bytes_of value) RETURN false ;;
  match parse value with
  | None => false
  | Some parsed =>
      IF negb (bool_decide (Scheme parsed = "https")) || bool_decide (Host parsed = "")
         || HasUser parsed || negb (bool_decide (RawQuery parsed = ""))
         || negb (bool_decide (Fragment parsed = "")) || bool_decide (Path parsed = "")
         || bool_decide (Path parsed = "/")
         || (1 <? Z.of_nat (count_byte colon (bytes_of (Host parsed)))) RETURN false ;;
      let '(host, portText) := cut_colon (bytes_of (Host parsed)) in
      IF negb (validDNSName host) RETURN false ;;
      IF match portText with
         | None => false
         | Some text => match ParseInt (string_of text) with
                        | None => true
                        | Some port => (port <? 1) || (65535 <? port)
                        end
         end RETURN false ;;
      forallb printable (bytes_of value)
  end.

Definition validVersion (value : string) : bool := Provisioning.validVersion value.

Section Manifests.
Variable parse : string → option URL.
(** The strict decoder, which refuses duplicate names, unknown fields and trailing data. *)
Variable decode : bytes → option manifestDocument.
Variable Key : Type.
(** [ecdsa.VerifyASN1 key digest signature]. *)
Variable VerifyASN1 : Key → bytes → bytes → bool.

Definition manifest_fields_ok (m : manifestDocument) : bool :=
  negb (negb (Schema m =? 2) || negb (ValidIdentifier (ReleaseID m) 64)
    || negb (ValidIdentifier (Project m) 32) || negb (ValidIdentifier (Board m) 32)
    || negb (ValidIdentifier (Channel m) 32) || negb (validVersion (Version m))
    || (ReleaseSequence m =? 0) || (2 ^ 31 - 1 <? ReleaseSequence m)
    || (ImageSize m <? 1024) || (2 ^ 31 - 1 <? ImageSize m)
    || negb (validSHA256 (ImageSHA256 m)) || negb (validSHA256 (ResetQualificationSHA256 m))
    || (NotBefore m <? 1609459200) || (4102444800 <? ExpiresAt m)
    || (ExpiresAt m <=? NotBefore m)
    || (maximumValidity <? ((ExpiresAt m -i NotBefore m) *i second))
    || negb (ValidIdentifier (SigningKeyID m) 64)
    || negb (bool_decide (SignatureAlgorithm m = "ECDSA_P256_SHA256"))
    || negb (validImageURL parse (ImageURL m))).

Definition verifyManifest (payload : bytes) (keys : gmap string Key) : option manifestDocument :=
  match decode payload with
  | None => None
  | Some m =>
      IF negb (manifest_fields_ok m) RETURN None ;;
      match keys !! SigningKeyID m, DecodeString (SignatureB64URL m) with
      | Some key, Some signature =>
          IF (blen signature <? 8) || (80 <? blen signature)
             || negb (bool_decide (EncodeToString signature = SignatureB64URL m))
             || negb (VerifyASN1 key (Sum256 (canonicalManifest m)) signature)
            RETURN None ;;
          Some m
      | _, _ => None
      end
  end.

(** ** Loading *)

Variable read : string → option bytes.
Variable loadPublicKey : string → option Key.

Fixpoint load_keys (entries : list signingKeyEntry) (keys : gmap string Key) :
    option (gmap string Key) :=
  match entries with
  | [] => Some keys
  | entry :: entries =>
      IF negb (ValidIdentifier (k_KeyID entry) 64) || bool_decide (k_PublicKeyFile entry = "")
        RETURN None ;;
      match keys !! k_KeyID entry, loadPublicKey (k_PublicKeyFile entry) with
      | None, Some key => load_keys entries (<[k_KeyID entry := key]> keys)
      | _, _ => None
      end
  end.

Definition sequenceKey (m : manifestDocument) : string :=
  Board m +:+ nl +:+ Channel m +:+ nl +:+ FormatInt (ReleaseSequence m).

(** One release entry: the release it adds, given what was seen before. *)
Definition load_release (keys : gmap string Key) (seenID seenSequence : gset string)
    (entry : releaseEntry) : option Release :=
  IF bool_decide (n_ManifestFile entry = "") || (n_RolloutBasisPoints entry <? 0)
     || (10000 <? n_RolloutBasisPoints entry) || (n_RetryAfterSeconds entry <? 60)
     || (86400 <? n_RetryAfterSeconds entry) RETURN None ;;
  match read (n_ManifestFile entry) with
  | None => None
  | Some manifestBytes =>
      match verifyManifest manifestBytes keys with
      | None => None
      | Some manifest =>
          IF bool_decide (ReleaseID manifest ∈ seenID) RETURN None ;;
          IF bool_decide (sequenceKey manifest ∈ seenSequence) RETURN None ;;
          Some {| doc := manifest; Manifest := manifestBytes; Enabled := n_Enabled entry;
                  RolloutBasisPoints := n_RolloutBasisPoints entry;
                  RetryAfterSeconds := wrap_u32 (n_RetryAfterSeconds entry) |}
      end
  end.

Fixpoint load_releases (keys : gmap string Key) (seenID seenSequence : gset string)
    (entries : list releaseEntry) : option (list Release) :=
  match entries with
  | [] => Some []
  | entry :: entries =>
      match load_release keys seenID seenSequence entry with
      | None => None
      | Some release =>
          match load_releases keys ({[ReleaseID (doc release)]} ∪ seenID)
                  ({[sequenceKey (doc release)]} ∪ seenSequence) entries with
          | None => None
          | Some releases => Some (release :: releases)
          end
      end
  end.

(** The less-than function of [sort.Slice]. *)
Definition release_less (left right : Release) : bool :=
  if negb (bool_decide (Board (doc left) = Board (doc right)))
  then str_ltb (Board (doc left)) (Board (doc right))
  else if negb (bool_decide (Channel (doc left) = Channel (doc right)))
  then str_ltb (Channel (doc left)) (Channel (doc right))
  else ReleaseSequence (doc right) <? ReleaseSequence (doc left).

Definition release_le (left right : Release) : Prop := release_less right left = false.
#[global] Instance release_le_dec x y : Decision (release_le x y).
Proof. unfold release_le. apply _. Defined.

(** [LoadRegistry] from the decoded document on. No two releases compare equal, so every
    sorting algorithm gives the same list. *)
Definition LoadRegistry (document : registryDocument) : option Registry :=
  IF negb (d_Version document =? 1) || bool_decide (d_SigningKeys document = [])
     || (maximumSigningKeys <? Z.of_nat (length (d_SigningKeys document)))
     || bool_decide (d_Releases document = [])
     || (maximumReleases <? Z.of_nat (length (d_Releases document))) RETURN None ;;
  match load_keys (d_SigningKeys document) ∅ with
  | None => None
  | Some keys =>
      match load_releases keys ∅ ∅ (d_Releases document) with
      | None => None
      | Some releases => Some (merge_sort release_le releases)
      end
  end.
End Manifests.

(** ** Offers *)

Definition Lookup (registry : Registry) (releaseID : string) : option Release :=
  IF negb (ValidIdentifier releaseID 64) RETURN None ;;
  List.find (λ release, bool_decide (ReleaseID (doc release) = releaseID)) registry.

Definition rollout_message (deviceID releaseID : string) : bytes :=
  bytes_of ("xiaozhi-ota-rollout-v1" +:+ nl) ++ bytes_of releaseID ++ bytes_of nl
  ++ bytes_of deviceID.

(** The bucket of a device in a release, from 0 to 9999. *)
Definition bucket (key : bytes) (deviceID releaseID : string) : Z :=
  be_get (take 4 (hmac_sha256 key (rollout_message deviceID releaseID))) mod 10000.

Definition inCohort (key : bytes) (deviceID releaseID : string) (basisPoints : Z) : bool :=
  IF 10000 <=? basisPoints RETURN true ;;
  bucket key deviceID releaseID <? basisPoints.

Definition Select (registry : Registry) (deviceID board channel : string) (currentSequence : Z)
    (now : Time) (rolloutKey : bytes) : option Release * OfferStatus * Z :=
  IF negb (ValidIdentifier deviceID 64) || negb (ValidIdentifier board 32)
     || negb (ValidIdentifier channel 32) || (currentSequence =? 0) || (blen rolloutKey <? 32)
    RETURN (None, OfferDeferred, 3600) ;;
  match List.find (λ release, bool_decide (Board (doc release) = board)
                              && bool_decide (Channel (doc release) = channel)) registry with
  | None => (None, OfferDeferred, 3600)
  | Some candidate =>
      IF ReleaseSequence (doc candidate) <=? currentSequence
        RETURN (None, OfferUpToDate, RetryAfterSeconds candidate) ;;
      let unix := Unix now in
      IF negb (Enabled candidate) || (RolloutBasisPoints candidate =? 0)
         || (unix <? NotBefore (doc candidate)) || (ExpiresAt (doc candidate) <? unix)
         || negb (inCohort rolloutKey deviceID (ReleaseID (doc candidate))
                    (RolloutBasisPoints candidate))
        RETURN (None, OfferDeferred, RetryAfterSeconds candidate) ;;
      (Some candidate, OfferAvailable, RetryAfterSeconds candidate)
  end.

(** ** The order of the registry *)

Lemma str_ltb_false x y : str_ltb x y = false ↔ y = x ∨ str_lt y x.
Proof.
  rewrite <- not_true_iff_false, str_ltb_lt. destruct (str_lt_total x y) as [H|[->|H]].
  - split; [done|]. intros [->|H'] _; [by apply str_lt_irrefl in H|]. by destruct (str_lt_irrefl x (str_lt_trans _ _ _ H H')).
  - split; [by left|]. intros _ H. by apply str_lt_irrefl in H.
  - split; [by right|]. intros _ H'. by destruct (str_lt_irrefl x (str_lt_trans _ _ _ H' H)).
Qed.

(** Lexicographic: board, channel, then the highest sequence first. *)
Lemma release_le_spec x y :
  release_le x y ↔
  str_lt (Board (doc x)) (Board (doc y)) ∨
  Board (doc x) = Board (doc y) ∧
    (str_lt (Channel (doc x)) (Channel (doc y)) ∨
     Channel (doc x) = Channel (doc y) ∧
       ReleaseSequence (doc y) ≤ ReleaseSequence (doc x)).
Proof.
  unfold release_le, release_less. pose proof str_lt_irrefl as Hirr.
  destruct (decide (Board (doc y) = Board (doc x))) as [E|E].
  - rewrite (bool_decide_true _ E). cbn [negb]. rewrite <- E.
    destruct (decide (Channel (doc y) = Channel (doc x))) as [F|F].
    + rewrite (bool_decide_true _ F). cbn [negb]. rewrite <- F, Z.ltb_ge. naive_solver.
    + rewrite (bool_decide_false _ F). cbn [negb]. rewrite str_ltb_false. naive_solver.
  - rewrite (bool_decide_false _ E). cbn [negb]. rewrite str_ltb_false. naive_solver.
Qed.

#[local] Instance release_le_total : Total release_le.
Proof.
  intros x y. rewrite !release_le_spec.
  destruct (str_lt_total (Board (doc x)) (Board (doc y))) as [?|[->|?] ]; [by auto| |by auto].
  destruct (str_lt_total (Channel (doc x)) (Channel (doc y))) as [?|[->|?] ]; [by auto 6| |by auto 6].
  destruct (Z.le_ge_cases (ReleaseSequence (doc x)) (ReleaseSequence (doc y))); auto 6.
Qed.

#[local] Instance release_le_trans : Transitive release_le.
Proof.
  intros x y z. rewrite !release_le_spec. pose proof str_lt_trans.
  intros [Hb|[Hb [Hc|[Hc Hs] ] ] ] [Hb'|[Hb' [Hc'|[Hc' Hs'] ] ] ];
    rewrite ?Hb, ?Hc, ?Hb', ?Hc' in *; eauto; right; (split; [congruence|]); rewrite <- ?Hb', ?Hc'; eauto.
  right. split; [congruence|lia].
Qed.

Definition matches (board channel : string) (r : Release) : bool :=
  bool_decide (Board (doc r) = board) && bool_decide (Channel (doc r) = channel).

Lemma matches_spec b c r : matches b c r = true ↔ Board (doc r) = b ∧ Channel (doc r) = c.
Proof. unfold matches. by rewrite andb_true_iff, !bool_decide_eq_true. Qed.

(** [r] is a release of the board and channel, and none has a higher sequence. *)
Definition newest (reg : Registry) (b c : string) (r : Release) : Prop :=
  r ∈ reg ∧ Board (doc r) = b ∧ Channel (doc r) = c ∧
  ∀ r', r' ∈ reg → Board (doc r') = b → Channel (doc r') = c →
    ReleaseSequence (doc r') ≤ ReleaseSequence (doc r).

(** Releases of the same board, channel and sequence are the same. *)
Definition unique_sequences (reg : Registry) : Prop :=
  ∀ r r', r ∈ reg → r' ∈ reg → Board (doc r) = Board (doc r') →
    Channel (doc r) = Channel (doc r') →
    ReleaseSequence (doc r) = ReleaseSequence (doc r') → r = r'.

Lemma same_le_sequence x y :
  release_le x y → Board (doc x) = Board (doc y) → Channel (doc x) = Channel (doc y) →
  ReleaseSequence (doc y) ≤ ReleaseSequence (doc x).
Proof.
  rewrite release_le_spec. intros H Hb Hc. rewrite Hb, Hc in H.
  destruct H as [H|[_ [H|[_ H] ] ] ]; [by apply str_lt_irrefl in H|by apply str_lt_irrefl in H|done].
Qed.

Lemma find_newest reg b c r :
  StronglySorted release_le reg → List.find (matches b c) reg = Some r → newest reg b c r.
Proof.
  induction 1 as [|x reg Hs IH Hx]; [done|]. cbn [List.find].
  destruct (matches b c x) eqn:Hm.
  - intros [= ->]. apply matches_spec in Hm as [<- <-]. split_and!; [left|done..|].
    intros r' [->|Hr']%elem_of_cons Hb Hc; [lia|]. rewrite Forall_forall in Hx.
    by apply same_le_sequence; [apply Hx|..].
  - intros (Hin & Hb & Hc & Hmax)%IH. split_and!; [by right|done..|].
    intros r' [->|Hr']%elem_of_cons Hb' Hc'; [|by apply Hmax].
    rewrite (proj2 (matches_spec b c x)) in Hm by done. done.
Qed.

Lemma newest_found reg b c r :
  StronglySorted release_le reg → unique_sequences reg → newest reg b c r →
  List.find (matches b c) reg = Some r.
Proof.
  intros Hs Hu (Hin & Hb & Hc & Hmax). destruct (List.find (matches b c) reg) as [r0|] eqn:Hf.
  - apply find_newest in Hf as (Hin0 & Hb0 & Hc0 & Hmax0); [|done]. f_equal.
    apply Hu; try congruence. specialize (Hmax r0 Hin0 Hb0 Hc0). specialize (Hmax0 r Hin Hb Hc). lia.
  - exfalso. assert (matches b c r = false) as Hm by (apply (List.find_none _ _ Hf); by apply list_elem_of_In).
    rewrite (proj2 (matches_spec b c r)) in Hm; done.
Qed.

Section Loaded.
Context (parse : string → option URL) (decode : bytes → option manifestDocument) (Key : Type)
  (VerifyASN1 : Key → bytes → bytes → bool) (read : string → option bytes)
  (loadPublicKey : string → option Key).
Notation verify := (verifyManifest parse decode Key VerifyASN1).
Notation Load := (LoadRegistry parse decode Key VerifyASN1 read loadPublicKey).

Lemma load_releases_spec keys ids seqs entries releases :
  load_releases parse decode Key VerifyASN1 read keys ids seqs entries = Some releases →
  NoDup ((λ r, sequenceKey (doc r)) <$> releases) ∧
  (∀ r, r ∈ releases → verify (Manifest r) keys = Some (doc r) ∧ sequenceKey (doc r) ∉ seqs ∧
     0 ≤ RolloutBasisPoints r ≤ 10000).
Proof.
  revert ids seqs releases. induction entries as [|e entries IH]; intros ids seqs releases; cbn.
  - intros [= <-]. split; [constructor|]. by intros r ?%elem_of_nil.
  - destruct (load_release _ _ _ _ _ keys ids seqs e) as [r|] eqn:Hr; [|done].
    destruct (load_releases _ _ _ _ _ _ _ _ entries) as [rs|] eqn:Hrs; [|done].
    intros [= <-]. apply IH in Hrs as [Hnd Hall].
    revert Hr. unfold load_release. guard H1. destruct (read _) as [bs|]; [|done].
    destruct (verify bs keys) as [m|] eqn:Hm; [|done]. guard H2. guard H3. intros [= <-].
    split_bools. cbn in *. split.
    + constructor; [|done]. intros Hin. apply list_elem_of_fmap in Hin as (r & Heq & Hr).
      destruct (Hall r Hr) as (_ & Hnot & _). apply Hnot. set_solver.
    + intros r' [->|Hr']%elem_of_cons; [cbn; split_and!; done || lia|].
      destruct (Hall r' Hr') as (? & ? & ?). split_and!; try done || lia. set_solver.
Qed.

Lemma Load_ok document reg :
  Load document = Some reg →
  StronglySorted release_le reg ∧ unique_sequences reg ∧
  ∃ keys, load_keys Key loadPublicKey (d_SigningKeys document) ∅ = Some keys ∧
    ∀ r, r ∈ reg → verify (Manifest r) keys = Some (doc r) ∧ 0 ≤ RolloutBasisPoints r ≤ 10000.
Proof.
  unfold LoadRegistry. guard H1. destruct (load_keys _ _ _ _) as [keys|]; [|done].
  destruct (load_releases _ _ _ _ _ _ _ _ _) as [rs|] eqn:Hrs; [|done]. intros [= <-].
  apply load_releases_spec in Hrs as [Hnd Hall].
  pose proof (merge_sort_Permutation release_le rs) as Hp. split_and!.
  - apply (StronglySorted_merge_sort _).
  - intros r r' Hr Hr' Hb Hc Hs. rewrite Hp in Hr, Hr'.
    apply list_elem_of_lookup in Hr as [i Hi]. apply list_elem_of_lookup in Hr' as [j Hj].
    assert (i = j) as ->; [|congruence].
    apply (NoDup_lookup _ i j (sequenceKey (doc r)) Hnd); rewrite list_lookup_fmap.
    + by rewrite Hi.
    + rewrite Hj. cbn. unfold sequenceKey. by rewrite Hb, Hc, Hs.
  - exists keys. split; [done|]. intros r Hr. rewrite Hp in Hr.
    destruct (Hall r Hr) as (? & ? & ?). done.
Qed.

(** C31: a device is offered exactly the right release. From a loaded registry, a valid
    request is offered a release if and only if it is the newest of the device's board
    and channel, newer than what the device runs, enabled, within its validity and
    rolled out to the device; every release of the registry carries a verified
    signature of a configured key. So no device is ever offered a downgrade, or an
    older release while the newest is held back. *)
Theorem Select_exact document reg d b c current now key r :
  Load document = Some reg →
  ValidIdentifier d 64 = true → ValidIdentifier b 32 = true → ValidIdentifier c 32 = true →
  current ≠ 0 → 32 ≤ blen key →
  (Select reg d b c current now key = (Some r, OfferAvailable, RetryAfterSeconds r) ↔
   newest reg b c r ∧ current < ReleaseSequence (doc r) ∧ Enabled r = true ∧
   0 < RolloutBasisPoints r ∧
   NotBefore (doc r) ≤ Unix now ≤ ExpiresAt (doc r) ∧
   inCohort key d (ReleaseID (doc r)) (RolloutBasisPoints r) = true) ∧
  ∃ keys, load_keys Key loadPublicKey (d_SigningKeys document) ∅ = Some keys ∧
    ∀ r', r' ∈ reg → verify (Manifest r') keys = Some (doc r').
Proof.
  intros Hload Hd Hb Hc Hcur Hkey. apply Load_ok in Hload as (Hs & Hu & keys & Hk & Hall).
  split; [|exists keys; split; [done|]; intros r' Hr'; by apply Hall].
  unfold Select. rewrite Hd, Hb, Hc. cbn [negb orb].
  replace (current =? 0) with false by lia. replace (blen key <? 32) with false by lia.
  cbn [orb]. fold (matches b c). split.
  - destruct (List.find (matches b c) reg) as [r0|] eqn:Hf; [|done].
    apply find_newest in Hf; [|done].
    guard H1. guard H2. intros [= ->]. split_bools. split_and!; try done; try lia.
    destruct Hf as (Hin & _). destruct (Hall r Hin) as [_ ?]. lia.
  - intros (Hn & Hlt & He & Hbp & Ht & Hco). rewrite (newest_found reg b c r Hs Hu Hn).
    replace (ReleaseSequence (doc r) <=? current) with false by lia.
    rewrite He, Hco. replace (RolloutBasisPoints r =? 0) with false by lia.
    replace (Unix now <? NotBefore (doc r)) with false by lia.
    by replace (ExpiresAt (doc r) <? Unix now) with false by lia.
Qed.
End Loaded.

(** Raising the percentage of a rollout only adds devices; 0 offers it to nobody and
    10000 basis points to everybody. *)
Lemma inCohort_mono key d r b b' :
  b ≤ b' → inCohort key d r b = true → inCohort key d r b' = true.
Proof.
  unfold inCohort. intros Hle. destruct (10000 <=? b) eqn:E; split_bools.
  - intros _. by replace (10000 <=? b') with true by lia.
  - intros ?. split_bools. case_match; [done|]. lia.
Qed.

(** ** The signature covers every field *)

Lemma pretty_N_go_one_line x s :
  Provisioning.one_line s → Provisioning.one_line (pretty_N_go x s).
Proof.
  revert s. induction (N.lt_wf_0 x) as [x _ IH]; intros s Hs.
  destruct (decide (x = 0)%N) as [->|Hx]; [by rewrite pretty_N_go_0|].
  rewrite pretty_N_go_step by lia. apply IH; [apply N.div_lt; lia|].
  unfold Provisioning.one_line. cbn. apply not_elem_of_cons. split; [|done].
  unfold pretty_N_char. repeat case_match; by vm_compute.
Qed.

Lemma FormatInt_one_line z : Provisioning.one_line (FormatInt z).
Proof.
  assert (∀ n : N, Provisioning.one_line (pretty n)) as Hn.
  { intros n. unfold pretty, pretty_N. case_decide; [by apply (bool_decide_unpack _); vm_compute|].
    apply pretty_N_go_one_line. by apply (bool_decide_unpack _); vm_compute. }
  unfold FormatInt, pretty, pretty_Z. destruct z; [by apply (bool_decide_unpack _); vm_compute|apply Hn|].
  unfold Provisioning.one_line. rewrite bytes_of_app. apply not_elem_of_app. split; [|apply Hn].
  by apply (bool_decide_unpack _); vm_compute.
Qed.

Lemma URL_one_line parse u : validImageURL parse u = true → Provisioning.one_line u.
Proof.
  unfold validImageURL. case_match; [done|]. destruct (parse u); [|done]. case_match; [done|].
  destruct (cut_colon _). do 2 (case_match; [done|]). by apply Provisioning.forallb_one_line.
Qed.

(** The lines of the signed text; it ends with a line feed. *)
Definition manifest_lines (m : manifestDocument) : list string :=
  ["xiaozhi-product-ota-v2"; "board=" +:+ Board m; "channel=" +:+ Channel m;
   "expires_at=" +:+ FormatInt (ExpiresAt m); "image_sha256=" +:+ ImageSHA256 m;
   "image_size=" +:+ FormatInt (ImageSize m); "image_url=" +:+ ImageURL m;
   "not_before=" +:+ FormatInt (NotBefore m); "project=" +:+ Project m;
   "release_id=" +:+ ReleaseID m; "release_sequence=" +:+ FormatInt (ReleaseSequence m);
   "reset_qualification_sha256=" +:+ ResetQualificationSHA256 m;
   "schema=" +:+ FormatInt (Schema m); "secure_version=" +:+ FormatInt (SecureVersion m);
   "signature_algorithm=" +:+ SignatureAlgorithm m; "signing_key_id=" +:+ SigningKeyID m;
   "version=" +:+ Version m; ""].

Lemma bytes_of_line k v t :
  bytes_of (k +:+ v +:+ nl +:+ t) = bytes_of (k +:+ v) ++ Provisioning.newline :: bytes_of t.
Proof. rewrite !bytes_of_app, <- !app_assoc. done. Qed.

Lemma canonicalManifest_lines m :
  canonicalManifest m = Provisioning.join_lines (bytes_of <$> manifest_lines m).
Proof.
  unfold canonicalManifest, manifest_lines. rewrite fmap_cons.
  assert (∀ k v : string, k +:+ v +:+ nl = k +:+ v +:+ nl +:+ "") as E.
  { intros k v. apply bytes_of_inj. rewrite !bytes_of_app. cbn. by rewrite ?app_nil_r. }
  rewrite (E "version="). rewrite Provisioning.bytes_of_nl, !bytes_of_line. reflexivity.
Qed.

Lemma prefixed_one_line k v :
  bool_decide (Provisioning.newline ∈ bytes_of k) = false → Provisioning.one_line v →
  Provisioning.newline ∉ bytes_of (k +:+ v).
Proof.
  intros Hk Hv. rewrite bytes_of_app. apply not_elem_of_app. split; [|done].
  by apply bool_decide_eq_false in Hk.
Qed.

Lemma manifest_lines_ok parse m :
  manifest_fields_ok parse m = true →
  Forall (λ x, Provisioning.newline ∉ x) (bytes_of <$> manifest_lines m).
Proof.
  unfold manifest_fields_ok, validVersion. intros Hok%negb_true_iff.
  repeat match goal with
  | H : (_ || _) = false |- _ => apply orb_false_iff in H as [? ?]
  | H : negb _ = false |- _ => apply negb_false_iff in H
  end.
  match goal with H : bool_decide (SignatureAlgorithm m = _) = true |- _ =>
    apply bool_decide_eq_true in H as Halg end.
  assert (Provisioning.one_line (SignatureAlgorithm m)) as Ha.
  { rewrite Halg. by apply (bool_decide_unpack _); vm_compute. }
  unfold manifest_lines. rewrite !fmap_cons, !Forall_cons.
  split_and!; try done; try (apply prefixed_one_line; [by vm_compute|]);
    eauto using FormatInt_one_line, URL_one_line, Provisioning.identifier_one_line,
      Provisioning.sha256_one_line, Provisioning.version_one_line.
  all: by apply (bool_decide_unpack _); vm_compute.
Qed.

(** The signature of a manifest covers every field. Two manifests whose fields pass
    the checks and whose signed texts are equal agree in everything but the signature
    itself: release, project, board, channel, version, sequences, image address, size
    and digest, qualification digest, validity and key. *)
Theorem signed_manifest_determines_release parse m m' :
  manifest_fields_ok parse m = true → manifest_fields_ok parse m' = true →
  canonicalManifest m = canonicalManifest m' →
  m' = {| Schema := Schema m; ReleaseID := ReleaseID m; Project := Project m; Board := Board m;
          Channel := Channel m; Version := Version m; ReleaseSequence := ReleaseSequence m;
          SecureVersion := SecureVersion m; ImageURL := ImageURL m; ImageSize := ImageSize m;
          ImageSHA256 := ImageSHA256 m;
          ResetQualificationSHA256 := ResetQualificationSHA256 m; NotBefore := NotBefore m;
          ExpiresAt := ExpiresAt m; SigningKeyID := SigningKeyID m;
          SignatureAlgorithm := SignatureAlgorithm m; SignatureB64URL := SignatureB64URL m' |}.
Proof.
  intros Hm Hm'. rewrite !canonicalManifest_lines.
  intros Heq%Provisioning.join_lines_inj; [|by eapply manifest_lines_ok|by eapply manifest_lines_ok
    |done|done].
  apply (list_fmap_eq_inj bytes_of) in Heq; [|intros x y; apply bytes_of_inj].
  unfold manifest_lines in Heq.
  repeat match goal with
  | H : _ :: _ = _ :: _ |- _ => apply (inj2 cons) in H as [? H]
  end.
  repeat match goal with
  | H : String.append ?k _ = String.append ?k _ |- _ => apply (inj (String.append k)) in H
  | H : FormatInt _ = FormatInt _ |- _ => apply (inj pretty) in H
  end.
  clear Hm Hm'. destruct m, m'. cbn in *. subst. reflexivity.
Qed.

(** ** Witnesses *)

Definition ex_manifest (sequence : Z) (signature : string) : manifestDocument :=
  {| Schema := 2; ReleaseID := "rel-" +:+ FormatInt sequence; Project := "xiaozhi"; Board := "s3";
     Channel := "stable"; Version := "1.0." +:+ FormatInt sequence; ReleaseSequence := sequence;
     SecureVersion := 1; ImageURL := "https://ota.example.com/fw.bin"; ImageSize := 4096;
     ImageSHA256 := hex_encode (replicate 32 (byte_of 1));
     ResetQualificationSHA256 := hex_encode (replicate 32 (byte_of 2));
     NotBefore := 1750000000; ExpiresAt := 1750086400; SigningKeyID := "key-1";
     SignatureAlgorithm := "ECDSA_P256_SHA256"; SignatureB64URL := signature |}.
Definition ex_parse (value : string) : option URL :=
  Some {| Scheme := "https"; Host := "ota.example.com"; HasUser := false; RawQuery := "";
          Fragment := ""; Path := "/fw.bin" |}.
(** A stand-in for ECDSA: the signature repeats the key and the digest. *)
Definition toy_Verify (key digest signature : bytes) : bool :=
  bool_decide (signature = key ++ digest).
Definition ex_public : bytes := replicate 8 (byte_of 4).
Definition ex_signed (sequence : Z) : manifestDocument :=
  ex_manifest sequence
    (EncodeToString (ex_public ++ Sum256 (canonicalManifest (ex_manifest sequence "")))).
(** Files and their decoding: the file "m1" holds release 1, "m2" release 2. *)
Definition ex_read (name : string) : option bytes := Some (bytes_of name).
Definition ex_decode (payload : bytes) : option manifestDocument :=
  if bool_decide (payload = bytes_of "m1") then Some (ex_signed 1)
  else if bool_decide (payload = bytes_of "m2") then Some (ex_signed 2) else None.
Definition ex_entry (name : string) : releaseEntry :=
  {| n_ManifestFile := name; n_Enabled := true; n_RolloutBasisPoints := 10000;
     n_RetryAfterSeconds := 600 |}.
Definition ex_document : registryDocument :=
  {| d_Version := 1; d_SigningKeys := [{| k_KeyID := "key-1"; k_PublicKeyFile := "key.pem" |}];
     d_Releases := [ex_entry "m1"; ex_entry "m2"] |}.
Definition ex_load : option Registry :=
  LoadRegistry ex_parse ex_decode bytes toy_Verify ex_read (λ _, Some ex_public) ex_document.
Definition ex_release (sequence : Z) (file : string) : Release :=
  {| doc := ex_signed sequence; Manifest := bytes_of file; Enabled := true;
     RolloutBasisPoints := 10000; RetryAfterSeconds := 600 |}.

Lemma ex_load_ok : ex_load = Some [ex_release 2 "m2"; ex_release 1 "m1"].
Proof. vm_compute. reflexivity. Qed.

(** A device at sequence 1 is offered release 2. *)
Lemma Select_exact_witness :
  Select [ex_release 2 "m2"; ex_release 1 "m1"] "dev-1" "s3" "stable" 1 (from_unix 1750000100)
    (replicate 32 (byte_of 3)) = (Some (ex_release 2 "m2"), OfferAvailable, 600).
Proof.
  destruct (Select_exact ex_parse ex_decode bytes toy_Verify ex_read (λ _, Some ex_public)
    ex_document [ex_release 2 "m2"; ex_release 1 "m1"] "dev-1" "s3" "stable" 1
    (from_unix 1750000100) (replicate 32 (byte_of 3)) (ex_release 2 "m2") ex_load_ok eq_refl
    eq_refl eq_refl ltac:(discriminate) ltac:(vm_compute; discriminate)) as [Hiff _].
  apply Hiff. split; [split; [left|split; [reflexivity|split; [reflexivity|] ] ]|].
  - intros r' Hr' _ _. apply elem_of_cons in Hr' as [->|Hr']; [cbn; lia|].
    apply list_elem_of_singleton in Hr' as ->. cbn. lia.
  - split; [cbn; lia|]. split; [reflexivity|]. split; [cbn; lia|].
    split; [vm_compute; split; discriminate|]. reflexivity.
Defined.

Lemma ex_fields_ok : manifest_fields_ok ex_parse (ex_manifest 1 "") = true.
Proof. vm_compute. reflexivity. Qed.

(** A manifest and the same manifest with another signature. *)
Lemma signed_manifest_determines_release_witness :
  manifest_fields_ok ex_parse (ex_manifest 1 "sig") = true ∧
  Board (ex_manifest 1 "sig") = Board (ex_manifest 1 "").
Proof.
  assert (manifest_fields_ok ex_parse (ex_manifest 1 "sig") = true) as Hs by exact ex_fields_ok.
  split; [exact Hs|].
  rewrite (signed_manifest_determines_release ex_parse (ex_manifest 1 "") (ex_manifest 1 "sig")
    ex_fields_ok Hs eq_refl). reflexivity.
Defined.

End Ota.
