(* ===== verification/ControlPlane.v ===== *)
(** * ControlPlane: the HTTP API of devices and companion apps

    Models [internal/controlplane/server.go]: the handlers that pair a device with an
    owner, release it, register, decide and collect action consents, and issue times,
    tokens and firmware offers. The stores are those of [DeviceClaim] and
    [ActionConsent], the proofs those of [Provisioning], the issuers those of [Auth].
    A handler that writes to a store is a sequence of steps (authorize, look the owner
    up, use the store), so that handlers interleave between them; what it carries from
    one step to the next is its task. The companion verifier, the account service and
    the JSON decoder are arguments. The metrics are not modelled. *)

From stdpp Require Import base gmap strings list functions.
From Stdlib Require Import ZArith Lia.
From Stdlib.Strings Require Import Byte.
From S2P Require Import Prelude GoBase GoCrypto Auth AccountAuth ActionConsent DeviceClaim.
From S2P Require Import Provisioning Ota.

Module ControlPlane.

Definition Capability : string := "device.set_indicator".
Definition Contract : string := "xz-action-consent-v1".

Abbreviation Request := Provisioning.Request.
Abbreviation singleHeader := Provisioning.singleHeader.

(** ** Status codes of errors *)

Definition rejectProof (e : Provisioning.error) : Z :=
  match e with
  | Provisioning.ErrMalformedProof => 400
  | Provisioning.ErrReplay => 409
  | Provisioning.ErrRateLimited => 429
  | Provisioning.ErrUnavailable => 503
  | _ => 401
  end.

Definition writeActionConsentError (e : ActionConsent.error) : Z :=
  match e with
  | ActionConsent.ErrUnavailable => 503
  | ActionConsent.ErrReplay | ActionConsent.ErrConflict => 409
  | ActionConsent.ErrExpired => 410
  | ActionConsent.ErrCapacity => 429
  | ActionConsent.ErrNotFound => 404
  | _ => 400
  end.

Definition rejectClaim (e : DeviceClaim.error) : Z :=
  match e with
  | DeviceClaim.ErrUnavailable => 503
  | DeviceClaim.ErrReplay | DeviceClaim.ErrConflict => 409
  | DeviceClaim.ErrCapacity => 429
  | DeviceClaim.ErrExpired => 410
  | DeviceClaim.ErrNotFound | DeviceClaim.ErrUnauthorized => 404
  | _ => 400
  end.

(** ** Request bodies

    The structure [arguments] has one member, [on], and is written out as that member. *)

Record actionConsentDeviceChallengeRequest : Type := {
  c_Version : Z;
  c_ChallengeID : string;
  c_SessionID : string;
  c_RequestID : Z;
  c_Capability : string;
  c_IndicatorOn : bool;
  c_ExpiresAtUnix : Z;
}.

Record actionConsentDeviceResultRequest : Type := {
  r_Version : Z;
  r_ChallengeID : string;
  r_OwnerRevision : Z;
  r_SessionID : string;
  r_RequestID : Z;
  r_Capability : string;
  r_IndicatorOn : bool;
}.

Record actionConsentDecisionRequest : Type := {
  d_Version : Z;
  d_ChallengeID : string;
  d_DeviceID : string;
  d_OwnerRevision : Z;
  d_SessionID : string;
  d_RequestID : Z;
  d_Capability : string;
  d_IndicatorOn : bool;
  d_Decision : string;
}.

(** [Decode] reads one document with known members and fails when anything follows. *)
Record codec (A : Type) : Type := {
  Decode : bytes → option A;
  Marshal : A → option bytes;
}.
Arguments Decode {A}.
Arguments Marshal {A}.

(** The three headers every request of the consent API carries. *)
Definition consent_headers (request : Request) : bool :=
  bool_decide (singleHeader request "Accept" = Some "application/json")
  && bool_decide (singleHeader request "Cache-Control" = Some "no-store")
  && bool_decide (singleHeader request "X-Xiaozhi-Action-Consent" = Some Contract).

(** [read] is what the body delivers, [None] when reading fails. *)
Definition canonical_body {A} (J : codec A) (request : Request) (read : option bytes) :
    option (A * bytes) :=
  match read with
  | None => None
  | Some read =>
      let body := take 1025 read in
      IF (blen body =? 0) || (1024 <? blen body)
         || negb (blen body =? Provisioning.ContentLength request)
        RETURN None ;;
      match Decode J body with
      | None => None
      | Some target =>
          IF negb (bool_decide (Marshal J target = Some body)) RETURN None ;;
          Some (target, body)
      end
  end.

Definition body_headers (request : Request) : bool :=
  bool_decide (Provisioning.RawQuery request = "")
  && bool_decide (Provisioning.TransferEncoding request = [])
  && (0 <? Provisioning.ContentLength request) && (Provisioning.ContentLength request <=? 1024)
  && bool_decide (singleHeader request "Content-Type" = Some "application/json")
  && consent_headers request.

Definition readCanonicalActionConsentBody {A} (J : codec A) (request : Request)
    (read : option bytes) : option (A * bytes) :=
  IF negb (body_headers request) RETURN None ;;
  canonical_body J request read.

(** ** Companion apps *)

(** What the account service says of a verified token. *)
Inductive companion_status : Type :=
| CompanionActive
| CompanionInactive
| CompanionUnavailable.

(** [verify] is the verifier of companion tokens, [status] the account service, if
    there is one. *)
Record companion : Type := {
  VerifyAuthorization : string → option Token.Claims;
  CompanionStatus : option (Token.Claims → companion_status);
}.

Definition authorizeCompanion (app : companion) (request : Request) (expectedAction : string) :
    result Z Token.Claims :=
  match singleHeader request "Authorization" with
  | None => Err 401
  | Some authorization =>
      match VerifyAuthorization app authorization with
      | None => Err 401
      | Some claims =>
          IF bool_decide (Token.Subject claims = "")
             || negb (bool_decide (Token.Action claims = expectedAction)) RETURN Err 401 ;;
          match CompanionStatus app with
          | None => Ok claims
          | Some status =>
              match status claims with
              | CompanionActive => Ok claims
              | CompanionInactive => Err 401
              | CompanionUnavailable => Err 503
              end
          end
      end
  end.

(** ** The server *)

(** The proof verifiers of the configuration, by what they are for. *)
Inductive use : Type :=
| SessionProof
| AgentProof
| OTAProof
| ClaimProof
| ActionConsentChallengeProof
| ActionConsentResultProof.

#[export] Instance use_eq_dec : EqDecision use.
Proof. solve_decision. Defined.

(** The answer of a handler; [Failed] is [http.Error]. *)
Inductive reply : Type :=
| Failed (status : Z)
| Registered (c : ActionConsent.Challenge)
| AwaitingDecision (challengeID : string)
| Delivered (challengeID decision : string)
| Decided (challengeID : string)
| Inbox (c : option ActionConsent.Challenge)
| ClaimAnswer (record : DeviceClaim.Record_) (expiresInSeconds : Z)
| ClaimBound (record : DeviceClaim.Record_)
| OwnershipReleased (deviceID : string) (bindingRevision : Z)
| TimeIssued (deviceID clientID nonce : string) (unixSeconds : Z)
| TokenIssued (service : use) (deviceID token : string) (claims : Token.Claims)
| Offer (deviceID : string) (release : Ota.Release) (token : string) (expiresInSeconds : Z)
| OfferLater (deviceID : string) (status : Ota.OfferStatus) (retryAfterSeconds : Z).

(** What a handler carries: it is authorized and looks the owner up next, or it has
    its arguments for the store, or it has answered. *)
Inductive task : Type :=
| Registering (deviceID : string) (input : actionConsentDeviceChallengeRequest)
| RegisterReady (c : ActionConsent.Challenge) (now : Time)
| Consuming (deviceID : string) (input : actionConsentDeviceResultRequest)
| ConsumeReady (q : ActionConsent.DeviceRequest)
| Deciding (claims : Token.Claims) (deviceID challengeID : string)
    (decision : actionConsentDecisionRequest)
| DecideReady (actor : ActionConsent.Actor) (q : ActionConsent.Request)
| Reading (claims : Token.Claims) (deviceID : string)
| ReadReady (actor : ActionConsent.Actor)
| BeginReady (userID tenantID deviceID code appNonce : string)
| ConfirmReady (deviceID code : string)
| StatusReady (userID tenantID requestID : string)
| ReleaseReady (userID tenantID deviceID : string)
| Issuing (service : use) (deviceID : string)
| Entitling (service : use) (deviceID : string) (owner : DeviceClaim.Ownership)
| IssueReady (service : use) (deviceID : string) (owner : DeviceClaim.Ownership)
    (entitlementUntil : option Time)
| Answered (r : reply).

Definition use_scope (u : use) : Provisioning.ProofScope :=
  match u with
  | SessionProof => Provisioning.SessionProofScope
  | AgentProof => Provisioning.AgentTokenProofScope
  | OTAProof => Provisioning.OTAOfferProofScope
  | ClaimProof => Provisioning.DeviceClaimProofScope
  | ActionConsentChallengeProof => Provisioning.ActionConsentChallengeProofScope
  | ActionConsentResultProof => Provisioning.ActionConsentResultProofScope
  end.

(** The parts of [Config] that no handler changes. [Entitlements] says whether the
    server asks the account service before it issues a token. *)
Record Config : Type := {
  VoiceIssuer : Token.Issuer;
  AgentIssuer : Token.Issuer;
  OTAIssuer : Token.Issuer;
  OTARegistry : Ota.Registry;
  OTARolloutKey : bytes;
  Entitlements : bool;
}.

(** The parts that handlers change: the verifiers remember the proofs they accepted.
    The claim store is also the one that resolves owners. *)
Record Server : Type := {
  proofs : use → Provisioning.ProofVerifier;
  ClaimStore : DeviceClaim.Store;
  ActionConsents : ActionConsent.Store;
  tasks : gmap nat task;
}.

Definition put (r : nat) (t : task) (s : Server) : Server :=
  {| proofs := proofs s; ClaimStore := ClaimStore s; ActionConsents := ActionConsents s;
     tasks := <[r := t]> (tasks s) |}.
Definition set_proof (u : use) (v : Provisioning.ProofVerifier) (s : Server) : Server :=
  {| proofs := <[u := v]> (proofs s); ClaimStore := ClaimStore s;
     ActionConsents := ActionConsents s; tasks := tasks s |}.
Definition set_claims (st : DeviceClaim.Store) (s : Server) : Server :=
  {| proofs := proofs s; ClaimStore := st; ActionConsents := ActionConsents s;
     tasks := tasks s |}.
Definition set_consents (st : ActionConsent.Store) (s : Server) : Server :=
  {| proofs := proofs s; ClaimStore := ClaimStore s; ActionConsents := st;
     tasks := tasks s |}.

Definition fail_with (r : nat) (status : Z) (s : Server) : Server :=
  put r (Answered (Failed status)) s.
Definition consent_error (r : nat) (e : ActionConsent.error) (s : Server) : Server :=
  fail_with r (writeActionConsentError e) s.

(** The environment of a proof: the registry as it is read, the answer of the shared
    coordinator and the clock. *)
Record proof_env : Type := {
  views : Provisioning.Views;
  coordinator : option Provisioning.coordination;
  proof_now : Time;
}.

(** *** Authorization *)

Section handlers.
Context (JC : codec actionConsentDeviceChallengeRequest)
  (JR : codec actionConsentDeviceResultRequest) (JD : codec actionConsentDecisionRequest).

Definition registerDeviceActionConsent (r : nat) (request : Request) (read : option bytes)
    (e : proof_env) (s : Server) : Server :=
  match readCanonicalActionConsentBody JC request read with
  | None => consent_error r ActionConsent.ErrInvalid s
  | Some (input, body) =>
      let '(v, result) :=
        Provisioning.AuthorizeBody (proofs s ActionConsentChallengeProof) (views e)
          (coordinator e) (proof_now e) request body in
      let s := set_proof ActionConsentChallengeProof v s in
      match result with
      | Err e => fail_with r (rejectProof e) s
      | Ok deviceID =>
          IF negb (c_Version input =? 1)
             || negb (ActionConsent.ValidChallengeID (c_ChallengeID input))
             || negb (bool_decide (c_Capability input = Capability))
            RETURN consent_error r ActionConsent.ErrInvalid s ;;
          put r (Registering deviceID input) s
      end
  end.

Definition consumeDeviceActionConsent (r : nat) (request : Request) (read : option bytes)
    (e : proof_env) (s : Server) : Server :=
  match readCanonicalActionConsentBody JR request read with
  | None => consent_error r ActionConsent.ErrInvalid s
  | Some (input, body) =>
      let '(v, result) := Provisioning.AuthorizeBody (proofs s ActionConsentResultProof) (views e)
                            (coordinator e) (proof_now e) request body in
      let s := set_proof ActionConsentResultProof v s in
      match result with
      | Err e => fail_with r (rejectProof e) s
      | Ok deviceID =>
          IF negb (r_Version input =? 1)
             || negb (ActionConsent.ValidChallengeID (r_ChallengeID input))
             || negb (bool_decide (r_Capability input = Capability))
            RETURN consent_error r ActionConsent.ErrInvalid s ;;
          put r (Consuming deviceID input) s
      end
  end.

(** [deviceID] and [challengeID] are the values in the path. *)
Definition decideActionConsent (app : companion) (r : nat) (request : Request)
    (deviceID challengeID : string) (read : option bytes) (s : Server) : Server :=
  match authorizeCompanion app request Token.CompanionConsentAction with
  | Err status => fail_with r status s
  | Ok claims =>
      IF negb (body_headers request)
         || negb (bool_decide (Token.DeviceID claims = deviceID))
         || negb (ActionConsent.ValidChallengeID challengeID)
        RETURN consent_error r ActionConsent.ErrInvalid s ;;
      match canonical_body JD request read with
      | None => consent_error r ActionConsent.ErrInvalid s
      | Some (decision, _) =>
          IF negb (d_Version decision =? 1)
             || negb (bool_decide (d_ChallengeID decision = challengeID))
             || negb (bool_decide (d_DeviceID decision = deviceID))
             || negb (bool_decide (d_Capability decision = Capability))
            RETURN consent_error r ActionConsent.ErrInvalid s ;;
          put r (Deciding claims deviceID challengeID decision) s
      end
  end.

Definition pendingActionConsent (app : companion) (r : nat) (request : Request)
    (deviceID : string) (s : Server) : Server :=
  match authorizeCompanion app request Token.CompanionConsentAction with
  | Err status => fail_with r status s
  | Ok claims =>
      IF negb (bool_decide (Provisioning.RawQuery request = ""))
         || negb (bool_decide (Provisioning.TransferEncoding request = []))
         || negb (Provisioning.ContentLength request =? 0)
         || negb (bool_decide (Provisioning.Header request "Content-Type" = []))
         || negb (consent_headers request)
         || negb (bool_decide (Token.DeviceID claims = deviceID))
         || negb (Ident.ValidIdentifier deviceID 64)
        RETURN consent_error r ActionConsent.ErrInvalid s ;;
      put r (Reading claims deviceID) s
  end.

Definition no_body (request : Request) : bool :=
  bool_decide (Provisioning.RawQuery request = "") && (Provisioning.ContentLength request =? 0).

Definition beginDeviceClaim (app : companion) (r : nat) (request : Request) (s : Server) :
    Server :=
  match authorizeCompanion app request Token.CompanionClaimAction with
  | Err status => fail_with r status s
  | Ok claims =>
      match no_body request, singleHeader request "Device-Id",
            singleHeader request "X-Device-Claim", singleHeader request "X-App-Nonce" with
      | true, Some deviceID, Some claim, Some appNonce =>
          put r (BeginReady (Token.Subject claims) (Token.TenantID claims) deviceID claim appNonce)
            s
      | _, _, _, _ => fail_with r (rejectClaim DeviceClaim.ErrInvalid) s
      end
  end.

Definition confirmDeviceClaim (r : nat) (request : Request) (e : proof_env) (s : Server) :
    Server :=
  let '(v, result) := Provisioning.Authorize (proofs s ClaimProof) (views e) (coordinator e)
                        (proof_now e) request in
  let s := set_proof ClaimProof v s in
  match result with
  | Err e => fail_with r (rejectProof e) s
  | Ok deviceID =>
      match singleHeader request "X-Device-Claim" with
      | None => fail_with r (rejectClaim DeviceClaim.ErrInvalid) s
      | Some claim => put r (ConfirmReady deviceID claim) s
      end
  end.

Definition deviceClaimStatus (app : companion) (r : nat) (request : Request) (s : Server) :
    Server :=
  match authorizeCompanion app request Token.CompanionClaimAction with
  | Err status => fail_with r status s
  | Ok claims =>
      match no_body request, singleHeader request "X-Claim-Request-ID" with
      | true, Some requestID =>
          put r (StatusReady (Token.Subject claims) (Token.TenantID claims) requestID) s
      | _, _ => fail_with r (rejectClaim DeviceClaim.ErrInvalid) s
      end
  end.

Definition releaseOwnership (app : companion) (r : nat) (request : Request) (s : Server) :
    Server :=
  match authorizeCompanion app request Token.CompanionReleaseAction with
  | Err status => fail_with r status s
  | Ok claims =>
      match no_body request, singleHeader request "Device-Id" with
      | true, Some deviceID =>
          IF negb (bool_decide (Token.DeviceID claims = deviceID))
            RETURN fail_with r (rejectClaim DeviceClaim.ErrInvalid) s ;;
          put r (ReleaseReady (Token.Subject claims) (Token.TenantID claims) deviceID) s
      | _, _ => fail_with r (rejectClaim DeviceClaim.ErrInvalid) s
      end
  end.

(** *** Times, tokens and firmware offers *)

Definition minimumUnixTime : Z := 1609459200.
Definition maximumUnixTime : Z := 4102444800.

(** [v] is the registry of the session proofs as it is read. *)
Definition issueTime (r : nat) (request : Request) (v : Provisioning.View) (now : Time)
    (s : Server) : Server :=
  match singleHeader request "Device-Id", singleHeader request "Client-Id",
        singleHeader request "X-Device-Nonce" with
  | Some deviceID, Some clientID, Some nonceText =>
      IF negb (no_body request)
         || negb (Ident.ValidIdentifier deviceID 64) || negb (Ident.ValidIdentifier clientID 64)
         || match DecodeString nonceText with
            | None => true
            | Some nonce => negb (blen nonce =? 16)
                            || negb (bool_decide (EncodeToString nonce = nonceText))
            end
         || negb (Provisioning.DeviceAllowed v deviceID)
         || (Unix now <? minimumUnixTime) || (maximumUnixTime <? Unix now)
        RETURN fail_with r 400 s ;;
      put r (Answered (TimeIssued deviceID clientID nonceText (Unix now))) s
  | _, _, _ => fail_with r 400 s
  end.

(** The first step of [issueVoice] and [issueAgent], which are [authorizeAndIssue] with
    the verifier, the issuer and the audience of their service. *)
Definition authorizeAndIssue (service : use) (r : nat) (request : Request) (e : proof_env)
    (s : Server) : Server :=
  let '(v, result) := Provisioning.Authorize (proofs s service) (views e) (coordinator e)
                        (proof_now e) request in
  let s := set_proof service v s in
  match result with
  | Err e => fail_with r (rejectProof e) s
  | Ok deviceID => put r (Issuing service deviceID) s
  end.

Definition issueVoice := authorizeAndIssue SessionProof.
Definition issueAgent := authorizeAndIssue AgentProof.

Definition service_of (service : use) : AccountAuth.ProductService :=
  match service with
  | AgentProof => AccountAuth.ProductServiceAgent
  | _ => AccountAuth.ProductServiceVoice
  end.

(** [ServiceEntitlements.AuthorizeService] as it answers at one moment: the account and
    the service asked for, [None] when it fails, [Some None] when it denies. *)
Definition authorizer : Type :=
  AccountAuth.Principal → AccountAuth.ProductService → option (option AccountAuth.ServiceEntitlementGrant).

(** The call: the owner's account and the service of the token. *)
Definition ask_entitlement (AuthorizeService : authorizer) (service : use) (owner : DeviceClaim.Ownership) :
    option (option AccountAuth.ServiceEntitlementGrant) :=
  AuthorizeService {| AccountAuth.p_TenantID := DeviceClaim.TenantID owner;
                      AccountAuth.p_Subject := DeviceClaim.OwnerID owner |} (service_of service).

(** Is the grant usable at [now]? Times are in UTC. *)
Definition grant_ok (grant : AccountAuth.ServiceEntitlementGrant) (now : Time) : bool :=
  AccountAuth.ValidAccountRevision (AccountAuth.gr_Revision grant)
  && (bool_decide (AccountAuth.gr_State grant = AccountAuth.EntitlementActive)
      || bool_decide (AccountAuth.gr_State grant = AccountAuth.EntitlementGrace))
  && (AccountAuth.gr_ValidUntil grant mod second =? 0)
  && (60 <=? Unix (AccountAuth.gr_ValidUntil grant) -i Unix now).

(** The question to the account service and what follows from its answer. *)
Definition entitle_step (r : nat) (t : task) (AuthorizeService : authorizer) (now : Time) (s : Server) :
    option Server :=
  match t with
  | Entitling service deviceID owner =>
      Some match ask_entitlement AuthorizeService service owner with
      | None => fail_with r 503 s
      | Some None => fail_with r 402 s
      | Some (Some grant) =>
          IF negb (grant_ok grant now) RETURN fail_with r 503 s ;;
          put r (IssueReady service deviceID owner (Some (AccountAuth.gr_ValidUntil grant))) s
      end
  | _ => None
  end.

Definition issuer_of (cfg : Config) (service : use) : Token.Issuer :=
  match service with AgentProof => AgentIssuer cfg | _ => VoiceIssuer cfg end.
Definition audience_of (service : use) : string :=
  match service with AgentProof => Token.AgentAudience | _ => Token.VoiceAudience end.

(** What [authorizeAndIssue] calls under the lock of the registry. *)
Definition make_token (cfg : Config) (service : use) (now : Time) (random : option bytes)
    (deviceID : string) (owner : DeviceClaim.Ownership) (entitlementUntil : option Time) :
    result Token.error (string * Token.Claims) :=
  match entitlementUntil with
  | None =>
      Token.IssueOwned (issuer_of cfg service) now random deviceID
        (DeviceClaim.OwnerID owner) (DeviceClaim.TenantID owner)
        (DeviceClaim.BindingID owner) (DeviceClaim.BindingRevision owner)
  | Some until =>
      Token.IssueOwnedUntil (issuer_of cfg service) now random deviceID
        (DeviceClaim.OwnerID owner) (DeviceClaim.TenantID owner)
        (DeviceClaim.BindingID owner) (DeviceClaim.BindingRevision owner) until
  end.

(** The token is made while the registry [v] is locked. *)
Definition issue_step (cfg : Config) (r : nat) (t : task) (v : Provisioning.View) (now : Time)
    (random : option bytes) (s : Server) : option Server :=
  match t with
  | IssueReady service deviceID owner until =>
      Some (
        IF negb (Provisioning.DeviceAllowed v deviceID)
          RETURN fail_with r (rejectProof Provisioning.ErrUnauthorized) s ;;
        match make_token cfg service now random deviceID owner until with
        | Err _ => fail_with r 500 s
        | Ok (token, claims) =>
            IF negb (bool_decide (Token.Audience claims = audience_of service))
              RETURN fail_with r 500 s ;;
            put r (Answered (TokenIssued service deviceID token claims)) s
        end)
  | _ => None
  end.

(** What an offer reads on its way: the answers of the generation gate, the clock of the
    selection, and the clock and random source of the issuer. *)
Record offer_env : Type := {
  gate_before : bool;
  gate_selected : bool;
  gate_issued : bool;
  select_now : Time;
  issue_now : Time;
  issue_random : option bytes;
}.

Definition issueOTAOffer (cfg : Config) (r : nat) (request : Request) (e : proof_env)
    (oe : offer_env) (s : Server) : Server :=
  IF negb (gate_before oe) RETURN fail_with r 503 s ;;
  let '(v, result) := Provisioning.Authorize (proofs s OTAProof) (views e) (coordinator e)
                        (proof_now e) request in
  let s := set_proof OTAProof v s in
  match result with
  | Err e => fail_with r (rejectProof e) s
  | Ok deviceID =>
      match singleHeader request "X-OTA-Board", singleHeader request "X-OTA-Channel",
            singleHeader request "X-OTA-Release-Sequence" with
      | Some board, Some channel, Some sequenceText =>
          match ParseUint (bytes_of sequenceText) 31 with
          | None => fail_with r 400 s
          | Some sequence =>
              IF sequence =? 0 RETURN fail_with r 400 s ;;
              let '(release, status, retry) :=
                Ota.Select (OTARegistry cfg) deviceID board channel sequence (select_now oe)
                  (OTARolloutKey cfg) in
              IF negb (gate_selected oe) RETURN fail_with r 503 s ;;
              match status, release with
              | Ota.OfferAvailable, Some release =>
                  match Token.IssueForRelease (OTAIssuer cfg) (issue_now oe) (issue_random oe)
                          deviceID (Ota.ReleaseID (Ota.doc release))
                          (Ota.ImageSHA256 (Ota.doc release)) with
                  | Err _ => fail_with r 500 s
                  | Ok (token, claims) =>
                      IF negb (bool_decide (Token.Audience claims = Token.OTAAudience))
                         || negb (bool_decide (Token.ReleaseID claims =
                                               Ota.ReleaseID (Ota.doc release)))
                         || negb (bool_decide (Token.ImageSHA256 claims =
                                               Ota.ImageSHA256 (Ota.doc release)))
                        RETURN fail_with r 500 s ;;
                      IF negb (gate_issued oe) RETURN fail_with r 503 s ;;
                      put r (Answered (Offer deviceID release token
                                         (Token.Expires claims -i Token.IssuedAt claims))) s
                  end
              | _, _ => put r (Answered (OfferLater deviceID status retry)) s
              end
          end
      | _, _, _ => fail_with r 400 s
      end
  end.

(** *** The owner *)

(** [Ownership.Owner], or a failure of the database. *)
Definition lookup_owner (up : bool) (deviceID : string) (s : Server) :
    option (option DeviceClaim.Ownership) :=
  IF negb up RETURN None ;;
  match DeviceClaim.Owner (ClaimStore s) deviceID with Ok o => Some o | Err _ => None end.

Definition owned_by (o : DeviceClaim.Ownership) (claims : Token.Claims) : bool :=
  bool_decide (DeviceClaim.OwnerID o = Token.Subject claims)
  && bool_decide (DeviceClaim.TenantID o = Token.TenantID claims).

(** The arguments that the handlers build for the consent store. *)
Definition challenge_of (deviceID : string) (input : actionConsentDeviceChallengeRequest)
    (owner : DeviceClaim.Ownership) : ActionConsent.Challenge :=
  {| ActionConsent.ChallengeID := c_ChallengeID input;
     ActionConsent.DeviceID := deviceID;
     ActionConsent.OwnerID := DeviceClaim.OwnerID owner;
     ActionConsent.TenantID := DeviceClaim.TenantID owner;
     ActionConsent.OwnerRevision := DeviceClaim.BindingRevision owner;
     ActionConsent.SessionID := c_SessionID input;
     ActionConsent.RequestID := c_RequestID input;
     ActionConsent.ChallengeAction := {| ActionConsent.IndicatorOn := c_IndicatorOn input |};
     ActionConsent.ExpiresAt := from_unix (c_ExpiresAtUnix input) |}.

Definition device_request (deviceID : string) (input : actionConsentDeviceResultRequest) :
    ActionConsent.DeviceRequest :=
  {| ActionConsent.d_ChallengeID := r_ChallengeID input;
     ActionConsent.d_DeviceID := deviceID;
     ActionConsent.d_OwnerRevision := r_OwnerRevision input;
     ActionConsent.d_SessionID := r_SessionID input;
     ActionConsent.d_RequestID := r_RequestID input;
     ActionConsent.d_Action := {| ActionConsent.IndicatorOn := r_IndicatorOn input |} |}.

Definition actor_of (claims : Token.Claims) (deviceID : string) (owner : DeviceClaim.Ownership) :
    ActionConsent.Actor :=
  {| ActionConsent.a_OwnerID := Token.Subject claims;
     ActionConsent.a_TenantID := Token.TenantID claims;
     ActionConsent.a_DeviceID := deviceID;
     ActionConsent.a_OwnerRevision := DeviceClaim.BindingRevision owner |}.

Definition answer_of (deviceID challengeID : string) (decision : actionConsentDecisionRequest) :
    ActionConsent.Request :=
  {| ActionConsent.q_ChallengeID := challengeID;
     ActionConsent.q_DeviceID := deviceID;
     ActionConsent.q_OwnerRevision := d_OwnerRevision decision;
     ActionConsent.q_SessionID := d_SessionID decision;
     ActionConsent.q_RequestID := d_RequestID decision;
     ActionConsent.q_Action := {| ActionConsent.IndicatorOn := d_IndicatorOn decision |};
     ActionConsent.q_Decision := d_Decision decision |}.

(** The second half of [registerDeviceActionConsent] up to the store. *)
Definition register_owner (r : nat) (deviceID : string)
    (input : actionConsentDeviceChallengeRequest) (up : bool) (now : Time) (s : Server) : Server :=
  match lookup_owner up deviceID s with
  | None => consent_error r ActionConsent.ErrUnavailable s
  | Some None => consent_error r ActionConsent.ErrNotFound s
  | Some (Some owner) =>
      let c := challenge_of deviceID input owner in
      IF negb (ActionConsent.ValidChallenge c now)
        RETURN consent_error r ActionConsent.ErrInvalid s ;;
      put r (RegisterReady c now) s
  end.

Definition consume_owner (r : nat) (deviceID : string)
    (input : actionConsentDeviceResultRequest) (up : bool) (s : Server) : Server :=
  match lookup_owner up deviceID s with
  | None => consent_error r ActionConsent.ErrUnavailable s
  | Some None => consent_error r ActionConsent.ErrConflict s
  | Some (Some owner) =>
      IF negb (DeviceClaim.BindingRevision owner =? r_OwnerRevision input)
        RETURN consent_error r ActionConsent.ErrConflict s ;;
      put r (ConsumeReady (device_request deviceID input)) s
  end.

Definition decide_owner (r : nat) (claims : Token.Claims) (deviceID challengeID : string)
    (decision : actionConsentDecisionRequest) (up : bool) (s : Server) : Server :=
  match lookup_owner up deviceID s with
  | None => consent_error r ActionConsent.ErrUnavailable s
  | Some None => consent_error r ActionConsent.ErrNotFound s
  | Some (Some owner) =>
      IF negb (owned_by owner claims)
         || negb (DeviceClaim.BindingRevision owner =? d_OwnerRevision decision)
        RETURN consent_error r ActionConsent.ErrNotFound s ;;
      put r (DecideReady (actor_of claims deviceID owner)
               (answer_of deviceID challengeID decision)) s
  end.

Definition pending_owner (r : nat) (claims : Token.Claims) (deviceID : string) (up : bool)
    (s : Server) : Server :=
  match lookup_owner up deviceID s with
  | None => consent_error r ActionConsent.ErrUnavailable s
  | Some None => consent_error r ActionConsent.ErrNotFound s
  | Some (Some owner) =>
      IF negb (owned_by owner claims) RETURN consent_error r ActionConsent.ErrNotFound s ;;
      put r (ReadReady (actor_of claims deviceID owner)) s
  end.

Definition issue_owner (cfg : Config) (r : nat) (service : use) (deviceID : string) (up : bool)
    (s : Server) : Server :=
  match lookup_owner up deviceID s with
  | None => fail_with r 503 s
  | Some None => fail_with r 403 s
  | Some (Some owner) =>
      if Entitlements cfg then put r (Entitling service deviceID owner) s
      else put r (IssueReady service deviceID owner None) s
  end.

(** The second step of the handlers that need the owner. *)
Definition owner_step (cfg : Config) (r : nat) (t : task) (up : bool) (now : Time) (s : Server) :
    option Server :=
  match t with
  | Registering deviceID input => Some (register_owner r deviceID input up now s)
  | Consuming deviceID input => Some (consume_owner r deviceID input up s)
  | Deciding claims deviceID challengeID decision =>
      Some (decide_owner r claims deviceID challengeID decision up s)
  | Reading claims deviceID => Some (pending_owner r claims deviceID up s)
  | Issuing service deviceID => Some (issue_owner cfg r service deviceID up s)
  | _ => None
  end.

(** *** The stores *)

Definition expires_in (record : DeviceClaim.Record_) (now : Time) : Z :=
  Z.max 0 (Unix (DeviceClaim.ExpiresAt record) -i Unix now).

Definition register_store (r : nat) (c : ActionConsent.Challenge) (now : Time) (s : Server) :
    Server :=
  let '(st, result) := ActionConsent.Register (ActionConsents s) c now in
  let s := set_consents st s in
  match result with
  | Err e => consent_error r e s
  | Ok _ => put r (Answered (Registered c)) s
  end.

Definition consume_store (r : nat) (q : ActionConsent.DeviceRequest) (now : Time) (s : Server) :
    Server :=
  let '(st, result) := ActionConsent.Consume (ActionConsents s) q now in
  let s := set_consents st s in
  match result with
  | Err ActionConsent.ErrPending =>
      put r (Answered (AwaitingDecision (ActionConsent.d_ChallengeID q))) s
  | Err e => consent_error r e s
  | Ok record =>
      put r (Answered (Delivered (ActionConsent.d_ChallengeID q)
                         (ActionConsent.decision record))) s
  end.

Definition decide_store (r : nat) (actor : ActionConsent.Actor) (q : ActionConsent.Request)
    (now : Time) (s : Server) : Server :=
  let '(st, result) := ActionConsent.Decide (ActionConsents s) actor q now in
  let s := set_consents st s in
  match result with
  | Err e => consent_error r e s
  | Ok _ => put r (Answered (Decided (ActionConsent.q_ChallengeID q))) s
  end.

Definition pending_store (r : nat) (actor : ActionConsent.Actor) (now : Time) (s : Server) :
    Server :=
  match ActionConsent.Pending (ActionConsents s) actor now with
  | Err e => consent_error r e s
  | Ok found => put r (Answered (Inbox (ActionConsent.challenge <$> found))) s
  end.

(** [draw] is the random source of the claim store. *)
Definition begin_store (r : nat) (userID tenantID deviceID code appNonce : string)
    (draw : DeviceClaim.source) (now : Time) (s : Server) : Server :=
  let '(st, result) :=
    DeviceClaim.Begin draw (ClaimStore s) userID tenantID deviceID code appNonce now in
  let s := set_claims st s in
  match result with
  | Err e => fail_with r (rejectClaim e) s
  | Ok record => put r (Answered (ClaimAnswer record (expires_in record now))) s
  end.

Definition confirm_store (r : nat) (deviceID code : string) (draw : DeviceClaim.source)
    (now : Time) (s : Server) : Server :=
  let '(st, result) := DeviceClaim.Confirm draw (ClaimStore s) deviceID code now in
  let s := set_claims st s in
  match result with
  | Err e => fail_with r (rejectClaim e) s
  | Ok record => put r (Answered (ClaimBound record)) s
  end.

Definition status_store (r : nat) (userID tenantID requestID : string) (now : Time)
    (s : Server) : Server :=
  let '(st, result) := DeviceClaim.Lookup (ClaimStore s) userID tenantID requestID now in
  let s := set_claims st s in
  match result with
  | Err e => fail_with r (rejectClaim e) s
  | Ok record => put r (Answered (ClaimAnswer record (expires_in record now))) s
  end.

Definition release_store (r : nat) (userID tenantID deviceID : string) (now : Time)
    (s : Server) : Server :=
  let '(st, result) := DeviceClaim.Release (ClaimStore s) userID tenantID deviceID now in
  let s := set_claims st s in
  match result with
  | Err e => fail_with r (rejectClaim e) s
  | Ok o => put r (Answered (OwnershipReleased deviceID (DeviceClaim.BindingRevision o))) s
  end.

(** The last step: the call of the store and the answer. *)
Definition store_step (r : nat) (t : task) (draw : DeviceClaim.source) (now : Time)
    (s : Server) : option Server :=
  match t with
  | RegisterReady c checked => Some (register_store r c checked s)
  | ConsumeReady q => Some (consume_store r q now s)
  | DecideReady actor q => Some (decide_store r actor q now s)
  | ReadReady actor => Some (pending_store r actor now s)
  | BeginReady userID tenantID deviceID code appNonce =>
      Some (begin_store r userID tenantID deviceID code appNonce draw now s)
  | ConfirmReady deviceID code => Some (confirm_store r deviceID code draw now s)
  | StatusReady userID tenantID requestID =>
      Some (status_store r userID tenantID requestID now s)
  | ReleaseReady userID tenantID deviceID =>
      Some (release_store r userID tenantID deviceID now s)
  | _ => None
  end.

(** ** Construction and readiness *)

(** Which members of the configuration are set. [keyLength] is the length
    of the rollout key. *)
Record Parts : Type := {
  has_SessionProof : bool;
  has_AgentProof : bool;
  has_VoiceIssuer : bool;
  has_AgentIssuer : bool;
  has_Ownership : bool;
  PublicDeviceWSS : string;
  RequireServiceEntitlement : bool;
  has_ServiceEntitlements : bool;
  has_OTAProof : bool;
  has_OTARegistry : bool;
  has_OTAIssuer : bool;
  keyLength : Z;
  has_GenerationGate : bool;
  has_ClaimProof : bool;
  has_ClaimStore : bool;
  AppVerifier : option bool; (* does it accept companion tokens? *)
  has_CompanionStatus : bool;
  has_ActionConsents : bool;
  has_ActionConsentChallengeProof : bool;
  has_ActionConsentResultProof : bool;
}.

Definition count_set (parts : list bool) : Z := Z.of_nat (length (List.filter id parts)).

(** The groups of optional routes that the new server serves. *)
Record Routes : Type := {
  serves_ota : bool;
  serves_claims : bool;
  serves_consents : bool;
}.

Definition New (config : Parts) : option Routes :=
  let has_Ownership := has_Ownership config || has_ClaimStore config in
  IF negb (has_SessionProof config) || negb (has_AgentProof config)
     || negb (has_VoiceIssuer config) || negb (has_AgentIssuer config)
     || negb has_Ownership || bool_decide (PublicDeviceWSS config = "") RETURN None ;;
  IF RequireServiceEntitlement config && negb (has_ServiceEntitlements config) RETURN None ;;
  let companion := bool_decide (AppVerifier config = Some true) in
  let otaParts := count_set [has_OTAProof config; has_OTARegistry config; has_OTAIssuer config;
                             negb (keyLength config =? 0); has_GenerationGate config] in
  IF negb (otaParts =? 0) && (negb (otaParts =? 5) || (keyLength config <? 32)) RETURN None ;;
  let claimParts := count_set [has_ClaimProof config; has_ClaimStore config] in
  IF negb (claimParts =? 0) && (negb (claimParts =? 2) || negb companion) RETURN None ;;
  IF has_CompanionStatus config && negb companion RETURN None ;;
  let actionConsentParts := count_set [has_ActionConsents config;
    has_ActionConsentChallengeProof config; has_ActionConsentResultProof config] in
  IF negb (actionConsentParts =? 0) && (negb (actionConsentParts =? 3) || negb companion)
    RETURN None ;;
  Some {| serves_ota := otaParts =? 5; serves_claims := claimParts =? 2;
          serves_consents := actionConsentParts =? 3 |}.

(** A probe of a dependency that may be missing. *)
Definition passes (probe : option bool) : bool :=
  match probe with Some ok => ok | None => true end.

(** [ready]: the registries of the proofs, in the order of [Config], then the schemas of
    the runtime coordinator, the ownership store and the consent store, then the gate. *)
Definition ready (registries : list (option bool))
    (coordinator ownership consents gate : option bool) : Z :=
  IF negb (forallb passes registries) RETURN 503 ;;
  IF negb (passes coordinator) RETURN 503 ;;
  IF negb (passes ownership) RETURN 503 ;;
  IF negb (passes consents) RETURN 503 ;;
  IF negb (passes gate) RETURN 503 ;;
  200.

(** ** Runs *)

(** Requests arrive, handlers move on, and the notifier uses the outbox of the
    consents ([AOutbox]). *)
Inductive action : Type :=
| AChallenge (r : nat) (request : Request) (read : option bytes) (e : proof_env)
| AResult (r : nat) (request : Request) (read : option bytes) (e : proof_env)
| ADecision (app : companion) (r : nat) (request : Request) (deviceID challengeID : string)
    (read : option bytes)
| APending (app : companion) (r : nat) (request : Request) (deviceID : string)
| ABegin (app : companion) (r : nat) (request : Request)
| AConfirm (r : nat) (request : Request) (e : proof_env)
| AStatus (app : companion) (r : nat) (request : Request)
| ARelease (app : companion) (r : nat) (request : Request)
| ATime (r : nat) (request : Request) (v : Provisioning.View) (now : Time)
| AVoice (r : nat) (request : Request) (e : proof_env)
| AAgent (r : nat) (request : Request) (e : proof_env)
| AOffer (r : nat) (request : Request) (e : proof_env) (oe : offer_env)
| AEntitle (r : nat) (AuthorizeService : authorizer) (now : Time)
| AIssue (r : nat) (v : Provisioning.View) (now : Time) (random : option bytes)
| AOwner (r : nat) (up : bool) (now : Time)
| AStore (r : nat) (draw : DeviceClaim.source) (now : Time)
| AOutbox (o : ActionConsent.op).

Definition outbox (o : ActionConsent.op) : bool :=
  match o with
  | ActionConsent.OClaim _ _ _ | ActionConsent.OAcknowledge _ _ _
  | ActionConsent.ORetry _ _ _ _ => true
  | _ => false
  end.

(** The number of a request that arrives is new. *)
Definition arrive (r : nat) (s : Server) (s' : Server) : option Server :=
  match tasks s !! r with Some _ => None | None => Some s' end.

Definition step (cfg : Config) (s : Server) (a : action) : option Server :=
  match a with
  | AChallenge r request read e => arrive r s (registerDeviceActionConsent r request read e s)
  | AResult r request read e => arrive r s (consumeDeviceActionConsent r request read e s)
  | ADecision app r request d id read =>
      arrive r s (decideActionConsent app r request d id read s)
  | APending app r request d => arrive r s (pendingActionConsent app r request d s)
  | ABegin app r request => arrive r s (beginDeviceClaim app r request s)
  | AConfirm r request e => arrive r s (confirmDeviceClaim r request e s)
  | AStatus app r request => arrive r s (deviceClaimStatus app r request s)
  | ARelease app r request => arrive r s (releaseOwnership app r request s)
  | ATime r request v now => arrive r s (issueTime r request v now s)
  | AVoice r request e => arrive r s (issueVoice r request e s)
  | AAgent r request e => arrive r s (issueAgent r request e s)
  | AOffer r request e oe => arrive r s (issueOTAOffer cfg r request e oe s)
  | AEntitle r AuthorizeService now =>
      match tasks s !! r with Some t => entitle_step r t AuthorizeService now s | None => None end
  | AIssue r v now random =>
      match tasks s !! r with Some t => issue_step cfg r t v now random s | None => None end
  | AOwner r up now =>
      match tasks s !! r with Some t => owner_step cfg r t up now s | None => None end
  | AStore r draw now =>
      match tasks s !! r with Some t => store_step r t draw now s | None => None end
  | AOutbox o =>
      IF negb (outbox o) RETURN None ;;
      Some (set_consents (ActionConsent.exec (ActionConsents s) o).1 s)
  end.

Fixpoint run (cfg : Config) (s : Server) (acts : list action) : option Server :=
  match acts with
  | [] => Some s
  | a :: acts => match step cfg s a with Some s => run cfg s acts | None => None end
  end.

End handlers.

End ControlPlane.
