(* ===== verification/ControlTheorems.v ===== *)
(** * ControlTheorems: what the answers of the control plane prove

    Each theorem says of an answer in any interleaving of the handlers of
    [ControlPlane] which requests must have come before it, who authenticated them and
    what the owner of the device was when the handlers looked. The invariant ties every
    task and every operation in the histories of the two stores to the request it comes
    from. *)

From stdpp Require Import base gmap strings list functions.
From Stdlib Require Import ZArith Lia.
From Stdlib.Strings Require Import Byte.
From S2P Require Import Prelude GoBase GoCrypto Auth AccountAuth ActionConsent DeviceClaim.
From S2P Require Import Provisioning Ota ControlPlane.

Module ControlTheorems.
Import ControlPlane.

Create HintDb control.

Section theorems.
Context (JC : codec actionConsentDeviceChallengeRequest)
  (JR : codec actionConsentDeviceResultRequest) (JD : codec actionConsentDecisionRequest)
  (cfg : Config) (s0 : Server).

Abbreviation run := (run JC JR JD cfg).
Abbreviation step := (step JC JR JD cfg).

Implicit Types (s : Server) (acts : list action).

(** A new server: nothing is under way and the stores are new. *)
Definition fresh : Prop :=
  tasks s0 = ∅ ∧ (∀ u, Provisioning.scope (proofs s0 u) = use_scope u) ∧
  ActionConsent.reach (ActionConsents s0) [] ∧ DeviceClaim.reach (ClaimStore s0) [].

(** ** What a run contains *)

(** The verifier for [u] accepted the request as one of device [d]. *)
Definition proved (u : use) (request : Request) (body : bytes) (withBody : bool) (e : proof_env)
    (d : string) : Prop :=
  ∃ v v', Provisioning.scope v = use_scope u ∧
    Provisioning.authorize v (views e) (coordinator e) (proof_now e) request body withBody
      = (v', Ok d).

Definition challenge_sent acts (d : string) (input : actionConsentDeviceChallengeRequest) : Prop :=
  ∃ r request read e body, AChallenge r request read e ∈ acts ∧
    readCanonicalActionConsentBody JC request read = Some (input, body) ∧
    proved ActionConsentChallengeProof request body true e d.

Definition result_sent acts (d : string) (input : actionConsentDeviceResultRequest) : Prop :=
  ∃ r request read e body, AResult r request read e ∈ acts ∧
    readCanonicalActionConsentBody JR request read = Some (input, body) ∧
    proved ActionConsentResultProof request body true e d.

Definition decision_sent acts (claims : Token.Claims) (d : string)
    (decision : actionConsentDecisionRequest) : Prop :=
  ∃ app r request read body, ADecision app r request d (d_ChallengeID decision) read ∈ acts ∧
    authorizeCompanion app request Token.CompanionConsentAction = Ok claims ∧
    Token.DeviceID claims = d ∧
    readCanonicalActionConsentBody JD request read = Some (decision, body).

Definition claim_sent acts (u t d code nonce : string) : Prop :=
  ∃ app r request claims, ABegin app r request ∈ acts ∧
    authorizeCompanion app request Token.CompanionClaimAction = Ok claims ∧
    Token.Subject claims = u ∧ Token.TenantID claims = t ∧
    singleHeader request "Device-Id" = Some d ∧
    singleHeader request "X-Device-Claim" = Some code ∧
    singleHeader request "X-App-Nonce" = Some nonce.

Definition claim_confirmed acts (d code : string) : Prop :=
  ∃ r request e, AConfirm r request e ∈ acts ∧ proved ClaimProof request [] false e d ∧
    singleHeader request "X-Device-Claim" = Some code.

Definition token_asked acts (service : use) (d : string) : Prop :=
  ∃ r request e, proved service request [] false e d ∧
    (service = SessionProof ∧ AVoice r request e ∈ acts ∨
     service = AgentProof ∧ AAgent r request e ∈ acts).

(** The handler with the task [t] found [o] to be the owner of [d]. *)
Definition looked_up acts (t : task) (d : string) (o : DeviceClaim.Ownership) : Prop :=
  ∃ pre r now post s, acts = pre ++ AOwner r true now :: post ∧ run s0 pre = Some s ∧
    tasks s !! r = Some t ∧ DeviceClaim.Owner (ClaimStore s) d = Ok (Some o).

(** ** Where the tasks and the operations of the stores come from *)

Definition registered acts (c : ActionConsent.Challenge) : Prop :=
  ∃ d input o, challenge_sent acts d input ∧ looked_up acts (Registering d input) d o ∧
    c = challenge_of d input o.

Definition decided acts (actor : ActionConsent.Actor) (q : ActionConsent.Request) : Prop :=
  ∃ claims d decision o, decision_sent acts claims d decision ∧
    looked_up acts (Deciding claims d (d_ChallengeID decision) decision) d o ∧
    owned_by o claims = true ∧ DeviceClaim.BindingRevision o = d_OwnerRevision decision ∧
    actor = actor_of claims d o ∧ q = answer_of d (d_ChallengeID decision) decision.

Definition asked acts (q : ActionConsent.DeviceRequest) : Prop :=
  ∃ d input o, result_sent acts d input ∧ looked_up acts (Consuming d input) d o ∧
    DeviceClaim.BindingRevision o = r_OwnerRevision input ∧ q = device_request d input.

(** The whole path of a consent: the device registers the challenge [id], the companion
    app of the owner answers it with [decision], the device collects the answer, for one
    session, request and action, and [o] owns the device at each of the three moments. *)
Definition consented acts (id decision : string) : Prop :=
  ∃ d input dec result claims o,
    challenge_sent acts d input ∧ looked_up acts (Registering d input) d o ∧
    decision_sent acts claims d dec ∧ looked_up acts (Deciding claims d id dec) d o ∧
    result_sent acts d result ∧ looked_up acts (Consuming d result) d o ∧
    DeviceClaim.OwnerID o = Token.Subject claims ∧
    DeviceClaim.TenantID o = Token.TenantID claims ∧
    c_ChallengeID input = id ∧ d_ChallengeID dec = id ∧ r_ChallengeID result = id ∧
    d_Decision dec = decision ∧
    c_SessionID input = d_SessionID dec ∧ c_SessionID input = r_SessionID result ∧
    c_RequestID input = d_RequestID dec ∧ c_RequestID input = r_RequestID result ∧
    c_IndicatorOn input = d_IndicatorOn dec ∧ c_IndicatorOn input = r_IndicatorOn result.

(** [until] is the end of the entitlement that the account service granted when it was
    asked for the account of [o] and for this very service. *)
Definition entitled acts (service : use) (d : string) (o : DeviceClaim.Ownership)
    (until : option Time) : Prop :=
  if Entitlements cfg then
    ∃ pre r (authorize : authorizer) product grant now post s,
      acts = pre ++ AEntitle r authorize now :: post ∧
      run s0 pre = Some s ∧ tasks s !! r = Some (Entitling service d o) ∧
      authorize {| AccountAuth.p_TenantID := DeviceClaim.TenantID o;
                   AccountAuth.p_Subject := DeviceClaim.OwnerID o |} product = Some (Some grant) ∧
      (service = SessionProof → product = AccountAuth.ProductServiceVoice) ∧
      (service = AgentProof → product = AccountAuth.ProductServiceAgent) ∧
      grant_ok grant now = true ∧ until = Some (AccountAuth.gr_ValidUntil grant)
  else until = None.

(** A token of [o] for the service, made while the registry allowed the device. *)
Definition token_made acts (service : use) (d token : string) (claims : Token.Claims)
    (o : DeviceClaim.Ownership) (until : option Time) : Prop :=
  ∃ pre r v now random post s, acts = pre ++ AIssue r v now random :: post ∧
    run s0 pre = Some s ∧ tasks s !! r = Some (IssueReady service d o until) ∧
    Provisioning.DeviceAllowed v d = true ∧ Token.Audience claims = audience_of service ∧
    make_token cfg service now random d o until = Ok (token, claims).

Definition issued acts (service : use) (d token : string) (claims : Token.Claims) : Prop :=
  ∃ o until, token_asked acts service d ∧ looked_up acts (Issuing service d) d o ∧
    entitled acts service d o until ∧ token_made acts service d token claims o until.

Definition origin acts (t : task) : Prop :=
  match t with
  | Registering d input => challenge_sent acts d input
  | RegisterReady c _ => registered acts c
  | Consuming d input => result_sent acts d input
  | ConsumeReady q => asked acts q
  | Deciding claims d id decision =>
      d_ChallengeID decision = id ∧ decision_sent acts claims d decision
  | DecideReady actor q => decided acts actor q
  | BeginReady u t d code nonce => claim_sent acts u t d code nonce
  | ConfirmReady d code => claim_confirmed acts d code
  | Issuing service d => token_asked acts service d
  | Entitling service d o =>
      Entitlements cfg = true ∧ token_asked acts service d ∧
      looked_up acts (Issuing service d) d o
  | IssueReady service d o until =>
      token_asked acts service d ∧ looked_up acts (Issuing service d) d o ∧
      entitled acts service d o until
  | Answered (Delivered id decision) => consented acts id decision
  | Answered (TokenIssued service d token claims) => issued acts service d token claims
  | _ => True
  end.

Definition consent_op acts (o : ActionConsent.op) : Prop :=
  match o with
  | ActionConsent.ORegister c _ => registered acts c
  | ActionConsent.ODecide actor q _ => decided acts actor q
  | _ => True
  end.

Definition claim_op acts (o : DeviceClaim.op) : Prop :=
  match o with
  | DeviceClaim.OBegin _ u t d code nonce _ => claim_sent acts u t d code nonce
  | DeviceClaim.OConfirm _ d code _ => claim_confirmed acts d code
  | _ => True
  end.

(** The random source of the claim store delivers what it is asked for, or fails. *)
Definition source_ok (a : action) : Prop :=
  match a with AStore _ draw _ => DeviceClaim.reads_full draw | _ => True end.

Record inv acts s : Prop := {
  inv_scope u : Provisioning.scope (proofs s u) = use_scope u;
  inv_tasks r t : tasks s !! r = Some t → origin acts t;
  inv_consents : ∃ h, ActionConsent.reach (ActionConsents s) h ∧ Forall (consent_op acts) h;
  inv_claims : Forall source_ok acts →
    ∃ h, DeviceClaim.reach (ClaimStore s) h ∧ Forall (claim_op acts) h;
}.
(** ** Runs grow *)

Lemma run_app s acts acts' :
  run s (acts ++ acts') = match run s acts with Some s' => run s' acts' | None => None end.
Proof.
  revert s. induction acts as [|a acts IH]; intros s; [done|]. cbn.
  by destruct (step s a) as [s'|].
Qed.

Lemma run_ind (P : list action → Server → Prop) :
  P [] s0 →
  (∀ acts a s s', run s0 acts = Some s → P acts s → step s a = Some s' → P (acts ++ [a]) s') →
  ∀ acts s, run s0 acts = Some s → P acts s.
Proof.
  intros H0 HS. induction acts as [|a acts IH] using rev_ind; intros s; [by intros [= <-]|].
  rewrite run_app. destruct (run s0 acts) as [s1|] eqn:E; [|done]. cbn.
  destruct (step s1 a) as [s2|] eqn:Es; [|done]. intros [= <-]. by eapply HS; [..|apply Es]; auto.
Qed.

Lemma elem_of_snoc {A} (x y : A) l : x ∈ l → x ∈ l ++ [y].
Proof. set_solver. Qed.

Lemma looked_up_snoc acts a t d o : looked_up acts t d o → looked_up (acts ++ [a]) t d o.
Proof.
  intros (pre & r & now & post & s & -> & H). exists pre, r, now, (post ++ [a]), s.
  split; [|done]. by rewrite <- app_assoc.
Qed.

Lemma challenge_sent_snoc acts a d i : challenge_sent acts d i → challenge_sent (acts ++ [a]) d i.
Proof. unfold challenge_sent. intros (?&?&?&?&?&?&?). eauto 10 using elem_of_snoc. Qed.
Lemma result_sent_snoc acts a d i : result_sent acts d i → result_sent (acts ++ [a]) d i.
Proof. unfold result_sent. intros (?&?&?&?&?&?&?). eauto 10 using elem_of_snoc. Qed.
Lemma decision_sent_snoc acts a c d i : decision_sent acts c d i → decision_sent (acts ++ [a]) c d i.
Proof. unfold decision_sent. intros (?&?&?&?&?&?&?). eauto 10 using elem_of_snoc. Qed.
Lemma claim_sent_snoc acts a u t d c n : claim_sent acts u t d c n → claim_sent (acts ++ [a]) u t d c n.
Proof. unfold claim_sent. intros (?&?&?&?&?&?). eauto 10 using elem_of_snoc. Qed.
Lemma claim_confirmed_snoc acts a d c : claim_confirmed acts d c → claim_confirmed (acts ++ [a]) d c.
Proof. unfold claim_confirmed. intros (?&?&?&?&?). eauto 10 using elem_of_snoc. Qed.
Lemma token_asked_snoc acts a u d : token_asked acts u d → token_asked (acts ++ [a]) u d.
Proof.
  unfold token_asked. intros (r&q&e&?&[[? ?]|[? ?]]); exists r, q, e; eauto 10 using elem_of_snoc.
Qed.

#[local] Hint Resolve looked_up_snoc challenge_sent_snoc result_sent_snoc decision_sent_snoc
  claim_sent_snoc claim_confirmed_snoc token_asked_snoc : control.

Lemma registered_snoc acts a c : registered acts c → registered (acts ++ [a]) c.
Proof. unfold registered. intros (?&?&?&?&?&?). eauto 10 with control. Qed.
Lemma decided_snoc acts a c q : decided acts c q → decided (acts ++ [a]) c q.
Proof. unfold decided. intros (?&?&?&?&?&?&?). eauto 12 with control. Qed.
Lemma asked_snoc acts a q : asked acts q → asked (acts ++ [a]) q.
Proof. unfold asked. intros (?&?&?&?&?&?). eauto 10 with control. Qed.
Lemma consented_snoc acts a i d : consented acts i d → consented (acts ++ [a]) i d.
Proof.
  intros (d0&i0&dec&result&claims&o&?&?&?&?&?&?&?). exists d0, i0, dec, result, claims, o.
  split_and!; try (by auto with control); tauto.
Qed.

Lemma entitled_snoc acts a u d o t : entitled acts u d o t → entitled (acts ++ [a]) u d o t.
Proof.
  unfold entitled. destruct (Entitlements cfg); [|done].
  intros (pre & r & f & product & g & now & post & s & -> & H).
  exists pre, r, f, product, g, now, (post ++ [a]), s.
  split; [|done]. by rewrite <- app_assoc.
Qed.
Lemma token_made_snoc acts a u d k c o t :
  token_made acts u d k c o t → token_made (acts ++ [a]) u d k c o t.
Proof.
  intros (pre & r & v & now & rnd & post & s & -> & H).
  exists pre, r, v, now, rnd, (post ++ [a]), s. split; [|done]. by rewrite <- app_assoc.
Qed.

#[local] Hint Resolve registered_snoc decided_snoc asked_snoc consented_snoc entitled_snoc
  token_made_snoc : control.

Lemma origin_snoc acts a t : origin acts t → origin (acts ++ [a]) t.
Proof.
  destruct t as [ | | | | | | | | | | | | | | |[] ]; cbn; try tauto; try (by auto with control);
    unfold issued; naive_solver eauto 8 with control.
Qed.

Lemma inv_snoc acts a s : inv acts s → inv (acts ++ [a]) s.
Proof.
  intros [Hsc Ht Hc Hk]. split; [done|..].
  - intros r t Hr. by eapply origin_snoc, Ht.
  - destruct Hc as (h & Hr & Hh). exists h. split; [done|]. eapply Forall_impl; [|exact Hh].
    intros o. destruct o; cbn; auto with control.
  - intros Hsrc. apply Forall_app in Hsrc as [Hsrc _]. destruct (Hk Hsrc) as (h & Hr & Hh).
    exists h. split; [done|]. eapply Forall_impl; [|exact Hh].
    intros o. destruct o; cbn; auto with control.
Qed.

(** ** The parts of a step keep the invariant *)

Lemma inv_put acts s r t : inv acts s → origin acts t → inv acts (put r t s).
Proof.
  intros [Hsc Ht Hc Hk] Ho. split; [done| |done|done].
  cbn. intros r' t' [[<- <-]|[_ ?]]%lookup_insert_Some; [done|by eapply Ht].
Qed.

Lemma inv_proof acts s u v :
  inv acts s → Provisioning.scope v = use_scope u → inv acts (set_proof u v s).
Proof.
  intros [Hsc Ht Hc Hk] Hv. split; [|done..]. intros u'. cbn.
  destruct (decide (u = u')) as [<-|Hne]; [by rewrite fn_lookup_insert|].
  by rewrite fn_lookup_insert_ne.
Qed.

Lemma inv_consent_op acts s o :
  inv acts s → consent_op acts o → inv acts (set_consents (ActionConsent.exec (ActionConsents s) o).1 s).
Proof.
  intros [Hsc Ht (h & Hr & Hh) Hk] Ho. split; [done|done| |done].
  destruct (ActionConsent.exec (ActionConsents s) o) as [st ok] eqn:E. cbn.
  exists (if ok then o :: h else h). split; [by eapply ActionConsent.reach_exec|].
  destruct ok; [by constructor|done].
Qed.

Lemma inv_claim_op acts s o :
  inv acts s → claim_op acts o → (Forall source_ok acts → DeviceClaim.op_source_ok o) →
  inv acts (set_claims (DeviceClaim.exec (ClaimStore s) o).1 s).
Proof.
  intros [Hsc Ht Hc Hk] Ho Hok. split; [done|done|done|]. intros Hsrc.
  destruct (Hk Hsrc) as (h & Hr & Hh).
  destruct (DeviceClaim.exec (ClaimStore s) o) as [st ok] eqn:E. cbn.
  exists (if ok then o :: h else h). split; [by eapply DeviceClaim.reach_exec; auto|].
  destruct ok; [by constructor|done].
Qed.

(** ** The handlers keep the invariant *)

(** A guard clause of the handler whose result the goal is about. *)
Ltac clause H :=
  lazymatch goal with
  | |- inv _ (if ?b then _ else _) => destruct b eqn:H; [by auto with control|]
  end.

#[local] Hint Resolve inv_put : control.

Lemma inv_fail acts s r status : inv acts s → inv acts (fail_with r status s).
Proof. intros H. by apply inv_put. Qed.
Lemma inv_consent_error acts s r e : inv acts s → inv acts (consent_error r e s).
Proof. intros H. by apply inv_put. Qed.
#[local] Hint Resolve inv_fail inv_consent_error : control.

Lemma authorize_scope v reg co now q body wb v' result :
  Provisioning.authorize v reg co now q body wb = (v', result) →
  Provisioning.scope v' = Provisioning.scope v.
Proof.
  intros E. pose proof (Provisioning.authorize_config v reg co now q body wb) as H.
  rewrite E in H. cbn in H. tauto.
Qed.

(** A proof that is checked leaves the invariant, and names a device only if it was
    accepted. *)
Lemma inv_authorized acts s u e request body wb v result :
  inv acts s →
  Provisioning.authorize (proofs s u) (views e) (coordinator e) (proof_now e) request body wb
    = (v, result) →
  inv acts (set_proof u v s) ∧
  ∀ d, result = Ok d → proved u request body wb e d.
Proof.
  intros Hinv E. pose proof (inv_scope _ _ Hinv u) as Hu. split.
  - apply inv_proof; [done|]. rewrite <- Hu. by eapply authorize_scope.
  - intros d ->. exists (proofs s u), v. done.
Qed.

Lemma inv_register acts s r request read e :
  inv acts s → AChallenge r request read e ∈ acts →
  inv acts (registerDeviceActionConsent JC r request read e s).
Proof.
  intros Hinv Hin. unfold registerDeviceActionConsent.
  destruct (readCanonicalActionConsentBody _ _ _) as [ [input body] |] eqn:Hb; [|by auto with control].
  unfold Provisioning.AuthorizeBody. destruct (Provisioning.authorize _ _ _ _ _ _ _) as [v result] eqn:E.
  destruct (inv_authorized _ _ _ _ _ _ _ _ _ Hinv E) as [Hv Hp].
  destruct result as [d|]; [|by auto with control]. clause H1.
  apply inv_put; [done|]. exists r, request, read, e, body. auto.
Qed.

Lemma inv_consume acts s r request read e :
  inv acts s → AResult r request read e ∈ acts →
  inv acts (consumeDeviceActionConsent JR r request read e s).
Proof.
  intros Hinv Hin. unfold consumeDeviceActionConsent.
  destruct (readCanonicalActionConsentBody _ _ _) as [ [input body] |] eqn:Hb; [|by auto with control].
  unfold Provisioning.AuthorizeBody. destruct (Provisioning.authorize _ _ _ _ _ _ _) as [v result] eqn:E.
  destruct (inv_authorized _ _ _ _ _ _ _ _ _ Hinv E) as [Hv Hp].
  destruct result as [d|]; [|by auto with control]. clause H1.
  apply inv_put; [done|]. exists r, request, read, e, body. auto.
Qed.

Lemma inv_decide acts s app r request d id read :
  inv acts s → ADecision app r request d id read ∈ acts →
  inv acts (decideActionConsent JD app r request d id read s).
Proof.
  intros Hinv Hin. unfold decideActionConsent.
  destruct (authorizeCompanion _ _ _) as [claims|] eqn:Hc; [|by auto with control].
  clause H1. destruct (canonical_body _ _ _) as [ [dec body] |] eqn:Hb;
    [|by auto with control].
  clause H2. split_bools.
  apply inv_put; [done|]. cbn. split; [done|]. subst id.
  exists app, r, request, read, body. split_and!; try done.
  unfold readCanonicalActionConsentBody. by rewrite H1.
Qed.

Lemma inv_begin acts s app r request :
  inv acts s → ABegin app r request ∈ acts → inv acts (beginDeviceClaim app r request s).
Proof.
  intros Hinv Hin. unfold beginDeviceClaim.
  destruct (authorizeCompanion _ _ _) as [claims|] eqn:Hc; [|by auto with control].
  destruct (no_body _), (singleHeader request "Device-Id") eqn:H1,
    (singleHeader request "X-Device-Claim") eqn:H2, (singleHeader request "X-App-Nonce") eqn:H3;
    try by auto with control.
  apply inv_put; [done|]. exists app, r, request, claims. done.
Qed.

Lemma inv_confirm acts s r request e :
  inv acts s → AConfirm r request e ∈ acts → inv acts (confirmDeviceClaim r request e s).
Proof.
  intros Hinv Hin. unfold confirmDeviceClaim, Provisioning.Authorize.
  destruct (Provisioning.authorize _ _ _ _ _ _ _) as [v result] eqn:E.
  destruct (inv_authorized _ _ _ _ _ _ _ _ _ Hinv E) as [Hv Hp].
  destruct result as [d|]; [|by auto with control].
  destruct (singleHeader request "X-Device-Claim") eqn:H1; [|by auto with control].
  apply inv_put; [done|]. exists r, request, e. auto.
Qed.

(** The handlers whose tasks promise nothing. *)
Lemma inv_status acts s app r request :
  inv acts s → inv acts (deviceClaimStatus app r request s).
Proof. intros Hinv. unfold deviceClaimStatus. repeat case_match; auto with control. by apply inv_put. Qed.
Lemma inv_release acts s app r request :
  inv acts s → inv acts (releaseOwnership app r request s).
Proof. intros Hinv. unfold releaseOwnership. repeat case_match; auto with control. by apply inv_put. Qed.
Lemma inv_pending acts s app r request d :
  inv acts s → inv acts (pendingActionConsent app r request d s).
Proof. intros Hinv. unfold pendingActionConsent. repeat case_match; auto with control. by apply inv_put. Qed.
Lemma inv_time acts s r request v now : inv acts s → inv acts (issueTime r request v now s).
Proof. intros Hinv. unfold issueTime. repeat case_match; auto with control; by apply inv_put. Qed.

Lemma inv_offer acts s r request e oe : inv acts s → inv acts (issueOTAOffer cfg r request e oe s).
Proof.
  intros Hinv. unfold issueOTAOffer, Provisioning.Authorize. clause H1.
  destruct (Provisioning.authorize _ _ _ _ _ _ _) as [v result] eqn:E.
  destruct (inv_authorized _ _ _ _ _ _ _ _ _ Hinv E) as [Hv _].
  repeat case_match; auto with control; by apply inv_put.
Qed.

Lemma inv_issue acts s service r request e :
  inv acts s →
  (service = SessionProof ∧ AVoice r request e ∈ acts ∨
   service = AgentProof ∧ AAgent r request e ∈ acts) →
  inv acts (authorizeAndIssue service r request e s).
Proof.
  intros Hinv Hin. unfold authorizeAndIssue, Provisioning.Authorize.
  destruct (Provisioning.authorize _ _ _ _ _ _ _) as [v result] eqn:E.
  destruct (inv_authorized _ _ _ _ _ _ _ _ _ Hinv E) as [Hv Hp].
  destruct result as [d|]; [|by auto with control].
  apply inv_put; [done|]. exists r, request, e. auto.
Qed.

(** *** The claim store along a run *)

Lemma arrive_Some r s s' s'' : arrive r s s' = Some s'' → s'' = s' ∧ tasks s !! r = None.
Proof. unfold arrive. destruct (tasks s !! r); [done|]. by intros [= <-]. Qed.

(** No handler but the last steps of the claim handlers touches the claim store. *)
Lemma step_claims s a s' :
  step s a = Some s' → ∃ ops, ClaimStore s' = DeviceClaim.execs (ClaimStore s) ops.
Proof.
  intros Hstep. enough (ClaimStore s' = ClaimStore s ∨
    ∃ o, ClaimStore s' = (DeviceClaim.exec (ClaimStore s) o).1) as [-> | [o ->] ].
  { by exists []. }
  { by exists [o]. }
  destruct a; cbn in Hstep;
    try (apply arrive_Some in Hstep as [-> _]; left;
      unfold registerDeviceActionConsent, consumeDeviceActionConsent, decideActionConsent,
        pendingActionConsent, beginDeviceClaim, confirmDeviceClaim, deviceClaimStatus,
        releaseOwnership, issueTime, issueVoice, issueAgent, authorizeAndIssue, issueOTAOffer;
      repeat case_match; reflexivity).
  5: { case_match; [done|]. injection Hstep as <-. by left. }
  all: destruct (tasks s !! r) as [t|]; [|done]; destruct t; try discriminate Hstep;
    injection Hstep as <-.
  all: try (left; unfold register_owner, consume_owner, decide_owner, pending_owner, issue_owner,
    register_store, consume_store, decide_store, pending_store;
    repeat case_match; reflexivity).
  all: right; unfold begin_store, confirm_store, status_store, release_store.
  - exists (DeviceClaim.OBegin draw userID tenantID deviceID code appNonce now). cbn.
    destruct (DeviceClaim.Begin _ _ _ _ _ _ _ _); by repeat case_match.
  - exists (DeviceClaim.OConfirm draw deviceID code now). cbn.
    destruct (DeviceClaim.Confirm _ _ _ _ _); by repeat case_match.
  - exists (DeviceClaim.OLookup userID tenantID requestID now). cbn.
    destruct (DeviceClaim.Lookup _ _ _ _ _); by repeat case_match.
  - exists (DeviceClaim.ORelease userID tenantID deviceID now). cbn.
    destruct (DeviceClaim.Release _ _ _ _ _); by repeat case_match.
Qed.

Lemma run_claims s acts s' :
  run s acts = Some s' → ∃ ops, ClaimStore s' = DeviceClaim.execs (ClaimStore s) ops.
Proof.
  revert s. induction acts as [|a acts IH]; intros s; cbn; [intros [= <-]; by exists []|].
  destruct (step s a) as [s1|] eqn:E; [|done]. intros (ops' & ->)%IH.
  apply step_claims in E as (ops & ->). exists (ops ++ ops').
  unfold DeviceClaim.execs. by rewrite fold_left_app.
Qed.

Lemma owner_entry st d o :
  DeviceClaim.Owner st d = Ok (Some o) →
  DeviceClaim.owners st !! d = Some {| DeviceClaim.ownership := o; DeviceClaim.active := true |}.
Proof.
  unfold DeviceClaim.Owner. guard H1. destruct (DeviceClaim.owners st !! d) as [ [o' act] |]; [|done].
  cbn. by destruct act; intros [= ->].
Qed.

Lemma owner_later s acts s' d o o' :
  run s acts = Some s' →
  DeviceClaim.Owner (ClaimStore s) d = Ok (Some o) →
  DeviceClaim.Owner (ClaimStore s') d = Ok (Some o') →
  DeviceClaim.BindingRevision o = DeviceClaim.BindingRevision o' → o = o'.
Proof.
  intros (ops & E)%run_claims H1%owner_entry H2%owner_entry Hrev.
  destruct (DeviceClaim.execs_revision (ClaimStore s) ops d) as [_ H]. rewrite <- E in H.
  unfold DeviceClaim.revision in H. rewrite H1, H2 in H. cbn in H. specialize (H (eq_sym Hrev)).
  by injection H as ->.
Qed.

(** One binding revision, one owner: two handlers that saw the same revision saw the
    same owner. *)
Lemma same_owner acts t t' d o o' :
  looked_up acts t d o → looked_up acts t' d o' →
  DeviceClaim.BindingRevision o = DeviceClaim.BindingRevision o' → o = o'.
Proof.
  intros (pre & r & n & post & s & E & Hrun & _ & Ho)
    (pre' & r' & n' & post' & s' & E' & Hrun' & _ & Ho') Hrev.
  assert (pre `prefix_of` acts) as Hp by (by exists (AOwner r true n :: post)).
  assert (pre' `prefix_of` acts) as Hp' by (by exists (AOwner r' true n' :: post')).
  destruct (prefix_weak_total _ _ _ Hp Hp') as [ [k ->] | [k ->] ].
  - rewrite run_app, Hrun in Hrun'. by eapply owner_later.
  - rewrite run_app, Hrun' in Hrun. symmetry. exact (owner_later _ _ _ _ _ _ Hrun Ho' Ho (eq_sym Hrev)).
Qed.

(** *** Consents *)

Lemma those_in p id h o : ActionConsent.those p id h = [o] → List.In o h.
Proof.
  intros E. assert (List.In o (ActionConsent.those p id h)) as Hin by (rewrite E; by left).
  by apply List.filter_In in Hin as [Hin _].
Qed.

Lemma delivery_consented acts s q now st rec :
  inv acts s → asked acts q → ActionConsent.Consume (ActionConsents s) q now = (st, Ok rec) →
  consented acts (ActionConsent.d_ChallengeID q) (ActionConsent.decision rec).
Proof.
  intros Hinv (d & res & o3 & Hres & Hl3 & Hr3 & ->) Hc.
  destruct (inv_consents _ _ Hinv) as (h & Hreach & Hh). rewrite Forall_forall in Hh.
  destruct (ActionConsent.consume_needs_consent _ _ _ _ _ _ Hreach Hc) as
    (c & t0 & actor & answer & _ & Hreg & _ & Hdec & (Ha & Hid & Hd & _ & Hs & Hq & Hact & _)
     & -> & (Hask & _) & _).
  destruct (Hh _ (those_in _ _ _ _ Hreg)) as (d1 & input & o1 & Hin & Hl1 & ->).
  destruct (Hh _ (those_in _ _ _ _ Hdec)) as
    (claims & d2 & dec & o2 & Hsent & Hl2 & Hown & Hrev2 & -> & ->).
  cbn in *. injection Hask as E1 E2 E3 E4 E5 E6. injection Ha as A1 A2 A3 A4. subst d2. subst d1.
  injection Hact as Hact. rewrite E1, <- Hid in *.
  assert (o3 = o1) as -> by (eapply same_owner; [exact Hl3|exact Hl1|congruence]).
  assert (o2 = o1) as -> by (eapply same_owner; [exact Hl2|exact Hl1|congruence]).
  exists d, input, dec, res, claims, o1. unfold owned_by in Hown. split_bools.
  split_and!; congruence.
Qed.

(** *** Later steps *)

Lemma lookup_owner_Some up d s o :
  lookup_owner up d s = Some (Some o) →
  up = true ∧ DeviceClaim.Owner (ClaimStore s) d = Ok (Some o).
Proof.
  unfold lookup_owner. destruct up; [|done]. cbn.
  destruct (DeviceClaim.Owner _ _) as [ [o'|]|]; [|done..]. by intros [= ->].
Qed.

Lemma inv_owner acts s r t up now s' :
  run s0 acts = Some s → inv acts s → tasks s !! r = Some t →
  owner_step cfg r t up now s = Some s' → inv (acts ++ [AOwner r up now]) s'.
Proof.
  intros Hrun Hinv Ht Hstep. set (a := AOwner r up now).
  pose proof (origin_snoc _ a _ (inv_tasks _ _ Hinv r t Ht)) as Ho.
  apply (inv_snoc _ a) in Hinv.
  assert (∀ d o, lookup_owner up d s = Some (Some o) → looked_up (acts ++ [a]) t d o) as Hl.
  { intros d o [-> Hd]%lookup_owner_Some. by exists acts, r, now, [], s. }
  destruct t; try discriminate Hstep; injection Hstep as <-; cbn in Ho;
    unfold register_owner, consume_owner, decide_owner, pending_owner, issue_owner;
    destruct (lookup_owner _ _ _) as [ [o|]|] eqn:Elo; try (by auto with control);
    apply Hl in Elo; clear Hl.
  - clause H1. apply inv_put; [done|]. by exists deviceID, input, o.
  - clause H1. split_bools. apply inv_put; [done|]. by exists deviceID, input, o.
  - clause H1. split_bools. destruct Ho as [<- Ho]. apply inv_put; [done|].
    by exists claims, deviceID, decision, o.
  - clause H1. by apply inv_put.
  - destruct (Entitlements cfg) eqn:E; (apply inv_put; [done|]); cbn; [done|].
    unfold entitled. by rewrite E.
Qed.

Lemma inv_entitle acts s r t authorize now s' :
  run s0 acts = Some s → inv acts s → tasks s !! r = Some t →
  entitle_step r t authorize now s = Some s' → inv (acts ++ [AEntitle r authorize now]) s'.
Proof.
  intros Hrun Hinv Ht Hstep. set (a := AEntitle r authorize now).
  pose proof (origin_snoc _ a _ (inv_tasks _ _ Hinv r t Ht)) as Ho.
  apply (inv_snoc _ a) in Hinv.
  destruct t; cbn in Hstep; try discriminate; injection Hstep as <-.
  destruct (ask_entitlement _ _ _) as [ [grant|]|] eqn:Hans; try (by auto with control).
  clause H1. split_bools.
  destruct Ho as (He & Hask & Hl). apply inv_put; [done|]. cbn. split_and!; [done..|].
  unfold entitled. rewrite He. exists acts, r, authorize, (service_of service), grant, now, [], s.
  split_and!; try done; by intros ->.
Qed.

Lemma inv_made acts s r t v now random s' :
  run s0 acts = Some s → inv acts s → tasks s !! r = Some t →
  issue_step cfg r t v now random s = Some s' → inv (acts ++ [AIssue r v now random]) s'.
Proof.
  intros Hrun Hinv Ht Hstep. set (a := AIssue r v now random).
  pose proof (origin_snoc _ a _ (inv_tasks _ _ Hinv r t Ht)) as Ho.
  apply (inv_snoc _ a) in Hinv.
  destruct t as [| | | | | | | | | | | | | |service d o until|]; cbn in Hstep; try discriminate;
    injection Hstep as <-. clause H1. cbv zeta.
  destruct Ho as (Hask & Hl & Hent).
  destruct (make_token _ _ _ _ _ _ _) as [ [token claims] |] eqn:E; [|by auto with control].
  clause H2. split_bools. apply inv_put; [done|]. exists o, until. split_and!; [done..|].
  by exists acts, r, v, now, random, [], s.
Qed.

Lemma inv_delivered acts s r q st rec :
  inv acts (set_consents st s) →
  consented acts (ActionConsent.d_ChallengeID q) (ActionConsent.decision rec) →
  inv acts (put r (Answered (Delivered (ActionConsent.d_ChallengeID q)
                              (ActionConsent.decision rec))) (set_consents st s)).
Proof. intros H1 H2. by apply inv_put. Qed.

Lemma source_snoc acts r draw now :
  Forall source_ok (acts ++ [AStore r draw now]) → DeviceClaim.reads_full draw.
Proof. intros H. apply Forall_app in H as [_ H]. by inversion H. Qed.

Lemma inv_store acts s r t draw now s' :
  inv acts s → tasks s !! r = Some t →
  store_step r t draw now s = Some s' → inv (acts ++ [AStore r draw now]) s'.
Proof.
  intros Hinv Ht Hstep. set (a := AStore r draw now).
  pose proof (origin_snoc _ a _ (inv_tasks _ _ Hinv r t Ht)) as Ho.
  apply (inv_snoc _ a) in Hinv.
  pose proof (λ o, inv_consent_op _ _ o Hinv) as Hcon.
  pose proof (λ o, inv_claim_op _ _ o Hinv) as Hcl.
  destruct t; try discriminate Hstep; injection Hstep as <-; cbn in Ho;
    unfold register_store, consume_store, decide_store, pending_store, begin_store, confirm_store,
      status_store, release_store.
  - specialize (Hcon (ActionConsent.ORegister c now0) Ho). cbn in Hcon.
    destruct (ActionConsent.Register _ _ _) as [st [] ]; auto with control; by apply inv_put.
  - specialize (Hcon (ActionConsent.OConsume q now) I). cbn in Hcon.
    destruct (ActionConsent.Consume _ _ _) as [st res] eqn:E.
    destruct res as [rec|e].
    + apply inv_delivered; [done|]. exact (delivery_consented _ _ _ _ _ _ Hinv Ho E).
    + destruct e; auto with control; by apply inv_put.
  - specialize (Hcon (ActionConsent.ODecide actor q now) Ho). cbn in Hcon.
    destruct (ActionConsent.Decide _ _ _ _) as [st [] ]; auto with control; by apply inv_put.
  - destruct (ActionConsent.Pending _ _ _); auto with control; by apply inv_put.
  - specialize (Hcl (DeviceClaim.OBegin draw userID tenantID deviceID code appNonce now) Ho
      (source_snoc _ _ _ _)). cbn in Hcl.
    destruct (DeviceClaim.Begin _ _ _ _ _ _ _ _) as [st [] ]; auto with control; by apply inv_put.
  - specialize (Hcl (DeviceClaim.OConfirm draw deviceID code now) Ho (source_snoc _ _ _ _)).
    cbn in Hcl. destruct (DeviceClaim.Confirm _ _ _ _ _) as [st [] ]; auto with control; by apply inv_put.
  - specialize (Hcl (DeviceClaim.OLookup userID tenantID requestID now) I (λ _, I)). cbn in Hcl.
    destruct (DeviceClaim.Lookup _ _ _ _ _) as [st [] ]; auto with control; by apply inv_put.
  - specialize (Hcl (DeviceClaim.ORelease userID tenantID deviceID now) I (λ _, I)). cbn in Hcl.
    destruct (DeviceClaim.Release _ _ _ _ _) as [st [] ]; auto with control; by apply inv_put.
Qed.

#[local] Hint Resolve inv_register inv_consume inv_decide inv_begin inv_confirm inv_status
  inv_release inv_pending inv_time inv_offer inv_issue inv_snoc : control.

Lemma inv_step acts s a s' :
  run s0 acts = Some s → inv acts s → step s a = Some s' → inv (acts ++ [a]) s'.
Proof.
  intros Hrun Hinv Hstep. assert (a ∈ acts ++ [a]) as Ha by set_solver.
  destruct a; cbn in Hstep;
    try (apply arrive_Some in Hstep as [-> _]; unfold issueVoice, issueAgent; auto 6 with control).
  1-4: destruct (tasks s !! r) as [t|] eqn:Ht; [|done].
  - by eapply inv_entitle.
  - by eapply inv_made.
  - by eapply inv_owner.
  - by eapply inv_store.
  - case_match; [done|]. injection Hstep as <-. apply inv_consent_op; [auto with control|].
    by destruct o.
Qed.

Lemma run_inv acts s : fresh → run s0 acts = Some s → inv acts s.
Proof.
  intros (Ht & Hsc & Hc & Hk). revert acts s. apply run_ind; [|by eauto using inv_step].
  split; [done|by rewrite Ht|by exists []|intros _; by exists []].
Qed.

(** ** Theorems *)

(** C5: no action without its owner. When the control plane delivers a decision to a
    device, in whatever order the handlers ran, the device itself registered the
    challenge and asked for its result, with proofs over exactly the bodies that were
    read; the decision was sent by a companion app with a consent token for this device
    whose account and tenant own it; all three messages name the same challenge,
    session, request and action; and one and the same ownership, with its binding
    revision, was in force when each of the three handlers looked. So a release between
    any two of them, even with a new pairing, stops the delivery. *)
Theorem action_needs_owner_consent acts s r id decision :
  fresh → run s0 acts = Some s → tasks s !! r = Some (Answered (Delivered id decision)) →
  consented acts id decision.
Proof. intros Hf Hrun Ht. exact (inv_tasks _ _ (run_inv _ _ Hf Hrun) r _ Ht). Qed.

(** C8: both sides pair. Whoever the control plane takes for the owner of a device has
    begun the claim of this device with a claim token of that account and tenant, and
    the device has confirmed a code of the same digest with a proof of its own. *)
Theorem owner_claimed_by_both_sides acts s d o :
  fresh → Forall source_ok acts → run s0 acts = Some s →
  DeviceClaim.Owner (ClaimStore s) d = Ok (Some o) →
  ∃ code nonce code',
    claim_sent acts (DeviceClaim.OwnerID o) (DeviceClaim.TenantID o) d code nonce ∧
    claim_confirmed acts d code' ∧
    DeviceClaim.claimDigest code = DeviceClaim.claimDigest code'.
Proof.
  intros Hf Hsrc Hrun Ho. destruct (inv_claims _ _ (run_inv _ _ Hf Hrun) Hsrc) as (h & Hr & Hh).
  destruct (DeviceClaim.owner_history _ _ _ _ Hr Ho) as
    (draw & code & nonce & t0 & draw' & code' & now & Hb & Hc & Hdig & _).
  rewrite Forall_forall in Hh. exists code, nonce, code'.
  split_and!; [exact (Hh _ (proj1 (list_elem_of_In _ _) Hb))
    |exact (Hh _ (proj1 (list_elem_of_In _ _) Hc))|done].
Qed.

(** What the claims of a token for an owner say. *)
Lemma owned_token issuer now random d own ten bid rev until token claims :
  Token.issueOwnedUntil issuer now random d own ten bid rev until = Ok (token, claims) →
  Token.DeviceID claims = d ∧ Token.OwnerID claims = own ∧ Token.TenantID claims = ten ∧
  Token.BindingID claims = bid ∧ Token.BindingRevision claims = rev ∧
  (IsZero until = false → Token.Expires claims ≤ Unix until).
Proof.
  unfold Token.issueOwnedUntil, Token.issueUntil. guard H1. guard H2.
  destruct random as [rnd|]; [|done]. guard H3. guard H4. guard H5. intros [= _ <-]. cbn.
  split_and!; try done. intros Hz. rewrite Hz. cbn [negb andb].
  destruct (Before until _) eqn:Hb; [done|]. unfold Before in Hb. split_bools.
  apply Unix_mono. lia.
Qed.

Lemma made_token service now random d o until token claims :
  make_token cfg service now random d o until = Ok (token, claims) →
  Token.DeviceID claims = d ∧ Token.OwnerID claims = DeviceClaim.OwnerID o ∧
  Token.TenantID claims = DeviceClaim.TenantID o ∧
  Token.BindingID claims = DeviceClaim.BindingID o ∧
  Token.BindingRevision claims = DeviceClaim.BindingRevision o ∧
  ∀ t, until = Some t → Token.Expires claims ≤ Unix t.
Proof.
  destruct until as [until|]; cbn.
  - unfold Token.IssueOwnedUntil. guard H1. split_bools.
    intros (? & ? & ? & ? & ? & Hexp)%owned_token. split_and!; try done. intros t [= <-]. by apply Hexp.
  - by intros (? & ? & ? & ? & ? & _)%owned_token.
Qed.

(** C9: a token is issued for the owner and for no longer than he paid. When the control
    plane issues a voice or agent token, the device proved itself for exactly that
    service, [o] owned it when the handler looked, the token carries the device and the
    account, tenant, binding and revision of [o], the registry still allowed the device
    while the token was made, and, if entitlements are required, the entitlement service
    was asked for the account of [o] and for the service of the token, granted it, and
    the token expires with the grant at the latest. *)
Theorem token_for_entitled_owner acts s r service d token claims :
  fresh → run s0 acts = Some s →
  tasks s !! r = Some (Answered (TokenIssued service d token claims)) →
  ∃ o until,
    token_asked acts service d ∧ looked_up acts (Issuing service d) d o ∧
    entitled acts service d o until ∧ token_made acts service d token claims o until ∧
    Token.DeviceID claims = d ∧ Token.OwnerID claims = DeviceClaim.OwnerID o ∧
    Token.TenantID claims = DeviceClaim.TenantID o ∧
    Token.BindingID claims = DeviceClaim.BindingID o ∧
    Token.BindingRevision claims = DeviceClaim.BindingRevision o ∧
    ∀ t, until = Some t → Token.Expires claims ≤ Unix t.
Proof.
  intros Hf Hrun Ht.
  destruct (inv_tasks _ _ (run_inv _ _ Hf Hrun) r _ Ht) as (o & until & Hask & Hl & He & Hm).
  pose proof Hm as (pre & r' & v & now & random & post & s1 & _ & _ & _ & _ & _ & Hi).
  apply made_token in Hi as (H1 & H2 & H3 & H4 & H5 & H6). exists o, until.
  by split_and!.
Qed.

(** The profile of a device is what its OTA proof names. *)
Lemma ota_proof_profile v reg co now q body wb v' d :
  Provisioning.scope v = Provisioning.OTAOfferProofScope →
  Provisioning.authorize v reg co now q body wb = (v', Ok d) →
  ∃ p board channel, Provisioning.OTAProfile (Provisioning.at_profile reg) d = Some p ∧
    Provisioning.p_Board p = board ∧ Provisioning.p_Channel p = channel ∧
    singleHeader q "X-OTA-Board" = Some board ∧ singleHeader q "X-OTA-Channel" = Some channel.
Proof.
  intros Hs. unfold Provisioning.authorize. rewrite Hs.
  destruct (Provisioning.parse_proof _ _ _ _) as [p|] eqn:Hp; [|done].
  destruct (Provisioning.lookupVersioned _ _) as [ [record|] rev]; [|done].
  guard H1. rewrite (bool_decide_true _ eq_refl). cbn [andb]. guard H2. guard H3. guard H4.
  destruct (Provisioning.reserve _ _ _ _ _) as [v1 [e|] ]; [done|]. guard H5. intros [= _ <-].
  apply negb_false_iff in H2. unfold Provisioning.profile_matches in H2.
  destruct (Provisioning.OTAProfile _ _) as [prof|]; [|done].
  assert (∃ x, Provisioning.scope_headers Provisioning.OTAOfferProofScope q body = Some x ∧
    Provisioning.extra p = x) as (x & Hx & Hex).
  { revert Hp. unfold Provisioning.parse_proof. repeat (case_match; try done).
    intros [= <-]. eauto. }
  rewrite Hex in H2. revert Hx. unfold Provisioning.scope_headers.
  destruct (Provisioning.singleHeader q "X-OTA-Board") eqn:Eb; [|done].
  destruct (Provisioning.singleHeader q "X-OTA-Channel") eqn:Ec; [|done].
  destruct (Provisioning.singleHeader q "X-OTA-Release-Sequence"); [|done].
  destruct (Provisioning.singleHeader q "X-OTA-Version"); [|done]. guard H6. intros [= <-].
  split_bools. eauto 10.
Qed.

Lemma Select_available reg d b c current now key r status retry :
  Ota.Select reg d b c current now key = (Some r, status, retry) →
  r ∈ reg ∧ Ota.Board (Ota.doc r) = b ∧ Ota.Channel (Ota.doc r) = c ∧
  current < Ota.ReleaseSequence (Ota.doc r) ∧ Ota.Enabled r = true ∧
  Ota.NotBefore (Ota.doc r) ≤ Unix now ≤ Ota.ExpiresAt (Ota.doc r) ∧
  Ota.inCohort key d (Ota.ReleaseID (Ota.doc r)) (Ota.RolloutBasisPoints r) = true.
Proof.
  unfold Ota.Select. guard H1. destruct (List.find _ _) as [x|] eqn:Hf; [|done].
  apply List.find_some in Hf as [Hin Hm]. guard H2. guard H3. intros [= -> _ _]. split_bools.
  split_and!; try done; try lia. by apply list_elem_of_In.
Qed.

Lemma release_token issuer now random d rel img token claims :
  Token.IssueForRelease issuer now random d rel img = Ok (token, claims) →
  Token.DeviceID claims = d ∧ Token.Audience claims = Token.OTAAudience ∧
  Token.ReleaseID claims = rel ∧ Token.ImageSHA256 claims = img ∧ Token.OwnerID claims = "".
Proof.
  unfold Token.IssueForRelease, Token.issueUntil. guard H1. guard H2.
  destruct random as [rnd|]; [|done]. guard H3. guard H4. guard H5. intros [= _ <-]. cbn.
  split_bools. done.
Qed.

(** The handler answers something else. *)
Ltac refused := cbn; by rewrite lookup_insert_eq.

(** A firmware offer fits the device and opens one image. An offer is made only while
    the generation gate is open before the proof, after the selection and after the
    token was made; to a device that proved itself for offers; the release is one of the
    registry for the board and channel that the device registry has for this device,
    newer than what the device runs, enabled, within its validity and rolled out to the
    device; and the download token names this device, release and image digest. *)
Theorem offered_release_fits s r request e oe d release token ttl :
  Provisioning.scope (proofs s OTAProof) = Provisioning.OTAOfferProofScope →
  tasks (issueOTAOffer cfg r request e oe s) !! r
    = Some (Answered (Offer d release token ttl)) →
  gate_before oe && gate_selected oe && gate_issued oe = true ∧
  proved OTAProof request [] false e d ∧
  (∃ p, Provisioning.OTAProfile (Provisioning.at_profile (views e)) d = Some p ∧
     Ota.Board (Ota.doc release) = Provisioning.p_Board p ∧
     Ota.Channel (Ota.doc release) = Provisioning.p_Channel p) ∧
  (∃ text current, singleHeader request "X-OTA-Release-Sequence" = Some text ∧
     ParseUint (bytes_of text) 31 = Some current ∧
     current < Ota.ReleaseSequence (Ota.doc release)) ∧
  release ∈ OTARegistry cfg ∧ Ota.Enabled release = true ∧
  Ota.NotBefore (Ota.doc release) ≤ Unix (select_now oe) ≤ Ota.ExpiresAt (Ota.doc release) ∧
  Ota.inCohort (OTARolloutKey cfg) d (Ota.ReleaseID (Ota.doc release))
    (Ota.RolloutBasisPoints release) = true ∧
  ∃ claims,
    Token.IssueForRelease (OTAIssuer cfg) (issue_now oe) (issue_random oe) d
      (Ota.ReleaseID (Ota.doc release)) (Ota.ImageSHA256 (Ota.doc release))
      = Ok (token, claims) ∧
    Token.DeviceID claims = d ∧ Token.Audience claims = Token.OTAAudience ∧
    Token.ReleaseID claims = Ota.ReleaseID (Ota.doc release) ∧
    Token.ImageSHA256 claims = Ota.ImageSHA256 (Ota.doc release) ∧
    ttl = Token.Expires claims -i Token.IssuedAt claims.
Proof.
  intros Hs. unfold issueOTAOffer, Provisioning.Authorize, fail_with.
  destruct (gate_before oe); [|refused].
  destruct (Provisioning.authorize _ _ _ _ _ _ _) as [v result] eqn:E. cbn [negb].
  destruct result as [d'|]; [|refused].
  destruct (ota_proof_profile _ _ _ _ _ _ _ _ _ Hs E) as (p & board & channel & Hp & <- & <- & -> & ->).
  destruct (singleHeader request "X-OTA-Release-Sequence") as [text|]; [|refused].
  destruct (ParseUint (bytes_of text) 31) as [current|] eqn:Hcur; [|refused].
  destruct (current =? 0); [refused|].
  destruct (Ota.Select _ _ _ _ _ _ _) as [ [rel status] retry] eqn:Hsel.
  destruct (gate_selected oe); [|refused]. cbn [negb].
  destruct status; [|refused..].
  destruct rel as [rel|]; [|refused].
  destruct (Token.IssueForRelease _ _ _ _ _ _) as [ [tok claims] |] eqn:Hi;
    [|refused].
  destruct (_ || _); [refused|].
  destruct (gate_issued oe); [|refused]. cbn [negb].
  cbn. rewrite lookup_insert_eq. intros [= -> -> -> <-].
  apply Select_available in Hsel as (Hin & Hb & Hc & Hlt & Hen & Hval & Hco).
  destruct (release_token _ _ _ _ _ _ _ _ Hi) as (H1 & H2 & H3 & H4 & _).
  split_and!; try done; try lia.
  - by exists (proofs s OTAProof), v.
  - by exists p.
  - by exists text, current.
  - by exists claims.
Qed.

End theorems.

(** ** Construction *)

Lemma count_all bs : count_set bs = Z.of_nat (length bs) → forallb id bs = true.
Proof.
  unfold count_set. induction bs as [|[] bs IH]; cbn; [done| |].
  - intros H. apply IH. lia.
  - pose proof (List.filter_length_le id bs). lia.
Qed.

(** A server that serves firmware offers has everything [issueOTAOffer] uses, one that
    serves claims or consents has a verifier of companion tokens too, and none issues
    tokens without asking for entitlements if they are required. *)
Lemma New_complete config routes :
  New config = Some routes →
  (RequireServiceEntitlement config = true → has_ServiceEntitlements config = true) ∧
  (serves_ota routes = true →
     has_OTAProof config = true ∧ has_OTARegistry config = true ∧
     has_OTAIssuer config = true ∧ 32 ≤ keyLength config ∧ has_GenerationGate config = true) ∧
  (serves_claims routes = true → AppVerifier config = Some true ∧
     has_ClaimProof config = true ∧ has_ClaimStore config = true) ∧
  (serves_consents routes = true → AppVerifier config = Some true ∧
     has_ActionConsents config = true ∧ has_ActionConsentChallengeProof config = true ∧
     has_ActionConsentResultProof config = true).
Proof.
  unfold New. guard H1. guard H2. guard H3. guard H4. guard H5. guard H6. intros [= <-]. cbn.
  split_and!.
  - intros E. rewrite E in H2. cbn in H2. by apply negb_false_iff in H2.
  - intros E%Z.eqb_eq. rewrite E in H3. cbn in H3. apply (count_all [_; _; _; _; _]) in E.
    cbn in E. split_bools. unfold id in *. split_and!; done || lia.
  - intros E%Z.eqb_eq. rewrite E in H4. cbn in H4. apply (count_all [_; _]) in E. cbn in E.
    split_bools. done.
  - intros E%Z.eqb_eq. rewrite E in H6. cbn in H6. apply (count_all [_; _; _]) in E. cbn in E.
    split_bools. done.
Qed.

(** ** Witnesses *)

(** The headers of a request as a list. *)
Definition ex_headers (hs : list (string * string)) (name : string) : list string :=
  match List.find (λ kv, bool_decide (kv.1 = name)) hs with Some kv => [kv.2] | None => [] end.
Definition ex_stamp : string := FormatInt Provisioning.ex_T.
Definition ex_nonce : string := Provisioning.ex_nonce 1.

(** A request of device "dev-1" that signs [text]. *)
Definition ex_proof (scope : Provisioning.ProofScope) (length : Z) (text : string)
    (hs : list (string * string)) : Request :=
  {| Provisioning.Method := "POST"; Provisioning.Path := Provisioning.proofPath scope;
     Provisioning.RawQuery := ""; Provisioning.ContentLength := length;
     Provisioning.TransferEncoding := [];
     Provisioning.Header := ex_headers
       ([("Device-Id", "dev-1"); ("Client-Id", "app"); ("X-Device-Timestamp", ex_stamp);
         ("X-Device-Nonce", ex_nonce);
         ("X-Device-Signature",
            EncodeToString (hmac_sha256 Provisioning.ex_secret (bytes_of text)))] ++ hs) |}.

Definition ex_consent_headers : list (string * string) :=
  [("Content-Type", "application/json"); ("Accept", "application/json");
   ("Cache-Control", "no-store"); ("X-Xiaozhi-Action-Consent", Contract)].

(** A request of the device in the consent API, with a body of one byte. *)
Definition ex_device_request (scope : Provisioning.ProofScope) (body : string) : Request :=
  let digest := hex_encode (Sum256 (bytes_of body)) in
  ex_proof scope 1
    (Provisioning.CanonicalActionConsentProof scope "dev-1" "app" ex_stamp ex_nonce digest)
    (("X-Action-Consent-Body-SHA256", digest) :: ex_consent_headers).

(** A request of the companion app. *)
Definition ex_app_request (length : Z) (hs : list (string * string)) : Request :=
  {| Provisioning.Method := "POST"; Provisioning.Path := "/"; Provisioning.RawQuery := "";
     Provisioning.ContentLength := length; Provisioning.TransferEncoding := [];
     Provisioning.Header := ex_headers hs |}.

(** Stand-ins for JSON: each body is one letter. *)
Definition ex_codec {A} (letter : string) (x : A) : codec A :=
  {| Decode := λ body, if bool_decide (body = bytes_of letter) then Some x else None;
     Marshal := λ _, Some (bytes_of letter) |}.
Definition ex_challenge : actionConsentDeviceChallengeRequest :=
  {| c_Version := 1; c_ChallengeID := ActionConsent.ex_id; c_SessionID := "session-1";
     c_RequestID := 7; c_Capability := Capability; c_IndicatorOn := true;
     c_ExpiresAtUnix := Provisioning.ex_T + 20 |}.
Definition ex_result : actionConsentDeviceResultRequest :=
  {| r_Version := 1; r_ChallengeID := ActionConsent.ex_id; r_OwnerRevision := 1;
     r_SessionID := "session-1"; r_RequestID := 7; r_Capability := Capability;
     r_IndicatorOn := true |}.
Definition ex_decision : actionConsentDecisionRequest :=
  {| d_Version := 1; d_ChallengeID := ActionConsent.ex_id; d_DeviceID := "dev-1";
     d_OwnerRevision := 1; d_SessionID := "session-1"; d_RequestID := 7;
     d_Capability := Capability; d_IndicatorOn := true;
     d_Decision := ActionConsent.DecisionApprove |}.

(** A verifier of companion tokens that knows two of them. *)
Definition ex_claims (action deviceID : string) : Token.Claims :=
  {| Token.DeviceID := deviceID; Token.Subject := "user-1"; Token.Issuer_ := "";
     Token.OwnerID := ""; Token.TenantID := "tenant-1"; Token.BindingID := "";
     Token.BindingRevision := 0; Token.Action := action;
     Token.Audience := Token.CompanionAudience; Token.IssuedAt := Provisioning.ex_T;
     Token.Expires := Provisioning.ex_T + 600; Token.TokenID := "t"; Token.ReleaseID := "";
     Token.ImageSHA256 := ""; Token.SigningKeyID := "" |}.
Definition ex_app : companion :=
  {| VerifyAuthorization := λ authorization,
       if bool_decide (authorization = "Bearer claim")
       then Some (ex_claims Token.CompanionClaimAction "")
       else if bool_decide (authorization = "Bearer consent")
       then Some (ex_claims Token.CompanionConsentAction "dev-1") else None;
     CompanionStatus := Some (λ _, CompanionActive) |}.

Definition ex_server : Server :=
  {| proofs := λ u, {| Provisioning.scope := use_scope u; Provisioning.maxSkew := 60 * second;
                       Provisioning.minInterval := second; Provisioning.usedNonces := ∅;
                       Provisioning.lastIssued := ∅ |};
     ClaimStore := DeviceClaim.ex_empty; ActionConsents := ActionConsent.ex_empty; tasks := ∅ |}.
Definition ex_issuer (audience : string) : Token.Issuer :=
  {| Token.i_secret := Token.ex_secret; Token.i_keyID := ""; Token.i_verifyUntil := zero_time;
     Token.i_managed := false; Token.i_ttl := 10 * minute; Token.i_audience := audience |}.
Definition ex_config : Config :=
  {| VoiceIssuer := ex_issuer Token.VoiceAudience; AgentIssuer := ex_issuer Token.AgentAudience;
     OTAIssuer := ex_issuer Token.OTAAudience;
     OTARegistry := [Ota.ex_release 2 "m2"; Ota.ex_release 1 "m1"];
     OTARolloutKey := replicate 32 (byte_of 3); Entitlements := true |}.

Definition ex_env : proof_env :=
  {| views := Provisioning.ex_views 0; coordinator := None;
     proof_now := from_unix Provisioning.ex_T |}.
Definition ex_now (n : Z) : Time := from_unix (Provisioning.ex_T + n).
Definition ex_until : Time := ex_now 300.
Definition ex_grant : AccountAuth.ServiceEntitlementGrant :=
  {| AccountAuth.gr_Revision := 4; AccountAuth.gr_State := AccountAuth.EntitlementActive;
     AccountAuth.gr_ValidUntil := ex_until |}.
Definition ex_authorizer : authorizer := λ p product,
  if bool_decide (AccountAuth.p_Subject p = "user-1") && bool_decide (product = AccountAuth.ProductServiceVoice)
  then Some (Some ex_grant) else Some None.

(** The app and the device pair, the owner approves an action, and the device collects
    the decision and a voice token. *)
Definition ex_acts : list action :=
  [ABegin ex_app 0 (ex_app_request 0 [("Authorization", "Bearer claim"); ("Device-Id", "dev-1");
     ("X-Device-Claim", DeviceClaim.ex_code); ("X-App-Nonce", DeviceClaim.ex_nonce)]);
   AStore 0 (DeviceClaim.ex_draw 1) (ex_now 0);
   AConfirm 1 (ex_proof Provisioning.DeviceClaimProofScope 0
     (Provisioning.CanonicalDeviceClaimProof "dev-1" "app" ex_stamp ex_nonce DeviceClaim.ex_code)
     [("X-Device-Claim", DeviceClaim.ex_code)]) ex_env;
   AStore 1 (DeviceClaim.ex_draw 2) (ex_now 1);
   AChallenge 2 (ex_device_request Provisioning.ActionConsentChallengeProofScope "c")
     (Some (bytes_of "c")) ex_env;
   AOwner 2 true (ex_now 2); AStore 2 (DeviceClaim.ex_draw 3) (ex_now 2);
   ADecision ex_app 3 (ex_app_request 1 (("Authorization", "Bearer consent") :: ex_consent_headers))
     "dev-1" ActionConsent.ex_id (Some (bytes_of "d"));
   AOwner 3 true (ex_now 3); AStore 3 (DeviceClaim.ex_draw 3) (ex_now 3);
   AResult 4 (ex_device_request Provisioning.ActionConsentResultProofScope "r")
     (Some (bytes_of "r")) ex_env;
   AOwner 4 true (ex_now 4); AStore 4 (DeviceClaim.ex_draw 3) (ex_now 4);
   AVoice 5 (Provisioning.ex_request 1) ex_env;
   AOwner 5 true (ex_now 5); AEntitle 5 ex_authorizer (ex_now 5);
   AIssue 5 (Provisioning.ex_view 0) (ex_now 5) (Some (replicate 16 (byte_of 6)))].

Definition ex_run : option Server :=
  run (ex_codec "c" ex_challenge) (ex_codec "r" ex_result) (ex_codec "d" ex_decision) ex_config
    ex_server ex_acts.

(** What the examples look at. *)
Definition ex_summary (s : Server) :=
  (tasks s !! 4%nat, DeviceClaim.Owner (ClaimStore s) "dev-1",
   match tasks s !! 5%nat with
   | Some (Answered (TokenIssued service d _ _)) => Some (service, d)
   | _ => None
   end).
Definition ex_owner : DeviceClaim.Ownership :=
  {| DeviceClaim.OwnerID := "user-1"; DeviceClaim.TenantID := "tenant-1";
     DeviceClaim.BindingID := EncodeToString (replicate 16 (byte_of 2));
     DeviceClaim.BindingRevision := 1 |}.

Lemma ex_summary_ok :
  ex_summary <$> ex_run =
    Some (Some (Answered (Delivered ActionConsent.ex_id ActionConsent.DecisionApprove)),
          Ok (Some ex_owner), Some (SessionProof, "dev-1")).
Proof. vm_compute. reflexivity. Qed.

Lemma ex_summary_inv s a b service d :
  ex_summary s = (a, b, Some (service, d)) →
  tasks s !! 4%nat = a ∧ DeviceClaim.Owner (ClaimStore s) "dev-1" = b ∧
  ∃ token claims, tasks s !! 5%nat = Some (Answered (TokenIssued service d token claims)).
Proof.
  unfold ex_summary. intros [= <- <- H3]. split; [done|]. split; [done|].
  destruct (tasks s !! 5%nat) as [t|]; [|done]. destruct t; try done. destruct r; try done.
  injection H3 as -> ->. eauto.
Qed.

Lemma ex_control_ran :
  ∃ s token claims, ex_run = Some s ∧
    tasks s !! 4%nat = Some (Answered (Delivered ActionConsent.ex_id ActionConsent.DecisionApprove)) ∧
    DeviceClaim.Owner (ClaimStore s) "dev-1" = Ok (Some ex_owner) ∧
    tasks s !! 5%nat = Some (Answered (TokenIssued SessionProof "dev-1" token claims)).
Proof.
  destruct (fmap_Some_1 _ _ _ ex_summary_ok) as (s & Hrun & Hs).
  destruct (ex_summary_inv s _ _ _ _ (eq_sym Hs)) as (H1 & H2 & token & claims & H3).
  exists s, token, claims. split; [exact Hrun|]. split; [exact H1|]. split; [exact H2|exact H3].
Qed.

Lemma ex_fresh : fresh ex_server.
Proof.
  split; [reflexivity|]. split; [by intros []|]. split.
  - by apply (ActionConsent.reach_init 10).
  - by apply (DeviceClaim.reach_init (DeviceClaim.ttl DeviceClaim.ex_empty)
      (DeviceClaim.maxRecords DeviceClaim.ex_empty)).
Qed.

Lemma ex_sources : Forall source_ok ex_acts.
Proof. repeat constructor; apply DeviceClaim.ex_draw_full. Qed.

Lemma companion_action app request action claims :
  authorizeCompanion app request action = Ok claims → Token.Action claims = action.
Proof.
  unfold authorizeCompanion. destruct (singleHeader _ _); [|done].
  destruct (VerifyAuthorization _ _); [|done]. guard H1. split_bools.
  destruct (CompanionStatus app) as [f|]; [destruct (f _)|]; try done; by intros [= <-].
Qed.

Lemma ex_codec_only {A} letter (x y : A) request read body :
  readCanonicalActionConsentBody (ex_codec letter x) request read = Some (y, body) → y = x.
Proof.
  unfold readCanonicalActionConsentBody, canonical_body. guard H1.
  destruct read as [read|]; [|done]. guard H2. cbn [Decode ex_codec].
  destruct (bool_decide _); [|done]. guard H3. by intros [= <- _].
Qed.

Lemma action_needs_owner_consent_witness :
  ∃ claims d o, Token.Action claims = Token.CompanionConsentAction ∧
    looked_up (ex_codec "c" ex_challenge) (ex_codec "r" ex_result) (ex_codec "d" ex_decision)
      ex_config ex_server ex_acts (Consuming d ex_result) d o ∧
    DeviceClaim.OwnerID o = Token.Subject claims.
Proof.
  destruct ex_control_ran as (s & token & claims & Hrun & Ht & _). unfold ex_run in Hrun.
  destruct (action_needs_owner_consent _ _ _ _ _ _ _ _ _ _ ex_fresh Hrun Ht) as
    (d & i & dec & res & c & o & _ & _ & Hsent & _ & Hres & Hl & Ho & _).
  exists c, d, o. split.
  - destruct Hsent as (app & r & request & read & body & _ & Ha & _).
    exact (companion_action _ _ _ _ Ha).
  - split; [|exact Ho]. destruct Hres as (r & request & read & e & body & _ & Hb & _).
    rewrite (ex_codec_only _ _ _ _ _ _ Hb) in Hl. exact Hl.
Defined.

Lemma owner_claimed_by_both_sides_witness :
  ∃ code nonce, claim_sent ex_acts "user-1" "tenant-1" "dev-1" code nonce.
Proof.
  destruct ex_control_ran as (s & token & claims & Hrun & _ & Ho & _). unfold ex_run in Hrun.
  destruct (owner_claimed_by_both_sides _ _ _ _ _ _ _ _ _ ex_fresh ex_sources Hrun Ho) as
    (code & nonce & code' & H & _). exists code, nonce. exact H.
Defined.

Lemma token_for_entitled_owner_witness :
  ∃ o until, looked_up (ex_codec "c" ex_challenge) (ex_codec "r" ex_result)
      (ex_codec "d" ex_decision) ex_config ex_server ex_acts (Issuing SessionProof "dev-1")
      "dev-1" o ∧
    entitled (ex_codec "c" ex_challenge) (ex_codec "r" ex_result)
      (ex_codec "d" ex_decision) ex_config ex_server ex_acts SessionProof "dev-1" o until.
Proof.
  destruct ex_control_ran as (s & token & claims & Hrun & _ & _ & Ht). unfold ex_run in Hrun.
  destruct (token_for_entitled_owner _ _ _ _ _ _ _ _ _ _ _ _ ex_fresh Hrun Ht) as
    (o & until & _ & Hl & He & _). exists o, until. split; [exact Hl|exact He].
Defined.

Definition ex_offer : Server :=
  issueOTAOffer ex_config 9
    (ex_proof Provisioning.OTAOfferProofScope 0
       (Provisioning.CanonicalOTAProof "dev-1" "app" ex_stamp ex_nonce "s3" "stable" "1" "1.0.1")
       [("X-OTA-Board", "s3"); ("X-OTA-Channel", "stable"); ("X-OTA-Release-Sequence", "1");
        ("X-OTA-Version", "1.0.1")])
    ex_env {| gate_before := true; gate_selected := true; gate_issued := true;
              select_now := ex_now 100; issue_now := ex_now 100;
              issue_random := Some (replicate 16 (byte_of 6)) |} ex_server.
Definition ex_offered (s : Server) :=
  match tasks s !! 9%nat with
  | Some (Answered (Offer d release _ ttl)) =>
      Some (d, Ota.ReleaseSequence (Ota.doc release), ttl)
  | _ => None
  end.

Lemma ex_offered_ok : ex_offered ex_offer = Some ("dev-1", 2, 600).
Proof. vm_compute. reflexivity. Qed.

(** A device at sequence 1 is offered release 2 of its board. *)
Lemma offered_release_fits_witness :
  ∃ release p, release ∈ OTARegistry ex_config ∧
    Provisioning.OTAProfile (Provisioning.ex_view 0) "dev-1" = Some p ∧
    Ota.Board (Ota.doc release) = Provisioning.p_Board p.
Proof.
  pose proof ex_offered_ok as H. unfold ex_offered in H.
  destruct (tasks ex_offer !! 9%nat) as [t|] eqn:Ht; [|discriminate H].
  destruct t as [ | | | | | | | | | | | | | | |a]; try discriminate H.
  destruct a as [ | | | | | | | | | | |d release token ttl|]; try discriminate H.
  injection H as -> _ _. unfold ex_offer in Ht.
  destruct (offered_release_fits ex_config ex_server 9 _ _ _ _ _ _ _ eq_refl Ht) as
    (_ & _ & (p & Hp & Hb & _) & _ & Hin & _).
  exists release, p. split; [exact Hin|]. split; [exact Hp|exact Hb].
Defined.

End ControlTheorems.
