(* ===== verification/StrictJSON.v ===== *)
(** * StrictJSON: duplicate member names in JSON documents

    Models [internal/strictjson/duplicates.go], the walk that providers' answers and
    credential files pass before they are decoded. [json.Decoder] is its sequence of
    tokens and how the sequence ends. *)

From stdpp Require Import base gmap strings list.
From Stdlib Require Import ZArith Lia.
From S2P Require Import Prelude.

Module StrictJSON.

(** What [Token] returns: a delimiter, a string (or member name), another scalar. *)
Inductive token : Type :=
| OpenObject
| CloseObject
| OpenArray
| CloseArray
| TString (s : string)
| TScalar (literal : string).

#[global] Instance token_eq_dec : EqDecision token.
Proof. solve_decision. Defined.

(** The tokens that are left, and whether the input then ends ([io.EOF]) or is
    malformed. *)
Record Decoder : Type := {
  rest : list token;
  eof : bool;
}.

Inductive error : Type :=
| InvalidToken
| InvalidKey
| DuplicateField
| IncompleteObject
| IncompleteArray
| InvalidDelimiter
| TrailingData
| OutOfFuel.

(** [More]: the next character opens neither the end of an object nor of an array. *)
Definition More (ts : list token) : bool :=
  match ts with
  | [] | CloseObject :: _ | CloseArray :: _ => false
  | _ => true
  end.

(** The recursion is on [fuel]; its members and its elements are loops of the same
    function in the code. *)
Fixpoint parseValue (fuel : nat) (ts : list token) : result error (list token) :=
  match fuel with
  | O => Err OutOfFuel
  | S fuel =>
      match ts with
      | [] => Err InvalidToken
      | TString _ :: ts | TScalar _ :: ts => Ok ts
      | OpenObject :: ts => parseMembers fuel ∅ ts
      | OpenArray :: ts => parseElements fuel ts
      | CloseObject :: _ | CloseArray :: _ => Err InvalidDelimiter
      end
  end
with parseMembers (fuel : nat) (seen : gset string) (ts : list token) :
    result error (list token) :=
  match fuel with
  | O => Err OutOfFuel
  | S fuel =>
      if More ts then
        match ts with
        | TString key :: ts =>
            IF bool_decide (key ∈ seen) RETURN Err DuplicateField ;;
            TRY ts := parseValue fuel ts ;;
            parseMembers fuel ({[key]} ∪ seen) ts
        | _ => Err InvalidKey
        end
      else
        match ts with
        | CloseObject :: ts => Ok ts
        | _ => Err IncompleteObject
        end
  end
with parseElements (fuel : nat) (ts : list token) : result error (list token) :=
  match fuel with
  | O => Err OutOfFuel
  | S fuel =>
      if More ts then
        TRY ts := parseValue fuel ts ;;
        parseElements fuel ts
      else
        match ts with
        | CloseArray :: ts => Ok ts
        | _ => Err IncompleteArray
        end
  end.

Definition enough (ts : list token) : nat := (2 * length ts + 1)%nat.

Definition RejectDuplicateFields (decoder : Decoder) : result error unit :=
  TRY ts := parseValue (enough (rest decoder)) (rest decoder) ;;
  match ts with
  | [] => if eof decoder then Ok tt else Err TrailingData
  | _ :: _ => Err TrailingData
  end.

(** ** JSON values *)

Inductive json : Type :=
| JString (s : string)
| JScalar (literal : string)
| JObject (members : list (string * json))
| JArray (elements : list json).

Fixpoint tokens (v : json) : list token :=
  match v with
  | JString s => [TString s]
  | JScalar l => [TScalar l]
  | JObject ms => OpenObject :: flat_map (λ m, TString m.1 :: tokens m.2) ms ++ [CloseObject]
  | JArray es => OpenArray :: flat_map tokens es ++ [CloseArray]
  end.

(** No object in the value names a member twice. *)
Fixpoint unambiguous (v : json) : bool :=
  match v with
  | JString _ | JScalar _ => true
  | JObject ms => bool_decide (NoDup ms.*1) && forallb (λ m, unambiguous m.2) ms
  | JArray es => forallb unambiguous es
  end.

Definition members_tokens (ms : list (string * json)) : list token :=
  flat_map (λ m, TString m.1 :: tokens m.2) ms.

Section json_ind.
Context (P : json → Prop)
  (Hs : ∀ s, P (JString s)) (Hl : ∀ l, P (JScalar l))
  (Ho : ∀ ms, Forall (λ m, P m.2) ms → P (JObject ms))
  (Ha : ∀ es, Forall P es → P (JArray es)).

Fixpoint json_nested_ind (v : json) : P v :=
  match v with
  | JString s => Hs s
  | JScalar l => Hl l
  | JObject ms =>
      Ho ms ((fix go ms := match ms return Forall (λ m, P m.2) ms with
                           | [] => Forall_nil_2 _
                           | m :: ms => Forall_cons_2 _ _ _ (json_nested_ind m.2) (go ms)
                           end) ms)
  | JArray es =>
      Ha es ((fix go es := match es return Forall P es with
                           | [] => Forall_nil_2 _
                           | e :: es => Forall_cons_2 _ _ _ (json_nested_ind e) (go es)
                           end) es)
  end.
End json_ind.

(** ** What is accepted *)

(** Each parser consumes one value, the rest of an object, or the rest of an
    array. *)
Lemma walk_sound fuel :
  (∀ ts ts', parseValue fuel ts = Ok ts' → ∃ v, ts = tokens v ++ ts' ∧ unambiguous v = true) ∧
  (∀ seen ts ts', parseMembers fuel seen ts = Ok ts' →
     ∃ ms, ts = members_tokens ms ++ CloseObject :: ts' ∧ NoDup ms.*1 ∧
       (∀ k, k ∈ ms.*1 → k ∉ seen) ∧ forallb (λ m, unambiguous m.2) ms = true) ∧
  (∀ ts ts', parseElements fuel ts = Ok ts' →
     ∃ es, ts = flat_map tokens es ++ CloseArray :: ts' ∧ forallb unambiguous es = true).
Proof.
  induction fuel as [|fuel (IHv & IHm & IHe)]; [by split_and!|]. split_and!.
  - intros [|t ts] ts' H; [done|]. destruct t; cbn in H; try done.
    + apply IHm in H as (ms & -> & Hnd & _ & Hu). exists (JObject ms). split.
      * cbn. by rewrite <- app_assoc.
      * cbn. rewrite bool_decide_true by done. done.
    + apply IHe in H as (es & -> & Hu). exists (JArray es). split; [|done]. cbn.
      by rewrite <- app_assoc.
    + injection H as <-. by exists (JString s).
    + injection H as <-. by exists (JScalar literal).
  - intros seen ts ts' H. cbn [parseMembers] in H. destruct (More ts) eqn:Hmore.
    + destruct ts as [|[| | | |key|] ts]; try done.
      destruct (bool_decide (key ∈ seen)) eqn:Hk; [done|].
      destruct (parseValue fuel ts) as [ts1|] eqn:Hv; [|done].
      apply bool_decide_eq_false in Hk. apply IHv in Hv as (v & -> & Hu).
      apply IHm in H as (ms & -> & Hnd & Hfresh & Hus).
      exists ((key, v) :: ms). cbn. split; [by rewrite <- app_assoc|]. split_and!.
      * apply NoDup_cons. split; [|done]. intros Hin. apply Hfresh in Hin. set_solver.
      * intros k [->|Hin]%elem_of_cons; [done|]. apply Hfresh in Hin. set_solver.
      * by rewrite Hu, Hus.
    + destruct ts as [|[] ts]; try done. injection H as <-. exists []. split; [done|].
      split; [constructor|]. split; [|done]. intros k []%elem_of_nil.
  - intros ts ts' H. cbn [parseElements] in H. destruct (More ts) eqn:Hmore.
    + destruct (parseValue fuel ts) as [ts1|] eqn:Hv; [|done].
      apply IHv in Hv as (v & -> & Hu). apply IHe in H as (es & -> & Hus).
      exists (v :: es). cbn. rewrite <- app_assoc. split; [done|]. by rewrite Hu, Hus.
    + destruct ts as [|[] ts]; try done. injection H as <-. by exists [].
Qed.

Lemma tokens_More v ts : More (tokens v ++ ts) = true.
Proof. by destruct v. Qed.

(** Enough fuel for a value is its number of tokens; for the rest of an object or of
    an array, one more. *)
Lemma walk_complete v : unambiguous v = true →
  ∀ fuel ts, (length (tokens v) ≤ fuel)%nat → parseValue fuel (tokens v ++ ts) = Ok ts.
Proof.
  induction v as [s|l|ms IH|es IH] using json_nested_ind; intros Hu fuel ts Hf.
  - destruct fuel; [cbn in Hf; lia|]. done.
  - destruct fuel; [cbn in Hf; lia|]. done.
  - cbn in Hu. apply andb_true_iff in Hu as [Hnd%bool_decide_eq_true Hus].
    destruct fuel as [|fuel]; [cbn in Hf; lia|]. cbn [tokens app parseValue].
    fold (members_tokens ms). rewrite <- app_assoc. cbn [app].
    cbn [tokens length] in Hf. rewrite length_app in Hf. fold (members_tokens ms) in Hf.
    cbn [length] in Hf.
    assert (∀ k, k ∈ ms.*1 → k ∉ (∅ : gset string)) as Hfresh by set_solver.
    assert (length (members_tokens ms) < fuel)%nat as Hlen by lia. clear Hf.
    revert Hfresh fuel Hlen. generalize (∅ : gset string) as seen.
    induction IH as [|[k v] ms Hv _ IHms]; intros seen Hfresh fuel Hlen.
    { destruct fuel; [cbn in Hlen; lia|done]. }
    cbn in Hus, Hnd. apply andb_true_iff in Hus as [Huv Hus]. apply NoDup_cons in Hnd as [Hk Hnd].
    cbn in Hlen. rewrite length_app in Hlen. fold (members_tokens ms) in Hlen.
    destruct fuel as [|fuel]; [lia|]. cbn. fold (members_tokens ms).
    rewrite bool_decide_false by (apply Hfresh; by left). rewrite <- app_assoc.
    rewrite Hv by (done || (cbn; lia)).
    apply IHms; [done|done| |lia].
    intros k' Hk'. assert (k' ≠ k) by (by intros ->).
    assert (k' ∉ seen) by (apply Hfresh; by right). set_solver.
  - cbn in Hu. destruct fuel as [|fuel]; [cbn in Hf; lia|]. cbn [tokens app parseValue].
    rewrite <- app_assoc. cbn [app]. cbn [tokens length] in Hf. rewrite length_app in Hf.
    cbn [length] in Hf. assert (length (flat_map tokens es) < fuel)%nat as Hlen by lia. clear Hf.
    revert fuel Hlen. induction IH as [|v es Hv _ IHes]; intros fuel Hlen.
    { destruct fuel; [cbn in Hlen; lia|done]. }
    cbn in Hu. apply andb_true_iff in Hu as [Huv Hus].
    cbn in Hlen. rewrite length_app in Hlen. destruct fuel as [|fuel]; [lia|].
    cbn [parseElements flat_map]. rewrite <- app_assoc, tokens_More.
    rewrite Hv by (done || lia). apply IHes; [done|].
    assert (1 ≤ length (tokens v))%nat by (destruct v; cbn; lia). lia.
Qed.

(** The fuel is enough for every input: what is left of the input shrinks with it. *)
Lemma walk_fuel fuel :
  (∀ ts, (2 * length ts < fuel)%nat →
     match parseValue fuel ts with
     | Ok ts' => (length ts' < length ts)%nat
     | Err e => e ≠ OutOfFuel
     end) ∧
  (∀ seen ts, (2 * length ts + 1 < fuel)%nat →
     match parseMembers fuel seen ts with
     | Ok ts' => (length ts' < length ts)%nat
     | Err e => e ≠ OutOfFuel
     end) ∧
  (∀ ts, (2 * length ts + 1 < fuel)%nat →
     match parseElements fuel ts with
     | Ok ts' => (length ts' < length ts)%nat
     | Err e => e ≠ OutOfFuel
     end).
Proof.
  induction fuel as [|fuel (IHv & IHm & IHe)]; [split_and!; intros; lia|]. split_and!.
  - intros [|t ts] Hl; cbn [length] in Hl |- *; [done|].
    destruct t; cbn [parseValue]; try done; try lia.
    + specialize (IHm ∅ ts ltac:(lia)). destruct (parseMembers _ _ _); [lia|done].
    + specialize (IHe ts ltac:(lia)). destruct (parseElements _ _); [lia|done].
  - intros seen ts Hl. cbn [parseMembers]. destruct (More ts).
    + destruct ts as [|[| | | |key|] ts]; try done. destruct (bool_decide _); [done|].
      cbn [length] in Hl |- *. specialize (IHv ts ltac:(lia)).
      destruct (parseValue fuel ts) as [ts1|]; [|done].
      specialize (IHm ({[key]} ∪ seen) ts1 ltac:(lia)).
      destruct (parseMembers _ _ _); [lia|done].
    + destruct ts as [|[] ts]; try done. cbn. lia.
  - intros ts Hl. cbn [parseElements]. destruct (More ts).
    + specialize (IHv ts ltac:(lia)). destruct (parseValue fuel ts) as [ts1|]; [|done].
      specialize (IHe ts1 ltac:(lia)). destruct (parseElements _ _); [lia|done].
    + destruct ts as [|[] ts]; try done. cbn. lia.
Qed.

(** C35: the walk terminates on every input, and accepts exactly the documents that are
    one JSON value in which no object, at any depth, names a member twice. *)
Theorem RejectDuplicateFields_exact d :
  RejectDuplicateFields d ≠ Err OutOfFuel ∧
  (RejectDuplicateFields d = Ok tt ↔
   eof d = true ∧ ∃ v, rest d = tokens v ∧ unambiguous v = true).
Proof.
  unfold RejectDuplicateFields, enough. split; [|split].
  - destruct (walk_fuel (2 * length (rest d) + 1)) as [Hv _]. specialize (Hv (rest d) ltac:(lia)).
    destruct (parseValue _ _) as [ [|t ts]|]; [by destruct (eof d)|done|]. congruence.
  - destruct (parseValue _ _) as [ts|] eqn:Hp; [|done].
    apply walk_sound in Hp as (v & Hr & Hu). destruct ts; [|done].
    destruct (eof d) eqn:He; [|done]. intros _. split; [done|]. exists v.
    by rewrite app_nil_r in Hr.
  - intros (He & v & Hr & Hu). rewrite Hr.
    rewrite <- (app_nil_r (tokens v)) at 2. rewrite walk_complete by (done || lia).
    by rewrite He.
Qed.

(** A provider's answer that reports its usage twice is refused. *)
Example duplicate_usage_refused :
  RejectDuplicateFields
    {| rest := tokens (JObject [("usage", JObject [("total_tokens", JScalar "7")]);
                                ("usage", JScalar "null")]); eof := true |}
  = Err DuplicateField.
Proof. vm_compute. reflexivity. Qed.

End StrictJSON.
