(* ===== verification/GoPath.v ===== *)
(** * GoPath: slash-separated paths

    The parts of [path], [path/filepath] (on Unix) and [strings] that the program uses on
    file names and URL paths: [Clean], [Join], [Rel], [IsAbs], [HasSuffix], [Contains].
    They are lexical; what needs the file system is an argument where it is used. *)

From stdpp Require Import base gmap strings list.
From Stdlib Require Import ZArith Lia.
From Stdlib.Strings Require Import Byte.
From S2P Require Import Prelude GoBase.

Module Paths.

Definition slash : byte := byte_of 47.

(** [strings.Split] at one byte. *)
Fixpoint split_at (sep : byte) (bs : bytes) : list bytes :=
  match bs with
  | [] => [[]]
  | b :: bs =>
      if bool_decide (b = sep) then [] :: split_at sep bs
      else match split_at sep bs with
           | [] => [[b]]
           | w :: ws => (b :: w) :: ws
           end
  end.

Fixpoint join_slash (segments : list bytes) : bytes :=
  match segments with
  | [] => []
  | [w] => w
  | w :: ws => w ++ slash :: join_slash ws
  end.

Definition IsAbs (name : string) : bool :=
  match bytes_of name with b :: _ => bool_decide (b = slash) | [] => false end.

Definition one_dot : bytes := bytes_of ".".
Definition two_dots : bytes := bytes_of "..".

(** The segments of a cleaned path; [out] are the ones kept so far, the last first. *)
Fixpoint clean_segments (rooted : bool) (out : list bytes) (segments : list bytes) : list bytes :=
  match segments with
  | [] => reverse out
  | w :: ws =>
      if bool_decide (w = []) || bool_decide (w = one_dot) then clean_segments rooted out ws
      else if bool_decide (w = two_dots) then
        match out with
        | [] => clean_segments rooted (if rooted then [] else [two_dots]) ws
        | last :: out' =>
            if bool_decide (last = two_dots) then clean_segments rooted (two_dots :: out) ws
            else clean_segments rooted out' ws
        end
      else clean_segments rooted (w :: out) ws
  end.

Definition segments_of (name : string) : list bytes :=
  clean_segments (IsAbs name) [] (split_at slash (bytes_of name)).

Definition Clean (name : string) : string :=
  let body := join_slash (segments_of name) in
  if IsAbs name then string_of (slash :: body)
  else if bool_decide (body = []) then "." else string_of body.

(** [filepath.Join] of a root and a name, both not empty. *)
Definition Join (root name : string) : string := Clean (root +:+ "/" +:+ name).

Fixpoint drop_segment (reversed : bytes) : bytes :=
  match reversed with
  | [] => []
  | b :: rest => if bool_decide (b = slash) then reversed else drop_segment rest
  end.

(** [filepath.Dir]: what precedes the last segment, cleaned. *)
Definition Dir (name : string) : string :=
  Clean (string_of (reverse (drop_segment (reverse (bytes_of name))))).

(** What is left of both after their common segments. *)
Fixpoint strip_common (base target : list bytes) : list bytes * list bytes :=
  match base, target with
  | b :: bs, t :: ts => if bool_decide (b = t) then strip_common bs ts else (base, target)
  | _, _ => (base, target)
  end.

(** [filepath.Rel] of two absolute paths; a relative path among them is refused. *)
Definition Rel (base target : string) : option string :=
  IF negb (IsAbs base) || negb (IsAbs target) RETURN None ;;
  let '(up, down) := strip_common (segments_of base) (segments_of target) in
  let segments := replicate (length up) two_dots ++ down in
  Some (if bool_decide (segments = []) then "." else string_of (join_slash segments)).

Definition HasSuffix (value suffix : string) : bool :=
  bool_decide (drop (length (bytes_of value) - length (bytes_of suffix)) (bytes_of value)
               = bytes_of suffix).

(** [strings.Contains] of a substring that is not empty. *)
Fixpoint contains (bs part : bytes) : bool :=
  match bs with
  | [] => bool_decide (part = [])
  | _ :: rest => bool_decide (take (length part) bs = part) || contains rest part
  end.
Definition Contains (value part : string) : bool := contains (bytes_of value) (bytes_of part).

Definition ContainsAny (value chars : string) : bool :=
  existsb (λ b, bool_decide (b ∈ bytes_of chars)) (bytes_of value).

Example Clean_rooted : Clean "/a//b/./c/../d.bin" = "/a/b/d.bin".
Proof. reflexivity. Qed.
Example Clean_above_root : Clean "/../a/" = "/a".
Proof. reflexivity. Qed.
Example Clean_relative : (Clean "a/../../b", Clean "", Clean "./x/") = ("../b", ".", "x").
Proof. reflexivity. Qed.
Example Dir_examples : (Dir "a/b/c", Dir "READY", Dir "/srv/x") = ("a/b", ".", "/srv").
Proof. reflexivity. Qed.
Example Rel_inside : Rel "/srv/origin" "/srv/origin/objects/a.bin" = Some "objects/a.bin".
Proof. reflexivity. Qed.
Example Rel_outside : Rel "/srv/origin" "/srv/origin2/a" = Some "../origin2/a".
Proof. reflexivity. Qed.

(** ** Containment *)

Lemma strip_common_spec base target :
  ∃ common, base = common ++ (strip_common base target).1 ∧
            target = common ++ (strip_common base target).2.
Proof.
  revert target. induction base as [|b base IH]; intros [|t target]; cbn; try by exists [].
  case_bool_decide as E; [|by exists []]. subst t. destruct (IH target) as (c & E1 & E2).
  exists (b :: c). cbn. by rewrite <- E1, <- E2.
Qed.

Lemma join_slash_head w ws : ∃ rest, join_slash (w :: ws) = w ++ rest ∧
  (ws = [] ∧ rest = [] ∨ ∃ x, rest = slash :: x).
Proof.
  destruct ws as [|w' ws]; cbn; [exists []; rewrite app_nil_r; auto|].
  eexists. split; [done|]. eauto.
Qed.

(** A target whose relative name neither is [..] nor begins with [../] lies below the
    base: the segments of the base are a prefix of its own. *)
Lemma Rel_contained base target rel :
  Rel base target = Some rel → rel ≠ ".." → String.prefix "../" rel = false →
  segments_of base `prefix_of` segments_of target.
Proof.
  unfold Rel. guard H1. destruct (strip_common _ _) as [up down] eqn:Hs.
  destruct (strip_common_spec (segments_of base) (segments_of target)) as (c & E1 & E2).
  rewrite Hs in E1, E2. cbn in E1, E2. cbv zeta. destruct up as [|u up].
  { intros _ _ _. rewrite E1, E2, app_nil_r. by exists down. }
  intros Hrel Hne Hpre. exfalso.
  assert (rel = string_of (join_slash (two_dots :: (replicate (length up) two_dots ++ down))))
    as -> by (by injection Hrel as <-). clear Hrel.
  destruct (join_slash_head two_dots (replicate (length up) two_dots ++ down))
    as (rest & Hj & [ [_ ->] | [x ->] ]); rewrite Hj in Hne, Hpre; [by apply Hne|].
  cbn in Hpre. by destruct x.
Qed.

(** ** Directories of relative names *)

(** The length of segments, each with a separator. *)
Definition weight (segments : list bytes) : nat := sum_list_with (λ w, S (length w)) segments.

Lemma weight_split sep bs : weight (split_at sep bs) = S (length bs).
Proof.
  unfold weight. induction bs as [|b bs IH]; [done|]. cbn. case_bool_decide; cbn; [lia|].
  destruct (split_at sep bs) as [|w ws]; cbn in *; lia.
Qed.

Lemma weight_join segments : (length (join_slash segments) ≤ pred (weight segments))%nat.
Proof.
  induction segments as [|w ws IH]; [done|]. destruct ws as [|w' ws]; [unfold weight; cbn; lia|].
  change (join_slash (w :: w' :: ws)) with (w ++ slash :: join_slash (w' :: ws)).
  rewrite length_app. unfold weight in *. cbn in *. lia.
Qed.

Lemma weight_reverse segments : weight (reverse segments) = weight segments.
Proof.
  unfold weight. induction segments as [|w ws IH]; [done|].
  rewrite reverse_cons, sum_list_with_app, IH. cbn. lia.
Qed.

(** Cleaning drops the empty segments and never adds any. *)
Lemma weight_clean out segments :
  (weight (clean_segments false out segments) + length (List.filter (λ w, bool_decide (w = [])) segments)
   ≤ weight out + weight segments)%nat.
Proof.
  revert out. induction segments as [|w ws IH]; intros out; cbn [clean_segments].
  - rewrite weight_reverse. cbn [List.filter length]. lia.
  - cbn [List.filter]. destruct (bool_decide (w = [])) eqn:E; cbn [orb].
    + apply bool_decide_eq_true in E as ->. specialize (IH out). unfold weight in *; cbn in *; lia.
    + destruct (bool_decide (w = one_dot)); [specialize (IH out); unfold weight in *; cbn in *; lia|].
      destruct (bool_decide (w = two_dots)) eqn:E2.
      * apply bool_decide_eq_true in E2 as ->. destruct out as [|l out].
        -- specialize (IH [two_dots]). unfold weight in *; cbn in *; lia.
        -- destruct (bool_decide (l = two_dots)); [specialize (IH (two_dots :: l :: out))|specialize (IH out)];
             unfold weight in *; cbn in *; lia.
      * specialize (IH (w :: out)). unfold weight in *; cbn in *; lia.
Qed.

Lemma split_nonempty sep bs : split_at sep bs ≠ [].
Proof. destruct bs; cbn; [done|]. case_bool_decide; [done|]. by destruct (split_at _ _). Qed.

Lemma split_snoc sep bs : split_at sep (bs ++ [sep]) = split_at sep bs ++ [ [] ].
Proof.
  induction bs as [|b bs IH]; cbn; [by rewrite bool_decide_true|].
  case_bool_decide; rewrite IH; [done|]. pose proof (split_nonempty sep bs).
  by destruct (split_at sep bs).
Qed.

Lemma drop_segment_slash bs :
  drop_segment bs = [] ∨ ∃ rest, drop_segment bs = slash :: rest ∧ (S (length rest) ≤ length bs)%nat.
Proof.
  induction bs as [|b bs IH]; cbn; [by left|]. case_bool_decide as E.
  - right. subst b. by exists bs.
  - destruct IH as [IH|(rest & IH & Hl)]; [by left|right]. exists rest. split; [done|lia].
Qed.

Lemma drop_segment_suffix bs : ∃ p, bs = p ++ drop_segment bs.
Proof.
  induction bs as [|b bs [p IH] ]; cbn; [by exists []|]. case_bool_decide; [by exists []|].
  exists (b :: p). cbn. by rewrite <- IH.
Qed.

(** A segment of a cleaned path. *)
Definition plain (w : bytes) : Prop := w ≠ [] ∧ slash ∉ w.

Lemma split_plain bs : Forall (λ w, slash ∉ w) (split_at slash bs).
Proof.
  induction bs as [|b bs IH]; cbn; [repeat constructor; set_solver|].
  case_bool_decide; [constructor; [set_solver|done]|].
  destruct IH as [|w ws Hw Hws]; constructor; set_solver.
Qed.

Lemma clean_plain out segments :
  Forall plain out → Forall (λ w, slash ∉ w) segments →
  Forall plain (clean_segments false out segments).
Proof.
  assert (plain two_dots) as Hdots.
  { split; [done|]. apply (bool_decide_unpack _). by vm_compute. }
  revert out. induction segments as [|w ws IH]; intros out Ho Hs; cbn [clean_segments];
    [by apply Forall_reverse|]. apply Forall_cons_1 in Hs as [Hw Hs].
  destruct (bool_decide (w = [])) eqn:E; cbn [orb]; [by apply IH|].
  destruct (bool_decide (w = one_dot)); [by apply IH|].
  destruct (bool_decide (w = two_dots)).
  - destruct out as [|l out]; [apply (IH [two_dots]); [by apply Forall_singleton|done]|].
    destruct (bool_decide (l = two_dots)); apply IH; try done; [by constructor|].
    by apply Forall_cons_1 in Ho as [_ ?].
  - apply IH; [|done]. constructor; [|done]. apply bool_decide_eq_false in E. done.
Qed.

(** The directory of a relative name is relative and shorter, or it is the current one. *)
Lemma Dir_shorter name :
  IsAbs name = false →
  Dir name = "." ∨ IsAbs (Dir name) = false ∧ (length (bytes_of (Dir name)) < length (bytes_of name))%nat.
Proof.
  intros Habs. unfold Dir. destruct (drop_segment_suffix (reverse (bytes_of name))) as [p Hp].
  destruct (drop_segment_slash (reverse (bytes_of name))) as [->|(rest & E & Hl)]; [by left|].
  rewrite E in *. rewrite reverse_cons. rewrite length_reverse in Hl.
  apply (f_equal reverse) in Hp. rewrite reverse_involutive, reverse_app, reverse_cons in Hp.
  set (pre := reverse rest ++ [slash]) in *.
  assert (IsAbs (string_of pre) = false) as Hpre.
  { unfold IsAbs in *. rewrite bytes_of_string_of. rewrite Hp in Habs. subst pre.
    by destruct (reverse rest). }
  unfold Clean. rewrite Hpre. unfold segments_of. rewrite Hpre, bytes_of_string_of.
  case_bool_decide as Hb; [by left|right].
  pose proof (weight_clean [] (split_at slash pre)) as Hw. rewrite weight_split in Hw.
  assert (length pre = S (length rest)) as Hlen
    by (subst pre; rewrite length_app, length_reverse; cbn; lia).
  assert (1 ≤ length (List.filter (λ w, bool_decide (w = [])) (split_at slash pre)))%nat as Hone.
  { subst pre. rewrite split_snoc, List.filter_app, length_app. cbn. lia. }
  pose proof (clean_plain [] (split_at slash pre) (Forall_nil_2 _) (split_plain pre)) as Hplain.
  set (segs := clean_segments false [] (split_at slash pre)) in *.
  pose proof (weight_join segs) as Hj. split.
  - unfold IsAbs. rewrite bytes_of_string_of. destruct Hplain as [|w ws [Hne Hsl] _]; [done|].
    destruct (join_slash_head w ws) as (x & -> & _). destruct w as [|c w]; [done|]. cbn.
    apply bool_decide_eq_false. set_solver.
  - rewrite bytes_of_string_of. cbn in Hw. destruct segs as [|w ws]; [done|]. lia.
Qed.

End Paths.
