(* ===== verification/GoWire.v ===== *)
(** * GoWire: JSON objects and HTTP messages between the services

    What the internal clients and servers of the account service use of [encoding/json]
    and [net/http]: the text of a marshalled structure, which determines the structure
    when its strings are identifiers ([object_inj]), requests and responses with their
    headers, and bodies that are read up to a limit. *)

From stdpp Require Import base gmap strings list pretty.
From Stdlib Require Import ZArith Lia.
From Stdlib.Strings Require Import Byte.
From S2P Require Import Prelude GoBase GoCrypto Protocol Auth.

Module Wire.
Import Ident.

(** ** Strings in JSON

    [json.Marshal] of a string, with the HTML characters escaped as they are by default. *)

Definition dquote : byte := byte_of 34.
Definition backslash : byte := byte_of 92.
Definition comma : byte := byte_of 44.
Definition closing : byte := byte_of 125.

(** [htmlSafeSet]. *)
Definition html_safe (b : byte) : bool :=
  let c := bval b in
  (32 <=? c) && (c <? 128)
  && negb ((c =? 34) || (c =? 38) || (c =? 60) || (c =? 62) || (c =? 92)).

Definition escape_ascii (b : byte) : bytes :=
  let c := bval b in
  if html_safe b then [b]
  else if (c =? 34) || (c =? 92) then [backslash; b]
  else if c =? 8 then [backslash; byte_of 98]
  else if c =? 12 then [backslash; byte_of 102]
  else if c =? 10 then [backslash; byte_of 110]
  else if c =? 13 then [backslash; byte_of 114]
  else if c =? 9 then [backslash; byte_of 116]
  else backslash :: bytes_of "u00" ++ [hex_digit (c / 16); hex_digit (c mod 16)].

(** A rune that is not in ASCII is copied, but for U+2028 and U+2029; an ill-formed byte
    is replaced. The fuel is the length of the text. *)
Fixpoint escape (fuel : nat) (bs : bytes) : bytes :=
  match fuel, bs with
  | S fuel, b :: rest =>
      if bval b <? 128 then escape_ascii b ++ escape fuel rest
      else match Text.decode_rune bs with
           | None => backslash :: bytes_of "ufffd" ++ escape fuel rest
           | Some (r, after) =>
               let copied := take (length bs - length after) bs in
               (if (r =? 8232) || (r =? 8233)
                then backslash :: bytes_of "u202" ++ [hex_digit (r mod 16)] else copied)
               ++ escape fuel after
           end
  | _, _ => []
  end.

Definition quote (s : string) : bytes :=
  dquote :: escape (length (bytes_of s)) (bytes_of s) ++ [dquote].

(** ** Objects *)

Inductive value : Type :=
| JString (s : string)
| JNumber (n : Z)
| JBool (b : bool).

Definition render (v : value) : bytes :=
  match v with
  | JString s => quote s
  | JNumber n => bytes_of (FormatInt n)
  | JBool b => bytes_of (if b then "true" else "false")
  end.

(** The members in the order of the structure's fields. *)
Fixpoint members (fields : list (string * value)) : bytes :=
  match fields with
  | [] => [closing]
  | [(name, v)] => dquote :: bytes_of name ++ bytes_of (String (Ascii.ascii_of_nat 34) ":")
                   ++ render v ++ [closing]
  | (name, v) :: fields =>
      dquote :: bytes_of name ++ bytes_of (String (Ascii.ascii_of_nat 34) ":")
      ++ render v ++ comma :: members fields
  end.

Definition object (fields : list (string * value)) : bytes := byte_of 123 :: members fields.

(** ** HTTP *)

Definition VersionTLS12 : Z := 771.

Record TLSState : Type := {
  TLSVersion : Z;
  PeerCertificates : Z; (* how many there are *)
  VerifiedChains : Z;
}.

(** The values of a header, by its name; both sides write the names the same way. *)
Definition Headers : Type := string → list string.
Definition no_headers : Headers := λ _, [].
Definition set_header (name text : string) (h : Headers) : Headers :=
  λ n, if bool_decide (n = name) then [text] else h n.

(** [Body] is what reading it to the end delivers, [None] when reading fails. *)
Record Request : Type := {
  Method : string;
  Path : string;
  RawPath : string;
  RawQuery : string;
  Fragment : string;
  TLS : option TLSState;
  Header : Headers;
  ContentLength : Z;
  TransferEncoding : list string;
  Body : option bytes;
}.

Record Response : Type := {
  StatusCode : Z;
  r_TLS : option TLSState;
  r_Header : Headers;
  r_ContentLength : Z;
  r_TransferEncoding : list string;
  r_Body : option bytes;
}.

Definition singleHeader (h : Headers) (name : string) : string :=
  match h name with [v] => v | _ => "" end.

(** [io.ReadAll(io.LimitReader(body, limit+1))]. *)
Definition read_limited (limit : Z) (body : option bytes) : option bytes :=
  take (Z.to_nat (limit + 1)) <$> body.

(** What a handler wrote before it returned. *)
Record Written : Type := {
  Status : Z;
  w_Header : Headers;
  w_Body : bytes;
}.

(** The client's view of an answer: the server sets the length, which is that of the
    body. *)
Definition delivered (tls : TLSState) (w : Written) : Response :=
  {| StatusCode := Status w; r_TLS := Some tls; r_Header := w_Header w;
     r_ContentLength := blen (w_Body w); r_TransferEncoding := []; r_Body := Some (w_Body w) |}.

(** The server's view of a request that a client sent. *)
Definition arrived (tls : TLSState) (q : Request) : Request :=
  {| Method := Method q; Path := Path q; RawPath := RawPath q; RawQuery := RawQuery q;
     Fragment := Fragment q; TLS := Some tls; Header := Header q;
     ContentLength := ContentLength q; TransferEncoding := TransferEncoding q; Body := Body q |}.

(** ** The fields of [url.URL] that are looked at *)

Record URL : Type := {
  u_Scheme : string;
  u_Host : string;
  u_Path : string;
  u_RawPath : string;
  u_HasUser : bool;
  u_RawQuery : string;
  u_Fragment : string;
  u_String : string; (* what [String] makes of it *)
}.

(** ** Identifiers are written as they are *)

Lemma identifier_cases b :
  identifier_byte b = true →
  html_safe b = true ∧ b ≠ comma ∧ b ≠ closing ∧ b ≠ dquote ∧ (bval b <? 128) = true.
Proof. destruct b; vm_compute; try done; intros _; split_and!; done. Qed.

Lemma escape_identifier n bs :
  (length bs ≤ n)%nat → Forall (λ b, identifier_byte b = true) bs → escape n bs = bs.
Proof.
  revert n. induction bs as [|b bs IH]; intros [|n] Hn Hf; cbn in Hn |- *; try done; [lia|].
  inversion_clear Hf as [|?? Hb Hbs]. apply identifier_cases in Hb as (Hs & _ & _ & _ & Hlt).
  rewrite Hlt. unfold escape_ascii. rewrite Hs. cbn. by rewrite IH by (done || lia).
Qed.

(** A value that the reader on the other side cannot confuse with what follows it. *)
Definition plain (v : value) : Prop :=
  match v with
  | JString s => Forall (λ b, identifier_byte b = true) (bytes_of s)
  | _ => True
  end.

Lemma plain_identifier s max : ValidIdentifier s max = true → plain (JString s).
Proof. intros H%ValidIdentifier_bytes. by destruct H. Qed.

Definition delimiter (b : byte) : bool := bool_decide (b = comma) || bool_decide (b = closing).

Lemma app_delim_inj u v c d r r' :
  Forall (λ b, delimiter b = false) u → Forall (λ b, delimiter b = false) v →
  delimiter c = true → delimiter d = true →
  u ++ c :: r = v ++ d :: r' → u = v ∧ c = d ∧ r = r'.
Proof.
  intros Hu Hv Hc Hd. revert v Hv. induction Hu as [|b u Hb Hu IH]; intros v Hv Heq.
  - destruct Hv as [|b' v Hb' Hv]; cbn in Heq; [by injection Heq|]. injection Heq as <- _. congruence.
  - destruct Hv as [|b' v Hb' Hv]; cbn in Heq; injection Heq as Hbb Heq; [subst; congruence|].
    subst. by destruct (IH v Hv Heq) as (-> & -> & ->).
Qed.

(** *** Numbers *)

Lemma pretty_digit x : identifier_byte (Ascii.byte_of_ascii (pretty_N_char x)) = true.
Proof. unfold pretty_N_char. repeat case_match; by vm_compute. Qed.

Lemma bytes_of_cons a s : bytes_of (String a s) = Ascii.byte_of_ascii a :: bytes_of s.
Proof. done. Qed.

(** The digits of a number below [10^k] are at most [k]. *)
Lemma pretty_N_go_digits (k : nat) x s :
  (x < 10 ^ N.of_nat k)%N → Forall (λ b, identifier_byte b = true) (bytes_of s) →
  Forall (λ b, identifier_byte b = true) (bytes_of (pretty_N_go x s)) ∧
  (length (bytes_of (pretty_N_go x s)) ≤ k + length (bytes_of s))%nat.
Proof.
  revert x s. induction k as [|k IH]; intros x s Hx Hs.
  { assert (x = 0%N) as -> by (change (10 ^ N.of_nat 0)%N with 1%N in Hx; lia).
    rewrite pretty_N_go_0. split; [done|lia]. }
  destruct (decide (x = 0%N)) as [->|H0]; [rewrite pretty_N_go_0; split; [done|lia]|].
  rewrite pretty_N_go_step by lia.
  destruct (IH (x `div` 10)%N (String (pretty_N_char (x `mod` 10)) s)) as [H1 H2].
  - apply N.Div0.div_lt_upper_bound. by rewrite Nat2N.inj_succ, N.pow_succ_r' in Hx.
  - constructor; [apply pretty_digit|done].
  - split; [done|]. rewrite bytes_of_cons in H2. cbn [length] in H2. lia.
Qed.

Lemma FormatInt_bytes n k :
  Z.abs n < 10 ^ Z.of_nat k →
  Forall (λ b, identifier_byte b = true) (bytes_of (FormatInt n)) ∧
  blen (bytes_of (FormatInt n)) ≤ Z.of_nat k + 1.
Proof.
  intros Hn. assert (∀ x : N, Z.of_N x < 10 ^ Z.of_nat k →
    Forall (λ b, identifier_byte b = true) (bytes_of (pretty x)) ∧
    (length (bytes_of (pretty x)) ≤ k + 1)%nat) as Hp.
  { intros x Hx. unfold pretty, pretty_N. case_decide.
    - split; [by repeat constructor|cbn; lia].
    - destruct (pretty_N_go_digits k x "") as [H1 H2]; [|by apply Forall_nil|split; [done|change (length (bytes_of "")) with 0%nat in H2; lia] ].
      apply N2Z.inj_lt. rewrite N2Z.inj_pow, nat_N_Z. exact Hx. }
  unfold FormatInt, blen. destruct n as [|p|p].
  - split; [by repeat constructor|cbn; lia].
  - destruct (Hp (N.pos p)) as [H1 H2]; [lia|]. split; [done|].
    change (pretty (Z.pos p)) with (pretty (N.pos p)). lia.
  - change (pretty (Z.neg p)) with ("-" +:+ pretty (N.pos p)).
    rewrite bytes_of_app.
    assert (∀ x : N, Z.of_N x < 10 ^ Z.of_nat k → x ≠ 0%N →
      (length (bytes_of (pretty x)) ≤ k)%nat) as Hq.
    { intros x Hx H0. unfold pretty, pretty_N. rewrite decide_False by done.
      destruct (pretty_N_go_digits k x "") as [_ H2]; [|by apply Forall_nil|change (length (bytes_of "")) with 0%nat in H2; lia].
      apply N2Z.inj_lt. rewrite N2Z.inj_pow, nat_N_Z. exact Hx. }
    destruct (Hp (N.pos p)) as [H1 _]; [lia|]. specialize (Hq (N.pos p)).
    split; [constructor; [by vm_compute|exact H1]|].
    rewrite length_app. cbn [length bytes_of]. change (length (bytes_of "-")) with 1%nat.
    enough (length (bytes_of (pretty (N.pos p))) ≤ k)%nat by lia. apply Hq; [lia|done].
Qed.

Lemma FormatInt_i64 n :
  in_i64 n → Forall (λ b, identifier_byte b = true) (bytes_of (FormatInt n)) ∧
  blen (bytes_of (FormatInt n)) ≤ 20.
Proof. intros [H1 H2]. apply (FormatInt_bytes n 19). unfold min_int64, max_int64 in *. lia. Qed.

Lemma FormatInt_plain n : Forall (λ b, identifier_byte b = true) (bytes_of (FormatInt n)).
Proof.
  apply (FormatInt_bytes n (Z.to_nat (Z.abs n))). rewrite Z2Nat.id by lia.
  apply Z.pow_gt_lin_r; lia.
Qed.

(** ** A marshalled structure determines the structure *)

Lemma identifiers_no_delimiter bs :
  Forall (λ b, identifier_byte b = true) bs → Forall (λ b, delimiter b = false) bs.
Proof.
  intros H. eapply Forall_impl; [exact H|]. intros b (_ & H1 & H2 & _)%identifier_cases.
  unfold delimiter. by rewrite !bool_decide_false.
Qed.

Lemma render_string s :
  plain (JString s) → render (JString s) = dquote :: bytes_of s ++ [dquote].
Proof. intros H. cbn. unfold quote. by rewrite escape_identifier. Qed.

Lemma render_no_delimiter v : plain v → Forall (λ b, delimiter b = false) (render v).
Proof.
  destruct v as [s|n|b]; intros Hp.
  - rewrite render_string by done. constructor; [by vm_compute|].
    apply Forall_app. split; [by apply identifiers_no_delimiter|]. constructor; [by vm_compute|done].
  - apply identifiers_no_delimiter, FormatInt_plain.
  - destruct b; repeat constructor; by vm_compute.
Qed.

Definition same_shape (v w : value) : Prop :=
  match v, w with
  | JString _, JString _ | JNumber _, JNumber _ | JBool _, JBool _ => True
  | _, _ => False
  end.

Lemma render_inj v w : same_shape v w → plain v → plain w → render v = render w → v = w.
Proof.
  destruct v as [s|n|b], w as [s'|n'|b']; intros Hs Hv Hw Heq; try done.
  - rewrite !render_string in Heq by done. injection Heq as Heq.
    apply app_inv_tail, bytes_of_inj in Heq. by subst.
  - cbn in Heq. apply bytes_of_inj, (inj pretty) in Heq. by subst.
  - by destruct b, b'.
Qed.

(** The text of two structures of one type whose strings are identifiers is the same
    only if the structures are. *)
Lemma object_inj fs gs :
  Forall2 (λ f g, f.1 = g.1 ∧ same_shape f.2 g.2) fs gs →
  Forall (λ f, plain f.2) fs → Forall (λ f, plain f.2) gs →
  object fs = object gs → fs = gs.
Proof.
  intros Hsame Hf Hg Heq. injection Heq as Heq. revert Hf Hg Heq.
  induction Hsame as [|[name v] [name' w] fs gs [Hn Hs] Hsame IH]; intros Hf Hg Heq; [done|].
  cbn in Hn, Hs. subst name'. inversion_clear Hf as [|?? Hv Hfs]. inversion_clear Hg as [|?? Hw Hgs].
  assert (∃ c d r r', delimiter c = true ∧ delimiter d = true ∧
    render v ++ c :: r = render w ++ d :: r' ∧ (c = d → r = r' → fs = [] ∧ gs = [] ∨
      members fs = members gs)) as (c & d & r & r' & Hc & Hd & Hr & Hrest).
  { destruct Hsame as [|f g fs gs Hfg Hsame].
    - exists closing, closing, [], []. split_and!; [done..| |by left].
      cbn [members] in Heq. injection Heq as Heq. apply app_inv_head in Heq. by injection Heq.
    - exists comma, comma, (members (f :: fs)), (members (g :: gs)). split_and!; [done..| |by right].
      cbn [members] in Heq. injection Heq as Heq. apply app_inv_head in Heq. by injection Heq. }
  apply app_delim_inj in Hr as (Hvw & -> & ->); [|by apply render_no_delimiter..|done|done].
  apply render_inj in Hvw as ->; [|done..]. destruct (Hrest eq_refl eq_refl) as [[-> ->]|Hm]; [done|].
  by rewrite (IH Hfs Hgs Hm).
Qed.

(** ** Lengths *)

Definition width (v : value) : Z :=
  match v with JString s => slen s + 2 | JNumber _ => 20 | JBool _ => 5 end.

Lemma render_width v :
  plain v → match v with JNumber n => in_i64 n | _ => True end → blen (render v) ≤ width v.
Proof.
  destruct v as [s|n|b]; intros Hp Hn; cbn [width].
  - rewrite render_string by done. rewrite blen_cons, blen_app, slen_bytes_of.
    change (blen [dquote]) with 1. lia.
  - by apply FormatInt_i64.
  - by destruct b; vm_compute.
Qed.

Definition field_width (f : string * value) : Z := slen f.1 + 4 + width f.2.

Lemma object_width fs :
  fs ≠ [] → Forall (λ f, plain f.2 ∧ match f.2 with JNumber n => in_i64 n | _ => True end) fs →
  blen (object fs) ≤ 1 + foldr (λ f z, field_width f + z) 0 fs.
Proof.
  intros Hne Hf. unfold object. rewrite blen_cons.
  enough (blen (members fs) ≤ foldr (λ f z, field_width f + z) 0 fs) by lia.
  induction Hf as [|[name v] fs [Hp Hn] Hfs IH]; [done|]. cbn in Hp, Hn.
  pose proof (render_width v Hp Hn) as Hw.
  assert (field_width (name, v) = blen (bytes_of name) + 4 + width v) as Hfw
    by (unfold field_width; cbn; by rewrite slen_bytes_of).
  destruct fs as [|f fs].
  - cbn [members foldr]. rewrite Hfw, blen_cons, !blen_app.
    change (blen (bytes_of (String _ ":"))) with 2. change (blen [closing]) with 1. lia.
  - specialize (IH ltac:(done)).
    change (foldr (λ f z, field_width f + z) 0 ((name, v) :: f :: fs))
      with (field_width (name, v) + foldr (λ f z, field_width f + z) 0 (f :: fs)).
    change (members ((name, v) :: f :: fs)) with
      (dquote :: bytes_of name ++ bytes_of (String (Ascii.ascii_of_nat 34) ":")
       ++ render v ++ comma :: members (f :: fs)).
    rewrite Hfw, blen_cons, !blen_app, blen_cons.
    change (blen (bytes_of (String _ ":"))) with 2. lia.
Qed.

Lemma object_nonempty fs : 0 < blen (object fs).
Proof. unfold object. rewrite blen_cons. pose proof (blen_nonneg (members fs)). lia. Qed.

(** ** Bodies *)

Lemma read_all limit body : blen body ≤ limit → read_limited limit (Some body) = Some body.
Proof. intros H. unfold read_limited. cbn. rewrite take_ge; [done|]. unfold blen in H. lia. Qed.

Lemma single_set name v h : singleHeader (set_header name v h) name = v.
Proof. unfold singleHeader, set_header. by rewrite bool_decide_true. Qed.

Lemma single_other name v h n : n ≠ name → singleHeader (set_header name v h) n = singleHeader h n.
Proof. intros H. unfold singleHeader, set_header. by rewrite bool_decide_false. Qed.

End Wire.
