(* ===== verification/Companion.v ===== *)
(** * Companion: the tokens of companion apps

    Models [internal/auth/companion_jwt.go] (Ed25519 tokens for companion apps: verifier,
    issuer, strict decoding) and [companion_status.go] (the client that asks the account
    service whether a verified token is still in force). Ed25519, [url.Parse] and the JSON
    decoder are arguments; what is marshalled is written out. Loading the client's
    certificates is not modelled. *)

From stdpp Require Import base gmap strings list.
From Stdlib Require Import ZArith Lia.
From Stdlib.Strings Require Import Byte.
From S2P Require Import Prelude GoBase GoCrypto Protocol Auth Bearer StrictJSON GoWire.

Module Companion.
Import Ident Strs Token.

Definition maximumIssuerBytes : Z := 256.
Definition tokenIDBytes : Z := 16.
Definition PublicKeySize : Z := 32.
Definition PrivateKeySize : Z := 64.
Definition SignatureSize : Z := 64.

Record companionJWTHeader : Type := {
  Algorithm : string;
  h_KeyID : string;
  h_Type : string;
}.

Record CompanionIntrospectionRequest : Type := {
  q_Version : Z;
  q_TokenID : string;
  q_Subject : string;
  q_TenantID : string;
  q_Action : string;
  q_DeviceID : string;
  q_IssuedAt : Z;
  q_ExpiresAt : Z;
}.

Record CompanionIntrospectionResponse : Type := {
  o_Version : Z;
  o_Status : string;
  o_TokenID : string;
  o_Subject : string;
  o_TenantID : string;
  o_Action : string;
  o_DeviceID : string;
  o_AccountRevision : Z;
  o_ValidUntil : Z;
}.

#[global] Instance CompanionIntrospectionRequest_eq_dec :
  EqDecision CompanionIntrospectionRequest.
Proof. solve_decision. Defined.

(** The libraries. A decoder reads one document with known members only and fails when
    anything follows it; [json_tokens] is the stream of the same document. *)
Record library : Type := {
  url_Parse : string → option Wire.URL;
  ed25519_Verify : bytes → bytes → bytes → bool;
  ed25519_Sign : bytes → bytes → bytes;
  json_tokens : bytes → StrictJSON.Decoder;
  Decode_header : bytes → option companionJWTHeader;
  Decode_claims : bytes → option Claims;
  Decode_introspection : bytes → option CompanionIntrospectionRequest;
  Decode_status : bytes → option CompanionIntrospectionResponse;
}.

(** ** Marshalled structures *)

Definition omit (name s : string) : list (string * Wire.value) :=
  if bool_decide (s = "") then [] else [(name, Wire.JString s)].

Definition marshal_header (h : companionJWTHeader) : bytes :=
  Wire.object [("alg", Wire.JString (Algorithm h)); ("kid", Wire.JString (h_KeyID h));
               ("typ", Wire.JString (h_Type h))].

Definition claims_fields (claims : Claims) : list (string * Wire.value) :=
  omit "device_id" (DeviceID claims) ++ omit "sub" (Subject claims)
  ++ omit "iss" (Issuer_ claims) ++ omit "owner_id" (OwnerID claims)
  ++ omit "tenant_id" (TenantID claims) ++ omit "binding_id" (BindingID claims)
  ++ (if BindingRevision claims =? 0 then []
      else [("binding_revision", Wire.JNumber (BindingRevision claims))])
  ++ omit "action" (Action claims)
  ++ [("aud", Wire.JString (Audience claims)); ("iat", Wire.JNumber (IssuedAt claims));
      ("exp", Wire.JNumber (Expires claims))]
  ++ omit "jti" (TokenID claims) ++ omit "release_id" (ReleaseID claims)
  ++ omit "image_sha256" (ImageSHA256 claims).

Definition marshal_claims (claims : Claims) : bytes := Wire.object (claims_fields claims).

Definition request_fields (q : CompanionIntrospectionRequest) : list (string * Wire.value) :=
  [("version", Wire.JNumber (q_Version q)); ("token_id", Wire.JString (q_TokenID q));
   ("subject", Wire.JString (q_Subject q)); ("tenant_id", Wire.JString (q_TenantID q));
   ("action", Wire.JString (q_Action q)); ("device_id", Wire.JString (q_DeviceID q));
   ("issued_at", Wire.JNumber (q_IssuedAt q)); ("expires_at", Wire.JNumber (q_ExpiresAt q))].

Definition marshal_introspection (q : CompanionIntrospectionRequest) : bytes :=
  Wire.object (request_fields q).

Definition response_fields (o : CompanionIntrospectionResponse) : list (string * Wire.value) :=
  [("version", Wire.JNumber (o_Version o)); ("status", Wire.JString (o_Status o));
   ("token_id", Wire.JString (o_TokenID o)); ("subject", Wire.JString (o_Subject o));
   ("tenant_id", Wire.JString (o_TenantID o)); ("action", Wire.JString (o_Action o));
   ("device_id", Wire.JString (o_DeviceID o));
   ("account_revision", Wire.JNumber (o_AccountRevision o));
   ("valid_until", Wire.JNumber (o_ValidUntil o))].

Definition marshal_status (o : CompanionIntrospectionResponse) : bytes :=
  Wire.object (response_fields o).

(** ** Strict decoding *)

(** [keyDecoder.Decode(&value)] into a raw message passes over one value. *)
Fixpoint skip_value (depth : nat) (ts : list StrictJSON.token) : option (list StrictJSON.token) :=
  match ts with
  | [] => None
  | (StrictJSON.OpenObject | StrictJSON.OpenArray) :: ts => skip_value (S depth) ts
  | (StrictJSON.CloseObject | StrictJSON.CloseArray) :: ts =>
      match depth with
      | O => None
      | S O => Some ts
      | S depth => skip_value depth ts
      end
  | (StrictJSON.TString _ | StrictJSON.TScalar _) :: ts =>
      match depth with O => Some ts | _ => skip_value depth ts end
  end.

(** The loop over the members: the tokens after the closing brace. The fuel is the
    number of tokens: every round takes one at least. *)
Fixpoint walk_members (fuel : nat) (keys : gset string) (ts : list StrictJSON.token) :
    option (list StrictJSON.token) :=
  match fuel with
  | O => None
  | S fuel =>
      if StrictJSON.More ts then
        match ts with
        | StrictJSON.TString key :: ts =>
            IF bool_decide (key ∈ keys) RETURN None ;;
            match skip_value 0 ts with
            | None => None
            | Some ts => walk_members fuel ({[key]} ∪ keys) ts
            end
        | _ => None
        end
      else
        match ts with
        | StrictJSON.CloseObject :: ts => Some ts
        | _ => None
        end
  end.

Definition distinct_members (decoder : StrictJSON.Decoder) : bool :=
  match StrictJSON.rest decoder with
  | StrictJSON.OpenObject :: ts =>
      match walk_members (length ts) ∅ ts with
      | Some [] => StrictJSON.eof decoder
      | _ => false
      end
  | _ => false
  end.

Section Library.
Context (L : library).

Definition decodeStrictJSON {A} (Decode : bytes → option A) (data : bytes) : option A :=
  IF negb (distinct_members (json_tokens L data)) RETURN None ;;
  Decode data.

Definition decodeCanonicalBase64URL (value : string) : option bytes :=
  match DecodeString value with
  | None => None
  | Some decoded => if bool_decide (EncodeToString decoded = value) then Some decoded else None
  end.

Definition ValidHTTPSIssuer (value : string) : bool :=
  IF (slen value =? 0) || (maximumIssuerBytes <? slen value) RETURN false ;;
  match url_Parse L value with
  | None => false
  | Some parsed =>
      bool_decide (Wire.u_Scheme parsed = "https") && negb (bool_decide (Wire.u_Host parsed = ""))
      && negb (Wire.u_HasUser parsed) && bool_decide (Wire.u_RawQuery parsed = "")
      && bool_decide (Wire.u_Fragment parsed = "") && bool_decide (Wire.u_String parsed = value)
  end.

(** ** The verifier *)

Record CompanionJWTVerifier : Type := {
  v_keys : gmap string bytes;
  v_issuer : string;
  v_maxTTL : Duration;
  v_skew : Duration;
}.

Definition NewCompanionJWTVerifier (keys : gmap string bytes) (issuer : string)
    (maxTTL : Duration) : option CompanionJWTVerifier :=
  IF (Z.of_nat (size keys) =? 0) || (3 <? Z.of_nat (size keys)) || negb (ValidHTTPSIssuer issuer)
     || (maxTTL <? minimumIssuedTTL) || (maximumIssuedTTL <? maxTTL)
    RETURN None ;;
  IF existsb (λ '(keyID, publicKey), negb (ValidIdentifier keyID 64)
                                     || negb (blen publicKey =? PublicKeySize)) (map_to_list keys)
    RETURN None ;;
  Some {| v_keys := keys; v_issuer := issuer; v_maxTTL := maxTTL; v_skew := 30 * second |}.

Definition validateCompanionClaims (v : CompanionJWTVerifier) (now : Time) (claims : Claims) :
    result error unit :=
  let now := Unix now in
  let skewSeconds := Z.quot (v_skew v) second in
  let maxTTLSeconds := Z.quot (v_maxTTL v) second in
  IF negb (bool_decide (Audience claims = CompanionAudience))
     || negb (bool_decide (Issuer_ claims = v_issuer v))
     || (IssuedAt claims <=? 0) || (Expires claims <=? IssuedAt claims)
     || (maxTTLSeconds <? Expires claims -i IssuedAt claims)
     || (now +i skewSeconds <? IssuedAt claims)
    RETURN Err ErrClaims ;;
  IF Expires claims <=? now -i skewSeconds RETURN Err ErrExpired ;;
  IF negb (ValidIdentifier (Subject claims) 128) || negb (ValidIdentifier (TenantID claims) 128)
     || negb (ValidIdentifier (TokenID claims) 128)
     || negb (bool_decide (OwnerID claims = "")) || negb (bool_decide (BindingID claims = ""))
     || negb (BindingRevision claims =? 0)
     || negb (bool_decide (ReleaseID claims = "")) || negb (bool_decide (ImageSHA256 claims = ""))
     || negb (validCompanionActionDevice (Action claims) (DeviceID claims))
    RETURN Err ErrClaims ;;
  Ok tt.

Definition VerifyJWT (v : CompanionJWTVerifier) (now : Time) (token : string) :
    result error Claims :=
  IF (slen token =? 0) || (maxTokenBytes <? slen token) RETURN Err ErrMalformed ;;
  match string_of <$> split_dots (bytes_of token) with
  | [part0; part1; part2] =>
      IF bool_decide (part0 = "") || bool_decide (part1 = "") || bool_decide (part2 = "")
        RETURN Err ErrMalformed ;;
      match decodeCanonicalBase64URL part0 with
      | None => Err ErrMalformed
      | Some headerBytes =>
          match decodeStrictJSON (Decode_header L) headerBytes with
          | None => Err ErrClaims
          | Some header =>
              IF negb (bool_decide (Algorithm header = "EdDSA"))
                 || negb (bool_decide (h_Type header = "JWT"))
                 || negb (ValidIdentifier (h_KeyID header) 64)
                RETURN Err ErrClaims ;;
              match v_keys v !! h_KeyID header with
              | None => Err ErrSignature
              | Some publicKey =>
                  match decodeCanonicalBase64URL part2 with
                  | None => Err ErrMalformed
                  | Some signature =>
                      IF negb (blen signature =? SignatureSize) RETURN Err ErrMalformed ;;
                      IF negb (ed25519_Verify L publicKey (bytes_of (part0 +:+ "." +:+ part1))
                                 signature)
                        RETURN Err ErrSignature ;;
                      match decodeCanonicalBase64URL part1 with
                      | None => Err ErrMalformed
                      | Some payload =>
                          match decodeStrictJSON (Decode_claims L) payload with
                          | None => Err ErrClaims
                          | Some claims =>
                              TRY tt := validateCompanionClaims v now claims ;;
                              Ok claims
                          end
                      end
                  end
              end
          end
      end
  | _ => Err ErrMalformed
  end.

Definition VerifyJWTAuthorization (v : CompanionJWTVerifier) (now : Time) (header : string) :
    result error Claims :=
  IF negb (String.prefix "Bearer " header) || (slen header <=? 7) RETURN Err ErrMalformed ;;
  VerifyJWT v now (Text.TrimSpace (String.substring 7 (String.length header - 7) header)).

(** ** The issuer *)

Record CompanionJWTIssuer : Type := {
  s_privateKey : bytes;
  s_keyID : string;
  s_issuer : string;
  s_ttl : Duration;
}.

Definition NewCompanionJWTIssuer (privateKey : bytes) (keyID issuer : string) (ttl : Duration) :
    option CompanionJWTIssuer :=
  IF negb (blen privateKey =? PrivateKeySize) || negb (ValidIdentifier keyID 64)
     || negb (ValidHTTPSIssuer issuer) || (ttl <? minimumIssuedTTL) || (maximumIssuedTTL <? ttl)
    RETURN None ;;
  Some {| s_privateKey := privateKey; s_keyID := keyID; s_issuer := issuer; s_ttl := ttl |}.

(** [random] is what the reader delivers for the token identifier. *)
Definition issueJWT (issuer : CompanionJWTIssuer) (now : Time) (random : option bytes)
    (subject tenantID action deviceID : string) : result error (string * Claims) :=
  IF negb (ValidIdentifier subject 128) || negb (ValidIdentifier tenantID 128)
     || negb (validCompanionActionDevice action deviceID)
    RETURN Err ErrClaims ;;
  match random with
  | None => Err ErrRandom
  | Some tokenID =>
      let claims :=
        {| DeviceID := deviceID; Subject := subject; Issuer_ := s_issuer issuer; OwnerID := "";
           TenantID := tenantID; BindingID := ""; BindingRevision := 0; Action := action;
           Audience := CompanionAudience; IssuedAt := Unix now;
           Expires := Unix (now + s_ttl issuer); TokenID := EncodeToString tokenID;
           ReleaseID := ""; ImageSHA256 := ""; SigningKeyID := "" |} in
      let headerBytes := marshal_header {| Algorithm := "EdDSA"; h_KeyID := s_keyID issuer;
                                           h_Type := "JWT" |} in
      let signingInput := EncodeToString headerBytes +:+ "." +:+
                          EncodeToString (marshal_claims claims) in
      let signature := ed25519_Sign L (s_privateKey issuer) (bytes_of signingInput) in
      let token := signingInput +:+ "." +:+ EncodeToString signature in
      IF maxTokenBytes <? slen token RETURN Err ErrMalformed ;;
      Ok (token, claims)
  end.

Definition IssueJWT issuer now random (subject tenantID : string) :=
  issueJWT issuer now random subject tenantID CompanionClaimAction "".
Definition IssueReleaseJWT issuer now random (subject tenantID deviceID : string) :=
  issueJWT issuer now random subject tenantID CompanionReleaseAction deviceID.
Definition IssueActionConsentJWT issuer now random (subject tenantID deviceID : string) :=
  issueJWT issuer now random subject tenantID CompanionConsentAction deviceID.

(** ** Asking the account service *)

Definition CompanionAuthorizationContract : string := "xz-companion-authorization-v1".
Definition CompanionIntrospectionPath : string := "/v1/companion-tokens/introspect".
Definition MaximumIntrospectionBodyBytes : Z := 1024.
Definition contract_header : string := "X-Xiaozhi-Companion-Authorization".

Inductive status_error : Type := ErrCompanionInactive | ErrCompanionUnavailable.

Definition ValidCompanionIntrospectionURL (endpoint : string) : bool :=
  match url_Parse L endpoint with
  | None => false
  | Some parsed =>
      bool_decide (Wire.u_Scheme parsed = "https") && negb (bool_decide (Wire.u_Host parsed = ""))
      && negb (Wire.u_HasUser parsed) && bool_decide (Wire.u_RawQuery parsed = "")
      && bool_decide (Wire.u_Fragment parsed = "")
      && bool_decide (Wire.u_Path parsed = CompanionIntrospectionPath)
      && bool_decide (Wire.u_RawPath parsed = "") && bool_decide (Wire.u_String parsed = endpoint)
  end.

(** A request as [http.NewRequest] makes it for a body in memory. *)
Definition post (u : Wire.URL) (body : bytes) (header : Wire.Headers) : Wire.Request :=
  {| Wire.Method := "POST"; Wire.Path := Wire.u_Path u; Wire.RawPath := Wire.u_RawPath u;
     Wire.RawQuery := Wire.u_RawQuery u; Wire.Fragment := Wire.u_Fragment u; Wire.TLS := None;
     Wire.Header := header; Wire.ContentLength := blen body; Wire.TransferEncoding := [];
     Wire.Body := Some body |}.

Definition introspection_headers : Wire.Headers :=
  Wire.set_header contract_header CompanionAuthorizationContract
    (Wire.set_header "Cache-Control" "no-store"
      (Wire.set_header "Accept" "application/json"
        (Wire.set_header "Content-Type" "application/json" Wire.no_headers))).

Definition introspection_of (claims : Claims) : CompanionIntrospectionRequest :=
  {| q_Version := 1; q_TokenID := TokenID claims; q_Subject := Subject claims;
     q_TenantID := TenantID claims; q_Action := Action claims; q_DeviceID := DeviceID claims;
     q_IssuedAt := IssuedAt claims; q_ExpiresAt := Expires claims |}.

(** The TLS version and the two headers every answer carries. *)
Definition valid_transport (response : Wire.Response) : bool :=
  match Wire.r_TLS response with
  | None => false
  | Some tls => negb (Wire.TLSVersion tls <? Wire.VersionTLS12)
  end
  && bool_decide (Wire.singleHeader (Wire.r_Header response) "Cache-Control" = "no-store")
  && bool_decide (Wire.singleHeader (Wire.r_Header response) contract_header
                  = CompanionAuthorizationContract).

Definition status_of (claims : Claims) (now : Time) (response : Wire.Response) :
    option status_error :=
  IF negb (valid_transport response) RETURN Some ErrCompanionUnavailable ;;
  match Wire.read_limited MaximumIntrospectionBodyBytes (Wire.r_Body response) with
  | None => Some ErrCompanionUnavailable
  | Some body =>
      IF MaximumIntrospectionBodyBytes <? blen body RETURN Some ErrCompanionUnavailable ;;
      IF Wire.StatusCode response =? 204
        RETURN (IF negb (blen body =? 0) || (0 <? Wire.r_ContentLength response)
                   || negb (bool_decide (Wire.r_Header response "Content-Type" = []))
                  RETURN Some ErrCompanionUnavailable ;;
                Some ErrCompanionInactive) ;;
      IF negb (Wire.StatusCode response =? 200)
         || negb (bool_decide (Wire.singleHeader (Wire.r_Header response) "Content-Type"
                               = "application/json"))
         || (blen body =? 0) || negb (Wire.r_ContentLength response =? blen body)
        RETURN Some ErrCompanionUnavailable ;;
      match decodeStrictJSON (Decode_status L) body with
      | None => Some ErrCompanionUnavailable
      | Some output =>
          IF negb (bool_decide (marshal_status output = body))
             || negb (o_Version output =? 1) || negb (bool_decide (o_Status output = "active"))
             || negb (bool_decide (o_TokenID output = TokenID claims))
             || negb (bool_decide (o_Subject output = Subject claims))
             || negb (bool_decide (o_TenantID output = TenantID claims))
             || negb (bool_decide (o_Action output = Action claims))
             || negb (bool_decide (o_DeviceID output = DeviceID claims))
             || (o_AccountRevision output =? 0) || (o_ValidUntil output <=? Unix now)
             || (Expires claims <? o_ValidUntil output)
            RETURN Some ErrCompanionUnavailable ;;
          None
      end
  end.

(** [Do] is the HTTP client; [None] is no error. *)
Definition Authorize (endpoint : string) (Do : Wire.Request → option Wire.Response)
    (claims : Claims) (now : Time) : option status_error :=
  IF negb (ValidIdentifier (TokenID claims) 128) || negb (ValidIdentifier (Subject claims) 128)
     || negb (ValidIdentifier (TenantID claims) 128)
     || negb (validCompanionActionDevice (Action claims) (DeviceID claims))
     || (IssuedAt claims <=? 0) || (Expires claims <=? IssuedAt claims)
     || (Expires claims <=? Unix now)
    RETURN Some ErrCompanionInactive ;;
  let body := marshal_introspection (introspection_of claims) in
  IF (blen body =? 0) || (MaximumIntrospectionBodyBytes <? blen body)
    RETURN Some ErrCompanionUnavailable ;;
  match url_Parse L endpoint with
  | None => Some ErrCompanionUnavailable
  | Some u =>
      match Do (post u body introspection_headers) with
      | None => Some ErrCompanionUnavailable
      | Some response => status_of claims now response
      end
  end.

End Library.

(** ** Strict decoding accepts exactly the objects without duplicate members *)

Lemma skip_tokens v :
  (∀ r, skip_value 0 (StrictJSON.tokens v ++ r) = Some r) ∧
  (∀ d r, skip_value (S d) (StrictJSON.tokens v ++ r) = skip_value (S d) r).
Proof.
  induction v as [s|l|ms IH|es IH] using StrictJSON.json_nested_ind; [done..| |].
  - assert (∀ d r, skip_value (S d) (flat_map (λ m, StrictJSON.TString m.1 :: StrictJSON.tokens m.2) ms ++ r)
                   = skip_value (S d) r) as Hm.
    { intros d r. induction IH as [|[k v] ms [_ Hv] _ IHm]; [done|]. cbn [flat_map fst snd app].
      cbn [skip_value]. rewrite <- app_assoc, Hv. apply IHm. }
    split; intros; cbn [StrictJSON.tokens app skip_value]; rewrite <- app_assoc, Hm; done.
  - assert (∀ d r, skip_value (S d) (flat_map StrictJSON.tokens es ++ r) = skip_value (S d) r) as Hm.
    { intros d r. induction IH as [|v es [_ Hv] _ IHm]; [done|]. cbn [flat_map].
      rewrite <- app_assoc, Hv. apply IHm. }
    split; intros; cbn [StrictJSON.tokens app skip_value]; rewrite <- app_assoc, Hm; done.
Qed.

Lemma walk_tokens ms n keys :
  (length (StrictJSON.members_tokens ms) < n)%nat →
  walk_members n keys (StrictJSON.members_tokens ms ++ [StrictJSON.CloseObject])
  = if bool_decide (NoDup ms.*1 ∧ Forall (λ k, k ∉ keys) ms.*1) then Some [] else None.
Proof.
  revert n keys. induction ms as [|[k v] ms IH]; intros n keys Hn.
  { destruct n as [|n]; [cbn in Hn; lia|]. case_bool_decide as H; [done|]. destruct H. split; constructor. }
  destruct n as [|n]; [cbn in Hn; lia|].
  change (StrictJSON.members_tokens ((k, v) :: ms)) with
    (StrictJSON.TString k :: StrictJSON.tokens v ++ StrictJSON.members_tokens ms) in *.
  cbn [app walk_members StrictJSON.More]. rewrite <- app_assoc.
  rewrite (proj1 (skip_tokens v)). cbn [length] in Hn. rewrite length_app in Hn.
  destruct (decide (k ∈ keys)) as [Hk|Hk].
  - rewrite (bool_decide_true (k ∈ keys)) by done. case_bool_decide as Hf; [|done].
    destruct Hf as [_ Hf]. by inversion_clear Hf.
  - rewrite (bool_decide_false (k ∈ keys)) by done. rewrite IH by lia.
    assert (bool_decide (NoDup ms.*1 ∧ Forall (λ x, x ∉ ({[k]} ∪ keys : gset string)) ms.*1)
      = bool_decide (NoDup ((k, v) :: ms).*1 ∧ Forall (λ x, x ∉ keys) ((k, v) :: ms).*1)) as ->; [|done].
    apply bool_decide_ext. cbn. rewrite NoDup_cons, Forall_cons, !Forall_forall.
    setoid_rewrite not_elem_of_union. setoid_rewrite not_elem_of_singleton.
    split.
    + intros [Hnd Hx]. split_and!; [by intros [? _]%Hx|done|done|]. intros x Hin. by apply Hx.
    + intros [[Hni Hnd] [_ Hx] ]. split; [done|]. intros x Hin. split; [by intros ->|by apply Hx].
Qed.

(** A document that is one object is accepted if and only if its members have different
    names. *)
Lemma distinct_members_exact ms :
  distinct_members {| StrictJSON.rest := StrictJSON.tokens (StrictJSON.JObject ms);
                      StrictJSON.eof := true |} = bool_decide (NoDup ms.*1).
Proof.
  unfold distinct_members. cbn [StrictJSON.rest StrictJSON.tokens].
  change (flat_map _ ms) with (StrictJSON.members_tokens ms).
  rewrite walk_tokens by (rewrite length_app; cbn; lia).
  destruct (decide (NoDup ms.*1)) as [Hd|Hd].
  - rewrite !bool_decide_true; [done|done|]. split; [done|]. apply Forall_forall. set_solver.
  - rewrite !bool_decide_false; [done|done|]. by intros [? _].
Qed.

(** ** What a verified token proves *)

Section Verified.
Context (L : library).

(** The decoder reads [x] from a text that is one object. *)
Definition reads {A} (Decode : bytes → option A) (text : bytes) (x : A) : Prop :=
  ∃ ms, json_tokens L text = {| StrictJSON.rest := StrictJSON.tokens (StrictJSON.JObject ms);
                                StrictJSON.eof := true |} ∧
    NoDup ms.*1 ∧ Decode text = Some x.

Lemma reads_strict {A} (Decode : bytes → option A) text x :
  reads Decode text x → decodeStrictJSON L Decode text = Some x.
Proof.
  intros (ms & Ht & Hd & Hx). unfold decodeStrictJSON. rewrite Ht, distinct_members_exact.
  by rewrite bool_decide_true.
Qed.

Lemma canonical_encoded bs : decodeCanonicalBase64URL (EncodeToString bs) = Some bs.
Proof.
  unfold decodeCanonicalBase64URL. by rewrite DecodeString_EncodeToString, bool_decide_true.
Qed.

Lemma canonical_decoded value bs :
  decodeCanonicalBase64URL value = Some bs → value = EncodeToString bs.
Proof.
  unfold decodeCanonicalBase64URL. destruct (DecodeString value) as [d|]; [|done].
  case_bool_decide; [|done]. congruence.
Qed.

(** The claims are those of a companion token that is in force, up to 30 seconds. *)
Definition in_force (v : CompanionJWTVerifier) (now : Time) (claims : Claims) : Prop :=
  Audience claims = CompanionAudience ∧ Issuer_ claims = v_issuer v ∧
  0 < IssuedAt claims < Expires claims ∧
  ValidIdentifier (Subject claims) 128 = true ∧ ValidIdentifier (TenantID claims) 128 = true ∧
  ValidIdentifier (TokenID claims) 128 = true ∧
  validCompanionActionDevice (Action claims) (DeviceID claims) = true ∧
  IssuedAt claims ≤ Unix now +i Z.quot (v_skew v) second ∧
  Unix now -i Z.quot (v_skew v) second < Expires claims.

Lemma validate_in_force v now claims :
  validateCompanionClaims v now claims = Ok tt → in_force v now claims.
Proof.
  unfold validateCompanionClaims, in_force.
  guard E1. guard E2. guard E3. intros _. split_bools. split_and!; (done || lia).
Qed.

(** The token is the header and the payload under a signature of a key of the ring, and
    its payload is read as the claims. *)
Definition signed_as (v : CompanionJWTVerifier) (token : string) (claims : Claims) : Prop :=
  ∃ header h publicKey payload signature,
    token = EncodeToString header +:+ "." +:+ EncodeToString payload +:+ "." +:+ EncodeToString signature ∧
    decodeStrictJSON L (Decode_header L) header = Some h ∧ Algorithm h = "EdDSA" ∧
    v_keys v !! h_KeyID h = Some publicKey ∧ blen signature = SignatureSize ∧
    ed25519_Verify L publicKey (bytes_of (EncodeToString header +:+ "." +:+ EncodeToString payload))
      signature = true ∧
    decodeStrictJSON L (Decode_claims L) payload = Some claims.

Lemma three_parts token p0 p1 p2 :
  string_of <$> split_dots (bytes_of token) = [p0; p1; p2] → token = p0 +:+ "." +:+ p1 +:+ "." +:+ p2.
Proof.
  intros Hs. pose proof (join_split (bytes_of token)) as Hj.
  destruct (split_dots (bytes_of token)) as [|a [|b [|c [|] ] ] ]; try done. cbn in Hs. injection Hs as <- <- <-.
  apply bytes_of_inj. rewrite <- Hj. cbn [join_dots].
  rewrite !bytes_of_app, !bytes_of_string_of. done.
Qed.

Lemma VerifyJWT_ok v now token claims :
  VerifyJWT L v now token = Ok claims → signed_as v token claims ∧ in_force v now claims.
Proof.
  unfold VerifyJWT. guard E0.
  destruct (string_of <$> _) as [|p0 [|p1 [|p2 [|] ] ] ] eqn:Hs; try done.
  apply three_parts in Hs. guard E1.
  destruct (decodeCanonicalBase64URL p0) as [header|] eqn:H0; [|done].
  destruct (decodeStrictJSON L (Decode_header L) header) as [h|] eqn:Hh; [|done]. guard E2.
  destruct (v_keys v !! h_KeyID h) as [key|] eqn:Hk; [|done].
  destruct (decodeCanonicalBase64URL p2) as [sg|] eqn:H2; [|done]. guard E3. guard E4.
  destruct (decodeCanonicalBase64URL p1) as [payload|] eqn:H1; [|done].
  destruct (decodeStrictJSON L (Decode_claims L) payload) as [c|] eqn:Hc; [|done].
  destruct (validateCompanionClaims v now c) as [[]|] eqn:Hv; [|done]. intros [= <-].
  split_bools. split; [|by apply validate_in_force].
  apply canonical_decoded in H0, H1, H2. subst.
  exists header, h, key, payload, sg. split_and!; done.
Qed.

Lemma VerifyJWTAuthorization_ok v now header claims :
  VerifyJWTAuthorization L v now header = Ok claims →
  ∃ token, signed_as v token claims ∧ in_force v now claims.
Proof.
  unfold VerifyJWTAuthorization. guard E. intros H%VerifyJWT_ok. eauto.
Qed.

(** ** Issued tokens *)

Lemma dot_bytes : bytes_of "." = [dot].
Proof. reflexivity. Qed.

Lemma split_jwt a b c :
  no_dot (bytes_of a) → no_dot (bytes_of b) → no_dot (bytes_of c) →
  string_of <$> split_dots (bytes_of (a +:+ "." +:+ b +:+ "." +:+ c)) = [a; b; c].
Proof.
  intros Ha Hb Hc. rewrite !bytes_of_app, dot_bytes. cbn [app].
  rewrite split_dots_cons by done. rewrite split_dots_cons by done.
  rewrite split_dots_word by done. cbn. by rewrite !string_of_bytes_of.
Qed.

(** What an issued token looks like. *)
Lemma issueJWT_ok issuer now rnd subject tenant action device token claims :
  issueJWT L issuer now (Some rnd) subject tenant action device = Ok (token, claims) →
  claims = {| DeviceID := device; Subject := subject; Issuer_ := s_issuer issuer; OwnerID := "";
              TenantID := tenant; BindingID := ""; BindingRevision := 0; Action := action;
              Audience := CompanionAudience; IssuedAt := Unix now;
              Expires := Unix (now + s_ttl issuer); TokenID := EncodeToString rnd;
              ReleaseID := ""; ImageSHA256 := ""; SigningKeyID := "" |} ∧
  ValidIdentifier subject 128 = true ∧ ValidIdentifier tenant 128 = true ∧
  validCompanionActionDevice action device = true ∧ slen token ≤ maxTokenBytes ∧
  let header := EncodeToString (marshal_header
    {| Algorithm := "EdDSA"; h_KeyID := s_keyID issuer; h_Type := "JWT" |}) in
  let payload := EncodeToString (marshal_claims claims) in
  token = header +:+ "." +:+ payload +:+ "." +:+
    EncodeToString (ed25519_Sign L (s_privateKey issuer) (bytes_of (header +:+ "." +:+ payload))).
Proof.
  unfold issueJWT. guard E. cbv zeta. destruct (maxTokenBytes <? _) eqn:El; [done|].
  intros [= <- <-]. split_bools. split_and!; try done.
  apply bytes_of_inj. by rewrite !bytes_of_app, <- !app_assoc.
Qed.

(** The key that signs and the key that verifies belong together. *)
Definition key_pair (privateKey publicKey : bytes) : Prop :=
  ∀ message, ed25519_Verify L publicKey message (ed25519_Sign L privateKey message) = true ∧
    blen (ed25519_Sign L privateKey message) = SignatureSize.

Lemma whole_expiry now ttl : ttl mod second = 0 → Unix (now + ttl) = Unix now + ttl / second.
Proof.
  intros Hw. unfold Unix. assert (0 < second) by done.
  rewrite (Z_div_exact_full_2 ttl second) at 1 by (done || lia).
  rewrite Z.mul_comm, Z.div_add by lia. done.
Qed.

Lemma jwt_claims_validate v n iat exp rnd issuer subject tenant action device :
  v_skew v = 30 * second → v_issuer v = issuer → 0 ≤ n ≤ max_int64 →
  ValidIdentifier subject 128 = true → ValidIdentifier tenant 128 = true →
  validCompanionActionDevice action device = true → blen rnd = tokenIDBytes →
  0 < iat < exp → exp ≤ 2 ^ 40 → exp - iat ≤ Z.quot (v_maxTTL v) second →
  iat ≤ Unix n + 30 → Unix n - 30 < exp →
  validateCompanionClaims v n
    {| DeviceID := device; Subject := subject; Issuer_ := issuer; OwnerID := "";
       TenantID := tenant; BindingID := ""; BindingRevision := 0; Action := action;
       Audience := CompanionAudience; IssuedAt := iat; Expires := exp;
       TokenID := EncodeToString rnd; ReleaseID := ""; ImageSHA256 := ""; SigningKeyID := "" |} = Ok tt.
Proof.
  intros Hskew Hiss Hn Hsub Hten Hact Hrnd Hiat Hexp Hspan Hlo Hhi.
  unfold validateCompanionClaims. cbv zeta. cbn [Audience IssuedAt Expires TokenID DeviceID OwnerID
    TenantID BindingID BindingRevision Subject Issuer_ Action ReleaseID ImageSHA256].
  rewrite Hskew, Hiss. change (Z.quot (30 * second) second) with 30.
  pose proof (unix_range n Hn). assert (2 ^ 40 = 1099511627776) by done. no_wrap.
  rewrite !bool_decide_true by done. rewrite !(proj2 (Z.leb_gt _ _)), !(proj2 (Z.ltb_ge _ _)) by lia.
  assert (rnd ≠ []) as Hne by (intros ->; done).
  rewrite (encoded_identifier rnd Hne) by (unfold tokenIDBytes in *; lia).
  by rewrite Hsub, Hten, Hact.
Qed.

(** The times of a token, in seconds, between its issue and its expiry. *)
Lemma jwt_window now n ttl maxTTL :
  minimumIssuedTTL ≤ ttl → ttl ≤ maxTTL → maxTTL ≤ maximumIssuedTTL → ttl mod second = 0 →
  second ≤ now ≤ max_int64 - 2 * hour → now ≤ n < from_unix (Unix (now + ttl) + 30) →
  0 ≤ n ≤ max_int64 ∧ 0 < Unix now < Unix (now + ttl) ∧ Unix (now + ttl) ≤ 2 ^ 40 ∧
  Unix (now + ttl) - Unix now ≤ Z.quot maxTTL second ∧
  Unix now ≤ Unix n + 30 ∧ Unix n - 30 < Unix (now + ttl).
Proof.
  intros Httl Hmax Hcap Hwhole Hnow Hn. rewrite whole_expiry in * by done.
  assert (∃ k, ttl = k * second) as [k Hk].
  { exists (ttl / second). pose proof (Z_div_exact_full_2 ttl second ltac:(done) Hwhole). lia. }
  rewrite Hk, Z.div_mul in * by done.
  assert (k ≤ Z.quot maxTTL second) as Hq.
  { rewrite Z.quot_div_nonneg by (unfold minimumIssuedTTL, minute, second in *; lia).
    apply Z.div_le_lower_bound; [done|]. lia. }
  assert (∀ t, Unix t * second ≤ t < (Unix t + 1) * second) as Hu.
  { intros t. unfold Unix. pose proof (Z.mod_pos_bound t second ltac:(done)).
    pose proof (Z.div_mod t second ltac:(done)). lia. }
  pose proof (Hu now). pose proof (Hu n).
  unfold minimumIssuedTTL, maximumIssuedTTL, from_unix, minute, hour, second, max_int64 in *. lia.
Qed.

Lemma jwt_graphic a b c :
  Forall Bearer.graphic (bytes_of (EncodeToString a +:+ "." +:+ EncodeToString b +:+ "." +:+ EncodeToString c)).
Proof.
  assert (∀ bs, Forall Bearer.graphic (bytes_of (EncodeToString bs))) as Henc.
  { intros bs. eapply Forall_impl; [apply encoded_bytes|]. intros x [Hx _].
    by apply Bearer.identifier_graphic. }
  rewrite !bytes_of_app, dot_bytes. repeat (apply Forall_app; split; [apply Henc|]);
    repeat constructor; try (by vm_compute); repeat (apply Forall_app; split; [apply Henc|]);
    repeat constructor; (by vm_compute) || apply Henc.
Qed.

(** A token that was issued is verified, by a verifier that trusts the key and the
    issuer, until 30 seconds after it expires. *)
Lemma issuedJWT_verifies issuer publicKey v now rnd subject tenant action device token claims n :
  issueJWT L issuer now (Some rnd) subject tenant action device = Ok (token, claims) →
  blen rnd = tokenIDBytes → ValidIdentifier (s_keyID issuer) 64 = true →
  v_keys v !! s_keyID issuer = Some publicKey → key_pair (s_privateKey issuer) publicKey →
  v_issuer v = s_issuer issuer → v_skew v = 30 * second →
  minimumIssuedTTL ≤ s_ttl issuer ≤ v_maxTTL v → v_maxTTL v ≤ maximumIssuedTTL →
  s_ttl issuer mod second = 0 → second ≤ now ≤ max_int64 - 2 * hour →
  reads (Decode_header L) (marshal_header {| Algorithm := "EdDSA"; h_KeyID := s_keyID issuer;
                                             h_Type := "JWT" |})
    {| Algorithm := "EdDSA"; h_KeyID := s_keyID issuer; h_Type := "JWT" |} →
  reads (Decode_claims L) (marshal_claims claims) claims →
  now ≤ n < from_unix (Expires claims + 30) →
  VerifyJWTAuthorization L v n ("Bearer " +:+ token) = Ok claims.
Proof.
  intros Hi Hrnd Hkid Hkey Hpair Hiss Hskew [Httl Hmax] Hcap Hwhole Hnow Hh Hc Hn.
  apply issueJWT_ok in Hi as (Hclaims & Hsub & Hten & Hact & Hlen & Htok).
  cbv zeta in Htok. set (hb := marshal_header _) in *. set (pb := marshal_claims claims) in *.
  set (sg := ed25519_Sign L _ _) in Htok.
  assert (∀ bs, bs ≠ [] → EncodeToString bs ≠ "") as Hne by apply encoded_nonempty.
  assert (sg ≠ []) as Hsg.
  { intros E. destruct (Hpair (bytes_of (EncodeToString hb +:+ "." +:+ EncodeToString pb))) as [_ Hl].
    fold sg in Hl. rewrite E in Hl. done. }
  assert (VerifyJWT L v n token = Ok claims) as Hv.
  { unfold VerifyJWT. rewrite (proj2 (Z.ltb_ge _ _) Hlen).
    assert ((slen token =? 0) = false) as ->.
    { apply Z.eqb_neq. rewrite Htok, slen_bytes_of, !bytes_of_app, dot_bytes, !blen_app.
      change (blen [dot]) with 1.
      pose proof (blen_nonneg (bytes_of (EncodeToString hb))).
      pose proof (blen_nonneg (bytes_of (EncodeToString pb))).
      pose proof (blen_nonneg (bytes_of (EncodeToString sg))). lia. }
    rewrite Htok at 1. rewrite split_jwt by apply encoded_no_dot. cbn [orb].
    rewrite !(bool_decide_false (EncodeToString _ = "")) by (apply Hne; done).
    rewrite !canonical_encoded, (reads_strict _ _ _ Hh). cbn [orb Algorithm h_Type h_KeyID].
    rewrite Hkid, Hkey. destruct (Hpair (bytes_of (EncodeToString hb +:+ "." +:+ EncodeToString pb)))
      as [Hver Hl]. fold sg in Hver, Hl. rewrite Hl, Hver. cbn -[validateCompanionClaims decodeStrictJSON].
    rewrite (reads_strict _ _ _ Hc).
    enough (validateCompanionClaims v n claims = Ok tt) as -> by done.
    rewrite Hclaims in Hn |- *. cbn [Expires] in Hn.
    destruct (jwt_window now n (s_ttl issuer) (v_maxTTL v)) as (H1 & H2 & H3 & H4 & H5 & H6); [done..|].
    by apply jwt_claims_validate. }
  unfold VerifyJWTAuthorization. rewrite Bearer.bearer_substring, Bearer.TrimSpace_graphic
    by (rewrite Htok; apply jwt_graphic).
  assert (String.prefix "Bearer " ("Bearer " +:+ token) = true) as -> by (vm_compute; by destruct token).
  rewrite Hv, slen_bytes_of, bytes_of_app, blen_app.
  change (blen (bytes_of "Bearer ")) with 7.
  assert (0 < blen (bytes_of token)).
  { rewrite Htok, bytes_of_app, blen_app, bytes_of_app, blen_app, dot_bytes.
    change (blen [dot]) with 1. pose proof (blen_nonneg (bytes_of (EncodeToString hb))).
    pose proof (blen_nonneg (bytes_of (EncodeToString pb +:+ "." +:+ EncodeToString sg))). lia. }
  destruct (_ <=? _) eqn:E; [split_bools; lia|done].
Qed.

End Verified.

End Companion.
