(* ===== verification/AccountService.v ===== *)
(** * AccountService: companion sessions, tokens and push addresses over HTTP

    Models the account service around the ledger of [AccountAuth]:
    [internal/accountauth/service.go] (a token is signed, then registered, then handed
    out), [handler.go] (introspection for the control plane), [access_handler.go] (tokens
    for action consent), [push_installation_handler.go] and [push_token_protector.go]
    (push addresses). A handler takes the ledger once, so it is one step on the store. The
    identity provider behind the authenticators, AES-GCM and the JSON decoder are
    arguments. *)

From stdpp Require Import base gmap strings list.
From Stdlib Require Import ZArith Lia.
From Stdlib.Strings Require Import Byte.
From S2P Require Import Prelude GoBase GoCrypto Protocol Auth AccountAuth Provisioning StrictJSON GoWire Companion.

Module AccountService.
Import Ident AccountAuth Companion.

(** ** Answers *)

(** An answer without a body. *)
Definition answer (header : Wire.Headers) (code : Z) : Wire.Written :=
  {| Wire.Status := code; Wire.w_Header := header; Wire.w_Body := [] |}.

Definition retry_later (header : Wire.Headers) : Wire.Written :=
  answer (Wire.set_header "Retry-After" "1" header) 503.

Definition json_answer (header : Wire.Headers) (body : bytes) : Wire.Written :=
  {| Wire.Status := 200;
     Wire.w_Header := Wire.set_header "Content-Length" (FormatInt (blen body))
                        (Wire.set_header "Content-Type" "application/json" header);
     Wire.w_Body := body |}.

(** A body of exactly the declared length, within the limit. *)
Definition read_body (limit : Z) (request : Wire.Request) : option bytes :=
  match Wire.read_limited limit (Wire.Body request) with
  | None => None
  | Some body =>
      IF negb (blen body =? Wire.ContentLength request) || (limit <? blen body) RETURN None ;;
      Some body
  end.

(** The checks of a request to a private JSON endpoint: path, TLS, headers and length;
    [tls] is what is asked of the connection. *)
Definition valid_json_request (path contract_name contract : string) (limit : Z)
    (tls : Wire.Request → bool) (request : Wire.Request) : bool :=
  bool_decide (Wire.Method request = "POST") && bool_decide (Wire.Path request = path)
  && bool_decide (Wire.RawPath request = "") && bool_decide (Wire.RawQuery request = "")
  && bool_decide (Wire.Fragment request = "") && tls request
  && bool_decide (Wire.singleHeader (Wire.Header request) "Content-Type" = "application/json")
  && bool_decide (Wire.singleHeader (Wire.Header request) "Accept" = "application/json")
  && bool_decide (Wire.singleHeader (Wire.Header request) "Cache-Control" = "no-store")
  && bool_decide (Wire.singleHeader (Wire.Header request) contract_name = contract)
  && negb (Wire.ContentLength request <=? 0) && negb (limit <? Wire.ContentLength request)
  && bool_decide (Wire.TransferEncoding request = []).

Definition modern_tls (request : Wire.Request) : bool :=
  match Wire.TLS request with
  | None => false
  | Some tls => negb (Wire.TLSVersion tls <? Wire.VersionTLS12)
  end.

Definition verifiedWorkloadTLS (request : Wire.Request) : bool :=
  match Wire.TLS request with
  | None => false
  | Some tls => (Wire.VersionTLS12 <=? Wire.TLSVersion tls)
                && (0 <? Wire.PeerCertificates tls) && (0 <? Wire.VerifiedChains tls)
  end.

(** ** Introspection *)

Definition setIntrospectionHeaders : Wire.Headers :=
  Wire.set_header contract_header CompanionAuthorizationContract
    (Wire.set_header "Cache-Control" "no-store" Wire.no_headers).

Definition binding_of_request (q : CompanionIntrospectionRequest) : TokenBinding :=
  {| TokenID := q_TokenID q; Subject := q_Subject q; TenantID := q_TenantID q;
     Action := q_Action q; DeviceID := q_DeviceID q; IssuedAt := q_IssuedAt q;
     ExpiresAt := q_ExpiresAt q |}.

Definition status_response (binding : TokenBinding) (authorization : Authorization) :
    CompanionIntrospectionResponse :=
  {| o_Version := 1; o_Status := "active"; o_TokenID := TokenID binding;
     o_Subject := Subject binding; o_TenantID := TenantID binding; o_Action := Action binding;
     o_DeviceID := DeviceID binding; o_AccountRevision := AccountRevision authorization;
     o_ValidUntil := ValidUntil authorization |}.

Section Introspection.
Context (L : library).

Definition serveIntrospection (store : Store) (ctx : context) (now : Time)
    (request : Wire.Request) : Wire.Written :=
  let headers := setIntrospectionHeaders in
  IF negb (valid_json_request CompanionIntrospectionPath contract_header
             CompanionAuthorizationContract MaximumIntrospectionBodyBytes verifiedWorkloadTLS
             request)
    RETURN answer headers 400 ;;
  match read_body MaximumIntrospectionBodyBytes request with
  | None => answer headers 400
  | Some body =>
      match Decode_introspection L body with
      | None => answer headers 400
      | Some input =>
          IF negb (bool_decide (marshal_introspection input = body)) || negb (q_Version input =? 1)
            RETURN answer headers 400 ;;
          let binding := binding_of_request input in
          IF negb (ValidTokenBinding binding) RETURN answer headers 400 ;;
          match Introspect store ctx binding now with
          | Err _ => retry_later headers
          | Ok None => answer headers 204
          | Ok (Some authorization) =>
              IF negb (bool_decide (Binding authorization = binding))
                 || negb (ValidAccountRevision (AccountRevision authorization))
                 || (ValidUntil authorization <=? 0)
                 || (ExpiresAt binding <? ValidUntil authorization)
                RETURN retry_later headers ;;
              let responseBody := marshal_status (status_response binding authorization) in
              IF (blen responseBody =? 0) || (MaximumIntrospectionBodyBytes <? blen responseBody)
                RETURN retry_later headers ;;
              json_answer headers responseBody
          end
      end
  end.

(** ** Issuing tokens *)

Inductive TokenPurpose : Type :=
| PurposeClaim
| PurposeRelease
| PurposeActionConsent
| PurposeOther (name : string).

#[global] Instance TokenPurpose_eq_dec : EqDecision TokenPurpose.
Proof. solve_decision. Defined.

Definition MaximumActionConsentTokenLifetime : Duration := 5 * minute.

Record IssuedToken : Type := {
  Bearer : string;
  t_Claims : Token.Claims;
  t_Authorization : Authorization;
}.

(** An error of the token issuer is wrapped. *)
Inductive issue_error : Type :=
| JWTError (e : Token.error)
| LedgerError (e : error).

Definition BindingFromClaims (claims : Token.Claims) : result error TokenBinding :=
  let binding :=
    {| TokenID := Token.TokenID claims; Subject := Token.Subject claims;
       TenantID := Token.TenantID claims; Action := Token.Action claims;
       DeviceID := Token.DeviceID claims; IssuedAt := Token.IssuedAt claims;
       ExpiresAt := Token.Expires claims |} in
  IF negb (bool_decide (Token.Audience claims = Token.CompanionAudience))
     || negb (ValidHTTPSIssuer L (Token.Issuer_ claims))
     || negb (bool_decide (Token.OwnerID claims = ""))
     || negb (bool_decide (Token.BindingID claims = ""))
     || negb (Token.BindingRevision claims =? 0)
     || negb (bool_decide (Token.ReleaseID claims = ""))
     || negb (bool_decide (Token.ImageSHA256 claims = "")) || negb (ValidTokenBinding binding)
    RETURN Err ErrInvalid ;;
  Ok binding.

(** [inow] is the clock of the issuer, [lnow] that of the ledger. *)
Definition Issue (issuer : CompanionJWTIssuer) (store : Store) (ctx : context)
    (session : Session) (purpose : TokenPurpose) (deviceID : string) (inow : Time)
    (random : option bytes) (lnow : Time) : Store * result issue_error IssuedToken :=
  IF nil_ctx ctx || negb (ValidSession session) RETURN (store, Err (LedgerError ErrInvalid)) ;;
  let subject := p_Subject (s_Principal session) in
  let tenantID := p_TenantID (s_Principal session) in
  let signed :=
    match purpose with
    | PurposeClaim => if bool_decide (deviceID = "")
                      then Some (IssueJWT L issuer inow random subject tenantID) else None
    | PurposeRelease => Some (IssueReleaseJWT L issuer inow random subject tenantID deviceID)
    | PurposeActionConsent =>
        Some (IssueActionConsentJWT L issuer inow random subject tenantID deviceID)
    | PurposeOther _ => None
    end in
  match signed with
  | None => (store, Err (LedgerError ErrInvalid))
  | Some (Err e) => (store, Err (JWTError e))
  | Some (Ok (bearer, claims)) =>
      IF bool_decide (purpose = PurposeActionConsent)
         && (MaximumActionConsentTokenLifetime
             <? wrap_i64 ((Token.Expires claims -i Token.IssuedAt claims) * second))
        RETURN (store, Err (LedgerError ErrInvalid)) ;;
      match BindingFromClaims claims with
      | Err e => (store, Err (LedgerError e))
      | Ok binding =>
          match RegisterToken store ctx session binding lnow with
          | (store, Err e) => (store, Err (LedgerError e))
          | (store, Ok authorization) =>
              (store, Ok {| Bearer := bearer; t_Claims := claims;
                            t_Authorization := authorization |})
          end
      end
  end.

(** ** Tokens for action consent *)

Definition ActionConsentAccessPath : string := "/v1/companion/action-consent-access".
Definition ActionConsentAccessContract : string := "xz-companion-access-v1".
Definition access_header : string := "X-Xiaozhi-Companion-Access".
Definition maximumAccessRequestBytes : Z := 256.
Definition maximumAccessResponseBytes : Z := 6 * 1024.

(** The errors an authenticator reports; any other is like [ErrAppSessionUnavailable]. *)
Inductive app_error : Type :=
| ErrAppSessionUnauthorized
| ErrAppOwnershipChanged
| ErrAppSessionUnavailable.

Record actionConsentAccessRequest : Type := {
  a_Version : Z;
  a_DeviceID : string;
  a_OwnerRevision : Z;
  a_Purpose : string;
}.

Record actionConsentAccessResponse : Type := {
  x_Version : Z;
  x_DeviceID : string;
  x_OwnerRevision : Z;
  x_ExpiresAtUnix : Z;
  x_AccessToken : string;
}.

Definition marshal_access (q : actionConsentAccessRequest) : bytes :=
  Wire.object [("version", Wire.JNumber (a_Version q)); ("device_id", Wire.JString (a_DeviceID q));
               ("owner_revision", Wire.JNumber (a_OwnerRevision q));
               ("purpose", Wire.JString (a_Purpose q))].

Definition access_fields (x : actionConsentAccessResponse) : list (string * Wire.value) :=
  [("version", Wire.JNumber (x_Version x)); ("device_id", Wire.JString (x_DeviceID x));
   ("owner_revision", Wire.JNumber (x_OwnerRevision x));
   ("expires_at_unix", Wire.JNumber (x_ExpiresAtUnix x));
   ("access_token", Wire.JString (x_AccessToken x))].

Definition marshal_access_response (x : actionConsentAccessResponse) : bytes :=
  Wire.object (access_fields x).

Definition validAppAuthorization (value : string) : bool :=
  IF negb (String.prefix "Bearer " value) || (slen value <=? 7) || (8 * 1024 <? slen value)
    RETURN false ;;
  forallb (λ b, negb ((bval b <=? 32) || (127 <=? bval b))) (drop 7 (bytes_of value)).

Definition setActionConsentAccessHeaders : Wire.Headers :=
  Wire.set_header access_header ActionConsentAccessContract
    (Wire.set_header "Cache-Control" "no-store" Wire.no_headers).

Definition writeAccessAuthorizationError (headers : Wire.Headers) (e : app_error) : Wire.Written :=
  match e with
  | ErrAppSessionUnauthorized => answer headers 401
  | ErrAppOwnershipChanged => answer headers 409
  | ErrAppSessionUnavailable => retry_later headers
  end.

Definition writeAccessIssueError (headers : Wire.Headers) (e : issue_error) : Wire.Written :=
  match e with
  | LedgerError (ErrStaleSession | ErrSuspended | ErrInactive | ErrNotFound) => answer headers 401
  | _ => retry_later headers
  end.

(** The checks of the handler on what [Issue] returned. *)
Definition issued_fits (input : actionConsentAccessRequest) (issued : IssuedToken) : bool :=
  let claims := t_Claims issued in
  negb (bool_decide (Bearer issued = ""))
  && bool_decide (Token.Action claims = Token.CompanionConsentAction)
  && bool_decide (Token.DeviceID claims = a_DeviceID input)
  && negb (Token.Expires claims <=? Token.IssuedAt claims)
  && negb (Z.quot MaximumActionConsentTokenLifetime second
           <? Token.Expires claims -i Token.IssuedAt claims)
  && bool_decide (TokenID (Binding (t_Authorization issued)) = Token.TokenID claims)
  && (ValidUntil (t_Authorization issued) =? Token.Expires claims).

(** [authenticate] is the identity provider, given the request, the device and the
    revision of its ownership. *)
Definition serveAccess (Decode_access : bytes → option actionConsentAccessRequest)
    (authenticate : Wire.Request → string → Z → result app_error Session)
    (issuer : CompanionJWTIssuer) (store : Store) (ctx : context) (inow : Time)
    (random : option bytes) (lnow : Time) (request : Wire.Request) : Store * Wire.Written :=
  let headers := setActionConsentAccessHeaders in
  IF negb (valid_json_request ActionConsentAccessPath access_header ActionConsentAccessContract
             maximumAccessRequestBytes modern_tls request)
     || negb (validAppAuthorization (Wire.singleHeader (Wire.Header request) "Authorization"))
    RETURN (store, answer headers 400) ;;
  match read_body maximumAccessRequestBytes request with
  | None => (store, answer headers 400)
  | Some body =>
      match Decode_access body with
      | None => (store, answer headers 400)
      | Some input =>
          IF negb (bool_decide (marshal_access input = body)) || negb (a_Version input =? 1)
             || negb (ValidIdentifier (a_DeviceID input) 64)
             || negb (ValidAccountRevision (a_OwnerRevision input))
             || negb (bool_decide (a_Purpose input = "action-consent"))
            RETURN (store, answer headers 400) ;;
          match authenticate request (a_DeviceID input) (a_OwnerRevision input) with
          | Err e => (store, writeAccessAuthorizationError headers e)
          | Ok session =>
              IF negb (ValidSession session) RETURN (store, answer headers 401) ;;
              match Issue issuer store ctx session PurposeActionConsent (a_DeviceID input) inow
                      random lnow with
              | (store, Err e) => (store, writeAccessIssueError headers e)
              | (store, Ok issued) =>
                  IF negb (issued_fits input issued) RETURN (store, retry_later headers) ;;
                  let responseBody := marshal_access_response
                    {| x_Version := 1; x_DeviceID := a_DeviceID input;
                       x_OwnerRevision := a_OwnerRevision input;
                       x_ExpiresAtUnix := Token.Expires (t_Claims issued);
                       x_AccessToken := Bearer issued |} in
                  IF (blen responseBody =? 0) || (maximumAccessResponseBytes <? blen responseBody)
                    RETURN (store, retry_later headers) ;;
                  (store, json_answer headers responseBody)
              end
          end
      end
  end.

End Introspection.

(** ** Push tokens *)

Definition pushTokenProtectionDomain : string := "xz-companion-push-token-v1".

Definition platform_name (platform : PushPlatform) : string :=
  match platform with
  | PushPlatformAPNSProduction => "apns-production"
  | PushPlatformAPNSDevelopment => "apns-development"
  | PushPlatformFCM => "fcm"
  | PushPlatformOther name => name
  end.

Record PushTokenBinding : Type := {
  b_Principal : Principal;
  b_InstallationID : string;
  b_Platform : PushPlatform;
}.

#[global] Instance PushTokenBinding_eq_dec : EqDecision PushTokenBinding.
Proof. solve_decision. Defined.

Record pushTokenKey : Type := {
  encryption : bytes;
  lookup : bytes;
}.

Record AESGCMPushTokenProtector : Type := {
  currentKeyID : string;
  p_keys : gmap string pushTokenKey;
}.

Inductive push_error : Type :=
| PushInvalid
| PushUnavailable
| ErrPushTokenAuthentication.

(** The characters are those of [auth.ValidIdentifier]. *)
Definition authIdentifier (value : string) : bool :=
  IF (slen value <? 1) || (64 <? slen value) RETURN false ;;
  forallb identifier_byte (bytes_of value).

(** The loop over the materials only rejects. *)
Definition NewAESGCMPushTokenProtector (current : string) (materials : gmap string pushTokenKey) :
    option AESGCMPushTokenProtector :=
  IF (Z.of_nat (size materials) <? 1) || (8 <? Z.of_nat (size materials))
     || negb (authIdentifier current)
    RETURN None ;;
  IF existsb (λ '(keyID, material),
       negb (authIdentifier keyID) || negb (blen (encryption material) =? 32)
       || negb (blen (lookup material) =? 32)
       || bool_decide (encryption material = lookup material)) (map_to_list materials)
    RETURN None ;;
  IF bool_decide (materials !! current = None) RETURN None ;;
  Some {| currentKeyID := current; p_keys := materials |}.

Definition ValidPushTokenBinding (binding : PushTokenBinding) : bool :=
  ValidPrincipal (b_Principal binding) && ValidPushInstallationID (b_InstallationID binding)
  && ValidPushPlatform (b_Platform binding).

(** A text that [hex.DecodeString] reads and [hex.EncodeToString] writes back has lower
    case digits. *)
Definition ValidRawPushToken (platform : PushPlatform) (rawToken : string) : bool :=
  match platform with
  | PushPlatformAPNSProduction | PushPlatformAPNSDevelopment =>
      IF (slen rawToken <? 32) || (512 <? slen rawToken) || negb (slen rawToken mod 2 =? 0)
        RETURN false ;;
      forallb hex_byte (bytes_of rawToken)
  | PushPlatformFCM =>
      IF (slen rawToken <? 20) || (4096 <? slen rawToken) RETURN false ;;
      forallb (λ b, let c := bval b in
        ((65 <=? c) && (c <=? 90)) || ((97 <=? c) && (c <=? 122)) || ((48 <=? c) && (c <=? 57))
        || (c =? 58) || (c =? 95) || (c =? 45) || (c =? 46) || (c =? 126)) (bytes_of rawToken)
  | PushPlatformOther _ => false
  end.

Definition pushTokenAAD (binding : PushTokenBinding) (keyID : string) : bytes :=
  Provisioning.join_lines (bytes_of <$>
    [pushTokenProtectionDomain; p_TenantID (b_Principal binding); p_Subject (b_Principal binding);
     b_InstallationID binding; platform_name (b_Platform binding); keyID]).

Definition pushTokenDigest (key : bytes) (platform : PushPlatform) (rawToken : string) : bytes :=
  hmac_sha256 key (bytes_of pushTokenProtectionDomain ++ [x00]
                   ++ bytes_of (platform_name platform) ++ [x00] ++ bytes_of rawToken).

Definition nonce_size : Z := 12.

Section Protector.

(** AES-256-GCM: key, nonce, text, additional data. *)
Context (gcm_Seal : bytes → bytes → bytes → bytes → bytes)
        (gcm_Open : bytes → bytes → bytes → bytes → option bytes).

(** [random] is the nonce that was read. *)
Definition Seal (protector : AESGCMPushTokenProtector) (ctx : context) (random : option bytes)
    (binding : PushTokenBinding) (rawToken : string) : result push_error ProtectedPushToken :=
  IF nil_ctx ctx || negb (ValidPushTokenBinding binding)
     || negb (ValidRawPushToken (b_Platform binding) rawToken)
    RETURN Err PushInvalid ;;
  IF ctx_Err ctx RETURN Err PushUnavailable ;;
  match p_keys protector !! currentKeyID protector with
  | None => Err PushUnavailable
  | Some key =>
      match random with
      | None => Err PushUnavailable
      | Some nonce =>
          let aad := pushTokenAAD binding (currentKeyID protector) in
          Ok {| Ciphertext := nonce ++ gcm_Seal (encryption key) nonce (bytes_of rawToken) aad;
                KeyID := currentKeyID protector;
                Digest := pushTokenDigest (lookup key) (b_Platform binding) rawToken |}
      end
  end.

Definition Open (protector : AESGCMPushTokenProtector) (ctx : context)
    (binding : PushTokenBinding) (protected : ProtectedPushToken) : result push_error string :=
  IF nil_ctx ctx || negb (ValidPushTokenBinding binding)
     || negb (ValidProtectedPushToken protected)
    RETURN Err PushInvalid ;;
  IF ctx_Err ctx RETURN Err PushUnavailable ;;
  match p_keys protector !! KeyID protected with
  | None => Err ErrPushTokenAuthentication
  | Some key =>
      IF blen (Ciphertext protected) <=? nonce_size RETURN Err ErrPushTokenAuthentication ;;
      let nonce := take (Z.to_nat nonce_size) (Ciphertext protected) in
      match gcm_Open (encryption key) nonce (drop (Z.to_nat nonce_size) (Ciphertext protected))
              (pushTokenAAD binding (KeyID protected)) with
      | None => Err ErrPushTokenAuthentication
      | Some plaintext =>
          let rawToken := string_of plaintext in
          IF negb (ValidRawPushToken (b_Platform binding) rawToken)
            RETURN Err ErrPushTokenAuthentication ;;
          IF negb (bool_decide (pushTokenDigest (lookup key) (b_Platform binding) rawToken
                                = Digest protected))
            RETURN Err ErrPushTokenAuthentication ;;
          Ok rawToken
      end
  end.

(** ** Push installations over HTTP *)

Definition PushInstallationPathPrefix : string := "/v1/companion/push-installations/".
Definition PushInstallationContract : string := "xz-companion-push-v1".
Definition push_header : string := "X-Xiaozhi-Companion-Push".
Definition maximumPushRegistrationBytes : Z := 5 * 1024.

Record pushInstallationRequest : Type := {
  pi_Version : Z;
  pi_Platform : PushPlatform;
  pi_Token : string;
}.

Definition marshal_push (q : pushInstallationRequest) : bytes :=
  Wire.object [("version", Wire.JNumber (pi_Version q));
               ("platform", Wire.JString (platform_name (pi_Platform q)));
               ("token", Wire.JString (pi_Token q))].

Definition setPushInstallationHeaders : Wire.Headers :=
  Wire.set_header push_header PushInstallationContract
    (Wire.set_header "Cache-Control" "no-store" Wire.no_headers).

(** What an authenticator or the store reports. *)
Inductive push_http_error : Type :=
| AppError (e : app_error)
| StoreError (e : error).

Definition writePushInstallationError (headers : Wire.Headers) (e : push_http_error) : Wire.Written :=
  match e with
  | AppError ErrAppSessionUnauthorized
  | StoreError (ErrStaleSession | ErrSuspended | ErrInactive | ErrNotFound) => answer headers 401
  | StoreError (ErrConflict | ErrCapacity) => answer headers 409
  | _ => retry_later headers
  end.

Definition valid_push_request (request : Wire.Request) : bool :=
  (bool_decide (Wire.Method request = "PUT") || bool_decide (Wire.Method request = "DELETE"))
  && String.prefix PushInstallationPathPrefix (Wire.Path request)
  && bool_decide (Wire.RawPath request = "") && bool_decide (Wire.RawQuery request = "")
  && bool_decide (Wire.Fragment request = "") && modern_tls request
  && bool_decide (Wire.singleHeader (Wire.Header request) "Accept" = "application/json")
  && bool_decide (Wire.singleHeader (Wire.Header request) "Cache-Control" = "no-store")
  && bool_decide (Wire.singleHeader (Wire.Header request) push_header = PushInstallationContract)
  && validAppAuthorization (Wire.singleHeader (Wire.Header request) "Authorization")
  && bool_decide (Wire.TransferEncoding request = []).

(** [strings.TrimPrefix] of a path that has the prefix. *)
Definition installation_of_path (path : string) : string :=
  string_of (drop (length (bytes_of PushInstallationPathPrefix)) (bytes_of path)).

Definition servePush (Decode_push : bytes → option pushInstallationRequest)
    (authenticate : Wire.Request → result push_http_error Session)
    (protector : AESGCMPushTokenProtector) (random : option bytes)
    (store : Store) (ctx : context) (now : Time) (request : Wire.Request) :
    Store * Wire.Written :=
  let headers := setPushInstallationHeaders in
  IF negb (valid_push_request request) RETURN (store, answer headers 400) ;;
  let installationID := installation_of_path (Wire.Path request) in
  IF negb (ValidPushInstallationID installationID) RETURN (store, answer headers 400) ;;
  match authenticate request with
  | Err e => (store, writePushInstallationError headers e)
  | Ok session =>
      IF negb (ValidSession session) RETURN (store, answer headers 401) ;;
      if bool_decide (Wire.Method request = "DELETE") then
        IF negb (Wire.ContentLength request =? 0)
           || negb (bool_decide (Wire.singleHeader (Wire.Header request) "Content-Type" = ""))
          RETURN (store, answer headers 400) ;;
        match RemovePushInstallation store ctx session installationID with
        | (store, Err e) => (store, writePushInstallationError headers (StoreError e))
        | (store, Ok _) => (store, answer headers 204)
        end
      else
        IF negb (bool_decide (Wire.singleHeader (Wire.Header request) "Content-Type"
                              = "application/json"))
           || (Wire.ContentLength request <=? 0)
           || (maximumPushRegistrationBytes <? Wire.ContentLength request)
          RETURN (store, answer headers 400) ;;
        match read_body maximumPushRegistrationBytes request with
        | None => (store, answer headers 400)
        | Some body =>
            match Decode_push body with
            | None => (store, answer headers 400)
            | Some input =>
                IF negb (bool_decide (marshal_push input = body)) || negb (pi_Version input =? 1)
                   || negb (ValidRawPushToken (pi_Platform input) (pi_Token input))
                  RETURN (store, answer headers 400) ;;
                let binding := {| b_Principal := s_Principal session;
                                  b_InstallationID := installationID;
                                  b_Platform := pi_Platform input |} in
                match Seal protector ctx random binding (pi_Token input) with
                | Err _ => (store, retry_later headers)
                | Ok protected =>
                    match UpsertPushInstallation store ctx session
                            {| g_InstallationID := installationID;
                               g_Platform := pi_Platform input; g_Token := protected |} now with
                    | (store, Err e) => (store, writePushInstallationError headers (StoreError e))
                    | (store, Ok _) => (store, answer headers 204)
                    end
                end
            end
        end
  end.

End Protector.

End AccountService.
