(* ===== verification/EntitlementService.v ===== *)
(** * EntitlementService: service entitlements over HTTP

    Models [internal/accountauth/entitlement_http.go] (the control plane asks which
    services an account may use), [entitlement_update_http.go] and
    [entitlement_update_keyring.go] (signed updates of the billing adapter and the keys
    that may sign them) and [entitlement_update_client.go] (the adapter's client). The
    signer, Ed25519 and the JSON decoder are arguments; the transport's certificates are
    not modelled. *)

From stdpp Require Import base gmap strings list.
From Stdlib Require Import ZArith Lia.
From Stdlib.Strings Require Import Byte.
From S2P Require Import Prelude GoBase GoCrypto Protocol Auth AccountAuth StrictJSON GoWire Companion AccountService.

Module EntitlementService.
Import Ident AccountAuth Companion AccountService.

Definition ServiceEntitlementContract : string := "xz-service-entitlement-v1".
Definition ServiceEntitlementAuthorizationPath : string := "/v1/service-entitlements/authorize".
Definition maximumEntitlementHTTPBodyBytes : Z := 512.
Definition entitlement_header : string := "X-Xiaozhi-Service-Entitlement".

Record authorizationRequest : Type := {
  ar_Version : Z;
  ar_TenantID : string;
  ar_Subject : string;
  ar_Service : ProductService;
}.

Record authorizationResponse : Type := {
  as_Version : Z;
  as_Status : string;
  as_Revision : Z;
  as_ValidUntil : Z;
}.

Record updateRequest : Type := {
  ur_Version : Z;
  ur_SourceEventID : string;
  ur_TenantID : string;
  ur_Subject : string;
  ur_PreviousRevision : Z;
  ur_Revision : Z;
  ur_PlanID : string;
  ur_State : string;
  ur_VoiceEnabled : bool;
  ur_AgentEnabled : bool;
  ur_AccessUntil : Z;
  ur_AuthorizedAt : Z;
  ur_AuthorizationExpiresAt : Z;
}.

Record updateResponse : Type := {
  us_Version : Z;
  us_Status : string;
  us_SourceEventID : string;
  us_Revision : Z;
}.

Definition service_name (service : ProductService) : string :=
  match service with
  | ProductServiceVoice => "voice"
  | ProductServiceAgent => "agent"
  | ProductServiceOther name => name
  end.

Definition authorization_fields (q : authorizationRequest) : list (string * Wire.value) :=
  [("version", Wire.JNumber (ar_Version q)); ("tenant_id", Wire.JString (ar_TenantID q));
   ("subject", Wire.JString (ar_Subject q));
   ("service", Wire.JString (service_name (ar_Service q)))].
Definition marshal_authorization (q : authorizationRequest) : bytes :=
  Wire.object (authorization_fields q).

Definition grant_fields (o : authorizationResponse) : list (string * Wire.value) :=
  [("version", Wire.JNumber (as_Version o)); ("status", Wire.JString (as_Status o));
   ("revision", Wire.JNumber (as_Revision o)); ("valid_until", Wire.JNumber (as_ValidUntil o))].
Definition marshal_grant (o : authorizationResponse) : bytes := Wire.object (grant_fields o).

Definition update_fields_of (q : updateRequest) : list (string * Wire.value) :=
  [("version", Wire.JNumber (ur_Version q));
   ("source_event_id", Wire.JString (ur_SourceEventID q));
   ("tenant_id", Wire.JString (ur_TenantID q)); ("subject", Wire.JString (ur_Subject q));
   ("previous_revision", Wire.JNumber (ur_PreviousRevision q));
   ("revision", Wire.JNumber (ur_Revision q)); ("plan_id", Wire.JString (ur_PlanID q));
   ("state", Wire.JString (ur_State q)); ("voice_enabled", Wire.JBool (ur_VoiceEnabled q));
   ("agent_enabled", Wire.JBool (ur_AgentEnabled q));
   ("access_until", Wire.JNumber (ur_AccessUntil q));
   ("authorized_at", Wire.JNumber (ur_AuthorizedAt q));
   ("authorization_expires_at", Wire.JNumber (ur_AuthorizationExpiresAt q))].
Definition marshal_update (q : updateRequest) : bytes := Wire.object (update_fields_of q).

Definition marshal_disposition (o : updateResponse) : bytes :=
  Wire.object [("version", Wire.JNumber (us_Version o)); ("status", Wire.JString (us_Status o));
               ("source_event_id", Wire.JString (us_SourceEventID o));
               ("revision", Wire.JNumber (us_Revision o))].

(** The decoders: one document with known members, and nothing after it. *)
Record codecs : Type := {
  Decode_authorization : bytes → option authorizationRequest;
  Decode_grant : bytes → option authorizationResponse;
  Decode_update : bytes → option updateRequest;
  Decode_disposition : bytes → option updateResponse;
}.

Section Services.
Context (L : library) (J : codecs).

(** ** Which services an account may use *)

Definition setServiceEntitlementHeaders : Wire.Headers :=
  Wire.set_header entitlement_header ServiceEntitlementContract
    (Wire.set_header "Cache-Control" "no-store" Wire.no_headers).

Definition serveAuthorization (store : Store) (ctx : context) (now : Time)
    (request : Wire.Request) : Wire.Written :=
  let headers := setServiceEntitlementHeaders in
  IF negb (valid_json_request ServiceEntitlementAuthorizationPath entitlement_header
             ServiceEntitlementContract maximumEntitlementHTTPBodyBytes verifiedWorkloadTLS request)
    RETURN answer headers 400 ;;
  match read_body maximumEntitlementHTTPBodyBytes request with
  | None => answer headers 400
  | Some body =>
      match Decode_authorization J body with
      | None => answer headers 400
      | Some input =>
          let principal := {| p_TenantID := ar_TenantID input; p_Subject := ar_Subject input |} in
          IF negb (bool_decide (marshal_authorization input = body)) || negb (ar_Version input =? 1)
             || negb (ValidPrincipal principal) || negb (ValidProductService (ar_Service input))
            RETURN answer headers 400 ;;
          match AuthorizeService store ctx principal (ar_Service input) now with
          | Err _ => retry_later headers
          | Ok None => answer headers 204
          | Ok (Some grant) =>
              IF negb (ValidAccountRevision (gr_Revision grant)) || negb (available (gr_State grant))
                 || negb (validEntitlementTime (gr_ValidUntil grant))
                RETURN retry_later headers ;;
              let responseBody := marshal_grant
                {| as_Version := 1; as_Status := gr_State grant; as_Revision := gr_Revision grant;
                   as_ValidUntil := Unix (gr_ValidUntil grant) |} in
              IF (blen responseBody =? 0) || (maximumEntitlementHTTPBodyBytes <? blen responseBody)
                RETURN retry_later headers ;;
              json_answer headers responseBody
          end
      end
  end.

Definition ValidServiceEntitlementAuthorizationURL (endpoint : string) : bool :=
  match url_Parse L endpoint with
  | None => false
  | Some parsed =>
      bool_decide (Wire.u_Scheme parsed = "https") && negb (bool_decide (Wire.u_Host parsed = ""))
      && negb (Wire.u_HasUser parsed) && bool_decide (Wire.u_RawQuery parsed = "")
      && bool_decide (Wire.u_Fragment parsed = "")
      && bool_decide (Wire.u_Path parsed = ServiceEntitlementAuthorizationPath)
      && bool_decide (Wire.u_RawPath parsed = "") && bool_decide (Wire.u_String parsed = endpoint)
  end.

Definition authorization_headers : Wire.Headers :=
  Wire.set_header entitlement_header ServiceEntitlementContract
    (Wire.set_header "Cache-Control" "no-store"
      (Wire.set_header "Accept" "application/json"
        (Wire.set_header "Content-Type" "application/json" Wire.no_headers))).

Definition valid_answer (response : Wire.Response) : bool :=
  match Wire.r_TLS response with
  | None => false
  | Some tls => negb (Wire.TLSVersion tls <? Wire.VersionTLS12)
  end
  && bool_decide (Wire.singleHeader (Wire.r_Header response) "Cache-Control" = "no-store")
  && bool_decide (Wire.singleHeader (Wire.r_Header response) entitlement_header
                  = ServiceEntitlementContract).

Definition grant_of (now : Time) (response : Wire.Response) :
    result error (option ServiceEntitlementGrant) :=
  IF negb (valid_answer response) RETURN Err ErrUnavailable ;;
  match Wire.read_limited maximumEntitlementHTTPBodyBytes (Wire.r_Body response) with
  | None => Err ErrUnavailable
  | Some body =>
      IF maximumEntitlementHTTPBodyBytes <? blen body RETURN Err ErrUnavailable ;;
      IF Wire.StatusCode response =? 204
        RETURN (IF negb (blen body =? 0) || (0 <? Wire.r_ContentLength response)
                   || negb (bool_decide (Wire.r_Header response "Content-Type" = []))
                  RETURN Err ErrUnavailable ;;
                Ok None) ;;
      IF negb (Wire.StatusCode response =? 200)
         || negb (bool_decide (Wire.singleHeader (Wire.r_Header response) "Content-Type"
                               = "application/json"))
         || (blen body =? 0) || negb (Wire.r_ContentLength response =? blen body)
        RETURN Err ErrUnavailable ;;
      match Decode_grant J body with
      | None => Err ErrUnavailable
      | Some output =>
          let validUntil := from_unix (as_ValidUntil output) in
          IF negb (bool_decide (marshal_grant output = body)) || negb (as_Version output =? 1)
             || negb (ValidAccountRevision (as_Revision output))
             || negb (available (as_Status output)) || negb (validEntitlementTime validUntil)
             || negb (After validUntil now)
            RETURN Err ErrUnavailable ;;
          Ok (Some {| gr_Revision := as_Revision output; gr_State := as_Status output;
                      gr_ValidUntil := validUntil |})
      end
  end.

(** The client's [AuthorizeService]; [now] is read when the answer is checked. *)
Definition RemoteAuthorizeService (endpoint : string) (Do : Wire.Request → option Wire.Response)
    (ctx : context) (now : Time) (principal : Principal) (service : ProductService) :
    result error (option ServiceEntitlementGrant) :=
  IF nil_ctx ctx || negb (ValidPrincipal principal) || negb (ValidProductService service)
    RETURN Err ErrInvalid ;;
  let body := marshal_authorization
    {| ar_Version := 1; ar_TenantID := p_TenantID principal; ar_Subject := p_Subject principal;
       ar_Service := service |} in
  IF (blen body =? 0) || (maximumEntitlementHTTPBodyBytes <? blen body)
    RETURN Err ErrUnavailable ;;
  match url_Parse L endpoint with
  | None => Err ErrUnavailable
  | Some u =>
      match Do (post u body authorization_headers) with
      | None => Err ErrUnavailable
      | Some response => grant_of now response
      end
  end.

(** ** The keys of the billing adapter *)

Definition ServiceEntitlementUpdateKeyringSchema : string :=
  "xz-service-entitlement-update-keyring-v1".
Definition maximumEntitlementUpdateKeyringBytes : Z := 16 * 1024.
Definition maximumEntitlementUpdateKeys : Z := 3.

Record keyringEntry : Type := {
  ke_KeyID : string;
  ke_PublicKeyBase64URL : string;
  ke_State : string;
  ke_VerifyUntilUnix : Z;
}.

Record keyringDocument : Type := {
  kd_Schema : string;
  kd_Revision : Z;
  kd_Keys : list keyringEntry;
}.

Record verificationKey : Type := {
  publicKey : bytes;
  k_state : string;
  k_verifyUntil : Time;
}.

Record EntitlementUpdateKeyring : Type := {
  kr_revision : Z;
  kr_keys : gmap string verificationKey;
}.

(** 1 January 2020 and 2100. *)
Definition validEntitlementUpdateTrustTime (value : Z) : bool :=
  (1577836800 <=? value) && (value <? 4102444800).

(** One round of the loop: the ring, the previous identifier, the keys seen and the
    number of active ones. [Strict] decoding and encoding again is
    [decodeCanonicalBase64URL]. *)
Definition add_key (now : Time)
    (acc : gmap string verificationKey * string * list bytes * Z) (entry : keyringEntry) :
    option (gmap string verificationKey * string * list bytes * Z) :=
  let '(ring, previousID, seenMaterial, activeCount) := acc in
  IF negb (ValidIdentifier (ke_KeyID entry) 64)
     || (negb (bool_decide (previousID = "")) && str_leb (ke_KeyID entry) previousID)
     || negb (validEntitlementUpdateTrustTime (ke_VerifyUntilUnix entry))
    RETURN None ;;
  match decodeCanonicalBase64URL (ke_PublicKeyBase64URL entry) with
  | None => None
  | Some key =>
      IF negb (blen key =? PublicKeySize) RETURN None ;;
      IF bool_decide (key ∈ seenMaterial) RETURN None ;;
      let verifyUntil := from_unix (ke_VerifyUntilUnix entry) in
      IF negb (After verifyUntil now) RETURN None ;;
      let added := (<[ke_KeyID entry := {| publicKey := key; k_state := ke_State entry;
                                           k_verifyUntil := verifyUntil |}]> ring,
                    ke_KeyID entry, seenMaterial ++ [key]) in
      if bool_decide (ke_State entry = "active") then Some (added, activeCount + 1)
      else if bool_decide (ke_State entry = "retiring") then Some (added, activeCount)
      else None
  end.

Fixpoint add_keys (now : Time) (acc : gmap string verificationKey * string * list bytes * Z)
    (entries : list keyringEntry) : option (gmap string verificationKey * string * list bytes * Z) :=
  match entries with
  | [] => Some acc
  | entry :: entries =>
      match add_key now acc entry with
      | None => None
      | Some acc => add_keys now acc entries
      end
  end.

Definition buildEntitlementUpdateKeyring (document : keyringDocument) (minimumRevision : Z)
    (now : Time) : option EntitlementUpdateKeyring :=
  IF negb (bool_decide (kd_Schema document = ServiceEntitlementUpdateKeyringSchema))
     || (kd_Revision document <? minimumRevision) || (kd_Revision document =? 0)
     || (Z.of_nat (length (kd_Keys document)) <? 1)
     || (maximumEntitlementUpdateKeys <? Z.of_nat (length (kd_Keys document)))
    RETURN None ;;
  match add_keys now (∅, "", [], 0) (kd_Keys document) with
  | None => None
  | Some (ring, _, _, activeCount) =>
      IF negb (activeCount =? 1) RETURN None ;;
      Some {| kr_revision := kd_Revision document; kr_keys := ring |}
  end.

(** The file of the keyring: what [Lstat] says of the path, and what [Stat] and reading say
    of the file that was opened. *)
Record trustFile : Type := {
  l_Symlink : bool;
  l_IsRegular : bool;
  l_Size : Z;
  l_Perm : Z;
  o_SameFile : bool;
  o_IsRegular : bool;
  o_Perm : Z;
  o_Size : Z;
  o_Data : option bytes;
}.

Definition text (s : string) : bytes := bytes_of s.
Definition member (name : string) (v : bytes) : bytes :=
  Wire.dquote :: text name ++ Wire.dquote :: text ":" ++ v.

Definition marshal_entry (entry : keyringEntry) : bytes :=
  Wire.object [("key_id", Wire.JString (ke_KeyID entry));
               ("public_key_base64url", Wire.JString (ke_PublicKeyBase64URL entry));
               ("state", Wire.JString (ke_State entry));
               ("verify_until_unix", Wire.JNumber (ke_VerifyUntilUnix entry))].

Fixpoint join_entries (entries : list bytes) : bytes :=
  match entries with
  | [] => []
  | [entry] => entry
  | entry :: entries => entry ++ Wire.comma :: join_entries entries
  end.

(** [json.Marshal] of the document; one without keys is refused whichever way its empty
    list is written. *)
Definition marshal_keyring (document : keyringDocument) : bytes :=
  text "{" ++ member "schema" (Wire.quote (kd_Schema document)) ++ text ","
  ++ member "revision" (text (FormatInt (kd_Revision document))) ++ text ","
  ++ member "keys" (text "[" ++ join_entries (marshal_entry <$> kd_Keys document) ++ text "]")
  ++ text "}".

(** [file] is [None] when the path cannot be looked at or opened. *)
Definition LoadEntitlementUpdateKeyring (Decode_keyring : bytes → option keyringDocument)
    (path : string) (file : option trustFile) (minimumRevision : Z) (now : Time) :
    option EntitlementUpdateKeyring :=
  IF bool_decide (path = "") || (minimumRevision =? 0) || IsZero now RETURN None ;;
  match file with
  | None => None
  | Some f =>
      IF l_Symlink f || negb (l_IsRegular f) || (l_Size f <? 1)
         || (maximumEntitlementUpdateKeyringBytes <? l_Size f) || negb (Z.land (l_Perm f) 63 =? 0)
        RETURN None ;;
      IF negb (o_SameFile f) || negb (o_IsRegular f) || negb (Z.land (o_Perm f) 63 =? 0)
         || negb (o_Size f =? l_Size f)
        RETURN None ;;
      match Wire.read_limited maximumEntitlementUpdateKeyringBytes (o_Data f) with
      | None => None
      | Some payload =>
          IF negb (blen payload =? o_Size f) || (maximumEntitlementUpdateKeyringBytes <? blen payload)
            RETURN None ;;
          IF negb (is_ok (StrictJSON.RejectDuplicateFields (json_tokens L payload))) RETURN None ;;
          match Decode_keyring payload with
          | None => None
          | Some document =>
              IF negb (bool_decide (marshal_keyring document = payload)) RETURN None ;;
              buildEntitlementUpdateKeyring document minimumRevision now
          end
      end
  end.

Definition verify (keyring : EntitlementUpdateKeyring) (keyID : string)
    (message signature : bytes) (authorizationExpiresAt now : Time) : bool :=
  IF negb (ValidIdentifier keyID 64) || negb (blen signature =? SignatureSize)
     || IsZero now || IsZero authorizationExpiresAt
    RETURN false ;;
  match kr_keys keyring !! keyID with
  | None => false
  | Some key =>
      IF (negb (bool_decide (k_state key = "active")) && negb (bool_decide (k_state key = "retiring")))
         || negb (After (k_verifyUntil key) now) || After authorizationExpiresAt (k_verifyUntil key)
        RETURN false ;;
      ed25519_Verify L (publicKey key) message signature
  end.

(** ** Updates *)

Definition ServiceEntitlementUpdateContract : string := "xz-service-entitlement-update-v1".
Definition ServiceEntitlementUpdatePath : string := "/v1/service-entitlements/apply".
Definition EntitlementUpdateContractHeader : string := "X-Xiaozhi-Entitlement-Update".
Definition EntitlementUpdateKeyIDHeader : string := "X-Xiaozhi-Entitlement-Key-ID".
Definition EntitlementUpdateSignatureHeader : string := "X-Xiaozhi-Entitlement-Signature".
Definition maximumEntitlementUpdateBodyBytes : Z := 1536.
Definition entitlementUpdateSignatureDomain : string :=
  "xiaozhi-service-entitlement-update-v1" +:+ Token.nul.
Definition entitlementUpdateClockSkew : Duration := 30 * second.

Definition serviceEntitlementUpdateSigningMessage (body : bytes) : bytes :=
  bytes_of entitlementUpdateSignatureDomain ++ body.

Definition setServiceEntitlementUpdateHeaders : Wire.Headers :=
  Wire.set_header EntitlementUpdateContractHeader ServiceEntitlementUpdateContract
    (Wire.set_header "Cache-Control" "no-store" Wire.no_headers).

Record updateHandler : Type := {
  h_keyring : EntitlementUpdateKeyring;
  h_authorizationTTL : Duration;
}.

Definition NewServiceEntitlementUpdateHandler (keyring : EntitlementUpdateKeyring)
    (authorizationTTL : Duration) : option updateHandler :=
  IF (kr_revision keyring =? 0) || (authorizationTTL <? minute) || (5 * minute <? authorizationTTL)
    RETURN None ;;
  Some {| h_keyring := keyring; h_authorizationTTL := authorizationTTL |}.

Definition update_of (input : updateRequest) : ServiceEntitlementUpdate :=
  {| u_Principal := {| p_TenantID := ur_TenantID input; p_Subject := ur_Subject input |};
     u_SourceEventID := ur_SourceEventID input; u_PreviousRevision := ur_PreviousRevision input;
     u_Revision := ur_Revision input; u_PlanID := ur_PlanID input; u_State := ur_State input;
     u_VoiceEnabled := ur_VoiceEnabled input; u_AgentEnabled := ur_AgentEnabled input;
     u_AccessUntil := from_unix (ur_AccessUntil input) |}.

Definition writeUpdateError (headers : Wire.Headers) (e : error) : Wire.Written :=
  match e with
  | ErrInvalid => answer headers 400
  | ErrNotFound => answer headers 404
  | ErrConflict | ErrStaleEntitlement => answer headers 409
  | _ => retry_later headers
  end.

(** [hnow] is the clock of the handler, [lnow] that of the ledger. *)
Definition serveUpdate (handler : updateHandler) (store : Store) (ctx : context)
    (hnow lnow : Time) (request : Wire.Request) : Store * Wire.Written :=
  let headers := setServiceEntitlementUpdateHeaders in
  IF negb (valid_json_request ServiceEntitlementUpdatePath EntitlementUpdateContractHeader
             ServiceEntitlementUpdateContract maximumEntitlementUpdateBodyBytes verifiedWorkloadTLS
             request)
    RETURN (store, answer headers 400) ;;
  match read_body maximumEntitlementUpdateBodyBytes request with
  | None => (store, answer headers 400)
  | Some body =>
      match Decode_update J body with
      | None => (store, answer headers 400)
      | Some input =>
          let authorizedAt := from_unix (ur_AuthorizedAt input) in
          let authorizationExpiresAt := from_unix (ur_AuthorizationExpiresAt input) in
          let update := update_of input in
          IF negb (bool_decide (marshal_update input = body)) || negb (ur_Version input =? 1)
             || negb (validEntitlementTime authorizedAt)
             || negb (validEntitlementTime authorizationExpiresAt)
             || negb (After authorizationExpiresAt authorizedAt)
             || (h_authorizationTTL handler <? Sub authorizationExpiresAt authorizedAt)
             || negb (ValidServiceEntitlementUpdate update authorizedAt)
            RETURN (store, answer headers 400) ;;
          let now := TruncateSecond hnow in
          IF After authorizedAt (now + entitlementUpdateClockSkew)
             || negb (After authorizationExpiresAt now)
            RETURN (store, answer headers 401) ;;
          let keyID := Wire.singleHeader (Wire.Header request) EntitlementUpdateKeyIDHeader in
          let signatureText :=
            Wire.singleHeader (Wire.Header request) EntitlementUpdateSignatureHeader in
          match decodeCanonicalBase64URL signatureText with
          | None => (store, answer headers 401)
          | Some signature =>
              IF negb (verify (h_keyring handler) keyID
                         (serviceEntitlementUpdateSigningMessage body) signature
                         authorizationExpiresAt now)
                RETURN (store, answer headers 401) ;;
              match ApplyServiceEntitlement store ctx update lnow with
              | (store, Err e) => (store, writeUpdateError headers e)
              | (store, Ok (entitlement, applied)) =>
                  IF negb (bool_decide (e_SourceEventID entitlement = ur_SourceEventID input))
                     || negb (e_Revision entitlement =? ur_Revision input)
                    RETURN (store, retry_later headers) ;;
                  let responseBody := marshal_disposition
                    {| us_Version := 1; us_Status := if applied then "applied" else "replayed";
                       us_SourceEventID := e_SourceEventID entitlement;
                       us_Revision := e_Revision entitlement |} in
                  IF (blen responseBody =? 0)
                     || (maximumEntitlementUpdateBodyBytes <? blen responseBody)
                    RETURN (store, retry_later headers) ;;
                  (store, json_answer headers responseBody)
              end
          end
      end
  end.

(** ** The adapter's client *)

Inductive update_error : Type :=
| UpdateInvalid
| UpdateUnauthorized
| UpdateNotFound
| UpdateConflict
| UpdateUnavailable.

Record HTTPServiceEntitlementUpdater : Type := {
  up_endpoint : string;
  up_keyID : string;
  up_authorizationTTL : Duration;
}.

Definition ValidServiceEntitlementUpdateURL (endpoint : string) : bool :=
  match url_Parse L endpoint with
  | None => false
  | Some parsed =>
      bool_decide (Wire.u_Scheme parsed = "https") && negb (bool_decide (Wire.u_Host parsed = ""))
      && negb (Wire.u_HasUser parsed) && bool_decide (Wire.u_RawQuery parsed = "")
      && bool_decide (Wire.u_Fragment parsed = "")
      && bool_decide (Wire.u_Path parsed = ServiceEntitlementUpdatePath)
      && bool_decide (Wire.u_RawPath parsed = "") && bool_decide (Wire.u_String parsed = endpoint)
  end.

(** [timeout] is that of the client in the transport, [None] without one; [keyID] is "" without
    a signer. *)
Definition NewHTTPServiceEntitlementUpdater (endpoint : string) (timeout : option Duration)
    (keyID : string) (authorizationTTL : Duration) : option HTTPServiceEntitlementUpdater :=
  IF negb (ValidServiceEntitlementUpdateURL endpoint) RETURN None ;;
  match timeout with
  | None => None
  | Some timeout =>
      IF (timeout <? 100 * millisecond) || (2 * second <? timeout) || negb (ValidIdentifier keyID 64)
         || (authorizationTTL <? minute) || (5 * minute <? authorizationTTL)
         || negb (Z.rem authorizationTTL second =? 0)
        RETURN None ;;
      Some {| up_endpoint := endpoint; up_keyID := keyID; up_authorizationTTL := authorizationTTL |}
  end.

Definition first_header (h : Wire.Headers) (name : string) : string :=
  match h name with v :: _ => v | [] => "" end.

Definition validEntitlementUpdateResponseTransport (response : Wire.Response) : bool :=
  match Wire.r_TLS response with
  | None => false
  | Some tls => (Wire.VersionTLS12 <=? Wire.TLSVersion tls) && (0 <? Wire.PeerCertificates tls)
  end
  && bool_decide (Wire.singleHeader (Wire.r_Header response) "Cache-Control" = "no-store")
  && bool_decide (Wire.singleHeader (Wire.r_Header response) EntitlementUpdateContractHeader
                  = ServiceEntitlementUpdateContract)
  && bool_decide (first_header (Wire.r_Header response) "Content-Encoding" = "")
  && bool_decide (first_header (Wire.r_Header response) "Location" = "")
  && bool_decide (Wire.r_TransferEncoding response = []).

Definition classifyEntitlementUpdateFailure (response : Wire.Response) (body : bytes) :
    update_error :=
  IF negb (blen body =? 0) || (0 <? Wire.r_ContentLength response)
     || negb (bool_decide (Wire.r_Header response "Content-Type" = []))
    RETURN UpdateUnavailable ;;
  let no_retry := bool_decide (Wire.r_Header response "Retry-After" = []) in
  let code := Wire.StatusCode response in
  if (code =? 400) && no_retry then UpdateInvalid
  else if (code =? 401) && no_retry then UpdateUnauthorized
  else if (code =? 404) && no_retry then UpdateNotFound
  else if (code =? 409) && no_retry then UpdateConflict
  else UpdateUnavailable.

Definition update_headers (keyID : string) (body signature : bytes) : Wire.Headers :=
  Wire.set_header EntitlementUpdateSignatureHeader (EncodeToString signature)
    (Wire.set_header EntitlementUpdateKeyIDHeader keyID
      (Wire.set_header EntitlementUpdateContractHeader ServiceEntitlementUpdateContract
        (Wire.set_header "Content-Length" (FormatInt (blen body))
          (Wire.set_header "Cache-Control" "no-store"
            (Wire.set_header "Accept" "application/json"
              (Wire.set_header "Content-Type" "application/json" Wire.no_headers)))))).

(** [true] is "applied", [false] "replayed". *)
Definition disposition_of (update : ServiceEntitlementUpdate) (response : Wire.Response) :
    result update_error bool :=
  IF negb (validEntitlementUpdateResponseTransport response) RETURN Err UpdateUnavailable ;;
  match Wire.read_limited maximumEntitlementUpdateBodyBytes (Wire.r_Body response) with
  | None => Err UpdateUnavailable
  | Some body =>
      IF maximumEntitlementUpdateBodyBytes <? blen body RETURN Err UpdateUnavailable ;;
      IF negb (Wire.StatusCode response =? 200)
        RETURN Err (classifyEntitlementUpdateFailure response body) ;;
      IF negb (bool_decide (Wire.singleHeader (Wire.r_Header response) "Content-Type"
                            = "application/json"))
         || negb (Wire.r_ContentLength response =? blen body) || (blen body =? 0)
         || negb (bool_decide (Wire.r_Header response "Retry-After" = []))
        RETURN Err UpdateUnavailable ;;
      match Decode_disposition J body with
      | None => Err UpdateUnavailable
      | Some output =>
          IF negb (bool_decide (marshal_disposition output = body)) || negb (us_Version output =? 1)
             || (negb (bool_decide (us_Status output = "applied"))
                 && negb (bool_decide (us_Status output = "replayed")))
             || negb (bool_decide (us_SourceEventID output = u_SourceEventID update))
             || negb (us_Revision output =? u_Revision update)
            RETURN Err UpdateUnavailable ;;
          Ok (bool_decide (us_Status output = "applied"))
      end
  end.

(** [signer_KeyID] and [Sign] are the signer's; [Do] the HTTP client. *)
Definition Apply (updater : HTTPServiceEntitlementUpdater) (signer_KeyID : string)
    (Sign : bytes → option bytes) (Do : Wire.Request → option Wire.Response) (ctx : context)
    (now : Time) (update : ServiceEntitlementUpdate) : result update_error bool :=
  IF nil_ctx ctx || ctx_Err ctx || negb (bool_decide (signer_KeyID = up_keyID updater))
    RETURN Err UpdateInvalid ;;
  let now := TruncateSecond now in
  IF negb (ValidServiceEntitlementUpdate update now) RETURN Err UpdateInvalid ;;
  let body := marshal_update
    {| ur_Version := 1; ur_SourceEventID := u_SourceEventID update;
       ur_TenantID := p_TenantID (u_Principal update); ur_Subject := p_Subject (u_Principal update);
       ur_PreviousRevision := u_PreviousRevision update; ur_Revision := u_Revision update;
       ur_PlanID := u_PlanID update; ur_State := u_State update;
       ur_VoiceEnabled := u_VoiceEnabled update; ur_AgentEnabled := u_AgentEnabled update;
       ur_AccessUntil := Unix (u_AccessUntil update); ur_AuthorizedAt := Unix now;
       ur_AuthorizationExpiresAt := Unix (now + up_authorizationTTL updater) |} in
  IF (blen body =? 0) || (maximumEntitlementUpdateBodyBytes <? blen body)
    RETURN Err UpdateInvalid ;;
  match Sign (serviceEntitlementUpdateSigningMessage body) with
  | None => Err UpdateUnavailable
  | Some signature =>
      IF negb (blen signature =? SignatureSize) RETURN Err UpdateUnavailable ;;
      match url_Parse L (up_endpoint updater) with
      | None => Err UpdateUnavailable
      | Some u =>
          match Do (post u body (update_headers (up_keyID updater) body signature)) with
          | None => Err UpdateUnavailable
          | Some response => disposition_of update response
          end
      end
  end.

End Services.

End EntitlementService.
