(* ===== verification/AccountTheorems.v ===== *)
(** * AccountTheorems: what the control plane learns from the account service

    The companion API of [ControlPlane] with the token verifier and the introspection
    client of [Companion], and the introspection handler and the ledger of the account
    service behind it. An accepted request carries a token that the ledger has on record
    and in force; after a logout, a suspension or a revocation the token opens nothing;
    and a token that the service issues is accepted. *)

From stdpp Require Import base gmap strings list.
From Stdlib Require Import ZArith Lia.
From Stdlib.Strings Require Import Byte.
From S2P Require Import Prelude GoBase GoCrypto Protocol Auth Bearer AccountAuth StrictJSON GoWire Companion AccountService Provisioning ControlPlane.

Module AccountTheorems.
Import Ident AccountAuth Companion AccountService.

(** The lengths of the members' names are known. *)
Ltac widths :=
  unfold Wire.field_width; cbn -[slen Z.add];
  repeat match goal with
  | |- context [slen (String ?a ?s)] =>
      let n := eval vm_compute in (slen (String a s)) in change (slen (String a s)) with n
  end; lia.

(** Every field of a structure is an identifier or a number of its width. *)
Ltac fields_fit :=
  repeat (apply Forall_cons; split;
    [split; cbn;
     [first [done|by eapply Wire.plain_identifier|by apply Wire.plain_identifier]
     |first [done|unfold in_i64, min_int64, max_int64 in *; lia] ]|]);
  apply Forall_nil; done.

(** ** The composed system *)

(** One call from the control plane to the account service: whether it gets through, the
    connection as both ends see it, and the context and the clock of the handler. *)
Record exchange : Type := {
  lost : bool;
  at_client : Wire.TLSState;
  at_server : Wire.TLSState;
  x_ctx : context;
  x_now : Time;
}.

Section System.
Context (L : library).

Definition account_service (store : Store) (x : exchange) (q : Wire.Request) :
    option Wire.Response :=
  if lost x then None
  else Some (Wire.delivered (at_client x)
               (serveIntrospection L store (x_ctx x) (x_now x) (Wire.arrived (at_server x) q))).

(** [n1] is the clock of the verifier, [n2] that of the server. *)
Definition companion_app (v : CompanionJWTVerifier) (endpoint : string) (n1 n2 : Time)
    (store : Store) (x : exchange) : ControlPlane.companion :=
  {| ControlPlane.VerifyAuthorization header :=
       match VerifyJWTAuthorization L v n1 header with Ok claims => Some claims | Err _ => None end;
     ControlPlane.CompanionStatus := Some (λ claims,
       match Authorize L endpoint (account_service store x) claims n2 with
       | None => ControlPlane.CompanionActive
       | Some ErrCompanionInactive => ControlPlane.CompanionInactive
       | Some ErrCompanionUnavailable => ControlPlane.CompanionUnavailable
       end) |}.

Definition binding_of (claims : Token.Claims) : TokenBinding :=
  binding_of_request (introspection_of claims).

(** ** The texts determine what they say *)

Lemma plain_text (s : string) : forallb identifier_byte (bytes_of s) = true → Wire.plain (Wire.JString s).
Proof.
  intros H. apply Forall_forall. intros b Hb. rewrite forallb_forall in H. by apply H, list_elem_of_In.
Qed.

Lemma action_plain action device :
  Token.validCompanionActionDevice action device = true →
  Wire.plain (Wire.JString action) ∧ Wire.plain (Wire.JString device) ∧
  slen action ≤ 128 ∧ slen device ≤ 64.
Proof.
  unfold Token.validCompanionActionDevice. case_bool_decide as Ha.
  - intros Hd%bool_decide_eq_true. subst. split_and!; [by apply plain_text|by apply plain_text|by vm_compute..].
  - destruct (_ || _) eqn:Hb; [|done]. intros Hd.
    pose proof (ValidIdentifier_bytes _ _ Hd) as (Hi & _ & Hl). unfold maxDeviceID in Hl.
    apply orb_true_iff in Hb as [Hb|Hb]; apply bool_decide_eq_true in Hb; subst;
      split_and!; first [by apply plain_text|done|by vm_compute].
Qed.

Lemma ValidTokenBinding_ok b :
  ValidTokenBinding b = true →
  ValidIdentifier (TokenID b) 128 = true ∧ ValidIdentifier (Subject b) 128 = true ∧
  ValidIdentifier (TenantID b) 128 = true ∧
  Token.validCompanionActionDevice (Action b) (DeviceID b) = true ∧
  0 < IssuedAt b < ExpiresAt b.
Proof.
  unfold ValidTokenBinding. guard E. intros Hd. split_bools. split_and!; (done || lia).
Qed.

(** The texts of two requests are the same only if the requests are. *)
Lemma introspection_inj q q' :
  Forall (λ f, Wire.plain f.2) (request_fields q) → Forall (λ f, Wire.plain f.2) (request_fields q') →
  marshal_introspection q = marshal_introspection q' → q = q'.
Proof.
  intros H H' Heq. apply Wire.object_inj in Heq; [|by repeat constructor|done..].
  destruct q, q'. unfold request_fields in Heq. cbn in Heq. by simplify_eq.
Qed.

Lemma request_plain q :
  ValidIdentifier (q_TokenID q) 128 = true → ValidIdentifier (q_Subject q) 128 = true →
  ValidIdentifier (q_TenantID q) 128 = true →
  Token.validCompanionActionDevice (q_Action q) (q_DeviceID q) = true →
  Forall (λ f, Wire.plain f.2) (request_fields q).
Proof.
  intros H1 H2 H3 H4. destruct (action_plain _ _ H4) as (H5 & H6 & _).
  repeat (constructor; [first [done|by eapply Wire.plain_identifier]|]). constructor.
Qed.

Lemma read_body_exact limit request body :
  read_body limit request = Some body → Wire.ContentLength request = blen body ∧ blen body ≤ limit ∧
  ∃ all, Wire.Body request = Some all ∧ (blen all = blen body → all = body).
Proof.
  unfold read_body, Wire.read_limited. destruct (Wire.Body request) as [all|]; [|done]. cbn. guard E.
  intros [= <-]. split_bools. split_and!; [done|done|]. exists all. split; [done|]. intros Hl.
  symmetry. apply take_ge. unfold blen in *. rewrite length_take in Hl. lia.
Qed.

(** ** What an active answer means *)

(** The ledger has the token on record, not revoked, under the current revision of an
    active account, and it has not expired. *)
Definition live (store : Store) (b : TokenBinding) (revision : Z) (now : Time) : Prop :=
  ∃ record account, tokens store !! TokenID b = Some record ∧
    Binding (authorization record) = b ∧ IsZero (revokedAt record) = true ∧
    Unix now < ExpiresAt b ∧ accounts store !! principal_of b = Some account ∧
    a_Status account = AccountActive ∧ a_Revision account = revision ∧
    AccountRevision (authorization record) = revision.

Lemma Introspect_live store ctx b now auth :
  Introspect store ctx b now = Ok (Some auth) → ∃ revision, live store b revision now.
Proof.
  unfold Introspect. guard E1. guard E2. destruct (tokens store !! _) as [record|] eqn:Ht; [|done].
  guard E3. destruct (accounts store !! _) as [a|] eqn:Ha; [|done]. guard E4. intros _. split_bools.
  exists (a_Revision a), record, a. split_and!; (done || lia).
Qed.

Lemma serveIntrospection_active store ctx now request :
  Wire.Status (serveIntrospection L store ctx now request) = 200 →
  ∃ body input, read_body MaximumIntrospectionBodyBytes request = Some body ∧
    marshal_introspection input = body ∧ q_Version input = 1 ∧
    ValidTokenBinding (binding_of_request input) = true ∧
    ∃ revision, live store (binding_of_request input) revision now.
Proof.
  unfold serveIntrospection. cbv zeta. destruct (negb _); [done|].
  destruct (read_body _ _) as [body|] eqn:Hb; [|done].
  destruct (Decode_introspection L body) as [input|]; [|done].
  destruct (_ || _) eqn:E1; [done|]. destruct (negb (ValidTokenBinding _)) eqn:E2; [done|].
  destruct (Introspect _ _ _ _) as [[auth|]|] eqn:Hi; [|done..]. intros _. split_bools.
  exists body, input. split_and!; try done. by eapply Introspect_live.
Qed.

Lemma Authorize_active endpoint store x claims now :
  Authorize L endpoint (account_service store x) claims now = None →
  ∃ revision, live store (binding_of claims) revision (x_now x).
Proof.
  unfold Authorize. guard E1. cbv zeta. guard E2. destruct (url_Parse L endpoint) as [u|]; [|done].
  unfold account_service. destruct (lost x); [done|]. unfold status_of. guard E3.
  destruct (Wire.read_limited _ _) as [answered|]; [|done]. guard E4.
  destruct (_ =? 204); [by guard E5|]. guard E5. intros _. split_bools.
  cbn in H. apply serveIntrospection_active in H as (body & input & Hb & Hm & _ & Hv & Hl).
  apply read_body_exact in Hb as (Hlen & _ & all & Hall & Heq). cbn in Hlen, Hall.
  injection Hall as <-. rewrite <- Heq in Hm by done.
  apply introspection_inj in Hm; [by subst input| |by apply request_plain].
  apply ValidTokenBinding_ok in Hv as (? & ? & ? & ? & _). by apply request_plain.
Qed.

Lemma authorizeCompanion_ok v endpoint n1 n2 store x request action claims :
  ControlPlane.authorizeCompanion (companion_app v endpoint n1 n2 store x) request action
    = Ok claims →
  (∃ header, VerifyJWTAuthorization L v n1 header = Ok claims) ∧ Token.Action claims = action ∧
  Authorize L endpoint (account_service store x) claims n2 = None.
Proof.
  unfold ControlPlane.authorizeCompanion. destruct (ControlPlane.singleHeader _ _) as [h|]; [|done].
  cbn. destruct (VerifyJWTAuthorization L v n1 h) as [c|] eqn:Hv; [|done]. guard E.
  destruct (Authorize _ _ _ _ _) as [[]|] eqn:Ha; [done..|]. intros [= <-]. split_bools. eauto.
Qed.

(** C18: an app that the control plane lets in holds a token that is in force. Whatever
    the decoders, the network and the clocks do, a request is authorized only if its
    token is signed by a key of the verifier's ring, was made by its issuer for this
    action, and the ledger of the account service, at the moment it was asked, had a
    token with exactly these contents on record, not revoked, under the current revision
    of an active account. *)
Theorem companion_request_is_live v endpoint n1 n2 store x request action claims :
  ControlPlane.authorizeCompanion (companion_app v endpoint n1 n2 store x) request action
    = Ok claims →
  (∃ token, signed_as L v token claims) ∧ in_force v n1 claims ∧ Token.Action claims = action ∧
  ∃ revision, live store (binding_of claims) revision (x_now x).
Proof.
  intros ([header Hv] & Ha & Hs)%authorizeCompanion_ok.
  apply VerifyJWTAuthorization_ok in Hv as (token & Hsig & Hf).
  split_and!; [by exists token|done|done|by eapply Authorize_active].
Qed.

Lemma dead_not_live b s t revision now : dead b s t → t ≤ now → live s b revision now → False.
Proof.
  intros Hd Hnow (record & a & Ht & Hb & Hr & Hx & _).
  destruct Hd as [(tok & Ht' & _ & Hr')|Hx']; [congruence|]. pose proof (Unix_mono _ _ Hnow). lia.
Qed.

(** C17: a revoked app is locked out. After a logout or suspension of its account, or the
    revocation of its token, no request with the contents of that token is authorized
    any more, although its signature remains valid: not after any further calls to the
    account service, new logins and a resumption of the account included. *)
Theorem revoked_app_is_locked_out v endpoint n1 n2 s t0 t s1 b tok s2 t2 x request action claims :
  reach (s, t0) → tokens s !! TokenID b = Some tok → Binding (authorization tok) = b →
  t0 ≤ t → zero_time < t → revokes s t b s1 → later (s1, t) (s2, t2) → t2 ≤ x_now x →
  binding_of claims = b →
  ControlPlane.authorizeCompanion (companion_app v endpoint n1 n2 s2 x) request action ≠ Ok claims.
Proof.
  intros Hreach Htok Hb Ht Hz Hrev Hl Hx Hc Hok.
  apply authorizeCompanion_ok in Hok as (_ & _ & [revision Hlive]%Authorize_active).
  rewrite Hc in Hlive.
  eapply dead_not_live; [|exact Hx|exact Hlive]. apply (later_dead b _ _ Hl).
  eapply revokes_dead; [done| |done..]. apply (reach_account_inv _ Hreach).
Qed.

(** ** Tokens that the service issues *)

Lemma live_Introspect store b revision now :
  ValidTokenBinding b = true → live store b revision now → account_inv store →
  Introspect store CtxLive b now
    = Ok (Some {| Binding := b; AccountRevision := revision; ValidUntil := ExpiresAt b |}).
Proof.
  intros Hv (record & a & Ht & Hb & Hr & Hx & Ha & Hs & Hrev & Hrev') [_ Htoks].
  unfold Introspect. rewrite Hv, Ht, Hb, Hr, Ha, Hs, Hrev, Hrev', Z.eqb_refl. cbn.
  rewrite !bool_decide_true by done. rewrite (proj2 (Z.leb_gt _ _)) by lia. cbn.
  destruct (Htoks _ _ Ht) as (_ & Hu & _). destruct (authorization record) as [b0 r0 u0]. cbn in *.
  by subst.
Qed.

(** The answer to a request for a token in force. *)
Definition active_response (claims : Token.Claims) (revision : Z) : CompanionIntrospectionResponse :=
  status_response (binding_of claims)
    {| Binding := binding_of claims; AccountRevision := revision;
       ValidUntil := ExpiresAt (binding_of claims) |}.

(** The decoders read back what was written. *)
Definition reads_back (claims : Token.Claims) (revision : Z) : Prop :=
  Decode_introspection L (marshal_introspection (introspection_of claims))
    = Some (introspection_of claims) ∧
  reads L (Decode_status L) (marshal_status (active_response claims revision))
    (active_response claims revision).

(** A call that gets through, over mutually authenticated TLS. *)
Definition healthy (x : exchange) : Prop :=
  lost x = false ∧ x_ctx x = CtxLive ∧ Wire.VersionTLS12 ≤ Wire.TLSVersion (at_client x) ∧
  Wire.VersionTLS12 ≤ Wire.TLSVersion (at_server x) ∧ 0 < Wire.PeerCertificates (at_server x) ∧
  0 < Wire.VerifiedChains (at_server x).

Lemma introspection_length claims :
  ValidTokenBinding (binding_of claims) = true → Token.Expires claims ≤ max_int64 →
  0 < blen (marshal_introspection (introspection_of claims)) ≤ 1024.
Proof.
  intros Hv He. apply ValidTokenBinding_ok in Hv as (H1 & H2 & H3 & H4 & H5). cbn in *.
  destruct (action_plain _ _ H4) as (Hpa & Hpd & Hla & Hld).
  pose proof (ValidIdentifier_bytes _ _ H1) as (_ & _ & Hl1).
  pose proof (ValidIdentifier_bytes _ _ H2) as (_ & _ & Hl2).
  pose proof (ValidIdentifier_bytes _ _ H3) as (_ & _ & Hl3).
  split; [apply Wire.object_nonempty|]. etransitivity; [apply Wire.object_width|].
  - done.
  - fields_fit.
  - widths.
Qed.

Lemma status_length claims revision :
  ValidTokenBinding (binding_of claims) = true → Token.Expires claims ≤ max_int64 →
  ValidAccountRevision revision = true →
  0 < blen (marshal_status (active_response claims revision)) ≤ 1024.
Proof.
  intros Hv He Hr. apply ValidTokenBinding_ok in Hv as (H1 & H2 & H3 & H4 & H5). cbn in *.
  unfold ValidAccountRevision, maximumAccountRevision, MaximumBindingRevision in Hr. split_bools.
  destruct (action_plain _ _ H4) as (Hpa & Hpd & Hla & Hld).
  pose proof (ValidIdentifier_bytes _ _ H1) as (_ & _ & Hl1).
  pose proof (ValidIdentifier_bytes _ _ H2) as (_ & _ & Hl2).
  pose proof (ValidIdentifier_bytes _ _ H3) as (_ & _ & Hl3).
  assert (Wire.plain (Wire.JString "active")) by (by apply plain_text).
  split; [apply Wire.object_nonempty|]. etransitivity; [apply Wire.object_width|].
  - done.
  - fields_fit.
  - widths.
Qed.

Lemma posted_body u body header tls limit :
  0 < blen body ≤ limit → read_body limit (Wire.arrived tls (post u body header)) = Some body.
Proof.
  intros Hb. unfold read_body. change (Wire.Body _) with (Some body). rewrite Wire.read_all by lia.
  change (Wire.ContentLength _) with (blen body). rewrite Z.eqb_refl.
  by rewrite (proj2 (Z.ltb_ge _ _)) by lia.
Qed.

(** A request that the client makes passes the checks of the handler. *)
Lemma posted_valid u body x :
  healthy x → Wire.u_Path u = CompanionIntrospectionPath → Wire.u_RawPath u = "" →
  Wire.u_RawQuery u = "" → Wire.u_Fragment u = "" → 0 < blen body ≤ 1024 →
  valid_json_request CompanionIntrospectionPath contract_header CompanionAuthorizationContract
    MaximumIntrospectionBodyBytes verifiedWorkloadTLS
    (Wire.arrived (at_server x) (post u body introspection_headers)) = true.
Proof.
  intros (_ & _ & _ & Ht & Hp & Hc) Hpath Hraw Hq Hf Hb.
  unfold valid_json_request, verifiedWorkloadTLS. cbn -[Wire.singleHeader Wire.VersionTLS12 blen introspection_headers].
  rewrite Hpath, Hraw, Hq, Hf. rewrite !bool_decide_true by done.
  rewrite (proj2 (Z.leb_le _ _)) by done. rewrite !(proj2 (Z.ltb_lt _ _)) by done.
  rewrite (proj2 (Z.leb_gt _ _)), (proj2 (Z.ltb_ge _ _)); [done|unfold MaximumIntrospectionBodyBytes; lia|lia].
Qed.

Lemma introspection_served store x u claims revision :
  healthy x → Wire.u_Path u = CompanionIntrospectionPath → Wire.u_RawPath u = "" →
  Wire.u_RawQuery u = "" → Wire.u_Fragment u = "" →
  ValidTokenBinding (binding_of claims) = true → Token.Expires claims ≤ max_int64 →
  live store (binding_of claims) revision (x_now x) → account_inv store →
  reads_back claims revision →
  serveIntrospection L store (x_ctx x) (x_now x)
    (Wire.arrived (at_server x)
       (post u (marshal_introspection (introspection_of claims)) introspection_headers))
  = json_answer setIntrospectionHeaders (marshal_status (active_response claims revision)).
Proof.
  intros Hx Hpath Hraw Hq Hf Hv He Hl Hinv [Hd _].
  pose proof (introspection_length _ Hv He) as Hlen.
  assert (ValidAccountRevision revision = true) as Hrev.
  { destruct Hl as (rec & a & _ & _ & _ & _ & Ha & _ & <- & _). destruct (proj1 Hinv _ _ Ha) as [_ [? ?] ].
    unfold ValidAccountRevision. apply andb_true_iff. split; [apply Z.ltb_lt|apply Z.leb_le]; lia. }
  pose proof (status_length _ _ Hv He Hrev) as Hlen'.
  unfold serveIntrospection. cbv zeta. rewrite posted_valid, posted_body, Hd by done.
  rewrite bool_decide_true by done. cbn [negb orb q_Version introspection_of Z.eqb Pos.eqb].
  change (binding_of_request (introspection_of claims)) with (binding_of claims).
  destruct Hx as (_ & -> & _). rewrite Hv, (live_Introspect _ _ _ _ Hv Hl Hinv).
  cbn [negb Binding AccountRevision ValidUntil]. rewrite bool_decide_true, Hrev by done.
  apply ValidTokenBinding_ok in Hv as (_ & _ & _ & _ & Ht). cbn [negb orb].
  rewrite (proj2 (Z.leb_gt _ 0)), Z.ltb_irrefl by lia.
  change (status_response _ _) with (active_response claims revision). cbn [orb].
  rewrite (proj2 (Z.eqb_neq _ _)), (proj2 (Z.ltb_ge _ _)); [done|exact (proj2 Hlen')|lia].
Qed.

(** The client accepts the answer of the handler. *)
Lemma Authorize_complete endpoint store x claims revision now :
  healthy x → ValidCompanionIntrospectionURL L endpoint = true →
  ValidTokenBinding (binding_of claims) = true → Token.Expires claims ≤ max_int64 →
  live store (binding_of claims) revision (x_now x) → account_inv store →
  reads_back claims revision → Unix now < Token.Expires claims →
  Authorize L endpoint (account_service store x) claims now = None.
Proof.
  intros Hx Hurl Hv He Hl Hinv Hback Hnow.
  pose proof (ValidTokenBinding_ok _ Hv) as (Hi1 & Hi2 & Hi3 & Hi4 & Hi5).
  cbn in Hi1, Hi2, Hi3, Hi4, Hi5.
  unfold ValidCompanionIntrospectionURL in Hurl. destruct (url_Parse L endpoint) as [u|] eqn:Hu; [|done].
  split_bools. pose proof (introspection_length _ Hv He) as Hlen.
  unfold Authorize. rewrite Hu, Hi1, Hi2, Hi3, Hi4. cbn [negb orb].
  rewrite !(proj2 (Z.leb_gt _ _)) by lia. cbn [orb]. cbv zeta.
  rewrite (proj2 (Z.eqb_neq _ _)), (proj2 (Z.ltb_ge _ _)); [|exact (proj2 Hlen)|lia].
  cbn [orb]. unfold account_service. pose proof Hx as (-> & _ & Ht & _).
  rewrite (introspection_served _ _ _ _ _ Hx) by done.
  assert (ValidAccountRevision revision = true) as Hrev.
  { destruct Hl as (rec & a & _ & _ & _ & _ & Ha & _ & <- & _). destruct (proj1 Hinv _ _ Ha) as [_ [? ?] ].
    unfold ValidAccountRevision. apply andb_true_iff. split; [apply Z.ltb_lt|apply Z.leb_le]; lia. }
  pose proof (status_length _ _ Hv He Hrev) as Hlen'.
  unfold status_of, valid_transport. destruct Hback as [_ Hr].
  change (Wire.r_TLS _) with (Some (at_client x)). cbv iota. rewrite (proj2 (Z.ltb_ge _ _)) by done.
  change (Wire.r_Body _) with (Some (marshal_status (active_response claims revision))).
  rewrite Wire.read_all by exact (proj2 Hlen').
  change (Wire.StatusCode _) with 200.
  change (Wire.r_ContentLength _) with (blen (marshal_status (active_response claims revision))).
  rewrite Z.eqb_refl, (reads_strict _ _ _ _ Hr). cbn [negb andb].
  rewrite !bool_decide_true by done. cbn [negb orb andb].
  rewrite (proj2 (Z.ltb_ge _ _)) by exact (proj2 Hlen'). cbn [Z.eqb Pos.eqb negb orb].
  rewrite (proj2 (Z.eqb_neq _ 0)) by lia. cbn -[Z.leb Z.ltb Z.eqb].
  unfold ValidAccountRevision in Hrev. split_bools.
  repeat (rewrite bool_decide_true by done). rewrite Z.ltb_irrefl, Z.eqb_refl.
  rewrite (proj2 (Z.eqb_neq revision 0)), (proj2 (Z.leb_gt _ _)) by lia. done.
Qed.

Definition purpose_action (purpose : TokenPurpose) : string :=
  match purpose with
  | PurposeClaim => Token.CompanionClaimAction
  | PurposeRelease => Token.CompanionReleaseAction
  | _ => Token.CompanionConsentAction
  end.

Lemma BindingFromClaims_ok claims b : BindingFromClaims L claims = Ok b → b = binding_of claims.
Proof. unfold BindingFromClaims. guard E. by intros [= <-]. Qed.

(** The token was signed for the session and the purpose, and registered. *)
Lemma Issue_ok issuer s ctx session purpose device inow random lnow s1 issued :
  Issue L issuer s ctx session purpose device inow random lnow = (s1, Ok issued) →
  issueJWT L issuer inow random (p_Subject (s_Principal session)) (p_TenantID (s_Principal session))
    (purpose_action purpose) device = Ok (Bearer issued, t_Claims issued) ∧
  RegisterToken s ctx session (binding_of (t_Claims issued)) lnow = (s1, Ok (t_Authorization issued)) ∧
  (purpose = PurposeActionConsent →
   wrap_i64 ((Token.Expires (t_Claims issued) -i Token.IssuedAt (t_Claims issued)) * second)
   ≤ MaximumActionConsentTokenLifetime).
Proof.
  unfold Issue. guard E1. cbv zeta. intros H.
  match type of H with match ?signed with _ => _ end = _ =>
    assert (∀ r, signed = Some r → r = issueJWT L issuer inow random (p_Subject (s_Principal session))
      (p_TenantID (s_Principal session)) (purpose_action purpose) device) as Hs;
    [|revert H; destruct signed as [[[bearer claims]|e]|] eqn:Es; [|done..]] end.
  { intros r. destruct purpose; try case_bool_decide; intros [= <-]; subst; done. }
  specialize (Hs _ eq_refl). guard E2.
  destruct (BindingFromClaims L claims) as [b|] eqn:Hb; [|done]. apply BindingFromClaims_ok in Hb as ->.
  destruct (RegisterToken _ _ _ _ _) as [s' [auth|]] eqn:Hr; [|done]. intros [= <- <-].
  split_and!; [done|exact Hr|]. intros ->. rewrite bool_decide_true in E2 by done. cbn in E2 |- *.
  by apply Z.ltb_ge.
Qed.

Lemma RegisterToken_live s ctx session b now s1 auth :
  RegisterToken s ctx session b now = (s1, Ok auth) →
  live s1 b (s_AccountRevision session) now ∧ ValidTokenBinding b = true ∧
  auth = {| Binding := b; AccountRevision := s_AccountRevision session; ValidUntil := ExpiresAt b |}.
Proof.
  unfold RegisterToken. guard E1. guard E2. destruct (session_account s session) as [a|] eqn:Ha; [|done].
  guard E3. guard E4. cbv zeta. guard E5. intros [= <- <-].
  apply session_account_Ok in Ha as (Ha & Hs & Hr). split_bools.
  split_and!; [|done|by rewrite Hr]. eexists _, a. cbn.
  rewrite lookup_insert_eq. split_and!; try done.
  unfold principal_of. unfold belongs in *. split_bools. destruct session as [[] ]. cbn in *. congruence.
Qed.

Lemma NewIssuer_ok privateKey keyID issuer ttl i :
  NewCompanionJWTIssuer L privateKey keyID issuer ttl = Some i →
  i = {| s_privateKey := privateKey; s_keyID := keyID; s_issuer := issuer; s_ttl := ttl |} ∧
  ValidIdentifier keyID 64 = true ∧ Token.minimumIssuedTTL ≤ ttl ≤ Token.maximumIssuedTTL.
Proof.
  unfold NewCompanionJWTIssuer. guard E. intros [= <-]. split_bools. split_and!; (done || lia).
Qed.

Lemma NewVerifier_ok keys issuer maxTTL v :
  NewCompanionJWTVerifier L keys issuer maxTTL = Some v →
  v = {| v_keys := keys; v_issuer := issuer; v_maxTTL := maxTTL; v_skew := 30 * second |} ∧
  maxTTL ≤ Token.maximumIssuedTTL.
Proof.
  unfold NewCompanionJWTVerifier. guard E. guard E'. intros [= <-]. split_bools. split; (done || lia).
Qed.

Lemma expiry_i64 now ttl :
  second ≤ now ≤ max_int64 - 2 * hour → ttl ≤ Token.maximumIssuedTTL → Unix (now + ttl) ≤ max_int64.
Proof.
  intros Hn Ht. unfold Unix, Token.maximumIssuedTTL, hour, minute in *.
  apply Z.div_le_upper_bound; [done|]. unfold second, max_int64 in *. lia.
Qed.

(** C19: a token that the account service issues is accepted by the control plane. From
    the moment [Issue] returns it, it is on record; and as long as it stays so, whatever
    else the ledger did, a request that carries it is authorized for its purpose until it
    expires. The control plane trusts the key under its identifier and the issuer, its
    clock is not behind the issuer's, and the introspection call to the account service
    succeeds. The lifetime of the issuer is in whole seconds and at most the maximum of
    the verifier: both conditions are needed, since the claims are whole seconds, and a
    lifetime of 90.5 s can span 91 of them, which a maximum of 90.5 s refuses. *)
Theorem issued_token_is_accepted privateKey publicKey keyID issuerURL keys ttl maxTTL issuer v
    s t0 session purpose device inow rnd lnow s1 issued s2 t2 endpoint n1 n2 x request :
  NewCompanionJWTIssuer L privateKey keyID issuerURL ttl = Some issuer →
  NewCompanionJWTVerifier L keys issuerURL maxTTL = Some v →
  keys !! keyID = Some publicKey → key_pair L privateKey publicKey →
  ttl ≤ maxTTL → ttl mod second = 0 → blen rnd = tokenIDBytes →
  second ≤ inow ≤ max_int64 - 2 * hour → reach (s, t0) → t0 ≤ lnow → zero_time < lnow →
  Issue L issuer s CtxLive session purpose device inow (Some rnd) lnow = (s1, Ok issued) →
  let claims := t_Claims issued in
  reads L (Decode_header L)
    (marshal_header {| Algorithm := "EdDSA"; h_KeyID := keyID; h_Type := "JWT" |})
    {| Algorithm := "EdDSA"; h_KeyID := keyID; h_Type := "JWT" |} →
  reads L (Decode_claims L) (marshal_claims claims) claims →
  reads_back claims (s_AccountRevision session) →
  later (s1, lnow) (s2, t2) →
  live s2 (binding_of claims) (s_AccountRevision session) (x_now x) → healthy x →
  ValidCompanionIntrospectionURL L endpoint = true →
  inow ≤ n1 < from_unix (Token.Expires claims + 30) → Unix n2 < Token.Expires claims →
  Provisioning.Header request "Authorization" = ["Bearer " +:+ Bearer issued] →
  live s1 (binding_of claims) (s_AccountRevision session) lnow ∧
  ControlPlane.authorizeCompanion (companion_app v endpoint n1 n2 s2 x) request
    (purpose_action purpose) = Ok claims.
Proof.
  intros Hni Hnv Hkey Hpair Hle Hwhole Hrnd Hnow Hreach Ht0 Hz Hissue claims Hh Hc Hback Hl Hlive Hx Hurl
    Hn1 Hn2 Hhead.
  apply NewIssuer_ok in Hni as (-> & Hkid & Httl). apply NewVerifier_ok in Hnv as (-> & Hmax).
  apply Issue_ok in Hissue as (Hjwt & Hreg & _).
  pose proof (RegisterToken_live _ _ _ _ _ _ _ Hreg) as (Hl1 & Hv & _). split; [exact Hl1|].
  assert (reach (s2, t2)) as Hr2.
  { eapply reach_later; [exact Hreach|]. eapply rtc_l; [|exact Hl].
    pose proof (step_op s t0 lnow (ORegister CtxLive session (binding_of claims)) Ht0 Hz) as Hst.
    cbn in Hst. unfold claims in Hst. by rewrite Hreg in Hst. }
  pose proof (issueJWT_ok _ _ _ _ _ _ _ _ _ _ Hjwt) as (Hcl & Hsub & _). fold claims in Hcl.
  assert (VerifyJWTAuthorization L
    {| v_keys := keys; v_issuer := issuerURL; v_maxTTL := maxTTL; v_skew := 30 * second |} n1
    ("Bearer " +:+ Bearer issued) = Ok claims) as Hver
    by (eapply issuedJWT_verifies; [exact Hjwt|..]; cbn; try done; lia).
  assert (Authorize L endpoint (account_service s2 x) claims n2 = None) as Hauth.
  { eapply Authorize_complete; try done; [|by apply (reach_account_inv _ Hr2)].
    rewrite Hcl. cbn. apply expiry_i64; [done|lia]. }
  assert (Token.Subject claims ≠ "" ∧ Token.Action claims = purpose_action purpose) as [Hs Ha].
  { rewrite Hcl. cbn. split; [|done]. by apply ValidIdentifier_bytes in Hsub as (_ & ? & _). }
  unfold ControlPlane.authorizeCompanion, ControlPlane.singleHeader, Provisioning.singleHeader.
  rewrite Hhead. cbn [bool_decide]. rewrite bool_decide_false by done. cbn. cbn in Hver. rewrite Hver.
  rewrite bool_decide_false, bool_decide_true by done. cbn. by rewrite Hauth.
Qed.

(** ** Tokens for action consent *)

Lemma RegisterToken_tokens s ctx session b now s1 e :
  RegisterToken s ctx session b now = (s1, Err e) → tokens s1 ⊆ tokens s.
Proof.
  unfold RegisterToken. guard E1; [by intros [= <-]|]. guard E2; [by intros [= <-]|].
  destruct (session_account s session) as [a|]; [|by intros [= <-] ].
  guard E3; [by intros [= <-]|]. guard E4; [by intros [= <-]|]. cbv zeta. guard E5; [|done].
  intros [= <- _]. apply map_filter_subseteq.
Qed.

Lemma Issue_tokens issuer s ctx session purpose device inow random lnow s1 e :
  Issue L issuer s ctx session purpose device inow random lnow = (s1, Err e) → tokens s1 ⊆ tokens s.
Proof.
  unfold Issue. guard E1; [by intros [= <-]|]. cbv zeta.
  match goal with |- match ?signed with _ => _ end = _ → _ =>
    destruct signed as [[[bearer claims]|]|]; [|by intros [= <-]..] end.
  guard E2; [by intros [= <-]|]. destruct (BindingFromClaims L claims) as [b|]; [|by intros [= <-] ].
  destruct (RegisterToken _ _ _ _ _) as [s' [auth|]] eqn:Hr; [done|]. intros [= <- _].
  by eapply RegisterToken_tokens.
Qed.

Lemma jwt_plain a b c :
  Wire.plain (Wire.JString (EncodeToString a +:+ "." +:+ EncodeToString b +:+ "." +:+ EncodeToString c)).
Proof.
  assert (∀ bs, Forall (λ b, identifier_byte b = true) (bytes_of (EncodeToString bs))) as Henc.
  { intros bs. eapply Forall_impl; [apply Token.encoded_bytes|]. by intros x [Hx _]. }
  cbn. rewrite !bytes_of_app. repeat (apply Forall_app; split; [first [apply Henc|by apply plain_text]|]).
  apply Henc.
Qed.

(** What [Issue] returns for action consent passes the checks of the handler. *)
Lemma issued_fits_always privateKey keyID issuerURL ttl issuer s ctx session input inow random lnow s1
    issued :
  NewCompanionJWTIssuer L privateKey keyID issuerURL ttl = Some issuer →
  Issue L issuer s ctx session PurposeActionConsent (a_DeviceID input) inow random lnow
    = (s1, Ok issued) →
  second ≤ inow ≤ max_int64 - 2 * hour →
  issued_fits input issued = true ∧ slen (Bearer issued) ≤ 2048 ∧
  Wire.plain (Wire.JString (Bearer issued)) ∧
  0 < Token.Expires (t_Claims issued) ≤ max_int64 ∧
  Token.Expires (t_Claims issued) - Token.IssuedAt (t_Claims issued) ≤ 300.
Proof.
  intros Hni Hi Hnow. apply NewIssuer_ok in Hni as (-> & _ & Httl).
  apply Issue_ok in Hi as (Hjwt & Hreg & Hlife). specialize (Hlife eq_refl).
  destruct random as [rnd|]; [|revert Hjwt; unfold issueJWT; by guard E].
  pose proof (issueJWT_ok _ _ _ _ _ _ _ _ _ _ Hjwt) as (Hcl & _ & _ & _ & Hlen & Htok). cbv zeta in Htok.
  pose proof (RegisterToken_live _ _ _ _ _ _ _ Hreg) as (_ & Hv & Hauth).
  apply ValidTokenBinding_ok in Hv as (_ & _ & _ & _ & Hspan). cbn in Hspan.
  assert (Token.Expires (t_Claims issued) ≤ max_int64) as Hexp
    by (rewrite Hcl; cbn; apply expiry_i64; [done|lia]).
  assert (Token.Expires (t_Claims issued) - Token.IssuedAt (t_Claims issued) ≤ 300) as H300.
  { assert (Token.Expires (t_Claims issued) - Token.IssuedAt (t_Claims issued) ≤ 3601) as Hh.
    { rewrite Hcl. cbn. unfold Unix. assert (0 < second) by done.
      pose proof (Z.div_mod inow second). pose proof (Z.mod_pos_bound inow second).
      pose proof (Z.div_mod (inow + ttl) second). pose proof (Z.mod_pos_bound (inow + ttl) second).
      unfold Token.maximumIssuedTTL, hour, minute, second in *. lia. }
    unfold MaximumActionConsentTokenLifetime in Hlife. revert Hlife.
    unfold minute, second, max_int64 in *. no_wrap. lia. }
  assert (Bearer issued ≠ "") as Hne.
  { rewrite Htok. intros E%(f_equal (λ s, blen (bytes_of s))). revert E.
    rewrite bytes_of_app, blen_app, bytes_of_app, blen_app. change (blen (bytes_of ".")) with 1.
    match goal with |- ?p + (1 + ?q) = _ → _ => assert (0 ≤ p ∧ 0 ≤ q) by (split; apply blen_nonneg) end.
    change (blen (bytes_of "")) with 0. lia. }
  split_and!; try done; try lia; [|rewrite Htok; apply jwt_plain].
  unfold issued_fits. rewrite Hauth. cbn [TokenID Binding ValidUntil binding_of binding_of_request
    introspection_of q_TokenID q_ExpiresAt ExpiresAt].
  rewrite Z.eqb_refl, (proj2 (Z.leb_gt _ _)) by lia.
  change (Z.quot MaximumActionConsentTokenLifetime second) with 300.
  replace (300 <? _) with false; [|symmetry; apply Z.ltb_ge; unfold max_int64 in *; no_wrap; lia].
  rewrite (bool_decide_false (Bearer issued = "")) by done.
  rewrite Hcl. cbn. by rewrite !bool_decide_true by done.
Qed.

(** A token was handed out: to the session that the identity provider authenticated for
    this device and ownership, for action consent on this device, for five minutes at
    most, and it is on record. *)
Definition access_granted (authenticate : Wire.Request → string → Z → result app_error Session)
    (request : Wire.Request) (s1 : Store) (lnow : Time) (w : Wire.Written) : Prop :=
  ∃ session device ownerRevision token claims,
    authenticate request device ownerRevision = Ok session ∧
    w = json_answer setActionConsentAccessHeaders (marshal_access_response
      {| x_Version := 1; x_DeviceID := device; x_OwnerRevision := ownerRevision;
         x_ExpiresAtUnix := Token.Expires claims; x_AccessToken := token |}) ∧
    Token.Subject claims = p_Subject (s_Principal session) ∧
    Token.TenantID claims = p_TenantID (s_Principal session) ∧
    Token.Action claims = Token.CompanionConsentAction ∧ Token.DeviceID claims = device ∧
    Token.Expires claims - Token.IssuedAt claims ≤ 300 ∧
    live s1 (binding_of claims) (s_AccountRevision session) lnow.

Lemma access_length device ownerRevision expires token :
  ValidIdentifier device 64 = true → ValidAccountRevision ownerRevision = true →
  0 < expires ≤ max_int64 → slen token ≤ 2048 → Wire.plain (Wire.JString token) →
  0 < blen (marshal_access_response
    {| x_Version := 1; x_DeviceID := device; x_OwnerRevision := ownerRevision;
       x_ExpiresAtUnix := expires; x_AccessToken := token |}) ≤ maximumAccessResponseBytes.
Proof.
  intros Hd Hr He Ht Hp.
  unfold ValidAccountRevision, maximumAccountRevision, MaximumBindingRevision in Hr. split_bools.
  pose proof (ValidIdentifier_bytes _ _ Hd) as (_ & _ & Hl).
  split; [apply Wire.object_nonempty|]. etransitivity; [apply Wire.object_width|].
  - done.
  - fields_fit.
  - unfold maximumAccessResponseBytes. widths.
Qed.

(** The handler for action consent hands out a token exactly when it registered one.
    Either the answer is 200 and carries a token for the authenticated session, this
    device and this action, for five minutes at most, which the ledger has on record; or
    the answer has no body and no token was added to the ledger. *)
Theorem consent_access_exact Decode_access authenticate privateKey keyID issuerURL ttl issuer s ctx inow
    random lnow request s1 w :
  NewCompanionJWTIssuer L privateKey keyID issuerURL ttl = Some issuer →
  second ≤ inow ≤ max_int64 - 2 * hour →
  serveAccess L Decode_access authenticate issuer s ctx inow random lnow request = (s1, w) →
  access_granted authenticate request s1 lnow w ∨
  (Wire.Status w ≠ 200 ∧ Wire.w_Body w = [] ∧ tokens s1 ⊆ tokens s).
Proof.
  intros Hni Hnow. unfold serveAccess. cbv zeta.
  assert (∀ e, Wire.Status (writeAccessAuthorizationError setActionConsentAccessHeaders e) ≠ 200 ∧
    Wire.w_Body (writeAccessAuthorizationError setActionConsentAccessHeaders e) = []) as He by (by intros []).
  assert (∀ e, Wire.Status (writeAccessIssueError setActionConsentAccessHeaders e) ≠ 200 ∧
    Wire.w_Body (writeAccessIssueError setActionConsentAccessHeaders e) = []) as Hie
    by (by intros [?|[] ]).
  guard E1; [by intros [= <- <-]; right|].
  destruct (read_body _ _) as [body|]; [|by intros [= <- <-]; right].
  destruct (Decode_access body) as [input|]; [|by intros [= <- <-]; right].
  guard E2; [by intros [= <- <-]; right|].
  destruct (authenticate _ _ _) as [session|e] eqn:Ha;
    [|intros [= <- <-]; right; by destruct (He e)].
  guard E3; [by intros [= <- <-]; right|].
  destruct (Issue _ _ _ _ _ _ _ _ _ _) as [s' [issued|e]] eqn:Hi;
    [|intros [= <- <-]; right; destruct (Hie e); split_and!; [done..|by eapply Issue_tokens] ].
  destruct (issued_fits_always _ _ _ _ _ _ _ _ _ _ _ _ _ _ Hni Hi Hnow) as (-> & Hlen & Hp & Hx & H300).
  split_bools. cbn [negb].
  destruct (access_length (a_DeviceID input) (a_OwnerRevision input) (Token.Expires (t_Claims issued))
    (Bearer issued)) as [Hl1 Hl2]; [done..|].
  rewrite (proj2 (Z.eqb_neq _ 0)), (proj2 (Z.ltb_ge _ _)) by (done || lia). cbn [orb]. intros [= <- <-]. left.
  apply Issue_ok in Hi as (Hjwt & Hreg & _).
  destruct random as [rnd|]; [|revert Hjwt; unfold issueJWT; by guard E].
  pose proof (issueJWT_ok _ _ _ _ _ _ _ _ _ _ Hjwt) as (Hcl & _).
  exists session, (a_DeviceID input), (a_OwnerRevision input), (Bearer issued), (t_Claims issued).
  split_and!; try done; try (by rewrite Hcl). by eapply RegisterToken_live.
Qed.

End System.

(** ** Push tokens *)

Section Push.
Context (gcm_Seal : bytes → bytes → bytes → bytes → bytes)
        (gcm_Open : bytes → bytes → bytes → bytes → option bytes).

(** The cipher opens the text that it sealed under the same additional data, and under
    no other data. *)
Definition authenticates (key nonce text data : bytes) : Prop :=
  gcm_Open key nonce (gcm_Seal key nonce text data) data = Some text ∧
  ∀ data', data' ≠ data → gcm_Open key nonce (gcm_Seal key nonce text data) data' = None.

Lemma binding_lines b : ValidPushTokenBinding b = true →
  Provisioning.one_line (p_TenantID (b_Principal b)) ∧ Provisioning.one_line (p_Subject (b_Principal b)) ∧
  Provisioning.one_line (b_InstallationID b) ∧ Provisioning.one_line (platform_name (b_Platform b)).
Proof.
  unfold ValidPushTokenBinding, ValidPrincipal, ValidPushInstallationID. intros H. split_bools.
  split_and!; try by eapply Provisioning.identifier_one_line.
  - match goal with H : canonical_b64 _ _ = true |- _ =>
      apply canonical_b64_iff in H as (bs & _ & ->) end. apply Provisioning.base64_one_line.
  - destruct (b_Platform b); try done; by apply (bool_decide_unpack _); vm_compute.
Qed.

Lemma pushTokenAAD_inj b b' keyID :
  ValidPushTokenBinding b = true → ValidPushTokenBinding b' = true → Provisioning.one_line keyID →
  pushTokenAAD b keyID = pushTokenAAD b' keyID → b = b'.
Proof.
  intros Hb Hb' Hk Heq. pose proof (binding_lines b Hb) as (L1 & L2 & L3 & L4).
  pose proof (binding_lines b' Hb') as (L1' & L2' & L3' & L4').
  assert (Provisioning.one_line pushTokenProtectionDomain) as Ld by (by apply (bool_decide_unpack _); vm_compute).
  apply Provisioning.join_lines_inj in Heq; [|by repeat apply Forall_cons_2 || apply Forall_nil_2..|done|done].
  cbn in Heq. injection Heq as H1 H2 H3 H4.
  apply bytes_of_inj in H1, H2, H3, H4. unfold ValidPushTokenBinding in *. split_bools.
  destruct b as [[] ? []], b' as [[] ? []]; cbn in *; congruence || done.
Qed.

(** A sealed push token opens for the installation it was sealed for, and for no
    other: not for another account, another installation or another platform. *)
Theorem push_token_bound protector key nonce b raw sealed b' raw' :
  p_keys protector !! currentKeyID protector = Some key → blen nonce = nonce_size →
  authenticates (encryption key) nonce (bytes_of raw) (pushTokenAAD b (currentKeyID protector)) →
  Seal gcm_Seal protector CtxLive (Some nonce) b raw = Ok sealed →
  ValidProtectedPushToken sealed = true → ValidPushTokenBinding b' = true →
  Open gcm_Open protector CtxLive b' sealed = Ok raw' ↔ b' = b ∧ raw' = raw.
Proof.
  intros Hk Hnonce [Hsame Hother]. unfold Seal. guard E1. guard E2. rewrite Hk.
  cbv zeta. intros [= <-] Hv Hb'. split_bools.
  assert (Provisioning.one_line (currentKeyID protector) ∧
    32 ≤ blen (nonce ++ gcm_Seal (encryption key) nonce (bytes_of raw)
      (pushTokenAAD b (currentKeyID protector)))) as [Hl Hlen].
  { unfold ValidProtectedPushToken in Hv. cbn [Ciphertext KeyID] in Hv. revert Hv. guard E3. intros _.
    split_bools. split; [by eapply Provisioning.identifier_one_line|lia]. }
  unfold Open. rewrite Hv, Hb'. change (nil_ctx CtxLive) with false. change (ctx_Err CtxLive) with false.
  cbn [negb orb KeyID Ciphertext Digest]. rewrite Hk.
  assert (length nonce = 12%nat) as Hn by (unfold blen, nonce_size in Hnonce; lia).
  change (Z.to_nat nonce_size) with 12%nat. rewrite take_app_length', drop_app_length' by done.
  rewrite (proj2 (Z.leb_gt _ _)) by (unfold nonce_size; lia).
  destruct (decide (b' = b)) as [->|Hne].
  - rewrite Hsame, string_of_bytes_of.
    match goal with H : ValidRawPushToken _ _ = true |- _ => rewrite H end. rewrite bool_decide_true by done.
    cbn. split; [by intros [= ->]|by intros [_ ->] ].
  - rewrite Hother; [|by intros Heq%pushTokenAAD_inj]. split; [done|]. by intros [-> _].
Qed.

End Push.

(** ** Witnesses *)

(** A stand-in for Ed25519: the beginning of the message. *)
Definition toy_signature (key message : bytes) : bytes := take 64 (message ++ key ++ replicate 64 x00).
Definition ex_key : bytes := replicate 32 (byte_of 7).
Definition ex_url : string := "https://a.example".
Definition ex_endpoint : string := "https://a.example/v1/companion-tokens/introspect".
Definition ex_parsed (path text : string) : Wire.URL :=
  {| Wire.u_Scheme := "https"; Wire.u_Host := "a.example"; Wire.u_Path := path; Wire.u_RawPath := "";
     Wire.u_HasUser := false; Wire.u_RawQuery := ""; Wire.u_Fragment := ""; Wire.u_String := text |}.

Definition ex_random : bytes := replicate 16 (byte_of 3).
Definition ex_jwt_claims : Token.Claims :=
  {| Token.DeviceID := "d1"; Token.Subject := "alice"; Token.Issuer_ := ex_url; Token.OwnerID := "";
     Token.TenantID := "t1"; Token.BindingID := ""; Token.BindingRevision := 0;
     Token.Action := Token.CompanionConsentAction; Token.Audience := Token.CompanionAudience;
     Token.IssuedAt := 1750000000; Token.Expires := 1750000300;
     Token.TokenID := EncodeToString ex_random; Token.ReleaseID := ""; Token.ImageSHA256 := "";
     Token.SigningKeyID := "" |}.
Definition ex_jwt_header : companionJWTHeader :=
  {| Algorithm := "EdDSA"; h_KeyID := "k1"; h_Type := "JWT" |}.

(** A decoder that knows one text. *)
Definition knows {A} (text : bytes) (x : A) (data : bytes) : option A :=
  if bool_decide (data = text) then Some x else None.
Definition ex_members (fields : list (string * Wire.value)) : StrictJSON.Decoder :=
  {| StrictJSON.rest := StrictJSON.tokens (StrictJSON.JObject
       ((λ f, (f.1, StrictJSON.JScalar "")) <$> fields));
     StrictJSON.eof := true |}.

Definition ex_accounts : library :=
  {| url_Parse := λ text,
       Some (ex_parsed (if bool_decide (text = ex_endpoint) then CompanionIntrospectionPath else "") text);
     ed25519_Verify := λ key message signature, bool_decide (signature = toy_signature key message);
     ed25519_Sign := λ key message, toy_signature (take 32 key) message;
     json_tokens := λ data,
       if bool_decide (data = marshal_claims ex_jwt_claims) then ex_members (claims_fields ex_jwt_claims)
       else if bool_decide (data = marshal_header ex_jwt_header)
            then ex_members [("alg", Wire.JString ""); ("kid", Wire.JString ""); ("typ", Wire.JString "")]
            else ex_members (response_fields (active_response ex_jwt_claims 1));
     Decode_header := knows (marshal_header ex_jwt_header) ex_jwt_header;
     Decode_claims := knows (marshal_claims ex_jwt_claims) ex_jwt_claims;
     Decode_introspection := knows (marshal_introspection (introspection_of ex_jwt_claims))
                               (introspection_of ex_jwt_claims);
     Decode_status := knows (marshal_status (active_response ex_jwt_claims 1))
                        (active_response ex_jwt_claims 1) |}.

Definition ex_ttl : Duration := 300 * second.
Definition ex_jwt_issuer : CompanionJWTIssuer :=
  {| s_privateKey := ex_key ++ ex_key; s_keyID := "k1"; s_issuer := ex_url; s_ttl := ex_ttl |}.
Definition ex_jwt_verifier : CompanionJWTVerifier :=
  {| v_keys := {["k1" := ex_key]}; v_issuer := ex_url; v_maxTTL := ex_ttl; v_skew := 30 * second |}.
Definition ex_open : Store := execs ex_new [(0, OBegin CtxLive ex_p)].
Definition ex_issue : Store * result issue_error IssuedToken :=
  Issue ex_accounts ex_jwt_issuer ex_open CtxLive (ex_session 1) PurposeActionConsent "d1" (ex_at 0)
    (Some ex_random) (ex_at 1).
Definition ex_jwt : string :=
  match ex_issue.2 with Ok issued => Bearer issued | Err _ => "" end.
Definition ex_tls : Wire.TLSState :=
  {| Wire.TLSVersion := 772; Wire.PeerCertificates := 1; Wire.VerifiedChains := 1 |}.
Definition ex_exchange (n : Z) : exchange :=
  {| lost := false; at_client := ex_tls; at_server := ex_tls; x_ctx := CtxLive; x_now := ex_at n |}.
Definition ex_app_request : Provisioning.Request :=
  {| Provisioning.Method := "GET"; Provisioning.Path := "/"; Provisioning.RawQuery := "";
     Provisioning.ContentLength := 0; Provisioning.TransferEncoding := [];
     Provisioning.Header := λ name,
       if bool_decide (name = "Authorization") then ["Bearer " +:+ ex_jwt] else [] |}.
Definition ex_app (store : Store) (n : Z) : ControlPlane.companion :=
  companion_app ex_accounts ex_jwt_verifier ex_endpoint (ex_at n) (ex_at n) store (ex_exchange n).

Lemma ex_issue_ok :
  ∃ auth, ex_issue = (ex_issue.1, Ok {| Bearer := ex_jwt; t_Claims := ex_jwt_claims;
                                        t_Authorization := auth |}).
Proof. eexists. vm_compute. reflexivity. Qed.

Lemma ex_app_authorized :
  ControlPlane.authorizeCompanion (ex_app ex_issue.1 2) ex_app_request Token.CompanionConsentAction
    = Ok ex_jwt_claims.
Proof. vm_compute. reflexivity. Qed.

Lemma companion_request_is_live_witness :
  ∃ revision, live ex_issue.1 (binding_of ex_jwt_claims) revision (ex_at 2).
Proof.
  exact (proj2 (proj2 (proj2 (companion_request_is_live ex_accounts ex_jwt_verifier ex_endpoint
    (ex_at 2) (ex_at 2) ex_issue.1 (ex_exchange 2) ex_app_request Token.CompanionConsentAction
    ex_jwt_claims ex_app_authorized)))).
Defined.

(** The account logs out, logs in again and is suspended and resumed; the app comes back
    with its token. *)
Definition ex_left : Store := (Logout ex_issue.1 CtxLive (ex_session 1) (ex_at 2)).1.
Definition ex_later : list (Z * op) :=
  [(3, OBegin CtxLive ex_p); (4, ORegister CtxLive (ex_session 2) (binding_of ex_jwt_claims));
   (5, OSuspend CtxLive ex_p); (6, OResume CtxLive ex_p)].

Lemma ex_left_ok :
  ∃ a, Logout ex_issue.1 CtxLive (ex_session 1) (ex_at 2) = (ex_left, Ok a).
Proof. eexists. vm_compute. reflexivity. Qed.

Lemma ex_issue_reach : reach (ex_issue.1, ex_at 1).
Proof.
  replace ex_issue.1 with (execs ex_new [(0, OBegin CtxLive ex_p);
    (1, ORegister CtxLive (ex_session 1) (binding_of ex_jwt_claims))]).
  - apply (account_execs_reach [(0, OBegin CtxLive ex_p);
      (1, ORegister CtxLive (ex_session 1) (binding_of ex_jwt_claims))] 0). reflexivity.
  - vm_compute. reflexivity.
Qed.

Lemma ex_issue_token :
  tokens ex_issue.1 !! TokenID (binding_of ex_jwt_claims) = Some (fresh_token (binding_of ex_jwt_claims) 1).
Proof. vm_compute. reflexivity. Qed.

Lemma revoked_app_is_locked_out_witness :
  ControlPlane.authorizeCompanion (ex_app (execs ex_left ex_later) 7) ex_app_request
    Token.CompanionConsentAction ≠ Ok ex_jwt_claims.
Proof.
  destruct ex_left_ok as [a Ha].
  apply (revoked_app_is_locked_out ex_accounts ex_jwt_verifier ex_endpoint (ex_at 7) (ex_at 7)
    ex_issue.1 (ex_at 1) (ex_at 2) ex_left (binding_of ex_jwt_claims)
    (fresh_token (binding_of ex_jwt_claims) 1) (execs ex_left ex_later) (ex_at 6) (ex_exchange 7)).
  - exact ex_issue_reach.
  - exact ex_issue_token.
  - reflexivity.
  - vm_compute. discriminate.
  - reflexivity.
  - exists CtxLive. left. exists (ex_session 1), a. split; [reflexivity|exact Ha].
  - apply (execs_later ex_later ex_left 2). reflexivity.
  - vm_compute. discriminate.
  - reflexivity.
Defined.

Lemma ex_key_pair : key_pair ex_accounts (ex_key ++ ex_key) ex_key.
Proof.
  intros message. cbn -[ex_key]. rewrite take_app_length' by reflexivity. split; [by rewrite bool_decide_true|].
  unfold blen, toy_signature, SignatureSize. rewrite length_take, !length_app, length_replicate. lia.
Qed.

Ltac ex_read :=
  split; [vm_compute; reflexivity|split; [|vm_compute; reflexivity] ];
  apply (bool_decide_unpack _); vm_compute; exact I.

Lemma ex_reads :
  reads ex_accounts (Decode_header ex_accounts) (marshal_header ex_jwt_header) ex_jwt_header ∧
  reads ex_accounts (Decode_claims ex_accounts) (marshal_claims ex_jwt_claims) ex_jwt_claims ∧
  reads_back ex_accounts ex_jwt_claims 1.
Proof.
  split_and!; [| |split; [vm_compute; reflexivity|] ].
  - exists ((λ f, (f.1, StrictJSON.JScalar "")) <$>
      [("alg", Wire.JString ""); ("kid", Wire.JString ""); ("typ", Wire.JString "")]).
    ex_read.
  - exists ((λ f, (f.1, StrictJSON.JScalar "")) <$> claims_fields ex_jwt_claims). ex_read.
  - exists ((λ f, (f.1, StrictJSON.JScalar "")) <$> response_fields (active_response ex_jwt_claims 1)).
    ex_read.
Qed.

Lemma issued_token_is_accepted_witness :
  ControlPlane.authorizeCompanion (ex_app ex_issue.1 1) ex_app_request Token.CompanionConsentAction
    = Ok ex_jwt_claims.
Proof.
  destruct ex_issue_ok as [auth Hi]. destruct ex_reads as (Hh & Hc & Hback).
  destruct (Issue_ok _ _ _ _ _ _ _ _ _ _ _ _ Hi) as (_ & Hreg & _).
  destruct (RegisterToken_live _ _ _ _ _ _ _ Hreg) as (Hl & _).
  exact (proj2 (issued_token_is_accepted ex_accounts (ex_key ++ ex_key) ex_key "k1" ex_url
    {["k1" := ex_key]} ex_ttl ex_ttl ex_jwt_issuer ex_jwt_verifier ex_open (ex_at 0) (ex_session 1)
    PurposeActionConsent "d1" (ex_at 0) ex_random (ex_at 1) ex_issue.1 _ ex_issue.1 (ex_at 1) ex_endpoint
    (ex_at 1) (ex_at 1) (ex_exchange 1) ex_app_request
    ltac:(vm_compute; reflexivity) ltac:(vm_compute; reflexivity) ltac:(vm_compute; reflexivity)
    ex_key_pair ltac:(vm_compute; discriminate) ltac:(vm_compute; reflexivity)
    ltac:(vm_compute; reflexivity) ltac:(vm_compute; split; discriminate)
    (account_execs_reach [(0, OBegin CtxLive ex_p)] 0 eq_refl) ltac:(vm_compute; discriminate)
    ltac:(vm_compute; reflexivity) Hi Hh Hc Hback (rtc_refl _ _) Hl
    ltac:(vm_compute; repeat split; discriminate) ltac:(vm_compute; reflexivity)
    ltac:(vm_compute; split; [discriminate|reflexivity]) ltac:(vm_compute; reflexivity) eq_refl)).
Defined.

(** An app asks for a token for action consent. *)
Definition ex_access_input : actionConsentAccessRequest :=
  {| a_Version := 1; a_DeviceID := "d1"; a_OwnerRevision := 4; a_Purpose := "action-consent" |}.
Definition ex_access_request : Wire.Request :=
  {| Wire.Method := "POST"; Wire.Path := ActionConsentAccessPath; Wire.RawPath := ""; Wire.RawQuery := "";
     Wire.Fragment := ""; Wire.TLS := Some ex_tls;
     Wire.Header := Wire.set_header "Authorization" "Bearer session"
       (Wire.set_header access_header ActionConsentAccessContract
         (Wire.set_header "Cache-Control" "no-store"
           (Wire.set_header "Accept" "application/json"
             (Wire.set_header "Content-Type" "application/json" Wire.no_headers))));
     Wire.ContentLength := blen (marshal_access ex_access_input); Wire.TransferEncoding := [];
     Wire.Body := Some (marshal_access ex_access_input) |}.
Definition ex_authenticate (q : Wire.Request) (device : string) (revision : Z) :
    result app_error Session := Ok (ex_session 1).
Definition ex_access : Store * Wire.Written :=
  serveAccess ex_accounts (knows (marshal_access ex_access_input) ex_access_input) ex_authenticate
    ex_jwt_issuer ex_open CtxLive (ex_at 0) (Some ex_random) (ex_at 1) ex_access_request.

Lemma ex_access_status : Wire.Status ex_access.2 = 200.
Proof. vm_compute. reflexivity. Qed.

Lemma consent_access_exact_witness :
  access_granted ex_authenticate ex_access_request ex_access.1 (ex_at 1) ex_access.2.
Proof.
  destruct (consent_access_exact ex_accounts (knows (marshal_access ex_access_input) ex_access_input)
    ex_authenticate (ex_key ++ ex_key) "k1" ex_url ex_ttl ex_jwt_issuer ex_open CtxLive (ex_at 0)
    (Some ex_random) (ex_at 1) ex_access_request ex_access.1 ex_access.2) as [H|[H _] ].
  - vm_compute. reflexivity.
  - vm_compute. split; discriminate.
  - apply surjective_pairing.
  - exact H.
  - destruct (H ex_access_status).
Defined.

(** A cipher that seals one text. *)
Definition ex_push_binding : PushTokenBinding :=
  {| b_Principal := ex_p; b_InstallationID := EncodeToString ex_random; b_Platform := PushPlatformFCM |}.
Definition ex_protector : AESGCMPushTokenProtector :=
  {| currentKeyID := "k1"; p_keys := {["k1" := {| encryption := ex_key; lookup := replicate 32 x01 |}]} |}.
Definition ex_push_token : string := "abcdefghijklmnopqrstuvwxyz".
Definition ex_seal (key nonce text data : bytes) : bytes := text ++ replicate 16 x00.
Definition ex_open_gcm (key nonce sealed data : bytes) : option bytes :=
  if bool_decide (data = pushTokenAAD ex_push_binding "k1")
  then Some (take (length sealed - 16) sealed) else None.
Definition ex_sealed : ProtectedPushToken :=
  match Seal ex_seal ex_protector CtxLive (Some (replicate 12 x02)) ex_push_binding ex_push_token with
  | Ok sealed => sealed
  | Err _ => {| Ciphertext := []; KeyID := ""; Digest := [] |}
  end.

Lemma ex_sealed_ok :
  Seal ex_seal ex_protector CtxLive (Some (replicate 12 x02)) ex_push_binding ex_push_token = Ok ex_sealed ∧
  ValidProtectedPushToken ex_sealed = true.
Proof. split; vm_compute; reflexivity. Qed.

Lemma ex_authenticates : authenticates ex_seal ex_open_gcm ex_key (replicate 12 x02)
  (bytes_of ex_push_token) (pushTokenAAD ex_push_binding "k1").
Proof.
  split; [vm_compute; reflexivity|]. intros data Hd. unfold ex_open_gcm. by rewrite bool_decide_false.
Qed.

Lemma push_token_bound_witness :
  Open ex_open_gcm ex_protector CtxLive ex_push_binding ex_sealed = Ok ex_push_token.
Proof.
  apply (proj2 (push_token_bound ex_seal ex_open_gcm ex_protector
    {| encryption := ex_key; lookup := replicate 32 x01 |} (replicate 12 x02) ex_push_binding
    ex_push_token ex_sealed ex_push_binding ex_push_token ltac:(vm_compute; reflexivity)
    ltac:(vm_compute; reflexivity) ex_authenticates (proj1 ex_sealed_ok) (proj2 ex_sealed_ok)
    ltac:(vm_compute; reflexivity))).
  split; reflexivity.
Defined.

End AccountTheorems.
