(* ===== verification/EntitlementTheorems.v ===== *)
(** * EntitlementTheorems: entitlements are changed and asked for as the ledger has them

    An update of an entitlement reaches the ledger only with a signature of the billing
    adapter that is in force, and what the adapter's client reports was done; the answer
    that the control plane gets over HTTP is the ledger's. *)

From stdpp Require Import base gmap strings list.
From Stdlib Require Import ZArith Lia.
From Stdlib.Strings Require Import Byte.
From S2P Require Import Prelude GoBase GoCrypto Protocol Auth AccountAuth StrictJSON GoWire Companion AccountService EntitlementService AccountTheorems.

Module EntitlementTheorems.
Import Ident AccountAuth Companion AccountService EntitlementService AccountTheorems.

Section System.
Context (L : library) (J : codecs).

(** ** Updates are authentic *)

(** The body is signed by a key of the ring, within the times the key and the body allow. *)
Definition authentic_update (handler : updateHandler) (now : Time) (body : bytes)
    (input : updateRequest) : Prop :=
  ∃ keyID key signature,
    kr_keys (h_keyring handler) !! keyID = Some key ∧
    ed25519_Verify L (publicKey key) (serviceEntitlementUpdateSigningMessage body) signature = true ∧
    body = marshal_update input ∧
    from_unix (ur_AuthorizedAt input) ≤ now + 30 * second ∧
    now < from_unix (ur_AuthorizationExpiresAt input) ≤ k_verifyUntil key ∧
    from_unix (ur_AuthorizationExpiresAt input) - from_unix (ur_AuthorizedAt input)
      ≤ h_authorizationTTL handler.

Lemma Sub_small t u d : Sub t u ≤ d → d < max_int64 → t - u ≤ d.
Proof. unfold Sub. lia. Qed.

Lemma verify_ok ring keyID message signature expires now :
  verify L ring keyID message signature expires now = true →
  ∃ key, kr_keys ring !! keyID = Some key ∧ now < k_verifyUntil key ∧ expires ≤ k_verifyUntil key ∧
    ed25519_Verify L (publicKey key) message signature = true.
Proof.
  unfold verify. guard E1. destruct (kr_keys ring !! keyID) as [key|]; [|done]. guard E2. intros Hv.
  split_bools. exists key. unfold After in *. split_bools. split_and!; (done || lia).
Qed.

(** What the handler does: it refuses and leaves the ledger alone, or the update is
    authentic and is what the ledger does with it. *)
Lemma serveUpdate_cases handler s ctx hnow lnow request s1 w :
  h_authorizationTTL handler ≤ 5 * minute →
  serveUpdate L J handler s ctx hnow lnow request = (s1, w) →
  (s1 = s ∧ Wire.Status w ≠ 200) ∨
  ∃ body input r, read_body maximumEntitlementUpdateBodyBytes request = Some body ∧
    authentic_update handler (TruncateSecond hnow) body input ∧
    ValidServiceEntitlementUpdate (update_of input) (from_unix (ur_AuthorizedAt input)) = true ∧
    ApplyServiceEntitlement s ctx (update_of input) lnow = (s1, r) ∧
    (Wire.Status w = 200 → ∃ e applied, r = Ok (e, applied) ∧
       e_SourceEventID e = ur_SourceEventID input ∧ e_Revision e = ur_Revision input ∧
       w = json_answer setServiceEntitlementUpdateHeaders (marshal_disposition
         {| us_Version := 1; us_Status := if applied then "applied" else "replayed";
            us_SourceEventID := e_SourceEventID e; us_Revision := e_Revision e |})).
Proof.
  intros Httl. unfold serveUpdate. cbv zeta. guard E1; [by intros [= <- <-]; left|].
  destruct (read_body _ _) as [body|]; [|by intros [= <- <-]; left].
  destruct (Decode_update J body) as [input|]; [|by intros [= <- <-]; left].
  guard E2; [by intros [= <- <-]; left|]. guard E3; [by intros [= <- <-]; left|].
  destruct (decodeCanonicalBase64URL _) as [sg|]; [|by intros [= <- <-]; left].
  guard E4; [by intros [= <- <-]; left|]. split_bools.
  match goal with H : verify _ _ _ _ _ _ _ = true |- _ =>
    apply verify_ok in H as (key & Hk & Hn & Hx & Hv) end.
  destruct (ApplyServiceEntitlement _ _ _ _) as [s' r] eqn:Ha. intros Hw. right.
  exists body, input, r. unfold After, entitlementUpdateClockSkew in *. split_bools.
  assert (from_unix (ur_AuthorizationExpiresAt input) - from_unix (ur_AuthorizedAt input)
    ≤ h_authorizationTTL handler).
  { apply Sub_small; [done|]. assert (5 * minute < max_int64) by done. lia. }
  split_and!; try done.
  - eexists _, key, sg. split_and!; try done; lia.
  - revert Hw. destruct r as [[e applied]|e]; [|destruct e; by intros [= <- <-] ].
    guard E5; [by intros [= <- <-]|]. guard E6; by intros [= <- <-].
  - intros Hst. revert Hw. destruct r as [[e applied]|e];
      [|destruct e; intros [= <- <-]; by vm_compute in Hst].
    guard E5; [intros [= <- <-]; by vm_compute in Hst|]. guard E6; [intros [= <- <-]; by vm_compute in Hst|].
    intros [= <- <-]. split_bools. by exists e, applied.
Qed.

(** C20: an entitlement changes only by a signed update. A request that changes the ledger,
    or is answered 200, has a body that a key of the keyring signed, for this purpose
    (the domain is in the signed text), authorized for five minutes at most, not expired,
    under a key that is still trusted until the authorization ends; the ledger then is
    what applying exactly the signed update makes of it. *)
Theorem entitlement_update_authentic keyring ttl handler s ctx hnow lnow request s1 w :
  NewServiceEntitlementUpdateHandler keyring ttl = Some handler →
  serveUpdate L J handler s ctx hnow lnow request = (s1, w) → s1 ≠ s ∨ Wire.Status w = 200 →
  h_authorizationTTL handler ≤ 5 * minute ∧
  ∃ body input, Wire.ContentLength request = blen body ∧
    authentic_update handler (TruncateSecond hnow) body input ∧
    (ApplyServiceEntitlement s ctx (update_of input) lnow).1 = s1.
Proof.
  intros Hnew Hs Hor. unfold NewServiceEntitlementUpdateHandler in Hnew. revert Hnew. guard E.
  intros [= <-]. split_bools.
  apply serveUpdate_cases in Hs as [[-> Hst]|(body & input & r & Hb & Hau & _ & Ha & _)];
    [by destruct Hor| |done].
  apply read_body_exact in Hb as (Hlen & _). split; [done|]. exists body, input. by rewrite Ha.
Qed.

(** ** The keyring *)

(** The keys that were read are different, 32 bytes long and trusted for some time. *)
Definition ring_ok (now : Time) (ring : gmap string verificationKey) (seen : list bytes) : Prop :=
  (∀ id k, ring !! id = Some k → publicKey k ∈ seen ∧ ValidIdentifier id 64 = true ∧
     blen (publicKey k) = 32 ∧ now < k_verifyUntil k) ∧
  (∀ id id' k k', ring !! id = Some k → ring !! id' = Some k' → publicKey k = publicKey k' → id = id').

Lemma add_key_ok now ring prev seen count entry ring' prev' seen' count' :
  add_key now (ring, prev, seen, count) entry = Some (ring', prev', seen', count') →
  ring_ok now ring seen → ring_ok now ring' seen'.
Proof.
  unfold add_key. guard E1. destruct (decodeCanonicalBase64URL _) as [key|]; [|done]. guard E2. guard E3.
  cbv zeta. guard E4. split_bools. unfold After in E4. apply Z.ltb_lt in E4. intros Hs [Hr1 Hr2].
  assert (ring' = <[ke_KeyID entry := {| publicKey := key; k_state := ke_State entry;
    k_verifyUntil := from_unix (ke_VerifyUntilUnix entry) |}]> ring ∧ seen' = seen ++ [key]) as [-> ->]
    by (repeat case_bool_decide; simplify_eq; done).
  assert (∀ id k, ring !! id = Some k → publicKey k ≠ key) as Hne
    by (intros id k Hk Hkk; destruct (Hr1 _ _ Hk) as [Hin _]; by rewrite Hkk in Hin).
  split.
  - intros id k. rewrite lookup_insert_Some. intros [[<- <-]|[_ Hk] ].
    + cbn. split_and!; [apply elem_of_app; right; by apply list_elem_of_here|done|done|done].
    + destruct (Hr1 _ _ Hk) as (Hin & ?). split; [apply elem_of_app; by left|done].
  - intros id id' k k'. rewrite !lookup_insert_Some.
    intros [[<- <-]|[_ Hk] ] [[<- <-]|[_ Hk'] ] Heq; cbn in *; [done| | |by eapply Hr2].
    + by destruct (Hne _ _ Hk').
    + by destruct (Hne _ _ Hk).
Qed.

(** Two identifiers of a keyring never stand for one key, and every key was trusted when
    the keyring was read. *)
Theorem entitlement_keyring_distinct document minimumRevision now keyring :
  buildEntitlementUpdateKeyring document minimumRevision now = Some keyring →
  minimumRevision ≤ kr_revision keyring ∧ ∃ seen, ring_ok now (kr_keys keyring) seen.
Proof.
  unfold buildEntitlementUpdateKeyring. guard E1.
  destruct (add_keys _ _ _) as [[[[ring prev] seen] count]|] eqn:Ha; [|done]. guard E2. intros [= <-].
  split_bools. split; [done|]. exists seen. cbn.
  assert (∀ entries acc acc', add_keys now acc entries = Some acc' →
    ring_ok now acc.1.1.1 acc.1.2 → ring_ok now acc'.1.1.1 acc'.1.2) as Hall.
  { induction entries as [|entry entries IH]; intros acc acc' Hrun Hok; cbn in Hrun; [by simplify_eq|].
    destruct (add_key now acc entry) as [acc1|] eqn:Hadd; [|done]. eapply IH; [exact Hrun|].
    destruct acc as [[[] ] ], acc1 as [[[] ] ]. by eapply add_key_ok. }
  apply Hall in Ha; [done|]. split; intros *; cbn; by rewrite lookup_empty.
Qed.

(** ** What the adapter's client reports *)

(** One call of the adapter to the handler; [hnow] and [x_now] are the clocks of the
    handler and of the ledger. *)
Definition update_service (handler : updateHandler) (s : Store) (x : exchange) (hnow : Time)
    (q : Wire.Request) : option Wire.Response :=
  if lost x then None
  else Some (Wire.delivered (at_client x)
    (serveUpdate L J handler s (x_ctx x) hnow (x_now x) (Wire.arrived (at_server x) q)).2).

Lemma state_plain state : ValidEntitlementState state = true → Wire.plain (Wire.JString state).
Proof.
  unfold ValidEntitlementState, available. intros H.
  repeat (apply orb_true_iff in H as [H|H]); apply bool_decide_eq_true in H; subst; by apply plain_text.
Qed.

Lemma update_plain q now :
  ValidServiceEntitlementUpdate (update_of q) now = true →
  Forall (λ f, Wire.plain f.2) (update_fields_of q).
Proof.
  unfold ValidServiceEntitlementUpdate. guard E. intros _. unfold ValidPrincipal in E. split_bools. cbn in *.
  repeat (apply Forall_cons; split;
    [first [done|by eapply Wire.plain_identifier|by apply state_plain]|]). done.
Qed.

Lemma marshal_update_inj q q' now now' :
  ValidServiceEntitlementUpdate (update_of q) now = true →
  ValidServiceEntitlementUpdate (update_of q') now' = true →
  marshal_update q = marshal_update q' → q = q'.
Proof.
  intros H H' Heq. apply Wire.object_inj in Heq;
    [|by repeat constructor|by eapply update_plain..].
  destruct q, q'. unfold update_fields_of in Heq. cbn in Heq. by simplify_eq.
Qed.

Lemma valid_time t : validEntitlementTime t = true → from_unix (Unix t) = t.
Proof.
  unfold validEntitlementTime. guard E. intros _. split_bools. unfold from_unix, Unix.
  pose proof (Z_div_exact_full_2 t second). assert (0 < second) by done. lia.
Qed.

(** The request that [Apply] sends says what the update says. *)
Definition request_of (updater : HTTPServiceEntitlementUpdater) (now : Time)
    (update : ServiceEntitlementUpdate) : updateRequest :=
  {| ur_Version := 1; ur_SourceEventID := u_SourceEventID update;
     ur_TenantID := p_TenantID (u_Principal update); ur_Subject := p_Subject (u_Principal update);
     ur_PreviousRevision := u_PreviousRevision update; ur_Revision := u_Revision update;
     ur_PlanID := u_PlanID update; ur_State := u_State update;
     ur_VoiceEnabled := u_VoiceEnabled update; ur_AgentEnabled := u_AgentEnabled update;
     ur_AccessUntil := Unix (u_AccessUntil update); ur_AuthorizedAt := Unix now;
     ur_AuthorizationExpiresAt := Unix (now + up_authorizationTTL updater) |}.

Lemma update_of_request updater now update now' :
  ValidServiceEntitlementUpdate update now' = true → update_of (request_of updater now update) = update.
Proof.
  unfold ValidServiceEntitlementUpdate. guard E. intros _. split_bools.
  destruct update as [[] ]. unfold update_of. cbn in *. by rewrite valid_time.
Qed.

(** A body that has the declared length was read to its end. *)
Lemma read_exact limit tls w answered :
  Wire.read_limited limit (Wire.r_Body (Wire.delivered tls w)) = Some answered →
  Wire.r_ContentLength (Wire.delivered tls w) = blen answered → answered = Wire.w_Body w.
Proof.
  cbn. intros [= <-] Hl. apply take_ge. unfold blen in Hl. rewrite length_take in Hl. lia.
Qed.

Lemma disposition_status o (applied : bool) event revision :
  ValidIdentifier event 128 = true → us_SourceEventID o = event → us_Revision o = revision →
  us_Version o = 1 →
  negb (bool_decide (us_Status o = "applied")) && negb (bool_decide (us_Status o = "replayed")) = false →
  marshal_disposition o = marshal_disposition
    {| us_Version := 1; us_Status := if applied then "applied" else "replayed";
       us_SourceEventID := event; us_Revision := revision |} →
  applied = bool_decide (us_Status o = "applied").
Proof.
  intros Hid He Hr Hver Hst Heq. apply Wire.object_inj in Heq; [|by repeat constructor|..].
  - injection Heq as _ Hs _ _. rewrite Hs. by destruct applied.
  - assert (Wire.plain (Wire.JString (us_Status o))).
    { case_bool_decide as H1; [rewrite H1; by apply plain_text|].
      case_bool_decide as H2; [rewrite H2; by apply plain_text|done]. }
    repeat (apply Forall_cons; split; [first [done|cbn; rewrite He; by eapply Wire.plain_identifier]|]). done.
  - repeat (apply Forall_cons; split; [first [done|by eapply Wire.plain_identifier
      |cbn -[Wire.plain]; destruct applied; by apply plain_text]|]). done.
Qed.

(** What the billing adapter hears is true. When the client reports an update as
    applied or as replayed, whatever the decoders, the clocks and the connection did,
    the ledger behind the handler did exactly this with exactly this update. *)
Theorem reported_update_was_applied updater handler signer_KeyID Sign s x hnow ctx now update applied :
  h_authorizationTTL handler ≤ 5 * minute →
  Apply L J updater signer_KeyID Sign (update_service handler s x hnow) ctx now update = Ok applied →
  ∃ s1 e, ApplyServiceEntitlement s (x_ctx x) update (x_now x) = (s1, Ok (e, applied)) ∧
    e_Revision e = u_Revision update ∧ e_SourceEventID e = u_SourceEventID update ∧
    ∃ q, (serveUpdate L J handler s (x_ctx x) hnow (x_now x) q).1 = s1.
Proof.
  intros Httl. unfold Apply. guard E1. cbv zeta. guard E2. guard E3.
  destruct (Sign _) as [sg|]; [|done]. guard E4. destruct (url_Parse L _) as [u|]; [|done].
  fold (request_of updater (TruncateSecond now) update).
  set (body := marshal_update _). set (q := post u body _).
  unfold update_service. destruct (lost x); [done|].
  destruct (serveUpdate _ _ _ _ _ _ _ _) as [s1 w] eqn:Hs. cbn [snd]. unfold disposition_of. guard E5.
  destruct (Wire.read_limited _ _) as [answered|] eqn:Hread; [|done]. guard E6. guard E7. guard E8.
  destruct (Decode_disposition J answered) as [o|]; [|done]. guard E9. intros [= Happ]. split_bools.
  pose proof Hs as Hs'. apply serveUpdate_cases in Hs' as [[_ Hst]|(b & input & r & Hb & Hau & Hvi & Ha & H200)]; [done| |done].
  apply read_body_exact in Hb as (Hlen & _ & all & Hall & Heq). cbn in Hlen, Hall. injection Hall as <-.
  specialize (Heq Hlen). subst b. destruct Hau as (kid & key & sg' & _ & _ & Hm & _).
  eapply marshal_update_inj in Hm as <-; [|by erewrite update_of_request|exact Hvi].
  erewrite update_of_request in Ha by done.
  assert (answered = Wire.w_Body w) as -> by (by eapply read_exact).
  destruct H200 as (e & a & -> & He1 & He2 & ->); [done|].
  exists s1, e. assert (a = applied) as ->.
  { rewrite <- Happ. apply (disposition_status o a (e_SourceEventID e) (e_Revision e));
      [|by rewrite He1|by rewrite He2|done..].
    unfold ValidServiceEntitlementUpdate in E2. revert E2. guard E10. intros _. split_bools.
    by rewrite He1. }
  split_and!; [done..|]. eexists. by rewrite Hs.
Qed.

(** ** Asking which services an account may use *)

Definition entitlement_service (store : Store) (x : exchange) (q : Wire.Request) :
    option Wire.Response :=
  if lost x then None
  else Some (Wire.delivered (at_client x)
    (serveAuthorization J store (x_ctx x) (x_now x) (Wire.arrived (at_server x) q))).

Definition query (principal : Principal) (service : ProductService) : authorizationRequest :=
  {| ar_Version := 1; ar_TenantID := p_TenantID principal; ar_Subject := p_Subject principal;
     ar_Service := service |}.

Definition grant_response (g : ServiceEntitlementGrant) : authorizationResponse :=
  {| as_Version := 1; as_Status := gr_State g; as_Revision := gr_Revision g;
     as_ValidUntil := Unix (gr_ValidUntil g) |}.

Definition grant_ok (g : ServiceEntitlementGrant) : Prop :=
  ValidAccountRevision (gr_Revision g) = true ∧ available (gr_State g) = true ∧
  validEntitlementTime (gr_ValidUntil g) = true.

Lemma AuthorizeService_grant store ctx principal service now r :
  AuthorizeService store ctx principal service now = Ok r →
  ValidPrincipal principal = true ∧ ValidProductService service = true ∧
  match r with Some g => grant_ok g | None => True end.
Proof.
  unfold AuthorizeService. guard E1. guard E2. split_bools.
  destruct (accounts store !! principal) as [a|]; [|by intros [= <-] ].
  destruct (entitlements store !! principal) as [e|]; [|by intros [= <-] ].
  guard E3; [by intros [= <-]|]. guard E4. cbv zeta. guard E5; [by intros [= <-]|]. intros [= <-].
  split_bools. split_and!; try done. unfold validServiceEntitlement in E4. revert E4. guard E6. intros _.
  split_bools. done.
Qed.

Lemma service_plain service : ValidProductService service = true →
  Wire.plain (Wire.JString (service_name service)) ∧ slen (service_name service) = 5.
Proof. destruct service; try done; intros _; split; by apply plain_text || done. Qed.

Lemma available_plain state :
  available state = true → Wire.plain (Wire.JString state) ∧ slen state ≤ 6.
Proof.
  unfold available. intros H. apply orb_true_iff in H as [H|H]; apply bool_decide_eq_true in H; subst;
    split; by apply plain_text || by vm_compute.
Qed.

Lemma query_fields principal service :
  ValidPrincipal principal = true → ValidProductService service = true →
  0 < blen (marshal_authorization (query principal service)) ≤ 512 ∧
  Forall (λ f, Wire.plain f.2) (authorization_fields (query principal service)).
Proof.
  intros Hp Hs. unfold ValidPrincipal in Hp. split_bools.
  pose proof (ValidIdentifier_bytes _ _ H) as (_ & _ & Hl1).
  pose proof (ValidIdentifier_bytes _ _ H0) as (_ & _ & Hl2).
  destruct (service_plain _ Hs) as [Hsp Hsl]. split; [split|].
  - apply Wire.object_nonempty.
  - etransitivity; [apply Wire.object_width; [done|fields_fit]|]. widths.
  - repeat (apply Forall_cons; split; [first [done|by eapply Wire.plain_identifier]|]). done.
Qed.

Lemma query_inj input principal service :
  ValidPrincipal {| p_TenantID := ar_TenantID input; p_Subject := ar_Subject input |} = true →
  ValidProductService (ar_Service input) = true → ar_Version input = 1 →
  ValidPrincipal principal = true → ValidProductService service = true →
  marshal_authorization input = marshal_authorization (query principal service) →
  {| p_TenantID := ar_TenantID input; p_Subject := ar_Subject input |} = principal ∧
  ar_Service input = service.
Proof.
  intros Hp Hs Hv Hp' Hs' Heq. destruct input as [version tenant subject sv]. cbn in *. subst version.
  pose proof (query_fields {| p_TenantID := tenant; p_Subject := subject |} sv Hp Hs) as [_ Hf].
  pose proof (query_fields principal service Hp' Hs') as [_ Hf'].
  apply Wire.object_inj in Heq; [|by repeat constructor|done|done].
  injection Heq as H1 H2 H3. destruct principal. cbn in *. subst. split; [done|].
  destruct sv, service; done.
Qed.

Lemma grant_fields_ok g :
  grant_ok g → 0 < blen (marshal_grant (grant_response g)) ≤ 512 ∧
  Forall (λ f, Wire.plain f.2) (grant_fields (grant_response g)).
Proof.
  intros (Hr & Ha & Ht). destruct (available_plain _ Ha) as [Hp Hl].
  unfold ValidAccountRevision, maximumAccountRevision, MaximumBindingRevision in Hr.
  unfold validEntitlementTime in Ht. revert Ht. guard E. intros Ht. split_bools. split; [split|].
  - apply Wire.object_nonempty.
  - etransitivity; [apply Wire.object_width; [done|fields_fit]|]. widths.
  - repeat (apply Forall_cons; split; [done|]). done.
Qed.

(** What the answers of the handler mean. *)
Lemma serveAuthorization_meaning store ctx now request w :
  serveAuthorization J store ctx now request = w →
  Wire.Status w = 200 ∨ Wire.Status w = 204 →
  ∃ input r, read_body maximumEntitlementHTTPBodyBytes request = Some (marshal_authorization input) ∧
    ar_Version input = 1 ∧
    ValidPrincipal {| p_TenantID := ar_TenantID input; p_Subject := ar_Subject input |} = true ∧
    ValidProductService (ar_Service input) = true ∧
    AuthorizeService store ctx {| p_TenantID := ar_TenantID input; p_Subject := ar_Subject input |}
      (ar_Service input) now = Ok r ∧
    match r with
    | None => Wire.Status w = 204
    | Some g => Wire.Status w = 200 ∧ Wire.w_Body w = marshal_grant (grant_response g) ∧ grant_ok g
    end.
Proof.
  unfold serveAuthorization. cbv zeta.
  destruct (negb (valid_json_request _ _ _ _ _ _)); [by intros <- []|].
  destruct (read_body _ _) as [body|]; [|by intros <- [] ].
  destruct (Decode_authorization J body) as [input|]; [|by intros <- [] ].
  guard E1; [by intros <- []|]. split_bools.
  destruct (AuthorizeService _ _ _ _ _) as [[g|]|] eqn:Ha; [|intros <- _|by intros <- [] ].
  - pose proof (AuthorizeService_grant _ _ _ _ _ _ Ha) as (_ & _ & Hg).
    pose proof Hg as (-> & -> & ->). cbn [negb orb].
    destruct (grant_fields_ok g Hg) as [[Hl1 Hl2] _].
    change {| as_Version := 1 |} with (grant_response g).
    rewrite (proj2 (Z.eqb_neq _ 0)), (proj2 (Z.ltb_ge _ _)) by (done || lia). intros <- _.
    exists input, (Some g). split_and!; try done. by f_equal.
  - exists input, None. split_and!; try done. by f_equal.
Qed.

Lemma grant_of_sound now tls w r :
  grant_of J now (Wire.delivered tls w) = Ok r →
  match r with
  | None => Wire.Status w = 204
  | Some g => Wire.Status w = 200 ∧ now < gr_ValidUntil g ∧
      ∃ o, marshal_grant o = Wire.w_Body w ∧ as_Version o = 1 ∧ grant_ok g ∧
        g = {| gr_Revision := as_Revision o; gr_State := as_Status o;
               gr_ValidUntil := from_unix (as_ValidUntil o) |}
  end.
Proof.
  unfold grant_of. guard E1. destruct (Wire.read_limited _ _) as [body|] eqn:Hr; [|done]. guard E2.
  destruct (_ =? 204) eqn:E3; [guard E4; intros [= <-]; by apply Z.eqb_eq|]. guard E5.
  destruct (Decode_grant J body) as [o|]; [|done]. cbv zeta. guard E6. intros [= <-]. split_bools.
  apply read_exact in Hr as ->; [|done]. cbn. unfold After in *. split_bools. split_and!; [done|done|].
  exists o. by split_and!.
Qed.

(** The client never reports anything else than what the ledger said. *)
Lemma remote_sound endpoint store x ctx now principal service r :
  RemoteAuthorizeService L J endpoint (entitlement_service store x) ctx now principal service = Ok r →
  AuthorizeService store (x_ctx x) principal service (x_now x) = Ok r ∧
  match r with Some g => now < gr_ValidUntil g | None => True end.
Proof.
  unfold RemoteAuthorizeService. guard E1. cbv zeta. guard E2.
  destruct (url_Parse L endpoint) as [u|]; [|done]. unfold entitlement_service.
  destruct (lost x); [done|].
  destruct (serveAuthorization _ _ _ _ _) as [st hd bd] eqn:Hw. set (w := {| Wire.Status := st |}) in *.
  intros Hg. apply grant_of_sound in Hg. split_bools.
  destruct (serveAuthorization_meaning _ _ _ _ _ Hw) as (input & r' & Hb & Hv & Hp & Hs & Ha & Hm);
    [by destruct r; [left|right]; first [done|by destruct Hg]|].
  apply read_body_exact in Hb as (Hlen & _ & all & Hall & Heq). cbn in Hlen, Hall. injection Hall as <-.
  specialize (Heq Hlen). apply eq_sym, query_inj in Heq as [Hpp Hss]; [|done..]. rewrite Hpp, Hss in Ha.
  destruct r as [g|], r' as [g'|]; [|by destruct Hg; congruence|by destruct Hm; congruence|done].
  destruct Hg as (_ & Hnow & o & Ho & Hov & Hgo & ->). destruct Hm as (_ & Hbody & Hgo').
  rewrite Hbody in Ho. apply Wire.object_inj in Ho; [|by repeat constructor| |by apply grant_fields_ok].
  - destruct o as [ov os orv ot], g' as [grv gs gv]. cbn in *. injection Ho as _ -> -> ->.
    rewrite valid_time in * by apply Hgo'. done.
  - destruct Hgo as (_ & Hav & _). destruct (available_plain _ Hav) as [Hpl _].
    repeat (apply Forall_cons; split; [done|]). done.
Qed.

Lemma query_posted u body x :
  healthy x → Wire.u_Path u = ServiceEntitlementAuthorizationPath → Wire.u_RawPath u = "" →
  Wire.u_RawQuery u = "" → Wire.u_Fragment u = "" → 0 < blen body ≤ 512 →
  valid_json_request ServiceEntitlementAuthorizationPath entitlement_header ServiceEntitlementContract
    maximumEntitlementHTTPBodyBytes verifiedWorkloadTLS
    (Wire.arrived (at_server x) (post u body authorization_headers)) = true.
Proof.
  intros (_ & _ & _ & Ht & Hp & Hc) Hpath Hraw Hq Hf Hb.
  unfold valid_json_request, verifiedWorkloadTLS.
  cbn -[Wire.singleHeader Wire.VersionTLS12 blen authorization_headers].
  rewrite Hpath, Hraw, Hq, Hf. rewrite !bool_decide_true by done.
  rewrite (proj2 (Z.leb_le _ _)) by done. rewrite !(proj2 (Z.ltb_lt _ _)) by done.
  rewrite (proj2 (Z.leb_gt _ _)), (proj2 (Z.ltb_ge _ _));
    [done|unfold maximumEntitlementHTTPBodyBytes; lia|lia].
Qed.

(** The decoders read back what was written. *)
Definition grant_reads_back (principal : Principal) (service : ProductService)
    (r : option ServiceEntitlementGrant) : Prop :=
  Decode_authorization J (marshal_authorization (query principal service)) = Some (query principal service) ∧
  ∀ g, r = Some g → Decode_grant J (marshal_grant (grant_response g)) = Some (grant_response g).

Lemma grant_accepted now x g :
  healthy x → grant_ok g → now < gr_ValidUntil g →
  Decode_grant J (marshal_grant (grant_response g)) = Some (grant_response g) →
  grant_of J now (Wire.delivered (at_client x)
    (json_answer setServiceEntitlementHeaders (marshal_grant (grant_response g)))) = Ok (Some g).
Proof.
  intros (_ & _ & Ht & _) Hg Hn Hd. destruct (grant_fields_ok g Hg) as [[Hl1 Hl2] _].
  unfold grant_of, valid_answer. change (Wire.r_TLS _) with (Some (at_client x)). cbv iota.
  rewrite (proj2 (Z.ltb_ge _ _)) by done.
  change (Wire.r_Body _) with (Some (marshal_grant (grant_response g))).
  rewrite Wire.read_all by done. change (Wire.StatusCode _) with 200.
  change (Wire.r_ContentLength _) with (blen (marshal_grant (grant_response g))).
  rewrite (proj2 (Z.ltb_ge _ _)), Z.eqb_refl, (proj2 (Z.eqb_neq _ 0)), Hd by (done || lia).
  cbn [negb andb]. rewrite !bool_decide_true by done. cbn [negb orb andb Z.eqb Pos.eqb].
  cbn [as_Version as_Revision as_Status as_ValidUntil grant_response]. destruct Hg as (-> & -> & Hv).
  rewrite valid_time, Hv by done. unfold After. rewrite (proj2 (Z.ltb_lt _ _)) by done.
  repeat (rewrite bool_decide_true by done). rewrite Z.eqb_refl. by destruct g.
Qed.

(** Asking over HTTP is asking the ledger. Whatever the decoders and the connection
    do, what the client reports is what the ledger answered, and a grant that it reports
    has not ended; and over a working connection, with decoders that read back what was
    written, it reports every answer, but for a grant that has ended meanwhile. *)
Theorem remote_entitlement_agrees endpoint store x ctx now principal service r :
  (RemoteAuthorizeService L J endpoint (entitlement_service store x) ctx now principal service = Ok r →
   AuthorizeService store (x_ctx x) principal service (x_now x) = Ok r ∧
   match r with Some g => now < gr_ValidUntil g | None => True end) ∧
  (healthy x → ValidServiceEntitlementAuthorizationURL L endpoint = true → nil_ctx ctx = false →
   grant_reads_back principal service r →
   AuthorizeService store (x_ctx x) principal service (x_now x) = Ok r →
   match r with Some g => now < gr_ValidUntil g | None => True end →
   RemoteAuthorizeService L J endpoint (entitlement_service store x) ctx now principal service = Ok r).
Proof.
  split; [apply remote_sound|]. intros Hx Hurl Hctx [Hd1 Hd2] Ha Hn.
  pose proof (AuthorizeService_grant _ _ _ _ _ _ Ha) as (Hp & Hs & Hg).
  destruct (query_fields _ _ Hp Hs) as [[Hl1 Hl2] _].
  unfold ValidServiceEntitlementAuthorizationURL in Hurl.
  destruct (url_Parse L endpoint) as [u|] eqn:Hu; [|done]. split_bools.
  unfold RemoteAuthorizeService. rewrite Hctx, Hp, Hs, Hu. cbn [negb orb]. cbv zeta. fold (query principal service).
  rewrite (proj2 (Z.eqb_neq _ 0)), (proj2 (Z.ltb_ge _ _)) by (done || lia). cbn [orb].
  unfold entitlement_service. pose proof Hx as (-> & _ & Ht & _).
  unfold serveAuthorization. cbv zeta. rewrite query_posted by done.
  rewrite posted_body, Hd1 by done. rewrite bool_decide_true by done. cbn [negb orb].
  change {| p_TenantID := _; p_Subject := _ |} with {| p_TenantID := p_TenantID principal; p_Subject := p_Subject principal |}.
  replace {| p_TenantID := p_TenantID principal; p_Subject := p_Subject principal |} with principal by (by destruct principal).
  change (ar_Service (query principal service)) with service. rewrite Hp, Hs, Ha. cbn [negb orb Z.eqb Pos.eqb ar_Version query].
  destruct r as [g|].
  - pose proof Hg as (-> & -> & ->). cbn [negb orb]. change {| as_Version := 1 |} with (grant_response g).
    destruct (grant_fields_ok g Hg) as [[Hg1 Hg2] _].
    rewrite (proj2 (Z.eqb_neq _ 0)), (proj2 (Z.ltb_ge _ _)) by (done || lia). cbn [orb].
    apply grant_accepted; [done..|]. by apply Hd2.
  - unfold grant_of, valid_answer. cbn -[Wire.VersionTLS12 Z.ltb]. rewrite (proj2 (Z.ltb_ge _ _)) by done. done.
Qed.

End System.

(** ** Witnesses *)

Definition ex_ring : EntitlementUpdateKeyring :=
  {| kr_revision := 1;
     kr_keys := {["b1" := {| publicKey := ex_key; k_state := "active";
                             k_verifyUntil := from_unix 1760000000 |}]} |}.
Definition ex_handler : updateHandler := {| h_keyring := ex_ring; h_authorizationTTL := 300 * second |}.
Definition ex_updater : HTTPServiceEntitlementUpdater :=
  {| up_endpoint := "https://a.example/v1/service-entitlements/apply"; up_keyID := "b1";
     up_authorizationTTL := 120 * second |}.
Definition ex_subscription : ServiceEntitlementUpdate :=
  {| u_Principal := ex_p; u_SourceEventID := "e1"; u_PreviousRevision := 0; u_Revision := 1;
     u_PlanID := "plan"; u_State := EntitlementActive; u_VoiceEnabled := true; u_AgentEnabled := false;
     u_AccessUntil := from_unix 1751000000 |}.
Definition ex_update_request : updateRequest := request_of ex_updater (ex_at 1) ex_subscription.
Definition ex_disposition : updateResponse :=
  {| us_Version := 1; us_Status := "applied"; us_SourceEventID := "e1"; us_Revision := 1 |}.
Definition ex_billing : library :=
  {| url_Parse := λ text, Some (ex_parsed ServiceEntitlementUpdatePath text);
     ed25519_Verify := ed25519_Verify ex_accounts; ed25519_Sign := ed25519_Sign ex_accounts;
     json_tokens := json_tokens ex_accounts; Decode_header := λ _, None; Decode_claims := λ _, None;
     Decode_introspection := λ _, None; Decode_status := λ _, None |}.
Definition ex_codecs : codecs :=
  {| Decode_authorization := λ _, None; Decode_grant := λ _, None;
     Decode_update := knows (marshal_update ex_update_request) ex_update_request;
     Decode_disposition := knows (marshal_disposition ex_disposition) ex_disposition |}.
Definition ex_sign (message : bytes) : option bytes := Some (toy_signature ex_key message).
Definition ex_apply : result update_error bool :=
  Apply ex_billing ex_codecs ex_updater "b1" ex_sign
    (update_service ex_billing ex_codecs ex_handler ex_open (ex_exchange 2) (ex_at 2))
    CtxLive (ex_at 1) ex_subscription.

Lemma ex_apply_ok : ex_apply = Ok true.
Proof. vm_compute. reflexivity. Qed.

Lemma reported_update_was_applied_witness :
  ∃ s1 e, ApplyServiceEntitlement ex_open CtxLive ex_subscription (ex_at 2) = (s1, Ok (e, true)).
Proof.
  destruct (reported_update_was_applied ex_billing ex_codecs ex_updater ex_handler "b1" ex_sign ex_open
    (ex_exchange 2) (ex_at 2) CtxLive (ex_at 1) ex_subscription true ltac:(vm_compute; discriminate)
    ex_apply_ok) as (s1 & e & Ha & _).
  exists s1, e. exact Ha.
Defined.

Definition ex_update_body : bytes := marshal_update ex_update_request.
Definition ex_update_arrived : Wire.Request :=
  Wire.arrived ex_tls (post (ex_parsed ServiceEntitlementUpdatePath "") ex_update_body
    (update_headers "b1" ex_update_body
       (toy_signature ex_key (serviceEntitlementUpdateSigningMessage ex_update_body)))).
Definition ex_served : Store * Wire.Written :=
  serveUpdate ex_billing ex_codecs ex_handler ex_open CtxLive (ex_at 2) (ex_at 2) ex_update_arrived.

Lemma ex_served_status : Wire.Status ex_served.2 = 200.
Proof. vm_compute. reflexivity. Qed.

Lemma entitlement_update_authentic_witness :
  ∃ body input, authentic_update ex_billing ex_handler (TruncateSecond (ex_at 2)) body input ∧
    (ApplyServiceEntitlement ex_open CtxLive (update_of input) (ex_at 2)).1 = ex_served.1.
Proof.
  destruct (entitlement_update_authentic ex_billing ex_codecs ex_ring (300 * second) ex_handler ex_open
    CtxLive (ex_at 2) (ex_at 2) ex_update_arrived ex_served.1 ex_served.2
    ltac:(vm_compute; reflexivity) (surjective_pairing _) (or_intror ex_served_status))
    as (_ & body & input & _ & Hau & Ha).
  exists body, input. split; [exact Hau|exact Ha].
Defined.

(** The control plane asks for the service that was just paid for. *)
Definition ex_asked_grant : ServiceEntitlementGrant :=
  {| gr_Revision := 1; gr_State := EntitlementActive; gr_ValidUntil := from_unix 1751000000 |}.
Definition ex_control : library :=
  {| url_Parse := λ text, Some (ex_parsed ServiceEntitlementAuthorizationPath text);
     ed25519_Verify := ed25519_Verify ex_accounts; ed25519_Sign := ed25519_Sign ex_accounts;
     json_tokens := json_tokens ex_accounts; Decode_header := λ _, None; Decode_claims := λ _, None;
     Decode_introspection := λ _, None; Decode_status := λ _, None |}.
Definition ex_control_codecs : codecs :=
  {| Decode_authorization := knows (marshal_authorization (query ex_p ProductServiceVoice))
                               (query ex_p ProductServiceVoice);
     Decode_grant := knows (marshal_grant (grant_response ex_asked_grant)) (grant_response ex_asked_grant);
     Decode_update := λ _, None; Decode_disposition := λ _, None |}.

Lemma ex_granted :
  AuthorizeService ex_served.1 CtxLive ex_p ProductServiceVoice (ex_at 3) = Ok (Some ex_asked_grant).
Proof. vm_compute. reflexivity. Qed.

Lemma remote_entitlement_agrees_witness :
  RemoteAuthorizeService ex_control ex_control_codecs "https://a.example/"
    (entitlement_service ex_control_codecs ex_served.1 (ex_exchange 3)) CtxLive (ex_at 3) ex_p
    ProductServiceVoice = Ok (Some ex_asked_grant).
Proof.
  apply (proj2 (remote_entitlement_agrees ex_control ex_control_codecs "https://a.example/" ex_served.1
    (ex_exchange 3) CtxLive (ex_at 3) ex_p ProductServiceVoice (Some ex_asked_grant))).
  - vm_compute. repeat split; discriminate.
  - vm_compute. reflexivity.
  - reflexivity.
  - split; [vm_compute; reflexivity|]. intros g [= <-]. vm_compute. reflexivity.
  - exact ex_granted.
  - vm_compute. reflexivity.
Defined.

End EntitlementTheorems.
