(* ===== verification/GoDate.v ===== *)
(** * GoDate: instants survive being written and read

    The calendar of [GoBase] is a bijection, so that an instant of whole seconds within
    the years that four digits can write is read back from its text. *)

From stdpp Require Import base strings list.
From Stdlib Require Import ZArith Lia.
From Stdlib.Strings Require Import Byte.
From S2P Require Import Prelude GoBase.

Module GoDate.

(** The year within an era, and the day within the year. *)
Definition year_of_era (doe : Z) : Z := (doe - doe / 1460 + doe / 36524 - doe / 146096) / 365.

Lemma year_of_era_bounds doe :
  0 ≤ doe < 146097 →
  0 ≤ year_of_era doe < 400 ∧
  0 ≤ doe - (365 * year_of_era doe + year_of_era doe / 4 - year_of_era doe / 100) ≤ 365.
Proof. intros H. unfold year_of_era. Z.div_mod_to_equations. lia. Qed.

(** A date is taken apart and put together again. *)
Lemma days_of_civil_of_days days y m d :
  civil_of_days days = (y, m, d) →
  days_of_civil y m d = days ∧ 1 ≤ m ≤ 12 ∧ 1 ≤ d ≤ 31 ∧
  (-719162 ≤ days < 2932897 → 0 ≤ y ≤ 9999).
Proof.
  unfold civil_of_days. fold (year_of_era ((days + 719468) mod 146097)).
  assert (0 ≤ (days + 719468) mod 146097 < 146097) as Hdoe by (apply Z.mod_pos_bound; lia).
  pose proof (Z.div_mod (days + 719468) 146097 ltac:(lia)) as Hdm.
  set (era := (days + 719468) / 146097) in *. set (doe := (days + 719468) mod 146097) in *.
  destruct (year_of_era_bounds doe Hdoe) as [Hy Hd]. set (yoe := year_of_era doe) in *.
  set (doy := doe - (365 * yoe + yoe / 4 - yoe / 100)) in *. clearbody era doe yoe.
  set (mp := (5 * doy + 2) / 153). intros [= <- <- <-].
  assert (0 ≤ mp ≤ 11) as Hmp by (unfold mp; Z.div_mod_to_equations; lia).
  assert (1 ≤ doy - (153 * mp + 2) / 5 + 1 ≤ 31) as Hday by (unfold mp; Z.div_mod_to_equations; lia).
  unfold days_of_civil.
  assert (∀ k, 0 ≤ k < 400 → (k + era * 400) / 400 = era ∧ (k + era * 400) mod 400 = k) as Hera.
  { intros k Hk. rewrite Z.div_add, Z.mod_add, Z.div_small, Z.mod_small by lia. lia. }
  destruct (Hera yoe Hy) as [He1 He2].
  destruct (Z.ltb_spec mp 10) as [Hlt|Hge].
  - rewrite !(proj2 (Z.leb_gt (mp + 3) 2)) by lia. rewrite Z.add_0_r, He1, He2.
    replace (mp + 3 - 3) with mp by lia. unfold doy in *.
    split_and!; [lia..|]. intros Hr. Z.div_mod_to_equations. lia.
  - rewrite !(proj2 (Z.leb_le (mp - 9) 2)) by lia.
    replace (yoe + era * 400 + 1 - 1) with (yoe + era * 400) by lia. rewrite He1, He2.
    replace (mp - 9 + 9) with mp by lia.
    assert (306 ≤ doy) by (unfold mp in Hge; Z.div_mod_to_equations; lia). unfold doy in *.
    split_and!; [lia..|]. intros Hr. Z.div_mod_to_equations. lia.
Qed.

(** ** Padded numbers *)

Lemma pad_dec_S w n :
  bytes_of (pad_dec (S w) n) = bytes_of (pad_dec w (n / 10)) ++ [byte_of (48 + n mod 10)].
Proof.
  cbn [pad_dec]. change (String.append ?a ?b) with (a +:+ b). rewrite bytes_of_app. f_equal.
  assert (0 ≤ n mod 10 < 10) by (apply Z.mod_pos_bound; lia).
  assert (n mod 10 = 0 ∨ n mod 10 = 1 ∨ n mod 10 = 2 ∨ n mod 10 = 3 ∨ n mod 10 = 4 ∨ n mod 10 = 5 ∨
    n mod 10 = 6 ∨ n mod 10 = 7 ∨ n mod 10 = 8 ∨ n mod 10 = 9) as Hc by lia.
  repeat (destruct Hc as [->|Hc]; [by vm_compute|]). rewrite Hc. by vm_compute.
Qed.

Lemma pad_dec_length w n : length (bytes_of (pad_dec w n)) = w.
Proof.
  revert n. induction w as [|w IH]; intros n; [done|].
  rewrite pad_dec_S, length_app, IH. cbn. lia.
Qed.

Lemma parse_digits_concat bs cs acc :
  parse_digits (bs ++ cs) acc = parse_digits bs acc ≫= parse_digits cs.
Proof.
  revert acc. induction bs as [|b bs IH]; intros acc; [done|].
  cbn. destruct (digit_value b) as [d|]; [apply IH|done].
Qed.

Lemma parse_pad_dec w n : 0 ≤ n < 10 ^ Z.of_nat w → parse_digits (bytes_of (pad_dec w n)) 0 = Some n.
Proof.
  revert n. induction w as [|w IH]; intros n Hn; [cbn in *; f_equal; lia|].
  rewrite Nat2Z.inj_succ, Z.pow_succ_r in Hn by lia.
  rewrite pad_dec_S, parse_digits_concat, IH
    by (split; [apply Z.div_pos; lia|apply Z.div_lt_upper_bound; lia]). cbn [mbind option_bind parse_digits].
  assert (0 ≤ n mod 10 < 10) by (apply Z.mod_pos_bound; lia).
  unfold digit_value. rewrite bval_byte_of, Z.mod_small by lia.
  rewrite (proj2 (Z.leb_le _ _)), (proj2 (Z.leb_le _ _)) by lia. cbn.
  f_equal. pose proof (Z.div_mod n 10 ltac:(lia)). lia.
Qed.

Lemma ParseUint_pad_dec w n :
  (0 < w)%nat → 0 ≤ n < 10 ^ Z.of_nat w → n < 2 ^ 32 → ParseUint (bytes_of (pad_dec w n)) 32 = Some n.
Proof.
  intros Hw Hn H32. unfold ParseUint. rewrite bool_decide_false.
  - rewrite parse_pad_dec by done. by rewrite (proj2 (Z.ltb_lt _ _)).
  - intros Hnil. apply (f_equal length) in Hnil. rewrite pad_dec_length in Hnil. cbn in Hnil. lia.
Qed.

(** A number is read at its position. *)
Lemma read_padded w n pre post :
  (0 < w)%nat → 0 ≤ n < 10 ^ Z.of_nat w → n < 2 ^ 32 →
  ParseUint (take w (drop (length pre) (pre ++ bytes_of (pad_dec w n) ++ post))) 32 = Some n.
Proof.
  intros Hw Hn H32. rewrite drop_app_length, take_app_length' by (by rewrite pad_dec_length).
  by apply ParseUint_pad_dec.
Qed.

(** ** Instants *)

(** The first instant of the year 10000. *)
Definition year_10000 : Time := from_unix 253402300800.

(** The text of an instant is read back. *)
Lemma CanonicalRFC3339_FormatRFC3339 t :
  zero_time ≤ t < year_10000 → t mod second = 0 → CanonicalRFC3339 (FormatRFC3339 t) = Some t.
Proof.
  intros Hr Hs.
  assert (t = from_unix (Unix t)) as Ht
    by (unfold from_unix, Unix; pose proof (Z.div_mod t second ltac:(done)); lia).
  set (u := Unix t) in *.
  assert (-62135596800 ≤ u < 253402300800) as Hu
    by (unfold zero_time, year_10000, from_unix, second in *; lia).
  destruct (civil_of_days (u / 86400)) as [ [y m] d] eqn:Hc.
  destruct (days_of_civil_of_days _ _ _ _ Hc) as (Hd & Hm & Hdd & Hy).
  specialize (Hy ltac:(Z.div_mod_to_equations; lia)).
  set (s := u mod 86400).
  assert (0 ≤ s < 86400) as Hsb by (apply Z.mod_pos_bound; lia).
  assert (bytes_of (FormatRFC3339 t) =
    bytes_of (pad_dec 4 y) ++ bytes_of "-" ++ bytes_of (pad_dec 2 m) ++ bytes_of "-" ++
    bytes_of (pad_dec 2 d) ++ bytes_of "T" ++ bytes_of (pad_dec 2 (s / 3600)) ++ bytes_of ":" ++
    bytes_of (pad_dec 2 (s / 60 mod 60)) ++ bytes_of ":" ++ bytes_of (pad_dec 2 (s mod 60)) ++
    bytes_of "Z") as Hb.
  { unfold FormatRFC3339, FormatDate. fold u. rewrite Hc. fold s. rewrite !bytes_of_app, <- !app_assoc. done. }
  unfold CanonicalRFC3339. rewrite Hb.
  epose proof (read_padded 4 y [] _) as R1.
  epose proof (read_padded 2 m (bytes_of (pad_dec 4 y) ++ bytes_of "-") _) as R2.
  epose proof (read_padded 2 d (bytes_of (pad_dec 4 y) ++ bytes_of "-" ++ bytes_of (pad_dec 2 m) ++
    bytes_of "-") _) as R3.
  epose proof (read_padded 2 (s / 3600) (bytes_of (pad_dec 4 y) ++ bytes_of "-" ++
    bytes_of (pad_dec 2 m) ++ bytes_of "-" ++ bytes_of (pad_dec 2 d) ++ bytes_of "T") _) as R4.
  epose proof (read_padded 2 (s / 60 mod 60) (bytes_of (pad_dec 4 y) ++ bytes_of "-" ++
    bytes_of (pad_dec 2 m) ++ bytes_of "-" ++ bytes_of (pad_dec 2 d) ++ bytes_of "T" ++
    bytes_of (pad_dec 2 (s / 3600)) ++ bytes_of ":") _) as R5.
  epose proof (read_padded 2 (s mod 60) (bytes_of (pad_dec 4 y) ++ bytes_of "-" ++
    bytes_of (pad_dec 2 m) ++ bytes_of "-" ++ bytes_of (pad_dec 2 d) ++ bytes_of "T" ++
    bytes_of (pad_dec 2 (s / 3600)) ++ bytes_of ":" ++ bytes_of (pad_dec 2 (s / 60 mod 60)) ++
    bytes_of ":") _) as R6.
  rewrite !length_app, !pad_dec_length in R2, R3, R4, R5, R6.
  rewrite <- !app_assoc in R2, R3, R4, R5, R6.
  cbn [length Nat.add app] in R1. change (length (bytes_of (String _ ""))) with 1%nat in *.
  cbn [Nat.add] in R2, R3, R4, R5, R6.
  rewrite R1, R2, R3, R4, R5, R6 by (cbn; Z.div_mod_to_equations; lia).
  cbn zeta. rewrite Hd.
  replace (u / 86400 * 86400 + s / 3600 * 3600 + s / 60 mod 60 * 60 + s mod 60) with u
    by (unfold s; Z.div_mod_to_equations; lia).
  rewrite <- Ht. by rewrite bool_decide_true.
  Unshelve. all: exact [].
Qed.

End GoDate.
