(* ===== verification/FactoryTime.v ===== *)
(** * FactoryTime: the trusted-time authority of the factory

    Models [internal/factorytime]: the requests and receipts of [contract.go], the
    authority of [authority.go] and its handler in [handler.go], the ledger of
    [postgres.go], the client of the external signer in [remote_signer.go], and the
    signer's own service in [signer_server.go] with its check against the ledger in
    [postgres_signer.go]. The database is its two tables with the constraints of
    [migrations/factorytime/0001_factory_trusted_time.sql]; a serializable transaction is
    one step on them, and what the server or the network may do to it is an argument. The
    JSON decoder, [url.Parse], Ed25519 and the signing backend are arguments. *)

From stdpp Require Import base gmap strings list sorting.
From Stdlib Require Import ZArith Lia.
From Stdlib.Strings Require Import Byte.
From S2P Require Import Prelude GoBase GoCrypto Protocol Auth StrictJSON GoWire.

Module FactoryTime.
Import Ident.

(** ** The contract *)

Definition EndpointPath : string := "/v1/factory/trusted-time".
Definition RequestSchema : string := "xz-sacrificial-trusted-time-request-v1".
Definition ReceiptSchema : string := "xz-sacrificial-trusted-time-receipt-v1".
Definition Environment : string := "SACRIFICIAL_HARDWARE_AUTHORIZATION".
Definition Scope : string := "SACRIFICIAL_ATTEMPT_CONSUMPTION_TIME".
Definition RequestResult : string := "TRUSTED_TIME_REQUESTED".
Definition ReceiptResult : string := "TRUSTED_TIME_ATTESTED".
Definition SignatureAlgorithm : string := "Ed25519".
Definition MaximumRequestBytes : Z := 64 * 1024.
Definition MaximumResponseBytes : Z := 16 * 1024.
Definition MaximumReceiptSeconds : Z := 10.
Definition SignatureDomain : bytes :=
  bytes_of "xz-sacrificial-trusted-time-receipt-v1" ++ [byte_of 0].

Inductive error : Type :=
| ErrInvalid
| ErrUnauthorized
| ErrReplay
| ErrOutsideWindow
| ErrUnavailable.

Record Ledger : Type := {
  PolicySHA256 : string;
  PolicyID : string;
  LedgerID : string;
}.

Record Authorization : Type := {
  PlanSHA256 : string;
  PlanID : string;
  IssuedAt : string;
  ExpiresAt : string;
}.

Record Transaction : Type := {
  AttemptID : string;
  DeviceID : string;
  BaseMAC : string;
}.

Record Station : Type := {
  ID : string;
  FixtureID : string;
  FixtureVersion : string;
}.

Record Request : Type := {
  q_Schema : string;
  q_Environment : string;
  q_Scope : string;
  q_RequestID : string;
  q_NonceB64URL : string;
  q_Ledger : Ledger;
  q_Authorization : Authorization;
  q_Transaction : Transaction;
  q_Station : Station;
  q_Result : string;
}.

Record Receipt : Type := {
  Schema : string;
  r_Environment : string;
  r_Scope : string;
  RequestSHA256 : string;
  RequestID : string;
  NonceB64URL : string;
  r_Ledger : Ledger;
  r_Authorization : Authorization;
  r_Transaction : Transaction;
  r_Station : Station;
  AuthorityKeyID : string;
  ObservedAt : string;
  r_ExpiresAt : string;
  Result : string;
  r_SignatureAlgorithm : string;
  SignatureB64URL : string;
}.

#[global] Instance Ledger_eq_dec : EqDecision Ledger.
Proof. solve_decision. Defined.
#[global] Instance Authorization_eq_dec : EqDecision Authorization.
Proof. solve_decision. Defined.
#[global] Instance Transaction_eq_dec : EqDecision Transaction.
Proof. solve_decision. Defined.
#[global] Instance Station_eq_dec : EqDecision Station.
Proof. solve_decision. Defined.
#[global] Instance Request_eq_dec : EqDecision Request.
Proof. solve_decision. Defined.
#[global] Instance Receipt_eq_dec : EqDecision Receipt.
Proof. solve_decision. Defined.

Record signerRequest : Type := {
  sq_Schema : string;
  sq_KeyID : string;
  sq_SignatureAlgorithm : string;
  sq_SignatureDomainB64URL : string;
  sq_UnsignedReceiptB64URL : string;
  sq_UnsignedReceiptSHA256 : string;
  sq_Result : string;
}.

Record signerResponse : Type := {
  sr_Schema : string;
  sr_KeyID : string;
  sr_SignatureAlgorithm : string;
  sr_SignatureB64URL : string;
  sr_UnsignedReceiptSHA256 : string;
  sr_Result : string;
}.

(** The libraries. A decoder reads one document with known members only and fails when
    anything follows it; [json_tokens] is the stream of the same document. *)
Record library : Type := {
  url_Parse : string → option Wire.URL;
  url_String : Wire.URL → string;
  url_Opaque : Wire.URL → string;
  url_Hostname : Wire.URL → string;
  url_Port : Wire.URL → string;
  ed25519_Verify : bytes → bytes → bytes → bool;
  json_tokens : bytes → StrictJSON.Decoder;
  Decode_request : bytes → option Request;
  Decode_receipt : bytes → option Receipt;
  Decode_signer_request : bytes → option signerRequest;
  Decode_signer_response : bytes → option signerResponse;
}.

(** ** Canonical JSON

    A structure is marshalled, decoded into generic values and marshalled again: the
    members of every object come out in the order of their names, and a byte that is not
    UTF-8 has become U+FFFD. *)

Inductive json : Type :=
| JText (s : string)
| JMembers (members : list (string * json)).

(** The text that is left after one encoding and decoding. *)
Fixpoint valid_text (fuel : nat) (bs : bytes) : bytes :=
  match fuel, bs with
  | S fuel, b :: rest =>
      if bval b <? 128 then b :: valid_text fuel rest
      else match Text.decode_rune bs with
           | None => byte_of 239 :: byte_of 191 :: byte_of 189 :: valid_text fuel rest
           | Some (_, after) => take (length bs - length after) bs ++ valid_text fuel after
           end
  | _, _ => []
  end.

Definition member_le (f g : string * bytes) : Prop := String.leb f.1 g.1 = true.
#[global] Instance member_le_dec : RelDecision member_le.
Proof. intros f g. unfold member_le. apply _. Defined.

Fixpoint join_members (ms : list (string * bytes)) : bytes :=
  match ms with
  | [] => []
  | [(name, text)] => Wire.dquote :: bytes_of name ++ [Wire.dquote; byte_of 58] ++ text
  | (name, text) :: ms =>
      Wire.dquote :: bytes_of name ++ [Wire.dquote; byte_of 58] ++ text ++ Wire.comma :: join_members ms
  end.

Fixpoint CanonicalJSON (v : json) : bytes :=
  match v with
  | JText s => Wire.quote (string_of (valid_text (length (bytes_of s)) (bytes_of s)))
  | JMembers ms =>
      byte_of 123
      :: join_members (merge_sort member_le (map (λ m, (m.1, CanonicalJSON m.2)) ms))
      ++ [Wire.closing]
  end.

Definition ledger_json (l : Ledger) : json :=
  JMembers [("policy_sha256", JText (PolicySHA256 l)); ("policy_id", JText (PolicyID l));
            ("ledger_id", JText (LedgerID l))].
Definition authorization_json (a : Authorization) : json :=
  JMembers [("plan_sha256", JText (PlanSHA256 a)); ("plan_id", JText (PlanID a));
            ("issued_at", JText (IssuedAt a)); ("expires_at", JText (ExpiresAt a))].
Definition transaction_json (t : Transaction) : json :=
  JMembers [("attempt_id", JText (AttemptID t)); ("device_id", JText (DeviceID t));
            ("base_mac", JText (BaseMAC t))].
Definition station_json (s : Station) : json :=
  JMembers [("id", JText (ID s)); ("fixture_id", JText (FixtureID s));
            ("fixture_version", JText (FixtureVersion s))].

Definition request_json (q : Request) : json :=
  JMembers [("schema", JText (q_Schema q)); ("environment", JText (q_Environment q));
            ("scope", JText (q_Scope q)); ("request_id", JText (q_RequestID q));
            ("nonce_b64url", JText (q_NonceB64URL q)); ("ledger", ledger_json (q_Ledger q));
            ("authorization", authorization_json (q_Authorization q));
            ("transaction", transaction_json (q_Transaction q));
            ("station", station_json (q_Station q)); ("result", JText (q_Result q))].

Definition receipt_json (r : Receipt) : json :=
  JMembers ([("schema", JText (Schema r)); ("environment", JText (r_Environment r));
             ("scope", JText (r_Scope r)); ("request_sha256", JText (RequestSHA256 r));
             ("request_id", JText (RequestID r)); ("nonce_b64url", JText (NonceB64URL r));
             ("ledger", ledger_json (r_Ledger r));
             ("authorization", authorization_json (r_Authorization r));
             ("transaction", transaction_json (r_Transaction r));
             ("station", station_json (r_Station r));
             ("authority_key_id", JText (AuthorityKeyID r)); ("observed_at", JText (ObservedAt r));
             ("expires_at", JText (r_ExpiresAt r)); ("result", JText (Result r));
             ("signature_algorithm", JText (r_SignatureAlgorithm r))]
            ++ (if bool_decide (SignatureB64URL r = "") then []
                else [("signature_b64url", JText (SignatureB64URL r))])).

Definition signer_request_json (q : signerRequest) : json :=
  JMembers [("schema", JText (sq_Schema q)); ("key_id", JText (sq_KeyID q));
            ("signature_algorithm", JText (sq_SignatureAlgorithm q));
            ("signature_domain_b64url", JText (sq_SignatureDomainB64URL q));
            ("unsigned_receipt_b64url", JText (sq_UnsignedReceiptB64URL q));
            ("unsigned_receipt_sha256", JText (sq_UnsignedReceiptSHA256 q));
            ("result", JText (sq_Result q))].

Definition signer_response_json (o : signerResponse) : json :=
  JMembers [("schema", JText (sr_Schema o)); ("key_id", JText (sr_KeyID o));
            ("signature_algorithm", JText (sr_SignatureAlgorithm o));
            ("signature_b64url", JText (sr_SignatureB64URL o));
            ("unsigned_receipt_sha256", JText (sr_UnsignedReceiptSHA256 o));
            ("result", JText (sr_Result o))].

(** ** Validation *)

(** [hex.DecodeString]. *)
Definition hex_value (b : byte) : option Z :=
  let c := bval b in
  if (48 <=? c) && (c <=? 57) then Some (c - 48)
  else if (97 <=? c) && (c <=? 102) then Some (c - 87)
  else if (65 <=? c) && (c <=? 70) then Some (c - 55) else None.
Fixpoint hex_pairs (bs : bytes) : option bytes :=
  match bs with
  | [] => Some []
  | hi :: lo :: bs =>
      match hex_value hi, hex_value lo, hex_pairs bs with
      | Some h, Some l, Some out => Some (byte_of (16 * h + l) :: out)
      | _, _, _ => None
      end
  | [_] => None
  end.
Definition hex_decode (s : string) : option bytes := hex_pairs (bytes_of s).

Definition validIdentifier (value : string) : bool := ValidIdentifier value 128.
Definition validDigest (value : string) : bool := validSHA256 value.

Definition validNonce (value : string) : bool :=
  IF negb (slen value =? 43) RETURN false ;;
  canonical_b64 value 32.

(** [devicePattern]: "xz-" and twelve lower-case hexadecimal digits. *)
Definition device_matches (value : string) : bool :=
  let bs := bytes_of value in
  bool_decide (take 3 bs = bytes_of "xz-") && (length bs =? 15)%nat && forallb hex_byte (drop 3 bs).

Definition upper_hex_byte (b : byte) : bool :=
  let c := bval b in ((48 <=? c) && (c <=? 57)) || ((65 <=? c) && (c <=? 70)).
(** [macPattern]: six pairs of upper-case hexadecimal digits, a colon between them. *)
Fixpoint mac_pairs (n : nat) (bs : bytes) : bool :=
  match n, bs with
  | O, [a; b] => upper_hex_byte a && upper_hex_byte b
  | S n, a :: b :: c :: bs =>
      upper_hex_byte a && upper_hex_byte b && (bval c =? 58) && mac_pairs n bs
  | _, _ => false
  end.
Definition mac_matches (value : string) : bool := mac_pairs 5 (bytes_of value).

(** [strings.ToLower(strings.ReplaceAll(value, ":", ""))] of a text in ASCII. *)
Definition lower_byte (b : byte) : byte :=
  if (65 <=? bval b) && (bval b <=? 90) then byte_of (bval b + 32) else b.
Definition mac_digits (value : string) : string :=
  string_of (map lower_byte (filter (λ b, bval b ≠ 58) (bytes_of value))).

(** Layout "2006-01-02T15:04:05Z". [Format] writes a year beyond 9999 with all its
    digits. *)
Definition parseTimestamp (value : string) : option Time :=
  match CanonicalRFC3339 value with
  | Some parsed => if parsed <? zero_time then None else Some parsed
  | None => None
  end.
Definition end_of_9999 : Time := from_unix 253402300800.
Definition FormatTimestamp (t : Time) : string :=
  if t <? end_of_9999 then FormatRFC3339 t
  else let '(y, _, _) := civil_of_days (Unix t / 86400) in
       FormatInt y +:+ String.substring 4 16 (FormatRFC3339 t).

Definition validateSubject (ledger : Ledger) (authorization : Authorization)
    (transaction : Transaction) (station : Station) : option (Time * Time) :=
  IF negb (validDigest (PolicySHA256 ledger)) || negb (validIdentifier (PolicyID ledger))
     || negb (validIdentifier (LedgerID ledger)) || negb (validDigest (PlanSHA256 authorization))
     || negb (validIdentifier (PlanID authorization)) || negb (validIdentifier (AttemptID transaction))
     || negb (device_matches (DeviceID transaction)) || negb (mac_matches (BaseMAC transaction))
     || negb (bool_decide (DeviceID transaction = "xz-" +:+ mac_digits (BaseMAC transaction)))
     || negb (validIdentifier (ID station)) || negb (validIdentifier (FixtureID station))
     || negb (validIdentifier (FixtureVersion station))
    RETURN None ;;
  match parseTimestamp (IssuedAt authorization) with
  | None => None
  | Some issued =>
      match parseTimestamp (ExpiresAt authorization) with
      | None => None
      | Some expires =>
          IF negb (Before issued expires) RETURN None ;;
          Some (issued, expires)
      end
  end.

Definition ValidateRequest (q : Request) : bool :=
  IF negb (bool_decide (q_Schema q = RequestSchema)) || negb (bool_decide (q_Environment q = Environment))
     || negb (bool_decide (q_Scope q = Scope)) || negb (bool_decide (q_Result q = RequestResult))
     || negb (validIdentifier (q_RequestID q)) || negb (validNonce (q_NonceB64URL q))
    RETURN false ;;
  match validateSubject (q_Ledger q) (q_Authorization q) (q_Transaction q) (q_Station q) with
  | None => false
  | Some (issued, expires) => Before issued expires
  end.

Definition ValidateUnsignedReceipt (r : Receipt) : bool :=
  IF negb (bool_decide (Schema r = ReceiptSchema)) || negb (bool_decide (r_Environment r = Environment))
     || negb (bool_decide (r_Scope r = Scope)) || negb (bool_decide (Result r = ReceiptResult))
     || negb (bool_decide (r_SignatureAlgorithm r = SignatureAlgorithm))
     || negb (bool_decide (SignatureB64URL r = "")) || negb (validDigest (RequestSHA256 r))
     || negb (validIdentifier (RequestID r)) || negb (validNonce (NonceB64URL r))
     || negb (validIdentifier (AuthorityKeyID r))
    RETURN false ;;
  match validateSubject (r_Ledger r) (r_Authorization r) (r_Transaction r) (r_Station r) with
  | None => false
  | Some (planIssued, planExpires) =>
      match parseTimestamp (ObservedAt r) with
      | None => false
      | Some observed =>
          match parseTimestamp (r_ExpiresAt r) with
          | None => false
          | Some expires =>
              negb (negb (Before observed expires)
                    || After expires (observed + MaximumReceiptSeconds * second)
                    || Before observed planIssued || After observed planExpires)
          end
      end
  end.

Section Library.
Context (L : library).

(** The same walk as that of [StrictJSON], statement by statement. *)
Definition consumeJSONValue (ts : list StrictJSON.token) : result StrictJSON.error (list StrictJSON.token) :=
  StrictJSON.parseValue (StrictJSON.enough ts) ts.

Definition rejectDuplicateMembers (data : bytes) : bool :=
  let decoder := json_tokens L data in
  match consumeJSONValue (StrictJSON.rest decoder) with
  | Err _ => true
  | Ok [] => negb (StrictJSON.eof decoder)
  | Ok (_ :: _) => true
  end.

Definition ParseRequest (data : bytes) : result error (Request * bytes) :=
  IF (blen data =? 0) || (MaximumRequestBytes <? blen data) || rejectDuplicateMembers data
    RETURN Err ErrInvalid ;;
  match Decode_request L data with
  | None => Err ErrInvalid
  | Some request =>
      IF negb (ValidateRequest request) RETURN Err ErrInvalid ;;
      IF negb (bool_decide (CanonicalJSON (request_json request) = data)) RETURN Err ErrInvalid ;;
      Ok (request, Sum256 data)
  end.

Definition ParseUnsignedReceipt (data : bytes) : result error Receipt :=
  IF (blen data =? 0) || (MaximumResponseBytes <? blen data) || rejectDuplicateMembers data
    RETURN Err ErrInvalid ;;
  match Decode_receipt L data with
  | None => Err ErrInvalid
  | Some receipt =>
      IF negb (ValidateUnsignedReceipt receipt) RETURN Err ErrInvalid ;;
      IF negb (bool_decide (CanonicalJSON (receipt_json receipt) = data)) RETURN Err ErrInvalid ;;
      Ok receipt
  end.

End Library.

(** ** The ledger *)

Record stationRow : Type := {
  st_FixtureID : string;
  st_FixtureVersion : string;
  st_CertificateSHA256 : bytes;
  st_Enabled : bool;
}.

Record requestRow : Type := {
  w_RequestSHA256 : bytes;
  w_RequestID : string;
  w_NonceSHA256 : bytes;
  w_Station : Station;
  w_ClientCertificateSHA256 : bytes;
  w_PolicySHA256 : bytes;
  w_PolicyID : string;
  w_LedgerID : string;
  w_PlanSHA256 : bytes;
  w_PlanID : string;
  w_AuthorizationIssued : Time;
  w_AuthorizationExpires : Time;
  w_Transaction : Transaction;
  w_AuthorityKeyID : string;
  w_ObservedAt : Time;
  w_ReceiptExpiresAt : Time;
}.

(** Stations are enrolled by their operators; requests are only ever inserted. *)
Record Database : Type := {
  stations : gmap string stationRow;
  requests : list requestRow;
}.

(** The CHECK clauses and the widths of [factory_trusted_time_requests]. *)
Definition row_checks (w : requestRow) : bool :=
  (blen (w_RequestSHA256 w) =? 32) && ValidIdentifier (w_RequestID w) 128
  && (blen (w_NonceSHA256 w) =? 32) && (slen (ID (w_Station w)) <=? 128)
  && (slen (FixtureID (w_Station w)) <=? 128) && (slen (FixtureVersion (w_Station w)) <=? 128)
  && (blen (w_ClientCertificateSHA256 w) =? 32) && (blen (w_PolicySHA256 w) =? 32)
  && (slen (w_PolicyID w) <=? 128) && (slen (w_LedgerID w) <=? 128)
  && (blen (w_PlanSHA256 w) =? 32) && (slen (w_PlanID w) <=? 128)
  && (slen (AttemptID (w_Transaction w)) <=? 128) && device_matches (DeviceID (w_Transaction w))
  && mac_matches (BaseMAC (w_Transaction w)) && ValidIdentifier (w_AuthorityKeyID w) 128
  && (w_AuthorizationIssued w <? w_AuthorizationExpires w)
  && (w_AuthorizationIssued w <=? w_ObservedAt w) && (w_ObservedAt w <=? w_AuthorizationExpires w)
  && (w_ObservedAt w <? w_ReceiptExpiresAt w)
  && (w_ReceiptExpiresAt w <=? w_ObservedAt w + 10 * second).

(** The primary key and the two UNIQUE columns. *)
Definition row_unique (rows : list requestRow) (w : requestRow) : bool :=
  forallb (λ v, negb (bool_decide (w_RequestSHA256 v = w_RequestSHA256 w))
                && negb (bool_decide (w_RequestID v = w_RequestID w))
                && negb (bool_decide (w_NonceSHA256 v = w_NonceSHA256 w))) rows.

(** What a statement may report: SQLSTATE 23505, 40001 or 40P01, or anything else. *)
Inductive fault : Type := UniqueViolation | Serialization | OtherFault.

Definition insert_row (db : Database) (w : requestRow) : result fault Database :=
  IF negb (row_checks w) RETURN Err OtherFault ;;
  IF bool_decide (stations db !! ID (w_Station w) = None) RETURN Err OtherFault ;;
  IF negb (row_unique (requests db) w) RETURN Err UniqueViolation ;;
  Ok {| stations := stations db; requests := requests db ++ [w] |}.

(** One attempt: what other transactions did before it, what goes wrong in its
    statements, the database's clock, and whether a commit whose acknowledgement was lost
    took effect. *)
Record attempt : Type := {
  others : Database → Database;
  begins : bool;
  clock : result fault Time;
  on_select : option fault;
  on_insert : option fault;
  on_commit : option (fault * bool);
  timed_out : bool;
}.

Record Reservation : Type := {
  v_Request : Request;
  v_RequestSHA256 : bytes;
  v_NonceSHA256 : bytes;
  v_ClientCertificateSHA256 : bytes;
  v_AuthorityKeyID : string;
}.

Definition equalDigest (left right : bytes) : bool :=
  (blen left =? 32) && (blen right =? 32) && bool_decide (left = right).

Definition validReservation (v : Reservation) : bool :=
  IF negb (ValidateRequest (v_Request v)) || negb (validIdentifier (v_AuthorityKeyID v))
    RETURN false ;;
  IF negb (bool_decide (Sum256 (CanonicalJSON (request_json (v_Request v))) = v_RequestSHA256 v))
    RETURN false ;;
  match DecodeString (q_NonceB64URL (v_Request v)) with
  | None => false
  | Some nonce => bool_decide (Sum256 nonce = v_NonceSHA256 v)
  end.

(** [planIssued, _ := parseTimestamp(..)]: the zero time when it cannot be read. *)
Definition timestamp_or_zero (value : string) : Time := default zero_time (parseTimestamp value).

Definition row_of (v : Reservation) (policyDigest planDigest : bytes) (observedAt : Time)
    (receiptLifetime : Duration) : requestRow :=
  let q := v_Request v in
  {| w_RequestSHA256 := v_RequestSHA256 v; w_RequestID := q_RequestID q;
     w_NonceSHA256 := v_NonceSHA256 v; w_Station := q_Station q;
     w_ClientCertificateSHA256 := v_ClientCertificateSHA256 v;
     w_PolicySHA256 := policyDigest; w_PolicyID := PolicyID (q_Ledger q);
     w_LedgerID := LedgerID (q_Ledger q); w_PlanSHA256 := planDigest;
     w_PlanID := PlanID (q_Authorization q);
     w_AuthorizationIssued := timestamp_or_zero (IssuedAt (q_Authorization q));
     w_AuthorizationExpires := timestamp_or_zero (ExpiresAt (q_Authorization q));
     w_Transaction := q_Transaction q; w_AuthorityKeyID := v_AuthorityKeyID v;
     w_ObservedAt := observedAt; w_ReceiptExpiresAt := observedAt + receiptLifetime |}.

Inductive txn_error : Type := Business (e : error) | Statement (f : fault).

Definition reserveTransaction (db : Database) (a : attempt) (v : Reservation)
    (receiptLifetime : Duration) : result txn_error (Database * Time) :=
  match clock a with
  | Err f => Err (Statement f)
  | Ok databaseNow =>
      let observedAt := TruncateSecond databaseNow in
      let q := v_Request v in
      let planIssued := timestamp_or_zero (IssuedAt (q_Authorization q)) in
      let planExpires := timestamp_or_zero (ExpiresAt (q_Authorization q)) in
      IF Before databaseNow planIssued || After databaseNow planExpires
        RETURN Err (Business ErrOutsideWindow) ;;
      match on_select a with
      | Some f => Err (Statement f)
      | None =>
          match stations db !! ID (q_Station q) with
          | None => Err (Business ErrUnauthorized)
          | Some st =>
              IF negb (st_Enabled st) || negb (bool_decide (st_FixtureID st = FixtureID (q_Station q)))
                 || negb (bool_decide (st_FixtureVersion st = FixtureVersion (q_Station q)))
                 || negb (equalDigest (st_CertificateSHA256 st) (v_ClientCertificateSHA256 v))
                RETURN Err (Business ErrUnauthorized) ;;
              match hex_decode (PolicySHA256 (q_Ledger q)) with
              | None => Err (Business ErrInvalid)
              | Some policyDigest =>
                  IF negb (blen policyDigest =? 32) RETURN Err (Business ErrInvalid) ;;
                  match hex_decode (PlanSHA256 (q_Authorization q)) with
                  | None => Err (Business ErrInvalid)
                  | Some planDigest =>
                      IF negb (blen planDigest =? 32) RETURN Err (Business ErrInvalid) ;;
                      match on_insert a with
                      | Some f => Err (Statement f)
                      | None =>
                          match insert_row db (row_of v policyDigest planDigest observedAt
                                                 receiptLifetime) with
                          | Err f => Err (Statement f)
                          | Ok db => Ok (db, observedAt)
                          end
                      end
                  end
              end
          end
      end
  end.

(** The transaction and its commit or rollback. *)
Definition run_attempt (db : Database) (a : attempt) (v : Reservation)
    (receiptLifetime : Duration) : Database * result txn_error Time :=
  match reserveTransaction db a v receiptLifetime with
  | Err e => (db, Err e)
  | Ok (db', observedAt) =>
      match on_commit a with
      | None => (db', Ok observedAt)
      | Some (f, effective) => (if effective then db' else db, Err (Statement f))
      end
  end.

Definition maximumDBAttempts : nat := 4.

Fixpoint attempts_loop (n : nat) (db : Database) (a : nat → attempt) (v : Reservation)
    (receiptLifetime : Duration) : Database * result error Time :=
  match n with
  | O => (db, Err ErrUnavailable)
  | S n =>
      IF negb (begins (a n)) RETURN (db, Err ErrUnavailable) ;;
      match run_attempt (others (a n) db) (a n) v receiptLifetime with
      | (db, Ok observedAt) => (db, Ok observedAt)
      | (db, Err (Statement UniqueViolation)) => (db, Err ErrReplay)
      | (db, Err (Business e)) => (db, Err e)
      | (db, Err (Statement Serialization)) =>
          IF timed_out (a n) RETURN (db, Err ErrUnavailable) ;;
          attempts_loop n db a v receiptLifetime
      | (db, Err (Statement OtherFault)) => (db, Err ErrUnavailable)
      end
  end.

Definition Reserve (db : Database) (a : nat → attempt) (v : Reservation)
    (receiptLifetime : Duration) : Database * result error Time :=
  IF negb (validReservation v) || (receiptLifetime <? second)
     || (MaximumReceiptSeconds * second <? receiptLifetime)
     || negb (Z.rem receiptLifetime second =? 0)
    RETURN (db, Err ErrInvalid) ;;
  attempts_loop maximumDBAttempts db a v receiptLifetime.

(** ** The authority *)

Record Authority : Type := {
  keyID : string;
  receiptLifetime : Duration;
}.

Definition NewAuthority (signer_KeyID : string) (receiptLifetime : Duration) : option Authority :=
  IF negb (validIdentifier signer_KeyID) || (receiptLifetime <? second)
     || (MaximumReceiptSeconds * second <? receiptLifetime)
     || negb (Z.rem receiptLifetime second =? 0)
    RETURN None ;;
  Some {| keyID := signer_KeyID; receiptLifetime := receiptLifetime |}.

Definition receipt_of (authority : Authority) (q : Request) (requestSHA256 : bytes)
    (observedAt : Time) : Receipt :=
  {| Schema := ReceiptSchema; r_Environment := Environment; r_Scope := Scope;
     RequestSHA256 := hex_encode requestSHA256; RequestID := q_RequestID q;
     NonceB64URL := q_NonceB64URL q; r_Ledger := q_Ledger q; r_Authorization := q_Authorization q;
     r_Transaction := q_Transaction q; r_Station := q_Station q;
     AuthorityKeyID := keyID authority; ObservedAt := FormatTimestamp observedAt;
     r_ExpiresAt := FormatTimestamp (observedAt + receiptLifetime authority);
     Result := ReceiptResult; r_SignatureAlgorithm := SignatureAlgorithm; SignatureB64URL := "" |}.

Definition with_signature (r : Receipt) (signature : bytes) : Receipt :=
  {| Schema := Schema r; r_Environment := r_Environment r; r_Scope := r_Scope r;
     RequestSHA256 := RequestSHA256 r; RequestID := RequestID r; NonceB64URL := NonceB64URL r;
     r_Ledger := r_Ledger r; r_Authorization := r_Authorization r;
     r_Transaction := r_Transaction r; r_Station := r_Station r;
     AuthorityKeyID := AuthorityKeyID r; ObservedAt := ObservedAt r; r_ExpiresAt := r_ExpiresAt r;
     Result := Result r; r_SignatureAlgorithm := r_SignatureAlgorithm r;
     SignatureB64URL := EncodeToString signature |}.

(** The signer is asked after the reservation was committed; it may see the ledger. *)
Definition Issue (authority : Authority) (Sign : Database → bytes → result error bytes)
    (db : Database) (a : nat → attempt) (q : Request) (requestSHA256 clientCertificateDER : bytes) :
    Database * result error bytes :=
  IF (blen clientCertificateDER =? 0) || negb (ValidateRequest q) RETURN (db, Err ErrInvalid) ;;
  IF negb (bool_decide (Sum256 (CanonicalJSON (request_json q)) = requestSHA256))
    RETURN (db, Err ErrInvalid) ;;
  match DecodeString (q_NonceB64URL q) with
  | None => (db, Err ErrInvalid)
  | Some nonce =>
      IF negb (blen nonce =? 32) RETURN (db, Err ErrInvalid) ;;
      let reservation :=
        {| v_Request := q; v_RequestSHA256 := requestSHA256; v_NonceSHA256 := Sum256 nonce;
           v_ClientCertificateSHA256 := Sum256 clientCertificateDER;
           v_AuthorityKeyID := keyID authority |} in
      match Reserve db a reservation (receiptLifetime authority) with
      | (db, Err e) => (db, Err e)
      | (db, Ok t) =>
          let observedAt := TruncateSecond t in
          IF Before observedAt (timestamp_or_zero (IssuedAt (q_Authorization q)))
             || After observedAt (timestamp_or_zero (ExpiresAt (q_Authorization q)))
            RETURN (db, Err ErrUnavailable) ;;
          let receipt := receipt_of authority q requestSHA256 observedAt in
          let unsigned := CanonicalJSON (receipt_json receipt) in
          match Sign db (SignatureDomain ++ unsigned) with
          | Err _ => (db, Err ErrUnavailable)
          | Ok signature =>
              IF negb (blen signature =? 64) RETURN (db, Err ErrUnavailable) ;;
              let response := CanonicalJSON (receipt_json (with_signature receipt signature)) in
              IF (blen response =? 0) || (MaximumResponseBytes <? blen response)
                RETURN (db, Err ErrUnavailable) ;;
              (db, Ok response)
          end
      end
  end.

(** ** HTTP *)

Definition VersionTLS13 : Z := 772.

(** The certificates of the peer and the chains that were verified, as their DER bytes. *)
Record Conn : Type := {
  c_Version : Z;
  c_PeerCertificates : list bytes;
  c_VerifiedChains : list (list bytes);
}.

Definition verifiedStationTLS (tls : option Conn) : option bytes :=
  match tls with
  | None => None
  | Some c =>
      match c_PeerCertificates c, c_VerifiedChains c with
      | certificate :: _, (verified :: _) :: _ =>
          if (c_Version c =? VersionTLS13) && (0 <? blen certificate)
             && bool_decide (certificate = verified)
          then Some certificate else None
      | _, _ => None
      end
  end.

(** The headers and the length of a request with a JSON body. *)
Definition valid_json_headers (limit : Z) (request : Wire.Request) : bool :=
  bool_decide (Wire.singleHeader (Wire.Header request) "Content-Type" = "application/json")
  && bool_decide (Wire.singleHeader (Wire.Header request) "Accept" = "application/json")
  && bool_decide (Wire.singleHeader (Wire.Header request) "Cache-Control" = "no-store")
  && bool_decide (Wire.Header request "Content-Encoding" = [])
  && negb (Wire.ContentLength request <=? 0) && negb (limit <? Wire.ContentLength request)
  && bool_decide (Wire.TransferEncoding request = []).

Definition exact_path (path : string) (request : Wire.Request) : bool :=
  bool_decide (Wire.Path request = path) && bool_decide (Wire.RawPath request = "")
  && bool_decide (Wire.RawQuery request = "") && bool_decide (Wire.Fragment request = "").

(** A body of exactly the declared length, within the limit. *)
Definition read_exact (limit : Z) (length : Z) (body : option bytes) : option bytes :=
  match Wire.read_limited limit body with
  | None => None
  | Some body =>
      IF negb (blen body =? length) || (limit <? blen body) RETURN None ;;
      Some body
  end.

Definition answer (header : Wire.Headers) (code : Z) : Wire.Written :=
  {| Wire.Status := code; Wire.w_Header := header; Wire.w_Body := [] |}.
Definition retry_later (header : Wire.Headers) : Wire.Written :=
  answer (Wire.set_header "Retry-After" "1" header) 503.
Definition json_answer (header : Wire.Headers) (body : bytes) : Wire.Written :=
  {| Wire.Status := 200;
     Wire.w_Header := Wire.set_header "Content-Length" (FormatInt (blen body))
                        (Wire.set_header "Content-Type" "application/json" header);
     Wire.w_Body := body |}.

Definition setResponseHeaders : Wire.Headers :=
  Wire.set_header "Cache-Control" "no-store" Wire.no_headers.

Definition writeIssueError (e : error) : Wire.Written :=
  match e with
  | ErrUnauthorized | ErrOutsideWindow => answer setResponseHeaders 403
  | ErrReplay => answer setResponseHeaders 409
  | ErrInvalid => answer setResponseHeaders 400
  | ErrUnavailable => retry_later setResponseHeaders
  end.

Section Service.
Context (L : library).

Definition serveTime (authority : Authority) (Sign : Database → bytes → result error bytes)
    (db : Database) (a : nat → attempt) (tls : option Conn) (request : Wire.Request) :
    Database * Wire.Written :=
  let bad := answer setResponseHeaders 400 in
  match verifiedStationTLS tls with
  | None => (db, bad)
  | Some certificate =>
      IF negb (bool_decide (Wire.Method request = "POST")) || negb (exact_path EndpointPath request)
         || negb (valid_json_headers MaximumRequestBytes request)
        RETURN (db, bad) ;;
      match read_exact MaximumRequestBytes (Wire.ContentLength request) (Wire.Body request) with
      | None => (db, bad)
      | Some body =>
          match ParseRequest L body with
          | Err _ => (db, bad)
          | Ok (input, requestDigest) =>
              match Issue authority Sign db a input requestDigest certificate with
              | (db, Err e) => (db, writeIssueError e)
              | (db, Ok response) => (db, json_answer setResponseHeaders response)
              end
          end
      end
  end.

(** ** The signer *)

Definition SignerEndpointPath : string := "/v1/factory/trusted-time/sign".
Definition SignerReadinessPath : string := "/readyz".
Definition SignerRequestSchema : string := "xz-factory-time-sign-request-v1".
Definition SignerResponseSchema : string := "xz-factory-time-sign-response-v1".
Definition SignerRequestResult : string := "FACTORY_TIME_SIGNATURE_REQUESTED".
Definition SignerResponseResult : string := "FACTORY_TIME_RECEIPT_SIGNED".
Definition MaximumSignerBodyBytes : Z := 16 * 1024.
Definition SignerKeyIDHeader : string := "X-Xiaozhi-Factory-Time-Key-ID".

Definition parseSignerResponse (data : bytes) : option signerResponse :=
  IF (blen data =? 0) || (MaximumSignerBodyBytes <? blen data) || rejectDuplicateMembers L data
    RETURN None ;;
  match Decode_signer_response L data with
  | None => None
  | Some response =>
      IF negb (bool_decide (CanonicalJSON (signer_response_json response) = data))
         || negb (bool_decide (sr_Schema response = SignerResponseSchema))
         || negb (bool_decide (sr_Result response = SignerResponseResult))
         || negb (bool_decide (sr_SignatureAlgorithm response = SignatureAlgorithm))
         || negb (validIdentifier (sr_KeyID response))
         || negb (validDigest (sr_UnsignedReceiptSHA256 response))
        RETURN None ;;
      IF negb (canonical_b64 (sr_SignatureB64URL response) 64) RETURN None ;;
      Some response
  end.

Definition parseSignerRequest (data : bytes) : option (signerRequest * Receipt * bytes) :=
  IF (blen data =? 0) || (MaximumSignerBodyBytes <? blen data) || rejectDuplicateMembers L data
    RETURN None ;;
  match Decode_signer_request L data with
  | None => None
  | Some request =>
      IF negb (bool_decide (CanonicalJSON (signer_request_json request) = data))
         || negb (bool_decide (sq_Schema request = SignerRequestSchema))
         || negb (bool_decide (sq_Result request = SignerRequestResult))
         || negb (bool_decide (sq_SignatureAlgorithm request = SignatureAlgorithm))
         || negb (bool_decide (sq_SignatureDomainB64URL request = EncodeToString SignatureDomain))
         || negb (validIdentifier (sq_KeyID request))
         || negb (validDigest (sq_UnsignedReceiptSHA256 request))
        RETURN None ;;
      match DecodeString (sq_UnsignedReceiptB64URL request) with
      | None => None
      | Some unsigned =>
          IF (blen unsigned =? 0) || (MaximumResponseBytes <? blen unsigned)
             || negb (bool_decide (EncodeToString unsigned = sq_UnsignedReceiptB64URL request))
            RETURN None ;;
          IF negb (bool_decide (hex_encode (Sum256 unsigned) = sq_UnsignedReceiptSHA256 request))
            RETURN None ;;
          match ParseUnsignedReceipt L unsigned with
          | Err _ => None
          | Ok receipt =>
              IF negb (bool_decide (AuthorityKeyID receipt = sq_KeyID request)) RETURN None ;;
              Some (request, receipt, unsigned)
          end
      end
  end.

(** *** The signer's check against the ledger *)

(** One query: the ledger it sees and the clock; [None] when it fails. *)
Abbreviation query := (option (Database * Time)) (only parsing).

Definition validateSignerLedgerRecord (receipt : Receipt) (record : requestRow)
    (databaseNow : Time) : option error :=
  match DecodeString (NonceB64URL receipt), hex_decode (PolicySHA256 (r_Ledger receipt)),
        hex_decode (PlanSHA256 (r_Authorization receipt)) with
  | Some nonce, Some policyDigest, Some planDigest =>
      IF negb (blen nonce =? 32) || negb (blen policyDigest =? 32) || negb (blen planDigest =? 32)
        RETURN Some ErrInvalid ;;
      match parseTimestamp (IssuedAt (r_Authorization receipt)),
            parseTimestamp (ExpiresAt (r_Authorization receipt)),
            parseTimestamp (ObservedAt receipt), parseTimestamp (r_ExpiresAt receipt) with
      | Some issued, Some planExpires, Some observed, Some receiptExpires =>
          IF negb (bool_decide (w_RequestID record = RequestID receipt))
             || negb (equalDigest (w_NonceSHA256 record) (Sum256 nonce))
             || negb (bool_decide (ID (w_Station record) = ID (r_Station receipt)))
             || negb (bool_decide (FixtureID (w_Station record) = FixtureID (r_Station receipt)))
             || negb (bool_decide (FixtureVersion (w_Station record) = FixtureVersion (r_Station receipt)))
             || negb (equalDigest (w_PolicySHA256 record) policyDigest)
             || negb (bool_decide (w_PolicyID record = PolicyID (r_Ledger receipt)))
             || negb (bool_decide (w_LedgerID record = LedgerID (r_Ledger receipt)))
             || negb (equalDigest (w_PlanSHA256 record) planDigest)
             || negb (bool_decide (w_PlanID record = PlanID (r_Authorization receipt)))
             || negb (w_AuthorizationIssued record =? issued)
             || negb (w_AuthorizationExpires record =? planExpires)
             || negb (bool_decide (AttemptID (w_Transaction record) = AttemptID (r_Transaction receipt)))
             || negb (bool_decide (DeviceID (w_Transaction record) = DeviceID (r_Transaction receipt)))
             || negb (bool_decide (BaseMAC (w_Transaction record) = BaseMAC (r_Transaction receipt)))
             || negb (bool_decide (w_AuthorityKeyID record = AuthorityKeyID receipt))
             || negb (w_ObservedAt record =? observed)
             || negb (w_ReceiptExpiresAt record =? receiptExpires)
            RETURN Some ErrUnauthorized ;;
          IF Before databaseNow observed || After databaseNow planExpires
             || negb (Before databaseNow receiptExpires)
            RETURN Some ErrOutsideWindow ;;
          None
      | _, _, _, _ => Some ErrInvalid
      end
  | _, _, _ => Some ErrInvalid
  end.

(** [WHERE request_sha256 = $1]. *)
Definition find_row (rows : list requestRow) (requestDigest : bytes) : option requestRow :=
  head (filter (λ w, w_RequestSHA256 w = requestDigest) rows).

Definition AuthorizeSigning (read : query) (receipt : Receipt) : option error :=
  IF negb (ValidateUnsignedReceipt receipt) RETURN Some ErrInvalid ;;
  match hex_decode (RequestSHA256 receipt) with
  | None => Some ErrInvalid
  | Some requestDigest =>
      IF negb (blen requestDigest =? 32) RETURN Some ErrInvalid ;;
      match read with
      | None => Some ErrUnavailable
      | Some (db, databaseNow) =>
          match find_row (requests db) requestDigest with
          | None => Some ErrUnauthorized
          | Some record => validateSignerLedgerRecord receipt record databaseNow
          end
      end
  end.

(** *** The signing service *)

Record ReceiptSignerService : Type := {
  s_keyID : string;
  s_publicKey : bytes;
}.

Definition NewReceiptSignerService (keyID : string) (publicKey : bytes) :
    option ReceiptSignerService :=
  IF negb (validIdentifier keyID) || negb (blen publicKey =? 32) RETURN None ;;
  Some {| s_keyID := keyID; s_publicKey := publicKey |}.

(** [first] and [second] are the two queries, [backend] is what the key service answers. *)
Definition SignRequest (service : ReceiptSignerService) (first : query)
    (backend : bytes → option bytes) (second : query) (requestBody : bytes) :
    result error bytes :=
  IF negb (validIdentifier (s_keyID service)) || negb (blen (s_publicKey service) =? 32)
    RETURN Err ErrUnavailable ;;
  match parseSignerRequest requestBody with
  | None => Err ErrInvalid
  | Some (request, receipt, unsigned) =>
      IF negb (bool_decide (sq_KeyID request = s_keyID service))
         || negb (bool_decide (AuthorityKeyID receipt = s_keyID service))
        RETURN Err ErrInvalid ;;
      match AuthorizeSigning first receipt with
      | Some e => Err e
      | None =>
          let payload := SignatureDomain ++ unsigned in
          match backend payload with
          | None => Err ErrUnavailable
          | Some signature =>
              IF negb (blen signature =? 64)
                 || negb (ed25519_Verify L (s_publicKey service) payload signature)
                RETURN Err ErrUnavailable ;;
              match AuthorizeSigning second receipt with
              | Some e => Err e
              | None =>
                  let response :=
                    {| sr_Schema := SignerResponseSchema; sr_KeyID := s_keyID service;
                       sr_SignatureAlgorithm := SignatureAlgorithm;
                       sr_SignatureB64URL := EncodeToString signature;
                       sr_UnsignedReceiptSHA256 := sq_UnsignedReceiptSHA256 request;
                       sr_Result := SignerResponseResult |} in
                  let responseBody := CanonicalJSON (signer_response_json response) in
                  IF (blen responseBody =? 0) || (MaximumSignerBodyBytes <? blen responseBody)
                    RETURN Err ErrUnavailable ;;
                  Ok responseBody
              end
          end
      end
  end.

Record ReceiptSignerHandler : Type := {
  service : ReceiptSignerService;
  authorityCertificateSHA256 : bytes;
}.

Definition NewReceiptSignerHandler (service : ReceiptSignerService)
    (authorityCertificateSHA256 : string) : option ReceiptSignerHandler :=
  match hex_decode authorityCertificateSHA256 with
  | None => None
  | Some digest =>
      IF negb (blen digest =? 32) || negb (bool_decide (hex_encode digest = authorityCertificateSHA256))
        RETURN None ;;
      Some {| service := service; authorityCertificateSHA256 := digest |}
  end.

Definition verifiedSignerAuthorityTLS (tls : option Conn) (wanted : bytes) : bool :=
  match verifiedStationTLS tls with
  | None => false
  | Some certificate => equalDigest (Sum256 certificate) wanted
  end.

Definition setSignerResponseHeaders : Wire.Headers :=
  Wire.set_header "X-Content-Type-Options" "nosniff"
    (Wire.set_header "Cache-Control" "no-store" Wire.no_headers).

Definition writeSignerError (e : error) : Wire.Written :=
  match e with
  | ErrInvalid => answer setSignerResponseHeaders 400
  | ErrUnauthorized | ErrOutsideWindow => answer setSignerResponseHeaders 403
  | ErrReplay | ErrUnavailable => retry_later setSignerResponseHeaders
  end.

(** [ready]: the schema of the ledger and the signing backend are as they should be. *)
Definition serveReadiness (handler : ReceiptSignerHandler) (ready : bool)
    (request : Wire.Request) : Wire.Written :=
  let headers := setSignerResponseHeaders in
  IF negb (bool_decide (Wire.RawPath request = "")) || negb (bool_decide (Wire.RawQuery request = ""))
     || negb (bool_decide (Wire.Fragment request = "")) || negb (Wire.ContentLength request =? 0)
     || negb (bool_decide (Wire.TransferEncoding request = []))
     || negb (bool_decide (Wire.singleHeader (Wire.Header request) "Accept" = "application/json"))
     || negb (bool_decide (Wire.singleHeader (Wire.Header request) "Cache-Control" = "no-store"))
     || negb (bool_decide (Wire.Header request "Content-Type" = []))
     || negb (bool_decide (Wire.Header request "Content-Encoding" = []))
    RETURN answer headers 404 ;;
  IF negb ready RETURN retry_later headers ;;
  answer (Wire.set_header SignerKeyIDHeader (s_keyID (service handler)) headers) 204.

Definition serveSigner (handler : ReceiptSignerHandler) (ready : bool) (first : query)
    (backend : bytes → option bytes) (second : query) (tls : option Conn)
    (request : Wire.Request) : Wire.Written :=
  let headers := setSignerResponseHeaders in
  IF negb (verifiedSignerAuthorityTLS tls (authorityCertificateSHA256 handler))
    RETURN answer headers 403 ;;
  IF bool_decide (Wire.Method request = "GET") && bool_decide (Wire.Path request = SignerReadinessPath)
    RETURN serveReadiness handler ready request ;;
  IF negb (bool_decide (Wire.Method request = "POST")) || negb (exact_path SignerEndpointPath request)
     || negb (valid_json_headers MaximumSignerBodyBytes request)
    RETURN answer headers 400 ;;
  match read_exact MaximumSignerBodyBytes (Wire.ContentLength request) (Wire.Body request) with
  | None => answer headers 400
  | Some body =>
      match SignRequest (service handler) first backend second body with
      | Err e => writeSignerError e
      | Ok response => json_answer headers response
      end
  end.

(** *** The client of the signer *)

Record RemoteSigner : Type := {
  rs_keyID : string;
  rs_publicKey : bytes;
  rs_endpoint : string;
  rs_readyURL : string;
}.

Definition set_path (u : Wire.URL) (path : string) : Wire.URL :=
  {| Wire.u_Scheme := Wire.u_Scheme u; Wire.u_Host := Wire.u_Host u; Wire.u_Path := path;
     Wire.u_RawPath := Wire.u_RawPath u; Wire.u_HasUser := Wire.u_HasUser u;
     Wire.u_RawQuery := Wire.u_RawQuery u; Wire.u_Fragment := Wire.u_Fragment u;
     Wire.u_String := Wire.u_String u |}.

Definition validateSignerEndpoint (value : string) : option (string * string) :=
  match url_Parse L value with
  | None => None
  | Some parsed =>
      IF negb (bool_decide (Wire.u_Scheme parsed = "https")) || bool_decide (Wire.u_Host parsed = "")
         || Wire.u_HasUser parsed || negb (bool_decide (Wire.u_Path parsed = SignerEndpointPath))
         || negb (bool_decide (Wire.u_RawPath parsed = "")) || negb (bool_decide (Wire.u_RawQuery parsed = ""))
         || negb (bool_decide (Wire.u_Fragment parsed = "")) || negb (bool_decide (url_Opaque L parsed = ""))
        RETURN None ;;
      IF bool_decide (url_Hostname L parsed = "") RETURN None ;;
      let urls := Some (url_String L parsed, url_String L (set_path parsed SignerReadinessPath)) in
      IF bool_decide (url_Port L parsed = "") RETURN urls ;;
      match ParseInt (url_Port L parsed) with
      | None => None
      | Some port =>
          IF (port <? 1) || (65535 <? port) || negb (bool_decide (FormatInt port = url_Port L parsed))
            RETURN None ;;
          urls
      end
  end.

Definition verifiedSignerResponseTLS (response : Wire.Response) : bool :=
  match Wire.r_TLS response with
  | None => false
  | Some tls => (Wire.TLSVersion tls =? VersionTLS13) && (0 <? Wire.PeerCertificates tls)
                && (0 <? Wire.VerifiedChains tls)
  end.

(** [Header.Get]. *)
Definition first_header (h : Wire.Headers) (name : string) : string :=
  match h name with v :: _ => v | [] => "" end.

Definition signer_headers : Wire.Headers :=
  Wire.set_header "Cache-Control" "no-store"
    (Wire.set_header "Content-Type" "application/json"
      (Wire.set_header "Accept" "application/json" Wire.no_headers)).

(** A request as [http.NewRequest] makes it for a body in memory. *)
Definition new_request (method : string) (u : Wire.URL) (body : bytes) (header : Wire.Headers) :
    Wire.Request :=
  {| Wire.Method := method; Wire.Path := Wire.u_Path u; Wire.RawPath := Wire.u_RawPath u;
     Wire.RawQuery := Wire.u_RawQuery u; Wire.Fragment := Wire.u_Fragment u; Wire.TLS := None;
     Wire.Header := header; Wire.ContentLength := blen body; Wire.TransferEncoding := [];
     Wire.Body := Some body |}.

Definition signer_request_of (signer : RemoteSigner) (unsigned : bytes) : signerRequest :=
  {| sq_Schema := SignerRequestSchema; sq_KeyID := rs_keyID signer;
     sq_SignatureAlgorithm := SignatureAlgorithm;
     sq_SignatureDomainB64URL := EncodeToString SignatureDomain;
     sq_UnsignedReceiptB64URL := EncodeToString unsigned;
     sq_UnsignedReceiptSHA256 := hex_encode (Sum256 unsigned);
     sq_Result := SignerRequestResult |}.

(** The answer to a signing request: the signature it carries. *)
Definition signature_of (signer : RemoteSigner) (payload unsigned : bytes)
    (response : Wire.Response) : result error bytes :=
  IF negb (Wire.StatusCode response =? 200) || negb (verifiedSignerResponseTLS response)
     || negb (bool_decide (Wire.singleHeader (Wire.r_Header response) "Content-Type" = "application/json"))
     || negb (bool_decide (Wire.singleHeader (Wire.r_Header response) "Cache-Control" = "no-store"))
     || negb (bool_decide (first_header (Wire.r_Header response) "Content-Encoding" = ""))
     || negb (bool_decide (first_header (Wire.r_Header response) "Location" = ""))
     || negb (bool_decide (Wire.r_TransferEncoding response = []))
     || (Wire.r_ContentLength response <=? 0)
     || (MaximumSignerBodyBytes <? Wire.r_ContentLength response)
    RETURN Err ErrUnavailable ;;
  match read_exact MaximumSignerBodyBytes (Wire.r_ContentLength response) (Wire.r_Body response) with
  | None => Err ErrUnavailable
  | Some responseBody =>
      match parseSignerResponse responseBody with
      | None => Err ErrUnavailable
      | Some value =>
          IF negb (bool_decide (sr_KeyID value = rs_keyID signer))
             || negb (bool_decide (sr_UnsignedReceiptSHA256 value = hex_encode (Sum256 unsigned)))
            RETURN Err ErrUnavailable ;;
          match DecodeString (sr_SignatureB64URL value) with
          | None => Err ErrUnavailable
          | Some signature =>
              IF negb (blen signature =? 64)
                 || negb (ed25519_Verify L (rs_publicKey signer) payload signature)
                RETURN Err ErrUnavailable ;;
              Ok signature
          end
      end
  end.

(** [Do] sends a request and waits for the answer. *)
Definition Sign (signer : RemoteSigner) (Do : Wire.Request → option Wire.Response)
    (payload : bytes) : result error bytes :=
  IF negb (validIdentifier (rs_keyID signer)) || (blen payload <=? blen SignatureDomain)
     || negb (bool_decide (take (length SignatureDomain) payload = SignatureDomain))
    RETURN Err ErrInvalid ;;
  let unsigned := drop (length SignatureDomain) payload in
  match ParseUnsignedReceipt L unsigned with
  | Err _ => Err ErrInvalid
  | Ok receipt =>
      IF negb (bool_decide (AuthorityKeyID receipt = rs_keyID signer)) RETURN Err ErrInvalid ;;
      let requestBody := CanonicalJSON (signer_request_json (signer_request_of signer unsigned)) in
      IF (blen requestBody =? 0) || (MaximumSignerBodyBytes <? blen requestBody)
        RETURN Err ErrInvalid ;;
      match url_Parse L (rs_endpoint signer) with
      | None => Err ErrUnavailable
      | Some u =>
          match Do (new_request "POST" u requestBody signer_headers) with
          | None => Err ErrUnavailable
          | Some response => signature_of signer payload unsigned response
          end
      end
  end.

(** [Ready]: [None] when the signer answers as it should. *)
Definition Ready (signer : RemoteSigner) (Do : Wire.Request → option Wire.Response) : option error :=
  match url_Parse L (rs_readyURL signer) with
  | None => Some ErrUnavailable
  | Some u =>
      match Do (new_request "GET" u [] (Wire.set_header "Cache-Control" "no-store"
                  (Wire.set_header "Accept" "application/json" Wire.no_headers))) with
      | None => Some ErrUnavailable
      | Some response =>
          IF negb (Wire.StatusCode response =? 204) || (0 <? Wire.r_ContentLength response)
             || negb (verifiedSignerResponseTLS response)
             || negb (bool_decide (Wire.singleHeader (Wire.r_Header response) "Cache-Control" = "no-store"))
             || negb (bool_decide (Wire.singleHeader (Wire.r_Header response) SignerKeyIDHeader
                                   = rs_keyID signer))
             || negb (bool_decide (first_header (Wire.r_Header response) "Content-Encoding" = ""))
             || negb (bool_decide (first_header (Wire.r_Header response) "Location" = ""))
             || negb (bool_decide (Wire.r_TransferEncoding response = []))
            RETURN Some ErrUnavailable ;;
          match Wire.read_limited 0 (Wire.r_Body response) with
          | Some [] => None
          | _ => Some ErrUnavailable
          end
      end
  end.

End Service.

End FactoryTime.
