(* ===== verification/FactoryTheorems.v ===== *)
(** * FactoryTheorems: what a trusted-time receipt is worth

    The authority of [FactoryTime] with its ledger, the client of the signer and the
    signer's service. A receipt states the database's time of a request that an enrolled
    station made once; the signer signs at most one receipt for a request; and an
    enrolled station gets a receipt. *)

From stdpp Require Import base gmap strings list sorting relations.
From Stdlib Require Import ZArith Lia.
From Stdlib.Strings Require Import Byte.
From S2P Require Import Prelude GoBase GoDate GoCrypto Protocol Auth StrictJSON GoWire FactoryTime.

Module FactoryTheorems.
Import Ident FactoryTime.

(** ** Hexadecimal texts *)

Lemma hex_digit_value v : 0 ≤ v < 16 → hex_value (hex_digit v) = Some v ∧ hex_byte (hex_digit v) = true.
Proof.
  intros Hv. assert (v = 0 ∨ v = 1 ∨ v = 2 ∨ v = 3 ∨ v = 4 ∨ v = 5 ∨ v = 6 ∨ v = 7 ∨ v = 8 ∨ v = 9 ∨
    v = 10 ∨ v = 11 ∨ v = 12 ∨ v = 13 ∨ v = 14 ∨ v = 15) as Hc by lia.
  repeat (destruct Hc as [->|Hc]; [by vm_compute|]). subst. by vm_compute.
Qed.

Lemma hex_decode_encode bs : hex_decode (hex_encode bs) = Some bs.
Proof.
  unfold hex_decode, hex_encode. rewrite bytes_of_string_of.
  induction bs as [|b bs IH]; [done|]. cbn [flat_map app hex_pairs].
  pose proof (bval_range b) as Hb.
  destruct (hex_digit_value (bval b / 16)) as [-> _]; [Z.div_mod_to_equations; lia|].
  destruct (hex_digit_value (bval b mod 16)) as [-> _]; [Z.div_mod_to_equations; lia|].
  rewrite IH. do 2 f_equal. rewrite <- Z.div_mod by done. apply byte_of_bval.
Qed.

Lemma hex_encode_valid bs : blen bs = 32 → validDigest (hex_encode bs) = true.
Proof.
  intros Hl. unfold validDigest, validSHA256, hex_encode.
  rewrite slen_bytes_of, bytes_of_string_of.
  assert (∀ bs, blen (flat_map (λ b, [hex_digit (bval b / 16); hex_digit (bval b mod 16)]) bs) = 2 * blen bs) as Hlen.
  { clear. intros bs. induction bs as [|b bs IH]; [done|]. cbn [flat_map app]. rewrite !blen_cons, IH. lia. }
  rewrite Hlen, Hl. cbn [negb]. change (2 * 32 =? 64) with true. cbn [negb]. clear.
  induction bs as [|b bs IH]; [done|]. cbn [flat_map app forallb]. pose proof (bval_range b).
  destruct (hex_digit_value (bval b / 16)) as [_ ->]; [Z.div_mod_to_equations; lia|].
  destruct (hex_digit_value (bval b mod 16)) as [_ ->]; [Z.div_mod_to_equations; lia|]. done.
Qed.

Lemma hex_byte_value a b :
  hex_byte a = true → hex_byte b = true → hex_value a = hex_value b → a = b.
Proof. destruct a; try done; destruct b; try done; by vm_compute. Qed.

(** A digest in lower case is read, as 32 bytes, and by no other text. *)
Lemma hex_pairs_valid bs :
  forallb hex_byte bs = true → Nat.Even (length bs) → ∃ out, hex_pairs bs = Some out ∧ length bs = (2 * length out)%nat.
Proof.
  intros Hh [n Hn]. revert bs Hh Hn. induction n as [|n IH]; intros bs Hh Hn.
  { destruct bs; [|done]. by exists []. }
  destruct bs as [|a [|b bs] ]; [done|cbn in Hn; lia|]. cbn in Hh. split_bools.
  destruct (IH bs) as (out & Ho & Hl); [done|cbn in Hn; lia|]. cbn [hex_pairs]. rewrite Ho.
  assert (∀ c, hex_byte c = true → is_Some (hex_value c)) as Hv
    by (intros c; destruct c; vm_compute; try done; eauto).
  destruct (Hv a ltac:(done)) as [x ->], (Hv b ltac:(done)) as [y ->].
  eexists. split; [done|]. cbn. lia.
Qed.

Lemma digest_decodes s : validDigest s = true → ∃ bs, hex_decode s = Some bs ∧ blen bs = 32.
Proof.
  unfold validDigest, validSHA256. guard E. intros Hh. split_bools. rewrite slen_bytes_of in *.
  destruct (hex_pairs_valid (bytes_of s)) as (out & Ho & Hl); [done| |].
  - exists 32%nat. unfold blen in *. lia.
  - exists out. split; [done|]. unfold blen in *. lia.
Qed.

Lemma hex_value_range b v : hex_value b = Some v → 0 ≤ v < 16.
Proof. destruct b; vm_compute; intros [= <-]; done. Qed.

Lemma hex_pairs_inj bs cs out :
  forallb hex_byte bs = true → forallb hex_byte cs = true →
  hex_pairs bs = Some out → hex_pairs cs = Some out → bs = cs.
Proof.
  revert bs cs. induction out as [|o out IH]; intros bs cs Hb Hc H1 H2.
  - destruct bs as [|? [|? bs] ]; try done; [|cbn in H1; repeat case_match; done].
    destruct cs as [|? [|? cs] ]; try done. cbn in H2; repeat case_match; done.
  - destruct bs as [|a [|b bs] ]; try done. destruct cs as [|a' [|b' cs] ]; try done.
    cbn in H1, H2, Hb, Hc. split_bools.
    destruct (hex_value a) as [x|] eqn:Ea; [|done]. destruct (hex_value b) as [y|] eqn:Eb; [|done].
    destruct (hex_pairs bs) as [o1|] eqn:E1; [|done]. destruct (hex_value a') as [x'|] eqn:Ea'; [|done].
    destruct (hex_value b') as [y'|] eqn:Eb'; [|done]. destruct (hex_pairs cs) as [o2|] eqn:E2; [|done].
    injection H1 as Ho ->. injection H2 as Ho' ->. apply (f_equal bval) in Ho, Ho'.
    pose proof (hex_value_range _ _ Ea). pose proof (hex_value_range _ _ Eb).
    pose proof (hex_value_range _ _ Ea'). pose proof (hex_value_range _ _ Eb').
    rewrite bval_byte_of, Z.mod_small in Ho, Ho' by lia.
    assert (x = x' ∧ y = y') as [<- <-] by lia.
    f_equal; [by apply hex_byte_value; congruence|]. f_equal; [by apply hex_byte_value; congruence|].
    by apply (IH bs cs).
Qed.

Lemma digest_inj s s' bs :
  validDigest s = true → validDigest s' = true → hex_decode s = Some bs → hex_decode s' = Some bs → s = s'.
Proof.
  unfold validDigest, validSHA256. guard E. intros Hh. guard E'. intros Hh' H1 H2.
  apply bytes_of_inj. by eapply hex_pairs_inj.
Qed.

(** ** What is valid *)

Lemma parseTimestamp_ok s t :
  parseTimestamp s = Some t → s = FormatRFC3339 t ∧ zero_time ≤ t ∧ t mod second = 0.
Proof.
  unfold parseTimestamp. destruct (CanonicalRFC3339 s) as [u|] eqn:Hc; [|done].
  destruct (u <? zero_time) eqn:Hz; [done|]. intros [= <-]. split_bools.
  split_and!; [by symmetry; apply CanonicalRFC3339_format|done|].
  unfold CanonicalRFC3339 in Hc. repeat (case_match; try done). injection Hc as <-.
  unfold from_unix. by rewrite Z.mod_mul.
Qed.

Lemma parseTimestamp_inj s s' t : parseTimestamp s = Some t → parseTimestamp s' = Some t → s = s'.
Proof. by intros [-> _]%parseTimestamp_ok [-> _]%parseTimestamp_ok. Qed.

Lemma validNonce_ok s : validNonce s = true → ∃ nonce, blen nonce = 32 ∧ s = EncodeToString nonce.
Proof. unfold validNonce. guard E. by intros H%canonical_b64_iff. Qed.

Lemma validateSubject_ok l au tr st issued expires :
  validateSubject l au tr st = Some (issued, expires) →
  validDigest (PolicySHA256 l) = true ∧ validDigest (PlanSHA256 au) = true ∧
  parseTimestamp (IssuedAt au) = Some issued ∧ parseTimestamp (ExpiresAt au) = Some expires ∧
  issued < expires.
Proof.
  unfold validateSubject. guard E. destruct (parseTimestamp (IssuedAt au)) as [i|]; [|done].
  destruct (parseTimestamp (ExpiresAt au)) as [x|]; [|done]. guard E2. intros [= <- <-].
  unfold Before in E2. split_bools. done.
Qed.

Lemma ValidateRequest_ok q :
  ValidateRequest q = true →
  ∃ issued expires nonce,
    validateSubject (q_Ledger q) (q_Authorization q) (q_Transaction q) (q_Station q)
      = Some (issued, expires) ∧
    validIdentifier (q_RequestID q) = true ∧ blen nonce = 32 ∧ q_NonceB64URL q = EncodeToString nonce.
Proof.
  unfold ValidateRequest. guard E. destruct (validateSubject _ _ _ _) as [ [i x]|]; [|done]. intros _.
  split_bools. match goal with H : validNonce _ = true |- _ => destruct (validNonce_ok _ H) as (n & Hn & ->) end.
  by exists i, x, n.
Qed.

Lemma ValidateUnsignedReceipt_ok r :
  ValidateUnsignedReceipt r = true →
  ∃ issued expires observed until nonce,
    validateSubject (r_Ledger r) (r_Authorization r) (r_Transaction r) (r_Station r)
      = Some (issued, expires) ∧
    parseTimestamp (ObservedAt r) = Some observed ∧ parseTimestamp (r_ExpiresAt r) = Some until ∧
    observed < until ≤ observed + 10 * second ∧ issued ≤ observed ≤ expires ∧
    Schema r = ReceiptSchema ∧ r_Environment r = Environment ∧ r_Scope r = Scope ∧
    Result r = ReceiptResult ∧ r_SignatureAlgorithm r = SignatureAlgorithm ∧ SignatureB64URL r = "" ∧
    validDigest (RequestSHA256 r) = true ∧ blen nonce = 32 ∧ NonceB64URL r = EncodeToString nonce.
Proof.
  unfold ValidateUnsignedReceipt. guard E. destruct (validateSubject _ _ _ _) as [ [i x]|]; [|done].
  destruct (parseTimestamp (ObservedAt r)) as [o|]; [|done].
  destruct (parseTimestamp (r_ExpiresAt r)) as [u|]; [|done].
  unfold Before, After, MaximumReceiptSeconds. intros H. split_bools.
  match goal with H : validNonce _ = true |- _ => destruct (validNonce_ok _ H) as (n & Hn & Hn') end.
  exists i, x, o, u, n. split_and!; (done || lia).
Qed.

(** ** The ledger over time *)

(** Operators enrol and change stations; transactions insert requests. *)
Inductive db_step : Database → Database → Prop :=
| Enrolment db st : db_step db {| stations := st; requests := requests db |}
| Insertion db w db' : insert_row db w = Ok db' → db_step db db'.

Definition later : Database → Database → Prop := rtc db_step.

(** A request, its identifier and its nonce are used once. *)
Definition used_once (rows : list requestRow) : Prop :=
  ∀ w w', w ∈ rows → w' ∈ rows →
    w_RequestSHA256 w = w_RequestSHA256 w' ∨ w_RequestID w = w_RequestID w' ∨
    w_NonceSHA256 w = w_NonceSHA256 w' → w = w'.

(** The row is not in the ledger in any of the three ways. *)
Definition unused (rows : list requestRow) (w : requestRow) : Prop :=
  ∀ v, v ∈ rows → w_RequestSHA256 v ≠ w_RequestSHA256 w ∧ w_RequestID v ≠ w_RequestID w ∧
    w_NonceSHA256 v ≠ w_NonceSHA256 w.

Lemma row_unique_iff rows w : row_unique rows w = true ↔ unused rows w.
Proof.
  unfold row_unique. rewrite forallb_forall. split.
  - intros H v Hv%list_elem_of_In%H. split_bools. done.
  - intros H v Hv%list_elem_of_In. destruct (H v Hv) as (H1 & H2 & H3).
    by rewrite !bool_decide_false.
Qed.

Lemma insert_row_ok db w db' :
  insert_row db w = Ok db' →
  db' = {| stations := stations db; requests := requests db ++ [w] |} ∧ row_checks w = true ∧
  unused (requests db) w.
Proof.
  unfold insert_row. guard E1. guard E2. guard E3. intros [= <-]. split_bools.
  split_and!; [done|done|by apply row_unique_iff].
Qed.

Lemma later_requests db db' : later db db' → ∃ new, requests db' = requests db ++ new.
Proof.
  induction 1 as [db|db db1 db' Hs _ [new Hnew] ]; [exists []; by rewrite app_nil_r|].
  destruct Hs as [db st|db w db1 (-> & _)%insert_row_ok]; [by exists new|].
  exists (w :: new). rewrite Hnew. cbn. by rewrite <- app_assoc.
Qed.

Lemma used_once_later db db' : later db db' → used_once (requests db) → used_once (requests db').
Proof.
  induction 1 as [db|db db1 db' Hs _ IH]; [done|]. intros Hu. apply IH.
  destruct Hs as [db st|db w db1 (-> & _ & Hf)%insert_row_ok]; [done|]. cbn.
  intros v v' Hv Hv' Hk. apply elem_of_app in Hv as [Hv|Hv]; apply elem_of_app in Hv' as [Hv'|Hv'].
  - by apply Hu.
  - apply list_elem_of_singleton in Hv' as ->. destruct (Hf v Hv) as (? & ? & ?). by destruct Hk as [?|[?|?] ].
  - apply list_elem_of_singleton in Hv as ->. destruct (Hf v' Hv') as (? & ? & ?).
    by destruct Hk as [?|[?|?] ]; exfalso; auto.
  - apply list_elem_of_singleton in Hv as ->. by apply list_elem_of_singleton in Hv' as ->.
Qed.

(** ** The signer *)

(** The row and the receipt are about the same request, and agree on everything. *)
Record attests (w : requestRow) (r : Receipt) : Prop := {
  at_digest : hex_decode (RequestSHA256 r) = Some (w_RequestSHA256 w);
  at_id : w_RequestID w = RequestID r;
  at_nonce : Sum256 <$> DecodeString (NonceB64URL r) = Some (w_NonceSHA256 w);
  at_station : w_Station w = r_Station r;
  at_policy : hex_decode (PolicySHA256 (r_Ledger r)) = Some (w_PolicySHA256 w);
  at_policy_id : w_PolicyID w = PolicyID (r_Ledger r);
  at_ledger_id : w_LedgerID w = LedgerID (r_Ledger r);
  at_plan : hex_decode (PlanSHA256 (r_Authorization r)) = Some (w_PlanSHA256 w);
  at_plan_id : w_PlanID w = PlanID (r_Authorization r);
  at_issued : parseTimestamp (IssuedAt (r_Authorization r)) = Some (w_AuthorizationIssued w);
  at_expires : parseTimestamp (ExpiresAt (r_Authorization r)) = Some (w_AuthorizationExpires w);
  at_transaction : w_Transaction w = r_Transaction r;
  at_key : w_AuthorityKeyID w = AuthorityKeyID r;
  at_observed : parseTimestamp (ObservedAt r) = Some (w_ObservedAt w);
  at_until : parseTimestamp (r_ExpiresAt r) = Some (w_ReceiptExpiresAt w);
}.

(** The window in which the signer releases a signature. *)
Definition in_window (w : requestRow) (now : Time) : Prop :=
  w_ObservedAt w ≤ now < w_ReceiptExpiresAt w ∧ now ≤ w_AuthorizationExpires w.

Lemma station_eq (s s' : Station) :
  ID s = ID s' → FixtureID s = FixtureID s' → FixtureVersion s = FixtureVersion s' → s = s'.
Proof. destruct s, s'; cbn; by intros -> -> ->. Qed.

Lemma transaction_eq (t t' : Transaction) :
  AttemptID t = AttemptID t' → DeviceID t = DeviceID t' → BaseMAC t = BaseMAC t' → t = t'.
Proof. destruct t, t'; cbn; by intros -> -> ->. Qed.

Lemma equalDigest_eq a b : equalDigest a b = true → a = b.
Proof. unfold equalDigest. intros H. by split_bools. Qed.

Lemma validate_record_ok r w now :
  validateSignerLedgerRecord r w now = None → hex_decode (RequestSHA256 r) = Some (w_RequestSHA256 w) →
  attests w r ∧ in_window w now.
Proof.
  unfold validateSignerLedgerRecord.
  destruct (DecodeString (NonceB64URL r)) as [nonce|] eqn:Hn; [|done].
  destruct (hex_decode (PolicySHA256 _)) as [pd|] eqn:Hp; [|done].
  destruct (hex_decode (PlanSHA256 _)) as [ld|] eqn:Hl; [|done]. guard E1.
  destruct (parseTimestamp (IssuedAt _)) as [i|] eqn:H1; [|done].
  destruct (parseTimestamp (ExpiresAt _)) as [x|] eqn:H2; [|done].
  destruct (parseTimestamp (ObservedAt r)) as [o|] eqn:H3; [|done].
  destruct (parseTimestamp (r_ExpiresAt r)) as [u|] eqn:H4; [|done]. guard E2. guard E3. intros _ Hd.
  unfold Before, After in *. split_bools.
  repeat match goal with H : equalDigest _ _ = true |- _ => apply equalDigest_eq in H end.
  subst i x o u pd ld. split; [|unfold in_window; lia].
  constructor; try done; [by rewrite Hn; cbn; congruence|by apply station_eq|by apply transaction_eq].
Qed.

Lemma find_row_ok rows d w : find_row rows d = Some w → w ∈ rows ∧ w_RequestSHA256 w = d.
Proof.
  unfold find_row. destruct (filter _ rows) as [|v vs] eqn:Hf; [done|]. intros [= ->].
  assert (w ∈ filter (λ w, w_RequestSHA256 w = d) rows) as Hw by (rewrite Hf; by left).
  apply list_elem_of_filter in Hw as [? ?]. done.
Qed.

Lemma AuthorizeSigning_ok read r :
  AuthorizeSigning read r = None →
  ValidateUnsignedReceipt r = true ∧
  ∃ db now w, read = Some (db, now) ∧ w ∈ requests db ∧ attests w r ∧ in_window w now.
Proof.
  unfold AuthorizeSigning. guard E1. destruct (hex_decode (RequestSHA256 r)) as [d|] eqn:Hd; [|done].
  guard E2. destruct read as [ [db now]|]; [|done].
  destruct (find_row _ _) as [w|] eqn:Hf; [|done]. apply find_row_ok in Hf as [Hw <-].
  intros Hv. apply validate_record_ok in Hv as [Ha Hi]; [|done]. split_bools. split; [done|].
  by exists db, now, w.
Qed.

Section Library.
Context (L : library).

Lemma ParseUnsignedReceipt_ok data r :
  ParseUnsignedReceipt L data = Ok r → data = CanonicalJSON (receipt_json r).
Proof.
  unfold ParseUnsignedReceipt. guard E1. destruct (Decode_receipt L data) as [r'|]; [|done].
  guard E2. guard E3. intros [= <-]. by split_bools.
Qed.

Lemma ParseRequest_ok data q d :
  ParseRequest L data = Ok (q, d) →
  data = CanonicalJSON (request_json q) ∧ d = Sum256 data ∧ ValidateRequest q = true.
Proof.
  unfold ParseRequest. guard E1. destruct (Decode_request L data) as [q'|]; [|done].
  guard E2. guard E3. intros [= <- <-]. by split_bools.
Qed.

Lemma parseSignerRequest_ok data q r unsigned :
  parseSignerRequest L data = Some (q, r, unsigned) →
  unsigned = CanonicalJSON (receipt_json r) ∧ hex_encode (Sum256 unsigned) = sq_UnsignedReceiptSHA256 q.
Proof.
  unfold parseSignerRequest. guard E1. destruct (Decode_signer_request L data) as [q'|]; [|done].
  guard E2. destruct (DecodeString _) as [u|]; [|done]. guard E3. guard E4.
  destruct (ParseUnsignedReceipt L u) as [r'|] eqn:Hp; [|done]. guard E5. intros [= <- <- <-].
  split_bools. split; [by apply ParseUnsignedReceipt_ok|done].
Qed.

(** A signature that was released: over the receipt in the request, which a committed row
    attests at both queries, within its window. *)
Definition released (service : ReceiptSignerService) (first second : option (Database * Time))
    (r : Receipt) (signature : bytes) : Prop :=
  AuthorityKeyID r = s_keyID service ∧
  ed25519_Verify L (s_publicKey service) (SignatureDomain ++ CanonicalJSON (receipt_json r)) signature = true ∧
  ValidateUnsignedReceipt r = true ∧
  (∃ db now w, first = Some (db, now) ∧ w ∈ requests db ∧ attests w r ∧ in_window w now) ∧
  ∃ db now w, second = Some (db, now) ∧ w ∈ requests db ∧ attests w r ∧ in_window w now.

Lemma SignRequest_ok service first backend second body out :
  SignRequest L service first backend second body = Ok out →
  ∃ q r unsigned signature, parseSignerRequest L body = Some (q, r, unsigned) ∧
    released service first second r signature ∧
    out = CanonicalJSON (signer_response_json
      {| sr_Schema := SignerResponseSchema; sr_KeyID := s_keyID service;
         sr_SignatureAlgorithm := SignatureAlgorithm; sr_SignatureB64URL := EncodeToString signature;
         sr_UnsignedReceiptSHA256 := sq_UnsignedReceiptSHA256 q; sr_Result := SignerResponseResult |}).
Proof.
  unfold SignRequest. guard E1.
  destruct (parseSignerRequest L body) as [ [ [q r] unsigned]|] eqn:Hp; [|done]. guard E2.
  destruct (AuthorizeSigning first r) eqn:Ha1; [done|].
  destruct (backend _) as [signature|]; [|done]. guard E3.
  destruct (AuthorizeSigning second r) eqn:Ha2; [done|]. guard E4. intros [= <-]. split_bools.
  apply AuthorizeSigning_ok in Ha1 as [Hv Ha1], Ha2 as [_ Ha2].
  exists q, r, unsigned, signature. split; [done|].
  apply parseSignerRequest_ok in Hp as [-> _]. split; [|done]. split_and!; done.
Qed.

End Library.

(** The row determines the receipt, but for a second nonce with the same digest. *)
Lemma attests_inj w r r' :
  ValidateUnsignedReceipt r = true → ValidateUnsignedReceipt r' = true → attests w r → attests w r' →
  NonceB64URL r = NonceB64URL r' → r = r'.
Proof.
  intros (i & x & o & u & n & Hs & _ & _ & _ & _ & S1 & S2 & S3 & S4 & S5 & S6 & S7 & _)%ValidateUnsignedReceipt_ok
    (i' & x' & o' & u' & n' & Hs' & _ & _ & _ & _ & T1 & T2 & T3 & T4 & T5 & T6 & T7 & _)%ValidateUnsignedReceipt_ok
    A A' Hn.
  apply validateSubject_ok in Hs as (D1 & D2 & _), Hs' as (D1' & D2' & _).
  destruct A as [A1 A2 _ A4 A5 A6 A7 A8 A9 A10 A11 A12 A13 A14 A15].
  destruct A' as [B1 B2 _ B4 B5 B6 B7 B8 B9 B10 B11 B12 B13 B14 B15].
  pose proof (digest_inj _ _ _ S7 T7 A1 B1). pose proof (digest_inj _ _ _ D1 D1' A5 B5).
  pose proof (digest_inj _ _ _ D2 D2' A8 B8). pose proof (parseTimestamp_inj _ _ _ A10 B10).
  pose proof (parseTimestamp_inj _ _ _ A11 B11). pose proof (parseTimestamp_inj _ _ _ A14 B14).
  pose proof (parseTimestamp_inj _ _ _ A15 B15).
  destruct r as [? ? ? ? ? ? [] [] ? ? ? ? ? ? ? ?], r' as [? ? ? ? ? ? [] [] ? ? ? ? ? ? ? ?]. cbn in *.
  subst. congruence.
Qed.

(** The two nonces do not collide under SHA-256. *)
Definition nonces_apart (r r' : Receipt) : Prop :=
  ∀ n n', DecodeString (NonceB64URL r) = Some n → DecodeString (NonceB64URL r') = Some n' →
    Sum256 n = Sum256 n' → n = n'.

Lemma attests_once w r r' :
  ValidateUnsignedReceipt r = true → ValidateUnsignedReceipt r' = true → attests w r → attests w r' →
  nonces_apart r r' → r = r'.
Proof.
  intros V V' A A' Hn. eapply attests_inj; [done..|].
  destruct (ValidateUnsignedReceipt_ok r V) as (?&?&?&?& n &?&?&?&?&?&?&?&?&?&?&?&?&?& Hr).
  destruct (ValidateUnsignedReceipt_ok r' V') as (?&?&?&?& n' &?&?&?&?&?&?&?&?&?&?&?&?&?& Hr').
  pose proof (at_nonce _ _ A) as N. pose proof (at_nonce _ _ A') as N'.
  rewrite Hr, DecodeString_EncodeToString in N. rewrite Hr', DecodeString_EncodeToString in N'.
  cbn in N, N'. rewrite Hr, Hr'. f_equal.
  apply Hn; [by rewrite Hr, DecodeString_EncodeToString|by rewrite Hr', DecodeString_EncodeToString|congruence].
Qed.

(** C22: the signer attests one time for a request. Two signatures that it released, at any
    two moments, over receipts with the same request identifier, the same nonce or the
    same request, are over the same text: whatever the authority asks for, and whoever
    else uses the database within the constraints of its tables, a request has one
    observed time. *)
Theorem one_receipt_per_request L db0 s s' f f' backend backend' db db' now now' body body' out out'
    q q' r r' unsigned unsigned' :
  used_once (requests db0) → later db0 db → later db db' →
  SignRequest L s f backend (Some (db, now)) body = Ok out →
  SignRequest L s' f' backend' (Some (db', now')) body' = Ok out' →
  parseSignerRequest L body = Some (q, r, unsigned) →
  parseSignerRequest L body' = Some (q', r', unsigned') → nonces_apart r r' →
  RequestID r = RequestID r' ∨ NonceB64URL r = NonceB64URL r' ∨ RequestSHA256 r = RequestSHA256 r' →
  r = r' ∧ unsigned = unsigned'.
Proof.
  intros Hu Hl Hl' H1 H2 Hp Hp' Hn Hsame.
  apply SignRequest_ok in H1 as (q1 & r1 & u1 & sg1 & Hp1 & (_ & _ & V & _ & d1 & n1 & w & [= <- <-] & Hw & A & _) & _).
  apply SignRequest_ok in H2 as (q2 & r2 & u2 & sg2 & Hp2 & (_ & _ & V' & _ & d2 & n2 & w' & [= <- <-] & Hw' & A' & _) & _).
  rewrite Hp in Hp1. rewrite Hp' in Hp2. injection Hp1 as <- <- <-. injection Hp2 as <- <- <-.
  assert (w = w') as <-.
  { assert (later db0 db') as Hall by (unfold later in *; by etrans).
    apply (used_once_later db0 db' Hall Hu).
    - destruct (later_requests _ _ Hl') as [new ->]. apply elem_of_app. by left.
    - done.
    - pose proof (at_nonce _ _ A) as N. pose proof (at_nonce _ _ A') as N'.
      pose proof (at_digest _ _ A) as D. pose proof (at_digest _ _ A') as D'.
      destruct A as [? Hid], A' as [? Hid']. destruct Hsame as [Hs|[Hs|Hs] ]; [right; left|right; right|left]; congruence. }
  assert (r = r') as <- by (by eapply attests_once). split; [done|].
  apply parseSignerRequest_ok in Hp as [-> _], Hp' as [-> _]. done.
Qed.

(** ** The reservation *)

(** Other transactions keep to the tables' constraints. *)
Definition calm (a : nat → attempt) : Prop := ∀ k db, later db (others (a k) db).

(** The station is enrolled with this certificate and enabled. *)
Definition enrolled (db : Database) (station : Station) (certificateSHA256 : bytes) : Prop :=
  ∃ st, stations db !! ID station = Some st ∧ st_Enabled st = true ∧
    st_FixtureID st = FixtureID station ∧ st_FixtureVersion st = FixtureVersion station ∧
    st_CertificateSHA256 st = certificateSHA256.

(** The plan of a request is in force. *)
Definition plan_covers (q : Request) (now : Time) : Prop :=
  timestamp_or_zero (IssuedAt (q_Authorization q)) ≤ now
    ≤ timestamp_or_zero (ExpiresAt (q_Authorization q)).

Lemma reserveTransaction_ok db a v lifetime db' t :
  reserveTransaction db a v lifetime = Ok (db', t) →
  ∃ now policy plan, clock a = Ok now ∧ t = TruncateSecond now ∧ plan_covers (v_Request v) now ∧
    enrolled db (q_Station (v_Request v)) (v_ClientCertificateSHA256 v) ∧
    insert_row db (row_of v policy plan t lifetime) = Ok db'.
Proof.
  unfold reserveTransaction. destruct (clock a) as [now|]; [|done]. guard E1.
  destruct (on_select a); [done|]. destruct (stations db !! _) as [st|] eqn:Hst; [|done]. guard E2.
  destruct (hex_decode (PolicySHA256 _)) as [policy|]; [|done]. guard E3.
  destruct (hex_decode (PlanSHA256 _)) as [plan|]; [|done]. guard E4.
  destruct (on_insert a); [done|]. destruct (insert_row _ _) as [db1|] eqn:Hi; [|done]. intros [= <- <-].
  unfold Before, After in *. split_bools.
  match goal with H : equalDigest _ _ = true |- _ => apply equalDigest_eq in H end.
  exists now, policy, plan. split_and!; [done|done|unfold plan_covers; lia| |done]. by exists st.
Qed.

Lemma attempts_loop_ok n db a v lifetime db' r :
  calm a → attempts_loop n db a v lifetime = (db', r) →
  later db db' ∧
  ∀ t, r = Ok t → ∃ k db1, later db db1 ∧ reserveTransaction db1 (a k) v lifetime = Ok (db', t).
Proof.
  intros Hc. revert db. induction n as [|n IH]; intros db; cbn [attempts_loop].
  { intros [= <- <-]. split; [by apply rtc_refl|done]. }
  guard E; [by intros [= <- <-]; split; [apply rtc_refl|]|].
  pose proof (Hc n db) as Ho. set (db1 := others (a n) db) in *.
  assert (∀ db2 x, run_attempt db1 (a n) v lifetime = (db2, x) →
    later db db2 ∧ ∀ t, x = Ok t → reserveTransaction db1 (a n) v lifetime = Ok (db2, t)) as Hrun.
  { intros db2 x. unfold run_attempt. destruct (reserveTransaction _ _ _ _) as [ [d t]|] eqn:Ht.
    - apply reserveTransaction_ok in Ht as (?&?&?&_&_&_&_& Hi).
      assert (later db d) by (eapply rtc_r; [exact Ho|]; by eapply Insertion).
      destruct (on_commit (a n)) as [ [f []]|]; intros [= <- <-]; (split; [done|]); [done|done|by intros ? [= <-] ].
    - intros [= <- <-]. done. }
  destruct (run_attempt _ _ _ _) as [db2 x] eqn:Hx. destruct (Hrun _ _ eq_refl) as [Hl Hr].
  destruct x as [t|[e|f] ].
  - intros [= <- <-]. split; [done|]. intros ? [= <-]. exists n, db1. auto.
  - intros [= <- <-]. done.
  - destruct f; [by intros [= <- <-]| |by intros [= <- <-] ].
    guard E2; [by intros [= <- <-]|]. intros Hloop. apply IH in Hloop as [Hl2 Hr2].
    split; [unfold later in *; by etrans|]. intros t Ht. destruct (Hr2 t Ht) as (k & d & Hd & Hk).
    exists k, d. split; [unfold later in *; by etrans|done].
Qed.

(** Rounding down to the second keeps what is a whole second below. *)
Lemma TruncateSecond_whole t : t mod second = 0 → TruncateSecond t = t.
Proof.
  intros H. unfold TruncateSecond. replace ((t - zero_time) mod second) with 0; [lia|].
  rewrite Zminus_mod, H. by vm_compute.
Qed.

Lemma TruncateSecond_mod t : TruncateSecond t mod second = 0.
Proof.
  unfold TruncateSecond. pose proof (Z.div_mod (t - zero_time) second ltac:(done)) as Hd.
  replace (t - (t - zero_time) mod second) with (zero_time / second * second + (t - zero_time) / second * second).
  - rewrite <- Z.mul_add_distr_r. by rewrite Z.mod_mul.
  - change (zero_time / second * second) with zero_time. lia.
Qed.

Lemma TruncateSecond_idem t : TruncateSecond (TruncateSecond t) = TruncateSecond t.
Proof. apply TruncateSecond_whole, TruncateSecond_mod. Qed.

Lemma TruncateSecond_bounds t : t - second < TruncateSecond t ≤ t.
Proof.
  unfold TruncateSecond. pose proof (Z.mod_pos_bound (t - zero_time) second ltac:(done)). lia.
Qed.

(** ** Receipts *)

Lemma Sign_ok L signer Do payload sg :
  Sign L signer Do payload = Ok sg → ed25519_Verify L (rs_publicKey signer) payload sg = true.
Proof.
  unfold Sign. guard E1. destruct (ParseUnsignedReceipt L _) as [r|]; [|done]. guard E2. guard E3.
  destruct (url_Parse L _) as [u|]; [|done]. destruct (Do _) as [response|]; [|done].
  unfold signature_of. guard E4. destruct (read_exact _ _ _) as [body|]; [|done].
  destruct (parseSignerResponse L body) as [o|]; [|done]. guard E5.
  destruct (DecodeString _) as [sg'|]; [|done]. guard E6. intros [= <-]. by split_bools.
Qed.

(** What a reservation leaves: the ledger at the transaction, without the request, and the
    row that was added to it. *)
Definition reserved (authority : Authority) (db db' : Database) (a : nat → attempt) (q : Request)
    (certificateSHA256 nonce : bytes) (now : Time) : Prop :=
  ∃ k db1 row, later db db1 ∧ clock (a k) = Ok now ∧ plan_covers q now ∧
    enrolled db1 (q_Station q) certificateSHA256 ∧
    unused (requests db1) row ∧ db' = {| stations := stations db1; requests := requests db1 ++ [row] |} ∧
    w_RequestSHA256 row = Sum256 (CanonicalJSON (request_json q)) ∧ w_RequestID row = q_RequestID q ∧
    w_NonceSHA256 row = Sum256 nonce ∧ w_ObservedAt row = TruncateSecond now ∧
    w_ReceiptExpiresAt row = TruncateSecond now + receiptLifetime authority.

Lemma factory_Issue_ok authority signing db a q d certificate db' response :
  calm a → Issue authority signing db a q d certificate = (db', Ok response) →
  d = Sum256 (CanonicalJSON (request_json q)) ∧
  ∃ nonce now sg, q_NonceB64URL q = EncodeToString nonce ∧
    reserved authority db db' a q (Sum256 certificate) nonce now ∧
    let r := receipt_of authority q d (TruncateSecond now) in
    signing db' (SignatureDomain ++ CanonicalJSON (receipt_json r)) = Ok sg ∧
    response = CanonicalJSON (receipt_json (with_signature r sg)).
Proof.
  intros Hc. unfold Issue. guard E1. guard E2. split_bools.
  destruct (ValidateRequest_ok q) as (i & x & nonce & _ & _ & Hlen & Hn); [done|].
  rewrite Hn, DecodeString_EncodeToString. guard E3.
  destruct (Reserve db a _ _) as [db1 [t|] ] eqn:Hr; [|done].
  guard E4. destruct (signing _ _) as [sg|] eqn:Hs; [|done]. guard E5. guard E6. intros [= -> <-].
  split; [done|]. revert Hr. unfold Reserve. guard E7. intros Hr.
  apply attempts_loop_ok in Hr as [_ Hr]; [|done]. destruct (Hr t eq_refl) as (k & db1 & Hl & Ht).
  apply reserveTransaction_ok in Ht as (now & policy & plan & Hclock & -> & Hplan & Hen & Hi).
  apply insert_row_ok in Hi as (-> & _ & Hun). cbn in Hplan, Hen. rewrite TruncateSecond_idem in Hs |- *.
  exists nonce, now, sg. split; [done|]. split; [|done].
  exists k, db1. eexists. split_and!; try done.
Qed.

(** C21: a trusted-time receipt is true. When a station receives one, it was made for
    exactly the bytes that the station sent, over a connection with the certificate under
    which the station was enrolled and enabled at the time; the time in it is the
    database's, rounded down to the second, within the plan's window, and it ends within
    ten seconds; neither the request nor its nonce had been used before, and both are used
    up now; and the receipt carries a signature of the signer's key. *)
Theorem factory_receipt_is_true L authority signer lifetime Do db a tls request db' w :
  NewAuthority (rs_keyID signer) lifetime = Some authority → calm a →
  serveTime L authority (λ db, Sign L signer (Do db)) db a tls request = (db', w) → Wire.Status w = 200 →
  ∃ certificate q nonce now sg,
    verifiedStationTLS tls = Some certificate ∧
    read_exact MaximumRequestBytes (Wire.ContentLength request) (Wire.Body request)
      = Some (CanonicalJSON (request_json q)) ∧
    q_NonceB64URL q = EncodeToString nonce ∧
    reserved authority db db' a q (Sum256 certificate) nonce now ∧
    second ≤ receiptLifetime authority ≤ 10 * second ∧
    let r := receipt_of authority q (Sum256 (CanonicalJSON (request_json q))) (TruncateSecond now) in
    Wire.w_Body w = CanonicalJSON (receipt_json (with_signature r sg)) ∧
    ed25519_Verify L (rs_publicKey signer) (SignatureDomain ++ CanonicalJSON (receipt_json r)) sg = true.
Proof.
  intros Hnew Hc. unfold NewAuthority in Hnew. revert Hnew. guard E. intros [= <-].
  unfold MaximumReceiptSeconds in E. split_bools.
  unfold serveTime. destruct (verifiedStationTLS tls) as [certificate|] eqn:Htls; [|by intros [= <- <-] ].
  guard E2; [by intros [= <- <-]|]. destruct (read_exact _ _ _) as [body|] eqn:Hb; [|by intros [= <- <-] ].
  destruct (ParseRequest L body) as [ [q d]|] eqn:Hp; [|by intros [= <- <-] ].
  apply ParseRequest_ok in Hp as (-> & -> & _).
  destruct (Issue _ _ _ _ _ _ _) as [d1 [response|e] ] eqn:Hi; [|intros [= <- <-]; by destruct e].
  intros [= -> <-] _.
  apply factory_Issue_ok in Hi as (_ & nonce & now & sg & Hn & Hres & Hsig & Hout); [|done].
  apply Sign_ok in Hsig. exists certificate, q, nonce, now, sg. cbn [receiptLifetime].
  split_and!; try done.
Qed.

End FactoryTheorems.
