(* ===== verification/FactoryLiveness.v ===== *)
(** * FactoryLiveness: an enrolled station gets its receipt

    The texts of [FactoryTime] fit their limits, an instant is read back from its text,
    and so a request that is entitled to a receipt passes every check of the authority,
    the client of the signer, the signer and its ledger. *)

From stdpp Require Import base gmap strings list sorting relations.
From Stdlib Require Import ZArith Lia.
From Stdlib.Strings Require Import Byte.
From S2P Require Import Prelude GoBase GoDate GoCrypto Protocol Auth StrictJSON GoWire FactoryTime FactoryTheorems.

Module FactoryLiveness.
Import Ident FactoryTime FactoryTheorems.

#[local] Arguments CanonicalJSON : simpl never.

(** ** Texts *)

(** A text of identifier characters, not longer than [n]. *)
Definition text_ok (n : Z) (s : string) : Prop :=
  Forall (λ b, identifier_byte b = true) (bytes_of s) ∧ slen s ≤ n.

Lemma text_ok_of n s : forallb identifier_byte (bytes_of s) = true → slen s ≤ n → text_ok n s.
Proof.
  intros H Hl. split; [|done]. apply Forall_forall. intros b Hb. rewrite forallb_forall in H.
  by apply H, list_elem_of_In.
Qed.

Lemma identifier_text s : validIdentifier s = true → text_ok 128 s.
Proof. intros (H & _ & Hl)%ValidIdentifier_bytes. done. Qed.

Lemma hex_identifier b : hex_byte b = true → identifier_byte b = true.
Proof. destruct b; by vm_compute. Qed.

Lemma upper_hex_identifier b : upper_hex_byte b = true → identifier_byte b = true.
Proof. destruct b; by vm_compute. Qed.

Lemma digest_text s : validDigest s = true → text_ok 64 s.
Proof.
  unfold validDigest, validSHA256. guard E. intros H. split_bools. apply text_ok_of; [|lia].
  rewrite forallb_forall in *. intros b Hb. by apply hex_identifier, H.
Qed.

Lemma encoded_text bs : text_ok (2 * blen bs) (EncodeToString bs).
Proof.
  split.
  - eapply Forall_impl; [apply Token.encoded_bytes|]. by intros b [? _].
  - rewrite slen_bytes_of. unfold blen. pose proof (Token.encoded_length bs). lia.
Qed.

Lemma device_text s : device_matches s = true → text_ok 15 s.
Proof.
  unfold device_matches. intros H. split_bools.
  match goal with H : (_ =? _)%nat = true |- _ => apply Nat.eqb_eq in H as Hl end.
  apply text_ok_of; [|rewrite slen_bytes_of; unfold blen; lia].
  rewrite <- (take_drop 3 (bytes_of s)), forallb_app.
  match goal with H : take 3 _ = _ |- _ => rewrite H end.
  change (forallb identifier_byte (bytes_of "xz-")) with true. cbn [andb].
  match goal with H : forallb hex_byte _ = true |- _ => rewrite forallb_forall in H; rename H into Hh end.
  apply forallb_forall. intros b Hb. by apply hex_identifier, Hh.
Qed.

Lemma mac_pairs_text n bs :
  mac_pairs n bs = true → forallb identifier_byte bs = true ∧ length bs = (3 * n + 2)%nat.
Proof.
  revert bs. induction n as [|n IH]; intros bs H.
  - destruct bs as [|a [|b [|] ] ]; try done. cbn in H. split_bools. cbn.
    by rewrite !upper_hex_identifier.
  - destruct bs as [|a [|b [|c bs] ] ]; try done. cbn [mac_pairs] in H. split_bools.
    destruct (IH bs) as [Hi Hl]; [done|]. cbn [forallb length].
    assert (identifier_byte c = true) as -> by (unfold identifier_byte; by replace (bval c) with 58).
    rewrite !upper_hex_identifier, Hi by done. split; [done|lia].
Qed.

Lemma mac_text s : mac_matches s = true → text_ok 17 s.
Proof.
  intros [H Hl]%mac_pairs_text. apply text_ok_of; [done|]. rewrite slen_bytes_of. unfold blen. lia.
Qed.

Lemma digit_identifier v : 0 ≤ v < 10 → identifier_byte (byte_of (48 + v)) = true.
Proof.
  intros Hv. assert (v = 0 ∨ v = 1 ∨ v = 2 ∨ v = 3 ∨ v = 4 ∨ v = 5 ∨ v = 6 ∨ v = 7 ∨ v = 8 ∨ v = 9) as Hc by lia.
  repeat (destruct Hc as [->|Hc]; [by vm_compute|]). subst. by vm_compute.
Qed.

Lemma pad_dec_identifier w n : forallb identifier_byte (bytes_of (pad_dec w n)) = true.
Proof.
  revert n. induction w as [|w IH]; intros n; [done|]. rewrite GoDate.pad_dec_S, forallb_app, IH. cbn.
  by rewrite digit_identifier by (apply Z.mod_pos_bound; lia).
Qed.

Lemma timestamp_text t : text_ok 20 (FormatRFC3339 t).
Proof.
  unfold FormatRFC3339, FormatDate. destruct (civil_of_days _) as [ [y m] d]. apply text_ok_of.
  - rewrite !bytes_of_app, !forallb_app, !pad_dec_identifier. by vm_compute.
  - rewrite slen_bytes_of. unfold blen. rewrite !bytes_of_app, !length_app, !GoDate.pad_dec_length.
    change (length (bytes_of (String _ ""))) with 1%nat. lia.
Qed.

Lemma parsed_text s t : parseTimestamp s = Some t → text_ok 20 s.
Proof. intros [-> _]%parseTimestamp_ok. apply timestamp_text. Qed.

(** ** Lengths *)

Lemma valid_text_identifier n bs :
  (length bs ≤ n)%nat → Forall (λ b, identifier_byte b = true) bs → valid_text n bs = bs.
Proof.
  revert n. induction bs as [|b bs IH]; intros [|n] Hn Hf; cbn in Hn |- *; try done; [lia|].
  inversion_clear Hf as [|?? Hb Hbs]. apply Wire.identifier_cases in Hb as (_ & _ & _ & _ & ->).
  by rewrite IH by (done || lia).
Qed.

Lemma text_width n s : text_ok n s → blen (CanonicalJSON (JText s)) ≤ n + 2.
Proof.
  intros [Hf Hl]. unfold CanonicalJSON. rewrite valid_text_identifier, string_of_bytes_of by done.
  change (Wire.quote s) with (Wire.render (Wire.JString s)). rewrite Wire.render_string by done.
  rewrite blen_cons, blen_app, <- slen_bytes_of. change (blen [Wire.dquote]) with 1. lia.
Qed.

Lemma join_width ms :
  blen (join_members ms) ≤ foldr (λ m z, slen m.1 + 4 + blen m.2 + z) 0 ms.
Proof.
  induction ms as [|[name text] ms IH]; [done|].
  destruct ms as [|m ms].
  - cbn [join_members foldr fst snd]. rewrite blen_cons, !blen_app, <- slen_bytes_of.
    change (blen [Wire.dquote; byte_of 58]) with 2. lia.
  - change (join_members ((name, text) :: m :: ms)) with
      (Wire.dquote :: bytes_of name ++ [Wire.dquote; byte_of 58] ++ text ++ Wire.comma :: join_members (m :: ms)).
    change (foldr (λ m z, slen m.1 + 4 + blen m.2 + z) 0 ((name, text) :: m :: ms)) with
      (slen name + 4 + blen text + foldr (λ m z, slen m.1 + 4 + blen m.2 + z) 0 (m :: ms)).
    repeat (rewrite ?blen_cons, ?blen_app). rewrite <- slen_bytes_of. change (blen []) with 0. lia.
Qed.

(** The sum of the lengths does not depend on the order of the members. *)
Lemma members_sum ms ms' :
  ms ≡ₚ ms' →
  foldr (λ (m : string * bytes) z, slen m.1 + 4 + blen m.2 + z) 0 ms
  = foldr (λ (m : string * bytes) z, slen m.1 + 4 + blen m.2 + z) 0 ms'.
Proof. induction 1; cbn [foldr]; lia. Qed.

Lemma sorted_width ms :
  blen (CanonicalJSON (JMembers ms))
    ≤ 2 + foldr (λ (m : string * json) z, slen m.1 + 4 + blen (CanonicalJSON m.2) + z) 0 ms.
Proof.
  change (CanonicalJSON (JMembers ms)) with
    (byte_of 123 :: join_members (merge_sort member_le (map (λ m, (m.1, CanonicalJSON m.2)) ms)) ++ [Wire.closing]).
  rewrite blen_cons, blen_app. change (blen [Wire.closing]) with 1.
  pose proof (join_width (merge_sort member_le (map (λ m, (m.1, CanonicalJSON m.2)) ms))) as H.
  rewrite (members_sum _ _ (merge_sort_Permutation member_le _)) in H.
  enough (foldr (λ (m : string * bytes) z, slen m.1 + 4 + blen m.2 + z) 0 (map (λ m, (m.1, CanonicalJSON m.2)) ms)
    = foldr (λ (m : string * json) z, slen m.1 + 4 + blen (CanonicalJSON m.2) + z) 0 ms) by lia.
  clear. induction ms as [|m ms IH]; [done|]. cbn [map foldr fst snd]. by rewrite IH.
Qed.

Lemma sorted_nonempty ms : 0 < blen (CanonicalJSON (JMembers ms)).
Proof.
  change (CanonicalJSON (JMembers ms)) with
    (byte_of 123 :: join_members (merge_sort member_le (map (λ m, (m.1, CanonicalJSON m.2)) ms)) ++ [Wire.closing]).
  rewrite blen_cons. match goal with |- context [blen ?x] => pose proof (blen_nonneg x) end. lia.
Qed.

Definition is_object (v : json) : bool := match v with JMembers _ => true | JText _ => false end.

Lemma canonical_nonempty v : is_object v = true → 0 < blen (CanonicalJSON v).
Proof. destruct v; [done|]. intros _. apply sorted_nonempty. Qed.

(** The lengths of the members' names are known. *)
Ltac widths :=
  etrans; [apply sorted_width|]; cbn [foldr app fst snd];
  repeat match goal with
  | |- context [slen (String ?a ?s)] =>
      let n := eval vm_compute in (slen (String a s)) in change (slen (String a s)) with n
  end; lia.

Lemma subject_width l au tr st issued expires :
  validateSubject l au tr st = Some (issued, expires) →
  blen (CanonicalJSON (ledger_json l)) ≤ 400 ∧ blen (CanonicalJSON (authorization_json au)) ≤ 400 ∧
  blen (CanonicalJSON (transaction_json tr)) ≤ 300 ∧ blen (CanonicalJSON (station_json st)) ≤ 500.
Proof.
  unfold validateSubject. guard E. destruct (parseTimestamp (IssuedAt au)) as [i|] eqn:H1; [|done].
  destruct (parseTimestamp (ExpiresAt au)) as [x|] eqn:H2; [|done]. intros _. split_bools.
  repeat match goal with
  | H : validIdentifier ?s = true |- _ => apply identifier_text, text_width in H
  | H : validDigest ?s = true |- _ => apply digest_text, text_width in H
  | H : device_matches ?s = true |- _ => apply device_text, text_width in H
  | H : mac_matches ?s = true |- _ => apply mac_text, text_width in H
  | H : parseTimestamp ?s = Some _ |- _ => apply parsed_text, text_width in H
  end.
  unfold ledger_json, authorization_json, transaction_json, station_json.
  split_and!; widths.
Qed.

Lemma receipt_width r :
  ValidateUnsignedReceipt r = true → text_ok 128 (RequestID r) → text_ok 128 (AuthorityKeyID r) →
  blen (CanonicalJSON (receipt_json r)) ≤ 4000 ∧
  ∀ sg, blen sg = 64 → blen (CanonicalJSON (receipt_json (with_signature r sg))) ≤ 4000.
Proof.
  intros (i & x & o & u & n & Hs & H1 & H2 & _ & _ & E1 & E2 & E3 & E4 & E5 & E6 & H3 & Hn & E7)%ValidateUnsignedReceipt_ok
    H4%text_width H5%text_width.
  apply subject_width in Hs as (W1 & W2 & W3 & W4).
  apply parsed_text, text_width in H1, H2. apply digest_text, text_width in H3.
  pose proof (text_width _ _ (encoded_text n)) as H6. rewrite <- E7 in H6.
  assert (∀ s, forallb identifier_byte (bytes_of s) = true → slen s ≤ 100 → blen (CanonicalJSON (JText s)) ≤ 102) as Hc.
  { intros s Hi Hl. by apply (text_width 100), text_ok_of. }
  assert (blen (CanonicalJSON (JText (Schema r))) ≤ 102) as C1 by (rewrite E1; by apply Hc; vm_compute).
  assert (blen (CanonicalJSON (JText (r_Environment r))) ≤ 102) as C2 by (rewrite E2; by apply Hc; vm_compute).
  assert (blen (CanonicalJSON (JText (r_Scope r))) ≤ 102) as C3 by (rewrite E3; by apply Hc; vm_compute).
  assert (blen (CanonicalJSON (JText (Result r))) ≤ 102) as C4 by (rewrite E4; by apply Hc; vm_compute).
  assert (blen (CanonicalJSON (JText (r_SignatureAlgorithm r))) ≤ 102) as C5 by (rewrite E5; by apply Hc; vm_compute).
  unfold receipt_json. cbn [with_signature Schema r_Environment r_Scope RequestSHA256 RequestID NonceB64URL r_Ledger
    r_Authorization r_Transaction r_Station AuthorityKeyID ObservedAt r_ExpiresAt Result r_SignatureAlgorithm SignatureB64URL].
  split.
  - rewrite E6, bool_decide_true by done. widths.
  - intros sg Hsg. pose proof (text_width _ _ (encoded_text sg)) as H7.
    case_bool_decide; widths.
Qed.

(** ** Valid receipts *)

Lemma parse_format t :
  zero_time ≤ t < end_of_9999 → t mod second = 0 → parseTimestamp (FormatTimestamp t) = Some t.
Proof.
  intros Ht Hs. unfold FormatTimestamp. rewrite (proj2 (Z.ltb_lt _ _)) by lia.
  unfold parseTimestamp. rewrite GoDate.CanonicalRFC3339_FormatRFC3339 by done.
  by rewrite (proj2 (Z.ltb_ge _ _)) by lia.
Qed.

Lemma timestamp_parsed s t : parseTimestamp s = Some t → timestamp_or_zero s = t.
Proof. unfold timestamp_or_zero. by intros ->. Qed.

(** A lifetime that [NewAuthority] admits. *)
Definition lifetime_ok (lifetime : Duration) : Prop :=
  second ≤ lifetime ≤ 10 * second ∧ lifetime mod second = 0.

Lemma NewAuthority_ok key lifetime authority :
  NewAuthority key lifetime = Some authority →
  authority = {| keyID := key; receiptLifetime := lifetime |} ∧ validIdentifier key = true ∧ lifetime_ok lifetime.
Proof.
  unfold NewAuthority, MaximumReceiptSeconds. guard E. intros [= <-]. split_bools.
  split_and!; [done|done|]. split; [lia|].
  rewrite <- Z.rem_mod_nonneg by (unfold second in *; lia). done.
Qed.

Lemma receipt_valid authority q d t :
  ValidateRequest q = true → validIdentifier (keyID authority) = true → lifetime_ok (receiptLifetime authority) →
  blen d = 32 → plan_covers q t → t mod second = 0 → t + receiptLifetime authority < end_of_9999 →
  ValidateUnsignedReceipt (receipt_of authority q d t) = true ∧
  parseTimestamp (FormatTimestamp t) = Some t ∧
  parseTimestamp (FormatTimestamp (t + receiptLifetime authority)) = Some (t + receiptLifetime authority).
Proof.
  intros Hq Hk [Hl Hlm] Hd Hp Ht Hend.
  destruct (ValidateRequest_ok q Hq) as (issued & expires & nonce & Hs & Hid & Hn & Hnonce).
  destruct (validateSubject_ok _ _ _ _ _ _ Hs) as (_ & _ & Hi & Hx & Hix).
  unfold plan_covers in Hp. rewrite (timestamp_parsed _ _ Hi), (timestamp_parsed _ _ Hx) in Hp.
  destruct (parseTimestamp_ok _ _ Hi) as (_ & Hz & _).
  assert (parseTimestamp (FormatTimestamp t) = Some t) as P1 by (apply parse_format; [unfold second in *; lia|done]).
  assert (parseTimestamp (FormatTimestamp (t + receiptLifetime authority)) = Some (t + receiptLifetime authority)) as P2.
  { apply parse_format; [unfold second in *; lia|]. by rewrite Z.add_mod, Ht, Hlm. }
  split; [|done]. unfold ValidateUnsignedReceipt, receipt_of.
  cbn [Schema r_Environment r_Scope RequestSHA256 RequestID NonceB64URL r_Ledger r_Authorization r_Transaction
    r_Station AuthorityKeyID ObservedAt r_ExpiresAt Result r_SignatureAlgorithm SignatureB64URL].
  repeat (rewrite bool_decide_true by done). rewrite hex_encode_valid, Hid, Hk, Hs, P1, P2 by done.
  replace (validNonce (q_NonceB64URL q)) with true
    by (symmetry; unfold ValidateRequest in Hq; revert Hq; guard E; intros _; by split_bools).
  cbn [negb orb]. unfold Before, After, MaximumReceiptSeconds.
  rewrite (proj2 (Z.ltb_lt t _)) by (unfold second in *; lia).
  by rewrite !(proj2 (Z.ltb_ge _ _)) by lia.
Qed.

(** ** The reservation succeeds *)

Definition healthy (a : attempt) (now : Time) : Prop :=
  begins a = true ∧ clock a = Ok now ∧ on_select a = None ∧ on_insert a = None ∧ on_commit a = None.

(** The reservation of a request by a station. *)
Definition reservation_of (authority : Authority) (q : Request) (nonce certificate : bytes) : Reservation :=
  {| v_Request := q; v_RequestSHA256 := Sum256 (CanonicalJSON (request_json q)); v_NonceSHA256 := Sum256 nonce;
     v_ClientCertificateSHA256 := Sum256 certificate; v_AuthorityKeyID := keyID authority |}.

Lemma row_checks_ok authority q nonce certificate policy plan t :
  ValidateRequest q = true → validIdentifier (keyID authority) = true → lifetime_ok (receiptLifetime authority) →
  plan_covers q t → blen policy = 32 → blen plan = 32 →
  row_checks (row_of (reservation_of authority q nonce certificate) policy plan t (receiptLifetime authority)) = true.
Proof.
  intros Hq Hk [Hl _] Hp Hpol Hplan.
  destruct (ValidateRequest_ok q Hq) as (issued & expires & n & Hs & Hid & _ & _).
  destruct (validateSubject_ok _ _ _ _ _ _ Hs) as (_ & _ & Hi & Hx & Hix).
  unfold plan_covers in Hp. rewrite (timestamp_parsed _ _ Hi), (timestamp_parsed _ _ Hx) in Hp.
  unfold validateSubject in Hs. revert Hs. guard E. intros _. split_bools.
  unfold row_checks, row_of, reservation_of. cbn -[mac_matches device_matches slen Z.add Z.mul].
  rewrite (timestamp_parsed _ _ Hi), (timestamp_parsed _ _ Hx), !Sum256_length, Hpol, Hplan.
  fold (validIdentifier (q_RequestID q)). fold (validIdentifier (keyID authority)). rewrite Hid, Hk.
  repeat match goal with
  | H : validIdentifier ?s = true |- context [slen ?s <=? 128] =>
      rewrite (proj2 (Z.leb_le (slen s) 128)) by (apply identifier_text in H; apply H)
  | H : ?b = true |- context [?b] => rewrite H
  end.
  cbn [andb Z.eqb Pos.eqb]. rewrite (proj2 (Z.ltb_lt issued expires)), (proj2 (Z.leb_le issued t)), (proj2 (Z.leb_le t expires)) by lia.
  rewrite (proj2 (Z.ltb_lt _ _)), (proj2 (Z.leb_le _ _)) by (unfold second in *; lia). done.
Qed.

(** Nobody has used the request, its identifier or its nonce. *)
Definition fresh (rows : list requestRow) (q : Request) (nonce : bytes) : Prop :=
  ∀ v, v ∈ rows → w_RequestSHA256 v ≠ Sum256 (CanonicalJSON (request_json q)) ∧
    w_RequestID v ≠ q_RequestID q ∧ w_NonceSHA256 v ≠ Sum256 nonce.

(** Rounding down does not leave the window of a plan, which starts on a second. *)
Lemma plan_covers_floor q issued now :
  parseTimestamp (IssuedAt (q_Authorization q)) = Some issued → plan_covers q now →
  plan_covers q (TruncateSecond now).
Proof.
  intros Hi Hp. unfold plan_covers in *. rewrite (timestamp_parsed _ _ Hi) in *.
  destruct (parseTimestamp_ok _ _ Hi) as (_ & _ & Him). pose proof (TruncateSecond_bounds now) as Hb.
  split; [|lia]. pose proof (TruncateSecond_mod now) as Hm.
  assert ((TruncateSecond now - issued) mod second = 0) as Hd by (rewrite Zminus_mod; by rewrite Hm, Him).
  unfold second in *. Z.div_mod_to_equations. lia.
Qed.

Lemma Reserve_live authority db a q nonce certificate now :
  ValidateRequest q = true → validIdentifier (keyID authority) = true → lifetime_ok (receiptLifetime authority) →
  q_NonceB64URL q = EncodeToString nonce → healthy (a 3%nat) now → plan_covers q now →
  let db1 := others (a 3%nat) db in
  enrolled db1 (q_Station q) (Sum256 certificate) → fresh (requests db1) q nonce →
  ∃ policy plan,
    let row := row_of (reservation_of authority q nonce certificate) policy plan (TruncateSecond now)
                 (receiptLifetime authority) in
    hex_decode (PolicySHA256 (q_Ledger q)) = Some policy ∧ blen policy = 32 ∧
    hex_decode (PlanSHA256 (q_Authorization q)) = Some plan ∧ blen plan = 32 ∧
    Reserve db a (reservation_of authority q nonce certificate) (receiptLifetime authority)
      = ({| stations := stations db1; requests := requests db1 ++ [row] |}, Ok (TruncateSecond now)).
Proof.
  intros Hq Hk Hl Hn (Hb & Hc & Hsel & Hins & Hcom) Hp db1 (st & Hst & Hen & Hf1 & Hf2 & Hcert) Hfresh.
  destruct (ValidateRequest_ok q Hq) as (issued & expires & n & Hs & Hid & Hlen & Hn').
  destruct (validateSubject_ok _ _ _ _ _ _ Hs) as (D1 & D2 & Hi & Hx & _).
  destruct (digest_decodes _ D1) as (policy & Hpol & Hpl). destruct (digest_decodes _ D2) as (plan & Hplan & Hll).
  exists policy, plan. split_and!; [done..|].
  assert (plan_covers q (TruncateSecond now)) as Hpt by (by eapply plan_covers_floor).
  unfold Reserve.
  assert (validReservation (reservation_of authority q nonce certificate) = true) as ->.
  { unfold validReservation. cbn [v_Request v_AuthorityKeyID v_RequestSHA256 v_NonceSHA256 reservation_of].
    rewrite Hq, Hk, Hn, DecodeString_EncodeToString. by rewrite !bool_decide_true. }
  pose proof Hl as [Hl1 Hl2]. unfold MaximumReceiptSeconds.
  rewrite Z.rem_mod_nonneg, Hl2 by (unfold second in *; lia).
  rewrite !(proj2 (Z.ltb_ge _ _)) by lia. cbn [negb orb Z.eqb]. unfold maximumDBAttempts. cbn [attempts_loop].
  rewrite Hb. cbn [negb]. fold db1. unfold run_attempt, reserveTransaction. rewrite Hc. cbv zeta.
  cbn [v_Request v_ClientCertificateSHA256 reservation_of].
  unfold plan_covers in Hp. unfold Before, After. rewrite !(proj2 (Z.ltb_ge _ _)) by lia. cbn [orb].
  rewrite Hsel, Hst, Hen, Hcert. repeat (rewrite bool_decide_true by done).
  unfold equalDigest. rewrite Sum256_length, bool_decide_true by done. cbn [negb orb andb Z.eqb Pos.eqb].
  rewrite Hpol, Hpl, Hplan, Hll, Hins. cbn [negb Z.eqb Pos.eqb]. unfold insert_row.
  fold (reservation_of authority q nonce certificate). rewrite row_checks_ok by done. cbn [negb].
  rewrite bool_decide_false by (cbn; by rewrite Hst). rewrite (proj2 (row_unique_iff _ _)) by done. cbn [negb].
  by rewrite Hcom.
Qed.

(** ** The signer signs *)

Lemma row_attests authority q nonce certificate policy plan t :
  q_NonceB64URL q = EncodeToString nonce → ValidateRequest q = true →
  hex_decode (PolicySHA256 (q_Ledger q)) = Some policy → hex_decode (PlanSHA256 (q_Authorization q)) = Some plan →
  parseTimestamp (FormatTimestamp t) = Some t →
  parseTimestamp (FormatTimestamp (t + receiptLifetime authority)) = Some (t + receiptLifetime authority) →
  attests (row_of (reservation_of authority q nonce certificate) policy plan t (receiptLifetime authority))
    (receipt_of authority q (Sum256 (CanonicalJSON (request_json q))) t).
Proof.
  intros Hn Hq Hpol Hplan P1 P2.
  destruct (ValidateRequest_ok q Hq) as (issued & expires & n & Hs & _).
  destruct (validateSubject_ok _ _ _ _ _ _ Hs) as (_ & _ & Hi & Hx & _).
  constructor; cbn -[hex_encode hex_decode EncodeToString DecodeString]; try done.
  - apply hex_decode_encode.
  - by rewrite Hn, DecodeString_EncodeToString.
  - by rewrite (timestamp_parsed _ _ Hi).
  - by rewrite (timestamp_parsed _ _ Hx).
Qed.

Lemma find_row_live rows w : used_once rows → w ∈ rows → find_row rows (w_RequestSHA256 w) = Some w.
Proof.
  intros Hu Hw. unfold find_row.
  assert (w ∈ filter (λ v, w_RequestSHA256 v = w_RequestSHA256 w) rows) as Hf by (by apply list_elem_of_filter).
  destruct (filter _ rows) as [|v vs] eqn:E; [by apply not_elem_of_nil in Hf|]. cbn. f_equal.
  assert (v ∈ filter (λ v, w_RequestSHA256 v = w_RequestSHA256 w) rows) as Hv by (rewrite E; by left).
  apply list_elem_of_filter in Hv as [Hv ?]. apply Hu; [done|done|by left].
Qed.

Lemma AuthorizeSigning_live db now w r :
  used_once (requests db) → w ∈ requests db → row_checks w = true → ValidateUnsignedReceipt r = true →
  attests w r → in_window w now → AuthorizeSigning (Some (db, now)) r = None.
Proof.
  intros Hu Hw Hc Hv A [Hwin Hexp]. unfold AuthorizeSigning. rewrite Hv. cbn [negb].
  unfold row_checks in Hc. split_bools. destruct A as [A1 A2 A3 A4 A5 A6 A7 A8 A9 A10 A11 A12 A13 A14 A15].
  rewrite A1. rewrite (proj2 (Z.eqb_eq _ 32)) by done. cbn [negb]. rewrite find_row_live by done.
  destruct (ValidateUnsignedReceipt_ok r Hv) as (?&?&?&?& n &?&?&?&?&?&?&?&?&?&?&?&?& Hlen & Hn).
  unfold validateSignerLedgerRecord. rewrite Hn, DecodeString_EncodeToString in A3 |- *. cbn in A3.
  injection A3 as A3. rewrite A5, A8, A10, A11, A14, A15, A3, Hlen.
  unfold equalDigest. repeat (rewrite (proj2 (Z.eqb_eq _ 32)) by done). cbn [negb orb andb].
  rewrite A2, A4, A6, A7, A9, A12, A13, !Z.eqb_refl. repeat (rewrite bool_decide_true by done).
  cbn [negb orb andb]. unfold Before, After. rewrite (proj2 (Z.ltb_lt now (w_ReceiptExpiresAt w))) by lia.
  by rewrite !(proj2 (Z.ltb_ge _ _)) by lia.
Qed.

Section Signing.
Context (L : library).

(** The decoder reads this text as this value. *)
Definition reads {A} (Decode : bytes → option A) (data : bytes) (x : A) : Prop :=
  rejectDuplicateMembers L data = false ∧ Decode data = Some x.

Lemma ParseUnsignedReceipt_live r :
  ValidateUnsignedReceipt r = true → text_ok 128 (RequestID r) → text_ok 128 (AuthorityKeyID r) →
  reads (Decode_receipt L) (CanonicalJSON (receipt_json r)) r →
  ParseUnsignedReceipt L (CanonicalJSON (receipt_json r)) = Ok r.
Proof.
  intros Hv Hi Hk [Hd Hr]. unfold ParseUnsignedReceipt, MaximumResponseBytes. rewrite Hd, Hr, Hv.
  destruct (receipt_width r Hv Hi Hk) as [Hw _]. pose proof (canonical_nonempty (receipt_json r) eq_refl) as Hne.
  rewrite (proj2 (Z.eqb_neq _ 0)), (proj2 (Z.ltb_ge _ _)) by lia. by rewrite bool_decide_true.
Qed.

Definition signer_response (service : ReceiptSignerService) (unsigned sg : bytes) : signerResponse :=
  {| sr_Schema := SignerResponseSchema; sr_KeyID := s_keyID service;
     sr_SignatureAlgorithm := SignatureAlgorithm; sr_SignatureB64URL := EncodeToString sg;
     sr_UnsignedReceiptSHA256 := hex_encode (Sum256 unsigned); sr_Result := SignerResponseResult |}.

Lemma constant_width s : forallb identifier_byte (bytes_of s) = true → slen s ≤ 100 → blen (CanonicalJSON (JText s)) ≤ 102.
Proof. intros Hi Hl. by apply (text_width 100), text_ok_of. Qed.

Lemma signer_request_width signer unsigned :
  validIdentifier (rs_keyID signer) = true → blen unsigned ≤ 4000 →
  0 < blen (CanonicalJSON (signer_request_json (signer_request_of signer unsigned))) ≤ MaximumSignerBodyBytes.
Proof.
  intros Hk Hu. split; [apply sorted_nonempty|].
  apply identifier_text, text_width in Hk.
  pose proof (text_width _ _ (digest_text _ (hex_encode_valid _ (Sum256_length unsigned)))) as H1.
  pose proof (text_width _ _ (encoded_text unsigned)) as H2.
  pose proof (text_width _ _ (encoded_text SignatureDomain)) as H3. change (blen SignatureDomain) with 39 in H3.
  pose proof (constant_width SignerRequestSchema eq_refl ltac:(by vm_compute)).
  pose proof (constant_width SignatureAlgorithm eq_refl ltac:(by vm_compute)).
  pose proof (constant_width SignerRequestResult eq_refl ltac:(by vm_compute)).
  unfold signer_request_json, signer_request_of, MaximumSignerBodyBytes.
  cbn [sq_Schema sq_KeyID sq_SignatureAlgorithm sq_SignatureDomainB64URL sq_UnsignedReceiptB64URL
    sq_UnsignedReceiptSHA256 sq_Result]. widths.
Qed.

Lemma signer_response_width service unsigned sg :
  validIdentifier (s_keyID service) = true → blen sg = 64 →
  0 < blen (CanonicalJSON (signer_response_json (signer_response service unsigned sg))) ≤ MaximumSignerBodyBytes.
Proof.
  intros Hk Hsg. split; [apply sorted_nonempty|].
  apply identifier_text, text_width in Hk.
  pose proof (text_width _ _ (digest_text _ (hex_encode_valid _ (Sum256_length unsigned)))) as H1.
  pose proof (text_width _ _ (encoded_text sg)) as H2.
  pose proof (constant_width SignerResponseSchema eq_refl ltac:(by vm_compute)).
  pose proof (constant_width SignatureAlgorithm eq_refl ltac:(by vm_compute)).
  pose proof (constant_width SignerResponseResult eq_refl ltac:(by vm_compute)).
  unfold signer_response_json, signer_response, MaximumSignerBodyBytes.
  cbn [sr_Schema sr_KeyID sr_SignatureAlgorithm sr_SignatureB64URL sr_UnsignedReceiptSHA256 sr_Result]. widths.
Qed.

(** The signing service answers a request whose receipt is authorized twice. *)
Lemma SignRequest_live service signer r first backend second sg :
  let unsigned := CanonicalJSON (receipt_json r) in
  let body := CanonicalJSON (signer_request_json (signer_request_of signer unsigned)) in
  s_keyID service = rs_keyID signer → validIdentifier (s_keyID service) = true → blen (s_publicKey service) = 32 →
  ValidateUnsignedReceipt r = true → text_ok 128 (RequestID r) → AuthorityKeyID r = s_keyID service →
  reads (Decode_receipt L) unsigned r → reads (Decode_signer_request L) body (signer_request_of signer unsigned) →
  AuthorizeSigning first r = None → AuthorizeSigning second r = None →
  backend (SignatureDomain ++ unsigned) = Some sg → blen sg = 64 →
  ed25519_Verify L (s_publicKey service) (SignatureDomain ++ unsigned) sg = true →
  SignRequest L service first backend second body
    = Ok (CanonicalJSON (signer_response_json (signer_response service unsigned sg))).
Proof.
  intros unsigned body Hsk Hk Hpk Hv Hi Hak Hr [Hd Hsq] Ha1 Ha2 Hb Hsg Hver.
  assert (text_ok 128 (AuthorityKeyID r)) as Hk128 by (rewrite Hak; by apply identifier_text).
  destruct (receipt_width r Hv Hi Hk128) as [Hw _]. fold unsigned in Hw.
  destruct (signer_request_width signer unsigned) as [B1 B2]; [by rewrite <- Hsk|lia|]. fold body in B1, B2.
  unfold SignRequest, parseSignerRequest. rewrite Hk, Hpk, Hd, Hsq. cbn [negb orb Z.eqb Pos.eqb].
  rewrite (proj2 (Z.eqb_neq _ 0)), (proj2 (Z.ltb_ge _ _)) by lia. cbn [orb].
  cbn [signer_request_of sq_Schema sq_KeyID sq_SignatureAlgorithm sq_SignatureDomainB64URL sq_UnsignedReceiptB64URL
    sq_UnsignedReceiptSHA256 sq_Result].
  fold (signer_request_of signer unsigned). fold body. repeat (rewrite bool_decide_true by done).
  rewrite <- Hsk, Hk, hex_encode_valid by apply Sum256_length. cbn [negb orb].
  rewrite DecodeString_EncodeToString. repeat (rewrite bool_decide_true by done).
  pose proof (canonical_nonempty (receipt_json r) eq_refl) as Hne. fold unsigned in Hne.
  rewrite (proj2 (Z.eqb_neq (blen unsigned) 0)), (proj2 (Z.ltb_ge _ (blen unsigned))) by (unfold MaximumResponseBytes; lia).
  cbn [negb orb]. unfold unsigned at 1. rewrite ParseUnsignedReceipt_live by done.
  repeat (rewrite bool_decide_true by done). cbn [negb orb]. rewrite Ha1. fold unsigned. rewrite Hb, Hsg, Hver, Ha2.
  cbn [negb orb Z.eqb Pos.eqb]. cbv zeta.
  cbn [sq_UnsignedReceiptSHA256 signer_request_of]. fold (signer_response service unsigned sg).
  destruct (signer_response_width service unsigned sg Hk Hsg) as [R1 R2].
  rewrite (proj2 (Z.eqb_neq _ 0)), (proj2 (Z.ltb_ge _ _)) by lia. by rewrite !bool_decide_true.
Qed.

(** The answer is accepted by the client. *)
Lemma signature_of_live signer service payload unsigned sg response :
  s_keyID service = rs_keyID signer → validIdentifier (s_keyID service) = true → blen sg = 64 →
  ed25519_Verify L (rs_publicKey signer) payload sg = true →
  let body := CanonicalJSON (signer_response_json (signer_response service unsigned sg)) in
  reads (Decode_signer_response L) body (signer_response service unsigned sg) →
  verifiedSignerResponseTLS response = true → Wire.StatusCode response = 200 →
  Wire.r_Header response = Wire.w_Header (json_answer setSignerResponseHeaders body) →
  Wire.r_TransferEncoding response = [] → Wire.r_ContentLength response = blen body →
  Wire.r_Body response = Some body → signature_of L signer payload unsigned response = Ok sg.
Proof.
  intros Hsk Hk Hsg Hver body [Hd Hr] Htls Hst Hh Hte Hcl Hb.
  destruct (signer_response_width service unsigned sg Hk Hsg) as [B1 B2]. fold body in B1, B2.
  unfold signature_of. rewrite Hst, Htls, Hh, Hte, Hcl, Hb.
  cbn [json_answer Wire.w_Header]. unfold setSignerResponseHeaders.
  rewrite !Wire.single_other by done. rewrite !Wire.single_set. rewrite !Wire.single_other, Wire.single_set by done.
  repeat (rewrite bool_decide_true by done).
  rewrite (proj2 (Z.leb_gt _ _)), (proj2 (Z.ltb_ge _ _)) by lia. cbn [negb orb Z.eqb Pos.eqb].
  unfold read_exact. rewrite Wire.read_all by lia. rewrite Z.eqb_refl, (proj2 (Z.ltb_ge _ _)) by lia.
  cbn [negb orb]. unfold parseSignerResponse. rewrite Hd, Hr.
  rewrite (proj2 (Z.eqb_neq _ 0)), (proj2 (Z.ltb_ge _ _)) by lia. cbn [orb]. fold body.
  cbn [signer_response sr_Schema sr_KeyID sr_SignatureAlgorithm sr_SignatureB64URL sr_UnsignedReceiptSHA256 sr_Result].
  fold (signer_response service unsigned sg). repeat (rewrite bool_decide_true by done).
  rewrite Hk, hex_encode_valid by apply Sum256_length. cbn [negb orb].
  rewrite (proj2 (canonical_b64_iff _ 64)) by (by exists sg). cbn [negb sr_KeyID sr_UnsignedReceiptSHA256 sr_SignatureB64URL signer_response].
  repeat (rewrite bool_decide_true by done). cbn [negb orb].
  by rewrite DecodeString_EncodeToString, Hsg, Hver.
Qed.

End Signing.

(** ** The whole way *)

(** One call to the signer: whether it gets through, the connection as both ends see it,
    what the signer's two queries see of the ledger, and what the key service answers. *)
Record exchange : Type := {
  x_lost : bool;
  at_client : Wire.TLSState;
  at_server : option Conn;
  x_ready : bool;
  x_first : Database → option (Database * Time);
  x_second : Database → option (Database * Time);
  x_backend : bytes → option bytes;
}.

Definition signer_link (L : library) (handler : ReceiptSignerHandler) (x : exchange) (db : Database)
    (q : Wire.Request) : option Wire.Response :=
  if x_lost x then None
  else Some (Wire.delivered (at_client x)
               (serveSigner L handler (x_ready x) (x_first x db) (x_backend x) (x_second x db) (at_server x) q)).

(** A query that sees the ledger, after the reservation, within the window of a receipt
    observed at [t] for a plan until [planExpires]. *)
Definition timely (t until planExpires : Time) (read : Database → option (Database * Time)) : Prop :=
  ∀ db, ∃ db' now, read db = Some (db', now) ∧ later db db' ∧ t ≤ now < until ∧ now ≤ planExpires.

(** The connection works, and both ends are who they should be. *)
Definition connected (handler : ReceiptSignerHandler) (x : exchange) : Prop :=
  x_lost x = false ∧
  verifiedSignerAuthorityTLS (at_server x) (authorityCertificateSHA256 handler) = true ∧
  Wire.TLSVersion (at_client x) = VersionTLS13 ∧ 0 < Wire.PeerCertificates (at_client x) ∧
  0 < Wire.VerifiedChains (at_client x).

Definition signer_url (u : Wire.URL) : Prop :=
  Wire.u_Path u = SignerEndpointPath ∧ Wire.u_RawPath u = "" ∧ Wire.u_RawQuery u = "" ∧ Wire.u_Fragment u = "".

(** A well-formed request of a station. *)
Definition station_request (request : Wire.Request) (q : Request) : Prop :=
  Wire.Method request = "POST" ∧ exact_path EndpointPath request = true ∧
  valid_json_headers MaximumRequestBytes request = true ∧
  read_exact MaximumRequestBytes (Wire.ContentLength request) (Wire.Body request)
    = Some (CanonicalJSON (request_json q)).

Lemma station_body limit n body data : read_exact limit n body = Some data → n = blen data ∧ blen data ≤ limit.
Proof.
  unfold read_exact. destruct (Wire.read_limited _ _) as [d|]; [|done]. guard E. intros [= <-].
  by split_bools.
Qed.

Lemma certificate_nonempty tls certificate : verifiedStationTLS tls = Some certificate → 0 < blen certificate.
Proof.
  unfold verifiedStationTLS. destruct tls as [c|]; [|done].
  destruct (c_PeerCertificates c) as [|p ps]; [done|]. destruct (c_VerifiedChains c) as [|[|v vs] chains]; [done..|].
  destruct (_ && _) eqn:E; [|done]. intros [= <-]. by split_bools.
Qed.

(** What a request asks of the decoders: that they read back the four texts. *)
Definition decoded (L : library) (signer : RemoteSigner) (service : ReceiptSignerService)
    (r : Receipt) (sg : bytes) : Prop :=
  let unsigned := CanonicalJSON (receipt_json r) in
  reads L (Decode_receipt L) unsigned r ∧
  reads L (Decode_signer_request L)
    (CanonicalJSON (signer_request_json (signer_request_of signer unsigned))) (signer_request_of signer unsigned) ∧
  reads L (Decode_signer_response L)
    (CanonicalJSON (signer_response_json (signer_response service unsigned sg))) (signer_response service unsigned sg).

(** The signer holds the key that the client expects. *)
Definition same_key (signer : RemoteSigner) (service : ReceiptSignerService) : Prop :=
  s_keyID service = rs_keyID signer ∧ s_publicKey service = rs_publicKey signer ∧
  blen (rs_publicKey signer) = 32 ∧ validIdentifier (rs_keyID signer) = true.

Lemma Sign_live L signer handler x db r sg u :
  same_key signer (service handler) → connected handler x →
  url_Parse L (rs_endpoint signer) = Some u → signer_url u →
  ValidateUnsignedReceipt r = true → text_ok 128 (RequestID r) → AuthorityKeyID r = rs_keyID signer →
  decoded L signer (service handler) r sg →
  AuthorizeSigning (x_first x db) r = None → AuthorizeSigning (x_second x db) r = None →
  let payload := SignatureDomain ++ CanonicalJSON (receipt_json r) in
  x_backend x payload = Some sg → blen sg = 64 → ed25519_Verify L (rs_publicKey signer) payload sg = true →
  Sign L signer (signer_link L handler x db) payload = Ok sg.
Proof.
  intros (Hsk & Hpk & Hlen & Hk) (Hlost & Htls & Hver & Hpeer & Hchain) Hu (Hu1 & Hu2 & Hu3 & Hu4)
    Hv Hi Hak (Hd1 & Hd2 & Hd3) Ha1 Ha2 payload Hb Hsg Hok.
  assert (text_ok 128 (AuthorityKeyID r)) as Hk128 by (rewrite Hak; by apply identifier_text).
  destruct (receipt_width r Hv Hi Hk128) as [Hw _].
  pose proof (canonical_nonempty (receipt_json r) eq_refl) as Hne. set (unsigned := CanonicalJSON (receipt_json r)) in *.
  destruct (signer_request_width signer unsigned Hk ltac:(lia)) as [B1 B2].
  unfold Sign. rewrite Hk. subst payload. rewrite blen_app.
  rewrite (proj2 (Z.leb_gt _ _)) by lia. rewrite take_app_length, bool_decide_true, drop_app_length by done.
  cbn [negb orb]. unfold unsigned at 1. rewrite ParseUnsignedReceipt_live by done. fold unsigned.
  rewrite bool_decide_true by done. cbn [negb]. cbv zeta.
  rewrite (proj2 (Z.eqb_neq _ 0)), (proj2 (Z.ltb_ge _ _)) by lia. cbn [orb]. rewrite Hu.
  unfold signer_link. rewrite Hlost.
  set (body := CanonicalJSON (signer_request_json (signer_request_of signer unsigned))) in *.
  assert (serveSigner L handler (x_ready x) (x_first x db) (x_backend x) (x_second x db) (at_server x)
    (new_request "POST" u body signer_headers)
    = json_answer setSignerResponseHeaders
        (CanonicalJSON (signer_response_json (signer_response (service handler) unsigned sg)))) as ->.
  { unfold serveSigner. cbv zeta. rewrite Htls. cbn [negb].
    unfold new_request, exact_path, valid_json_headers, signer_headers. cbn [Wire.Method Wire.Path Wire.RawPath Wire.RawQuery
      Wire.Fragment Wire.Header Wire.ContentLength Wire.TransferEncoding Wire.Body].
    rewrite (bool_decide_false ("POST" = "GET")) by done. cbn [andb].
    rewrite Hu1, Hu2, Hu3, Hu4, Wire.single_set, !Wire.single_other, !Wire.single_set by done.
    repeat (rewrite bool_decide_true by done).
    rewrite (proj2 (Z.leb_gt _ _)), (proj2 (Z.ltb_ge _ _)) by lia. cbn [negb orb andb].
    unfold read_exact. rewrite Wire.read_all by lia. rewrite Z.eqb_refl, (proj2 (Z.ltb_ge _ _)) by lia. cbn [negb orb].
    unfold body. rewrite (SignRequest_live L (service handler) signer r _ _ _ sg);
      try (done || congruence || by rewrite Hsk || by rewrite Hpk). }
  eapply signature_of_live; try done; [by rewrite Hsk|].
  unfold verifiedSignerResponseTLS, Wire.delivered. cbn [Wire.r_TLS].
  by rewrite Hver, !(proj2 (Z.ltb_lt 0 _)) by done.
Qed.

(** The window of a receipt is the one in its row. *)
Lemma attested_window authority q d t row now :
  parseTimestamp (FormatTimestamp t) = Some t →
  parseTimestamp (FormatTimestamp (t + receiptLifetime authority)) = Some (t + receiptLifetime authority) →
  attests row (receipt_of authority q d t) → t ≤ now < t + receiptLifetime authority →
  now ≤ timestamp_or_zero (ExpiresAt (q_Authorization q)) → in_window row now.
Proof.
  intros P1 P2 A Hw Hx. pose proof (at_observed _ _ A) as H1. pose proof (at_until _ _ A) as H2.
  pose proof (at_expires _ _ A) as H3. cbn in H1, H2, H3. rewrite P1 in H1. rewrite P2 in H2.
  injection H1 as H1. injection H2 as H2. rewrite (timestamp_parsed _ _ H3) in Hx. unfold in_window. lia.
Qed.

(** The authority reserves the request and passes on what the signer answers. *)
Lemma Issue_live authority signing db a q nonce certificate now sg :
  0 < blen certificate →
  ValidateRequest q = true → validIdentifier (keyID authority) = true → lifetime_ok (receiptLifetime authority) →
  q_NonceB64URL q = EncodeToString nonce → healthy (a 3%nat) now → plan_covers q now →
  let db1 := others (a 3%nat) db in
  enrolled db1 (q_Station q) (Sum256 certificate) → fresh (requests db1) q nonce →
  TruncateSecond now + receiptLifetime authority < end_of_9999 → blen sg = 64 →
  let d := Sum256 (CanonicalJSON (request_json q)) in
  let r := receipt_of authority q d (TruncateSecond now) in
  ∃ row, let db' := {| stations := stations db1; requests := requests db1 ++ [row] |} in
    row_checks row = true ∧ attests row r ∧ ValidateUnsignedReceipt r = true ∧ later db1 db' ∧
    (∀ t, TruncateSecond now ≤ t < TruncateSecond now + receiptLifetime authority →
       t ≤ timestamp_or_zero (ExpiresAt (q_Authorization q)) → in_window row t) ∧
    (signing db' (SignatureDomain ++ CanonicalJSON (receipt_json r)) = Ok sg →
     Issue authority signing db a q d certificate = (db', Ok (CanonicalJSON (receipt_json (with_signature r sg))))).
Proof.
  intros Hc0 Hq Hkid Hl Hn Hhealthy Hplan db1 Hen Hfresh Hend Hsg d r.
  destruct (ValidateRequest_ok q Hq) as (issued & expires & n & Hs & Hid & Hnl & Hn').
  destruct (validateSubject_ok _ _ _ _ _ _ Hs) as (_ & _ & Hi & Hx & _).
  destruct (Reserve_live authority db a q nonce certificate now) as (policy & plan & Hpol & Hpl & Hplan' & Hll & Hres);
    [done..|]. fold db1 in Hres. set (row := row_of _ _ _ _ _) in Hres. exists row.
  assert (plan_covers q (TruncateSecond now)) as Hcov by (by eapply plan_covers_floor).
  destruct (receipt_valid authority q d (TruncateSecond now)) as (Hv & P1 & P2);
    [done..|apply Sum256_length|done|apply TruncateSecond_mod|done|]. fold r in Hv.
  assert (row_checks row = true) as Hrow by (by apply row_checks_ok).
  assert (attests row r) as Hat by (by apply row_attests). split_and!; [done..| |intros t Ht Hx'; exact (attested_window authority q d _ row t P1 P2 Hat Ht Hx')|].
  - eapply rtc_once, (Insertion _ row). unfold insert_row. rewrite Hrow. destruct Hen as (st & Hst & _).
    rewrite bool_decide_false by (cbn; by rewrite Hst). by rewrite (proj2 (row_unique_iff _ _)).
  - intros Hsign. assert (blen nonce = 32) as Hn32 by (rewrite Hn in Hn'; apply EncodeToString_inj in Hn' as ->; done).
    assert (blen (CanonicalJSON (receipt_json (with_signature r sg))) ≤ 4000) as Hw
      by (apply receipt_width; [done|by apply identifier_text|by apply identifier_text|done]).
    pose proof (canonical_nonempty (receipt_json (with_signature r sg)) eq_refl) as Hne.
    unfold Issue. rewrite Hq, Hn, DecodeString_EncodeToString, Hn32, bool_decide_true by done.
    rewrite (proj2 (Z.eqb_neq _ 0)) by lia. cbn [negb orb Z.eqb Pos.eqb]. cbv zeta.
    fold (reservation_of authority q nonce certificate). unfold d at 1. fold (reservation_of authority q nonce certificate).
    rewrite Hres, TruncateSecond_idem. unfold plan_covers in Hcov. unfold Before, After.
    rewrite !(proj2 (Z.ltb_ge _ _)) by lia. cbn [orb]. fold r. rewrite Hsign, Hsg. cbn [negb Z.eqb Pos.eqb].
    by rewrite (proj2 (Z.eqb_neq _ 0)), (proj2 (Z.ltb_ge _ _)) by (unfold MaximumResponseBytes; lia).
Qed.

(** Every check on the way lets the request through. *)
Lemma serveTime_live L authority signer handler lifetime x db a tls certificate request q nonce now sg u :
  NewAuthority (rs_keyID signer) lifetime = Some authority →
  same_key signer (service handler) → connected handler x →
  url_Parse L (rs_endpoint signer) = Some u → signer_url u →
  used_once (requests db) → later db (others (a 3%nat) db) → healthy (a 3%nat) now →
  verifiedStationTLS tls = Some certificate → station_request request q →
  ValidateRequest q = true → q_NonceB64URL q = EncodeToString nonce → plan_covers q now →
  enrolled (others (a 3%nat) db) (q_Station q) (Sum256 certificate) →
  fresh (requests (others (a 3%nat) db)) q nonce →
  let observed := TruncateSecond now in
  let r := receipt_of authority q (Sum256 (CanonicalJSON (request_json q))) observed in
  let payload := SignatureDomain ++ CanonicalJSON (receipt_json r) in
  observed + lifetime < end_of_9999 →
  timely observed (observed + lifetime) (timestamp_or_zero (ExpiresAt (q_Authorization q))) (x_first x) →
  timely observed (observed + lifetime) (timestamp_or_zero (ExpiresAt (q_Authorization q))) (x_second x) →
  reads L (Decode_request L) (CanonicalJSON (request_json q)) q → decoded L signer (service handler) r sg →
  x_backend x payload = Some sg → blen sg = 64 → ed25519_Verify L (rs_publicKey signer) payload sg = true →
  ∃ db', serveTime L authority (λ db, Sign L signer (signer_link L handler x db)) db a tls request
    = (db', json_answer setResponseHeaders (CanonicalJSON (receipt_json (with_signature r sg)))).
Proof.
  intros Hnew Hkey Hconn Hu Hurl Hused Hcalm Hhealthy Htls (Hm & Hpath & Hhead & Hread) Hq Hn Hplan Hen Hfresh
    observed r payload Hend Hfirst Hsecond [Hd0 Hdq] Hdec Hb Hsg Hver.
  apply NewAuthority_ok in Hnew as (-> & Hkid & Hl).
  set (authority := {| keyID := rs_keyID signer; receiptLifetime := lifetime |}) in *.
  destruct (ValidateRequest_ok q Hq) as (_ & _ & _ & _ & Hid & _).
  destruct (Issue_live authority (λ db, Sign L signer (signer_link L handler x db)) db a q nonce certificate now sg)
    as (row & Hrow & Hat & Hv & Hlater & Hwin & Hissue); [by eapply certificate_nonempty|done..|].
  set (db' := {| stations := _; requests := _ |}) in *. fold observed r in Hat, Hv, Hissue.
  assert (used_once (requests db')) as Hused' by (eapply used_once_later; [|exact Hused]; unfold later in *; by etrans).
  assert (∀ read, timely observed (observed + lifetime) (timestamp_or_zero (ExpiresAt (q_Authorization q))) read →
    AuthorizeSigning (read db') r = None) as Hauth.
  { intros read Ht. destruct (Ht db') as (d2 & n2 & -> & Hlater2 & Hw & Hx2).
    apply (AuthorizeSigning_live _ _ row); [by eapply used_once_later| |done..|].
    - destruct (later_requests _ _ Hlater2) as [new ->]. cbn. apply elem_of_app. left. apply elem_of_app. right. by left.
    - by apply Hwin. }
  exists db'. unfold serveTime. rewrite Htls, Hpath, Hhead, Hread, bool_decide_true by done. cbn [negb orb].
  apply station_body in Hread as [_ Hr2]. pose proof (canonical_nonempty (request_json q) eq_refl) as Hq0.
  unfold ParseRequest. rewrite Hd0, Hdq, Hq.
  rewrite (proj2 (Z.eqb_neq _ 0)), (proj2 (Z.ltb_ge _ _)) by lia. rewrite bool_decide_true by done. cbn [negb orb].
  rewrite Hissue; [done|]. eapply Sign_live; try done; [by apply identifier_text|by apply Hauth|by apply Hauth].
Qed.

(** C23: an enrolled station gets its receipt. When its plan is in force, its request and
    nonce are new, and the database, the connection to the signer and the key service
    work, the answer is the receipt for this request with the database's time, signed:
    no check on the way, of the authority, the client, the signer or its ledger, refuses
    what the others let through, provided that the decoders read back what was written
    and both queries of the signer fall into the receipt's seconds. *)
Theorem station_gets_receipt L authority signer handler lifetime x db a tls certificate request q nonce now sg u :
  NewAuthority (rs_keyID signer) lifetime = Some authority →
  same_key signer (service handler) → connected handler x →
  url_Parse L (rs_endpoint signer) = Some u → signer_url u →
  used_once (requests db) → later db (others (a 3%nat) db) → healthy (a 3%nat) now →
  verifiedStationTLS tls = Some certificate → station_request request q →
  ValidateRequest q = true → q_NonceB64URL q = EncodeToString nonce → plan_covers q now →
  enrolled (others (a 3%nat) db) (q_Station q) (Sum256 certificate) →
  fresh (requests (others (a 3%nat) db)) q nonce →
  let observed := TruncateSecond now in
  let r := receipt_of authority q (Sum256 (CanonicalJSON (request_json q))) observed in
  let payload := SignatureDomain ++ CanonicalJSON (receipt_json r) in
  observed + lifetime < end_of_9999 →
  timely observed (observed + lifetime) (timestamp_or_zero (ExpiresAt (q_Authorization q))) (x_first x) →
  timely observed (observed + lifetime) (timestamp_or_zero (ExpiresAt (q_Authorization q))) (x_second x) →
  reads L (Decode_request L) (CanonicalJSON (request_json q)) q → decoded L signer (service handler) r sg →
  x_backend x payload = Some sg → blen sg = 64 → ed25519_Verify L (rs_publicKey signer) payload sg = true →
  ∃ db', serveTime L authority (λ db, Sign L signer (signer_link L handler x db)) db a tls request
    = (db', json_answer setResponseHeaders (CanonicalJSON (receipt_json (with_signature r sg)))).
Proof. apply serveTime_live. Qed.

(** ** Witnesses *)

Definition ex_nonce : bytes := replicate 32 (byte_of 7).
Definition ex_digest : string := hex_encode (replicate 32 (byte_of 171)).

Definition ex_request : Request :=
  {| q_Schema := RequestSchema; q_Environment := Environment; q_Scope := Scope; q_RequestID := "request-1";
     q_NonceB64URL := EncodeToString ex_nonce;
     q_Ledger := {| PolicySHA256 := ex_digest; PolicyID := "policy-1"; LedgerID := "ledger-1" |};
     q_Authorization := {| PlanSHA256 := ex_digest; PlanID := "plan-1"; IssuedAt := "2026-01-01T00:00:00Z";
                           ExpiresAt := "2026-01-01T01:00:00Z" |};
     q_Transaction := {| AttemptID := "attempt-1"; DeviceID := "xz-0a1b2c3d4e5f"; BaseMAC := "0A:1B:2C:3D:4E:5F" |};
     q_Station := {| ID := "station-1"; FixtureID := "fixture-1"; FixtureVersion := "v1" |};
     q_Result := RequestResult |}.

Lemma ex_request_valid : ValidateRequest ex_request = true.
Proof. vm_compute. reflexivity. Qed.

Lemma ex_request_length : blen (CanonicalJSON (request_json ex_request)) = 777.
Proof. vm_compute. reflexivity. Qed.

(** 00:10:00.5 on the day of the plan. *)
Definition ex_now : Time := from_unix 1767226200 + 500 * millisecond.
Definition ex_certificate : bytes := bytes_of "station certificate".
Definition ex_pinned : bytes := bytes_of "authority certificate".
Definition ex_key : bytes := replicate 32 (byte_of 9).

(** A stand-in for Ed25519: the key and the beginning of the message. *)
Definition ex_sign (message : bytes) : bytes := ex_key ++ take 32 (message ++ ex_key).

Lemma ex_sign_length m : blen (ex_sign m) = 64.
Proof.
  unfold ex_sign, blen. rewrite length_app, length_take, length_app.
  change (length ex_key) with 32%nat. lia.
Qed.

Definition ex_signer : RemoteSigner :=
  {| rs_keyID := "key-1"; rs_publicKey := ex_key; rs_endpoint := "https://signer"; rs_readyURL := "" |}.
Definition ex_service : ReceiptSignerService := {| s_keyID := "key-1"; s_publicKey := ex_key |}.
Definition ex_handler : ReceiptSignerHandler :=
  {| service := ex_service; authorityCertificateSHA256 := Sum256 ex_pinned |}.
Definition ex_authority : Authority := {| keyID := "key-1"; receiptLifetime := 5 * second |}.

Definition ex_receipt : Receipt :=
  receipt_of ex_authority ex_request (Sum256 (CanonicalJSON (request_json ex_request))) (TruncateSecond ex_now).
Definition ex_unsigned : bytes := CanonicalJSON (receipt_json ex_receipt).
Definition ex_signature : bytes := ex_sign (SignatureDomain ++ ex_unsigned).

Definition ex_url : Wire.URL :=
  {| Wire.u_Scheme := "https"; Wire.u_Host := "signer"; Wire.u_Path := SignerEndpointPath; Wire.u_RawPath := "";
     Wire.u_HasUser := false; Wire.u_RawQuery := ""; Wire.u_Fragment := ""; Wire.u_String := "https://signer" |}.

Definition ex_library : library :=
  {| url_Parse _ := Some ex_url; url_String := Wire.u_String; url_Opaque _ := ""; url_Hostname := Wire.u_Host;
     url_Port _ := ""; ed25519_Verify key message sg := bool_decide (key = ex_key ∧ sg = ex_sign message);
     json_tokens _ := {| StrictJSON.rest := [StrictJSON.OpenObject; StrictJSON.CloseObject]; StrictJSON.eof := true |};
     Decode_request _ := Some ex_request; Decode_receipt _ := Some ex_receipt;
     Decode_signer_request _ := Some (signer_request_of ex_signer ex_unsigned);
     Decode_signer_response _ := Some (signer_response ex_service ex_unsigned ex_signature) |}.

Definition ex_db : Database :=
  {| stations := {[ "station-1" := {| st_FixtureID := "fixture-1"; st_FixtureVersion := "v1";
                                      st_CertificateSHA256 := Sum256 ex_certificate; st_Enabled := true |} ]};
     requests := [] |}.
Definition ex_attempts (_ : nat) : attempt :=
  {| others db := db; begins := true; clock := Ok ex_now; on_select := None; on_insert := None; on_commit := None;
     timed_out := false |}.
Definition ex_conn (certificate : bytes) : Conn :=
  {| c_Version := VersionTLS13; c_PeerCertificates := [certificate]; c_VerifiedChains := [ [certificate] ] |}.
Definition ex_exchange : exchange :=
  {| x_lost := false; at_server := Some (ex_conn ex_pinned); x_ready := true;
     at_client := {| Wire.TLSVersion := VersionTLS13; Wire.PeerCertificates := 1; Wire.VerifiedChains := 1 |};
     x_first db := Some (db, ex_now + second); x_second db := Some (db, ex_now + 2 * second);
     x_backend message := Some (ex_sign message) |}.
Definition ex_http : Wire.Request :=
  new_request "POST" {| Wire.u_Scheme := "https"; Wire.u_Host := "time"; Wire.u_Path := EndpointPath;
    Wire.u_RawPath := ""; Wire.u_HasUser := false; Wire.u_RawQuery := ""; Wire.u_Fragment := "";
    Wire.u_String := "https://time" |} (CanonicalJSON (request_json ex_request)) signer_headers.

Lemma ex_conn_verified certificate :
  0 < blen certificate → verifiedStationTLS (Some (ex_conn certificate)) = Some certificate.
Proof.
  intros H. unfold verifiedStationTLS. cbn. rewrite (proj2 (Z.ltb_lt _ _)) by done. by rewrite bool_decide_true.
Qed.

Lemma ex_station_request : station_request ex_http ex_request.
Proof.
  unfold station_request, ex_http, new_request, exact_path, valid_json_headers, signer_headers.
  cbn [Wire.Method Wire.Path Wire.RawPath Wire.RawQuery Wire.Fragment Wire.Header Wire.ContentLength Wire.TransferEncoding
    Wire.Body Wire.u_Path Wire.u_RawPath Wire.u_RawQuery Wire.u_Fragment].
  rewrite Wire.single_set, !Wire.single_other, !Wire.single_set by done. repeat (rewrite bool_decide_true by done).
  pose proof ex_request_length as Hl. split_and!; [done|done| |].
  - rewrite Hl. done.
  - unfold read_exact. rewrite Wire.read_all by (rewrite Hl; done).
    rewrite Z.eqb_refl, (proj2 (Z.ltb_ge _ _)) by (rewrite Hl; done). done.
Qed.

Lemma ex_connected : connected ex_handler ex_exchange.
Proof.
  unfold connected, ex_handler, ex_exchange, verifiedSignerAuthorityTLS.
  cbn [x_lost at_server at_client authorityCertificateSHA256]. rewrite ex_conn_verified by done.
  unfold equalDigest. rewrite Sum256_length, bool_decide_true by done. done.
Qed.

Lemma ex_enrolled : enrolled ex_db (q_Station ex_request) (Sum256 ex_certificate).
Proof. eexists. split; [by apply lookup_singleton_eq|done]. Qed.

Lemma ex_plan : plan_covers ex_request ex_now.
Proof. vm_compute. done. Qed.

Lemma ex_timely k :
  k = second ∨ k = 2 * second →
  timely (TruncateSecond ex_now) (TruncateSecond ex_now + 5 * second)
    (timestamp_or_zero (ExpiresAt (q_Authorization ex_request))) (λ db, Some (db, ex_now + k)).
Proof.
  intros Hk db. exists db, (ex_now + k). split; [done|]. split; [apply rtc_refl|].
  destruct Hk; subst k; vm_compute; done.
Qed.

Lemma ex_verifies m : ed25519_Verify ex_library (rs_publicKey ex_signer) m (ex_sign m) = true.
Proof. cbn. by rewrite bool_decide_true. Qed.

Lemma ex_clean data : rejectDuplicateMembers ex_library data = false.
Proof. reflexivity. Qed.

Lemma used_once_nil : used_once [].
Proof. intros w w' Hw. by apply not_elem_of_nil in Hw. Qed.

Lemma ex_decoded : decoded ex_library ex_signer ex_service ex_receipt ex_signature.
Proof. unfold decoded, reads. cbv zeta. split_and!; done. Qed.

(** What the exchange asks of the example, one by one. *)
Ltac ex_premises :=
  [> reflexivity
  |repeat split
  |apply ex_connected
  |reflexivity
  |repeat split
  |apply used_once_nil
  |apply rtc_refl
  |repeat split
  |by apply ex_conn_verified
  |apply ex_station_request
  |apply ex_request_valid
  |reflexivity
  |apply ex_plan
  |apply ex_enrolled
  |intros v Hv; by apply not_elem_of_nil in Hv
  |vm_compute; reflexivity
  |apply ex_timely; by left
  |apply ex_timely; by right
  |split; [apply ex_clean|reflexivity]
  |apply ex_decoded
  |reflexivity
  |apply ex_sign_length
  |apply ex_verifies].

(** The whole exchange. *)
Lemma ex_served :
  ∃ db', serveTime ex_library ex_authority
    (λ db, Sign ex_library ex_signer (signer_link ex_library ex_handler ex_exchange db)) ex_db ex_attempts
    (Some (ex_conn ex_certificate)) ex_http
    = (db', json_answer setResponseHeaders (CanonicalJSON (receipt_json (with_signature ex_receipt ex_signature)))).
Proof.
  apply (serveTime_live ex_library ex_authority ex_signer ex_handler (5 * second) ex_exchange ex_db ex_attempts
    (Some (ex_conn ex_certificate)) ex_certificate ex_http ex_request ex_nonce ex_now ex_signature ex_url).
  all: ex_premises.
Qed.

Lemma station_gets_receipt_witness :
  ∃ db', serveTime ex_library ex_authority
    (λ db, Sign ex_library ex_signer (signer_link ex_library ex_handler ex_exchange db)) ex_db ex_attempts
    (Some (ex_conn ex_certificate)) ex_http
    = (db', json_answer setResponseHeaders (CanonicalJSON (receipt_json (with_signature ex_receipt ex_signature)))).
Proof.
  apply (station_gets_receipt ex_library ex_authority ex_signer ex_handler (5 * second) ex_exchange ex_db ex_attempts
    (Some (ex_conn ex_certificate)) ex_certificate ex_http ex_request ex_nonce ex_now ex_signature ex_url).
  all: ex_premises.
Defined.

Lemma ex_calm : calm ex_attempts.
Proof. intros k db. apply rtc_refl. Qed.

Lemma factory_receipt_is_true_witness :
  ∃ db' w, Wire.Status w = 200 ∧
    ∃ certificate q nonce now sg,
      verifiedStationTLS (Some (ex_conn ex_certificate)) = Some certificate ∧
      read_exact MaximumRequestBytes (Wire.ContentLength ex_http) (Wire.Body ex_http)
        = Some (CanonicalJSON (request_json q)) ∧
      q_NonceB64URL q = EncodeToString nonce ∧
      reserved ex_authority ex_db db' ex_attempts q (Sum256 certificate) nonce now ∧
      second ≤ receiptLifetime ex_authority ≤ 10 * second ∧
      let r := receipt_of ex_authority q (Sum256 (CanonicalJSON (request_json q))) (TruncateSecond now) in
      Wire.w_Body w = CanonicalJSON (receipt_json (with_signature r sg)) ∧
      ed25519_Verify ex_library (rs_publicKey ex_signer) (SignatureDomain ++ CanonicalJSON (receipt_json r)) sg = true.
Proof.
  destruct ex_served as [db' Hs]. exists db'. eexists. split; cycle 1.
  - eapply (factory_receipt_is_true ex_library ex_authority ex_signer (5 * second)
      (signer_link ex_library ex_handler ex_exchange) ex_db ex_attempts).
    + reflexivity.
    + apply ex_calm.
    + exact Hs.
    + reflexivity.
  - reflexivity.
Defined.

(** *** Two requests to the signer *)

Definition ex_policy : bytes := replicate 32 (byte_of 171).
Definition ex_row : requestRow :=
  row_of (reservation_of ex_authority ex_request ex_nonce ex_certificate) ex_policy ex_policy
    (TruncateSecond ex_now) (5 * second).
Definition ex_ledger : Database := {| stations := stations ex_db; requests := [ex_row] |}.

Lemma ex_receipt_valid : ValidateUnsignedReceipt ex_receipt = true ∧ attests ex_row ex_receipt ∧ row_checks ex_row = true.
Proof.
  assert (lifetime_ok (receiptLifetime ex_authority)) as Hl by (vm_compute; done).
  assert (plan_covers ex_request (TruncateSecond ex_now)) as Hp by (by vm_compute).
  destruct (receipt_valid ex_authority ex_request (Sum256 (CanonicalJSON (request_json ex_request)))
    (TruncateSecond ex_now)) as (Hv & P1 & P2);
    [apply ex_request_valid|done|done|apply Sum256_length|done|apply TruncateSecond_mod|by vm_compute|].
  split_and!; [exact Hv| |].
  - apply (row_attests ex_authority); [done|apply ex_request_valid|apply hex_decode_encode|apply hex_decode_encode|done|done].
  - apply (row_checks_ok ex_authority); (apply ex_request_valid || done).
Qed.

Lemma ex_authorized k :
  k = second ∨ k = 2 * second → AuthorizeSigning (Some (ex_ledger, ex_now + k)) ex_receipt = None.
Proof.
  intros Hk. destruct ex_receipt_valid as (Hv & Ha & Hc). apply (AuthorizeSigning_live _ _ ex_row); [|by left|done..|].
  - intros w w' Hw Hw' _. apply list_elem_of_singleton in Hw as ->. by apply list_elem_of_singleton in Hw' as ->.
  - clear Hv Ha Hc. unfold in_window. change (w_ObservedAt ex_row) with (TruncateSecond ex_now).
    change (w_ReceiptExpiresAt ex_row) with (TruncateSecond ex_now + 5 * second).
    change (w_AuthorizationExpires ex_row) with (timestamp_or_zero "2026-01-01T01:00:00Z").
    destruct Hk; subst k; vm_compute; done.
Qed.

Definition ex_sign_body : bytes := CanonicalJSON (signer_request_json (signer_request_of ex_signer ex_unsigned)).

Lemma ex_signed k :
  k = second ∨ k = 2 * second →
  SignRequest ex_library ex_service (Some (ex_ledger, ex_now + second)) (λ m, Some (ex_sign m))
    (Some (ex_ledger, ex_now + k)) ex_sign_body
    = Ok (CanonicalJSON (signer_response_json (signer_response ex_service ex_unsigned ex_signature))).
Proof.
  intros Hk. destruct ex_receipt_valid as (Hv & _ & _).
  apply (SignRequest_live ex_library ex_service ex_signer ex_receipt).
  - reflexivity.
  - reflexivity.
  - reflexivity.
  - exact Hv.
  - apply identifier_text. reflexivity.
  - reflexivity.
  - apply ex_decoded.
  - apply ex_decoded.
  - apply ex_authorized. by left.
  - by apply ex_authorized.
  - reflexivity.
  - apply ex_sign_length.
  - apply ex_verifies.
Qed.

Lemma ex_parsed : ∃ q r unsigned, parseSignerRequest ex_library ex_sign_body = Some (q, r, unsigned).
Proof.
  destruct (SignRequest_ok _ _ _ _ _ _ _ (ex_signed second (or_introl eq_refl))) as (q & r & u & _ & H & _).
  by exists q, r, u.
Qed.

Lemma one_receipt_per_request_witness :
  ∃ q r r' unsigned unsigned', parseSignerRequest ex_library ex_sign_body = Some (q, r, unsigned) ∧
    parseSignerRequest ex_library ex_sign_body = Some (q, r', unsigned') ∧ r = r' ∧ unsigned = unsigned'.
Proof.
  destruct ex_parsed as (q & r & u & Hp). exists q, r, r, u, u. split; [exact Hp|]. split; [exact Hp|].
  apply (one_receipt_per_request ex_library ex_ledger ex_service ex_service (Some (ex_ledger, ex_now + second))
    (Some (ex_ledger, ex_now + second)) (λ m, Some (ex_sign m)) (λ m, Some (ex_sign m)) ex_ledger ex_ledger
    (ex_now + second) (ex_now + 2 * second) ex_sign_body ex_sign_body
    (CanonicalJSON (signer_response_json (signer_response ex_service ex_unsigned ex_signature)))
    (CanonicalJSON (signer_response_json (signer_response ex_service ex_unsigned ex_signature))) q q).
  - intros w w' Hw Hw' _. apply list_elem_of_singleton in Hw as ->. by apply list_elem_of_singleton in Hw' as ->.
  - apply rtc_refl.
  - apply rtc_refl.
  - apply ex_signed. by left.
  - apply ex_signed. by right.
  - exact Hp.
  - exact Hp.
  - intros n n' H1 H2 _. congruence.
  - by left.
Defined.

End FactoryLiveness.
