(* ===== verification/FirmwareOrigin.v ===== *)
(** * FirmwareOrigin: the server of firmware images

    Models [internal/firmwareorigin]: the catalogue and its verified files
    (catalog.go), the download handler with its copy loop (server.go) and the check of
    the public authority (config.go). A handler is a sequence of steps, so that handlers,
    revocations and each other's chunks interleave. The file system is read through
    arguments. [OpenVerified] hashes the file and seeks to its start, and the copy reads
    it again: every round of the copy is given what the open file holds at that time,
    which need not be what was hashed. The counters of the metrics page are not
    modelled. *)

From stdpp Require Import base gmap strings list.
From Stdlib Require Import ZArith Lia.
From Stdlib.Strings Require Import Byte.
From S2P Require Import Prelude GoBase GoCrypto GoPath Auth Provisioning StrictJSON.

Module FirmwareOrigin.
Import Ident Paths.

Definition maximumCatalogBytes : Z := 1024 * 1024.
Definition maximumObjects : Z := 64.
Definition maximumImageBytes : Z := 2147483647.
Definition maximumPathBytes : Z := 512.

(** ** The catalogue *)

Record catalogEntry : Type := {
  e_ReleaseID : string;
  e_ImageSHA256 : string;
  e_ImageSize : Z;
  e_URLPath : string;
  e_ImageFile : string;
}.

Record catalogDocument : Type := {
  Version : Z;
  Objects : list catalogEntry;
}.

Record Object : Type := {
  ReleaseID : string;
  ImageSHA256 : string;
  ImageSize : Z;
  URLPath : string;
  imageFile : string;
}.

Record Catalog : Type := {
  byPath : gmap string Object;
  objects : list Object;
}.

(** A file as [Open] and [Stat] find it; [Data] is what reading it to the end delivers,
    [None] when that fails; [Seeks] says whether it can be read from its start again. *)
Record File : Type := {
  IsRegular : bool;
  Size : Z;
  Data : option bytes;
  Seeks : bool;
}.

Definition url_byte (b : byte) : bool :=
  let c := bval b in
  ((97 <=? c) && (c <=? 122)) || ((65 <=? c) && (c <=? 90)) || ((48 <=? c) && (c <=? 57))
  || (c =? 47) || (c =? 45) || (c =? 95) || (c =? 46).

Definition validURLPath (value : string) : bool :=
  IF (slen value <? 2) || (maximumPathBytes <? slen value) || negb (IsAbs value)
     || negb (bool_decide (Clean value = value)) || HasSuffix value "/"
     || Contains value "//" || ContainsAny value "%\?#"
    RETURN false ;;
  IF negb (forallb url_byte (bytes_of value)) RETURN false ;;
  HasSuffix value ".bin".

(** What the file system answers: [EvalSymlinks], [Open] with the file, and [Stat]
    alone. *)
Record filesystem : Type := {
  EvalSymlinks : string → option string;
  Open : string → option File;
}.

Definition resolveContainedFile (fs : filesystem) (root name : string) : option string :=
  IF IsAbs name || Contains name "\" RETURN None ;;
  let clean := Clean name in
  IF bool_decide (clean = ".") || bool_decide (clean = "..") || negb (bool_decide (clean = name))
     || String.prefix "../" clean
    RETURN None ;;
  match EvalSymlinks fs (Join root clean) with
  | None => None
  | Some resolved =>
      match Rel root resolved with
      | None => None
      | Some relative =>
          IF bool_decide (relative = "..") || String.prefix "../" relative RETURN None ;;
          Some resolved
      end
  end.

(** [None] is any error, [Some data] a file that is open at its start; [data] is what it
    held when it was hashed. *)
Definition OpenVerified (fs : filesystem) (object : Object) : option bytes :=
  IF bool_decide (imageFile object = "") || negb (ValidIdentifier (ReleaseID object) 64)
     || negb (validSHA256 (ImageSHA256 object)) || (ImageSize object <? 1024)
     || (maximumImageBytes <? ImageSize object)
    RETURN None ;;
  match Open fs (imageFile object) with
  | None => None
  | Some file =>
      IF negb (IsRegular file) || negb (Size file =? ImageSize object) RETURN None ;;
      match Data file with
      | None => None
      | Some data =>
          let hashed := take (Z.to_nat (ImageSize object + 1)) data in
          IF negb (blen hashed =? ImageSize object)
             || negb (bool_decide (hex_encode (Sum256 hashed) = ImageSHA256 object))
            RETURN None ;;
          IF negb (Seeks file) RETURN None ;;
          Some data
      end
  end.

(** One round of the loop of [LoadCatalog]. *)
Definition load_entry (fs : filesystem) (root : string) (seenRelease : gset string)
    (catalog : Catalog) (entry : catalogEntry) : option (gset string * Catalog) :=
  IF negb (ValidIdentifier (e_ReleaseID entry) 64) || negb (validSHA256 (e_ImageSHA256 entry))
     || (e_ImageSize entry <? 1024) || (maximumImageBytes <? e_ImageSize entry)
     || negb (validURLPath (e_URLPath entry)) || bool_decide (e_ImageFile entry = "")
     || (4096 <? slen (e_ImageFile entry))
    RETURN None ;;
  IF bool_decide (e_ReleaseID entry ∈ seenRelease) RETURN None ;;
  IF bool_decide (is_Some (byPath catalog !! e_URLPath entry)) RETURN None ;;
  match resolveContainedFile fs root (e_ImageFile entry) with
  | None => None
  | Some imageFile =>
      let object := {| ReleaseID := e_ReleaseID entry; ImageSHA256 := e_ImageSHA256 entry;
                       ImageSize := e_ImageSize entry; URLPath := e_URLPath entry;
                       imageFile := imageFile |} in
      match OpenVerified fs object with
      | None => None
      | Some _ =>
          Some ({[e_ReleaseID entry]} ∪ seenRelease,
                {| byPath := <[e_URLPath entry := object]> (byPath catalog);
                   objects := objects catalog ++ [object] |})
      end
  end.

Fixpoint load_entries (fs : filesystem) (root : string) (seenRelease : gset string)
    (catalog : Catalog) (entries : list catalogEntry) : option Catalog :=
  match entries with
  | [] => Some catalog
  | entry :: entries =>
      match load_entry fs root seenRelease catalog entry with
      | Some (seenRelease, catalog) => load_entries fs root seenRelease catalog entries
      | None => None
      end
  end.

Definition readBoundedFile (read : option bytes) (maximum : Z) : option bytes :=
  match read with
  | None => None
  | Some content =>
      let payload := take (Z.to_nat (maximum + 1)) content in
      IF (blen payload =? 0) || (maximum <? blen payload) RETURN None ;;
      Some payload
  end.

(** The walk is that of [strictjson]. *)
Definition rejectDuplicateJSONNames (decoder : StrictJSON.Decoder) : bool :=
  is_ok (StrictJSON.RejectDuplicateFields decoder).

(** [read] is the catalogue file, [root] the resolved directory it lies in; [tokens] and
    [decode] are the JSON decoder. *)
Definition LoadCatalog (tokens : bytes → StrictJSON.Decoder)
    (decode : bytes → option catalogDocument) (fs : filesystem) (catalogPath : string)
    (read : option bytes) (root : option string) : option Catalog :=
  IF bool_decide (catalogPath = "") RETURN None ;;
  match readBoundedFile read maximumCatalogBytes with
  | None => None
  | Some payload =>
      IF negb (rejectDuplicateJSONNames (tokens payload)) RETURN None ;;
      match decode payload, root with
      | Some document, Some root =>
          IF negb (Version document =? 1) || (Z.of_nat (length (Objects document)) =? 0)
             || (maximumObjects <? Z.of_nat (length (Objects document)))
            RETURN None ;;
          load_entries fs root ∅ {| byPath := ∅; objects := [] |} (Objects document)
      | _, _ => None
      end
  end.

Definition Lookup (catalog : Catalog) (urlPath : string) : option Object :=
  byPath catalog !! urlPath.

Definition Ready (fs : filesystem) (catalog : Catalog) : bool :=
  negb (bool_decide (objects catalog = []))
  && forallb (λ object,
       match Open fs (imageFile object) with
       | Some file => IsRegular file && (Size file =? ImageSize object)
       | None => false
       end) (objects catalog).

(** ** The public authority *)

Definition host_byte (b : byte) : bool :=
  let c := bval b in
  ((97 <=? c) && (c <=? 122)) || ((48 <=? c) && (c <=? 57)) || (c =? 45).

Definition validLabel (label : bytes) : bool :=
  IF bool_decide (label = []) || (63 <? blen label)
     || bool_decide (head label = Some (byte_of 45)) || bool_decide (last label = Some (byte_of 45))
    RETURN false ;;
  forallb host_byte label.

(** [ToLower] leaves the value as it is: there is no upper-case letter in it. Labels are
    ASCII, so the other letters of Unicode need no table. *)
Definition validAuthority (value : string) : bool :=
  let upper := existsb (λ b, (65 <=? bval b) && (bval b <=? 90)) (bytes_of value) in
  let parts := split_at (byte_of 58) (bytes_of value) in
  IF bool_decide (value = "") || (253 <? slen value) || upper
     || ContainsAny value ("/\@?# " +:+ string_of [byte_of 9; byte_of 13; byte_of 10])
     || (2 <? Z.of_nat (length parts))
    RETURN false ;;
  let host := hd [] parts in
  IF bool_decide (host = []) || bool_decide (head host = Some (byte_of 46))
     || bool_decide (last host = Some (byte_of 46)) RETURN false ;;
  IF negb (forallb validLabel (split_at (byte_of 46) host)) RETURN false ;;
  match tl parts with
  | [] => true
  | portText :: _ =>
      match ParseInt (string_of portText) with
      | None => false
      | Some port =>
          (1 <=? port) && (port <=? 65535)
          && bool_decide (FormatInt port = string_of portText)
      end
  end.

(** ** The copy loop *)

(** What happens in one round of the loop: whether the context is done at each of its
    three checks, how much [Read] delivers and its error, how much [Write] takes and
    whether it fails. *)
Inductive read_error : Type := EOF | ReadFailed.

Record round : Type := {
  done_before : bool;
  read_up_to : Z;
  read_err : option read_error;
  done_read : bool;
  write_up_to : Z;
  write_err : bool;
  done_written : bool;
}.

Inductive outcome : Type := Continue | Finished | Failed.

Definition buffer_size : Z := 32 * 1024.

(** One round of [copyExactContext] when [written] bytes of [data] have been written and
    more are expected: what it writes, and how it goes on. *)
Definition copy_round (data : bytes) (expected written : Z) (e : round) : bytes * outcome :=
  IF done_before e RETURN ([], Failed) ;;
  let chunk := Z.min buffer_size (expected - written) in
  let read := take (Z.to_nat (Z.min chunk (read_up_to e))) (drop (Z.to_nat written) data) in
  let '(output, stopped) :=
    if 0 <? blen read then
      if done_read e then ([], true)
      else
        let output := take (Z.to_nat (write_up_to e)) read in
        (output, write_err e || negb (blen output =? blen read) || done_written e)
    else ([], false) in
  IF stopped RETURN (output, Failed) ;;
  let written := written + blen output in
  match read_err e with
  | Some EOF => (output, if written =? expected then Finished else Failed)
  | Some ReadFailed => (output, Failed)
  | None =>
      IF blen read =? 0 RETURN (output, Failed) ;;
      (output, if written <? expected then Continue else Finished)
  end.

(** The loop, as long as the rounds given last; [None] while it still runs. *)
Fixpoint copy_loop (data : bytes) (expected : Z) (sent : bytes) (rounds : list round) :
    bytes * option bool :=
  IF negb (blen sent <? expected) RETURN (sent, Some true) ;;
  match rounds with
  | [] => (sent, None)
  | e :: rounds =>
      let '(output, o) := copy_round data expected (blen sent) e in
      match o with
      | Continue => copy_loop data expected (sent ++ output) rounds
      | Finished => (sent ++ output, Some true)
      | Failed => (sent ++ output, Some false)
      end
  end.

Definition copyExactContext (data : bytes) (expected : Z) (rounds : list round) :
    bytes * option bool :=
  IF expected <? 0 RETURN ([], Some false) ;;
  copy_loop data expected [] rounds.

(** ** The server *)

Record Request : Type := {
  Method : string;
  Host : string;
  Path : string;
  RawQuery : string;
  RawPath : string;
  ContentLength : Z;
  TransferEncoding : list string;
  Header : string → list string;
}.

Definition singleHeader (request : Request) (name : string) : option string :=
  match Header request name with
  | [value] => if bool_decide (value = "") then None else Some value
  | _ => None
  end.

Definition validDownloadRequest (request : Request) (publicAuthority : string) : bool :=
  IF negb (bool_decide (Method request = "GET")) || negb (bool_decide (Host request = publicAuthority))
     || negb (bool_decide (RawQuery request = "")) || negb (bool_decide (RawPath request = ""))
     || negb (ContentLength request =? 0) || negb (bool_decide (TransferEncoding request = []))
    RETURN false ;;
  IF negb (bool_decide (singleHeader request "Accept" = Some "application/octet-stream"))
    RETURN false ;;
  forallb (λ name, bool_decide (Header request name = []))
    ["Range"; "If-Range"; "If-Match"; "If-None-Match"; "If-Modified-Since";
     "If-Unmodified-Since"].

(** Where a handler is; the last three are its deferred calls. [data] is what was hashed
    when the file was opened; no step reads it. *)
Inductive place : Type :=
| Acquiring
| TakingSlot
| Opening
| Checking (data : bytes)
| Streaming (data : bytes)
| ReturningSlot
| ReturningDevice
| FinishingIdentity
| Done.

(** A [download] handler: [answer] is its status, [sent] the body so far, [served]
    whether the copy finished without an error. *)
Record handler : Type := {
  pc : place;
  h_deviceID : string;
  h_object : option Object;
  answer : option Z;
  sent : bytes;
  served : bool;
}.

Record Server : Type := {
  catalog : Catalog;
  verifier : Token.Verifier;
  MaxConcurrent : Z;
  PublicAuthority : string;
  concurrency : Z; (* the length of the channel *)
  devices : gset string;
  identity : option Provisioning.Tracker;
  handlers : gmap nat handler;
}.

(** [tracked] says whether there is an identity registry. *)
Definition New (fs : filesystem) (c : Catalog) (v : Token.Verifier) (maxConcurrent : Z)
    (publicAuthority : string) (tracked : bool) : option Server :=
  IF negb (bool_decide (Token.audience v = Token.OTAAudience)) || negb (Ready fs c)
     || (maxConcurrent <? 1) || (10000 <? maxConcurrent) || negb (validAuthority publicAuthority)
    RETURN None ;;
  Some {| catalog := c; verifier := v; MaxConcurrent := maxConcurrent;
          PublicAuthority := publicAuthority; concurrency := 0; devices := ∅;
          identity := if tracked then Some {| Provisioning.active := ∅; Provisioning.cancelled := ∅ |}
                      else None;
          handlers := ∅ |}.

Definition put (r : nat) (h : handler) (s : Server) : Server :=
  {| catalog := catalog s; verifier := verifier s; MaxConcurrent := MaxConcurrent s;
     PublicAuthority := PublicAuthority s; concurrency := concurrency s; devices := devices s;
     identity := identity s; handlers := <[r := h]> (handlers s) |}.
Definition set_concurrency n (s : Server) : Server :=
  {| catalog := catalog s; verifier := verifier s; MaxConcurrent := MaxConcurrent s;
     PublicAuthority := PublicAuthority s; concurrency := n; devices := devices s;
     identity := identity s; handlers := handlers s |}.
Definition set_devices ds (s : Server) : Server :=
  {| catalog := catalog s; verifier := verifier s; MaxConcurrent := MaxConcurrent s;
     PublicAuthority := PublicAuthority s; concurrency := concurrency s; devices := ds;
     identity := identity s; handlers := handlers s |}.
Definition set_identity t (s : Server) : Server :=
  {| catalog := catalog s; verifier := verifier s; MaxConcurrent := MaxConcurrent s;
     PublicAuthority := PublicAuthority s; concurrency := concurrency s; devices := devices s;
     identity := t; handlers := handlers s |}.

Definition goto (l : place) (h : handler) : handler :=
  {| pc := l; h_deviceID := h_deviceID h; h_object := h_object h; answer := answer h;
     sent := sent h; served := served h |}.
Definition reply (status : Z) (h : handler) : handler :=
  {| pc := pc h; h_deviceID := h_deviceID h; h_object := h_object h; answer := Some status;
     sent := sent h; served := served h |}.
Definition fail (status : Z) (l : place) (h : handler) : handler := goto l (reply status h).
Definition write (output : bytes) (ok : bool) (h : handler) : handler :=
  {| pc := pc h; h_deviceID := h_deviceID h; h_object := h_object h; answer := answer h;
     sent := sent h ++ output; served := ok |}.

Definition new_handler (d : string) (o : option Object) : handler :=
  {| pc := Acquiring; h_deviceID := d; h_object := o; answer := None; sent := [];
     served := false |}.

(** [Allowed] of the tracker: the registry [view] allows the device. *)
Definition Allowed (s : Server) (view : Provisioning.View) (deviceID : string) : bool :=
  match identity s with
  | Some _ => Provisioning.DeviceAllowed view deviceID
  | None => true
  end.

Definition identityRevoked (s : Server) (r : nat) (view : Provisioning.View) (deviceID : string) :
    bool :=
  match identity s with
  | Some t => bool_decide (r ∈ Provisioning.cancelled t)
              || negb (Provisioning.DeviceAllowed view deviceID)
  | None => false
  end.

Section handlers.
Context (json_Decode : bytes → option Token.Claims).

(** From the arrival to [identity.Start]. [gate] is the answer of the generation gate;
    [n1], [n2], [n3] are the clock readings of the verifier. *)
Definition arrive (r : nat) (gate : bool) (n1 n2 n3 : Time) (view : Provisioning.View)
    (request : Request) (s : Server) : Server :=
  let refuse status := put r (fail status Done (new_handler "" None)) s in
  IF negb gate RETURN refuse 503 ;;
  IF negb (validDownloadRequest request (PublicAuthority s)) RETURN refuse 400 ;;
  match singleHeader request "Authorization" with
  | None => refuse 401
  | Some authorization =>
      match Lookup (catalog s) (Path request) with
      | None =>
          match Token.VerifyAuthorization json_Decode (verifier s) n1 n2 n3 authorization with
          | Err _ => refuse 401
          | Ok claims =>
              IF negb (Allowed s view (Token.DeviceID claims)) RETURN refuse 401 ;;
              refuse 404
          end
      | Some object =>
          match Token.VerifyAuthorizationForRelease json_Decode (verifier s) n1 n2 n3
                  authorization (ReleaseID object) (ImageSHA256 object) with
          | Err _ => refuse 401
          | Ok claims =>
              let h := new_handler (Token.DeviceID claims) (Some object) in
              match identity s with
              | None => put r h s
              | Some t =>
                  let '(t, allowed) := Provisioning.Start t view (Token.DeviceID claims) r in
                  let s := set_identity (Some t) s in
                  IF negb allowed RETURN put r (fail 401 Done h) s ;;
                  put r h s
              end
          end
      end
  end.
End handlers.

Definition acquireDevice (deviceID : string) (s : Server) : Server * bool :=
  IF bool_decide (deviceID ∈ devices s) RETURN (s, false) ;;
  (set_devices ({[deviceID]} ∪ devices s) s, true).

Definition releaseDevice (deviceID : string) (s : Server) : Server :=
  set_devices (devices s ∖ {[deviceID]}) s.

Definition take_device (r : nat) (h : handler) (s : Server) : Server :=
  let '(s, ok) := acquireDevice (h_deviceID h) s in
  IF negb ok RETURN put r (fail 429 FinishingIdentity h) s ;;
  put r (goto TakingSlot h) s.

Definition take_slot (r : nat) (h : handler) (s : Server) : Server :=
  if concurrency s <? MaxConcurrent s
  then put r (goto Opening h) (set_concurrency (concurrency s + 1) s)
  else put r (fail 503 ReturningDevice h) s.

(** [OpenVerified] of the object, with the file system as it is then. *)
Definition open_image (r : nat) (h : handler) (object : Object) (fs : filesystem) (s : Server) :
    Server :=
  match OpenVerified fs object with
  | None => put r (fail 503 ReturningSlot h) s
  | Some data => put r (goto (Checking data) h) s
  end.

Definition check_again (r : nat) (h : handler) (data : bytes) (gate : bool)
    (view : Provisioning.View) (s : Server) : Server :=
  IF negb gate RETURN put r (fail 503 ReturningSlot h) s ;;
  IF identityRevoked s r view (h_deviceID h) RETURN put r (fail 401 ReturningSlot h) s ;;
  put r (goto (Streaming data) (reply 200 h)) s.

(** One round of the copy, when the file holds [content]. A revoked lease has a context
    that is done. *)
Definition stream_round (r : nat) (h : handler) (object : Object) (content : bytes) (e : round)
    (s : Server) : Server :=
  let revoked := match identity s with
                 | Some t => bool_decide (r ∈ Provisioning.cancelled t)
                 | None => false
                 end in
  let e := {| done_before := done_before e || revoked; read_up_to := read_up_to e;
              read_err := read_err e; done_read := done_read e; write_up_to := write_up_to e;
              write_err := write_err e; done_written := done_written e |} in
  let '(output, o) := copy_round content (ImageSize object) (blen (sent h)) e in
  match o with
  | Continue => put r (write output false h) s
  | Finished => put r (goto ReturningSlot (write output true h)) s
  | Failed => put r (goto ReturningSlot (write output false h)) s
  end.

Definition finish_identity (r : nat) (h : handler) (s : Server) : Server :=
  put r (goto Done h)
    match identity s with
    | Some t => set_identity (Some (Provisioning.finish t (h_deviceID h) r)) s
    | None => s
    end.

Definition ReconcileIdentity (allowed : string → bool) (s : Server) : Server * Z :=
  match identity s with
  | None => (s, 0)
  | Some t =>
      let '(t, revoked) := Provisioning.Reconcile t allowed in
      (set_identity (Some t) s, Z.of_nat (size revoked))
  end.

(** ** Runs *)

Inductive action : Type :=
| AArrive (r : nat) (gate : bool) (n1 n2 n3 : Time) (view : Provisioning.View)
    (request : Request)
| ADevice (r : nat)
| ASlot (r : nat)
| AOpen (r : nat) (fs : filesystem)
| ACheck (r : nat) (gate : bool) (view : Provisioning.View)
| ARound (r : nat) (content : bytes) (e : round)
| ASlotBack (r : nat)
| ADeviceBack (r : nat)
| AIdentity (r : nat)
| AReconcile (allowed : string → bool).

(** The handler that an action moves on. *)
Definition moves (json_Decode : bytes → option Token.Claims) (s : Server) (r : nat) (h : handler)
    (a : action) : option Server :=
  match a, pc h with
  | ADevice _, Acquiring => Some (take_device r h s)
  | ASlot _, TakingSlot => Some (take_slot r h s)
  | AOpen _ fs, Opening =>
      match h_object h with Some object => Some (open_image r h object fs s) | None => None end
  | ACheck _ gate view, Checking data => Some (check_again r h data gate view s)
  | ARound _ content e, Streaming _ =>
      match h_object h with
      | Some object => Some (stream_round r h object content e s)
      | None => None
      end
  | ASlotBack _, ReturningSlot =>
      Some (put r (goto ReturningDevice h) (set_concurrency (concurrency s - 1) s))
  | ADeviceBack _, ReturningDevice =>
      Some (put r (goto FinishingIdentity h) (releaseDevice (h_deviceID h) s))
  | AIdentity _, FinishingIdentity => Some (finish_identity r h s)
  | _, _ => None
  end.

Definition number (a : action) : nat :=
  match a with
  | AArrive r _ _ _ _ _ _ | ADevice r | ASlot r | AOpen r _ | ACheck r _ _ | ARound r _ _
  | ASlotBack r | ADeviceBack r | AIdentity r => r
  | AReconcile _ => 0
  end.

Definition step (json_Decode : bytes → option Token.Claims) (s : Server) (a : action) :
    option Server :=
  match a with
  | AArrive r gate n1 n2 n3 view request =>
      match handlers s !! r with
      | Some _ => None
      | None => Some (arrive json_Decode r gate n1 n2 n3 view request s)
      end
  | AReconcile allowed => Some (ReconcileIdentity allowed s).1
  | _ => match handlers s !! number a with
         | Some h => moves json_Decode s (number a) h a
         | None => None
         end
  end.

Fixpoint run (json_Decode : bytes → option Token.Claims) (s : Server) (acts : list action) :
    option Server :=
  match acts with
  | [] => Some s
  | a :: acts =>
      match step json_Decode s a with Some s => run json_Decode s acts | None => None end
  end.

End FirmwareOrigin.
