(* ===== verification/OriginTheorems.v ===== *)
(** * OriginTheorems: what the firmware origin serves

    About [FirmwareOrigin]: a catalogue that loads is consistent and verified, the copy
    loop ends and is exact, and over every interleaving of the handlers what is sent is
    an image that the token of the request names, and a revoked device gets no more
    of it. *)

From stdpp Require Import base gmap strings list.
From Stdlib Require Import ZArith Lia.
From Stdlib.Strings Require Import Byte.
From S2P Require Import Prelude GoBase GoCrypto GoPath Auth Bearer Provisioning StrictJSON.
From S2P Require Import Ota ControlPlane ControlTheorems FirmwareOrigin.

Module OriginTheorems.
Import Ident Paths FirmwareOrigin.

Create HintDb origin.

(** ** Verified files *)

(** What [OpenVerified] has checked of an image. *)
Lemma OpenVerified_sound fs object data :
  OpenVerified fs object = Some data →
  blen data = ImageSize object ∧ hex_encode (Sum256 data) = ImageSHA256 object ∧
  1024 ≤ ImageSize object ≤ maximumImageBytes ∧
  ∃ file, Open fs (imageFile object) = Some file ∧ IsRegular file = true ∧
    Size file = ImageSize object.
Proof.
  unfold OpenVerified. guard H1. destruct (Open fs _) as [file|] eqn:Ho; [|done].
  guard H2. destruct (Data file) as [d|]; [|done]. guard H3. guard H4. intros [= ->]. split_bools.
  assert (take (Z.to_nat (ImageSize object + 1)) data = data) as Hall.
  { apply take_ge. unfold blen in *. rewrite length_take in *. lia. }
  rewrite Hall in *. split_and!; try done; try lia. by exists file.
Qed.

(** ** The catalogue *)

(** An object as [LoadCatalog] admits it. *)
Definition admitted (fs : filesystem) (root : string) (o : Object) : Prop :=
  ValidIdentifier (ReleaseID o) 64 = true ∧ validURLPath (URLPath o) = true ∧
  (∃ data, OpenVerified fs o = Some data) ∧
  segments_of root `prefix_of` segments_of (imageFile o).

Record catalog_ok (fs : filesystem) (root : string) (seen : gset string) (c : Catalog) : Prop := {
  cat_index p o : Lookup c p = Some o ↔ o ∈ objects c ∧ URLPath o = p;
  cat_seen r : r ∈ seen ↔ r ∈ ReleaseID <$> objects c;
  cat_unique : NoDup (ReleaseID <$> objects c);
  cat_objects o : o ∈ objects c → admitted fs root o;
}.

Lemma resolveContainedFile_inside fs root name file :
  resolveContainedFile fs root name = Some file →
  segments_of root `prefix_of` segments_of file.
Proof.
  unfold resolveContainedFile. guard H1. guard H2. destruct (EvalSymlinks _ _) as [resolved|]; [|done].
  destruct (Rel root resolved) as [rel|] eqn:Hrel; [|done]. guard H3. intros [= <-]. split_bools.
  by eapply Rel_contained.
Qed.

Lemma load_entry_ok fs root seen c entry seen' c' :
  catalog_ok fs root seen c → load_entry fs root seen c entry = Some (seen', c') →
  catalog_ok fs root seen' c' ∧ length (objects c') = S (length (objects c)).
Proof.
  intros [Hi Hs Hu Ho]. unfold load_entry. guard H1. guard H2. guard H3.
  destruct (resolveContainedFile _ _ _) as [file|] eqn:Hf; [|done]. cbv zeta.
  destruct (OpenVerified _ _) as [data|] eqn:Hd; [|done]. intros [= <- <-].
  set (object := {| ReleaseID := e_ReleaseID entry |}) in *. split_bools.
  assert (Lookup c (URLPath object) = None) as Hnew.
  { destruct (Lookup c (URLPath object)) as [o|] eqn:E; [|done]. exfalso.
    by apply H3; exists o. }
  split; [|cbn; rewrite length_app; cbn; lia]. split; cbn [objects byPath].
  - intros p o. unfold Lookup. cbn. rewrite lookup_insert_Some, elem_of_app, list_elem_of_singleton.
    fold (Lookup c p). rewrite (Hi p o). split.
    + intros [ [<- <-] | [_ [? ?] ] ]; [|by auto]. split; [by right|done].
    + intros [ [Hin | ->] <-]; [|by left]. right. split; [|done]. intros Heq.
      assert (Lookup c (URLPath o) = Some o) as E by (by apply Hi).
      change (e_URLPath entry) with (URLPath object) in Heq. congruence.
  - intros r. rewrite fmap_app, elem_of_union, elem_of_singleton, elem_of_app, (Hs r). cbn.
    rewrite list_elem_of_singleton. tauto.
  - rewrite fmap_app. apply NoDup_app. split_and!; [done| |apply NoDup_singleton].
    intros r Hr. cbn. rewrite list_elem_of_singleton. intros ->. by apply Hs in Hr.
  - intros o. rewrite elem_of_app, list_elem_of_singleton. intros [Hin | ->]; [by apply Ho|].
    split_and!; try done; [by exists data|]. by eapply resolveContainedFile_inside.
Qed.

Lemma load_entries_ok fs root seen c entries c' :
  catalog_ok fs root seen c → load_entries fs root seen c entries = Some c' →
  (∃ seen', catalog_ok fs root seen' c') ∧
  length (objects c') = (length (objects c) + length entries)%nat.
Proof.
  revert seen c. induction entries as [|e entries IH]; intros seen c Hok; cbn [load_entries].
  - intros [= <-]. cbn. rewrite Nat.add_0_r. split; [by exists seen|done].
  - destruct (load_entry _ _ _ _ _) as [ [seen1 c1] | ] eqn:He; [|done].
    destruct (load_entry_ok _ _ _ _ _ _ _ Hok He) as [Hok1 Hl]. intros Hr.
    destruct (IH _ _ Hok1 Hr) as [? Hn]. split; [done|]. cbn. lia.
Qed.

Lemma catalog_ready fs root seen c :
  catalog_ok fs root seen c → objects c ≠ [] → Ready fs c = true.
Proof.
  intros Hok Hne. unfold Ready. rewrite bool_decide_false by done. cbn. apply forallb_forall.
  intros o Ho%list_elem_of_In. destruct (cat_objects _ _ _ _ Hok o Ho) as (_ & _ & [data Hd] & _).
  destruct (OpenVerified_sound _ _ _ Hd) as (_ & _ & _ & file & -> & -> & ->). by rewrite Z.eqb_refl.
Qed.

Lemma LoadCatalog_ok tokens decode fs catalogPath read root c :
  LoadCatalog tokens decode fs catalogPath read root = Some c →
  ∃ dir seen, root = Some dir ∧ catalog_ok fs dir seen c ∧
    1 ≤ Z.of_nat (length (objects c)) ≤ maximumObjects.
Proof.
  unfold LoadCatalog. guard H1. destruct (readBoundedFile _ _) as [payload|]; [|done]. guard H2.
  destruct (decode payload) as [document|]; [|done]. destruct root as [dir|]; [|done].
  guard H3. intros Hl. split_bools. apply load_entries_ok in Hl as [ [seen Hok] Hn].
  2: { split; cbn; [|set_solver..|apply NoDup_nil_2|set_solver].
       intros p o. unfold Lookup. cbn. rewrite lookup_empty. set_solver. }
  cbn in Hn. exists dir, seen. rewrite Hn. split_and!; done || lia.
Qed.

(** A catalogue that loads has between 1 and 64 images and is ready. Its index
    finds an image at a path exactly when the image is listed with that path, so no two
    share one; no two are of the same release; every image has a valid release and
    path, was read with the listed size and SHA-256, and its file, symbolic links
    resolved, lies under the directory of the catalogue. *)
Theorem LoadCatalog_sound tokens decode fs catalogPath read root c :
  LoadCatalog tokens decode fs catalogPath read (Some root) = Some c →
  1 ≤ Z.of_nat (length (objects c)) ≤ maximumObjects ∧ Ready fs c = true ∧
  (∀ p o, Lookup c p = Some o ↔ o ∈ objects c ∧ URLPath o = p) ∧
  NoDup (ReleaseID <$> objects c) ∧
  (∀ o, o ∈ objects c → ValidIdentifier (ReleaseID o) 64 = true ∧ validURLPath (URLPath o) = true ∧
     segments_of root `prefix_of` segments_of (imageFile o) ∧
     ∃ data, OpenVerified fs o = Some data ∧ blen data = ImageSize o ∧
       hex_encode (Sum256 data) = ImageSHA256 o).
Proof.
  intros (dir & seen & [= <-] & Hok & Hn)%LoadCatalog_ok. split_and!; [lia|lia| | | |].
  - eapply catalog_ready; [done|]. intros E. rewrite E in Hn. cbn in Hn. lia.
  - apply (cat_index _ _ _ _ Hok).
  - apply (cat_unique _ _ _ _ Hok).
  - intros o (?&?&[data Hd]&?)%(cat_objects _ _ _ _ Hok). split_and!; try done.
    destruct (OpenVerified_sound _ _ _ Hd) as (?&?&_). by exists data.
Qed.

(** ** The copy loop *)

(** What one round writes is what the file holds from the offset on; the loop goes on
    only after writing something, and finishes only with everything expected. *)
Lemma copy_round_reads data expected written e output o :
  copy_round data expected written e = (output, o) → 0 ≤ written ≤ expected →
  output `prefix_of` drop (Z.to_nat written) data ∧ written + blen output ≤ expected ∧
  (o = Continue → 0 < blen output ∧ written + blen output < expected) ∧
  (o = Finished → written + blen output = expected).
Proof.
  intros Hr Hle. revert Hr. unfold copy_round. set (rest := drop _ data).
  cbv zeta. set (rd := take _ rest).
  assert (rd `prefix_of` rest) as Hrd by apply prefix_take.
  assert (written + blen rd ≤ expected) as Hroom.
  { subst rd. unfold blen. rewrite length_take. lia. }
  assert (∀ n, take n rd `prefix_of` rest) as Hpre.
  { intros n. etransitivity; [apply prefix_take|done]. }
  assert (∀ n, blen (take n rd) ≤ blen rd) as Hlen.
  { intros n. unfold blen. rewrite length_take. lia. }
  pose proof (blen_nonneg rd). assert ([] `prefix_of` rest) as Hnil by apply prefix_nil.
  guard H0; [intros [= <- <-]; rewrite blen_nil; split_and!; try done; lia|].
  destruct (0 <? blen rd) eqn:Hpos; [destruct (done_read e)|]; split_bools; cbn [fst snd].
  - intros [= <- <-]. rewrite blen_nil. split_and!; try done; lia.
  - set (out := take _ rd). pose proof (Hlen (Z.to_nat (write_up_to e))) as Hout. fold out in Hout.
    assert (out `prefix_of` rest) by apply Hpre.
    destruct (_ || done_written e) eqn:Hstop; [intros [= <- <-]; split_and!; try done; lia|].
    split_bools. pose proof (Z.eqb_spec (blen rd) 0).
    destruct (read_err e) as [ [|] | ].
    + intros [= <- <-]. split_and!; try done; [lia|..];
        destruct (_ =? expected) eqn:E; split_bools; try done; lia.
    + intros [= <- <-]. split_and!; try done. lia.
    + guard H6; [lia|]. intros [= <- <-]. split_and!; try done; [lia|..];
        destruct (_ <? expected) eqn:E; split_bools; try done; lia.
  - rewrite blen_nil. destruct (read_err e) as [ [|] | ].
    + intros [= <- <-]. rewrite blen_nil. split_and!; try done; [lia|..];
        destruct (_ =? expected) eqn:E; split_bools; try done; lia.
    + intros [= <- <-]. rewrite blen_nil. split_and!; try done. lia.
    + guard H6; [|lia]. intros [= <- <-]. rewrite blen_nil. split_and!; try done. lia.
Qed.

(** While the file stays as it is, what is sent is a prefix of it. *)
Lemma copy_round_spec data expected sent e output o :
  copy_round data expected (blen sent) e = (output, o) →
  sent `prefix_of` data → blen sent ≤ expected →
  (sent ++ output) `prefix_of` data ∧ blen (sent ++ output) ≤ expected ∧
  (o = Continue → blen sent < blen (sent ++ output) < expected) ∧
  (o = Finished → blen (sent ++ output) = expected).
Proof.
  intros Hr [rest ->] Hle. pose proof (blen_nonneg sent).
  destruct (copy_round_reads _ _ _ _ _ _ Hr) as (Hp & Hn & Hc & Hf); [lia|].
  rewrite blen_app. split_and!; [|lia|intros Ho%Hc; lia|done].
  apply prefix_app. unfold blen in Hp. by rewrite Nat2Z.id, drop_app_length in Hp.
Qed.

(** A round in which nothing fails: the context lives, the file delivers something and
    the client takes all of it. *)
Definition healthy (e : round) : Prop :=
  done_before e = false ∧ done_read e = false ∧ done_written e = false ∧ 1 ≤ read_up_to e ∧
  read_err e = None ∧ buffer_size ≤ write_up_to e ∧ write_err e = false.

Lemma copy_round_healthy data expected sent e :
  healthy e → sent `prefix_of` data → blen sent < expected → expected ≤ blen data →
  (copy_round data expected (blen sent) e).2 ≠ Failed.
Proof.
  intros (H1 & H2 & H3 & H4 & H5 & H6 & H7) [rest ->] Hlt Hle. unfold copy_round.
  rewrite H1, H2, H3, H5, H7. cbv zeta. cbn [orb].
  replace (drop (Z.to_nat (blen sent)) (sent ++ rest)) with rest.
  2: { unfold blen. rewrite Nat2Z.id, drop_app_length. done. }
  set (rd := take _ rest). rewrite blen_app in Hle.
  assert (0 < blen rd ≤ buffer_size) as Hrd.
  { subst rd. assert (buffer_size = 32768) by done. unfold blen in *. rewrite length_take. lia. }
  rewrite (proj2 (Z.ltb_lt 0 _)) by lia. rewrite (take_ge rd).
  2: { unfold blen in Hrd. lia. }
  rewrite Z.eqb_refl. cbn [negb orb]. rewrite (proj2 (Z.eqb_neq (blen rd) 0)) by lia. cbn.
  by destruct (_ <? expected).
Qed.

Lemma copy_loop_spec data expected sent rounds :
  sent `prefix_of` data → blen sent ≤ expected → expected - blen sent ≤ Z.of_nat (length rounds) →
  ∃ all ok, copy_loop data expected sent rounds = (all, Some ok) ∧
    all `prefix_of` data ∧ blen all ≤ expected ∧ (ok = true → blen all = expected) ∧
    (Forall healthy rounds → expected ≤ blen data → ok = true).
Proof.
  revert sent. induction rounds as [|e rounds IH]; intros sent Hp Hle Hn; cbn [copy_loop].
  - cbn in Hn. rewrite (proj2 (Z.ltb_ge _ _)) by lia. cbn. exists sent, true. split_and!; try done; lia.
  - destruct (blen sent <? expected) eqn:Hlt; cbn [negb]; split_bools.
    2: { exists sent, true. split_and!; try done; lia. }
    destruct (copy_round _ _ _ _) as [output o] eqn:Hr.
    destruct (copy_round_spec _ _ _ _ _ _ Hr Hp Hle) as (Hp' & Hle' & Hc & Hf).
    assert (Forall healthy (e :: rounds) → expected ≤ blen data → o ≠ Failed) as Hh.
    { intros [He _]%Forall_cons_1 Hd. pose proof (copy_round_healthy data expected sent e He Hp Hlt Hd).
      by rewrite Hr in H. }
    destruct o.
    + cbn [length] in Hn. specialize (Hc eq_refl).
      destruct (IH (sent ++ output)) as (all & ok & E & ? & ? & ? & Hall); [done|done|lia|].
      exists all, ok. split_and!; try done. intros [_ Hfa]%Forall_cons_1. auto.
    + exists (sent ++ output), true. split_and!; auto.
    + exists (sent ++ output), false. split_and!; try done. intros Hfa Hd. by destruct (Hh Hfa Hd).
Qed.

(** C34: the copy loop ends: every round writes a byte at least or returns, so as many
    rounds as bytes are expected are enough whatever the file, the client and the
    context do. What it writes is a prefix of the file and never more than expected;
    without an error it is exactly as many bytes as expected; and with a file that is
    long enough and no failure in any round there is no error. *)
Theorem copy_exact_and_ends data expected rounds :
  expected ≤ Z.of_nat (length rounds) →
  ∃ sent ok, copyExactContext data expected rounds = (sent, Some ok) ∧
    sent `prefix_of` data ∧ blen sent ≤ Z.max 0 expected ∧
    (ok = true → blen sent = expected) ∧
    (0 ≤ expected ≤ blen data → Forall healthy rounds → ok = true).
Proof.
  intros Hn. unfold copyExactContext. destruct (expected <? 0) eqn:H0; split_bools.
  - exists [], false. rewrite blen_nil. split_and!; try done; [apply prefix_nil|lia..].
  - destruct (copy_loop_spec data expected [] rounds) as (all & ok & E & H1 & H2 & H3 & H4);
      [apply prefix_nil|rewrite blen_nil; lia..|].
    exists all, ok. split_and!; try done; [lia|]. intros [_ Hd] Hfa. auto.
Qed.

(** ** Runs *)

Section runs.
Context (json_Decode : bytes → option Token.Claims) (s0 : Server).
Abbreviation step := (step json_Decode).
Abbreviation run := (run json_Decode).
Implicit Types (s : Server) (h : handler) (acts : list action).

(** What a step cannot change. *)
Definition same_config s s' : Prop :=
  catalog s' = catalog s ∧ verifier s' = verifier s ∧ PublicAuthority s' = PublicAuthority s ∧
  (is_Some (identity s') ↔ is_Some (identity s)).

#[local] Instance same_config_preorder : PreOrder same_config.
Proof.
  split; [by intros s|]. intros s1 s2 s3 (A1&A2&A3&A4) (B1&B2&B3&B4).
  split_and!; try congruence. by rewrite B4.
Qed.

Lemma origin_step_config s a s' : step s a = Some s' → same_config s s'.
Proof.
  unfold same_config. intros Hs.
  destruct a; cbn in Hs; repeat (case_match; simplify_eq/=; try done);
    unfold arrive, take_device, take_slot, open_image, check_again, stream_round, finish_identity,
      acquireDevice, releaseDevice, ReconcileIdentity, Provisioning.Start in *;
    repeat (case_match; simplify_eq/=; try done); repeat (split_and!; try done);
    try (by intros; eexists); congruence.
Qed.

(** The request of handler [r] named [object] and carried a token for it. *)
Definition authorized acts (r : nat) (object : Object) (deviceID : string) : Prop :=
  ∃ n1 n2 n3 view request authorization claims,
    AArrive r true n1 n2 n3 view request ∈ acts ∧
    validDownloadRequest request (PublicAuthority s0) = true ∧
    singleHeader request "Authorization" = Some authorization ∧
    Lookup (catalog s0) (Path request) = Some object ∧
    Token.VerifyAuthorizationForRelease json_Decode (verifier s0) n1 n2 n3 authorization
      (ReleaseID object) (ImageSHA256 object) = Ok claims ∧
    Token.DeviceID claims = deviceID ∧
    (is_Some (identity s0) → Provisioning.DeviceAllowed view deviceID = true).

Definition opened acts (r : nat) (object : Object) (data : bytes) : Prop :=
  ∃ fs, AOpen r fs ∈ acts ∧ OpenVerified fs object = Some data.

Definition checked acts (r : nat) (deviceID : string) : Prop :=
  ∃ view, ACheck r true view ∈ acts ∧
    (is_Some (identity s0) → Provisioning.DeviceAllowed view deviceID = true).

(** Every byte sent was in the file, at its place, in a round of the copy. *)
Definition from_file acts (r : nat) (body : bytes) : Prop :=
  ∀ i b, body !! i = Some b → ∃ content e, ARound r content e ∈ acts ∧ content !! i = Some b.

(** The body a handler has sent: nothing, or what it read from a file that was verified. *)
Definition body_ok acts (r : nat) (object : Object) h : Prop :=
  (answer h ≠ Some 200 ∧ sent h = [] ∧ served h = false) ∨
  (answer h = Some 200 ∧ checked acts r (h_deviceID h) ∧ (∃ data, opened acts r object data) ∧
   blen (sent h) ≤ ImageSize object ∧ from_file acts r (sent h) ∧
   (served h = true → blen (sent h) = ImageSize object)).

Definition at_place acts (r : nat) (object : Object) h : Prop :=
  match pc h with
  | Acquiring | TakingSlot | Opening => answer h = None ∧ sent h = [] ∧ served h = false
  | Checking data =>
      answer h = None ∧ sent h = [] ∧ served h = false ∧ opened acts r object data
  | Streaming data =>
      answer h = Some 200 ∧ checked acts r (h_deviceID h) ∧ opened acts r object data ∧
      blen (sent h) ≤ ImageSize object ∧ from_file acts r (sent h) ∧ served h = false
  | _ => body_ok acts r object h
  end.

Definition handler_ok acts (r : nat) h : Prop :=
  match h_object h with
  | None => pc h = Done ∧ answer h ≠ Some 200 ∧ sent h = []
  | Some object => at_place acts r object h ∧
      ((pc h = Done ∧ answer h = Some 401) ∨ authorized acts r object (h_deviceID h))
  end.

Lemma origin_run_app s acts acts' :
  run s (acts ++ acts') = match run s acts with Some s' => run s' acts' | None => None end.
Proof.
  revert s. induction acts as [|a acts IH]; intros s; [done|]. cbn.
  by destruct (step s a) as [s'|].
Qed.

Lemma origin_run_ind (P : list action → Server → Prop) :
  P [] s0 →
  (∀ acts a s s', P acts s → step s a = Some s' → P (acts ++ [a]) s') →
  ∀ acts s, run s0 acts = Some s → P acts s.
Proof.
  intros H0 HS. induction acts as [|a acts IH] using rev_ind; intros s; [by intros [= <-]|].
  rewrite origin_run_app. destruct (run s0 acts) as [s1|] eqn:E; [|done]. cbn.
  destruct (step s1 a) as [s2|] eqn:Es; [|done]. intros [= <-]. eauto.
Qed.

Lemma origin_run_config acts s : run s0 acts = Some s → same_config s0 s.
Proof.
  apply (origin_run_ind (λ _ s, same_config s0 s)); [done|]. intros _ a s1 s2 H1 H2%origin_step_config.
  by etransitivity.
Qed.

(** *** What is known of a run stays known *)

Lemma authorized_grows acts more r o d : authorized acts r o d → authorized (acts ++ more) r o d.
Proof.
  intros (n1&n2&n3&view&q&au&c&Hin&H). exists n1, n2, n3, view, q, au, c.
  split; [|done]. apply elem_of_app. by left.
Qed.
Lemma opened_grows acts more r o d : opened acts r o d → opened (acts ++ more) r o d.
Proof. intros (fs&Hin&H). exists fs. split; [|done]. apply elem_of_app. by left. Qed.
Lemma checked_grows acts more r d : checked acts r d → checked (acts ++ more) r d.
Proof. intros (v&Hin&H). exists v. split; [|done]. apply elem_of_app. by left. Qed.

Lemma from_file_grows acts more r body : from_file acts r body → from_file (acts ++ more) r body.
Proof.
  intros H i b (c&e&Hin&Hc)%H. exists c, e. split; [|done]. apply elem_of_app. by left.
Qed.

#[local] Hint Resolve authorized_grows opened_grows checked_grows from_file_grows : origin.

Lemma body_grows acts more r o h : body_ok acts r o h → body_ok (acts ++ more) r o h.
Proof.
  intros [H|(H1&H2&[data H3]&H4&H5&H6)]; [by left|right]. split_and!; auto with origin.
  exists data. auto with origin.
Qed.
#[local] Hint Resolve body_grows : origin.

Lemma place_grows acts more r o h : at_place acts r o h → at_place (acts ++ more) r o h.
Proof.
  unfold at_place. destruct (pc h); auto with origin; intros; destruct_and?; split_and!;
    auto with origin.
Qed.

Lemma handler_grows acts more r h : handler_ok acts r h → handler_ok (acts ++ more) r h.
Proof.
  unfold handler_ok. destruct (h_object h); [|done]. intros [H1 [H2|H2] ].
  - split; [by apply place_grows|by left].
  - split; [by apply place_grows|right; auto with origin].
Qed.

(** *** The invariant *)

Definition origin_inv acts s : Prop :=
  same_config s0 s ∧ ∀ r h, handlers s !! r = Some h → handler_ok acts r h.

Lemma serving_put acts a s r h s' :
  origin_inv acts s → step s a = Some s' → handlers s' = <[r := h]> (handlers s) →
  handler_ok (acts ++ [a]) r h → origin_inv (acts ++ [a]) s'.
Proof.
  intros [Hc Hh] Hs E Hok. split; [by etransitivity; [|eapply origin_step_config] |].
  rewrite E. intros r' h' [ [<- <-] | [_ Hr] ]%lookup_insert_Some; [done|].
  by apply handler_grows, Hh.
Qed.

Lemma refused_ok acts r status : status ≠ 200 → handler_ok acts r (fail status Done (new_handler "" None)).
Proof. intros Hne. cbn. split_and!; congruence. Qed.

Lemma arrive_ok acts r gate n1 n2 n3 view request s :
  same_config s0 s → ∃ h,
  handlers (arrive json_Decode r gate n1 n2 n3 view request s) = <[r := h]> (handlers s) ∧
  handler_ok (acts ++ [AArrive r gate n1 n2 n3 view request]) r h.
Proof.
  intros (Ec & Ev & Ep & Ei). unfold arrive. cbv zeta.
  destruct gate; cbn [negb]; [|eexists; split; [done|by apply refused_ok] ].
  destruct (validDownloadRequest _ _) eqn:Hv; cbn [negb]; [|eexists; split; [done|by apply refused_ok] ].
  destruct (singleHeader _ _) as [au|] eqn:Ha; [|eexists; split; [done|by apply refused_ok] ].
  destruct (Lookup _ _) as [o|] eqn:Hl.
  2: { destruct (Token.VerifyAuthorization _ _ _ _ _ _) as [c|];
         [destruct (negb _)|]; (eexists; split; [done|by apply refused_ok]). }
  destruct (Token.VerifyAuthorizationForRelease _ _ _ _ _ _ _ _) as [claims|] eqn:Hver;
    [|eexists; split; [done|by apply refused_ok] ].
  rewrite Ec in Hl. rewrite Ep in Hv. rewrite Ev in Hver.
  set (a := AArrive _ _ _ _ _ _ _).
  assert ((is_Some (identity s0) → Provisioning.DeviceAllowed view (Token.DeviceID claims) = true) →
    handler_ok (acts ++ [a]) r (new_handler (Token.DeviceID claims) (Some o))) as Hok.
  { intros Hal. split; [done|]. right. exists n1, n2, n3, view, request, au, claims.
    split_and!; try done. set_solver. }
  destruct (identity s) as [t|] eqn:Hid.
  2: { eexists. split; [done|]. apply Hok. intros Hsome. by apply Ei in Hsome as [? ?]. }
  unfold Provisioning.Start. destruct (bool_decide (Token.DeviceID claims = "")); cbn [negb].
  { eexists. split; [done|]. split; left; cbn; split_and!; try done; congruence. }
  destruct (Provisioning.DeviceAllowed _ _) eqn:Hal; cbn [negb].
  - eexists. split; [done|]. by apply Hok.
  - eexists. split; [done|]. split; left; cbn; split_and!; try done; congruence.
Qed.

(** A round adds what the file holds then. *)
Lemma from_file_round acts r content e body output :
  ARound r content e ∈ acts → from_file acts r body →
  output `prefix_of` drop (length body) content → from_file acts r (body ++ output).
Proof.
  intros Hin Hb [rest Hp] i b [Hi|[Hge Hi] ]%lookup_app_Some; [by apply Hb|].
  exists content, e. split; [done|].
  replace i with (length body + (i - length body))%nat by lia.
  rewrite <- lookup_drop, Hp. by apply lookup_app_l_Some.
Qed.

Lemma origin_moves_ok acts s r h a s' :
  same_config s0 s → a ∈ acts → number a = r → handler_ok acts r h →
  moves json_Decode s r h a = Some s' →
  ∃ h', handlers s' = <[r := h']> (handlers s) ∧ handler_ok acts r h'.
Proof.
  intros (_ & _ & _ & Hid) Hin Hr. unfold handler_ok at 1, moves.
  destruct (h_object h) as [o|] eqn:Ho.
  2: { intros (Hpc & _). rewrite Hpc. by destruct a. }
  intros [Hp Ha] Hm.
  assert (pc h ≠ Done → authorized acts r o (h_deviceID h)) as Hauth.
  { intros Hpc. by destruct Ha as [ [? _] | ? ]. }
  assert (∀ h', pc h ≠ Done → h_object h' = Some o → h_deviceID h' = h_deviceID h →
    at_place acts r o h' → handler_ok acts r h') as Hnext.
  { intros h' Hpc Eo Ed Hp'. unfold handler_ok. rewrite Eo, Ed. split; [done|by right; auto]. }
  clear Ha. unfold at_place in Hp.
  destruct a, (pc h) eqn:Hpc; try done; cbn in Hr; subst; injection Hm as <-.
  - unfold take_device, acquireDevice.
    destruct (bool_decide _); cbn [negb]; (eexists; split; [done|]); apply Hnext; try done;
      left; cbn; destruct_and!; split_and!; congruence.
  - unfold take_slot. destruct (_ <? _); (eexists; split; [done|]); apply Hnext; try done;
      left; cbn; destruct_and!; split_and!; congruence.
  - unfold open_image. destruct (OpenVerified fs o) as [data|] eqn:Hd;
      (eexists; split; [done|]); apply Hnext; try done; destruct_and!.
    + unfold at_place. cbn. split_and!; try done. by exists fs.
    + left. cbn. split_and!; congruence.
  - unfold check_again. destruct Hp as (?&?&?&Hopen).
    destruct gate; cbn [negb]; [|eexists; split; [done|]; apply Hnext; try done; left; cbn; split_and!; congruence].
    destruct (identityRevoked _ _ _ _) eqn:Hrev; (eexists; split; [done|]); apply Hnext; try done;
      [left; cbn; split_and!; congruence|].
    pose proof Hopen as (fs & _ & Hfs). destruct (OpenVerified_sound _ _ _ Hfs) as (_ & _ & Hsz & _).
    unfold at_place. cbn. rewrite H0, blen_nil. split_and!; try done; [|lia].
    exists view. split; [done|]. intros [t Ht]%Hid. unfold identityRevoked in Hrev. rewrite Ht in Hrev.
    split_bools. done.
  - unfold stream_round. cbv zeta. destruct Hp as (H1 & H2 & H3 & H4 & H5 & H6).
    destruct (copy_round _ _ _ _) as [output oc] eqn:Hc. pose proof (blen_nonneg (sent h)).
    destruct (copy_round_reads _ _ _ _ _ _ Hc) as (Hpre & Hn & _ & Hfin); [lia|].
    unfold blen in Hpre at 1. rewrite Nat2Z.id in Hpre.
    assert (from_file acts r (sent h ++ output)) by (by eapply from_file_round).
    assert (blen (sent h ++ output) ≤ ImageSize o) by (rewrite blen_app; lia).
    destruct oc; (eexists; split; [done|]); apply Hnext; try done; unfold at_place; cbn.
    + by rewrite Hpc.
    + right. split_and!; try done; [by exists data|]. intros _. specialize (Hfin eq_refl). unfold blen in *. cbn.
      rewrite length_app. lia.
    + right. split_and!; try done. by exists data.
  - eexists. split; [done|]. by apply Hnext.
  - eexists. split; [done|]. by apply Hnext.
  - unfold finish_identity. eexists. split; [by destruct (identity s)|]. by apply Hnext.
Qed.

Lemma origin_inv_step acts a s s' : origin_inv acts s → step s a = Some s' → origin_inv (acts ++ [a]) s'.
Proof.
  intros Hinv Hs. pose proof Hinv as [Hc Hh].
  assert (∀ r h, handlers s !! r = Some h → number a = r → moves json_Decode s r h a = Some s' →
    origin_inv (acts ++ [a]) s') as Hmove.
  { intros r h Hr Hn Hm. destruct (origin_moves_ok (acts ++ [a]) s r h a s') as (h' & E & Hok);
      [done|set_solver|done|by apply handler_grows, Hh|done|]. by eapply serving_put. }
  destruct a; cbn in Hs; try (destruct (handlers s !! r) as [h|] eqn:Hr; [|done]; by eapply Hmove).
  - destruct (handlers s !! r) eqn:Hr; [done|].
    destruct (arrive_ok acts r gate n1 n2 n3 view request s Hc) as (h & E & Hok).
    eapply serving_put; [done|by cbn; rewrite Hr| |done]. injection Hs as <-. done.
  - injection Hs as <-. split.
    + etransitivity; [done|]. by apply (origin_step_config s (AReconcile allowed)).
    + intros r h Hr. apply handler_grows, Hh. unfold ReconcileIdentity in Hr.
      by destruct (identity s).
Qed.

Lemma origin_inv_run acts s : handlers s0 = ∅ → run s0 acts = Some s → origin_inv acts s.
Proof.
  intros H0. apply origin_run_ind; [|by intros; eapply origin_inv_step].
  split; [done|]. intros r h. by rewrite H0.
Qed.

(** *** Leases *)

(** The lease of a handler that has not ended is tracked, or was revoked. *)
Definition leased s (r : nat) h : Prop :=
  ∀ t, identity s = Some t → pc h ≠ Done →
    (∃ ls, Provisioning.active t !! h_deviceID h = Some ls ∧ r ∈ ls) ∨
    r ∈ Provisioning.cancelled t.

Definition leases_ok s : Prop := ∀ r h, handlers s !! r = Some h → leased s r h.

(** What becomes of a handler in a step of its own. *)
Definition follows s (r : nat) h h' : Prop :=
  h_deviceID h' = h_deviceID h ∧
  ∀ t, identity s = Some t → r ∈ Provisioning.cancelled t →
    sent h' = sent h ∧ (served h' = true → served h = true) ∧
    (answer h' = Some 200 → answer h = Some 200).

Lemma moves_follow s r h a s' :
  moves json_Decode s r h a = Some s' →
  pc h ≠ Done ∧ ∃ h', handlers s' = <[r := h']> (handlers s) ∧ follows s r h h' ∧
    (identity s' = identity s ∨
     pc h' = Done ∧ ∃ t, identity s = Some t ∧
       identity s' = Some (Provisioning.finish t (h_deviceID h) r)).
Proof.
  unfold moves. intros Hm. destruct a, (pc h) eqn:Hpc; try done; (split; [done|]).
  - injection Hm as <-. unfold take_device, acquireDevice.
    destruct (bool_decide _); (eexists; split; [done|]); split; try (by left); by split.
  - injection Hm as <-. unfold take_slot.
    destruct (_ <? _); (eexists; split; [done|]); split; try (by left); by split.
  - destruct (h_object h) as [o|]; [|done]. injection Hm as <-. unfold open_image.
    destruct (OpenVerified _ _); (eexists; split; [done|]); split; try (by left); by split.
  - injection Hm as <-. unfold check_again. destruct (negb gate);
      [eexists; split; [done|]; split; try (by left); by split|].
    destruct (identityRevoked _ _ _ _) eqn:Hrev; (eexists; split; [done|]); split; try (by left);
      split; try done. intros t Ht Hr. unfold identityRevoked in Hrev.
    rewrite Ht, bool_decide_true in Hrev by done. done.
  - destruct (h_object h) as [o|]; [|done]. injection Hm as <-. unfold stream_round.
    destruct (identity s) as [t|] eqn:Ht; [destruct (bool_decide _) eqn:Hr|]; cbv zeta.
    + unfold copy_round. cbn. rewrite orb_true_r. eexists. split; [done|]. split; [|by left].
      split; [done|]. intros t' Ht' _. cbn. by rewrite app_nil_r.
    + split_bools. destruct (copy_round _ _ _ _) as [out [ | | ] ]; (eexists; split; [done|]);
        (split; [|by left]); (split; [done|]); intros t' [= <-]%(eq_trans (eq_sym Ht)) Hin; done.
    + destruct (copy_round _ _ _ _) as [out [ | | ] ]; (eexists; split; [done|]);
        (split; [|by left]); (split; [done|]); intros t' Ht'; by rewrite Ht in Ht'.
  - injection Hm as <-. eexists. split; [done|]. split; [by split|by left].
  - injection Hm as <-. eexists. split; [done|]. split; [by split|by left].
  - injection Hm as <-. unfold finish_identity. exists (goto Done h). split; [by destruct (identity s)|].
    split; [by split|]. destruct (identity s) as [t|] eqn:Ht; [right|by left].
    split; [done|]. by exists t.
Qed.

Lemma finish_others t d r r' d' :
  r ≠ r' →
  (∃ ls, Provisioning.active t !! d' = Some ls ∧ r' ∈ ls) ∨ r' ∈ Provisioning.cancelled t →
  (∃ ls, Provisioning.active (Provisioning.finish t d r) !! d' = Some ls ∧ r' ∈ ls) ∨
  r' ∈ Provisioning.cancelled (Provisioning.finish t d r).
Proof.
  intros Hne. unfold Provisioning.finish. destruct (Provisioning.active t !! d) as [ls|] eqn:Hd; [|done].
  intros [ (ls' & Hl & Hin) | Hc]; [left|by right]. cbn.
  destruct (decide (d = d')) as [<-|Hdd].
  - simplify_eq. case_bool_decide as Hempty; [set_solver|]. eexists. rewrite lookup_insert_eq.
    split; [done|set_solver].
  - exists ls'. split; [|done]. case_bool_decide;
      [by rewrite lookup_delete_ne|by rewrite lookup_insert_ne].
Qed.

Lemma leases_moves s r h a s' :
  leases_ok s → handlers s !! r = Some h → moves json_Decode s r h a = Some s' → leases_ok s'.
Proof.
  intros Hok Hr Hm. apply moves_follow in Hm as (Hpc & h' & E & [Ed _] & Hid).
  intros r1 h1. rewrite E. intros [ [<- <-] | [Hne Hr1] ]%lookup_insert_Some t Ht Hp.
  - destruct Hid as [Hid | [Hdone _] ]; [|done]. rewrite Hid in Ht. rewrite Ed. by apply (Hok r h).
  - destruct Hid as [Hid | (_ & t0 & Ht0 & Hid) ].
    + rewrite Hid in Ht. by apply (Hok r1 h1).
    + rewrite Hid in Ht. injection Ht as <-. apply finish_others; [done|]. by apply (Hok r1 h1).
Qed.

(** The lease of a new request is there when it goes on; those of the others stay. *)
Lemma leases_arrive s r gate n1 n2 n3 view request :
  leases_ok s → handlers s !! r = None →
  leases_ok (arrive json_Decode r gate n1 n2 n3 view request s).
Proof.
  intros Hok Hr.
  assert (∀ h s1, pc h = Done → identity s1 = identity s → handlers s1 = handlers s →
    leases_ok (put r h s1)) as Hdone.
  { intros h s1 Hp Hi Hh r1 h1. cbn. rewrite Hh.
    intros [ [<- <-] | [_ Hr1] ]%lookup_insert_Some t; cbn; [done|]. rewrite Hi. by apply (Hok r1 h1). }
  unfold arrive. cbv zeta. destruct (negb gate); [by apply Hdone|].
  destruct (negb _); [by apply Hdone|]. destruct (singleHeader _ _) as [au|]; [|by apply Hdone].
  destruct (Lookup _ _) as [o|].
  2: { destruct (Token.VerifyAuthorization _ _ _ _ _ _); [destruct (negb _)|]; by apply Hdone. }
  destruct (Token.VerifyAuthorizationForRelease _ _ _ _ _ _ _ _) as [claims|]; [|by apply Hdone].
  destruct (identity s) as [t|] eqn:Ht.
  2: { intros r1 h1 _ t' Ht'. cbn in Ht'. congruence. }
  set (d := Token.DeviceID claims). unfold Provisioning.Start.
  destruct (bool_decide _); cbn [negb]; [|destruct (Provisioning.DeviceAllowed _ _); cbn [negb] ];
    intros r1 h1; cbn; intros [ [<- <-] | [Hne Hr1] ]%lookup_insert_Some t1 [= <-] Hp; try done.
  - destruct (Hok r1 h1 Hr1 t Ht Hp) as [H | H]; auto.
  - left. cbn. eexists. rewrite lookup_insert_eq. split; [done|]. set_solver.
  - destruct (Hok r1 h1 Hr1 t Ht Hp) as [(ls & Hls & Hin) | H]; [left|by right]. cbn.
    destruct (decide (d = h_deviceID h1)) as [Heq|Hdd].
    + eexists. rewrite Heq, lookup_insert_eq. split; [done|]. rewrite Hls. set_solver.
    + exists ls. by rewrite lookup_insert_ne.
  - destruct (Hok r1 h1 Hr1 t Ht Hp) as [H | H]; [by left|right]. cbn. set_solver.
Qed.

Lemma leases_step s a s' : leases_ok s → step s a = Some s' → leases_ok s'.
Proof.
  intros Hok Hs. pose proof (λ r h, leases_moves s r h a s' Hok) as Hmove.
  destruct a; cbn in Hs;
    try (destruct (handlers s !! r) as [h|] eqn:Hr; [|done]; by eapply Hmove).
  - destruct (handlers s !! r) eqn:Hr; [done|]. injection Hs as <-. by apply leases_arrive.
  - injection Hs as <-. unfold ReconcileIdentity. destruct (identity s) as [t|] eqn:Ht; [|done].
    destruct (Provisioning.Reconcile t allowed) as [t' revoked] eqn:Hrec. cbn.
    intros r h Hr t1 [= <-] Hp. cbn in Hr.
    destruct (Provisioning.Reconcile_spec _ _ _ _ Hrec) as (Hact & Hrev & Hsub).
    destruct (Hok r h Hr t Ht Hp) as [(ls & Hls & Hin) | H].
    + destruct (allowed (h_deviceID h)) eqn:Hal.
      * left. exists ls. split; [|done]. by apply Hact.
      * right. apply Hsub, Hrev. eauto.
    + right. injection Hrec as <- <-. cbn. set_solver.
Qed.

Lemma leases_run acts s : handlers s0 = ∅ → run s0 acts = Some s → leases_ok s.
Proof.
  intros H0. apply (origin_run_ind (λ _, leases_ok)); [|by intros; eapply leases_step].
  intros r h. by rewrite H0.
Qed.

(** *** Revocation *)

(** A handler whose lease was revoked neither sends nor gets an answer 200 any more. *)
Definition ended s (r : nat) h : Prop :=
  (∃ t, identity s = Some t ∧ r ∈ Provisioning.cancelled t) ∧
  ∃ h', handlers s !! r = Some h' ∧ sent h' = sent h ∧ (served h' = true → served h = true) ∧
    (answer h' = Some 200 → answer h = Some 200).

Lemma step_cancelled s a s' r t :
  step s a = Some s' → identity s = Some t → r ∈ Provisioning.cancelled t →
  ∃ t', identity s' = Some t' ∧ r ∈ Provisioning.cancelled t'.
Proof.
  intros Hs Ht Hr.
  assert (∀ r' h, moves json_Decode s r' h a = Some s' →
    ∃ t', identity s' = Some t' ∧ r ∈ Provisioning.cancelled t') as Hmove.
  { intros r' h (_ & h' & _ & _ & [Hid | (_ & t0 & Ht0 & Hid) ])%moves_follow; rewrite Hid.
    - by exists t.
    - eexists. split; [done|]. assert (t0 = t) as -> by congruence.
      unfold Provisioning.finish. by destruct (Provisioning.active t !! h_deviceID h). }
  destruct a; cbn in Hs; try (destruct (handlers s !! r0) as [h|]; [|done]; by eapply Hmove).
  - destruct (handlers s !! r0); [done|]. injection Hs as <-. unfold arrive, Provisioning.Start.
    rewrite Ht. repeat case_match; simplify_eq/=; eauto; eexists; (split; [done|]); cbn; set_solver.
  - injection Hs as <-. unfold ReconcileIdentity. rewrite Ht. cbn. eexists. split; [done|].
    cbn. set_solver.
Qed.

Lemma ended_step s a s' r h : ended s r h → step s a = Some s' → ended s' r h.
Proof.
  intros [(t & Ht & Hr) (h1 & Hh & Hsent & Hserved & Ha)] Hs.
  destruct (step_cancelled _ _ _ _ _ Hs Ht Hr) as (t' & Ht' & Hr').
  split; [by exists t'|]. clear t' Ht' Hr'.
  assert (∀ r' h2, handlers s !! r' = Some h2 → moves json_Decode s r' h2 a = Some s' →
    ∃ h', handlers s' !! r = Some h' ∧ sent h' = sent h ∧ (served h' = true → served h = true) ∧
      (answer h' = Some 200 → answer h = Some 200)) as Hmove.
  { intros r' h2 Hr2 (_ & h' & -> & [_ Hf] & _)%moves_follow.
    destruct (decide (r' = r)) as [->|Hne].
    - simplify_eq. exists h'. rewrite lookup_insert_eq. destruct (Hf t Ht Hr) as (E1 & E2 & E3).
      split_and!; [done|congruence|auto..].
    - exists h1. by rewrite lookup_insert_ne. }
  destruct a; cbn in Hs; try (destruct (handlers s !! r0) as [h2|] eqn:Hr2; [|done]; by eapply Hmove).
  - destruct (handlers s !! r0) eqn:Hr0; [done|]. injection Hs as <-. exists h1. split; [|done].
    unfold arrive. repeat case_match; cbn; rewrite lookup_insert_ne by congruence; done.
  - injection Hs as <-. exists h1. split; [|done]. unfold ReconcileIdentity. by rewrite Ht.
Qed.

Lemma ended_run s acts s' r h : ended s r h → run s acts = Some s' → ended s' r h.
Proof.
  revert s. induction acts as [|a acts IH]; intros s He; cbn; [by intros [= <-]|].
  destruct (step s a) as [s1|] eqn:Hs; [|done]. apply IH. by eapply ended_step.
Qed.

Lemma reconcile_ends s allowed r h t :
  leases_ok s → handlers s !! r = Some h → pc h ≠ Done → identity s = Some t →
  allowed (h_deviceID h) = false → ended (ReconcileIdentity allowed s).1 r h.
Proof.
  intros Hok Hr Hp Ht Hal. unfold ReconcileIdentity. rewrite Ht.
  destruct (Provisioning.Reconcile t allowed) as [t' revoked] eqn:Hrec.
  destruct (Provisioning.Reconcile_spec _ _ _ _ Hrec) as (_ & Hrev & Hsub).
  split; cbn; [|by exists h]. exists t'. split; [done|].
  destruct (Hok r h Hr t Ht Hp) as [(ls & Hls & Hin) | Hin].
  - apply Hsub, Hrev. eauto.
  - injection Hrec as <- _. cbn. set_solver.
Qed.

End runs.

(** ** What is served *)

Lemma New_fresh fs c v n authority tracked s :
  New fs c v n authority tracked = Some s →
  handlers s = ∅ ∧ catalog s = c ∧ verifier s = v ∧ PublicAuthority s = authority ∧
  (tracked = true ↔ is_Some (identity s)).
Proof.
  unfold New. guard H1. intros [= <-]. split_and!; try done. cbn.
  destruct tracked; split; try done; by intros [? ?].
Qed.

Lemma verified_release_token json_Decode v n1 n2 n3 header release image claims :
  Token.VerifyAuthorizationForRelease json_Decode v n1 n2 n3 header release image = Ok claims →
  Token.VerifyAuthorization json_Decode v n1 n2 n3 header = Ok claims ∧
  Token.ReleaseID claims = release ∧ Token.ImageSHA256 claims = image.
Proof.
  unfold Token.VerifyAuthorizationForRelease. guard H1.
  destruct (Token.VerifyAuthorization _ _ _ _ _ _) as [c|]; cbn; [|done].
  guard H2. intros [= <-]. split_bools. done.
Qed.

(** C12: in every interleaving of downloads, revocations and changes of the files on
    disk, a download that was answered 200 was asked for with a valid GET for the path
    of an image of the catalogue while the gate was open, with a token that the
    verifier accepted, and only after the file had been opened and found to have the
    size in the catalogue and the SHA-256 in the token, whose release is the one of the
    image. What it sends is read from that open file: every byte of the body was at its
    place in the file in a round of this download, the body is never longer than the size
    in the catalogue, and a download counted as served is exactly that long. So if nobody
    writes to the file after it was verified, the body is a prefix of the bytes with the
    token's SHA-256, and all of them once served. With an identity registry, the
    registry still allowed the device of the token after the image had been opened.
    A file that is changed in place between the check and the copy, which the service
    cannot see, is not covered; its directory must be mounted read-only. *)
Theorem served_image_is_the_tokens json_Decode fs c v n authority tracked s0 acts s r h :
  New fs c v n authority tracked = Some s0 → run json_Decode s0 acts = Some s →
  handlers s !! r = Some h → answer h = Some 200 →
  ∃ object data fs' n1 n2 n3 view request authorization claims,
    AArrive r true n1 n2 n3 view request ∈ acts ∧
    validDownloadRequest request authority = true ∧ Lookup c (Path request) = Some object ∧
    singleHeader request "Authorization" = Some authorization ∧
    Token.VerifyAuthorization json_Decode v n1 n2 n3 authorization = Ok claims ∧
    Token.DeviceID claims = h_deviceID h ∧ Token.ReleaseID claims = ReleaseID object ∧
    AOpen r fs' ∈ acts ∧ OpenVerified fs' object = Some data ∧
    blen data = ImageSize object ∧ hex_encode (Sum256 data) = Token.ImageSHA256 claims ∧
    (∀ i b, sent h !! i = Some b →
       ∃ content e, ARound r content e ∈ acts ∧ content !! i = Some b) ∧
    blen (sent h) ≤ ImageSize object ∧ (served h = true → blen (sent h) = ImageSize object) ∧
    ((∀ content e, ARound r content e ∈ acts → content = data) →
       sent h `prefix_of` data ∧ (served h = true → sent h = data)) ∧
    (tracked = true → ∃ view', ACheck r true view' ∈ acts ∧
       Provisioning.DeviceAllowed view' (h_deviceID h) = true).
Proof.
  intros Hnew Hrun Hr Ha. destruct (New_fresh _ _ _ _ _ _ _ Hnew) as (H0 & Ec & Ev & Ep & Ei).
  destruct (origin_inv_run json_Decode s0 acts s H0 Hrun) as [_ Hh]. specialize (Hh r h Hr).
  unfold handler_ok in Hh. destruct (h_object h) as [o|]; [|by destruct Hh as (_ & ? & _)].
  destruct Hh as [Hp [ [_ ?] | Hau] ]; [congruence|].
  assert (checked s0 acts r (h_deviceID h) ∧ (∃ data, opened acts r o data) ∧
    blen (sent h) ≤ ImageSize o ∧ from_file acts r (sent h) ∧
    (served h = true → blen (sent h) = ImageSize o)) as (Hck & [data Hop] & Hle & Hff & Hall).
  { unfold at_place, body_ok in Hp. destruct (pc h); destruct_and?; try congruence;
      try (destruct Hp as [ [? _] | [_ ?] ]; done). split_and!; try done; [by exists data|congruence]. }
  destruct Hau as (n1 & n2 & n3 & view & q & au & claims & Hin & Hv & Hsh & Hl & Hver & Hd & _).
  destruct Hop as (fs' & Hfs & Hopen).
  pose proof (OpenVerified_sound _ _ _ Hopen) as (Hlen & Hsha & _).
  rewrite Ev in Hver. apply verified_release_token in Hver as (Hver & Hrel & Himg).
  exists o, data, fs', n1, n2, n3, view, q, au, claims. rewrite <- Ec, <- Ep.
  split_and!; try done; [congruence| |intros Htr%Ei; destruct Hck as (v' & Hin' & Hck); eauto].
  intros Hsame.
  assert (length (sent h) ≤ length data)%nat as Hshort by (unfold blen in *; lia).
  assert (sent h = take (length (sent h)) data) as Hpre.
  { apply (list_eq_same_length _ _ (length (sent h))); [by rewrite length_take_le|done|].
    intros i x y Hi Hx Hy. destruct (Hff i x Hx) as (content & e & Hc%Hsame & Hcx). subst.
    rewrite lookup_take_lt in Hy by done. congruence. }
  split; [rewrite Hpre; apply prefix_take|]. intros Hs. rewrite Hpre. apply take_ge.
  specialize (Hall Hs). unfold blen in *. lia.
Qed.

(** C33: once a reconciliation has found that the registry no longer allows the device of
    a download under way, no round of that download that starts later sends anything,
    and it neither gets an answer 200 nor counts as served if it had not before,
    whatever else happens. *)
Theorem revoked_download_stops json_Decode fs c v n authority s0 before allowed after s r h s' :
  New fs c v n authority true = Some s0 → run json_Decode s0 before = Some s →
  handlers s !! r = Some h → pc h ≠ Done → allowed (h_deviceID h) = false →
  run json_Decode s0 (before ++ AReconcile allowed :: after) = Some s' →
  ∃ h', handlers s' !! r = Some h' ∧ sent h' = sent h ∧
    (served h' = true → served h = true) ∧ (answer h' = Some 200 → answer h = Some 200).
Proof.
  intros Hnew Hrun Hr Hp Hal. rewrite origin_run_app, Hrun. cbn. intros Hrun'.
  destruct (New_fresh _ _ _ _ _ _ _ Hnew) as (H0 & _ & _ & _ & Ei).
  pose proof (leases_run json_Decode s0 before s H0 Hrun) as Hls.
  destruct (origin_run_config json_Decode s0 before s Hrun) as (_ & _ & _ & Hid).
  destruct (proj2 Hid (proj1 Ei eq_refl)) as [t Ht].
  eapply (ended_run json_Decode) in Hrun'; [|by eapply reconcile_ends]. by destruct Hrun' as [_ ?].
Qed.

(** ** From an offer to the image *)

(** The copy when every round is healthy: after some of them the image is sent. *)
Lemma healthy_copy data expected sent rounds :
  sent `prefix_of` data → blen sent < expected → blen data = expected →
  expected - blen sent ≤ Z.of_nat (length rounds) → Forall healthy rounds →
  ∃ k, (0 < k)%nat ∧ copy_loop data expected sent (take k rounds) = (data, Some true).
Proof.
  revert sent. induction rounds as [|e rounds IH]; intros sent Hp Hlt Hd Hn Hh; [cbn in Hn; lia|].
  apply Forall_cons_1 in Hh as [He Hh].
  destruct (copy_round data expected (blen sent) e) as [output o] eqn:Hr.
  destruct (copy_round_spec _ _ _ _ _ _ Hr Hp ltac:(lia)) as (Hp' & Hle' & Hc & Hf).
  pose proof (copy_round_healthy data expected sent e He Hp Hlt ltac:(lia)) as Hok.
  rewrite Hr in Hok. cbn in Hok, Hn. destruct o; [| |done].
  - specialize (Hc eq_refl). destruct (IH (sent ++ output)) as (k & Hk & E); try done; [lia..|].
    exists (S k). split; [lia|]. cbn. rewrite (proj2 (Z.ltb_lt _ _)) by lia. cbn. by rewrite Hr.
  - exists 1%nat. split; [lia|]. cbn. rewrite (proj2 (Z.ltb_lt _ _)) by lia. cbn. rewrite Hr.
    do 2 f_equal. apply prefix_length_eq; [done|]. specialize (Hf eq_refl). unfold blen in *. lia.
Qed.

Definition not_revoked (s : Server) (r : nat) : Prop :=
  ∀ t, identity s = Some t → r ∉ Provisioning.cancelled t.

(** The rounds of one handler are the loop. *)
Lemma run_rounds json_Decode s r h object data rounds all :
  handlers s !! r = Some h → pc h = Streaming data → h_object h = Some object →
  not_revoked s r → rounds ≠ [] →
  copy_loop data (ImageSize object) (sent h) rounds = (all, Some true) →
  blen (sent h) < ImageSize object → sent h `prefix_of` data →
  ∃ k, run json_Decode s (ARound r data <$> take k rounds) =
    Some (put r {| pc := ReturningSlot; h_deviceID := h_deviceID h; h_object := Some object;
                   answer := answer h; sent := all; served := true |} s).
Proof.
  intros Hr Hpc Ho Hrev Hne. revert s h Hr Hpc Ho Hrev.
  induction rounds as [|e rounds IH]; [done|]. clear Hne. intros s h Hr Hpc Ho Hrev Hc Hlt Hp.
  cbn in Hc. rewrite (proj2 (Z.ltb_lt _ _)) in Hc by done. cbn in Hc.
  destruct (copy_round _ _ _ e) as [output o] eqn:Ho'.
  assert (∀ s', stream_round r h object data e s = s' →
    run json_Decode s (ARound r data <$> [e]) = Some s') as Hone.
  { intros s' <-. cbn. rewrite Hr. cbn. by rewrite Hpc, Ho. }
  assert (stream_round r h object data e s =
    match o with
    | Continue => put r (write output false h) s
    | Finished => put r (goto ReturningSlot (write output true h)) s
    | Failed => put r (goto ReturningSlot (write output false h)) s
    end) as Hs.
  { unfold stream_round. cbv zeta.
    assert (match identity s with Some t => bool_decide (r ∈ Provisioning.cancelled t)
            | None => false end = false) as ->.
    { destruct (identity s) as [t|] eqn:Ht; [|done]. apply bool_decide_false. by apply Hrev. }
    rewrite orb_false_r. destruct e; cbn in *. by rewrite Ho'. }
  destruct (copy_round_spec _ _ _ _ _ _ Ho' Hp ltac:(lia)) as (Hp' & _ & Hcont & _).
  destruct o; [|injection Hc as <-|done].
  - specialize (Hcont eq_refl).
    assert (rounds ≠ []) as Hne.
    { intros ->. cbn in Hc. rewrite (proj2 (Z.ltb_lt _ _)) in Hc by lia. done. }
    destruct (IH Hne (put r (write output false h) s) (write output false h)) as [k Hk];
      cbn; try done; try lia; [by rewrite lookup_insert_eq|].
    exists (S k). change (take (S k) (e :: rounds)) with ([e] ++ take k rounds).
    rewrite fmap_app, origin_run_app, (Hone _ Hs), Hk. cbn. unfold put. cbn.
    by rewrite insert_insert_eq.
  - exists 1%nat. change (take 1 (e :: rounds)) with [e]. rewrite (Hone _ Hs). cbn.
    unfold goto, write. cbn. by rewrite Ho.
Qed.

(** A download up to its first round, when nothing refuses it. *)
Lemma run_start json_Decode s r n1 n2 n3 view view' request authorization object claims fs data :
  handlers s !! r = None → validDownloadRequest request (PublicAuthority s) = true →
  singleHeader request "Authorization" = Some authorization →
  Lookup (catalog s) (Path request) = Some object →
  Token.VerifyAuthorizationForRelease json_Decode (verifier s) n1 n2 n3 authorization
    (ReleaseID object) (ImageSHA256 object) = Ok claims →
  Token.DeviceID claims ≠ "" → Token.DeviceID claims ∉ devices s → concurrency s < MaxConcurrent s →
  not_revoked s r → (∀ v, v ∈ [view; view'] → is_Some (identity s) →
    Provisioning.DeviceAllowed v (Token.DeviceID claims) = true) →
  OpenVerified fs object = Some data →
  ∃ s', run json_Decode s [AArrive r true n1 n2 n3 view request; ADevice r; ASlot r; AOpen r fs;
                           ACheck r true view'] = Some s' ∧
    handlers s' !! r = Some (goto (Streaming data) (reply 200
      (new_handler (Token.DeviceID claims) (Some object)))) ∧
    concurrency s' = concurrency s + 1 ∧ devices s' = {[Token.DeviceID claims]} ∪ devices s ∧
    not_revoked s' r.
Proof.
  intros Hr Hv Ha Hl Hver Hne Hd Hc Hrev Hal Hopen. set (d := Token.DeviceID claims) in *.
  set (h0 := new_handler d (Some object)).
  assert (∃ s1, arrive json_Decode r true n1 n2 n3 view request s = s1 ∧
    handlers s1 !! r = Some h0 ∧ devices s1 = devices s ∧ concurrency s1 = concurrency s ∧
    MaxConcurrent s1 = MaxConcurrent s ∧ not_revoked s1 r ∧
    (is_Some (identity s1) → is_Some (identity s))) as (s1 & E1 & H1 & Hd1 & Hc1 & Hm1 & Hrev1 & Hid1).
  { unfold arrive. cbv zeta. cbn [negb]. rewrite Hv, Ha, Hl, Hver. fold d. cbn [negb].
    destruct (identity s) as [t|] eqn:Ht.
    2: { eexists. split; [done|]. cbn. by rewrite lookup_insert_eq, Ht. }
    unfold Provisioning.Start. rewrite bool_decide_false by done.
    rewrite Hal by (done || set_solver). cbn [negb]. eexists. split; [done|]. cbn.
    rewrite lookup_insert_eq. split_and!; try done. intros t' [= <-]. cbn. by apply Hrev. }
  cbn -[arrive]. rewrite Hr, E1, H1. cbn. unfold take_device, acquireDevice. cbn.
  rewrite Hd1, bool_decide_false by done. cbn. rewrite lookup_insert_eq. cbn.
  unfold take_slot. cbn. rewrite Hc1, Hm1, (proj2 (Z.ltb_lt _ _)) by done. cbn.
  rewrite lookup_insert_eq. cbn. unfold open_image. rewrite Hopen. cbn. rewrite lookup_insert_eq. cbn.
  unfold check_again. cbn.
  assert (∀ s2, identity s2 = identity s1 → identityRevoked s2 r view' d = false) as ->.
  { intros s2 E. unfold identityRevoked. rewrite E. destruct (identity s1) as [t|] eqn:Ht; [|done].
    rewrite bool_decide_false by (by apply Hrev1). rewrite Hal; [done|set_solver|by apply Hid1; eexists]. }
  2: done.
  eexists. split; [done|]. cbn. rewrite lookup_insert_eq. split_and!; done.
Qed.

(** The deferred calls of a handler give back what it holds. *)
Lemma run_end json_Decode s r h :
  handlers s !! r = Some h → pc h = ReturningSlot →
  ∃ s', run json_Decode s [ASlotBack r; ADeviceBack r; AIdentity r] = Some s' ∧
    handlers s' !! r = Some (goto Done h) ∧ concurrency s' = concurrency s - 1 ∧
    devices s' = devices s ∖ {[h_deviceID h]}.
Proof.
  intros Hr Hpc. cbn. rewrite Hr. cbn. rewrite Hpc. cbn. rewrite lookup_insert_eq. cbn.
  rewrite lookup_insert_eq. cbn. unfold finish_identity. cbn. eexists. split; [done|]. cbn.
  rewrite lookup_insert_eq. destruct (identity s); split_and!; done.
Qed.

(** What an offer of the control plane contains. *)
Lemma offer_issued cfg cs r request e oe d release token ttl :
  ControlPlane.tasks (ControlPlane.issueOTAOffer cfg r request e oe cs) !! r
    = Some (ControlPlane.Answered (ControlPlane.Offer d release token ttl)) →
  ∃ claims, Token.IssueForRelease (ControlPlane.OTAIssuer cfg) (ControlPlane.issue_now oe)
      (ControlPlane.issue_random oe) d (Ota.ReleaseID (Ota.doc release))
      (Ota.ImageSHA256 (Ota.doc release)) = Ok (token, claims) ∧
    ttl = Token.Expires claims -i Token.IssuedAt claims.
Proof.
  unfold ControlPlane.issueOTAOffer, ControlPlane.fail_with. intros H.
  repeat (match type of H with context [match ?x with _ => _ end] =>
            lazymatch x with context [match _ with _ => _ end] => fail | _ => destruct x eqn:? end
          end; cbn in H; rewrite ?lookup_insert_eq in H; try discriminate H).
  simplify_eq. eauto.
Qed.

Lemma valid_identifier_nonempty value max : ValidIdentifier value max = true → value ≠ "".
Proof. by intros Hv ->. Qed.

Section offers.
Context (json_Decode : bytes → option Token.Claims).
(** The two services: the control plane signs under the ring, the origin verifies under it. *)
Context (ring : Token.ManagedTokenKeyring) (ttl maxTTL : Duration) (inow vnow : Time)
  (cfg : ControlPlane.Config) (v : Token.Verifier).
Hypothesis issuer_of_ring :
  Token.NewManagedIssuerForAudience ring ttl Token.OTAAudience inow = Ok (ControlPlane.OTAIssuer cfg).
Hypothesis verifier_of_ring :
  Token.NewManagedKeyringVerifierForAudience ring maxTTL Token.OTAAudience vnow = Ok v.
Hypothesis lifetimes : ttl ≤ maxTTL ∧ ttl mod second = 0.
Hypothesis ring_names : Token.ids_ok ring ∧ Strs.no_dot (bytes_of (Token.activeKeyID ring)).

(** The decoder reads back the claims that the issuer wrote for the offer. *)
Definition claims_read_back (oe : ControlPlane.offer_env) (d : string) (release : Ota.Release) : Prop :=
  ∀ token claims,
    Token.IssueForRelease (ControlPlane.OTAIssuer cfg) (ControlPlane.issue_now oe)
      (ControlPlane.issue_random oe) d (Ota.ReleaseID (Ota.doc release))
      (Ota.ImageSHA256 (Ota.doc release)) = Ok (token, claims) →
    json_Decode (Token.json_Marshal claims) = Some (Token.with_key claims "").

Lemma offered_token_accepted cs q preq e oe rnd d release token lifetime n1 n :
  ControlPlane.tasks (ControlPlane.issueOTAOffer cfg q preq e oe cs) !! q
    = Some (ControlPlane.Answered (ControlPlane.Offer d release token lifetime)) →
  claims_read_back oe d release → ControlPlane.issue_random oe = Some rnd → blen rnd = 16 →
  second ≤ ControlPlane.issue_now oe ≤ max_int64 - 2 * hour →
  ControlPlane.issue_now oe ≤ n < from_unix (Unix (ControlPlane.issue_now oe) + lifetime) →
  ∃ claims,
    Token.VerifyAuthorizationForRelease json_Decode v n1 n n ("Bearer " +:+ token)
      (Ota.ReleaseID (Ota.doc release)) (Ota.ImageSHA256 (Ota.doc release)) = Ok claims ∧
    Token.DeviceID claims = d ∧ d ≠ "".
Proof.
  intros Hoffer Hjson Hrnd Hlen Hnow Hn. destruct lifetimes as [Hle Hwhole], ring_names as [Hids Hdot].
  destruct (offer_issued _ _ _ _ _ _ _ _ _ _ Hoffer) as (claims & Hi & ->).
  specialize (Hjson _ _ Hi). rewrite Hrnd in Hi.
  pose proof Hi as Hu. unfold Token.IssueForRelease in Hu. destruct (_ || _) in Hu; [done|].
  pose proof issuer_of_ring as Hni. apply Token.NewManagedIssuer_ok in Hni as (key & _ & _ & _ & Httl & Ei).
  unfold Token.minimumIssuedTTL, Token.maximumIssuedTTL in Httl.
  assert (0 < second) by done. assert (0 < minute) by done. assert (0 < hour) by done.
  destruct (Token.issueUntil_claims _ _ _ _ _ _ _ _ _ _ _ _ _ _ _ Hu) as (Hc & Hdev & _ & _ & Hspan & Hmin);
    try (rewrite Ei; cbn; done || lia); [lia|by left|].
  rewrite Ei in Hspan. cbn in Hspan.
  assert (Token.Expires claims -i Token.IssuedAt claims
    = Token.Expires claims - Unix (ControlPlane.issue_now oe)) as Hexp.
  { rewrite Hc at 2. cbn [Token.IssuedAt]. apply wrap_i64_id.
    assert (ttl / second ≤ 3600)
      by (change 3600 with (hour / second); apply Z.div_le_mono; [done|lia]).
    unfold in_i64, min_int64, max_int64. lia. }
  rewrite Hexp in Hn.
  destruct (Bearer.release_token_accepted json_Decode ring ttl maxTTL inow vnow
    (ControlPlane.OTAIssuer cfg) v (ControlPlane.issue_now oe) rnd d
    (Ota.ReleaseID (Ota.doc release)) (Ota.ImageSHA256 (Ota.doc release)) token claims n1 n)
    as [Hver Hd]; try done; [unfold from_unix in *; lia|].
  exists claims. split_and!; try done. by eapply valid_identifier_nonempty, Hdev.
Qed.

(** C13: an offered release can be downloaded. When the control plane has offered a
    release to a device, a download from the origin with the token of the offer, before
    the offer expires, for a path at which the catalogue has the image of that release,
    runs to its end: the answer is 200, after at most as many rounds as the image has
    bytes the body is exactly the file, whose SHA-256 is the one of the offered release,
    and the device and the slot are free again. This needs two services that are set up
    alike: they share one keyring, whose key ids are valid and whose active one has no
    dot, the issuer's lifetime is in whole seconds and at most the verifier's maximum,
    and the origin's clock is not behind the control plane's. And it needs a download that
    nothing disturbs: the generation gate is open at both of its checks, the device
    downloads nothing else, a slot is free, the registry allows the device, the file
    verifies and is not written to, and neither it nor the client fails. *)
Theorem offered_image_downloads cs q preq e oe rnd d release token lifetime n1 n
    s r view view' request object fs data rounds :
  ControlPlane.tasks (ControlPlane.issueOTAOffer cfg q preq e oe cs) !! q
    = Some (ControlPlane.Answered (ControlPlane.Offer d release token lifetime)) →
  claims_read_back oe d release → ControlPlane.issue_random oe = Some rnd → blen rnd = 16 →
  second ≤ ControlPlane.issue_now oe ≤ max_int64 - 2 * hour →
  ControlPlane.issue_now oe ≤ n < from_unix (Unix (ControlPlane.issue_now oe) + lifetime) →
  verifier s = v → handlers s !! r = None → not_revoked s r → d ∉ devices s →
  concurrency s < MaxConcurrent s →
  (∀ w, w ∈ [view; view'] → is_Some (identity s) → Provisioning.DeviceAllowed w d = true) →
  validDownloadRequest request (PublicAuthority s) = true →
  singleHeader request "Authorization" = Some ("Bearer " +:+ token) →
  Lookup (catalog s) (Path request) = Some object →
  ReleaseID object = Ota.ReleaseID (Ota.doc release) →
  ImageSHA256 object = Ota.ImageSHA256 (Ota.doc release) →
  OpenVerified fs object = Some data → Forall healthy rounds →
  ImageSize object ≤ Z.of_nat (length rounds) →
  ∃ k s' h,
    run json_Decode s
      ([AArrive r true n1 n n view request; ADevice r; ASlot r; AOpen r fs; ACheck r true view']
       ++ (ARound r data <$> take k rounds) ++ [ASlotBack r; ADeviceBack r; AIdentity r]) = Some s' ∧
    handlers s' !! r = Some h ∧ pc h = Done ∧ answer h = Some 200 ∧ served h = true ∧
    sent h = data ∧ hex_encode (Sum256 data) = Ota.ImageSHA256 (Ota.doc release) ∧
    concurrency s' = concurrency s ∧ devices s' = devices s.
Proof.
  intros Hoffer Hjson Hrnd Hlen Hnow Hn Ev Hr Hrev Hd Hc Hal Hv Ha Hl Hrel Himg Hopen Hh Hrounds.
  destruct (offered_token_accepted cs q preq e oe rnd d release token lifetime n1 n Hoffer Hjson Hrnd
    Hlen Hnow Hn) as (claims & Hver & Hdev & Hne). rewrite <- Hrel, <- Himg, <- Ev in Hver. subst d.
  destruct (run_start json_Decode s r n1 n n view view' request _ object claims fs data Hr Hv Ha Hl
    Hver Hne Hd Hc Hrev Hal Hopen) as (s1 & Hrun1 & Hh1 & Hc1 & Hd1 & Hrev1).
  destruct (OpenVerified_sound _ _ _ Hopen) as (Hsize & Hsha & Hbig & _).
  destruct (healthy_copy data (ImageSize object) [] rounds) as (k & Hk & Hcopy);
    [apply prefix_nil|rewrite blen_nil; lia|done|rewrite blen_nil; lia|done|].
  assert (take k rounds ≠ []) as Hne'.
  { destruct k; [lia|]. destruct rounds; [cbn in Hrounds; lia|done]. }
  destruct (run_rounds json_Decode s1 r _ object data (take k rounds) data Hh1 eq_refl eq_refl Hrev1
    Hne' Hcopy) as (k' & Hrun2); [cbn; rewrite blen_nil; lia|apply prefix_nil|].
  match type of Hrun2 with _ = Some (put r ?h2 s1) =>
    destruct (run_end json_Decode (put r h2 s1) r h2) as (s3 & Hrun3 & Hh3 & Hc3 & Hd3);
      [cbn; by rewrite lookup_insert_eq|done|]
  end.
  rewrite take_take in Hrun2. exists (k' `min` k)%nat, s3. eexists.
  rewrite origin_run_app, Hrun1, origin_run_app, Hrun2, Hrun3, Hh3, Hc3, Hd3. cbn.
  rewrite Hc1, Hd1. split_and!; try done; [congruence|lia|set_solver].
Qed.

End offers.

(** ** Witnesses *)

(** An image of 1024 bytes in a catalogue of one entry. *)
Definition ex_image : bytes := replicate 1024 (byte_of 7).
Definition ex_sha : string := Eval vm_compute in hex_encode (Sum256 ex_image).

Lemma ex_sha_ok : hex_encode (Sum256 ex_image) = ex_sha.
Proof. vm_compute. reflexivity. Qed.

Definition ex_fs : filesystem :=
  {| EvalSymlinks := Some;
     Open := λ name, if bool_decide (name = "/srv/fw/a.bin")
                     then Some {| IsRegular := true; Size := 1024; Data := Some ex_image; Seeks := true |}
                     else None |}.
Definition ex_object : Object :=
  {| ReleaseID := "rel-2"; ImageSHA256 := ex_sha; ImageSize := 1024; URLPath := "/fw/a.bin";
     imageFile := "/srv/fw/a.bin" |}.
Definition ex_catalog : Catalog :=
  {| byPath := {["/fw/a.bin" := ex_object]}; objects := [ex_object] |}.
Definition ex_document : catalogDocument :=
  {| Version := 1;
     Objects := [{| e_ReleaseID := "rel-2"; e_ImageSHA256 := ex_sha; e_ImageSize := 1024;
                    e_URLPath := "/fw/a.bin"; e_ImageFile := "a.bin" |}] |}.

(** A guard of the code that does not apply. *)
Ltac passes :=
  match goal with |- (if ?b then _ else _) = _ =>
    assert (b = false) as -> by (vm_compute; reflexivity) end.

Lemma ex_opened : OpenVerified ex_fs ex_object = Some ex_image.
Proof.
  unfold OpenVerified. passes.
  change (Open ex_fs (imageFile ex_object))
    with (Some {| IsRegular := true; Size := 1024; Data := Some ex_image; Seeks := true |}). cbv iota beta.
  passes. cbn [Data]. change (ImageSize ex_object) with 1024.
  rewrite (take_ge ex_image) by (cbn; lia). cbv zeta.
  rewrite (bool_decide_true (hex_encode _ = _)) by apply ex_sha_ok. reflexivity.
Qed.

Definition ex_json : StrictJSON.Decoder :=
  {| StrictJSON.rest := [StrictJSON.OpenObject; StrictJSON.CloseObject]; StrictJSON.eof := true |}.

Lemma ex_loaded : LoadCatalog (λ _, ex_json) (λ _, Some ex_document) ex_fs "/srv/fw/catalog.json"
  (Some (bytes_of "{}")) (Some "/srv/fw") = Some ex_catalog.
Proof.
  unfold LoadCatalog. passes. change (readBoundedFile _ _) with (Some (bytes_of "{}")). cbv iota beta.
  passes. passes. cbn [Objects ex_document load_entries]. unfold load_entry.
  match goal with |- match ?x with _ => _ end = _ =>
    assert (x = Some ({["rel-2"]} ∪ ∅, ex_catalog)) as ->; [|reflexivity] end.
  do 3 passes.
  assert (resolveContainedFile ex_fs "/srv/fw" "a.bin" = Some "/srv/fw/a.bin") as Hf
    by (vm_compute; reflexivity). cbn [e_ImageFile]. rewrite Hf. cbv zeta.
  change {| ReleaseID := _; ImageSHA256 := _ |} with ex_object. by rewrite ex_opened.
Qed.

(** The control plane offers that image to a device. *)
Definition ex_issuer : Token.Issuer :=
  {| Token.i_secret := Token.ex_secret; Token.i_keyID := "k1";
     Token.i_verifyUntil := from_unix 4000000000; Token.i_managed := true;
     Token.i_ttl := 10 * minute; Token.i_audience := Token.OTAAudience |}.
Definition ex_verifier : Token.Verifier :=
  {| Token.secrets := []; Token.managed := Some Token.ex_ring; Token.audience := Token.OTAAudience;
     Token.maxTTL := hour; Token.skew := 30 * second |}.
Definition ex_release : Ota.Release :=
  let m := Ota.ex_manifest 2 "" in
  {| Ota.doc := {| Ota.Schema := 2; Ota.ReleaseID := Ota.ReleaseID m; Ota.Project := Ota.Project m;
       Ota.Board := Ota.Board m; Ota.Channel := Ota.Channel m; Ota.Version := Ota.Version m;
       Ota.ReleaseSequence := 2; Ota.SecureVersion := 1; Ota.ImageURL := "https://fw.example.com/fw/a.bin";
       Ota.ImageSize := 1024; Ota.ImageSHA256 := ex_sha;
       Ota.ResetQualificationSHA256 := Ota.ResetQualificationSHA256 m;
       Ota.NotBefore := Ota.NotBefore m; Ota.ExpiresAt := Ota.ExpiresAt m;
       Ota.SigningKeyID := "key-1"; Ota.SignatureAlgorithm := Ota.SignatureAlgorithm m;
       Ota.SignatureB64URL := "" |};
     Ota.Manifest := []; Ota.Enabled := true; Ota.RolloutBasisPoints := 10000;
     Ota.RetryAfterSeconds := 600 |}.
Definition ex_config : ControlPlane.Config :=
  {| ControlPlane.VoiceIssuer := ex_issuer; ControlPlane.AgentIssuer := ex_issuer;
     ControlPlane.OTAIssuer := ex_issuer; ControlPlane.OTARegistry := [ex_release];
     ControlPlane.OTARolloutKey := replicate 32 (byte_of 3); ControlPlane.Entitlements := false |}.
Definition ex_now : Time := ControlTheorems.ex_now 100.
Definition ex_oe : ControlPlane.offer_env :=
  {| ControlPlane.gate_before := true; ControlPlane.gate_selected := true;
     ControlPlane.gate_issued := true; ControlPlane.select_now := ex_now;
     ControlPlane.issue_now := ex_now;
     ControlPlane.issue_random := Some (replicate 16 (byte_of 6)) |}.
Definition ex_ask : ControlPlane.Request :=
  ControlTheorems.ex_proof Provisioning.OTAOfferProofScope 0
    (Provisioning.CanonicalOTAProof "dev-1" "app" ControlTheorems.ex_stamp ControlTheorems.ex_nonce
       "s3" "stable" "1" "1.0.1")
    [("X-OTA-Board", "s3"); ("X-OTA-Channel", "stable"); ("X-OTA-Release-Sequence", "1");
     ("X-OTA-Version", "1.0.1")].
Definition ex_offer : option ControlPlane.task :=
  ControlPlane.tasks (ControlPlane.issueOTAOffer ex_config 9 ex_ask ControlTheorems.ex_env ex_oe
    ControlTheorems.ex_server) !! 9%nat.
Definition ex_token : string := Eval vm_compute in
  match ex_offer with
  | Some (ControlPlane.Answered (ControlPlane.Offer _ _ token _)) => token
  | _ => ""
  end.

Lemma ex_offered :
  ex_offer = Some (ControlPlane.Answered (ControlPlane.Offer "dev-1" ex_release ex_token 600)).
Proof. vm_compute. reflexivity. Qed.

(** A decoder that knows these claims only. *)
Definition ex_claims : Token.Claims :=
  {| Token.DeviceID := "dev-1"; Token.Subject := ""; Token.Issuer_ := ""; Token.OwnerID := "";
     Token.TenantID := ""; Token.BindingID := ""; Token.BindingRevision := 0; Token.Action := "";
     Token.Audience := Token.OTAAudience; Token.IssuedAt := 1750000100;
     Token.Expires := 1750000700; Token.TokenID := EncodeToString (replicate 16 (byte_of 6));
     Token.ReleaseID := "rel-2"; Token.ImageSHA256 := ex_sha; Token.SigningKeyID := "k1" |}.
Definition ex_Decode (payload : bytes) : option Token.Claims :=
  if bool_decide (payload = Token.json_Marshal ex_claims)
  then Some (Token.with_key ex_claims "") else None.

Lemma ex_ring_ids : Token.ids_ok Token.ex_ring ∧ Strs.no_dot (bytes_of (Token.activeKeyID Token.ex_ring)).
Proof. split; [apply Token.ex_ids|by repeat constructor]. Qed.

Lemma ex_issuer_new : Token.NewManagedIssuerForAudience Token.ex_ring (10 * minute) Token.OTAAudience
  ex_now = Ok ex_issuer.
Proof. vm_compute. reflexivity. Qed.
Lemma ex_verifier_new : Token.NewManagedKeyringVerifierForAudience Token.ex_ring hour Token.OTAAudience
  ex_now = Ok ex_verifier.
Proof. vm_compute. reflexivity. Qed.

Lemma ex_download_issued :
  Token.IssueForRelease (ControlPlane.OTAIssuer ex_config) (ControlPlane.issue_now ex_oe)
    (ControlPlane.issue_random ex_oe) "dev-1" (Ota.ReleaseID (Ota.doc ex_release))
    (Ota.ImageSHA256 (Ota.doc ex_release)) = Ok (ex_token, ex_claims).
Proof. vm_compute. reflexivity. Qed.

Lemma ex_read_back : claims_read_back ex_Decode ex_config ex_oe "dev-1" ex_release.
Proof.
  intros token claims Hi. rewrite ex_download_issued in Hi. injection Hi as _ <-. unfold ex_Decode.
  rewrite bool_decide_true; reflexivity.
Qed.

(** The download. *)
Definition ex_request : Request :=
  {| Method := "GET"; Host := "fw.example.com"; Path := "/fw/a.bin"; RawQuery := ""; RawPath := "";
     ContentLength := 0; TransferEncoding := [];
     Header := λ name, if bool_decide (name = "Accept") then ["application/octet-stream"]
                       else if bool_decide (name = "Authorization") then ["Bearer " +:+ ex_token]
                       else [] |}.
Definition ex_view : Provisioning.View := Provisioning.ex_view 0.
Definition ex_server : Server :=
  {| catalog := ex_catalog; verifier := ex_verifier; MaxConcurrent := 4;
     PublicAuthority := "fw.example.com"; concurrency := 0; devices := ∅;
     identity := Some {| Provisioning.active := ∅; Provisioning.cancelled := ∅ |};
     handlers := ∅ |}.
Definition ex_round : round :=
  {| done_before := false; read_up_to := 600; read_err := None; done_read := false;
     write_up_to := buffer_size; write_err := false; done_written := false |}.
Definition ex_start : list action :=
  [AArrive 1 true ex_now ex_now ex_now ex_view ex_request; ADevice 1; ASlot 1; AOpen 1 ex_fs;
   ACheck 1 true ex_view].

Lemma ex_new : New ex_fs ex_catalog ex_verifier 4 "fw.example.com" true = Some ex_server.
Proof. vm_compute. reflexivity. Qed.

Lemma ex_healthy n : Forall healthy (replicate n ex_round).
Proof. apply Forall_replicate. unfold healthy. by vm_compute. Qed.

Lemma ex_view_allowed w : w ∈ [ex_view; ex_view] → is_Some (identity ex_server) →
  Provisioning.DeviceAllowed w "dev-1" = true.
Proof.
  assert (Provisioning.DeviceAllowed ex_view "dev-1" = true) as Hv by (vm_compute; reflexivity).
  by intros [-> | [-> | []%not_elem_of_nil]%elem_of_cons]%elem_of_cons _.
Qed.

Lemma ex_started : ∃ s h, run ex_Decode ex_server ex_start = Some s ∧ handlers s !! 1%nat = Some h ∧
  pc h = Streaming ex_image ∧ answer h = Some 200 ∧ h_deviceID h = "dev-1" ∧ sent h = [] ∧
  h_object h = Some ex_object.
Proof.
  destruct (offered_token_accepted ex_Decode Token.ex_ring (10 * minute) hour ex_now ex_now ex_config
    ex_verifier ex_issuer_new ex_verifier_new ltac:(split; by vm_compute) ex_ring_ids
    ControlTheorems.ex_server 9 ex_ask ControlTheorems.ex_env ex_oe (replicate 16 (byte_of 6)) "dev-1"
    ex_release ex_token 600 ex_now ex_now ex_offered ex_read_back eq_refl eq_refl)
    as (claims & Hver & Hd & Hne); [split; by vm_compute..|].
  destruct (run_start ex_Decode ex_server 1 ex_now ex_now ex_now ex_view ex_view ex_request
    ("Bearer " +:+ ex_token) ex_object claims ex_fs ex_image) as (s & Hrun & Hh & _).
  - reflexivity.
  - vm_compute. reflexivity.
  - vm_compute. reflexivity.
  - reflexivity.
  - exact Hver.
  - rewrite Hd. exact Hne.
  - apply not_elem_of_empty.
  - by vm_compute.
  - intros t [= <-]. apply not_elem_of_empty.
  - rewrite Hd. apply ex_view_allowed.
  - apply ex_opened.
  - exists s. eexists. split; [exact Hrun|]. split; [exact Hh|].
    cbn [pc answer h_deviceID sent h_object goto reply new_handler]. rewrite Hd. split_and!; reflexivity.
Qed.

(** Two rounds of at most 600 bytes are enough for the image. *)
Lemma copy_exact_and_ends_witness :
  copyExactContext ex_image 1024 (replicate 1024 ex_round) = (ex_image, Some true).
Proof.
  destruct (copy_exact_and_ends ex_image 1024 (replicate 1024 ex_round))
    as (all & ok & E & [rest Hp] & _ & Hok & Hgood); [reflexivity|].
  assert (ok = true) as -> by (apply Hgood; [split; by vm_compute|apply ex_healthy]).
  specialize (Hok eq_refl). rewrite E.
  assert (rest = []) as ->; [|rewrite app_nil_r in Hp; rewrite Hp; reflexivity].
  apply nil_length_inv. apply (f_equal blen) in Hp. rewrite blen_app, Hok in Hp.
  change (blen ex_image) with 1024 in Hp. unfold blen in Hp. lia.
Defined.

Lemma LoadCatalog_sound_witness :
  Lookup ex_catalog "/fw/a.bin" = Some ex_object ∧ NoDup (ReleaseID <$> objects ex_catalog).
Proof.
  destruct (LoadCatalog_sound _ _ _ _ _ _ _ ex_loaded) as (_ & _ & Hi & Hn & _).
  split; [apply Hi; split; [by left|reflexivity]|exact Hn].
Defined.

Lemma served_image_is_the_tokens_witness :
  ∃ view, Provisioning.DeviceAllowed view "dev-1" = true ∧ ACheck 1 true view ∈ ex_start.
Proof.
  destruct ex_started as (s & h & Hrun & Hh & _ & Ha & Hd & _).
  destruct (served_image_is_the_tokens ex_Decode _ _ _ _ _ _ _ _ _ _ _ ex_new Hrun Hh Ha) as
    (o & data & fs & n1 & n2 & n3 & v & q & au & c & _ & _ & _ & _ & _ & _ & _ & _ & _ & _ & _ & _ & _ & _ &
     _ & Hck).
  destruct (Hck eq_refl) as (view & Hin & Hal). exists view. rewrite <- Hd. split; [exact Hal|exact Hin].
Defined.

Lemma revoked_download_stops_witness : ∃ s' h',
  run ex_Decode ex_server (ex_start ++ [AReconcile (λ _, false); ARound 1 ex_image ex_round]) = Some s' ∧
  handlers s' !! 1%nat = Some h' ∧ sent h' = [].
Proof.
  destruct ex_started as (s & h & Hrun & Hh & Hpc & _ & _ & Hs & Ho).
  assert (∃ s', run ex_Decode ex_server (ex_start ++ [AReconcile (λ _, false); ARound 1 ex_image ex_round])
    = Some s') as [s' Hrun'].
  { rewrite origin_run_app, Hrun. cbn. unfold ReconcileIdentity.
    destruct (identity s); cbn; rewrite Hh; cbn; rewrite Hpc, Ho; eauto. }
  destruct (revoked_download_stops ex_Decode _ _ _ _ _ _ ex_start (λ _, false) [ARound 1 ex_image ex_round]
    s 1 h s' ex_new Hrun Hh) as (h' & Hh' & Hsent & _); [by rewrite Hpc|reflexivity|exact Hrun'|].
  exists s', h'. split; [exact Hrun'|]. split; [exact Hh'|]. by rewrite Hsent.
Defined.

Lemma offered_image_downloads_witness : ∃ k s' h,
  run ex_Decode ex_server (ex_start ++ (ARound 1 ex_image <$> take k (replicate 1024 ex_round)) ++
    [ASlotBack 1; ADeviceBack 1; AIdentity 1]) = Some s' ∧
  handlers s' !! 1%nat = Some h ∧ served h = true ∧ sent h = ex_image.
Proof.
  destruct (offered_image_downloads ex_Decode Token.ex_ring (10 * minute) hour ex_now ex_now ex_config
    ex_verifier ex_issuer_new ex_verifier_new ltac:(split; by vm_compute) ex_ring_ids
    ControlTheorems.ex_server 9 ex_ask ControlTheorems.ex_env ex_oe (replicate 16 (byte_of 6)) "dev-1"
    ex_release ex_token 600 ex_now ex_now ex_server 1 ex_view ex_view ex_request ex_object ex_fs
    ex_image (replicate 1024 ex_round) ex_offered ex_read_back eq_refl eq_refl)
    as (k & s' & h & Hrun & Hh & _ & _ & Hsv & Hsent & _).
  - split; by vm_compute.
  - split; by vm_compute.
  - reflexivity.
  - reflexivity.
  - intros t [= <-]. apply not_elem_of_empty.
  - apply not_elem_of_empty.
  - by vm_compute.
  - apply ex_view_allowed.
  - vm_compute. reflexivity.
  - vm_compute. reflexivity.
  - reflexivity.
  - vm_compute. reflexivity.
  - reflexivity.
  - apply ex_opened.
  - apply ex_healthy.
  - by vm_compute.
  - exists k, s', h. split; [exact Hrun|]. split; [exact Hh|]. split; [exact Hsv|exact Hsent].
Defined.

End OriginTheorems.
