(* ===== verification/Rollout.v ===== *)
(** * Rollout: approved rollout bundles and their lineage

    Models [internal/deploymentbundle]: the validation of a staging bundle
    (validate.go), of the bundle of a rollout generation with its request and its two
    approvals, and of a chain of generations down to staging (rollout.go); and the
    loading of a release registry from a file (ota/releases.go). The file system, the
    JSON decoders, the PEM and X.509 parsers and the signature algorithms are read
    through records of functions. Every error is [None]. *)

From stdpp Require Import base gmap strings list.
From Stdlib Require Import ZArith Lia.
From Stdlib.Strings Require Import Byte.
From S2P Require Import Prelude GoBase GoCrypto GoPath Protocol Auth Provisioning StrictJSON Ota.
From S2P Require Import FirmwareOrigin.

Module Rollout.
Import Ident Paths.

Definition maximumApprovalWindow : Z := 24 * 60 * 60.
Definition maximumReceiptBytes : Z := 8192.
Definition maximumConfigBytes : Z := 1024 * 1024.

(** ** Documents *)

Record Receipt : Type := {
  s_Schema : Z;
  s_ReleaseID : string;
  s_SigningKeyID : string;
  s_Project : string;
  s_Board : string;
  s_Channel : string;
  s_Version : string;
  s_ReleaseSequence : Z;
  s_SecureVersion : Z;
  s_ImageAuthority : string;
  s_ImageURLPath : string;
  s_ImageSize : Z;
  s_ImageSHA256 : string;
  s_ManifestSHA256 : string;
  s_PublicKeySHA256 : string;
  s_SDKConfigSHA256 : string;
  s_ControlRegistrySHA256 : string;
  s_OriginCatalogSHA256 : string;
  s_RolloutEnabled : bool;
  s_RolloutBasisPoints : Z;
  s_RetryAfterSeconds : Z;
}.

Record ApprovalEvidence : Type := {
  v_ApproverID : string;
  v_ApprovalKeyID : string;
  v_ApprovalSHA256 : string;
}.

Record RolloutReceipt : Type := {
  Schema : Z;
  GenerationID : string;
  GenerationSequence : Z;
  ParentGenerationID : string;
  ParentGenerationSequence : Z;
  ParentReceiptSHA256 : string;
  PromotionAction : string;
  ApprovalKeyringSHA256 : string;
  RolloutRequestSHA256 : string;
  Evidence : list ApprovalEvidence;
  PromotedAt : Z;
  ReleaseID : string;
  SigningKeyID : string;
  Project : string;
  Board : string;
  Channel : string;
  Version : string;
  ReleaseSequence : Z;
  SecureVersion : Z;
  ImageAuthority : string;
  ImageURLPath : string;
  ImageSize : Z;
  ImageSHA256 : string;
  ManifestSHA256 : string;
  PublicKeySHA256 : string;
  SDKConfigSHA256 : string;
  ControlRegistrySHA256 : string;
  OriginCatalogSHA256 : string;
  RolloutEnabled : bool;
  RolloutBasisPoints : Z;
  RetryAfterSeconds : Z;
}.

Record rolloutRequest : Type := {
  q_Schema : Z;
  q_GenerationID : string;
  q_GenerationSequence : Z;
  q_ParentGenerationID : string;
  q_ParentGenerationSequence : Z;
  q_ParentReceiptSHA256 : string;
  q_ParentRolloutEnabled : bool;
  q_ParentRolloutBasisPoints : Z;
  q_ReleaseID : string;
  q_ReleaseSequence : Z;
  q_ImageSHA256 : string;
  q_PromotionAction : string;
  q_RolloutEnabled : bool;
  q_RolloutBasisPoints : Z;
  q_RetryAfterSeconds : Z;
  q_CreatedAt : Z;
  q_ExpiresAt : Z;
  q_ApprovalKeyringSHA256 : string;
}.

Record rolloutApproval : Type := {
  a_Schema : Z;
  a_RequestSHA256 : string;
  a_ApproverID : string;
  a_ApprovalKeyID : string;
  a_Decision : string;
  a_SignedAt : Z;
  a_SignatureAlgorithm : string;
  a_SignatureB64URL : string;
}.

Record approverEntry : Type := {
  n_ApproverID : string;
  n_ApprovalKeyID : string;
  n_PublicKeyFile : string;
  n_Enabled : bool;
}.

Record approverKeyringDocument : Type := {
  k_Version : Z;
  k_Approvers : list approverEntry;
}.

Record trustedApprover : Type := {
  approverID : string;
  keyID : string;
  key : bytes;
  enabled : bool;
}.

Record trustedApproverKeyring : Type := {
  byKeyID : gmap string trustedApprover;
  digest : string;
}.

Record parentRolloutState : Type := {
  p_generationID : string;
  p_generationSequence : Z;
  p_releaseID : string;
  p_releaseSequence : Z;
  p_imageSHA256 : string;
  p_rolloutEnabled : bool;
  p_rolloutBasisPoints : Z;
  p_retryAfterSeconds : Z;
}.

(** ** The surroundings *)

(** What [Lstat] and [DirEntry.Info] say of a file: is it a symbolic link, a directory,
    a regular file, and its permission bits. *)
Record FileInfo : Type := {
  is_symlink : bool;
  is_dir : bool;
  is_regular : bool;
  perm : Z;
}.

(** [WalkDir] gives the names it visits, each with its information or an error. *)
Record world : Type := {
  files : FirmwareOrigin.filesystem;
  Lstat : string → option FileInfo;
  WalkDir : string → list (string * option FileInfo);
  Abs : string → option string;
}.

(** The JSON decoders, by the type decoded: [raw_fields] gives the names of an object,
    [schema_of] its [schema] alone, [approver_fields] the names of each entry of
    [approvers]. *)
Record library : Type := {
  tokens : bytes → StrictJSON.Decoder;
  raw_fields : bytes → option (list string);
  schema_of : bytes → option Z;
  approver_fields : bytes → option (list (list string));
  decode_receipt : bytes → option Receipt;
  decode_rollout_receipt : bytes → option RolloutReceipt;
  decode_request : bytes → option rolloutRequest;
  decode_approval : bytes → option rolloutApproval;
  decode_keyring : bytes → option approverKeyringDocument;
  decode_catalog : bytes → option FirmwareOrigin.catalogDocument;
  decode_registry : bytes → option Ota.registryDocument;
  decode_manifest : bytes → option Ota.manifestDocument;
  url_Parse : string → option Ota.URL;
  (* the type of the first block, its bytes and what follows it *)
  pem_Decode : bytes → option (string * bytes * bytes);
  (* [x509.ParsePKIXPublicKey] of an Ed25519 and of an ECDSA P-256 key *)
  parse_ed25519 : bytes → option bytes;
  parse_p256 : bytes → option bytes;
  ed25519_Verify : bytes → bytes → bytes → bool;
  ecdsa_VerifyASN1 : bytes → bytes → bytes → bool;
}.

Section bundles.
Context (W : world) (L : library).

(** ** Files and fields *)

Definition read_regular (name : string) : option bytes :=
  match FirmwareOrigin.Open (files W) name with
  | Some file => if FirmwareOrigin.IsRegular file then FirmwareOrigin.Data file else None
  | None => None
  end.

Definition readBoundedFile (name : string) (maximum : Z) : option bytes :=
  FirmwareOrigin.readBoundedFile (read_regular name) maximum.

Definition digestBoundedFile (name : string) (maximum : Z) : option string :=
  payload ← readBoundedFile name maximum;
  Some (hex_encode (Sum256 payload)).

(** The names of an object are those expected, each of them once. *)
Definition hasExactRawFields (document : list string) (expected : list string) : bool :=
  (Z.of_nat (length document) =? Z.of_nat (length expected))
  && forallb (λ name, bool_decide (name ∈ document)) expected.

Definition requireExactJSONFields (payload : bytes) (expected : list string) : bool :=
  match raw_fields L payload with
  | None => false
  | Some document => hasExactRawFields document expected
  end.

Definition rejectDuplicateJSONNames (payload : bytes) : bool :=
  FirmwareOrigin.rejectDuplicateJSONNames (tokens L payload).

Definition decodeExactObject {A} (decode : bytes → option A) (fields : list string)
    (payload : bytes) : option A :=
  IF negb (rejectDuplicateJSONNames payload) RETURN None ;;
  IF negb (requireExactJSONFields payload fields) RETURN None ;;
  decode payload.

Definition nestedArrayObject (payload : bytes) (index : nat) : option (list string) :=
  entries ← approver_fields L payload; entries !! index.

Definition receiptFields : list string :=
  ["schema"; "release_id"; "signing_key_id"; "project"; "board"; "channel"; "version";
   "release_sequence"; "secure_version"; "image_authority"; "image_url_path"; "image_size";
   "image_sha256"; "manifest_sha256"; "public_key_sha256"; "sdkconfig_sha256";
   "control_registry_sha256"; "origin_catalog_sha256"; "rollout_enabled";
   "rollout_basis_points"; "retry_after_seconds"].

Definition rolloutReceiptFields : list string :=
  ["schema"; "generation_id"; "generation_sequence"; "parent_generation_id";
   "parent_generation_sequence"; "parent_receipt_sha256"; "promotion_action";
   "approval_keyring_sha256"; "rollout_request_sha256"; "approval_evidence"; "promoted_at";
   "release_id"; "signing_key_id"; "project"; "board"; "channel"; "version";
   "release_sequence"; "secure_version"; "image_authority"; "image_url_path"; "image_size";
   "image_sha256"; "manifest_sha256"; "public_key_sha256"; "sdkconfig_sha256";
   "control_registry_sha256"; "origin_catalog_sha256"; "rollout_enabled";
   "rollout_basis_points"; "retry_after_seconds"].

Definition rolloutRequestFields : list string :=
  ["schema"; "generation_id"; "generation_sequence"; "parent_generation_id";
   "parent_generation_sequence"; "parent_receipt_sha256"; "parent_rollout_enabled";
   "parent_rollout_basis_points"; "release_id"; "release_sequence"; "image_sha256";
   "promotion_action"; "rollout_enabled"; "rollout_basis_points"; "retry_after_seconds";
   "created_at"; "expires_at"; "approval_keyring_sha256"].

Definition rolloutApprovalFields : list string :=
  ["schema"; "request_sha256"; "approver_id"; "approval_key_id"; "decision"; "signed_at";
   "signature_algorithm"; "signature_b64url"].

Definition approverKeyringFields : list string := ["version"; "approvers"].
Definition approverEntryFields : list string :=
  ["approver_id"; "approval_key_id"; "public_key_file"; "enabled"].

(** ** Loading what a bundle contains *)

(** A file read without looking at its kind, as the registry and the catalogue do. *)
Definition read_any (name : string) : option bytes :=
  file ← FirmwareOrigin.Open (files W) name; FirmwareOrigin.Data file.

(** The directory of a file, symbolic links resolved. *)
Definition root_of (name : string) : option string :=
  root ← Abs W (Dir name); FirmwareOrigin.EvalSymlinks (files W) root.

Definition LoadCatalog (catalogPath : string) : option FirmwareOrigin.Catalog :=
  FirmwareOrigin.LoadCatalog (tokens L) (decode_catalog L) (files W) catalogPath
    (read_any catalogPath) (root_of catalogPath).

(** One PEM block of a public key, with [parse] for its contents. *)
Definition public_key (parse : bytes → option bytes) (payload : bytes) : option bytes :=
  match pem_Decode L payload with
  | None => None
  | Some (block_type, block, rest) =>
      IF negb (bool_decide (block_type = "PUBLIC KEY"))
         || negb (slen (Text.TrimSpace (string_of rest)) =? 0) RETURN None ;;
      parse block
  end.

(** [resolveContainedFile] of ota/releases.go. *)
Definition resolveContainedFile (root name : string) : option string :=
  IF 4096 <? slen name RETURN None ;;
  FirmwareOrigin.resolveContainedFile (files W) root name.

(** [loadPublicKey] of ota/releases.go. *)
Definition loadPublicKey (root name : string) : option bytes :=
  path ← resolveContainedFile root name;
  payload ← FirmwareOrigin.readBoundedFile (read_any path) 4096;
  public_key (parse_p256 L) payload.

(** [ota.LoadRegistry]: the part before the document is decoded. *)
Definition LoadRegistry (path : string) : option Ota.Registry :=
  IF bool_decide (path = "") RETURN None ;;
  payload ← FirmwareOrigin.readBoundedFile (read_any path) maximumConfigBytes;
  IF negb (rejectDuplicateJSONNames payload) RETURN None ;;
  document ← decode_registry L payload;
  root ← root_of path;
  Ota.LoadRegistry (url_Parse L) (decode_manifest L) bytes (ecdsa_VerifyASN1 L)
    (λ name, file ← resolveContainedFile root name;
             FirmwareOrigin.readBoundedFile (read_any file) 8192)
    (loadPublicKey root) document.

(** ** The tree of a bundle *)

(** The directories above a relative name; [fuel] is at least their number. *)
Fixpoint parents (fuel : nat) (name : string) : list string :=
  match fuel with
  | O => []
  | S fuel =>
      let parent := Dir name in
      if bool_decide (parent = ".") then [] else parent :: parents fuel parent
  end.

Definition writable (info : FileInfo) : bool := negb (Z.land (perm info) 146 =? 0). (* 0o222 *)

(** The walk: [expected] are the files still to come. *)
Fixpoint walk (root : string) (directories : list string) (expected : list string)
    (entries : list (string * option FileInfo)) : option (list string) :=
  match entries with
  | [] => Some expected
  | (_, None) :: _ => None
  | (name, Some info) :: entries =>
      IF is_symlink info || writable info RETURN None ;;
      IF bool_decide (name = root) RETURN walk root directories expected entries ;;
      match Rel root name with
      | None => None
      | Some relative =>
          IF is_dir info
            RETURN (if bool_decide (relative ∈ directories)
                    then walk root directories expected entries else None) ;;
          IF negb (is_regular info) RETURN None ;;
          IF negb (bool_decide (relative ∈ expected)) RETURN None ;;
          walk root directories (List.filter (λ f, negb (bool_decide (f = relative))) expected) entries
      end
  end.

(** The two functions for a tree differ in the files they expect only. *)
Definition validate_tree (root : string) (expectedFiles : list string) : bool :=
  let directories := expectedFiles ≫= (λ name, parents (String.length name) name) in
  match walk root directories expectedFiles (WalkDir W root) with
  | Some [] => true
  | _ => false
  end.

Definition TrimPrefix (value prefix : string) : string :=
  if String.prefix prefix value
  then String.substring (String.length prefix) (String.length value - String.length prefix) value
  else value.

Definition image_file (urlPath : string) : string :=
  Join "origin/objects" (TrimPrefix urlPath "/").

Definition stagingFiles (urlPath : string) : list string :=
  ["READY"; "deployment-receipt.json"; "control/release-public.pem";
   "control/release-manifest.json"; "control/ota-release-registry.json";
   "origin/firmware-origin-catalog.json"; "evidence/sdkconfig"; image_file urlPath].

Definition validateExactReadOnlyTree (root urlPath : string) : bool :=
  validate_tree root (stagingFiles urlPath).

Definition validateRolloutReadOnlyTree (root urlPath : string) : bool :=
  validate_tree root
    (stagingFiles urlPath ++
     ["promotion/rollout-request.json"; "promotion/approval-1.json"; "promotion/approval-2.json"]).

(** ** A staging bundle *)

Definition validateReceipt (receipt : Receipt) (expectedAuthority : string) : bool :=
  negb (negb (s_Schema receipt =? 1) || negb (ValidIdentifier (s_ReleaseID receipt) 64)
    || negb (ValidIdentifier (s_SigningKeyID receipt) 64)
    || negb (ValidIdentifier (s_Project receipt) 32)
    || negb (ValidIdentifier (s_Board receipt) 32)
    || negb (ValidIdentifier (s_Channel receipt) 32) || bool_decide (s_Version receipt = "")
    || (s_ReleaseSequence receipt =? 0)
    || negb (bool_decide (s_ImageAuthority receipt = expectedAuthority))
    || negb (FirmwareOrigin.validURLPath (s_ImageURLPath receipt)) || (s_ImageSize receipt <? 1024)
    || negb (validSHA256 (s_ImageSHA256 receipt)) || negb (validSHA256 (s_ManifestSHA256 receipt))
    || negb (validSHA256 (s_PublicKeySHA256 receipt))
    || negb (validSHA256 (s_SDKConfigSHA256 receipt))
    || negb (validSHA256 (s_ControlRegistrySHA256 receipt))
    || negb (validSHA256 (s_OriginCatalogSHA256 receipt)) || s_RolloutEnabled receipt
    || negb (s_RolloutBasisPoints receipt =? 0) || (s_RetryAfterSeconds receipt <? 60)
    || (86400 <? s_RetryAfterSeconds receipt)).

(** The READY marker repeats the digest of the receipt. *)
Definition ready_marker (root : string) (receiptBytes : bytes) : bool :=
  match readBoundedFile (Join root "READY") 128 with
  | Some ready => bool_decide (ready = bytes_of (hex_encode (Sum256 receiptBytes) +:+ Provisioning.nl))
  | None => false
  end.

Definition file_digests (root : string) (manifest publicKey sdkconfig registry catalog : string) :
    bool :=
  forallb (λ '(name, maximum, expect),
      bool_decide (digestBoundedFile (Join root name) maximum = Some expect))
    [("control/release-manifest.json", 8192, manifest);
     ("control/release-public.pem", 4096, publicKey);
     ("evidence/sdkconfig", maximumConfigBytes, sdkconfig);
     ("control/ota-release-registry.json", maximumConfigBytes, registry);
     ("origin/firmware-origin-catalog.json", maximumConfigBytes, catalog)].

Definition registryPath (root : string) : string := Join root "control/ota-release-registry.json".
Definition catalogPath (root : string) : string := Join root "origin/firmware-origin-catalog.json".

(** The origin serves the image of the receipt. *)
Definition origin_matches (root urlPath releaseID imageSHA256 : string) (imageSize : Z) : bool :=
  match LoadCatalog (catalogPath root) with
  | None => false
  | Some catalog =>
      match FirmwareOrigin.Lookup catalog urlPath with
      | None => false
      | Some object =>
          bool_decide (FirmwareOrigin.ReleaseID object = releaseID)
          && bool_decide (FirmwareOrigin.ImageSHA256 object = imageSHA256)
          && (FirmwareOrigin.ImageSize object =? imageSize)
          && FirmwareOrigin.Ready (files W) catalog
      end
  end.

Definition Validate (root expectedAuthority : string) : option Receipt :=
  IF bool_decide (root = "") || negb (FirmwareOrigin.validAuthority expectedAuthority)
    RETURN None ;;
  rootInfo ← Lstat W root;
  IF is_symlink rootInfo || negb (is_dir rootInfo) RETURN None ;;
  receiptBytes ← readBoundedFile (Join root "deployment-receipt.json") maximumReceiptBytes;
  receipt ← decodeExactObject (decode_receipt L) receiptFields receiptBytes;
  IF negb (validateReceipt receipt expectedAuthority) RETURN None ;;
  IF negb (ready_marker root receiptBytes) RETURN None ;;
  IF negb (file_digests root (s_ManifestSHA256 receipt) (s_PublicKeySHA256 receipt)
             (s_SDKConfigSHA256 receipt) (s_ControlRegistrySHA256 receipt)
             (s_OriginCatalogSHA256 receipt)) RETURN None ;;
  registry ← LoadRegistry (registryPath root);
  release ← Ota.Lookup registry (s_ReleaseID receipt);
  let m := Ota.doc release in
  IF negb (bool_decide (Ota.Project m = s_Project receipt))
     || negb (bool_decide (Ota.Board m = s_Board receipt))
     || negb (bool_decide (Ota.Channel m = s_Channel receipt))
     || negb (bool_decide (Ota.Version m = s_Version receipt))
     || negb (Ota.ReleaseSequence m =? s_ReleaseSequence receipt)
     || negb (Ota.SecureVersion m =? s_SecureVersion receipt)
     || negb (bool_decide (Ota.SigningKeyID m = s_SigningKeyID receipt))
     || negb (bool_decide (Ota.ImageURL m = "https://" +:+ expectedAuthority +:+ s_ImageURLPath receipt))
     || negb (Ota.ImageSize m =? s_ImageSize receipt)
     || negb (bool_decide (Ota.ImageSHA256 m = s_ImageSHA256 receipt)) || Ota.Enabled release
     || negb (Ota.RolloutBasisPoints release =? 0)
     || negb (Ota.RetryAfterSeconds release =? wrap_u32 (s_RetryAfterSeconds receipt))
    RETURN None ;;
  IF negb (bool_decide (hex_encode (Sum256 (Ota.Manifest release)) = s_ManifestSHA256 receipt))
    RETURN None ;;
  IF negb (origin_matches root (s_ImageURLPath receipt) (s_ReleaseID receipt)
             (s_ImageSHA256 receipt) (s_ImageSize receipt)) RETURN None ;;
  IF negb (validateExactReadOnlyTree root (s_ImageURLPath receipt)) RETURN None ;;
  Some receipt.

(** ** A rollout generation *)

Definition validPromotionAction (value : string) : bool :=
  bool_decide (value = "EXPAND") || bool_decide (value = "EMERGENCY_STOP")
  || bool_decide (value = "RESUME").

(** The evidence is sorted by approver. *)
Fixpoint evidence_shape (prior : string) (evidence : list ApprovalEvidence) : bool :=
  match evidence with
  | [] => true
  | e :: evidence =>
      IF negb (ValidIdentifier (v_ApproverID e) 64) || negb (ValidIdentifier (v_ApprovalKeyID e) 64)
         || negb (validSHA256 (v_ApprovalSHA256 e)) || str_leb (v_ApproverID e) prior
        RETURN false ;;
      evidence_shape (v_ApproverID e) evidence
  end.

Definition validateRolloutReceiptShape (receipt : RolloutReceipt) (authority : string) : bool :=
  IF negb (Schema receipt =? 2) || negb (ValidIdentifier (GenerationID receipt) 64)
     || negb (ValidIdentifier (ParentGenerationID receipt) 64) || (GenerationSequence receipt =? 0)
     || negb (GenerationSequence receipt =? wrap_u32 (ParentGenerationSequence receipt + 1))
     || bool_decide (GenerationID receipt = ParentGenerationID receipt)
     || negb (validSHA256 (ParentReceiptSHA256 receipt))
     || negb (validPromotionAction (PromotionAction receipt))
     || negb (validSHA256 (ApprovalKeyringSHA256 receipt))
     || negb (validSHA256 (RolloutRequestSHA256 receipt))
     || (PromotedAt receipt <? 1609459200) || (4102444800 <? PromotedAt receipt)
     || negb (ValidIdentifier (ReleaseID receipt) 64)
     || negb (ValidIdentifier (SigningKeyID receipt) 64)
     || negb (ValidIdentifier (Project receipt) 32) || negb (ValidIdentifier (Board receipt) 32)
     || negb (ValidIdentifier (Channel receipt) 32) || bool_decide (Version receipt = "")
     || (ReleaseSequence receipt =? 0) || negb (bool_decide (ImageAuthority receipt = authority))
     || negb (FirmwareOrigin.validURLPath (ImageURLPath receipt)) || (ImageSize receipt <? 1024)
     || negb (validSHA256 (ImageSHA256 receipt)) || negb (validSHA256 (ManifestSHA256 receipt))
     || negb (validSHA256 (PublicKeySHA256 receipt)) || negb (validSHA256 (SDKConfigSHA256 receipt))
     || negb (validSHA256 (ControlRegistrySHA256 receipt))
     || negb (validSHA256 (OriginCatalogSHA256 receipt))
     || negb (Bool.eqb (RolloutEnabled receipt) (0 <? RolloutBasisPoints receipt))
     || (RolloutBasisPoints receipt <? 0) || (10000 <? RolloutBasisPoints receipt)
     || (RetryAfterSeconds receipt <? 60) || (86400 <? RetryAfterSeconds receipt)
     || negb (Z.of_nat (length (Evidence receipt)) =? 2)
    RETURN false ;;
  evidence_shape "" (Evidence receipt).

(** The promotion that a request asks for. *)
Definition valid_transition (request : rolloutRequest) : bool :=
  if bool_decide (q_PromotionAction request = "EXPAND") then
    negb (negb (q_RolloutEnabled request)
          || (q_RolloutBasisPoints request <=? q_ParentRolloutBasisPoints request)
          || (negb (q_ParentRolloutEnabled request)
              && negb (q_ParentGenerationSequence request =? 0)))
  else if bool_decide (q_PromotionAction request = "EMERGENCY_STOP") then
    negb (negb (q_ParentRolloutEnabled request) || q_RolloutEnabled request
          || negb (q_RolloutBasisPoints request =? 0))
  else if bool_decide (q_PromotionAction request = "RESUME") then
    negb (q_ParentRolloutEnabled request || (q_ParentGenerationSequence request =? 0)
          || negb (q_RolloutEnabled request))
  else true.

Definition validateRolloutRequest (request : rolloutRequest) : bool :=
  IF negb (q_Schema request =? 1) || negb (ValidIdentifier (q_GenerationID request) 64)
     || negb (ValidIdentifier (q_ParentGenerationID request) 64)
     || (q_GenerationSequence request =? 0)
     || negb (q_GenerationSequence request =? wrap_u32 (q_ParentGenerationSequence request + 1))
     || bool_decide (q_GenerationID request = q_ParentGenerationID request)
     || negb (validSHA256 (q_ParentReceiptSHA256 request))
     || negb (Bool.eqb (q_ParentRolloutEnabled request) (0 <? q_ParentRolloutBasisPoints request))
     || (q_ParentRolloutBasisPoints request <? 0) || (10000 <? q_ParentRolloutBasisPoints request)
     || negb (ValidIdentifier (q_ReleaseID request) 64) || (q_ReleaseSequence request =? 0)
     || negb (validSHA256 (q_ImageSHA256 request))
     || negb (validPromotionAction (q_PromotionAction request))
     || negb (Bool.eqb (q_RolloutEnabled request) (0 <? q_RolloutBasisPoints request))
     || (q_RolloutBasisPoints request <? 0) || (10000 <? q_RolloutBasisPoints request)
     || (q_RetryAfterSeconds request <? 60) || (86400 <? q_RetryAfterSeconds request)
     || (q_CreatedAt request <? 1609459200) || (4102444800 <? q_ExpiresAt request)
     || (q_ExpiresAt request <=? q_CreatedAt request)
     || (maximumApprovalWindow <? q_ExpiresAt request -i q_CreatedAt request)
     || negb (validSHA256 (q_ApprovalKeyringSHA256 request))
    RETURN false ;;
  valid_transition request.

(** *** The approvers *)

Definition resolveContainedRolloutFile (root name : string) : option string :=
  IF IsAbs name || Contains name "\" || bool_decide (name = "") || (4096 <? slen name)
    RETURN None ;;
  let clean := Clean name in
  IF bool_decide (clean = ".") || bool_decide (clean = "..") || negb (bool_decide (clean = name))
     || String.prefix "../" clean RETURN None ;;
  let joined := Join root clean in
  info ← Lstat W joined;
  IF is_symlink info RETURN None ;;
  resolved ← FirmwareOrigin.EvalSymlinks (files W) joined;
  relative ← Rel root resolved;
  IF bool_decide (relative = "..") || String.prefix "../" relative RETURN None ;;
  Some resolved.

(** One round of the loop of [loadApproverKeyring]; the sets are what was seen. *)
Definition load_approver (payload : bytes) (root : string) (index : nat) (entry : approverEntry)
    (seenApprovers : gset string) (seenPublicKeys : gset bytes)
    (ring : gmap string trustedApprover) :
    option (gset string * gset bytes * gmap string trustedApprover) :=
  raw ← nestedArrayObject payload index;
  IF negb (hasExactRawFields raw approverEntryFields)
     || negb (ValidIdentifier (n_ApproverID entry) 64)
     || negb (ValidIdentifier (n_ApprovalKeyID entry) 64) || bool_decide (n_PublicKeyFile entry = "")
    RETURN None ;;
  IF bool_decide (n_ApproverID entry ∈ seenApprovers) RETURN None ;;
  IF bool_decide (is_Some (ring !! n_ApprovalKeyID entry)) RETURN None ;;
  keyPath ← resolveContainedRolloutFile root (n_PublicKeyFile entry);
  keyPayload ← readBoundedFile keyPath 4096;
  key ← public_key (parse_ed25519 L) keyPayload;
  IF negb (blen key =? 32) RETURN None ;;
  IF bool_decide (key ∈ seenPublicKeys) RETURN None ;;
  Some ({[n_ApproverID entry]} ∪ seenApprovers, {[key]} ∪ seenPublicKeys,
        <[n_ApprovalKeyID entry := {| approverID := n_ApproverID entry;
            keyID := n_ApprovalKeyID entry; key := key; enabled := n_Enabled entry |}]> ring).

Fixpoint load_approvers (payload : bytes) (root : string) (index : nat)
    (entries : list approverEntry) (seenApprovers : gset string) (seenPublicKeys : gset bytes)
    (ring : gmap string trustedApprover) : option (gmap string trustedApprover) :=
  match entries with
  | [] => Some ring
  | entry :: entries =>
      match load_approver payload root index entry seenApprovers seenPublicKeys ring with
      | Some (seenApprovers, seenPublicKeys, ring) =>
          load_approvers payload root (S index) entries seenApprovers seenPublicKeys ring
      | None => None
      end
  end.

Definition loadApproverKeyring (name : string) : option trustedApproverKeyring :=
  payload ← readBoundedFile name maximumConfigBytes;
  document ← decodeExactObject (decode_keyring L) approverKeyringFields payload;
  IF negb (k_Version document =? 1) || (Z.of_nat (length (k_Approvers document)) <? 2)
     || (32 <? Z.of_nat (length (k_Approvers document))) RETURN None ;;
  root ← root_of name;
  ring ← load_approvers payload root 0 (k_Approvers document) ∅ ∅ ∅;
  Some {| byKeyID := ring; digest := hex_encode (Sum256 payload) |}.

Definition rolloutApprovalPayload (approval : rolloutApproval) : bytes :=
  let nl := Provisioning.nl in
  bytes_of ("xiaozhi-ota-rollout-approval-v1" +:+ nl +:+
    "approval_key_id=" +:+ a_ApprovalKeyID approval +:+ nl +:+
    "approver_id=" +:+ a_ApproverID approval +:+ nl +:+
    "decision=" +:+ a_Decision approval +:+ nl +:+
    "request_sha256=" +:+ a_RequestSHA256 approval +:+ nl +:+
    "schema=" +:+ FormatInt (a_Schema approval) +:+ nl +:+
    "signature_algorithm=" +:+ a_SignatureAlgorithm approval +:+ nl +:+
    "signed_at=" +:+ FormatInt (a_SignedAt approval) +:+ nl).

Definition verifyRolloutApproval (approval : rolloutApproval) (request : rolloutRequest)
    (requestHash : string) (keyring : trustedApproverKeyring)
    (seenApprovers seenKeys : gset string) : option (gset string * gset string) :=
  IF negb (a_Schema approval =? 1) || negb (bool_decide (a_RequestSHA256 approval = requestHash))
     || negb (ValidIdentifier (a_ApproverID approval) 64)
     || negb (ValidIdentifier (a_ApprovalKeyID approval) 64)
     || negb (bool_decide (a_Decision approval = "APPROVE"))
     || negb (bool_decide (a_SignatureAlgorithm approval = "Ed25519"))
     || (a_SignedAt approval <? q_CreatedAt request) || (q_ExpiresAt request <? a_SignedAt approval)
    RETURN None ;;
  trusted ← byKeyID keyring !! a_ApprovalKeyID approval;
  IF negb (enabled trusted) || negb (bool_decide (approverID trusted = a_ApproverID approval))
    RETURN None ;;
  IF bool_decide (a_ApproverID approval ∈ seenApprovers) RETURN None ;;
  IF bool_decide (a_ApprovalKeyID approval ∈ seenKeys) RETURN None ;;
  signature ← DecodeString (a_SignatureB64URL approval);
  IF negb (blen signature =? 64)
     || negb (bool_decide (EncodeToString signature = a_SignatureB64URL approval))
     || negb (ed25519_Verify L (key trusted) (rolloutApprovalPayload approval) signature)
    RETURN None ;;
  Some ({[a_ApproverID approval]} ∪ seenApprovers, {[a_ApprovalKeyID approval]} ∪ seenKeys).

(** *** The parent *)

Definition loadParentState (root authority : string) : option (parentRolloutState * bytes) :=
  payload ← readBoundedFile (Join root "deployment-receipt.json") maximumReceiptBytes;
  schema ← schema_of L payload;
  if schema =? 1 then
    receipt ← Validate root authority;
    Some ({| p_generationID := "staging"; p_generationSequence := 0;
             p_releaseID := s_ReleaseID receipt; p_releaseSequence := s_ReleaseSequence receipt;
             p_imageSHA256 := s_ImageSHA256 receipt; p_rolloutEnabled := s_RolloutEnabled receipt;
             p_rolloutBasisPoints := s_RolloutBasisPoints receipt;
             p_retryAfterSeconds := s_RetryAfterSeconds receipt |}, payload)
  else
    IF negb (schema =? 2) RETURN None ;;
    receipt ← decodeExactObject (decode_rollout_receipt L) rolloutReceiptFields payload;
    IF negb (validateRolloutReceiptShape receipt authority) RETURN None ;;
    IF negb (ready_marker root payload) RETURN None ;;
    Some ({| p_generationID := GenerationID receipt;
             p_generationSequence := GenerationSequence receipt;
             p_releaseID := ReleaseID receipt; p_releaseSequence := ReleaseSequence receipt;
             p_imageSHA256 := ImageSHA256 receipt; p_rolloutEnabled := RolloutEnabled receipt;
             p_rolloutBasisPoints := RolloutBasisPoints receipt;
             p_retryAfterSeconds := RetryAfterSeconds receipt |}, payload).

Definition compareRequestParent (request : rolloutRequest) (parent : parentRolloutState)
    (parentReceipt : bytes) : bool :=
  negb (negb (bool_decide (q_ParentGenerationID request = p_generationID parent))
    || negb (q_ParentGenerationSequence request =? p_generationSequence parent)
    || negb (q_GenerationSequence request =? wrap_u32 (p_generationSequence parent + 1))
    || negb (bool_decide (q_ParentReceiptSHA256 request = hex_encode (Sum256 parentReceipt)))
    || negb (Bool.eqb (q_ParentRolloutEnabled request) (p_rolloutEnabled parent))
    || negb (q_ParentRolloutBasisPoints request =? p_rolloutBasisPoints parent)
    || negb (bool_decide (q_ReleaseID request = p_releaseID parent))
    || negb (q_ReleaseSequence request =? p_releaseSequence parent)
    || negb (bool_decide (q_ImageSHA256 request = p_imageSHA256 parent))
    || negb (q_RetryAfterSeconds request =? p_retryAfterSeconds parent)).

Definition compareRequestReceipt (request : rolloutRequest) (receipt : RolloutReceipt) : bool :=
  negb (negb (bool_decide (GenerationID receipt = q_GenerationID request))
    || negb (GenerationSequence receipt =? q_GenerationSequence request)
    || negb (bool_decide (ParentGenerationID receipt = q_ParentGenerationID request))
    || negb (ParentGenerationSequence receipt =? q_ParentGenerationSequence request)
    || negb (bool_decide (ParentReceiptSHA256 receipt = q_ParentReceiptSHA256 request))
    || negb (bool_decide (PromotionAction receipt = q_PromotionAction request))
    || negb (bool_decide (ApprovalKeyringSHA256 receipt = q_ApprovalKeyringSHA256 request))
    || negb (bool_decide (ReleaseID receipt = q_ReleaseID request))
    || negb (ReleaseSequence receipt =? q_ReleaseSequence request)
    || negb (bool_decide (ImageSHA256 receipt = q_ImageSHA256 request))
    || negb (Bool.eqb (RolloutEnabled receipt) (q_RolloutEnabled request))
    || negb (RolloutBasisPoints receipt =? q_RolloutBasisPoints request)
    || negb (RetryAfterSeconds receipt =? q_RetryAfterSeconds request)).

(** *** The whole generation *)

(** The loop over the two approvals: each with its file. *)
Fixpoint load_approvals (root : string) (request : rolloutRequest) (requestHash : string)
    (keyring : trustedApproverKeyring) (seenApprovers seenKeys : gset string)
    (names : list string) : option (list (rolloutApproval * bytes)) :=
  match names with
  | [] => Some []
  | name :: names =>
      payload ← readBoundedFile (Join root name) maximumReceiptBytes;
      approval ← decodeExactObject (decode_approval L) rolloutApprovalFields payload;
      match verifyRolloutApproval approval request requestHash keyring seenApprovers seenKeys with
      | None => None
      | Some (seenApprovers, seenKeys) =>
          rest ← load_approvals root request requestHash keyring seenApprovers seenKeys names;
          Some ((approval, payload) :: rest)
      end
  end.

Definition approvals_ordered (approvals : list (rolloutApproval * bytes)) : bool :=
  match approvals with
  | [(first, _); (second, _)] => str_ltb (a_ApproverID first) (a_ApproverID second)
  | _ => false
  end.

(** The evidence in the receipt names the approvals, one by one. *)
Definition evidence_matches (evidence : list ApprovalEvidence)
    (approvals : list (rolloutApproval * bytes)) : bool :=
  (Z.of_nat (length evidence) =? 2)
  && forallb (λ '(e, (approval, payload)),
       bool_decide (v_ApproverID e = a_ApproverID approval)
       && bool_decide (v_ApprovalKeyID e = a_ApprovalKeyID approval)
       && bool_decide (v_ApprovalSHA256 e = hex_encode (Sum256 payload)))
     (zip evidence approvals).

(** The release of the control registry is the one of the receipt. *)
Definition release_matches (release : Ota.Release) (receipt : RolloutReceipt)
    (expectedAuthority : string) : bool :=
  let m := Ota.doc release in
  negb (negb (bool_decide (Ota.Project m = Project receipt))
     || negb (bool_decide (Ota.Board m = Board receipt))
     || negb (bool_decide (Ota.Channel m = Channel receipt))
     || negb (bool_decide (Ota.Version m = Version receipt))
     || negb (Ota.ReleaseSequence m =? ReleaseSequence receipt)
     || negb (Ota.SecureVersion m =? SecureVersion receipt)
     || negb (bool_decide (Ota.SigningKeyID m = SigningKeyID receipt))
     || negb (bool_decide (Ota.ImageURL m = "https://" +:+ expectedAuthority +:+ ImageURLPath receipt))
     || negb (Ota.ImageSize m =? ImageSize receipt)
     || negb (bool_decide (Ota.ImageSHA256 m = ImageSHA256 receipt))
     || negb (Bool.eqb (Ota.Enabled release) (RolloutEnabled receipt))
     || negb (Ota.RolloutBasisPoints release =? RolloutBasisPoints receipt)
     || negb (Ota.RetryAfterSeconds release =? wrap_u32 (RetryAfterSeconds receipt))).

(** From the files of the bundle to its registry and its catalogue. *)
Definition rollout_files (root expectedAuthority : string) (request : rolloutRequest)
    (receipt : RolloutReceipt) : option Ota.Registry :=
  IF negb (file_digests root (ManifestSHA256 receipt) (PublicKeySHA256 receipt)
             (SDKConfigSHA256 receipt) (ControlRegistrySHA256 receipt)
             (OriginCatalogSHA256 receipt)) RETURN None ;;
  registry ← LoadRegistry (registryPath root);
  release ← Ota.Lookup registry (ReleaseID receipt);
  IF negb (release_matches release receipt expectedAuthority) RETURN None ;;
  IF (q_CreatedAt request <? Ota.NotBefore (Ota.doc release))
     || (Ota.ExpiresAt (Ota.doc release) <? q_ExpiresAt request) RETURN None ;;
  IF negb (bool_decide (hex_encode (Sum256 (Ota.Manifest release)) = ManifestSHA256 receipt))
    RETURN None ;;
  IF negb (origin_matches root (ImageURLPath receipt) (ReleaseID receipt) (ImageSHA256 receipt)
             (ImageSize receipt)) RETURN None ;;
  IF negb (validateRolloutReadOnlyTree root (ImageURLPath receipt)) RETURN None ;;
  Some registry.

Definition approval_files : list string := ["promotion/approval-1.json"; "promotion/approval-2.json"].

Definition promoted_in_window (receipt : RolloutReceipt) (request : rolloutRequest)
    (approvals : list (rolloutApproval * bytes)) : bool :=
  negb (existsb (λ '(approval, _), PromotedAt receipt <? a_SignedAt approval) approvals
        || (PromotedAt receipt <? q_CreatedAt request) || (q_ExpiresAt request <? PromotedAt receipt)).

Definition requireReadOnlyDirectory (root : string) : bool :=
  match Lstat W root with
  | Some info => negb (is_symlink info) && is_dir info
  | None => false
  end.

Definition ValidateRollout (root parentRoot expectedAuthority approverKeyringPath : string) :
    option RolloutReceipt :=
  IF bool_decide (root = "") || bool_decide (parentRoot = "") || bool_decide (approverKeyringPath = "")
     || negb (FirmwareOrigin.validAuthority expectedAuthority) RETURN None ;;
  IF negb (requireReadOnlyDirectory root) RETURN None ;;
  '(parentState, parentReceiptBytes) ← loadParentState parentRoot expectedAuthority;
  receiptBytes ← readBoundedFile (Join root "deployment-receipt.json") maximumReceiptBytes;
  receipt ← decodeExactObject (decode_rollout_receipt L) rolloutReceiptFields receiptBytes;
  IF negb (validateRolloutReceiptShape receipt expectedAuthority) RETURN None ;;
  IF negb (ready_marker root receiptBytes) RETURN None ;;
  requestBytes ← readBoundedFile (Join root "promotion/rollout-request.json") maximumReceiptBytes;
  request ← decodeExactObject (decode_request L) rolloutRequestFields requestBytes;
  IF negb (validateRolloutRequest request) RETURN None ;;
  keyring ← loadApproverKeyring approverKeyringPath;
  IF negb (bool_decide (q_ApprovalKeyringSHA256 request = digest keyring))
     || negb (bool_decide (ApprovalKeyringSHA256 receipt = digest keyring)) RETURN None ;;
  let requestHash := hex_encode (Sum256 requestBytes) in
  IF negb (bool_decide (RolloutRequestSHA256 receipt = requestHash)) RETURN None ;;
  approvals ← load_approvals root request requestHash keyring ∅ ∅ approval_files;
  IF negb (approvals_ordered approvals) RETURN None ;;
  IF negb (promoted_in_window receipt request approvals) RETURN None ;;
  IF negb (compareRequestParent request parentState parentReceiptBytes) RETURN None ;;
  IF negb (compareRequestReceipt request receipt) RETURN None ;;
  IF negb (evidence_matches (Evidence receipt) approvals) RETURN None ;;
  _ ← rollout_files root expectedAuthority request receipt;
  Some receipt.

(** ** The lineage *)

(** The digests of the keyrings, each with the path of one that has it. *)
Fixpoint lineage_keyrings (names : list string) (keyrings : gmap string string) :
    option (gmap string string) :=
  match names with
  | [] => Some keyrings
  | name :: names =>
      keyring ← loadApproverKeyring name;
      IF match keyrings !! digest keyring with
         | Some prior => negb (bool_decide (prior = name))
         | None => false
         end RETURN None ;;
      lineage_keyrings names (<[digest keyring := name]> keyrings)
  end.

(** The loop over the parents: the receipts of the generations, and the root where the
    lineage ends. *)
Fixpoint lineage (keyrings : gmap string string) (expectedAuthority current : string)
    (seenGenerations : gset string) (parentRoots : list string) :
    option (list RolloutReceipt * string) :=
  match parentRoots with
  | [] => Some ([], current)
  | parent :: parentRoots =>
      payload ← readBoundedFile (Join current "deployment-receipt.json") maximumReceiptBytes;
      receipt ← decodeExactObject (decode_rollout_receipt L) rolloutReceiptFields payload;
      IF negb (Schema receipt =? 2) RETURN None ;;
      IF bool_decide (GenerationID receipt ∈ seenGenerations) RETURN None ;;
      let keyringPath := default "" (keyrings !! ApprovalKeyringSHA256 receipt) in
      IF bool_decide (keyringPath = "") RETURN None ;;
      validated ← ValidateRollout current parent expectedAuthority keyringPath;
      '(rest, last) ← lineage keyrings expectedAuthority parent
                        ({[GenerationID receipt]} ∪ seenGenerations) parentRoots;
      Some (validated :: rest, last)
  end.

Definition ValidateRolloutChain (root : string) (parentRoots approverKeyringPaths : list string)
    (expectedAuthority : string) : option RolloutReceipt :=
  IF bool_decide (root = "") || (Z.of_nat (length parentRoots) =? 0)
     || (Z.of_nat (length approverKeyringPaths) =? 0) RETURN None ;;
  keyrings ← lineage_keyrings approverKeyringPaths ∅;
  '(receipts, last) ← lineage keyrings expectedAuthority root ∅ parentRoots;
  _ ← Validate last expectedAuthority;
  head receipts.

End bundles.
End Rollout.
