(* ===== verification/RolloutTheorems.v ===== *)
(** * RolloutTheorems: what an accepted rollout proves

    About [Rollout]: a generation needs two different people with two different keys,
    a lineage is a run of the rollout state machine from a disabled staging release, the
    tree of a bundle holds the expected files and nothing else, and devices are offered
    the release within the approved share only. *)

From stdpp Require Import base gmap strings list sorting.
From Stdlib Require Import ZArith Lia.
From Stdlib.Strings Require Import Byte.
From S2P Require Import Prelude GoBase GoCrypto GoPath Protocol Auth Provisioning StrictJSON Ota.
From S2P Require Import FirmwareOrigin OriginTheorems Rollout.

Module RolloutTheorems.
Import Ident Paths Rollout.

(** Runs through the binds and guard clauses of a function that returned [Some]. *)
Ltac passed H :=
  cbv zeta in H;
  repeat lazymatch type of H with
  | mbind _ _ = Some _ => apply bind_Some in H as (? & ? & H); cbv zeta beta in H
  | (if ?b then None else _) = Some _ => destruct b eqn:?; [discriminate H|]
  | (let '(_, _) := ?p in _) = Some _ => destruct p; cbv zeta beta in H
  end.

Section theorems.
Context (W : world) (L : library).

(** ** Approvals *)

(** What was checked of an approval that [verifyRolloutApproval] accepts. *)
Definition approved (request : rolloutRequest) (requestHash : string)
    (keyring : trustedApproverKeyring) (a : rolloutApproval) (t : trustedApprover) : Prop :=
  byKeyID keyring !! a_ApprovalKeyID a = Some t ∧ enabled t = true ∧
  approverID t = a_ApproverID a ∧ a_RequestSHA256 a = requestHash ∧ a_Decision a = "APPROVE" ∧
  q_CreatedAt request ≤ a_SignedAt a ≤ q_ExpiresAt request ∧
  ∃ signature, DecodeString (a_SignatureB64URL a) = Some signature ∧
    ed25519_Verify L (key t) (rolloutApprovalPayload a) signature = true.

Lemma verifyRolloutApproval_sound a request requestHash keyring sa sk sa' sk' :
  verifyRolloutApproval L a request requestHash keyring sa sk = Some (sa', sk') →
  (∃ t, approved request requestHash keyring a t) ∧ a_ApproverID a ∉ sa ∧ a_ApprovalKeyID a ∉ sk ∧
  sa' = {[a_ApproverID a]} ∪ sa ∧ sk' = {[a_ApprovalKeyID a]} ∪ sk.
Proof.
  unfold verifyRolloutApproval. intros H. passed H. injection H as <- <-. split_bools.
  split_and!; try done. eexists. unfold approved. split_and!; try done; try lia. eauto.
Qed.

(** *** The keyring *)

(** Different entries of a keyring have different approvers and public keys. *)
Definition ring_ok (sa : gset string) (sk : gset bytes) (ring : gmap string trustedApprover) : Prop :=
  (∀ i t, ring !! i = Some t → keyID t = i ∧ approverID t ∈ sa ∧ key t ∈ sk ∧ blen (key t) = 32) ∧
  (∀ i j t u, ring !! i = Some t → ring !! j = Some u →
     key t = key u ∨ approverID t = approverID u → i = j).

Lemma load_approver_ok payload root index entry sa sk ring sa' sk' ring' :
  ring_ok sa sk ring →
  load_approver W L payload root index entry sa sk ring = Some (sa', sk', ring') →
  ring_ok sa' sk' ring'.
Proof.
  intros [H1 H2] H. unfold load_approver in H. passed H. injection H as <- <- <-. split_bools.
  assert (ring !! n_ApprovalKeyID entry = None) as Hnew.
  { destruct (ring !! n_ApprovalKeyID entry) eqn:E; [|done]. exfalso.
    match goal with H : ¬ ∃ _, _ = Some _ |- _ => apply H end. eauto. }
  split.
  - intros i t [ [<- <-] | [_ Hi] ]%lookup_insert_Some; cbn; [set_solver|].
    destruct (H1 i t Hi) as (?&?&?&?). set_solver.
  - intros i j t u [ [<- <-] | [Hi Ht] ]%lookup_insert_Some
      [ [<- <-] | [Hj Hu] ]%lookup_insert_Some Heq; cbn in *; [done|..].
    + destruct (H1 j u Hu) as (_&?&?&_). destruct Heq as [Heq|Heq]; rewrite <- Heq in *; done.
    + destruct (H1 i t Ht) as (_&?&?&_). destruct Heq as [Heq|Heq]; rewrite Heq in *; done.
    + by eapply H2.
Qed.

Lemma load_approvers_ok payload root index entries sa sk ring ring' :
  ring_ok sa sk ring → load_approvers W L payload root index entries sa sk ring = Some ring' →
  ∃ sa' sk', ring_ok sa' sk' ring'.
Proof.
  revert index sa sk ring. induction entries as [|e entries IH]; intros index sa sk ring Hok; cbn.
  { intros [= <-]. eauto. }
  destruct (load_approver _ _ _ _ _ _ _ _ _) as [ [ [sa1 sk1] ring1] | ] eqn:E; [|done].
  intros H. eapply IH; [|exact H]. by eapply load_approver_ok.
Qed.

Lemma loadApproverKeyring_ok name keyring :
  loadApproverKeyring W L name = Some keyring → ∃ sa sk, ring_ok sa sk (byKeyID keyring).
Proof.
  unfold loadApproverKeyring. intros H. passed H. injection H as <-. cbn.
  eapply load_approvers_ok; [|done]. split; [intros i t Hi|intros i j t u Hi]; by rewrite lookup_empty in Hi.
Qed.

(** ** The tree *)

(** A name of [n] bytes has less than [n] directories above it: more fuel changes
    nothing. *)
Lemma parents_enough name n m :
  IsAbs name = false → (length (bytes_of name) ≤ n)%nat → (length (bytes_of name) ≤ m)%nat →
  parents n name = parents m name.
Proof.
  revert name m. induction n as [|n IH]; intros name m Habs Hn Hm.
  - destruct m as [|m]; [done|]. cbn. assert (bytes_of name = []) as E by (by apply nil_length_inv; lia).
    unfold Dir. rewrite E. done.
  - destruct m as [|m].
    { assert (bytes_of name = []) as E by (by apply nil_length_inv; lia). cbn. unfold Dir. rewrite E. done. }
    cbn. destruct (Dir_shorter name Habs) as [->|[Hd Hl] ]; [done|].
    case_bool_decide; [done|]. f_equal. apply IH; [done|lia..].
Qed.

(** ** One generation *)

(** The promotion that [request] asks for is the one of the receipt. *)
Definition asks_for (request : rolloutRequest) (receipt : RolloutReceipt) : Prop :=
  q_GenerationID request = GenerationID receipt ∧
  q_GenerationSequence request = GenerationSequence receipt ∧
  q_ParentGenerationID request = ParentGenerationID receipt ∧
  q_ParentReceiptSHA256 request = ParentReceiptSHA256 receipt ∧
  q_PromotionAction request = PromotionAction receipt ∧
  q_ReleaseID request = ReleaseID receipt ∧ q_ReleaseSequence request = ReleaseSequence receipt ∧
  q_ImageSHA256 request = ImageSHA256 receipt ∧
  q_RolloutEnabled request = RolloutEnabled receipt ∧
  q_RolloutBasisPoints request = RolloutBasisPoints receipt ∧
  q_RetryAfterSeconds request = RetryAfterSeconds receipt.

(** Two people, each with a key of their own in the keyring, signed the request. *)
Definition two_approvals (root keyringPath : string) (receipt : RolloutReceipt)
    (request : rolloutRequest) : Prop :=
  ∃ requestBytes keyring a1 a2 t1 t2,
    readBoundedFile W (Join root "promotion/rollout-request.json") maximumReceiptBytes
      = Some requestBytes ∧
    decode_request L requestBytes = Some request ∧
    RolloutRequestSHA256 receipt = hex_encode (Sum256 requestBytes) ∧
    loadApproverKeyring W L keyringPath = Some keyring ∧
    ApprovalKeyringSHA256 receipt = digest keyring ∧
    approved request (hex_encode (Sum256 requestBytes)) keyring a1 t1 ∧
    approved request (hex_encode (Sum256 requestBytes)) keyring a2 t2 ∧
    a_ApproverID a1 ≠ a_ApproverID a2 ∧ key t1 ≠ key t2 ∧
    a_SignedAt a1 ≤ PromotedAt receipt ∧ a_SignedAt a2 ≤ PromotedAt receipt.

Lemma decodeExactObject_ok {A} (decode : bytes → option A) fields payload x :
  decodeExactObject L decode fields payload = Some x → decode payload = Some x.
Proof. unfold decodeExactObject. intros H. passed H. done. Qed.

Lemma load_approvals_two root request h keyring approvals :
  load_approvals W L root request h keyring ∅ ∅ approval_files = Some approvals →
  ∃ a1 b1 a2 b2 t1 t2, approvals = [(a1, b1); (a2, b2)] ∧ approved request h keyring a1 t1 ∧
    approved request h keyring a2 t2 ∧ a_ApproverID a1 ≠ a_ApproverID a2 ∧
    a_ApprovalKeyID a1 ≠ a_ApprovalKeyID a2.
Proof.
  unfold approval_files. cbn [load_approvals]. intros H. passed H.
  destruct (verifyRolloutApproval _ _ _ _ _ ∅ ∅) as [ [sa sk] | ] eqn:E1; [|done]. passed H.
  injection H as <-. match goal with H : mbind _ _ = Some _ |- _ => passed H; rename H into H' end.
  destruct (verifyRolloutApproval _ _ _ _ _ sa sk) as [ [sa2 sk2] | ] eqn:E2; [|done].
  cbn in H'. injection H' as <-.
  apply verifyRolloutApproval_sound in E1 as ([t1 Hq1] & _ & _ & -> & ->).
  apply verifyRolloutApproval_sound in E2 as ([t2 Hq2] & Ha & Hk & _).
  do 4 eexists. exists t1, t2. split_and!; try done; set_solver.
Qed.

(** Everything that [ValidateRollout] establishes of a generation and its parent. *)
Lemma ValidateRollout_inv root parentRoot authority keyringPath receipt :
  ValidateRollout W L root parentRoot authority keyringPath = Some receipt →
  ∃ parent parentBytes receiptBytes request registry,
    loadParentState W L parentRoot authority = Some (parent, parentBytes) ∧
    readBoundedFile W (Join root "deployment-receipt.json") maximumReceiptBytes = Some receiptBytes ∧
    decodeExactObject L (decode_rollout_receipt L) rolloutReceiptFields receiptBytes = Some receipt ∧
    validateRolloutReceiptShape receipt authority = true ∧ ready_marker W root receiptBytes = true ∧
    validateRolloutRequest request = true ∧ two_approvals root keyringPath receipt request ∧
    q_CreatedAt request ≤ PromotedAt receipt ≤ q_ExpiresAt request ∧
    compareRequestParent request parent parentBytes = true ∧ asks_for request receipt ∧
    rollout_files W L root authority request receipt = Some registry.
Proof.
  unfold ValidateRollout. intros H. passed H. injection H as <-.
  repeat match goal with H : negb _ = false |- _ => apply negb_false_iff in H end.
  match goal with H : load_approvals _ _ _ _ _ _ _ _ _ = Some _ |- _ =>
    apply load_approvals_two in H as (a1 & b1 & a2 & b2 & t1 & t2 & -> & Hq1 & Hq2 & Hne & Hk) end.
  match goal with H : loadApproverKeyring _ _ _ = Some _ |- _ =>
    pose proof (loadApproverKeyring_ok _ _ H) as (sa & sk & _ & Huniq) end.
  match goal with H : promoted_in_window _ _ _ = true |- _ =>
    unfold promoted_in_window in H; cbn [existsb] in H; split_bools end.
  match goal with H : compareRequestReceipt _ _ = true |- _ =>
    unfold compareRequestReceipt in H; split_bools end.
  match goal with H : Bool.eqb _ _ = true |- _ => apply Bool.eqb_prop in H end.
  do 5 eexists. split_and!; try done; try lia; try congruence.
  eexists _, _, a1, a2, t1, t2. split_and!; try done; try lia.
  - by eapply decodeExactObject_ok.
  - intros Heq. apply Hk. destruct Hq1 as (Hl1 & _), Hq2 as (Hl2 & _).
    eapply Huniq; [exact Hl1|exact Hl2|by left].
Qed.

(** C10: no generation is promoted by one person. A bundle that [ValidateRollout]
    accepts holds a request for exactly the promotion that its receipt records, and two
    approvals of that request, by digest, from two different approvers who are enabled
    in the trusted keyring, under two different Ed25519 keys that verify; the request
    was open for a day at most, and both approvals were given after it was made and
    before the promotion, which was in time. *)
Theorem rollout_needs_two_people root parentRoot authority keyringPath receipt :
  ValidateRollout W L root parentRoot authority keyringPath = Some receipt →
  ∃ requestBytes request keyring a1 a2 t1 t2,
    readBoundedFile W (Join root "promotion/rollout-request.json") maximumReceiptBytes
      = Some requestBytes ∧ decode_request L requestBytes = Some request ∧
    asks_for request receipt ∧
    loadApproverKeyring W L keyringPath = Some keyring ∧
    ApprovalKeyringSHA256 receipt = digest keyring ∧
    approved request (hex_encode (Sum256 requestBytes)) keyring a1 t1 ∧
    approved request (hex_encode (Sum256 requestBytes)) keyring a2 t2 ∧
    a_ApproverID a1 ≠ a_ApproverID a2 ∧ key t1 ≠ key t2 ∧
    q_CreatedAt request ≤ a_SignedAt a1 ≤ PromotedAt receipt ∧
    q_CreatedAt request ≤ a_SignedAt a2 ≤ PromotedAt receipt ∧
    PromotedAt receipt ≤ q_ExpiresAt request ≤ q_CreatedAt request + maximumApprovalWindow.
Proof.
  intros (_ & _ & _ & request & _ & _ & _ & _ & _ & _ & Hreq & Htwo & Hpro & _ & Hask & _)%ValidateRollout_inv.
  destruct Htwo as (b & keyring & a1 & a2 & t1 & t2 & Hr & Hd & _ & Hk & Hdig & H1 & H2 & Hne & Hkey &
    Hs1 & Hs2).
  exists b, request, keyring, a1, a2, t1, t2.
  pose proof H1 as (_ & _ & _ & _ & _ & ? & _). pose proof H2 as (_ & _ & _ & _ & _ & ? & _).
  assert (q_ExpiresAt request ≤ q_CreatedAt request + maximumApprovalWindow).
  { unfold validateRolloutRequest in Hreq.
    match type of Hreq with (if ?b then _ else _) = _ => destruct b eqn:Hg; [done|] end.
    split_bools. unfold maximumApprovalWindow in *.
    match goal with H : _ -i _ ≤ _ |- _ => rewrite wrap_i64_id in H end; [lia|].
    unfold in_i64, min_int64, max_int64. lia. }
  split_and!; try done; lia.
Qed.

(** ** The lineage *)

(** The rollout of a release as a state machine: the number of promotions so far and the
    share of the devices in basis points. *)
Record rollout : Type := { promotions : Z; share : Z }.

Inductive promote : string → rollout → rollout → Prop :=
| Expand n b b' :
    0 < b ∨ n = 0 → b < b' ≤ 10000 →
    promote "EXPAND" {| promotions := n; share := b |} {| promotions := n + 1; share := b' |}
| EmergencyStop n b :
    0 < b →
    promote "EMERGENCY_STOP" {| promotions := n; share := b |} {| promotions := n + 1; share := 0 |}
| Resume n b :
    0 < n → 0 < b ≤ 10000 →
    promote "RESUME" {| promotions := n; share := 0 |} {| promotions := n + 1; share := b |}.

Definition rollout_of (r : RolloutReceipt) : rollout :=
  {| promotions := GenerationSequence r; share := RolloutBasisPoints r |}.

(** Receipts, the newest first, as a run of the machine from a release that no device
    gets. *)
Inductive history : list RolloutReceipt → rollout → Prop :=
| Staged : history [] {| promotions := 0; share := 0 |}
| Promoted r rs s :
    history rs s → promote (PromotionAction r) s (rollout_of r) → history (r :: rs) (rollout_of r).

Lemma request_promotes request :
  validateRolloutRequest request = true →
  0 ≤ q_ParentGenerationSequence request < 2 ^ 32 →
  q_GenerationSequence request = q_ParentGenerationSequence request + 1 ∧
  promote (q_PromotionAction request)
    {| promotions := q_ParentGenerationSequence request; share := q_ParentRolloutBasisPoints request |}
    {| promotions := q_GenerationSequence request; share := q_RolloutBasisPoints request |}.
Proof.
  unfold validateRolloutRequest. intros H Hseq.
  match type of H with (if ?b then _ else _) = _ => destruct b eqn:Hg; [done|] end.
  split_bools. repeat match goal with H : Bool.eqb _ _ = true |- _ => apply Bool.eqb_prop in H end.
  assert (q_GenerationSequence request = q_ParentGenerationSequence request + 1) as Hnext.
  { destruct (decide (q_ParentGenerationSequence request + 1 = 2 ^ 32)) as [E|E].
    - match goal with H : q_GenerationSequence _ = wrap_u32 _ |- _ => rewrite E in H end. done.
    - match goal with H : q_GenerationSequence _ = wrap_u32 _ |- _ => rewrite wrap_u32_id in H by lia end.
      done. }
  split; [done|]. rewrite Hnext. unfold validPromotionAction in *. unfold valid_transition in H.
  destruct (bool_decide (_ = "EXPAND")) eqn:E1; [|destruct (bool_decide (_ = "EMERGENCY_STOP")) eqn:E2;
    [|destruct (bool_decide (_ = "RESUME")) eqn:E3; [|done] ] ]; split_bools.
  - match goal with H : q_PromotionAction _ = _ |- _ => rewrite H end. constructor; [|lia].
    destruct (q_ParentRolloutEnabled request); [left; by apply Z.ltb_lt|right].
    cbn in *. split_bools. done.
  - match goal with H : q_PromotionAction _ = _ |- _ => rewrite H end.
    match goal with H : q_RolloutBasisPoints _ = 0 |- _ => rewrite H end. constructor.
    apply Z.ltb_lt. congruence.
  - match goal with H : q_PromotionAction _ = _ |- _ => rewrite H end.
    assert (q_ParentRolloutBasisPoints request = 0) as ->.
    { match goal with H : q_ParentRolloutEnabled _ = (0 <? _) |- _ => rename H into Hp end.
      rewrite Hp in *. split_bools. lia. }
    constructor; [lia|]. split; [|lia]. apply Z.ltb_lt. congruence.
Qed.

(** A receipt is one of staging or one of a generation, never both: the two have
    different numbers of fields. *)
Lemma exact_fields_length {A} (decode : bytes → option A) fields payload x :
  decodeExactObject L decode fields payload = Some x →
  ∃ names, raw_fields L payload = Some names ∧ length names = length fields.
Proof.
  unfold decodeExactObject, requireExactJSONFields, hasExactRawFields. intros H. passed H.
  destruct (raw_fields L payload) as [names|]; [|done]. exists names. split; [done|].
  split_bools. lia.
Qed.

Lemma receipt_kinds payload s r :
  decodeExactObject L (decode_receipt L) receiptFields payload = Some s →
  decodeExactObject L (decode_rollout_receipt L) rolloutReceiptFields payload = Some r → False.
Proof.
  intros (n1 & E1 & H1)%exact_fields_length (n2 & E2 & H2)%exact_fields_length.
  assert (n1 = n2) as -> by congruence. cbn in H1, H2. lia.
Qed.

Definition receipt_bytes (root : string) : option bytes :=
  readBoundedFile W (Join root "deployment-receipt.json") maximumReceiptBytes.

Lemma Validate_inv root authority s :
  Validate W L root authority = Some s →
  ∃ payload, receipt_bytes root = Some payload ∧
    decodeExactObject L (decode_receipt L) receiptFields payload = Some s ∧
    s_RolloutEnabled s = false ∧ s_RolloutBasisPoints s = 0.
Proof.
  unfold Validate. intros H. passed H. injection H as <-.
  match goal with H : negb (validateReceipt _ _) = false |- _ =>
    apply negb_false_iff in H; unfold validateReceipt in H; split_bools end. eauto.
Qed.

(** The parent of a generation, when its root is known to hold a staging bundle or a
    generation. *)
Lemma parent_staging root authority st payload s :
  loadParentState W L root authority = Some (st, payload) → Validate W L root authority = Some s →
  receipt_bytes root = Some payload ∧ p_generationSequence st = 0 ∧ p_rolloutBasisPoints st = 0 ∧
  p_releaseID st = s_ReleaseID s ∧ p_releaseSequence st = s_ReleaseSequence s ∧
  p_imageSHA256 st = s_ImageSHA256 s.
Proof.
  intros H Hv. destruct (Validate_inv _ _ _ Hv) as (b & Hb & Hd & _ & H0).
  unfold loadParentState in H. fold (receipt_bytes root) in H. rewrite Hb in H. cbn in H.
  apply bind_Some in H as (schema & _ & H). destruct (schema =? 1).
  - rewrite Hv in H. cbn in H. injection H as <- <-. done.
  - passed H. exfalso. by eapply receipt_kinds.
Qed.

Lemma parent_generation root authority st payload b r :
  loadParentState W L root authority = Some (st, payload) → receipt_bytes root = Some b →
  decodeExactObject L (decode_rollout_receipt L) rolloutReceiptFields b = Some r →
  b = payload ∧ p_generationSequence st = GenerationSequence r ∧
  p_rolloutBasisPoints st = RolloutBasisPoints r ∧ p_releaseID st = ReleaseID r ∧
  p_releaseSequence st = ReleaseSequence r ∧ p_imageSHA256 st = ImageSHA256 r.
Proof.
  intros H Hb Hd. unfold loadParentState in H. fold (receipt_bytes root) in H. rewrite Hb in H.
  cbn in H. apply bind_Some in H as (schema & _ & H). destruct (schema =? 1).
  - apply bind_Some in H as (s & Hv & _). exfalso.
    destruct (Validate_inv _ _ _ Hv) as (b' & Hb' & Hd' & _). assert (b' = b) as -> by congruence.
    by eapply receipt_kinds.
  - passed H. assert (x = r) as -> by congruence. injection H as <- <-. done.
Qed.

(** A generation as a step from the state of its parent. *)
Lemma generation_step root parentRoot authority keyringPath r st payload :
  ValidateRollout W L root parentRoot authority keyringPath = Some r →
  loadParentState W L parentRoot authority = Some (st, payload) →
  0 ≤ p_generationSequence st < 2 ^ 32 →
  GenerationSequence r = p_generationSequence st + 1 ∧
  promote (PromotionAction r)
    {| promotions := p_generationSequence st; share := p_rolloutBasisPoints st |} (rollout_of r) ∧
  ReleaseID r = p_releaseID st ∧ ReleaseSequence r = p_releaseSequence st ∧
  ImageSHA256 r = p_imageSHA256 st ∧ ParentReceiptSHA256 r = hex_encode (Sum256 payload) ∧
  GenerationSequence r < 2 ^ 32.
Proof.
  intros (st' & payload' & _ & q & _ & Hp & _ & _ & _ & _ & Hreq & _ & _ & Hcmp & Hask & _)%ValidateRollout_inv
    Hl Hseq.
  assert (st' = st ∧ payload' = payload) as [-> ->] by (split; congruence). clear Hp.
  unfold compareRequestParent in Hcmp. split_bools.
  destruct Hask as (_ & E2 & _ & E4 & E5 & E6 & E7 & E8 & _ & E10 & _).
  assert (q_ParentGenerationSequence q = p_generationSequence st) as Eseq by done.
  destruct (request_promotes q Hreq ltac:(lia)) as [Hnext Hpro].
  assert (q_ParentRolloutBasisPoints q = p_rolloutBasisPoints st) as Ebp by done.
  rewrite Eseq, Ebp, E5, E2, E10 in Hpro. split_and!; try congruence; [done|].
  rewrite <- E2. match goal with H : q_GenerationSequence q = wrap_u32 _ |- _ => rewrite H end.
  by apply Z.mod_pos_bound.
Qed.

Definition same_release (s : Receipt) (r : RolloutReceipt) : Prop :=
  ReleaseID r = s_ReleaseID s ∧ ReleaseSequence r = s_ReleaseSequence s ∧
  ImageSHA256 r = s_ImageSHA256 s.

Definition state_of (receipts : list RolloutReceipt) : rollout :=
  match receipts with [] => {| promotions := 0; share := 0 |} | r :: _ => rollout_of r end.

(** A generation in [here] with its parent in [parent]. *)
Definition linked (keyrings : gmap string string) (authority here parent : string)
    (r : RolloutReceipt) : Prop :=
  ∃ path payload, keyrings !! ApprovalKeyringSHA256 r = Some path ∧
    ValidateRollout W L here parent authority path = Some r ∧
    receipt_bytes parent = Some payload ∧ ParentReceiptSHA256 r = hex_encode (Sum256 payload).

Inductive links (keyrings : gmap string string) (authority : string) :
    string → list string → list RolloutReceipt → Prop :=
| links_end here : links keyrings authority here [] []
| links_step here parent parents r receipts :
    linked keyrings authority here parent r → links keyrings authority parent parents receipts →
    links keyrings authority here (parent :: parents) (r :: receipts).

Lemma lineage_ok keyrings authority s parents current seen receipts last :
  lineage W L keyrings authority current seen parents = Some (receipts, last) →
  Validate W L last authority = Some s →
  links keyrings authority current parents receipts ∧
  promotions (state_of receipts) = Z.of_nat (length parents) ∧
  Z.of_nat (length parents) < 2 ^ 32 ∧ history receipts (state_of receipts) ∧
  Forall (same_release s) receipts ∧
  Forall (λ r, GenerationID r ∉ seen) receipts ∧ NoDup (GenerationID <$> receipts) ∧
  match receipts with
  | [] => current = last
  | r :: _ => ∃ b, receipt_bytes current = Some b ∧
      decodeExactObject L (decode_rollout_receipt L) rolloutReceiptFields b = Some r
  end.
Proof.
  revert current seen receipts last. induction parents as [|p ps IH]; intros current seen receipts last H Hv.
  { cbn in H. injection H as <- <-. split_and!; try done; constructor. }
  cbn [lineage] in H. passed H. injection H as <- <-. rename x into b, x0 into r, x1 into r'.
  match goal with H : lineage _ _ _ _ _ _ _ = Some (_, ?z) |- _ =>
    destruct (IH _ _ _ _ H Hv) as (Hlinks & Hn & Hmax & Hhist & Hsame & Hseen & Hnd & Hhead) end.
  match goal with H : ValidateRollout _ _ _ _ _ _ = Some r' |- _ => rename H into Hroll end.
  pose proof Hroll as Hinv.
  apply ValidateRollout_inv in Hinv as (st & payload & b' & q & _ & Hp & Hb' & Hd' & _).
  assert (b' = b) as -> by congruence. assert (r' = r) as -> by congruence.
  assert (receipt_bytes p = Some payload ∧ p_generationSequence st = Z.of_nat (length ps) ∧
    p_rolloutBasisPoints st = share (state_of l) ∧ (∀ x, ReleaseID x = p_releaseID st →
    ReleaseSequence x = p_releaseSequence st → ImageSHA256 x = p_imageSHA256 st → same_release s x))
    as (Hpb & Hseq & Hbp & Hrel).
  { destruct l as [|r0 l]; cbn in Hhead, Hn.
    - subst p. destruct (parent_staging _ _ _ _ _ Hp Hv) as (? & E0 & ? & ? & ? & ?).
      split_and!; try done; [cbn in Hn; lia|]. intros x ???. split_and!; congruence.
    - destruct Hhead as (b1 & Hb1 & Hd1).
      destruct (parent_generation _ _ _ _ _ _ Hp Hb1 Hd1) as (-> & ? & ? & ? & ? & ?).
      split_and!; try done; [lia|]. apply Forall_cons_1 in Hsame as [(?&?&?) _].
      intros x ???. split_and!; congruence. }
  destruct (generation_step _ _ _ _ _ _ _ Hroll Hp ltac:(lia)) as (Hnext & Hpro & ? & ? & ? & Hpar & Hlt).
  split_and!; cbn [state_of rollout_of promotions length].
  - constructor; [|done]. exists (default "" (keyrings !! ApprovalKeyringSHA256 r)), payload.
    split_bools. split_and!; try done.
    destruct (keyrings !! ApprovalKeyringSHA256 r); done.
  - lia.
  - lia.
  - econstructor; [done|]. rewrite Hseq, Hbp, <- Hn in Hpro. by destruct (state_of l).
  - constructor; [by apply Hrel|done].
  - split_bools. constructor; [done|]. eapply Forall_impl; [done|]. cbn. set_solver.
  - cbn. constructor; [|done]. intros (x & Hx & Hin)%list_elem_of_fmap.
    rewrite Forall_forall in Hseen. specialize (Hseen x Hin). set_solver.
  - by exists b.
Qed.

Lemma lineage_last keyrings authority parents current seen receipts z :
  lineage W L keyrings authority current seen parents = Some (receipts, z) →
  last (current :: parents) = Some z.
Proof.
  revert current seen receipts. induction parents as [|p ps IH]; intros current seen receipts H; cbn in H.
  { injection H as _ ->. done. }
  passed H. injection H as _ <-. rewrite last_cons_cons. by eapply IH.
Qed.

(** The keyrings of a lineage are among the ones given. *)
Lemma lineage_keyrings_given names keyrings keyrings' :
  lineage_keyrings W L names keyrings = Some keyrings' →
  ∀ d path, keyrings' !! d = Some path → keyrings !! d = Some path ∨ path ∈ names.
Proof.
  revert keyrings. induction names as [|n names IH]; intros keyrings H d path; cbn in H.
  { injection H as <-. by left. }
  passed H. intros Hd. destruct (IH _ H d path Hd) as [ [ [_ <-] | [_ ?] ]%lookup_insert_Some | ? ];
    [right; left|by left|right; by right].
Qed.

(** C11: a lineage that [ValidateRolloutChain] accepts is a history of one release. It
    starts at a valid staging bundle, whose release no device gets; every generation is
    one promotion of its parent, which it names by the digest of its receipt, under a
    keyring that was given; together they are a run of the rollout state machine, in
    which a release is expanded only while it is out or for the first time, stopped
    only while it is out and resumed only after a stop; the sequence number of the
    newest generation counts them all; they have different identifiers; and release
    and image never change. *)
Theorem rollout_lineage_refines root parents paths authority receipt :
  ValidateRolloutChain W L root parents paths authority = Some receipt →
  ∃ receipts keyrings staging bottom,
    head receipts = Some receipt ∧
    links keyrings authority root parents receipts ∧
    (∀ d path, keyrings !! d = Some path → path ∈ paths) ∧
    last parents = Some bottom ∧ Validate W L bottom authority = Some staging ∧
    s_RolloutEnabled staging = false ∧ s_RolloutBasisPoints staging = 0 ∧
    history receipts (rollout_of receipt) ∧
    GenerationSequence receipt = Z.of_nat (length parents) ∧
    NoDup (GenerationID <$> receipts) ∧ Forall (same_release staging) receipts.
Proof.
  unfold ValidateRolloutChain. intros H. passed H. rename x into keyrings.
  match goal with H : lineage _ _ _ _ _ _ _ = Some (?l, ?z), Hv : Validate _ _ ?z _ = Some ?s |- _ =>
    destruct (lineage_ok _ _ _ _ _ _ _ _ H Hv) as (Hlinks & Hn & _ & Hhist & Hsame & _ & Hnd & _);
    pose proof (lineage_last _ _ _ _ _ _ _ H) as Hlast;
    destruct (Validate_inv _ _ _ Hv) as (_ & _ & _ & He & Hz); exists l, keyrings, s, z end.
  destruct l as [|r l]; [done|]. injection H as ->. cbn in Hn, Hhist. split_and!; try done.
  2: { destruct parents as [|p ps]; [done|]. by rewrite last_cons_cons in Hlast. }
  intros d path Hd.
  match goal with H : lineage_keyrings _ _ _ _ = Some _ |- _ =>
    destruct (lineage_keyrings_given _ _ _ H d path Hd) as [Hx|Hx]; [|done] end.
  by rewrite lookup_empty in Hx.
Qed.

(** ** Offers *)

Lemma load_releases_ids parse decode Key verify read keys ids seqs entries releases :
  Ota.load_releases parse decode Key verify read keys ids seqs entries = Some releases →
  NoDup ((λ r, Ota.ReleaseID (Ota.doc r)) <$> releases) ∧
  Forall (λ r, Ota.ReleaseID (Ota.doc r) ∉ ids) releases.
Proof.
  revert ids seqs releases. induction entries as [|e entries IH]; intros ids seqs releases; cbn.
  { intros [= <-]. split; constructor. }
  destruct (Ota.load_release _ _ _ _ _ _ _ _ e) as [r|] eqn:Hr; [|done].
  destruct (Ota.load_releases _ _ _ _ _ _ _ _ entries) as [rs|] eqn:Hrs; [|done]. intros [= <-].
  destruct (IH _ _ _ Hrs) as [Hnd Hids].
  assert (Ota.ReleaseID (Ota.doc r) ∉ ids) as Hnew.
  { unfold Ota.load_release in Hr. repeat (case_match; try done). simplify_eq/=. split_bools. done. }
  split.
  - cbn. constructor; [|done]. intros (x & Hx & Hin)%list_elem_of_fmap.
    rewrite Forall_forall in Hids. specialize (Hids x Hin). set_solver.
  - constructor; [done|]. eapply Forall_impl; [done|]. cbn. set_solver.
Qed.

Lemma LoadRegistry_ids path registry :
  LoadRegistry W L path = Some registry → NoDup ((λ r, Ota.ReleaseID (Ota.doc r)) <$> registry).
Proof.
  unfold LoadRegistry. intros H. passed H. unfold Ota.LoadRegistry in H.
  destruct (_ || _) in H; [done|]. destruct (Ota.load_keys _ _ _ _) as [keys|]; [|done].
  destruct (Ota.load_releases _ _ _ _ _ _ _ _ _) as [rs|] eqn:Hrs in H; [|done].
  injection H as <-. destruct (load_releases_ids _ _ _ _ _ _ _ _ _ _ Hrs) as [Hnd _].
  by rewrite merge_sort_Permutation.
Qed.

Lemma unique_release registry r r' :
  NoDup ((λ r, Ota.ReleaseID (Ota.doc r)) <$> registry) → r ∈ registry → r' ∈ registry →
  Ota.ReleaseID (Ota.doc r) = Ota.ReleaseID (Ota.doc r') → r = r'.
Proof.
  induction registry as [|x registry IH]; cbn; [by intros _ ?%elem_of_nil|].
  intros [Hx Hnd]%NoDup_cons Hr Hr' Heq.
  assert (∀ y, y ∈ registry → Ota.ReleaseID (Ota.doc y) ≠ Ota.ReleaseID (Ota.doc x)) as Hne.
  { intros y Hy E. apply Hx. rewrite <- E. by apply (list_elem_of_fmap_2 (λ r, Ota.ReleaseID (Ota.doc r))). }
  apply elem_of_cons in Hr as [-> | Hr]; apply elem_of_cons in Hr' as [-> | Hr'].
  - done.
  - by destruct (Hne r' Hr').
  - by destruct (Hne r Hr).
  - auto.
Qed.

(** A release that is offered is in the registry, enabled, and has the device in its
    share. *)
Lemma Select_offer registry d b c current now key release retry :
  Ota.Select registry d b c current now key = (Some release, Ota.OfferAvailable, retry) →
  release ∈ registry ∧ Ota.Enabled release = true ∧
  Ota.inCohort key d (Ota.ReleaseID (Ota.doc release)) (Ota.RolloutBasisPoints release) = true.
Proof.
  unfold Ota.Select. destruct (_ || _); [done|].
  destruct (List.find _ registry) as [r|] eqn:Hf; [|done].
  apply find_some in Hf as [Hin _]. intros H. repeat (case_match; try done); simplify_eq.
  split_bools. split_and!; try done. by apply list_elem_of_In.
Qed.

Lemma Lookup_in registry id release :
  Ota.Lookup registry id = Some release → release ∈ registry ∧ Ota.ReleaseID (Ota.doc release) = id.
Proof.
  unfold Ota.Lookup. destruct (negb _); [done|]. intros [Hin He]%find_some. split_bools.
  split; [by apply list_elem_of_In|done].
Qed.

(** What the files of an accepted bundle contain. *)
Lemma rollout_files_inv root authority request receipt registry :
  rollout_files W L root authority request receipt = Some registry →
  LoadRegistry W L (registryPath root) = Some registry ∧
  (∃ release, Ota.Lookup registry (ReleaseID receipt) = Some release ∧
     release_matches release receipt authority = true) ∧
  ∃ catalog object data, LoadCatalog W L (catalogPath root) = Some catalog ∧
    FirmwareOrigin.Lookup catalog (ImageURLPath receipt) = Some object ∧
    FirmwareOrigin.OpenVerified (files W) object = Some data ∧
    hex_encode (Sum256 data) = ImageSHA256 receipt.
Proof.
  unfold rollout_files. intros H. passed H. injection H as <-.
  match goal with H : negb (origin_matches _ _ _ _ _ _ _) = false |- _ =>
    apply negb_false_iff in H; unfold origin_matches in H; rename H into Ho end.
  destruct (LoadCatalog W L (catalogPath root)) as [c|] eqn:Hc; [|done].
  destruct (FirmwareOrigin.Lookup c (ImageURLPath receipt)) as [o|] eqn:Hl; [|done]. split_bools.
  pose proof Hc as (dir & seen & _ & Hok & _)%OriginTheorems.LoadCatalog_ok.
  destruct (proj1 (OriginTheorems.cat_index _ _ _ _ Hok _ _) Hl) as [Hin _].
  destruct (OriginTheorems.cat_objects _ _ _ _ Hok o Hin) as (_ & _ & [data Hd] & _).
  destruct (OriginTheorems.OpenVerified_sound _ _ _ Hd) as (_ & Hsha & _).
  split_and!; [done|eexists; split; [done|]|exists c, o, data; split_and!; congruence].
  repeat match goal with H : negb _ = false |- _ => apply negb_false_iff in H end. done.
Qed.

Lemma validated_action request :
  validateRolloutRequest request = true →
  (q_PromotionAction request = "EMERGENCY_STOP" → q_RolloutEnabled request = false) ∧
  (q_PromotionAction request = "EXPAND" →
     q_ParentRolloutBasisPoints request < q_RolloutBasisPoints request).
Proof.
  unfold validateRolloutRequest. intros H.
  match type of H with (if ?b then _ else _) = _ => destruct b eqn:Hg; [done|] end. clear Hg.
  unfold valid_transition in H. split; intros E; rewrite E in H.
  - change (bool_decide ("EMERGENCY_STOP" = "EXPAND")) with false in H.
    change (bool_decide ("EMERGENCY_STOP" = "EMERGENCY_STOP")) with true in H.
    cbv iota in H. split_bools. done.
  - change (bool_decide ("EXPAND" = "EXPAND")) with true in H.
    cbv iota in H. split_bools. done.
Qed.

(** C32: devices get what was approved. When an accepted generation is deployed, the
    control plane offers its release to a device only if the approved request did not
    stop it, and only to devices within the approved share; what it offers is the
    approved image, which the catalogue of the same bundle serves, under the URL in the
    signed manifest, verified; and an expansion keeps every device of the parent's share. *)
Theorem offers_within_approval root parentRoot authority keyringPath receipt registry
    d b c current now key release retry :
  ValidateRollout W L root parentRoot authority keyringPath = Some receipt →
  LoadRegistry W L (registryPath root) = Some registry →
  Ota.Select registry d b c current now key = (Some release, Ota.OfferAvailable, retry) →
  Ota.ReleaseID (Ota.doc release) = ReleaseID receipt →
  PromotionAction receipt ≠ "EMERGENCY_STOP" ∧ RolloutEnabled receipt = true ∧
  Ota.inCohort key d (ReleaseID receipt) (RolloutBasisPoints receipt) = true ∧
  Ota.ImageSHA256 (Ota.doc release) = ImageSHA256 receipt ∧
  Ota.ImageURL (Ota.doc release) = "https://" +:+ authority +:+ ImageURLPath receipt ∧
  (∃ catalog object data, LoadCatalog W L (catalogPath root) = Some catalog ∧
     FirmwareOrigin.Lookup catalog (ImageURLPath receipt) = Some object ∧
     FirmwareOrigin.OpenVerified (files W) object = Some data ∧
     hex_encode (Sum256 data) = ImageSHA256 receipt) ∧
  (PromotionAction receipt = "EXPAND" → ∀ parent bytes,
     loadParentState W L parentRoot authority = Some (parent, bytes) →
     ∀ key d, Ota.inCohort key d (p_releaseID parent) (p_rolloutBasisPoints parent) = true →
       Ota.inCohort key d (ReleaseID receipt) (RolloutBasisPoints receipt) = true).
Proof.
  intros Hroll Hreg Hsel Hid.
  apply ValidateRollout_inv in Hroll as (st & payload & rb & q & reg & Hp & _ & _ & Hshape & _ & Hreq & _ & _ &
    Hcmp & Hask & Hfiles).
  destruct (Select_offer _ _ _ _ _ _ _ _ _ Hsel) as (Hin & Hen & Hco).
  destruct (rollout_files_inv _ _ _ _ _ Hfiles) as (Hreg' & (r & Hlk & Hmatch) & Horigin).
  assert (reg = registry) as -> by congruence.
  apply Lookup_in in Hlk as [Hin' Hid'].
  assert (r = release) as -> by (eapply unique_release; [by eapply LoadRegistry_ids|done|done|congruence]).
  unfold release_matches in Hmatch. split_bools.
  match goal with H : Bool.eqb _ _ = true |- _ => apply Bool.eqb_prop in H; rename H into Heqen end.
  destruct Hask as (_ & _ & _ & _ & Eact & Erel & _ & Eimg & Een & Ebp & _).
  destruct (validated_action q Hreq) as [Hstop Hexp].
  split_and!; try congruence.
  - intros E. rewrite Hstop in Een by congruence. congruence.
  - intros Eexp parent bytes Hp' k d' Hc'. assert (parent = st) as -> by congruence.
    unfold compareRequestParent in Hcmp. split_bools.
    specialize (Hexp ltac:(congruence)). eapply Ota.inCohort_mono; [|by replace (ReleaseID receipt) with
      (p_releaseID st) by congruence]. lia.
Qed.

(** ** The files of a bundle *)

(** The names, relative to the root, of what the walk visits besides directories. *)
Definition files_of (root : string) (entries : list (string * option FileInfo)) : list string :=
  omap (λ '(name, info),
    match info with
    | Some info => if bool_decide (name = root) || is_dir info then None else Rel root name
    | None => None
    end) entries.

(** What is true of everything that the walk visits. *)
Definition entry_ok (root : string) (directories : list string) (e : string * option FileInfo) : Prop :=
  ∃ info, e.2 = Some info ∧ is_symlink info = false ∧ Z.land (perm info) 146 = 0 ∧
    (e.1 = root ∨ ∃ relative, Rel root e.1 = Some relative ∧
       if is_dir info then relative ∈ directories else is_regular info = true).

Lemma walk_exact root directories expected entries rest :
  walk root directories expected entries = Some rest →
  (∀ f, f ∈ expected ↔ f ∈ rest ∨ f ∈ files_of root entries) ∧
  (∀ f, f ∈ files_of root entries → f ∉ rest) ∧ NoDup (files_of root entries) ∧
  Forall (entry_ok root directories) entries.
Proof.
  revert expected. induction entries as [|[name oi] entries IH]; intros expected; cbn [walk].
  { intros [= <-]. cbn. split_and!; [set_solver|set_solver|constructor|constructor]. }
  destruct oi as [info|]; [|done]. destruct (is_symlink info || writable info) eqn:Hw; [done|].
  unfold writable in Hw. split_bools. unfold files_of. cbn [omap list_omap]. fold (files_of root entries).
  destruct (bool_decide (name = root)) eqn:Hn; cbn [orb].
  { split_bools. intros (H1 & H2 & H3 & H4)%IH. split_and!; try done. constructor; [|done].
    exists info. split_and!; try done. by left. }
  destruct (Rel root name) as [relative|] eqn:Hrel; [|done].
  destruct (is_dir info) eqn:Hdir.
  { destruct (bool_decide (relative ∈ directories)) eqn:Hd; [|done]. split_bools.
    intros (H1 & H2 & H3 & H4)%IH. split_and!; try done. constructor; [|done].
    exists info. split_and!; try done. right. exists relative. by rewrite Hdir. }
  destruct (negb (is_regular info)) eqn:Hreg; [done|].
  destruct (negb (bool_decide (relative ∈ expected))) eqn:Hin; [done|]. split_bools.
  intros (H1 & H2 & H3 & H4)%IH.
  assert (∀ f, f ∈ List.filter (λ f, negb (bool_decide (f = relative))) expected ↔
    f ∈ expected ∧ f ≠ relative) as Hf.
  { intros f. rewrite list_elem_of_In, filter_In, <- list_elem_of_In, negb_true_iff, bool_decide_eq_false.
    done. }
  setoid_rewrite Hf in H1. split_and!.
  - intros f. rewrite elem_of_cons. specialize (H1 f). destruct (decide (f = relative)) as [->|]; tauto.
  - intros f [->|Hin']%elem_of_cons; [|by apply H2]. specialize (H1 relative). tauto.
  - constructor; [|done]. specialize (H1 relative). tauto.
  - constructor; [|done]. exists info. split_and!; try done. right. exists relative. by rewrite Hdir.
Qed.

(** An accepted bundle holds the expected files and nothing else. The walk through
    it found every file of the list once and no other file; everything in it is a
    regular file or a directory above one of the files, nothing is a symbolic link, and
    nobody may write to any of it. *)
Theorem bundle_tree_exact root urlPath :
  validateRolloutReadOnlyTree W root urlPath = true →
  let expected := stagingFiles urlPath ++
    ["promotion/rollout-request.json"; "promotion/approval-1.json"; "promotion/approval-2.json"] in
  (∀ f, f ∈ files_of root (WalkDir W root) ↔ f ∈ expected) ∧
  NoDup (files_of root (WalkDir W root)) ∧
  (∀ name oi, (name, oi) ∈ WalkDir W root → ∃ info,
     oi = Some info ∧ is_symlink info = false ∧ Z.land (perm info) 146 = 0 ∧
     (name = root ∨ ∃ relative, Rel root name = Some relative ∧
        (is_dir info = true → ∃ f n, f ∈ expected ∧ relative ∈ parents n f) ∧
        (is_dir info = false → is_regular info = true))).
Proof.
  unfold validateRolloutReadOnlyTree, validate_tree. intros H. cbv zeta in *.
  destruct (walk _ _ _ _) as [ [|x rest] | ] eqn:Hw; try done.
  destruct (walk_exact _ _ _ _ _ Hw) as (H1 & _ & H3 & H4). split_and!; [|done|].
  - intros f. rewrite (H1 f). split; [by right|]. by intros [?%elem_of_nil|?].
  - intros name oi Hin. rewrite Forall_forall in H4. destruct (H4 _ Hin) as (info & ? & ? & ? & Hk).
    exists info. split_and!; try done. destruct Hk as [Hk|(relative & Hrel & Hk)]; [by left|right].
    exists relative. split; [done|]. destruct (is_dir info); split; try done.
    intros _. apply list_elem_of_bind in Hk as (f & Hp & Hf). eauto.
Qed.

End theorems.

(** ** Witnesses *)

(** A staging bundle in "/b/0", its first generation in "/b/1", a stop in "/b/2" whose
    identifier is that of staging, and a keyring of two. *)
Definition ex_sum (s : string) : string := hex_encode (Sum256 (bytes_of s)).
Definition ex_s : string := Eval vm_compute in ex_sum "s".
Definition ex_g : string := Eval vm_compute in ex_sum "g".
Definition ex_m : string := Eval vm_compute in ex_sum "m".
Definition ex_p : string := Eval vm_compute in ex_sum "p".
Definition ex_x : string := Eval vm_compute in ex_sum "x".
Definition ex_r0 : string := Eval vm_compute in ex_sum "r0".
Definition ex_r1 : string := Eval vm_compute in ex_sum "r1".
Definition ex_c : string := Eval vm_compute in ex_sum "c".
Definition ex_q : string := Eval vm_compute in ex_sum "q".
Definition ex_k : string := Eval vm_compute in ex_sum "k".
Definition ex_h : string := Eval vm_compute in ex_sum "h".
Definition ex_q2 : string := Eval vm_compute in ex_sum "q2".
Definition ex_a3 : string := Eval vm_compute in ex_sum "a3".
Definition ex_a4 : string := Eval vm_compute in ex_sum "a4".
Definition ex_a1 : string := Eval vm_compute in ex_sum "a1".
Definition ex_a2 : string := Eval vm_compute in ex_sum "a2".

Definition ex_common : list (string * string) :=
  [("control/release-manifest.json", "m"); ("control/release-public.pem", "p");
   ("evidence/sdkconfig", "x"); ("origin/firmware-origin-catalog.json", "c")].
Definition ex_bundle (root : string) (own : list (string * string)) : list (string * bytes) :=
  ((λ '(name, text), (Join root name, bytes_of text)) <$> ex_common ++ own)
  ++ [(Join root "origin/objects/fw/a.bin", OriginTheorems.ex_image)].
Definition ex_content : list (string * bytes) :=
  ex_bundle "/b/0" [("deployment-receipt.json", "s"); ("READY", ex_s +:+ Provisioning.nl);
                    ("control/ota-release-registry.json", "r0")]
  ++ ex_bundle "/b/1" [("deployment-receipt.json", "g"); ("READY", ex_g +:+ Provisioning.nl);
                       ("control/ota-release-registry.json", "r1");
                       ("promotion/rollout-request.json", "q");
                       ("promotion/approval-1.json", "a1"); ("promotion/approval-2.json", "a2")]
  ++ ex_bundle "/b/2" [("deployment-receipt.json", "h"); ("READY", ex_h +:+ Provisioning.nl);
                       ("control/ota-release-registry.json", "r0");
                       ("promotion/rollout-request.json", "q2");
                       ("promotion/approval-1.json", "a3"); ("promotion/approval-2.json", "a4")]
  ++ [("/k/ring.json", bytes_of "k"); ("/k/1.pem", bytes_of "p1"); ("/k/2.pem", bytes_of "p2")].

Definition ex_lookup {A} (l : list (string * A)) (name : string) : option A :=
  match List.find (λ e, bool_decide (e.1 = name)) l with Some e => Some e.2 | None => None end.
Definition ex_dir : FileInfo := {| is_symlink := false; is_dir := true; is_regular := false; perm := 365 |}.
Definition ex_file : FileInfo := {| is_symlink := false; is_dir := false; is_regular := true; perm := 292 |}.
Definition ex_dirs : list string :=
  ["control"; "evidence"; "origin"; "origin/objects"; "origin/objects/fw"].
Definition ex_world : world :=
  {| files := {| FirmwareOrigin.EvalSymlinks := Some;
       FirmwareOrigin.Open := λ name,
         match ex_lookup ex_content name with
         | Some data => Some {| FirmwareOrigin.IsRegular := true; FirmwareOrigin.Size := blen data;
                                FirmwareOrigin.Data := Some data; FirmwareOrigin.Seeks := true |}
         | None => None
         end |};
     Lstat := λ name, if bool_decide (name ∈ ["/b/0"; "/b/1"; "/b/2"]) then Some ex_dir else Some ex_file;
     WalkDir := λ root,
       (root, Some ex_dir)
       :: ((λ d, (Join root d, Some ex_dir)) <$>
             (if bool_decide (root = "/b/0") then ex_dirs else "promotion" :: ex_dirs))
       ++ ((λ e, (e.1, Some ex_file)) <$>
             List.filter (λ e, String.prefix (root +:+ "/") e.1) ex_content);
     Abs := Some |}.

(** The documents. *)
Definition ex_manifest : Ota.manifestDocument :=
  {| Ota.Schema := 2; Ota.ReleaseID := "rel-2"; Ota.Project := "xiaozhi"; Ota.Board := "s3";
     Ota.Channel := "stable"; Ota.Version := "1.0.2"; Ota.ReleaseSequence := 2;
     Ota.SecureVersion := 1; Ota.ImageURL := "https://fw.example.com/fw/a.bin";
     Ota.ImageSize := 1024; Ota.ImageSHA256 := OriginTheorems.ex_sha;
     Ota.ResetQualificationSHA256 := ex_x; Ota.NotBefore := 1750000000;
     Ota.ExpiresAt := 1750086400; Ota.SigningKeyID := "key-1";
     Ota.SignatureAlgorithm := "ECDSA_P256_SHA256";
     Ota.SignatureB64URL := EncodeToString (bytes_of "signature") |}.
Definition ex_registry (on : bool) (points : Z) : Ota.registryDocument :=
  {| Ota.d_Version := 1;
     Ota.d_SigningKeys := [{| Ota.k_KeyID := "key-1"; Ota.k_PublicKeyFile := "release-public.pem" |}];
     Ota.d_Releases := [{| Ota.n_ManifestFile := "release-manifest.json"; Ota.n_Enabled := on;
                           Ota.n_RolloutBasisPoints := points; Ota.n_RetryAfterSeconds := 600 |}] |}.
Definition ex_staging : Receipt :=
  {| s_Schema := 1; s_ReleaseID := "rel-2"; s_SigningKeyID := "key-1"; s_Project := "xiaozhi";
     s_Board := "s3"; s_Channel := "stable"; s_Version := "1.0.2"; s_ReleaseSequence := 2;
     s_SecureVersion := 1; s_ImageAuthority := "fw.example.com"; s_ImageURLPath := "/fw/a.bin";
     s_ImageSize := 1024; s_ImageSHA256 := OriginTheorems.ex_sha; s_ManifestSHA256 := ex_m;
     s_PublicKeySHA256 := ex_p; s_SDKConfigSHA256 := ex_x; s_ControlRegistrySHA256 := ex_r0;
     s_OriginCatalogSHA256 := ex_c; s_RolloutEnabled := false; s_RolloutBasisPoints := 0;
     s_RetryAfterSeconds := 600 |}.
Definition ex_receipt : RolloutReceipt :=
  {| Schema := 2; GenerationID := "g1"; GenerationSequence := 1; ParentGenerationID := "staging";
     ParentGenerationSequence := 0; ParentReceiptSHA256 := ex_s; PromotionAction := "EXPAND";
     ApprovalKeyringSHA256 := ex_k; RolloutRequestSHA256 := ex_q;
     Evidence := [{| v_ApproverID := "ann"; v_ApprovalKeyID := "k1"; v_ApprovalSHA256 := ex_a1 |};
                  {| v_ApproverID := "bob"; v_ApprovalKeyID := "k2"; v_ApprovalSHA256 := ex_a2 |}];
     PromotedAt := 1750000300; ReleaseID := "rel-2"; SigningKeyID := "key-1"; Project := "xiaozhi";
     Board := "s3"; Channel := "stable"; Version := "1.0.2"; ReleaseSequence := 2;
     SecureVersion := 1; ImageAuthority := "fw.example.com"; ImageURLPath := "/fw/a.bin";
     ImageSize := 1024; ImageSHA256 := OriginTheorems.ex_sha; ManifestSHA256 := ex_m;
     PublicKeySHA256 := ex_p; SDKConfigSHA256 := ex_x; ControlRegistrySHA256 := ex_r1;
     OriginCatalogSHA256 := ex_c; RolloutEnabled := true; RolloutBasisPoints := 10000;
     RetryAfterSeconds := 600 |}.
Definition ex_request : rolloutRequest :=
  {| q_Schema := 1; q_GenerationID := "g1"; q_GenerationSequence := 1;
     q_ParentGenerationID := "staging"; q_ParentGenerationSequence := 0;
     q_ParentReceiptSHA256 := ex_s; q_ParentRolloutEnabled := false;
     q_ParentRolloutBasisPoints := 0; q_ReleaseID := "rel-2"; q_ReleaseSequence := 2;
     q_ImageSHA256 := OriginTheorems.ex_sha; q_PromotionAction := "EXPAND";
     q_RolloutEnabled := true; q_RolloutBasisPoints := 10000; q_RetryAfterSeconds := 600;
     q_CreatedAt := 1750000100; q_ExpiresAt := 1750003600; q_ApprovalKeyringSHA256 := ex_k |}.
Definition ex_stop : RolloutReceipt :=
  {| Schema := 2; GenerationID := "staging"; GenerationSequence := 2; ParentGenerationID := "g1";
     ParentGenerationSequence := 1; ParentReceiptSHA256 := ex_g;
     PromotionAction := "EMERGENCY_STOP";
     ApprovalKeyringSHA256 := ex_k; RolloutRequestSHA256 := ex_q2;
     Evidence := [{| v_ApproverID := "ann"; v_ApprovalKeyID := "k1"; v_ApprovalSHA256 := ex_a3 |};
                  {| v_ApproverID := "bob"; v_ApprovalKeyID := "k2"; v_ApprovalSHA256 := ex_a4 |}];
     PromotedAt := 1750001300; ReleaseID := "rel-2"; SigningKeyID := "key-1"; Project := "xiaozhi";
     Board := "s3"; Channel := "stable"; Version := "1.0.2"; ReleaseSequence := 2;
     SecureVersion := 1; ImageAuthority := "fw.example.com"; ImageURLPath := "/fw/a.bin";
     ImageSize := 1024; ImageSHA256 := OriginTheorems.ex_sha; ManifestSHA256 := ex_m;
     PublicKeySHA256 := ex_p; SDKConfigSHA256 := ex_x; ControlRegistrySHA256 := ex_r0;
     OriginCatalogSHA256 := ex_c; RolloutEnabled := false; RolloutBasisPoints := 0;
     RetryAfterSeconds := 600 |}.
Definition ex_stop_request : rolloutRequest :=
  {| q_Schema := 1; q_GenerationID := "staging"; q_GenerationSequence := 2;
     q_ParentGenerationID := "g1"; q_ParentGenerationSequence := 1;
     q_ParentReceiptSHA256 := ex_g; q_ParentRolloutEnabled := true;
     q_ParentRolloutBasisPoints := 10000; q_ReleaseID := "rel-2"; q_ReleaseSequence := 2;
     q_ImageSHA256 := OriginTheorems.ex_sha; q_PromotionAction := "EMERGENCY_STOP";
     q_RolloutEnabled := false; q_RolloutBasisPoints := 0; q_RetryAfterSeconds := 600;
     q_CreatedAt := 1750001100; q_ExpiresAt := 1750003600; q_ApprovalKeyringSHA256 := ex_k |}.
Definition ex_approval (request who keyid : string) (at_ : Z) : rolloutApproval :=
  {| a_Schema := 1; a_RequestSHA256 := request; a_ApproverID := who; a_ApprovalKeyID := keyid;
     a_Decision := "APPROVE"; a_SignedAt := at_; a_SignatureAlgorithm := "Ed25519";
     a_SignatureB64URL := EncodeToString (replicate 64 (byte_of 1)) |}.
Definition ex_keyring : approverKeyringDocument :=
  {| k_Version := 1;
     k_Approvers := [{| n_ApproverID := "ann"; n_ApprovalKeyID := "k1"; n_PublicKeyFile := "1.pem";
                        n_Enabled := true |};
                     {| n_ApproverID := "bob"; n_ApprovalKeyID := "k2"; n_PublicKeyFile := "2.pem";
                        n_Enabled := true |}] |}.

(** Decoders that know these documents, and signatures that all verify. *)
Definition ex_on {A} (text : string) (x : A) (payload : bytes) : option A :=
  if bool_decide (payload = bytes_of text) then Some x else None.
Definition ex_library : library :=
  {| tokens := λ _, {| StrictJSON.rest := [StrictJSON.OpenObject; StrictJSON.CloseObject];
                       StrictJSON.eof := true |};
     raw_fields := λ b, ex_lookup [("s", receiptFields); ("g", rolloutReceiptFields);
       ("h", rolloutReceiptFields); ("q", rolloutRequestFields); ("q2", rolloutRequestFields);
       ("a1", rolloutApprovalFields); ("a2", rolloutApprovalFields);
       ("a3", rolloutApprovalFields); ("a4", rolloutApprovalFields);
       ("k", approverKeyringFields)] (string_of b);
     schema_of := λ b, ex_lookup [("s", 1); ("g", 2); ("h", 2)] (string_of b);
     approver_fields := ex_on "k" [approverEntryFields; approverEntryFields];
     decode_receipt := ex_on "s" ex_staging;
     decode_rollout_receipt := λ b, ex_lookup [("g", ex_receipt); ("h", ex_stop)] (string_of b);
     decode_request := λ b, ex_lookup [("q", ex_request); ("q2", ex_stop_request)] (string_of b);
     decode_approval := λ b, ex_lookup [("a1", ex_approval ex_q "ann" "k1" 1750000200);
       ("a2", ex_approval ex_q "bob" "k2" 1750000250); ("a3", ex_approval ex_q2 "ann" "k1" 1750001200);
       ("a4", ex_approval ex_q2 "bob" "k2" 1750001250)] (string_of b);
     decode_keyring := ex_on "k" ex_keyring;
     decode_catalog := ex_on "c"
       {| FirmwareOrigin.Version := 1; FirmwareOrigin.Objects :=
            [{| FirmwareOrigin.e_ReleaseID := "rel-2";
                FirmwareOrigin.e_ImageSHA256 := OriginTheorems.ex_sha;
                FirmwareOrigin.e_ImageSize := 1024; FirmwareOrigin.e_URLPath := "/fw/a.bin";
                FirmwareOrigin.e_ImageFile := "objects/fw/a.bin" |}] |};
     decode_registry := λ b, ex_lookup [("r0", ex_registry false 0); ("r1", ex_registry true 10000)]
                               (string_of b);
     decode_manifest := ex_on "m" ex_manifest;
     url_Parse := λ _, Some {| Ota.Scheme := "https"; Ota.Host := "fw.example.com";
       Ota.HasUser := false; Ota.RawQuery := ""; Ota.Fragment := ""; Ota.Path := "/fw/a.bin" |};
     pem_Decode := λ b, Some ("PUBLIC KEY", b, []);
     parse_ed25519 := λ b, Some (b ++ replicate 30 (byte_of 0)); parse_p256 := Some;
     ed25519_Verify := λ _ _ _, true; ecdsa_VerifyASN1 := λ _ _ _, true |}.

Lemma ex_chain :
  ValidateRolloutChain ex_world ex_library "/b/2" ["/b/1"; "/b/0"] ["/k/ring.json"] "fw.example.com"
    = Some ex_stop.
Proof. vm_compute. reflexivity. Qed.

(** A lineage may use the identifier of its root again. The generations of a lineage
    have different identifiers, but the identifier "staging", under which the first of
    them names its parent, is not among those that are compared: a later generation
    with that identifier is accepted. *)
Theorem staging_name_reused : ∃ W L root parents paths authority receipt bottom state payload,
  ValidateRolloutChain W L root parents paths authority = Some receipt ∧
  last parents = Some bottom ∧ loadParentState W L bottom authority = Some (state, payload) ∧
  p_generationID state = GenerationID receipt.
Proof.
  exists ex_world, ex_library, "/b/2", ["/b/1"; "/b/0"], ["/k/ring.json"], "fw.example.com", ex_stop, "/b/0".
  assert (∃ state payload, loadParentState ex_world ex_library "/b/0" "fw.example.com"
    = Some (state, payload) ∧ p_generationID state = "staging") as (state & payload & Hl & Hs).
  { eexists _, _. split; [vm_compute; reflexivity|reflexivity]. }
  exists state, payload. split; [exact ex_chain|]. split; [reflexivity|]. split; [exact Hl|exact Hs].
Qed.

Lemma ex_rollout :
  ValidateRollout ex_world ex_library "/b/1" "/b/0" "fw.example.com" "/k/ring.json" = Some ex_receipt.
Proof. vm_compute. reflexivity. Qed.

Definition ex_release : Ota.Release :=
  {| Ota.doc := ex_manifest; Ota.Manifest := bytes_of "m"; Ota.Enabled := true;
     Ota.RolloutBasisPoints := 10000; Ota.RetryAfterSeconds := 600 |}.

Lemma ex_registry_loaded :
  LoadRegistry ex_world ex_library (registryPath "/b/1") = Some [ex_release].
Proof. vm_compute. reflexivity. Qed.

(** Ann and Bob approved it. *)
Lemma rollout_needs_two_people_witness : ∃ request keyring a1 a2 t1 t2 h,
  asks_for request ex_receipt ∧ approved ex_library request h keyring a1 t1 ∧
  approved ex_library request h keyring a2 t2 ∧ a_ApproverID a1 ≠ a_ApproverID a2 ∧ key t1 ≠ key t2.
Proof.
  destruct (rollout_needs_two_people _ _ _ _ _ _ _ ex_rollout) as
    (b & request & keyring & a1 & a2 & t1 & t2 & _ & _ & Hask & _ & _ & H1 & H2 & Hne & Hk & _).
  exists request, keyring, a1, a2, t1, t2, (hex_encode (Sum256 b)).
  split; [exact Hask|]. split; [exact H1|]. split; [exact H2|]. split; [exact Hne|exact Hk].
Defined.

Lemma rollout_lineage_refines_witness : ∃ receipts,
  head receipts = Some ex_stop ∧ history receipts {| promotions := 2; share := 0 |}.
Proof.
  destruct (rollout_lineage_refines _ _ _ _ _ _ _ ex_chain) as
    (receipts & keyrings & staging & bottom & Hh & _ & _ & _ & _ & _ & _ & Hist & _).
  exists receipts. split; [exact Hh|exact Hist].
Defined.

Lemma offers_within_approval_witness :
  Ota.inCohort (replicate 32 (byte_of 3)) "dev-1" "rel-2" 10000 = true ∧
  PromotionAction ex_receipt ≠ "EMERGENCY_STOP".
Proof.
  assert (Ota.Select [ex_release] "dev-1" "s3" "stable" 1 (from_unix 1750000400)
    (replicate 32 (byte_of 3)) = (Some ex_release, Ota.OfferAvailable, 600)) as Hsel
    by (vm_compute; reflexivity).
  destruct (offers_within_approval _ _ _ _ _ _ _ _ _ _ _ _ _ _ _ _ ex_rollout ex_registry_loaded Hsel
    eq_refl) as (Ha & _ & Hc & _).
  split; [exact Hc|exact Ha].
Defined.

Lemma bundle_tree_exact_witness :
  "READY" ∈ files_of "/b/1" (WalkDir ex_world "/b/1") ∧
  NoDup (files_of "/b/1" (WalkDir ex_world "/b/1")).
Proof.
  destruct (bundle_tree_exact ex_world "/b/1" "/fw/a.bin") as (Hf & Hn & _); [vm_compute; reflexivity|].
  split; [apply Hf; left|exact Hn].
Defined.

End RolloutTheorems.
