(* ===== verification/AgentProxy.v ===== *)
(** * AgentProxy: the budgeted proxy to the language model

    Models [internal/agentproxy/proxy.go] and the checks of its settings in
    [config.go]: the construction of the proxy, the decoding and the checks of
    requests and of the provider's answers, the limits per device and in total, and
    the [chat] handler. A handler is a sequence of steps, one for each use of state
    that handlers share (the identity tracker, the limiters, the channel of slots,
    the ledger) and for each deferred call; steps of any number of handlers
    interleave. The ledger is that of [UsageBudget], the tracker and the registry
    those of [Provisioning]. The JSON decoder, [url.Parse] and [mime.ParseMediaType]
    are arguments, and so are the answers of the provider and of the coordinator. Of
    the metrics the counters of usage are modelled. *)

From stdpp Require Import base gmap strings list.
From Stdlib Require Import ZArith Lia.
From Stdlib.Strings Require Import Byte.
From S2P Require Import Prelude GoBase GoCrypto BudgetSpec UsageBudget Auth DeviceClaim Provisioning.
From S2P Require Import StrictJSON.

Module AgentProxy.
Import Ident Token.

Definition maximumDeviceLimiters : Z := 100000.

(** ** Settings *)

(** The fields of [url.URL] that are looked at. *)
Record URL : Type := {
  Scheme : string;
  Host : string;
  Path : string;
  HasUser : bool;
  RawQuery : string;
  Fragment : string;
}.

(** [None]: the text is not a URL. *)
Definition validateProviderURL (endpoint : option URL) (allowInsecure : bool) : bool :=
  match endpoint with
  | None => false
  | Some endpoint =>
      IF bool_decide (Host endpoint = "")
         || negb (bool_decide (Path endpoint = "/v1/chat/completions")) || HasUser endpoint
         || negb (bool_decide (RawQuery endpoint = ""))
         || negb (bool_decide (Fragment endpoint = ""))
        RETURN false ;;
      bool_decide (Scheme endpoint = "https")
      || (allowInsecure && bool_decide (Scheme endpoint = "http"))
  end.

(** A letter, a digit, or one of [-_.:]; every byte of a longer rune is refused as the
    rune is. *)
Definition model_byte (b : byte) : bool :=
  let c := bval b in
  ((97 <=? c) && (c <=? 122)) || ((65 <=? c) && (c <=? 90)) || ((48 <=? c) && (c <=? 57))
  || (c =? 45) || (c =? 95) || (c =? 46) || (c =? 58).

Definition validModel (value : string) : bool :=
  IF bool_decide (value = "") || (128 <? slen value) RETURN false ;;
  forallb model_byte (bytes_of value).

Definition validOptionalHeaderIdentifier (value : string) : bool :=
  IF bool_decide (value = "") RETURN true ;;
  IF 128 <? slen value RETURN false ;;
  forallb model_byte (bytes_of value).

Record Config : Type := {
  AllowInsecure : bool;
  ProviderURL : string;
  ProviderAPIKey : string;
  ProviderModel : string;
  ProviderOrganization : string;
  ProviderProject : string;
  PublicModel : string;
  MaxOutputTokens : Z;
  MaxRequestBytes : Z;
  MaxResponseBytes : Z;
  RequestTimeout : Duration;
  MaxConcurrent : Z;
  MaxRequestsMinute : Z;
  RuntimeCoordinator : bool; (* whether there is one *)
  InputTokenOverhead : Z;
}.

(** ** Requests and answers *)

Record inboundRequest : Type := {
  Model : string;
  Messages : list bytes;
  Tools : list bytes;
  MaxTokens : option Z;
  MaxCompletionTokens : option Z;
  Stream : option bool;
}.

Record providerRequest : Type := {
  p_Model : string;
  p_Messages : list bytes;
  p_Tools : list bytes;
  p_MaxCompletionTokens : Z;
  p_Store : bool;
}.

Record decodedRequest : Type := {
  d_Messages : list bytes;
  d_Tools : list bytes;
  outputTokens : Z;
}.

Record message : Type := {
  Role : string;
  Content : option string;
  ToolCalls : list bytes;
}.

Record usage_members : Type := {
  PromptTokens : option Z;
  CompletionTokens : option Z;
  usage_TotalTokens : option Z;
}.

(** The standard library at the types this package decodes to. [Decode] reads one
    document with known members only and fails when anything follows it. *)
Record library : Type := {
  Parse : string → option URL;
  ParseMediaType : string → option string;
  Decode : bytes → option inboundRequest;
  Marshal : providerRequest → option bytes;
  Unmarshal_object : bytes → bool; (* into a map that is not nil *)
  Unmarshal_choices : bytes → option (list message);
  Unmarshal_usage : bytes → option (option usage_members);
  NewDecoder : bytes → StrictJSON.Decoder;
  Unmarshal_claims : bytes → option Claims;
}.

Section proxy.
Context (J : library).

Definition jsonObject (value : bytes) : bool := Unmarshal_object J value.

Definition jsonContentType (value : string) : bool :=
  bool_decide (ParseMediaType J value = Some "application/json").

Definition decodeRequest (input : bytes) (publicModel : string) (maximumTokens : Z) :
    option decodedRequest :=
  match Decode J input with
  | None => None
  | Some input =>
      IF negb (bool_decide (Model input = publicModel)) || Nat.eqb (length (Messages input)) 0
         || (64 <? Z.of_nat (length (Messages input))) || (32 <? Z.of_nat (length (Tools input)))
         || bool_decide (Stream input = Some true)
         || (bool_decide (is_Some (MaxTokens input))
             && bool_decide (is_Some (MaxCompletionTokens input)))
        RETURN None ;;
      IF negb (forallb jsonObject (Messages input)) RETURN None ;;
      IF negb (forallb jsonObject (Tools input)) RETURN None ;;
      let requested :=
        match MaxCompletionTokens input, MaxTokens input with
        | Some n, _ => n
        | None, Some n => n
        | None, None => maximumTokens
        end in
      IF (requested <=? 0) || (maximumTokens <? requested) RETURN None ;;
      Some {| d_Messages := Messages input; d_Tools := Tools input; outputTokens := requested |}
  end.

Definition validProviderResponse (body : bytes) : bool :=
  match Unmarshal_choices J body with
  | None | Some [] => false
  | Some (first :: _ as choices) =>
      IF (8 <? Z.of_nat (length choices)) || negb (bool_decide (Role first = "assistant"))
        RETURN false ;;
      IF bool_decide (Content first = None ∨ Content first = Some "")
         && Nat.eqb (length (ToolCalls first)) 0
        RETURN false ;;
      IF match Content first with Some c => 64 * 1024 <? slen c | None => false end
        RETURN false ;;
      IF 32 <? Z.of_nat (length (ToolCalls first)) RETURN false ;;
      forallb jsonObject (ToolCalls first)
  end.

Definition providerUsage (body : bytes) : option UsageBudget.Usage :=
  IF negb (is_ok (StrictJSON.RejectDuplicateFields (NewDecoder J body))) RETURN None ;;
  match Unmarshal_usage J body with
  | Some (Some {| PromptTokens := Some i; CompletionTokens := Some o;
                  usage_TotalTokens := Some t |}) =>
      let usage := {| UsageBudget.InputTokens := i; UsageBudget.OutputTokens := o;
                      UsageBudget.TotalTokens := t |} in
      IF negb (is_ok (UsageBudget.Usage_Validate usage)) RETURN None ;;
      Some usage
  | _ => None
  end.

(** ** The state of the proxy *)

Record deviceLimiter : Type := {
  windowStart : Time;
  requests : Z;
  inflight : bool;
}.

Record metrics : Type := {
  usageSettledRequests : Z;
  usageUncertain : Z;
  usageCommittedCost : Z;
  usageUncertainCost : Z;
  usageFailures : Z;
}.

(** A call of the ledger by a request: the ledger it met, whether its context was alive,
    its arguments and its answer. *)
Inductive usage_act : Type :=
| ActReserve (before : UsageBudget.MemoryLedger) (ctx : bool) (subject : string)
    (inputLimit outputLimit : Z) (now : Time) (draw : option bytes)
    (r : result UsageBudget.error UsageBudget.Reservation)
| ActSettle (before : UsageBudget.MemoryLedger) (ctx : bool) (res : UsageBudget.Reservation)
    (usage : UsageBudget.Usage) (r : result UsageBudget.error UsageBudget.Settlement)
| ActUncertain (before : UsageBudget.MemoryLedger) (ctx : bool) (res : UsageBudget.Reservation)
    (r : result UsageBudget.error Z)
| ActRelease (before : UsageBudget.MemoryLedger) (ctx : bool) (res : UsageBudget.Reservation)
    (r : result UsageBudget.error unit).

(** Where a handler is. The last four are its deferred calls, in the order in which
    they run. *)
Inductive place : Type :=
| Limiting
| TakingSlot
| ReadingBody
| Reserving (input : decodedRequest) (payload : bytes)
| Calling
| Settling (body : bytes)
| FinishingUsage
| ReturningSlot
| ReturningDevice
| FinishingIdentity
| Done.

(** A [chat] handler: its local variables and the status and body it answered. [acts]
    is a record of what it did to the ledger. *)
Record handler : Type := {
  pc : place;
  h_deviceID : string;
  ownedScope : string;
  reservation : option UsageBudget.Reservation;
  finalizedUsage : bool;
  providerContacted : bool;
  answer : option (Z * bytes);
  acts : list usage_act;
}.

Record Proxy : Type := {
  config : Config;
  UsageLedger : option UsageBudget.MemoryLedger;
  concurrency : Z; (* the length of the channel *)
  limiters : gmap string deviceLimiter;
  identity : option Provisioning.Tracker;
  stats : metrics;
  handlers : gmap nat handler;
}.

Definition New (c : Config) (ledger : option UsageBudget.MemoryLedger) (identity : bool) :
    option Proxy :=
  IF bool_decide (ProviderAPIKey c = "")
     || existsb (λ b, (bval b =? 13) || (bval b =? 10)) (bytes_of (ProviderAPIKey c))
     || negb (validModel (ProviderModel c)) || negb (validModel (PublicModel c))
     || negb (validOptionalHeaderIdentifier (ProviderOrganization c))
     || negb (validOptionalHeaderIdentifier (ProviderProject c))
     || negb (validateProviderURL (Parse J (ProviderURL c)) (AllowInsecure c))
    RETURN None ;;
  let c' :=
    {| AllowInsecure := AllowInsecure c; ProviderURL := ProviderURL c;
       ProviderAPIKey := ProviderAPIKey c; ProviderModel := ProviderModel c;
       ProviderOrganization := ProviderOrganization c; ProviderProject := ProviderProject c;
       PublicModel := PublicModel c;
       MaxOutputTokens :=
         if (MaxOutputTokens c <=? 0) || (8192 <? MaxOutputTokens c) then 1024
         else MaxOutputTokens c;
       MaxRequestBytes :=
         if (MaxRequestBytes c <=? 0) || (1024 * 1024 <? MaxRequestBytes c) then 256 * 1024
         else MaxRequestBytes c;
       MaxResponseBytes :=
         if (MaxResponseBytes c <=? 0) || (4 * 1024 * 1024 <? MaxResponseBytes c)
         then 1024 * 1024 else MaxResponseBytes c;
       RequestTimeout :=
         if (RequestTimeout c <=? 0) || (2 * minute <? RequestTimeout c) then 35 * second
         else RequestTimeout c;
       MaxConcurrent := if MaxConcurrent c <=? 0 then 100 else MaxConcurrent c;
       MaxRequestsMinute := if MaxRequestsMinute c <=? 0 then 30 else MaxRequestsMinute c;
       RuntimeCoordinator := RuntimeCoordinator c;
       InputTokenOverhead := InputTokenOverhead c |} in
  IF (negb (AllowInsecure c) && bool_decide (ledger = None))
     || (negb (bool_decide (ledger = None))
         && ((InputTokenOverhead c <? 0) || (65536 <? InputTokenOverhead c)))
    RETURN None ;;
  Some {| config := c'; UsageLedger := ledger; concurrency := 0; limiters := ∅;
          identity := if identity
                      then Some {| Provisioning.active := ∅; Provisioning.cancelled := ∅ |}
                      else None;
          stats := {| usageSettledRequests := 0; usageUncertain := 0; usageCommittedCost := 0;
                      usageUncertainCost := 0; usageFailures := 0 |};
          handlers := ∅ |}.

(** *** Field updates *)

Definition set_ledger l (p : Proxy) : Proxy :=
  {| config := config p; UsageLedger := l; concurrency := concurrency p;
     limiters := limiters p; identity := identity p; stats := stats p;
     handlers := handlers p |}.
Definition set_concurrency n (p : Proxy) : Proxy :=
  {| config := config p; UsageLedger := UsageLedger p; concurrency := n;
     limiters := limiters p; identity := identity p; stats := stats p;
     handlers := handlers p |}.
Definition set_limiters m (p : Proxy) : Proxy :=
  {| config := config p; UsageLedger := UsageLedger p; concurrency := concurrency p;
     limiters := m; identity := identity p; stats := stats p; handlers := handlers p |}.
Definition set_identity t (p : Proxy) : Proxy :=
  {| config := config p; UsageLedger := UsageLedger p; concurrency := concurrency p;
     limiters := limiters p; identity := t; stats := stats p; handlers := handlers p |}.
Definition set_stats m (p : Proxy) : Proxy :=
  {| config := config p; UsageLedger := UsageLedger p; concurrency := concurrency p;
     limiters := limiters p; identity := identity p; stats := m; handlers := handlers p |}.
Definition put (r : nat) (h : handler) (p : Proxy) : Proxy :=
  {| config := config p; UsageLedger := UsageLedger p; concurrency := concurrency p;
     limiters := limiters p; identity := identity p; stats := stats p;
     handlers := <[r := h]> (handlers p) |}.

Definition goto (l : place) (h : handler) : handler :=
  {| pc := l; h_deviceID := h_deviceID h; ownedScope := ownedScope h;
     reservation := reservation h; finalizedUsage := finalizedUsage h;
     providerContacted := providerContacted h; answer := answer h; acts := acts h |}.
(** [http.Error] or the answer of the provider; the first one counts. *)
Definition reply (status : Z) (body : bytes) (h : handler) : handler :=
  {| pc := pc h; h_deviceID := h_deviceID h; ownedScope := ownedScope h;
     reservation := reservation h; finalizedUsage := finalizedUsage h;
     providerContacted := providerContacted h;
     answer := match answer h with Some a => Some a | None => Some (status, body) end;
     acts := acts h |}.
Definition fail (status : Z) (l : place) (h : handler) : handler := goto l (reply status [] h).
Definition reserved (r : option UsageBudget.Reservation) (h : handler) : handler :=
  {| pc := pc h; h_deviceID := h_deviceID h; ownedScope := ownedScope h;
     reservation := r; finalizedUsage := finalizedUsage h;
     providerContacted := true; answer := answer h; acts := acts h |}.
Definition finalized (h : handler) : handler :=
  {| pc := pc h; h_deviceID := h_deviceID h; ownedScope := ownedScope h;
     reservation := reservation h; finalizedUsage := true;
     providerContacted := providerContacted h; answer := answer h; acts := acts h |}.
Definition acted (a : usage_act) (h : handler) : handler :=
  {| pc := pc h; h_deviceID := h_deviceID h; ownedScope := ownedScope h;
     reservation := reservation h; finalizedUsage := finalizedUsage h;
     providerContacted := providerContacted h; answer := answer h; acts := acts h ++ [a] |}.

Definition count_settled (cost : Z) (m : metrics) : metrics :=
  {| usageSettledRequests := wrap_u64 (usageSettledRequests m + 1);
     usageUncertain := usageUncertain m;
     usageCommittedCost := wrap_u64 (usageCommittedCost m + cost);
     usageUncertainCost := usageUncertainCost m; usageFailures := usageFailures m |}.
Definition count_uncertain (cost : Z) (m : metrics) : metrics :=
  {| usageSettledRequests := usageSettledRequests m;
     usageUncertain := wrap_u64 (usageUncertain m + 1);
     usageCommittedCost := usageCommittedCost m;
     usageUncertainCost := wrap_u64 (usageUncertainCost m + cost);
     usageFailures := usageFailures m |}.
Definition count_failure (m : metrics) : metrics :=
  {| usageSettledRequests := usageSettledRequests m; usageUncertain := usageUncertain m;
     usageCommittedCost := usageCommittedCost m; usageUncertainCost := usageUncertainCost m;
     usageFailures := wrap_u64 (usageFailures m + 1) |}.

(** ** The limits *)

(** A new minute starts. *)
Definition next_window (now : Time) (l : deviceLimiter) : deviceLimiter :=
  if IsZero (windowStart l) || (minute <=? Sub now (windowStart l))
  then {| windowStart := now; requests := 0; inflight := inflight l |} else l.

Definition acquireDevice (scope : string) (now : Time) (p : Proxy) : Proxy * bool :=
  match
    match limiters p !! scope with
    | Some l => Some l
    | None =>
        IF maximumDeviceLimiters <=? Z.of_nat (size (limiters p)) RETURN None ;;
        Some {| windowStart := zero_time; requests := 0; inflight := false |}
    end
  with
  | None => (p, false)
  | Some l =>
      let l := next_window now l in
      IF inflight l || (MaxRequestsMinute (config p) <=? requests l)
        RETURN (set_limiters (<[scope := l]> (limiters p)) p, false) ;;
      let l := {| windowStart := windowStart l; requests := requests l +i 1;
                  inflight := true |} in
      (set_limiters (<[scope := l]> (limiters p)) p, true)
  end.

Definition releaseDevice (scope : string) (p : Proxy) : Proxy :=
  match limiters p !! scope with
  | Some l =>
      set_limiters (<[scope := {| windowStart := windowStart l; requests := requests l;
                                  inflight := false |}]> (limiters p)) p
  | None => p
  end.

(** [view] is the registry as it is read. *)
Definition identityRevoked (p : Proxy) (r : nat) (view : Provisioning.View) (deviceID : string) :
    bool :=
  match identity p with
  | Some t => bool_decide (r ∈ Provisioning.cancelled t)
              || negb (Provisioning.DeviceAllowed view deviceID)
  | None => false
  end.

(** ** The handler *)

Record request : Type := {
  hdr_Authorization : string;
  hdr_ContentType : string;
  req_RawQuery : string;
  ContentLength : Z;
}.

Definition chat_auth {E} (v : Verifier) (n1 n2 n3 : Time)
    (owner : string → result E (option DeviceClaim.Ownership)) (header : string) :
    result Z (Claims * string) :=
  match VerifyAuthorization (Unmarshal_claims J) v n1 n2 n3 header with
  | Err _ => Err 401
  | Ok claims =>
      match OwnedDeviceScope claims with
      | None => Err 401
      | Some scope =>
          match owner (DeviceID claims) with
          | Err _ => Err 503
          | Ok None => Err 401
          | Ok (Some o) =>
              IF negb (DeviceClaim.Matches o (OwnerID claims) (TenantID claims)
                         (BindingID claims) (BindingRevision claims))
                RETURN Err 401 ;;
              Ok (claims, scope)
          end
      end
  end.

(** The handler of a request, before anything is known of it. *)
Definition new_handler (deviceID scope : string) : handler :=
  {| pc := Limiting; h_deviceID := deviceID; ownedScope := scope; reservation := None;
     finalizedUsage := false; providerContacted := false; answer := None; acts := [] |}.

Definition admit_request (q : request) (p : Proxy) (h : handler) : handler :=
  IF negb (bool_decide (req_RawQuery q = "")) || (ContentLength q =? 0)
     || (MaxRequestBytes (config p) <? ContentLength q)
     || negb (jsonContentType (hdr_ContentType q))
    RETURN fail 400 FinishingIdentity h ;;
  goto Limiting h.

Definition arrive {E} (r : nat) (v : Verifier) (n1 n2 n3 : Time)
    (owner : string → result E (option DeviceClaim.Ownership)) (view : Provisioning.View)
    (q : request) (p : Proxy) : Proxy :=
  match chat_auth v n1 n2 n3 owner (hdr_Authorization q) with
  | Err status => put r (fail status Done (new_handler "" "")) p
  | Ok (claims, scope) =>
      let h := new_handler (DeviceID claims) scope in
      match identity p with
      | None => put r (admit_request q p h) p
      | Some t =>
          let '(t, allowed) := Provisioning.Start t view (DeviceID claims) r in
          let p := set_identity (Some t) p in
          IF negb allowed RETURN put r (fail 401 Done h) p ;;
          put r (admit_request q p h) p
      end
  end.

(** What [AcquireAgent] of the shared coordinator answers. *)
Inductive coordination : Type :=
| LeaseGranted
| LeaseConflict
| LeaseRateLimited
| LeaseFailed.

Definition limit (r : nat) (h : handler) (c : coordination) (now : Time) (p : Proxy) : Proxy :=
  if RuntimeCoordinator (config p) then
    match c with
    | LeaseGranted => put r (goto ReadingBody h) p
    | LeaseConflict | LeaseRateLimited => put r (fail 429 FinishingIdentity h) p
    | LeaseFailed => put r (fail 503 FinishingIdentity h) p
    end
  else
    let '(p, ok) := acquireDevice (ownedScope h) now p in
    IF negb ok RETURN put r (fail 429 FinishingIdentity h) p ;;
    put r (goto TakingSlot h) p.

Definition take_slot (r : nat) (h : handler) (p : Proxy) : Proxy :=
  if concurrency p <? MaxConcurrent (config p)
  then put r (goto ReadingBody h) (set_concurrency (concurrency p + 1) p)
  else put r (fail 503 ReturningDevice h) p.

(** The deferred calls after that of the reservation. *)
Definition unwind (p : Proxy) : place :=
  if RuntimeCoordinator (config p) then FinishingIdentity else ReturningSlot.

(** [body] is [None] when reading it fails; [created] is whether the provider's request
    could be made. *)
Definition read_body (r : nat) (h : handler) (body : option bytes) (view : Provisioning.View)
    (created : bool) (p : Proxy) : Proxy :=
  let c := config p in
  let refused := if identityRevoked p r view (h_deviceID h) then 401 else 400 in
  match
    match body with
    | Some b => decodeRequest (take (Z.to_nat (MaxRequestBytes c + 1)) b) (PublicModel c)
                  (MaxOutputTokens c)
    | None => None
    end
  with
  | None => put r (fail refused (unwind p) h) p
  | Some input =>
      match Marshal J {| p_Model := ProviderModel c; p_Messages := d_Messages input;
                         p_Tools := d_Tools input;
                         p_MaxCompletionTokens := outputTokens input; p_Store := false |} with
      | None => put r (fail refused (unwind p) h) p
      | Some payload =>
          IF negb created RETURN put r (fail 502 (unwind p) h) p ;;
          match UsageLedger p with
          | None => put r (goto Calling (finalized (reserved None h))) p
          | Some _ => put r (goto (Reserving input payload) h) p
          end
      end
  end.

Definition reserve (r : nat) (h : handler) (input : decodedRequest) (payload : bytes)
    (ctx : bool) (now : Time) (draw : option bytes) (ledger : UsageBudget.MemoryLedger)
    (p : Proxy) : Proxy :=
  let inputLimit := blen payload +i InputTokenOverhead (config p) in
  let '(ledger', res) :=
    UsageBudget.Reserve ledger ctx (ownedScope h) inputLimit (outputTokens input) now draw in
  let p := set_ledger (Some ledger') p in
  let h := acted (ActReserve ledger ctx (ownedScope h) inputLimit (outputTokens input) now draw
                    res) h in
  match res with
  | Err UsageBudget.ErrBudgetExceeded => put r (fail 429 (unwind p) h) p
  | Err _ => put r (fail 503 (unwind p) h) (set_stats (count_failure (stats p)) p)
  | Ok res => put r (goto Calling (reserved (Some res) h)) p
  end.

(** The provider's answer; [r_Body] is [None] when reading it fails. *)
Record response : Type := {
  StatusCode : Z;
  r_ContentType : string;
  r_Body : option bytes;
}.

(** [resp] is [None] when the call fails. *)
Definition call (r : nat) (h : handler) (resp : option response) (view : Provisioning.View)
    (p : Proxy) : Proxy :=
  let revoked := identityRevoked p r view (h_deviceID h) in
  match resp with
  | None => put r (fail (if revoked then 401 else 502) FinishingUsage h) p
  | Some resp =>
      IF revoked RETURN put r (fail 401 FinishingUsage h) p ;;
      match r_Body resp with
      | None => put r (fail 502 FinishingUsage h) p
      | Some b =>
          let body := take (Z.to_nat (MaxResponseBytes (config p) + 1)) b in
          IF (MaxResponseBytes (config p) <? blen body) || negb (StatusCode resp =? 200)
             || negb (jsonContentType (r_ContentType resp)) || negb (validProviderResponse body)
            RETURN put r (fail 502 FinishingUsage h) p ;;
          match UsageLedger p with
          | None => put r (goto FinishingUsage (reply 200 body h)) p
          | Some _ =>
              match providerUsage body with
              | None => put r (fail 502 FinishingUsage h) p
              | Some _ => put r (goto (Settling body) h) p
              end
          end
      end
  end.

Definition settle (r : nat) (h : handler) (body : bytes) (usage : UsageBudget.Usage)
    (res : UsageBudget.Reservation) (ctx : bool) (ledger : UsageBudget.MemoryLedger)
    (p : Proxy) : Proxy :=
  let '(ledger', result) := UsageBudget.Settle ledger ctx res usage in
  let p := set_ledger (Some ledger') p in
  let h := acted (ActSettle ledger ctx res usage result) h in
  match result with
  | Err _ => put r (fail 503 FinishingUsage h) (set_stats (count_failure (stats p)) p)
  | Ok s =>
      put r (goto FinishingUsage (reply 200 body (finalized h)))
        (set_stats (count_settled (UsageBudget.CostMicrousd s) (stats p)) p)
  end.

Definition markUsageUncertain (r : nat) (h : handler) (res : UsageBudget.Reservation)
    (ctx : bool) (ledger : UsageBudget.MemoryLedger) (p : Proxy) : Proxy :=
  let '(ledger', result) := UsageBudget.MarkUncertain ledger ctx res in
  let p := set_ledger (Some ledger') p in
  let h := goto (unwind p) (acted (ActUncertain ledger ctx res result) h) in
  match result with
  | Err _ => put r h (set_stats (count_failure (stats p)) p)
  | Ok cost => put r h (set_stats (count_uncertain cost (stats p)) p)
  end.

Definition releaseUsageReservation (r : nat) (h : handler) (res : UsageBudget.Reservation)
    (ctx : bool) (ledger : UsageBudget.MemoryLedger) (p : Proxy) : Proxy :=
  let '(ledger', result) := UsageBudget.Release ledger ctx res in
  let p := set_ledger (Some ledger') p in
  let h := goto (unwind p) (acted (ActRelease ledger ctx res result) h) in
  match result with
  | Err _ => put r h (set_stats (count_failure (stats p)) p)
  | Ok _ => put r h p
  end.

(** The function deferred after a reservation. *)
Definition finish_usage (r : nat) (h : handler) (ctx : bool) (p : Proxy) : Proxy :=
  match UsageLedger p, reservation h with
  | Some ledger, Some res =>
      IF finalizedUsage h RETURN put r (goto (unwind p) h) p ;;
      IF providerContacted h RETURN markUsageUncertain r h res ctx ledger p ;;
      releaseUsageReservation r h res ctx ledger p
  | _, _ => put r (goto (unwind p) h) p
  end.

Definition finish_identity (r : nat) (h : handler) (p : Proxy) : Proxy :=
  put r (goto Done h)
    match identity p with
    | Some t => set_identity (Some (Provisioning.finish t (h_deviceID h) r)) p
    | None => p
    end.

Definition ReconcileIdentity (allowed : string → bool) (p : Proxy) : Proxy * Z :=
  match identity p with
  | None => (p, 0)
  | Some t =>
      let '(t, revoked) := Provisioning.Reconcile t allowed in
      (set_identity (Some t) p, Z.of_nat (size revoked))
  end.

(** ** Runs *)

Inductive action (E : Type) : Type :=
| AArrive (r : nat) (v : Verifier) (n1 n2 n3 : Time)
    (owner : string → result E (option DeviceClaim.Ownership)) (view : Provisioning.View)
    (q : request)
| ALimit (r : nat) (c : coordination) (now : Time)
| ASlot (r : nat)
| ABody (r : nat) (body : option bytes) (view : Provisioning.View) (created : bool)
| AReserve (r : nat) (ctx : bool) (now : Time) (draw : option bytes)
| ACall (r : nat) (resp : option response) (view : Provisioning.View)
| ASettle (r : nat) (ctx : bool)
| AUsage (r : nat) (ctx : bool)
| ASlotBack (r : nat)
| ADeviceBack (r : nat)
| AIdentity (r : nat)
| AReconcile (allowed : string → bool).
#[global] Arguments AArrive {E}.
#[global] Arguments ALimit {E}.
#[global] Arguments ASlot {E}.
#[global] Arguments ABody {E}.
#[global] Arguments AReserve {E}.
#[global] Arguments ACall {E}.
#[global] Arguments ASettle {E}.
#[global] Arguments AUsage {E}.
#[global] Arguments ASlotBack {E}.
#[global] Arguments ADeviceBack {E}.
#[global] Arguments AIdentity {E}.
#[global] Arguments AReconcile {E}.

(** A handler moves only from where it is; a new request has a number of its own. *)
Definition step {E} (p : Proxy) (a : action E) : option Proxy :=
  match a with
  | AArrive r v n1 n2 n3 owner view q =>
      match handlers p !! r with
      | Some _ => None
      | None => Some (arrive r v n1 n2 n3 owner view q p)
      end
  | AReconcile allowed => Some (ReconcileIdentity allowed p).1
  | ALimit r c now =>
      match handlers p !! r with
      | Some h => match pc h with Limiting => Some (limit r h c now p) | _ => None end
      | None => None
      end
  | ASlot r =>
      match handlers p !! r with
      | Some h => match pc h with TakingSlot => Some (take_slot r h p) | _ => None end
      | None => None
      end
  | ABody r body view created =>
      match handlers p !! r with
      | Some h =>
          match pc h with
          | ReadingBody => Some (read_body r h body view created p)
          | _ => None
          end
      | None => None
      end
  | AReserve r ctx now draw =>
      match handlers p !! r, UsageLedger p with
      | Some h, Some ledger =>
          match pc h with
          | Reserving input payload => Some (reserve r h input payload ctx now draw ledger p)
          | _ => None
          end
      | _, _ => None
      end
  | ACall r resp view =>
      match handlers p !! r with
      | Some h => match pc h with Calling => Some (call r h resp view p) | _ => None end
      | None => None
      end
  | ASettle r ctx =>
      match handlers p !! r, UsageLedger p with
      | Some h, Some ledger =>
          match pc h, reservation h with
          | Settling body, Some res =>
              match providerUsage body with
              | Some usage => Some (settle r h body usage res ctx ledger p)
              | None => None
              end
          | _, _ => None
          end
      | _, _ => None
      end
  | AUsage r ctx =>
      match handlers p !! r with
      | Some h => match pc h with FinishingUsage => Some (finish_usage r h ctx p) | _ => None end
      | None => None
      end
  | ASlotBack r =>
      match handlers p !! r with
      | Some h =>
          match pc h with
          | ReturningSlot =>
              Some (put r (goto ReturningDevice h) (set_concurrency (concurrency p - 1) p))
          | _ => None
          end
      | None => None
      end
  | ADeviceBack r =>
      match handlers p !! r with
      | Some h =>
          match pc h with
          | ReturningDevice =>
              Some (put r (goto FinishingIdentity h) (releaseDevice (ownedScope h) p))
          | _ => None
          end
      | None => None
      end
  | AIdentity r =>
      match handlers p !! r with
      | Some h =>
          match pc h with FinishingIdentity => Some (finish_identity r h p) | _ => None end
      | None => None
      end
  end.

Fixpoint run {E} (p : Proxy) (acts : list (action E)) : option Proxy :=
  match acts with
  | [] => Some p
  | a :: acts => match step p a with Some p => run p acts | None => None end
  end.

End proxy.

End AgentProxy.
