(* ===== verification/AgentTheorems.v ===== *)
(** * AgentTheorems: what the agent proxy guarantees

    Over every interleaving of the handlers of [AgentProxy]: the limits hold and are
    given back, every request is accounted for, the books agree with the ledger, and
    what happens when the table of limiters is full. *)

From stdpp Require Import base gmap strings list.
From Stdlib Require Import ZArith Lia.
From Stdlib.Strings Require Import Byte.
From S2P Require Import Prelude GoBase GoCrypto BudgetSpec UsageBudget Auth DeviceClaim Provisioning.
From S2P Require Import Protocol StrictJSON AgentProxy.

Module AgentTheorems.
Import AgentProxy.

Section theorems.
Context (J : library) {E : Type}.
Implicit Types (p : Proxy) (h : handler) (a : action E).

(** ** Steps, seen from one handler *)

Lemma step_config p a p' : step J p a = Some p' → config p' = config p.
Proof.
  destruct a; cbn; intros Hs; repeat (case_match; simplify_eq/=; try done);
  unfold arrive, limit, take_slot, read_body, reserve, call, settle, finish_usage,
    markUsageUncertain, releaseUsageReservation, finish_identity, acquireDevice, releaseDevice,
    ReconcileIdentity in *;
  repeat (case_match; simplify_eq/=; try done).
Qed.

(** ** The limits *)

(** Whether a handler holds the limiter of its device, and a slot. *)
Definition holds_device (l : place) : bool :=
  match l with
  | TakingSlot | ReadingBody | Reserving _ _ | Calling | Settling _ | FinishingUsage
  | ReturningSlot | ReturningDevice => true
  | Limiting | FinishingIdentity | Done => false
  end.

Definition holds_slot (l : place) : bool :=
  match l with
  | ReadingBody | Reserving _ _ | Calling | Settling _ | FinishingUsage | ReturningSlot => true
  | _ => false
  end.

Definition slot_count (m : gmap nat handler) : Z :=
  map_sum (λ _ h, if holds_slot (pc h) then 1 else 0) m.

Definition busy (p : Proxy) (scope : string) : bool :=
  match limiters p !! scope with Some l => inflight l | None => false end.

Record limits_ok (p : Proxy) : Prop := {
  lim_mode : RuntimeCoordinator (config p) = false;
  lim_busy : ∀ scope, busy p scope = true ↔
    ∃ r h, handlers p !! r = Some h ∧ holds_device (pc h) = true ∧ ownedScope h = scope;
  lim_one : ∀ r1 h1 r2 h2, handlers p !! r1 = Some h1 → handlers p !! r2 = Some h2 →
    holds_device (pc h1) = true → holds_device (pc h2) = true →
    ownedScope h1 = ownedScope h2 → r1 = r2;
  lim_slots : concurrency p = slot_count (handlers p);
  lim_max : concurrency p ≤ Z.max 0 (MaxConcurrent (config p));
}.

Lemma slot_count_insert m r h h' :
  m !! r = Some h →
  slot_count (<[r:=h']> m) =
    slot_count m - (if holds_slot (pc h) then 1 else 0) + (if holds_slot (pc h') then 1 else 0).
Proof.
  intros Hr. unfold slot_count.
  rewrite (map_sum_delete _ (<[r:=h']> m) r h') by apply lookup_insert_eq.
  rewrite (map_sum_delete _ m r h Hr), delete_insert_eq. lia.
Qed.

Lemma slot_count_new m r h' :
  m !! r = None → slot_count (<[r:=h']> m) = slot_count m + (if holds_slot (pc h') then 1 else 0).
Proof. intros Hr. unfold slot_count. rewrite map_sum_insert by done. lia. Qed.

(** A step that moves one handler without changing what it holds. *)
Lemma limits_neutral p p' r h h' :
  limits_ok p → handlers p !! r = Some h → handlers p' = <[r:=h']> (handlers p) →
  config p' = config p → limiters p' = limiters p → concurrency p' = concurrency p →
  ownedScope h' = ownedScope h → holds_device (pc h') = holds_device (pc h) →
  holds_slot (pc h') = holds_slot (pc h) → limits_ok p'.
Proof.
  intros [Hm Hb Ho Hs Hx] Hr Hh Hc Hl Hn Hsc Hd Hsl. split.
  - by rewrite Hc.
  - intros scope. unfold busy. rewrite Hl. rewrite (Hb scope), Hh. split.
    + intros (r1 & h1 & Hr1 & Hd1 & Hs1). destruct (decide (r1 = r)) as [->|Hne].
      * exists r, h'. rewrite lookup_insert_eq. simplify_eq. split; [done|].
        by rewrite Hd.
      * exists r1, h1. by rewrite lookup_insert_ne.
    + intros (r1 & h1 & [ [<- <-] | [Hne Hr1] ]%lookup_insert_Some & Hd1 & Hs1).
      * exists r, h. rewrite Hd in Hd1. by rewrite Hsc in Hs1.
      * by exists r1, h1.
  - rewrite Hh. intros r1 h1 r2 h2 H1 H2 D1 D2 Heq.
    apply lookup_insert_Some in H1 as [ [<- <-] | [Hn1 H1] ];
      apply lookup_insert_Some in H2 as [ [<- <-] | [Hn2 H2] ]; rewrite ?Hd, ?Hsc in *.
    + done.
    + by eapply Ho.
    + by eapply Ho.
    + by eapply Ho.
  - rewrite Hn, Hs, Hh, (slot_count_insert _ _ h) by done. rewrite Hsl. lia.
  - by rewrite Hn, Hc.
Qed.

(** A handler that holds nothing appears. *)
Lemma limits_arrival p p' r h' :
  limits_ok p → handlers p !! r = None → handlers p' = <[r:=h']> (handlers p) →
  config p' = config p → limiters p' = limiters p → concurrency p' = concurrency p →
  holds_device (pc h') = false → holds_slot (pc h') = false → limits_ok p'.
Proof.
  intros [Hm Hb Ho Hs Hx] Hr Hh Hc Hl Hn Hd Hsl.
  assert (∀ r1 h1, handlers p' !! r1 = Some h1 → holds_device (pc h1) = true →
    handlers p !! r1 = Some h1) as Hold.
  { intros r1 h1 H1 D1. rewrite Hh in H1.
    apply lookup_insert_Some in H1 as [ [<- <-] | [_ H1] ]; [congruence|done]. }
  split.
  - by rewrite Hc.
  - intros scope. unfold busy. rewrite Hl, (Hb scope). split.
    + intros (r1 & h1 & Hr1 & Hd1 & Hs1). exists r1, h1. rewrite Hh.
      rewrite lookup_insert_ne by congruence. done.
    + intros (r1 & h1 & Hr1 & Hd1 & Hs1). exists r1, h1. split; [|done]. by apply Hold.
  - intros r1 h1 r2 h2 H1 H2 D1 D2. apply Ho; by auto.
  - rewrite Hn, Hs, Hh, slot_count_new by done. rewrite Hsl. lia.
  - by rewrite Hn, Hc.
Qed.

Lemma limits_update p p' r h h' :
  limits_ok p → handlers p !! r = Some h → handlers p' = <[r:=h']> (handlers p) →
  config p' = config p → ownedScope h' = ownedScope h →
  (∀ s, s ≠ ownedScope h → busy p' s = busy p s) →
  busy p' (ownedScope h) = holds_device (pc h') →
  (holds_device (pc h) = true ∨ busy p (ownedScope h) = false) →
  concurrency p' = slot_count (handlers p') →
  concurrency p' ≤ Z.max 0 (MaxConcurrent (config p)) → limits_ok p'.
Proof.
  intros [Hm Hb Ho Hs Hx] Hr Hh Hc Hsc Hother Hown Hwas Hn Hmax.
  assert (∀ r1 h1, r1 ≠ r → handlers p !! r1 = Some h1 → holds_device (pc h1) = true →
    ownedScope h1 ≠ ownedScope h) as Hexcl.
  { intros r1 h1 Hne Hr1 Hd1 Heq. destruct Hwas as [Hd|Hbusy].
    - apply Hne. by eapply Ho.
    - assert (busy p (ownedScope h) = true) as Hbt by (apply Hb; eauto). congruence. }
  split.
  - by rewrite Hc.
  - intros scope. destruct (decide (scope = ownedScope h)) as [->|Hne].
    + rewrite Hown, Hh. split.
      * intros Hd. exists r, h'. rewrite lookup_insert_eq. done.
      * intros (r1 & h1 & [ [<- <-] | [Hne Hr1] ]%lookup_insert_Some & Hd1 & Hs1); [done|].
        exfalso. by eapply (Hexcl r1 h1).
    + rewrite Hother by done. rewrite (Hb scope), Hh. split.
      * intros (r1 & h1 & Hr1 & Hd1 & Hs1). exists r1, h1.
        rewrite lookup_insert_ne; [done|]. intros <-. simplify_eq.
      * intros (r1 & h1 & [ [<- <-] | [Hne1 Hr1] ]%lookup_insert_Some & Hd1 & Hs1);
          [congruence|]. by exists r1, h1.
  - rewrite Hh. intros r1 h1 r2 h2 H1 H2 D1 D2 Heq.
    apply lookup_insert_Some in H1 as [ [<- <-] | [Hn1 H1] ];
      apply lookup_insert_Some in H2 as [ [<- <-] | [Hn2 H2] ].
    + done.
    + exfalso. apply (Hexcl r2 h2); [done..|]. congruence.
    + exfalso. apply (Hexcl r1 h1); [done..|]. congruence.
    + by eapply Ho.
  - done.
  - by rewrite Hc.
Qed.

Lemma busy_insert p m scope l s :
  busy (set_limiters (<[scope:=l]> m) p) s =
    if decide (scope = s) then inflight l else
      match m !! s with Some l => inflight l | None => false end.
Proof. unfold busy. cbn. rewrite lookup_insert. by case_decide. Qed.

Lemma next_window_inflight now l : inflight (next_window now l) = inflight l.
Proof. unfold next_window. by case_match. Qed.

Lemma acquireDevice_spec scope now p p' ok :
  acquireDevice scope now p = (p', ok) →
  handlers p' = handlers p ∧ config p' = config p ∧ concurrency p' = concurrency p ∧
  UsageLedger p' = UsageLedger p ∧ stats p' = stats p ∧
  (∀ s, s ≠ scope → busy p' s = busy p s) ∧
  if ok then busy p scope = false ∧ busy p' scope = true else busy p' scope = busy p scope.
Proof.
  unfold acquireDevice. destruct (limiters p !! scope) as [l|] eqn:Hl.
  - cbv zeta. destruct (_ || _) eqn:Hg; intros [= <- <-]; split_and!; try done;
      try (intros s Hs); rewrite ?busy_insert; try (by rewrite decide_False); try (by rewrite decide_True).
    + rewrite decide_True by done. unfold busy. rewrite Hl. apply next_window_inflight.
    + unfold busy. rewrite Hl. apply orb_false_iff in Hg as [Hi _].
      by rewrite next_window_inflight in Hi.
  - destruct (maximumDeviceLimiters <=? _); [intros [= <- <-]; by split_and!|].
    cbv zeta. destruct (_ || _) eqn:Hg; intros [= <- <-]; split_and!; try done;
      try (intros s Hs); rewrite ?busy_insert; try (by rewrite decide_False); try (by rewrite decide_True).
    + rewrite decide_True by done. unfold busy. rewrite Hl. by rewrite next_window_inflight.
    + unfold busy. by rewrite Hl.
Qed.

Lemma limits_limit p r h c now :
  limits_ok p → handlers p !! r = Some h → pc h = Limiting → limits_ok (limit r h c now p).
Proof.
  intros Hok Hr Hpc. unfold limit. rewrite (lim_mode _ Hok).
  destruct (acquireDevice (ownedScope h) now p) as [p1 ok] eqn:Ha.
  apply acquireDevice_spec in Ha as (Hh & Hc & Hn & _ & _ & Hother & Hown).
  destruct ok; cbn [negb].
  - destruct Hown as [Hfree Hbusy].
    apply (limits_update p _ r h (goto TakingSlot h)); try done; [by cbn; rewrite Hh|by right|cbn..].
    + rewrite Hn, Hh, (slot_count_insert _ _ h) by done. rewrite Hpc. cbn.
      rewrite (lim_slots _ Hok). lia.
    + rewrite Hn. apply Hok.
  - apply (limits_neutral (set_limiters (limiters p1) p) _ r h (fail 429 FinishingIdentity h)); cbn; try done.
    + destruct Hok as [Hm Hb Ho Hs Hx]. split; cbn; try done. intros scope.
      rewrite <- (Hb scope). unfold busy. cbn.
      fold (busy p1 scope) (busy p scope). destruct (decide (scope = ownedScope h)) as [->|Hne].
      * by rewrite Hown.
      * by rewrite Hother.
    + by rewrite Hh.
    + by rewrite Hpc.
    + by rewrite Hpc.
Qed.

Lemma limits_slot p r h :
  limits_ok p → handlers p !! r = Some h → pc h = TakingSlot → limits_ok (take_slot r h p).
Proof.
  intros Hok Hr Hpc. unfold take_slot. destruct (concurrency p <? _) eqn:Hlt; split_bools.
  - eapply (limits_update p _ r h); cbn; try done.
    + apply Hok. exists r, h. by rewrite Hpc.
    + left. by rewrite Hpc.
    + rewrite (slot_count_insert _ _ h) by done. rewrite Hpc, (lim_slots _ Hok). cbn. lia.
    + lia.
  - eapply (limits_neutral p _ r h); cbn; try done; by rewrite Hpc.
Qed.

Lemma limits_slot_back p r h :
  limits_ok p → handlers p !! r = Some h → pc h = ReturningSlot →
  limits_ok (put r (goto ReturningDevice h) (set_concurrency (concurrency p - 1) p)).
Proof.
  intros Hok Hr Hpc. eapply (limits_update p _ r h); cbn; try done.
  - apply Hok. exists r, h. by rewrite Hpc.
  - left. by rewrite Hpc.
  - rewrite (slot_count_insert _ _ h) by done. rewrite Hpc, (lim_slots _ Hok). cbn. lia.
  - pose proof (lim_max _ Hok). lia.
Qed.

Lemma limits_device_back p r h :
  limits_ok p → handlers p !! r = Some h → pc h = ReturningDevice →
  limits_ok (put r (goto FinishingIdentity h) (releaseDevice (ownedScope h) p)).
Proof.
  intros Hok Hr Hpc.
  assert (busy p (ownedScope h) = true) as Hb by (apply Hok; exists r, h; by rewrite Hpc).
  unfold busy in Hb. unfold releaseDevice. destruct (limiters p !! ownedScope h) as [l|] eqn:Hl; [|done].
  eapply (limits_update p _ r h); cbn; try done.
  - intros s Hs. unfold busy. cbn. by rewrite lookup_insert_ne.
  - unfold busy. cbn. by rewrite lookup_insert_eq.
  - left. by rewrite Hpc.
  - rewrite (slot_count_insert _ _ h) by done. rewrite Hpc, (lim_slots _ Hok). cbn. lia.
  - apply Hok.
Qed.

Local Ltac neutral p r :=
  repeat case_match; eapply (limits_neutral p _ r); cbn; try done;
  by match goal with H : pc _ = _ |- _ => rewrite H end.

Lemma limits_step p a p' : limits_ok p → step J p a = Some p' → limits_ok p'.
Proof.
  intros Hok Hs. assert (unwind p = ReturningSlot) as Hu by (unfold unwind; by rewrite lim_mode).
  destruct a; cbn in Hs; repeat (case_match; simplify_eq/=; try done).
  - unfold arrive, admit_request. repeat case_match; eapply (limits_arrival p); cbn; try done.
  - by apply limits_limit.
  - by apply limits_slot.
  - unfold read_body, unwind. cbn. rewrite (lim_mode _ Hok).
    neutral p r.
  - unfold reserve, unwind. cbn. rewrite (lim_mode _ Hok).
    neutral p r.
  - unfold call. neutral p r.
  - unfold settle. neutral p r.
  - unfold finish_usage, markUsageUncertain, releaseUsageReservation, unwind. cbn.
    rewrite (lim_mode _ Hok).
    neutral p r.
  - by apply limits_slot_back.
  - by apply limits_device_back.
  - unfold finish_identity. neutral p r.
  - injection Hs as <-. unfold ReconcileIdentity. destruct (identity p) as [t|]; [|exact Hok].
    destruct (Provisioning.Reconcile t allowed) as [t' revoked]. cbn. destruct Hok. by split.
Qed.

Lemma limits_run p (acts : list (action E)) p' : limits_ok p → run J p acts = Some p' → limits_ok p'.
Proof.
  revert p. induction acts as [|a acts IH]; intros p Hok Hr; [by simplify_eq/=|]. cbn in Hr.
  destruct (step J p a) as [p1|] eqn:Hs; [|done]. eapply IH; [|done]. by eapply limits_step.
Qed.

Lemma New_empty c l b p : New J c l b = Some p →
  handlers p = ∅ ∧ limiters p = ∅ ∧ concurrency p = 0 ∧ UsageLedger p = l ∧
  RuntimeCoordinator (config p) = RuntimeCoordinator c ∧ 0 < MaxConcurrent (config p) ∧
  (usageCommittedCost (stats p) = 0).
Proof.
  unfold New. guard H1. guard H2. intros [= <-]. cbn. split_and!; try done.
  destruct (MaxConcurrent c <=? 0) eqn:Hc; split_bools; lia.
Qed.

(** The proxy never serves two requests of a device at once nor more than
    [MaxConcurrent] in all, and gives back what it takes: a limiter is busy exactly
    while one request holds it, the slots taken are the requests that hold one, and
    when every handler has returned nothing is held. *)
Theorem agent_limits_exact c l b p (acts : list (action E)) p' :
  New J c l b = Some p → RuntimeCoordinator c = false → run J p acts = Some p' →
  (∀ scope, busy p' scope = true ↔
     ∃ r h, handlers p' !! r = Some h ∧ holds_device (pc h) = true ∧ ownedScope h = scope) ∧
  (∀ r1 h1 r2 h2, handlers p' !! r1 = Some h1 → handlers p' !! r2 = Some h2 →
     holds_device (pc h1) = true → holds_device (pc h2) = true →
     ownedScope h1 = ownedScope h2 → r1 = r2) ∧
  concurrency p' = slot_count (handlers p') ∧ concurrency p' ≤ MaxConcurrent (config p') ∧
  ((∀ r h, handlers p' !! r = Some h → pc h = Done) →
   concurrency p' = 0 ∧ ∀ scope, busy p' scope = false).
Proof.
  intros (Hh & Hl & Hn & _ & Hm & Hmax & _)%New_empty Hmode Hr.
  assert (limits_ok p) as Hok.
  { split; rewrite ?Hm, ?Hn, ?Hh; try done; [|lia].
    intros scope. unfold busy. rewrite Hl, lookup_empty. split; [done|].
    by intros (r & h & Hr0 & _). }
  assert (config p' = config p) as Hc.
  { clear -Hr. revert p Hr. induction acts as [|a acts IH]; intros p Hr; [by simplify_eq/=|].
    cbn in Hr. destruct (step J p a) as [p1|] eqn:Hs; [|done].
    rewrite (IH p1 Hr). by eapply step_config. }
  pose proof (limits_run _ _ _ Hok Hr) as [_ Hb Ho Hs Hx]. split_and!; try done.
  - rewrite Hc in *. lia.
  - intros Hdone. split.
    + rewrite Hs. unfold slot_count. transitivity (map_sum (λ _ _, 0) (handlers p')).
      * apply map_sum_ext. intros r h Hrh. by rewrite (Hdone r h Hrh).
      * clear. induction (handlers p') as [|k v m Hk IH] using map_ind; [done|].
        by rewrite map_sum_insert.
    + intros scope. destruct (busy p' scope) eqn:Hbusy; [|done].
      apply Hb in Hbusy as (r & h & Hrh & Hd & _). by rewrite (Hdone r h Hrh) in Hd.
Qed.

(** ** Every request is accounted for *)

Definition refused h : Prop := ∃ status, answer h = Some (status, []) ∧ status ≠ 200.

(** The call of [Reserve] for the device of a handler, and its answer. *)
Definition reserve_act h (r : result UsageBudget.error UsageBudget.Reservation) (a : usage_act) :
    Prop :=
  ∃ L ctx i o now draw, UsageBudget.Ledger_ok L ∧
    a = ActReserve L ctx (ownedScope h) i o now draw r ∧
    (UsageBudget.Reserve L ctx (ownedScope h) i o now draw).2 = r.

(** The call of [Settle] on a reservation. *)
Definition settle_act (res : UsageBudget.Reservation) usage
    (r : result UsageBudget.error UsageBudget.Settlement) (a : usage_act) : Prop :=
  ∃ L ctx, UsageBudget.Ledger_ok L ∧ a = ActSettle L ctx res usage r ∧
    (UsageBudget.Settle L ctx res usage).2 = r.

(** The call of [MarkUncertain] on a reservation. When it succeeds, the ledger moves what
    was reserved to the costs in doubt and drops the reservation; it fails only when its
    context is over, for the identifier the code takes for no reservation, or when the
    ledger does not hold the reservation any more. *)
Definition forfeit_act (res : UsageBudget.Reservation) (a : usage_act) : Prop :=
  ∃ L ctx r, UsageBudget.Ledger_ok L ∧ a = ActUncertain L ctx res r ∧
    match r with
    | Ok cost => ∃ stored, UsageBudget.reservations L !! UsageBudget.ID res = Some stored ∧
        cost = UsageBudget.r_reserved stored ∧
        (UsageBudget.MarkUncertain L ctx res).1 =
          UsageBudget.close_ledger L (UsageBudget.ID res) stored
            (UsageBudget.forfeit_daily stored)
    | Err _ => ctx = false ∨ UsageBudget.validReservation res = false ∨
        UsageBudget.reservations L !! UsageBudget.ID res = None
    end.

(** Nothing was reserved and the provider was not called. *)
Definition untouched h : Prop :=
  reservation h = None ∧ providerContacted h = false ∧ finalizedUsage h = false ∧ acts h = [].

(** The same, after the ledger may have refused a reservation. *)
Definition dismissed h : Prop :=
  refused h ∧ reservation h = None ∧ providerContacted h = false ∧
  (acts h = [] ∨ ∃ e (a : usage_act), reserve_act h (Err e) a ∧ acts h = [a]).

(** The provider may have been called, under the reservation [res]; [rest] is what was
    done with it. *)
Definition opened h res rest : Prop :=
  reservation h = Some res ∧ providerContacted h = true ∧
  ∃ a : usage_act, reserve_act h (Ok res) a ∧ acts h = a :: rest.

(** The answer was paid for, at the usage it reports. *)
Definition paid h : Prop :=
  ∃ res usage s body (a : usage_act), opened h res [a] ∧ settle_act res usage (Ok s) a ∧
    answer h = Some (200, body) ∧ providerUsage J body = Some usage.

(** The ledger may have refused to settle. *)
Definition unsettled res (rest : list usage_act) : Prop :=
  rest = [] ∨ ∃ usage e (a : usage_act), settle_act res usage (Err e) a ∧ rest = [a].

(** The reservation was forfeited, and nothing was answered. *)
Definition forfeited h : Prop :=
  refused h ∧ ∃ res rest (a : usage_act), opened h res (rest ++ [a]) ∧ unsettled res rest ∧ forfeit_act res a.

Definition usage_ok h : Prop :=
  match pc h with
  | Limiting | TakingSlot | ReadingBody | Reserving _ _ => untouched h ∧ answer h = None
  | Calling | Settling _ =>
      ∃ res, opened h res [] ∧ finalizedUsage h = false ∧ answer h = None
  | FinishingUsage =>
      paid h ∧ finalizedUsage h = true ∨
      ∃ res rest, opened h res rest ∧ finalizedUsage h = false ∧ refused h ∧ unsettled res rest
  | ReturningSlot | ReturningDevice | FinishingIdentity | Done =>
      dismissed h ∨ paid h ∨ forfeited h
  end.

Record usage_inv p : Prop := {
  ui_ledger : ∃ L, UsageLedger p = Some L ∧ UsageBudget.Ledger_ok L;
  ui_handlers : ∀ r h, handlers p !! r = Some h → usage_ok h;
}.

Lemma ledger_exec L o :
  UsageBudget.Ledger_ok L →
  UsageBudget.Ledger_ok (UsageBudget.exec L o).1 ∧
  UsageBudget.pricing (UsageBudget.exec L o).1 = UsageBudget.pricing L.
Proof.
  intros Hok. destruct (UsageBudget.exec L o) as [L' out] eqn:He.
  by destruct (UsageBudget.exec_refines L o L' out Hok He) as (? & ? & _).
Qed.

Lemma usage_put p p' r h' :
  usage_inv p → handlers p' = <[r:=h']> (handlers p) →
  (∃ L, UsageLedger p' = Some L ∧ UsageBudget.Ledger_ok L) →
  usage_ok h' → usage_inv p'.
Proof.
  intros [_ Hu] Hh Hl Hok. split; [done|]. intros r1 h1. rewrite Hh.
  intros [ [_ <-] | [_ H1] ]%lookup_insert_Some; [done|by eapply Hu].
Qed.

Lemma refused_fail status l h : answer h = None → status ≠ 200 → refused (fail status l h).
Proof. intros Ha Hs. exists status. cbn. by rewrite Ha. Qed.

Lemma unwind_cases p : unwind p = FinishingIdentity ∨ unwind p = ReturningSlot.
Proof. unfold unwind. case_match; eauto. Qed.

Definition leaving (l : place) : Prop :=
  l = FinishingIdentity ∨ l = ReturningSlot ∨ l = ReturningDevice ∨ l = Done.

Lemma unwind_leaving p : leaving (unwind p).
Proof. unfold leaving. destruct (unwind_cases p); eauto. Qed.

(** The end of the deferred calls. *)
Lemma usage_leaving h l :
  dismissed h ∨ paid h ∨ forfeited h → leaving l → usage_ok (goto l h).
Proof. intros Hu Hl. unfold usage_ok. by destruct Hl as [->|[->|[->| ->] ] ]. Qed.

(** A refusal before anything was reserved. *)
Lemma usage_refused h status l :
  untouched h → answer h = None → status ≠ 200 → leaving l → usage_ok (fail status l h).
Proof.
  intros (Hr & Hc & _ & Ha) Hn Hs Hl. apply usage_leaving; [left|done].
  split_and!; [|done..|by left]. exists status. cbn. by rewrite Hn.
Qed.

Lemma usage_arrive r v n1 n2 n3 (owner : string → result E _) view q p :
  usage_inv p → usage_inv (arrive J r v n1 n2 n3 owner view q p).
Proof.
  intros Hi. pose proof (ui_ledger _ Hi) as Hl. unfold arrive, admit_request.
  destruct (chat_auth _ _ _ _ _ _ _) as [ [claims scope]|status] eqn:Hca.
  - set (h := new_handler _ _). assert (untouched h ∧ answer h = None) as [Hu Ha] by done.
    assert (usage_ok (fail 400 FinishingIdentity h) ∧ usage_ok (fail 401 Done h) ∧
      usage_ok (goto Limiting h)) as (H1 & H2 & H3).
    { split_and!; [apply usage_refused; try done; unfold leaving; eauto..|done]. }
    repeat case_match; eapply (usage_put p); cbn; try done.
  - eapply (usage_put p); cbn; try done. apply usage_refused; try done; [|unfold leaving; eauto].
    unfold chat_auth in Hca. repeat case_match; by simplify_eq.
Qed.

Lemma usage_body r h body view created p :
  usage_inv p → usage_ok h → pc h = ReadingBody →
  usage_inv (read_body J r h body view created p).
Proof.
  intros Hi Hu Hpc. pose proof (ui_ledger _ Hi) as Hl. unfold usage_ok in Hu. rewrite Hpc in Hu.
  destruct Hu as [Hu Ha].
  assert (∀ status, status ≠ 200 → usage_ok (fail status (unwind p) h)) as Hf
    by (intros; apply usage_refused; auto using unwind_leaving).
  pose proof Hl as (L & HL & _). unfold read_body. rewrite HL.
  repeat case_match; eapply (usage_put p); cbn; try done; apply Hf; done.
Qed.

Lemma usage_reserve r h input payload ctx now draw L p :
  usage_inv p → usage_ok h → pc h = Reserving input payload → UsageLedger p = Some L →
  usage_inv (reserve r h input payload ctx now draw L p).
Proof.
  intros Hi Hu Hpc HL. unfold usage_ok in Hu. rewrite Hpc in Hu.
  destruct Hu as [(Hr & Hc & Hf & Ha) Hn].
  pose proof (ui_ledger _ Hi) as (L0 & HL0 & Hok). assert (L0 = L) as -> by congruence.
  unfold reserve. set (lim := _ +i _).
  set (o := UsageBudget.OpReserve ctx (ownedScope h) lim (outputTokens input) now draw).
  destruct (ledger_exec L o Hok) as [Hok' _]. cbn in Hok'.
  destruct (UsageBudget.Reserve _ _ _ _ _ _ _) as [L' res] eqn:HR. cbn in Hok'.
  set (a := ActReserve L ctx (ownedScope h) lim (outputTokens input) now draw res).
  assert (reserve_act h res a) as Hact 
    by (exists L, ctx, lim, (outputTokens input), now, draw; rewrite HR; by split_and!).
  destruct res as [res|e].
  - eapply (usage_put p); cbn; eauto. exists res. split_and!; [|done..].
    split_and!; [done..|]. exists a. split; [done|]. cbn. by rewrite Ha.
  - assert (∀ status, status ≠ 200 → usage_ok (fail status (unwind p) (acted a h))) as Hd.
    { intros status Hs. apply usage_leaving; [left|apply unwind_leaving].
      split_and!; [|done..|].
      - exists status. cbn. by rewrite Hn.
      - right. exists e, a. split; [done|]. cbn. by rewrite Ha. }
    destruct e; eapply (usage_put p); cbn; eauto; by apply Hd.
Qed.

Lemma usage_call r h resp view p :
  usage_inv p → usage_ok h → pc h = Calling → usage_inv (call J r h resp view p).
Proof.
  intros Hi Hu Hpc. pose proof (ui_ledger _ Hi) as Hl. unfold usage_ok in Hu.
  rewrite Hpc in Hu. destruct Hu as (res & Ho & Hfin & Ha).
  assert (∀ status, status ≠ 200 → usage_ok (fail status FinishingUsage h)) as Hf.
  { intros status Hs. right. exists res, []. split_and!; try done; [by apply refused_fail|by left]. }
  pose proof Hl as (L & HL & _). unfold call. rewrite HL.
  repeat case_match; eapply (usage_put p); cbn; try done; try (by apply Hf). by exists res.
Qed.

Lemma usage_settle r h body usage res ctx L p :
  usage_inv p → usage_ok h → pc h = Settling body → providerUsage J body = Some usage →
  reservation h = Some res → UsageLedger p = Some L →
  usage_inv (settle r h body usage res ctx L p).
Proof.
  intros Hi Hu Hpc Hpu Hres HL. unfold usage_ok in Hu. rewrite Hpc in Hu.
  destruct Hu as (res0 & (Hr & Hc & a0 & Ha0 & Hacts) & Hfin & Ha).
  assert (res0 = res) as -> by congruence.
  pose proof (ui_ledger _ Hi) as (L0 & HL0 & Hok). assert (L0 = L) as -> by congruence.
  destruct (ledger_exec L (UsageBudget.OpSettle ctx res usage) Hok) as [Hok' _]. cbn in Hok'.
  unfold settle. destruct (UsageBudget.Settle _ _ _ _) as [L' result] eqn:HS. cbn in Hok'.
  set (a := ActSettle L ctx res usage result).
  assert (settle_act res usage result a) as Hact 
    by (exists L, ctx; rewrite HS; by split_and!).
  assert (opened (acted a h) res [a]) as Ho
    by (split_and!; [done..|exists a0; split; [done|]; cbn; by rewrite Hacts]).
  destruct result as [s|e]; eapply (usage_put p); cbn; eauto.
  - left. split; [|done]. exists res, usage, s, body, a. split_and!; [exact Ho|done| |done].
    cbn. by rewrite Ha.
  - right. exists res, [a]. split_and!; [exact Ho|done|by apply refused_fail|]. right. eauto.
Qed.

Lemma forfeit_call L ctx res :
  UsageBudget.Ledger_ok L →
  forfeit_act res (ActUncertain L ctx res (UsageBudget.MarkUncertain L ctx res).2).
Proof.
  intros Hok. exists L, ctx, (UsageBudget.MarkUncertain L ctx res).2.
  split_and!; [done..|]. rewrite UsageBudget.MarkUncertain_eq by done.
  destruct ctx; cbn [negb orb]; [|by left].
  destruct (UsageBudget.validReservation res); cbn [negb]; [|by right; left].
  destruct (UsageBudget.reservations L !! UsageBudget.ID res) as [r|]; [|by right; right].
  by exists r.
Qed.

Lemma usage_finish r h ctx p :
  usage_inv p → usage_ok h → pc h = FinishingUsage → usage_inv (finish_usage r h ctx p).
Proof.
  intros Hi Hu Hpc. pose proof (ui_ledger _ Hi) as (L & HL & Hok). unfold usage_ok in Hu.
  rewrite Hpc in Hu. unfold finish_usage. rewrite HL.
  destruct Hu as [ [Hp Hfin] | (res & rest & (Hr & Hc & a0 & Ha0 & Hacts) & Hfin & Href & Hun)].
  - assert (is_Some (reservation h)) as [res Hres]
      by (destruct Hp as (? & ? & ? & ? & ? & (-> & _) & _); eauto).
    rewrite Hres, Hfin. eapply (usage_put p); cbn; eauto.
    apply usage_leaving; [by right; left|apply unwind_leaving].
  - rewrite Hr, Hfin, Hc. unfold markUsageUncertain.
    destruct (ledger_exec L (UsageBudget.OpMarkUncertain ctx res) Hok) as [Hok' _].
    pose proof (forfeit_call L ctx res Hok) as Hact. cbn in Hok'.
    destruct (UsageBudget.MarkUncertain _ _ _) as [L' result]. cbn in Hok', Hact.
    set (a := ActUncertain L ctx res result) in *.
    assert (forfeited (acted a h)) as Hd.
    { split; [done|]. exists res, rest, a. split_and!; [|done..]. split_and!; [done..|].
      exists a0. split; [done|]. cbn. by rewrite Hacts. }
    destruct result; eapply (usage_put p); cbn; eauto;
      apply usage_leaving; eauto using unwind_leaving.
Qed.

Lemma usage_step p a p' : usage_inv p → step J p a = Some p' → usage_inv p'.
Proof.
  intros Hi Hs. pose proof (ui_ledger _ Hi) as Hl. pose proof Hl as (L & HL & Hok).
  assert (∀ r h, handlers p !! r = Some h → usage_ok h) as Hh by apply Hi.
  destruct a; cbn in Hs; rewrite ?HL in Hs;
    try (destruct (handlers p !! r) as [h|] eqn:Hr; try done; try specialize (Hh r h Hr)).
  - injection Hs as <-. by apply usage_arrive.
  - destruct (pc h) eqn:Hpc; try done. injection Hs as <-. unfold usage_ok in Hh.
    rewrite Hpc in Hh. destruct Hh as [Hu Ha].
    assert (∀ status, status ≠ 200 → usage_ok (fail status FinishingIdentity h)) as Hf
      by (intros; apply usage_refused; unfold leaving; eauto).
    unfold limit. destruct (RuntimeCoordinator _).
    + destruct c; eapply (usage_put p); cbn; try done; by apply Hf.
    + destruct (acquireDevice _ _ _) as [p1 ok] eqn:Hacq.
      apply acquireDevice_spec in Hacq as (Hh1 & _ & _ & Hl1 & _).
      destruct ok; eapply (usage_put p); cbn; rewrite ?Hh1, ?Hl1; try done; by apply Hf.
  - destruct (pc h) eqn:Hpc; try done. injection Hs as <-. unfold usage_ok in Hh.
    rewrite Hpc in Hh. destruct Hh as [Hu Ha].
    unfold take_slot. case_match; eapply (usage_put p); cbn; try done.
    apply usage_refused; unfold leaving; eauto.
  - destruct (pc h) eqn:Hpc; try done. injection Hs as <-. by apply usage_body.
  - destruct (pc h) eqn:Hpc; try done. injection Hs as <-. by apply usage_reserve.
  - destruct (pc h) eqn:Hpc; try done. injection Hs as <-. by apply usage_call.
  - destruct (pc h) eqn:Hpc; try done. destruct (reservation h) eqn:Hres; [|done].
    destruct (providerUsage J body) eqn:Hpu; [|done]. injection Hs as <-. by apply usage_settle.
  - destruct (pc h) eqn:Hpc; try done. injection Hs as <-. by apply usage_finish.
  - destruct (pc h) eqn:Hpc; try done. injection Hs as <-. unfold usage_ok in Hh.
    rewrite Hpc in Hh. by eapply (usage_put p).
  - destruct (pc h) eqn:Hpc; try done. injection Hs as <-. unfold usage_ok in Hh.
    rewrite Hpc in Hh. unfold releaseDevice. by case_match; eapply (usage_put p).
  - destruct (pc h) eqn:Hpc; try done. injection Hs as <-. unfold usage_ok in Hh.
    rewrite Hpc in Hh. unfold finish_identity. by case_match; eapply (usage_put p).
  - injection Hs as <-. unfold ReconcileIdentity. destruct (identity p) as [t|]; [|exact Hi].
    destruct (Provisioning.Reconcile t allowed) as [t' revoked]. by split.
Qed.

Lemma usage_run p (acts : list (action E)) p' :
  usage_inv p → run J p acts = Some p' → usage_inv p'.
Proof.
  revert p. induction acts as [|a acts IH]; intros p Hi Hr; [by simplify_eq/=|]. cbn in Hr.
  destruct (step J p a) as [p1|] eqn:Hs; [|done]. eapply IH; [|done]. by eapply usage_step.
Qed.

(** C26: with a ledger every request is accounted for exactly once, however requests
    interleave and whatever the provider, the ledger and the identity registry answer:
    a handler that has returned either refused the request without calling the provider,
    nothing or only a refused reservation in the ledger; or it answered with the
    provider's answer after settling the very reservation made for its device, at the
    usage that answer reports; or it refused and its one last call of the ledger was to
    forfeit that reservation. A forfeit that succeeds moves exactly the amount the
    ledger holds under the reservation to the costs in doubt; it fails only when its
    context is over, for the all-zero identifier, or when the ledger no longer holds the
    reservation (expiry forfeits it there). In particular the provider is called only
    under a reservation, which is never released. *)
Theorem agent_request_accounted c prices key L b p (acts : list (action E)) p' r h :
  UsageBudget.NewMemoryLedger prices key = Ok L → New J c (Some L) b = Some p →
  run J p acts = Some p' → handlers p' !! r = Some h → pc h = Done →
  (refused h ∧ reservation h = None ∧ providerContacted h = false ∧
   (AgentProxy.acts h = [] ∨ ∃ e (a : usage_act), reserve_act h (Err e) a ∧ AgentProxy.acts h = [a])) ∨
  ∃ res (a : usage_act), reservation h = Some res ∧ reserve_act h (Ok res) a ∧
   ((∃ usage s body (a' : usage_act), answer h = Some (200, body) ∧ providerUsage J body = Some usage ∧
      settle_act res usage (Ok s) a' ∧ AgentProxy.acts h = [a; a']) ∨
    (refused h ∧ ∃ a' : usage_act, forfeit_act res a' ∧
      (AgentProxy.acts h = [a; a'] ∨
       ∃ usage e (a1 : usage_act), settle_act res usage (Err e) a1 ∧ AgentProxy.acts h = [a; a1; a']))).
Proof.
  intros (HL & _)%UsageBudget.New_ok (Hh & _ & _ & Hl & _)%New_empty Hr Hrh Hpc.
  assert (usage_inv p) as Hi.
  { split; [by exists L|]. intros r0 h0. by rewrite Hh, lookup_empty. }
  pose proof (ui_handlers _ (usage_run _ _ _ Hi Hr) r h Hrh) as Hu. unfold usage_ok in Hu.
  rewrite Hpc in Hu. destruct Hu as [Hd|[ (res & u & s & body & a' & (? & _ & a & ? & ?) & ? & ? & ?)|
    (? & res & rest & a' & (? & _ & a & ? & Ha) & Hun & ?)] ].
  - by left.
  - right. exists res, a. split_and!; [done..|]. left. by exists u, s, body, a'.
  - right. exists res, a. split_and!; [done..|]. right. split; [done|]. exists a'. split; [done|].
    destruct Hun as [->|(u & e & a1 & ? & ->)]; [by left|]. right. by exists u, e, a1.
Qed.

(** ** The books *)

(** What the ledger has committed over all days and subjects. *)
Definition committed (L : UsageBudget.MemoryLedger) : Z :=
  map_sum (λ _ d, UsageBudget.d_CommittedMicrousd d) (UsageBudget.daily L).

(** What a request was charged. *)
Definition charge (a : usage_act) : Z :=
  match a with ActSettle _ _ _ _ (Ok s) => UsageBudget.CostMicrousd s | _ => 0 end.
Definition charged h : Z := foldr (λ (x : usage_act) n, charge x + n) 0 (acts h).
Definition charged_total (m : gmap nat handler) : Z := map_sum (λ _ h, charged h) m.

Lemma charged_acted (x : usage_act) h : charged (acted x h) = charged h + charge x.
Proof.
  unfold charged. cbn [acted acts]. induction (acts h) as [|y l IH]; cbn; [lia|]. rewrite IH. lia.
Qed.

Lemma map_sum_alter {K V} `{Countable K} (f : K → V → Z) (g : V → V) (m : gmap K V) k n :
  (∀ v, m !! k = Some v → f k (g v) = f k v + n) → is_Some (m !! k) →
  map_sum f (alter g k m) = map_sum f m + n.
Proof.
  intros Hg [v Hv]. rewrite (map_sum_delete f m k v Hv).
  rewrite (map_sum_delete f (alter g k m) k (g v)) by (by rewrite lookup_alter_eq, Hv).
  rewrite delete_alter_eq, (Hg v Hv). lia.
Qed.

Lemma committed_reconcile_one now L e :
  committed (UsageBudget.reconcile_one now L e) = committed L.
Proof.
  destruct e as [id r]. unfold UsageBudget.reconcile_one. destruct (After _ _); [done|].
  destruct (UsageBudget.daily L !! UsageBudget.daily_key r) as [d|] eqn:Hd; [|done].
  destruct (_ <=? _); [|done]. unfold committed. cbn [UsageBudget.daily UsageBudget.with_maps].
  rewrite (map_sum_delete _ (UsageBudget.daily L) _ d Hd).
  erewrite map_sum_delete by apply lookup_insert_eq. by rewrite delete_insert_eq.
Qed.

Lemma committed_reconcile now L : committed (UsageBudget.reconcileExpired now L) = committed L.
Proof.
  unfold UsageBudget.reconcileExpired, UsageBudget.reconcile_along.
  generalize (map_to_list (UsageBudget.reservations L)) as order. intros order. revert L.
  induction order as [|e order IH]; intros L; [done|]. cbn. by rewrite IH, committed_reconcile_one.
Qed.

Lemma committed_open_day L k : committed (UsageBudget.open_day L k) = committed L.
Proof.
  unfold UsageBudget.open_day, committed. cbn.
  destruct (UsageBudget.daily L !! k) as [d|] eqn:Hd; cbn.
  - by rewrite insert_id.
  - by rewrite map_sum_insert.
Qed.

Lemma committed_reserve L ctx subject i o now draw :
  UsageBudget.Ledger_ok L →
  committed (UsageBudget.Reserve L ctx subject i o now draw).1 = committed L.
Proof.
  intros Hok. rewrite UsageBudget.Reserve_eq by done. destruct (_ || _); [done|].
  set (L1 := UsageBudget.reconcileExpired now L).
  set (k := FormatDate now +:+ ":" +:+ UsageBudget.subjectKey L1 subject).
  assert (committed (UsageBudget.open_day L1 k) = committed L) as Ho
    by (rewrite committed_open_day; apply committed_reconcile).
  destruct (_ <? _); [done|]. destruct draw as [id|]; [|done].
  destruct (UsageBudget.reservations L1 !! id); [done|]. cbn [fst]. rewrite <- Ho.
  unfold UsageBudget.book, committed. cbn [UsageBudget.daily UsageBudget.with_maps].
  rewrite (map_sum_alter _ _ _ _ 0); [lia| |].
  - intros d _. cbn. lia.
  - exists (from_option (λ x, x) UsageBudget.empty_daily (UsageBudget.daily L1 !! k)). 
    unfold UsageBudget.open_day. cbn. apply lookup_insert_eq.
Qed.

Lemma committed_close L id r f n :
  UsageBudget.Ledger_ok L → UsageBudget.reservations L !! id = Some r →
  (∀ d, UsageBudget.d_CommittedMicrousd (f d) = UsageBudget.d_CommittedMicrousd d + n) →
  committed (UsageBudget.close_ledger L id r f) = committed L + n.
Proof.
  intros Hok Hr Hf. destruct (UsageBudget.stored_covered L id r Hok Hr) as (d & Hd & _).
  unfold committed, UsageBudget.close_ledger. cbn [UsageBudget.daily UsageBudget.with_maps].
  apply map_sum_alter; eauto.
Qed.

Lemma charged_total_insert m r h h' :
  m !! r = Some h → charged_total (<[r:=h']> m) = charged_total m - charged h + charged h'.
Proof.
  intros Hr. unfold charged_total.
  rewrite (map_sum_delete _ (<[r:=h']> m) r h') by apply lookup_insert_eq.
  rewrite (map_sum_delete _ m r h Hr), delete_insert_eq. lia.
Qed.

Record books_ok (prices : UsageBudget.Pricing) p : Prop := {
  bo_ledger : ∃ L, UsageLedger p = Some L ∧ UsageBudget.Ledger_ok L ∧
    UsageBudget.pricing L = prices ∧ committed L = charged_total (handlers p) ∧
    usageCommittedCost (stats p) = wrap_u64 (committed L);
}.

(** A step that charges nothing. *)
Lemma books_neutral prices p p' r h' :
  books_ok prices p → handlers p' = <[r:=h']> (handlers p) → UsageLedger p' = UsageLedger p →
  usageCommittedCost (stats p') = usageCommittedCost (stats p) →
  charged h' = match handlers p !! r with Some h => charged h | None => 0 end →
  books_ok prices p'.
Proof.
  intros [ (L & HL & Hok & Hp & Hc & Hs) ] Hh Hl Hst Hch. split. exists L.
  rewrite Hl, Hst. split_and!; try done. rewrite Hc, Hh.
  destruct (handlers p !! r) as [h|] eqn:Hr.
  - rewrite (charged_total_insert _ _ h) by done. lia.
  - unfold charged_total. rewrite map_sum_insert by done. lia.
Qed.

(** A step that uses the ledger and charges [n]. *)
Lemma books_ledger prices p p' r h h' L L' n :
  books_ok prices p → UsageLedger p = Some L → handlers p !! r = Some h →
  handlers p' = <[r:=h']> (handlers p) → UsageLedger p' = Some L' →
  UsageBudget.Ledger_ok L' → UsageBudget.pricing L' = UsageBudget.pricing L →
  committed L' = committed L + n → charged h' = charged h + n →
  usageCommittedCost (stats p') = wrap_u64 (usageCommittedCost (stats p) + n) →
  books_ok prices p'.
Proof.
  intros [ (L0 & HL0 & _ & Hp & Hc & Hs) ] HL Hr Hh HL' Hok' Hp' Hc' Hch Hst.
  rewrite HL in HL0. injection HL0 as <-. split. exists L'. split_and!; try done.
  - congruence.
  - rewrite Hh, (charged_total_insert _ _ h), Hc', Hc by done. lia.
  - rewrite Hst, Hs, Hc'. unfold wrap_u64. by rewrite Zplus_mod_idemp_l.
Qed.

Lemma wrap_u64_twice z : wrap_u64 (wrap_u64 z + 0) = wrap_u64 z.
Proof. unfold wrap_u64. rewrite Z.add_0_r. apply Zmod_mod. Qed.

Lemma books_committed prices p L :
  books_ok prices p → UsageLedger p = Some L →
  UsageBudget.Ledger_ok L ∧ wrap_u64 (usageCommittedCost (stats p) + 0) = usageCommittedCost (stats p).
Proof.
  intros [ (L0 & HL0 & Hok & _ & _ & Hs) ] HL. simplify_eq. split; [done|].
  rewrite Hs. apply wrap_u64_twice.
Qed.

Lemma books_reserve prices r h input payload ctx now draw L p :
  books_ok prices p → UsageLedger p = Some L → handlers p !! r = Some h →
  books_ok prices (reserve r h input payload ctx now draw L p).
Proof.
  intros Hb HL Hr. destruct (books_committed _ _ _ Hb HL) as [Hok Hw]. unfold reserve.
  set (lim := _ +i _).
  destruct (ledger_exec L (UsageBudget.OpReserve ctx (ownedScope h) lim (outputTokens input) now draw)
    Hok) as [Hok' Hp'].
  pose proof (committed_reserve L ctx (ownedScope h) lim (outputTokens input) now draw Hok) as Hc.
  cbn in Hok', Hp'. destruct (UsageBudget.Reserve _ _ _ _ _ _ _) as [L' res]. cbn in *.
  destruct res as [res|e]; [|destruct e];
    (eapply (books_ledger prices p _ r h _ L L' 0); cbn [stats put set_stats set_ledger]; try done;
     [rewrite Hc; lia|apply (charged_acted (ActReserve _ _ _ _ _ _ _ _))]).
Qed.

(** A use of the ledger that commits nothing leaves the books as they are. *)
Lemma books_failed prices p r h L L' l x m :
  books_ok prices p → UsageLedger p = Some L → handlers p !! r = Some h →
  UsageBudget.Ledger_ok L' → UsageBudget.pricing L' = UsageBudget.pricing L →
  committed L' = committed L → charge x = 0 → usageCommittedCost m = usageCommittedCost (stats p) →
  ∀ h', acts h' = acts h ++ [x] →
  books_ok prices (put r (goto l h') (set_stats m (set_ledger (Some L') p))).
Proof.
  intros Hb HL Hr Hok' Hp' Hc Hx Hm h' Hacts. destruct (books_committed _ _ _ Hb HL) as [_ Hw].
  eapply (books_ledger prices p _ r h _ L L' 0); cbn [stats put set_stats set_ledger]; try done.
  - lia.
  - transitivity (charged (acted x h)); [unfold charged; cbn; by rewrite Hacts|].
    rewrite charged_acted. lia.
  - congruence.
Qed.

Lemma books_settle prices r h body usage res ctx L p :
  books_ok prices p → UsageLedger p = Some L → handlers p !! r = Some h →
  books_ok prices (settle r h body usage res ctx L p).
Proof.
  intros Hb HL Hr. destruct (books_committed _ _ _ Hb HL) as [Hok Hw]. unfold settle.
  destruct (ledger_exec L (UsageBudget.OpSettle ctx res usage) Hok) as [Hok' Hp'].
  cbn in Hok', Hp'. rewrite UsageBudget.Settle_eq in * by done.
  assert (∀ e, books_ok prices (put r (fail 503 FinishingUsage (acted (ActSettle L ctx res usage (Err e)) h))
    (set_stats (count_failure (stats p)) (set_ledger (Some L) p)))) as Hf
    by (intros e; eapply (books_failed prices p r h L L FinishingUsage (ActSettle L ctx res usage (Err e))); done).
  destruct (_ || _) eqn:Hg; [apply Hf|].
  destruct (UsageBudget.reservations L !! UsageBudget.ID res) as [r0|] eqn:Hr0; [|apply Hf].
  destruct (UsageBudget.within_limits r0 usage) eqn:Hlim; [|apply Hf]. cbv zeta in *.
  set (cost := UsageBudget.price _ _ _) in *. cbn [fst] in Hok', Hp'.
  eapply (books_ledger prices p _ r h _ L _ cost); cbn [stats put set_stats set_ledger]; try done.
  - by apply committed_close.
  - by apply (charged_acted (ActSettle L ctx res usage (Ok {| UsageBudget.CostMicrousd := cost |}))).
Qed.

Lemma books_finish prices r h ctx p :
  books_ok prices p → handlers p !! r = Some h → books_ok prices (finish_usage r h ctx p).
Proof.
  intros Hb Hr. pose proof Hb as [ (L & HL & Hok & _) ]. unfold finish_usage. rewrite HL.
  assert (books_ok prices (put r (goto (unwind p) h) p)) as Hn
    by (eapply (books_neutral prices p _ r); try done; by rewrite Hr).
  destruct (reservation h) as [res|]; [|done]. destruct (finalizedUsage h); [done|].
  destruct (providerContacted h).
  - unfold markUsageUncertain.
    destruct (ledger_exec L (UsageBudget.OpMarkUncertain ctx res) Hok) as [Hok' Hp'].
    cbn in Hok', Hp'. rewrite UsageBudget.MarkUncertain_eq in * by done.
    destruct (_ || _) eqn:Hg; [eapply books_failed; [..|reflexivity]; done|].
    destruct (UsageBudget.reservations L !! UsageBudget.ID res) as [r0|] eqn:Hr0;
      [|eapply books_failed; [..|reflexivity]; done].
    eapply books_failed; [..|reflexivity]; try done.
    rewrite (committed_close L _ r0 _ 0); [lia|done|done|]. intros d. cbn. lia.
  - unfold releaseUsageReservation.
    destruct (ledger_exec L (UsageBudget.OpRelease ctx res) Hok) as [Hok' Hp'].
    cbn in Hok', Hp'. rewrite UsageBudget.Release_eq in * by done.
    destruct (_ || _) eqn:Hg; [eapply books_failed; [..|reflexivity]; done|].
    destruct (UsageBudget.reservations L !! UsageBudget.ID res) as [r0|] eqn:Hr0;
      [|eapply books_failed; [..|reflexivity]; done].
    eapply (books_failed _ _ _ _ _ _ _ _ (stats p)); [..|reflexivity]; try done.
    rewrite (committed_close L _ r0 _ 0); [lia|done|done|]. intros d. cbn. lia.
Qed.

Lemma books_step prices p a p' : books_ok prices p → step J p a = Some p' → books_ok prices p'.
Proof.
  intros Hb Hs. pose proof Hb as [ (L & HL & _) ].
  destruct a; cbn in Hs; rewrite ?HL in Hs;
    try (destruct (handlers p !! r) as [h|] eqn:Hr; try done).
  - injection Hs as <-. unfold arrive, admit_request.
    repeat case_match; eapply (books_neutral prices p _ r); cbn; try done; by rewrite Hr.
  - destruct (pc h); try done. injection Hs as <-. unfold limit.
    destruct (RuntimeCoordinator _).
    + destruct c; eapply (books_neutral prices p _ r); cbn; try done; by rewrite Hr.
    + destruct (acquireDevice _ _ _) as [p1 ok] eqn:Hacq.
      apply acquireDevice_spec in Hacq as (Hh1 & _ & _ & Hl1 & Hst1 & _).
      destruct ok; eapply (books_neutral prices p _ r); cbn; rewrite ?Hh1, ?Hl1, ?Hst1;
        try done; by rewrite Hr.
  - destruct (pc h); try done. injection Hs as <-. unfold take_slot.
    case_match; eapply (books_neutral prices p _ r); cbn; try done; by rewrite Hr.
  - destruct (pc h); try done. injection Hs as <-. unfold read_body.
    repeat case_match; eapply (books_neutral prices p _ r); cbn; try done; by rewrite Hr.
  - destruct (pc h); try done. injection Hs as <-. by apply books_reserve.
  - destruct (pc h); try done. injection Hs as <-. unfold call.
    repeat case_match; eapply (books_neutral prices p _ r); cbn; try done; by rewrite Hr.
  - destruct (pc h); try done. destruct (reservation h); [|done].
    destruct (providerUsage J body); [|done]. injection Hs as <-. by apply books_settle.
  - destruct (pc h); try done. injection Hs as <-. by apply books_finish.
  - destruct (pc h); try done. injection Hs as <-.
    eapply (books_neutral prices p _ r); cbn; try done; by rewrite Hr.
  - destruct (pc h); try done. injection Hs as <-. unfold releaseDevice.
    case_match; eapply (books_neutral prices p _ r); cbn; try done; by rewrite Hr.
  - destruct (pc h); try done. injection Hs as <-. unfold finish_identity.
    case_match; eapply (books_neutral prices p _ r); cbn; try done; by rewrite Hr.
  - injection Hs as <-. unfold ReconcileIdentity. destruct (identity p) as [t|]; [|exact Hb].
    destruct (Provisioning.Reconcile t allowed) as [t' revoked]. cbn. destruct Hb as [Hb]. by split.
Qed.

(** The books of the proxy agree: what the ledger has committed is the sum of what
    the requests were charged, the metric reports it (modulo its 64 bits), and on every
    day and for every device what is spent, held or in doubt stays within the daily
    budget, whatever the number of concurrent requests. *)
Theorem agent_books_balance c prices key L b p (acts : list (action E)) p' :
  UsageBudget.NewMemoryLedger prices key = Ok L → New J c (Some L) b = Some p →
  run J p acts = Some p' →
  ∃ L', UsageLedger p' = Some L' ∧
    committed L' = charged_total (handlers p') ∧
    usageCommittedCost (stats p') = wrap_u64 (committed L') ∧
    ∀ day d, UsageBudget.daily L' !! day = Some d →
      UsageBudget.d_CommittedMicrousd d + UsageBudget.d_UncertainMicrousd d
        + UsageBudget.d_ReservedMicrousd d ≤ UsageBudget.DailyBudgetMicrousd prices.
Proof.
  intros (Hok & Hp & Hd & _)%UsageBudget.New_ok (Hh & _ & _ & Hl & _ & _ & Hs)%New_empty Hr.
  assert (books_ok prices p) as Hb.
  { split. exists L. rewrite Hl, Hs, Hh. unfold committed, charged_total. by rewrite Hd. }
  assert (books_ok prices p') as [ (L' & HL' & Hok' & Hp' & Hc' & Hs') ].
  { clear -Hb Hr. revert p Hb Hr. induction acts as [|a acts IH]; intros p Hb Hr;
      [by simplify_eq/=|]. cbn in Hr. destruct (step J p a) as [p1|] eqn:Hst; [|done].
    eapply IH; [|done]. by eapply books_step. }
  exists L'. split_and!; try done. intros day d Hday.
  destruct Hok' as [_ [Ha _ _] _]. destruct (Ha day (UsageBudget.acct_of d)) as (_ & _ & _ & Hle).
  { unfold UsageBudget.accts_of. by rewrite lookup_fmap, Hday. }
  unfold UsageBudget.budget in Hle. rewrite Hp' in Hle. exact Hle.
Qed.

End theorems.

(** ** Witnesses *)

Definition ex_library : library :=
  {| Parse := λ s, Some {| Scheme := "https"; Host := "provider"; Path := s; HasUser := false;
                           RawQuery := ""; Fragment := "" |};
     ParseMediaType := λ s, Some s;
     Decode := λ b, Some {| Model := "agent"; Messages := [b]; Tools := []; MaxTokens := None;
                            MaxCompletionTokens := None; Stream := None |};
     Marshal := λ q, Some (concat (p_Messages q));
     Unmarshal_object := λ _, true;
     Unmarshal_choices := λ _, Some [{| Role := "assistant"; Content := Some "hi";
                                        ToolCalls := [] |}];
     Unmarshal_usage := λ b, Some (Some {| PromptTokens := Some (blen b);
                                           CompletionTokens := Some 5;
                                           usage_TotalTokens := Some (blen b + 5) |});
     NewDecoder := λ _, {| StrictJSON.rest := [StrictJSON.OpenObject; StrictJSON.CloseObject];
                           StrictJSON.eof := true |};
     Unmarshal_claims := Token.ex_Decode |}.

Definition ex_config : Config :=
  {| AllowInsecure := false; ProviderURL := "/v1/chat/completions"; ProviderAPIKey := "secret";
     ProviderModel := "model"; ProviderOrganization := ""; ProviderProject := "";
     PublicModel := "agent"; MaxOutputTokens := 100; MaxRequestBytes := 1000;
     MaxResponseBytes := 1000; RequestTimeout := 35 * second; MaxConcurrent := 2;
     MaxRequestsMinute := 3; RuntimeCoordinator := false; InputTokenOverhead := 16 |}.

Definition ex_proxy : Proxy :=
  match New ex_library ex_config (Some UsageBudget.example_ledger) false with
  | Some p => p
  | None =>
      {| config := ex_config; UsageLedger := None; concurrency := 0; limiters := ∅;
         identity := None;
         stats := {| usageSettledRequests := 0; usageUncertain := 0; usageCommittedCost := 0;
                     usageUncertainCost := 0; usageFailures := 0 |};
         handlers := ∅ |}
  end.

Definition ex_owner (d : string) : result unit (option DeviceClaim.Ownership) :=
  Ok (Some {| DeviceClaim.OwnerID := "own"; DeviceClaim.TenantID := "ten";
              DeviceClaim.BindingID := Token.ex_binding; DeviceClaim.BindingRevision := 1 |}).
Definition ex_view : Provisioning.View := {| Provisioning.view := None; Provisioning.at_ := 0 |}.
Definition ex_request : request :=
  {| hdr_Authorization := "Bearer " +:+ Token.ex_token; hdr_ContentType := "application/json";
     req_RawQuery := ""; ContentLength := 4 |}.
Definition ex_body : bytes := bytes_of "text".

Definition ex_arrival : action unit :=
  AArrive 1 Token.ex_verifier Token.ex_now Token.ex_now Token.ex_now ex_owner ex_view ex_request.
Definition ex_rest : list (action unit) :=
  [ALimit 1 LeaseGranted Token.ex_now; ASlot 1; ABody 1 (Some ex_body) ex_view true;
   AReserve 1 true Token.ex_now (Some UsageBudget.example_id);
   ACall 1 (Some {| StatusCode := 200; r_ContentType := "application/json";
                    r_Body := Some ex_body |}) ex_view;
   ASettle 1 true; AUsage 1 true; ASlotBack 1; ADeviceBack 1; AIdentity 1].
Definition ex_arrived : Proxy :=
  put 1 (new_handler "dev" (from_option id "" (Token.OwnedDeviceScope Token.ex_claims))) ex_proxy.

Lemma ex_proxy_new :
  New ex_library ex_config (Some UsageBudget.example_ledger) false = Some ex_proxy.
Proof. unfold ex_proxy. destruct (New _ _ _ _) eqn:Hn; [done|vm_compute in Hn; discriminate]. Qed.

Lemma ex_arrives : step ex_library ex_proxy ex_arrival = Some ex_arrived.
Proof.
  unfold ex_arrival. cbn [step].
  change (handlers ex_proxy !! 1%nat) with (@None handler). cbv iota. apply (f_equal Some).
  unfold arrive, chat_auth, Token.VerifyAuthorization.
  assert (Text.TrimSpace (String.substring 7 (String.length (hdr_Authorization ex_request) - 7)
            (hdr_Authorization ex_request)) = Token.ex_token) as -> by (vm_compute; reflexivity).
  change (Unmarshal_claims ex_library) with Token.ex_Decode. rewrite Token.ex_verified.
  vm_compute. reflexivity.
Qed.

Definition ex_served (p : Proxy) : bool :=
  match handlers p !! 1%nat with
  | Some h => match pc h with
              | Done => bool_decide (answer h = Some (200, ex_body)) && (0 <? charged h)
              | _ => false
              end
  | None => false
  end.

Lemma ex_ran : ∃ p, run ex_library ex_proxy (ex_arrival :: ex_rest) = Some p ∧ ex_served p = true.
Proof.
  cbn [run]. rewrite ex_arrives.
  assert (match run ex_library ex_arrived ex_rest with
          | Some p => ex_served p | None => false end = true) as Hs by (vm_compute; reflexivity).
  destruct (run ex_library ex_arrived ex_rest) as [p|]; [|discriminate Hs].
  exists p. split; [reflexivity|exact Hs].
Qed.

Lemma agent_limits_exact_witness : ∃ p,
  run ex_library ex_proxy (ex_arrival :: ex_rest) = Some p ∧
  concurrency p = slot_count (handlers p).
Proof.
  destruct ex_ran as (p & Hr & _). exists p. split; [exact Hr|].
  destruct (agent_limits_exact ex_library ex_config _ false ex_proxy _ p ex_proxy_new eq_refl Hr)
    as (_ & _ & H & _). exact H.
Defined.

Lemma agent_request_accounted_witness : ∃ p h res usage s a a',
  run ex_library ex_proxy (ex_arrival :: ex_rest) = Some p ∧ handlers p !! 1%nat = Some h ∧
  reservation h = Some res ∧ settle_act res usage (Ok s) a' ∧ AgentProxy.acts h = [a; a'].
Proof.
  destruct ex_ran as (p & Hr & Hs). unfold ex_served in Hs.
  destruct (handlers p !! 1%nat) as [h|] eqn:Hh; [|discriminate Hs].
  destruct (pc h) eqn:Hpc; try discriminate Hs. apply andb_true_iff in Hs as [Ha _].
  apply bool_decide_eq_true in Ha.
  destruct (agent_request_accounted ex_library ex_config UsageBudget.example_pricing
    UsageBudget.example_key UsageBudget.example_ledger false ex_proxy (ex_arrival :: ex_rest) p 1%nat h)
    as [ ((st & Hst & Hne) & _) | (res & a & Hres & _ & [ (u & s & body & a' & _ & _ & Hact & Hacts) |
         ((st & Hst & Hne) & _) ]) ];
    [vm_compute; reflexivity|exact ex_proxy_new|exact Hr|exact Hh|exact Hpc| | |].
  - rewrite Ha in Hst. congruence.
  - exists p, h, res, u, s, a, a'. split_and!; [exact Hr|exact Hh|exact Hres|exact Hact|exact Hacts].
  - rewrite Ha in Hst. congruence.
Defined.

Lemma agent_books_balance_witness : ∃ p L,
  run ex_library ex_proxy (ex_arrival :: ex_rest) = Some p ∧ UsageLedger p = Some L ∧
  committed L = charged_total (handlers p).
Proof.
  destruct ex_ran as (p & Hr & _).
  destruct (agent_books_balance ex_library ex_config UsageBudget.example_pricing
    UsageBudget.example_key UsageBudget.example_ledger false ex_proxy (ex_arrival :: ex_rest) p)
    as (L & HL & Hc & _); [vm_compute; reflexivity|exact ex_proxy_new|exact Hr|].
  exists p, L. split; [exact Hr|]. split; [exact HL|exact Hc].
Defined.

End AgentTheorems.
