(* ===== verification/Generation.v ===== *)
(** * Generation: the release-generation coordinator

    Models [internal/generation/state.go]: the coordinator's state machine
    (stable, preparing, draining, committing), the rules every committed record
    satisfies, and the append-only directory of signed records behind it. The
    operating system may refuse every file operation; which ones it refuses in a
    call is the argument [faults]. The directory is a map from names to contents;
    locks, modes and links other than the record's are not modelled. *)

From stdpp Require Import base gmap strings list fin_maps pretty.
From Stdlib Require Import ZArith Lia.
From Stdlib.Strings Require Import Byte.
From S2P Require Import Prelude GoBase GoCrypto Protocol Auth GoWire FactoryTime.

Module Generation.
Import Ident.

Definition PhaseStable : string := "STABLE".
Definition PhasePreparing : string := "PREPARING".
Definition PhaseDraining : string := "DRAINING".
Definition PhaseCommitting : string := "COMMITTING".
Definition AckPrepared : string := "PREPARED".
Definition AckActive : string := "ACTIVE".
Definition StateLeaseDuration : Duration := 5 * second.
Definition DrainDuration : Duration := 10 * second.
Definition maximumStateBytes : Z := 1024 * 1024.
Definition zeroDigest : string :=
  "0000000000000000000000000000000000000000000000000000000000000000".

(** [ErrInvalid] stands for the unnamed validation errors, [ErrIO] for the errors
    of the file system. *)
Inductive error : Type := ErrConflict | ErrExpired | ErrInvalid | ErrIO.

Record Gen : Type := { ID : string; Sequence : Z; ReceiptSHA256 : string }.
Record ReplicaRef : Type := { r_ID : string; r_Role : string }.
Record Acknowledgement : Type := {
  ReplicaID : string;
  Role : string;
  Stage : string;
  GenerationID : string;
  AckReceiptSHA256 : string;
  AcknowledgedAt : Z;
}.

#[global] Instance error_eq_dec : EqDecision error.
Proof. solve_decision. Defined.
#[global] Instance Gen_eq_dec : EqDecision Gen.
Proof. solve_decision. Defined.
#[global] Instance ReplicaRef_eq_dec : EqDecision ReplicaRef.
Proof. solve_decision. Defined.
#[global] Instance Acknowledgement_eq_dec : EqDecision Acknowledgement.
Proof. solve_decision. Defined.

Record State : Type := {
  Schema : Z;
  Revision : Z;
  PreviousRecordSHA256 : string;
  Phase : string;
  Active : Gen;
  Pending : option Gen;
  RequiredReplicas : list ReplicaRef;
  Acknowledgements : list Acknowledgement;
  PrepareDeadline : Z;
  DrainUntil : Z;
  CommitDeadline : Z;
  UpdatedAt : Z;
  RecordHMACB64URL : string;
}.

#[global] Instance State_eq_dec : EqDecision State.
Proof. solve_decision. Defined.

(** ** Validation *)

Definition validSHA256 (value : string) : bool := Ident.validSHA256 value.

Definition validGeneration (value : Gen) : bool :=
  ValidIdentifier (ID value) 64 && validSHA256 (ReceiptSHA256 value).

Definition sameGeneration (left right : Gen) : bool :=
  bool_decide (ID left = ID right) && (Sequence left =? Sequence right)
  && bool_decide (ReceiptSHA256 left = ReceiptSHA256 right).

Definition validTime (value : Time) : bool :=
  (1609459200 <=? Unix value) && (Unix value <=? 4102444800).

Definition validPending (state : State) : bool :=
  match Pending state with
  | None => false
  | Some pending =>
      validGeneration pending && (Sequence pending =? wrap_u32 (Sequence (Active state) + 1))
      && negb (bool_decide (ID pending = ID (Active state)))
  end.

(** The loop of [validReplicas]: the identifiers seen so far and how many replicas
    there are of each role. *)
Fixpoint validReplicas_from (values : list ReplicaRef) (seen : gset string)
    (controlplane firmwareorigin : Z) : bool :=
  match values with
  | [] => (0 <? controlplane) && (0 <? firmwareorigin)
  | value :: values =>
      IF negb (ValidIdentifier (r_ID value) 64)
         || (negb (bool_decide (r_Role value = "controlplane"))
             && negb (bool_decide (r_Role value = "firmwareorigin")))
        RETURN false ;;
      IF bool_decide (r_ID value ∈ seen) RETURN false ;;
      validReplicas_from values ({[r_ID value]} ∪ seen)
        (if bool_decide (r_Role value = "controlplane") then controlplane + 1 else controlplane)
        (if bool_decide (r_Role value = "firmwareorigin") then firmwareorigin + 1
         else firmwareorigin)
  end.

Definition validReplicas (values : list ReplicaRef) : bool :=
  IF (Z.of_nat (length values) <? 2) || (64 <? Z.of_nat (length values)) RETURN false ;;
  validReplicas_from values ∅ 0 0.

Definition containsReplica (values : list ReplicaRef) (target : ReplicaRef) : bool :=
  existsb (λ value, bool_decide (value = target)) values.

Definition replicasEqual (left right : list ReplicaRef) : bool := bool_decide (left = right).
Definition ackListsEqual (left right : list Acknowledgement) : bool := bool_decide (left = right).

Fixpoint ackStage (values : list Acknowledgement) (replicaID : string) : string :=
  match values with
  | [] => ""
  | value :: values =>
      if bool_decide (ReplicaID value = replicaID) then Stage value else ackStage values replicaID
  end.

Definition ackMatches (ack : Acknowledgement) (generation : Gen) : bool :=
  bool_decide (GenerationID ack = ID generation)
  && bool_decide (AckReceiptSHA256 ack = ReceiptSHA256 generation).

(** The loop over replicas and acknowledgements side by side; the lengths agree. *)
Fixpoint acknowledged_by (replicas : list ReplicaRef) (acks : list Acknowledgement)
    (stage : string) : bool :=
  match replicas, acks with
  | replica :: replicas, ack :: acks =>
      IF negb (bool_decide (ReplicaID ack = r_ID replica))
         || negb (bool_decide (Role ack = r_Role replica))
         || negb (bool_decide (Stage ack = stage))
        RETURN false ;;
      acknowledged_by replicas acks stage
  | _, _ => true
  end.

Definition allAcknowledged (state : State) (stage : string) : bool :=
  IF negb (Nat.eqb (length (Acknowledgements state)) (length (RequiredReplicas state)))
    RETURN false ;;
  acknowledged_by (RequiredReplicas state) (Acknowledgements state) stage.

(** [sort.SliceIsSorted] by a string key: no element is smaller than the one
    before it. *)
Fixpoint sorted_by {A} (key : A → string) (values : list A) : bool :=
  match values with
  | x :: ((y :: _) as rest) => negb (str_ltb (key y) (key x)) && sorted_by key rest
  | _ => true
  end.

(** The loop over the acknowledgements of [validateState]. *)
Fixpoint valid_acks (state : State) (acks : list Acknowledgement) (seen : gset string) : bool :=
  match acks with
  | [] => true
  | ack :: acks =>
      let ref := {| r_ID := ReplicaID ack; r_Role := Role ack |} in
      IF bool_decide (ReplicaID ack ∈ seen) || negb (containsReplica (RequiredReplicas state) ref)
         || (negb (bool_decide (Stage ack = AckPrepared))
             && negb (bool_decide (Stage ack = AckActive)))
         || negb (ValidIdentifier (GenerationID ack) 64)
         || negb (validSHA256 (AckReceiptSHA256 ack))
         || (AcknowledgedAt ack <? 1609459200) || (UpdatedAt state <? AcknowledgedAt ack)
        RETURN false ;;
      valid_acks state acks ({[ReplicaID ack]} ∪ seen)
  end.

(** The [switch] on the phase of [validateState]. *)
Definition valid_phase (state : State) : bool :=
  if bool_decide (Phase state = PhaseStable) then
    negb (bool_decide (is_Some (Pending state)) || negb (Nat.eqb (length (Acknowledgements state)) 0)
          || negb (PrepareDeadline state =? 0) || negb (DrainUntil state =? 0)
          || negb (CommitDeadline state =? 0))
  else if bool_decide (Phase state = PhasePreparing) then
    IF negb (validPending state) || (PrepareDeadline state <=? UpdatedAt state)
       || negb (DrainUntil state =? 0) || (CommitDeadline state <? 30)
       || (86400 <? CommitDeadline state)
      RETURN false ;;
    match Pending state with
    | None => false
    | Some pending =>
        forallb (λ ack, bool_decide (Stage ack = AckPrepared) && ackMatches ack pending)
          (Acknowledgements state)
    end
  else if bool_decide (Phase state = PhaseDraining) then
    negb (negb (validPending state) || negb (PrepareDeadline state =? 0)
          || negb (DrainUntil state =? UpdatedAt state + 10) || (CommitDeadline state <? 30)
          || negb (allAcknowledged state AckPrepared))
  else if bool_decide (Phase state = PhaseCommitting) then
    match Pending state with
    | None => false
    | Some pending =>
        IF negb (sameGeneration (Active state) pending) || negb (PrepareDeadline state =? 0)
           || negb (DrainUntil state =? 0) || (CommitDeadline state <=? UpdatedAt state)
           || negb (Nat.eqb (length (Acknowledgements state)) (length (RequiredReplicas state)))
          RETURN false ;;
        forallb (λ ack, ackMatches ack (Active state)) (Acknowledgements state)
    end
  else false.

Definition validateState (state : State) : bool :=
  IF negb (Schema state =? 1) || (Revision state =? 0)
     || negb (validSHA256 (PreviousRecordSHA256 state)) || negb (validGeneration (Active state))
     || negb (validReplicas (RequiredReplicas state)) || (UpdatedAt state <? 1609459200)
     || (4102444800 <? UpdatedAt state)
    RETURN false ;;
  IF negb (bool_decide (RecordHMACB64URL state = ""))
     && match DecodeString (RecordHMACB64URL state) with
        | None => true
        | Some decoded => negb (blen decoded =? 32)
        end
    RETURN false ;;
  IF negb (sorted_by r_ID (RequiredReplicas state))
     || negb (sorted_by ReplicaID (Acknowledgements state))
    RETURN false ;;
  IF negb (valid_acks state (Acknowledgements state) ∅) RETURN false ;;
  valid_phase state.

(** [priorByID] of [ackProgresses]: a later entry replaces an earlier one. *)
Definition acks_by_id (acks : list Acknowledgement) : gmap string Acknowledgement :=
  fold_left (λ m ack, <[ReplicaID ack := ack]> m) acks ∅.

(** The loop of [ackProgresses]; [None] is its early [return false]. *)
Fixpoint count_changes (prior : gmap string Acknowledgement) (next : list Acknowledgement)
    (target : string) (changes : Z) : option Z :=
  match next with
  | [] => Some changes
  | ack :: next =>
      match prior !! ReplicaID ack with
      | None =>
          IF negb (bool_decide (target = AckPrepared))
             || negb (bool_decide (Stage ack = AckPrepared))
            RETURN None ;;
          count_changes prior next target (changes + 1)
      | Some old =>
          IF bool_decide (Stage old = Stage ack)
            RETURN (IF negb (bool_decide (old = ack)) RETURN None ;;
                    count_changes prior next target changes) ;;
          IF negb (bool_decide (target = AckActive)) || negb (bool_decide (Stage old = AckPrepared))
             || negb (bool_decide (Stage ack = AckActive))
            RETURN None ;;
          count_changes prior next target (changes + 1)
      end
  end.

Definition ackProgresses (prior next : list Acknowledgement) (target : string) : bool :=
  IF (Nat.ltb (length next) (length prior)) || (Nat.ltb (length prior + 1) (length next))
    RETURN false ;;
  match count_changes (acks_by_id prior) next target 0 with
  | None => false
  | Some changes => changes =? 1
  end.

Definition same_pending (left right : option Gen) : bool :=
  match left, right with
  | Some l, Some r => sameGeneration l r
  | _, _ => false
  end.

Definition validateTransition (prior next : State) (priorDigest : string) : bool :=
  IF negb (Revision next =? wrap_u64 (Revision prior + 1))
     || negb (bool_decide (PreviousRecordSHA256 next = priorDigest))
     || (UpdatedAt next <? UpdatedAt prior)
     || negb (replicasEqual (RequiredReplicas prior) (RequiredReplicas next))
    RETURN false ;;
  if bool_decide (Phase prior = PhaseStable) then
    match Pending next with
    | None => false
    | Some pending =>
        bool_decide (Phase next = PhasePreparing) && sameGeneration (Active next) (Active prior)
        && (Sequence pending =? wrap_u32 (Sequence (Active prior) + 1))
    end
  else if bool_decide (Phase prior = PhasePreparing) then
    IF negb (sameGeneration (Active next) (Active prior)) RETURN false ;;
    IF bool_decide (Phase next = PhaseStable) RETURN bool_decide (Pending next = None) ;;
    same_pending (Pending next) (Pending prior)
    && (bool_decide (Phase next = PhasePreparing) || bool_decide (Phase next = PhaseDraining))
    && ackProgresses (Acknowledgements prior) (Acknowledgements next) AckPrepared
  else if bool_decide (Phase prior = PhaseDraining) then
    bool_decide (Phase next = PhaseCommitting) && same_pending (Pending prior) (Pending next)
    && same_pending (Some (Active next)) (Pending next)
    && ackListsEqual (Acknowledgements prior) (Acknowledgements next)
  else if bool_decide (Phase prior = PhaseCommitting) then
    IF bool_decide (Phase next = PhaseStable)
      RETURN (IF negb (sameGeneration (Active next) (Active prior))
                 || bool_decide (is_Some (Pending next))
                RETURN false ;;
              allAcknowledged prior AckActive) ;;
    bool_decide (Phase next = PhaseCommitting) && sameGeneration (Active next) (Active prior)
    && same_pending (Pending next) (Pending prior)
    && ackProgresses (Acknowledgements prior) (Acknowledgements next) AckActive
  else false.

(** ** Encoding

    [json.Marshal]: the members of a structure in the order of its fields, strings
    escaped. *)

Definition array_text (values : list bytes) : bytes :=
  let fix join vs :=
    match vs with [] => [] | [v] => v | v :: vs => v ++ Wire.comma :: join vs end in
  byte_of 91 :: join values ++ [byte_of 93].
Definition object_text (ms : list (string * bytes)) : bytes :=
  byte_of 123 :: FactoryTime.join_members ms ++ [Wire.closing].
Definition number_text (n : Z) : bytes := bytes_of (FormatInt n).

Definition gen_text (g : Gen) : bytes :=
  object_text [("generation_id", Wire.quote (ID g)); ("generation_sequence", number_text (Sequence g));
               ("receipt_sha256", Wire.quote (ReceiptSHA256 g))].
Definition replica_text (r : ReplicaRef) : bytes :=
  object_text [("replica_id", Wire.quote (r_ID r)); ("role", Wire.quote (r_Role r))].
Definition ack_text (a : Acknowledgement) : bytes :=
  object_text [("replica_id", Wire.quote (ReplicaID a)); ("role", Wire.quote (Role a));
               ("stage", Wire.quote (Stage a)); ("generation_id", Wire.quote (GenerationID a));
               ("receipt_sha256", Wire.quote (AckReceiptSHA256 a));
               ("acknowledged_at", number_text (AcknowledgedAt a))].
Definition pending_text (g : option Gen) : bytes :=
  match g with None => bytes_of "null" | Some g => gen_text g end.

(** The members of [unsignedState], in order. *)
Definition unsigned_members (state : State) : list (string * bytes) :=
  [("schema", number_text (Schema state)); ("revision", number_text (Revision state));
   ("previous_record_sha256", Wire.quote (PreviousRecordSHA256 state));
   ("phase", Wire.quote (Phase state)); ("active", gen_text (Active state));
   ("pending", pending_text (Pending state));
   ("required_replicas", array_text (replica_text <$> RequiredReplicas state));
   ("acknowledgements", array_text (ack_text <$> Acknowledgements state));
   ("prepare_deadline", number_text (PrepareDeadline state));
   ("drain_until", number_text (DrainUntil state));
   ("commit_deadline", number_text (CommitDeadline state));
   ("updated_at", number_text (UpdatedAt state))].

Definition marshal_unsigned (state : State) : bytes := object_text (unsigned_members state).
Definition marshal_state (state : State) : bytes :=
  object_text (unsigned_members state
    ++ [("record_hmac_b64url", Wire.quote (RecordHMACB64URL state))]).

Definition newline : byte := byte_of 10.

(** ** The store *)

Definition with_hmac (state : State) (mac : string) : State :=
  {| Schema := Schema state; Revision := Revision state;
     PreviousRecordSHA256 := PreviousRecordSHA256 state; Phase := Phase state;
     Active := Active state; Pending := Pending state;
     RequiredReplicas := RequiredReplicas state; Acknowledgements := Acknowledgements state;
     PrepareDeadline := PrepareDeadline state; DrainUntil := DrainUntil state;
     CommitDeadline := CommitDeadline state; UpdatedAt := UpdatedAt state;
     RecordHMACB64URL := mac |}.

(** [None] for [state] is the zero state, whose revision is 0. *)
Record Store : Type := {
  key : bytes;
  state : option State;
  digest : string;
  drainStarted : Time;
  dir : gmap string bytes;
}.

Definition set_dir (store : Store) (d : gmap string bytes) : Store :=
  {| key := key store; state := state store; digest := digest store;
     drainStarted := drainStarted store; dir := d |}.
Definition set_drainStarted (store : Store) (t : Time) : Store :=
  {| key := key store; state := state store; digest := digest store; drainStarted := t;
     dir := dir store |}.

(** Which file operations of a call fail, in the order of the code. The two
    failpoints are hooks of the tests. *)
Record faults : Type := {
  temp_fails : bool;
  failpoint_temp : bool;
  link_fails : bool;
  remove_fails : bool;
  sync_fails : bool;
  failpoint_record : bool;
  current_temp_fails : bool;
  rename_fails : bool;
  current_sync_fails : bool;
}.

Definition stateFileName (revision : Z) : string := "state-" +:+ pad_dec 20 revision +:+ ".json".
Definition stateTempName (revision : Z) : string := ".state-tmp-" +:+ FormatInt revision.
Definition currentTempName (revision : Z) : string := ".current-tmp-" +:+ FormatInt revision.
Definition currentName : string := "CURRENT".

Definition current_payload (revision : Z) (digest : string) : bytes :=
  object_text [("revision", number_text revision); ("record_sha256", Wire.quote digest)]
  ++ [newline].

Definition revision_of (store : Store) : Z :=
  match state store with Some st => Revision st | None => 0 end.

Definition writeCurrentLocked (f : faults) (store : Store) : Store * option error :=
  let payload := current_payload (revision_of store) (digest store) in
  let temp := currentTempName (revision_of store) in
  let d := delete temp (dir store) in
  IF current_temp_fails f RETURN (set_dir store d, Some ErrIO) ;;
  let d := <[temp := payload]> d in
  IF rename_fails f RETURN (set_dir store d, Some ErrIO) ;;
  let d := <[currentName := payload]> (delete temp d) in
  (set_dir store d, if current_sync_fails f then Some ErrIO else None).

(** The record as it is stored. *)
Definition sign (k : bytes) (st : State) : State :=
  with_hmac st (EncodeToString (hmac_sha256 k (marshal_unsigned st))).
Definition record_payload (st : State) : bytes := marshal_state st ++ [newline].
Definition record_digest (st : State) : string := hex_encode (Sum256 (record_payload st)).

Definition exists_file (d : gmap string bytes) (name : string) : bool :=
  bool_decide (is_Some (d !! name)).

Definition commitLocked (f : faults) (store : Store) (next : State) : Store * option error :=
  IF negb (validateState next) RETURN (store, Some ErrInvalid) ;;
  IF match state store with
     | None => false
     | Some prior => negb (validateTransition prior next (digest store))
     end
    RETURN (store, Some ErrInvalid) ;;
  let next := sign (key store) next in
  let payload := record_payload next in
  let recordName := stateFileName (Revision next) in
  let tempName := stateTempName (Revision next) in
  IF temp_fails f || exists_file (dir store) tempName RETURN (store, Some ErrIO) ;;
  let store := set_dir store (<[tempName := payload]> (dir store)) in
  IF failpoint_temp f RETURN (store, Some ErrIO) ;;
  IF link_fails f || exists_file (dir store) recordName RETURN (store, Some ErrIO) ;;
  let store := set_dir store (<[recordName := payload]> (dir store)) in
  IF remove_fails f RETURN (store, Some ErrIO) ;;
  let store := set_dir store (delete tempName (dir store)) in
  IF sync_fails f RETURN (store, Some ErrIO) ;;
  let store := {| key := key store; state := Some next; digest := record_digest next;
                  drainStarted := drainStarted store; dir := dir store |} in
  IF failpoint_record f RETURN (store, Some ErrIO) ;;
  writeCurrentLocked f store.

(** *** The operations

    Each returns the store and the error; the state it returns is always a copy of
    the store's state after the call. *)

Definition nextLocked (store : Store) (st : State) (now : Time) : State :=
  {| Schema := Schema st; Revision := wrap_u64 (Revision st + 1);
     PreviousRecordSHA256 := digest store; Phase := Phase st; Active := Active st;
     Pending := Pending st; RequiredReplicas := RequiredReplicas st;
     Acknowledgements := Acknowledgements st; PrepareDeadline := PrepareDeadline st;
     DrainUntil := DrainUntil st; CommitDeadline := CommitDeadline st; UpdatedAt := Unix now;
     RecordHMACB64URL := "" |}.

Definition makeStable (st : State) : State :=
  {| Schema := Schema st; Revision := Revision st;
     PreviousRecordSHA256 := PreviousRecordSHA256 st; Phase := PhaseStable;
     Active := Active st; Pending := None; RequiredReplicas := RequiredReplicas st;
     Acknowledgements := []; PrepareDeadline := 0; DrainUntil := 0; CommitDeadline := 0;
     UpdatedAt := UpdatedAt st; RecordHMACB64URL := RecordHMACB64URL st |}.

Definition make_preparing (st : State) (pending : Gen) (prepareDeadline commitDeadline : Z) : State :=
  {| Schema := Schema st; Revision := Revision st;
     PreviousRecordSHA256 := PreviousRecordSHA256 st; Phase := PhasePreparing;
     Active := Active st; Pending := Some pending; RequiredReplicas := RequiredReplicas st;
     Acknowledgements := []; PrepareDeadline := prepareDeadline; DrainUntil := DrainUntil st;
     CommitDeadline := commitDeadline; UpdatedAt := UpdatedAt st;
     RecordHMACB64URL := RecordHMACB64URL st |}.

Definition with_acks (st : State) (acks : list Acknowledgement) : State :=
  {| Schema := Schema st; Revision := Revision st;
     PreviousRecordSHA256 := PreviousRecordSHA256 st; Phase := Phase st;
     Active := Active st; Pending := Pending st; RequiredReplicas := RequiredReplicas st;
     Acknowledgements := acks; PrepareDeadline := PrepareDeadline st;
     DrainUntil := DrainUntil st; CommitDeadline := CommitDeadline st;
     UpdatedAt := UpdatedAt st; RecordHMACB64URL := RecordHMACB64URL st |}.

Definition make_draining (st : State) (drainUntil : Z) : State :=
  {| Schema := Schema st; Revision := Revision st;
     PreviousRecordSHA256 := PreviousRecordSHA256 st; Phase := PhaseDraining;
     Active := Active st; Pending := Pending st; RequiredReplicas := RequiredReplicas st;
     Acknowledgements := Acknowledgements st; PrepareDeadline := 0; DrainUntil := drainUntil;
     CommitDeadline := CommitDeadline st; UpdatedAt := UpdatedAt st;
     RecordHMACB64URL := RecordHMACB64URL st |}.

Definition make_committing (st : State) (active : Gen) (commitDeadline : Z) : State :=
  {| Schema := Schema st; Revision := Revision st;
     PreviousRecordSHA256 := PreviousRecordSHA256 st; Phase := PhaseCommitting;
     Active := active; Pending := Pending st; RequiredReplicas := RequiredReplicas st;
     Acknowledgements := Acknowledgements st; PrepareDeadline := PrepareDeadline st;
     DrainUntil := 0; CommitDeadline := commitDeadline; UpdatedAt := UpdatedAt st;
     RecordHMACB64URL := RecordHMACB64URL st |}.

(** [sort.Slice] by a string key; the keys of the lists it is called on are
    distinct, so every sorting algorithm gives the same list. *)
Fixpoint insert_by {A} (key : A → string) (x : A) (xs : list A) : list A :=
  match xs with
  | [] => [x]
  | y :: ys => if str_ltb (key y) (key x) then y :: insert_by key x ys else x :: xs
  end.
Definition sort_by {A} (key : A → string) (xs : list A) : list A :=
  foldr (insert_by key) [] xs.
Definition sortReplicas (values : list ReplicaRef) : list ReplicaRef := sort_by r_ID values.

Definition InitializeStore (f : faults) (k : bytes) (initial : Gen) (replicas : list ReplicaRef)
    (now : Time) : result error Store :=
  IF (blen k <? 32) || (128 <? blen k) || negb (validGeneration initial)
     || negb (validReplicas replicas) || negb (validTime now)
    RETURN Err ErrInvalid ;;
  let empty := {| key := k; state := None; digest := ""; drainStarted := zero_time; dir := ∅ |} in
  let first :=
    {| Schema := 1; Revision := 1; PreviousRecordSHA256 := zeroDigest; Phase := PhaseStable;
       Active := initial; Pending := None; RequiredReplicas := sortReplicas replicas;
       Acknowledgements := []; PrepareDeadline := 0; DrainUntil := 0; CommitDeadline := 0;
       UpdatedAt := Unix now; RecordHMACB64URL := "" |} in
  match commitLocked f empty first with
  | (_, Some e) => Err e
  | (store, None) => Ok store
  end.

(** An operation on a store whose state is loaded; [InitializeStore] and
    [OpenStore] hand out no other. *)
Definition on_state (store : Store) (body : State → Store * option error) :
    Store * option error :=
  match state store with
  | None => (store, Some ErrConflict)
  | Some st => body st
  end.

Definition Publish (f : faults) (store : Store) (expectedRevision : Z)
    (expectedActive pending : Gen) (prepareTimeout commitTimeout : Duration) (now : Time) :
    Store * option error :=
  on_state store (λ st,
  IF negb (Revision st =? expectedRevision) || negb (bool_decide (Phase st = PhaseStable))
     || negb (sameGeneration (Active st) expectedActive)
    RETURN (store, Some ErrConflict) ;;
  IF negb (validGeneration pending)
     || negb (Sequence pending =? wrap_u32 (Sequence expectedActive + 1))
     || bool_decide (ID pending = ID expectedActive)
     || (prepareTimeout <? 30 * second) || (24 * hour <? prepareTimeout)
     || (commitTimeout <? 30 * second) || (24 * hour <? commitTimeout) || negb (validTime now)
    RETURN (store, Some ErrInvalid) ;;
  commitLocked f store
    (make_preparing (nextLocked store st now) pending (Unix (now + prepareTimeout))
       (commitTimeout / second))).

Definition Abort_ (f : faults) (store : Store) (expectedRevision : Z) (pending : Gen)
    (now : Time) : Store * option error :=
  on_state store (λ st,
  IF negb (Revision st =? expectedRevision) || negb (bool_decide (Phase st = PhasePreparing))
     || negb (same_pending (Pending st) (Some pending))
    RETURN (store, Some ErrConflict) ;;
  commitLocked f store (makeStable (nextLocked store st now))).

(** The loop over the acknowledgements of [Acknowledge]: [Some (inl tt)] when the
    replica already has the stage, [Some (inr acks)] when its entry was moved to
    the stage, [None] when it has no entry. *)
Fixpoint restage (acks : list Acknowledgement) (replicaID stage : string) (at_ : Z) :
    option (unit + list Acknowledgement) :=
  match acks with
  | [] => None
  | ack :: acks =>
      if bool_decide (ReplicaID ack = replicaID) then
        IF bool_decide (Stage ack = stage) RETURN Some (inl tt) ;;
        Some (inr ({| ReplicaID := ReplicaID ack; Role := Role ack; Stage := stage;
                      GenerationID := GenerationID ack; AckReceiptSHA256 := AckReceiptSHA256 ack;
                      AcknowledgedAt := at_ |} :: acks))
      else match restage acks replicaID stage at_ with
           | Some (inr acks) => Some (inr (ack :: acks))
           | other => other
           end
  end.

(** The guards on the stage: [Some r] is an early return. *)
Definition ack_guard (f : faults) (store : Store) (st : State) (replica : ReplicaRef)
    (generation : Gen) (stage : string) (now : Time) : option (Store * option error) :=
  if bool_decide (stage = AckPrepared) then
    IF negb (bool_decide (Phase st = PhasePreparing))
       || negb (same_pending (Pending st) (Some generation))
      RETURN Some (store, Some ErrConflict) ;;
    IF PrepareDeadline st <? Unix now
      RETURN (let '(store, e) := commitLocked f store (makeStable (nextLocked store st now)) in
              Some (store, match e with Some e => Some e | None => Some ErrExpired end)) ;;
    None
  else if bool_decide (stage = AckActive) then
    IF negb (bool_decide (Phase st = PhaseCommitting)) || negb (bool_decide (is_Some (Pending st)))
       || negb (sameGeneration (Active st) generation)
       || negb (same_pending (Pending st) (Some generation))
       || negb (bool_decide (ackStage (Acknowledgements st) (r_ID replica) = AckPrepared))
      RETURN Some (store, Some ErrConflict) ;;
    None
  else Some (store, Some ErrInvalid).

(** After the acknowledgement is in place: enter draining when it was the last
    one, commit, and become stable when the last replica is active. *)
Definition ack_commit (f f2 : faults) (store : Store) (next : State) (stage : string)
    (now : Time) : Store * option error :=
  let last := allAcknowledged next stage && bool_decide (stage = AckPrepared) in
  let next := if last then make_draining next (Unix (now + DrainDuration)) else next in
  let store := if last then set_drainStarted store now else store in
  match commitLocked f store next with
  | (store, Some e) => (store, Some e)
  | (store, None) =>
      on_state store (λ st,
      if bool_decide (stage = AckActive) && allAcknowledged st AckActive
      then commitLocked f2 store (makeStable (nextLocked store st now))
      else (store, None))
  end.

(** [f] and [f2] are the faults of the first and of the second commit. *)
Definition Acknowledge (f f2 : faults) (store : Store) (expectedRevision : Z)
    (replica : ReplicaRef) (generation : Gen) (stage : string) (now : Time) :
    Store * option error :=
  on_state store (λ st,
  IF negb (Revision st =? expectedRevision)
     || negb (containsReplica (RequiredReplicas st) replica) || negb (validTime now)
    RETURN (store, Some ErrConflict) ;;
  match ack_guard f store st replica generation stage now with
  | Some r => r
  | None =>
      let next := nextLocked store st now in
      match restage (Acknowledgements next) (r_ID replica) stage (Unix now) with
      | Some (inl _) => (store, None)
      | moved =>
          let acks :=
            match moved with
            | Some (inr acks) => acks
            | _ => Acknowledgements next
                   ++ [{| ReplicaID := r_ID replica; Role := r_Role replica; Stage := stage;
                          GenerationID := ID generation;
                          AckReceiptSHA256 := ReceiptSHA256 generation;
                          AcknowledgedAt := Unix now |}]
            end in
          ack_commit f f2 store (with_acks next (sort_by ReplicaID acks)) stage now
      end
  end).

Definition Advance (f : faults) (store : Store) (now : Time) : Store * option error :=
  on_state store (λ st,
  IF negb (validTime now) RETURN (store, Some ErrInvalid) ;;
  if bool_decide (Phase st = PhasePreparing) then
    IF Unix now <=? PrepareDeadline st RETURN (store, None) ;;
    commitLocked f store (makeStable (nextLocked store st now))
  else if bool_decide (Phase st = PhaseDraining) then
    let store := if IsZero (drainStarted store) then set_drainStarted store now else store in
    IF (Unix now <? DrainUntil st) || (Sub now (drainStarted store) <? DrainDuration)
      RETURN (store, None) ;;
    match Pending st with
    | None => (store, None) (* the code would panic; a draining state has a pending one *)
    | Some pending =>
        commitLocked f store
          (make_committing (nextLocked store st now) pending
             (Unix (now + (CommitDeadline st *i second))))
    end
  else if bool_decide (Phase st = PhaseCommitting) then
    if allAcknowledged st AckActive
    then commitLocked f store (makeStable (nextLocked store st now)) else (store, None)
  else (store, None)).

(** ** Loading *)

Definition parseStateFileName (name : string) : option Z :=
  let bs := bytes_of name in
  IF negb (blen bs =? 31) || negb (bool_decide (take 6 bs = bytes_of "state-"))
     || negb (bool_decide (drop 26 bs = bytes_of ".json"))
    RETURN None ;;
  let digits := take 20 (drop 6 bs) in
  match ParseUint digits 64 with
  | None => None
  | Some value =>
      if (0 <? value) && bool_decide (bytes_of (pad_dec 20 value) = digits)
      then Some value else None
  end.

Definition HasPrefix (s prefix : string) : bool := String.prefix prefix s.

Definition skipped (name : string) : bool :=
  bool_decide (name = currentName) || HasPrefix name ".state-tmp-"
  || HasPrefix name ".current-tmp-".

Section load.
(** [json.Decoder] with [DisallowUnknownFields] and the check that nothing follows
    the value. *)
Context (json_Decode : bytes → option State).

Definition decodeCanonicalState (payload k : bytes) : option State :=
  match json_Decode payload with
  | None => None
  | Some st =>
      IF negb (bool_decide (record_payload st = payload)) RETURN None ;;
      IF negb (validateState st) RETURN None ;;
      match DecodeString (RecordHMACB64URL st) with
      | None => None
      | Some provided =>
          IF negb (blen provided =? 32)
             || negb (bool_decide (EncodeToString provided = RecordHMACB64URL st))
            RETURN None ;;
          if bool_decide (provided = hmac_sha256 k (marshal_unsigned st)) then Some st else None
      end
  end.

(** The first loop of [loadLocked], over the entries of the directory. *)
Definition load_entry (acc : result error (gmap Z bytes)) (entry : string * bytes) :
    result error (gmap Z bytes) :=
  match acc with
  | Err e => Err e
  | Ok records =>
      IF skipped entry.1 RETURN Ok records ;;
      match parseStateFileName entry.1 with
      | None => Err ErrInvalid
      | Some revision => Ok (<[revision := entry.2]> records)
      end
  end.

(** The second loop: [remaining] records from [revision] on. *)
Fixpoint load_chain (k : bytes) (records : gmap Z bytes) (remaining : nat) (revision : Z)
    (previous : option State) : result error (option State) :=
  match remaining with
  | O => Ok previous
  | S remaining =>
      match records !! revision with
      | None => Err ErrInvalid
      | Some payload =>
          IF (blen payload <? 1) || (maximumStateBytes <? blen payload) RETURN Err ErrIO ;;
          match decodeCanonicalState payload k with
          | None => Err ErrInvalid
          | Some st =>
              IF negb (Revision st =? revision) RETURN Err ErrInvalid ;;
              IF match previous with
                 | None => negb (bool_decide (PreviousRecordSHA256 st = zeroDigest))
                           || negb (bool_decide (Phase st = PhaseStable))
                 | Some previous => negb (validateTransition previous st (record_digest previous))
                 end
                RETURN Err ErrInvalid ;;
              load_chain k records remaining (revision + 1) (Some st)
          end
      end
  end.

(** [OpenStore]: read the directory, verify the chain, and repair [CURRENT]. The
    temporary files are removed; [now] is the clock for a fresh drain. *)
Definition OpenStore (f : faults) (k : bytes) (d : gmap string bytes) (now : Time) :
    result error Store :=
  IF (blen k <? 32) || (128 <? blen k) RETURN Err ErrInvalid ;;
  TRY records := fold_left load_entry (map_to_list d) (Ok ∅) ;;
  IF Nat.eqb (size records) 0 RETURN Err ErrInvalid ;;
  TRY last := load_chain k records (size records) 1 None ;;
  match last with
  | None => Err ErrInvalid
  | Some st =>
      let d := filter (λ e, negb (skipped e.1) || bool_decide (e.1 = currentName) = true) d in
      let store := {| key := k; state := Some st; digest := record_digest st;
                      drainStarted := if bool_decide (Phase st = PhaseDraining)
                                      then now else zero_time;
                      dir := d |} in
      IF bool_decide (d !! currentName = Some (current_payload (Revision st) (digest store)))
        RETURN Ok store ;;
      match writeCurrentLocked f store with
      | (store, None) => Ok store
      | (_, Some e) => Err e
      end
  end.

End load.

(** ** Lemmas: names of records *)

Lemma digit_char n :
  0 ≤ n < 10 →
  ∃ b, bytes_of (String (Ascii.ascii_of_N (Z.to_N (48 + n))) EmptyString) = [b] ∧
       digit_value b = Some n.
Proof.
  intros Hn. assert (n = 0 ∨ n = 1 ∨ n = 2 ∨ n = 3 ∨ n = 4 ∨ n = 5 ∨ n = 6 ∨ n = 7 ∨ n = 8 ∨ n = 9)
    as Hc by lia.
  destruct_or! Hc; subst n; eexists; (split; [vm_compute; reflexivity|reflexivity]).
Qed.

Lemma parse_digits_app xs ys acc :
  parse_digits (xs ++ ys) acc = parse_digits xs acc ≫= parse_digits ys.
Proof.
  revert acc. induction xs as [|x xs IH]; intros acc; [done|]. cbn.
  destruct (digit_value x); [|done]. apply IH.
Qed.

Lemma pad_dec_spec w n :
  0 ≤ n < 10 ^ Z.of_nat w →
  length (bytes_of (pad_dec w n)) = w ∧ parse_digits (bytes_of (pad_dec w n)) 0 = Some n.
Proof.
  revert n. induction w as [|w IH]; intros n Hn.
  { cbn in *. split; [done|]. f_equal. lia. }
  rewrite Nat2Z.inj_succ, Z.pow_succ_r in Hn by lia. cbn [pad_dec].
  change (String.append ?a ?b) with (a +:+ b). rewrite bytes_of_app.
  destruct (IH (n / 10)) as [Hl Hp].
  { split; [apply Z.div_pos; lia|apply Z.div_lt_upper_bound; lia]. }
  destruct (digit_char (n mod 10)) as (b & -> & Hb); [apply Z.mod_pos_bound; lia|].
  split; [rewrite length_app, Hl; cbn; lia|].
  rewrite parse_digits_app, Hp. cbn. rewrite Hb. f_equal.
  pose proof (Z.div_mod n 10). lia.
Qed.

Definition u64 (r : Z) : Prop := 0 < r < 2 ^ 64.

Lemma parse_stateFileName r : u64 r → parseStateFileName (stateFileName r) = Some r.
Proof.
  intros [Hr0 Hr]. assert (2 ^ 64 = 18446744073709551616) as E64 by done.
  destruct (pad_dec_spec 20 r) as [Hl Hp]; [change (10 ^ Z.of_nat 20) with 100000000000000000000; lia|].
  unfold parseStateFileName, stateFileName. rewrite !bytes_of_app. cbv zeta.
  remember (bytes_of (pad_dec 20 r)) as ds eqn:Eds.
  assert (∀ x y : bytes, length x = 6%nat → take 6 (x ++ ds ++ y) = x ∧
    drop 26 (x ++ ds ++ y) = y ∧ take 20 (drop 6 (x ++ ds ++ y)) = ds) as Hsplit.
  { intros x y Hx. split_and!.
    - rewrite <- Hx. apply take_app_length.
    - rewrite app_assoc. replace 26%nat with (length (x ++ ds)) by (rewrite length_app; lia).
      apply drop_app_length.
    - assert (drop 6 (x ++ ds ++ y) = ds ++ y) as -> by (rewrite <- Hx; apply drop_app_length).
      rewrite <- Hl. apply take_app_length. }
  match goal with |- context [take 6 (?x ++ ds ++ ?y)] => destruct (Hsplit x y) as (-> & -> & ->) end;
    [done|].
  rewrite !blen_app. unfold blen. rewrite Hl. change (length (bytes_of "state-")) with 6%nat.
  change (length (bytes_of ".json")) with 5%nat.
  rewrite !bool_decide_true by done. cbn [negb orb].
  unfold ParseUint. rewrite (bool_decide_false (ds = [])), Hp by (intros ->; done).
  rewrite (proj2 (Z.ltb_lt _ _)), (proj2 (Z.ltb_lt 0 r)) by lia. cbn.
  by rewrite bool_decide_true by done.
Qed.

Lemma stateFileName_inj r r' : u64 r → u64 r' → stateFileName r = stateFileName r' → r = r'.
Proof.
  intros Hr Hr' Heq. apply (f_equal parseStateFileName) in Heq.
  rewrite !parse_stateFileName in Heq by done. by simplify_eq.
Qed.

Lemma record_not_skipped r : skipped (stateFileName r) = false.
Proof. unfold skipped. rewrite bool_decide_false by done. done. Qed.

Lemma temp_skipped r : skipped (stateTempName r) = true.
Proof.
  unfold skipped. assert (HasPrefix (stateTempName r) ".state-tmp-" = true) as ->.
  - unfold HasPrefix, stateTempName. by destruct (FormatInt r).
  - by rewrite orb_true_r.
Qed.

Lemma current_temp_skipped r : skipped (currentTempName r) = true.
Proof.
  unfold skipped. assert (HasPrefix (currentTempName r) ".current-tmp-" = true) as ->.
  - unfold HasPrefix, currentTempName. by destruct (FormatInt r).
  - by rewrite orb_true_r.
Qed.

Lemma current_skipped : skipped currentName = true.
Proof. done. Qed.

(** ** Lemmas: the records on disk *)

(** The directory holds the records of [chain], under their revisions, and beside
    them only [CURRENT] and temporary files. *)
Definition dir_ok (chain : list State) (d : gmap string bytes) : Prop :=
  (∀ name p, d !! name = Some p → skipped name = true ∨
     ∃ i st, chain !! i = Some st ∧ name = stateFileName (Z.of_nat i + 1) ∧
             p = record_payload st) ∧
  (∀ i st, chain !! i = Some st → d !! stateFileName (Z.of_nat i + 1) = Some (record_payload st)).

Lemma dir_ok_skipped chain d name p :
  skipped name = true → dir_ok chain d → dir_ok chain (<[name := p]> d).
Proof.
  intros Hs [H1 H2]. split.
  - intros n q [[<- _]|[_ Hq]]%lookup_insert_Some; [by left|eauto].
  - intros i st Hi. rewrite lookup_insert_ne; [eauto|].
    intros ->. by rewrite record_not_skipped in Hs.
Qed.

Lemma dir_ok_delete chain d name :
  skipped name = true → dir_ok chain d → dir_ok chain (delete name d).
Proof.
  intros Hs [H1 H2]. split.
  - intros n q [_ Hq]%lookup_delete_Some. eauto.
  - intros i st Hi. rewrite lookup_delete_ne; [eauto|].
    intros ->. by rewrite record_not_skipped in Hs.
Qed.

Lemma dir_ok_snoc chain d st :
  d !! stateFileName (Z.of_nat (length chain) + 1) = None → dir_ok chain d →
  dir_ok (chain ++ [st]) (<[stateFileName (Z.of_nat (length chain) + 1) := record_payload st]> d).
Proof.
  intros Hnone [H1 H2]. split.
  - intros n p [[<- <-]|[_ Hp]]%lookup_insert_Some.
    + right. exists (length chain), st. split; [|done]. by rewrite list_lookup_middle.
    + destruct (H1 n p Hp) as [?|(i & s & Hi & -> & ->)]; [by left|]. right.
      exists i, s. split; [|done]. by apply lookup_app_l_Some.
  - intros i s [Hi|[Hge Hi]]%lookup_app_Some.
    + pose proof (H2 i s Hi) as Hd. rewrite lookup_insert_ne; [done|]. intros Heq. congruence.
    + apply list_lookup_singleton_Some in Hi as [Hi <-].
      replace i with (length chain) by lia. by rewrite lookup_insert_eq.
Qed.

(** ** Lemmas: the chain of records *)

Definition signed (k : bytes) (st : State) : Prop :=
  RecordHMACB64URL st = EncodeToString (hmac_sha256 k (marshal_unsigned st)).

(** What a record is checked for, given the one before it. *)
Definition record_ok (k : bytes) (i : nat) (previous : option State) (st : State) : Prop :=
  signed k st ∧ validateState st = true ∧ Revision st = Z.of_nat i + 1 ∧ u64 (Revision st) ∧
  match previous with
  | None => PreviousRecordSHA256 st = zeroDigest ∧ Phase st = PhaseStable
  | Some p => validateTransition p st (record_digest p) = true
  end.

Definition chain_ok (k : bytes) (chain : list State) : Prop :=
  ∀ i st, chain !! i = Some st →
    record_ok k i (match i with O => None | S i => chain !! i end) st.

Lemma chain_ok_snoc k chain st :
  chain_ok k chain → record_ok k (length chain) (last chain) st → chain_ok k (chain ++ [st]).
Proof.
  intros Hc Hr i s [Hi|[Hge Hi]]%lookup_app_Some.
  - specialize (Hc i s Hi). destruct i as [|i]; [done|].
    assert (is_Some (chain !! i)) as [p Hp].
    { apply lookup_lt_is_Some. apply lookup_lt_Some in Hi. lia. }
    rewrite Hp in Hc. by rewrite (lookup_app_l_Some _ _ _ _ Hp).
  - apply list_lookup_singleton_Some in Hi as [Hi <-]. replace i with (length chain) by lia.
    rewrite last_lookup in Hr. destruct (length chain) as [|n] eqn:Hl; cbn in Hr.
    + assert (chain = []) as -> by (by destruct chain). done.
    + assert (is_Some (chain !! n)) as [p Hp] by (apply lookup_lt_is_Some; lia).
      rewrite Hp in Hr. by rewrite (lookup_app_l_Some _ _ _ _ Hp).
Qed.

Lemma sign_signed k st : signed k (sign k st).
Proof. done. Qed.

Lemma validateState_sign k st :
  validateState st = true → validateState (sign k st) = true.
Proof.
  unfold validateState. destruct (_ || _) eqn:E1 at 1; [done|].
  destruct (_ && match _ with _ => _ end) at 1; [done|].
  change (Schema (sign k st)) with (Schema st).
  change (Revision (sign k st)) with (Revision st).
  change (PreviousRecordSHA256 (sign k st)) with (PreviousRecordSHA256 st).
  change (Active (sign k st)) with (Active st).
  change (RequiredReplicas (sign k st)) with (RequiredReplicas st).
  change (UpdatedAt (sign k st)) with (UpdatedAt st).
  change (Acknowledgements (sign k st)) with (Acknowledgements st).
  rewrite E1. rewrite sign_signed, DecodeString_EncodeToString.
  replace (blen (hmac_sha256 _ _)) with 32 by (symmetry; apply hmac_sha256_length).
  rewrite andb_false_r. destruct (_ || _); [done|].
  assert (∀ acks seen, valid_acks (sign k st) acks seen = valid_acks st acks seen) as ->.
  { induction acks as [|a acks IH]; intros seen; [done|]. cbn. by rewrite IH. }
  by destruct (negb _).
Qed.

(** ** Lemmas: one commit *)

(** The records on disk and the state in memory: they agree, or a commit stopped
    after linking its record, which the running process does not know yet. *)
Definition disk_inv (store : Store) (chain : list State) : Prop :=
  dir_ok chain (dir store) ∧ chain_ok (key store) chain ∧
  ∃ pre st, state store = Some st ∧ digest store = record_digest st ∧
    (chain = pre ++ [st] ∨ ∃ ahead, chain = pre ++ [st; ahead]).

(** The two states [commitLocked] can leave behind, besides the old one. *)
Inductive commit_result (store : Store) (chain : list State) (next : State) :
    Store → list State → option error → Prop :=
| commit_refused store' e :
    state store' = state store → digest store' = digest store →
    drainStarted store' = drainStarted store → disk_inv store' chain →
    commit_result store chain next store' chain (Some e)
| commit_linked store' st e :
    state store = Some st → validateTransition st next (digest store) = true →
    validateState next = true → last chain = Some st →
    state store' = state store → digest store' = digest store →
    drainStarted store' = drainStarted store →
    disk_inv store' (chain ++ [sign (key store) next]) →
    commit_result store chain next store' (chain ++ [sign (key store) next]) (Some e)
| commit_done store' st e :
    state store = Some st → validateTransition st next (digest store) = true →
    validateState next = true → last chain = Some st →
    state store' = Some (sign (key store) next) → drainStarted store' = drainStarted store →
    disk_inv store' (chain ++ [sign (key store) next]) →
    commit_result store chain next store' (chain ++ [sign (key store) next]) e.

Lemma validateTransition_meta prior next d :
  validateTransition prior next d = true →
  Revision next = wrap_u64 (Revision prior + 1) ∧ PreviousRecordSHA256 next = d ∧
  UpdatedAt prior ≤ UpdatedAt next ∧ RequiredReplicas next = RequiredReplicas prior.
Proof.
  unfold validateTransition. guard Hm. intros _. unfold replicasEqual in Hm. split_bools. done.
Qed.

Lemma validateTransition_sign k prior next d :
  validateTransition prior (sign k next) d = validateTransition prior next d.
Proof. done. Qed.

Lemma validateState_revision st : validateState st = true → Revision st ≠ 0.
Proof. unfold validateState. guard H. intros _. by split_bools. Qed.

Lemma writeCurrent_frame f store :
  let store' := (writeCurrentLocked f store).1 in
  key store' = key store ∧ state store' = state store ∧ digest store' = digest store ∧
  drainStarted store' = drainStarted store ∧
  ∀ chain, dir_ok chain (dir store) → dir_ok chain (dir store').
Proof.
  unfold writeCurrentLocked. cbv zeta.
  assert (∀ chain, dir_ok chain (dir store) →
    dir_ok chain (delete (currentTempName (revision_of store)) (dir store))) as Hd.
  { intros chain Hc. apply dir_ok_delete; [apply current_temp_skipped|done]. }
  destruct (current_temp_fails f); [done|].
  assert (∀ chain p, dir_ok chain (dir store) →
    dir_ok chain (<[currentTempName (revision_of store) := p]>
      (delete (currentTempName (revision_of store)) (dir store)))) as Hi.
  { intros chain p Hc. apply dir_ok_skipped; [apply current_temp_skipped|auto]. }
  destruct (rename_fails f); cbn; [by split_and!; auto|].
  split_and!; try done. intros chain Hc. apply dir_ok_skipped; [apply current_skipped|].
  apply dir_ok_delete; [apply current_temp_skipped|auto].
Qed.

Lemma commitLocked_spec f store chain next store' e :
  disk_inv store chain → commitLocked f store next = (store', e) →
  ∃ chain', commit_result store chain next store' chain' e.
Proof.
  intros Hinv. pose proof Hinv as (Hdir & Hchain & pre & st & Hst & Hdig & Hcase).
  assert (∀ d', dir_ok chain d' → disk_inv (set_dir store d') chain) as Hsame
    by (intros d' Hd'; split; [done|split; [done|eauto 10]]).
  unfold commitLocked. guard Hv; [intros [= <- <-]; exists chain; by constructor|].
  apply negb_false_iff in Hv. rewrite Hst.
  guard Ht; [intros [= <- <-]; exists chain; by constructor|].
  apply negb_false_iff in Ht. rewrite ?Hdig in Ht.
  set (rec := sign (key store) next). set (temp := stateTempName (Revision rec)).
  assert (skipped temp = true) as Hskip by apply temp_skipped.
  guard Htemp; [intros [= <- <-]; exists chain; by constructor|]. cbn [dir set_dir].
  assert (dir_ok chain (<[temp := record_payload rec]> (dir store))) as Hd1
    by by apply dir_ok_skipped.
  guard Hfp; [intros [= <- <-]; exists chain; constructor; try done; by apply Hsame|].
  guard Hlink; [intros [= <- <-]; exists chain; constructor; try done; by apply Hsame|].
  apply orb_false_iff in Hlink as [_ Hfree]. apply bool_decide_eq_false, eq_None_not_Some in Hfree.
  (* the record is new, so the memory is not behind the disk *)
  pose proof (validateTransition_meta _ _ _ Ht) as (Hrev & _).
  pose proof (validateState_revision _ Hv) as Hrev0.
  assert (chain = pre ++ [st] ∧ Revision rec = Z.of_nat (length chain) + 1) as [-> Hlen].
  { assert (chain !! length pre = Some st) as Hi.
    { destruct Hcase as [->|[a ->]]; by rewrite list_lookup_middle. }
    destruct (Hchain _ _ Hi) as (_ & _ & Hr & Hu & _). rewrite Hr in Hrev, Hu.
    change (Revision rec) with (Revision next) in *.
    assert (Revision next = Z.of_nat (length pre) + 2) as Hn.
    { unfold wrap_u64, u64 in *.
      destruct (decide (Z.of_nat (length pre) + 2 = 2 ^ 64)) as [E|E].
      - exfalso. apply Hrev0. rewrite Hrev. replace (_ + 1 + 1) with (2 ^ 64) by lia. done.
      - rewrite Hrev, Z.mod_small; lia. }
    destruct Hcase as [->|[a ->]]; [split; [done|rewrite length_app; cbn; lia]|].
    exfalso. destruct Hd1 as [_ Hd1].
    specialize (Hd1 (S (length pre)) a). rewrite lookup_app_r in Hd1 by lia.
    replace (S (length pre) - length pre)%nat with 1%nat in Hd1 by lia.
    specialize (Hd1 eq_refl). rewrite Hn in Hfree.
    replace (Z.of_nat (S (length pre)) + 1) with (Z.of_nat (length pre) + 2) in Hd1 by lia.
    congruence. }
  rewrite Hlen in Hfree. rewrite Hlen.
  assert (last (pre ++ [st]) = Some st) as Hlast by apply last_snoc.
  assert (chain_ok (key store) ((pre ++ [st]) ++ [rec])) as Hchain'.
  { apply chain_ok_snoc; [done|]. rewrite Hlast.
    assert (u64 (Revision rec)).
    { change (Revision rec) with (Revision next). unfold u64, wrap_u64 in *.
      pose proof (Z.mod_pos_bound (Revision st + 1) (2 ^ 64)). lia. }
    split_and!; [apply sign_signed|by apply validateState_sign|done|done|done]. }
  assert (dir_ok ((pre ++ [st]) ++ [rec])
    (<[stateFileName (Z.of_nat (length (pre ++ [st])) + 1) := record_payload rec]>
       (<[temp := record_payload rec]> (dir store)))) as Hd2 by by apply dir_ok_snoc.
  assert (∀ d', dir_ok ((pre ++ [st]) ++ [rec]) d' →
    disk_inv (set_dir store d') ((pre ++ [st]) ++ [rec])) as Hahead.
  { intros d' Hd'. split; [done|split; [done|]]. exists pre, st. rewrite <- app_assoc.
    split_and!; [done..|right; eauto]. }
  guard Hrm.
  { intros [= <- <-]. eexists. eapply commit_linked; try done; [by rewrite Hdig|by apply Hahead]. }
  assert (dir_ok ((pre ++ [st]) ++ [rec]) (delete temp
    (<[stateFileName (Z.of_nat (length (pre ++ [st])) + 1) := record_payload rec]>
       (<[temp := record_payload rec]> (dir store))))) as Hd3 by by apply dir_ok_delete.
  guard Hsync.
  { intros [= <- <-]. eexists. eapply commit_linked; try done; [by rewrite Hdig|by apply Hahead]. }
  assert (∀ s', key s' = key store → state s' = Some rec → digest s' = record_digest rec →
    dir_ok ((pre ++ [st]) ++ [rec]) (dir s') → disk_inv s' ((pre ++ [st]) ++ [rec])) as Hdone.
  { intros s' Hk Hs' Hdg Hd'. split; [done|]. rewrite Hk. split; [done|].
    exists (pre ++ [st]), rec. split_and!; [done..|by left]. }
  guard Hfp2.
  { intros [= <- <-]. eexists. eapply commit_done; try done; [by rewrite Hdig|by apply Hdone]. }
  match goal with |- writeCurrentLocked f ?s = _ → _ => set (s1 := s) end.
  pose proof (writeCurrent_frame f s1) as (Hk & Hs1 & Hdg & Hds & Hdir1).
  destruct (writeCurrentLocked f s1) as [s2 e2]. cbn in *. intros [= <- <-].
  eexists. eapply commit_done; try done; [by rewrite Hdig|].
  apply Hdone; [done..|]. by apply Hdir1.
Qed.

(** ** Operations as timed steps *)

Inductive op : Type :=
| OPublish (f : faults) (expectedRevision : Z) (expectedActive pending : Gen)
    (prepareTimeout commitTimeout : Duration) (now : Time)
| OAbort (f : faults) (expectedRevision : Z) (pending : Gen) (now : Time)
| OAcknowledge (f f2 : faults) (expectedRevision : Z) (replica : ReplicaRef) (generation : Gen)
    (stage : string) (now : Time)
| OAdvance (f : faults) (now : Time).

Definition op_time (o : op) : Time :=
  match o with
  | OPublish _ _ _ _ _ _ t | OAbort _ _ _ t | OAcknowledge _ _ _ _ _ _ t | OAdvance _ t => t
  end.

Definition exec (store : Store) (o : op) : Store * option error :=
  match o with
  | OPublish f rev act pend pt ct now => Publish f store rev act pend pt ct now
  | OAbort f rev pend now => Abort_ f store rev pend now
  | OAcknowledge f f2 rev replica g stage now => Acknowledge f f2 store rev replica g stage now
  | OAdvance f now => Advance f store now
  end.

(** One step of an operation called at [now]: it may note the start of the drain,
    or try one commit. A commit that enters draining notes the start first, and a
    commit that leaves draining comes a full drain later. *)
Inductive tstep (now : Time) : Store * list State → Store * list State → Prop :=
| tstep_note store chain :
    disk_inv store chain → tstep now (store, chain) (set_drainStarted store now, chain)
| tstep_commit store chain next store' chain' e :
    disk_inv store chain → commit_result store chain next store' chain' e →
    (Phase next = PhaseDraining → drainStarted store = now) →
    (∀ st, state store = Some st → Phase st = PhaseDraining →
       drainStarted store + DrainDuration ≤ now) →
    tstep now (store, chain) (store', chain').

Lemma disk_inv_note store chain t : disk_inv store chain → disk_inv (set_drainStarted store t) chain.
Proof. by intros (? & ? & ?). Qed.

Lemma tstep_disk_inv now a b : tstep now a b → disk_inv b.1 b.2.
Proof.
  intros Hs. destruct Hs as [store chain Hinv|store chain next store' chain' e _ Hc _ _]; cbn.
  - by apply disk_inv_note.
  - by destruct Hc.
Qed.

Lemma commit_step now f store chain next store' e :
  disk_inv store chain → commitLocked f store next = (store', e) →
  (Phase next = PhaseDraining → drainStarted store = now) →
  (∀ st, state store = Some st → Phase st = PhaseDraining →
     drainStarted store + DrainDuration ≤ now) →
  ∃ chain', rtc (tstep now) (store, chain) (store', chain').
Proof.
  intros Hinv Hc H1 H2. destruct (commitLocked_spec _ _ _ _ _ _ Hinv Hc) as [chain' Hr].
  exists chain'. apply rtc_once. by eapply tstep_commit.
Qed.

Lemma same_pending_eq a b : same_pending a b = true → ∃ g, a = Some g ∧ b = Some g.
Proof.
  destruct a as [ [i q r] |], b as [ [i' q' r'] |]; try done. unfold same_pending, sameGeneration. cbn.
  intros. split_bools. subst. eauto.
Qed.

Lemma sameGeneration_eq a b : sameGeneration a b = true ↔ a = b.
Proof.
  destruct a, b. unfold sameGeneration. cbn.
  rewrite !andb_true_iff, !bool_decide_eq_true, Z.eqb_eq. naive_solver.
Qed.

(** A phase other than draining imposes nothing on the commit that leaves it. *)
Lemma not_draining store st now P :
  state store = Some st → Phase st = P → P ≠ PhaseDraining →
  ∀ st', state store = Some st' → Phase st' = PhaseDraining →
    drainStarted store + DrainDuration ≤ now.
Proof. intros Hst HP Hne st' Hst' HP'. congruence. Qed.

(** The phase an acknowledgement is accepted in, and what an early return did. *)
Lemma ack_guard_steps f store chain st replica g stage now r :
  disk_inv store chain → state store = Some st →
  ack_guard f store st replica g stage now = r →
  match r with
  | Some (store', _) => ∃ chain', rtc (tstep now) (store, chain) (store', chain')
  | None => Phase st ≠ PhaseDraining ∧
      (stage = AckPrepared → Phase st = PhasePreparing) ∧
      (stage = AckActive → Phase st = PhaseCommitting)
  end.
Proof.
  intros Hinv Hst <-. unfold ack_guard. destruct (bool_decide (stage = AckPrepared)) eqn:E1.
  - destruct (_ || _) eqn:E2; [eauto using rtc_refl|]. split_bools.
    destruct (PrepareDeadline st <? Unix now); [|].
    2:{ match goal with H : Phase st = _ |- _ => rewrite H end. split_and!; [done..|].
        intros ->. done. }
    destruct (commitLocked _ _ _) as [store' e] eqn:Hc.
    eapply commit_step; [done|done|done|by eapply not_draining].
  - destruct (bool_decide (stage = AckActive)) eqn:E2; [|eauto using rtc_refl].
    destruct (_ || _) eqn:E3; [eauto using rtc_refl|]. split_bools.
    match goal with H : Phase st = _ |- _ => rewrite H end. split_and!; [done| |done].
    intros ->. done.
Qed.

Lemma ack_commit_steps f f2 store chain st next stage now store' e :
  disk_inv store chain → state store = Some st → Phase st ≠ PhaseDraining →
  Phase next ≠ PhaseDraining →
  (stage = AckActive → Phase next = PhaseCommitting) →
  ack_commit f f2 store next stage now = (store', e) →
  ∃ chain', rtc (tstep now) (store, chain) (store', chain').
Proof.
  intros Hinv Hst Hnd Hnd' Hact. unfold ack_commit. cbv zeta.
  set (lst := allAcknowledged next stage && bool_decide (stage = AckPrepared)).
  assert (∃ store0, (if lst then set_drainStarted store now else store) = store0 ∧
    rtc (tstep now) (store, chain) (store0, chain) ∧ disk_inv store0 chain ∧
    state store0 = Some st ∧ (lst = true → drainStarted store0 = now))
    as (store0 & -> & Hs0 & Hinv0 & Hst0 & Hds).
  { destruct lst; eexists; (split; [done|]).
    - split_and!; [by apply rtc_once, tstep_note|by apply disk_inv_note|done|done].
    - split_and!; [done..|done]. }
  set (nx := if lst then make_draining next (Unix (now + DrainDuration)) else next).
  assert (Phase nx = PhaseDraining → lst = true) as Hnx by (unfold nx; by destruct lst).
  destruct (commitLocked f store0 nx) as [store1 e1] eqn:Hc1.
  destruct (commit_step now _ _ _ _ _ _ Hinv0 Hc1) as [chain1 Hs1]; [by auto| |].
  { intros st' Hst' HP. congruence. }
  assert (rtc (tstep now) (store, chain) (store1, chain1)) as Hs by by etrans.
  destruct e1 as [e1|]; [intros [= <- <-]; eauto|].
  unfold on_state. destruct (state store1) as [st1|] eqn:Hst1; [|intros [= <- <-]; eauto].
  destruct (bool_decide (stage = AckActive) && allAcknowledged st1 AckActive) eqn:Hlast;
    [|intros [= <- <-]; eauto].
  intros Hc2. assert (disk_inv store1 chain1) as Hinv1.
  { apply rtc_inv_r in Hs1 as [[= <- <-]|(b & _ & Hs1)]; [done|]. by apply tstep_disk_inv in Hs1. }
  assert (Phase st1 ≠ PhaseDraining) as Hnd1.
  { split_bools. destruct (commitLocked_spec _ _ _ _ _ _ Hinv0 Hc1) as [chain1' Hr].
    inversion Hr as [| |? ? ? ? ? ? ? Hst1']; subst. rewrite Hst1 in Hst1'. simplify_eq.
    unfold nx, lst. rewrite (bool_decide_false (AckActive = AckPrepared)) by done.
    rewrite andb_false_r. cbn. by rewrite Hact. }
  destruct (commit_step now _ _ _ _ _ _ Hinv1 Hc2) as [chain2 Hs2]; [done| |].
  { intros st' Hst' HP. congruence. }
  exists chain2. by etrans.
Qed.

Lemma exec_steps store chain o store' e :
  disk_inv store chain → exec store o = (store', e) →
  ∃ chain', rtc (tstep (op_time o)) (store, chain) (store', chain').
Proof.
  intros Hinv. assert (∃ st, state store = Some st) as [st Hst]
    by (destruct Hinv as (_ & _ & ? & st & ? & _); eauto).
  destruct o as [f rev act pend pt ct now|f rev pend now|f f2 rev replica g stage now|f now];
    cbn [exec op_time]; unfold Publish, Abort_, Acknowledge, Advance, on_state; rewrite Hst.
  - guard H1; [intros [= <- <-]; eauto using rtc_refl|].
    guard H2; [intros [= <- <-]; eauto using rtc_refl|]. split_bools.
    intros Hc. eapply commit_step; [done|done|done|by eapply not_draining].
  - guard H1; [intros [= <- <-]; eauto using rtc_refl|]. split_bools.
    intros Hc. eapply commit_step; [done|done|done|by eapply not_draining].
  - guard H1; [intros [= <- <-]; eauto using rtc_refl|].
    pose proof (ack_guard_steps f store chain st replica g stage now _ Hinv Hst eq_refl) as Hg.
    destruct (ack_guard _ _ _ _ _ _ _) as [ [s1 e1] |]; [intros [= <- <-]; done|].
    destruct Hg as (Hnd & _ & Hact). cbv zeta.
    destruct (restage _ _ _ _) as [ [ [] |acks] |]; [intros [= <- <-]; eauto using rtc_refl|..];
      intros Hc; refine (ack_commit_steps _ _ _ _ st _ _ _ _ _ Hinv Hst Hnd _ _ Hc); done.
  - guard H1; [intros [= <- <-]; eauto using rtc_refl|].
    destruct (bool_decide (Phase st = PhasePreparing)) eqn:E1.
    { guard H2; [intros [= <- <-]; eauto using rtc_refl|]. split_bools.
      intros Hc. eapply commit_step; [done|done|done|by eapply not_draining]. }
    destruct (bool_decide (Phase st = PhaseDraining)) eqn:E2.
    + cbv zeta. assert (∃ store0,
        (if IsZero (drainStarted store) then set_drainStarted store now else store) = store0 ∧
        rtc (tstep now) (store, chain) (store0, chain) ∧ disk_inv store0 chain ∧
        state store0 = Some st) as (store0 & -> & Hs0 & Hinv0 & Hst0).
      { destruct (IsZero _); eexists; (split; [done|]).
        - split_and!; [by apply rtc_once, tstep_note|by apply disk_inv_note|done].
        - by split_and!. }
      guard H2; [intros [= <- <-]; eauto|].
      destruct (Pending st) as [pending|]; [|intros [= <- <-]; eauto]. intros Hc.
      destruct (commit_step now _ _ _ _ _ _ Hinv0 Hc) as [chain' Hs]; [done| |].
      { intros _ _ _. apply orb_false_iff in H2 as [_ H2]. apply Z.ltb_ge in H2.
        unfold Sub, DrainDuration, second, min_int64, max_int64 in *. lia. }
      exists chain'. by etrans.
    + destruct (bool_decide (Phase st = PhaseCommitting)) eqn:E3;
        [|intros [= <- <-]; eauto using rtc_refl].
      destruct (allAcknowledged st AckActive); [|intros [= <- <-]; eauto using rtc_refl].
      split_bools. intros Hc. eapply commit_step; [done|done|done|by eapply not_draining].
Qed.

Lemma tsteps_disk_inv now a b : rtc (tstep now) a b → disk_inv a.1 a.2 → disk_inv b.1 b.2.
Proof.
  intros Hs Ha. apply rtc_inv_r in Hs as [<-|(c & _ & Hs)]; [done|]. by apply tstep_disk_inv in Hs.
Qed.

(** ** Lemmas: loading *)

Lemma parse_sound name r : parseStateFileName name = Some r → name = stateFileName r ∧ u64 r.
Proof.
  unfold parseStateFileName. guard Hg. split_bools.
  destruct (ParseUint _) as [v|] eqn:Hp; [|done]. destruct (_ && _) eqn:Hv; [|done].
  intros [= ->]. split_bools. split.
  - apply bytes_of_inj. unfold stateFileName. rewrite !bytes_of_app.
    match goal with
    | H6 : take 6 _ = _, H26 : drop 26 _ = _, Hd : bytes_of (pad_dec 20 r) = _ |- _ =>
        rewrite <- H6, <- H26, Hd
    end.
    rewrite <- (take_drop 6 (bytes_of name)) at 1. f_equal.
    rewrite <- (take_drop 20 (drop 6 (bytes_of name))) at 1. f_equal. by rewrite drop_drop.
  - unfold ParseUint in Hp. destruct (bool_decide _); [done|].
    destruct (parse_digits _ 0) as [v|]; [|done]. destruct (v <? 2 ^ 64) eqn:Hlt; [|done].
    injection Hp as ->. split_bools. done.
Qed.

Definition loaded (l : list (string * bytes)) : result error (gmap Z bytes) :=
  fold_left load_entry l (Ok ∅).

Lemma loaded_snoc l e : loaded (l ++ [e]) = load_entry (loaded l) e.
Proof. unfold loaded. by rewrite fold_left_app. Qed.

(** Every record found comes from the file of its revision. *)
Lemma loaded_sound l m r p :
  loaded l = Ok m → m !! r = Some p → u64 r ∧ (stateFileName r, p) ∈ l.
Proof.
  revert m. induction l as [|[name q] l IH] using rev_ind; intros m; [by intros [= <-]|].
  rewrite loaded_snoc. destruct (loaded l) as [m'|]; [|done]. cbn.
  destruct (skipped name).
  { intros [= <-] Hr. destruct (IH _ eq_refl Hr). split; [done|]. apply elem_of_app. by left. }
  destruct (parseStateFileName name) as [r'|] eqn:Hp; [|done]. intros [= <-] Hr.
  apply lookup_insert_Some in Hr as [[<- <-]|[_ Hr]].
  - apply parse_sound in Hp as [-> ?]. split; [done|]. set_solver.
  - destruct (IH _ eq_refl Hr). split; [done|]. apply elem_of_app. by left.
Qed.

(** Every record in the directory is found, if nothing else is there. *)
Lemma loaded_complete l :
  NoDup l.*1 →
  (∀ name p, (name, p) ∈ l → skipped name = true ∨ ∃ r, u64 r ∧ name = stateFileName r) →
  ∃ m, loaded l = Ok m ∧ ∀ r p, u64 r → (stateFileName r, p) ∈ l → m !! r = Some p.
Proof.
  induction l as [|[name q] l IH] using rev_ind; intros Hnd Hall.
  { exists ∅. split; [done|]. intros r p _ H. by apply elem_of_nil in H. }
  rewrite fmap_app in Hnd. apply NoDup_app in Hnd as (Hnd & Hnew & _).
  destruct IH as (m & Hm & Hin); [done| |].
  { intros n p Hp. apply (Hall n p). apply elem_of_app. by left. }
  rewrite loaded_snoc, Hm. unfold load_entry. cbn [fst snd].
  assert (∀ r p, (stateFileName r, p) ∈ l ++ [(name, q)] →
    (stateFileName r, p) ∈ l ∨ name = stateFileName r ∧ p = q) as Hcase.
  { intros r p [?|[= <- <-]%list_elem_of_singleton]%elem_of_app; auto. }
  destruct (Hall name q) as [Hs|(r & Hr & ->)]; [set_solver| |].
  - rewrite Hs. exists m. split; [done|]. intros r p Hr [Hp|[-> _]]%Hcase; [by apply Hin|].
    by rewrite record_not_skipped in Hs.
  - rewrite record_not_skipped, parse_stateFileName by done.
    eexists. split; [done|]. intros r' p Hr' [Hp|[Heq ->]]%Hcase.
    + rewrite lookup_insert_ne; [by apply Hin|]. intros <-.
      apply (Hnew (stateFileName r)); [|set_solver]. by apply (list_elem_of_fmap_2 fst) in Hp.
    + apply stateFileName_inj in Heq as ->; [|done..]. apply lookup_insert_eq.
Qed.

Section load_lemmas.
Context (json_Decode : bytes → option State).
#[local] Abbreviation decodeState := (decodeCanonicalState json_Decode).
#[local] Abbreviation loadChain := (load_chain json_Decode).

Lemma decode_sound payload k st :
  decodeState payload k = Some st →
  payload = record_payload st ∧ validateState st = true ∧ signed k st ∧
  json_Decode payload = Some st.
Proof.
  unfold decodeCanonicalState. destruct (json_Decode payload) as [st'|]; [|done].
  guard H1. guard H2. destruct (DecodeString _) as [mac|] eqn:Hmac; [|done]. guard H3.
  destruct (bool_decide (mac = _)) eqn:H4; [|done]. intros [= <-]. split_bools.
  split_and!; [done|done| |done]. unfold signed. congruence.
Qed.

Lemma decode_complete k st :
  json_Decode (record_payload st) = Some st → validateState st = true → signed k st →
  decodeState (record_payload st) k = Some st.
Proof.
  intros Hj Hv Hs. unfold decodeCanonicalState. rewrite Hj, Hv, bool_decide_true by done. cbn [negb].
  rewrite Hs, DecodeString_EncodeToString, (hmac_sha256_length k (marshal_unsigned st)).
  rewrite (bool_decide_true (EncodeToString _ = _)) by done. cbn.
  by rewrite bool_decide_true by done.
Qed.

Lemma load_chain_sound k m n pre o :
  (∀ r p, m !! r = Some p → u64 r) → chain_ok k pre →
  loadChain k m n (Z.of_nat (length pre) + 1) (last pre) = Ok o →
  ∃ suf, chain_ok k (pre ++ suf) ∧ o = last (pre ++ suf) ∧ length suf = n ∧
    ∀ j st, suf !! j = Some st →
      m !! (Z.of_nat (length pre + j) + 1) = Some (record_payload st) ∧
      json_Decode (record_payload st) = Some st.
Proof.
  intros Hm. revert pre. induction n as [|n IH]; intros pre Hpre; cbn [load_chain].
  { intros [= <-]. exists []. by rewrite app_nil_r. }
  destruct (m !! _) as [p|] eqn:Hp; [|done]. guard Hsz.
  destruct (decodeState p k) as [st|] eqn:Hd; [|done].
  apply decode_sound in Hd as (-> & Hv & Hsig & Hdec). guard Hr. guard Hprev. intros Hload.
  apply negb_false_iff, Z.eqb_eq in Hr.
  destruct (IH (pre ++ [st])) as (suf & Hok & Ho & Hlen & Hfiles).
  - apply chain_ok_snoc; [done|].
    split_and!; [done|done|done|rewrite Hr; by eapply Hm|].
    destruct (last pre); split_bools; done.
  - rewrite last_snoc, length_app. cbn.
    replace (Z.of_nat (length pre + 1) + 1) with (Z.of_nat (length pre) + 1 + 1) by lia. done.
  - exists (st :: suf). rewrite <- app_assoc in Hok, Ho. cbn in Hok, Ho.
    split_and!; [done|done|cbn; lia|]. intros [|j] st' Hj.
    + injection Hj as <-. by rewrite Nat.add_0_r.
    + specialize (Hfiles j st' Hj). rewrite length_app in Hfiles. cbn in Hfiles.
      replace (length pre + S j)%nat with (length pre + 1 + j)%nat by lia. done.
Qed.

Lemma load_chain_complete k m pre suf :
  chain_ok k (pre ++ suf) →
  (∀ j st, suf !! j = Some st →
     m !! (Z.of_nat (length pre + j) + 1) = Some (record_payload st) ∧
     json_Decode (record_payload st) = Some st ∧ blen (record_payload st) ≤ maximumStateBytes) →
  loadChain k m (length suf) (Z.of_nat (length pre) + 1) (last pre) = Ok (last (pre ++ suf)).
Proof.
  revert pre. induction suf as [|st suf IH]; intros pre Hok Hfiles; cbn [load_chain length].
  { by rewrite app_nil_r. }
  destruct (Hfiles 0%nat st eq_refl) as (Hm & Hj & Hsz). rewrite Nat.add_0_r in Hm. rewrite Hm.
  assert (1 ≤ blen (record_payload st)) as Hpos.
  { unfold record_payload. rewrite blen_app. pose proof (blen_nonneg (marshal_state st)).
    change (blen [newline]) with 1. lia. }
  rewrite (proj2 (Z.ltb_ge (blen _) 1)), (proj2 (Z.ltb_ge maximumStateBytes _)) by done. cbn [orb].
  destruct (Hok (length pre) st) as (Hsig & Hv & Hr & Hu & Hprev);
    [by rewrite list_lookup_middle|].
  rewrite decode_complete by done. rewrite Hr, Z.eqb_refl. cbn [negb].
  assert (match last pre with
          | None => negb (bool_decide (PreviousRecordSHA256 st = zeroDigest))
                    || negb (bool_decide (Phase st = PhaseStable))
          | Some previous => negb (validateTransition previous st (record_digest previous))
          end = false) as ->.
  { rewrite last_lookup. destruct (length pre) as [|n] eqn:Hl; cbn.
    - assert (pre = []) as -> by (by destruct pre). cbn in Hprev. destruct Hprev as [-> ->].
      by rewrite !bool_decide_true by done.
    - assert (is_Some (pre !! n)) as [p Hp] by (apply lookup_lt_is_Some; lia).
      rewrite (lookup_app_l_Some _ _ _ _ Hp) in Hprev. by rewrite Hp, Hprev. }
  specialize (IH (pre ++ [st])). rewrite <- app_assoc in IH. cbn in IH. rewrite <- IH; [|done|].
  - rewrite last_snoc, length_app. cbn.
    by replace (Z.of_nat (length pre + 1) + 1) with (Z.of_nat (length pre) + 1 + 1) by lia.
  - intros j st' Hj'. destruct (Hfiles (S j) st' Hj') as (H1 & H2 & H3). split_and!; [|done..].
    rewrite length_app. cbn. by replace (length pre + 1 + j)%nat with (length pre + S j)%nat by lia.
Qed.

Lemma dir_records_size chain d m :
  (∀ i st, chain !! i = Some st → u64 (Z.of_nat i + 1)) →
  dir_ok chain d → loaded (map_to_list d) = Ok m →
  (∀ r p, u64 r → (stateFileName r, p) ∈ map_to_list d → m !! r = Some p) →
  m = list_to_map (zip (seqZ 1 (Z.of_nat (length chain))) (record_payload <$> chain)).
Proof.
  intros Hu [Hd1 Hd2] Hm Hc.
  set (l := zip (seqZ 1 (Z.of_nat (length chain))) (record_payload <$> chain)).
  assert (NoDup l.*1) as Hnd.
  { unfold l. rewrite fst_zip; [apply NoDup_seqZ|]. rewrite length_seqZ, length_fmap. lia. }
  assert (∀ r p, (r, p) ∈ l ↔ ∃ i st, chain !! i = Some st ∧ r = Z.of_nat i + 1 ∧
    p = record_payload st) as Hl.
  { intros r p. unfold l. rewrite list_elem_of_lookup. setoid_rewrite lookup_zip_Some.
    setoid_rewrite lookup_seqZ. setoid_rewrite list_lookup_fmap_Some. split.
    - intros (i & [-> _] & st & -> & Hi). exists i, st. split_and!; [done|lia|done].
    - intros (i & st & Hi & -> & ->). exists i. apply lookup_lt_Some in Hi as Hlt.
      split_and!; [lia|lia|eauto]. }
  apply map_eq. intros r. apply option_eq. intros p.
  rewrite <- (elem_of_list_to_map l r p Hnd), Hl. split.
  - intros Hr. destruct (loaded_sound _ _ _ _ Hm Hr) as [Hur Hin].
    apply elem_of_map_to_list in Hin. destruct (Hd1 _ _ Hin) as [Hs|(i & st & Hi & Hn & ->)].
    + by rewrite record_not_skipped in Hs.
    + apply stateFileName_inj in Hn; [|done|by eapply Hu]. eauto.
  - intros (i & st & Hi & -> & ->). apply Hc; [by eapply Hu|].
    apply elem_of_map_to_list. by apply Hd2.
Qed.

(** The records found in a well-formed directory. *)
Lemma loaded_records k chain d :
  dir_ok chain d → chain_ok k chain →
  ∃ m, loaded (map_to_list d) = Ok m ∧ size m = length chain ∧
    ∀ i st, chain !! i = Some st → m !! (Z.of_nat i + 1) = Some (record_payload st).
Proof.
  intros Hdir Hok. assert (∀ i s, chain !! i = Some s → u64 (Z.of_nat i + 1)) as Hu.
  { intros i s Hi. destruct (Hok i s Hi) as (_ & _ & <- & ? & _). done. }
  destruct (loaded_complete (map_to_list d)) as (m & Hm & Hin).
  { apply NoDup_fst_map_to_list. }
  { intros n p Hp%elem_of_map_to_list. destruct Hdir as [Hd _].
    destruct (Hd n p Hp) as [?|(i & s & Hi & -> & _)]; [by left|]. right. eauto. }
  exists m. split; [done|]. split.
  - rewrite (dir_records_size chain _ m Hu Hdir Hm Hin), map_size_list_to_map.
    + rewrite length_zip_with, length_seqZ, length_fmap. lia.
    + rewrite fst_zip; [apply NoDup_seqZ|]. rewrite length_seqZ, length_fmap. lia.
  - intros i st Hi. apply Hin; [by eapply Hu|]. apply elem_of_map_to_list. by apply Hdir.
Qed.

(** Removing the temporary files keeps the records. *)
Lemma dir_ok_filter chain d :
  dir_ok chain d →
  dir_ok chain (filter (λ e, negb (skipped e.1) || bool_decide (e.1 = currentName) = true) d).
Proof.
  intros [H1 H2]. split.
  - intros n p [Hp _]%map_lookup_filter_Some. eauto.
  - intros i s Hi. apply map_lookup_filter_Some. split; [by apply H2|]. cbn.
    by rewrite record_not_skipped.
Qed.

(** Loading trusts nothing but the key. Whatever the directory contains, if
    [OpenStore] succeeds, the state it loads is the last record of a chain that
    starts with a stable state, in which every record carries a valid HMAC under
    the key, passes [validateState], has the next revision, names the digest of the
    record before it and follows it by a valid transition, and every record of the
    chain is in the directory under its revision. *)
Theorem OpenStore_sound f k d now store :
  OpenStore json_Decode f k d now = Ok store →
  ∃ chain st, chain_ok k chain ∧ last chain = Some st ∧ state store = Some st ∧
    digest store = record_digest st ∧ key store = k ∧
    ∀ i s, chain !! i = Some s → d !! stateFileName (Z.of_nat i + 1) = Some (record_payload s).
Proof.
  unfold OpenStore. guard Hk. change (fold_left load_entry _ _) with (loaded (map_to_list d)).
  destruct (loaded (map_to_list d)) as [m|] eqn:Hm; [|done]. guard Hn.
  destruct (load_chain _ _ _ _ _ _) as [o|] eqn:Hload; [|done].
  destruct (load_chain_sound k m (size m) [] o) as (chain & Hok & Ho & Hlen & Hfiles);
    [intros r p Hr; by apply (loaded_sound _ _ _ _ Hm Hr)|done|exact Hload|].
  destruct o as [st|]; [|done]. cbn in Hok, Ho, Hfiles. symmetry in Ho.
  assert (∀ i s, chain !! i = Some s →
    d !! stateFileName (Z.of_nat i + 1) = Some (record_payload s)) as Hdir.
  { intros i s Hi. destruct (Hfiles i s Hi) as [Hfile _]. clear Hfiles. rename Hfile into Hfiles.
    destruct (loaded_sound _ _ _ _ Hm Hfiles) as [_ Hin]. by apply elem_of_map_to_list in Hin. }
  guard Hcur; [intros [= <-]; exists chain, st; split_and!; done|].
  match goal with |- match writeCurrentLocked f ?s with _ => _ end = _ → _ => set (s1 := s) end.
  pose proof (writeCurrent_frame f s1) as (F1 & F2 & F3 & F4 & _).
  destruct (writeCurrentLocked f s1) as [s2 [e|] ]; [done|]. cbn in *. intros [= <-].
  exists chain, st. split_and!; done.
Qed.

(** The decoder reads back the records of a directory: the valid states, signed with the
    key, whose text is in the file of a revision. *)
Definition reads_back (k : bytes) (d : gmap string bytes) : Prop :=
  ∀ r st, d !! stateFileName r = Some (record_payload st) → signed k st →
    validateState st = true → json_Decode (record_payload st) = Some st.

Lemma OpenStore_same f store chain now store' :
  disk_inv store chain → reads_back (key store) (dir store) →
  OpenStore json_Decode f (key store) (dir store) now = Ok store' →
  ∃ st, last chain = Some st ∧ state store' = Some st ∧ disk_inv store' chain ∧
    key store' = key store ∧ (Phase st = PhaseDraining → drainStarted store' = now).
Proof.
  intros Hinv Hback. pose proof Hinv as (Hdir & Hok & _).
  destruct (loaded_records _ _ _ Hdir Hok) as (m & Hm & Hsize & Hin).
  unfold OpenStore. guard Hk.
  change (fold_left load_entry _ _) with (loaded (map_to_list (dir store))). rewrite Hm. guard Hn.
  destruct (load_chain _ _ _ _ _ _) as [o|] eqn:Hload; [|done].
  destruct (load_chain_sound (key store) m (size m) [] o) as (chain2 & Hok2 & Ho & Hlen & Hfiles);
    [intros r p Hr; by apply (loaded_sound _ _ _ _ Hm Hr)|done|exact Hload|].
  assert (chain2 = chain) as ->.
  { apply list_eq_same_length with (length chain); [congruence|congruence|].
    intros i x y _ Hx Hy. destruct (Hfiles i x Hx) as [Hx1 Hx2]. cbn [length Nat.add] in Hx1.
    pose proof (proj2 Hdir i y Hy) as Hy1. rewrite (Hin _ _ Hy) in Hx1.
    apply (inj Some) in Hx1 as Hxy. destruct (Hok i y Hy) as (Hys & Hyv & _).
    specialize (Hback _ _ Hy1 Hys Hyv). rewrite Hxy, Hx2 in Hback. by injection Hback. }
  destruct o as [st|]; [|done]. cbn in Hok2, Ho. symmetry in Ho.
  set (d' := filter _ _). set (s0 := Build_Store _ _ _ _ d').
  assert (dir_ok chain d') as Hd' by by apply dir_ok_filter.
  assert (disk_inv s0 chain) as Hinv0.
  { split; [done|]. split; [done|].
    apply last_Some in Ho as [pre ->]. exists pre, st. split_and!; [done..|by left]. }
  assert (Phase st = PhaseDraining → drainStarted s0 = now) as Hds
    by (intros HP; cbn; by rewrite bool_decide_true).
  guard Hcur; [intros [= <-]; exists st; by split_and!|].
  pose proof (writeCurrent_frame f s0) as (F1 & F2 & F3 & F4 & F5).
  destruct (writeCurrentLocked f s0) as [s2 [e|] ]; [done|]. cbn in *. intros [= <-].
  exists st. split_and!; try done; [|by rewrite F4].
  destruct Hinv0 as (_ & ? & pre & st' & E1 & E2 & E3). cbn in E1, E2.
  split; [by apply F5|]. rewrite F1. split; [done|]. exists pre, st'. by rewrite F2, F3.
Qed.

Lemma OpenStore_opens f store chain now :
  disk_inv store chain → 32 ≤ blen (key store) ≤ 128 →
  (∀ st, st ∈ chain → json_Decode (record_payload st) = Some st ∧
                      blen (record_payload st) ≤ maximumStateBytes) →
  current_temp_fails f = false → rename_fails f = false → current_sync_fails f = false →
  ∃ store' st, OpenStore json_Decode f (key store) (dir store) now = Ok store' ∧
    last chain = Some st ∧ state store' = Some st ∧ disk_inv store' chain ∧
    key store' = key store ∧ (Phase st = PhaseDraining → drainStarted store' = now).
Proof.
  intros Hinv Hk Hjson Hf1 Hf2 Hf3. pose proof Hinv as (Hdir & Hok & pre & st & Hst & Hdig & Hcase).
  destruct (loaded_records _ _ _ Hdir Hok) as (m & Hm & Hsize & Hin).
  assert (∃ top, last chain = Some top ∧ ∃ pre', chain = pre' ++ [top]) as (top & Htop & pre' & Hpre').
  { destruct Hcase as [->|[a ->]]; [exists st; split; [apply last_snoc|eauto]|].
    exists a. replace (pre ++ [st; a]) with ((pre ++ [st]) ++ [a]) by by rewrite <- app_assoc.
    split; [apply last_snoc|eauto]. }
  unfold OpenStore. rewrite (proj2 (Z.ltb_ge _ _)), (proj2 (Z.ltb_ge 128 _)) by lia. cbn [orb].
  change (fold_left load_entry _ _) with (loaded (map_to_list (dir store))). rewrite Hm, Hsize.
  destruct (Nat.eqb (length chain) 0) eqn:E0.
  { apply Nat.eqb_eq in E0. destruct chain; [done|done]. }
  assert (loadChain (key store) m (length chain) 1 None = Ok (last chain)) as Hload.
  { apply (load_chain_complete (key store) m [] chain Hok). intros j s Hj. destruct (Hjson s) as [H1 H2]; [by eapply list_elem_of_lookup_2|].
      split_and!; [|done..]. by apply Hin. }
  rewrite Hload, Htop.
  set (d' := filter _ _). set (s0 := Build_Store _ _ _ _ d').
  assert (dir_ok chain d') as Hd' by by apply dir_ok_filter.
  assert (disk_inv s0 chain) as Hinv0.
  { split; [done|]. split; [done|]. exists pre', top. split_and!; [done..|by left]. }
  assert (Phase top = PhaseDraining → drainStarted s0 = now) as Hds
    by (intros HP; cbn; by rewrite bool_decide_true).
  match goal with |- context [if ?b then Ok s0 else _] => destruct b end;
    [exists s0, top; by split_and!|].
  pose proof (writeCurrent_frame f s0) as (F1 & F2 & F3 & F4 & F5).
  unfold writeCurrentLocked in *. rewrite Hf1, Hf2, Hf3 in *. eexists _, top.
  split; [done|]. split_and!; try done. destruct Hinv0 as (_ & ? & ?). split; [|done].
  by apply F5.
Qed.

(** C28: a restart loses nothing. Whatever file operations failed on the way, opening
    the directory of a running store again succeeds and yields the last record that
    reached the directory, which is the state of the store, or the one record a
    commit had linked when it was interrupted; an unfinished drain starts over. *)
Theorem OpenStore_recovers f store chain now :
  disk_inv store chain → 32 ≤ blen (key store) ≤ 128 →
  (∀ st, st ∈ chain → json_Decode (record_payload st) = Some st ∧
                      blen (record_payload st) ≤ maximumStateBytes) →
  current_temp_fails f = false → rename_fails f = false → current_sync_fails f = false →
  ∃ store' st, OpenStore json_Decode f (key store) (dir store) now = Ok store' ∧
    last chain = Some st ∧ state store' = Some st ∧ disk_inv store' chain ∧
    key store' = key store ∧ (Phase st = PhaseDraining → drainStarted store' = now).
Proof. apply OpenStore_opens. Qed.
End load_lemmas.

(** ** Reachable stores *)

Inductive reach : Store → Prop :=
| reach_init f k initial replicas now store :
    InitializeStore f k initial replicas now = Ok store → reach store
| reach_exec store o store' e : reach store → exec store o = (store', e) → reach store'.

Lemma InitializeStore_inv f k initial replicas now store :
  InitializeStore f k initial replicas now = Ok store →
  ∃ st, disk_inv store [st] ∧ Phase st = PhaseStable ∧ Active st = initial ∧ key store = k ∧
        32 ≤ blen k ≤ 128.
Proof.
  unfold InitializeStore. guard Hg. set (empty := Build_Store _ _ _ _ _). set (first := Build_State _ _ _ _ _ _ _ _ _ _ _ _ _).
  assert (32 ≤ blen k ≤ 128) as Hk by (split_bools; lia).
  destruct (commitLocked f empty first) as [s1 [e|] ] eqn:Hc; [done|]. intros [= <-].
  revert Hc. unfold commitLocked. cbn [state empty]. guard Hv. apply negb_false_iff in Hv.
  set (rec := sign (key empty) first). guard Htemp. guard Hfp. guard Hlink. guard Hrm. guard Hsync.
  guard Hfp2. set (s2 := Build_Store _ _ _ _ _).
  assert (dir_ok [rec] (dir s2)) as Hd.
  { apply dir_ok_delete; [apply temp_skipped|].
    apply (dir_ok_snoc [] _ rec).
    - cbn. rewrite lookup_insert_ne; [done|]. intros Heq.
      pose proof (temp_skipped 1) as Hs. change (Revision rec) with 1 in Heq. rewrite Heq in Hs.
      by rewrite record_not_skipped in Hs.
    - apply dir_ok_skipped; [apply temp_skipped|]. split; [|done].
      intros n p Hn. cbn [dir empty] in Hn. by rewrite lookup_empty in Hn. }
  assert (chain_ok k [rec]) as Hok.
  { intros [|i] st Hi; [|done]. cbn in Hi. injection Hi as <-.
    split_and!; try done. by apply validateState_sign. }
  pose proof (writeCurrent_frame f s2) as (F1 & F2 & F3 & F4 & F5).
  destruct (writeCurrentLocked f s2) as [s3 e3]. cbn in *. intros [= -> ->].
  exists rec. split_and!; [|done|done|by rewrite F1|lia|lia]. split; [by apply F5|]. rewrite F1. split; [done|].
  exists [], rec. split_and!; [done..|by left].
Qed.

Lemma reach_disk_inv store : reach store → ∃ chain, disk_inv store chain.
Proof.
  induction 1 as [f k initial replicas now store Hi|store o store' e _ [chain IH] Ho].
  - apply InitializeStore_inv in Hi as (st & ? & _). eauto.
  - destruct (exec_steps _ _ _ _ _ IH Ho) as [chain' Hs]. exists chain'.
    by apply tsteps_disk_inv in Hs.
Qed.

(** *** What consecutive records say *)

Lemma acknowledged_by_all replicas acks stage r :
  length acks = length replicas → acknowledged_by replicas acks stage = true → r ∈ replicas →
  ∃ ack, ack ∈ acks ∧ ReplicaID ack = r_ID r ∧ Role ack = r_Role r ∧ Stage ack = stage.
Proof.
  revert acks. induction replicas as [|r' replicas IH]; intros [|a acks] Hlen; cbn;
    [by intros _ ?%elem_of_nil|done|done|].
  guard H. intros Hrest [->|Hr]%elem_of_cons.
  - split_bools. exists a. split; [by left|done].
  - destruct (IH acks) as (a' & ? & ?); [by injection Hlen|done|done|].
    exists a'. split; [by right|done].
Qed.

Lemma allAcknowledged_all st stage r :
  allAcknowledged st stage = true → r ∈ RequiredReplicas st →
  ∃ ack, ack ∈ Acknowledgements st ∧ ReplicaID ack = r_ID r ∧ Role ack = r_Role r ∧
         Stage ack = stage.
Proof.
  unfold allAcknowledged. guard H. apply negb_false_iff, Nat.eqb_eq in H.
  by apply acknowledged_by_all.
Qed.

Lemma valid_phase_of st : validateState st = true → valid_phase st = true.
Proof. unfold validateState. guard H1. guard H2. guard H3. guard H4. done. Qed.

Lemma valid_draining st :
  validateState st = true → Phase st = PhaseDraining →
  allAcknowledged st AckPrepared = true ∧
  ∃ g, Pending st = Some g ∧ Sequence g = wrap_u32 (Sequence (Active st) + 1).
Proof.
  intros Hv%valid_phase_of HP. unfold valid_phase in Hv. rewrite HP in Hv. cbn in Hv.
  apply negb_true_iff in Hv. split_bools. split; [done|]. unfold validPending in *.
  destruct (Pending st) as [g|]; [|done]. split_bools. eauto.
Qed.

Lemma valid_committing st :
  validateState st = true → Phase st = PhaseCommitting →
  (∀ ack, ack ∈ Acknowledgements st → ackMatches ack (Active st) = true) ∧
  UpdatedAt st < CommitDeadline st.
Proof.
  intros Hv%valid_phase_of HP. unfold valid_phase in Hv. rewrite HP in Hv.
  rewrite !(bool_decide_false (PhaseCommitting = _)), bool_decide_true in Hv by done.
  destruct (Pending st); [|done]. revert Hv. guard H. intros Hall. rewrite forallb_forall in Hall.
  split_bools. split; [|lia]. intros ack Hin. apply Hall. by apply list_elem_of_In.
Qed.

(** The active generation changes only when draining ends. *)
Lemma transition_active prior next d :
  validateTransition prior next d = true → Phase prior ≠ PhaseDraining →
  Active next = Active prior.
Proof.
  unfold validateTransition. guard Hm. intros Ht Hnd.
  destruct (bool_decide (Phase prior = PhaseStable)).
  { destruct (Pending next); [|done]. split_bools. by apply sameGeneration_eq. }
  destruct (bool_decide (Phase prior = PhasePreparing)).
  { destruct (sameGeneration _ _) eqn:E; [|done]. by apply sameGeneration_eq. }
  rewrite bool_decide_false in Ht by done.
  destruct (bool_decide (Phase prior = PhaseCommitting)); [|done].
  destruct (bool_decide (Phase next = PhaseStable)).
  - destruct (sameGeneration _ _) eqn:E; [|done]. by apply sameGeneration_eq.
  - split_bools. by apply sameGeneration_eq.
Qed.

Lemma transition_flip prior next d :
  validateTransition prior next d = true → Phase prior = PhaseDraining →
  Phase next = PhaseCommitting ∧ Pending prior = Some (Active next) ∧
  Acknowledgements next = Acknowledgements prior.
Proof.
  unfold validateTransition. guard Hm. intros Ht HP. rewrite HP in Ht.
  rewrite !(bool_decide_false (PhaseDraining = _)), (bool_decide_true (PhaseDraining = _)) in Ht
    by done.
  unfold ackListsEqual in Ht. apply andb_true_iff in Ht as [Ht Hacks].
  apply andb_true_iff in Ht as [Ht Hact]. apply andb_true_iff in Ht as [Hph Hpend].
  apply same_pending_eq in Hpend as (g & -> & Eg). apply same_pending_eq in Hact as (g' & Ea & Eg').
  split_bools. split_and!; [done|congruence|done].
Qed.

Lemma transition_converged prior next d :
  validateTransition prior next d = true → Phase prior = PhaseCommitting →
  Phase next = PhaseStable → allAcknowledged prior AckActive = true.
Proof.
  unfold validateTransition. guard Hm. intros Ht HP HN. rewrite HP, HN in Ht.
  rewrite !(bool_decide_false (PhaseCommitting = _)), !bool_decide_true in Ht by done.
  revert Ht. by guard H.
Qed.

(** Record [b] follows record [a]. *)
Definition follows (a b : State) : Prop :=
  Revision b = Revision a + 1 ∧ PreviousRecordSHA256 b = record_digest a ∧
  UpdatedAt a ≤ UpdatedAt b ∧ RequiredReplicas b = RequiredReplicas a ∧
  (Active b = Active a ∨
   Phase a = PhaseDraining ∧ Phase b = PhaseCommitting ∧ Pending a = Some (Active b) ∧
   Sequence (Active b) = wrap_u32 (Sequence (Active a) + 1) ∧
   ∀ r, r ∈ RequiredReplicas a → ∃ ack, ack ∈ Acknowledgements a ∧ ReplicaID ack = r_ID r ∧
     Role ack = r_Role r ∧ Stage ack = AckPrepared ∧ ackMatches ack (Active b) = true) ∧
  (Phase a = PhaseCommitting → Phase b = PhaseStable →
   ∀ r, r ∈ RequiredReplicas a → ∃ ack, ack ∈ Acknowledgements a ∧ ReplicaID ack = r_ID r ∧
     Role ack = r_Role r ∧ Stage ack = AckActive ∧ ackMatches ack (Active a) = true).

Lemma transition_follows a b d :
  validateTransition a b d = true → d = record_digest a → Revision b = Revision a + 1 →
  validateState a = true → validateState b = true → follows a b.
Proof.
  intros Ht -> Hrev Hva Hvb. pose proof (validateTransition_meta _ _ _ Ht) as (_ & Hprev & Hup & Hreq).
  split_and!; try done.
  - destruct (decide (Phase a = PhaseDraining)) as [HP|HP]; [right|left; by eapply transition_active].
    destruct (transition_flip _ _ _ Ht HP) as (HP' & Hpend & Hacks).
    destruct (valid_draining a Hva HP) as (Hall & g & Hg & Hseq). rewrite Hpend in Hg.
    injection Hg as <-. split_and!; try done. intros r Hr.
    destruct (allAcknowledged_all _ _ _ Hall Hr) as (ack & Hin & ? & ? & ?).
    exists ack. split_and!; try done. apply (valid_committing b Hvb HP'). by rewrite Hacks.
  - intros HP HP' r Hr. pose proof (transition_converged _ _ _ Ht HP HP') as Hall.
    destruct (allAcknowledged_all _ _ _ Hall Hr) as (ack & Hin & ? & ? & ?).
    exists ack. split_and!; try done. by apply (valid_committing a Hva HP).
Qed.

(** C6: the coordinator changes the active generation only through the protocol. In
    every reachable store, whatever operations were called, with whatever arguments
    and file failures, the records form one chain of consecutive revisions linked by
    digests, and the active generation changes only from a draining to a committing
    record, to the pending generation with the next sequence number, after every
    required replica acknowledged exactly that generation as prepared; a committing
    record becomes stable only after every required replica acknowledged it as
    active. *)
Theorem active_changes_only_by_protocol store :
  reach store →
  ∃ chain, disk_inv store chain ∧
    ∀ i a b, chain !! i = Some a → chain !! S i = Some b → follows a b.
Proof.
  intros [chain Hinv]%reach_disk_inv. exists chain. split; [done|]. intros i a b Ha Hb.
  destruct Hinv as (_ & Hok & _).
  destruct (Hok _ _ Hb) as (_ & Hvb & Hrb & _ & Ht). rewrite Ha in Ht.
  destruct (Hok _ _ Ha) as (_ & Hva & Hra & _). eapply transition_follows; try done. lia.
Qed.

(** *** The convergence deadline *)

Definition execs (store : Store) (ops : list op) : Store :=
  fold_left (λ s o, (exec s o).1) ops store.

Lemma late_committing_invalid next :
  Phase next = PhaseCommitting → CommitDeadline next ≤ UpdatedAt next →
  validateState next = false.
Proof.
  intros HP Hd. apply not_true_iff_false. intros Hv.
  destruct (valid_committing next Hv HP) as [_ Hlt]. lia.
Qed.

Lemma commit_invalid f store next :
  validateState next = false → commitLocked f store next = (store, Some ErrInvalid).
Proof. intros Hv. unfold commitLocked. by rewrite Hv. Qed.

Lemma late_exec store st o :
  state store = Some st → Phase st = PhaseCommitting → allAcknowledged st AckActive = false →
  CommitDeadline st ≤ Unix (op_time o) → state (exec store o).1 = Some st.
Proof.
  intros Hst HP Hna Hlate.
  destruct o as [f rev act pend pt ct now|f rev pend now|f f2 rev replica g stage now|f now];
    cbn [exec op_time] in *; unfold Publish, Abort_, Acknowledge, Advance, on_state; rewrite Hst.
  - rewrite HP. cbn. rewrite orb_true_r. done.
  - rewrite HP. cbn. rewrite orb_true_r. done.
  - destruct (_ || _); [done|]. unfold ack_guard. rewrite HP.
    destruct (bool_decide (stage = AckPrepared)) eqn:E1; [done|].
    destruct (bool_decide (stage = AckActive)) eqn:E2; [|done].
    destruct (_ || _); [done|]. cbv zeta.
    assert (∀ acks, state (ack_commit f f2 store (with_acks (nextLocked store st now) acks) stage
      now).1 = Some st) as Hrefused.
    { intros acks. unfold ack_commit. rewrite E1, andb_false_r. cbv zeta.
      rewrite commit_invalid; [done|]. by apply late_committing_invalid. }
    destruct (restage _ _ _ _) as [ [ [] |acks] |]; [done|apply Hrefused..].
  - destruct (negb _); [done|]. rewrite HP. cbn. by rewrite Hna.
Qed.

(** C39: a generation that has not converged by its deadline never does. Once the
    clock has reached the commit deadline of a committing state in which some
    replica is not yet active, no operation changes the state any more: a late
    acknowledgement is refused because the record it would commit is invalid. The
    comment on [Advance] says that a committing generation is kept after its
    convergence deadline; nothing then can complete it. *)
Theorem late_generation_never_converges store st ops :
  state store = Some st → Phase st = PhaseCommitting → allAcknowledged st AckActive = false →
  Forall (λ o, CommitDeadline st ≤ Unix (op_time o)) ops →
  state (execs store ops) = Some st.
Proof.
  intros Hst HP Hna Hops. unfold execs. revert store Hst.
  induction Hops as [|o ops Ho _ IH]; intros store Hst; [done|]. cbn [fold_left].
  apply IH. by eapply late_exec.
Qed.

(** ** Witnesses *)

Definition no_faults : faults :=
  {| temp_fails := false; failpoint_temp := false; link_fails := false; remove_fails := false;
     sync_fails := false; failpoint_record := false; current_temp_fails := false;
     rename_fails := false; current_sync_fails := false |}.
Definition lost_remove : faults :=
  {| temp_fails := false; failpoint_temp := false; link_fails := false; remove_fails := true;
     sync_fails := false; failpoint_record := false; current_temp_fails := false;
     rename_fails := false; current_sync_fails := false |}.
Definition ex_at (n : Z) : Time := from_unix 1750000000 + n * second.
Definition ex_key : bytes := replicate 32 (byte_of 6).
Definition ex_gen (n : Z) : Gen :=
  {| ID := "gen-" +:+ FormatInt n; Sequence := n;
     ReceiptSHA256 := hex_encode (replicate 32 (byte_of n)) |}.
Definition ex_cp : ReplicaRef := {| r_ID := "cp-1"; r_Role := "controlplane" |}.
Definition ex_fo : ReplicaRef := {| r_ID := "fo-1"; r_Role := "firmwareorigin" |}.
Definition ex_blank : Store :=
  {| key := ex_key; state := None; digest := ""; drainStarted := zero_time; dir := ∅ |}.
Definition ex_init : result error Store :=
  InitializeStore no_faults ex_key (ex_gen 1) [ex_fo; ex_cp] (ex_at 0).
Definition ex_first : Store := match ex_init with Ok s => s | Err _ => ex_blank end.
Definition ex_prepare : list op :=
  [OPublish no_faults 1 (ex_gen 1) (ex_gen 2) (60 * second) (60 * second) (ex_at 1);
   OAcknowledge no_faults no_faults 2 ex_cp (ex_gen 2) AckPrepared (ex_at 2);
   OAcknowledge no_faults no_faults 3 ex_fo (ex_gen 2) AckPrepared (ex_at 3)].
Definition ex_draining : Store := execs ex_first ex_prepare.
Definition ex_committing : Store := execs ex_draining [OAdvance no_faults (ex_at 13)].
Definition ex_stable : Store :=
  execs ex_committing
    [OAcknowledge no_faults no_faults 5 ex_cp (ex_gen 2) AckActive (ex_at 20);
     OAcknowledge no_faults no_faults 6 ex_fo (ex_gen 2) AckActive (ex_at 21)].

Definition phase_of (s : Store) : string :=
  match state s with Some st => Phase st | None => "" end.
Definition active_of (s : Store) : string :=
  match state s with Some st => ID (Active st) | None => "" end.

Lemma ex_init_ok : ex_init = Ok ex_first.
Proof. vm_compute. reflexivity. Qed.

Lemma ex_first_reach : reach ex_first.
Proof. apply (reach_init no_faults ex_key (ex_gen 1) [ex_fo; ex_cp] (ex_at 0)), ex_init_ok. Qed.

Lemma execs_reach s ops : reach s → reach (execs s ops).
Proof.
  unfold execs. revert s. induction ops as [|o ops IH]; intros s Hs; [done|]. cbn [fold_left].
  apply IH. destruct (exec s o) as [s' e] eqn:E. by eapply reach_exec.
Qed.

(** The protocol run to its end: two replicas, from the first generation to the
    second. *)
Lemma active_changes_only_by_protocol_witness :
  reach ex_stable ∧ (phase_of ex_stable, active_of ex_stable) = (PhaseStable, "gen-2") ∧
  ∃ chain, disk_inv ex_stable chain.
Proof.
  assert (reach ex_stable) as Hr by (do 3 apply execs_reach; exact ex_first_reach).
  split; [exact Hr|]. split; [vm_compute; reflexivity|].
  destruct (active_changes_only_by_protocol ex_stable Hr) as (chain & Hinv & _).
  exists chain. exact Hinv.
Defined.

Definition ex_late : list op :=
  [OAcknowledge no_faults no_faults 5 ex_cp (ex_gen 2) AckActive (ex_at 73);
   OAcknowledge no_faults no_faults 5 ex_fo (ex_gen 2) AckActive (ex_at 100);
   OAdvance no_faults (ex_at 1000);
   OAcknowledge no_faults no_faults 5 ex_fo (ex_gen 2) AckActive (ex_at 5000)].

Lemma late_generation_never_converges_witness :
  state (execs ex_committing ex_late) = state ex_committing ∧
  phase_of ex_committing = PhaseCommitting.
Proof.
  assert (match state ex_committing with
          | Some st => bool_decide (Phase st = PhaseCommitting)
                       && negb (allAcknowledged st AckActive)
                       && forallb (λ o, CommitDeadline st <=? Unix (op_time o)) ex_late
          | None => false
          end = true) as Hc by (vm_compute; reflexivity).
  unfold phase_of. destruct (state ex_committing) as [st|] eqn:Hst; [|discriminate Hc].
  apply andb_true_iff in Hc as [Hc Hops]. apply andb_true_iff in Hc as [HP Hna].
  apply bool_decide_eq_true in HP. apply negb_true_iff in Hna.
  split; [|exact HP].
  apply (late_generation_never_converges ex_committing st ex_late Hst HP Hna).
  apply Forall_forall. intros o Ho. rewrite forallb_forall in Hops.
  apply Z.leb_le, Hops. by apply list_elem_of_In.
Defined.

(** A publication whose commit stops after linking its record. *)
Definition ex_torn : Store :=
  execs ex_first
    [OPublish lost_remove 1 (ex_gen 1) (ex_gen 2) (60 * second) (60 * second) (ex_at 1)].
Definition state_of (s : Store) : State :=
  match state s with
  | Some st => st
  | None => {| Schema := 0; Revision := 0; PreviousRecordSHA256 := ""; Phase := "";
               Active := ex_gen 0; Pending := None; RequiredReplicas := [];
               Acknowledgements := []; PrepareDeadline := 0; DrainUntil := 0;
               CommitDeadline := 0; UpdatedAt := 0; RecordHMACB64URL := "" |}
  end.
Definition ex_published : State := state_of (execs ex_first (take 1 ex_prepare)).
Definition ex_torn_chain : list State := [state_of ex_first; ex_published].
Definition ex_Decode (payload : bytes) : option State :=
  List.find (λ st, bool_decide (record_payload st = payload)) ex_torn_chain.

(** Checking the invariant of a store on concrete records. *)
Definition check_record (k : bytes) (i : nat) (previous : option State) (st : State) : bool :=
  bool_decide (RecordHMACB64URL st = EncodeToString (hmac_sha256 k (marshal_unsigned st)))
  && validateState st && (Revision st =? Z.of_nat i + 1)
  && (0 <? Revision st) && (Revision st <? 2 ^ 64)
  && match previous with
     | None => bool_decide (PreviousRecordSHA256 st = zeroDigest)
               && bool_decide (Phase st = PhaseStable)
     | Some p => validateTransition p st (record_digest p)
     end.
Fixpoint check_chain (k : bytes) (i : nat) (previous : option State) (chain : list State) : bool :=
  match chain with
  | [] => true
  | st :: chain => check_record k i previous st && check_chain k (S i) (Some st) chain
  end.
Definition check_dir (chain : list State) (d : gmap string bytes) : bool :=
  forallb (λ e, skipped e.1 || existsb (λ '(i, st),
     bool_decide (e.1 = stateFileName (Z.of_nat i + 1)) && bool_decide (e.2 = record_payload st))
     (imap pair chain)) (map_to_list d)
  && forallb (λ '(i, st), bool_decide
       (d !! stateFileName (Z.of_nat i + 1) = Some (record_payload st))) (imap pair chain).

Lemma check_chain_ok k chain : check_chain k 0 None chain = true → chain_ok k chain.
Proof.
  assert (∀ pre, check_chain k (length pre) (last pre) chain = true → chain_ok k pre →
    chain_ok k (pre ++ chain)) as Hgen.
  { induction chain as [|st chain IH]; intros pre Hc Hpre; [by rewrite app_nil_r|].
    cbn in Hc. apply andb_true_iff in Hc as [Hr Hc].
    replace (pre ++ st :: chain) with ((pre ++ [st]) ++ chain) by by rewrite <- app_assoc.
    apply IH.
    - rewrite length_app, last_snoc. cbn. by rewrite Nat.add_1_r.
    - apply chain_ok_snoc; [done|]. unfold check_record in Hr. split_bools.
      split_and!; try done; try lia. destruct (last pre); [done|]. split_bools. done. }
  intros Hc. by apply (Hgen []).
Qed.

Lemma elem_of_imap_pair (chain : list State) i st :
  (i, st) ∈ imap pair chain ↔ chain !! i = Some st.
Proof.
  rewrite list_elem_of_lookup. setoid_rewrite list_lookup_imap_Some. naive_solver.
Qed.

Lemma check_dir_ok chain d : check_dir chain d = true → dir_ok chain d.
Proof.
  unfold check_dir. intros [H1 H2]%andb_true_iff. rewrite forallb_forall in H1, H2. split.
  - intros n p Hp. specialize (H1 (n, p)). rewrite <- list_elem_of_In in H1.
    rewrite elem_of_map_to_list in H1. specialize (H1 Hp).
    apply orb_true_iff in H1 as [?|He]; [by left|right].
    apply existsb_exists in He as ( [i st] & Hin%list_elem_of_In%elem_of_imap_pair & Hb).
    cbn in Hb. split_bools. eauto.
  - intros i st Hi. specialize (H2 (i, st)). rewrite <- list_elem_of_In in H2.
    rewrite elem_of_imap_pair in H2. specialize (H2 Hi). by split_bools.
Qed.

Lemma ex_torn_inv : disk_inv ex_torn ex_torn_chain.
Proof.
  split; [apply check_dir_ok; vm_compute; reflexivity|].
  split; [apply check_chain_ok; vm_compute; reflexivity|].
  exists [], (state_of ex_first). split; [vm_compute; reflexivity|].
  split; [vm_compute; reflexivity|]. right. exists ex_published. reflexivity.
Qed.

Lemma OpenStore_recovers_witness :
  ∃ store', OpenStore ex_Decode no_faults (key ex_torn) (dir ex_torn) (ex_at 20) = Ok store' ∧
    phase_of ex_torn = PhaseStable ∧ state store' = Some ex_published.
Proof.
  destruct (OpenStore_recovers ex_Decode no_faults ex_torn ex_torn_chain (ex_at 20))
    as (store' & st & Hopen & Hlast & Hst & _).
  - exact ex_torn_inv.
  - split; by vm_compute.
  - intros st Hst. assert (forallb (λ st, bool_decide (ex_Decode (record_payload st) = Some st)
      && (blen (record_payload st) <=? maximumStateBytes)) ex_torn_chain = true) as Hall
      by (vm_compute; reflexivity).
    rewrite forallb_forall in Hall. specialize (Hall st). rewrite <- list_elem_of_In in Hall.
    specialize (Hall Hst). apply andb_true_iff in Hall as [Hd Hsz].
    split; [by apply bool_decide_eq_true in Hd|by apply Z.leb_le].
  - reflexivity.
  - reflexivity.
  - reflexivity.
  - exists store'. split; [exact Hopen|]. split; [vm_compute; reflexivity|].
    rewrite Hst. rewrite <- Hlast. reflexivity.
Defined.

Lemma OpenStore_sound_witness :
  ∃ store' chain, OpenStore ex_Decode no_faults ex_key (dir ex_torn) (ex_at 20) = Ok store' ∧
    chain_ok ex_key chain ∧ last chain = state store'.
Proof.
  assert (is_ok (OpenStore ex_Decode no_faults ex_key (dir ex_torn) (ex_at 20)) = true) as Hok
    by (vm_compute; reflexivity).
  destruct (OpenStore ex_Decode no_faults ex_key (dir ex_torn) (ex_at 20)) as [store'|e] eqn:E;
    [|discriminate Hok].
  destruct (OpenStore_sound ex_Decode _ _ _ _ _ E) as (chain & st & Hc & Hl & Hst & _).
  exists store', chain. split; [reflexivity|]. split; [exact Hc|]. rewrite Hl, Hst. reflexivity.
Defined.

End Generation.
