(* ===== verification/GenerationText.v ===== *)
(** * GenerationText: the text of a record determines the record

    The records of [Generation] are written as JSON; the strings of a valid record are
    identifiers, digests and constants, which are written as they are. Therefore two valid
    signed records with the same text are the same record, and a decoder that reads back
    every record it is given exists for every set of them. *)

From stdpp Require Import base gmap strings list pretty.
From Stdlib Require Import ZArith Lia.
From Stdlib.Strings Require Import Byte.
From S2P Require Import Prelude GoBase GoCrypto Protocol Auth GoWire FactoryTime Generation.

Module GenerationText.
Import Ident Generation.

(** ** Texts that end where they should *)

Definition terminator (b : byte) : bool :=
  bool_decide (b = Wire.comma) || bool_decide (b = Wire.closing) || bool_decide (b = byte_of 93).

(** What follows a value begins with a terminator. *)
Definition ended (r : bytes) : Prop := ∃ c r', r = c :: r' ∧ terminator c = true.

(** Two values with the same text and whatever follows are the same, and so is what
    follows. *)
Definition unique {A} (P : A → Prop) (T : A → bytes) : Prop :=
  ∀ x y r s, P x → P y → ended r → ended s → T x ++ r = T y ++ s → x = y ∧ r = s.

Lemma ended_cons c r : terminator c = true → ended (c :: r).
Proof. intros Hc. by exists c, r. Qed.

Lemma span_inj u v r s :
  Forall (λ b, terminator b = false) u → Forall (λ b, terminator b = false) v →
  ended r → ended s → u ++ r = v ++ s → u = v ∧ r = s.
Proof.
  intros Hu Hv (c & r' & -> & Hc) (d & s' & -> & Hd). revert v Hv.
  induction Hu as [|b u Hb Hu IH]; intros v Hv Heq.
  - destruct Hv as [|b' v Hb' Hv]; [done|]. cbn in Heq. injection Heq as -> _. congruence.
  - destruct Hv as [|b' v Hb' Hv]; cbn in Heq; injection Heq as -> Heq; [congruence|].
    by destruct (IH v Hv Heq) as [-> ->].
Qed.

(** A text without terminators. *)
Lemma unique_span {A} (P : A → Prop) (T : A → bytes) :
  (∀ x, P x → Forall (λ b, terminator b = false) (T x)) →
  (∀ x y, P x → P y → T x = T y → x = y) → unique P T.
Proof.
  intros Hspan Hinj x y r s Hx Hy Hr Hs Heq.
  destruct (span_inj _ _ _ _ (Hspan x Hx) (Hspan y Hy) Hr Hs Heq) as [HT ->].
  split; [by apply Hinj|done].
Qed.

(** ** Strings and numbers *)

Definition plain (s : string) : Prop := Forall (λ b, identifier_byte b = true) (bytes_of s).

Lemma identifier_no_terminator b : identifier_byte b = true → terminator b = false.
Proof. destruct b; vm_compute; done. Qed.

Lemma identifiers_span bs :
  Forall (λ b, identifier_byte b = true) bs → Forall (λ b, terminator b = false) bs.
Proof. intros H. eapply Forall_impl; [exact H|]. apply identifier_no_terminator. Qed.

Lemma quote_plain s : plain s → Wire.quote s = Wire.dquote :: bytes_of s ++ [Wire.dquote].
Proof. intros Hs. unfold Wire.quote. by rewrite Wire.escape_identifier. Qed.

Lemma quote_unique : unique plain Wire.quote.
Proof.
  apply unique_span.
  - intros s Hs. rewrite quote_plain by done. constructor; [done|]. apply Forall_app.
    split; [by apply identifiers_span|]. by constructor.
  - intros s t Hs Ht. rewrite !quote_plain by done. intros [= Heq].
    apply app_inj_tail in Heq as [Heq _]. by apply bytes_of_inj.
Qed.

Lemma number_unique : unique (λ _ : Z, True) number_text.
Proof.
  apply unique_span.
  - intros n _. apply identifiers_span, Wire.FormatInt_plain.
  - intros n m _ _ Heq. apply bytes_of_inj in Heq. unfold FormatInt in Heq. by apply (inj pretty) in Heq.
Qed.

(** ** Members *)

(** One member and what follows it. *)
Definition member (name : string) (text rest : bytes) : bytes :=
  Wire.dquote :: bytes_of name ++ [Wire.dquote; byte_of 58] ++ text ++ rest.

Lemma join_one name text : FactoryTime.join_members [(name, text)] = member name text [].
Proof. unfold member. cbn. by rewrite app_nil_r. Qed.

Lemma join_more name text m ms :
  FactoryTime.join_members ((name, text) :: m :: ms)
  = member name text (Wire.comma :: FactoryTime.join_members (m :: ms)).
Proof. done. Qed.

Lemma member_app name text rest more :
  member name text rest ++ more = member name text (rest ++ more).
Proof. unfold member. cbn. rewrite <- app_assoc. cbn. by rewrite <- app_assoc. Qed.

Lemma member_unique {A} (P : A → Prop) (T : A → bytes) name x y r s :
  unique P T → P x → P y → ended r → ended s →
  member name (T x) r = member name (T y) s → x = y ∧ r = s.
Proof.
  intros HT Hx Hy Hr Hs Heq. unfold member in Heq. injection Heq as Heq.
  apply app_inv_head in Heq. injection Heq as Heq. by apply HT in Heq.
Qed.

(** An object, with what follows it. *)
Lemma object_members ms r :
  object_text ms ++ r = byte_of 123 :: FactoryTime.join_members ms ++ Wire.closing :: r.
Proof. unfold object_text. cbn. by rewrite <- app_assoc. Qed.

(** ** Arrays *)

Definition join_values : list bytes → bytes :=
  fix join vs := match vs with [] => [] | [v] => v | v :: vs => v ++ Wire.comma :: join vs end.

Lemma array_join values : array_text values = byte_of 91 :: join_values values ++ [byte_of 93].
Proof. done. Qed.

(** An object does not begin like the end of an array or like [null]. *)
Definition braced {A} (T : A → bytes) : Prop := ∀ x, ∃ r, T x = byte_of 123 :: r.

Lemma join_unique {A} (P : A → Prop) (T : A → bytes) xs ys r s :
  unique P T → braced T → Forall P xs → Forall P ys →
  join_values (T <$> xs) ++ byte_of 93 :: r = join_values (T <$> ys) ++ byte_of 93 :: s →
  xs = ys ∧ r = s.
Proof.
  intros HT HB Hxs. revert ys. induction Hxs as [|x xs Hx Hxs IH]; intros ys Hys Heq.
  - destruct Hys as [|y ys Hy Hys]; [cbn in Heq; by injection Heq|].
    destruct (HB y) as [t Ht]. destruct ys; cbn in Heq; rewrite Ht in Heq; done.
  - destruct Hys as [|y ys Hy Hys].
    { destruct (HB x) as [t Ht]. destruct xs; cbn in Heq; rewrite Ht in Heq; done. }
    assert (∀ z zs t, join_values (T <$> z :: zs) ++ byte_of 93 :: t = T z ++
      match zs with [] => byte_of 93 :: t
      | _ => Wire.comma :: join_values (T <$> zs) ++ byte_of 93 :: t end) as Hj.
    { intros z [|z' zs] t; [done|]. cbn. by rewrite <- app_assoc. }
    rewrite !Hj in Heq. apply HT in Heq as [<- Heq]; try done;
      [|by destruct xs; apply ended_cons|by destruct ys; apply ended_cons].
    destruct xs as [|x' xs], ys as [|y' ys]; try done; [by injection Heq as ->|].
    injection Heq as Heq. by destruct (IH _ Hys Heq) as [-> ->].
Qed.

Lemma array_unique {A} (P : A → Prop) (T : A → bytes) :
  unique P T → braced T → unique (Forall P) (λ xs, array_text (T <$> xs)).
Proof.
  intros HT HB xs ys r s Hxs Hys Hr Hs. rewrite !array_join. cbn. rewrite <- !app_assoc.
  intros [= Heq]. by apply (join_unique P T) in Heq.
Qed.

(** ** Structures *)

Lemma cons_tail (c : byte) (r s : bytes) : c :: r = c :: s → r = s.
Proof. by intros [= ->]. Qed.

(** The equation of two objects of the same fields, as an equation of their first members. *)
Ltac open_object Heq :=
  rewrite ?object_members in Heq; apply cons_tail in Heq;
  rewrite ?join_more, ?join_one in Heq; repeat (rewrite member_app in Heq; cbn [app] in Heq).

(** The values of the first members are equal, and so is what follows. *)
Ltac peel U Heq E :=
  apply (member_unique _ _ _ _ _ _ _ U) in Heq as [E Heq];
  [|assumption || exact I..|by apply ended_cons|by apply ended_cons];
  apply cons_tail in Heq.

Definition gen_plain (g : Gen) : Prop := plain (ID g) ∧ plain (ReceiptSHA256 g).
Definition replica_plain (r : ReplicaRef) : Prop := plain (r_ID r) ∧ plain (r_Role r).
Definition ack_plain (a : Acknowledgement) : Prop :=
  plain (ReplicaID a) ∧ plain (Role a) ∧ plain (Stage a) ∧ plain (GenerationID a) ∧
  plain (AckReceiptSHA256 a).

Lemma gen_unique : unique gen_plain gen_text.
Proof.
  intros x y r s [Hi Hd] [Hi' Hd'] Hr Hs Heq. unfold gen_text in Heq.
  open_object Heq. peel quote_unique Heq E1. peel number_unique Heq E2. peel quote_unique Heq E3.
  split; [|done]. destruct x, y. cbn in *. by subst.
Qed.

Lemma replica_unique : unique replica_plain replica_text.
Proof.
  intros x y r s [Hi Hd] [Hi' Hd'] Hr Hs Heq. unfold replica_text in Heq.
  open_object Heq. peel quote_unique Heq E1. peel quote_unique Heq E2.
  split; [|done]. destruct x, y. cbn in *. by subst.
Qed.

Lemma ack_unique : unique ack_plain ack_text.
Proof.
  intros x y r s (H1 & H2 & H3 & H4 & H5) (G1 & G2 & G3 & G4 & G5) Hr Hs Heq.
  unfold ack_text in Heq.
  open_object Heq. peel quote_unique Heq E1. peel quote_unique Heq E2. peel quote_unique Heq E3.
  peel quote_unique Heq E4. peel quote_unique Heq E5. peel number_unique Heq E6.
  split; [|done]. destruct x, y. cbn in *. by subst.
Qed.

Lemma gen_braced : braced gen_text.
Proof. intros g. by eexists. Qed.
Lemma replica_braced : braced replica_text.
Proof. intros g. by eexists. Qed.
Lemma ack_braced : braced ack_text.
Proof. intros g. by eexists. Qed.

Definition pending_plain (g : option Gen) : Prop :=
  match g with Some g => gen_plain g | None => True end.

Lemma pending_unique : unique pending_plain pending_text.
Proof.
  intros [g|] [g'|] r s Hg Hg' Hr Hs Heq; cbn [pending_text] in Heq.
  - by destruct (gen_unique _ _ _ _ Hg Hg' Hr Hs Heq) as [-> ->].
  - destruct (gen_braced g) as [t Ht]. rewrite Ht in Heq. done.
  - destruct (gen_braced g') as [t Ht]. rewrite Ht in Heq. done.
  - split; [done|]. by apply app_inv_head in Heq.
Qed.

(** ** Records *)

Record state_plain (st : State) : Prop := {
  sp_previous : plain (PreviousRecordSHA256 st);
  sp_phase : plain (Phase st);
  sp_active : gen_plain (Active st);
  sp_pending : pending_plain (Pending st);
  sp_replicas : Forall replica_plain (RequiredReplicas st);
  sp_acks : Forall ack_plain (Acknowledgements st);
  sp_hmac : plain (RecordHMACB64URL st);
}.

Lemma state_unique st st' :
  state_plain st → state_plain st' → marshal_state st = marshal_state st' → st = st'.
Proof.
  intros [H1 H2 H3 H4 H5 H6 H7] [G1 G2 G3 G4 G5 G6 G7] Heq.
  assert (marshal_state st ++ [byte_of 93] = marshal_state st' ++ [byte_of 93]) as Heq'
    by by rewrite Heq.
  clear Heq. unfold marshal_state, unsigned_members in Heq'. cbn [app] in Heq'. open_object Heq'.
  peel number_unique Heq' E1. peel number_unique Heq' E2. peel quote_unique Heq' E3.
  peel quote_unique Heq' E4. peel gen_unique Heq' E5. peel pending_unique Heq' E6.
  peel (array_unique _ _ replica_unique replica_braced) Heq' E7.
  peel (array_unique _ _ ack_unique ack_braced) Heq' E8.
  peel number_unique Heq' E9. peel number_unique Heq' E10. peel number_unique Heq' E11.
  peel number_unique Heq' E12. peel quote_unique Heq' E13.
  destruct st, st'. cbn in *. by subst.
Qed.

(** *** The strings of a valid record *)

Lemma plain_check s : forallb identifier_byte (bytes_of s) = true → plain s.
Proof.
  intros H. rewrite forallb_forall in H. apply Forall_forall. intros b Hb. apply H.
  by apply list_elem_of_In.
Qed.

Lemma identifier_plain s max : ValidIdentifier s max = true → plain s.
Proof. intros H. by apply ValidIdentifier_bytes in H as [? _]. Qed.

Lemma hex_is_identifier b : hex_byte b = true → identifier_byte b = true.
Proof. destruct b; vm_compute; done. Qed.

Lemma plain_sha256 s : validSHA256 s = true → plain s.
Proof.
  unfold validSHA256, Ident.validSHA256. guard H. intros Hs. rewrite forallb_forall in Hs.
  apply Forall_forall. intros b Hb. apply hex_is_identifier, Hs. by apply list_elem_of_In.
Qed.

Lemma plain_generation g : validGeneration g = true → gen_plain g.
Proof.
  unfold validGeneration. intros [H1 H2]%andb_true_iff.
  split; [by eapply identifier_plain|by apply plain_sha256].
Qed.

Lemma plain_replicas values seen c o :
  validReplicas_from values seen c o = true → Forall replica_plain values.
Proof.
  revert seen c o. induction values as [|v values IH]; intros seen c o; cbn [validReplicas_from];
    [constructor|]. guard H1. guard H2. intros Hv. constructor; [|by eapply IH].
  apply orb_false_iff in H1 as [H1 Hrole]. apply negb_false_iff in H1.
  split; [by eapply identifier_plain|]. apply andb_false_iff in Hrole as [Hr|Hr];
    apply negb_false_iff, bool_decide_eq_true in Hr; rewrite Hr; by apply plain_check.
Qed.

Lemma plain_acks st acks seen :
  Forall replica_plain (RequiredReplicas st) → valid_acks st acks seen = true → Forall ack_plain acks.
Proof.
  intros Hr. revert seen. induction acks as [|a acks IH]; intros seen; cbn [valid_acks]; [constructor|].
  guard H. intros Hv. constructor; [|by eapply IH].
  apply orb_false_iff in H as [H _]. apply orb_false_iff in H as [H _].
  apply orb_false_iff in H as [H Hsha]. apply orb_false_iff in H as [H Hgen].
  apply orb_false_iff in H as [H Hstage]. apply orb_false_iff in H as [_ Hin].
  apply negb_false_iff in Hsha, Hgen, Hin. unfold containsReplica in Hin.
  apply existsb_exists in Hin as (v & Hv' & ->%bool_decide_eq_true).
  rewrite Forall_forall in Hr. destruct (Hr _ (proj2 (list_elem_of_In _ _) Hv')) as [Hid Hrole].
  split_and!; [done..| |by eapply identifier_plain|by apply plain_sha256].
  apply andb_false_iff in Hstage as [Hs|Hs]; apply negb_false_iff, bool_decide_eq_true in Hs;
    rewrite Hs; by apply plain_check.
Qed.

Lemma plain_phase st :
  valid_phase st = true → validGeneration (Active st) = true →
  plain (Phase st) ∧ pending_plain (Pending st).
Proof.
  unfold valid_phase. intros Hv Ha.
  assert (validPending st = true → pending_plain (Pending st)) as Hp.
  { unfold validPending. destruct (Pending st) as [g|]; [|done]. intros H. split_bools.
    by apply plain_generation. }
  destruct (bool_decide (Phase st = PhaseStable)) eqn:E1.
  { apply bool_decide_eq_true in E1. rewrite E1. split; [by apply plain_check|].
    destruct (Pending st); [|done]. by rewrite bool_decide_true in Hv. }
  destruct (bool_decide (Phase st = PhasePreparing)) eqn:E2.
  { apply bool_decide_eq_true in E2. rewrite E2. split; [by apply plain_check|]. apply Hp.
    by destruct (validPending st). }
  destruct (bool_decide (Phase st = PhaseDraining)) eqn:E3.
  { apply bool_decide_eq_true in E3. rewrite E3. split; [by apply plain_check|]. apply Hp.
    by destruct (validPending st). }
  destruct (bool_decide (Phase st = PhaseCommitting)) eqn:E4; [|done].
  apply bool_decide_eq_true in E4. rewrite E4. split; [by apply plain_check|].
  destruct (Pending st) as [g|]; [|done]. revert Hv. guard H. intros _.
  destruct (sameGeneration (Active st) g) eqn:Eg; [|done]. apply sameGeneration_eq in Eg.
  rewrite <- Eg. by apply plain_generation.
Qed.

Lemma valid_state_plain k st : signed k st → validateState st = true → state_plain st.
Proof.
  intros Hs. unfold validateState. guard H1. guard H2. guard H3. guard H4. intros Hphase.
  apply orb_false_iff in H1 as [H1 _]. apply orb_false_iff in H1 as [H1 _].
  apply orb_false_iff in H1 as [H1 Hreps]. apply orb_false_iff in H1 as [H1 Hact].
  apply orb_false_iff in H1 as [_ Hprev]. apply negb_false_iff in Hreps, Hact, Hprev, H4.
  destruct (plain_phase st Hphase Hact) as [Hph Hpend].
  assert (Forall replica_plain (RequiredReplicas st)) as Hr
    by (unfold validReplicas in Hreps; revert Hreps; guard Hl; apply plain_replicas).
  split; try done.
  - by apply plain_sha256.
  - by apply plain_generation.
  - by eapply plain_acks.
  - rewrite Hs. eapply Forall_impl; [apply Token.encoded_bytes|]. by intros b [? _].
Qed.

(** The text of a valid record determines it. *)
Lemma record_inj k k' st st' :
  signed k st → validateState st = true → signed k' st' → validateState st' = true →
  record_payload st = record_payload st' → st = st'.
Proof.
  intros Hs Hv Hs' Hv' Heq. apply state_unique; [by eapply valid_state_plain..|].
  unfold record_payload in Heq. by apply app_inv_tail in Heq.
Qed.

(** A decoder that knows the records of a list. *)
Definition knows (records : list State) (payload : bytes) : option State :=
  List.find (λ st, bool_decide (record_payload st = payload)) records.

(** It reads back every directory of which they are the records, and each directory on
    the way to it. *)
Lemma chain_reads_back k chain more d :
  dir_ok chain d → chain_ok k (chain ++ more) → reads_back (knows (chain ++ more)) k d.
Proof.
  intros [Hd _] Hok r st Hn Hs Hv.
  assert (st ∈ chain ++ more) as Hin.
  { destruct (Hd _ _ Hn) as [Hsk|(i & st' & Hi & _ & Heq)]; [by rewrite record_not_skipped in Hsk|].
    apply (lookup_app_l_Some _ more) in Hi.
    destruct (Hok i st' Hi) as (Hs' & Hv' & _). rewrite (record_inj k k st st'); try done.
    by eapply list_elem_of_lookup_2. }
  unfold knows. destruct (List.find _ _) as [st'|] eqn:Hf.
  - apply find_some in Hf as [Hin' Heq%bool_decide_eq_true].
    apply list_elem_of_In, list_elem_of_lookup in Hin' as [i Hi].
    destruct (Hok i st' Hi) as (Hs' & Hv' & _). by rewrite (record_inj k k st' st).
  - apply list_elem_of_In in Hin. pose proof (find_none _ _ Hf st Hin) as Hne. cbn in Hne.
    by rewrite bool_decide_true in Hne.
Qed.

End GenerationText.
