(* ===== verification/GenerationGuard.v ===== *)
(** * GenerationGuard: replicas under the coordinator

    Models [internal/generation/guard.go], the state view of [api.go] and its
    validation in [client.go], and the system they form with the coordinator of
    [Generation]: one clock, one coordinator that can crash and be opened again,
    and any number of replicas whose requests and responses can be delayed, lost
    or reordered. *)

From stdpp Require Import base gmap strings list fin_maps.
From Stdlib Require Import ZArith Lia.
From Stdlib.Strings Require Import Byte.
From S2P Require Import Prelude GoBase GoCrypto Protocol Auth Generation GenerationText.

Module GenerationGuard.
Import Ident Generation.

(** ** Views *)

Record StateView : Type := {
  v_Schema : Z;
  v_Revision : Z;
  v_RecordSHA256 : string;
  v_Phase : string;
  v_Active : Gen;
  v_Pending : option Gen;
  v_RequiredReplicas : list ReplicaRef;
  v_Acknowledgements : list Acknowledgement;
  v_PrepareDeadline : Z;
  v_DrainUntil : Z;
  v_CommitDeadline : Z;
  v_UpdatedAt : Z;
}.

Definition stateView (st : State) (digest : string) : StateView :=
  {| v_Schema := Schema st; v_Revision := Revision st; v_RecordSHA256 := digest;
     v_Phase := Phase st; v_Active := Active st; v_Pending := Pending st;
     v_RequiredReplicas := RequiredReplicas st; v_Acknowledgements := Acknowledgements st;
     v_PrepareDeadline := PrepareDeadline st; v_DrainUntil := DrainUntil st;
     v_CommitDeadline := CommitDeadline st; v_UpdatedAt := UpdatedAt st |}.

Definition validateStateView (view : StateView) : bool :=
  IF negb (v_Schema view =? 1) || (v_Revision view =? 0)
     || negb (validSHA256 (v_RecordSHA256 view)) || negb (validGeneration (v_Active view))
     || negb (validReplicas (v_RequiredReplicas view)) || (v_UpdatedAt view <? 1609459200)
     || (4102444800 <? v_UpdatedAt view)
    RETURN false ;;
  validateState
    {| Schema := v_Schema view; Revision := v_Revision view; PreviousRecordSHA256 := zeroDigest;
       Phase := v_Phase view; Active := v_Active view; Pending := v_Pending view;
       RequiredReplicas := v_RequiredReplicas view; Acknowledgements := v_Acknowledgements view;
       PrepareDeadline := v_PrepareDeadline view; DrainUntil := v_DrainUntil view;
       CommitDeadline := v_CommitDeadline view; UpdatedAt := v_UpdatedAt view;
       RecordHMACB64URL := "" |}.

(** ** The guard of a replica *)

Record ReplicaGuard : Type := {
  local : Gen;
  replica : ReplicaRef;
  view : StateView;
  validUntil : Time;
}.

Definition zero_view : StateView :=
  {| v_Schema := 0; v_Revision := 0; v_RecordSHA256 := ""; v_Phase := "";
     v_Active := {| ID := ""; Sequence := 0; ReceiptSHA256 := "" |}; v_Pending := None;
     v_RequiredReplicas := []; v_Acknowledgements := []; v_PrepareDeadline := 0;
     v_DrainUntil := 0; v_CommitDeadline := 0; v_UpdatedAt := 0 |}.

(** [principal] is the identity of the guard's client. *)
Definition NewReplicaGuard (principal : ReplicaRef) (local : Gen) : result error ReplicaGuard :=
  IF negb (validGeneration local)
     || (negb (bool_decide (r_Role principal = "controlplane"))
         && negb (bool_decide (r_Role principal = "firmwareorigin")))
    RETURN Err ErrInvalid ;;
  Ok {| local := local; replica := principal; view := zero_view; validUntil := zero_time |}.

Definition stageFor (guard : ReplicaGuard) (view : StateView) : string :=
  IF negb (containsReplica (v_RequiredReplicas view) (replica guard)) RETURN "" ;;
  IF bool_decide (v_Phase view = PhasePreparing)
     && same_pending (v_Pending view) (Some (local guard))
     && bool_decide (ackStage (v_Acknowledgements view) (r_ID (replica guard)) = "")
    RETURN AckPrepared ;;
  IF bool_decide (v_Phase view = PhaseCommitting)
     && sameGeneration (v_Active view) (local guard)
     && bool_decide (ackStage (v_Acknowledgements view) (r_ID (replica guard)) = AckPrepared)
    RETURN AckActive ;;
  "".

Definition accept (guard : ReplicaGuard) (v : StateView) (requestStarted : Time) : ReplicaGuard :=
  IF v_Revision v <? v_Revision (view guard) RETURN guard ;;
  {| local := local guard; replica := replica guard; view := v;
     validUntil := requestStarted + StateLeaseDuration |}.

Definition AllowOTA (guard : ReplicaGuard) (now : Time) : bool :=
  IF negb (Before now (validUntil guard))
     || negb (sameGeneration (v_Active (view guard)) (local guard))
    RETURN false ;;
  bool_decide (v_Phase (view guard) = PhaseStable)
  || bool_decide (v_Phase (view guard) = PhasePreparing)
  || bool_decide (v_Phase (view guard) = PhaseCommitting).

(** A call to the coordinator, as the guard sees it: when it started and what came
    back. *)
Record call : Type := { started : Time; answer : result error StateView }.

(** The loop of [Refresh]; a list that runs out stands for a call that never
    returns. *)
Fixpoint acknowledge_loop (attempts : nat) (guard : ReplicaGuard) (v : StateView)
    (calls : list call) : ReplicaGuard * option error :=
  match attempts with
  | O => (guard, None)
  | S attempts =>
      IF bool_decide (stageFor guard v = "") RETURN (guard, None) ;;
      match calls with
      | [] => (guard, Some ErrIO)
      | c :: calls =>
          match answer c with
          | Ok v => acknowledge_loop attempts (accept guard v (started c)) v calls
          | Err ErrConflict =>
              match calls with
              | [] => (guard, Some ErrIO)
              | c :: calls =>
                  match answer c with
                  | Ok v => acknowledge_loop attempts (accept guard v (started c)) v calls
                  | Err e => (guard, Some e)
                  end
              end
          | Err e => (guard, Some e)
          end
      end
  end.

Definition Refresh (guard : ReplicaGuard) (calls : list call) : ReplicaGuard * option error :=
  match calls with
  | [] => (guard, Some ErrIO)
  | c :: calls =>
      match answer c with
      | Err e => (guard, Some e)
      | Ok v => acknowledge_loop 2 (accept guard v (started c)) v calls
      end
  end.

(** ** The system *)

(** A response in flight: when its request started and the view it carries. *)
Record message : Type := { m_started : Time; m_view : StateView }.

Record System : Type := {
  clock : Time;
  coordinator : Store;
  requests : list Time;
  responses : list message;
  guards : gmap string ReplicaGuard;
}.

Section system.
Context (json_Decode : bytes → option State).

(** How long a call may wait between reading the clock and taking the lock of the
    store. *)
Context (lag : Duration).

Inductive sys_step (s : System) : System → Prop :=
| sys_tick t :
    clock s ≤ t →
    sys_step s {| clock := t; coordinator := coordinator s; requests := requests s;
                  responses := responses s; guards := guards s |}
| sys_op o store' e :
    clock s - lag ≤ op_time o ≤ clock s → exec (coordinator s) o = (store', e) →
    sys_step s {| clock := clock s; coordinator := store'; requests := requests s;
                  responses := responses s; guards := guards s |}
| sys_restart f now store' :
    clock s - lag ≤ now ≤ clock s →
    reads_back json_Decode (key (coordinator s)) (dir (coordinator s)) →
    OpenStore json_Decode f (key (coordinator s)) (dir (coordinator s)) now = Ok store' →
    sys_step s {| clock := clock s; coordinator := store'; requests := requests s;
                  responses := responses s; guards := guards s |}
| sys_request :
    sys_step s {| clock := clock s; coordinator := coordinator s;
                  requests := clock s :: requests s; responses := responses s;
                  guards := guards s |}
| sys_respond r st :
    r ∈ requests s → state (coordinator s) = Some st →
    sys_step s {| clock := clock s; coordinator := coordinator s; requests := requests s;
                  responses := {| m_started := r;
                                  m_view := stateView st (digest (coordinator s)) |}
                               :: responses s;
                  guards := guards s |}
| sys_accept id guard m :
    guards s !! id = Some guard → m ∈ responses s →
    sys_step s {| clock := clock s; coordinator := coordinator s; requests := requests s;
                  responses := responses s;
                  guards := <[id := accept guard (m_view m) (m_started m)]> (guards s) |}.

Inductive sys_init : System → Prop :=
| sys_start f k initial replicas t now store gs :
    InitializeStore f k initial replicas now = Ok store →
    (∀ id guard, gs !! id = Some guard →
       ∃ principal local, NewReplicaGuard principal local = Ok guard) →
    sys_init {| clock := t; coordinator := store; requests := []; responses := [];
                guards := gs |}.

(** ** Lemmas: the lease invariant *)

Definition serving (v : StateView) : bool :=
  bool_decide (v_Phase v = PhaseStable) || bool_decide (v_Phase v = PhasePreparing)
  || bool_decide (v_Phase v = PhaseCommitting).

(** A view whose request started at [r] may serve only the generation that is
    active now, and will be after a restart, unless its lease is over; and when
    the coordinator is draining, the drain began no earlier than the request, up
    to the lag. *)
Definition lease_ok (t : Time) (store : Store) (chain : list State) (v : StateView) (r : Time) :
    Prop :=
  r ≤ t ∧
  (serving v = true → r + StateLeaseDuration ≤ t ∨
   (∀ st, state store = Some st → Active st = v_Active v ∧
      (Phase st = PhaseDraining → r ≤ drainStarted store + lag)) ∧
   (∀ top, last chain = Some top → Active top = v_Active v)).

Definition guard_ok (t : Time) (store : Store) (chain : list State) (guard : ReplicaGuard) : Prop :=
  serving (view guard) = true →
  lease_ok t store chain (view guard) (validUntil guard - StateLeaseDuration).

Definition sys_inv (s : System) : Prop :=
  (∀ r, r ∈ requests s → r ≤ clock s) ∧
  ∃ chain, disk_inv (coordinator s) chain ∧
    (∀ m, m ∈ responses s → lease_ok (clock s) (coordinator s) chain (m_view m) (m_started m)) ∧
    (∀ id guard, guards s !! id = Some guard → guard_ok (clock s) (coordinator s) chain guard).

Hypothesis lag_small : 0 ≤ lag ≤ DrainDuration - StateLeaseDuration.

(** A lease that holds in memory holds for a record that follows. *)
Lemma lease_follows t now store chain v r st next :
  lease_ok t store chain v r → now ≤ t → serving v = true →
  state store = Some st → validateTransition st next (digest store) = true →
  (Phase st = PhaseDraining → drainStarted store + DrainDuration ≤ now) →
  r + StateLeaseDuration ≤ t ∨ Active next = v_Active v.
Proof.
  intros [Hr Hl] Hnow Hs Hst Ht Hds. destruct (Hl Hs) as [?|[Hmem _]]; [by left|].
  destruct (Hmem st Hst) as [Hact Hdrain].
  destruct (decide (Phase st = PhaseDraining)) as [HP|HP].
  - left. specialize (Hds HP). specialize (Hdrain HP). lia.
  - right. rewrite <- Hact. by eapply transition_active.
Qed.

Lemma tstep_lease t now a b v r :
  tstep now a b → t - lag ≤ now ≤ t → lease_ok t a.1 a.2 v r → lease_ok t b.1 b.2 v r.
Proof.
  intros Hstep Hnow Hl. pose proof Hl as [Hr Hl']. split; [done|]. intros Hs.
  destruct Hstep as [store chain Hinv|store chain next store' chain' e Hinv Hc Hds Hfull]; cbn in *.
  { destruct (Hl' Hs) as [?|[H1 H2]]; [by left|]. right. split; [|done].
    intros st Hst. destruct (H1 st Hst). split; [done|]. intros _. lia. }
  destruct Hc as [store' e E1 E2 E3 _|store' st e Hst Ht Hv Hlast E1 E2 E3 _
                 |store' st e Hst Ht Hv Hlast E1 E3 _].
  - destruct (Hl' Hs) as [?|[H1 H2]]; [by left|]. right. by rewrite E1, E3.
  - destruct (lease_follows t now _ _ _ _ _ _ Hl ltac:(lia) Hs Hst Ht (Hfull st Hst)) as [?|Hact];
      [by left|].
    destruct (Hl' Hs) as [?|[H1 H2]]; [by left|]. right. rewrite E1, E3. split; [done|].
    intros top. rewrite last_snoc. by intros [= <-].
  - destruct (lease_follows t now _ _ _ _ _ _ Hl ltac:(lia) Hs Hst Ht (Hfull st Hst)) as [?|Hact];
      [by left|].
    right. rewrite E1, E3. split.
    + intros st' [= <-]. split; [done|]. intros HP. rewrite (Hds HP). lia.
    + intros top. rewrite last_snoc. by intros [= <-].
Qed.

Lemma tsteps_lease t now a b v r :
  rtc (tstep now) a b → t - lag ≤ now ≤ t → lease_ok t a.1 a.2 v r → lease_ok t b.1 b.2 v r.
Proof. intros Hs Hnow. induction Hs; eauto using tstep_lease. Qed.

Lemma tick_lease t t' store chain v r :
  t ≤ t' → lease_ok t store chain v r → lease_ok t' store chain v r.
Proof.
  intros Ht [Hr Hl]. split; [lia|]. intros Hs. destruct (Hl Hs) as [?|?]; [left; lia|by right].
Qed.

(** After a restart the last record on disk is the state. *)
Lemma restart_lease t now store chain store' st v r :
  last chain = Some st → state store' = Some st →
  (Phase st = PhaseDraining → drainStarted store' = now) → t - lag ≤ now →
  lease_ok t store chain v r → lease_ok t store' chain v r.
Proof.
  intros Hlast Hst Hds Hnow [Hr Hl]. split; [done|]. intros Hs.
  destruct (Hl Hs) as [?|[_ H2]]; [by left|]. right. split; [|done].
  intros st' Hst'. rewrite Hst in Hst'. injection Hst' as <-. split; [by apply H2|].
  intros HP. rewrite (Hds HP). lia.
Qed.

(** A view served now holds a lease. *)
Lemma respond_lease t store chain st r dg :
  disk_inv store chain → state store = Some st → r ≤ t →
  lease_ok t store chain (stateView st dg) r.
Proof.
  intros (_ & Hok & pre & st0 & Hst0 & Hdig & Hcase) Hst Hr. rewrite Hst in Hst0.
  injection Hst0 as <-. split; [done|]. intros Hs. right.
  assert (Phase st ≠ PhaseDraining) as HP.
  { intros HP. unfold serving in Hs. cbn in Hs. rewrite HP in Hs. done. }
  split; [intros st' Hst'; rewrite Hst in Hst'; injection Hst' as <-; done|].
  intros top Htop. cbn. destruct Hcase as [->|[ahead ->]].
  - rewrite last_snoc in Htop. by injection Htop as <-.
  - replace (pre ++ [st; ahead]) with ((pre ++ [st]) ++ [ahead]) in Hok, Htop
      by by rewrite <- app_assoc.
    rewrite last_snoc in Htop. injection Htop as <-.
    destruct (Hok (S (length pre)) ahead) as (_ & _ & _ & _ & Ht).
    { apply lookup_app_Some. right. rewrite length_app. cbn. split; [lia|].
      by replace (S (length pre) - (length pre + 1))%nat with 0%nat by lia. }
    rewrite (lookup_app_l_Some _ _ _ st) in Ht by by rewrite list_lookup_middle.
    by eapply transition_active.
Qed.

Lemma accept_ok t store chain guard v r :
  guard_ok t store chain guard → lease_ok t store chain v r →
  guard_ok t store chain (accept guard v r).
Proof.
  intros Hg Hl. unfold accept. destruct (_ <? _); [done|]. intros _. cbn.
  by replace (r + StateLeaseDuration - StateLeaseDuration) with r by lia.
Qed.

(** Every kind of step keeps the leases of messages and guards. *)
Lemma sys_inv_map s s' chain chain' :
  disk_inv (coordinator s') chain' →
  requests s' = requests s → responses s' = responses s → guards s' = guards s →
  clock s ≤ clock s' →
  (∀ v r, lease_ok (clock s) (coordinator s) chain v r →
          lease_ok (clock s') (coordinator s') chain' v r) →
  (∀ r, r ∈ requests s → r ≤ clock s) →
  (∀ m, m ∈ responses s → lease_ok (clock s) (coordinator s) chain (m_view m) (m_started m)) →
  (∀ id guard, guards s !! id = Some guard → guard_ok (clock s) (coordinator s) chain guard) →
  sys_inv s'.
Proof.
  intros Hinv E1 E2 E3 Ht Hl H1 H2 H3. split; [rewrite E1; intros r Hr; specialize (H1 r Hr); lia|].
  exists chain'. split; [done|]. rewrite E2, E3. split.
  - intros m Hm. by apply Hl, H2.
  - intros id guard Hg Hs. by apply Hl, (H3 id).
Qed.

Lemma sys_step_inv s s' : sys_inv s → sys_step s s' → sys_inv s'.
Proof.
  intros (Hreq & chain & Hinv & Hres & Hgs) Hstep.
  destruct Hstep as [t Ht|o store' e Hnow Ho|f now store' Hnow Hback Hopen| |r st Hr Hst|id guard m Hg Hm].
  - eapply (sys_inv_map s); try done. intros v r. by apply tick_lease.
  - destruct (exec_steps _ _ _ _ _ Hinv Ho) as [chain' Hs].
    eapply (sys_inv_map s _ chain chain'); cbn; try done.
    + by apply tsteps_disk_inv in Hs.
    + intros v r Hl. by eapply (tsteps_lease _ _ _ _ _ _ Hs).
  - destruct (OpenStore_same _ _ _ _ _ _ Hinv Hback Hopen) as (st & Hlast & Hst & Hinv' & _ & Hds).
    eapply (sys_inv_map s _ chain chain); cbn; try done.
    intros v r. eapply restart_lease; [done|done|done|lia].
  - split; cbn; [|by exists chain]. intros r [->|Hr]%elem_of_cons; [lia|auto].
  - split; [done|]. exists chain. split; [done|]. split; [|done]. cbn.
    intros m [->|Hm]%elem_of_cons; [|auto]. cbn. apply respond_lease; auto.
  - split; [done|]. exists chain. split; [done|]. split; [done|]. cbn.
    intros id' guard' [[<- <-]|[_ Hg']]%lookup_insert_Some; [|by eapply Hgs].
    apply accept_ok; [by eapply Hgs|by apply Hres].
Qed.

Lemma sys_init_inv s : sys_init s → sys_inv s.
Proof.
  intros [f k initial replicas t now store gs Hi Hgs].
  apply InitializeStore_inv in Hi as (st & Hinv & _).
  split; [by intros r Hr%elem_of_nil|]. exists [st]. split; [done|].
  split; [by intros m Hm%elem_of_nil|]. cbn. intros id guard Hg.
  destruct (Hgs id guard Hg) as (p & l & Hnew). unfold NewReplicaGuard in Hnew.
  case_match; simplify_eq. done.
Qed.

(** C1: two replicas never serve different generations at the same time. Whatever
    is published, acknowledged and aborted, whichever file operations of the
    coordinator fail, however often it is killed and opened again, and however
    responses are delayed, lost, repeated or reordered, if two guards allow
    over-the-air updates at the same instant, both run the generation that is
    active in the coordinator. All read one clock; the calls to the coordinator may wait
    up to five seconds (the drain minus the lease) between reading the clock and taking
    the lock; and when the coordinator is opened again, the JSON decoder reads back the
    records that it wrote. *)
Theorem no_two_generations_served s0 s i j a b :
  sys_init s0 → rtc sys_step s0 s →
  guards s !! i = Some a → guards s !! j = Some b →
  AllowOTA a (clock s) = true → AllowOTA b (clock s) = true →
  local a = local b ∧ ∃ st, state (coordinator s) = Some st ∧ Active st = local a.
Proof.
  intros Hinit%sys_init_inv Hrun Ha Hb Hota Hotb.
  apply (rtc_invariant sys_step sys_inv sys_step_inv) in Hrun as (_ & chain & Hinv & _ & Hgs);
    [|done].
  assert (∃ st, state (coordinator s) = Some st) as [st Hst].
  { destruct Hinv as (_ & _ & pre & st & ? & _). eauto. }
  assert (∀ k g, guards s !! k = Some g → AllowOTA g (clock s) = true → Active st = local g) as Hall.
  { intros k g Hg Hot. unfold AllowOTA in Hot. revert Hot. guard Hgd. intros Hph.
    apply orb_false_iff in Hgd as [Hbefore Hsame].
    apply negb_false_iff, Z.ltb_lt in Hbefore. apply negb_false_iff, sameGeneration_eq in Hsame.
    destruct (Hgs k g Hg Hph) as [_ Hl]. destruct (Hl Hph) as [Hover|[Hmem _]]; [lia|].
    rewrite <- Hsame. by apply Hmem. }
  rewrite <- (Hall i a Ha Hota), <- (Hall j b Hb Hotb). eauto.
Qed.

End system.

(** ** Refreshing *)

(** The views a refresh accepts, in order. *)
Fixpoint accepted_in (attempts : nat) (guard : ReplicaGuard) (v : StateView) (calls : list call) :
    list (StateView * Time) :=
  match attempts with
  | O => []
  | S attempts =>
      if bool_decide (stageFor guard v = "") then [] else
      match calls with
      | [] => []
      | c :: calls =>
          match answer c with
          | Ok v => (v, started c) :: accepted_in attempts (accept guard v (started c)) v calls
          | Err ErrConflict =>
              match calls with
              | [] => []
              | c :: calls =>
                  match answer c with
                  | Ok v => (v, started c)
                            :: accepted_in attempts (accept guard v (started c)) v calls
                  | Err _ => []
                  end
              end
          | Err _ => []
          end
      end
  end.

Definition accept_all (guard : ReplicaGuard) (views : list (StateView * Time)) : ReplicaGuard :=
  fold_left (λ g vr, accept g vr.1 vr.2) views guard.

Lemma acknowledge_loop_accepts attempts guard v calls :
  (acknowledge_loop attempts guard v calls).1 = accept_all guard (accepted_in attempts guard v calls).
Proof.
  revert guard v calls. induction attempts as [|n IH]; intros guard v calls; [done|].
  cbn [acknowledge_loop accepted_in]. destruct (bool_decide _); [done|].
  destruct calls as [|c calls]; [done|]. destruct (answer c) as [v'|[] ]; [apply IH| |done..].
  destruct calls as [|c' calls]; [done|]. destruct (answer c') as [v'|e]; [apply IH|done].
Qed.

(** A refresh changes the guard only by accepting answers to its own calls, each
    with the time its call started: the steps [sys_accept] of the system. *)
Lemma Refresh_accepts guard calls :
  ∃ views, (Refresh guard calls).1 = accept_all guard views ∧
    ∀ v r, (v, r) ∈ views → ∃ c, c ∈ calls ∧ answer c = Ok v ∧ started c = r.
Proof.
  unfold Refresh. destruct calls as [|c calls]; [by exists []; split; [|intros ?? ?%elem_of_nil]|].
  destruct (answer c) as [v|e] eqn:Hc; [|by exists []; split; [|intros ?? ?%elem_of_nil]].
  exists ((v, started c) :: accepted_in 2 (accept guard v (started c)) v calls).
  split; [apply acknowledge_loop_accepts|].
  assert (∀ n g w cs, (∀ x, x ∈ cs → x ∈ calls) → ∀ v' r, (v', r) ∈ accepted_in n g w cs →
    ∃ c', c' ∈ calls ∧ answer c' = Ok v' ∧ started c' = r) as Hin.
  { induction n as [|n IH]; intros g w cs Hsub v' r; [by intros ?%elem_of_nil|].
    cbn [accepted_in]. destruct (bool_decide _); [by intros ?%elem_of_nil|].
    destruct cs as [|c1 cs]; [by intros ?%elem_of_nil|].
    assert (∀ x, x ∈ cs → x ∈ calls) as Hsub' by (intros; apply Hsub; by right).
    destruct (answer c1) as [v1|[]] eqn:E1; try (by intros ?%elem_of_nil).
    - intros [[= -> ->]|Hrest]%elem_of_cons; [|by eapply IH].
      exists c1. split; [apply Hsub; by left|done].
    - destruct cs as [|c2 cs]; [by intros ?%elem_of_nil|].
      destruct (answer c2) as [v2|e2] eqn:E2; [|by intros ?%elem_of_nil].
      intros [[= -> ->]|Hrest]%elem_of_cons.
      + exists c2. split; [apply Hsub'; by left|done].
      + eapply IH; [|done]. intros; apply Hsub'. by right. }
  intros v' r [[= -> ->]|Hrest]%elem_of_cons.
  - exists c. split; [by left|done].
  - destruct (Hin 2%nat _ _ calls ltac:(done) _ _ Hrest) as (c' & ? & ?).
    exists c'. split; [by right|done].
Qed.

(** ** Witness *)

Definition ex_Decode : bytes → option State := GenerationText.knows ex_torn_chain.
Definition ex_guard (principal : ReplicaRef) (g : Gen) : ReplicaGuard :=
  {| local := g; replica := principal; view := zero_view; validUntil := zero_time |}.
Definition ex_guards : gmap string ReplicaGuard :=
  {["cp-1" := ex_guard ex_cp (ex_gen 1)]} ∪ {["fo-1" := ex_guard ex_fo (ex_gen 1)]}.
Definition ex_system (t : Time) (store : Store) (rs : list Time) (ms : list message)
    (gs : gmap string ReplicaGuard) : System :=
  {| clock := t; coordinator := store; requests := rs; responses := ms; guards := gs |}.

(** The coordinator is killed in a publication, after the record was linked, and opened
    again: it goes on from that record. *)
Definition ex_publication : op :=
  OPublish lost_remove 1 (ex_gen 1) (ex_gen 2) (60 * second) (60 * second) (ex_at 1).
Definition ex_reopened : Store :=
  match OpenStore ex_Decode no_faults (key ex_torn) (dir ex_torn) (ex_at 1) with
  | Ok store => store
  | Err _ => ex_blank
  end.

Lemma ex_reopens :
  OpenStore ex_Decode no_faults (key ex_torn) (dir ex_torn) (ex_at 1) = Ok ex_reopened.
Proof.
  unfold ex_reopened.
  assert (is_ok (OpenStore ex_Decode no_faults (key ex_torn) (dir ex_torn) (ex_at 1)) = true) as Hok
    by (vm_compute; reflexivity).
  destruct (OpenStore _ _ _ _ _); [reflexivity|discriminate Hok].
Qed.

Lemma ex_reads_back : reads_back ex_Decode (key ex_torn) (dir ex_torn).
Proof. destruct ex_torn_inv as (Hd & Hok & _). by apply (GenerationText.chain_reads_back _ ex_torn_chain []). Qed.

Lemma ex_reopened_state : state ex_reopened = Some ex_published.
Proof.
  destruct (OpenStore_same ex_Decode no_faults ex_torn ex_torn_chain (ex_at 1) ex_reopened
    ex_torn_inv ex_reads_back ex_reopens) as (st & Hlast & Hst & _).
  rewrite Hst, <- Hlast. reflexivity.
Qed.

Definition ex_view : StateView := stateView ex_published (digest ex_reopened).
Definition ex_message : message := {| m_started := ex_at 1; m_view := ex_view |}.
Definition ex_served : gmap string ReplicaGuard :=
  <["fo-1" := accept (ex_guard ex_fo (ex_gen 1)) ex_view (ex_at 1)]>
    (<["cp-1" := accept (ex_guard ex_cp (ex_gen 1)) ex_view (ex_at 1)]> ex_guards).

(** Two replicas of the first generation then ask for the state and serve. *)
Lemma ex_serving :
  rtc (sys_step ex_Decode (5 * second)) (ex_system (ex_at 1) ex_first [] [] ex_guards)
    (ex_system (ex_at 2) ex_reopened [ex_at 1] [ex_message] ex_served).
Proof.
  eapply rtc_l.
  { apply (sys_op _ _ _ ex_publication ex_torn (exec ex_first ex_publication).2);
      [split; by vm_compute|]. apply surjective_pairing. }
  eapply rtc_l.
  { apply (sys_restart _ _ _ no_faults (ex_at 1) ex_reopened); [split; by vm_compute| |].
    - exact ex_reads_back.
    - exact ex_reopens. }
  eapply rtc_l; [apply sys_request|].
  eapply rtc_l.
  { apply (sys_respond _ _ _ (ex_at 1) ex_published); [by left|exact ex_reopened_state]. }
  eapply rtc_l; [apply (sys_tick _ _ _ (ex_at 2)); by vm_compute|].
  eapply rtc_l.
  { apply (sys_accept _ _ _ "cp-1" (ex_guard ex_cp (ex_gen 1)) ex_message); [reflexivity|by left]. }
  eapply rtc_l.
  { apply (sys_accept _ _ _ "fo-1" (ex_guard ex_fo (ex_gen 1)) ex_message); [|by left].
    cbn. rewrite lookup_insert_ne by done. reflexivity. }
  apply rtc_refl.
Qed.

Lemma ex_serving_init : sys_init (ex_system (ex_at 1) ex_first [] [] ex_guards).
Proof.
  apply (sys_start no_faults ex_key (ex_gen 1) [ex_fo; ex_cp] (ex_at 1) (ex_at 0) ex_first).
  - exact ex_init_ok.
  - intros id guard Hg. apply lookup_union_Some_raw in Hg as [Hg|[_ Hg]];
      apply lookup_singleton_Some in Hg as [_ <-];
      [exists ex_cp, (ex_gen 1)|exists ex_fo, (ex_gen 1)]; by vm_compute.
Qed.

Definition ex_serving_guard (principal : ReplicaRef) : ReplicaGuard :=
  accept (ex_guard principal (ex_gen 1)) ex_view (ex_at 1).

Lemma ex_served_fo : ex_served !! "fo-1" = Some (ex_serving_guard ex_fo).
Proof. apply lookup_insert_eq. Qed.

Lemma ex_served_cp : ex_served !! "cp-1" = Some (ex_serving_guard ex_cp).
Proof. unfold ex_served. rewrite lookup_insert_ne by done. apply lookup_insert_eq. Qed.

Lemma ex_published_serves :
  (0 <=? Revision ex_published) && sameGeneration (Active ex_published) (ex_gen 1)
  && bool_decide (Phase ex_published = PhasePreparing) = true.
Proof. vm_compute. reflexivity. Qed.

Lemma ex_allowed r : AllowOTA (ex_serving_guard r) (ex_at 2) = true.
Proof.
  pose proof ex_published_serves as H. apply andb_true_iff in H as [H HP].
  apply andb_true_iff in H as [Hr Ha]. apply Z.leb_le in Hr. apply bool_decide_eq_true in HP.
  unfold ex_serving_guard, accept. cbn [view ex_guard zero_view v_Revision ex_view stateView].
  rewrite (proj2 (Z.ltb_ge _ _)) by done. unfold AllowOTA. cbn [validUntil view local].
  replace (Before (ex_at 2) (ex_at 1 + StateLeaseDuration)) with true by (vm_compute; reflexivity).
  cbn [v_Active v_Phase stateView ex_view negb orb ex_guard local]. rewrite Ha, HP. reflexivity.
Qed.

Lemma no_two_generations_served_witness :
  state ex_torn ≠ state ex_reopened ∧
  AllowOTA (ex_serving_guard ex_cp) (ex_at 2) = true ∧
  AllowOTA (ex_serving_guard ex_fo) (ex_at 2) = true ∧
  local (ex_serving_guard ex_cp) = local (ex_serving_guard ex_fo) ∧
  ∃ st, state ex_reopened = Some st ∧ Active st = local (ex_serving_guard ex_cp).
Proof.
  split.
  { rewrite ex_reopened_state. intros Heq.
    assert (phase_of ex_torn = Phase ex_published) as HP by (unfold phase_of; by rewrite Heq).
    pose proof ex_published_serves as H. apply andb_true_iff in H as [_ H].
    apply bool_decide_eq_true in H. rewrite H in HP.
    assert (phase_of ex_torn = PhaseStable) as HS by (vm_compute; reflexivity).
    rewrite HS in HP. discriminate HP. }
  split; [apply ex_allowed|]. split; [apply ex_allowed|].
  refine (no_two_generations_served ex_Decode (5 * second) _ _ _ "cp-1" "fo-1" _ _
    ex_serving_init ex_serving ex_served_cp ex_served_fo (ex_allowed ex_cp) (ex_allowed ex_fo)).
  split; by vm_compute.
Defined.

End GenerationGuard.
