(* ===== verification/GenerationAPI.v ===== *)
(** * GenerationAPI: the coordinator and its clients over HTTP

    Models [internal/generation/api.go] (the coordinator's server), [client.go] (the
    client of publishers and replicas) and [registry.go] (who the replicas are). Requests
    and answers carry an HMAC under the key that a principal shares with the coordinator.
    A handler takes the store's lock once to change it and once more to read it, so that
    other calls run in between. The JSON decoder and [url.Parse] are arguments; the
    counters of the metrics page are left out. *)

From stdpp Require Import base gmap strings list.
From Stdlib Require Import ZArith Lia.
From Stdlib.Strings Require Import Byte.
From S2P Require Import Prelude GoBase GoCrypto Protocol Auth GoWire FactoryTime Generation GenerationGuard.

Module GenerationAPI.
Import Ident Generation GenerationGuard.

(** ** Who may speak *)

Record Principal : Type := {
  p_ID : string;
  p_Role : string;
  p_Key : bytes;
}.

Record ReplicaIdentity : Type := {
  i_ReplicaID : string;
  i_Role : string;
  HMACKeyB64 : string;
}.

Record replicaRegistryDocument : Type := {
  d_Version : Z;
  d_Replicas : list ReplicaIdentity;
}.

Record ReplicaRegistry : Type := {
  identities : gmap string Principal;
  references : list ReplicaRef;
}.

Definition keysEqual (left right : bytes) : bool := bool_decide (left = right).

Definition decodeCanonicalKey (value : string) : option bytes :=
  match DecodeString value with
  | None => None
  | Some key =>
      IF (blen key <? 32) || (128 <? blen key) || negb (bool_decide (EncodeToString key = value))
        RETURN None ;;
      Some key
  end.

(** *** Texts: members and arrays in the order of the structures *)

Definition marshal_registry (d : replicaRegistryDocument) : bytes :=
  object_text [("version", number_text (d_Version d));
    ("replicas", array_text ((λ e, object_text [("replica_id", Wire.quote (i_ReplicaID e));
       ("role", Wire.quote (i_Role e)); ("hmac_key_b64", Wire.quote (HMACKeyB64 e))]) <$> d_Replicas d))].

(** One entry: the registry so far, the previous identifier and the keys that were seen. *)
Definition add_replica (acc : ReplicaRegistry * string * list bytes) (entry : ReplicaIdentity) :
    option (ReplicaRegistry * string * list bytes) :=
  let '(registry, priorID, seenKeys) := acc in
  IF negb (ValidIdentifier (i_ReplicaID entry) 64)
     || (negb (bool_decide (i_Role entry = "controlplane"))
         && negb (bool_decide (i_Role entry = "firmwareorigin")))
    RETURN None ;;
  IF negb (String.ltb priorID (i_ReplicaID entry)) RETURN None ;;
  IF bool_decide (is_Some (identities registry !! i_ReplicaID entry)) RETURN None ;;
  match decodeCanonicalKey (HMACKeyB64 entry) with
  | None => None
  | Some key =>
      IF existsb (λ prior, keysEqual prior key) seenKeys RETURN None ;;
      Some ({| identities := <[i_ReplicaID entry := {| p_ID := i_ReplicaID entry; p_Role := i_Role entry;
                                                       p_Key := key |}]> (identities registry);
               references := references registry
                             ++ [{| r_ID := i_ReplicaID entry; r_Role := i_Role entry |}] |},
            i_ReplicaID entry, seenKeys ++ [key])
  end.

Fixpoint add_replicas (acc : ReplicaRegistry * string * list bytes) (entries : list ReplicaIdentity) :
    option ReplicaRegistry :=
  match entries with
  | [] => Some acc.1.1
  | entry :: entries =>
      match add_replica acc entry with
      | None => None
      | Some acc => add_replicas acc entries
      end
  end.

(** [payload] is the private regular file, [None] when it is missing, linked, open to
    others or too long. *)
Definition LoadReplicaRegistry (Decode : bytes → option replicaRegistryDocument)
    (payload : option bytes) : option ReplicaRegistry :=
  match payload with
  | None => None
  | Some payload =>
      match Decode payload with
      | None => None
      | Some document =>
          IF negb (bool_decide (marshal_registry document ++ [newline] = payload))
             || negb (d_Version document =? 1) || (Z.of_nat (length (d_Replicas document)) <? 2)
             || (64 <? Z.of_nat (length (d_Replicas document)))
            RETURN None ;;
          match add_replicas ({| identities := ∅; references := [] |}, "", []) (d_Replicas document) with
          | None => None
          | Some registry =>
              let references := sortReplicas (references registry) in
              IF negb (validReplicas references) RETURN None ;;
              Some {| identities := identities registry; references := references |}
          end
      end
  end.

Definition DistinctFrom (registry : ReplicaRegistry) (keys : list bytes) : bool :=
  forallb (λ p, forallb (λ key, negb (keysEqual (p_Key p.2) key)) keys) (map_to_list (identities registry)).

(** ** Messages *)

Definition HeaderPrincipal : string := "X-Xiaozhi-Generation-Principal".
Definition HeaderTimestamp : string := "X-Xiaozhi-Generation-Timestamp".
Definition HeaderNonce : string := "X-Xiaozhi-Generation-Nonce".
Definition HeaderSignature : string := "X-Xiaozhi-Generation-Signature".
Definition HeaderResponseSignature : string := "X-Xiaozhi-Generation-Response-Signature".
Definition pathState : string := "/v1/generations/state".
Definition pathPublish : string := "/v1/generations/publish".
Definition pathAbort : string := "/v1/generations/abort".
Definition pathAck : string := "/v1/generations/ack".
Definition maximumAPIBytes : Z := 16 * 1024.

Record PublishRequest : Type := {
  ExpectedRevision : Z;
  ExpectedActive : Gen;
  b_Pending : Gen;
}.

Record AbortRequest : Type := {
  a_ExpectedRevision : Z;
  a_Pending : Gen;
}.

Record AckRequest : Type := {
  k_ExpectedRevision : Z;
  k_Generation : Gen;
  k_Stage : string;
}.

Definition marshal_publish (q : PublishRequest) : bytes :=
  object_text [("expected_revision", number_text (ExpectedRevision q));
               ("expected_active", gen_text (ExpectedActive q)); ("pending", gen_text (b_Pending q))].
Definition marshal_abort (q : AbortRequest) : bytes :=
  object_text [("expected_revision", number_text (a_ExpectedRevision q)); ("pending", gen_text (a_Pending q))].
Definition marshal_ack (q : AckRequest) : bytes :=
  object_text [("expected_revision", number_text (k_ExpectedRevision q));
               ("generation", gen_text (k_Generation q)); ("stage", Wire.quote (k_Stage q))].

(** An empty slice is written as [null] when it is nil. *)
Definition slice_text (nil_ : bool) (values : list bytes) : bytes :=
  if nil_ && bool_decide (values = []) then bytes_of "null" else array_text values.

(** Which of the two slices of a view are nil when they are empty. *)
Record nils : Type := { nil_replicas : bool; nil_acks : bool }.

Definition marshal_view (n : nils) (v : StateView) : bytes :=
  object_text [("schema", number_text (v_Schema v)); ("revision", number_text (v_Revision v));
    ("record_sha256", Wire.quote (v_RecordSHA256 v)); ("phase", Wire.quote (v_Phase v));
    ("active", gen_text (v_Active v));
    ("pending", pending_text (v_Pending v));
    ("required_replicas", slice_text (nil_replicas n) (replica_text <$> v_RequiredReplicas v));
    ("acknowledgements", slice_text (nil_acks n) (ack_text <$> v_Acknowledgements v));
    ("prepare_deadline", number_text (v_PrepareDeadline v)); ("drain_until", number_text (v_DrainUntil v));
    ("commit_deadline", number_text (v_CommitDeadline v)); ("updated_at", number_text (v_UpdatedAt v))].

(** The libraries. A decoder reads one document with known members only and fails when
    anything follows it. *)
Record library : Type := {
  url_Parse : string → option Wire.URL;
  Decode_publish : bytes → option PublishRequest;
  Decode_abort : bytes → option AbortRequest;
  Decode_ack : bytes → option AckRequest;
  Decode_view : bytes → option (StateView * nils);
}.

Definition line (name value : string) : bytes := bytes_of name ++ byte_of 61 :: bytes_of value ++ [newline].

Definition canonicalAPIRequest (principal method path timestamp nonce bodySHA256 : string) : bytes :=
  bytes_of "xiaozhi-generation-api-v1" ++ newline :: line "principal" principal ++ line "method" method
  ++ line "path" path ++ line "timestamp" timestamp ++ line "nonce" nonce ++ line "body_sha256" bodySHA256.

Definition canonicalAPIResponse (principal nonce : string) (status : Z) (bodySHA256 : string) : bytes :=
  bytes_of "xiaozhi-generation-response-v1" ++ newline :: line "principal" principal
  ++ line "request_nonce" nonce ++ line "status" (FormatInt status) ++ line "body_sha256" bodySHA256.

(** ** The server *)

Record Server : Type := {
  publisher : Principal;
  registry : ReplicaRegistry;
  prepareTimeout : Duration;
  commitTimeout : Duration;
  maxClockSkew : Duration;
  nonces : gmap string (gmap string Time);
}.

Definition set_nonces (server : Server) (values : gmap string (gmap string Time)) : Server :=
  {| publisher := publisher server; registry := registry server; prepareTimeout := prepareTimeout server;
     commitTimeout := commitTimeout server; maxClockSkew := maxClockSkew server; nonces := values |}.

Definition RequiredReplicasMatch (store : Store) (replicas : list ReplicaRef) : bool :=
  match state store with
  | None => replicasEqual [] (sortReplicas replicas)
  | Some st => replicasEqual (RequiredReplicas st) (sortReplicas replicas)
  end.

Definition NewServer (store : Store) (publisher : Principal) (registry : ReplicaRegistry)
    (prepareTimeout commitTimeout maxClockSkew : Duration) : option Server :=
  IF negb (ValidIdentifier (p_ID publisher) 64) || negb (bool_decide (p_Role publisher = "publisher"))
     || (blen (p_Key publisher) <? 32) || (128 <? blen (p_Key publisher))
     || bool_decide (is_Some (identities registry !! p_ID publisher))
     || negb (RequiredReplicasMatch store (references registry))
     || negb (DistinctFrom registry [p_Key publisher; key store])
     || keysEqual (p_Key publisher) (key store)
     || (prepareTimeout <? 30 * second) || (24 * hour <? prepareTimeout)
     || (commitTimeout <? 30 * second) || (24 * hour <? commitTimeout)
     || (maxClockSkew <? 5 * second) || (5 * minute <? maxClockSkew)
    RETURN None ;;
  Some {| publisher := publisher; registry := registry; prepareTimeout := prepareTimeout;
          commitTimeout := commitTimeout; maxClockSkew := maxClockSkew; nonces := ∅ |}.

Definition find_principal (server : Server) (id : string) : option Principal :=
  IF bool_decide (id = p_ID (publisher server)) RETURN Some (publisher server) ;;
  identities (registry server) !! id.

(** A 64-bit negation: the smallest duration is its own. *)
Definition absDuration (value : Duration) : Duration := if value <? 0 then wrap_i64 (- value) else value.

(** [time.Unix(timestamp, 0)]: the seconds are counted from year 1 in 64 bits. *)
Definition time_Unix (timestamp : Z) : Time :=
  from_unix (wrap_i64 (timestamp + 62135596800) - 62135596800).

Definition reserveNonce (server : Server) (principal nonce : string) (now : Time) : Server * bool :=
  let values := filter (λ e : string * Time, After e.2 now = true) (default ∅ (nonces server !! principal)) in
  let kept := set_nonces server (<[principal := values]> (nonces server)) in
  IF bool_decide (is_Some (values !! nonce)) || (4096 <=? Z.of_nat (size values)) RETURN (kept, false) ;;
  (set_nonces server (<[principal := <[nonce := now + 2 * maxClockSkew server]> values]> (nonces server)), true).

Definition singleAPIHeader (request : Wire.Request) (name : string) : option string :=
  match Wire.Header request name with
  | [value] => if bool_decide (value = "") then None else Some value
  | _ => None
  end.

Definition http_error (message : string) (code : Z) : Wire.Written :=
  {| Wire.Status := code;
     Wire.w_Header := Wire.set_header "X-Content-Type-Options" "nosniff"
                        (Wire.set_header "Content-Type" "text/plain; charset=utf-8" Wire.no_headers);
     Wire.w_Body := bytes_of message ++ [newline] |}.

Definition unauthorized : Wire.Written := http_error "unauthorized" 401.

Definition authorize (server : Server) (now : Time) (request : Wire.Request) (payload : bytes) :
    Server * option (Principal * string) :=
  match singleAPIHeader request HeaderPrincipal, singleAPIHeader request HeaderTimestamp,
        singleAPIHeader request HeaderNonce, singleAPIHeader request HeaderSignature with
  | Some principalText, Some timestampText, Some nonceText, Some signatureText =>
      IF negb (bool_decide (Wire.RawQuery request = ""))
         || (bool_decide (Wire.Method request = "GET")
             && (negb (Wire.ContentLength request =? 0)
                 || negb (bool_decide (Wire.TransferEncoding request = []))))
        RETURN (server, None) ;;
      match find_principal server principalText, ParseInt timestampText,
            DecodeString nonceText, DecodeString signatureText with
      | Some principal, Some timestamp, Some nonce, Some signature =>
          IF negb (bool_decide (FormatInt timestamp = timestampText)) || negb (blen nonce =? 16)
             || negb (bool_decide (EncodeToString nonce = nonceText)) || negb (blen signature =? 32)
             || negb (bool_decide (EncodeToString signature = signatureText))
             || (maxClockSkew server <? absDuration (Sub now (time_Unix timestamp)))
            RETURN (server, None) ;;
          let canonical := canonicalAPIRequest (p_ID principal) (Wire.Method request) (Wire.Path request)
                             timestampText nonceText (hex_encode (Sum256 payload)) in
          IF negb (bool_decide (signature = hmac_sha256 (p_Key principal) canonical))
            RETURN (server, None) ;;
          match reserveNonce server (p_ID principal) nonceText now with
          | (server, false) => (server, None)
          | (server, true) => (server, Some (principal, nonceText))
          end
      | _, _, _, _ => (server, None)
      end
  | _, _, _, _ => (server, None)
  end.

(** [Header.Get]. *)
Definition first_header (h : Wire.Headers) (name : string) : string :=
  match h name with v :: _ => v | [] => "" end.

Definition readAPIRequest (request : Wire.Request) : option bytes :=
  IF (Wire.ContentLength request <=? 0) || (maximumAPIBytes <? Wire.ContentLength request)
     || negb (bool_decide (first_header (Wire.Header request) "Content-Type" = "application/json"))
    RETURN None ;;
  match Wire.read_limited maximumAPIBytes (Wire.Body request) with
  | None => None
  | Some payload =>
      IF (blen payload =? 0) || (maximumAPIBytes <? blen payload)
         || negb (blen payload =? Wire.ContentLength request)
        RETURN None ;;
      Some payload
  end.

Definition decodeCanonicalAPI {A} (Decode : bytes → option A) (marshal : A → bytes) (payload : bytes) : option A :=
  match Decode payload with
  | None => None
  | Some x => if bool_decide (marshal x = payload) then Some x else None
  end.

(** What [append([]T(nil), values...)] leaves of an empty slice is nil. *)
Definition from_store : nils := {| nil_replicas := true; nil_acks := true |}.

Definition view_of (store : Store) : StateView :=
  match state store with
  | Some st => stateView st (digest store)
  | None => zero_view
  end.

Definition writeSignedState (store : Store) (status : Z) (principal : Principal) (requestNonce : string) :
    Wire.Written :=
  let payload := marshal_view from_store (view_of store) ++ [newline] in
  let canonical := canonicalAPIResponse (p_ID principal) requestNonce status (hex_encode (Sum256 payload)) in
  {| Wire.Status := status;
     Wire.w_Header := Wire.set_header "Cache-Control" "no-store"
       (Wire.set_header "Content-Type" "application/json"
         (Wire.set_header HeaderResponseSignature (EncodeToString (hmac_sha256 (p_Key principal) canonical))
            Wire.no_headers));
     Wire.w_Body := payload |}.

Definition writeMutationError (e : error) : Wire.Written :=
  match e with
  | ErrConflict | ErrExpired => http_error "generation state conflict" 409
  | ErrInvalid | ErrIO => http_error "generation state unavailable" 503
  end.

(** What one request meets: the clock at its authorization and at its change of the
    store, the faults of the file system, and what other calls did to the store before
    the change and before the answer. *)
Record weather : Type := {
  n_authorize : Time;
  n_change : Time;
  on_commit : faults;
  on_commit2 : faults;
  before_change : Store → Store;
  before_answer : Store → Store;
}.

(** The answer after a change of the store. *)
Definition finish (e : weather) (server : Server) (principal : Principal) (nonce : string)
    (changed : Store * option error) : Server * Store * Wire.Written :=
  match changed with
  | (store, Some err) => (server, store, writeMutationError err)
  | (store, None) =>
      let store := before_answer e store in
      (server, store, writeSignedState store 200 principal nonce)
  end.

Section Handlers.
Context (L : library).

Definition serve_state (server : Server) (store : Store) (e : weather) (request : Wire.Request) :
    Server * Store * Wire.Written :=
  match authorize server (n_authorize e) request [] with
  | (server, None) => (server, store, unauthorized)
  | (server, Some (principal, nonce)) =>
      match Advance (on_commit e) (before_change e store) (n_change e) with
      | (store, Some _) => (server, store, http_error "generation state unavailable" 503)
      | (store, None) => finish e server principal nonce (store, None)
      end
  end.

Definition serve_publish (server : Server) (store : Store) (e : weather) (request : Wire.Request) :
    Server * Store * Wire.Written :=
  let bad := (server, store, http_error "invalid generation publication" 400) in
  match readAPIRequest request with
  | None => bad
  | Some payload =>
      match decodeCanonicalAPI (Decode_publish L) marshal_publish payload with
      | None => bad
      | Some input =>
          match authorize server (n_authorize e) request payload with
          | (server, None) => (server, store, unauthorized)
          | (server, Some (principal, nonce)) =>
              IF negb (bool_decide (p_Role principal = "publisher")) RETURN (server, store, unauthorized) ;;
              finish e server principal nonce
                (Publish (on_commit e) (before_change e store) (ExpectedRevision input) (ExpectedActive input)
                   (b_Pending input) (prepareTimeout server) (commitTimeout server) (n_change e))
          end
      end
  end.

Definition serve_abort (server : Server) (store : Store) (e : weather) (request : Wire.Request) :
    Server * Store * Wire.Written :=
  let bad := (server, store, http_error "invalid generation abort" 400) in
  match readAPIRequest request with
  | None => bad
  | Some payload =>
      match decodeCanonicalAPI (Decode_abort L) marshal_abort payload with
      | None => bad
      | Some input =>
          match authorize server (n_authorize e) request payload with
          | (server, None) => (server, store, unauthorized)
          | (server, Some (principal, nonce)) =>
              IF negb (bool_decide (p_Role principal = "publisher")) RETURN (server, store, unauthorized) ;;
              finish e server principal nonce
                (Abort_ (on_commit e) (before_change e store) (a_ExpectedRevision input) (a_Pending input)
                   (n_change e))
          end
      end
  end.

Definition serve_ack (server : Server) (store : Store) (e : weather) (request : Wire.Request) :
    Server * Store * Wire.Written :=
  let bad := (server, store, http_error "invalid generation acknowledgement" 400) in
  match readAPIRequest request with
  | None => bad
  | Some payload =>
      match decodeCanonicalAPI (Decode_ack L) marshal_ack payload with
      | None => bad
      | Some input =>
          match authorize server (n_authorize e) request payload with
          | (server, None) => (server, store, unauthorized)
          | (server, Some (principal, nonce)) =>
              IF negb (bool_decide (p_Role principal = "controlplane"))
                 && negb (bool_decide (p_Role principal = "firmwareorigin"))
                RETURN (server, store, unauthorized) ;;
              finish e server principal nonce
                (Acknowledge (on_commit e) (on_commit2 e) (before_change e store) (k_ExpectedRevision input)
                   {| r_ID := p_ID principal; r_Role := p_Role principal |} (k_Generation input)
                   (k_Stage input) (n_change e))
          end
      end
  end.

(** The readiness page: 503 while a generation converges too slowly. *)
Definition ready (store : Store) (now : Time) : Z :=
  match state store with
  | Some st => if bool_decide (Phase st = PhaseCommitting) && (CommitDeadline st <? Unix now) then 503 else 200
  | None => 200
  end.

(** ** The client *)

Record Client : Type := {
  baseURL : string;
  c_principal : Principal;
}.

Definition NewClient (baseURL : string) (principal : Principal) (allowInsecure : bool) : option Client :=
  match url_Parse L baseURL with
  | None => None
  | Some parsed =>
      IF bool_decide (Wire.u_Host parsed = "") || negb (bool_decide (Wire.u_Path parsed = ""))
         || negb (bool_decide (Wire.u_RawQuery parsed = "")) || negb (bool_decide (Wire.u_Fragment parsed = ""))
         || Wire.u_HasUser parsed
         || (negb (bool_decide (Wire.u_Scheme parsed = "https"))
             && negb (allowInsecure && bool_decide (Wire.u_Scheme parsed = "http")))
         || negb (ValidIdentifier (p_ID principal) 64) || (blen (p_Key principal) <? 32)
         || (negb (bool_decide (p_Role principal = "publisher"))
             && negb (bool_decide (p_Role principal = "controlplane"))
             && negb (bool_decide (p_Role principal = "firmwareorigin")))
        RETURN None ;;
      IF bool_decide (last (bytes_of baseURL) = Some (byte_of 47)) RETURN None ;;
      Some {| baseURL := baseURL; c_principal := principal |}
  end.

(** The headers of a request; [payload] is nil for a read. *)
Definition request_headers (client : Client) (timestamp nonce signature : string) (payload : option bytes) :
    Wire.Headers :=
  let h := Wire.set_header "Accept" "application/json"
    (Wire.set_header HeaderSignature signature
      (Wire.set_header HeaderNonce nonce
        (Wire.set_header HeaderTimestamp timestamp
          (Wire.set_header HeaderPrincipal (p_ID (c_principal client)) Wire.no_headers)))) in
  match payload with None => h | Some _ => Wire.set_header "Content-Type" "application/json" h end.

(** The answer: the view that it carries, when it was made for this request. *)
Definition view_in (client : Client) (nonce : string) (response : Wire.Response) : result error StateView :=
  match Wire.read_limited maximumAPIBytes (Wire.r_Body response) with
  | None => Err ErrIO
  | Some responsePayload =>
      IF maximumAPIBytes <? blen responsePayload RETURN Err ErrIO ;;
      IF negb (Wire.StatusCode response =? 200)
        RETURN (if Wire.StatusCode response =? 409 then Err ErrConflict else Err ErrIO) ;;
      let signatureText := first_header (Wire.r_Header response) HeaderResponseSignature in
      match DecodeString signatureText with
      | None => Err ErrIO
      | Some signature =>
          IF negb (blen signature =? 32) || negb (bool_decide (EncodeToString signature = signatureText))
            RETURN Err ErrIO ;;
          let canonical := canonicalAPIResponse (p_ID (c_principal client)) nonce (Wire.StatusCode response)
                             (hex_encode (Sum256 responsePayload)) in
          IF negb (bool_decide (signature = hmac_sha256 (p_Key (c_principal client)) canonical))
            RETURN Err ErrIO ;;
          match Decode_view L responsePayload with
          | None => Err ErrIO
          | Some (view, n) =>
              IF negb (bool_decide (marshal_view n view ++ [newline] = responsePayload))
                 || negb (validateStateView view)
                RETURN Err ErrIO ;;
              Ok view
          end
      end
  end.

Definition api_request (client : Client) (now : Time) (nonce : string) (method path : string) (u : Wire.URL)
    (payload : option bytes) : Wire.Request :=
  let timestamp := FormatInt (Unix now) in
  let body := default [] payload in
  let canonical := canonicalAPIRequest (p_ID (c_principal client)) method path timestamp nonce
                     (hex_encode (Sum256 body)) in
  let signature := EncodeToString (hmac_sha256 (p_Key (c_principal client)) canonical) in
  FactoryTime.new_request method u body (request_headers client timestamp nonce signature payload).

(** [random] is what the random source delivers, [Do] sends a request and waits. *)
Definition call_ (client : Client) (now : Time) (random : option bytes)
    (Do : Wire.Request → option Wire.Response) (method path : string) (payload : option bytes) :
    result error StateView :=
  match random with
  | None => Err ErrIO
  | Some value =>
      let nonce := EncodeToString value in
      match url_Parse L (baseURL client +:+ path) with
      | None => Err ErrIO
      | Some u =>
          match Do (api_request client now nonce method path u payload) with
          | None => Err ErrIO
          | Some response => view_in client nonce response
          end
      end
  end.

Definition GetState (client : Client) now random Do : result error StateView :=
  call_ client now random Do "GET" pathState None.

Definition ClientPublish (client : Client) now random Do (request : PublishRequest) : result error StateView :=
  IF negb (bool_decide (p_Role (c_principal client) = "publisher")) RETURN Err ErrInvalid ;;
  call_ client now random Do "POST" pathPublish (Some (marshal_publish request)).

Definition ClientAbort (client : Client) now random Do (request : AbortRequest) : result error StateView :=
  IF negb (bool_decide (p_Role (c_principal client) = "publisher")) RETURN Err ErrInvalid ;;
  call_ client now random Do "POST" pathAbort (Some (marshal_abort request)).

Definition ClientAcknowledge (client : Client) now random Do (request : AckRequest) : result error StateView :=
  IF negb (bool_decide (p_Role (c_principal client) = "controlplane"))
     && negb (bool_decide (p_Role (c_principal client) = "firmwareorigin"))
    RETURN Err ErrInvalid ;;
  call_ client now random Do "POST" pathAck (Some (marshal_ack request)).

End Handlers.

End GenerationAPI.
