(* ===== verification/GenerationAPITheorems.v ===== *)
(** * GenerationAPITheorems: what a signed request can do to the coordinator

    Theorems on [GenerationAPI]. A history is any sequence of calls of the four handlers,
    of ticks of the coordinator's own loop and of restarts of its process, on a directory
    that was initialised once; every change of the store in it is traced to the key that
    signed for it. *)

From stdpp Require Import base gmap strings list.
From Stdlib Require Import ZArith Lia.
From Stdlib.Strings Require Import Byte.
From S2P Require Import Prelude GoBase GoCrypto Protocol Auth GoWire FactoryTime Generation GenerationGuard GenerationAPI.

Module GenerationAPITheorems.
Import Ident Generation GenerationGuard GenerationAPI.

(** ** One request *)

Inductive endpoint : Type := AtState | AtPublish | AtAbort | AtAck.

#[global] Instance endpoint_eq_dec : EqDecision endpoint.
Proof. solve_decision. Defined.

Definition serve (L : library) (server : Server) (store : Store) (ep : endpoint) (e : weather)
    (request : Wire.Request) : Server * Store * Wire.Written :=
  match ep with
  | AtState => serve_state server store e request
  | AtPublish => serve_publish L server store e request
  | AtAbort => serve_abort L server store e request
  | AtAck => serve_ack L server store e request
  end.

(** The request carries the MAC of principal [p] on its method, path and [payload]. *)
Definition signed_by (p : Principal) (request : Wire.Request) (payload : bytes) (nonce : string) : Prop :=
  ∃ timestamp,
    singleAPIHeader request HeaderNonce = Some nonce ∧
    singleAPIHeader request HeaderTimestamp = Some timestamp ∧
    singleAPIHeader request HeaderSignature =
      Some (EncodeToString (hmac_sha256 (p_Key p)
        (canonicalAPIRequest (p_ID p) (Wire.Method request) (Wire.Path request) timestamp nonce
           (hex_encode (Sum256 payload))))).

(** What [payload] asks of the store, under the role of the principal that asks. *)
Inductive asks (server : Server) (e : weather) (p : Principal) : endpoint → bytes → op → Prop :=
| asks_state : asks server e p AtState [] (OAdvance (on_commit e) (n_change e))
| asks_publish q :
    p_Role p = "publisher" →
    asks server e p AtPublish (marshal_publish q)
      (OPublish (on_commit e) (ExpectedRevision q) (ExpectedActive q) (b_Pending q)
         (prepareTimeout server) (commitTimeout server) (n_change e))
| asks_abort q :
    p_Role p = "publisher" →
    asks server e p AtAbort (marshal_abort q)
      (OAbort (on_commit e) (a_ExpectedRevision q) (a_Pending q) (n_change e))
| asks_ack q :
    p_Role p = "controlplane" ∨ p_Role p = "firmwareorigin" →
    asks server e p AtAck (marshal_ack q)
      (OAcknowledge (on_commit e) (on_commit2 e) (k_ExpectedRevision q)
         {| r_ID := p_ID p; r_Role := p_Role p |} (k_Generation q) (k_Stage q) (n_change e)).

(** How a handler can end: it refused, or it performed the operation that a known
    principal asked for and answered with the state or with the error. *)
Inductive outcome (server : Server) (store : Store) (e : weather) (ep : endpoint) (request : Wire.Request) :
    Store → Wire.Written → Prop :=
| refused w :
    Wire.Status w ≠ 200 → outcome server store e ep request store w
| performed p name payload nonce o store' err store'' w :
    find_principal server name = Some p → signed_by p request payload nonce →
    asks server e p ep payload o → exec (before_change e store) o = (store', err) →
    match err with
    | None => store'' = before_answer e store' ∧ w = writeSignedState store'' 200 p nonce
    | Some _ => store'' = store' ∧ Wire.Status w ≠ 200
    end →
    outcome server store e ep request store'' w.

(** Nothing but the table of nonces changes in a server. *)
Definition same_config (a b : Server) : Prop := ∃ n, b = set_nonces a n.

Lemma same_config_refl a : same_config a a.
Proof. exists (nonces a). by destruct a. Qed.

Lemma same_config_trans a b c : same_config a b → same_config b c → same_config a c.
Proof. intros [n ->] [m ->]. by exists m. Qed.

Lemma same_config_find a b name : same_config a b → find_principal b name = find_principal a name.
Proof. by intros [n ->]. Qed.

Lemma nonce_config server principal nonce now :
  same_config server (reserveNonce server principal nonce now).1.
Proof. unfold reserveNonce. destruct (_ || _); eexists; done. Qed.

(** What an authorization did: nothing, or it reserved the nonce of a request that
    carries the MAC of a principal and a timestamp within the skew. *)
Inductive authorization (server : Server) (now : Time) (request : Wire.Request) (payload : bytes) :
    Server → option (Principal * string) → Prop :=
| not_genuine : authorization server now request payload server None
| genuine name p nonce timestamp t server' ok :
    find_principal server name = Some p → signed_by p request payload nonce →
    singleAPIHeader request HeaderTimestamp = Some timestamp → ParseInt timestamp = Some t →
    absDuration (Sub now (time_Unix t)) ≤ maxClockSkew server →
    reserveNonce server (p_ID p) nonce now = (server', ok) →
    authorization server now request payload server' (if ok then Some (p, nonce) else None).

Lemma authorize_inv server now request payload server' r :
  authorize server now request payload = (server', r) →
  authorization server now request payload server' r.
Proof.
  unfold authorize.
  destruct (singleAPIHeader request HeaderPrincipal) as [principalText|] eqn:HP; [|intros [= <- <-]; constructor].
  destruct (singleAPIHeader request HeaderTimestamp) as [timestampText|] eqn:HT; [|intros [= <- <-]; constructor].
  destruct (singleAPIHeader request HeaderNonce) as [nonceText|] eqn:HN; [|intros [= <- <-]; constructor].
  destruct (singleAPIHeader request HeaderSignature) as [signatureText|] eqn:HS; [|intros [= <- <-]; constructor].
  guard H1; [intros [= <- <-]; constructor|].
  destruct (find_principal server principalText) as [p|] eqn:Hp; [|intros [= <- <-]; constructor].
  destruct (ParseInt timestampText) as [timestamp|] eqn:Ht; [|intros [= <- <-]; constructor].
  destruct (DecodeString nonceText) as [nonce|]; [|intros [= <- <-]; constructor].
  destruct (DecodeString signatureText) as [signature|]; [|intros [= <- <-]; constructor].
  guard H2; [intros [= <- <-]; constructor|]. cbv zeta. guard H3; [intros [= <- <-]; constructor|].
  destruct (reserveNonce _ _ _ _) as [server1 ok] eqn:Hr. apply negb_false_iff, bool_decide_eq_true in H3.
  split_bools. intros Heq.
  assert ((server1, if ok then Some (p, nonceText) else None) = (server', r)) as [= <- <-] by by destruct ok.
  eapply genuine; try done. exists timestampText. split_and!; [done..|congruence].
Qed.

Lemma authorize_spec server now request payload server' r :
  authorize server now request payload = (server', r) →
  same_config server server' ∧
  ∀ p nonce, r = Some (p, nonce) →
    ∃ name, find_principal server name = Some p ∧ signed_by p request payload nonce.
Proof.
  intros [|name p nonce timestamp t server1 ok Hp Hs _ _ _ Hr]%authorize_inv; [split; [apply same_config_refl|done]|].
  pose proof (nonce_config server (p_ID p) nonce now) as Hc. rewrite Hr in Hc. split; [done|].
  destruct ok; [|done]. intros p' nonce' [= <- <-]. eauto.
Qed.

Lemma decode_canonical {A} (D : bytes → option A) marshal payload x :
  decodeCanonicalAPI D marshal payload = Some x → payload = marshal x.
Proof.
  unfold decodeCanonicalAPI. destruct (D payload) as [y|]; [|done]. case_bool_decide; [|done].
  by intros [= <-].
Qed.

Lemma finish_outcome server server1 store e ep request p name payload nonce o changed :
  find_principal server name = Some p → signed_by p request payload nonce →
  asks server e p ep payload o → exec (before_change e store) o = changed →
  outcome server store e ep request (finish e server1 p nonce changed).1.2
    (finish e server1 p nonce changed).2.
Proof.
  intros Hp Hs Ha Hx. unfold finish. destruct changed as [store' [err|] ]; cbn;
    eapply performed; try done; cbn; split; try done. by destruct err.
Qed.

Lemma finish_server e server p nonce changed : (finish e server p nonce changed).1.1 = server.
Proof. by destruct changed as [store' [err|] ]. Qed.

(** A handler that reads a body: it is refused, or it has a canonical payload and a
    principal that signed it. *)
Ltac open_request Hno :=
  destruct (readAPIRequest _) as [payload|]; [|by apply Hno];
  destruct (decodeCanonicalAPI _ _ _) as [q|] eqn:Hd; [apply decode_canonical in Hd as ->|by apply Hno];
  destruct (authorize _ _ _ _) as [server1 [ [p nonce] |] ] eqn:Ha;
    apply authorize_spec in Ha as [Hc Hr]; [|split; [done|by apply refused]];
  destruct (Hr _ _ eq_refl) as (name & Hp & Hs).

Lemma serve_outcome L server store ep e request :
  let r := serve L server store ep e request in
  same_config server r.1.1 ∧ outcome server store e ep request r.1.2 r.2.
Proof.
  assert (∀ m c, c ≠ 200 →
    same_config server server ∧ outcome server store e ep request store (http_error m c)) as Hno.
  { intros m c Hw. split; [apply same_config_refl|by constructor]. }
  destruct ep; cbn [serve]; unfold serve_state, serve_publish, serve_abort, serve_ack; cbv zeta.
  - destruct (authorize _ _ _ _) as [server1 [ [p nonce] |] ] eqn:Ha;
      apply authorize_spec in Ha as [Hc Hr]; [|split; [done|by apply refused]].
    destruct (Hr _ _ eq_refl) as (name & Hp & Hs).
    destruct (Advance _ _ _) as [store1 [err|] ] eqn:Hx.
    + cbn. split; [done|]. eapply performed; [done..|apply asks_state|exact Hx|cbn; done].
    + rewrite finish_server. split; [done|]. eapply finish_outcome; [done..|apply asks_state|exact Hx].
  - open_request Hno. case_bool_decide as Hrole; cbn [negb]; [|split; [done|by apply refused]].
    rewrite finish_server. split; [done|].
    eapply finish_outcome; [done..|by apply asks_publish|]. by destruct Hc as [n ->].
  - open_request Hno. case_bool_decide as Hrole; cbn [negb]; [|split; [done|by apply refused]].
    rewrite finish_server. split; [done|]. eapply finish_outcome; [done..|by apply asks_abort|done].
  - open_request Hno. destruct (_ && _) eqn:Hrole; [split; [done|by apply refused]|].
    rewrite finish_server. split; [done|]. eapply finish_outcome; [done..|apply asks_ack|done].
    apply andb_false_iff in Hrole as [Hrole|Hrole]; split_bools; auto.
Qed.

(** ** What the store remembers of acknowledgements *)

Lemma validReplicas_from_spec values seen c o :
  validReplicas_from values seen c o = true →
  NoDup (r_ID <$> values) ∧ Forall (λ v, r_ID v ∉ seen) values.
Proof.
  revert seen c o. induction values as [|v values IH]; intros seen c o; cbn [validReplicas_from];
    [intros _; split; constructor|].
  guard H1. guard H2. intros H. apply IH in H as [Hnd Hf]. apply bool_decide_eq_false in H2.
  rewrite Forall_forall in Hf. split.
  - cbn. constructor; [|done]. intros (w & Hw & Hin)%list_elem_of_fmap.
    specialize (Hf w Hin). rewrite <- Hw in Hf. set_solver.
  - constructor; [done|]. apply Forall_forall. intros w Hin. specialize (Hf w Hin). set_solver.
Qed.

Lemma validReplicas_inj values a b :
  validReplicas values = true → a ∈ values → b ∈ values → r_ID a = r_ID b → a = b.
Proof.
  unfold validReplicas. guard Hl. intros [Hnd _]%validReplicas_from_spec [i Hi]%list_elem_of_lookup
    [j Hj]%list_elem_of_lookup Heq.
  assert (i = j) as ->; [|congruence].
  eapply NoDup_lookup; [exact Hnd| |]; rewrite list_lookup_fmap; [by rewrite Hi|by rewrite Hj, Heq].
Qed.

Lemma containsReplica_elem values r : containsReplica values r = true ↔ r ∈ values.
Proof.
  unfold containsReplica. rewrite existsb_exists. setoid_rewrite bool_decide_eq_true.
  setoid_rewrite <- list_elem_of_In. naive_solver.
Qed.

Lemma valid_acks_member st acks seen a :
  valid_acks st acks seen = true → a ∈ acks →
  {| r_ID := ReplicaID a; r_Role := Role a |} ∈ RequiredReplicas st.
Proof.
  revert seen. induction acks as [|b acks IH]; intros seen; cbn [valid_acks]; [by intros _ ?%elem_of_nil|].
  guard H. intros Hv [->|Hin]%elem_of_cons; [|by eapply IH].
  apply containsReplica_elem. by split_bools.
Qed.

Lemma valid_state_parts st :
  validateState st = true →
  validReplicas (RequiredReplicas st) = true ∧ valid_acks st (Acknowledgements st) ∅ = true.
Proof. unfold validateState. guard H1. guard H2. guard H3. guard H4. by split_bools. Qed.

(** An entry names one of the required replicas, with its role. *)
Lemma ack_role st a r :
  validateState st = true → a ∈ Acknowledgements st → r ∈ RequiredReplicas st → ReplicaID a = r_ID r →
  Role a = r_Role r.
Proof.
  intros [Hr Ha]%valid_state_parts Hin Hreq Hid. eapply valid_acks_member in Ha; [|done].
  by rewrite <- (validReplicas_inj _ _ _ Hr Ha Hreq Hid).
Qed.

Lemma insert_by_elem {A} (key : A → string) x y xs : x ∈ insert_by key y xs ↔ x = y ∨ x ∈ xs.
Proof.
  induction xs as [|z xs IH]; cbn; [set_solver|]. destruct (str_ltb _ _); set_solver.
Qed.

Lemma sort_by_elem {A} (key : A → string) x xs : x ∈ sort_by key xs ↔ x ∈ xs.
Proof. induction xs as [|y xs IH]; cbn; [done|]. rewrite insert_by_elem, IH. set_solver. Qed.

Lemma restage_none acks id stage at_ : restage acks id stage at_ = None → ackStage acks id = "".
Proof.
  induction acks as [|a acks IH]; cbn; [done|]. destruct (bool_decide _); [by destruct (bool_decide _)|].
  destruct (restage _ _ _ _) as [ [|] |]; done || auto.
Qed.

(** Every entry after [restage] is an old one, or the old entry of the replica at the new
    stage; every old entry is still there under its identity. *)
Lemma restage_some acks id stage at_ acks' :
  restage acks id stage at_ = Some (inr acks') →
  (∀ a, a ∈ acks' → a ∈ acks ∨ ∃ b, b ∈ acks ∧ ReplicaID b = id ∧ ReplicaID a = id ∧ Role a = Role b ∧
     Stage a = stage ∧ GenerationID a = GenerationID b ∧ AckReceiptSHA256 a = AckReceiptSHA256 b) ∧
  (∀ a, a ∈ acks → ∃ b, b ∈ acks' ∧ ReplicaID b = ReplicaID a ∧ Role b = Role a).
Proof.
  revert acks'. induction acks as [|a acks IH]; intros acks'; cbn; [done|].
  destruct (bool_decide (ReplicaID a = id)) eqn:E.
  - destruct (bool_decide (Stage a = stage)); [discriminate|]. intros [= <-]. split_bools. split.
    + intros b [->|Hb]%elem_of_cons; [right; exists a; cbn; split; [by left|done]|left; by right].
    + intros b [->|Hb]%elem_of_cons; [eexists; split; [by left|done]|].
      exists b. split; [by right|done].
  - destruct (restage _ _ _ _) as [ [|acks1] |]; [discriminate| |discriminate]. intros [= <-].
    destruct (IH _ eq_refl) as [IH1 IH2]. split.
    + intros b [->|Hb]%elem_of_cons; [left; by left|]. destruct (IH1 b Hb) as [?|(c & ? & ?)];
        [left; by right|right; exists c; split; [by right|done]].
    + intros b [->|Hb]%elem_of_cons; [exists a; split; [by left|done]|].
      destruct (IH2 b Hb) as (c & ? & ?). exists c. split; [by right|done].
Qed.

Section heard.
(** [said id role stage generation receipt]: that replica made this acknowledgement. *)
Context (said : string → string → string → string → string → Prop).

Definition backed (a : Acknowledgement) : Prop :=
  said (ReplicaID a) (Role a) AckPrepared (GenerationID a) (AckReceiptSHA256 a) ∧
  (Stage a = AckActive → said (ReplicaID a) (Role a) AckActive (GenerationID a) (AckReceiptSHA256 a)).

(** The entries of a state are backed by what was said, and a committing one has an
    entry of every required replica. *)
Definition traced (st : State) : Prop :=
  (∀ a, a ∈ Acknowledgements st → backed a) ∧
  (Phase st = PhaseCommitting ∨ Phase st = PhaseDraining → ∀ r, r ∈ RequiredReplicas st →
     ∃ a, a ∈ Acknowledgements st ∧ ReplicaID a = r_ID r ∧ Role a = r_Role r).

(** Every record of the store's directory is: the state in memory and, after an
    interrupted commit, the one that the next process will find. *)
Definition store_traced (store : Store) : Prop :=
  ∃ chain, disk_inv store chain ∧ ∀ st, st ∈ chain → traced st.

Lemma traced_state store st :
  store_traced store → state store = Some st → validateState st = true ∧ traced st.
Proof.
  intros (chain & (_ & Hok & pre & st' & Hst' & _ & Hpos) & Ht) Hst. rewrite Hst' in Hst. injection Hst as ->.
  assert (chain !! length pre = Some st) as Hi
    by (destruct Hpos as [->|[ahead ->] ]; by apply list_lookup_middle).
  split; [by destruct (Hok _ _ Hi) as (_ & ? & _)|]. apply Ht. by eapply list_elem_of_lookup_2.
Qed.

Lemma traced_note store t : store_traced store → store_traced (set_drainStarted store t).
Proof. intros (chain & ? & ?). exists chain. split; [by apply disk_inv_note|done]. Qed.

Definition heard (o : op) : Prop :=
  match o with
  | OAcknowledge _ _ _ replica g stage _ => said (r_ID replica) (r_Role replica) stage (ID g) (ReceiptSHA256 g)
  | _ => True
  end.

Lemma commit_traced f store next :
  store_traced store → (validateState next = true → traced next) →
  store_traced (commitLocked f store next).1.
Proof.
  intros (chain & Hinv & Ht) Hn. destruct (commitLocked f store next) as [store' e] eqn:Hc.
  destruct (commitLocked_spec _ _ _ _ _ _ Hinv Hc) as [chain' Hr]. exists chain'.
  destruct Hr; (split; [done|]); [done|..]; intros s [Hs| ->%list_elem_of_singleton]%elem_of_app; auto.
Qed.

Lemma valid_stable_acks st :
  validateState st = true → Phase st = PhaseStable → Acknowledgements st = [].
Proof.
  intros Hv HP. revert Hv. unfold validateState. guard H1. guard H2. guard H3. guard H4.
  unfold valid_phase. rewrite bool_decide_true by done. intros Hv. split_bools.
  by destruct (Acknowledgements st).
Qed.

Lemma stable_traced st : traced (makeStable st).
Proof. split; [by intros a ?%elem_of_nil|]. by intros [?|?]. Qed.

Lemma preparing_traced st g p c : traced (make_preparing st g p c).
Proof. split; [by intros a ?%elem_of_nil|]. by intros [?|?]. Qed.

Lemma commit_stable f store st now :
  store_traced store → store_traced (commitLocked f store (makeStable (nextLocked store st now))).1.
Proof. intros Hs. apply commit_traced; [done|]. intros _. apply stable_traced. Qed.

Lemma advance_traced f store now : store_traced store → store_traced (Advance f store now).1.
Proof.
  intros Hs. unfold Advance, on_state. destruct (state store) as [st|] eqn:Hst; [|done].
  destruct (negb _); [done|]. destruct (bool_decide (Phase st = PhasePreparing)).
  { destruct (_ <=? _); [done|]. by apply commit_stable. }
  destruct (bool_decide (Phase st = PhaseDraining)) eqn:HD.
  - cbv zeta. set (store0 := if IsZero _ then _ else _).
    assert (store_traced store0) as Hs0 by (unfold store0; destruct (IsZero _); [by apply traced_note|done]).
    destruct (_ || _); [done|]. destruct (Pending st) as [g|]; [|done].
    apply commit_traced; [done|]. intros _. destruct (traced_state _ _ Hs Hst) as [_ [Hb Hall] ]. split_bools.
    split; [done|]. intros _. apply Hall. by right.
  - destruct (bool_decide (Phase st = PhaseCommitting)); [|done].
    destruct (allAcknowledged _ _); [by apply commit_stable|done].
Qed.

Lemma draining_covered st r :
  validateState st = true → Phase st = PhaseDraining → r ∈ RequiredReplicas st →
  ∃ a, a ∈ Acknowledgements st ∧ ReplicaID a = r_ID r ∧ Role a = r_Role r.
Proof.
  intros Hv HP Hr. destruct (valid_draining st Hv HP) as [Hall _].
  destruct (allAcknowledged_all _ _ _ Hall Hr) as (a & ? & ? & ? & _). eauto.
Qed.

(** The state with a new acknowledgement in place. *)
Lemma ack_commit_traced f f2 store next stage now :
  store_traced store → (∀ a, a ∈ Acknowledgements next → backed a) →
  (Phase next = PhaseCommitting → traced next) → Phase next ≠ PhaseDraining →
  store_traced (ack_commit f f2 store next stage now).1.
Proof.
  intros Hs Hb Hc Hnd. unfold ack_commit. cbv zeta.
  set (lst := allAcknowledged next stage && bool_decide (stage = AckPrepared)).
  set (nx := if lst then make_draining next _ else next).
  set (store0 := if lst then set_drainStarted store now else store).
  assert (store_traced store0) as Hs0 by (unfold store0; destruct lst; [by apply traced_note|done]).
  assert (validateState nx = true → traced nx) as Hnx.
  { intros Hv. split; [unfold nx; by destruct lst|]. intros Hph r Hr.
    destruct (decide (Phase nx = PhaseDraining)) as [HP|HP]; [by apply draining_covered|].
    destruct Hph as [Hph|]; [|done]. unfold nx in *. destruct lst; [done|].
    by apply (proj2 (Hc Hph)); auto. }
  pose proof (commit_traced f store0 nx Hs0 Hnx) as Hs1.
  destruct (commitLocked f store0 nx) as [store1 [e|] ]; [done|]. cbn in Hs1.
  unfold on_state. destruct (state store1) as [st1|]; [|done].
  destruct (bool_decide (stage = AckActive) && _); [by apply commit_stable|done].
Qed.
Lemma ack_guard_traced f store st replica g stage now r :
  store_traced store → state store = Some st → ack_guard f store st replica g stage now = r →
  match r with
  | Some (store', _) => store_traced store'
  | None =>
      (stage = AckPrepared ∧ Phase st = PhasePreparing) ∨
      (stage = AckActive ∧ Phase st = PhaseCommitting ∧ Active st = g ∧
       ackStage (Acknowledgements st) (r_ID replica) = AckPrepared)
  end.
Proof.
  intros Hs Hst <-. unfold ack_guard. destruct (bool_decide (stage = AckPrepared)) eqn:E1.
  - destruct (_ || _) eqn:E2; [done|]. split_bools. destruct (_ <? _); [|by left].
    pose proof (commit_stable f store st now Hs) as Hc. by destruct (commitLocked _ _ _).
  - destruct (bool_decide (stage = AckActive)) eqn:E2; [|done].
    destruct (_ || _) eqn:E3; [done|]. split_bools. right. split_and!; [done..| |done].
    by apply sameGeneration_eq.
Qed.

Lemma new_entry_backed replica g stage at_ :
  said (r_ID replica) (r_Role replica) stage (ID g) (ReceiptSHA256 g) → stage = AckPrepared →
  backed {| ReplicaID := r_ID replica; Role := r_Role replica; Stage := stage; GenerationID := ID g;
            AckReceiptSHA256 := ReceiptSHA256 g; AcknowledgedAt := at_ |}.
Proof. intros Hsaid ->. by split. Qed.

(** Moving an entry to a stage that its replica said. *)
Lemma moved_entry_backed st replica g stage a b :
  validateState st = true → traced st → replica ∈ RequiredReplicas st →
  said (r_ID replica) (r_Role replica) stage (ID g) (ReceiptSHA256 g) →
  (stage = AckActive → Phase st = PhaseCommitting ∧ Active st = g) →
  b ∈ Acknowledgements st → ReplicaID b = r_ID replica → ReplicaID a = r_ID replica → Role a = Role b →
  Stage a = stage → GenerationID a = GenerationID b → AckReceiptSHA256 a = AckReceiptSHA256 b →
  backed a.
Proof.
  intros Hv [Hb _] Hreq Hsaid Hact Hin Hid Ha Hrole Hstage Hgen Hrec.
  destruct (Hb b Hin) as [Hp _]. split; rewrite Ha, Hrole, Hgen, Hrec; [by rewrite <- Hid|].
  intros HA. rewrite HA in Hstage. destruct (Hact (eq_sym Hstage)) as [HP Hg].
  destruct (valid_committing st Hv HP) as [Hm _]. specialize (Hm b Hin). unfold ackMatches in Hm. split_bools.
  rewrite (ack_role st b replica) by done. rewrite <- Hstage in Hsaid. congruence.
Qed.

Lemma acknowledge_traced f f2 store rev replica g stage now :
  store_traced store → said (r_ID replica) (r_Role replica) stage (ID g) (ReceiptSHA256 g) →
  store_traced (Acknowledge f f2 store rev replica g stage now).1.
Proof.
  intros Hs Hsaid. unfold Acknowledge, on_state. destruct (state store) as [st|] eqn:Hst; [|done].
  destruct (_ || _) eqn:E; [done|]. split_bools.
  assert (replica ∈ RequiredReplicas st) as Hreq by by apply containsReplica_elem.
  destruct (traced_state _ _ Hs Hst) as [Hv Ht].
  pose proof (ack_guard_traced f store st replica g stage now _ Hs Hst eq_refl) as Hg.
  destruct (ack_guard _ _ _ _ _ _ _) as [ [s1 e1] |]; [done|]. cbv zeta.
  assert (Phase st ≠ PhaseDraining) as Hnd by (destruct Hg as [ [_ ->] | (_ & -> & _)]; done).
  assert (stage = AckActive → Phase st = PhaseCommitting ∧ Active st = g) as Hact
    by (intros ->; destruct Hg as [ [? _] |(_ & ? & ? & _)]; done).
  change (Acknowledgements (nextLocked store st now)) with (Acknowledgements st).
  destruct (restage _ _ _ _) as [ [ [] |acks] |] eqn:Hre; [done|..].
  - destruct (restage_some _ _ _ _ _ Hre) as [Hold Hkept].
    assert (∀ a, a ∈ sort_by ReplicaID acks → backed a) as Hb.
    { intros a [Hin|(b & ? & ? & ? & ? & ? & ? & ?)]%sort_by_elem%Hold; [by apply Ht|].
      by apply (moved_entry_backed st replica g stage a b). }
    apply ack_commit_traced; [done|exact Hb| |done]. intros HP. split; [exact Hb|]. intros _ r Hr.
    destruct (proj2 Ht (or_introl HP) r Hr) as (a & Hin & Hid & Hrole).
    destruct (Hkept a Hin) as (b & Hinb & Hidb & Hroleb). exists b.
    split_and!; [by apply sort_by_elem|congruence|congruence].
  - destruct Hg as [ [Hprep HP] |(_ & _ & _ & Hstage)];
      [|apply restage_none in Hre; by rewrite Hre in Hstage].
    apply ack_commit_traced; [done| | |done].
    + intros a [Hin|Ha%list_elem_of_singleton]%sort_by_elem%elem_of_app; [by apply Ht|]. subst a.
      by apply new_entry_backed.
    + intros HC. change (Phase st = PhaseCommitting) in HC. by rewrite HP in HC.
Qed.

Lemma exec_traced store o : store_traced store → heard o → store_traced (exec store o).1.
Proof.
  intros Hs Ho. destruct o as [f rev act pend pt ct now|f rev pend now|f f2 rev replica g stage now|f now];
    cbn [exec].
  - unfold Publish, on_state. destruct (state store) as [st|]; [|done].
    destruct (_ || _); [done|]. destruct (_ || _); [done|]. apply commit_traced; [done|].
    intros _. apply preparing_traced.
  - unfold Abort_, on_state. destruct (state store) as [st|]; [|done].
    destruct (_ || _); [done|]. by apply commit_stable.
  - by apply acknowledge_traced.
  - by apply advance_traced.
Qed.

(** A committing state: every required replica said that it prepared this generation. *)
Lemma committing_said store st r :
  store_traced store → state store = Some st → Phase st = PhaseCommitting → r ∈ RequiredReplicas st →
  said (r_ID r) (r_Role r) AckPrepared (ID (Active st)) (ReceiptSHA256 (Active st)).
Proof.
  intros Hs Hst HP Hr. destruct (traced_state _ _ Hs Hst) as [Hv [Hb Hall] ].
  destruct (Hall (or_introl HP) r Hr) as (a & Hin & Hid & Hrole). destruct (Hb a Hin) as [Hp _].
  destruct (valid_committing st Hv HP) as [Hm _]. specialize (Hm a Hin). unfold ackMatches in Hm.
  split_bools. congruence.
Qed.
End heard.

Lemma traced_mono (said said' : string → string → string → string → string → Prop) store :
  (∀ a b c d e, said a b c d e → said' a b c d e) → store_traced said store → store_traced said' store.
Proof.
  intros Hi (chain & Hinv & Hs). exists chain. split; [done|]. intros st Hst.
  destruct (Hs st Hst) as [Hb Hall]. split; [|done].
  intros a Ha. destruct (Hb a Ha). split; auto.
Qed.

(** ** Who the principals are *)

(** Every identity is filed under its own name, and no two share a key. *)
Definition registry_ok (registry : ReplicaRegistry) : Prop :=
  (∀ id p, identities registry !! id = Some p → p_ID p = id) ∧
  (∀ id id' p p', identities registry !! id = Some p → identities registry !! id' = Some p' →
     p_Key p = p_Key p' → id = id').

Lemma add_replica_ok acc entry acc' :
  registry_ok acc.1.1 → (∀ id p, identities acc.1.1 !! id = Some p → p_Key p ∈ acc.2) →
  add_replica acc entry = Some acc' →
  registry_ok acc'.1.1 ∧ ∀ id p, identities acc'.1.1 !! id = Some p → p_Key p ∈ acc'.2.
Proof.
  destruct acc as [ [registry prior] seen]. cbn. intros [Hid Hinj] Hseen. unfold add_replica.
  guard H1. guard H2. guard H3. destruct (decodeCanonicalKey _) as [key|]; [|done]. guard H4.
  intros [= <-]. unfold registry_ok. cbn. split_bools.
  assert (key ∉ seen) as Hnew.
  { intros Hin. apply not_true_iff_false in H4. apply H4, existsb_exists. exists key.
    split; [by apply list_elem_of_In|by apply bool_decide_eq_true]. }
  split; [split|].
  - intros id p [ [<- <-] |[_ Hp] ]%lookup_insert_Some; [done|by apply Hid].
  - intros id id' p p' [ [<- <-] |[_ Hp] ]%lookup_insert_Some [ [<- <-] |[_ Hp'] ]%lookup_insert_Some; cbn.
    + done.
    + intros ->. by destruct (Hnew (Hseen _ _ Hp')).
    + intros Hk. destruct Hnew. rewrite <- Hk. by eapply Hseen.
    + by eapply Hinj.
  - intros id p [ [<- <-] |[_ Hp] ]%lookup_insert_Some; apply elem_of_app;
      [right; by apply list_elem_of_singleton|left; by eapply Hseen].
Qed.

Lemma add_replicas_ok entries acc registry :
  registry_ok acc.1.1 → (∀ id p, identities acc.1.1 !! id = Some p → p_Key p ∈ acc.2) →
  add_replicas acc entries = Some registry → registry_ok registry.
Proof.
  revert acc. induction entries as [|entry entries IH]; intros acc Hok Hseen; cbn [add_replicas].
  - by intros [= <-].
  - destruct (add_replica acc entry) as [acc'|] eqn:Ha; [|done].
    destruct (add_replica_ok _ _ _ Hok Hseen Ha). by apply IH.
Qed.

Lemma LoadReplicaRegistry_ok Decode payload registry :
  LoadReplicaRegistry Decode payload = Some registry → registry_ok registry.
Proof.
  unfold LoadReplicaRegistry. destruct payload as [payload|]; [|done].
  destruct (Decode payload) as [document|]; [|done]. guard H1.
  destruct (add_replicas _ _) as [r|] eqn:Ha; [|done]. guard H2. intros [= <-].
  by eapply (add_replicas_ok _ _ r) in Ha.
Qed.

(** The publisher is not one of them and has a key of its own. *)
Definition config_ok (server : Server) : Prop :=
  registry_ok (registry server) ∧ p_Role (publisher server) = "publisher" ∧
  ∀ id p, identities (registry server) !! id = Some p → p_Key p ≠ p_Key (publisher server).

Lemma config_ok_same a b : same_config a b → config_ok a → config_ok b.
Proof. by intros [n ->]. Qed.

Lemma NewServer_ok store publisher registry pt ct skew server :
  registry_ok registry → NewServer store publisher registry pt ct skew = Some server → config_ok server.
Proof.
  intros Hr. unfold NewServer. guard H. intros [= <-]. split; [done|]. cbn.
  split; [by split_bools|]. intros id p Hp Hk. split_bools.
  match goal with H : DistinctFrom _ _ = true |- _ =>
    unfold DistinctFrom in H; rewrite forallb_forall in H; specialize (H (id, p));
    rewrite <- list_elem_of_In, elem_of_map_to_list in H; specialize (H Hp); cbn in H;
    unfold keysEqual in H; rewrite (bool_decide_true (p_Key p = _)) in H by done; discriminate H end.
Qed.

(** A principal that is no publisher is the identity of its own name. *)
Lemma find_replica server name p :
  config_ok server → find_principal server name = Some p → p_Role p ≠ "publisher" →
  identities (registry server) !! p_ID p = Some p.
Proof.
  intros ((Hid & _) & Hpub & _). unfold find_principal. case_bool_decide; [by intros [= <-]|].
  intros Hp _. by rewrite (Hid _ _ Hp).
Qed.

(** ** Histories *)

(** A call whose two steps on the store nothing comes between; what others do there is
    a call or a tick of its own in the history. *)
Definition alone (e : weather) : Prop := (∀ s, before_change e s = s) ∧ (∀ s, before_answer e s = s).

Section history.
Context (L : library) (Decode : bytes → option replicaRegistryDocument).
Context (json_Decode : bytes → option State).

(** The start of the process on a directory: [main] of [cmd/generationcoordinator]. *)
Definition starts (f : faults) (k : bytes) (d : gmap string bytes) (now : Time) (payload : option bytes)
    (publisher : Principal) (pt ct skew : Duration) (server : Server) (store : Store) : Prop :=
  reads_back json_Decode k d ∧
  ∃ registry, LoadReplicaRegistry Decode payload = Some registry ∧
    OpenStore json_Decode f k d now = Ok store ∧
    NewServer store publisher registry pt ct skew = Some server.

(** A coordinator and every call that it was ever sent, each with the configuration that
    was in force: a directory that [cmd/initgenerationstate] made, and from then on any
    number of processes, each opening what the one before it left behind. *)
Inductive history : list (Server * endpoint * Wire.Request) → Server → Store → Prop :=
| history_start f0 k initial replicas now0 store0 f now payload publisher pt ct skew server store :
    InitializeStore f0 k initial replicas now0 = Ok store0 →
    starts f k (dir store0) now payload publisher pt ct skew server store →
    history [] server store
| history_restart calls server store f now payload publisher pt ct skew server' store' :
    (* the process is killed and started again, with the registry, the keys of the
       principals and the timeouts that it then finds *)
    history calls server store →
    starts f (key store) (dir store) now payload publisher pt ct skew server' store' →
    history calls server' store'
| history_call calls server store ep e request server' store' w :
    history calls server store → alone e →
    serve L server store ep e request = (server', store', w) →
    history (calls ++ [(server, ep, request)]) server' store'
| history_tick calls server store f now store' err :
    history calls server store → Advance f store now = (store', err) → history calls server store'
| history_nonces calls server store n :
    (* requests that are still between their nonce and their change of the store *)
    history calls server store → history calls (set_nonces server n) store.

(** One of the calls is an acknowledgement that the replica's own key signed, the key
    that it had when the call was made. *)
Definition acknowledged_in (calls : list (Server * endpoint * Wire.Request))
    (id role stage generation receipt : string) : Prop :=
  ∃ server p request nonce q,
    (server, AtAck, request) ∈ calls ∧ identities (registry server) !! id = Some p ∧ p_Role p = role ∧
    signed_by p request (marshal_ack q) nonce ∧
    k_Stage q = stage ∧ ID (k_Generation q) = generation ∧ ReceiptSHA256 (k_Generation q) = receipt.

Lemma acknowledged_mono calls call id role stage g r :
  acknowledged_in calls id role stage g r → acknowledged_in (calls ++ [call]) id role stage g r.
Proof.
  intros (server & p & request & nonce & q & ? & ?). exists server, p, request, nonce, q.
  split; [|done]. apply elem_of_app. by left.
Qed.

Lemma asked_heard server e p name ep request payload nonce o calls :
  config_ok server → find_principal server name = Some p → signed_by p request payload nonce →
  asks server e p ep payload o → heard (acknowledged_in (calls ++ [(server, ep, request)])) o.
Proof.
  intros Hc Hp Hs Ha. revert Hs. destruct Ha as [| | |q Hrole]; intros Hs; try done. cbn.
  exists server, p, request, nonce, q. split_and!; try done.
  - apply elem_of_app. right. by apply list_elem_of_singleton.
  - eapply find_replica; [done..|]. by destruct Hrole as [-> | ->].
Qed.

Lemma init_traced said f k initial replicas now store :
  InitializeStore f k initial replicas now = Ok store → store_traced said store ∧ key store = k.
Proof.
  intros (st & Hinv & HP & _ & Hk & _)%InitializeStore_inv. split; [|done]. exists [st].
  split; [done|]. intros s ->%list_elem_of_singleton. destruct Hinv as (_ & Hok & _).
  destruct (Hok 0%nat st eq_refl) as (_ & Hv & _). split; [|rewrite HP; by intros [?|?] ].
  by rewrite (valid_stable_acks _ Hv HP); intros a ?%elem_of_nil.
Qed.

Lemma starts_traced said f store now payload publisher pt ct skew server store' :
  store_traced said store → starts f (key store) (dir store) now payload publisher pt ct skew server store' →
  config_ok server ∧ store_traced said store'.
Proof.
  intros (chain & Hinv & Ht) (Hback & registry & Hl & Ho & Hn).
  destruct (OpenStore_same _ _ _ _ _ _ Hinv Hback Ho) as (st & _ & _ & Hinv' & _). split.
  - eapply NewServer_ok; [by eapply LoadReplicaRegistry_ok|done].
  - by exists chain.
Qed.

Lemma history_traced calls server store :
  history calls server store →
  Forall (λ c, config_ok c.1.1) calls ∧ config_ok server ∧ store_traced (acknowledged_in calls) store.
Proof.
  induction 1 as [f0 k initial replicas now0 store0 f now payload publisher pt ct skew server store Hi Hs
    |calls server store f now payload publisher pt ct skew server' store' _ (Hcs & _ & IH) Hs
    |calls server store ep e request server' store' w _ (Hcs & Hc & IH) [Hb Ha] Hs
    |calls server store f now store' err _ (Hcs & Hc & IH) Hs|calls server store n _ (Hcs & Hc & IH) ].
  - apply (init_traced (acknowledged_in [])) in Hi as [Ht <-]. split; [done|]. by eapply starts_traced.
  - split; [done|]. by eapply starts_traced.
  - pose proof (serve_outcome L server store ep e request) as [Hsame Ho]. rewrite Hs in Hsame, Ho. cbn in Hsame, Ho.
    split; [apply Forall_app; by rewrite Forall_singleton|]. split; [by eapply config_ok_same|].
    assert (store_traced (acknowledged_in (calls ++ [(server, ep, request)])) store) as IH'.
    { eapply traced_mono; [|exact IH]. intros ?????. by apply acknowledged_mono. }
    destruct Ho as [|p name payload nonce o store1 err store2 w Hp Hsig Hasks Hx Hend]; [done|].
    assert (store2 = store1) as -> by (destruct err, Hend as [-> _]; [done|by rewrite Ha]).
    rewrite Hb in Hx. change store1 with (store1, err).1. rewrite <- Hx.
    apply exec_traced; [done|]. by eapply (asked_heard server).
  - split_and!; [done..|]. change store' with (store', err).1. rewrite <- Hs. by apply advance_traced.
  - by split_and!.
Qed.

(** C7: no generation becomes active without the key of every required replica. In every
    history of the coordinator, over all of its processes since the directory was
    initialised, whatever requests arrive, in whatever order, whatever the file system
    refuses, and wherever the process is killed and started again, be it with other keys
    in the registry: a committing state means that for each required replica one of the
    requests, to this process or to an earlier one, was an acknowledgement of exactly the
    active generation as prepared that carries a MAC under the key which the registry had
    for that replica when the request was served; no other replica of that registry and
    not the publisher had the same key. The key of the records stays the same, and the
    JSON library reads the directory's own records as what they are. *)
Theorem generation_needs_every_key calls server store st r :
  history calls server store → state store = Some st → Phase st = PhaseCommitting →
  r ∈ RequiredReplicas st →
  ∃ then_ p request nonce q,
    (then_, AtAck, request) ∈ calls ∧
    identities (registry then_) !! r_ID r = Some p ∧ p_Role p = r_Role r ∧
    signed_by p request (marshal_ack q) nonce ∧
    k_Stage q = AckPrepared ∧ ID (k_Generation q) = ID (Active st) ∧
    ReceiptSHA256 (k_Generation q) = ReceiptSHA256 (Active st) ∧
    p_Key p ≠ p_Key (publisher then_) ∧
    ∀ id p', identities (registry then_) !! id = Some p' → p_Key p' = p_Key p → id = r_ID r.
Proof.
  intros Hh Hst HP Hr. destruct (history_traced _ _ _ Hh) as (Hcs & _ & Ht).
  destruct (committing_said _ _ _ _ Ht Hst HP Hr) as (then_ & p & request & nonce & q & Hin & Hp & ? & ? & ? & ? & ?).
  rewrite Forall_forall in Hcs. destruct (Hcs _ Hin) as [ [_ Hinj] [_ Hpub] ]. cbn in Hinj, Hpub.
  exists then_, p, request, nonce, q. split_and!; try done; [by eapply Hpub|].
  intros id p' Hp' Hk. by eapply Hinj.
Qed.
End history.

(** ** No request twice *)

(** The nonce is remembered for this principal until [expires]. *)
Definition remembered (server : Server) (id nonce : string) (expires : Time) : Prop :=
  ∃ values, nonces server !! id = Some values ∧ values !! nonce = Some expires.

Lemma reserve_accepts server id nonce now server' :
  reserveNonce server id nonce now = (server', true) →
  remembered server' id nonce (now + 2 * maxClockSkew server) ∧
  ∀ expires, remembered server id nonce expires → expires ≤ now.
Proof.
  unfold reserveNonce. cbv zeta. destruct (_ || _) eqn:E; [done|]. intros [= <-]. split.
  - eexists. cbn. rewrite lookup_insert_eq. split; [done|]. by rewrite lookup_insert_eq.
  - intros expires (values & Hv & Hn). split_bools. destruct (Z.le_gt_cases expires now) as [?|Hlt]; [done|].
    exfalso. match goal with H : ¬ _ |- _ => apply H end. exists expires.
    rewrite map_lookup_filter_Some. rewrite Hv. cbn. split; [done|]. by apply After_spec.
Qed.

Lemma reserve_keeps server id id' nonce nonce' expires now :
  remembered server id nonce expires → now < expires →
  remembered (reserveNonce server id' nonce' now).1 id nonce expires.
Proof.
  intros (values & Hv & Hn) Hlt. unfold reserveNonce. cbv zeta.
  set (kept := filter _ (default ∅ (nonces server !! id'))).
  assert (id' = id → kept !! nonce = Some expires) as Hkept.
  { intros ->. unfold kept. rewrite map_lookup_filter_Some, Hv. cbn. split; [done|by apply After_spec]. }
  destruct (_ || _) eqn:E; cbn; unfold remembered; cbn.
  - destruct (decide (id' = id)) as [->|Hne];
      [rewrite lookup_insert_eq; eauto|rewrite lookup_insert_ne by done; eauto].
  - destruct (decide (id' = id)) as [->|Hne]; [|rewrite lookup_insert_ne by done; eauto].
    rewrite lookup_insert_eq. eexists. split; [done|]. rewrite lookup_insert_ne; [by apply Hkept|].
    intros ->. split_bools. match goal with H : ¬ _ |- _ => apply H end. rewrite Hkept by done. by eexists.
Qed.

Lemma authorize_keeps server id nonce expires now request payload :
  remembered server id nonce expires → now < expires →
  remembered (authorize server now request payload).1 id nonce expires.
Proof.
  intros Hr Hlt. destruct (authorize server now request payload) as [server' r] eqn:Ha.
  apply authorize_inv in Ha as [|name p nonce' timestamp t server1 ok _ _ _ _ _ Hres]; [done|].
  cbn. change server1 with (server1, ok).1. rewrite <- Hres. by apply reserve_keeps.
Qed.

(** The requests of a while: the time of each authorization, the request and its body. *)
Definition authorize_all (server : Server) (calls : list (Time * Wire.Request * bytes)) : Server :=
  fold_left (λ s c, (authorize s c.1.1 c.1.2 c.2).1) calls server.

Lemma authorize_all_keeps server id nonce expires calls :
  remembered server id nonce expires → Forall (λ c, c.1.1 < expires) calls →
  remembered (authorize_all server calls) id nonce expires.
Proof.
  intros Hr Hc. unfold authorize_all. revert server Hr. induction Hc as [|c calls Hlt _ IH]; intros server Hr;
    [done|]. cbn [fold_left]. apply IH. by apply authorize_keeps.
Qed.

Lemma authorize_all_config server calls : same_config server (authorize_all server calls).
Proof.
  unfold authorize_all. revert server. induction calls as [|c calls IH]; intros server; [apply same_config_refl|].
  cbn [fold_left]. eapply same_config_trans; [|apply IH].
  destruct (authorize server c.1.1 c.1.2 c.2) as [s r] eqn:Ha. by apply authorize_spec in Ha as [? _].
Qed.

(** What the check of the skew says: the timestamp is near, or so far ahead that the
    difference is the smallest duration, which is its own negation. *)
Lemma skew_check now t skew :
  0 < skew ≤ 5 * minute → absDuration (Sub now t) ≤ skew → Z.abs (now - t) ≤ skew ∨ now + 2 ^ 63 ≤ t.
Proof.
  unfold absDuration, Sub, wrap_i64, min_int64, max_int64, minute, second. intros Hskew.
  destruct (_ <? 0) eqn:E; split_bools; [|lia].
  destruct (Z.le_gt_cases (now - t) (- 2 ^ 63)) as [?|?]; [lia|].
  rewrite Z.mod_small by lia. lia.
Qed.

(** C37: one process of the coordinator accepts a request at most once, but for three
    gaps. When a request of a principal is accepted and later another one with the same
    nonce and timestamp, with any other requests in between, then the first came at the
    very first and the second at the very last instant that the skew allows; or the
    timestamp lies more than 292 years ahead of one of the clock readings: there the
    difference of the clocks saturates, its negation overflows, and the check of the skew
    passes; or a request in between had read the clock after the second one did, so late
    that it purged the nonce first (the clock is read before the lock on the nonces is
    taken). The clock readings are arbitrary. The table of nonces is in memory: a
    coordinator that is started again accepts once more what is still within the skew. *)
Theorem api_request_accepted_once server t1 t2 q1 q2 body1 body2 calls server1 server2 p p' nonce timestamp t :
  authorize server t1 q1 body1 = (server1, Some (p, nonce)) →
  authorize (authorize_all server1 calls) t2 q2 body2 = (server2, Some (p', nonce)) →
  p_ID p' = p_ID p → 0 < maxClockSkew server ≤ 5 * minute →
  singleAPIHeader q1 HeaderTimestamp = Some timestamp → singleAPIHeader q2 HeaderTimestamp = Some timestamp →
  ParseInt timestamp = Some t →
  (t1 = time_Unix t - maxClockSkew server ∧ t2 = time_Unix t + maxClockSkew server) ∨
  Z.min t1 t2 + 2 ^ 63 ≤ time_Unix t ∨
  Exists (λ c, t2 < c.1.1 ∧ t1 + 2 * maxClockSkew server ≤ c.1.1) calls.
Proof.
  intros H1 H2 Hid Hskew Hq1 Hq2 Hparse.
  destruct (authorize_spec _ _ _ _ _ _ H1) as [Hc1 _]. pose proof (authorize_all_config server1 calls) as Hc2.
  assert (maxClockSkew (authorize_all server1 calls) = maxClockSkew server) as Hsame
    by (destruct Hc1 as [n ->], Hc2 as [m ->]; done).
  apply authorize_inv in H1. inversion H1 as [|n1 p1 nc1 ts1 u1 s1 ok1 _ _ Hts1 Hu1 Hsk1 Hres1]; subst.
  destruct ok1; [|done]. simplify_eq.
  apply authorize_inv in H2. inversion H2 as [|n2 p2 nc2 ts2 u2 s2 ok2 _ _ Hts2 Hu2 Hsk2 Hres2]; subst.
  destruct ok2; [|done]. simplify_eq. rewrite Hsame in Hsk2.
  apply skew_check in Hsk1 as [Hn1|?]; [|right; left; lia|done].
  apply skew_check in Hsk2 as [Hn2|?]; [|right; left; lia|done].
  destruct (Z.le_gt_cases (t1 + 2 * maxClockSkew server) t2) as [?|Hlt]; [left; lia|]. right; right.
  destruct (reserve_accepts _ _ _ _ _ Hres1) as [Hrem _]. destruct (reserve_accepts _ _ _ _ _ Hres2) as [_ Hold].
  rewrite Hid in Hold.
  destruct (decide (Forall (λ c, c.1.1 < t1 + 2 * maxClockSkew server) calls)) as [Hall|Hsome].
  - pose proof (Hold _ (authorize_all_keeps _ _ _ _ _ Hrem Hall)). lia.
  - apply not_Forall_Exists in Hsome; [|intros c; apply _].
    eapply Exists_impl; [exact Hsome|]. cbn. intros c Hc. lia.
Qed.

(** Once every nonce of the principal is forgotten, any nonce can be reserved. *)
Lemma reserve_forgotten server id nonce now :
  (∀ nonce' expires, remembered server id nonce' expires → expires ≤ now) →
  (reserveNonce server id nonce now).2 = true.
Proof.
  intros Hold. unfold reserveNonce. cbv zeta.
  assert (filter (λ e : string * Time, After e.2 now = true) (default ∅ (nonces server !! id)) = ∅) as ->; [|done].
  apply map_empty. intros nonce'. apply map_lookup_filter_None_2. right. intros expires Hn Ha.
  apply After_spec in Ha. cbn in Ha.
  destruct (nonces server !! id) as [values|] eqn:Hv; cbn in Hn; [|by rewrite lookup_empty in Hn].
  enough (expires ≤ now) by lia. apply (Hold nonce'). by exists values.
Qed.

(** The second gap is real: a request with such a timestamp that was accepted is accepted
    again as soon as the nonces of its principal are forgotten. *)
Lemma far_request_replayed server t1 t2 request payload server1 p nonce timestamp t :
  authorize server t1 request payload = (server1, Some (p, nonce)) →
  singleAPIHeader request HeaderTimestamp = Some timestamp → ParseInt timestamp = Some t →
  0 < maxClockSkew server →
  (∀ nonce' expires, remembered server1 (p_ID p) nonce' expires → expires ≤ t2) →
  t2 + 2 ^ 63 ≤ time_Unix t →
  ∃ server2, authorize server1 t2 request payload = (server2, Some (p, nonce)).
Proof.
  intros H1 Hts Ht Hskew Hold Hfar. destruct (authorize_spec _ _ _ _ _ _ H1) as [ [n ->] _]. revert H1.
  unfold authorize. rewrite Hts, Ht.
  destruct (singleAPIHeader request HeaderPrincipal) as [principalText|]; [|done].
  destruct (singleAPIHeader request HeaderNonce) as [nonceText|]; [|done].
  destruct (singleAPIHeader request HeaderSignature) as [signatureText|]; [|done].
  destruct (_ || _); [done|].
  change (find_principal (set_nonces server n) principalText) with (find_principal server principalText).
  destruct (find_principal server principalText) as [p1|]; [|done].
  destruct (DecodeString nonceText) as [nonce1|]; [|done].
  destruct (DecodeString signatureText) as [signature|]; [|done].
  guard H2. apply orb_false_iff in H2 as [H2 _]. rewrite H2. cbn [orb].
  assert ((maxClockSkew (set_nonces server n) <? absDuration (Sub t2 (time_Unix t))) = false) as ->.
  { apply Z.ltb_ge. unfold Sub. rewrite Z.max_l; [|unfold min_int64, max_int64; lia].
    change (absDuration min_int64) with min_int64. unfold min_int64. cbn [maxClockSkew set_nonces]. lia. }
  guard H3. destruct (reserveNonce server _ _ t1) as [server' [] ]; intros [= -> -> ->].
  pose proof (reserve_forgotten _ _ nonce _ Hold) as Hr.
  destruct (reserveNonce _ (p_ID p) nonce t2) as [server2 ok]. cbn in Hr. subst ok. by exists server2.
Qed.

End GenerationAPITheorems.
