(* ===== verification/GenerationClient.v ===== *)
(** * GenerationClient: the client of the coordinator against its server

    The client of [GenerationAPI] makes requests that the server accepts and reads back
    the state of the store, as long as the state fits into an answer. *)

From stdpp Require Import base gmap strings list pretty.
From Stdlib Require Import ZArith Lia.
From Stdlib.Strings Require Import Byte.
From S2P Require Import Prelude GoBase GoCrypto Protocol Auth GoWire FactoryTime Generation GenerationText GenerationGuard GenerationAPI GenerationAPITheorems.

Module GenerationClient.
Import Ident Generation GenerationGuard GenerationAPI GenerationAPITheorems.

(** ** A decimal number is read back *)

Lemma digit_pretty (d : N) :
  (d < 10)%N → digit_value (Ascii.byte_of_ascii (pretty_N_char d)) = Some (Z.of_N d).
Proof.
  intros Hd. assert (d ∈ [0;1;2;3;4;5;6;7;8;9]%N) as Hin.
  { rewrite !elem_of_cons. lia. }
  rewrite !elem_of_cons, elem_of_nil in Hin. by destruct_or! Hin; subst.
Qed.

Lemma parse_pretty_go (x : N) s :
  parse_digits (bytes_of (pretty_N_go x s)) 0 = parse_digits (bytes_of s) (Z.of_N x).
Proof.
  revert s. induction (N.lt_wf_0 x) as [x _ IH]. intros s.
  destruct (decide (x = 0%N)) as [->|H0]; [by rewrite pretty_N_go_0|].
  rewrite pretty_N_go_step by lia. rewrite IH by (apply N.div_lt; lia).
  rewrite Wire.bytes_of_cons. cbn [parse_digits].
  rewrite digit_pretty by (apply N.mod_lt; lia). f_equal.
  rewrite N2Z.inj_div, N2Z.inj_mod. pose proof (Z.div_mod (Z.of_N x) 10). lia.
Qed.

Lemma FormatInt_digits n : 0 ≤ n → parse_digits (bytes_of (FormatInt n)) 0 = Some n.
Proof.
  intros Hn. unfold FormatInt. destruct n as [|p|p]; [done| |lia].
  change (pretty (Z.pos p)) with (pretty (N.pos p)). unfold pretty, pretty_N. rewrite decide_False by done. by rewrite parse_pretty_go.
Qed.

Lemma FormatInt_nonempty n : FormatInt n ≠ "".
Proof.
  unfold FormatInt. destruct n as [|p|p]; [done| |done].
  change (pretty (Z.pos p)) with (pretty (N.pos p)). unfold pretty, pretty_N. rewrite decide_False by done. intros He.
  pose proof (parse_pretty_go (N.pos p) "") as H. rewrite He in H. by cbn in H.
Qed.

Lemma ParseInt_FormatInt n : 0 ≤ n ≤ max_int64 → ParseInt (FormatInt n) = Some n.
Proof.
  intros Hn. pose proof (FormatInt_digits n) as Hp.
  assert (bytes_of (FormatInt n) ≠ []) as Hne.
  { intros He. apply (FormatInt_nonempty n). apply bytes_of_inj. by rewrite He. }
  unfold ParseInt. destruct (bytes_of (FormatInt n)) as [|b bs] eqn:Hb; [done|].
  specialize (Hp ltac:(lia)). pose proof Hp as Hp'. cbn in Hp'.
  destruct (digit_value b) as [d|] eqn:Hd; [|done]. unfold digit_value in Hd.
  destruct (_ && _) eqn:Hr; [|done]. split_bools.
  rewrite (proj2 (Z.eqb_neq (bval b) 45)), (proj2 (Z.eqb_neq (bval b) 43)) by lia.
  unfold ParseUint. rewrite bool_decide_false by done. rewrite Hp.
  unfold max_int64 in Hn. rewrite (proj2 (Z.ltb_lt n _)) by lia.
  cbn [negb andb]. by rewrite (proj2 (Z.leb_gt _ n)) by lia.
Qed.

(** ** The server accepts what the client sends *)

(** The clocks of the two sides agree up to the allowed skew. *)
Definition clocks_agree (server : Server) (cnow snow : Time) : Prop :=
  0 ≤ Unix cnow ≤ 2 ^ 33 ∧ Z.abs (snow - from_unix (Unix cnow)) ≤ maxClockSkew server < hour.

(** The nonces of the principal that are still kept at [now]. *)
Definition live_nonces (server : Server) (principal : string) (now : Time) : gmap string Time :=
  filter (λ e : string * Time, After e.2 now = true) (default ∅ (nonces server !! principal)).

Definition nonce_free (server : Server) (principal nonce : string) (now : Time) : Prop :=
  live_nonces server principal now !! nonce = None ∧
  Z.of_nat (size (live_nonces server principal now)) < 4096.

Lemma reserve_free server principal nonce now :
  nonce_free server principal nonce now → (reserveNonce server principal nonce now).2 = true.
Proof.
  intros [Hn Hs]. unfold live_nonces in *. unfold reserveNonce. cbv zeta.
  rewrite bool_decide_false by (by rewrite Hn; intros [? ?]).
  by rewrite (proj2 (Z.leb_gt _ _)) by lia.
Qed.

Lemma skew_passes server cnow snow :
  clocks_agree server cnow snow →
  (maxClockSkew server <? absDuration (Sub snow (time_Unix (Unix cnow)))) = false.
Proof.
  intros [Ht Hs]. assert (time_Unix (Unix cnow) = from_unix (Unix cnow)) as ->.
  { unfold time_Unix, wrap_i64. f_equal. rewrite Z.mod_small; lia. }
  apply Z.ltb_ge. unfold absDuration, Sub, wrap_i64, hour, minute, second, min_int64, max_int64 in *.
  destruct (_ <? 0) eqn:E; [|lia]. apply Z.ltb_lt in E. rewrite Z.mod_small; lia.
Qed.

Lemma single_api name value q :
  Wire.Header q name = [value] → value ≠ "" → singleAPIHeader q name = Some value.
Proof. intros Hh Hv. unfold singleAPIHeader. rewrite Hh. by rewrite bool_decide_false. Qed.

Lemma EncodeToString_nonempty bs : bs ≠ [] → EncodeToString bs ≠ "".
Proof. intros Hne He. apply Hne. apply EncodeToString_inj. by rewrite He. Qed.

Lemma authorize_accepts server client cnow snow value method path u tls payload :
  find_principal server (p_ID (c_principal client)) = Some (c_principal client) →
  p_ID (c_principal client) ≠ "" → 0 ≤ Unix cnow ≤ max_int64 →
  (maxClockSkew server <? absDuration (Sub snow (time_Unix (Unix cnow)))) = false → blen value = 16 →
  nonce_free server (p_ID (c_principal client)) (EncodeToString value) snow →
  Wire.u_Path u = path → Wire.u_RawQuery u = "" → (method = "GET" → payload = None) →
  authorize server snow
    (Wire.arrived tls (api_request client cnow (EncodeToString value) method path u payload))
    (default [] payload) =
  ((reserveNonce server (p_ID (c_principal client)) (EncodeToString value) snow).1,
   Some (c_principal client, EncodeToString value)).
Proof.
  intros Hp Hid Hunix Hskew Hval Hfree Hpath Hquery Hget.
  set (nonce := EncodeToString value). set (p := c_principal client) in *.
  set (mac := hmac_sha256 (p_Key p) (canonicalAPIRequest (p_ID p) method path (FormatInt (Unix cnow)) nonce
                (hex_encode (Sum256 (default [] payload))))).
  set (q := Wire.arrived tls _).
  assert (∀ name, name ≠ "Content-Type" → Wire.Header q name =
    request_headers client (FormatInt (Unix cnow)) nonce (EncodeToString mac) None name) as Hh.
  { intros name Hname. destruct payload; [|done]. cbn. unfold Wire.set_header at 1.
    by rewrite bool_decide_false. }
  assert (blen mac = 32) as Hmac by apply hmac_sha256_length.
  assert (nonce ≠ "") as Hnonce by (apply EncodeToString_nonempty; intros ->; done).
  assert (EncodeToString mac ≠ "") as Hsig by (apply EncodeToString_nonempty; by intros ->).
  unfold authorize.
  rewrite (single_api HeaderPrincipal (p_ID p)) by (done || by rewrite Hh).
  rewrite (single_api HeaderTimestamp (FormatInt (Unix cnow)))
    by (apply FormatInt_nonempty || by rewrite Hh).
  rewrite (single_api HeaderNonce nonce) by (done || by rewrite Hh).
  rewrite (single_api HeaderSignature (EncodeToString mac)) by (done || by rewrite Hh).
  change (Wire.RawQuery q) with (Wire.u_RawQuery u). rewrite Hquery.
  change (Wire.Method q) with method. change (Wire.Path q) with (Wire.u_Path u).
  change (Wire.TransferEncoding q) with (@nil string).
  assert ((bool_decide (method = "GET") && (negb (Wire.ContentLength q =? 0) || negb (bool_decide ([] = @nil string))))
          = false) as ->.
  { case_bool_decide as Hm; [|done]. subst q. rewrite (Hget Hm). done. }
  cbn [negb orb]. rewrite bool_decide_true by done. cbn [negb orb]. rewrite Hp.
  rewrite ParseInt_FormatInt by done.
  unfold nonce at 1. rewrite !DecodeString_EncodeToString.
  rewrite Hval, Hmac, Hskew, Hpath.
  repeat (rewrite bool_decide_true by done). cbn [negb orb Z.eqb Pos.eqb].
  pose proof (reserve_free _ _ _ _ Hfree) as Hres. fold nonce in Hres.
  destruct (reserveNonce server (p_ID p) nonce snow) as [server' ok]. cbn in Hres. by subst.
Qed.

(** ** What the client reads *)

Lemma read_limited_fits limit body :
  0 ≤ limit → blen body ≤ limit → Wire.read_limited limit (Some body) = Some body.
Proof.
  intros Hl Hb. unfold Wire.read_limited, blen in *. cbn. rewrite take_ge; [done|lia].
Qed.

Lemma read_limited_over limit body payload :
  0 ≤ limit → limit < blen body → Wire.read_limited limit (Some body) = Some payload →
  limit < blen payload.
Proof.
  intros Hl Hb. unfold Wire.read_limited, blen in *. cbn. intros [= <-]. rewrite length_take. lia.
Qed.

(** The view of a valid state is valid. *)
Lemma valid_view st d :
  validateState st = true → validSHA256 d = true → validateStateView (stateView st d) = true.
Proof.
  unfold validateState at 1. guard H1. guard H2. guard H3. guard H4. intros Hp Hd.
  unfold validateStateView. cbn. apply orb_false_iff in H1 as [H1 Hup]. apply orb_false_iff in H1 as [H1 Hlow].
  apply orb_false_iff in H1 as [H1 Hreps]. apply orb_false_iff in H1 as [H1 Hact].
  apply orb_false_iff in H1 as [H1 Hprev].
  rewrite H1, Hd, Hact, Hreps, Hlow, Hup. cbn [negb orb].
  unfold validateState. cbn. rewrite H1, Hact, Hreps, Hlow, Hup. cbn [negb orb]. cbn [Acknowledgements RequiredReplicas] in *.
  rewrite H3. 
  assert (∀ st' acks seen, RequiredReplicas st' = RequiredReplicas st → UpdatedAt st' = UpdatedAt st →
    valid_acks st' acks seen = valid_acks st acks seen) as Hacks.
  { intros st' acks. induction acks as [|a acks IH]; intros seen Hr Hu; [done|]. cbn. by rewrite IH, Hr, Hu. }
  rewrite Hacks by done. rewrite H4. exact Hp.
Qed.

(** The answer of the coordinator as the client sees it. *)
Definition coordinator (L : library) (server : Server) (store : Store) (ep : endpoint) (e : weather)
    (at_client at_server : Wire.TLSState) (q : Wire.Request) : option Wire.Response :=
  Some (Wire.delivered at_client (serve L server store ep e (Wire.arrived at_server q)).2).

Definition view_text (store : Store) : bytes := marshal_view from_store (view_of store) ++ [newline].

Lemma view_too_long L client nonce tls store p nonce' :
  maximumAPIBytes < blen (view_text store) →
  view_in L client nonce (Wire.delivered tls (writeSignedState store 200 p nonce')) = Err ErrIO.
Proof.
  intros Hlong. unfold view_in. cbn [Wire.r_Body Wire.delivered Wire.w_Body writeSignedState].
  fold (view_text store).
  destruct (Wire.read_limited maximumAPIBytes (Some (view_text store))) as [payload|] eqn:Hr; [|done].
  apply read_limited_over in Hr; [|done..]. by rewrite (proj2 (Z.ltb_lt _ _)).
Qed.

Lemma view_fits L client nonce tls store st :
  state store = Some st → validateState st = true → validSHA256 (digest store) = true →
  Decode_view L (view_text store) = Some (view_of store, from_store) →
  blen (view_text store) ≤ maximumAPIBytes →
  view_in L client nonce (Wire.delivered tls (writeSignedState store 200 (c_principal client) nonce)) =
  Ok (view_of store).
Proof.
  intros Hst Hv Hd Hdec Hfit. unfold view_in. cbn [Wire.r_Body Wire.delivered Wire.w_Body writeSignedState].
  fold (view_text store). rewrite read_limited_fits by done.
  rewrite (proj2 (Z.ltb_ge _ _)) by done. cbn [Wire.StatusCode Wire.delivered Wire.Status writeSignedState].
  change (200 =? 200) with true. cbn [negb].
  match goal with |- context [first_header ?h ?n] => change (first_header h n) with
    (EncodeToString (hmac_sha256 (p_Key (c_principal client)) (canonicalAPIResponse (p_ID (c_principal client)) nonce
       200 (hex_encode (Sum256 (view_text store)))))) end.
  rewrite DecodeString_EncodeToString, hmac_sha256_length.
  rewrite !bool_decide_true by done. cbn [negb orb Z.eqb Pos.eqb]. rewrite Hdec.
  fold (view_text store). rewrite bool_decide_true by done.
  unfold view_of. rewrite Hst, valid_view by done. done.
Qed.

Section read_state.
Context (L : library) (client : Client) (server : Server) (store : Store) (e : weather).
Context (cnow : Time) (value : bytes) (at_client at_server : Wire.TLSState) (u : Wire.URL).

(** The client is a principal of the coordinator and reaches it under its name, with a
    clock and a random nonce that the coordinator accepts. *)
Record reachable : Prop := {
  known : find_principal server (p_ID (c_principal client)) = Some (c_principal client);
  named : p_ID (c_principal client) ≠ "";
  in_time : clocks_agree server cnow (n_authorize e);
  sixteen : blen value = 16;
  unused : nonce_free server (p_ID (c_principal client)) (EncodeToString value) (n_authorize e);
  parsed : url_Parse L (baseURL client +:+ pathState) = Some u;
  at_path : Wire.u_Path u = pathState;
  no_query : Wire.u_RawQuery u = "";
}.

(** A replica reads the state of the coordinator exactly when it fits into 16 KiB.
    The request that the client signs is accepted, the store is advanced, and the client
    accepts the signature of the answer and returns the view of the store as it then is;
    when the text of the view is longer than the limit the client returns an error,
    whatever else is right. *)
Theorem state_read_back store' st :
  reachable → Advance (on_commit e) (before_change e store) (n_change e) = (store', None) →
  state (before_answer e store') = Some st → validateState st = true →
  validSHA256 (digest (before_answer e store')) = true →
  Decode_view L (view_text (before_answer e store')) = Some (view_of (before_answer e store'), from_store) →
  GetState L client cnow (Some value) (coordinator L server store AtState e at_client at_server) =
  if blen (view_text (before_answer e store')) <=? maximumAPIBytes
  then Ok (stateView st (digest (before_answer e store'))) else Err ErrIO.
Proof.
  intros [Hp Hid Hclock Hval Hfree Hurl Hpath Hquery] Hadv Hst Hv Hd Hdec.
  unfold GetState, call_. rewrite Hurl. unfold coordinator. cbn [serve]. unfold serve_state.
  pose proof (authorize_accepts server client cnow (n_authorize e) value "GET" pathState u at_server None) as Ha.
  cbn [default] in Ha. rewrite Ha, Hadv; try done; [|destruct Hclock as [? _]; unfold max_int64; lia|by apply skew_passes].
  cbn [finish snd].
  destruct (_ <=? _) eqn:Hfit; split_bools; [|by apply view_too_long].
  rewrite (view_fits _ _ _ _ _ st) by done. unfold view_of. by rewrite Hst.
Qed.
End read_state.

(** ** Witnesses *)

Definition ex_tls : Wire.TLSState :=
  {| Wire.TLSVersion := 772; Wire.PeerCertificates := 1; Wire.VerifiedChains := 1 |}.
Definition secret (n : Z) : bytes := replicate 32 (byte_of n).
Definition ex_entry (r : ReplicaRef) (n : Z) : ReplicaIdentity :=
  {| i_ReplicaID := r_ID r; i_Role := r_Role r; HMACKeyB64 := EncodeToString (secret n) |}.
Definition ex_document : replicaRegistryDocument :=
  {| d_Version := 1; d_Replicas := [ex_entry ex_cp 1; ex_entry ex_fo 2] |}.
Definition ex_payload : bytes := marshal_registry ex_document ++ [newline].
(** The registry of a later process, with other keys. *)
Definition ex_document2 : replicaRegistryDocument :=
  {| d_Version := 1; d_Replicas := [ex_entry ex_cp 4; ex_entry ex_fo 5] |}.
Definition ex_payload2 : bytes := marshal_registry ex_document2 ++ [newline].
Definition ex_Decode (payload : bytes) : option replicaRegistryDocument :=
  if bool_decide (payload = ex_payload) then Some ex_document
  else if bool_decide (payload = ex_payload2) then Some ex_document2 else None.
Definition principal_of (r : ReplicaRef) (n : Z) : Principal :=
  {| p_ID := r_ID r; p_Role := r_Role r; p_Key := secret n |}.
Definition ex_publisher : Principal := {| p_ID := "publisher-1"; p_Role := "publisher"; p_Key := secret 3 |}.
Definition ex_registry : ReplicaRegistry :=
  {| identities := {[ "cp-1" := principal_of ex_cp 1; "fo-1" := principal_of ex_fo 2 ]};
     references := [ex_cp; ex_fo] |}.
Definition ex_registry2 : ReplicaRegistry :=
  {| identities := {[ "cp-1" := principal_of ex_cp 4; "fo-1" := principal_of ex_fo 5 ]};
     references := [ex_cp; ex_fo] |}.
Definition ex_server : Server :=
  {| publisher := ex_publisher; registry := ex_registry; prepareTimeout := 60 * second;
     commitTimeout := 60 * second; maxClockSkew := minute; nonces := ∅ |}.

Definition publish2 : PublishRequest :=
  {| ExpectedRevision := 1; ExpectedActive := ex_gen 1; b_Pending := ex_gen 2 |}.
Definition prepared (revision : Z) : AckRequest :=
  {| k_ExpectedRevision := revision; k_Generation := ex_gen 2; k_Stage := AckPrepared |}.

Definition ex_url (path : string) : Wire.URL :=
  {| Wire.u_Scheme := "https"; Wire.u_Host := "coordinator"; Wire.u_Path := path; Wire.u_RawPath := "";
     Wire.u_HasUser := false; Wire.u_RawQuery := ""; Wire.u_Fragment := "";
     Wire.u_String := "https://coordinator" +:+ path |}.

Definition knows {A} (marshal : A → bytes) (xs : list A) (payload : bytes) : option A :=
  find (λ x, bool_decide (marshal x = payload)) xs.

Definition ex_library : library :=
  {| url_Parse s := if bool_decide (s = "https://coordinator" +:+ pathState) then Some (ex_url pathState) else None;
     Decode_publish := knows marshal_publish [publish2];
     Decode_abort _ := None;
     Decode_ack := knows marshal_ack [prepared 2; prepared 3];
     Decode_view payload := if bool_decide (payload = view_text ex_first)
                            then Some (view_of ex_first, from_store) else None |}.

Definition calm (n : Z) : weather :=
  {| n_authorize := ex_at n; n_change := ex_at n; on_commit := no_faults; on_commit2 := no_faults;
     before_change s := s; before_answer s := s |}.

Definition ex_client (p : Principal) : Client := {| baseURL := "https://coordinator"; c_principal := p |}.
Definition ex_value : bytes := replicate 16 (byte_of 7).
Definition ex_call (p : Principal) (n : Z) (path : string) (payload : bytes) : Wire.Request :=
  Wire.arrived ex_tls (api_request (ex_client p) (ex_at n) (EncodeToString ex_value) "POST" path (ex_url path)
                         (Some payload)).

Lemma ex_registry_loads : LoadReplicaRegistry ex_Decode (Some ex_payload) = Some ex_registry.
Proof. vm_compute. reflexivity. Qed.

Lemma ex_registry2_loads : LoadReplicaRegistry ex_Decode (Some ex_payload2) = Some ex_registry2.
Proof. vm_compute. reflexivity. Qed.

Lemma ex_server_new :
  NewServer ex_first ex_publisher ex_registry (60 * second) (60 * second) minute = Some ex_server.
Proof. vm_compute. reflexivity. Qed.

(** The stores of a run and the records that it leaves. *)
Definition run_step (s : Store * list State) (o : op) : Store * list State :=
  let store := (exec s.1 o).1 in (store, s.2 ++ [state_of store]).
Definition run_of (store : Store) (ops : list op) : Store * list State :=
  fold_left run_step ops (store, [state_of store]).

Lemma run_of_execs store ops :
  (run_of store ops).1 = execs store ops ∧ ∃ more, (run_of store ops).2 = state_of store :: more.
Proof.
  unfold run_of.
  assert (∀ s more, (fold_left run_step ops (s, state_of store :: more)).1 = execs s ops ∧
    ∃ more', (fold_left run_step ops (s, state_of store :: more)).2 = state_of store :: more') as H.
  { unfold execs. induction ops as [|o ops IH]; intros s more; [by eauto|]. apply IH. }
  apply H.
Qed.

Definition ex_ops : list op := ex_prepare ++ [OAdvance no_faults (ex_at 13)].
Definition ex_records : list State := (run_of ex_first ex_ops).2.

Lemma ex_records_first : ∃ more, ex_records = [state_of ex_first] ++ more.
Proof. apply run_of_execs. Qed.

Definition check_run (run : Store * list State) : bool :=
  check_dir run.2 (dir run.1) && check_chain (key run.1) 0 None run.2
  && match state run.1, last run.2 with
     | Some st, Some record =>
         bool_decide (st = record) && bool_decide (digest run.1 = record_digest record)
         && bool_decide (Phase record = PhaseCommitting)
         && bool_decide (RequiredReplicas record = [ex_cp; ex_fo])
     | _, _ => false
     end
  && forallb (λ st, blen (record_payload st) <=? maximumStateBytes) run.2
  && bool_decide (key run.1 = ex_key).

Lemma ex_run_checked : check_run (run_of ex_first ex_ops) = true.
Proof. vm_compute. reflexivity. Qed.

Lemma ex_records_ok :
  disk_inv ex_committing ex_records ∧ key ex_committing = ex_key ∧
  (∀ st, st ∈ ex_records → blen (record_payload st) ≤ maximumStateBytes) ∧
  ∃ st, last ex_records = Some st ∧ Phase st = PhaseCommitting ∧ RequiredReplicas st = [ex_cp; ex_fo].
Proof.
  pose proof ex_run_checked as H. unfold check_run in H. fold ex_records in H.
  rewrite (proj1 (run_of_execs ex_first ex_ops)) in H.
  change (execs ex_first ex_ops) with ex_committing in H.
  apply andb_true_iff in H as [H Hkey%bool_decide_eq_true].
  apply andb_true_iff in H as [H Hsize]. apply andb_true_iff in H as [H Hlast].
  apply andb_true_iff in H as [Hdir Hchain]. rewrite forallb_forall in Hsize.
  split; [|split; [exact Hkey|split] ].
  - split; [exact (check_dir_ok _ _ Hdir)|]. split; [exact (check_chain_ok _ _ Hchain)|].
    destruct (state ex_committing) as [st|]; [|discriminate Hlast].
    destruct (last ex_records) as [record|] eqn:Hl; [|discriminate Hlast]. split_bools. subst st.
    apply last_Some in Hl as [pre ->]. exists pre, record. split; [done|]. split; [done|by left].
  - intros st Hst. apply Z.leb_le, Hsize. by apply list_elem_of_In.
  - destruct (state ex_committing) as [st|]; [|discriminate Hlast].
    destruct (last ex_records) as [record|]; [|discriminate Hlast]. split_bools. eauto.
Qed.

Definition ex_json : bytes → option State := GenerationText.knows ex_records.

Lemma ex_first_opens more :
  OpenStore (GenerationText.knows ([state_of ex_first] ++ more)) no_faults ex_key (dir ex_first) (ex_at 1) = Ok ex_first.
Proof. vm_compute. reflexivity. Qed.

Lemma single_record store st : disk_inv store [st] → state_of store = st.
Proof.
  intros (_ & _ & pre & st' & Hst & _ & Hpos). unfold state_of. rewrite Hst.
  destruct Hpos as [H|[ahead H] ]; destruct pre as [|? [] ]; cbn in H; by simplify_eq.
Qed.

Lemma ex_first_inv : disk_inv ex_first [state_of ex_first].
Proof.
  pose proof ex_init_ok as H. apply InitializeStore_inv in H as (st & Hinv & _).
  rewrite (single_record _ _ Hinv). exact Hinv.
Qed.

Lemma ex_starts :
  starts ex_Decode ex_json no_faults ex_key (dir ex_first) (ex_at 1) (Some ex_payload) ex_publisher
    (60 * second) (60 * second) minute ex_server ex_first.
Proof.
  destruct ex_records_ok as ((_ & Hok & _) & Hk & _). destruct ex_first_inv as (Hd & _).
  unfold starts, ex_json. destruct ex_records_first as [more Hm]. rewrite Hm in Hok |- *. rewrite Hk in Hok. split.
  - exact (GenerationText.chain_reads_back _ _ _ _ Hd Hok).
  - exists ex_registry. split; [exact ex_registry_loads|]. split; [apply ex_first_opens|exact ex_server_new].
Qed.

Lemma ex_start : history ex_library ex_Decode ex_json [] ex_server ex_first.
Proof. eapply history_start; [exact ex_init_ok|exact ex_starts]. Qed.

(** The body that the client sends is the body that the server reads. *)
Lemma read_call p n path payload :
  0 < blen payload ≤ maximumAPIBytes → readAPIRequest (ex_call p n path payload) = Some payload.
Proof.
  intros Hb. unfold readAPIRequest. set (q := ex_call p n path payload).
  change (Wire.ContentLength q) with (blen payload). change (Wire.Body q) with (Some payload).
  change (first_header (Wire.Header q) "Content-Type") with "application/json".
  rewrite (proj2 (Z.leb_gt (blen payload) 0)), (proj2 (Z.ltb_ge maximumAPIBytes _)) by lia. cbn [orb].
  rewrite bool_decide_true by done. cbn [negb orb]. rewrite read_limited_fits by (done || lia).
  rewrite (proj2 (Z.eqb_neq (blen payload) 0)), (proj2 (Z.ltb_ge maximumAPIBytes _)), Z.eqb_refl by lia.
  done.
Qed.

(** Every principal of the example is accepted at its own time. *)
Lemma ex_accepted_principal p n path payload :
  p ∈ [ex_publisher; principal_of ex_cp 1; principal_of ex_fo 2] → n ∈ [1; 2; 3] →
  ∃ server', authorize ex_server (ex_at n) (ex_call p n path payload) payload =
    (server', Some (p, EncodeToString ex_value)).
Proof.
  intros Hp Hn. eexists.
  refine (authorize_accepts ex_server (ex_client p) (ex_at n) (ex_at n) ex_value "POST" path (ex_url path) ex_tls
    (Some payload) _ _ _ _ _ _ _ _ _); try done; cbn [c_principal ex_client];
    rewrite !elem_of_cons, elem_of_nil in Hp; rewrite !elem_of_cons, elem_of_nil in Hn; destruct_or! Hp; try done; subst p; destruct_or! Hn; try done; subst n;
    vm_compute; done.
Qed.

Lemma calm_alone n : alone (calm n).
Proof. done. Qed.

Lemma finish_store n server p nonce changed : (finish (calm n) server p nonce changed).1.2 = changed.1.
Proof. by destruct changed as [store [err|] ]. Qed.

(** One more call; the nonces are those of a server that has forgotten them. *)
Lemma ex_step calls store ep n q o :
  history ex_library ex_Decode ex_json calls ex_server store →
  (serve ex_library ex_server store ep (calm n) q).1.2 = (exec store o).1 →
  history ex_library ex_Decode ex_json (calls ++ [(ex_server, ep, q)]) ex_server (exec store o).1.
Proof.
  intros Hh Hs. pose proof (serve_outcome ex_library ex_server store ep (calm n) q) as [ [m Hm] _].
  destruct (serve _ _ _ _ _ _) as [ [server' store'] w] eqn:Hserve. cbn in Hm, Hs. subst.
  change ex_server with (set_nonces (set_nonces ex_server m) ∅).
  apply history_nonces. eapply history_call; [exact Hh|apply calm_alone|exact Hserve].
Qed.

Lemma ex_publish store :
  (serve ex_library ex_server store AtPublish (calm 1) (ex_call ex_publisher 1 pathPublish (marshal_publish publish2))).1.2 =
  (exec store (OPublish no_faults 1 (ex_gen 1) (ex_gen 2) (60 * second) (60 * second) (ex_at 1))).1.
Proof.
  cbn [serve]. unfold serve_publish. rewrite read_call by by vm_compute.
  replace (decodeCanonicalAPI _ _ _) with (Some publish2) by (vm_compute; reflexivity).
  destruct (ex_accepted_principal ex_publisher 1 pathPublish (marshal_publish publish2)) as [server' Ha]; [by left..|].
  pose proof (authorize_spec _ _ _ _ _ _ Ha) as [ [m Hm] _]. cbn [n_authorize calm]. rewrite Ha.
  rewrite bool_decide_true by done. cbn [negb]. rewrite finish_store. by rewrite Hm.
Qed.

Lemma ex_ack store r k n revision :
  (r, k, n, revision) ∈ [(ex_cp, 1, 2, 2); (ex_fo, 2, 3, 3)] →
  (serve ex_library ex_server store AtAck (calm n)
     (ex_call (principal_of r k) n pathAck (marshal_ack (prepared revision)))).1.2 =
  (exec store (OAcknowledge no_faults no_faults revision r (ex_gen 2) AckPrepared (ex_at n))).1.
Proof.
  intros Hr. cbn [serve]. unfold serve_ack.
  assert (0 < blen (marshal_ack (prepared revision)) ≤ maximumAPIBytes ∧
    decodeCanonicalAPI (Decode_ack ex_library) marshal_ack (marshal_ack (prepared revision)) = Some (prepared revision) ∧
    principal_of r k ∈ [ex_publisher; principal_of ex_cp 1; principal_of ex_fo 2] ∧ n ∈ [1; 2; 3] ∧
    negb (bool_decide (r_Role r = "controlplane")) && negb (bool_decide (r_Role r = "firmwareorigin")) = false)
    as (Hlen & Hdec & Hp & Hn & Hrole).
  { rewrite !elem_of_cons, elem_of_nil in Hr. destruct_or! Hr; try done; simplify_eq;
      (split_and!; [vm_compute; reflexivity|vm_compute; discriminate|vm_compute; reflexivity|set_solver|set_solver
       |vm_compute; reflexivity]). }
  rewrite read_call, Hdec by done.
  destruct (ex_accepted_principal (principal_of r k) n pathAck (marshal_ack (prepared revision)) Hp Hn) as [server' Ha].
  cbn [n_authorize calm]. rewrite Ha. cbn [p_Role principal_of]. rewrite Hrole. rewrite finish_store. by destruct r.
Qed.

Definition ex_calls : list (Server * endpoint * Wire.Request) :=
  [(ex_server, AtPublish, ex_call ex_publisher 1 pathPublish (marshal_publish publish2));
   (ex_server, AtAck, ex_call (principal_of ex_cp 1) 2 pathAck (marshal_ack (prepared 2)));
   (ex_server, AtAck, ex_call (principal_of ex_fo 2) 3 pathAck (marshal_ack (prepared 3)))].

Lemma ex_history : history ex_library ex_Decode ex_json ex_calls ex_server ex_committing.
Proof.
  pose proof (ex_step [] ex_first AtPublish 1 _ _ ex_start (ex_publish ex_first)) as H1.
  match type of H1 with history _ _ _ _ _ ?s => pose proof (ex_step _ s AtAck 2 _ _ H1 (ex_ack s ex_cp 1 2 2 ltac:(by left))) as H2 end.
  match type of H2 with history _ _ _ _ _ ?s =>
    pose proof (ex_step _ s AtAck 3 _ _ H2 (ex_ack s ex_fo 2 3 3 ltac:(by right; left))) as H3 end.
  eapply (history_tick _ _ _ ex_calls ex_server _ no_faults (ex_at 13)); [exact H3|].
  apply surjective_pairing.
Qed.

(** The coordinator is killed there and started again with other keys. *)
Definition ex_server2 : Server :=
  {| publisher := ex_publisher; registry := ex_registry2; prepareTimeout := 60 * second;
     commitTimeout := 60 * second; maxClockSkew := minute; nonces := ∅ |}.

Lemma ex_server2_new store st :
  state store = Some st → RequiredReplicas st = [ex_cp; ex_fo] → key store = ex_key →
  NewServer store ex_publisher ex_registry2 (60 * second) (60 * second) minute = Some ex_server2.
Proof.
  intros Hst Hr Hk. unfold NewServer, RequiredReplicasMatch. rewrite Hst, Hr, Hk. vm_compute. reflexivity.
Qed.

(** A store whose records are known to the decoder opens again. *)
Lemma known_opens store chain now :
  disk_inv store chain → 32 ≤ blen (key store) ≤ 128 →
  (∀ st, st ∈ chain → blen (record_payload st) ≤ maximumStateBytes) →
  reads_back (GenerationText.knows chain) (key store) (dir store) ∧
  ∃ store' st, OpenStore (GenerationText.knows chain) no_faults (key store) (dir store) now = Ok store' ∧
    last chain = Some st ∧ state store' = Some st ∧ key store' = key store.
Proof.
  intros Hinv Hk Hsize. pose proof Hinv as (Hd & Hok & _).
  assert (reads_back (GenerationText.knows chain) (key store) (dir store)) as Hback.
  { rewrite <- (app_nil_r chain) at 1. apply GenerationText.chain_reads_back; [done|by rewrite app_nil_r]. }
  split; [done|]. destruct (OpenStore_opens (GenerationText.knows chain) no_faults store chain now) as
    (store' & st & ? & ? & ? & _ & ? & _); try done; [|by exists store', st].
  intros st Hst. split; [|by apply Hsize]. apply list_elem_of_lookup in Hst as [i Hi].
  destruct (Hok i st Hi) as (? & ? & _). eapply Hback; [|done..]. by apply (proj2 Hd).
Qed.

Lemma ex_restarted :
  ∃ store st, history ex_library ex_Decode ex_json ex_calls ex_server2 store ∧ state store = Some st ∧
    Phase st = PhaseCommitting ∧ ex_fo ∈ RequiredReplicas st.
Proof.
  destruct ex_records_ok as (Hinv & Hk & Hsize & record & Hlast & HP & Hr).
  destruct (known_opens ex_committing ex_records (ex_at 14) Hinv) as (Hback & store & st & Ho & Hl & Hst & Hk').
  { rewrite Hk. split; by vm_compute. }
  { exact Hsize. }
  rewrite Hlast in Hl. apply (inj Some) in Hl. subst st. exists store, record.
  split; [|split; [exact Hst|split; [exact HP|rewrite Hr; right; by left] ] ].
  eapply (history_restart _ _ _ _ ex_server ex_committing no_faults (ex_at 14) (Some ex_payload2)
    ex_publisher (60 * second) (60 * second) minute); [exact ex_history|]. split; [exact Hback|].
  exists ex_registry2. split; [exact ex_registry2_loads|]. split; [exact Ho|].
  eapply ex_server2_new; [exact Hst|exact Hr|]. rewrite Hk'. exact Hk.
Qed.

(** Two replicas prepared the second generation, and it became active; the process that
    then reads this from the directory has other keys, but the request is there, and it
    carries a MAC under the key of that time. *)
Lemma generation_needs_every_key_witness :
  ∃ store st p request nonce q,
    history ex_library ex_Decode ex_json ex_calls ex_server2 store ∧ state store = Some st ∧
    Phase st = PhaseCommitting ∧ (ex_server, AtAck, request) ∈ ex_calls ∧
    identities (registry ex_server) !! "fo-1" = Some p ∧
    identities (registry ex_server2) !! "fo-1" ≠ Some p ∧
    signed_by p request (marshal_ack q) nonce ∧ k_Stage q = AckPrepared.
Proof.
  destruct ex_restarted as (store & st & Hh & Hst & HP & Hr).
  destruct (generation_needs_every_key ex_library ex_Decode ex_json ex_calls ex_server2 store st ex_fo Hh
    Hst HP Hr) as (then_ & p & request & nonce & q & Hin & Hp & _ & Hs & Hstage & _).
  assert (then_ = ex_server) as Ht.
  { unfold ex_calls in Hin. rewrite !elem_of_cons, elem_of_nil in Hin.
    destruct Hin as [H|[H|[H|[] ] ] ]; exact (f_equal (λ c, c.1.1) H). }
  subst then_. exists store, st, p, request, nonce, q.
  split; [exact Hh|]. split; [exact Hst|]. split; [exact HP|]. split; [exact Hin|]. split; [exact Hp|].
  split; [|split; [exact Hs|exact Hstage] ].
  intros Hp2. rewrite <- Hp in Hp2. revert Hp2. vm_compute. discriminate.
Defined.

Lemma stable_advance f store st now :
  state store = Some st → Phase st = PhaseStable → validTime now = true → Advance f store now = (store, None).
Proof. intros Hst HP Hn. unfold Advance, on_state. by rewrite Hst, HP, Hn. Qed.

Lemma ex_reachable :
  reachable ex_library (ex_client (principal_of ex_cp 1)) ex_server (calm 1) (ex_at 1) ex_value (ex_url pathState).
Proof.
  constructor.
  - vm_compute. reflexivity.
  - discriminate.
  - vm_compute. split; [split; discriminate|split; [discriminate|reflexivity] ].
  - vm_compute. reflexivity.
  - split; vm_compute; reflexivity.
  - reflexivity.
  - reflexivity.
  - reflexivity.
Qed.

(** A replica reads the state of a new store. *)
Lemma state_read_back_witness :
  is_Some (state ex_first) ∧
  GetState ex_library (ex_client (principal_of ex_cp 1)) (ex_at 1) (Some ex_value)
    (coordinator ex_library ex_server ex_first AtState (calm 1) ex_tls ex_tls) =
  Ok (view_of ex_first).
Proof.
  assert (match state ex_first with
          | Some st => bool_decide (Phase st = PhaseStable) && validateState st && validSHA256 (digest ex_first)
          | None => false
          end = true) as Hc by (vm_compute; reflexivity).
  destruct (state ex_first) as [st|] eqn:Hst; [|discriminate Hc]. split; [exists st; reflexivity|].
  apply andb_true_iff in Hc as [Hc Hd]. apply andb_true_iff in Hc as [HP Hv]. apply bool_decide_eq_true in HP.
  pose proof (stable_advance no_faults ex_first st (ex_at 1) Hst HP eq_refl) as Hadv.
  rewrite (state_read_back ex_library (ex_client (principal_of ex_cp 1)) ex_server ex_first (calm 1) (ex_at 1)
    ex_value ex_tls ex_tls (ex_url pathState) ex_first st).
  - replace (_ <=? _) with true by (vm_compute; reflexivity). unfold view_of. cbn [before_answer calm].
    rewrite Hst. reflexivity.
  - exact ex_reachable.
  - exact Hadv.
  - exact Hst.
  - exact Hv.
  - exact Hd.
  - cbn [Decode_view ex_library before_answer calm]. rewrite bool_decide_true by reflexivity. reflexivity.
Defined.

(** A request stamped five centuries ahead, and its replay. *)
Definition far_client : Client := ex_client (principal_of ex_cp 1).
Definition far_request : Wire.Request :=
  Wire.arrived ex_tls (api_request far_client (from_unix 20000000000) (EncodeToString ex_value) "GET" pathState
                         (ex_url pathState) None).
Definition after_far : Server := (reserveNonce ex_server "cp-1" (EncodeToString ex_value) (ex_at 0)).1.
Definition after_replay : Server := (reserveNonce after_far "cp-1" (EncodeToString ex_value) (ex_at 1000)).1.

Lemma far_accepted :
  authorize ex_server (ex_at 0) far_request [] = (after_far, Some (principal_of ex_cp 1, EncodeToString ex_value)) ∧
  authorize after_far (ex_at 1000) far_request [] =
    (after_replay, Some (principal_of ex_cp 1, EncodeToString ex_value)).
Proof.
  split.
  - refine (authorize_accepts ex_server far_client (from_unix 20000000000) (ex_at 0) ex_value "GET" pathState
      (ex_url pathState) ex_tls None _ _ _ _ _ _ _ _ _); vm_compute; done.
  - refine (authorize_accepts after_far far_client (from_unix 20000000000) (ex_at 1000) ex_value "GET" pathState
      (ex_url pathState) ex_tls None _ _ _ _ _ _ _ _ _); vm_compute; done.
Qed.

Lemma api_request_accepted_once_witness :
  (ex_at 0 = time_Unix 20000000000 - minute ∧ ex_at 1000 = time_Unix 20000000000 + minute) ∨
  Z.min (ex_at 0) (ex_at 1000) + 2 ^ 63 ≤ time_Unix 20000000000 ∨
  Exists (λ c : Time * Wire.Request * bytes, ex_at 1000 < c.1.1 ∧ ex_at 0 + 2 * minute ≤ c.1.1) [].
Proof.
  destruct far_accepted as [H1 H2].
  apply (api_request_accepted_once ex_server (ex_at 0) (ex_at 1000) far_request far_request [] [] []
    after_far after_replay (principal_of ex_cp 1) (principal_of ex_cp 1) (EncodeToString ex_value)
    "20000000000" 20000000000).
  - exact H1.
  - exact H2.
  - reflexivity.
  - vm_compute. split; [reflexivity|discriminate].
  - reflexivity.
  - reflexivity.
  - vm_compute. reflexivity.
Defined.

End GenerationClient.
