(* ===== verification/GenerationFleet.v ===== *)
(** * GenerationFleet: the largest fleet under the coordinator

    Theorems on [Generation], [GenerationAPI] and the client: a run of the store with the
    sixty-four replicas that [validReplicas] and the registry allow at most, from the
    initialisation to the commit of a second generation, and what its clients can read of
    it. The run is followed symbolically: what each commit checks is proved for every
    digest of the record before it. *)

From stdpp Require Import base gmap strings list pretty.
From Stdlib Require Import ZArith Lia.
From Stdlib.Strings Require Import Byte.
From S2P Require Import Prelude GoBase GoCrypto Protocol Auth GoWire FactoryTime FactoryTheorems Generation GenerationGuard GenerationAPI GenerationAPITheorems GenerationClient.

Module GenerationFleet.
Import Ident Generation GenerationGuard GenerationAPI GenerationAPITheorems GenerationClient.

(** ** Lists that pass the checks of a state *)

Definition role_ok (value : ReplicaRef) : bool :=
  ValidIdentifier (r_ID value) 64
  && (bool_decide (r_Role value = "controlplane") || bool_decide (r_Role value = "firmwareorigin")).

Definition of_role (role : string) (values : list ReplicaRef) : Z :=
  Z.of_nat (length (filter (λ v, r_Role v = role) values)).

Lemma of_role_cons role v values :
  of_role role (v :: values) = of_role role values + (if bool_decide (r_Role v = role) then 1 else 0).
Proof.
  unfold of_role. rewrite filter_cons. case_bool_decide; [rewrite decide_True by done|rewrite decide_False by done];
    cbn [length]; lia.
Qed.

Lemma validReplicas_from_complete values seen c o :
  NoDup (r_ID <$> values) → (∀ v, v ∈ values → r_ID v ∉ seen) → forallb role_ok values = true →
  0 < c + of_role "controlplane" values → 0 < o + of_role "firmwareorigin" values →
  validReplicas_from values seen c o = true.
Proof.
  revert seen c o. induction values as [|v values IH]; intros seen c o Hnd Hs Hok Hc Ho; cbn [validReplicas_from].
  - unfold of_role in *. cbn in *. apply andb_true_iff. split; apply Z.ltb_lt; lia.
  - cbn in Hnd. apply NoDup_cons in Hnd as [Hnew Hnd]. cbn [forallb] in Hok. apply andb_true_iff in Hok as [Hv Hok].
    unfold role_ok in Hv. apply andb_true_iff in Hv as [Hid Hrole]. rewrite Hid, <- negb_orb, Hrole. cbn [negb orb].
    rewrite bool_decide_false by (apply Hs; by left). rewrite !of_role_cons in *.
    apply IH; [done| |done|destruct (bool_decide (_ = "controlplane")); lia
      |destruct (bool_decide (_ = "firmwareorigin")); lia].
    intros w Hw. apply not_elem_of_union. split; [|by apply Hs; right].
    intros Heq%elem_of_singleton. apply Hnew. rewrite <- Heq. by apply list_elem_of_fmap_2.
Qed.

(** What one acknowledgement must satisfy by itself. *)
Definition ack_ok (st : State) (ack : Acknowledgement) : bool :=
  containsReplica (RequiredReplicas st) {| r_ID := ReplicaID ack; r_Role := Role ack |}
  && (bool_decide (Stage ack = AckPrepared) || bool_decide (Stage ack = AckActive))
  && ValidIdentifier (GenerationID ack) 64 && validSHA256 (AckReceiptSHA256 ack)
  && (1609459200 <=? AcknowledgedAt ack) && (AcknowledgedAt ack <=? UpdatedAt st).

Lemma valid_acks_complete st acks seen :
  NoDup (ReplicaID <$> acks) → (∀ a, a ∈ acks → ReplicaID a ∉ seen) → forallb (ack_ok st) acks = true →
  valid_acks st acks seen = true.
Proof.
  revert seen. induction acks as [|a acks IH]; intros seen Hnd Hs Hok; cbn [valid_acks]; [done|].
  cbn in Hnd. apply NoDup_cons in Hnd as [Hnew Hnd]. cbn [forallb] in Hok. apply andb_true_iff in Hok as [Ha Hok].
  unfold ack_ok in Ha. repeat (apply andb_true_iff in Ha as [Ha ?]). cbv zeta.
  rewrite bool_decide_false by (apply Hs; by left). rewrite <- negb_orb. rewrite !Z.ltb_antisym.
  repeat match goal with H : _ = true |- _ => rewrite H; clear H end. cbn [negb orb].
  apply IH; [done| |done]. intros w Hw. apply not_elem_of_union. split; [|by apply Hs; right].
  intros Heq%elem_of_singleton. apply Hnew. rewrite <- Heq. by apply list_elem_of_fmap_2.
Qed.

Lemma sorted_by_take {A} (key : A → string) (xs : list A) n :
  sorted_by key xs = true → sorted_by key (take n xs) = true.
Proof.
  revert n. induction xs as [|x [|y xs] IH]; intros [|n] Hs; try done; [by destruct n|].
  cbn [sorted_by] in Hs. apply andb_true_iff in Hs as [Hxy Hs]. specialize (IH n Hs).
  destruct n as [|n]; [done|]. cbn [take sorted_by] in *. by rewrite Hxy.
Qed.

Lemma sort_by_sorted {A} (key : A → string) (xs : list A) : sorted_by key xs = true → sort_by key xs = xs.
Proof.
  unfold sort_by. induction xs as [|x [|y xs] IH]; intros Hs; try done.
  cbn [sorted_by] in Hs. apply andb_true_iff in Hs as [Hxy Hs]. cbn [foldr] in *. rewrite (IH Hs).
  cbn [insert_by]. apply negb_true_iff in Hxy. by rewrite Hxy.
Qed.

Lemma restage_new acks id stage at_ : id ∉ ReplicaID <$> acks → restage acks id stage at_ = None.
Proof.
  induction acks as [|a acks IH]; [done|]. rewrite fmap_cons, not_elem_of_cons. intros [Ha Hacks]. cbn [restage].
  rewrite bool_decide_false by done. by rewrite IH.
Qed.

Lemma acks_by_id_lookup acks a :
  NoDup (ReplicaID <$> acks) → a ∈ acks → acks_by_id acks !! ReplicaID a = Some a.
Proof.
  unfold acks_by_id. induction acks as [|b acks IH] using rev_ind; [by intros _ ?%elem_of_nil|].
  rewrite fmap_app, fold_left_app. intros (Hnd & Hdis & _)%NoDup_app [Ha|Ha%list_elem_of_singleton]%elem_of_app; cbn.
  - rewrite lookup_insert_ne; [by apply IH|]. intros Heq. apply (Hdis (ReplicaID a)); [by apply list_elem_of_fmap_2|].
    rewrite <- Heq. by left.
  - subst b. apply lookup_insert_eq.
Qed.

Lemma acks_by_id_none acks id : id ∉ ReplicaID <$> acks → acks_by_id acks !! id = None.
Proof.
  unfold acks_by_id. induction acks as [|b acks IH] using rev_ind; [done|].
  rewrite fmap_app, fold_left_app, not_elem_of_app. intros [Hacks Hb]. cbn.
  rewrite lookup_insert_ne; [by apply IH|]. intros <-. apply Hb. by left.
Qed.

Lemma count_changes_same prior acks rest target n :
  (∀ a, a ∈ acks → prior !! ReplicaID a = Some a) →
  count_changes prior (acks ++ rest) target n = count_changes prior rest target n.
Proof.
  induction acks as [|a acks IH]; intros Hin; [done|]. cbn [app count_changes].
  rewrite (Hin a) by by left. rewrite !bool_decide_true by done. cbn [negb]. apply IH. intros b Hb.
  apply Hin. by right.
Qed.

(** One more acknowledgement is progress. *)
Lemma ack_progress acks a :
  NoDup (ReplicaID <$> acks ++ [a]) → Stage a = AckPrepared → ackProgresses acks (acks ++ [a]) AckPrepared = true.
Proof.
  rewrite fmap_app. intros (Hnd & Hdis & _)%NoDup_app Hstage. unfold ackProgresses. rewrite length_app. cbn [length].
  rewrite (proj2 (Nat.ltb_ge _ _)), (proj2 (Nat.ltb_ge _ _)) by lia. cbn [orb].
  rewrite count_changes_same by (intros b Hb; by apply acks_by_id_lookup). cbn [count_changes].
  rewrite acks_by_id_none; [by rewrite Hstage|]. intros Hin. apply (Hdis _ Hin). by left.
Qed.

(** ** A commit without faults *)

(** No file is in the way of a commit of this revision or of a later one. *)
Definition fresh (store : Store) (revision : Z) : Prop :=
  (∀ r, dir store !! stateTempName r = None) ∧
  (∀ r, u64 r → revision ≤ r → dir store !! stateFileName r = None).

Lemma skipped_ne a b : skipped a = true → skipped b = false → a ≠ b.
Proof. intros Ha Hb ->. by rewrite Ha in Hb. Qed.

Lemma commit_succeeds store next :
  validateState next = true →
  match state store with None => True | Some prior => validateTransition prior next (digest store) = true end →
  u64 (Revision next) → fresh store (Revision next) →
  ∃ store', commitLocked no_faults store next = (store', None) ∧
    state store' = Some (sign (key store) next) ∧ validSHA256 (digest store') = true ∧
    key store' = key store ∧ drainStarted store' = drainStarted store ∧ fresh store' (Revision next + 1).
Proof.
  intros Hv Ht Hu [Htemp Hrec]. unfold commitLocked. rewrite Hv. cbn [negb].
  replace (match state store with None => false | Some prior => negb (validateTransition prior next (digest store)) end)
    with false by (destruct (state store); [by rewrite Ht|done]).
  change (Revision (sign (key store) next)) with (Revision next). unfold exists_file.
  rewrite (bool_decide_false (is_Some (dir store !! _))) by (rewrite Htemp; by intros [? ?]).
  cbn [no_faults temp_fails failpoint_temp link_fails remove_fails sync_fails failpoint_record orb].
  pose proof (skipped_ne _ _ (temp_skipped (Revision next)) (record_not_skipped (Revision next))) as Hne.
  rewrite (bool_decide_false (is_Some (dir (set_dir _ _) !! _)));
    [|cbn; rewrite lookup_insert_ne, Hrec by (done || lia); by intros [? ?] ].
  unfold writeCurrentLocked. cbn [no_faults current_temp_fails rename_fails current_sync_fails].
  eexists. split; [reflexivity|]. cbn.
  split; [reflexivity|]. split; [apply FactoryTheorems.hex_encode_valid, Sum256_length|]. split; [done|]. split; [done|].
  split; cbn.
  - intros r. rewrite lookup_insert_ne by discriminate. rewrite lookup_delete_ne by discriminate.
    rewrite lookup_insert_ne by discriminate. rewrite lookup_delete_ne by discriminate.
    destruct (decide (stateTempName (Revision next) = stateTempName r)) as [<-|Hd]; [apply lookup_delete_eq|].
    rewrite lookup_delete_ne by done. rewrite lookup_insert_ne by discriminate. by rewrite lookup_insert_ne.
  - intros r Hr Hle. rewrite lookup_insert_ne by discriminate. rewrite lookup_delete_ne by discriminate.
    rewrite lookup_insert_ne by discriminate. rewrite lookup_delete_ne by discriminate.
    rewrite lookup_delete_ne by discriminate. rewrite lookup_insert_ne; [rewrite lookup_insert_ne|].
    + apply Hrec; [done|lia].
    + discriminate.
    + intros Heq. apply stateFileName_inj in Heq; [lia|done|done].
Qed.
(** ** The fleet

    Thirty-two control planes and thirty-two firmware origins. *)

Definition fleet_half (prefix role : string) : list ReplicaRef :=
  (λ i, {| r_ID := prefix +:+ pad_dec 2 (Z.of_nat i); r_Role := role |}) <$> seq 1 32.
Definition fleet : list ReplicaRef := fleet_half "control-" "controlplane" ++ fleet_half "origin-" "firmwareorigin".
Definition fleet_first : Gen :=
  {| ID := "generation-1"; Sequence := 1; ReceiptSHA256 := hex_encode (replicate 32 (byte_of 1)) |}.
Definition fleet_gen : Gen :=
  {| ID := "generation-2"; Sequence := 2; ReceiptSHA256 := hex_encode (replicate 32 (byte_of 2)) |}.
Definition fleet_time : Time := from_unix 1750000000.
Definition fleet_ack (r : ReplicaRef) : Acknowledgement :=
  {| ReplicaID := r_ID r; Role := r_Role r; Stage := AckPrepared; GenerationID := ID fleet_gen;
     AckReceiptSHA256 := ReceiptSHA256 fleet_gen; AcknowledgedAt := 1750000000 |}.
Definition fleet_acks (n : nat) : list Acknowledgement := fleet_ack <$> take n fleet.

(** The states of the run; [previous] and [mac] are the digest of the record before and
    the MAC of this one. *)
Definition fleet_stable (previous mac : string) : State :=
  {| Schema := 1; Revision := 1; PreviousRecordSHA256 := previous; Phase := PhaseStable;
     Active := fleet_first; Pending := None; RequiredReplicas := fleet;
     Acknowledgements := []; PrepareDeadline := 0; DrainUntil := 0; CommitDeadline := 0;
     UpdatedAt := 1750000000; RecordHMACB64URL := mac |}.
Definition fleet_preparing (previous mac : string) (n : nat) : State :=
  {| Schema := 1; Revision := Z.of_nat n + 2; PreviousRecordSHA256 := previous; Phase := PhasePreparing;
     Active := fleet_first; Pending := Some fleet_gen; RequiredReplicas := fleet;
     Acknowledgements := fleet_acks n; PrepareDeadline := 1750000600; DrainUntil := 0;
     CommitDeadline := 600; UpdatedAt := 1750000000; RecordHMACB64URL := mac |}.
Definition fleet_draining (previous mac : string) : State :=
  {| Schema := 1; Revision := 66; PreviousRecordSHA256 := previous; Phase := PhaseDraining;
     Active := fleet_first; Pending := Some fleet_gen; RequiredReplicas := fleet;
     Acknowledgements := fleet_acks 64; PrepareDeadline := 0; DrainUntil := 1750000010;
     CommitDeadline := 600; UpdatedAt := 1750000000; RecordHMACB64URL := mac |}.
Definition fleet_committing (previous mac : string) : State :=
  {| Schema := 1; Revision := 67; PreviousRecordSHA256 := previous; Phase := PhaseCommitting;
     Active := fleet_gen; Pending := Some fleet_gen; RequiredReplicas := fleet;
     Acknowledgements := fleet_acks 64; PrepareDeadline := 0; DrainUntil := 0;
     CommitDeadline := 1750000610; UpdatedAt := 1750000010; RecordHMACB64URL := mac |}.

Lemma fleet_NoDup : NoDup (r_ID <$> fleet).
Proof. apply (bool_decide_unpack _). vm_compute. exact I. Qed.

Lemma fleet_length : length fleet = 64%nat.
Proof. reflexivity. Qed.

Lemma fleet_acks_ids n : ReplicaID <$> fleet_acks n = take n (r_ID <$> fleet).
Proof. unfold fleet_acks. rewrite <- list_fmap_compose, fmap_take. done. Qed.

Lemma fleet_acks_NoDup n : NoDup (ReplicaID <$> fleet_acks n).
Proof.
  rewrite fleet_acks_ids. pose proof fleet_NoDup as H. rewrite <- (take_drop n (r_ID <$> fleet)) in H.
  by apply NoDup_app in H as [? _].
Qed.

Lemma fleet_acks_snoc n r : fleet !! n = Some r → fleet_acks (S n) = fleet_acks n ++ [fleet_ack r].
Proof. intros Hr. unfold fleet_acks. rewrite (take_S_r _ _ _ Hr). by rewrite fmap_app. Qed.

Lemma fleet_sorted : sorted_by r_ID fleet = true.
Proof. vm_compute. reflexivity. Qed.

Lemma fleet_acks_sorted n : sorted_by ReplicaID (fleet_acks n) = true.
Proof.
  assert (sorted_by ReplicaID (fleet_ack <$> fleet) = true) as H by (vm_compute; reflexivity).
  unfold fleet_acks. rewrite fmap_take. by apply sorted_by_take.
Qed.

Lemma fleet_replicas_valid : validReplicas fleet = true.
Proof.
  unfold validReplicas. rewrite fleet_length. cbn [Z.of_nat Pos.of_succ_nat].
  apply validReplicas_from_complete; [apply fleet_NoDup|intros; apply not_elem_of_empty|..];
    vm_compute; reflexivity.
Qed.

(** What the states of the run have in common passes the checks. *)
Lemma fleet_state_valid st n :
  Schema st = 1 → 0 < Revision st → validSHA256 (PreviousRecordSHA256 st) = true →
  validGeneration (Active st) = true → RequiredReplicas st = fleet → 1750000000 ≤ UpdatedAt st ≤ 4102444800 →
  RecordHMACB64URL st = "" → Acknowledgements st = fleet_acks n → valid_phase st = true →
  validateState st = true.
Proof.
  intros H1 H2 H3 H4 H5 H6 H7 H8 H9. unfold validateState.
  rewrite H1, H3, H4, H5, fleet_replicas_valid, fleet_sorted, H7, H8, fleet_acks_sorted, H9.
  rewrite (proj2 (Z.eqb_neq (Revision st) 0)), (proj2 (Z.ltb_ge (UpdatedAt st) _)), (proj2 (Z.ltb_ge _ (UpdatedAt st))) by lia.
  cbn [negb orb andb Z.eqb Pos.eqb]. rewrite bool_decide_true by done. cbn [negb andb].
  rewrite valid_acks_complete; [done|apply fleet_acks_NoDup|intros; apply not_elem_of_empty|].
  apply forallb_forall. intros a Ha%list_elem_of_In. apply list_elem_of_fmap in Ha as (r & -> & Hr).
  unfold ack_ok. rewrite H5.
  assert (containsReplica fleet r = true) as Hc.
  { apply existsb_exists. exists r. split; [|by apply bool_decide_eq_true].
    apply list_elem_of_In. rewrite <- (take_drop n fleet). apply elem_of_app. by left. }
  destruct r as [id role]. cbn [fleet_ack ReplicaID Role Stage GenerationID AckReceiptSHA256 AcknowledgedAt r_ID r_Role].
  rewrite Hc, (proj2 (Z.leb_le 1750000000 _)) by lia. vm_compute. reflexivity.
Qed.

Lemma acks_all_prepared n :
  forallb (λ ack, bool_decide (Stage ack = AckPrepared) && ackMatches ack fleet_gen) (fleet_acks n) = true.
Proof.
  apply forallb_forall. intros a Ha%list_elem_of_In. apply list_elem_of_fmap in Ha as (r & -> & _).
  vm_compute. reflexivity.
Qed.

(** ** The run *)

(** A store in a state of the run, with nothing in the way of the next commit. *)
Definition at_state (store : Store) (st : State) : Prop :=
  state store = Some st ∧ validSHA256 (digest store) = true ∧ fresh store (Revision st + 1).

(** One commit of the run: the next state is valid and follows from the last one. *)
Lemma fleet_commit store next n :
  Schema next = 1 ∧ RequiredReplicas next = fleet ∧ Acknowledgements next = fleet_acks n ∧
    RecordHMACB64URL next = "" →
  0 < Revision next < 2 ^ 64 → 1750000000 ≤ UpdatedAt next ≤ 4102444800 →
  validSHA256 (PreviousRecordSHA256 next) = true → validGeneration (Active next) = true →
  valid_phase next = true →
  match state store with None => True | Some prior => validateTransition prior next (digest store) = true end →
  fresh store (Revision next) →
  ∃ store' mac, commitLocked no_faults store next = (store', None) ∧ at_state store' (with_hmac next mac) ∧
    drainStarted store' = drainStarted store.
Proof.
  intros (? & ? & ? & ?); intros. destruct (commit_succeeds store next) as (store' & Hc & Hst & Hd & _ & Hds & Hf);
    [apply (fleet_state_valid next n); try done; lia|done|unfold u64; lia|done|].
  exists store', (EncodeToString (hmac_sha256 (key store) (marshal_unsigned next))). by split_and!.
Qed.

Lemma fleet_initialised :
  ∃ store mac, InitializeStore no_faults (replicate 32 (byte_of 9)) fleet_first fleet fleet_time = Ok store ∧
    at_state store (fleet_stable zeroDigest mac).
Proof.
  unfold InitializeStore. rewrite fleet_replicas_valid. unfold sortReplicas. rewrite (sort_by_sorted _ _ fleet_sorted).
  replace ((blen (replicate 32 (byte_of 9)) <? 32) || _ || _ || _ || _) with false by (vm_compute; reflexivity).
  set (empty := Build_Store _ _ _ _ _).
  change (Build_State _ _ _ _ _ _ _ _ _ _ _ _ _) with (fleet_stable zeroDigest "").
  destruct (fleet_commit empty (fleet_stable zeroDigest "") 0) as (store & mac & Hc & Hat & _).
  - by split_and!.
  - vm_compute. split; reflexivity.
  - vm_compute. split; discriminate.
  - vm_compute. reflexivity.
  - vm_compute. reflexivity.
  - vm_compute. reflexivity.
  - exact I.
  - split; intros; apply lookup_empty.
  - rewrite Hc. exists store, mac. split; [reflexivity|exact Hat].
Qed.

Lemma fleet_published store mac previous :
  at_state store (fleet_stable previous mac) →
  ∃ store' d mac', Publish no_faults store 1 fleet_first fleet_gen (600 * second) (600 * second) fleet_time =
    (store', None) ∧ at_state store' (fleet_preparing d mac' 0).
Proof.
  intros (Hst & Hd & Hf). unfold Publish, on_state. rewrite Hst.
  match goal with |- context [if ?b then (_, Some ErrConflict) else _] =>
    replace b with false by (vm_compute; reflexivity) end.
  match goal with |- context [if ?b then (_, Some ErrInvalid) else _] =>
    replace b with false by (vm_compute; reflexivity) end.
  change (make_preparing _ _ _ _) with (fleet_preparing (digest store) "" 0).
  destruct (fleet_commit store (fleet_preparing (digest store) "" 0) 0) as (store' & mac' & Hc & Hat & _).
  - by split_and!.
  - vm_compute. split; reflexivity.
  - vm_compute. split; discriminate.
  - exact Hd.
  - vm_compute. reflexivity.
  - vm_compute. reflexivity.
  - rewrite Hst. unfold validateTransition. cbn [PreviousRecordSHA256 fleet_preparing].
    rewrite (bool_decide_true (digest store = digest store)) by done. vm_compute. reflexivity.
  - exact Hf.
  - rewrite Hc. exists store', (digest store), mac'. split; [reflexivity|exact Hat].
Qed.

Lemma fleet_revision n : (n < 64)%nat → wrap_u64 (Z.of_nat n + 2 + 1) = Z.of_nat (S n) + 2.
Proof. intros Hn. unfold wrap_u64. rewrite Z.mod_small; lia. Qed.

(** Every acknowledgement in turn is a transition. *)
Lemma fleet_transition previous mac n r next d :
  fleet !! n = Some r →
  Revision next = Z.of_nat (S n) + 2 ∧ PreviousRecordSHA256 next = d ∧ UpdatedAt next = 1750000000 ∧
    RequiredReplicas next = fleet ∧ Active next = fleet_first ∧ Pending next = Some fleet_gen ∧
    Acknowledgements next = fleet_acks (S n) →
  Phase next = PhasePreparing ∨ Phase next = PhaseDraining →
  validateTransition (fleet_preparing previous mac n) next d = true.
Proof.
  intros Hr (H1 & H2 & H3 & H4 & H5 & H6 & H7) Hp.
  assert (n < 64)%nat as Hn by (apply lookup_lt_Some in Hr; by rewrite fleet_length in Hr).
  unfold validateTransition.
  rewrite H1, H2, H3, H4, H5, H6, H7, (fleet_acks_snoc _ _ Hr). cbn [fleet_preparing Revision UpdatedAt RequiredReplicas Phase Active Pending Acknowledgements].
  rewrite fleet_revision, Z.eqb_refl by done. unfold replicasEqual. rewrite !(bool_decide_true (_ = _)) by done.
  rewrite ack_progress; [|by rewrite <- (fleet_acks_snoc _ _ Hr); apply fleet_acks_NoDup|done].
  destruct Hp as [-> | ->]; vm_compute; reflexivity.
Qed.

(** The guards of [Acknowledge] pass, and the entry is put at the end. *)
Lemma fleet_acknowledge store previous mac n r :
  at_state store (fleet_preparing previous mac n) → fleet !! n = Some r →
  Acknowledge no_faults no_faults store (Z.of_nat n + 2) r fleet_gen AckPrepared fleet_time =
  ack_commit no_faults no_faults store (fleet_preparing (digest store) "" (S n)) AckPrepared fleet_time.
Proof.
  intros (Hst & _) Hr.
  assert (n < 64)%nat as Hn by (apply lookup_lt_Some in Hr; by rewrite fleet_length in Hr).
  unfold Acknowledge, on_state. rewrite Hst. cbn [fleet_preparing Revision RequiredReplicas].
  rewrite Z.eqb_refl. replace (containsReplica fleet r) with true; cycle 1.
  { symmetry. apply containsReplica_elem. by eapply list_elem_of_lookup_2. }
  replace (validTime fleet_time) with true by (vm_compute; reflexivity). cbn [negb orb].
  replace (ack_guard no_faults store _ r fleet_gen AckPrepared fleet_time) with (@None (Store * option error))
    by (vm_compute; reflexivity).
  cbv zeta. cbn [nextLocked fleet_preparing Acknowledgements].
  rewrite restage_new; cycle 1.
  { pose proof (fleet_acks_NoDup (S n)) as H. rewrite (fleet_acks_snoc _ _ Hr), fmap_app in H.
    apply NoDup_app in H as (_ & H & _). intros Hin. apply (H _ Hin). by left. }
  change ({| ReplicaID := r_ID r; Role := _ |}) with (fleet_ack r).
  rewrite <- (fleet_acks_snoc _ _ Hr), (sort_by_sorted _ _ (fleet_acks_sorted _)). f_equal.
  unfold with_acks, nextLocked, fleet_preparing.
  cbn [Schema Revision PreviousRecordSHA256 Phase Active Pending RequiredReplicas Acknowledgements PrepareDeadline DrainUntil
    CommitDeadline UpdatedAt RecordHMACB64URL]. by rewrite fleet_revision.
Qed.
Lemma fleet_acks_length n : (n ≤ 64)%nat → length (fleet_acks n) = n.
Proof. intros Hn. unfold fleet_acks. rewrite length_fmap, length_take, fleet_length. lia. Qed.

Lemma fleet_prepared store previous mac n r :
  at_state store (fleet_preparing previous mac n) → fleet !! n = Some r → (n < 63)%nat →
  ∃ store' d mac', Acknowledge no_faults no_faults store (Z.of_nat n + 2) r fleet_gen AckPrepared fleet_time =
    (store', None) ∧ at_state store' (fleet_preparing d mac' (S n)).
Proof.
  intros Hat Hr Hn. rewrite (fleet_acknowledge _ _ _ _ _ Hat Hr). destruct Hat as (Hst & Hd & Hf).
  unfold ack_commit. set (next := fleet_preparing (digest store) "" (S n)).
  replace (allAcknowledged next AckPrepared) with false; cycle 1.
  { unfold allAcknowledged. cbn [next fleet_preparing Acknowledgements RequiredReplicas].
    rewrite fleet_acks_length, fleet_length by lia. by rewrite (proj2 (Nat.eqb_neq _ _)) by lia. }
  cbn [andb]. destruct (fleet_commit store next (S n)) as (store' & mac' & Hc & Hat & _).
  - by split_and!.
  - cbn [next fleet_preparing Revision]. lia.
  - vm_compute. split; discriminate.
  - exact Hd.
  - vm_compute. reflexivity.
  - exact (acks_all_prepared (S n)).
  - rewrite Hst. eapply (fleet_transition _ _ _ r); [done|by split_and!|by left].
  - cbn [fleet_preparing Revision] in Hf. cbn [next fleet_preparing Revision].
    replace (Z.of_nat (S n) + 2) with (Z.of_nat n + 2 + 1) by lia. exact Hf.
  - rewrite Hc. unfold on_state. destruct Hat as (Hst' & Hrest). rewrite Hst'.
    exists store', (digest store), mac'. split; [reflexivity|exact (conj Hst' Hrest)].
Qed.

Lemma fleet_drained store previous mac r :
  at_state store (fleet_preparing previous mac 63) → fleet !! 63%nat = Some r →
  ∃ store' d mac', Acknowledge no_faults no_faults store (Z.of_nat 63 + 2) r fleet_gen AckPrepared fleet_time = (store', None) ∧
    at_state store' (fleet_draining d mac') ∧ drainStarted store' = fleet_time.
Proof.
  intros Hat Hr. rewrite (fleet_acknowledge _ _ _ _ _ Hat Hr). destruct Hat as (Hst & Hd & Hf). unfold ack_commit.
  replace (allAcknowledged (fleet_preparing (digest store) "" 64) AckPrepared) with true by (vm_compute; reflexivity).
  rewrite bool_decide_true by done. cbn [andb]. cbv zeta.
  change (make_draining _ _) with (fleet_draining (digest store) "").
  destruct (fleet_commit (set_drainStarted store fleet_time) (fleet_draining (digest store) "") 64)
    as (store' & mac' & Hc & Hat & Hds).
  - by split_and!.
  - vm_compute. split; reflexivity.
  - vm_compute. split; discriminate.
  - exact Hd.
  - vm_compute. reflexivity.
  - vm_compute. reflexivity.
  - cbn [set_drainStarted state digest]. rewrite Hst.
    eapply (fleet_transition _ _ _ r); [done|by split_and!|by right].
  - exact Hf.
  - rewrite Hc. unfold on_state. destruct Hat as (Hst' & Hrest). rewrite Hst'.
    exists store', (digest store), mac'. split; [reflexivity|]. split; [exact (conj Hst' Hrest)|exact Hds].
Qed.

Lemma fleet_committed store previous mac :
  at_state store (fleet_draining previous mac) → drainStarted store = fleet_time →
  ∃ store' d mac', Advance no_faults store (fleet_time + DrainDuration) = (store', None) ∧
    at_state store' (fleet_committing d mac').
Proof.
  intros (Hst & Hd & Hf) Hds. unfold Advance, on_state. rewrite Hst, Hds.
  match goal with |- context [if ?b then (_, Some ErrInvalid) else _] =>
    replace b with false by (vm_compute; reflexivity) end.
  rewrite (bool_decide_false (Phase (fleet_draining previous mac) = PhasePreparing)) by done.
  rewrite (bool_decide_true (Phase (fleet_draining previous mac) = PhaseDraining)) by done. cbv zeta.
  replace (IsZero fleet_time) with false by (vm_compute; reflexivity). rewrite Hds.
  match goal with |- context [if ?b then (_, None) else _] => replace b with false by (vm_compute; reflexivity) end.
  cbn [Pending fleet_draining].
  change (make_committing _ _ _) with (fleet_committing (digest store) "").
  destruct (fleet_commit store (fleet_committing (digest store) "") 64) as (store' & mac' & Hc & Hat & _).
  - by split_and!.
  - vm_compute. split; reflexivity.
  - vm_compute. split; discriminate.
  - exact Hd.
  - vm_compute. reflexivity.
  - vm_compute. reflexivity.
  - rewrite Hst. unfold validateTransition. cbn [PreviousRecordSHA256 fleet_committing].
    rewrite (bool_decide_true (digest store = digest store)) by done. vm_compute. reflexivity.
  - exact Hf.
  - rewrite Hc. exists store', (digest store), mac'. split; [reflexivity|exact Hat].
Qed.

(** All of the run: the publisher publishes, the replicas acknowledge one after the
    other, and the coordinator's loop finds the drain over. *)
Definition fleet_ack_op (n : nat) (r : ReplicaRef) : op :=
  OAcknowledge no_faults no_faults (Z.of_nat n + 2) r fleet_gen AckPrepared fleet_time.
Definition fleet_ops : list op :=
  OPublish no_faults 1 fleet_first fleet_gen (600 * second) (600 * second) fleet_time ::
  imap fleet_ack_op fleet ++ [OAdvance no_faults (fleet_time + DrainDuration)].

Lemma execs_cons store o ops : execs store (o :: ops) = execs (exec store o).1 ops.
Proof. done. Qed.

Lemma execs_app store ops ops' : execs store (ops ++ ops') = execs (execs store ops) ops'.
Proof. apply fold_left_app. Qed.

Lemma execs_one store o : execs store [o] = (exec store o).1.
Proof. done. Qed.

Lemma fleet_prepared_all store previous mac n :
  at_state store (fleet_preparing previous mac 0) → (n ≤ 63)%nat →
  ∃ d mac', at_state (execs store (take n (imap fleet_ack_op fleet))) (fleet_preparing d mac' n).
Proof.
  intros Hat. induction n as [|n IH]; intros Hn; [by exists previous, mac|].
  destruct IH as (d & mac' & IH); [lia|].
  destruct (lookup_lt_is_Some_2 fleet n) as [r Hr]; [rewrite fleet_length; lia|].
  rewrite (take_S_r _ _ (fleet_ack_op n r)) by by rewrite list_lookup_imap, Hr.
  rewrite execs_app, execs_one. cbn [fleet_ack_op exec].
  destruct (fleet_prepared _ _ _ _ _ IH Hr) as (store' & d' & mac'' & Ha & Hat'); [lia|].
  rewrite Ha. by exists d', mac''.
Qed.

Lemma fleet_run :
  ∃ store d mac, InitializeStore no_faults (replicate 32 (byte_of 9)) fleet_first fleet fleet_time = Ok store ∧
    at_state (execs store fleet_ops) (fleet_committing d mac).
Proof.
  destruct fleet_initialised as (store & mac & Hi & H0). exists store.
  destruct (fleet_published _ _ _ H0) as (s1 & d1 & m1 & Hp & H1).
  destruct (fleet_prepared_all _ _ _ 63 H1) as (d2 & m2 & H2); [lia|].
  destruct (lookup_lt_is_Some_2 fleet 63) as [r Hr]; [rewrite fleet_length; lia|].
  destruct (fleet_drained _ _ _ _ H2 Hr) as (s3 & d3 & m3 & Ha & H3 & Hds).
  destruct (fleet_committed _ _ _ H3 Hds) as (s4 & d4 & m4 & Hadv & H4).
  exists d4, m4. split; [exact Hi|].
  assert (imap fleet_ack_op fleet = take 63 (imap fleet_ack_op fleet) ++ [fleet_ack_op 63 r]) as Hall.
  { rewrite <- (take_S_r _ _ (fleet_ack_op 63 r)) by by rewrite list_lookup_imap, Hr.
    rewrite take_ge; [reflexivity|]. rewrite length_imap, fleet_length. lia. }
  unfold fleet_ops. rewrite Hall, execs_cons, !execs_app, !execs_one. cbn [exec fleet_ack_op].
  rewrite Hp. cbn [fst]. rewrite Ha. cbn [fst]. rewrite Hadv. exact H4.
Qed.

(** ** What the clients can read of it *)

Definition texts_length (ms : list (string * bytes)) : Z := foldr (λ m n, blen m.2 + n) 0 ms.

Lemma join_members_length ms : texts_length ms ≤ blen (FactoryTime.join_members ms).
Proof.
  unfold texts_length, blen. induction ms as [|[name text] ms IH]; [done|]. cbn [foldr snd].
  destruct ms as [|m ms].
  - cbn [foldr FactoryTime.join_members length]. rewrite !length_app. lia.
  - change (FactoryTime.join_members ((name, text) :: m :: ms)) with
      (Wire.dquote :: bytes_of name ++ [Wire.dquote; byte_of 58] ++ text ++ Wire.comma :: FactoryTime.join_members (m :: ms)).
    cbn [length]. rewrite !length_app. cbn [length]. lia.
Qed.

Lemma slice_text_length nil_ values : blen (array_text values) ≤ blen (slice_text nil_ values).
Proof.
  unfold slice_text. destruct (_ && _) eqn:E; [|done]. apply andb_true_iff in E as [_ E].
  by apply bool_decide_eq_true in E as ->.
Qed.

(** The lists of replicas and of acknowledgements are part of the text. *)
Lemma view_text_length store st :
  state store = Some st →
  blen (array_text (replica_text <$> RequiredReplicas st)) + blen (array_text (ack_text <$> Acknowledgements st))
    ≤ blen (view_text store).
Proof.
  intros Hst. unfold view_text, view_of. rewrite Hst. unfold marshal_view, object_text.
  match goal with |- context [FactoryTime.join_members ?ms] =>
    generalize (join_members_length ms); generalize (FactoryTime.join_members ms) end.
  intros text. unfold texts_length. cbn [foldr snd stateView v_RequiredReplicas v_Acknowledgements].
  pose proof (slice_text_length (nil_replicas from_store) (replica_text <$> RequiredReplicas st)).
  pose proof (slice_text_length (nil_acks from_store) (ack_text <$> Acknowledgements st)).
  repeat match goal with |- context [blen ?t + _] =>
    lazymatch goal with H : 0 ≤ blen t |- _ => fail | _ => pose proof (blen_nonneg t) end end.
  intros Hle. unfold blen in *. cbn [length app]. rewrite !length_app. lia.
Qed.

Lemma fleet_text_length store d mac :
  state store = Some (fleet_committing d mac) → maximumAPIBytes < blen (view_text store).
Proof.
  intros Hst. eapply Z.lt_le_trans; [|exact (view_text_length store _ Hst)].
  cbn [fleet_committing RequiredReplicas Acknowledgements]. vm_compute. reflexivity.
Qed.

(** The fleet's state is not advanced: no replica has acknowledged it as active yet. *)
Lemma fleet_advance f store d mac now :
  state store = Some (fleet_committing d mac) → (Advance f store now).1 = store.
Proof.
  intros Hst. unfold Advance, on_state. rewrite Hst. destruct (negb _); [done|].
  rewrite (bool_decide_false (Phase (fleet_committing d mac) = PhasePreparing)),
    (bool_decide_false (Phase (fleet_committing d mac) = PhaseDraining)) by done.
  replace (allAcknowledged (fleet_committing d mac) AckActive) with false by (vm_compute; reflexivity).
  by destruct (bool_decide _).
Qed.

Lemma refused_unread L client nonce tls w :
  Wire.Status w ≠ 200 → ∀ view, view_in L client nonce (Wire.delivered tls w) ≠ Ok view.
Proof.
  intros Hw view. unfold view_in. destruct (Wire.read_limited _ _) as [payload|]; [|done].
  destruct (_ <? _); [done|]. cbn [Wire.StatusCode Wire.delivered].
  rewrite (proj2 (Z.eqb_neq (Wire.Status w) 200)) by done. cbn [negb]. by destruct (_ =? 409).
Qed.

Lemma fleet_unread d mac L client server store e cnow random at_client at_server view :
  state store = Some (fleet_committing d mac) → alone e →
  GetState L client cnow random (coordinator L server store AtState e at_client at_server) ≠ Ok view.
Proof.
  intros Hst [Hb Ha]. unfold GetState, call_.
  destruct random as [value|]; [|done]. destruct (url_Parse L _) as [u|]; [|done]. unfold coordinator.
  set (q := Wire.arrived _ _). cbn [serve]. unfold serve_state.
  destruct (authorize server (n_authorize e) q []) as [server1 [ [p nonce] |] ]; [|by apply refused_unread].
  rewrite Hb. pose proof (fleet_advance (on_commit e) store d mac (n_change e) Hst) as Hadv.
  destruct (Advance _ _ _) as [store1 [err|] ]; [by apply refused_unread|]. cbn in Hadv. subst store1.
  cbn [finish snd]. rewrite Ha. by rewrite view_too_long by by eapply fleet_text_length.
Qed.

(** C38: the largest fleet that the coordinator allows goes blind in mid-rollout. A store
    is initialised with sixty-four replicas, the most that [validReplicas] and the
    registry allow; a second generation is published, every replica acknowledges it as
    prepared, the drain ends, and no file operation fails on the way: the store is then
    committing the second generation, and no client ever reads that state. Whatever
    its key, clock, nonce and libraries are, [GetState] fails on every coordinator whose
    store holds it, because the view is longer than the 16 KiB that the client reads. *)
Theorem full_fleet_goes_blind :
  ∃ store st, InitializeStore no_faults (replicate 32 (byte_of 9)) fleet_first fleet fleet_time = Ok store ∧
    state (execs store fleet_ops) = Some st ∧ length (RequiredReplicas st) = 64%nat ∧
    Phase st = PhaseCommitting ∧ Active st = fleet_gen ∧
    ∀ L client server store' e cnow random at_client at_server view,
      state store' = Some st → alone e →
      GetState L client cnow random (coordinator L server store' AtState e at_client at_server) ≠ Ok view.
Proof.
  destruct fleet_run as (store & d & mac & Hi & Hst & _). exists store, (fleet_committing d mac).
  split_and!; [exact Hi|exact Hst|reflexivity..|]. intros. by eapply fleet_unread.
Qed.

End GenerationFleet.
